(* ===== verification/_CoqProject ===== *)
-Q . S2P
Prelude.v
NetBuffer.v
Resp.v
HashTable.v
ZOrder.v
Skiplist.v
ZRbTree.v
Object.v
ExpireHeap.v
LruList.v
Cache.v
Allocation.v
CacheSpec.v
CacheProps.v
CacheEvents.v
Rdb.v
RdbImage.v
RdbProps.v
Aof.v
AofCodec.v
AofLog.v
AofProps.v
Double.v
MysqlStore.v
MysqlThreads.v
MysqlProps.v
CommandText.v
CommandProps.v
Service.v
ServiceStore.v
ServiceSpec.v
ServiceRuns.v
ServiceCommands.v
ServiceProps.v
ServiceReplay.v
ServiceSession.v
ServiceLog.v
ServiceClaims.v
Checkpoint.v
Persistence.v
Restart.v
Options.v
Reactor.v
App.v
AppFrames.v
AppLoads.v
AppPending.v
AppProps.v
AppFresh.v
Server.v
ServerLoads.v
Pipeline.v
ServerDrain.v
ServerRounds.v
ServerProps.v
MysqlTables.v
MysqlSql.v
MysqlTransactions.v
MysqlRefine.v
MysqlEffects.v
MysqlBackend.v
MysqlLoads.v
Recovery.v
MysqlClaims.v
LegacyTree.v
LegacyTreeProps.v
LegacyEngines.v
LegacyServer.v
LegacyProps.v
