(* ===== verification/Prelude.v ===== *)
(** * A verified model of the store system

    The program is a key-value server in C.  A reactor fills connection
    buffers, the RESP2 parser cuts requests out of them without copying, a
    request handler decides whether a request can be executed now or has to
    wait for a key from the database, a service runs the commands against a
    cache of typed objects, and two persistence mechanisms, an append-only log
    and snapshots, bring the cache back after a restart.  Mutations go to a
    MySQL database through a write-behind queue, and reads that miss the cache
    load from it.  An older server with a text protocol over an array, a
    red-black tree and the hash table is kept beside it.  The development models
    both from the event loop down to the data structures as executable
    definitions and proves what makes them correct.

    ** Files

    - [Prelude]: machine integers at their width ([wrap64], [SIZE_MAX], ...),
      byte slices, allocation outcomes, tactics ([zb], [zif], [zlia],
      [app_eq]), the hint databases [store] and [zlen], list lemmas.
    - [NetBuffer]: [src/net/buffer.c], the growing connection buffer.
    - [Resp]: [src/protocol/resp.c], the incremental zero-copy parser and the
      encoders.
    - [HashTable]: [src/kvstore_hash.c], the chained hash table with two tables
      and incremental rehashing, and the legacy string interface on top of it.
    - [ZOrder], [Skiplist], [ZRbTree], [Object]: [src/engine/object.c].
      [ZOrder] is the order of (score, member) pairs and the sorted list that
      both engines refine; [Skiplist] and [ZRbTree] are the two engines with
      spans and subtree sizes; [Object] is the tagged value with its string,
      hash and sorted-set operations, cloning and memory accounting.
    - [ExpireHeap], [LruList], [Cache]: [src/cache/cache.c].  [ExpireHeap] is
      the binary heap with back indices, [LruList] the doubly linked list of
      uses, [Cache] every operation.  [Allocation] shows how they and the
      objects consume allocation outcomes, [CacheSpec] has the invariant, the
      reference eviction and the specification of storing, [CacheProps] the
      other operations, reachability and the properties, [CacheEvents] which
      keys the eviction callback is told.
    - [Rdb]: [src/persistence/rdb.c], the writer, the atomic replacement of the
      file and the loader.  [RdbImage] has the codec, the checksum and the
      reference image of a cache, [RdbProps] the loader and the properties.
    - [Aof]: [src/persistence/aof.c].  [AofCodec] has the records, replay and
      appending, [AofLog] the transition system of the two threads with its
      invariant, [AofProps] the properties.
    - [MysqlStore], [MysqlThreads], [MysqlProps]: the queues, the reader and
      writer threads and the shutdown of [src/storage/mysql_store.c].
    - [MysqlTables], [MysqlSql]: the tables of that file's schema with the
      statements it runs on them, and the functions that issue the statements,
      any of which can fail.  [MysqlTransactions] has the transaction of one
      mutation and the reference effect of a mutation on the tables,
      [MysqlEffects] that effect on the values, [MysqlRefine] and
      [MysqlBackend] the relation between tables and store, [MysqlLoads] the
      reads, [Recovery] the start of [src/app/main.c], which submits to the
      database what the log has beyond it, [MysqlClaims] the faults.
    - [Double], [CommandText], [CommandProps], [Service]:
      [src/service/kvstore_resp_service.c].  [Double] is the arithmetic,
      printing and reading of doubles, [CommandText] the names, numbers and
      sizes of texts, [Service] every command, the transactions of the log, the
      mutations for the database and the replay, as a state monad over a
      [world] (service, allocation outcomes, clock).  The log is an interface
      ([LogOps]); [ServiceSpec] has its laws and [ServiceLog] shows that the log
      with its writer satisfies them.
    - [ServiceStore] to [ServiceClaims]: the abstract store the commands see,
      the answer of every data command with the record it logs ([ServiceSpec]),
      the proof that the code does that ([ServiceRuns], [ServiceCommands],
      [ServiceProps]), replay ([ServiceReplay]), sessions and restarts
      ([ServiceSession]) and the properties ([ServiceClaims]).
    - [Checkpoint], [Persistence], [Restart]: the snapshots of
      [src/app/main.c].  [Checkpoint] runs the calls of the log that wait for
      its writer, [Persistence] has the manager of snapshots with its forked
      child and the start from a snapshot and the rest of the log, [Restart]
      the process as a transition system and the property.
    - [Options]: the command line of [src/app/main.c].
    - [Reactor]: [src/net/reactor.c], connections, the loops that read, hand
      over requests and write, deferred responses and the rounds of the event
      loop.
    - [App]: the request handler of [src/app/main.c] ([dispatch_request] and
      what it calls: loads in flight, dirty keys, the negative cache).
      [AppFrames] and [AppLoads] say what code leaves alone, [AppPending] is
      the invariant of pending requests, [AppProps] the encoding of replies,
      [AppFresh] the properties about values that are not fresh.
    - [Server]: the reactor with the callbacks of [src/app/main.c]; the
      completions of loads answer through the reactor, which goes on with the
      input of the connection.  [ServerLoads], [ServerDrain] and
      [ServerRounds] carry the invariant of [AppPending] through completions,
      reads, writes and rounds; [ServerProps] has its runs and the faults of
      the event loop; [Pipeline] is the path of requests through parser,
      service and encoder.
    - [LegacyTree], [LegacyEngines], [LegacyServer]: [src/kvstore_rbtree.c],
      [src/kvstore_array.c] and the text protocol of [src/kvstore.c].
      [LegacyTreeProps] shows the tree to be the balanced tree of [ZRbTree]
      without its sizes; [LegacyEngines] has the interface [KvEngine] that the
      three engines implement, [LegacyProps] the protocol on top of it.

    ** Representation

    A [size_t] or [uint64_t] is a [Z]; an operation that can wrap writes the
    reduction out, and overflow checks are translated as they are.  A byte is a
    [Z] in [0, 256), a buffer a list of bytes, a byte argument a [slice]
    ([None] is the null pointer with a length).  A score is the 64-bit pattern
    of its double.

    An operation that allocates takes the outcomes of its requests ([mem]) and
    returns the rest, so every failure path is covered by quantifying over the
    list; clocks, system calls and random bytes are arguments in the same way.
    [errno] is not represented except where the log publishes it.

    A pointer to an entry, a node or a member is the key or member it belongs
    to, which is unique in its structure; the links (levels and spans, colors,
    previous and next, heap indices, hash chains) are represented, and the
    invariants relate them to lists and finite maps.  A pending request is a
    number, and the list of requests for dirty keys has its tail pointer.
    Shared state is passed explicitly.

    The log is shared by the thread that runs commands and the writer thread.
    A step of the system is a region under the mutex, a system call, or code
    that touches only the state of its own thread; [AofLog.step] interleaves
    them in every order, with partial and interrupted writes, failed syncs,
    pauses and shutdown.  The threads of the database store are modelled in
    the same way.  Histories record what was committed or submitted; they do
    not influence the steps.  Between two events of the reactor the threads
    may work ([ServerProps.store_work]); a callback of the reactor is one step.

    ** Fuel

    Loops that are not structural take fuel that their callers choose large
    enough, and the theorems are about the callers: 20 digits for a 64-bit
    number, 65 doublings for a capacity, one more than the number of bytes for
    the loaders and for [process_input] (each iteration consumes a byte), the
    number of entries for eviction and expiration, the number of buckets for
    rehashing, the height of the structure for descents, and the waiting
    requests with the buffered input for [drain_dirty_waiters].

    ** Properties

    - Server: every command answers, changes the store and logs what its
      specification says, under every failure of allocation, with a clock that
      stands still during the request; replaying a record does what it says.
      After a session and a crash a restart recovers the store of a prefix of
      the session, with every request that was acknowledged, or it fails because
      the service refuses a whole record that stores or changes a value; then
      the server does not start.  In a session
      no limit of the cache is configured, no reply reports a failure of the
      log, the queue, memory or capacity, a reply is sent when its barrier is
      ready, and no write but SET and DEL names a key whose deadline falls
      before the restart (the restart mishandles such keys).  With saves in the
      foreground, in a forked child and on their own, failing at any system call
      or in the creation of their checkpoint, a restart accepts the snapshot and
      the log that a crash leaves and recovers a state of the server in the same
      sense; left out are a marker that is cut in its middle, and a cache that
      does not fit the format of the file.
    - Command line: the accepted options are exactly the well-formed ones, and
      sizes are read with their units.
    - Event loop: pipelined requests are answered in order; with a database, a
      connection waits for a deferred response exactly when one pending request
      has its token, and each pending request is in one queue unless it was
      stranded, as long as the readers of the database drop no waiter; a load that a write overtook is recognised; dirty keys and the
      negative cache do what they are for.  Identifiers of connections stay
      below 2^64.
    - Database queues: every accepted waiter is answered once as long as none
      joins a load that is being published; mutations are applied in order and
      within their budget.
    - Database: whichever statements fail, a mutation is applied once or not at
      all; when the tables hold a store and the writer applied mutations whose
      effects are admissible on it (types fit, scores finite, no two names in
      use with the same hash), the tables hold the store after those effects; a
      load on a connection without failures reads back what the tables hold; a
      start applies exactly the marked mutations of the log that the database
      does not have.
    - Legacy server: below [INT_MAX] keys its three engines are finite maps on every branch, the tree
      stays a balanced search tree; each line of text is answered from the three
      maps and changes only the one its command names.
    - Codec: requests survive encoding and parsing, a prefix of a request is
      never misread; integers are parsed exactly; the buffer neither loses nor
      invents bytes.
    - Engines: hash table, skip list and red-black tree refine finite maps and
      sorted lists on every branch, allocation failures included; rehashing
      terminates and keeps the contents; ranks and ranges are exact; the tree is
      balanced.
    - Cache: one invariant ties the index, the entries, the heap, the list of
      uses, the memory account and the counters together and holds in every
      reachable state together with the configured limits; storing refines map
      update with the reference least-recently-used eviction; expiration is
      observed by reads and removed by maintenance in order; the direct lookup
      is equivalent to the ordinary one.
    - Snapshots: a saved cache loads back with its contents, deadlines and
      checkpoint; a save is atomic under every failure of a system call; a
      single changed byte is always detected.
    - Log: after an interleaving in which no commit failed half-way, and a
      crash, replay yields a prefix of the committed commands with everything
      synced or acknowledged; checkpoints mark their place; backpressure stays
      between its marks; a paused writer is at rest.
    - Faults of the code, as theorems: a commit that runs out of memory half-way
      leaves a part of its transaction in the queue
      ([failed_commit_leaves_part]); a row of the database whose deadline passed
      stops the writer ([expired_row_blocks_writer]) or swallows a later write
      ([expired_row_hides_write]); an infinite score stops the writer
      ([infinite_score_blocks_writer]).  As examples, on a concrete run each: the
      memory account of a hash drifts ([hash_memory_usage_drifts]); a restart mishandles deadlines that passed ([restart_mishandles_deadlines]);
      a waiter that joins late is lost ([late_join_loses_waiter]); a reply after
      a partial send drops its connection ([compacted_output_dropped]); a reply
      can overtake its log record ([reply_before_record]); a request for a dirty
      key can be stranded ([request_stranded]); a half-closed client loses its
      deferred reply ([half_closed_dropped]).

    ** Not modelled

    The client library of the database and the server behind it are not part of
    the sources: the statements of [src/storage/mysql_store.c] are modelled by
    their documented effect on the tables, the failure of each is an input, and
    connecting, the creation of the schema and the probes of permissions are
    left out.  Of [src/app/main.c] the signals and the wiring of the callbacks
    are left out, of [src/net/reactor.c] the creation of descriptors.  The network front
    ends of the legacy server ([src/ntyco_entry.c], [src/kvstore_st.c],
    [src/kvstore_mp.c]) only move bytes between sockets and the text protocol.
    Benchmarks are clients.  Of the modelled files, releasing memory, reading
    clocks and thread set-up are left out. *)

From stdpp Require Export base list gmap numbers strings.
From Stdlib Require Export ZArith Lia.
From Stdlib Require Import Ascii.

#[export] Set Default Goal Selector "!".
Global Open Scope Z_scope.

(** ** Machine integers

    [size_t] and [uint64_t] are 64 bits wide on the target (Linux x86-64);
    a value is a [Z] and each operation that can wrap writes the wrap out. *)

Definition SIZE_MAX : Z := 2 ^ 64 - 1.

Definition UINT64_MAX : Z := 2 ^ 64 - 1.

Definition INT64_MAX : Z := 2 ^ 63 - 1.

Definition INT64_MIN : Z := - 2 ^ 63.

Definition INT_MAX : Z := 2 ^ 31 - 1.

(** Reduction modulo the word size: the value a 64-bit unsigned operation
    leaves in its result. *)
Definition wrap64 (z : Z) : Z := z mod 2 ^ 64.

Definition u64_ok (z : Z) : Prop := 0 <= z <= UINT64_MAX.

(** A byte is a [Z] in [0, 256). *)
Definition byte_ok (b : Z) : Prop := 0 <= b < 256.

Definition bytes_ok (l : list Z) : Prop := Forall byte_ok l.

(** Length of a buffer as a [size_t]. *)
Definition zlen {A} (l : list A) : Z := Z.of_nat (length l).

Arguments zlen : simpl never.

(** A byte argument is a pointer with a length.  [Some l] is a readable
    buffer of [length l] bytes; [None] is a null pointer that comes with a
    non-zero length, the case [valid_bytes] of the C files rejects. *)
Definition slice : Type := option (list Z).

(** ** Allocation

    [malloc], [calloc] and [realloc] either return memory or fail.  An
    operation that allocates takes the outcomes of its future allocation
    requests and returns the outcomes it has not used; when the list is
    exhausted every further request succeeds. *)
Definition mem : Type := list bool.

Definition malloc (m : mem) : bool * mem :=
  match m with
  | [] => (true, [])
  | ok :: m' => (ok, m')
  end.

Lemma malloc_nil : malloc [] = (true, []).
Proof. reflexivity. Qed.

(** Is the pointer non-null? *)
Definition is_Some_bool {A} (o : option A) : bool :=
  match o with Some _ => true | None => false end.

(** ** C strings *)

Definition byte_of_ascii (c : ascii) : Z := Z.of_nat (nat_of_ascii c).

(** The bytes of a string literal, without the terminating NUL. *)
Fixpoint lit (s : string) : list Z :=
  match s with
  | EmptyString => []
  | String c s' => byte_of_ascii c :: lit s'
  end.


Definition CR : Z := 13.

Definition LF : Z := 10.

(** [memcpy] of [src] into the buffer [dst] at offset [off]. *)
Definition memcpy (dst : list Z) (off : Z) (src : list Z) : list Z :=
  take (Z.to_nat off) dst ++ src ++ drop (Z.to_nat off + length src) dst.

(** The [n] bytes of [l] from offset [off]. *)
Definition sub_bytes {A} (l : list A) (off n : Z) : list A :=
  take (Z.to_nat n) (drop (Z.to_nat off) l).

(** ** Tactics *)

(** Turn boolean comparisons of [Z] in the context into propositions. *)
Ltac zb :=
  repeat match goal with
  | H : _ && _ = true |- _ => apply andb_true_iff in H; destruct H
  | H : _ || _ = false |- _ => apply orb_false_iff in H; destruct H
  | H : negb _ = true |- _ => apply negb_true_iff in H
  | H : negb _ = false |- _ => apply negb_false_iff in H
  | H : (_ <? _) = true |- _ => apply Z.ltb_lt in H
  | H : (_ <? _) = false |- _ => apply Z.ltb_ge in H
  | H : (_ <=? _) = true |- _ => apply Z.leb_le in H
  | H : (_ <=? _) = false |- _ => apply Z.leb_gt in H
  | H : (_ >? _) = true |- _ => apply Z.gtb_lt in H
  | H : (_ >? _) = false |- _ => rewrite Z.gtb_ltb in H; apply Z.ltb_ge in H
  | H : (_ >=? _) = true |- _ => rewrite Z.geb_leb in H; apply Z.leb_le in H
  | H : (_ >=? _) = false |- _ => rewrite Z.geb_leb in H; apply Z.leb_gt in H
  | H : (_ =? _) = true |- _ => apply Z.eqb_eq in H
  | H : (_ =? _) = false |- _ => apply Z.eqb_neq in H
  end.

(** Case analysis on the first condition of the goal, with [zb] on the new
    hypothesis. *)
Ltac zif :=
  match goal with
  | |- context [if ?b then _ else _] =>
      let E := fresh "Hif" in destruct b eqn:E; zb
  end.

Ltac zif_in H :=
  match type of H with
  | context [if ?b then _ else _] =>
      let E := fresh "Hif" in destruct b eqn:E; zb
  end.

(** [lia] with the word-size constants and lengths unfolded. *)
Ltac zlia :=
  unfold SIZE_MAX, UINT64_MAX, INT64_MAX, INT64_MIN, INT_MAX, zlen in *; lia.

(** A [Forall] over a concrete list, each element by evaluation. *)
Ltac forall_eval :=
  repeat first [apply Forall_nil_2 | apply Forall_cons_2; [vm_compute; by repeat split|]].

(** Equality of two list expressions up to the bracketing of appends. *)
Ltac app_eq := repeat (rewrite <- app_assoc || (progress (cbn [app]))); reflexivity.

Create HintDb store discriminated.
Create Rewrite HintDb zlen.

(** ** Generic lemmas *)

Lemma zlen_nonneg {A} (l : list A) : 0 <= zlen l.
Proof. zlia. Qed.

Lemma zlen_nil {A} : zlen (@nil A) = 0.
Proof. reflexivity. Qed.

Lemma zlen_cons {A} (x : A) l : zlen (x :: l) = 1 + zlen l.
Proof. unfold zlen. cbn [length]. lia. Qed.

Lemma zlen_app {A} (l k : list A) : zlen (l ++ k) = zlen l + zlen k.
Proof. unfold zlen. rewrite length_app. lia. Qed.

Lemma zlen_replicate {A} n (x : A) : 0 <= n -> zlen (replicate (Z.to_nat n) x) = n.
Proof. intros. unfold zlen. rewrite length_replicate. lia. Qed.

Lemma zlen_take {A} (l : list A) n :
  0 <= n <= zlen l -> zlen (take (Z.to_nat n) l) = n.
Proof. unfold zlen. intros. rewrite length_take. lia. Qed.

Lemma zlen_drop {A} (l : list A) n :
  0 <= n <= zlen l -> zlen (drop (Z.to_nat n) l) = zlen l - n.
Proof. unfold zlen. intros. rewrite length_drop. lia. Qed.

Lemma zlen_memcpy dst off src :
  0 <= off -> off + zlen src <= zlen dst -> zlen (memcpy dst off src) = zlen dst.
Proof.
  unfold zlen, memcpy. intros.
  rewrite !length_app, length_take, length_drop. lia.
Qed.

Lemma wrap64_small z : 0 <= z <= UINT64_MAX -> wrap64 z = z.
Proof. unfold wrap64, UINT64_MAX. intros. apply Z.mod_small. lia. Qed.

Lemma wrap64_range z : u64_ok (wrap64 z).
Proof.
  unfold u64_ok, wrap64, UINT64_MAX.
  pose proof (Z.mod_pos_bound z (2 ^ 64) ltac:(lia)). lia.
Qed.

#[export] Hint Resolve zlen_nonneg wrap64_range : store.
#[export] Hint Rewrite @zlen_nil @zlen_cons @zlen_app : zlen.

Lemma zlen_sub_bytes {A} (l : list A) off n :
  0 <= off -> 0 <= n -> off + n <= zlen l -> zlen (sub_bytes l off n) = n.
Proof. unfold zlen, sub_bytes. intros. rewrite length_take, length_drop. lia. Qed.

Lemma sub_bytes_0 {A} (l : list A) off : sub_bytes l off 0 = [].
Proof. unfold sub_bytes. rewrite Z2Nat.inj_0. apply take_0. Qed.

Lemma sub_bytes_app_l {A} (l k : list A) off n :
  0 <= off -> 0 <= n -> off + n <= zlen l ->
  sub_bytes (l ++ k) off n = sub_bytes l off n.
Proof.
  unfold sub_bytes, zlen. intros.
  rewrite drop_app_le by lia. rewrite take_app_le; [done|]. rewrite length_drop. lia.
Qed.

Lemma sub_bytes_app_r {A} (l k : list A) n :
  sub_bytes (l ++ k) (zlen l) n = take (Z.to_nat n) k.
Proof.
  unfold sub_bytes, zlen. rewrite Nat2Z.id. by rewrite drop_app_length.
Qed.

Lemma sub_bytes_split {A} (l : list A) off n k :
  0 <= off -> 0 <= k <= n ->
  sub_bytes l off n = sub_bytes l off k ++ sub_bytes l (off + k) (n - k).
Proof.
  unfold sub_bytes. intros.
  replace (Z.to_nat (off + k)) with (Z.to_nat off + Z.to_nat k)%nat by lia.
  rewrite <- drop_drop.
  replace (Z.to_nat n) with (Z.to_nat k + Z.to_nat (n - k))%nat at 1 by lia.
  generalize (drop (Z.to_nat off) l). intros d.
  rewrite take_take_drop. done.
Qed.

Lemma sub_bytes_memcpy_app dst off src r :
  0 <= r <= off -> off + zlen src <= zlen dst ->
  sub_bytes (memcpy dst off src) r (off - r + zlen src)
  = sub_bytes dst r (off - r) ++ src.
Proof.
  unfold sub_bytes, memcpy, zlen. intros.
  rewrite drop_app_le by (rewrite length_take; lia).
  rewrite skipn_firstn_comm.
  replace (Z.to_nat off - Z.to_nat r)%nat with (Z.to_nat (off - r)) by lia.
  assert (Hl : length (take (Z.to_nat (off - r)) (drop (Z.to_nat r) dst)) = Z.to_nat (off - r)).
  { rewrite length_take, length_drop. lia. }
  rewrite take_app, Hl. f_equal; [rewrite take_ge by lia; done|].
  rewrite take_app_le by lia. rewrite take_ge by lia. done.
Qed.

Lemma sub_bytes_memcpy_0 dst src :
  sub_bytes (memcpy dst 0 src) 0 (zlen src) = src.
Proof.
  unfold sub_bytes, memcpy, zlen. rewrite Nat2Z.id.
  change (Z.to_nat 0) with 0%nat. rewrite take_0, drop_0, app_nil_l, take_app_le by lia.
  by rewrite take_ge by lia.
Qed.
