(* ===== verification/NetBuffer.v ===== *)
(** The connection buffer of [src/net/buffer.c]: a growable byte buffer with
    a read and a write cursor, used by the reactor for the input and the
    output of each connection.  [junk] is the content of memory that has been
    allocated and not written yet. *)

From S2P Require Import Prelude.

Record net_buffer : Type := mk_net_buffer {
  data : list Z;
  capacity : Z;
  read_pos : Z;
  write_pos : Z
}.

Section Buffer.
Context (junk : Z).

Definition net_buffer_readable (b : net_buffer) : Z :=
  if write_pos b <? read_pos b then 0 else write_pos b - read_pos b.

Definition net_buffer_compact (b : net_buffer) : net_buffer :=
  if read_pos b =? 0 then b else
  let readable := net_buffer_readable b in
  let d := if readable >? 0
           then memcpy (data b) 0 (sub_bytes (data b) (read_pos b) readable)
           else data b in
  mk_net_buffer d (capacity b) 0 readable.

Definition net_buffer_init (m : mem) (initial_capacity : Z) : Z * net_buffer * mem :=
  if initial_capacity =? 0 then (0, mk_net_buffer [] 0 0 0, m) else
  let '(ok, m) := malloc m in
  if negb ok then (-1, mk_net_buffer [] 0 0 0, m) else
  (0, mk_net_buffer (replicate (Z.to_nat initial_capacity) junk) initial_capacity 0 0, m).

Definition net_buffer_destroy (b : net_buffer) : net_buffer := mk_net_buffer [] 0 0 0.

Definition net_buffer_reset (b : net_buffer) : net_buffer :=
  mk_net_buffer (data b) (capacity b) 0 0.

(** The doubling loop of [net_buffer_reserve]; [None] when [fuel] runs out. *)
Fixpoint grow_capacity (fuel : nat) (cap required : Z) : option Z :=
  match fuel with
  | O => None
  | S fuel =>
      if cap <? required then
        if cap >? SIZE_MAX / 2 then Some required
        else grow_capacity fuel (cap * 2) required
      else Some cap
  end.

Definition net_buffer_reserve (m : mem) (b : net_buffer) (additional : Z)
  : Z * net_buffer * mem :=
  if additional >? SIZE_MAX - net_buffer_readable b then (-1, b, m) else
  if capacity b - write_pos b >=? additional then (0, b, m) else
  let b := net_buffer_compact b in
  if capacity b - write_pos b >=? additional then (0, b, m) else
  let required := write_pos b + additional in
  let start := if capacity b =? 0 then 512 else capacity b in
  match grow_capacity 65 start required with
  | None => (-1, b, m)
  | Some cap =>
      let '(ok, m) := malloc m in
      if negb ok then (-1, b, m) else
      (0, mk_net_buffer (data b ++ replicate (Z.to_nat (cap - capacity b)) junk)
            cap (read_pos b) (write_pos b), m)
  end.

Definition net_buffer_append (m : mem) (b : net_buffer) (src : slice)
  : Z * net_buffer * mem :=
  match src with
  | None => (-1, b, m)
  | Some src =>
      let '(r, b, m) := net_buffer_reserve m b (zlen src) in
      if negb (r =? 0) then (-1, b, m) else
      if zlen src >? 0
      then (0, mk_net_buffer (memcpy (data b) (write_pos b) src)
                 (capacity b) (read_pos b) (write_pos b + zlen src), m)
      else (0, b, m)
  end.

(** [net_buffer_write_pointer] returns the writable region: its offset in
    [data] and its size, or [None] where the C function returns [NULL]. *)
Definition net_buffer_write_pointer (m : mem) (b : net_buffer) (additional : Z)
  : option (Z * Z) * net_buffer * mem :=
  let '(r, b, m) := net_buffer_reserve m b additional in
  if negb (r =? 0) then (None, b, m)
  else (Some (write_pos b, capacity b - write_pos b), b, m).

Definition net_buffer_commit (b : net_buffer) (length : Z) : Z * net_buffer :=
  if length >? capacity b - write_pos b then (-1, b)
  else (0, mk_net_buffer (data b) (capacity b) (read_pos b) (write_pos b + length)).

(** A caller that fills the region it got from [net_buffer_write_pointer]. *)
Definition fill_region (b : net_buffer) (src : list Z) : net_buffer :=
  mk_net_buffer (memcpy (data b) (write_pos b) src)
    (capacity b) (read_pos b) (write_pos b).

Definition net_buffer_consume (b : net_buffer) (length : Z) : net_buffer :=
  let readable := net_buffer_readable b in
  if length >=? readable then net_buffer_reset b
  else mk_net_buffer (data b) (capacity b) (read_pos b + length) (write_pos b).

(** Outcomes of one [send] call: a byte count or an [errno]. *)
Inductive send_result : Type :=
| Sent (n : Z)
| SendEintr
| SendEagain
| SendError.

(** [net_buffer_flush_fd]: [script] lists what the successive [send] calls
    return, and the result carries the bytes handed to the socket.  The loop
    is still running when the script ends ([None]). *)
Fixpoint net_buffer_flush_fd (script : list send_result) (b : net_buffer)
  : option Z * net_buffer * list Z :=
  if negb (net_buffer_readable b >? 0) then (Some 1, b, []) else
  match script with
  | [] => (None, b, [])
  | r :: script =>
      match r with
      | Sent n =>
          if n >? 0 then
            let chunk := sub_bytes (data b) (read_pos b) n in
            let '(ret, b, out) := net_buffer_flush_fd script (net_buffer_consume b n) in
            (ret, b, chunk ++ out)
          else (Some (-1), b, [])
      | SendEintr => net_buffer_flush_fd script b
      | SendEagain => (Some 0, b, [])
      | SendError => (Some (-1), b, [])
      end
  end.

(** ** Invariant and abstraction *)

Definition wf (b : net_buffer) : Prop :=
  0 <= read_pos b <= write_pos b /\ write_pos b <= capacity b /\
  capacity b <= SIZE_MAX /\ zlen (data b) = capacity b.

(** The bytes a reader of the buffer still sees. *)
Definition contents (b : net_buffer) : list Z :=
  sub_bytes (data b) (read_pos b) (write_pos b - read_pos b).

End Buffer.

#[export] Hint Unfold wf contents : store.

(** ** Lemmas *)

Lemma wf_readable b : wf b -> net_buffer_readable b = write_pos b - read_pos b.
Proof. intros [? _]. unfold net_buffer_readable. zif; lia. Qed.

Lemma contents_length b : wf b -> zlen (contents b) = write_pos b - read_pos b.
Proof.
  intros (? & ? & ? & ?). unfold contents. rewrite zlen_sub_bytes; lia.
Qed.

Lemma grow_capacity_spec fuel cap required :
  0 < cap -> cap <= SIZE_MAX -> required <= SIZE_MAX -> SIZE_MAX < cap * 2 ^ Z.of_nat fuel ->
  exists c, grow_capacity (S fuel) cap required = Some c /\
    required <= c /\ cap <= c <= SIZE_MAX.
Proof.
  revert cap. induction fuel as [|fuel IH]; intros cap H0 Hc Hr Hf; cbn [grow_capacity].
  - zif; [|eexists; repeat split; lia]. cbn in Hf. lia.
  - zif; [|eexists; repeat split; lia].
    zif; [eexists; repeat split; lia|].
    assert (cap * 2 <= SIZE_MAX).
    { unfold SIZE_MAX in *. pose proof (Z.mul_div_le (2 ^ 64 - 1) 2). lia. }
    destruct (IH (cap * 2)) as (c & E & ?); [lia|lia|lia| |].
    { rewrite Nat2Z.inj_succ, Z.pow_succ_r in Hf by lia. lia. }
    exists c. split; [exact E|lia].
Qed.

Lemma compact_wf b :
  wf b -> wf (net_buffer_compact b) /\ contents (net_buffer_compact b) = contents b /\
          read_pos (net_buffer_compact b) = 0 /\ capacity (net_buffer_compact b) = capacity b.
Proof.
  intros Hwf. pose proof Hwf as (H1 & H2 & H3 & H4).
  unfold net_buffer_compact. zif; [tauto|].
  rewrite wf_readable by done.
  assert (Hl : zlen (contents b) = write_pos b - read_pos b) by by apply contents_length.
  zif.
  - fold (contents b). repeat split; cbn; try lia.
    + rewrite zlen_memcpy; lia.
    + unfold contents at 1. cbn. rewrite <- Hl, Z.sub_0_r. apply sub_bytes_memcpy_0.
  - repeat split; cbn; try lia.
    unfold contents. cbn. replace (write_pos b - read_pos b) with 0 by lia.
    by rewrite !sub_bytes_0.
Qed.

(** What a caller may rely on after [net_buffer_reserve]. *)
Definition reserved (additional : Z) (b : net_buffer) (r : Z * net_buffer * mem) : Prop :=
  let '(ret, b', _) := r in
  wf b' /\ contents b' = contents b /\
  (ret = 0 /\ additional <= capacity b' - write_pos b' \/ ret = -1).

Lemma reserve_spec junk m b n :
  wf b -> 0 <= n -> reserved n b (net_buffer_reserve junk m b n).
Proof.
  intros Hwf Hn. unfold net_buffer_reserve, reserved.
  zif; [by auto 6|]. zif; [by auto 6|].
  destruct (compact_wf b Hwf) as (Hw & Hc & Hr0 & Hcap).
  set (b1 := net_buffer_compact b) in *.
  pose proof Hw as (W1 & W2 & W3 & W4).
  zif; [by auto 6|].
  pose proof (contents_length b Hwf) as L0. pose proof (contents_length b1 Hw) as L1.
  rewrite wf_readable in Hif by done. rewrite Hc in L1.
  edestruct (grow_capacity_spec 64 (if capacity b1 =? 0 then 512 else capacity b1)
              (write_pos b1 + n)) as (c & -> & ? & ?).
  1,2,4: zif; zlia. 1: lia.
  destruct (malloc m) as [ok m']. destruct ok; cbn [negb]; [|by auto 6].
  assert (capacity b1 <= c) by (revert H0; zif; lia).
  repeat split; cbn; try lia.
  - rewrite zlen_app, zlen_replicate; lia.
  - rewrite <- Hc. unfold contents. cbn. rewrite sub_bytes_app_l; [done|lia|lia|lia].
Qed.

(** ** Properties *)

(** Appending to a well-formed buffer keeps it well formed on every path;
    when it returns 0 the readable bytes are the old ones followed by the
    appended ones, and when it fails (null source, size overflow, failed
    allocation) the readable bytes are unchanged. *)
Theorem append_correct junk m b src :
  wf b ->
  let '(ret, b', _) := net_buffer_append junk m b src in
  wf b' /\
  (ret = 0 /\ (exists l, src = Some l /\ contents b' = contents b ++ l) \/
   ret = -1 /\ contents b' = contents b).
Proof.
  intros Hwf. unfold net_buffer_append. destruct src as [l|]; [|by auto].
  pose proof (reserve_spec junk m b (zlen l) Hwf (zlen_nonneg l)) as Hr.
  destruct (net_buffer_reserve junk m b (zlen l)) as [[r b1] m1]. cbn in Hr.
  destruct Hr as (Hw & Hc & [[-> Hcap]| ->]); cbn [Z.eqb negb]; [|by auto].
  pose proof Hw as (W1 & W2 & W3 & W4). pose proof (zlen_nonneg l).
  zif.
  - split; [repeat split; cbn; try lia; rewrite zlen_memcpy; lia|].
    left. split; [done|]. exists l. split; [done|]. rewrite <- Hc. unfold contents. cbn.
    replace (write_pos b1 + zlen l - read_pos b1) with (write_pos b1 - read_pos b1 + zlen l) by lia.
    apply sub_bytes_memcpy_app; lia.
  - split; [done|]. left. split; [done|]. exists l. split; [done|].
    destruct l; [by rewrite app_nil_r|]. rewrite zlen_cons in *. pose proof (zlen_nonneg l). lia.
Qed.

Definition sample_buffer : net_buffer := mk_net_buffer [7; 8; 9; 0] 4 1 3.

Lemma sample_buffer_wf : wf sample_buffer.
Proof. repeat split; cbn; unfold SIZE_MAX; lia. Qed.

(** The buffer can always be grown while the request is representable:
    when the readable bytes plus the request fit [size_t] and the allocation
    succeeds, [net_buffer_reserve] returns 0 with at least the requested
    room, so its doubling loop always terminates with enough capacity. *)
Theorem reserve_succeeds junk b n :
  wf b -> 0 <= n <= SIZE_MAX - net_buffer_readable b ->
  exists b' m', net_buffer_reserve junk [] b n = (0, b', m') /\
    n <= capacity b' - write_pos b' /\ contents b' = contents b.
Proof.
  intros Hwf Hn.
  pose proof (reserve_spec junk [] b n Hwf ltac:(lia)) as Hs.
  destruct (net_buffer_reserve junk [] b n) as [[r b'] m'] eqn:E.
  destruct Hs as (_ & Hc & [[-> Hroom]|Hbad]); [by eauto 6|]. exfalso.
  unfold net_buffer_reserve in E. zif_in E; [lia|]. zif_in E; [by inversion E; subst|].
  destruct (compact_wf b Hwf) as (Hw & Hc1 & Hr0 & Hcap).
  pose proof (contents_length b Hwf) as L0.
  pose proof (contents_length _ Hw) as L1. rewrite Hc1 in L1.
  pose proof Hw as (? & ? & ? & ?). rewrite wf_readable in Hn by done.
  zif_in E; [by inversion E; subst|].
  edestruct (grow_capacity_spec 64
    (if capacity (net_buffer_compact b) =? 0 then 512 else capacity (net_buffer_compact b))
    (write_pos (net_buffer_compact b) + n)) as (c & Hg & _).
  1,2,4: zif; zlia. 1: lia.
  rewrite Hg in E. cbn in E. by inversion E; subst.
Qed.

Lemma reserve_succeeds_witness :
  exists b' m', net_buffer_reserve 0 [] sample_buffer 10 = (0, b', m') /\
    10 <= capacity b' - write_pos b' /\ contents b' = contents sample_buffer.
Proof.
  apply reserve_succeeds; [exact sample_buffer_wf|vm_compute; split; discriminate].
Defined.

Lemma consume_spec b n :
  wf b -> 0 <= n -> wf (net_buffer_consume b n) /\
  contents (net_buffer_consume b n) = drop (Z.to_nat n) (contents b).
Proof.
  intros Hwf Hn. pose proof Hwf as (H1 & H2 & H3 & H4).
  pose proof (contents_length b Hwf) as Hl.
  unfold net_buffer_consume. rewrite wf_readable by done. zif.
  - split; [repeat split; cbn; lia|].
    rewrite drop_ge by zlia. unfold contents. cbn. apply sub_bytes_0.
  - split; [repeat split; cbn; lia|].
    unfold contents. cbn.
    rewrite (sub_bytes_split (data b) (read_pos b) (write_pos b - read_pos b) n) by lia.
    replace (write_pos b - (read_pos b + n)) with (write_pos b - read_pos b - n) by lia.
    assert (zlen (sub_bytes (data b) (read_pos b) n) = n) by (apply zlen_sub_bytes; lia).
    rewrite drop_app_length'; [done|zlia].
Qed.

(** What the kernel promises about [send]: it never reports more bytes than
    it was given. *)
Fixpoint send_honest (script : list send_result) (b : net_buffer) : Prop :=
  match script with
  | [] => True
  | Sent n :: script => n <= net_buffer_readable b /\ send_honest script (net_buffer_consume b n)
  | _ :: script => send_honest script b
  end.

(** Flushing neither loses, duplicates nor reorders output: whatever the
    socket accepts, the bytes handed to it followed by the bytes still
    buffered are exactly the bytes that were buffered; the result is 1 only
    when everything was sent. *)
Theorem flush_conserves script b :
  wf b -> send_honest script b ->
  let '(ret, b', out) := net_buffer_flush_fd script b in
  wf b' /\ out ++ contents b' = contents b /\ (ret = Some 1 -> contents b' = []).
Proof.
  revert b. induction script as [|r script IH]; intros b Hwf Hs; cbn [net_buffer_flush_fd];
    pose proof (contents_length b Hwf) as Hl; rewrite wf_readable by done.
  - zif; [|done]. split; [done|]. split; [done|]. intros _.
    apply length_zero_iff_nil. zlia.
  - zif. { split; [done|]. split; [done|]. intros _. apply length_zero_iff_nil. zlia. }
    destruct r as [n| | |]; cbn in Hs; [| by apply IH | done | done].
    rewrite wf_readable in Hs by done. destruct Hs as [Hn Hs].
    zif; [|done].
    destruct (consume_spec b n Hwf ltac:(lia)) as [Hw Hc].
    specialize (IH _ Hw Hs).
    destruct (net_buffer_flush_fd script (net_buffer_consume b n)) as [[ret b'] out].
    destruct IH as (? & Ho & ?). split; [done|]. split; [|done].
    rewrite <- app_assoc, Ho, Hc. unfold contents.
    rewrite (sub_bytes_split (data b) (read_pos b) (write_pos b - read_pos b) n)
      by (destruct Hwf; lia).
    rewrite drop_app_length'; [done|].
    pose proof (zlen_sub_bytes (data b) (read_pos b) n) as E. destruct Hwf as (?&?&?&?). zlia.
Qed.

(** The zero-copy write path of the reactor appends exactly what the
    caller wrote: reserving room, filling the region with at most its size
    and committing that length extends the readable bytes by the written
    bytes; committing more than the room is refused and changes nothing. *)
Theorem write_commit_correct junk m b n src :
  wf b -> 0 <= n ->
  let '(region, b1, _) := net_buffer_write_pointer junk m b n in
  match region with
  | None => contents b1 = contents b /\ wf b1
  | Some (_, room) =>
      let '(ret, b2) := net_buffer_commit (fill_region b1 src) (zlen src) in
      n <= room /\
      (zlen src <= room -> ret = 0 /\ wf b2 /\ contents b2 = contents b ++ src) /\
      (room < zlen src -> ret = -1)
  end.
Proof.
  intros Hwf Hn. unfold net_buffer_write_pointer.
  pose proof (reserve_spec junk m b n Hwf Hn) as Hr.
  destruct (net_buffer_reserve junk m b n) as [[r b1] m1].
  destruct Hr as (Hw & Hc & [[-> Hcap]| ->]); cbn [Z.eqb negb]; [|done].
  pose proof Hw as (W1 & W2 & W3 & W4). pose proof (zlen_nonneg src).
  unfold net_buffer_commit, fill_region. cbn [capacity write_pos data read_pos].
  zif; [split_and!; intros; lia|].
  split; [lia|]. split; [|intros; lia]. intros _.
  split; [done|]. split; [repeat split; cbn; rewrite ?zlen_memcpy; lia|].
  rewrite <- Hc. unfold contents. cbn.
  replace (write_pos b1 + zlen src - read_pos b1) with (write_pos b1 - read_pos b1 + zlen src) by lia.
  apply sub_bytes_memcpy_app; lia.
Qed.

Lemma write_commit_correct_witness :
  let '(region, b1, _) := net_buffer_write_pointer 0 [] sample_buffer 2 in
  exists off, region = Some (off, 2) /\
  contents (snd (net_buffer_commit (fill_region b1 [5; 6]) 2)) = [8; 9; 5; 6].
Proof.
  pose proof (write_commit_correct 0 [] sample_buffer 2 [5; 6] sample_buffer_wf ltac:(lia)) as H.
  vm_compute in H |- *. destruct H as (_ & H & _).
  exists 2. split; [reflexivity|]. apply H. discriminate.
Defined.
