(* ===== verification/Resp.v ===== *)
(** The RESP2 codec of [src/protocol/resp.c]: the incremental, zero-copy
    request parser and the reply encoders.  Byte positions are [Z]; a C object
    is at most [PTRDIFF_MAX] bytes long, so the sums of positions below do not
    wrap. *)

From S2P Require Import Prelude.

Definition RESP_MAX_FRAME_SIZE : Z := 64 * 1024.

Definition RESP_MAX_ARGUMENTS : Z := 128.

(** A zero-copy argument: an offset into the input and a length. *)
Record resp_slice : Type := mk_resp_slice { slice_offset : Z; slice_length : Z }.

Inductive resp_parse_result : Type :=
| RESP_PARSE_ERROR
| RESP_PARSE_INCOMPLETE
| RESP_PARSE_COMPLETE.

(** ** Encoding of decimal numbers *)

(** The do-while loop that fills [digits], least significant digit first. *)
Fixpoint digits_rev (fuel : nat) (value : Z) : list Z :=
  match fuel with
  | O => []
  | S fuel =>
      (48 + value mod 10) ::
      (if value / 10 =? 0 then [] else digits_rev fuel (value / 10))
  end.

(** A 64-bit value has at most 20 decimal digits, the size of the buffer. *)
Definition decimal (value : Z) : list Z := rev (digits_rev 20 value).

Arguments decimal : simpl never.

Definition encode_unsigned_line (prefix value capacity : Z) : option (list Z) :=
  if capacity <? zlen (decimal value) + 3 then None
  else Some (prefix :: decimal value ++ [CR; LF]).

(** ** Parser *)

Definition incomplete_or_error (available : Z) (end_of_stream : bool)
    (max_frame_size : Z) : resp_parse_result :=
  if end_of_stream || (available >=? max_frame_size)
  then RESP_PARSE_ERROR else RESP_PARSE_INCOMPLETE.

(** The scanning loop of [parse_decimal_line] over the bytes from [cursor] on;
    [None] is an early [RESP_PARSE_ERROR]. *)
Fixpoint decimal_loop (max_frame_size : Z) (rest : list Z)
    (cursor parsed digits : Z) : option (Z * Z * Z) :=
  match rest with
  | [] => Some (cursor, parsed, digits)
  | c :: rest =>
      if c =? CR then Some (cursor, parsed, digits) else
      if (c <? 48) || (c >? 57) then None else
      let digit := c - 48 in
      if parsed >? (SIZE_MAX - digit) / 10 then None else
      if cursor + 1 >? max_frame_size then None else
      decimal_loop max_frame_size rest (cursor + 1) (parsed * 10 + digit) (digits + 1)
  end.

Definition byte_at (l : list Z) (i : Z) : Z := nth (Z.to_nat i) l 0.

(** [inr (position, value)] is [RESP_PARSE_COMPLETE] with its two outputs. *)
Definition parse_decimal_line (input : list Z) (position : Z)
    (end_of_stream : bool) (max_frame_size : Z) : resp_parse_result + Z * Z :=
  let length := zlen input in
  match decimal_loop max_frame_size (drop (Z.to_nat position) input) position 0 0 with
  | None => inl RESP_PARSE_ERROR
  | Some (cursor, parsed, digits) =>
      if cursor >=? length
      then inl (incomplete_or_error length end_of_stream max_frame_size) else
      if (digits =? 0) || (cursor + 1 >=? length) then
        inl (if digits =? 0 then RESP_PARSE_ERROR
             else incomplete_or_error length end_of_stream max_frame_size) else
      if negb (byte_at input (cursor + 1) =? LF) then inl RESP_PARSE_ERROR
      else inr (cursor + 2, parsed)
  end.

(** One iteration of the argument loop: [inr (slice, position)]. *)
Definition parse_argument (input : list Z) (end_of_stream : bool)
    (max_frame_size position : Z) : resp_parse_result + resp_slice * Z :=
  let length := zlen input in
  let stop := incomplete_or_error length end_of_stream max_frame_size in
  if position >=? length then inl stop else
  if negb (byte_at input position =? 36) then inl RESP_PARSE_ERROR else
  match parse_decimal_line input (position + 1) end_of_stream max_frame_size with
  | inl r => inl r
  | inr (position, bulk_length) =>
      if (bulk_length >? max_frame_size) || (position >? max_frame_size - bulk_length)
      then inl RESP_PARSE_ERROR else
      if length - position <? bulk_length then inl stop else
      let argument := mk_resp_slice position bulk_length in
      let position := position + bulk_length in
      if position + 2 >? length then inl stop else
      if (position + 2 >? max_frame_size) || negb (byte_at input position =? CR)
         || negb (byte_at input (position + 1) =? LF)
      then inl RESP_PARSE_ERROR
      else inr (argument, position + 2)
  end.

Fixpoint parse_arguments (count : nat) (input : list Z) (end_of_stream : bool)
    (max_frame_size position : Z) : resp_parse_result + list resp_slice * Z :=
  match count with
  | O => inr ([], position)
  | S count =>
      match parse_argument input end_of_stream max_frame_size position with
      | inl r => inl r
      | inr (argument, position) =>
          match parse_arguments count input end_of_stream max_frame_size position with
          | inl r => inl r
          | inr (rest, position) => inr (argument :: rest, position)
          end
      end
  end.

(** The result, the arguments of [request] and [consumed]. *)
Definition resp_parse_request_with_limit (input : slice) (end_of_stream : bool)
    (max_frame_size : Z) : resp_parse_result * list resp_slice * Z :=
  match input with
  | None => (RESP_PARSE_ERROR, [], 0)
  | Some input =>
      if max_frame_size =? 0 then (RESP_PARSE_ERROR, [], 0) else
      if zlen input =? 0 then
        (if end_of_stream then RESP_PARSE_ERROR else RESP_PARSE_INCOMPLETE, [], 0) else
      if negb (byte_at input 0 =? 42) then (RESP_PARSE_ERROR, [], 0) else
      match parse_decimal_line input 1 end_of_stream max_frame_size with
      | inl r => (r, [], 0)
      | inr (position, argument_count) =>
          if (argument_count =? 0) || (argument_count >? RESP_MAX_ARGUMENTS)
          then (RESP_PARSE_ERROR, [], 0) else
          match parse_arguments (Z.to_nat argument_count) input end_of_stream
                  max_frame_size position with
          | inl r => (r, [], 0)
          | inr (arguments, position) => (RESP_PARSE_COMPLETE, arguments, position)
          end
      end
  end.

Definition resp_parse_request (input : slice) (end_of_stream : bool)
  : resp_parse_result * list resp_slice * Z :=
  resp_parse_request_with_limit input end_of_stream RESP_MAX_FRAME_SIZE.

(** ** Encoders: the bytes written to an output of the given capacity, or
    [None] where the C function returns -1. *)

Definition encode_line (prefix capacity : Z) (text : list Z) : option (list Z) :=
  if (zlen text >? capacity) || (capacity - zlen text <? 3) then None
  else Some (prefix :: text ++ [CR; LF]).

Definition resp_encode_simple_string (capacity : Z) (text : list Z) : option (list Z) :=
  encode_line 43 capacity text.

Definition resp_encode_error (capacity : Z) (text : list Z) : option (list Z) :=
  encode_line 45 capacity text.

Definition resp_encode_integer (capacity value : Z) : option (list Z) :=
  if capacity =? 0 then None else
  if (value <? 0) && (capacity <? 2) then None else
  let magnitude := if value <? 0 then - (value + 1) + 1 else value in
  let digits := decimal magnitude in
  if capacity <? 1 + (if value <? 0 then 1 else 0) + zlen digits + 2 then None
  else Some (58 :: (if value <? 0 then [45] else []) ++ digits ++ [CR; LF]).

Definition resp_encode_bulk_string (capacity : Z) (s : slice) : option (list Z) :=
  match s with
  | None => None
  | Some s =>
      match encode_unsigned_line 36 (zlen s) capacity with
      | None => None
      | Some header =>
          if zlen s >? SIZE_MAX - zlen header - 2 then None else
          if zlen header + zlen s + 2 >? capacity then None
          else Some (header ++ s ++ [CR; LF])
      end
  end.

Definition resp_encode_null_bulk_string (capacity : Z) : option (list Z) :=
  let null_bulk := [36; 45; 49; CR; LF] in
  if capacity <? zlen null_bulk then None else Some null_bulk.

(** The element loop of [resp_encode_bulk_array], writing from [position]. *)
Fixpoint encode_elements (capacity position : Z) (elements : list slice) : option (list Z) :=
  match elements with
  | [] => Some []
  | e :: elements =>
      match resp_encode_bulk_string (capacity - position) e with
      | None => None
      | Some out =>
          match encode_elements capacity (position + zlen out) elements with
          | None => None
          | Some rest => Some (out ++ rest)
          end
      end
  end.

Definition resp_encode_bulk_array (capacity : Z) (elements : list slice) : option (list Z) :=
  match encode_unsigned_line 42 (zlen elements) capacity with
  | None => None
  | Some header =>
      match encode_elements capacity (zlen header) elements with
      | None => None
      | Some out => Some (header ++ out)
      end
  end.

(** ** Specification *)

(** The frame of a request, without any size limit. *)
Definition bulk_frame (a : list Z) : list Z :=
  36 :: decimal (zlen a) ++ [CR; LF] ++ a ++ [CR; LF].

Definition request_frame (args : list (list Z)) : list Z :=
  42 :: decimal (zlen args) ++ [CR; LF] ++ concat (map bulk_frame args).

(** The bytes a slice denotes in the input. *)
Definition slice_bytes (input : list Z) (s : resp_slice) : list Z :=
  sub_bytes input (slice_offset s) (slice_length s).

(** ** Decimal lemmas *)

Definition is_digit (c : Z) : Prop := 48 <= c <= 57.

(** Value of a run of ASCII digits, starting from [acc]. *)
Definition dec_acc (acc : Z) (ds : list Z) : Z :=
  fold_left (fun a d => a * 10 + (d - 48)) ds acc.

Lemma dec_acc_app acc ds es : dec_acc acc (ds ++ es) = dec_acc (dec_acc acc ds) es.
Proof. apply fold_left_app. Qed.

Lemma dec_acc_ge acc ds : 0 <= acc -> Forall is_digit ds -> acc <= dec_acc acc ds.
Proof.
  intros Ha Hd. revert acc Ha. induction Hd as [|d ds Hd _ IH]; intros acc Ha; cbn; [lia|].
  unfold is_digit in Hd. etrans; [|apply IH]; lia.
Qed.

Lemma digits_rev_spec fuel v :
  0 <= v < 10 ^ Z.of_nat fuel -> (0 < fuel)%nat ->
  Forall is_digit (digits_rev fuel v) /\
  (1 <= length (digits_rev fuel v) <= fuel)%nat /\
  dec_acc 0 (rev (digits_rev fuel v)) = v.
Proof.
  revert v. induction fuel as [|fuel IH]; intros v Hv Hf; [lia|].
  cbn [digits_rev rev]. pose proof (Z.mod_pos_bound v 10 ltac:(lia)).
  pose proof (Z.div_mod v 10 ltac:(lia)).
  assert (Hd : is_digit (48 + v mod 10)) by (unfold is_digit; lia).
  zif.
  - split; [by apply Forall_singleton|]. cbn. lia.
  - rewrite Nat2Z.inj_succ, Z.pow_succ_r in Hv by lia.
    assert (0 <= v / 10 < 10 ^ Z.of_nat fuel).
    { split; [apply Z.div_pos; lia|]. apply Z.div_lt_upper_bound; lia. }
    assert (0 < fuel)%nat. { destruct fuel; cbn in *; lia. }
    destruct (IH (v / 10)) as (I1 & I2 & I3); [done|done|].
    split; [by constructor|]. split; [cbn; lia|].
    rewrite dec_acc_app, I3. cbn. lia.
Qed.

Lemma decimal_spec v :
  0 <= v <= UINT64_MAX ->
  Forall is_digit (decimal v) /\ 1 <= zlen (decimal v) <= 20 /\ dec_acc 0 (decimal v) = v.
Proof.
  intros Hv. destruct (digits_rev_spec 20 v) as (I1 & I2 & I3); [unfold UINT64_MAX in Hv; cbn; lia|lia|].
  unfold decimal. split; [by apply Forall_rev|]. split; [|done].
  unfold zlen. rewrite length_rev. lia.
Qed.

Lemma digit_not_cr c : is_digit c -> c <> CR.
Proof. unfold is_digit, CR. lia. Qed.

Lemma decimal_loop_digits max ds more cursor parsed digits :
  Forall is_digit ds -> 0 <= parsed -> dec_acc parsed ds <= SIZE_MAX ->
  cursor + zlen ds <= max ->
  decimal_loop max (ds ++ CR :: more) cursor parsed digits
  = Some (cursor + zlen ds, dec_acc parsed ds, digits + zlen ds).
Proof.
  intros Hd. revert cursor parsed digits.
  induction Hd as [|d ds Hd Hds IH]; intros cursor parsed digits Hp Hv Hm; cbn [decimal_loop app].
  - rewrite Z.eqb_refl. autorewrite with zlen. cbn. repeat f_equal; lia.
  - rewrite zlen_cons in *. cbn [dec_acc fold_left] in *. fold (dec_acc (parsed * 10 + (d - 48)) ds) in *.
    pose proof (digit_not_cr d Hd). unfold is_digit in Hd. pose proof (zlen_nonneg ds).
    pose proof (dec_acc_ge (parsed * 10 + (d - 48)) ds ltac:(lia) Hds).
    zif; [lia|]. zif. { apply orb_true_iff in Hif0 as [?|?]; zb; lia. }
    zif.
    { exfalso. assert (parsed <= (SIZE_MAX - (d - 48)) / 10); [|lia].
      apply Z.div_le_lower_bound; lia. }
    zif; [lia|]. rewrite IH; [|lia|done|lia]. by rewrite !Z.add_assoc.
Qed.

(** ** How a parsing step reacts to more input

    A step on the input [d] either succeeds or rejects for a reason that lies
    in the bytes of [d], and then does the same on every extension of [d]; or
    it stops because [d] is too short, and then succeeds on an extension only
    by consuming bytes beyond [d]. *)
Inductive step_class {A} (d : list Z) (eos : bool) (max : Z)
    (on_d on_ext : resp_parse_result + A * Z) : Prop :=
| step_ok r : on_d = inr r -> on_ext = inr r -> snd r <= zlen d -> step_class d eos max on_d on_ext
| step_reject : on_d = inl RESP_PARSE_ERROR -> on_ext = inl RESP_PARSE_ERROR ->
    step_class d eos max on_d on_ext
| step_short : on_d = inl (incomplete_or_error (zlen d) eos max) ->
    (forall r, on_ext = inr r -> zlen d < snd r) -> step_class d eos max on_d on_ext.

Definition swap {A B} (p : A * B) : B * A := (snd p, fst p).

Definition line_step (r : resp_parse_result + Z * Z) : resp_parse_result + Z * Z :=
  match r with inl e => inl e | inr p => inr (swap p) end.

Lemma decimal_loop_stop max rest cursor parsed digits c' p' d' :
  decimal_loop max rest cursor parsed digits = Some (c', p', d') ->
  0 <= parsed -> exists ds post, rest = ds ++ post /\ Forall is_digit ds /\
    c' = cursor + zlen ds /\ d' = digits + zlen ds /\ 0 <= p' /\
    (post = [] \/ exists t, post = CR :: t).
Proof.
  revert cursor parsed digits. induction rest as [|c rest IH]; intros cursor parsed digits E Hp;
    cbn [decimal_loop] in E.
  - inversion E; subst. exists [], []. autorewrite with zlen. repeat split; auto; lia.
  - zif_in E.
    { inversion E; subst. exists [], (CR :: rest). autorewrite with zlen.
      repeat split; eauto; lia. }
    zif_in E; [done|]. zif_in E; [done|]. zif_in E; [done|].
    apply IH in E as (ds & post & -> & Hd & -> & -> & ? & Hpost); [|lia].
    exists (c :: ds), post. rewrite zlen_cons.
    repeat split; auto; try lia. constructor; [unfold is_digit; lia|done].
Qed.

(** Extension of the input: an early error stays; a stop at a carriage return
    stays. *)
Lemma decimal_loop_app max rest more cursor parsed digits :
  match decimal_loop max rest cursor parsed digits with
  | None => decimal_loop max (rest ++ more) cursor parsed digits = None
  | Some (c', p', d') =>
      c' < cursor + zlen rest /\
        decimal_loop max (rest ++ more) cursor parsed digits = Some (c', p', d') \/
      c' = cursor + zlen rest /\
        decimal_loop max (rest ++ more) cursor parsed digits
        = decimal_loop max more c' p' d'
  end.
Proof.
  revert cursor parsed digits. induction rest as [|c rest IH]; intros; cbn [decimal_loop app].
  - right. autorewrite with zlen. split; [lia|done].
  - rewrite zlen_cons. pose proof (zlen_nonneg rest). zif; [left; split; [lia|done]|].
    zif; [done|]. zif; [done|]. zif; [done|].
    specialize (IH (cursor + 1) (parsed * 10 + (c - 48)) (digits + 1)).
    destruct (decimal_loop max rest _ _ _) as [[[c' p'] d']|]; [|done].
    destruct IH as [[? ?]|[? ?]]; [left|right]; split; auto; lia.
Qed.

Lemma byte_at_app l k i : 0 <= i < zlen l -> byte_at (l ++ k) i = byte_at l i.
Proof. intros. unfold byte_at. rewrite app_nth1; [done|zlia]. Qed.

Lemma byte_at_app_r l k : byte_at (l ++ k) (zlen l) = nth 0 k 0.
Proof. unfold byte_at, zlen. rewrite Nat2Z.id, app_nth2, Nat.sub_diag by lia. done. Qed.

Lemma decimal_loop_mono max rest cursor parsed digits c' p' d' :
  decimal_loop max rest cursor parsed digits = Some (c', p', d') ->
  0 <= parsed -> cursor <= c'.
Proof.
  intros E Hp. apply decimal_loop_stop in E as (ds & ? & ? & ? & -> & ?); [|done].
  pose proof (zlen_nonneg ds). lia.
Qed.

Lemma line_class d more eos max position :
  0 <= position <= zlen d ->
  step_class d eos max (line_step (parse_decimal_line d position eos max))
                       (line_step (parse_decimal_line (d ++ more) position eos max)).
Proof.
  intros Hp. unfold parse_decimal_line.
  rewrite drop_app_le by zlia.
  pose proof (decimal_loop_app max (drop (Z.to_nat position) d) more position 0 0) as Ha.
  rewrite zlen_drop in Ha by lia. rewrite zlen_app. pose proof (zlen_nonneg more).
  destruct (decimal_loop max (drop (Z.to_nat position) d) position 0 0)
    as [[[c' p'] d']|] eqn:E; [|by rewrite Ha; apply step_reject].
  pose proof (decimal_loop_mono _ _ _ _ _ _ _ _ E ltac:(lia)).
  apply decimal_loop_stop in E as (ds & post & _ & _ & _ & _ & Hp' & _); [|lia].
  assert (Hge : forall x y, y <= x -> (x >=? y) = true) by (intros; rewrite Z.geb_leb; by apply Z.leb_le).
  assert (Hlt : forall x y, x < y -> (x >=? y) = false) by (intros; rewrite Z.geb_leb; by apply Z.leb_gt).
  destruct Ha as [[Hc ->]|[Hc Hext]].
  - rewrite !(Hlt c') by lia. destruct (Z.eqb_spec d' 0); cbn [orb]; [by apply step_reject|].
    destruct (Z.lt_ge_cases (c' + 1) (zlen d)).
    + rewrite !(Hlt (c' + 1)), byte_at_app by lia. cbn [orb].
      zif; [by apply step_reject|]. eapply step_ok; [done..|cbn; lia].
    + rewrite (Hge (c' + 1)) by lia. apply step_short; [done|].
      intros r. zif; [done|]. zif; [done|]. intros Hr. inversion Hr. cbn. lia.
  - rewrite Hge by lia. apply step_short; [done|]. rewrite Hext.
    intros r Hr. destruct (decimal_loop max more c' p' d') as [[[c2 p2] d2]|] eqn:E2; [|done].
    pose proof (decimal_loop_mono _ _ _ _ _ _ _ _ E2 ltac:(lia)).
    do 3 (zif_in Hr; [done|]). inversion Hr. cbn. lia.
Qed.

Lemma incomplete_or_error_short len eos max :
  incomplete_or_error len eos max = RESP_PARSE_INCOMPLETE <-> eos = false /\ len < max.
Proof.
  unfold incomplete_or_error. destruct eos; cbn; [by split; [|intros [? _]]|].
  rewrite Z.geb_leb. destruct (Z.leb_spec max len); split;
    [done|intros [_ ?]; lia|by split|done].
Qed.

(** Bounds of a successful line. *)
Lemma line_ok_bounds d position eos max p v :
  0 <= position -> parse_decimal_line d position eos max = inr (p, v) ->
  position + 2 < p <= zlen d /\ 0 <= v.
Proof.
  intros Hp. unfold parse_decimal_line.
  destruct (decimal_loop _ _ _ _ _) as [[[c' p'] d']|] eqn:E; [|done].
  apply decimal_loop_stop in E as (ds & post & _ & _ & -> & -> & Hp' & _); [|lia].
  intros Hr. zif_in Hr; [done|]. zif_in Hr; [done|]. zif_in Hr; [done|]. inversion Hr; subst.
  pose proof (zlen_nonneg ds). zb. lia.
Qed.

Lemma argument_class d more eos max position :
  0 <= position <= zlen d ->
  step_class d eos max (parse_argument d eos max position)
                       (parse_argument (d ++ more) eos max position).
Proof.
  intros Hp. unfold parse_argument. rewrite zlen_app. pose proof (zlen_nonneg more).
  destruct (Z.geb_spec position (zlen d)) as [Hge|Hlt].
  { apply step_short; [done|]. intros r Hr. zif_in Hr; [done|]. zif_in Hr; [done|].
    destruct (parse_decimal_line _ _ _ _) as [|[p v]] eqn:E; [done|].
    apply line_ok_bounds in E; [|lia].
    do 4 (zif_in Hr; [done|]). inversion Hr. cbn. lia. }
  rewrite byte_at_app by lia. destruct (Z.geb_spec position (zlen d + zlen more)); [lia|].
  zif; [by apply step_reject|].
  destruct (line_class d more eos max (position + 1) ltac:(lia)) as [r H1 H2 Hr|H1 H2|H1 H2].
  - destruct (parse_decimal_line d (position + 1) eos max) as [|[p v]] eqn:E1; [done|].
    destruct (parse_decimal_line (d ++ more) (position + 1) eos max) as [|[p2 v2]]; [done|].
    cbn in H1, H2. inversion H1; subst. inversion H2; subst. clear H1 H2. cbn in Hr.
    apply line_ok_bounds in E1; [|lia].
    zif; [by apply step_reject|].
    destruct (Z.ltb_spec (zlen d - p) v).
    { apply step_short; [done|]. intros r Hr2. do 3 (zif_in Hr2; [done|]).
      inversion Hr2. cbn. lia. }
    destruct (Z.ltb_spec (zlen d + zlen more - p) v); [lia|].
    rewrite (Z.gtb_ltb (p + v + 2) (zlen d)), (Z.gtb_ltb (p + v + 2) (zlen d + zlen more)).
    destruct (Z.ltb_spec (zlen d) (p + v + 2)).
    { apply step_short; [done|]. intros r Hr2. do 2 (zif_in Hr2; [done|]).
      inversion Hr2. cbn. lia. }
    destruct (Z.ltb_spec (zlen d + zlen more) (p + v + 2)); [lia|].
    rewrite !byte_at_app by lia. zif; [by apply step_reject|].
    eapply step_ok; [done..|cbn; lia].
  - destruct (parse_decimal_line d _ _ _) as [|]; [|done]. cbn in H1. inversion H1; subst.
    destruct (parse_decimal_line (d ++ more) _ _ _); [|done]. cbn in H2. inversion H2; subst.
    by apply step_reject.
  - destruct (parse_decimal_line d _ _ _) as [|]; [|done]. cbn in H1. inversion H1; subst.
    apply step_short; [done|]. intros r Hr.
    destruct (parse_decimal_line (d ++ more) _ _ _) as [|[p v]] eqn:E; [done|].
    specialize (H2 _ eq_refl). cbn in H2. apply line_ok_bounds in E; [|lia].
    do 4 (zif_in Hr; [done|]). inversion Hr. cbn. lia.
Qed.

Lemma argument_ok_bounds d eos max position s p :
  0 <= position -> parse_argument d eos max position = inr (s, p) ->
  position < p <= zlen d /\ p <= max /\
  position < slice_offset s /\ 0 <= slice_length s /\
  slice_offset s + slice_length s + 2 = p.
Proof.
  intros Hp E. unfold parse_argument in E. zif_in E; [done|]. zif_in E; [done|].
  destruct (parse_decimal_line _ _ _ _) as [|[q v]] eqn:E1; [done|].
  apply line_ok_bounds in E1; [|lia]. do 4 (zif_in E; [done|]). inversion E; subst. cbn.
  zb. lia.
Qed.

Lemma arguments_ok_bounds n d eos max position args p :
  0 <= position <= zlen d -> parse_arguments n d eos max position = inr (args, p) ->
  position <= p <= zlen d /\ (n = O -> p = position) /\
  (n <> O -> p <= max) /\ length args = n /\
  Forall (fun s => 0 <= slice_offset s /\ 0 <= slice_length s /\
                   slice_offset s + slice_length s <= p) args.
Proof.
  revert position args p. induction n as [|n IH]; intros position args p Hp E;
    cbn [parse_arguments] in E.
  { inversion E; subst. split_and!; try lia; [done|constructor]. }
  destruct (parse_argument d eos max position) as [|[s q]] eqn:E1; [done|].
  apply argument_ok_bounds in E1; [|lia].
  destruct (parse_arguments n d eos max q) as [|[rest q2]] eqn:E2; [done|].
  inversion E; subst. apply IH in E2 as (I1 & I0 & I2 & I3 & I4); [|lia].
  split; [lia|]. split; [done|]. split.
  { intros _. destruct n; [|apply I2; lia]. rewrite I0 by done. lia. }
  split; [cbn; lia|]. constructor; [lia|].
  eapply Forall_impl; [exact I4|]. cbn. lia.
Qed.

Lemma arguments_class n d more eos max position :
  0 <= position <= zlen d ->
  step_class d eos max (parse_arguments n d eos max position)
                       (parse_arguments n (d ++ more) eos max position).
Proof.
  revert position. induction n as [|n IH]; intros position Hp; cbn [parse_arguments].
  { eapply step_ok; [done..|cbn; lia]. }
  destruct (argument_class d more eos max position Hp) as [[s p] H1 H2 Hr|H1 H2|H1 H2].
  - rewrite H1, H2. cbn in Hr. pose proof (argument_ok_bounds _ _ _ _ _ _ (proj1 Hp) H1).
    destruct (IH p ltac:(lia)) as [[r q] I1 I2 Ir|I1 I2|I1 I2].
    + rewrite I1, I2. by eapply step_ok.
    + rewrite I1, I2. by apply step_reject.
    + rewrite I1. apply step_short; [done|]. intros r Hr2.
      destruct (parse_arguments n (d ++ more) eos max p) as [|[r2 q]]; [done|].
      inversion Hr2; subst. apply (I2 _ eq_refl).
  - rewrite H1, H2. by apply step_reject.
  - rewrite H1. apply step_short; [done|]. intros r Hr.
    destruct (parse_argument (d ++ more) eos max position) as [|[s p]] eqn:E; [done|].
    specialize (H2 _ eq_refl). cbn in H2.
    destruct (parse_arguments n (d ++ more) eos max p) as [|[r2 q]] eqn:E2; [done|].
    apply argument_ok_bounds in E; [|lia].
    apply arguments_ok_bounds in E2; [|lia]. inversion Hr; subst. cbn. lia.
Qed.

(** The parser's result as a step. *)
Definition as_step (r : resp_parse_result * list resp_slice * Z)
  : resp_parse_result + list resp_slice * Z :=
  match r with
  | (RESP_PARSE_COMPLETE, args, consumed) => inr (args, consumed)
  | (e, _, _) => inl e
  end.

Lemma line_error_not_complete d position eos max :
  parse_decimal_line d position eos max <> inl RESP_PARSE_COMPLETE.
Proof.
  unfold parse_decimal_line, incomplete_or_error.
  destruct (decimal_loop _ _ _ _ _) as [[[? ?] ?]|]; [|done].
  repeat (zif; try done).
Qed.

Lemma argument_error_not_complete d eos max position :
  parse_argument d eos max position <> inl RESP_PARSE_COMPLETE.
Proof.
  unfold parse_argument, incomplete_or_error.
  destruct (parse_decimal_line _ _ _ _) as [|[? ?]] eqn:E.
  - pose proof (line_error_not_complete d (position + 1) eos max).
    repeat (zif; try done); congruence.
  - repeat (zif; try done).
Qed.

Lemma arguments_error_not_complete n d eos max position :
  parse_arguments n d eos max position <> inl RESP_PARSE_COMPLETE.
Proof.
  revert position. induction n as [|n IH]; intros position; cbn [parse_arguments]; [done|].
  pose proof (argument_error_not_complete d eos max position).
  destruct (parse_argument d eos max position) as [|[s p]]; [congruence|].
  specialize (IH p). destruct (parse_arguments n d eos max p) as [|[? ?]]; congruence.
Qed.

Lemma as_step_error (r : resp_parse_result) : r <> RESP_PARSE_COMPLETE -> as_step (r, [], 0) = inl r.
Proof. by destruct r. Qed.

Lemma parse_class d more eos max :
  0 < max ->
  step_class d eos max (as_step (resp_parse_request_with_limit (Some d) eos max))
                       (as_step (resp_parse_request_with_limit (Some (d ++ more)) eos max)).
Proof.
  intros Hmax. cbn [resp_parse_request_with_limit].
  destruct (Z.eqb_spec max 0); [lia|]. rewrite zlen_app.
  pose proof (zlen_nonneg d). pose proof (zlen_nonneg more).
  destruct (Z.eqb_spec (zlen d) 0) as [Hd|Hd].
  { apply step_short.
    - unfold incomplete_or_error. rewrite Z.geb_leb.
      destruct (Z.leb_spec max (zlen d)); [lia|]. by destruct eos.
    - intros [args p]. zif; [by destruct eos|]. zif; [done|]. intros E.
      pose proof (line_error_not_complete (d ++ more) 1 eos max) as Hn.
      destruct (parse_decimal_line _ _ _ _) as [e|[q v]] eqn:E1; [destruct e; cbn in E; congruence|].
      apply line_ok_bounds in E1; [|lia]. zif_in E; [done|].
      pose proof (arguments_error_not_complete (Z.to_nat v) (d ++ more) eos max q) as Ha2.
      destruct (parse_arguments _ _ _ _ _) as [e|[a q2]] eqn:E2; [destruct e; cbn in E; congruence|].
      apply arguments_ok_bounds in E2; [|lia]. cbn in E. inversion E; subst. cbn. lia. }
  destruct (Z.eqb_spec (zlen d + zlen more) 0); [lia|].
  rewrite byte_at_app by lia. zif; [by apply step_reject|].
  pose proof (line_error_not_complete d 1 eos max) as Hn1.
  pose proof (line_error_not_complete (d ++ more) 1 eos max) as Hn2.
  destruct (line_class d more eos max 1 ltac:(lia)) as [r H1 H2 Hr|H1 H2|H1 H2].
  - destruct (parse_decimal_line d 1 eos max) as [|[p v]] eqn:E1; [done|].
    destruct (parse_decimal_line (d ++ more) 1 eos max) as [|[p2 v2]]; [done|].
    cbn in H1, H2. inversion H1; subst. inversion H2; subst. clear H1 H2.
    apply line_ok_bounds in E1; [|lia]. zif; [by apply step_reject|].
    pose proof (arguments_error_not_complete (Z.to_nat v) d eos max p) as Ha1.
    pose proof (arguments_error_not_complete (Z.to_nat v) (d ++ more) eos max p) as Ha2.
    destruct (arguments_class (Z.to_nat v) d more eos max p ltac:(lia)) as [[a q] I1 I2 Ir|I1 I2|I1 I2].
    + rewrite I1, I2. by eapply step_ok.
    + rewrite I1, I2. by apply step_reject.
    + rewrite I1. rewrite I1 in Ha1. apply step_short; [apply as_step_error; congruence|].
      intros [a q] E. destruct (parse_arguments _ (d ++ more) _ _ _) as [e|[a2 q2]];
        [destruct e; cbn in E; congruence|]. cbn in E. inversion E; subst. apply (I2 _ eq_refl).
  - destruct (parse_decimal_line d 1 eos max); [|done]. cbn in H1. inversion H1; subst.
    destruct (parse_decimal_line (d ++ more) 1 eos max); [|done]. cbn in H2. inversion H2; subst.
    by apply step_reject.
  - destruct (parse_decimal_line d 1 eos max); [|done]. cbn in H1. inversion H1; subst.
    apply step_short; [apply as_step_error; congruence|].
    intros [a q] E. destruct (parse_decimal_line (d ++ more) 1 eos max) as [e|[p v]] eqn:E1;
      [destruct e; cbn in E; congruence|].
    specialize (H2 _ eq_refl). cbn in H2. apply line_ok_bounds in E1; [|lia]. zif_in E; [done|].
    pose proof (arguments_error_not_complete (Z.to_nat v) (d ++ more) eos max p) as Ha2.
    destruct (parse_arguments _ _ _ _ _) as [e|[a2 q2]] eqn:E2;
      [destruct e; cbn in E; congruence|].
    apply arguments_ok_bounds in E2; [|lia]. cbn in E. inversion E; subst. cbn. lia.
Qed.

(** ** Parsing what the encoders write *)

Lemma parse_line_at pre v more eos max :
  0 <= v <= UINT64_MAX -> zlen pre + zlen (decimal v) <= max ->
  parse_decimal_line (pre ++ decimal v ++ CR :: LF :: more) (zlen pre) eos max
  = inr (zlen pre + zlen (decimal v) + 2, v).
Proof.
  intros Hv Hm. destruct (decimal_spec v Hv) as (Hd & Hl & Hval).
  unfold parse_decimal_line.
  replace (Z.to_nat (zlen pre)) with (length pre) by zlia. rewrite drop_app_length.
  rewrite decimal_loop_digits by (try done; rewrite Hval; zlia).
  rewrite Hval. autorewrite with zlen. pose proof (zlen_nonneg more). pose proof (zlen_nonneg pre).
  zif; [lia|]. zif. { apply orb_true_iff in Hif0 as [?|?]; zb; lia. }
  replace (zlen pre + zlen (decimal v) + 1) with (zlen (pre ++ decimal v ++ [CR]))
    by (autorewrite with zlen; lia).
  replace (pre ++ decimal v ++ CR :: LF :: more) with ((pre ++ decimal v ++ [CR]) ++ LF :: more)
    by app_eq.
  rewrite byte_at_app_r. cbn [nth]. by rewrite Z.eqb_refl.
Qed.

Lemma zlen_bulk_frame a : zlen (bulk_frame a) = zlen (decimal (zlen a)) + zlen a + 5.
Proof. unfold bulk_frame. autorewrite with zlen. lia. Qed.

(** The slice the parser produces for the argument [a] at offset [off]. *)
Definition slice_at (off : Z) (a : list Z) : resp_slice :=
  mk_resp_slice (off + zlen (decimal (zlen a)) + 3) (zlen a).

Lemma bulk_frame_split a :
  bulk_frame a = (36 :: decimal (zlen a) ++ [CR; LF]) ++ a ++ [CR; LF].
Proof. unfold bulk_frame. app_eq. Qed.

Lemma slice_at_bytes pre a more :
  slice_bytes (pre ++ bulk_frame a ++ more) (slice_at (zlen pre) a) = a.
Proof.
  unfold slice_bytes, slice_at. cbn [slice_offset slice_length]. rewrite bulk_frame_split.
  set (h := 36 :: decimal (zlen a) ++ [CR; LF]).
  replace (zlen pre + zlen (decimal (zlen a)) + 3) with (zlen (pre ++ h))
    by (unfold h; autorewrite with zlen; lia).
  rewrite <- app_assoc, (app_assoc pre), sub_bytes_app_r, <- app_assoc.
  rewrite take_app_le by zlia. apply take_ge. zlia.
Qed.

Lemma parse_argument_at pre a more eos max :
  zlen a <= UINT64_MAX -> zlen pre + zlen (bulk_frame a) <= max ->
  parse_argument (pre ++ bulk_frame a ++ more) eos max (zlen pre)
  = inr (slice_at (zlen pre) a, zlen pre + zlen (bulk_frame a)).
Proof.
  intros Ha Hm. pose proof (zlen_nonneg a). pose proof (zlen_nonneg pre). pose proof (zlen_nonneg more).
  destruct (decimal_spec (zlen a)) as (_ & Hl & _); [lia|].
  rewrite zlen_bulk_frame in *. unfold parse_argument.
  assert (Hlen : zlen (pre ++ bulk_frame a ++ more)
                 = zlen pre + zlen (decimal (zlen a)) + zlen a + 5 + zlen more)
    by (rewrite !zlen_app, zlen_bulk_frame; lia).
  rewrite Hlen. zif; [lia|]. rewrite byte_at_app_r. cbn [nth app].
  change (nth 0 (bulk_frame a ++ more) 0) with 36. rewrite Z.eqb_refl. cbn [negb].
  replace (pre ++ bulk_frame a ++ more)
    with ((pre ++ [36]) ++ decimal (zlen a) ++ CR :: LF :: a ++ [CR; LF] ++ more)
    by (unfold bulk_frame; app_eq).
  replace (zlen pre + 1) with (zlen (pre ++ [36])) by (autorewrite with zlen; lia).
  rewrite parse_line_at; [|lia|autorewrite with zlen; lia].
  autorewrite with zlen.
  zif. { apply orb_true_iff in Hif0 as [?|?]; zb; lia. }
  zif; [lia|]. zif; [lia|].
  set (body := (pre ++ [36]) ++ decimal (zlen a) ++ CR :: LF :: a).
  replace ((pre ++ [36]) ++ decimal (zlen a) ++ CR :: LF :: a ++ [CR; LF] ++ more)
    with (body ++ CR :: LF :: more) by (unfold body; app_eq).
  replace (zlen pre + (1 + 0) + zlen (decimal (zlen a)) + 2 + zlen a) with (zlen body)
    by (unfold body; autorewrite with zlen; lia).
  rewrite byte_at_app_r. cbn [nth].
  replace (zlen body + 1) with (zlen (body ++ [CR])) by (autorewrite with zlen; lia).
  replace (body ++ CR :: LF :: more) with ((body ++ [CR]) ++ LF :: more) by app_eq.
  rewrite byte_at_app_r. cbn [nth]. rewrite !Z.eqb_refl. cbn [negb]. rewrite !orb_false_r.
  assert (Hb : zlen body = zlen pre + zlen (decimal (zlen a)) + zlen a + 3)
    by (unfold body; autorewrite with zlen; lia).
  zif; [lia|]. unfold slice_at. do 2 f_equal; [f_equal|]; lia.
Qed.

(** The slices of consecutive arguments from offset [off]. *)
Fixpoint slices_from (off : Z) (args : list (list Z)) : list resp_slice :=
  match args with
  | [] => []
  | a :: args => slice_at off a :: slices_from (off + zlen (bulk_frame a)) args
  end.

Lemma slices_from_bytes pre args more :
  map (slice_bytes (pre ++ concat (map bulk_frame args) ++ more)) (slices_from (zlen pre) args)
  = args.
Proof.
  revert pre. induction args as [|a args IH]; intros pre; cbn [map concat slices_from]; [done|].
  rewrite <- app_assoc, slice_at_bytes. f_equal.
  rewrite <- zlen_app, app_assoc. apply IH.
Qed.

Lemma parse_arguments_at args pre more eos max :
  Forall (fun a => zlen a <= UINT64_MAX) args ->
  zlen pre + zlen (concat (map bulk_frame args)) <= max ->
  parse_arguments (length args) (pre ++ concat (map bulk_frame args) ++ more) eos max (zlen pre)
  = inr (slices_from (zlen pre) args, zlen pre + zlen (concat (map bulk_frame args))).
Proof.
  intros Hall. revert pre. induction Hall as [|a args Ha _ IH]; intros pre Hm;
    cbn [map concat slices_from parse_arguments length] in *.
  { autorewrite with zlen. by rewrite Z.add_0_r. }
  rewrite zlen_app in Hm. pose proof (zlen_nonneg (concat (map bulk_frame args))).
  rewrite <- app_assoc, parse_argument_at by lia.
  rewrite <- zlen_app, app_assoc, IH by (rewrite zlen_app; lia).
  rewrite !zlen_app. by rewrite Z.add_assoc.
Qed.

Lemma parse_frame args more eos max :
  1 <= zlen args <= RESP_MAX_ARGUMENTS ->
  Forall (fun a => zlen a <= UINT64_MAX) args ->
  zlen (request_frame args) <= max ->
  exists slices,
    resp_parse_request_with_limit (Some (request_frame args ++ more)) eos max
      = (RESP_PARSE_COMPLETE, slices, zlen (request_frame args)) /\
    map (slice_bytes (request_frame args ++ more)) slices = args.
Proof.
  intros Hn Hall Hm. unfold RESP_MAX_ARGUMENTS in Hn.
  destruct (decimal_spec (zlen args)) as (_ & Hl & _); [zlia|].
  set (pre := [42] ++ decimal (zlen args) ++ [CR; LF]).
  set (body := concat (map bulk_frame args)).
  assert (Hf : request_frame args ++ more = pre ++ body ++ more).
  { unfold request_frame, pre, body. app_eq. }
  assert (Hp : zlen pre = zlen (decimal (zlen args)) + 3) by (unfold pre; autorewrite with zlen; lia).
  assert (Hz : zlen (request_frame args) = zlen pre + zlen body).
  { rewrite Hp. unfold request_frame, body. autorewrite with zlen. lia. }
  pose proof (zlen_nonneg body). pose proof (zlen_nonneg more).
  exists (slices_from (zlen pre) args). rewrite Hf. split; [|apply slices_from_bytes].
  cbn [resp_parse_request_with_limit].
  destruct (Z.eqb_spec max 0); [lia|]. rewrite !zlen_app.
  destruct (Z.eqb_spec (zlen pre + (zlen body + zlen more)) 0); [lia|].
  change (byte_at (pre ++ body ++ more) 0) with 42. cbn [Z.eqb Pos.eqb negb].
  assert (Hl1 : parse_decimal_line (pre ++ body ++ more) 1 eos max = inr (zlen pre, zlen args)).
  { unfold pre. rewrite <- !app_assoc.
    pose proof (parse_line_at [42] (zlen args) (body ++ more) eos max) as E. cbn [app] in E |- *.
    change (zlen [42]) with 1 in E. rewrite E by zlia. do 2 f_equal. autorewrite with zlen. lia. }
  rewrite Hl1. zif. { unfold RESP_MAX_ARGUMENTS in *. apply orb_true_iff in Hif as [?|?]; zb; lia. }
  replace (Z.to_nat (zlen args)) with (length args) by zlia.
  unfold body. rewrite parse_arguments_at by (try done; fold body; lia).
  fold body. by rewrite Hz.
Qed.

(** ** The encoders *)

(** A payload whose frame length is representable. *)
Definition payload_ok (a : list Z) : Prop := zlen a <= SIZE_MAX - 64.

Lemma encode_bulk_spec cap a :
  payload_ok a ->
  resp_encode_bulk_string cap (Some a)
  = if cap <? zlen (bulk_frame a) then None else Some (bulk_frame a).
Proof.
  unfold payload_ok. intros Ha. pose proof (zlen_nonneg a).
  destruct (decimal_spec (zlen a)) as (_ & Hl & _); [zlia|].
  rewrite zlen_bulk_frame. unfold resp_encode_bulk_string, encode_unsigned_line.
  zif.
  - zif; [done|lia].
  - autorewrite with zlen. zif; [lia|]. zif; zif; try lia; [done|].
    f_equal. unfold bulk_frame. app_eq.
Qed.

Lemma encode_elements_spec cap args pos :
  Forall payload_ok args -> pos <= cap ->
  encode_elements cap pos (map Some args)
  = if cap - pos <? zlen (concat (map bulk_frame args)) then None
    else Some (concat (map bulk_frame args)).
Proof.
  intros Hall. revert pos. induction Hall as [|a args Ha _ IH]; intros pos Hp;
    cbn [map encode_elements concat].
  { autorewrite with zlen. zif; [lia|done]. }
  rewrite encode_bulk_spec by done. pose proof (zlen_nonneg (concat (map bulk_frame args))).
  rewrite zlen_app. zif; [zif; [done|lia]|].
  rewrite IH by lia. zif; zif; try lia; done.
Qed.

Lemma zlen_request_frame args :
  zlen (request_frame args) = zlen (decimal (zlen args)) + 3 + zlen (concat (map bulk_frame args)).
Proof. unfold request_frame. autorewrite with zlen. lia. Qed.

Lemma zlen_map {A B} (f : A -> B) l : zlen (map f l) = zlen l.
Proof. unfold zlen. by rewrite length_map. Qed.

Lemma encode_array_spec cap args :
  Forall payload_ok args -> zlen args <= SIZE_MAX ->
  resp_encode_bulk_array cap (map Some args)
  = if cap <? zlen (request_frame args) then None else Some (request_frame args).
Proof.
  intros Hall Hn. pose proof (zlen_nonneg args).
  pose proof (zlen_nonneg (concat (map bulk_frame args))).
  destruct (decimal_spec (zlen args)) as (_ & Hl & _); [zlia|].
  rewrite zlen_request_frame. unfold resp_encode_bulk_array, encode_unsigned_line.
  rewrite zlen_map. zif; [zif; [done|lia]|].
  autorewrite with zlen. rewrite encode_elements_spec by (try done; lia).
  zif; zif; try lia; [done|]. unfold request_frame. f_equal. app_eq.
Qed.

(** The array encoder never overruns its output and is exact: for any
    payloads it writes precisely the RESP frame when the frame fits the
    capacity, and reports failure otherwise. *)
Theorem encode_array_exact cap args :
  Forall payload_ok args -> zlen args <= SIZE_MAX ->
  resp_encode_bulk_array cap (map Some args)
  = if cap <? zlen (request_frame args) then None else Some (request_frame args).
Proof. apply encode_array_spec. Qed.

(** ** Properties of the parser *)

(** C18. Encode/parse round trip: a request of 1 to 128 arguments written by
    the array encoder, whose frame is within the parser's limit, is parsed as
    complete whatever follows it in the stream; the parser consumes exactly
    the frame and its zero-copy slices denote the original arguments. *)
Theorem resp_roundtrip cap max args more eos out :
  1 <= zlen args <= RESP_MAX_ARGUMENTS -> Forall payload_ok args ->
  resp_encode_bulk_array cap (map Some args) = Some out -> zlen out <= max ->
  exists slices,
    resp_parse_request_with_limit (Some (out ++ more)) eos max
      = (RESP_PARSE_COMPLETE, slices, zlen out) /\
    map (slice_bytes (out ++ more)) slices = args.
Proof.
  intros Hn Hall E Hm.
  rewrite encode_array_spec in E by (try done; unfold RESP_MAX_ARGUMENTS in Hn; zlia).
  zif_in E; [done|]. inversion E; subst out.
  apply parse_frame; [done| |done].
  eapply Forall_impl; [exact Hall|]. unfold payload_ok. cbn. zlia.
Qed.

Lemma resp_roundtrip_witness :
  exists slices,
    resp_parse_request_with_limit (Some (request_frame [[71]; []] ++ [42])) false 65536
      = (RESP_PARSE_COMPLETE, slices, zlen (request_frame [[71]; []])) /\
    map (slice_bytes (request_frame [[71]; []] ++ [42])) slices = [[71]; []].
Proof.
  apply (resp_roundtrip 64 65536 [[71]; []] [42] false).
  - vm_compute. split; discriminate.
  - forall_eval.
  - reflexivity.
  - vm_compute. discriminate.
Defined.

Lemma parse_complete_bounds d eos max args consumed :
  resp_parse_request_with_limit (Some d) eos max = (RESP_PARSE_COMPLETE, args, consumed) ->
  0 < consumed <= zlen d /\ consumed <= max /\ 1 <= zlen args <= RESP_MAX_ARGUMENTS /\
  Forall (fun s => 0 <= slice_offset s /\ 0 <= slice_length s /\
                   slice_offset s + slice_length s <= consumed) args.
Proof.
  intros E. cbn [resp_parse_request_with_limit] in E.
  zif_in E; [done|]. zif_in E; [by destruct eos|]. zif_in E; [done|].
  pose proof (line_error_not_complete d 1 eos max) as Hn.
  destruct (parse_decimal_line d 1 eos max) as [e|[p v]] eqn:E1; [destruct e; congruence|].
  apply line_ok_bounds in E1; [|lia]. zif_in E; [done|].
  pose proof (arguments_error_not_complete (Z.to_nat v) d eos max p) as Ha.
  destruct (parse_arguments _ _ _ _ _) as [e|[a q]] eqn:E2; [destruct e; congruence|].
  apply arguments_ok_bounds in E2 as (? & ? & Hmx & Hlen & ?); [|lia]. inversion E; subst. zb.
  split; [lia|]. split; [apply Hmx; lia|]. split; [unfold zlen; rewrite Hlen; lia|done].
Qed.

Lemma slice_bytes_app d more consumed s :
  0 <= slice_offset s /\ 0 <= slice_length s /\ slice_offset s + slice_length s <= consumed ->
  consumed <= zlen d -> slice_bytes (d ++ more) s = slice_bytes d s.
Proof. intros. unfold slice_bytes. apply sub_bytes_app_l; lia. Qed.

(** C19. Incremental parsing does not depend on how the stream is cut: a
    complete request stays the same request with the same consumed length
    when more bytes arrive, and a rejected prefix stays rejected; the parser
    asks for more only while less than a maximal frame has arrived. *)
Theorem resp_incremental d more max :
  0 < max ->
  match resp_parse_request_with_limit (Some d) false max with
  | (RESP_PARSE_COMPLETE, args, consumed) =>
      resp_parse_request_with_limit (Some (d ++ more)) false max
      = (RESP_PARSE_COMPLETE, args, consumed) /\
      map (slice_bytes (d ++ more)) args = map (slice_bytes d) args
  | (RESP_PARSE_ERROR, _, _) =>
      fst (fst (resp_parse_request_with_limit (Some (d ++ more)) false max)) = RESP_PARSE_ERROR
  | (RESP_PARSE_INCOMPLETE, _, _) => zlen d < max
  end.
Proof.
  intros Hmax. pose proof (parse_class d more false max Hmax) as H.
  pose proof (parse_class (d ++ more) [] false max Hmax) as H'. rewrite app_nil_r in H'.
  destruct (resp_parse_request_with_limit (Some d) false max) as [[st args] c] eqn:E1.
  destruct (resp_parse_request_with_limit (Some (d ++ more)) false max) as [[st2 args2] c2] eqn:E2.
  assert (Hshort : st2 = RESP_PARSE_INCOMPLETE -> zlen (d ++ more) < max).
  { intros ->. destruct H' as [? H' ?|H' ?|H' ?]; try done. cbn in H'. inversion H' as [H''].
    symmetry in H''. apply incomplete_or_error_short in H''. tauto. }
  pose proof (zlen_nonneg more). rewrite zlen_app in Hshort.
  destruct H as [r H1 H2 Hr|H1 H2|H1 H2]; cbn in H1, H2.
  - destruct st; try done. destruct st2; try done. inversion H1; inversion H2; subst.
    inversion H4; subst. split; [done|]. apply map_ext_in. intros s Hs.
    apply parse_complete_bounds in E1 as (? & _ & _ & Hall).
    rewrite Forall_forall in Hall. eapply slice_bytes_app; [by apply Hall, list_elem_of_In|lia].
  - destruct st; try done. by destruct st2.
  - destruct st; try done; inversion H1 as [Hi]; symmetry in Hi.
    + unfold incomplete_or_error in Hi. cbn in Hi. zif_in Hi; [|done].
      cbn. destruct st2; [done|exfalso; pose proof (Hshort eq_refl); lia|exfalso].
      specialize (H2 _ eq_refl). apply parse_complete_bounds in E2. cbn in H2. lia.
    + apply incomplete_or_error_short in Hi. tauto.
Qed.

Lemma resp_incremental_witness :
  0 < 65536 /\
  resp_parse_request_with_limit (Some (request_frame [[71]] ++ [1; 2])) false 65536
  = resp_parse_request_with_limit (Some (request_frame [[71]])) false 65536.
Proof.
  split; [lia|].
  pose proof (resp_incremental (request_frame [[71]]) [1; 2] 65536 ltac:(lia)) as H.
  vm_compute in H |- *. tauto.
Defined.

Lemma prefix_incomplete args max d rest :
  1 <= zlen args <= RESP_MAX_ARGUMENTS -> Forall payload_ok args ->
  zlen (request_frame args) <= max ->
  request_frame args = d ++ rest -> rest <> [] ->
  resp_parse_request_with_limit (Some d) false max = (RESP_PARSE_INCOMPLETE, [], 0).
Proof.
  intros Hn Hall Hm Hd Hr.
  destruct (parse_frame args [] false max) as (s & E & _); [done| |done|].
  { eapply Forall_impl; [exact Hall|]. unfold payload_ok. cbn. zlia. }
  rewrite app_nil_r, Hd in E. rewrite Hd, zlen_app in *.
  assert (0 < zlen rest). { destruct rest; [done|]. rewrite zlen_cons. pose proof (zlen_nonneg rest). lia. }
  pose proof (zlen_nonneg d).
  pose proof (parse_class d rest false max ltac:(lia)) as Hc. rewrite E in Hc. cbn in Hc.
  destruct Hc as [r H1 H2 Hle|H1 H2|H1 _]; [inversion H2; subst; cbn in Hle; lia|done|].
  rewrite (proj2 (incomplete_or_error_short _ _ _)) in H1 by (split; [done|lia]).
  assert (Hz : forall x, resp_parse_request_with_limit (Some d) false max = x ->
             as_step x = inl RESP_PARSE_INCOMPLETE -> x = (RESP_PARSE_INCOMPLETE, [], 0)).
  { intros x <-. cbn [resp_parse_request_with_limit].
    zif; [done|]. zif; [done|]. zif; [done|].
    destruct (parse_decimal_line _ _ _ _) as [e|[p v]]; [destruct e; by intros|].
    zif; [done|]. destruct (parse_arguments _ _ _ _ _) as [e|[a q]]; [destruct e; by intros|done]. }
  by apply (Hz _ eq_refl).
Qed.

(** No valid request is rejected early: every strict prefix of a request
    frame that fits the limit is reported as incomplete. *)
Theorem resp_prefix_incomplete args max d rest :
  1 <= zlen args <= RESP_MAX_ARGUMENTS -> Forall payload_ok args ->
  zlen (request_frame args) <= max ->
  request_frame args = d ++ rest -> rest <> [] ->
  resp_parse_request_with_limit (Some d) false max = (RESP_PARSE_INCOMPLETE, [], 0).
Proof. apply prefix_incomplete. Qed.

(** Memory safety of the zero-copy result: for every input and limit, a
    complete request has 1 to 128 arguments, consumes at least one byte and at
    most the input and the limit, and each slice lies inside the consumed
    bytes. *)
Theorem resp_parse_bounds input eos max args consumed :
  resp_parse_request_with_limit input eos max = (RESP_PARSE_COMPLETE, args, consumed) ->
  exists d, input = Some d /\
  0 < consumed <= zlen d /\ consumed <= max /\ 1 <= zlen args <= RESP_MAX_ARGUMENTS /\
  Forall (fun s => 0 <= slice_offset s /\ 0 <= slice_length s /\
                   slice_offset s + slice_length s <= consumed) args.
Proof.
  intros E. destruct input as [d|]; [|done]. exists d. split; [done|].
  by apply parse_complete_bounds in E.
Qed.

(** The integer reply is the decimal rendering of the value on the whole
    [int64_t] range, [INT64_MIN] included: with 24 bytes of room the encoder
    succeeds and writes the colon, a minus sign exactly for negative values,
    at most 20 digits whose value is the magnitude, and the line end. *)
Theorem encode_integer_correct cap value :
  INT64_MIN <= value <= INT64_MAX -> 24 <= cap ->
  exists ds,
    resp_encode_integer cap value
      = Some (58 :: (if value <? 0 then [45] else []) ++ ds ++ [CR; LF]) /\
    Forall is_digit ds /\ 1 <= zlen ds <= 20 /\ dec_acc 0 ds = Z.abs value.
Proof.
  intros Hv Hc. unfold resp_encode_integer.
  set (magnitude := if value <? 0 then - (value + 1) + 1 else value).
  assert (Hm : magnitude = Z.abs value) by (unfold magnitude; zif; lia).
  destruct (decimal_spec magnitude) as (H1 & H2 & H3); [rewrite Hm; zlia|].
  exists (decimal magnitude). zif; [lia|].
  destruct (Z.ltb_spec cap 2); [lia|]. rewrite andb_false_r.
  rewrite <- Hm. split; [|done].
  match goal with |- context [if cap <? ?x then _ else _] => destruct (Z.ltb_spec cap x) end; [|done].
  exfalso. destruct (value <? 0); lia.
Qed.

Lemma encode_integer_correct_witness :
  INT64_MIN <= INT64_MIN <= INT64_MAX /\
  exists ds, resp_encode_integer 24 INT64_MIN = Some (58 :: [45] ++ ds ++ [CR; LF]) /\
    dec_acc 0 ds = 2 ^ 63.
Proof.
  split; [unfold INT64_MIN, INT64_MAX; lia|].
  destruct (encode_integer_correct 24 INT64_MIN) as (ds & E & _ & _ & Hd);
    [unfold INT64_MIN, INT64_MAX; lia|lia|].
  exists ds. split; [exact E|]. rewrite Hd. reflexivity.
Defined.
