(* ===== verification/HashTable.v ===== *)
(** The chained hash table with incremental rehashing of
    [src/kvstore_hash.c] (interface [include/engine/hash.h]).

    A bucket chain is the list of its nodes.  A node pointer is represented
    by the node, and two pointers are equal when the keys are: the invariant
    [hash_wf] keeps the keys of a table distinct.  The payload, a [void *] of
    the C code, is a type parameter. *)

From S2P Require Import Prelude.

Definition HASH_INITIAL_SLOTS : Z := 16.

Definition HASH_REHASH_NONE : Z := SIZE_MAX.

(** [sizeof] of the node header, a bucket pointer and the table header. *)
Definition SIZEOF_HASH_NODE : Z := 32.

Definition SIZEOF_POINTER : Z := 8.

Definition SIZEOF_HASHTABLE : Z := 48.

(** ** The hash function *)

Definition mul64 (a b : Z) : Z := wrap64 (a * b).

Definition FNV_PRIME : Z := 1099511628211.

Definition FNV_OFFSET : Z := 14695981039346656037.

(** One FNV step of a lane. *)
Definition lane_step (lane c : Z) : Z := mul64 (Z.lxor lane c) FNV_PRIME.

Definition rotate_left (x k : Z) : Z :=
  Z.lor (wrap64 (Z.shiftl x k)) (Z.shiftr x (64 - k)).

(** The two loops of [hash_bytes]: four lanes, then the tail on lane 0. *)
Fixpoint hash_lanes (cursor : list Z) (lane0 lane1 lane2 lane3 : Z) : Z * Z * Z * Z :=
  match cursor with
  | a :: b :: c :: d :: cursor =>
      hash_lanes cursor (lane_step lane0 a) (lane_step lane1 b)
        (lane_step lane2 c) (lane_step lane3 d)
  | tail => (fold_left lane_step tail lane0, lane1, lane2, lane3)
  end.

Definition hash_bytes (k : list Z) : Z :=
  let lane0 := FNV_OFFSET in
  let '(lane0, lane1, lane2, lane3) :=
    hash_lanes k lane0
      (Z.lxor lane0 0x9e3779b185ebca87)
      (Z.lxor lane0 0xc2b2ae3d27d4eb4f)
      (Z.lxor lane0 0x165667b19e3779f9) in
  let value :=
    Z.lxor (Z.lxor (Z.lxor (Z.lxor lane0 (rotate_left lane1 13))
                           (rotate_left lane2 29))
                   (rotate_left lane3 47))
           (mul64 (zlen k) 0x9e3779b185ebca87) in
  let value := Z.lxor value (Z.shiftr value 33) in
  let value := mul64 value 0xff51afd7ed558ccd in
  let value := Z.lxor value (Z.shiftr value 33) in
  let value := mul64 value 0xc4ceb9fe1a85ec53 in
  Z.lxor value (Z.shiftr value 33).

(** ** Data *)

Record kv_hash_node (V : Type) : Type := mk_node {
  nkey : list Z;
  nhash : Z;
  npayload : V
}.
Arguments mk_node {V} _ _ _.
Arguments nkey {V} _.
Arguments nhash {V} _.
Arguments npayload {V} _.

Record kv_hash_table (V : Type) : Type := mk_table {
  buckets : list (list (kv_hash_node V));
  slots : Z
}.
Arguments mk_table {V} _ _.
Arguments buckets {V} _.
Arguments slots {V} _.

Record hashtable (V : Type) : Type := mk_hashtable {
  table0 : kv_hash_table V;
  table1 : kv_hash_table V;
  hcount : Z;
  rehash_index : Z
}.
Arguments mk_hashtable {V} _ _ _ _.
Arguments table0 {V} _.
Arguments table1 {V} _.
Arguments hcount {V} _.
Arguments rehash_index {V} _.

Section HashTable.
Context {V : Type}.
Implicit Types (t : kv_hash_table V) (h : hashtable V) (n : kv_hash_node V).

(** A table after [memset] to zero. *)
Definition zero_table : kv_hash_table V := mk_table [] 0.

Definition key_equals n (k : list Z) (hash_code : Z) : bool :=
  (nhash n =? hash_code) && (zlen (nkey n) =? zlen k) && bool_decide (nkey n = k).

Definition table_allocate (m : mem) (new_slots : Z) : option (kv_hash_table V) * mem :=
  if (new_slots =? 0) || (new_slots >? SIZE_MAX / SIZEOF_POINTER) then (None, m) else
  let '(ok, m) := malloc m in
  if negb ok then (None, m)
  else (Some (mk_table (replicate (Z.to_nat new_slots) []) new_slots), m).

Definition hash_init (m : mem) : option (hashtable V) * mem :=
  match table_allocate m HASH_INITIAL_SLOTS with
  | (None, m) => (None, m)
  | (Some t, m) => (Some (mk_hashtable t zero_table 0 HASH_REHASH_NONE), m)
  end.

(** [hash_clear] returns the emptied table and the payloads it destroyed, in
    the order of destruction. *)
Definition hash_clear h : hashtable V * list V :=
  (mk_hashtable zero_table zero_table 0 HASH_REHASH_NONE,
   map npayload (concat (buckets (table0 h))) ++ map npayload (concat (buckets (table1 h)))).

Definition kv_hash_is_rehashing h : bool := negb (rehash_index h =? HASH_REHASH_NONE).

Definition start_expand (m : mem) h : Z * hashtable V * mem :=
  if kv_hash_is_rehashing h then (0, h, m) else
  if slots (table0 h) >? SIZE_MAX / 2 then (-1, h, m) else
  match table_allocate m (slots (table0 h) * 2) with
  | (None, m) => (-1, h, m)
  | (Some t, m) => (0, mk_hashtable (table0 h) t (hcount h) 0, m)
  end.

Definition maybe_expand (m : mem) h : Z * hashtable V * mem :=
  if kv_hash_is_rehashing h then (0, h, m) else
  let s := slots (table0 h) in
  let threshold := s - s / 4 in
  if hcount h + 1 <=? threshold then (0, h, m) else start_expand m h.

(** The bucket of a hash code: a mask, the slot counts being powers of two. *)
Definition bucket_of t (hash_code : Z) : nat := Z.to_nat (Z.land hash_code (slots t - 1)).

Definition bucket_chain t (b : nat) : list (kv_hash_node V) := nth b (buckets t) [].

Definition find_in_table t (k : list Z) (hash_code : Z) : option (kv_hash_node V) :=
  if slots t =? 0 then None else
  List.find (fun n => key_equals n k hash_code) (bucket_chain t (bucket_of t hash_code)).

(** Unlinking the node [target] from a chain. *)
Fixpoint unlink (target : kv_hash_node V) (chain : list (kv_hash_node V))
  : option (V * list (kv_hash_node V)) :=
  match chain with
  | [] => None
  | n :: chain =>
      if decide (nkey n = nkey target) then Some (npayload n, chain) else
      match unlink target chain with
      | None => None
      | Some (p, chain) => Some (p, n :: chain)
      end
  end.

Definition remove_from_table t (target : kv_hash_node V) : option (V * kv_hash_table V) :=
  if slots t =? 0 then None else
  let b := bucket_of t (nhash target) in
  match unlink target (bucket_chain t b) with
  | None => None
  | Some (p, chain) => Some (p, mk_table (<[b := chain]> (buckets t)) (slots t))
  end.

Definition remove_target h (target : option (kv_hash_node V)) : option V * hashtable V :=
  match target with
  | None => (None, h)
  | Some target =>
      match remove_from_table (table0 h) target with
      | Some (p, t) => (Some p, mk_hashtable t (table1 h) (hcount h - 1) (rehash_index h))
      | None =>
          match remove_from_table (table1 h) target with
          | Some (p, t) => (Some p, mk_hashtable (table0 h) t (hcount h - 1) (rehash_index h))
          | None => (None, h)
          end
      end
  end.

(** [kv_hash_create]: the structure and then its first table. *)
Definition kv_hash_create (m : mem) : option (hashtable V) * mem :=
  let '(ok, m) := malloc m in
  if negb ok then (None, m) else hash_init m.

Definition kv_hash_release h : list V := snd (hash_clear h).

Definition kv_hash_find h (k : slice) : option (kv_hash_node V) :=
  match k with
  | None => None
  | Some k =>
      let hash_code := hash_bytes k in
      match find_in_table (table0 h) k hash_code with
      | Some n => Some n
      | None => if kv_hash_is_rehashing h then find_in_table (table1 h) k hash_code else None
      end
  end.

(** Pushing a node at the head of its bucket's chain. *)
Definition push_node t n : kv_hash_table V :=
  let b := bucket_of t (nhash n) in
  mk_table (<[b := n :: bucket_chain t b]> (buckets t)) (slots t).

Definition kv_hash_insert (m : mem) h (k : slice) (payload : V)
  : Z * option (kv_hash_node V) * hashtable V * mem :=
  match k with
  | None => (-1, None, h, m)
  | Some k =>
      if zlen k =? SIZE_MAX then (-1, None, h, m) else
      let hash_code := hash_bytes k in
      if is_Some_bool (find_in_table (table0 h) k hash_code) then (-1, None, h, m) else
      if kv_hash_is_rehashing h && is_Some_bool (find_in_table (table1 h) k hash_code)
      then (-1, None, h, m) else
      let '(r, h, m) := maybe_expand m h in
      if negb (r =? 0) then (-1, None, h, m) else
      if SIZEOF_HASH_NODE >? SIZE_MAX - zlen k - 1 then (-1, None, h, m) else
      let '(ok, m) := malloc m in
      if negb ok then (-1, None, h, m) else
      let n := mk_node k hash_code payload in
      let h := if kv_hash_is_rehashing h
               then mk_hashtable (table0 h) (push_node (table1 h) n) (hcount h) (rehash_index h)
               else mk_hashtable (push_node (table0 h) n) (table1 h) (hcount h) (rehash_index h) in
      (0, Some n, mk_hashtable (table0 h) (table1 h) (hcount h + 1) (rehash_index h), m)
  end.

Definition kv_hash_remove h (k : slice) : option V * hashtable V :=
  remove_target h (kv_hash_find h k).

Definition kv_hash_remove_node h (target : option (kv_hash_node V)) : option V * hashtable V :=
  remove_target h target.

Definition kv_hash_node_payload (n : option (kv_hash_node V)) : option V := npayload <$> n.

(** Writing the payload field of the node with the key of [target]. *)
Definition with_payload (target : kv_hash_node V) (p : V) n : kv_hash_node V :=
  if decide (nkey n = nkey target) then mk_node (nkey n) (nhash n) p else n.

Definition set_in_table t (target : kv_hash_node V) (payload : V) : kv_hash_table V :=
  mk_table (map (map (with_payload target payload)) (buckets t)) (slots t).

Definition kv_hash_node_set_payload h (target : option (kv_hash_node V)) (payload : V)
  : hashtable V :=
  match target with
  | None => h
  | Some target =>
      mk_hashtable (set_in_table (table0 h) target payload)
                   (set_in_table (table1 h) target payload) (hcount h) (rehash_index h)
  end.

Definition kv_hash_node_key (n : option (kv_hash_node V)) : option (list Z) := nkey <$> n.

Definition kv_hash_node_key_length (n : option (kv_hash_node V)) : Z :=
  match n with None => 0 | Some n => zlen (nkey n) end.

Definition kv_hash_count h : Z := hcount h.

Definition kv_hash_slot_count h : Z :=
  if kv_hash_is_rehashing h then slots (table1 h) else slots (table0 h).

Definition kv_hash_index_memory h : Z :=
  SIZEOF_HASHTABLE + slots (table0 h) * SIZEOF_POINTER + slots (table1 h) * SIZEOF_POINTER.

(** Moving a whole chain into the new table, head first. *)
Definition move_chain t (chain : list (kv_hash_node V)) : kv_hash_table V :=
  fold_left push_node chain t.

(** The migration loop: one iteration per unit of [fuel], which starts as the
    number of buckets left.  The result carries the loop's variables. *)
Fixpoint rehash_loop (fuel : nat) (t0 t1 : kv_hash_table V)
    (index bucket_budget empty_budget moved : Z)
  : kv_hash_table V * kv_hash_table V * Z * Z :=
  match fuel with
  | O => (t0, t1, index, moved)
  | S fuel =>
      if (bucket_budget >? 0) && (index <? slots t0) then
        let chain := bucket_chain t0 (Z.to_nat index) in
        match chain with
        | [] =>
            if empty_budget >? 0
            then rehash_loop fuel t0 t1 (index + 1) bucket_budget (empty_budget - 1) moved
            else rehash_loop fuel t0 t1 (index + 1) (bucket_budget - 1) empty_budget (moved + 1)
        | _ =>
            rehash_loop fuel
              (mk_table (<[Z.to_nat index := []]> (buckets t0)) (slots t0))
              (move_chain t1 chain)
              (index + 1) (bucket_budget - 1) empty_budget (moved + 1)
        end
      else (t0, t1, index, moved)
  end.

Definition kv_hash_rehash_step h (bucket_budget : Z) : Z * hashtable V :=
  if negb (kv_hash_is_rehashing h) then (0, h) else
  let empty_budget := if bucket_budget >? SIZE_MAX / 10 then SIZE_MAX else bucket_budget * 10 in
  let '(t0, t1, index, moved) :=
    rehash_loop (Z.to_nat (slots (table0 h) - rehash_index h)) (table0 h) (table1 h)
      (rehash_index h) bucket_budget empty_budget 0 in
  if index =? slots t0
  then (moved, mk_hashtable t1 zero_table (hcount h) HASH_REHASH_NONE)
  else (moved, mk_hashtable t0 t1 (hcount h) index).

(** ** Iteration: the remaining chain stands for the saved [next] pointer. *)

Record kv_hash_iterator : Type := mk_iterator {
  it_table : Z;
  it_bucket : Z;
  it_next : list (kv_hash_node V)
}.

Definition kv_hash_iterator_begin : kv_hash_iterator := mk_iterator 0 0 [].

Definition table_at h (i : Z) : kv_hash_table V := if i =? 0 then table0 h else table1 h.

(** The inner loop: the next non-empty bucket of a table from [bucket] on,
    with the bucket index after it. *)
Fixpoint scan_buckets (fuel : nat) t (bucket : Z) : option (list (kv_hash_node V)) * Z :=
  match fuel with
  | O => (None, bucket)
  | S fuel =>
      if bucket <? slots t then
        match bucket_chain t (Z.to_nat bucket) with
        | [] => scan_buckets fuel t (bucket + 1)
        | chain => (Some chain, bucket + 1)
        end
      else (None, bucket)
  end.

(** The outer loop over the two tables. *)
Fixpoint scan_tables (fuel : nat) h (ti bucket : Z)
  : option (kv_hash_node V) * kv_hash_iterator :=
  match fuel with
  | O => (None, mk_iterator ti bucket [])
  | S fuel =>
      if ti <? 2 then
        let t := table_at h ti in
        match scan_buckets (Z.to_nat (slots t - bucket)) t bucket with
        | (Some (n :: rest), bucket) => (Some n, mk_iterator ti bucket rest)
        | _ => scan_tables fuel h (ti + 1) 0
        end
      else (None, mk_iterator ti bucket [])
  end.

Definition kv_hash_iterator_next h (it : kv_hash_iterator)
  : option (kv_hash_node V) * kv_hash_iterator :=
  match it_next it with
  | n :: rest => (Some n, mk_iterator (it_table it) (it_bucket it) rest)
  | [] => scan_tables 3 h (it_table it) (it_bucket it)
  end.

(** The loop every caller runs: the nodes returned until [NULL]. *)
Fixpoint iterate (fuel : nat) h (it : kv_hash_iterator) : list (kv_hash_node V) :=
  match fuel with
  | O => []
  | S fuel =>
      match kv_hash_iterator_next h it with
      | (None, _) => []
      | (Some n, it) => n :: iterate fuel h it
      end
  end.

End HashTable.

Definition kv_hash_node_memory_for_key (key_length : Z) : Z :=
  if (key_length =? SIZE_MAX) || (SIZEOF_HASH_NODE >? SIZE_MAX - key_length - 1)
  then SIZE_MAX else SIZEOF_HASH_NODE + key_length + 1.

(** ** Invariant and abstraction *)

Section Invariant.
Context {V : Type}.
Implicit Types (t : kv_hash_table V) (h : hashtable V) (n : kv_hash_node V).

Definition nodes t : list (kv_hash_node V) := concat (buckets t).

Definition all_nodes h : list (kv_hash_node V) := nodes (table0 h) ++ nodes (table1 h).

(** Slot counts are powers of two, every node sits in the bucket of its key. *)
Record table_ok t : Prop := {
  ok_slots : exists k, 4 <= k <= 60 /\ slots t = 2 ^ k;
  ok_length : length (buckets t) = Z.to_nat (slots t);
  ok_chain : forall b c n, buckets t !! b = Some c -> n ∈ c ->
    nhash n = hash_bytes (nkey n) /\ bucket_of t (nhash n) = b
}.

(** During a rehash the buckets below the index are empty. *)
Definition migrated t (index : Z) : Prop :=
  forall b, (b < Z.to_nat index)%nat -> buckets t !! b = Some [].

Record hash_wf h : Prop := {
  wf_table0 : table_ok (table0 h);
  wf_rehash :
    rehash_index h = HASH_REHASH_NONE /\ table1 h = zero_table \/
    (0 <= rehash_index h < slots (table0 h) /\ table_ok (table1 h) /\
     slots (table1 h) = 2 * slots (table0 h) /\ migrated (table0 h) (rehash_index h));
  wf_nodup : NoDup (nkey <$> all_nodes h);
  wf_count : hcount h = zlen (all_nodes h)
}.

(** The finite map a table denotes. *)
Definition pairs (l : list (kv_hash_node V)) : list (list Z * V) :=
  (fun n => (nkey n, npayload n)) <$> l.

Definition to_map h : gmap (list Z) V := list_to_map (pairs (all_nodes h)).

(** ** Table lemmas *)

Lemma table_ok_slots_bound t : table_ok t -> 16 <= slots t <= 2 ^ 60.
Proof.
  intros [(k & Hk & ->) _ _]. split.
  - change 16 with (2 ^ 4). apply Z.pow_le_mono_r; lia.
  - apply Z.pow_le_mono_r; lia.
Qed.

Lemma bucket_in_range t hc : table_ok t -> (bucket_of t hc < length (buckets t))%nat.
Proof.
  intros Ht. pose proof (table_ok_slots_bound t Ht).
  destruct Ht as [(k & Hk & Hs) Hl _]. rewrite Hl. unfold bucket_of.
  replace (slots t - 1) with (Z.ones k) by (rewrite Z.ones_equiv; lia).
  rewrite Z.land_ones by lia. rewrite Hs. pose proof (Z.mod_pos_bound hc (2 ^ k)). lia.
Qed.

Lemma chain_lookup t hc :
  table_ok t -> buckets t !! bucket_of t hc = Some (bucket_chain t (bucket_of t hc)).
Proof.
  intros Ht. pose proof (bucket_in_range t hc Ht) as Hb.
  apply lookup_lt_is_Some in Hb as [c Hc]. rewrite Hc. unfold bucket_chain.
  by rewrite (nth_lookup_Some _ _ _ _ Hc).
Qed.

Lemma nodes_split t b c :
  buckets t !! b = Some c ->
  nodes t = concat (take b (buckets t)) ++ c ++ concat (drop (S b) (buckets t)).
Proof.
  intros Hb. unfold nodes. rewrite <- (take_drop_middle _ _ _ Hb) at 1.
  by rewrite concat_app.
Qed.

Lemma nodes_insert t b c c' s :
  buckets t !! b = Some c ->
  nodes (mk_table (<[b := c']> (buckets t)) s)
  = concat (take b (buckets t)) ++ c' ++ concat (drop (S b) (buckets t)).
Proof.
  intros Hb. unfold nodes. cbn. rewrite insert_take_drop by (by eapply lookup_lt_Some).
  by rewrite concat_app.
Qed.

Lemma elem_of_nodes t n : n ∈ nodes t <-> exists b c, buckets t !! b = Some c /\ n ∈ c.
Proof.
  unfold nodes. rewrite list_elem_of_In, in_concat. split.
  - intros (c & Hc & Hn). apply list_elem_of_In, list_elem_of_lookup in Hc as [b Hb].
    exists b, c. split; [done|by apply list_elem_of_In].
  - intros (b & c & Hb & Hn). exists c. split; [|by apply list_elem_of_In].
    apply list_elem_of_In, list_elem_of_lookup. eauto.
Qed.

Lemma node_hash t n : table_ok t -> n ∈ nodes t -> nhash n = hash_bytes (nkey n).
Proof. intros [_ _ Hc] (b & c & Hb & Hn)%elem_of_nodes. by edestruct Hc. Qed.

(** A node whose key is [k] lies in the bucket of [k]. *)
Lemma node_in_bucket t n :
  table_ok t -> n ∈ nodes t -> n ∈ bucket_chain t (bucket_of t (hash_bytes (nkey n))).
Proof.
  intros Ht (b & c & Hb & Hn)%elem_of_nodes.
  destruct (ok_chain t Ht b c n Hb Hn) as [Hh <-]. rewrite <- Hh.
  rewrite chain_lookup in Hb by done. by inversion Hb; subst.
Qed.

Definition has_key (k : list Z) n : bool := bool_decide (nkey n = k).

Lemma find_has_key_None (k : list Z) (l : list (kv_hash_node V)) :
  List.find (has_key k) l = None <-> forall n, n ∈ l -> nkey n <> k.
Proof.
  split.
  - intros H n Hn E. apply list_elem_of_In in Hn. pose proof (List.find_none _ _ H n Hn) as Hf.
    unfold has_key in Hf. by rewrite bool_decide_true in Hf.
  - intros H. destruct (List.find (has_key k) l) as [n|] eqn:E; [|done].
    apply List.find_some in E as [Hin Hk]. apply bool_decide_eq_true in Hk.
    exfalso. apply (H n); [by apply list_elem_of_In|done].
Qed.

Lemma find_app {A} (f : A -> bool) (l k : list A) :
  List.find f (l ++ k) = match List.find f l with Some x => Some x | None => List.find f k end.
Proof. induction l as [|x l IH]; cbn; [done|]. by destruct (f x). Qed.

Lemma find_ext {A} (f g : A -> bool) (l : list A) :
  (forall x, x ∈ l -> f x = g x) -> List.find f l = List.find g l.
Proof.
  induction l as [|x l IH]; cbn; [done|]. intros H.
  rewrite (H x) by set_solver. destruct (g x); [done|]. apply IH. set_solver.
Qed.

(** The bucket-directed search is a search of the whole table. *)
Lemma find_in_table_spec t k :
  table_ok t -> find_in_table t k (hash_bytes k) = List.find (has_key k) (nodes t).
Proof.
  intros Ht. unfold find_in_table. pose proof (table_ok_slots_bound t Ht).
  destruct (Z.eqb_spec (slots t) 0) as [?|_]; [lia|].
  set (b := bucket_of t (hash_bytes k)).
  pose proof (chain_lookup t (hash_bytes k) Ht) as Hb. fold b in Hb.
  rewrite (nodes_split _ _ _ Hb), !find_app.
  assert (Hother : forall b' c', b' <> b -> buckets t !! b' = Some c' -> forall n, n ∈ c' -> nkey n <> k).
  { intros b' c' Hne Hb' n Hn <-. destruct (ok_chain t Ht b' c' n Hb' Hn) as [Hh Hbo].
    apply Hne. rewrite <- Hbo, Hh. done. }
  assert (Hconc : forall l, (forall c, c ∈ l -> exists b', b' <> b /\ buckets t !! b' = Some c) ->
             List.find (has_key k) (concat l) = None).
  { intros l Hl. apply find_has_key_None. intros n Hn. apply list_elem_of_In, in_concat in Hn as (c & Hc & Hn).
    destruct (Hl c) as (b' & Hne & Hb'); [by apply list_elem_of_In|].
    eapply Hother; [exact Hne|exact Hb'|by apply list_elem_of_In]. }
  rewrite !Hconc.
  - rewrite (find_ext (fun n => key_equals n k (hash_bytes k)) (has_key k)).
    + by destruct (List.find (has_key k) (bucket_chain t b)).
    + intros n Hn. destruct (ok_chain t Ht b _ n Hb Hn) as [Hh _].
      unfold key_equals, has_key. rewrite Hh. case_bool_decide as E; [|by rewrite andb_false_r].
      subst k. by rewrite !Z.eqb_refl.
  - intros c Hc. apply list_elem_of_lookup in Hc as [i Hi]. rewrite lookup_drop in Hi.
    exists (S b + i)%nat. split; [lia|done].
  - intros c Hc. apply list_elem_of_lookup in Hc as [i Hi].
    apply lookup_take_Some in Hi as [Hi Hlt]. exists i. split; [lia|done].
Qed.

(** Replacing the chain of one bucket keeps the table well formed when the
    new chain's nodes belong there. *)
Lemma table_ok_insert t b c' :
  table_ok t -> (b < length (buckets t))%nat ->
  (forall n, n ∈ c' -> nhash n = hash_bytes (nkey n) /\ bucket_of t (nhash n) = b) ->
  table_ok (mk_table (<[b := c']> (buckets t)) (slots t)).
Proof.
  intros Ht Hb Hc. destruct Ht as [Hs Hl Hch]. split; cbn.
  - done.
  - by rewrite length_insert.
  - intros b2 c2 n H2 Hn. unfold bucket_of in *. cbn.
    destruct (decide (b = b2)) as [->|Hne].
    + rewrite list_lookup_insert_eq in H2 by done. inversion H2; subst. by apply Hc.
    + rewrite list_lookup_insert_ne in H2 by done. by eapply Hch.
Qed.

Lemma push_node_spec t n :
  table_ok t -> nhash n = hash_bytes (nkey n) ->
  table_ok (push_node t n) /\ slots (push_node t n) = slots t /\
  nodes (push_node t n) ≡ₚ n :: nodes t.
Proof.
  intros Ht Hn. pose proof (chain_lookup t (nhash n) Ht) as Hb.
  unfold push_node. split_and!.
  - apply table_ok_insert; [done|by apply bucket_in_range|].
    intros n2 [->|Hin]%elem_of_cons; [done|]. by eapply ok_chain.
  - done.
  - rewrite (nodes_insert _ _ _ _ _ Hb), (nodes_split _ _ _ Hb). solve_Permutation.
Qed.

Lemma move_chain_spec t (c : list (kv_hash_node V)) :
  table_ok t -> (forall n, n ∈ c -> nhash n = hash_bytes (nkey n)) ->
  table_ok (move_chain t c) /\ slots (move_chain t c) = slots t /\
  nodes (move_chain t c) ≡ₚ c ++ nodes t.
Proof.
  unfold move_chain. revert t. induction c as [|n c IH]; intros t Ht Hc; cbn [fold_left]; [done|].
  destruct (push_node_spec t n Ht) as (H1 & H2 & H3); [apply Hc; set_solver|].
  destruct (IH (push_node t n) H1) as (I1 & I2 & I3); [intros; apply Hc; set_solver|].
  split_and!; [done|congruence|]. rewrite I3, H3. solve_Permutation.
Qed.

Lemma unlink_spec (target : kv_hash_node V) c :
  match unlink target c with
  | Some (p, c') => exists n, c ≡ₚ n :: c' /\ nkey n = nkey target /\ npayload n = p
  | None => forall n, n ∈ c -> nkey n <> nkey target
  end.
Proof.
  induction c as [|n c IH]; cbn [unlink]; [set_solver|].
  case_decide as E; [by exists n|].
  destruct (unlink target c) as [[p c']|].
  - destruct IH as (n2 & Hp & ? & ?). exists n2. split; [|done]. rewrite Hp. apply perm_swap.
  - intros n2 [->|Hin]%elem_of_cons; [done|by apply IH].
Qed.

Lemma remove_from_table_spec t (target : kv_hash_node V) :
  table_ok t -> nhash target = hash_bytes (nkey target) ->
  match remove_from_table t target with
  | Some (p, t') =>
      table_ok t' /\ slots t' = slots t /\
      (forall b, buckets t !! b = Some [] -> buckets t' !! b = Some []) /\
      exists n, nodes t ≡ₚ n :: nodes t' /\ nkey n = nkey target /\ npayload n = p
  | None => forall n, n ∈ nodes t -> nkey n <> nkey target
  end.
Proof.
  intros Ht Hh. unfold remove_from_table. pose proof (table_ok_slots_bound t Ht).
  destruct (Z.eqb_spec (slots t) 0) as [?|_]; [lia|].
  pose proof (chain_lookup t (nhash target) Ht) as Hb.
  set (b := bucket_of t (nhash target)) in *.
  pose proof (unlink_spec target (bucket_chain t b)) as Hu.
  destruct (unlink target (bucket_chain t b)) as [[p c']|].
  - destruct Hu as (n & Hp & Hk & Hpay). split_and!.
    + apply table_ok_insert; [done|by eapply lookup_lt_Some|].
      intros n2 Hn2. eapply ok_chain; [done|exact Hb|]. rewrite Hp. set_solver.
    + done.
    + intros b2 H2. cbn. destruct (decide (b = b2)) as [<-|Hne].
      * rewrite Hb in H2. inversion H2 as [E]. rewrite E in Hp. by apply Permutation_nil_cons in Hp.
      * by rewrite list_lookup_insert_ne.
    + exists n. split; [|done].
      rewrite (nodes_insert _ _ _ _ _ Hb), (nodes_split _ _ _ Hb), Hp. solve_Permutation.
  - intros n Hn E. eapply (Hu n); [|done].
    apply node_in_bucket in Hn; [|done]. rewrite E, <- Hh in Hn. exact Hn.
Qed.

Lemma with_payload_key target p n : nkey (with_payload target p n) = nkey n.
Proof. unfold with_payload. by case_decide. Qed.

Lemma with_payload_hash target p n : nhash (with_payload target p n) = nhash n.
Proof. unfold with_payload. by case_decide. Qed.

Lemma set_in_table_nodes t target p :
  nodes (set_in_table t target p) = with_payload target p <$> nodes t.
Proof. unfold nodes, set_in_table. cbn. by rewrite <- concat_map. Qed.

Lemma set_in_table_ok t target p : table_ok t -> table_ok (set_in_table t target p).
Proof.
  intros [Hs Hl Hc]. split; cbn; [done|by rewrite length_map|].
  intros b c n Hb Hn. change (@map ?A ?B ?f ?l) with (f <$> l) in Hb.
  rewrite list_lookup_fmap in Hb. apply fmap_Some in Hb as (c0 & Hb & ->).
  apply list_elem_of_fmap in Hn as (n0 & -> & Hn0).
  destruct (Hc b c0 n0 Hb Hn0) as [H1 H2].
  rewrite with_payload_key, with_payload_hash. split; [done|].
  unfold bucket_of in *. done.
Qed.

(** ** The rehash loop *)

Lemma migrated_nil t : table_ok t -> migrated t (slots t) -> nodes t = [].
Proof.
  intros Ht Hm. destruct (nodes t) as [|n l] eqn:E; [done|].
  assert (Hn : n ∈ nodes t) by (rewrite E; set_solver).
  apply elem_of_nodes in Hn as (b & c & Hb & Hn).
  pose proof (lookup_lt_Some _ _ _ Hb). rewrite (ok_length t Ht) in *.
  rewrite Hm in Hb by done. inversion Hb; subst. set_solver.
Qed.

Lemma rehash_loop_spec fuel t0 t1 index budget empty moved :
  table_ok t0 -> table_ok t1 -> slots t1 = 2 * slots t0 ->
  0 <= index <= slots t0 -> migrated t0 index -> 0 <= budget ->
  fuel = Z.to_nat (slots t0 - index) ->
  let '(t0', t1', index', moved') := rehash_loop fuel t0 t1 index budget empty moved in
  table_ok t0' /\ table_ok t1' /\ slots t0' = slots t0 /\ slots t1' = slots t1 /\
  index <= index' <= slots t0 /\ migrated t0' index' /\
  nodes t0' ++ nodes t1' ≡ₚ nodes t0 ++ nodes t1 /\
  moved <= moved' <= moved + budget /\
  (0 < budget -> index < slots t0 -> index < index').
Proof.
  revert t0 t1 index budget empty moved.
  induction fuel as [|fuel IH]; intros t0 t1 index budget empty moved H0 H1 Hs Hi Hm Hb Hf;
    cbn [rehash_loop].
  { split_and!; try done; lia. }
  destruct ((budget >? 0) && (index <? slots t0)) eqn:E; zb.
  2:{ split_and!; try done; lia. }
  assert (Hlt : (Z.to_nat index < length (buckets t0))%nat) by (rewrite (ok_length t0 H0); lia).
  apply lookup_lt_is_Some in Hlt as [c Hc].
  assert (Hch : bucket_chain t0 (Z.to_nat index) = c) by by apply nth_lookup_Some.
  assert (Hstep : forall t0', buckets t0' !! Z.to_nat index = Some [] ->
     (forall b, b <> Z.to_nat index -> buckets t0' !! b = buckets t0 !! b) -> migrated t0' (index + 1)).
  { intros t0' Hz Hsame b Hbb. destruct (decide (b = Z.to_nat index)) as [->|Hne]; [done|].
    rewrite Hsame by done. apply Hm. lia. }
  rewrite Hch. destruct c as [|n0 c0].
  - assert (Hm' : migrated t0 (index + 1)) by (apply Hstep; [done|done]).
    destruct (empty >? 0).
    + specialize (IH t0 t1 (index + 1) budget (empty - 1) moved).
      destruct (rehash_loop fuel t0 t1 (index + 1) _ _ _) as [[[? ?] ?] ?].
      destruct IH as (?&?&?&?&?&?&?&?&?); try done; try lia. split_and!; try done; lia.
    + specialize (IH t0 t1 (index + 1) (budget - 1) empty (moved + 1)).
      destruct (rehash_loop fuel t0 t1 (index + 1) _ _ _) as [[[? ?] ?] ?].
      destruct IH as (?&?&?&?&?&?&?&?&?); try done; try lia. split_and!; try done; lia.
  - set (c := n0 :: c0) in *.
    set (t0' := mk_table (<[Z.to_nat index := []]> (buckets t0)) (slots t0)).
    assert (Hlen : (Z.to_nat index < length (buckets t0))%nat) by by eapply lookup_lt_Some.
    assert (Ht0' : table_ok t0') by (apply table_ok_insert; [done..|set_solver]).
    destruct (move_chain_spec t1 c H1) as (M1 & M2 & M3).
    { intros n Hn. by eapply (ok_chain t0 H0 _ c n Hc). }
    assert (Hm' : migrated t0' (index + 1)).
    { apply Hstep; cbn; [by rewrite list_lookup_insert_eq|].
      intros b Hne. by rewrite list_lookup_insert_ne. }
    assert (Hperm : nodes t0' ++ nodes (move_chain t1 c) ≡ₚ nodes t0 ++ nodes t1).
    { unfold t0'. rewrite (nodes_insert _ _ _ _ _ Hc), (nodes_split _ _ _ Hc), M3. solve_Permutation. }
    specialize (IH t0' (move_chain t1 c) (index + 1) (budget - 1) empty (moved + 1)).
    destruct (rehash_loop fuel t0' _ _ _ _ _) as [[[? ?] ?] ?].
    destruct IH as (?&?&Hs0&?&?&?&Hp&?&?); try done; cbn in *; try lia.
    rewrite Hperm in Hp. split_and!; try done; lia.
Qed.

End Invariant.

(** ** The table as a finite map *)

Section Refinement.
Context {V : Type}.
Implicit Types (t : kv_hash_table V) (h : hashtable V) (n : kv_hash_node V).

Lemma pairs_keys (l : list (kv_hash_node V)) : (pairs l).*1 = nkey <$> l.
Proof. unfold pairs. rewrite <- list_fmap_compose. done. Qed.

Lemma pairs_map_perm (l k : list (kv_hash_node V)) :
  l ≡ₚ k -> NoDup (nkey <$> l) ->
  (list_to_map (pairs l) : gmap (list Z) V) = list_to_map (pairs k).
Proof.
  intros Hp Hn. apply list_to_map_proper; [by rewrite pairs_keys|].
  unfold pairs. by rewrite Hp.
Qed.

Lemma pairs_map_lookup (l : list (kv_hash_node V)) k :
  (list_to_map (pairs l) : gmap (list Z) V) !! k = npayload <$> List.find (has_key k) l.
Proof.
  induction l as [|n l IH]; cbn; [done|]. unfold has_key at 1. case_bool_decide as E.
  - subst. apply lookup_insert_eq.
  - rewrite lookup_insert_ne by done. exact IH.
Qed.

Lemma zero_table_nodes : nodes (@zero_table V) = [].
Proof. reflexivity. Qed.

Lemma rehashing_spec h :
  hash_wf h ->
  (kv_hash_is_rehashing h = false /\ rehash_index h = HASH_REHASH_NONE /\ table1 h = zero_table) \/
  (kv_hash_is_rehashing h = true /\ 0 <= rehash_index h < slots (table0 h) /\
   table_ok (table1 h) /\ slots (table1 h) = 2 * slots (table0 h) /\
   migrated (table0 h) (rehash_index h)).
Proof.
  intros Hw. unfold kv_hash_is_rehashing.
  destruct (wf_rehash h Hw) as [[Hr Ht]|Hr].
  - left. rewrite Hr, Z.eqb_refl. done.
  - right. pose proof (table_ok_slots_bound _ (wf_table0 h Hw)).
    destruct (Z.eqb_spec (rehash_index h) HASH_REHASH_NONE) as [E|E]; [|done].
    unfold HASH_REHASH_NONE, SIZE_MAX in E. lia.
Qed.

Lemma find_all_nodes h k :
  hash_wf h -> kv_hash_find h (Some k) = List.find (has_key k) (all_nodes h).
Proof.
  intros Hw. unfold kv_hash_find, all_nodes.
  rewrite find_in_table_spec by apply Hw. rewrite find_app.
  destruct (List.find (has_key k) (nodes (table0 h))); [done|].
  destruct (rehashing_spec h Hw) as [(-> & _ & ->)|(-> & _ & H1 & _)].
  - by rewrite zero_table_nodes.
  - by apply find_in_table_spec.
Qed.

Lemma find_node_spec h k n :
  hash_wf h -> kv_hash_find h (Some k) = Some n ->
  nkey n = k /\ nhash n = hash_bytes k /\ to_map h !! k = Some (npayload n).
Proof.
  intros Hw E. pose proof E as E2. rewrite find_all_nodes in E by done.
  unfold to_map. rewrite pairs_map_lookup, E. cbn.
  apply List.find_some in E as [Hin Hk]. apply bool_decide_eq_true in Hk. subst k.
  split; [done|]. split; [|done]. apply list_elem_of_In in Hin.
  apply elem_of_app in Hin as [Hin|Hin]; [eapply node_hash; [apply Hw|done]|].
  destruct (rehashing_spec h Hw) as [(_ & _ & Ht)|(_ & _ & H1 & _)].
  - rewrite Ht, zero_table_nodes in Hin. set_solver.
  - by eapply node_hash.
Qed.

(** Lookup through the bucket mask and the two tables finds exactly the
    binding of the key in the finite map the table denotes, in the middle of
    a rehash too. *)
Theorem kv_hash_find_correct h k :
  hash_wf h -> kv_hash_node_payload (kv_hash_find h (Some k)) = to_map h !! k.
Proof.
  intros Hw. unfold kv_hash_node_payload, to_map.
  by rewrite find_all_nodes, pairs_map_lookup.
Qed.

Lemma find_None_map h k : hash_wf h -> kv_hash_find h (Some k) = None <-> to_map h !! k = None.
Proof.
  intros Hw. unfold to_map. rewrite pairs_map_lookup, <- find_all_nodes by done.
  by rewrite fmap_None.
Qed.

Lemma find_Some_map h k v :
  hash_wf h -> to_map h !! k = Some v ->
  exists n, kv_hash_find h (Some k) = Some n /\ nkey n = k /\ nhash n = hash_bytes k /\ npayload n = v.
Proof.
  intros Hw Hm. destruct (kv_hash_find h (Some k)) as [n|] eqn:E.
  - exists n. apply find_node_spec in E as (? & ? & E); [|done]. rewrite E in Hm. by inversion Hm.
  - apply find_None_map in E; [|done]. congruence.
Qed.

(** Rebuilding the invariant after a change of the node list. *)
Lemma hash_wf_update h h' :
  hash_wf h -> table_ok (table0 h') -> slots (table0 h') = slots (table0 h) ->
  (table1 h' = table1 h \/
   kv_hash_is_rehashing h = true /\ table_ok (table1 h') /\ slots (table1 h') = slots (table1 h)) ->
  (forall b, buckets (table0 h) !! b = Some [] -> buckets (table0 h') !! b = Some []) \/
  kv_hash_is_rehashing h = false ->
  rehash_index h' = rehash_index h ->
  NoDup (nkey <$> all_nodes h') -> hcount h' = zlen (all_nodes h') -> hash_wf h'.
Proof.
  intros Hw H0 Hs H1 Hm Hr Hn Hc. split; [done| |done|done].
  rewrite Hr, Hs. destruct (rehashing_spec h Hw) as [(Ha & Hb & Hc1)|(Ha & Hb & Hc1 & Hd & He)].
  - left. split; [done|]. destruct H1 as [->|[? _]]; [done|congruence].
  - right. split; [done|]. split; [|split].
    + destruct H1 as [->|[_ [? _]]]; done.
    + destruct H1 as [->|[_ [_ ->]]]; done.
    + intros b Hlt. destruct Hm as [Hm|?]; [|congruence]. by apply Hm, He.
Qed.

Lemma concat_replicate_nil {A} (len : nat) : concat (replicate len (@nil A)) = [].
Proof. by induction len. Qed.

Lemma table_allocate_spec m k t m' :
  4 <= k -> table_allocate m (2 ^ k) = (Some t, m') ->
  @table_ok V t /\ slots t = 2 ^ k /\ nodes t = [] /\
  (forall b, (b < Z.to_nat (2 ^ k))%nat -> buckets t !! b = Some []).
Proof.
  intros Hk. unfold table_allocate. destruct (_ || _) eqn:E; [done|].
  destruct (malloc m) as [[] m1]; cbn [negb]; [|done]. intros [= <- <-]. cbn.
  apply orb_false_iff in E as [_ E]. zb.
  assert (Hk2 : k <= 60).
  { destruct (Z.le_gt_cases k 60); [done|]. exfalso.
    assert (2 ^ 61 <= 2 ^ k) by (apply Z.pow_le_mono_r; lia).
    change (SIZE_MAX / SIZEOF_POINTER) with (2 ^ 61 - 1) in E. lia. }
  split_and!; [|done| |].
  - split; cbn; [eauto|by rewrite length_replicate|].
    intros b c n Hb Hn. apply lookup_replicate in Hb as [-> _]. set_solver.
  - unfold nodes. cbn. apply concat_replicate_nil.
  - intros b Hb. by apply lookup_replicate_2.
Qed.

Lemma maybe_expand_spec m h :
  hash_wf h ->
  let '(r, h', m') := maybe_expand m h in
  hash_wf h' /\ all_nodes h' = all_nodes h /\ (r = 0 \/ r = -1).
Proof.
  intros Hw. unfold maybe_expand.
  destruct (rehashing_spec h Hw) as [(Hr & Hri & Ht1)|(Hr & _)]; rewrite Hr; [|by auto].
  zif; [by auto|]. unfold start_expand. rewrite Hr. zif; [by auto|].
  destruct (ok_slots _ (wf_table0 h Hw)) as (k & Hk & Hs).
  replace (slots (table0 h) * 2) with (2 ^ (k + 1)) by (rewrite Hs, Z.pow_add_r; lia).
  destruct (table_allocate m (2 ^ (k + 1))) as [[t|] m'] eqn:E; [|by auto].
  apply table_allocate_spec in E as (H1 & H2 & H3 & H4); [|lia].
  assert (Hall : all_nodes (mk_hashtable (table0 h) t (hcount h) 0) = all_nodes h).
  { unfold all_nodes. cbn. rewrite H3, Ht1, zero_table_nodes. done. }
  split; [|by auto]. pose proof (table_ok_slots_bound _ (wf_table0 h Hw)).
  split; cbn [table0 table1 rehash_index hcount]; [apply Hw| | |].
  - right. split; [lia|]. split; [done|]. split; [rewrite H2, Hs, Z.pow_add_r; lia|].
    intros b Hb. lia.
  - rewrite Hall. apply Hw.
  - rewrite Hall. apply Hw.
Qed.

(** Outcome of [kv_hash_insert]: the binding is added, or nothing changes. *)
Lemma insert_spec m h k v :
  hash_wf h ->
  let '(r, n, h', m') := kv_hash_insert m h (Some k) v in
  hash_wf h' /\
  (r = 0 /\ n = Some (mk_node k (hash_bytes k) v) /\ to_map h !! k = None /\
     to_map h' = <[k := v]> (to_map h) \/
   r = -1 /\ n = None /\ to_map h' = to_map h).
Proof.
  intros Hw. unfold kv_hash_insert. zif; [by auto|].
  pose proof (find_None_map h k Hw) as Hnone. unfold kv_hash_find in Hnone.
  destruct (find_in_table (table0 h) k (hash_bytes k)); cbn [is_Some_bool]; [by auto|].
  destruct (kv_hash_is_rehashing h && is_Some_bool (find_in_table (table1 h) k (hash_bytes k))) eqn:E2;
    [by auto|].
  assert (Hk : to_map h !! k = None).
  { apply Hnone. destruct (kv_hash_is_rehashing h); [|done].
    by destruct (find_in_table (table1 h) k (hash_bytes k)). }
  clear Hnone E2. pose proof (maybe_expand_spec m h Hw) as He.
  destruct (maybe_expand m h) as [[r h1] m1]. destruct He as (Hw1 & Hall & [->| ->]); cbn [Z.eqb negb].
  2:{ split; [done|]. right. unfold to_map. by rewrite Hall. }
  assert (Hm1 : to_map h1 = to_map h) by (unfold to_map; by rewrite Hall).
  zif; [by rewrite Hm1; auto|].
  destruct (malloc m1) as [[] m2]; cbn [negb]; [|by rewrite Hm1; auto].
  set (n := mk_node k (hash_bytes k) v).
  set (h2 := if kv_hash_is_rehashing h1 then _ else _).
  assert (H2 : all_nodes h2 ≡ₚ n :: all_nodes h1 /\
     table_ok (table0 h2) /\ slots (table0 h2) = slots (table0 h1) /\ rehash_index h2 = rehash_index h1 /\
     (table1 h2 = table1 h1 \/ kv_hash_is_rehashing h1 = true /\ table_ok (table1 h2) /\
        slots (table1 h2) = slots (table1 h1)) /\
     ((forall b, buckets (table0 h1) !! b = Some [] -> buckets (table0 h2) !! b = Some []) \/
        kv_hash_is_rehashing h1 = false) /\ hcount h2 = hcount h1).
  { unfold h2, all_nodes. destruct (rehashing_spec h1 Hw1) as [(Hr & _)|(Hr & _ & Ht1 & _)]; rewrite Hr;
      cbn [table0 table1 hcount rehash_index].
    - destruct (push_node_spec (table0 h1) n (wf_table0 h1 Hw1) eq_refl) as (? & ? & ->). auto 8.
    - destruct (push_node_spec (table1 h1) n Ht1 eq_refl) as (? & ? & ->).
      split_and!; try done; [solve_Permutation|apply Hw1|auto|auto]. }
  destruct H2 as (Hp & A1 & A2 & A3 & A4 & A5 & A6).
  set (h3 := mk_hashtable (table0 h2) (table1 h2) (hcount h2 + 1) (rehash_index h2)).
  assert (Hfresh : k ∉ nkey <$> all_nodes h1).
  { rewrite Hall. intros (n2 & -> & Hn2)%list_elem_of_fmap.
    unfold to_map in Hk. rewrite pairs_map_lookup, fmap_None in Hk.
    eapply find_has_key_None in Hk; [|exact Hn2]. done. }
  assert (Hnd : NoDup (nkey <$> all_nodes h3)).
  { change (all_nodes h3) with (all_nodes h2). rewrite Hp. cbn. apply NoDup_cons. split; [done|apply Hw1]. }
  split.
  - eapply (hash_wf_update h1); try done. cbn [hcount h3]. rewrite A6, (wf_count h1 Hw1).
    change (all_nodes h3) with (all_nodes h2). unfold zlen. rewrite Hp. cbn [length]. lia.
  - left. split; [done|]. split; [done|]. split; [done|]. rewrite <- Hm1. unfold to_map.
    rewrite (pairs_map_perm _ (n :: all_nodes h1)); [done|exact Hp|done].
Qed.

(** With memory available the table grows whenever it has to. *)
Lemma maybe_expand_succeeds h :
  hash_wf h -> hcount h < 2 ^ 59 ->
  (maybe_expand [] h).1.1 = 0 /\ (maybe_expand [] h).2 = [].
Proof.
  intros Hw Hc. unfold maybe_expand. destruct (kv_hash_is_rehashing h) eqn:Hr; [done|].
  destruct (Z.leb_spec (hcount h + 1) (slots (table0 h) - slots (table0 h) / 4)) as [|Hgt]; [done|].
  unfold start_expand. rewrite Hr.
  pose proof (table_ok_slots_bound _ (wf_table0 h Hw)) as Hs.
  assert (Hs2 : slots (table0 h) < 2 ^ 60).
  { pose proof (Z.div_mod (slots (table0 h)) 4 ltac:(lia)).
    pose proof (Z.mod_pos_bound (slots (table0 h)) 4 ltac:(lia)). lia. }
  destruct (slots (table0 h) >? SIZE_MAX / 2) eqn:E1.
  { zb. change (SIZE_MAX / 2) with (2 ^ 63 - 1) in E1. lia. }
  unfold table_allocate.
  destruct ((slots (table0 h) * 2 =? 0) || (slots (table0 h) * 2 >? SIZE_MAX / SIZEOF_POINTER)) eqn:E2; [|done].
  apply orb_true_iff in E2 as [E2|E2]; zb; [lia|].
  change (SIZE_MAX / SIZEOF_POINTER) with (2 ^ 61 - 1) in E2. lia.
Qed.

Lemma insert_succeeds h k v :
  hash_wf h -> to_map h !! k = None -> hcount h < 2 ^ 59 -> zlen k < 2 ^ 62 ->
  (kv_hash_insert [] h (Some k) v).1.1.1 = 0 /\ (kv_hash_insert [] h (Some k) v).2 = [].
Proof.
  intros Hw Hk Hc Hl. pose proof (zlen_nonneg k).
  apply find_None_map in Hk; [|done]. unfold kv_hash_find in Hk. unfold kv_hash_insert.
  destruct (Z.eqb_spec (zlen k) SIZE_MAX) as [?|_]; [zlia|].
  destruct (find_in_table (table0 h) k (hash_bytes k)); [done|]. cbn [is_Some_bool].
  destruct (kv_hash_is_rehashing h && is_Some_bool (find_in_table (table1 h) k (hash_bytes k))) eqn:E.
  { destruct (kv_hash_is_rehashing h); [|done]. by rewrite Hk in E. }
  destruct (maybe_expand_succeeds h Hw Hc) as [E1 E2].
  destruct (maybe_expand [] h) as [[r h1] m1]. cbn in E1, E2. subst r m1. cbn [Z.eqb negb].
  destruct (SIZEOF_HASH_NODE >? SIZE_MAX - zlen k - 1) eqn:E3; [|done].
  zb. unfold SIZEOF_HASH_NODE in E3. zlia.
Qed.

Lemma remove_target_spec h n :
  hash_wf h -> nhash n = hash_bytes (nkey n) ->
  let '(p, h') := remove_target h (Some n) in
  hash_wf h' /\ p = to_map h !! nkey n /\ to_map h' = delete (nkey n) (to_map h).
Proof.
  intros Hw Hh. unfold remove_target.
  assert (Hfin : forall h' n2, all_nodes h ≡ₚ n2 :: all_nodes h' -> nkey n2 = nkey n ->
            NoDup (nkey <$> all_nodes h') /\ hcount h - 1 = zlen (all_nodes h') /\
            Some (npayload n2) = to_map h !! nkey n /\ to_map h' = delete (nkey n) (to_map h)).
  { intros h' n2 Hp Hk. pose proof (wf_nodup h Hw) as Hnd. pose proof Hnd as Hnd2.
    rewrite Hp in Hnd2. cbn in Hnd2. apply NoDup_cons in Hnd2 as [Hni Hnd2].
    assert (Hm : to_map h = <[nkey n := npayload n2]> (to_map h')).
    { unfold to_map. rewrite (pairs_map_perm _ _ Hp Hnd). cbn. by rewrite Hk. }
    rewrite Hm. split; [done|]. split.
    { rewrite (wf_count h Hw). unfold zlen. rewrite Hp. cbn [length]. lia. }
    split; [by rewrite lookup_insert_eq|]. rewrite delete_insert_id; [done|].
    unfold to_map. rewrite pairs_map_lookup, fmap_None. apply find_has_key_None.
    intros n3 Hn3 E. apply Hni. rewrite Hk, <- E. by apply list_elem_of_fmap_2. }
  pose proof (remove_from_table_spec (table0 h) n (wf_table0 h Hw) Hh) as H0.
  destruct (remove_from_table (table0 h) n) as [[p t]|].
  - destruct H0 as (T1 & T2 & T3 & n2 & Hp & Hk & <-).
    set (h' := mk_hashtable t (table1 h) (hcount h - 1) (rehash_index h)).
    destruct (Hfin h' n2) as (F1 & F2 & F3 & F4); [unfold all_nodes; cbn; by rewrite Hp|done|].
    split; [|done]. eapply (hash_wf_update h); try done; auto.
  - destruct (rehashing_spec h Hw) as [(Hr & _ & Ht1)|(Hr & _ & Hok & _)].
    + rewrite Ht1. cbn. split; [done|].
      assert (Hnone : to_map h !! nkey n = None).
      { unfold to_map. rewrite pairs_map_lookup, fmap_None. apply find_has_key_None.
        unfold all_nodes. rewrite Ht1, zero_table_nodes, app_nil_r. exact H0. }
      rewrite Hnone. split; [done|]. by rewrite delete_id.
    + pose proof (remove_from_table_spec (table1 h) n Hok Hh) as H1.
      destruct (remove_from_table (table1 h) n) as [[p t]|].
      * destruct H1 as (T1 & T2 & T3 & n2 & Hp & Hk & <-).
        set (h' := mk_hashtable (table0 h) t (hcount h - 1) (rehash_index h)).
        destruct (Hfin h' n2) as (F1 & F2 & F3 & F4);
          [unfold all_nodes; cbn; rewrite Hp; solve_Permutation|done|].
        split; [|done]. eapply (hash_wf_update h); try done; auto. apply Hw.
      * split; [done|].
        assert (Hnone : to_map h !! nkey n = None).
        { unfold to_map. rewrite pairs_map_lookup, fmap_None. apply find_has_key_None.
          intros n2 [?|?]%elem_of_app; [by apply H0|by apply H1]. }
        rewrite Hnone. split; [done|]. by rewrite delete_id.
Qed.

Lemma set_payload_spec h n v :
  hash_wf h ->
  hash_wf (kv_hash_node_set_payload h (Some n) v) /\
  to_map (kv_hash_node_set_payload h (Some n) v)
  = alter (fun _ => v) (nkey n) (to_map h).
Proof.
  intros Hw. set (h' := kv_hash_node_set_payload h (Some n) v).
  assert (Hall : all_nodes h' = with_payload n v <$> all_nodes h).
  { unfold all_nodes, h'. cbn [kv_hash_node_set_payload table0 table1].
    by rewrite !set_in_table_nodes, fmap_app. }
  assert (Hkeys : nkey <$> all_nodes h' = nkey <$> all_nodes h).
  { rewrite Hall, <- list_fmap_compose. apply list_fmap_ext. intros i x _. cbn. apply with_payload_key. }
  split.
  - pose proof (table_ok_slots_bound _ (wf_table0 h Hw)).
    split; cbn [table0 table1 rehash_index hcount h'].
    + apply set_in_table_ok, Hw.
    + destruct (wf_rehash h Hw) as [[Hr Ht]|(Hr & Ht & Hs & Hm)].
      * left. split; [done|]. cbn. by rewrite Ht.
      * right. split; [done|]. split; [by apply set_in_table_ok|]. split; [done|].
        intros b Hb. cbn. change (@map ?A ?B ?f ?l) with (f <$> l).
        rewrite list_lookup_fmap, Hm by done. done.
    + rewrite Hkeys. apply Hw.
    + rewrite Hall. unfold zlen. rewrite length_fmap. apply Hw.
  - apply map_eq. intros k. rewrite lookup_alter. unfold to_map. rewrite !pairs_map_lookup, Hall.
    generalize (all_nodes h). intros l.
    destruct (decide (nkey n = k)) as [<-|Hne]; induction l as [|x l IH]; cbn; try done;
      unfold has_key at 1 3; rewrite with_payload_key; (case_bool_decide as E; [|exact IH]);
      cbn; unfold with_payload; case_decide as E2; first [done | congruence].
Qed.

Lemma rehash_step_spec h budget :
  hash_wf h -> 0 <= budget ->
  let '(moved, h') := kv_hash_rehash_step h budget in
  hash_wf h' /\ all_nodes h' ≡ₚ all_nodes h /\ 0 <= moved <= budget /\
  hcount h' = hcount h /\
  (kv_hash_is_rehashing h = true -> 0 < budget ->
   kv_hash_is_rehashing h' = false \/
   kv_hash_is_rehashing h' = true /\ slots (table0 h') = slots (table0 h) /\
   rehash_index h < rehash_index h' < slots (table0 h)).
Proof.
  intros Hw Hb. unfold kv_hash_rehash_step.
  destruct (rehashing_spec h Hw) as [(Hr & _)|(Hr & Hi & Ht1 & Hs & Hm)]; rewrite Hr; cbn [negb].
  { split_and!; try done; lia. }
  set (empty := if budget >? SIZE_MAX / 10 then SIZE_MAX else budget * 10).
  pose proof (rehash_loop_spec (Z.to_nat (slots (table0 h) - rehash_index h)) (table0 h) (table1 h)
     (rehash_index h) budget empty 0 (wf_table0 h Hw) Ht1 Hs ltac:(lia) Hm Hb eq_refl) as Hl.
  destruct (rehash_loop _ _ _ _ _ _ _) as [[[t0 t1] index] moved].
  destruct Hl as (L0 & L1 & Ls0 & Ls1 & Lx & Lm & Lp & Lmv & Lpr).
  rewrite Ls0. destruct (Z.eqb_spec index (slots (table0 h))) as [->|Hne].
  - rewrite <- Ls0 in Lm. pose proof (migrated_nil t0 L0 Lm) as Hnil.
    rewrite Hnil in Lp. cbn in Lp.
    assert (Hp : all_nodes (mk_hashtable t1 zero_table (hcount h) HASH_REHASH_NONE) ≡ₚ all_nodes h).
    { unfold all_nodes at 1. cbn. rewrite app_nil_r. exact Lp. }
    split_and!; try done; try lia; [|by left].
    split; cbn; [done|by left|rewrite Hp; apply Hw|]. unfold zlen. rewrite Hp. apply Hw.
  - assert (Hp : all_nodes (mk_hashtable t0 t1 (hcount h) index) ≡ₚ all_nodes h) by exact Lp.
    pose proof (table_ok_slots_bound _ (wf_table0 h Hw)).
    split_and!; try done; try lia.
    + split; cbn; [done|right; split_and!; try done; lia|rewrite Hp; apply Hw|].
      unfold zlen. rewrite Hp. apply Hw.
    + intros _ H0. right. split; [|split; [done|cbn; lia]].
      unfold kv_hash_is_rehashing. cbn.
      destruct (Z.eqb_spec index HASH_REHASH_NONE) as [E|]; [|done].
      unfold HASH_REHASH_NONE, SIZE_MAX in E. lia.
Qed.

Lemma rehash_step_map h budget :
  hash_wf h -> 0 <= budget ->
  hash_wf (snd (kv_hash_rehash_step h budget)) /\
  to_map (snd (kv_hash_rehash_step h budget)) = to_map h /\
  hcount (snd (kv_hash_rehash_step h budget)) = hcount h.
Proof.
  intros Hw Hb. pose proof (rehash_step_spec h budget Hw Hb) as Hs.
  destruct (kv_hash_rehash_step h budget) as [moved h']. cbn.
  destruct Hs as (Hw' & Hp & _ & Hc & _). split; [done|]. split; [|done].
  unfold to_map. apply pairs_map_perm; [done|apply Hw'].
Qed.

Lemma count_size h : hash_wf h -> hcount h = Z.of_nat (size (to_map h)).
Proof.
  intros Hw. rewrite (wf_count h Hw). unfold to_map, zlen.
  rewrite map_size_list_to_map by (rewrite pairs_keys; apply Hw).
  unfold pairs. by rewrite length_fmap.
Qed.

Lemma create_spec m :
  match @kv_hash_create V m with
  | (Some h, _) => hash_wf h /\ to_map h = ∅ /\ kv_hash_is_rehashing h = false
  | (None, _) => False \/ m <> []
  end.
Proof.
  unfold kv_hash_create. destruct (malloc m) as [[] m1] eqn:Em; cbn [negb].
  2:{ right. by intros ->. }
  unfold hash_init. change HASH_INITIAL_SLOTS with (2 ^ 4).
  destruct (table_allocate m1 (2 ^ 4)) as [[t|] m2] eqn:E.
  - apply table_allocate_spec in E as (H1 & H2 & H3 & _); [|lia].
    assert (Hall : all_nodes (mk_hashtable t zero_table 0 HASH_REHASH_NONE) = [])
      by (unfold all_nodes; cbn; by rewrite H3).
    split; [|split; [by unfold to_map; rewrite Hall|done]].
    split; cbn; [done|by left|rewrite Hall; constructor|by rewrite Hall].
  - right. intros ->. cbn in Em. inversion Em; subst. cbn in E. done.
Qed.

End Refinement.

#[export] Hint Resolve wf_table0 : store.

(** ** Iteration *)

Section Iteration.
Context {V : Type}.
Implicit Types (t : kv_hash_table V) (h : hashtable V) (n : kv_hash_node V).

Lemma scan_buckets_spec fuel t bucket :
  length (buckets t) = Z.to_nat (slots t) -> 0 <= bucket ->
  fuel = Z.to_nat (slots t - bucket) ->
  match scan_buckets fuel t bucket with
  | (Some [], _) => False
  | (Some (n :: rest), b) => bucket < b /\
      concat (drop (Z.to_nat bucket) (buckets t)) = n :: rest ++ concat (drop (Z.to_nat b) (buckets t))
  | (None, _) => concat (drop (Z.to_nat bucket) (buckets t)) = []
  end.
Proof.
  intros Hl. revert bucket. induction fuel as [|fuel IH]; intros bucket Hb Hf; cbn [scan_buckets].
  { by rewrite drop_ge by lia. }
  zif; [|lia].
  assert (Hlt : (Z.to_nat bucket < length (buckets t))%nat) by lia.
  apply lookup_lt_is_Some in Hlt as [c Hc].
  assert (Hch : bucket_chain t (Z.to_nat bucket) = c) by by apply nth_lookup_Some.
  rewrite Hch. rewrite (drop_S _ _ _ Hc). cbn [concat].
  replace (S (Z.to_nat bucket)) with (Z.to_nat (bucket + 1)) by lia.
  destruct c as [|n c]; [|split; [lia|done]].
  specialize (IH (bucket + 1) ltac:(lia) ltac:(lia)). cbn [app].
  destruct (scan_buckets fuel t (bucket + 1)) as [[[|n2 c2]|] b]; [done| |done].
  destruct IH. split; [lia|done].
Qed.

(** The nodes an iterator has not returned yet. *)
Definition remaining h (it : kv_hash_iterator) : list (kv_hash_node V) :=
  it_next it ++
  (if it_table it =? 0 then concat (drop (Z.to_nat (it_bucket it)) (buckets (table0 h))) ++ nodes (table1 h)
   else if it_table it =? 1 then concat (drop (Z.to_nat (it_bucket it)) (buckets (table1 h))) else []).

Lemma table1_length h : hash_wf h -> length (buckets (table1 h)) = Z.to_nat (slots (table1 h)).
Proof.
  intros Hw. destruct (rehashing_spec h Hw) as [(_ & _ & ->)|(_ & _ & Ht & _)]; [done|].
  by apply ok_length.
Qed.

Lemma scan_tables_0 fuel h bucket :
  scan_tables (S fuel) h 0 bucket
  = match scan_buckets (Z.to_nat (slots (table0 h) - bucket)) (table0 h) bucket with
    | (Some (n :: rest), b) => (Some n, mk_iterator 0 b rest)
    | _ => scan_tables fuel h 1 0
    end.
Proof. reflexivity. Qed.

Lemma iterator_next_spec h (it : kv_hash_iterator) :
  hash_wf h -> 0 <= it_bucket it -> 0 <= it_table it <= 2 ->
  match kv_hash_iterator_next h it with
  | (Some n, it') => remaining h it = n :: remaining h it' /\ 0 <= it_bucket it' /\ 0 <= it_table it' <= 2
  | (None, _) => remaining h it = []
  end.
Proof.
  intros Hw Hb Ht. destruct it as [ti bi nx]. cbn in Hb, Ht.
  unfold kv_hash_iterator_next. cbn [it_next it_table it_bucket].
  destruct nx as [|n rest]; [|by cbn].
  pose proof (ok_length _ (wf_table0 h Hw)) as L0. pose proof (table1_length h Hw) as L1.
  unfold remaining. cbn [it_next it_table it_bucket app].
  assert (H1 : forall b fuel, 0 <= b ->
     match scan_tables (S (S fuel)) h 1 b with
     | (Some n, it') => concat (drop (Z.to_nat b) (buckets (table1 h)))
          = n :: remaining h it' /\ 0 <= it_bucket it' /\ 0 <= it_table it' <= 2
     | (None, _) => concat (drop (Z.to_nat b) (buckets (table1 h))) = []
     end).
  { intros b fuel Hb1. cbn. change (table_at h 1) with (table1 h).
    pose proof (scan_buckets_spec _ (table1 h) b L1 Hb1 eq_refl) as Hs.
    destruct (scan_buckets _ (table1 h) b) as [[[|n c]|] b']; [done| |done].
    destruct Hs as [Hlt Hs]. unfold remaining. cbn. rewrite Hs. split; [done|lia]. }
  assert (ti = 0 \/ ti = 1 \/ ti = 2) as [-> | [-> | ->]] by lia; cbn [Z.eqb].
  - rewrite scan_tables_0.
    pose proof (scan_buckets_spec _ (table0 h) bi L0 Hb eq_refl) as Hs.
    destruct (scan_buckets _ (table0 h) bi) as [[[|n c]|] b']; [done| |].
    + destruct Hs as [Hlt Hs]. rewrite Hs. cbn. rewrite <- app_assoc. split; [done|lia].
    + rewrite Hs. specialize (H1 0 O ltac:(lia)).
      destruct (scan_tables 2 h 1 0) as [[n|] it']; exact H1.
  - specialize (H1 bi 1%nat Hb).
    destruct (scan_tables 3 h 1 bi) as [[n|] it']; exact H1.
  - done.
Qed.

Lemma iterate_spec fuel h it :
  hash_wf h -> 0 <= it_bucket it -> 0 <= it_table it <= 2 ->
  (length (remaining h it) < fuel)%nat -> iterate fuel h it = remaining h it.
Proof.
  intros Hw. revert it. induction fuel as [|fuel IH]; intros it Hb Ht Hf; [lia|].
  cbn [iterate]. pose proof (iterator_next_spec h it Hw Hb Ht) as Hn.
  destruct (kv_hash_iterator_next h it) as [[n|] it']; [|done].
  destruct Hn as (Hr & Hb' & Ht'). rewrite Hr in *. cbn in Hf. f_equal. apply IH; auto; lia.
Qed.

Lemma iterate_all h fuel :
  hash_wf h -> (length (all_nodes h) < fuel)%nat ->
  iterate fuel h kv_hash_iterator_begin = all_nodes h.
Proof.
  intros Hw Hf. apply (iterate_spec fuel h kv_hash_iterator_begin Hw); cbn; [lia|lia|exact Hf].
Qed.

End Iteration.

(** ** Properties *)

(** The table [kv_hash_create] returns. *)
Definition empty_hashtable {V} : hashtable V :=
  mk_hashtable (mk_table (replicate 16 []) 16) zero_table 0 HASH_REHASH_NONE.

Lemma empty_hashtable_wf {V} : hash_wf (@empty_hashtable V) /\ to_map (@empty_hashtable V) = ∅.
Proof.
  pose proof (@create_spec V []) as H.
  replace (@kv_hash_create V []) with (Some (@empty_hashtable V), @nil bool) in H
    by (vm_compute; reflexivity).
  destruct H as (? & ? & _). by split.
Qed.

(** Tables built by inserting a list of bindings. *)
Definition insert_all {V} (l : list (list Z * V)) (h : hashtable V) : hashtable V :=
  fold_left (fun h p => let '(_, _, h', _) := kv_hash_insert [] h (Some (fst p)) (snd p) in h') l h.

Lemma insert_all_wf {V} (l : list (list Z * V)) (h : hashtable V) :
  hash_wf h -> hash_wf (insert_all l h).
Proof.
  unfold insert_all. revert h. induction l as [|p l IH]; intros h Hw; cbn [fold_left]; [done|].
  apply IH. pose proof (insert_spec [] h (fst p) (snd p) Hw) as H.
  destruct (kv_hash_insert [] h _ _) as [[[? ?] ?] ?]. by destruct H.
Qed.

Definition sample_table : hashtable Z := insert_all [([97], 1); ([98; 99], 2)] empty_hashtable.

Lemma sample_table_wf : hash_wf sample_table.
Proof. apply insert_all_wf, empty_hashtable_wf. Qed.

Lemma kv_hash_find_correct_witness :
  kv_hash_node_payload (kv_hash_find sample_table (Some [98; 99])) = Some 2 /\
  to_map sample_table !! [98; 99] = Some 2.
Proof.
  rewrite <- (kv_hash_find_correct sample_table [98; 99] sample_table_wf).
  vm_compute. split; reflexivity.
Defined.

(** C23. Insertion refines map insertion and is all or nothing: whatever the
    allocator does the table stays well formed; the call succeeds only for an
    absent key and then adds exactly that binding, and a failed call (key
    present, size limit, failed allocation of the new table or of the node)
    leaves the denoted map unchanged.  When memory is available, an absent key
    of a representable length is always inserted. *)
Theorem kv_hash_insert_correct {V} m (h : hashtable V) k v :
  hash_wf h ->
  let '(r, n, h', m') := kv_hash_insert m h (Some k) v in
  hash_wf h' /\
  (r = 0 /\ n = Some (mk_node k (hash_bytes k) v) /\ to_map h !! k = None /\
     to_map h' = <[k := v]> (to_map h) \/
   r = -1 /\ n = None /\ to_map h' = to_map h) /\
  (m = [] -> to_map h !! k = None -> kv_hash_count h < 2 ^ 59 -> zlen k < 2 ^ 62 -> r = 0).
Proof.
  intros Hw. pose proof (insert_spec m h k v Hw) as H.
  pose proof (insert_succeeds h k v Hw) as Hs.
  destruct (kv_hash_insert m h (Some k) v) as [[[r n] h'] m'] eqn:E. destruct H as [H1 H2].
  split; [done|]. split; [done|]. intros -> Hk Hc Hl. rewrite E in Hs. by apply Hs.
Qed.

Lemma kv_hash_insert_correct_witness :
  let '(r, _, h', _) := kv_hash_insert [] sample_table (Some [7]) 3 in
  r = 0 /\ to_map h' = <[[7] := 3]> (to_map sample_table).
Proof.
  pose proof (kv_hash_insert_correct [] sample_table [7] 3 sample_table_wf) as H.
  destruct (kv_hash_insert [] sample_table (Some [7]) 3) as [[[r n] h'] m'] eqn:E.
  destruct H as [_ [[(? & _ & _ & ?)|(Hr & _)] _]]; [by split|].
  vm_compute in E. inversion E. congruence.
Defined.

(** Removal refines map deletion: removing a key returns the payload it
    was bound to (or nothing for an absent key), deletes exactly that binding
    and keeps the table well formed. *)
Theorem kv_hash_remove_correct {V} (h : hashtable V) k :
  hash_wf h ->
  let '(p, h') := kv_hash_remove h (Some k) in
  hash_wf h' /\ p = to_map h !! k /\ to_map h' = delete k (to_map h).
Proof.
  intros Hw. unfold kv_hash_remove.
  destruct (kv_hash_find h (Some k)) as [n|] eqn:E.
  - apply find_node_spec in E as (<- & Hh & _); [|done]. by apply remove_target_spec.
  - apply find_None_map in E; [|done]. cbn. rewrite E. split; [done|]. by rewrite delete_id.
Qed.

(** Incremental rehashing is invisible: a step of any budget keeps the
    table well formed, its map and its count, migrates at most the budget, and
    with a positive budget either finishes the rehash or advances it. *)
Theorem rehash_step_correct {V} (h : hashtable V) budget :
  hash_wf h -> 0 <= budget ->
  let '(moved, h') := kv_hash_rehash_step h budget in
  hash_wf h' /\ to_map h' = to_map h /\ kv_hash_count h' = kv_hash_count h /\
  0 <= moved <= budget /\
  (kv_hash_is_rehashing h = true -> 0 < budget ->
   kv_hash_is_rehashing h' = false \/ rehash_index h < rehash_index h' < slots (table0 h)).
Proof.
  intros Hw Hb. pose proof (rehash_step_spec h budget Hw Hb) as Hs.
  pose proof (rehash_step_map h budget Hw Hb) as Hm.
  destruct (kv_hash_rehash_step h budget) as [moved h']. cbn in Hm.
  destruct Hs as (? & _ & ? & ? & Hp). destruct Hm as (_ & ? & _).
  split_and!; try done; try lia. intros Hr Hpos. destruct (Hp Hr Hpos) as [?|(_ & _ & ?)]; auto.
Qed.

(** A table in the middle of a rehash: thirteen keys in sixteen slots. *)
Definition rehashing_table : hashtable Z :=
  insert_all ((fun i => ([i], i)) <$> seqZ 0 13) empty_hashtable.

Lemma rehashing_table_wf : hash_wf rehashing_table.
Proof. apply insert_all_wf, empty_hashtable_wf. Qed.

(** The iterator visits every binding exactly once and then stops: the
    nodes it returns, in order, are the nodes of the two tables, and as pairs
    they are a permutation of the bindings of the denoted map. *)
Theorem iteration_complete {V} (h : hashtable V) fuel :
  hash_wf h -> kv_hash_count h < Z.of_nat fuel ->
  iterate fuel h kv_hash_iterator_begin = all_nodes h /\
  pairs (iterate fuel h kv_hash_iterator_begin) ≡ₚ map_to_list (to_map h).
Proof.
  intros Hw Hf. unfold kv_hash_count in Hf. rewrite (wf_count h Hw) in Hf.
  rewrite iterate_all by (try done; zlia). split; [done|].
  unfold to_map. rewrite map_to_list_to_map; [done|]. rewrite pairs_keys. apply Hw.
Qed.

Lemma rehash_iter_spec {V} (h : hashtable V) budget steps :
  hash_wf h -> 0 < budget ->
  let h' := Nat.iter steps (fun h => snd (kv_hash_rehash_step h budget)) h in
  hash_wf h' /\ to_map h' = to_map h /\
  (kv_hash_is_rehashing h' = false \/
   kv_hash_is_rehashing h = true /\ slots (table0 h') = slots (table0 h) /\
   rehash_index h + Z.of_nat steps <= rehash_index h' < slots (table0 h)).
Proof.
  intros Hw Hb. cbn zeta. induction steps as [|steps IH]; [|rewrite Nat.iter_succ].
  - split; [done|]. split; [done|].
    destruct (rehashing_spec h Hw) as [(? & _)|(? & ? & _)]; [by left|right].
    split; [done|]. split; [done|]. cbn. lia.
  - destruct IH as (Hw' & Hm & Hi). set (h' := Nat.iter steps _ h) in *.
    pose proof (rehash_step_spec h' budget Hw' ltac:(lia)) as Hs.
    pose proof (rehash_step_map h' budget Hw' ltac:(lia)) as (_ & Hm' & _).
    destruct (rehashing_spec h' Hw') as [(Hr & _)|(Hr & _)].
    + unfold kv_hash_rehash_step. rewrite Hr. cbn [negb snd]. by auto.
    + destruct (kv_hash_rehash_step h' budget) as [moved h2]. cbn in Hm' |- *.
      destruct Hs as (Hw2 & _ & _ & _ & Hp). split; [done|]. split; [congruence|].
      destruct (Hp Hr Hb) as [?|(? & ? & ?)]; [by left|].
      destruct Hi as [?|(? & ? & ?)]; [congruence|]. right. rewrite Nat2Z.inj_succ. split_and!; [done|congruence|lia|lia].
Qed.

(** C29. Every rehash completes: as many steps of a positive budget as the
    old table has slots always end the rehash, with the same bindings. *)
Theorem rehash_completes {V} (h : hashtable V) budget :
  hash_wf h -> 0 < budget ->
  let h' := Nat.iter (Z.to_nat (slots (table0 h)))
              (fun h => snd (kv_hash_rehash_step h budget)) h in
  hash_wf h' /\ kv_hash_is_rehashing h' = false /\ to_map h' = to_map h.
Proof.
  intros Hw Hb h'. pose proof (table_ok_slots_bound _ (wf_table0 h Hw)).
  destruct (rehash_iter_spec h budget (Z.to_nat (slots (table0 h))) Hw Hb)
    as (? & ? & [?|(Hr & _ & ?)]); [done|].
  destruct (rehashing_spec h Hw) as [(? & _)|(_ & ? & _)]; [congruence|lia].
Qed.

Lemma rehash_completes_witness :
  kv_hash_is_rehashing rehashing_table = true /\
  kv_hash_is_rehashing
    (Nat.iter (Z.to_nat (slots (table0 rehashing_table)))
       (fun h => snd (kv_hash_rehash_step h 1)) rehashing_table) = false.
Proof.
  split; [vm_compute; reflexivity|].
  apply (rehash_completes rehashing_table 1 rehashing_table_wf). lia.
Defined.

(** ** The legacy string interface on the same table *)

Record legacy_value : Type := mk_legacy { lv_data : list Z; lv_length : Z }.

(** [copy_bytes]: the copy with its terminating NUL. *)
Definition copy_bytes (m : mem) (data : slice) : option (list Z) * mem :=
  match data with
  | None => (None, m)
  | Some l =>
      if zlen l =? SIZE_MAX then (None, m) else
      let '(ok, m) := malloc m in
      if ok then (Some (l ++ [0]), m) else (None, m)
  end.

Definition legacy_value_create (m : mem) (data : slice) (length : Z)
  : option legacy_value * mem :=
  let '(ok, m) := malloc m in
  if negb ok then (None, m) else
  match copy_bytes m data with
  | (None, m) => (None, m)
  | (Some d, m) => (Some (mk_legacy d length), m)
  end.

Definition slice_len (s : slice) : Z := match s with Some l => zlen l | None => 0 end.

Definition set_bytes (m : mem) (h : hashtable legacy_value) (k value : slice) (overwrite : bool)
  : Z * hashtable legacy_value * mem :=
  if negb (is_Some_bool k) || negb (is_Some_bool value) then (-1, h, m) else
  let h := snd (kv_hash_rehash_step h 1) in
  let node := kv_hash_find h k in
  if is_Some_bool node && negb overwrite then (1, h, m) else
  match legacy_value_create m value (slice_len value) with
  | (None, m) => (-1, h, m)
  | (Some replacement, m) =>
      if is_Some_bool node then (0, kv_hash_node_set_payload h node replacement, m) else
      let '(r, _, h, m) := kv_hash_insert m h k replacement in
      if negb (r =? 0) then (-1, h, m) else (0, h, m)
  end.

Definition kvstore_hash_create (m : mem) : option (hashtable legacy_value) * mem := hash_init m.

Definition kvstore_hash_destory (h : hashtable legacy_value) : hashtable legacy_value :=
  fst (hash_clear h).

(** C string arguments: [None] is [NULL], [Some l] a string of [length l]
    bytes without the NUL. *)
Definition kvs_hash_set (m : mem) (h : hashtable legacy_value) (k value : option (list Z))
  : Z * hashtable legacy_value * mem :=
  if negb (is_Some_bool k) || negb (is_Some_bool value) then (-1, h, m)
  else set_bytes m h k value false.

Definition kvs_hash_get (h : hashtable legacy_value) (k : option (list Z)) : option (list Z) :=
  match k with
  | None => None
  | Some k => lv_data <$> kv_hash_node_payload (kv_hash_find h (Some k))
  end.

Definition kvs_hash_delete (h : hashtable legacy_value) (k : option (list Z))
  : Z * hashtable legacy_value :=
  match k with
  | None => (-2, h)
  | Some k =>
      match kv_hash_remove h (Some k) with
      | (None, h) => (-1, h)
      | (Some _, h) => (0, h)
      end
  end.

Definition kvs_hash_modify (m : mem) (h : hashtable legacy_value) (k value : option (list Z))
  : Z * hashtable legacy_value * mem :=
  match k, value with
  | Some k, Some value =>
      match kv_hash_find h (Some k) with
      | None => (-1, h, m)
      | Some node =>
          match legacy_value_create m (Some value) (zlen value) with
          | (None, m) => (-1, h, m)
          | (Some replacement, m) => (0, kv_hash_node_set_payload h (Some node) replacement, m)
          end
      end
  | _, _ => (-1, h, m)
  end.

Definition kvs_hash_count (h : hashtable legacy_value) : Z :=
  if kv_hash_count h >? INT_MAX then INT_MAX else kv_hash_count h.

Definition kvs_hash_upsert_bytes (m : mem) (h : hashtable legacy_value) (k value : slice)
  : Z * hashtable legacy_value * mem := set_bytes m h k value true.

Definition kvs_hash_get_bytes (h : hashtable legacy_value) (k : slice) : option (list Z) * Z :=
  match kv_hash_node_payload (kv_hash_find h k) with
  | None => (None, 0)
  | Some value => (Some (lv_data value), lv_length value)
  end.

Definition kvs_hash_delete_bytes (h : hashtable legacy_value) (k : slice)
  : Z * hashtable legacy_value :=
  match k with
  | None => (-1, h)
  | Some _ =>
      match kv_hash_remove h k with
      | (None, h) => (0, h)
      | (Some _, h) => (1, h)
      end
  end.

Definition exist_kv_hashtable (h : hashtable legacy_value) (k : option (list Z)) : bool :=
  is_Some_bool (kvs_hash_get h k).

(** The stored form of a value. *)
Definition stored (v : list Z) : legacy_value := mk_legacy (v ++ [0]) (zlen v).

Lemma legacy_value_create_spec m v :
  match legacy_value_create m (Some v) (zlen v) with
  | (Some x, _) => x = stored v
  | (None, _) => m <> [] \/ zlen v = SIZE_MAX
  end.
Proof.
  unfold legacy_value_create, copy_bytes.
  destruct m as [|[] m]; cbn; try (left; done); destruct (Z.eqb_spec (zlen v) SIZE_MAX); cbn; auto;
    destruct m as [|[] m]; cbn; auto.
Qed.

(** The legacy upsert refines map update on every path: the table stays
    well formed; result 0 binds the key to the (NUL-terminated) value, result
    1 (existing key without overwrite) and result -1 (failed allocation) leave
    the map unchanged. *)
Theorem set_bytes_correct m (h : hashtable legacy_value) k v overwrite :
  hash_wf h ->
  let '(r, h', _) := set_bytes m h (Some k) (Some v) overwrite in
  hash_wf h' /\
  (r = 0 /\ to_map h' = <[k := stored v]> (to_map h) /\ (to_map h !! k = None \/ overwrite = true) \/
   r = 1 /\ to_map h' = to_map h /\ is_Some (to_map h !! k) /\ overwrite = false \/
   r = -1 /\ to_map h' = to_map h).
Proof.
  intros Hw. unfold set_bytes. cbn [is_Some_bool negb orb].
  destruct (rehash_step_map h 1 Hw ltac:(lia)) as (Hw1 & Hm1 & _).
  set (h1 := snd (kv_hash_rehash_step h 1)) in *. rewrite <- Hm1.
  pose proof (legacy_value_create_spec m v) as Hc.
  change (slice_len (Some v)) with (zlen v).
  destruct (kv_hash_find h1 (Some k)) as [n|] eqn:E; cbn [is_Some_bool andb].
  - pose proof (find_node_spec h1 k n Hw1 E) as (Hk & _ & Hl).
    destruct overwrite; cbn [negb].
    + destruct (legacy_value_create m (Some v) (zlen v)) as [[x|] m2]; [|by auto].
      destruct (set_payload_spec h1 n x Hw1) as (Hw2 & Hm2). split; [done|]. left.
      split; [done|]. rewrite Hm2, Hk, Hc. split; [|by right].
      apply map_eq. intros j. rewrite lookup_alter, lookup_insert.
      case_decide; [subst; by rewrite Hl|done].
    + split; [done|]. right. left. split; [done|]. split; [done|]. split; [by rewrite Hl|done].
  - apply find_None_map in E; [|done].
    destruct (legacy_value_create m (Some v) (zlen v)) as [[x|] m2]; [|by auto]. subst x.
    pose proof (insert_spec m2 h1 k (stored v) Hw1) as Hi.
    destruct (kv_hash_insert m2 h1 (Some k) (stored v)) as [[[r n] h2] m3].
    destruct Hi as (Hw2 & [(-> & _ & _ & Hm2)|(-> & _ & Hm2)]); cbn [Z.eqb negb]; auto 6.
Qed.
