(* ===== verification/ZOrder.v ===== *)
(** The order of sorted-set members (scores and member bytes) of
    [src/engine/object.c], and the interface that its two order structures,
    the skip list and the red-black tree, implement.

    A score, a [double] of the C code, is its 64-bit IEEE 754 pattern. *)

From S2P Require Import Prelude.
From Stdlib Require Export Sorted.

(** ** Scores *)

(** Magnitude bits of an infinity; a larger magnitude is a NaN. *)
Definition INFINITY_BITS : Z := 0x7FF0000000000000.

Definition SIGN_BIT : Z := 2 ^ 63.

Definition isnan (s : Z) : bool := s mod SIGN_BIT >? INFINITY_BITS.

Definition isinf (s : Z) : bool := s mod SIGN_BIT =? INFINITY_BITS.

(** The numeric order of the patterns that are not NaN: sign and magnitude,
    the two zeros being equal. *)
Definition score_key (s : Z) : Z := if s <? SIGN_BIT then s else SIGN_BIT - s.

Definition score_lt (a b : Z) : bool := score_key a <? score_key b.

Definition score_eq (a b : Z) : bool := score_key a =? score_key b.

(** ** Comparison *)

(** [memcmp] on the common prefix: the sign of the first difference. *)
Fixpoint memcmp (x y : list Z) : Z :=
  match x, y with
  | a :: x', b :: y' => if a <? b then -1 else if b <? a then 1 else memcmp x' y'
  | _, _ => 0
  end.

Definition compare_bytes (left_bytes right_bytes : list Z) : Z :=
  let comparison := memcmp left_bytes right_bytes in
  if negb (comparison =? 0) then comparison else
  if zlen left_bytes <? zlen right_bytes then -1 else
  if zlen left_bytes >? zlen right_bytes then 1 else 0.

Definition compare_order (left_score : Z) (left_member : list Z)
    (right_score : Z) (right_member : list Z) : Z :=
  if score_lt left_score right_score then -1 else
  if score_lt right_score left_score then 1 else
  compare_bytes left_member right_member.

(** ** The comparison is a total order *)

Lemma compare_bytes_cons a b l r :
  compare_bytes (a :: l) (b :: r)
  = if a <? b then -1 else if b <? a then 1 else compare_bytes l r.
Proof.
  unfold compare_bytes. cbn [memcmp]. autorewrite with zlen.
  destruct (Z.ltb_spec a b); [done|]. destruct (Z.ltb_spec b a); [done|].
  destruct (negb _); [done|].
  destruct (Z.ltb_spec (zlen l) (zlen r)), (Z.ltb_spec (1 + zlen l) (1 + zlen r)); try lia.
  destruct (Z.gtb_spec (zlen l) (zlen r)), (Z.gtb_spec (1 + zlen l) (1 + zlen r)); lia.
Qed.

Lemma compare_bytes_nil_l r : compare_bytes [] r = match r with [] => 0 | _ => -1 end.
Proof.
  destruct r; [done|]. unfold compare_bytes. cbn [memcmp Z.eqb negb].
  autorewrite with zlen. pose proof (zlen_nonneg r). zif; zlia.
Qed.

Lemma compare_bytes_nil_r l : compare_bytes l [] = match l with [] => 0 | _ => 1 end.
Proof.
  destruct l; [done|]. unfold compare_bytes. cbn [memcmp Z.eqb negb].
  autorewrite with zlen. pose proof (zlen_nonneg l). zif; [lia|]. zif; zlia.
Qed.

Lemma compare_bytes_range l r : compare_bytes l r ∈ [-1; 0; 1].
Proof.
  revert r. induction l as [|a l IH]; intros [|b r].
  - set_solver.
  - rewrite compare_bytes_nil_l. set_solver.
  - rewrite compare_bytes_nil_r. set_solver.
  - rewrite compare_bytes_cons. repeat zif; set_solver.
Qed.

Lemma compare_bytes_anti l r : compare_bytes r l = - compare_bytes l r.
Proof.
  revert r. induction l as [|a l IH]; intros [|b r];
    rewrite ?compare_bytes_cons, ?compare_bytes_nil_l, ?compare_bytes_nil_r; try done.
  destruct (Z.ltb_spec b a), (Z.ltb_spec a b); try lia. apply IH.
Qed.

Lemma compare_bytes_eq l r : compare_bytes l r = 0 <-> l = r.
Proof.
  revert r. induction l as [|a l IH]; intros [|b r];
    rewrite ?compare_bytes_cons, ?compare_bytes_nil_l, ?compare_bytes_nil_r; try (split; congruence).
  destruct (Z.ltb_spec a b); [split; [lia|intros [=]; lia]|].
  destruct (Z.ltb_spec b a); [split; [lia|intros [=]; lia]|].
  rewrite IH. split; [intros ->; f_equal; lia|by intros [= _ ->]].
Qed.

Lemma compare_bytes_trans l r k :
  compare_bytes l r < 0 -> compare_bytes r k < 0 -> compare_bytes l k < 0.
Proof.
  revert r k. induction l as [|a l IH]; intros [|b r] [|c k];
    rewrite ?compare_bytes_cons, ?compare_bytes_nil_l, ?compare_bytes_nil_r; try lia.
  destruct (Z.ltb_spec a b), (Z.ltb_spec b c), (Z.ltb_spec a c); try lia;
    destruct (Z.ltb_spec b a), (Z.ltb_spec c b), (Z.ltb_spec c a); try lia. apply IH.
Qed.

(** A sorted-set element: score and member. *)
Definition zelem : Type := Z * list Z.

Definition elem_cmp (x y : zelem) : Z := compare_order x.1 x.2 y.1 y.2.

Definition elem_lt (x y : zelem) : Prop := elem_cmp x y < 0.

Lemma elem_lt_unfold x y :
  elem_lt x y <->
  score_key x.1 < score_key y.1 \/
  score_key x.1 = score_key y.1 /\ compare_bytes x.2 y.2 < 0.
Proof.
  unfold elem_lt, elem_cmp, compare_order, score_lt.
  destruct (Z.ltb_spec (score_key x.1) (score_key y.1)); [lia|].
  destruct (Z.ltb_spec (score_key y.1) (score_key x.1)); lia.
Qed.

Lemma elem_cmp_anti x y : elem_cmp y x = - elem_cmp x y.
Proof.
  unfold elem_cmp, compare_order, score_lt.
  destruct (Z.ltb_spec (score_key x.1) (score_key y.1)),
    (Z.ltb_spec (score_key y.1) (score_key x.1)); try lia. apply compare_bytes_anti.
Qed.

Lemma elem_cmp_eq x y : elem_cmp x y = 0 -> x.2 = y.2.
Proof.
  unfold elem_cmp, compare_order.
  destruct (score_lt x.1 y.1); [done|]. destruct (score_lt y.1 x.1); [done|].
  apply compare_bytes_eq.
Qed.

Lemma elem_cmp_self x : elem_cmp x x = 0.
Proof.
  unfold elem_cmp, compare_order, score_lt. rewrite Z.ltb_irrefl. by apply compare_bytes_eq.
Qed.

#[export] Instance elem_lt_trans : Transitive elem_lt.
Proof.
  intros x y z. rewrite !elem_lt_unfold.
  pose proof (compare_bytes_trans x.2 y.2 z.2). intuition lia.
Qed.

#[export] Instance elem_lt_irrefl : Irreflexive elem_lt.
Proof. intros x. unfold complement, elem_lt. rewrite elem_cmp_self. lia. Qed.

#[export] Instance elem_lt_dec x y : Decision (elem_lt x y).
Proof. unfold elem_lt. apply _. Defined.

(** Elements with distinct members are comparable. *)
Lemma elem_lt_total x y : x.2 <> y.2 -> elem_lt x y \/ elem_lt y x.
Proof.
  intros Hne. unfold elem_lt. rewrite (elem_cmp_anti x y).
  destruct (Z.lt_trichotomy (elem_cmp x y) 0) as [?|[E|?]]; [lia| |lia].
  by apply elem_cmp_eq in E.
Qed.

(** ** Sorted lists of elements: the abstract view of an order structure *)

Definition zsorted (l : list zelem) : Prop := StronglySorted elem_lt l /\ NoDup l.*2.

Fixpoint elem_insert (x : zelem) (l : list zelem) : list zelem :=
  match l with
  | [] => [x]
  | y :: l' => if decide (elem_lt y x) then y :: elem_insert x l' else x :: l
  end.

Definition elem_remove (m : list Z) (l : list zelem) : list zelem :=
  filter (fun x => x.2 <> m) l.

Lemma StronglySorted_app_iff {A} (R : relation A) l k :
  StronglySorted R (l ++ k) <->
  StronglySorted R l /\ StronglySorted R k /\ (forall x y, x ∈ l -> y ∈ k -> R x y).
Proof.
  induction l as [|a l IH]; cbn.
  { split; [|by intros (_ & ? & _)]. intros. split; [constructor|]. split; [done|set_solver]. }
  split.
  - intros H. inversion H as [|? ? Hs Hf]; subst. apply IH in Hs as (? & ? & Hx).
    apply Forall_app in Hf as [? Hf]. rewrite Forall_forall in Hf.
    split; [by constructor|]. split; [done|]. set_solver.
  - intros (H & ? & Hx). inversion H; subst. constructor.
    + apply IH. split; [done|]. split; [done|]. set_solver.
    + apply Forall_app. split; [done|]. apply Forall_forall. set_solver.
Qed.

(** Where a sorted list is cut by a new element. *)
Lemma elem_insert_split x l :
  zsorted l -> x.2 ∉ l.*2 ->
  exists a b, l = a ++ b /\ elem_insert x l = a ++ x :: b /\
    (forall y, y ∈ a -> elem_lt y x) /\ (forall y, y ∈ b -> elem_lt x y).
Proof.
  intros [Hs Hn] Hx. induction l as [|y l IH]; cbn.
  { exists [], []. set_solver. }
  inversion Hs as [|? ? Hs' Hf]; subst. rewrite fmap_cons in Hx, Hn.
  apply NoDup_cons in Hn as [Hny Hn].
  case_decide as Hlt.
  - destruct IH as (a & b & -> & -> & Ha & Hb); [done|done|set_solver|].
    exists (y :: a), b. split; [done|]. split; [done|]. set_solver.
  - exists [], (y :: l). split; [done|]. split; [done|]. split; [set_solver|].
    assert (Hxy : elem_lt x y) by (destruct (elem_lt_total x y); [set_solver|done|done]).
    intros z [->|Hz]%list_elem_of_In%in_inv; [done|].
    rewrite Forall_forall in Hf. etrans; [apply Hxy|]. apply Hf, list_elem_of_In. done.
Qed.

Lemma zsorted_app_insert a b x :
  zsorted (a ++ b) -> x.2 ∉ (a ++ b).*2 ->
  (forall y, y ∈ a -> elem_lt y x) -> (forall y, y ∈ b -> elem_lt x y) ->
  zsorted (a ++ x :: b).
Proof.
  intros [Hs Hn] Hx Ha Hb. apply StronglySorted_app_iff in Hs as (Hsa & Hsb & Hab). split.
  - apply StronglySorted_app_iff. split; [done|]. split; [|set_solver].
    constructor; [done|]. by apply Forall_forall.
  - rewrite fmap_app, fmap_cons. rewrite fmap_app in Hn, Hx.
    apply NoDup_app in Hn as (? & Hd & ?). apply NoDup_app. split; [done|].
    split; [set_solver|]. apply NoDup_cons. set_solver.
Qed.

Lemma elem_insert_sorted x l : zsorted l -> x.2 ∉ l.*2 -> zsorted (elem_insert x l).
Proof.
  intros Hl Hx. destruct (elem_insert_split x l Hl Hx) as (a & b & -> & -> & Ha & Hb).
  by apply zsorted_app_insert.
Qed.

(** An insertion at the right place is the insertion. *)
Lemma elem_insert_app a b x :
  (forall y, y ∈ a -> elem_lt y x) -> (forall y, y ∈ b -> elem_lt x y) ->
  elem_insert x (a ++ b) = a ++ x :: b.
Proof.
  intros Ha Hb. induction a as [|y a IH]; cbn.
  - destruct b as [|z b]; [done|]. cbn. rewrite decide_False; [done|].
    intros Hz. apply (elem_lt_irrefl x). etrans; [|exact Hz]. set_solver.
  - rewrite decide_True by set_solver. f_equal. apply IH. set_solver.
Qed.

Lemma elem_insert_perm x l : elem_insert x l ≡ₚ x :: l.
Proof.
  induction l as [|y l IH]; cbn; [done|]. case_decide; [|done]. rewrite IH. constructor.
Qed.

Lemma elem_remove_id m k : m ∉ k.*2 -> elem_remove m k = k.
Proof.
  unfold elem_remove. intros Hk. induction k as [|y k IH]; [done|]. rewrite fmap_cons in Hk.
  rewrite filter_cons_True by set_solver. f_equal. apply IH. set_solver.
Qed.

Lemma elem_remove_app a b s m :
  m ∉ a.*2 -> m ∉ b.*2 -> elem_remove m (a ++ (s, m) :: b) = a ++ b.
Proof.
  intros Ha Hb.
  assert (E : elem_remove m (a ++ (s, m) :: b) = elem_remove m a ++ elem_remove m b).
  { unfold elem_remove. by rewrite filter_app, filter_cons_False by (cbn; naive_solver). }
  by rewrite E, !elem_remove_id.
Qed.

Lemma elem_remove_perm m s l : NoDup l.*2 -> (s, m) ∈ l -> l ≡ₚ (s, m) :: elem_remove m l.
Proof.
  intros Hn Hin. apply list_elem_of_split in Hin as (a & b & ->).
  rewrite fmap_app, fmap_cons in Hn. apply NoDup_app in Hn as (Ha & Hd & Hb).
  apply NoDup_cons in Hb as [Hb _]. cbn in Hd, Hb.
  rewrite elem_remove_app by set_solver. by rewrite Permutation_middle.
Qed.

Lemma zsorted_app_remove a b x : zsorted (a ++ x :: b) -> zsorted (a ++ b).
Proof.
  intros [Hs Hn]. apply StronglySorted_app_iff in Hs as (Hsa & Hsb & Hab).
  inversion Hsb; subst. split.
  - apply StronglySorted_app_iff. split; [done|]. split; [done|]. set_solver.
  - rewrite fmap_app in *. rewrite fmap_cons in Hn.
    apply NoDup_app in Hn as (? & ? & [_ ?]%NoDup_cons). apply NoDup_app. set_solver.
Qed.

(** Two sorted lists with the same elements are equal. *)
Lemma zsorted_perm_eq l k : zsorted l -> zsorted k -> l ≡ₚ k -> l = k.
Proof.
  intros [Hl _] [Hk _]. revert k Hk. induction l as [|x l IH]; intros k Hk Hp.
  { apply Permutation_nil_l in Hp. done. }
  destruct k as [|y k]; [apply Permutation_nil_r in Hp; done|].
  inversion Hl as [|? ? Hl' Hfl]; inversion Hk as [|? ? Hk' Hfk]; subst.
  rewrite Forall_forall in Hfl, Hfk.
  assert (x = y) as ->.
  { assert (Hx : x ∈ y :: k) by (rewrite <- Hp; set_solver).
    assert (Hy : y ∈ x :: l) by (rewrite Hp; set_solver).
    apply elem_of_cons in Hx as [?|Hx]; [done|]. apply elem_of_cons in Hy as [?|Hy]; [done|].
    exfalso. apply (elem_lt_irrefl x). etrans; [by apply Hfl|by apply Hfk]. }
  f_equal. apply IH; [done..|]. by apply Permutation_cons_inv in Hp.
Qed.

(** ** Interface of an order structure

    What the sorted set relies on: a structure represents a sorted list of
    elements, inserting and detaching a node update that list, and a range is
    the sublist at the given ranks. *)
Class OrderedIndex (T N : Type) : Type := {
  oi_repr : T -> list zelem -> Prop;
  oi_insert : T -> N -> T;
  oi_detach : T -> list Z -> option N * T;
  oi_range : T -> Z -> nat -> list zelem;
  oi_node : N -> zelem;
  oi_node_ok : N -> Prop;
  oi_set_score : Z -> N -> N;
  oi_sorted : forall t l, oi_repr t l -> zsorted l;
  oi_insert_ok : forall t l n, oi_repr t l -> oi_node_ok n -> (oi_node n).2 ∉ l.*2 ->
    oi_repr (oi_insert t n) (elem_insert (oi_node n) l);
  oi_detach_ok : forall t l sc m, oi_repr t l -> (sc, m) ∈ l ->
    exists n, (oi_detach t m).1 = Some n /\ oi_node n = (sc, m) /\
      (forall s, oi_node_ok (oi_set_score s n) /\ oi_node (oi_set_score s n) = (s, m)) /\
      oi_repr (oi_detach t m).2 (elem_remove m l);
  oi_range_ok : forall t l first k, oi_repr t l -> 0 <= first ->
    oi_range t first k = take k (drop (Z.to_nat first) l)
}.
