(* ===== verification/Skiplist.v ===== *)
(** The skip list that orders the members of a sorted set
    ([skip_node], [skiplist] and [skiplist_*] of [src/engine/object.c]).

    Nodes live in a heap.  The pointer to a node is represented by the
    member of the node: the members of a sorted set are distinct, because
    each is the key of its dictionary entry.  The header node, which has no
    member, is the location [Header].  Ranks and spans lie between 0 and the
    length of the list, so that no [size_t] operation on them wraps. *)

From S2P Require Import Prelude ZOrder.

Definition ZSKIPLIST_MAXLEVEL : nat := 32.

Definition ZSKIPLIST_THRESHOLD : Z := UINT64_MAX / 4.

(** [sizeof] of a node without its levels and of one level. *)
Definition SIZEOF_SKIP_NODE : Z := 40.

Definition SIZEOF_SKIP_LEVEL : Z := 16.

Record skip_level : Type := mk_level { forward : option (list Z); span : Z }.

Record skip_node : Type := mk_skip_node {
  sn_score : Z;
  sn_member : list Z;
  sn_backward : option (list Z);
  sn_levels : list skip_level
}.

(** [level_count]: the length of the flexible array. *)
Definition level_count (n : skip_node) : nat := length (sn_levels n).

Record skiplist : Type := mk_skiplist {
  sl_header : list skip_level;
  sl_heap : gmap (list Z) skip_node;
  sl_tail : option (list Z);
  sl_level : nat;
  sl_length : Z;
  sl_random : Z
}.

Inductive loc : Type := Header | At (m : list Z).

#[export] Instance loc_eq_dec : EqDecision loc.
Proof. solve_decision. Defined.

Definition zero_level : skip_level := mk_level None 0.

(** ** Memory access *)

Definition levels_of (s : skiplist) (p : loc) : list skip_level :=
  match p with
  | Header => sl_header s
  | At m => match sl_heap s !! m with Some n => sn_levels n | None => [] end
  end.

Definition level_at (s : skiplist) (p : loc) (i : nat) : skip_level :=
  nth i (levels_of s p) zero_level.

Definition set_heap (h : gmap (list Z) skip_node) (s : skiplist) : skiplist :=
  mk_skiplist (sl_header s) h (sl_tail s) (sl_level s) (sl_length s) (sl_random s).

Definition set_levels (ls : list skip_level) (n : skip_node) : skip_node :=
  mk_skip_node (sn_score n) (sn_member n) (sn_backward n) ls.

Definition set_backward (b : option (list Z)) (n : skip_node) : skip_node :=
  mk_skip_node (sn_score n) (sn_member n) b (sn_levels n).

(** The assignment [p->levels[i] = lv]. *)
Definition set_level (p : loc) (i : nat) (lv : skip_level) (s : skiplist) : skiplist :=
  match p with
  | Header => mk_skiplist (<[i := lv]> (sl_header s)) (sl_heap s) (sl_tail s) (sl_level s)
                (sl_length s) (sl_random s)
  | At m => set_heap (alter (fun n => set_levels (<[i := lv]> (sn_levels n)) n) m (sl_heap s)) s
  end.

Definition set_tail (t : option (list Z)) (s : skiplist) : skiplist :=
  mk_skiplist (sl_header s) (sl_heap s) t (sl_level s) (sl_length s) (sl_random s).

Definition set_sl_level (l : nat) (s : skiplist) : skiplist :=
  mk_skiplist (sl_header s) (sl_heap s) (sl_tail s) l (sl_length s) (sl_random s).

Definition set_length (n : Z) (s : skiplist) : skiplist :=
  mk_skiplist (sl_header s) (sl_heap s) (sl_tail s) (sl_level s) n (sl_random s).

Definition set_random (r : Z) (s : skiplist) : skiplist :=
  mk_skiplist (sl_header s) (sl_heap s) (sl_tail s) (sl_level s) (sl_length s) r.

(** ** Node creation *)

Definition skip_node_memory (level : nat) : Z :=
  SIZEOF_SKIP_NODE + Z.of_nat level * SIZEOF_SKIP_LEVEL.

Definition next_random (s : skiplist) : Z * skiplist :=
  let value := sl_random s in
  let value := Z.lxor value (Z.shiftr value 12) in
  let value := Z.lxor value (wrap64 (Z.shiftl value 25)) in
  let value := Z.lxor value (Z.shiftr value 27) in
  (wrap64 (value * 2685821657736338717), set_random value s).

(** The loop of [skip_random_level]: [fuel] is the number of levels left. *)
Fixpoint random_level_loop (fuel : nat) (level : nat) (s : skiplist) : nat * skiplist :=
  match fuel with
  | O => (level, s)
  | S fuel =>
      if (level <? ZSKIPLIST_MAXLEVEL)%nat then
        let '(r, s) := next_random s in
        if r <=? ZSKIPLIST_THRESHOLD then random_level_loop fuel (S level) s else (level, s)
      else (level, s)
  end.

Definition skip_random_level (s : skiplist) : nat * skiplist :=
  random_level_loop ZSKIPLIST_MAXLEVEL 1 s.

(** [calloc]: zeroed levels, no member yet. *)
Definition skip_node_create (m : mem) (level : nat) (score : Z) : option skip_node * mem :=
  let '(ok, m) := malloc m in
  if ok then (Some (mk_skip_node score [] None (replicate level zero_level)), m) else (None, m).

Definition skiplist_init (m : mem) : option skiplist * mem :=
  match skip_node_create m ZSKIPLIST_MAXLEVEL 0 with
  | (None, m) => (None, m)
  | (Some header, m) =>
      (Some (mk_skiplist (sn_levels header) ∅ None 1 0 0x9e3779b97f4a7c15), m)
  end.

Definition skiplist_prepare_node (m : mem) (s : skiplist) (score : Z)
  : option skip_node * skiplist * mem :=
  let '(level, s) := skip_random_level s in
  let '(n, m) := skip_node_create m level score in
  (n, s, m).

(** ** Search *)

(** The [while] loop of one level, with the rank reached. *)
Fixpoint walk (fuel : nat) (s : skiplist) (score : Z) (member : list Z) (index : nat)
    (current : loc) (rank : Z) : loc * Z :=
  match fuel with
  | O => (current, rank)
  | S fuel =>
      let lv := level_at s current index in
      match forward lv with
      | None => (current, rank)
      | Some m =>
          match sl_heap s !! m with
          | None => (current, rank)
          | Some n =>
              if compare_order (sn_score n) (sn_member n) score member <? 0
              then walk fuel s score member index (At m) (rank + span lv)
              else (current, rank)
          end
      end
  end.

(** The [for] loop over the levels, from [index - 1] down to 0: the arrays
    [update] and [rank], paired. *)
Fixpoint descend (s : skiplist) (score : Z) (member : list Z) (index : nat)
    (current : loc) (rank : Z) : list (loc * Z) :=
  match index with
  | O => []
  | S index =>
      let '(current, rank) :=
        walk (S (Z.to_nat (sl_length s))) s score member index current rank in
      descend s score member index current rank ++ [(current, rank)]
  end.

(** ** Insertion *)

(** The header levels above the current ones that a taller node uses. *)
Definition raise_level (s : skiplist) (count : nat) : skiplist :=
  if (sl_level s <? count)%nat then
    set_sl_level count
      (fold_left (fun s i =>
         set_level Header i (mk_level (forward (level_at s Header i)) (sl_length s)) s)
       (seq (sl_level s) (count - sl_level s)) s)
  else s.

(** One iteration of the loop that links the node. *)
Definition link_level (m : list Z) (update : list (loc * Z)) (rank0 : Z)
    (s : skiplist) (i : nat) : skiplist :=
  let '(u, r) := nth i update (Header, 0) in
  let lv := level_at s u i in
  let s := set_level (At m) i (mk_level (forward lv) (span lv - (rank0 - r))) s in
  set_level u i (mk_level (Some m) (rank0 - r + 1)) s.

(** One iteration of the loop over the levels above the node. *)
Definition widen_level (update : list (loc * Z)) (s : skiplist) (i : nat) : skiplist :=
  let '(u, _) := nth i update (Header, 0) in
  let lv := level_at s u i in
  set_level u i (mk_level (forward lv) (span lv + 1)) s.

Definition skiplist_insert_node (s : skiplist) (node : skip_node) : skiplist :=
  let m := sn_member node in
  let count := level_count node in
  let search := descend s (sn_score node) m (sl_level s) Header 0 in
  let update := search ++ replicate (count - sl_level s) (Header, 0) in
  let rank0 := snd (nth 0 update (Header, 0)) in
  let s := raise_level s count in
  let s := set_heap (<[m := node]> (sl_heap s)) s in
  let s := fold_left (link_level m update rank0) (seq 0 count) s in
  let s := fold_left (widen_level update) (seq count (sl_level s - count)) s in
  let back := match fst (nth 0 update (Header, 0)) with Header => None | At u => Some u end in
  let s := set_heap (alter (set_backward back) m (sl_heap s)) s in
  let s := match forward (level_at s (At m) 0) with
           | Some f => set_heap (alter (set_backward (Some m)) f (sl_heap s)) s
           | None => set_tail (Some m) s
           end in
  set_length (sl_length s + 1) s.

(** ** Removal *)

Definition unlink_level (target : list Z) (update : list (loc * Z))
    (s : skiplist) (i : nat) : skiplist :=
  let '(u, _) := nth i update (Header, 0) in
  let lv := level_at s u i in
  if decide (forward lv = Some target) then
    let tlv := level_at s (At target) i in
    set_level u i (mk_level (forward tlv) (span lv + (span tlv - 1))) s
  else set_level u i (mk_level (forward lv) (span lv - 1)) s.

(** [while (list->level > 1 && ... == NULL) list->level--] *)
Fixpoint lower_level (s : skiplist) (level : nat) : nat :=
  match level with
  | S (S l as level') =>
      match forward (level_at s Header level') with
      | None => lower_level s level'
      | Some _ => level
      end
  | _ => level
  end.

(** The detached node stays allocated; it is the first result. *)
Definition skiplist_detach_node (s : skiplist) (target : list Z)
  : option skip_node * skiplist :=
  match sl_heap s !! target with
  | None => (None, s)
  | Some t =>
      let update := descend s (sn_score t) (sn_member t) (sl_level s) Header 0 in
      let s := fold_left (unlink_level target update) (seq 0 (sl_level s)) s in
      let s := match forward (level_at s (At target) 0) with
               | Some f => set_heap (alter (set_backward (sn_backward t)) f (sl_heap s)) s
               | None => set_tail (sn_backward t) s
               end in
      let s := set_sl_level (lower_level s (sl_level s)) s in
      let s := set_length (sl_length s - 1) s in
      (sl_heap s !! target, set_heap (delete target (sl_heap s)) s)
  end.

(** ** Access by rank *)

Fixpoint walk_rank (fuel : nat) (s : skiplist) (wanted : Z) (index : nat)
    (current : loc) (traversed : Z) : loc * Z :=
  match fuel with
  | O => (current, traversed)
  | S fuel =>
      let lv := level_at s current index in
      match forward lv with
      | None => (current, traversed)
      | Some m =>
          if traversed + span lv <=? wanted
          then walk_rank fuel s wanted index (At m) (traversed + span lv)
          else (current, traversed)
      end
  end.

Fixpoint by_rank_loop (s : skiplist) (wanted : Z) (index : nat)
    (current : loc) (traversed : Z) : option loc :=
  match index with
  | O => None
  | S index =>
      let '(current, traversed) :=
        walk_rank (S (Z.to_nat (sl_length s))) s wanted index current traversed in
      if traversed =? wanted then Some current
      else by_rank_loop s wanted index current traversed
  end.

Definition skiplist_by_rank (s : skiplist) (rank : Z) : option (list Z) :=
  match by_rank_loop s (rank + 1) (sl_level s) Header 0 with
  | Some (At m) => Some m
  | _ => None
  end.

(** Following [levels[0].forward] for at most [fuel] nodes from a node on:
    the score and member of each, as the callers' loops visit them. *)
Fixpoint skiplist_scan (fuel : nat) (s : skiplist) (node : option (list Z)) : list zelem :=
  match fuel, node with
  | S fuel, Some m =>
      match sl_heap s !! m with
      | None => []
      | Some n => (sn_score n, sn_member n) :: skiplist_scan fuel s (forward (level_at s (At m) 0))
      end
  | _, _ => []
  end.

(** [validate_skiplist]: the loop from [node] with [previous] and [count]. *)
Fixpoint validate_skip_loop (fuel : nat) (s : skiplist) (node previous : option (list Z))
    (count : Z) : bool :=
  match fuel with
  | O => false
  | S fuel =>
      match node with
      | None => (count =? sl_length s) && bool_decide (previous = sl_tail s)
      | Some m =>
          match sl_heap s !! m with
          | None => false
          | Some n =>
              let ordered :=
                match previous ≫= fun p => sl_heap s !! p with
                | None => true
                | Some p => compare_order (sn_score p) (sn_member p)
                              (sn_score n) (sn_member n) <? 0
                end in
              if negb (bool_decide (sn_backward n = previous)) || negb ordered then false else
              if negb (bool_decide (skiplist_by_rank s count = Some m)) then false else
              validate_skip_loop fuel s (forward (level_at s (At m) 0)) (Some m) (count + 1)
          end
      end
  end.

Definition validate_skiplist (s : skiplist) : bool :=
  validate_skip_loop (S (Z.to_nat (sl_length s)) + 1) s (forward (level_at s Header 0)) None 0.

(** ** Representation invariant

    A skip list represents a list of items, a score, a member and a height
    each; every forward pointer and span is determined by that list. *)

Record item : Type := mk_item { it_score : Z; it_member : list Z; it_height : nat }.

Definition elem_of_item (e : item) : zelem := (it_score e, it_member e).

(** The level-[i] link of a node followed by the items [l]: the next item of
    height above [i] and its distance; at the end, the number of items left. *)
Fixpoint nxt (l : list item) (i : nat) : skip_level :=
  match l with
  | [] => mk_level None 0
  | e :: l =>
      if (i <? it_height e)%nat then mk_level (Some (it_member e)) 1
      else mk_level (forward (nxt l i)) (span (nxt l i) + 1)
  end.

(** The location that ends a prefix of the items. *)
Definition loc_of (pre : list item) : loc :=
  match last pre with None => Header | Some e => At (it_member e) end.

Definition back_of (pre : list item) : option (list Z) := it_member <$> last pre.

(** The node at the end of [pre] has a link at level [i]. *)
Definition tall (level : nat) (pre : list item) (i : nat) : Prop :=
  match last pre with None => (i < level)%nat | Some e => (i < it_height e)%nat end.

Record sl_repr (L : list item) (s : skiplist) : Prop := {
  r_sorted : zsorted (elem_of_item <$> L);
  r_level : (1 <= sl_level s <= ZSKIPLIST_MAXLEVEL)%nat;
  r_heights : Forall (fun e => (1 <= it_height e <= sl_level s)%nat) L;
  r_header_len : length (sl_header s) = ZSKIPLIST_MAXLEVEL;
  r_header_top : forall i, (sl_level s <= i)%nat -> forward (level_at s Header i) = None;
  r_dom : forall m, is_Some (sl_heap s !! m) <-> m ∈ it_member <$> L;
  r_node : forall pre e suf n, L = pre ++ e :: suf -> sl_heap s !! it_member e = Some n ->
    sn_score n = it_score e /\ sn_member n = it_member e /\
    sn_backward n = back_of pre /\ level_count n = it_height e;
  r_link : forall pre suf i, L = pre ++ suf -> tall (sl_level s) pre i ->
    level_at s (loc_of pre) i = nxt suf i;
  r_tail : sl_tail s = back_of L;
  r_length : sl_length s = zlen L
}.

Definition sl_elements (L : list item) : list zelem := elem_of_item <$> L.

Section Links.
Implicit Types (L l pre suf : list item) (e : item).

Lemma nxt_high l e suf i :
  Forall (fun e => (it_height e <= i)%nat) l -> (i < it_height e)%nat ->
  nxt (l ++ e :: suf) i = mk_level (Some (it_member e)) (zlen l + 1).
Proof.
  intros Hl He. induction Hl as [|x l Hx Hl IH]; cbn [nxt app].
  - by rewrite (proj2 (Nat.ltb_lt _ _) He).
  - rewrite (proj2 (Nat.ltb_ge _ _) Hx), IH. cbn. f_equal. rewrite zlen_cons; cbn [span]; lia.
Qed.

Lemma nxt_low l suf i :
  Forall (fun e => (it_height e <= i)%nat) l ->
  nxt (l ++ suf) i = mk_level (forward (nxt suf i)) (zlen l + span (nxt suf i)).
Proof.
  intros Hl. induction Hl as [|x l Hx Hl IH]; cbn [nxt app].
  - rewrite zlen_nil. destruct (nxt suf i); done.
  - rewrite (proj2 (Nat.ltb_ge _ _) Hx), IH. cbn. f_equal. rewrite zlen_cons; cbn [span]; lia.
Qed.

(** Either a list has no item above a height or it splits at the first. *)
Lemma first_high l i :
  Forall (fun e => (it_height e <= i)%nat) l \/
  exists l1 e l2, l = l1 ++ e :: l2 /\ (i < it_height e)%nat /\
    Forall (fun e => (it_height e <= i)%nat) l1.
Proof.
  induction l as [|x l IH]; [by left|].
  destruct (decide (i < it_height x)%nat).
  - right. exists [], x, l. auto.
  - destruct IH as [?|(l1 & e & l2 & -> & ? & ?)].
    + left. constructor; [lia|done].
    + right. exists (x :: l1), e, l2. split; [done|]. split; [done|]. constructor; [lia|done].
Qed.

Lemma nxt_end l i : Forall (fun e => (it_height e <= i)%nat) l -> nxt l i = mk_level None (zlen l).
Proof.
  intros Hl. rewrite <- (app_nil_r l) at 1. rewrite nxt_low by done. cbn. f_equal. lia.
Qed.

Lemma nxt_span l i : 0 <= span (nxt l i) <= zlen l.
Proof.
  induction l as [|e l IH]; cbn [nxt span]; [zlia|]. rewrite zlen_cons.
  destruct (_ <? _)%nat; cbn [span]; zlia.
Qed.

Lemma loc_of_snoc pre e : loc_of (pre ++ [e]) = At (it_member e).
Proof. unfold loc_of. by rewrite last_snoc. Qed.

Lemma back_of_snoc pre e : back_of (pre ++ [e]) = Some (it_member e).
Proof. unfold back_of. by rewrite last_snoc. Qed.

Lemma tall_snoc level pre e i : tall level (pre ++ [e]) i <-> (i < it_height e)%nat.
Proof. unfold tall. by rewrite last_snoc. Qed.

Lemma tall_weaken level pre i j : (j <= i)%nat -> tall level pre i -> tall level pre j.
Proof. unfold tall. destruct (last pre); lia. Qed.

(** The longest prefix that ends above a height. *)
Fixpoint cut (i : nat) l : list item :=
  match l with
  | [] => []
  | e :: l =>
      match cut i l with
      | [] => if (i <? it_height e)%nat then [e] else []
      | c => e :: c
      end
  end.

Lemma cut_low i l : Forall (fun e => (it_height e <= i)%nat) l -> cut i l = [].
Proof. induction 1 as [|x l Hx Hl IH]; cbn [nxt app cut]; [done|]. by rewrite IH, (proj2 (Nat.ltb_ge _ _) Hx). Qed.

Lemma cut_high i a e l :
  Forall (fun e => (it_height e <= i)%nat) l -> (i < it_height e)%nat ->
  cut i (a ++ e :: l) = a ++ [e].
Proof.
  intros Hl He. induction a as [|x a IH]; cbn [nxt app cut].
  - by rewrite cut_low, (proj2 (Nat.ltb_lt _ _) He).
  - rewrite IH. by destruct a.
Qed.

(** Either no item is above the height, or the last one that is ends the cut. *)
Lemma last_high l i :
  Forall (fun e => (it_height e <= i)%nat) l \/
  exists l1 e l2, l = l1 ++ e :: l2 /\ (i < it_height e)%nat /\
    Forall (fun e => (it_height e <= i)%nat) l2.
Proof.
  induction l as [|x l IH]; [by left|].
  destruct IH as [?|(l1 & e & l2 & -> & ? & ?)].
  - destruct (decide (i < it_height x)%nat).
    + right. by exists [], x, l.
    + left. constructor; [lia|done].
  - right. by exists (x :: l1), e, l2.
Qed.

Lemma cut_split level i l :
  (i < level)%nat ->
  exists m, l = cut i l ++ m /\ Forall (fun e => (it_height e <= i)%nat) m /\ tall level (cut i l) i.
Proof.
  intros Hi. destruct (last_high l i) as [Hl|(l1 & e & l2 & -> & He & Hl)].
  - exists l. rewrite cut_low by done. auto.
  - exists l2. rewrite cut_high by done. rewrite <- app_assoc. split; [done|]. split; [done|].
    by apply tall_snoc.
Qed.

Lemma cut_unique level pre m i :
  Forall (fun e => (it_height e <= i)%nat) m -> tall level pre i -> cut i (pre ++ m) = pre.
Proof.
  intros Hm Ht. destruct pre as [|e pre _] using rev_ind.
  - by apply cut_low.
  - apply tall_snoc in Ht. rewrite <- app_assoc. by apply cut_high.
Qed.

End Links.

(** ** Search *)

Section Search.
Context (L : list item) (s : skiplist) (HL : sl_repr L s).
Implicit Types (pre suf mid : list item) (e : item).

Lemma repr_members_nodup : NoDup (it_member <$> L).
Proof.
  destruct (r_sorted L s HL) as [_ H]. rewrite <- list_fmap_compose in H. exact H.
Qed.

(** The node of an item. *)
Lemma repr_lookup pre e suf :
  L = pre ++ e :: suf ->
  exists n, sl_heap s !! it_member e = Some n /\
    sn_score n = it_score e /\ sn_member n = it_member e /\
    sn_backward n = back_of pre /\ level_count n = it_height e.
Proof.
  intros HE. destruct (proj2 (r_dom L s HL (it_member e))) as [n Hn].
  { rewrite HE, fmap_app, fmap_cons. set_solver. }
  exists n. split; [done|]. by apply (r_node L s HL pre e suf).
Qed.

Lemma fuel_enough pre mid suf : L = pre ++ mid ++ suf -> (length mid < S (Z.to_nat (sl_length s)))%nat.
Proof.
  intros HE. rewrite (r_length L s HL), HE. unfold zlen. rewrite !length_app. lia.
Qed.

(** One level of the search: from a prefix of the smaller items to its
    longest prefix with a link at that level. *)
Lemma walk_spec fuel score member i pre mid B :
  L = pre ++ mid ++ B ->
  (forall e, e ∈ pre ++ mid -> elem_lt (elem_of_item e) (score, member)) ->
  (forall e, e ∈ B -> ~ elem_lt (elem_of_item e) (score, member)) ->
  tall (sl_level s) pre i -> (length mid < fuel)%nat ->
  walk fuel s score member i (loc_of pre) (zlen pre)
  = (loc_of (cut i (pre ++ mid)), zlen (cut i (pre ++ mid))).
Proof.
  revert pre mid. induction fuel as [|fuel IH]; intros pre mid HE HA HB Ht Hf; [lia|].
  cbn [walk]. rewrite (r_link L s HL pre (mid ++ B) i HE Ht).
  destruct (first_high mid i) as [Hm|(m1 & e & m2 & -> & He & Hm1)].
  - rewrite (cut_unique (sl_level s)) by done. rewrite nxt_low by done. cbn [forward].
    destruct (first_high B i) as [HBl|(b1 & e & b2 & -> & He & Hb1)].
    { by rewrite nxt_end. }
    rewrite nxt_high by done. cbn [forward].
    destruct (repr_lookup (pre ++ mid ++ b1) e b2) as (n & -> & -> & -> & _ & _).
    { rewrite HE. app_eq. }
    destruct (Z.ltb_spec (compare_order (it_score e) (it_member e) score member) 0) as [Hlt|]; [|done].
    exfalso. apply (HB e); [set_solver|exact Hlt].
  - rewrite <- app_assoc. cbn [app]. rewrite nxt_high by done. cbn [forward span].
    destruct (repr_lookup (pre ++ m1) e (m2 ++ B)) as (n & -> & -> & -> & _ & _).
    { rewrite HE. app_eq. }
    assert (Hlt : elem_lt (elem_of_item e) (score, member)) by (apply HA; set_solver).
    unfold elem_lt, elem_cmp in Hlt. cbn in Hlt.
    destruct (Z.ltb_spec (compare_order (it_score e) (it_member e) score member) 0); [|lia].
    replace (pre ++ m1 ++ e :: m2) with ((pre ++ m1 ++ [e]) ++ m2) in * by app_eq.
    rewrite <- (IH (pre ++ m1 ++ [e]) m2); try done.
    + f_equal; [rewrite app_assoc; by rewrite loc_of_snoc|]. autorewrite with zlen. lia.
    + rewrite HE. app_eq.
    + rewrite app_assoc. by apply tall_snoc.
    + rewrite length_app in Hf. cbn in Hf. lia.
Qed.

Lemma descend_spec score member A B pre mid k :
  L = A ++ B -> A = pre ++ mid ->
  (forall e, e ∈ A -> elem_lt (elem_of_item e) (score, member)) ->
  (forall e, e ∈ B -> ~ elem_lt (elem_of_item e) (score, member)) ->
  (k <= sl_level s)%nat -> (forall i, (i < k)%nat -> tall (sl_level s) pre i) ->
  descend s score member k (loc_of pre) (zlen pre)
  = (fun i => (loc_of (cut i A), zlen (cut i A))) <$> seq 0 k.
Proof.
  intros HE -> HA HB. revert pre mid HE HA.
  induction k as [|k IH]; intros pre mid HE HA Hk Ht; [done|].
  cbn [descend]. rewrite <- app_assoc in HE.
  rewrite (walk_spec _ score member k pre mid B);
    [|done..|apply Ht; lia|by apply (fuel_enough pre _ B)].
  destruct (cut_split (sl_level s) k (pre ++ mid)) as (m & Hm & Hml & Htall); [lia|].
  set (c := cut k (pre ++ mid)) in *.
  rewrite seq_S, fmap_app. cbn. f_equal.
  rewrite (IH c m); try lia.
  - by rewrite Hm.
  - rewrite <- Hm, <- app_assoc. done.
  - by rewrite <- Hm.
  - intros i Hi. apply (tall_weaken _ _ k); [lia|done].
Qed.

End Search.

(** ** Loops that write one level each *)

Definition info (n : skip_node) : Z * list Z * option (list Z) * nat :=
  (sn_score n, sn_member n, sn_backward n, level_count n).

(** Two states that differ only in forward pointers and spans. *)
Record same_shape (s s' : skiplist) : Prop := {
  ss_level : sl_level s' = sl_level s;
  ss_length : sl_length s' = sl_length s;
  ss_tail : sl_tail s' = sl_tail s;
  ss_header : length (sl_header s') = length (sl_header s);
  ss_info : forall m, info <$> sl_heap s' !! m = info <$> sl_heap s !! m
}.

#[export] Instance same_shape_preorder : PreOrder same_shape.
Proof.
  split.
  - by intros s; split.
  - intros s1 s2 s3 [] []. split; try congruence; intros; etrans; eauto.
Qed.

Definition level_slots (s : skiplist) (p : loc) : nat := length (levels_of s p).

Lemma same_shape_slots s s' p : same_shape s s' -> level_slots s' p = level_slots s p.
Proof.
  intros [_ _ _ Hh Hi]. destruct p as [|m]; unfold level_slots; cbn; [done|].
  specialize (Hi m). destruct (sl_heap s !! m), (sl_heap s' !! m); cbn in Hi; try done.
  by injection Hi.
Qed.

Lemma set_level_shape p i lv s : same_shape s (set_level p i lv s).
Proof.
  destruct p as [|m]; split; cbn; try done.
  - by rewrite length_insert.
  - intros m'. destruct (decide (m = m')) as [->|]; [|by rewrite lookup_alter_ne].
    rewrite lookup_alter_eq. destruct (sl_heap s !! m'); cbn; [|done].
    unfold info, level_count. cbn. by rewrite length_insert.
Qed.

Lemma level_at_set_level p i lv s q j :
  (i < level_slots s p)%nat ->
  level_at (set_level p i lv s) q j = if decide (q = p /\ j = i) then lv else level_at s q j.
Proof.
  intros Hi. unfold level_at. assert (Hn : forall (l : list skip_level),
    (i < length l)%nat -> nth j (<[i := lv]> l) zero_level = if decide (j = i) then lv else nth j l zero_level).
  { intros l Hl. rewrite !nth_lookup. case_decide as E; [subst|].
    - by rewrite list_lookup_insert_eq.
    - by rewrite list_lookup_insert_ne. }
  unfold level_slots in Hi. destruct p as [|m], q as [|m']; cbn in *.
  - rewrite Hn by done. repeat case_decide; naive_solver.
  - rewrite decide_False by naive_solver. done.
  - rewrite decide_False by naive_solver. done.
  - destruct (decide (m' = m)) as [->|Hne].
    + rewrite lookup_alter_eq. destruct (sl_heap s !! m) as [n|]; [|cbn in Hi; lia]. cbn.
      rewrite Hn by done. repeat case_decide; naive_solver.
    + rewrite lookup_alter_ne by done. rewrite decide_False by naive_solver. done.
Qed.

(** The effect of one iteration, from any state that agrees with [s0] on the
    shape and on level [i]. *)
Definition writes_level (f : skiplist -> nat -> skiplist) (s0 : skiplist) (i : nat)
    (G : loc -> skip_level) : Prop :=
  forall s, same_shape s0 s -> (forall q, level_at s q i = level_at s0 q i) ->
  same_shape s0 (f s i) /\ (forall q, level_at (f s i) q i = G q) /\
  (forall q j, j <> i -> level_at (f s i) q j = level_at s q j).

Lemma fold_writes f s0 ixs G :
  NoDup ixs -> (forall i, i ∈ ixs -> writes_level f s0 i (G i)) ->
  let s' := fold_left f ixs s0 in
  same_shape s0 s' /\
  forall q j, level_at s' q j = if decide (j ∈ ixs) then G j q else level_at s0 q j.
Proof.
  cbn zeta. induction ixs as [|i ixs IH] using rev_ind; intros Hn Hw.
  { split; [reflexivity|]. intros. by rewrite decide_False by set_solver. }
  rewrite fold_left_app. cbn [fold_left].
  apply NoDup_app in Hn as (Hn & Hd & _).
  destruct IH as [Hs Hl]; [done|intros; apply Hw; set_solver|].
  set (s := fold_left f ixs s0) in *.
  assert (Hi : i ∉ ixs) by (intros ?; by apply (Hd i); set_solver).
  destruct (Hw i ltac:(set_solver) s Hs) as (Hs' & Hg & Ho).
  { intros q. rewrite Hl. by rewrite decide_False. }
  split; [done|]. intros q j. destruct (decide (j = i)) as [->|Hne].
  - rewrite Hg. by rewrite decide_True by set_solver.
  - rewrite Ho, Hl by done. repeat case_decide; set_solver.
Qed.

(** Location equality and membership of items. *)
Lemma loc_of_inj L pre pre' :
  NoDup (it_member <$> L) -> pre `prefix_of` L -> pre' `prefix_of` L ->
  loc_of pre = loc_of pre' -> pre = pre'.
Proof.
  intros Hn [k Hk] [k' Hk']. unfold loc_of.
  destruct pre as [|e pre _] using rev_ind; destruct pre' as [|e' pre' _] using rev_ind;
    rewrite ?last_snoc; cbn; try done.
  intros [= He]. subst L. rewrite <- !app_assoc in Hk'.
  assert (Hl : length pre = length pre').
  { eapply (NoDup_lookup _ (length pre) (length pre') (it_member e)); [exact Hn|..].
    - rewrite list_lookup_fmap, <- app_assoc. cbn [app]. by rewrite list_lookup_middle.
    - rewrite <- app_assoc, Hk', list_lookup_fmap. cbn [app]. rewrite list_lookup_middle by done.
      cbn. by rewrite He. }
  apply app_inj_1 in Hk' as [-> Hk']; [|done]. injection Hk' as -> _. done.
Qed.

Lemma level_slots_repr L s pre :
  sl_repr L s -> pre `prefix_of` L ->
  level_slots s (loc_of pre) = match last pre with None => ZSKIPLIST_MAXLEVEL | Some e => it_height e end.
Proof.
  intros HL [k Hk]. unfold level_slots, loc_of.
  destruct pre as [|e pre _] using rev_ind; cbn; [apply HL|].
  rewrite last_snoc. cbn. rewrite <- app_assoc in Hk.
  destruct (repr_lookup L s HL _ _ _ Hk) as (n & -> & _ & _ & _ & Hc). exact Hc.
Qed.

Lemma tall_slots L s pre i :
  sl_repr L s -> pre `prefix_of` L -> tall (sl_level s) pre i -> (i < level_slots s (loc_of pre))%nat.
Proof.
  intros HL Hp Ht. rewrite (level_slots_repr L s) by done. unfold tall in Ht.
  destruct (last pre); [done|]. pose proof (r_level L s HL). lia.
Qed.

(** ** Raising the list level *)

Lemma raise_level_repr L s count :
  sl_repr L s -> (count <= ZSKIPLIST_MAXLEVEL)%nat ->
  sl_repr L (raise_level s count) /\
  sl_level (raise_level s count) = Nat.max (sl_level s) count /\
  sl_heap (raise_level s count) = sl_heap s.
Proof.
  intros HL Hc. unfold raise_level. destruct (Nat.ltb_spec (sl_level s) count) as [Hlt|Hge].
  2: { split; [done|]. split; [lia|done]. }
  set (f := fun s i => set_level Header i _ s). set (ixs := seq _ _).
  assert (Hw : forall i, i ∈ ixs -> writes_level f s i (fun q =>
    if decide (q = Header) then mk_level (forward (level_at s Header i)) (sl_length s) else level_at s q i)).
  { intros i Hi s1 Hs1 Hl1. unfold ixs in Hi. apply elem_of_seq in Hi. unfold f.
    assert (Hsl : (i < level_slots s1 Header)%nat).
    { rewrite (same_shape_slots s s1) by done. unfold level_slots. cbn. rewrite (r_header_len L s HL). lia. }
    split; [etrans; [exact Hs1|apply set_level_shape]|]. split.
    - intros q. rewrite level_at_set_level by done. rewrite !Hl1, (ss_length _ _ Hs1).
      repeat case_decide; naive_solver.
    - intros q j Hj. rewrite level_at_set_level by done. by rewrite decide_False by naive_solver. }
  pose proof (fold_writes f s ixs _ (NoDup_seq _ _) Hw) as [Hs Hl].
  set (s' := fold_left f ixs s) in *.
  assert (Hheap : sl_heap s' = sl_heap s).
  { unfold s'. clear. generalize s. induction ixs as [|i ixs IH]; intros s1; cbn; [done|]. by rewrite IH. }
  assert (Hat : forall q j, level_at (set_sl_level count s') q j = level_at s' q j) by done.
  split; [|split; [cbn; lia|done]].
  destruct HL as [H1 H2 H3 H4 H5 H6 H7 H8 H9 H10].
  split; change (sl_level (set_sl_level count s')) with count;
    change (sl_heap (set_sl_level count s')) with (sl_heap s'); try done.
  - lia.
  - eapply Forall_impl; [exact H3|]. cbn. lia.
  - etrans; [apply (ss_header _ _ Hs)|done].
  - intros i Hi. rewrite Hat, Hl. rewrite decide_False by (intros ?%elem_of_seq; lia). apply H5. lia.
  - by rewrite Hheap.
  - by rewrite Hheap.
  - intros pre suf i HE Ht. rewrite Hat, Hl. destruct (decide (i ∈ ixs)) as [Hi|Hi].
    + unfold ixs in Hi. apply elem_of_seq in Hi. unfold loc_of, tall in *.
      destruct pre as [|e pre _] using rev_ind.
      * cbn [last] in *. rewrite decide_True, H5 by (done || lia). cbn in HE. subst suf. rewrite H10. symmetry. apply nxt_end.
        eapply Forall_impl; [exact H3|]. cbn. lia.
      * rewrite last_snoc in *. rewrite Forall_forall in H3. specialize (H3 e).
        rewrite HE in H3. set_solver by lia.
    + apply H8; [done|]. unfold tall in *. destruct (last pre); [done|].
      unfold ixs in Hi. rewrite elem_of_seq in Hi. lia.
  - etrans; [apply (ss_tail _ _ Hs)|done].
  - etrans; [apply (ss_length _ _ Hs)|done].
Qed.

(** ** Insertion *)

Definition item_of (n : skip_node) : item := mk_item (sn_score n) (sn_member n) (level_count n).

Lemma loc_of_At pre m : loc_of pre = At m -> m ∈ it_member <$> pre.
Proof.
  destruct pre as [|e pre _] using rev_ind; [done|]. rewrite loc_of_snoc. intros [= <-].
  rewrite fmap_app. set_solver.
Qed.

Lemma loc_of_app pre k : k <> [] -> loc_of (pre ++ k) = loc_of k.
Proof.
  destruct k as [|e k _] using rev_ind; [done|]. intros _.
  by rewrite app_assoc, !loc_of_snoc.
Qed.

Lemma tall_app level pre k i : k <> [] -> tall level (pre ++ k) i <-> tall level k i.
Proof.
  destruct k as [|e k _] using rev_ind; [done|]. intros _. by rewrite app_assoc, !tall_snoc.
Qed.

Lemma back_of_app pre k : k <> [] -> back_of (pre ++ k) = back_of k.
Proof.
  destruct k as [|e k _] using rev_ind; [done|]. intros _. by rewrite app_assoc, !back_of_snoc.
Qed.

Lemma in_insert (e x : item) A B : e ∈ A ++ x :: B -> e ∈ A ++ B \/ e = x.
Proof. rewrite !elem_of_app, elem_of_cons. tauto. Qed.

Section Insert.
Context (L : list item) (s : skiplist) (HL : sl_repr L s).
Context (node : skip_node) (A B : list item) (HE : L = A ++ B).
Let x := item_of node.
Let m := sn_member node.
Let count := level_count node.
Context (Hfresh : m ∉ it_member <$> L).
Context (Hcount : (1 <= count <= ZSKIPLIST_MAXLEVEL)%nat).
Context (HA : forall e, e ∈ A -> elem_lt (elem_of_item e) (elem_of_item x)).
Context (HB : forall e, e ∈ B -> elem_lt (elem_of_item x) (elem_of_item e)).

Let l1 := Nat.max (sl_level s) count.
Let s1 := raise_level s count.
Let s2 := set_heap (<[m := node]> (sl_heap s1)) s1.
Let update := descend s (sn_score node) m (sl_level s) Header 0
              ++ replicate (count - sl_level s) (Header, 0).

Lemma insert_update i :
  (i < l1)%nat -> nth i update (Header, 0) = (loc_of (cut i A), zlen (cut i A)).
Proof.
  intros Hi. unfold update.
  replace (descend s (sn_score node) m (sl_level s) Header 0)
    with ((fun i => (loc_of (cut i A), zlen (cut i A))) <$> seq 0 (sl_level s)).
  2: { symmetry. apply (descend_spec L s HL (sn_score node) m A B [] A); try done.
       intros e He Hlt. apply (elem_lt_irrefl (elem_of_item x)). etrans; [by apply HB|done]. }
  rewrite nth_lookup, lookup_app, list_lookup_fmap.
  destruct (decide (i < sl_level s)%nat) as [Hlt|Hge].
  - rewrite lookup_seq_lt by done. done.
  - rewrite lookup_seq_ge by lia. cbn. rewrite length_fmap, length_seq.
    rewrite lookup_replicate_2 by lia. cbn.
    rewrite cut_low; [done|]. pose proof (r_heights L s HL) as Hh. rewrite HE in Hh.
    apply Forall_app in Hh as [Hh _]. eapply Forall_impl; [exact Hh|]. cbn. lia.
Qed.

Lemma insert_heights e : e ∈ L -> (1 <= it_height e <= sl_level s)%nat.
Proof. pose proof (r_heights L s HL) as Hh. rewrite Forall_forall in Hh. apply Hh. Qed.

Lemma cut_0 : cut 0 A = A.
Proof.
  destruct A as [|e A' _] eqn:EA using rev_ind; [done|]. apply cut_high; [done|].
  assert (e ∈ L) as Hin by set_solver. apply insert_heights in Hin. lia.
Qed.

Lemma raised : sl_repr L s1 /\ sl_level s1 = l1 /\ sl_heap s1 = sl_heap s.
Proof. apply raise_level_repr; [exact HL|lia]. Qed.

Lemma cut_prefix i : cut i A `prefix_of` L.
Proof.
  destruct (cut_split (S i) i A) as (k & Hk & _); [lia|].
  exists (k ++ B). rewrite HE, Hk at 1. app_eq.
Qed.

Lemma prefix_not_new pre : pre `prefix_of` L -> loc_of pre <> At m.
Proof.
  intros [k Hk] Hp. apply loc_of_At in Hp. apply Hfresh. rewrite Hk, fmap_app. set_solver.
Qed.

Lemma level_at_s2 q i : q <> At m -> level_at s2 q i = level_at s1 q i.
Proof. destruct q as [|m']; [done|]. intros Hne. unfold level_at. cbn. by rewrite lookup_insert_ne by congruence. Qed.

Lemma slots_s2 q : q <> At m -> level_slots s2 q = level_slots s1 q.
Proof. destruct q as [|m']; [done|]. intros Hne. unfold level_slots. cbn. by rewrite lookup_insert_ne by congruence. Qed.

Lemma slots_s2_new : level_slots s2 (At m) = count.
Proof. unfold level_slots. cbn. by rewrite lookup_insert_eq. Qed.

Lemma cut_slots i : (i < l1)%nat -> (i < level_slots s2 (loc_of (cut i A)))%nat.
Proof.
  intros Hi. destruct raised as (HL1 & Hl & _). rewrite slots_s2 by apply prefix_not_new, cut_prefix.
  apply (tall_slots L s1); [done|apply cut_prefix|].
  rewrite Hl. destruct (cut_split l1 i A) as (k & _ & _ & ?); done.
Qed.

Definition new_link i : skip_level :=
  let lv := level_at s2 (loc_of (cut i A)) i in
  mk_level (forward lv) (span lv - (zlen A - zlen (cut i A))).

Definition link_effect i (q : loc) : skip_level :=
  if decide (q = loc_of (cut i A)) then mk_level (Some m) (zlen A - zlen (cut i A) + 1)
  else if decide (q = At m) then new_link i else level_at s2 q i.

Lemma link_writes i :
  (i < count)%nat -> writes_level (link_level m update (zlen A)) s2 i (link_effect i).
Proof.
  intros Hi t Ht Hlt. unfold link_level. rewrite insert_update by lia.
  pose proof (cut_slots i ltac:(lia)) as Hsl.
  pose proof (prefix_not_new _ (cut_prefix i)) as Hne.
  assert (Hs1' : (i < level_slots t (At m))%nat).
  { rewrite (same_shape_slots s2 t) by done. rewrite slots_s2_new. done. }
  set (t1 := set_level (At m) i _ t).
  assert (Ht1 : same_shape s2 t1) by (etrans; [exact Ht|apply set_level_shape]).
  assert (Hs2' : (i < level_slots t1 (loc_of (cut i A)))%nat) by (by rewrite (same_shape_slots s2 t1)).
  split; [etrans; [exact Ht1|apply set_level_shape]|]. split.
  - intros q. rewrite level_at_set_level by done. unfold t1. rewrite level_at_set_level by done.
    rewrite !Hlt. unfold link_effect. repeat case_decide; naive_solver.
  - intros q j Hj. rewrite level_at_set_level by done. rewrite decide_False by naive_solver.
    unfold t1. rewrite level_at_set_level by done. by rewrite decide_False by naive_solver.
Qed.

Let s3 := fold_left (link_level m update (zlen A)) (seq 0 count) s2.

Lemma linked :
  same_shape s2 s3 /\
  forall q j, level_at s3 q j = if decide (j < count)%nat then link_effect j q else level_at s2 q j.
Proof.
  destruct (fold_writes (link_level m update (zlen A)) s2 (seq 0 count) link_effect) as [Hs Hl].
  - apply NoDup_seq.
  - intros i Hi%elem_of_seq. apply link_writes. lia.
  - split; [exact Hs|]. intros q j. unfold s3. rewrite Hl.
    repeat case_decide; rewrite ?elem_of_seq in *; try done; lia.
Qed.

Definition widen_effect i (q : loc) : skip_level :=
  if decide (q = loc_of (cut i A)) then
    mk_level (forward (level_at s2 q i)) (span (level_at s2 q i) + 1)
  else level_at s2 q i.

Let s4 := fold_left (widen_level update) (seq count (sl_level s3 - count)) s3.

Lemma widened :
  same_shape s2 s4 /\
  forall q j, level_at s4 q j =
    if decide (j < count)%nat then link_effect j q else
    if decide (j < l1)%nat then widen_effect j q else level_at s2 q j.
Proof.
  destruct linked as [Hs3 Hl3]. destruct raised as (_ & Hl & _).
  assert (Hlev : sl_level s3 = l1) by (rewrite (ss_level _ _ Hs3); exact Hl).
  destruct (fold_writes (widen_level update) s3 (seq count (sl_level s3 - count)) widen_effect) as [Hs Hl4].
  - apply NoDup_seq.
  - intros i Hi%elem_of_seq t Ht Hlt. unfold widen_level. rewrite insert_update by lia.
    assert (Hsl : (i < level_slots t (loc_of (cut i A)))%nat).
    { rewrite (same_shape_slots s3 t), (same_shape_slots s2 s3) by done. apply cut_slots. lia. }
    split; [etrans; [exact Ht|apply set_level_shape]|]. split.
    + intros q. rewrite level_at_set_level by done. rewrite !Hlt, !Hl3.
      rewrite !(decide_False (P := (i < count)%nat)) by lia. unfold widen_effect. repeat case_decide; naive_solver.
    + intros q j Hj. rewrite level_at_set_level by done. by rewrite decide_False by naive_solver.
  - split; [etrans; [exact Hs3|exact Hs]|]. intros q j. unfold s4. rewrite Hl4, Hl3, Hlev.
    repeat case_decide; rewrite ?elem_of_seq in *; try done; lia.
Qed.

(** The links of the new state are those of the extended list. *)
Lemma insert_links pre suf i :
  A ++ x :: B = pre ++ suf -> tall l1 pre i -> level_at s4 (loc_of pre) i = nxt suf i.
Proof.
  intros Hsplit Ht. destruct raised as (HL1 & Hl & _). destruct widened as [_ Hw].
  pose proof (repr_members_nodup L s HL) as Hnd.
  assert (Hil : (i < l1)%nat).
  { unfold tall in Ht. destruct (last pre) as [e|] eqn:El; [|done].
    apply last_Some in El as [pre' ->]. assert (Hin : e ∈ A ++ x :: B) by (rewrite Hsplit; set_solver).
    assert (He : e ∈ L \/ e = x) by (rewrite HE; by apply in_insert).
    unfold l1. destruct He as [He| ->]; [apply insert_heights in He; lia|].
    cbn in Ht. fold count in Ht. lia. }
  assert (Hcase : (exists a2, A = pre ++ a2 /\ suf = a2 ++ x :: B) \/
                  exists k, pre = A ++ x :: k /\ B = k ++ suf).
  { apply app_eq_inv in Hsplit as [(k & -> & ->)|([|y k] & -> & Hk)].
    - left. by exists k.
    - left. exists []. cbn in Hk. by rewrite !app_nil_r.
    - right. injection Hk as <- ->. by exists k. }
  rewrite Hw. destruct Hcase as [(a2 & HA2 & ->)|(k & -> & HB2)].
  - (* at or before the place of the new item *)
    assert (Hpre : pre `prefix_of` L) by (exists (a2 ++ B); rewrite HE, HA2; app_eq).
    pose proof (prefix_not_new _ Hpre) as Hne.
    assert (Hold : level_at s2 (loc_of pre) i = nxt (a2 ++ B) i).
    { rewrite level_at_s2 by done. apply (r_link L s1 HL1); [rewrite HE, HA2; app_eq|]. by rewrite Hl. }
    destruct (first_high a2 i) as [Hlow|(b1 & e & b2 & -> & He & Hb1)].
    + assert (Hcut : cut i A = pre) by (rewrite HA2; by apply (cut_unique l1)).
      unfold link_effect, widen_effect. rewrite Hcut, !(decide_True (P := loc_of pre = loc_of pre)) by done.
      case_decide as Hic.
      * rewrite nxt_high by done. f_equal. rewrite HA2, zlen_app. lia.
      * rewrite decide_True by done. rewrite Hold, !nxt_low by done. cbn [nxt].
        rewrite (proj2 (Nat.ltb_ge _ _)) by (cbn; fold count; lia). cbn. f_equal. lia.
    + assert (Hcut : loc_of pre <> loc_of (cut i A)).
      { intros Heq. apply (loc_of_inj L) in Heq; [|done|done|apply cut_prefix].
        destruct (last_high (b1 ++ e :: b2) i) as [Hf|(c1 & e' & c2 & Hc & He' & Hc2)].
        { apply Forall_app in Hf as [_ Hf]. inversion Hf; subst. lia. }
        rewrite HA2, Hc, app_assoc, cut_high in Heq by done.
        rewrite <- app_assoc in Heq. rewrite <- (app_nil_r pre) in Heq at 1.
        apply app_inv_head in Heq. by destruct c1. }
      unfold link_effect, widen_effect. rewrite !(decide_False (P := loc_of pre = _)) by done.
      replace (nxt ((b1 ++ e :: b2) ++ x :: B) i) with (nxt ((b1 ++ e :: b2) ++ B) i).
      { rewrite Hold. by repeat case_decide. }
      rewrite <- !app_assoc. cbn [app]. by rewrite !nxt_high.
  - (* the new item, or after it *)
    destruct (decide (k = [])) as [->|Hk].
    + cbn in HB2. subst suf. rewrite loc_of_snoc. apply tall_snoc in Ht. cbn in Ht. fold count in Ht.
      change (it_member x) with m. rewrite decide_True by done. unfold link_effect.
      pose proof (prefix_not_new _ (cut_prefix i)) as Hne.
      rewrite decide_False, decide_True by congruence. unfold new_link.
      destruct (cut_split l1 i A) as (k & Hk & Hkl & Hkt); [done|].
      rewrite level_at_s2 by done.
      rewrite (r_link L s1 HL1 (cut i A) (k ++ B)); [|rewrite HE, Hk at 1; app_eq|by rewrite Hl].
      rewrite nxt_low by done. cbn. destruct (nxt B i) as [f sp]. cbn. f_equal.
      rewrite Hk at 1. rewrite zlen_app. lia.
    + assert (Hloc : loc_of (A ++ x :: k) = loc_of (A ++ k)).
      { change (x :: k) with ([x] ++ k). by rewrite app_assoc, !loc_of_app. }
      assert (Ht' : tall l1 (A ++ k) i).
      { change (x :: k) with ([x] ++ k) in Ht. rewrite app_assoc, tall_app in Ht by done. by apply tall_app. }
      assert (Hpre : (A ++ k) `prefix_of` L) by (exists suf; rewrite HE, HB2; app_eq).
      pose proof (prefix_not_new _ Hpre) as Hne.
      rewrite Hloc. assert (Hcut : loc_of (A ++ k) <> loc_of (cut i A)).
      { intros Heq. apply (loc_of_inj L) in Heq; [|done|done|apply cut_prefix].
        destruct (cut_split l1 i A) as (c & Hc & _); [done|].
        apply (f_equal length) in Heq. apply (f_equal length) in Hc. rewrite length_app in *.
        destruct k; [done|]. cbn in *. lia. }
      unfold link_effect, widen_effect. rewrite !(decide_False (P := loc_of (A ++ k) = _)) by done.
      assert (Hold : level_at s2 (loc_of (A ++ k)) i = nxt suf i).
      { rewrite level_at_s2 by done. apply (r_link L s1 HL1); [rewrite HE, HB2; app_eq|]. by rewrite Hl. }
      rewrite Hold. by repeat case_decide.
Qed.

(** The item that follows the new one. *)
Lemma forward_nxt_0 : forward (nxt B 0) = it_member <$> head B.
Proof.
  destruct B as [|e B'] eqn:EB; [done|]. assert (He : e ∈ L) by set_solver.
  apply insert_heights in He. cbn [nxt]. rewrite (proj2 (Nat.ltb_lt _ _)) by lia. done.
Qed.

Definition relink (m' : list Z) (n : skip_node) : skip_node :=
  if decide (m' = m) then set_backward (back_of A) n
  else if decide (Some m' = it_member <$> head B) then set_backward (Some m) n else n.

(** The state the function returns, in terms of the linked state. *)
Lemma insert_result :
  let r := skiplist_insert_node s node in
  (forall q j, level_at r q j = level_at s4 q j) /\
  (forall m', sl_heap r !! m' = relink m' <$> sl_heap s4 !! m') /\
  sl_header r = sl_header s4 /\ sl_level r = sl_level s4 /\
  sl_length r = sl_length s4 + 1 /\
  sl_tail r = (if decide (B = []) then Some m else sl_tail s4).
Proof.
  cbn zeta. unfold skiplist_insert_node. fold m count. fold update. fold s1. fold s2.
  rewrite insert_update by (unfold l1; lia). rewrite cut_0. cbn [snd fst]. fold s3. fold s4.
  replace (match loc_of A with Header => None | At u => Some u end) with (back_of A)
    by (unfold loc_of, back_of; by destruct (last A)).
  assert (Hlv : forall b k t q j, level_at (set_heap (alter (set_backward b) k (sl_heap t)) t) q j = level_at t q j).
  { intros b k t q j. unfold level_at. destruct q as [|m']; [done|]. cbn.
    destruct (decide (k = m')) as [->|]; [|by rewrite lookup_alter_ne].
    rewrite lookup_alter_eq. by destruct (sl_heap t !! m'). }
  set (s5 := set_heap (alter (set_backward (back_of A)) m (sl_heap s4)) s4).
  assert (Hf : forward (level_at s5 (At m) 0) = it_member <$> head B).
  { unfold s5. rewrite Hlv. rewrite <- forward_nxt_0. rewrite <- (insert_links (A ++ [x]) B 0).
    - by rewrite loc_of_snoc.
    - app_eq.
    - apply tall_snoc. cbn. fold count. lia. }
  rewrite Hf. unfold relink. destruct B as [|b B'] eqn:EB; cbn [head fmap option_fmap option_map].
  - split; [intros; apply Hlv|]. split; [|done]. intros m'. cbn.
    destruct (decide (m' = m)) as [->|Hne].
    + by rewrite lookup_alter_eq.
    + rewrite lookup_alter_ne by done. by destruct (sl_heap s4 !! m').
  - assert (Hbm : it_member b <> m).
    { intros Hb. apply Hfresh. rewrite HE, fmap_app, fmap_cons. set_solver. }
    split. { intros q j. etrans; [apply (Hlv (Some m) (it_member b) s5)|]. apply Hlv. }
    split; [|done]. intros m'. unfold s5. cbn [sl_heap set_heap set_length].
    destruct (decide (m' = m)) as [->|Hne].
    + rewrite lookup_alter_ne, lookup_alter_eq by done. done.
    + destruct (decide (m' = it_member b)) as [->|Hnb].
      * rewrite lookup_alter_eq, lookup_alter_ne by done. by repeat case_decide.
      * rewrite !lookup_alter_ne by done. repeat case_decide; try congruence. by destruct (sl_heap s4 !! m').
Qed.

Lemma info_s4 m' :
  (info <$> sl_heap s4 !! m') =
  (if decide (m' = m) then Some (info node) else info <$> sl_heap s !! m').
Proof.
  destruct widened as [Hw _]. destruct raised as (_ & _ & Hh). rewrite (ss_info _ _ Hw).
  unfold s2. cbn. rewrite Hh. case_decide as Hd; [subst; by rewrite lookup_insert_eq|].
  by rewrite lookup_insert_ne by done.
Qed.

Lemma relink_info m' n : sn_score (relink m' n) = sn_score n /\
  sn_member (relink m' n) = sn_member n /\ level_count (relink m' n) = level_count n.
Proof. unfold relink. repeat case_decide; done. Qed.

Lemma insert_node_info pre e suf n :
  A ++ x :: B = pre ++ e :: suf -> sl_heap (skiplist_insert_node s node) !! it_member e = Some n ->
  sn_score n = it_score e /\ sn_member n = it_member e /\
  sn_backward n = back_of pre /\ level_count n = it_height e.
Proof.
  intros Hsplit Hn. destruct insert_result as (_ & Hheap & _).
  rewrite Hheap in Hn. pose proof (info_s4 (it_member e)) as Hi.
  destruct (sl_heap s4 !! it_member e) as [n4|]; [|done]. cbn in Hn. injection Hn as <-.
  destruct (relink_info (it_member e) n4) as (-> & -> & ->). cbn in Hi.
  pose proof (repr_members_nodup L s HL) as Hnd.
  assert (Hold : forall pre' suf', L = pre' ++ e :: suf' ->
    sn_score n4 = it_score e /\ sn_member n4 = it_member e /\
    sn_backward n4 = back_of pre' /\ level_count n4 = it_height e).
  { intros pre' suf' HE'. rewrite decide_False in Hi.
    - destruct (repr_lookup L s HL _ _ _ HE') as (n & Hn & ? & ? & ? & ?). rewrite Hn in Hi.
      cbn in Hi. injection Hi as -> -> -> ->. done.
    - intros Hm. apply Hfresh. rewrite HE', fmap_app, fmap_cons. set_solver. }
  assert (Hkeep : it_member e <> m -> Some (it_member e) <> it_member <$> head B ->
            sn_backward (relink (it_member e) n4) = sn_backward n4).
  { intros ? ?. unfold relink. by rewrite !decide_False. }
  assert (Hfr : forall e', e' ∈ L -> it_member e' <> m).
  { intros e' He' Hm. apply Hfresh. rewrite <- Hm. apply list_elem_of_fmap. eauto. }
  apply app_eq_inv in Hsplit as [([|y k] & HA' & Hk)|([|y k] & -> & Hk)].
  - cbn in Hk. injection Hk as -> ->. rewrite app_nil_r in HA'. subst pre.
    change (it_member x) with m in *. rewrite decide_True in Hi by done.
    unfold relink. rewrite decide_True by done. injection Hi as -> -> _ ->. done.
  - injection Hk as <- ->. destruct (Hold pre (k ++ B)) as (? & ? & Hb & ?); [rewrite HE, HA'; app_eq|].
    split_and!; [done|done| |done]. rewrite <- Hb. apply Hkeep; [apply Hfr; rewrite HE, HA'; set_solver|].
    intros Heq. destruct B as [|b B'] eqn:EB; [done|]. cbn in Heq. injection Heq as Heq.
    rewrite HE, HA', !fmap_app, !fmap_cons in Hnd. apply NoDup_app in Hnd as (_ & Hd & _).
    apply (Hd (it_member e)).
    + apply elem_of_app. right. apply elem_of_cons. by left.
    + rewrite Heq. apply elem_of_cons. by left.
  - rewrite app_nil_r. cbn in Hk. injection Hk as <- <-. change (it_member x) with m in *.
    rewrite decide_True in Hi by done. unfold relink. rewrite decide_True by done.
    injection Hi as -> -> _ ->. done.
  - injection Hk as <- HB'. destruct (Hold (A ++ k) suf) as (? & ? & Hb & ?); [rewrite HE, HB'; app_eq|].
    split_and!; [done|done| |done].
    assert (He : it_member e <> m) by (apply Hfr; rewrite HE, HB'; set_solver).
    destruct k as [|b k].
    + unfold relink. rewrite decide_False by done. rewrite HB'. cbn. rewrite decide_True by done.
      cbn. by rewrite back_of_snoc.
    + rewrite Hkeep; [rewrite Hb|done|].
      * change (x :: b :: k) with ([x] ++ b :: k). by rewrite app_assoc, !back_of_app.
      * rewrite HB'. cbn. intros [= Heq]. rewrite HE, HB', fmap_app in Hnd.
        apply NoDup_app in Hnd as (_ & _ & Hnd). cbn [app] in Hnd. rewrite fmap_cons in Hnd.
        apply NoDup_cons in Hnd as [Hnd _]. apply Hnd. rewrite <- Heq.
        rewrite fmap_app, fmap_cons. set_solver.
Qed.

Lemma insert_repr : sl_repr (A ++ x :: B) (skiplist_insert_node s node).
Proof.
  destruct insert_result as (Hlv & Hheap & Hhd & Hlev & Hlen & Htail).
  destruct widened as [Hw Hwl]. destruct raised as (HL1 & Hl1 & Hh1).
  assert (Hl4 : sl_level s4 = l1) by (rewrite (ss_level _ _ Hw); exact Hl1).
  pose proof (r_sorted L s HL) as Hso. rewrite HE in Hso.
  split.
  - rewrite fmap_app, fmap_cons. rewrite fmap_app in Hso.
    apply zsorted_app_insert;
      [done| |intros y (e & -> & He)%list_elem_of_fmap; by apply HA
             |intros y (e & -> & He)%list_elem_of_fmap; by apply HB].
    rewrite <- fmap_app, <- HE, <- list_fmap_compose. exact Hfresh.
  - rewrite Hlev, Hl4. pose proof (r_level L s HL). unfold l1. lia.
  - rewrite Hlev, Hl4. apply Forall_forall. intros e He.
    assert (He' : e ∈ L \/ e = x) by (rewrite HE; by apply in_insert).
    destruct He' as [He'| ->]; [apply insert_heights in He'; unfold l1; lia|]. cbn. fold count. unfold l1. lia.
  - rewrite Hhd, (ss_header _ _ Hw). apply HL1.
  - rewrite Hlev, Hl4. intros i Hi. rewrite Hlv, Hwl. rewrite !decide_False by (unfold l1 in *; lia).
    rewrite level_at_s2 by done. apply HL1. rewrite Hl1. done.
  - intros m'. rewrite Hheap, fmap_is_Some. rewrite <- (fmap_is_Some info), info_s4.
    destruct (decide (m' = m)) as [Hd|Hd].
    + rewrite Hd. split; [|intros _; by eexists]. intros _. rewrite fmap_app, fmap_cons.
      apply elem_of_app. right. apply elem_of_cons. by left.
    + rewrite fmap_is_Some, (r_dom L s HL), HE, !fmap_app, fmap_cons.
      rewrite !elem_of_app, elem_of_cons. change (it_member x) with m. naive_solver.
  - apply insert_node_info.
  - rewrite Hlev, Hl4. intros pre suf i Hs Ht. rewrite Hlv. by apply insert_links.
  - rewrite Htail, (ss_tail _ _ Hw). case_decide as Hd.
    + rewrite Hd, back_of_snoc. done.
    + change (sl_tail s2) with (sl_tail s1). rewrite (r_tail L s1 HL1), HE.
      change (x :: B) with ([x] ++ B). by rewrite app_assoc, !back_of_app.
  - rewrite Hlen, (ss_length _ _ Hw). change (sl_length s2) with (sl_length s1).
    rewrite (r_length L s1 HL1), HE. autorewrite with zlen. lia.
Qed.

End Insert.

(** ** Access by rank *)

Section ByRank.
Context (L : list item) (s : skiplist) (HL : sl_repr L s).

Lemma walk_rank_spec fuel wanted i pre mid B :
  L = pre ++ mid ++ B -> tall (sl_level s) pre i -> (length mid < fuel)%nat ->
  zlen (pre ++ mid) <= wanted -> (B <> [] -> zlen (pre ++ mid) = wanted) ->
  walk_rank fuel s wanted i (loc_of pre) (zlen pre)
  = (loc_of (cut i (pre ++ mid)), zlen (cut i (pre ++ mid))).
Proof.
  revert pre mid. induction fuel as [|fuel IH]; intros pre mid HE Ht Hf Hw HB; [lia|].
  cbn [walk_rank]. rewrite (r_link L s HL pre (mid ++ B) i HE Ht).
  destruct (first_high mid i) as [Hm|(m1 & e & m2 & -> & He & Hm1)].
  - rewrite (cut_unique (sl_level s)) by done. rewrite nxt_low by done. cbn [forward span].
    destruct (first_high B i) as [HBl|(b1 & e & b2 & -> & He & Hb1)].
    { by rewrite nxt_end. }
    rewrite nxt_high by done. cbn [forward span].
    assert (zlen (pre ++ mid) = wanted) as Heq by (apply HB; by destruct b1).
    rewrite zlen_app in Heq. pose proof (zlen_nonneg b1).
    destruct (Z.leb_spec (zlen pre + (zlen mid + (zlen b1 + 1))) wanted); [lia|done].
  - rewrite <- app_assoc. cbn [app]. rewrite nxt_high by done. cbn [forward span].
    pose proof (zlen_nonneg m2). autorewrite with zlen in Hw.
    destruct (Z.leb_spec (zlen pre + (zlen m1 + 1)) wanted); [|lia].
    replace (pre ++ m1 ++ e :: m2) with ((pre ++ m1 ++ [e]) ++ m2) in * by app_eq.
    rewrite <- (IH (pre ++ m1 ++ [e]) m2).
    + f_equal; [rewrite app_assoc; by rewrite loc_of_snoc|]. autorewrite with zlen. lia.
    + rewrite HE. app_eq.
    + rewrite app_assoc. by apply tall_snoc.
    + rewrite length_app in Hf. cbn in Hf. lia.
    + autorewrite with zlen. lia.
    + exact HB.
Qed.

Lemma by_rank_loop_spec wanted A B pre mid k :
  L = A ++ B -> A = pre ++ mid -> 0 < wanted ->
  zlen A <= wanted -> (B <> [] -> zlen A = wanted) ->
  (k <= sl_level s)%nat -> (forall i, (i < k)%nat -> tall (sl_level s) pre i) ->
  (zlen pre < wanted \/ (0 < k)%nat) ->
  by_rank_loop s wanted k (loc_of pre) (zlen pre)
  = if decide (zlen A = wanted /\ (0 < k)%nat) then Some (loc_of A) else None.
Proof.
  intros HE -> Hpos Hw HB. revert pre mid HE Hw HB.
  induction k as [|k IH]; intros pre mid HE Hw HB Hk Ht Hlt; cbn [by_rank_loop].
  { by rewrite decide_False by lia. }
  rewrite <- app_assoc in HE.
  rewrite (walk_rank_spec _ wanted k pre mid B);
    [|done|apply Ht; lia|by apply (fuel_enough L s HL pre _ B)|done..].
  destruct (cut_split (sl_level s) k (pre ++ mid)) as (m & Hm & Hml & Htall); [lia|].
  set (c := cut k (pre ++ mid)) in *.
  assert (Hlen : zlen (pre ++ mid) = zlen c + zlen m) by (rewrite Hm; apply zlen_app).
  pose proof (zlen_nonneg m).
  destruct (Z.eqb_spec (zlen c) wanted) as [Hc|Hc].
  - rewrite decide_True by lia. f_equal. rewrite Hm.
    assert (m = []) as -> by (destruct m; [done|]; rewrite zlen_cons in *; pose proof (zlen_nonneg m); lia).
    by rewrite app_nil_r.
  - destruct k as [|k].
    + (* at level 0 the cut is the whole prefix *)
      cbn [by_rank_loop]. rewrite decide_False; [done|]. intros [Hd _].
      assert (Hm0 : m = []).
      { destruct m as [|e m]; [done|]. apply Forall_cons in Hml as [Hle _].
        pose proof (r_heights L s HL) as Hh. rewrite HE, app_assoc, Hm in Hh.
        rewrite Forall_forall in Hh. specialize (Hh e ltac:(set_solver)). cbn in Hh. lia. }
      subst m. rewrite zlen_nil in Hlen. lia.
    + rewrite (IH c m).
      * rewrite <- Hm. repeat case_decide; try done; lia.
      * rewrite <- Hm, <- app_assoc. done.
      * by rewrite <- Hm.
      * by rewrite <- Hm.
      * lia.
      * intros i Hi. apply (tall_weaken _ _ (S k)); [lia|done].
      * lia.
Qed.

Lemma by_rank_spec rank :
  0 <= rank -> skiplist_by_rank s rank = it_member <$> L !! Z.to_nat rank.
Proof.
  intros Hr. unfold skiplist_by_rank.
  pose proof (r_level L s HL) as [Hl1 _].
  set (w := S (Z.to_nat rank)).
  change (by_rank_loop s (rank + 1) (sl_level s) Header 0)
    with (by_rank_loop s (rank + 1) (sl_level s) (loc_of []) (zlen (@nil item))).
  rewrite (by_rank_loop_spec (rank + 1) (take w L) (drop w L) [] (take w L) (sl_level s)).
  - destruct (L !! Z.to_nat rank) as [e|] eqn:Ee.
    + rewrite decide_True.
      * unfold w. rewrite (take_S_r _ _ e Ee), loc_of_snoc. done.
      * apply lookup_lt_Some in Ee. unfold zlen, w. rewrite length_take. lia.
    + apply lookup_ge_None in Ee. rewrite decide_False; [done|].
      unfold zlen, w. rewrite length_take. lia.
  - by rewrite take_drop.
  - done.
  - lia.
  - unfold zlen, w. rewrite length_take. lia.
  - intros Hd. unfold zlen, w. rewrite length_take.
    assert (~ (length L <= w)%nat) by (intros ?; apply Hd; by apply drop_ge). unfold w in *. lia.
  - lia.
  - intros i Hi. unfold tall. cbn. lia.
  - right. lia.
Qed.

(** Scanning forward from an item visits the items after it. *)
Lemma scan_spec fuel pre suf :
  L = pre ++ suf ->
  skiplist_scan fuel s (it_member <$> head suf) = take fuel (elem_of_item <$> suf).
Proof.
  revert pre suf. induction fuel as [|fuel IH]; intros pre suf HE; [by destruct (_ <$> _)|].
  destruct suf as [|e suf]; [done|]. cbn [head fmap option_fmap option_map skiplist_scan].
  destruct (repr_lookup L s HL _ _ _ HE) as (n & -> & -> & -> & _ & _).
  rewrite fmap_cons. cbn [take]. f_equal.
  assert (HE' : L = (pre ++ [e]) ++ suf) by (rewrite HE; app_eq).
  rewrite <- (IH (pre ++ [e]) suf HE'). f_equal.
  rewrite <- (loc_of_snoc pre e).
  pose proof (r_heights L s HL) as Hh. rewrite Forall_forall in Hh.
  rewrite (r_link L s HL _ suf 0 HE').
  - destruct suf as [|e' suf']; [done|]. cbn [nxt].
    specialize (Hh e' ltac:(rewrite HE; set_solver)). by rewrite (proj2 (Nat.ltb_lt _ _)) by lia.
  - apply tall_snoc. specialize (Hh e ltac:(rewrite HE; set_solver)). lia.
Qed.

End ByRank.

(** ** Removal *)

Lemma nxt_None l i : forward (nxt l i) = None -> Forall (fun e => (it_height e <= i)%nat) l.
Proof.
  destruct (first_high l i) as [?|(l1 & e & l2 & -> & He & Hl)]; [done|].
  by rewrite nxt_high.
Qed.

Lemma lower_level_S s l :
  lower_level s (S (S l)) =
  match forward (level_at s Header (S l)) with None => lower_level s (S l) | Some _ => S (S l) end.
Proof. reflexivity. Qed.

Lemma lower_level_ext s t l :
  (forall i, level_at t Header i = level_at s Header i) -> lower_level t l = lower_level s l.
Proof.
  intros Hh. induction l as [|[|l] IH]; [done|done|]. by rewrite !lower_level_S, Hh, IH.
Qed.

Lemma lower_level_spec s l :
  (1 <= l)%nat ->
  (1 <= lower_level s l <= l)%nat /\
  forall i, (lower_level s l <= i < l)%nat -> forward (level_at s Header i) = None.
Proof.
  intros Hl. induction l as [|l IH]; [lia|].
  destruct l as [|l]; [split; [cbn; lia|cbn; intros; lia]|]. rewrite lower_level_S.
  destruct (forward (level_at s Header (S l))) eqn:Ef.
  - split; [lia|]. intros i Hi. lia.
  - destruct IH as [Hb IH]; [lia|]. split; [lia|]. intros i Hi.
    destruct (decide (i = S l)) as [->|]; [done|]. apply IH. lia.
Qed.

Section Detach.
Context (L : list item) (s : skiplist) (HL : sl_repr L s).
Context (A B : list item) (x : item) (HE : L = A ++ x :: B).
Let m := it_member x.
Let update := descend s (it_score x) (it_member x) (sl_level s) Header 0.

Lemma detach_nodup : NoDup (it_member <$> A ++ B) /\ m ∉ it_member <$> A ++ B.
Proof.
  pose proof (repr_members_nodup L s HL) as Hnd. rewrite HE, fmap_app, fmap_cons in Hnd.
  apply NoDup_app in Hnd as (HA & Hd & HB). apply NoDup_cons in HB as [Hm HB].
  rewrite fmap_app. split.
  - apply NoDup_app. split; [done|]. split; [|done]. intros y Hy ?. apply (Hd y Hy).
    apply elem_of_cons. by right.
  - intros [Hy|?]%elem_of_app; [|by apply Hm]. apply (Hd m Hy). apply elem_of_cons. by left.
Qed.

Lemma detach_update i :
  (i < sl_level s)%nat -> nth i update (Header, 0) = (loc_of (cut i A), zlen (cut i A)).
Proof.
  intros Hi. unfold update.
  destruct (r_sorted L s HL) as [Hso _]. rewrite HE, fmap_app, fmap_cons in Hso.
  apply StronglySorted_app_iff in Hso as (_ & Hs2 & Hx). apply StronglySorted_inv in Hs2 as [_ Hf].
  change Header with (loc_of []) at 1. change 0 with (zlen (@nil item)) at 1.
  rewrite (descend_spec L s HL (it_score x) (it_member x) A (x :: B) [] A); try done.
  - rewrite nth_lookup, list_lookup_fmap, lookup_seq_lt by done. done.
  - intros e He. apply (Hx (elem_of_item e) (elem_of_item x)).
    + apply list_elem_of_fmap. eauto.
    + apply elem_of_cons. by left.
  - intros e [->|He]%elem_of_cons.
    + apply (elem_lt_irrefl (elem_of_item x)).
    + intros Hlt. apply (elem_lt_irrefl (elem_of_item x)). etrans; [|exact Hlt].
      rewrite Forall_forall in Hf. apply Hf. apply list_elem_of_fmap. eauto.
Qed.

Lemma detach_cut_prefix i : cut i A `prefix_of` L.
Proof.
  destruct (cut_split (S i) i A) as (k & Hk & _); [lia|].
  exists (k ++ x :: B). rewrite HE, Hk at 1. app_eq.
Qed.

Lemma detach_not_target pre : pre `prefix_of` A -> loc_of pre <> At m.
Proof.
  intros [k Hk] Hp. apply loc_of_At in Hp. destruct detach_nodup as [_ Hm]. apply Hm.
  rewrite Hk, !fmap_app, !elem_of_app. auto.
Qed.

Lemma detach_cut_prefix_A i : cut i A `prefix_of` A.
Proof. destruct (cut_split (S i) i A) as (k & Hk & _); [lia|]. by exists k. Qed.

Definition unlink_effect i (q : loc) : skip_level :=
  if decide (q = loc_of (cut i A)) then
    let lv := level_at s q i in
    if decide (forward lv = Some m)
    then mk_level (forward (level_at s (At m) i)) (span lv + (span (level_at s (At m) i) - 1))
    else mk_level (forward lv) (span lv - 1)
  else level_at s q i.

Let s1 := fold_left (unlink_level m update) (seq 0 (sl_level s)) s.

Lemma unlinked :
  same_shape s s1 /\
  forall q j, level_at s1 q j = if decide (j < sl_level s)%nat then unlink_effect j q else level_at s q j.
Proof.
  destruct (fold_writes (unlink_level m update) s (seq 0 (sl_level s)) unlink_effect) as [Hs Hl].
  - apply NoDup_seq.
  - intros i Hi%elem_of_seq t Ht Hlt. unfold unlink_level. rewrite detach_update by lia.
    assert (Hsl : (i < level_slots t (loc_of (cut i A)))%nat).
    { rewrite (same_shape_slots s t) by done.
      apply (tall_slots L s); [done|apply detach_cut_prefix|].
      destruct (cut_split (sl_level s) i A) as (k & _ & _ & ?); [lia|done]. }
    set (t' := if decide _ then _ else _).
    assert (Ht' : exists lv, t' = set_level (loc_of (cut i A)) i lv t /\
              lv = unlink_effect i (loc_of (cut i A))).
    { unfold t', unlink_effect. rewrite !Hlt. rewrite (decide_True (P := loc_of _ = loc_of _)) by done.
      case_decide; eauto. }
    destruct Ht' as (lv & -> & ->).
    split; [etrans; [exact Ht|apply set_level_shape]|]. split.
    + intros q. rewrite level_at_set_level by done. rewrite Hlt.
      case_decide as Hd; [by destruct Hd as [-> _]|]. unfold unlink_effect. rewrite decide_False by naive_solver. done.
    + intros q j Hj. rewrite level_at_set_level by done. by rewrite decide_False by naive_solver.
  - split; [exact Hs|]. intros q j. unfold s1. rewrite Hl.
    repeat case_decide; rewrite ?elem_of_seq in *; try done; lia.
Qed.

Lemma detach_heights e : e ∈ L -> (1 <= it_height e <= sl_level s)%nat.
Proof. pose proof (r_heights L s HL) as Hh. rewrite Forall_forall in Hh. apply Hh. Qed.

Lemma detach_links pre suf i :
  A ++ B = pre ++ suf -> tall (sl_level s) pre i -> level_at s1 (loc_of pre) i = nxt suf i.
Proof.
  intros Hsplit Ht. destruct unlinked as [_ Hw].
  pose proof (repr_members_nodup L s HL) as Hnd.
  assert (Hil : (i < sl_level s)%nat).
  { unfold tall in Ht. destruct (last pre) as [e|] eqn:El; [|done].
    apply last_Some in El as [pre' ->]. assert (Hin : e ∈ L).
    { assert (e ∈ A ++ B) as Hin by (rewrite Hsplit, !elem_of_app; left; right; by apply list_elem_of_singleton).
      rewrite HE, elem_of_app, elem_of_cons. apply elem_of_app in Hin. tauto. }
    apply detach_heights in Hin. lia. }
  assert (Hcase : (exists a2, A = pre ++ a2 /\ suf = a2 ++ B) \/
                  exists k, k <> [] /\ pre = A ++ k /\ B = k ++ suf).
  { apply app_eq_inv in Hsplit as [(k & -> & ->)|([|y k] & -> & Hk)].
    - left. by exists k.
    - left. exists []. cbn in Hk. by rewrite !app_nil_r.
    - right. by exists (y :: k). }
  rewrite Hw, decide_True by done. destruct Hcase as [(a2 & HA2 & ->)|(k & Hk & -> & HB2)].
  - assert (Hpre : pre `prefix_of` L) by (exists (a2 ++ x :: B); rewrite HE, HA2; app_eq).
    assert (Hold : level_at s (loc_of pre) i = nxt (a2 ++ x :: B) i).
    { apply (r_link L s HL); [rewrite HE, HA2; app_eq|done]. }
    destruct (first_high a2 i) as [Hlow|(b1 & e & b2 & -> & He & Hb1)].
    + assert (Hcut : cut i A = pre) by (rewrite HA2; by apply (cut_unique (sl_level s))).
      unfold unlink_effect. rewrite Hcut, (decide_True (P := loc_of pre = loc_of pre)) by done.
      rewrite Hold. rewrite (nxt_low a2 B) by done.
      destruct (decide (i < it_height x)%nat) as [Hx|Hx].
      * rewrite (nxt_high a2 x B) by done. cbn [forward span]. rewrite decide_True by done.
        change (At m) with (At (it_member x)). rewrite <- (loc_of_snoc A x). rewrite (r_link L s HL (A ++ [x]) B i).
        -- f_equal. lia.
        -- rewrite HE. app_eq.
        -- by apply tall_snoc.
      * rewrite (nxt_low a2 (x :: B)) by done. cbn [nxt]. rewrite (proj2 (Nat.ltb_ge _ _)) by lia.
        cbn [forward span]. rewrite decide_False; [f_equal; lia|].
        destruct (first_high B i) as [HBl|(c1 & e & c2 & HB & He & Hc1)].
        { rewrite nxt_end by done. done. }
        rewrite HB, nxt_high by done. cbn. intros [= Hem].
        destruct detach_nodup as [_ Hm]. apply Hm. change (it_member x ∈ it_member <$> A ++ B). unfold m in Hem. rewrite <- Hem.
        apply list_elem_of_fmap. exists e. split; [done|]. rewrite HB, !elem_of_app, elem_of_cons. tauto.
    + assert (Hcut : loc_of pre <> loc_of (cut i A)).
      { intros Heq. apply (loc_of_inj L) in Heq; [|done|done|apply detach_cut_prefix].
        destruct (last_high (b1 ++ e :: b2) i) as [Hf|(c1 & e' & c2 & Hc & He' & Hc2)].
        { apply Forall_app in Hf as [_ [Hf _]%Forall_cons]. lia. }
        rewrite HA2, Hc, app_assoc, cut_high in Heq by done.
        rewrite <- app_assoc in Heq. rewrite <- (app_nil_r pre) in Heq at 1.
        apply app_inv_head in Heq. by destruct c1. }
      unfold unlink_effect. rewrite decide_False by done. rewrite Hold.
      rewrite <- !app_assoc. cbn [app]. by rewrite !nxt_high.
  - assert (Hloc : loc_of (A ++ k) = loc_of (A ++ x :: k)).
    { change (x :: k) with ([x] ++ k). by rewrite app_assoc, !loc_of_app. }
    assert (Hold : level_at s (loc_of (A ++ k)) i = nxt suf i).
    { rewrite Hloc. apply (r_link L s HL); [rewrite HE, HB2; app_eq|].
      change (x :: k) with ([x] ++ k). rewrite app_assoc, tall_app by done. by rewrite tall_app in Ht. }
    unfold unlink_effect. rewrite decide_False; [done|].
    rewrite Hloc. intros Heq.
    apply (loc_of_inj L) in Heq; [|done|exists suf; rewrite HE, HB2; app_eq|apply detach_cut_prefix].
    destruct (detach_cut_prefix_A i) as [c Hc].
    apply (f_equal length) in Heq. apply (f_equal length) in Hc. rewrite length_app in *. cbn in *. lia.
Qed.

Lemma detach_forward : forward (level_at s1 (At m) 0) = it_member <$> head B.
Proof.
  destruct unlinked as [_ Hw]. rewrite Hw. pose proof (r_level L s HL) as [Hl1 _].
  rewrite decide_True by lia. unfold unlink_effect.
  rewrite decide_False by (intros Heq; by apply (detach_not_target _ (detach_cut_prefix_A 0))).
  assert (Hx : x ∈ L) by (rewrite HE, elem_of_app, elem_of_cons; auto). apply detach_heights in Hx.
  change (At m) with (At (it_member x)). rewrite <- (loc_of_snoc A x).
  rewrite (r_link L s HL (A ++ [x]) B 0); [|rewrite HE; app_eq|apply tall_snoc; lia].
  destruct B as [|e B'] eqn:EB; [done|]. cbn [nxt].
  assert (He : e ∈ L) by (rewrite HE, elem_of_app, !elem_of_cons; auto). apply detach_heights in He.
  by rewrite (proj2 (Nat.ltb_lt _ _)) by lia.
Qed.

Definition unlink_back (m' : list Z) (n : skip_node) : skip_node :=
  if decide (Some m' = it_member <$> head B) then set_backward (back_of A) n else n.

Lemma detach_result :
  let '(n, r) := skiplist_detach_node s m in
  (exists n', n = Some n' /\ item_of n' = x) /\
  (forall q j, q <> At m -> level_at r q j = level_at s1 q j) /\
  (forall m', sl_heap r !! m' = if decide (m' = m) then None else unlink_back m' <$> sl_heap s1 !! m') /\
  sl_header r = sl_header s1 /\ sl_level r = lower_level s1 (sl_level s) /\
  sl_length r = sl_length s - 1 /\
  sl_tail r = if decide (B = []) then back_of A else sl_tail s1.
Proof.
  destruct unlinked as [Hsh _].
  unfold skiplist_detach_node.
  destruct (repr_lookup L s HL _ _ _ HE) as (t & Ht & Hts & Htm & Htb & Htc).
  fold m in Ht, Htm. rewrite Ht, Hts, Htm.
  change (descend s (it_score x) m (sl_level s) Header 0) with update. fold s1.
  rewrite detach_forward, Htb.
  assert (Hinfo : info <$> sl_heap s1 !! m = Some (it_score x, m, back_of A, it_height x)).
  { rewrite (ss_info _ _ Hsh), Ht. cbn. unfold info. by rewrite Hts, Htm, Htb, Htc. }
  destruct (sl_heap s1 !! m) as [t1|] eqn:Et1; [|done]. cbn in Hinfo. injection Hinfo as Hi1 Hi2 Hi3 Hi4.
  assert (Hitem : item_of t1 = x) by (unfold item_of; rewrite Hi1, Hi2, Hi4; by destruct x).
  assert (Hlv : forall b k t q j, level_at (set_heap (alter (set_backward b) k (sl_heap t)) t) q j = level_at t q j).
  { intros b k t0 q j. unfold level_at. destruct q as [|m']; [done|]. cbn.
    destruct (decide (k = m')) as [->|]; [|by rewrite lookup_alter_ne].
    rewrite lookup_alter_eq. by destruct (sl_heap t0 !! m'). }
  assert (Hdel : forall l h t q j, q <> At m ->
    level_at (mk_skiplist (sl_header t) (delete m (sl_heap t)) l h (sl_length t - 1) (sl_random t)) q j = level_at t q j).
  { intros l h t0 q j Hq. unfold level_at. destruct q as [|m']; [done|]. cbn.
    by rewrite lookup_delete_ne by congruence. }
  assert (Hbm : forall b, head B = Some b -> it_member b <> m).
  { intros b Hhb Hb. destruct detach_nodup as [_ Hm]. apply Hm. rewrite <- Hb. apply list_elem_of_fmap.
    exists b. split; [done|]. destruct B; [done|]. injection Hhb as ->.
    rewrite elem_of_app, elem_of_cons. auto. }
  unfold unlink_back. destruct B as [|b B'] eqn:EB; cbn [head fmap option_fmap option_map].
  - split; [exists t1; by split|]. split; [intros q j Hq; by apply (Hdel (back_of A) (lower_level s1 (sl_level s1)) s1)|].
    split; [|split_and!; try done].
    + intros m'. cbn [sl_heap set_heap set_length set_sl_level set_tail].
      destruct (decide (m' = m)) as [->|]; [by rewrite lookup_delete_eq|].
      rewrite lookup_delete_ne by done. by destruct (sl_heap s1 !! m').
    + cbn [sl_level set_heap set_length set_sl_level set_tail]. rewrite (ss_level _ _ Hsh).
      by apply lower_level_ext.
    + cbn. by rewrite (ss_length _ _ Hsh).
  - specialize (Hbm b eq_refl).
    set (s2 := set_heap (alter (set_backward (back_of A)) (it_member b) (sl_heap s1)) s1).
    split. { exists t1. split; [|done]. cbn [set_length set_sl_level sl_heap s2 set_heap].
             rewrite lookup_alter_ne by done. done. }
    split. { intros q j Hq. etrans; [by apply (Hdel (sl_tail s2) (lower_level s2 (sl_level s2)) s2)|]. apply Hlv. }
    split; [|split_and!; try done].
    + intros m'. unfold s2. cbn [sl_heap set_heap set_length set_sl_level].
      destruct (decide (m' = m)) as [->|]; [by rewrite lookup_delete_eq|].
      rewrite lookup_delete_ne by done. destruct (decide (m' = it_member b)) as [->|].
      * rewrite lookup_alter_eq. by repeat case_decide.
      * rewrite lookup_alter_ne by done. repeat case_decide; try congruence. by destruct (sl_heap s1 !! m').
    + unfold s2. cbn [sl_level set_heap set_length set_sl_level]. rewrite (ss_level _ _ Hsh).
      by apply lower_level_ext.
    + unfold s2. cbn. by rewrite (ss_length _ _ Hsh).
Qed.

Lemma detach_repr :
  exists n, fst (skiplist_detach_node s m) = Some n /\ item_of n = x /\
    sl_repr (A ++ B) (snd (skiplist_detach_node s m)).
Proof.
  pose proof detach_result as Hr. destruct (skiplist_detach_node s m) as [n r].
  destruct Hr as ((n' & -> & Hn) & Hlv & Hheap & Hhd & Hlev & Hlen & Htail).
  exists n'. split; [done|]. split; [done|]. cbn [snd].
  destruct unlinked as [Hsh Hw]. destruct detach_nodup as [Hnd Hm].
  pose proof (r_level L s HL) as Hl. destruct (lower_level_spec s1 (sl_level s)) as [Hll Hlow]; [lia|].
  assert (Hhn : forall i, level_at r Header i = level_at s1 Header i) by (intros; by apply Hlv).
  assert (Hup : forall e, e ∈ A ++ B -> e ∈ L).
  { intros e [He|He]%elem_of_app; rewrite HE, elem_of_app, elem_of_cons; auto. }
  assert (Hh' : Forall (fun e => (1 <= it_height e <= sl_level r)%nat) (A ++ B)).
  { rewrite Hlev. destruct (decide (lower_level s1 (sl_level s) = sl_level s)) as [->|Hne].
    - apply Forall_forall. intros e He. by apply detach_heights, Hup.
    - assert (Hall : Forall (fun e => (it_height e <= lower_level s1 (sl_level s))%nat) (A ++ B)).
      { apply nxt_None. rewrite <- (detach_links [] (A ++ B)); [|done|unfold tall; cbn; lia].
        apply Hlow. lia. }
      rewrite Forall_forall in Hall |- *. intros e He. specialize (Hall e He).
      apply Hup, detach_heights in He. lia. }
  split.
  - pose proof (r_sorted L s HL) as Hso. rewrite HE, fmap_app, fmap_cons in Hso.
    rewrite fmap_app. by apply zsorted_app_remove in Hso.
  - rewrite Hlev. lia.
  - exact Hh'.
  - rewrite Hhd, (ss_header _ _ Hsh). apply HL.
  - rewrite Hlev. intros i Hi. rewrite Hhn. destruct (decide (i < sl_level s)%nat).
    + apply Hlow. lia.
    + rewrite Hw, decide_False by done. apply HL. lia.
  - intros m'. rewrite Hheap. destruct (decide (m' = m)) as [->|Hne].
    + split; [by intros [? ?]|]. by intros ?%Hm.
    + rewrite fmap_is_Some, <- (fmap_is_Some info), (ss_info _ _ Hsh), fmap_is_Some, (r_dom L s HL), HE.
      rewrite !fmap_app, fmap_cons, !elem_of_app, elem_of_cons. change (it_member x) with m. naive_solver.
  - intros pre e suf n Hsplit Hn'. rewrite Hheap in Hn'.
    destruct (decide (it_member e = m)) as [|Hne]; [done|].
    pose proof (ss_info _ _ Hsh (it_member e)) as Hi.
    destruct (sl_heap s1 !! it_member e) as [n1|]; [|done]. cbn in Hn'. injection Hn' as <-.
    assert (Hold : forall pre' suf', L = pre' ++ e :: suf' ->
      sn_score n1 = it_score e /\ sn_member n1 = it_member e /\
      sn_backward n1 = back_of pre' /\ level_count n1 = it_height e).
    { intros pre' suf' HE'. destruct (repr_lookup L s HL _ _ _ HE') as (n2 & Hn2 & ? & ? & ? & ?).
      rewrite Hn2 in Hi. cbn in Hi. injection Hi as -> -> -> ->. done. }
    apply app_eq_inv in Hsplit as [([|y k] & HA' & Hk)|(k & -> & Hk)].
    + cbn in Hk. rewrite app_nil_r in HA'. subst pre. destruct (Hold (A ++ [x]) suf) as (? & ? & Hb & ?).
      { rewrite HE, <- Hk. app_eq. }
      unfold unlink_back. rewrite <- Hk. cbn. rewrite decide_True by done. done.
    + injection Hk as <- ->. destruct (Hold pre (k ++ x :: B)) as (? & ? & Hb & ?); [rewrite HE, HA'; app_eq|].
      unfold unlink_back. rewrite decide_False; [done|]. intros Heq.
      destruct B as [|b B'] eqn:EB; [done|]. cbn in Heq. injection Heq as Heq.
      rewrite HA', !fmap_app, !fmap_cons in Hnd. apply NoDup_app in Hnd as (_ & Hd & _).
      apply (Hd (it_member e)).
      * apply elem_of_app. right. apply elem_of_cons. by left.
      * rewrite Heq. apply elem_of_cons. by left.
    + destruct (Hold (A ++ x :: k) suf) as (? & ? & Hb & ?); [rewrite HE, Hk; app_eq|].
      unfold unlink_back. destruct k as [|b k].
      * rewrite Hk. cbn. rewrite decide_True by done. rewrite app_nil_r. done.
      * rewrite decide_False.
        -- split_and!; try done. rewrite Hb. change (x :: b :: k) with ([x] ++ b :: k).
           by rewrite app_assoc, !back_of_app.
        -- rewrite Hk. cbn. intros [= Heq]. rewrite Hk, fmap_app in Hnd.
           apply NoDup_app in Hnd as (_ & _ & Hnd). cbn [app] in Hnd. rewrite fmap_cons in Hnd.
           apply NoDup_cons in Hnd as [Hnd _]. apply Hnd. rewrite <- Heq.
           rewrite fmap_app, fmap_cons, elem_of_app, elem_of_cons. auto.
  - intros pre suf i Hsplit Ht.
    assert (Ht' : tall (sl_level s) pre i) by (unfold tall in *; destruct (last pre); [done|lia]).
    rewrite Hlv; [by apply detach_links|]. intros Heq. apply loc_of_At in Heq. apply Hm.
    rewrite Hsplit, fmap_app, elem_of_app. auto.
  - rewrite Htail. case_decide as Hd.
    + by rewrite Hd, app_nil_r.
    + rewrite (ss_tail _ _ Hsh), (r_tail L s HL), HE. change (x :: B) with ([x] ++ B).
      by rewrite app_assoc, !back_of_app.
  - rewrite Hlen, (r_length L s HL), HE. autorewrite with zlen. lia.
Qed.

End Detach.

(** ** The skip list as an order structure *)

Definition skip_repr (s : skiplist) (l : list zelem) : Prop :=
  exists L, sl_repr L s /\ l = elem_of_item <$> L.

Definition skip_set_score (score : Z) (n : skip_node) : skip_node :=
  mk_skip_node score (sn_member n) (sn_backward n) (sn_levels n).

Definition skip_range (s : skiplist) (first : Z) (count : nat) : list zelem :=
  skiplist_scan count s (skiplist_by_rank s first).

Definition skip_node_ok (n : skip_node) : Prop := (1 <= level_count n <= ZSKIPLIST_MAXLEVEL)%nat.

Lemma skip_members L : (elem_of_item <$> L).*2 = it_member <$> L.
Proof. by rewrite <- list_fmap_compose. Qed.

Lemma skip_insert_ok s l n :
  skip_repr s l -> skip_node_ok n -> sn_member n ∉ l.*2 ->
  skip_repr (skiplist_insert_node s n) (elem_insert (sn_score n, sn_member n) l).
Proof.
  intros (L & HL & ->) Hn Hm. rewrite skip_members in Hm.
  pose proof (r_sorted L s HL) as Hso.
  destruct (elem_insert_split (sn_score n, sn_member n) (elem_of_item <$> L) Hso)
    as (a & b & Hab & -> & Ha & Hb); [by rewrite skip_members|].
  apply fmap_app_inv in Hab as (A & B & -> & -> & ->).
  exists (A ++ item_of n :: B). split.
  - apply (insert_repr (A ++ B) s HL n A B); try done.
    + intros e He. apply Ha. by apply list_elem_of_fmap_2.
    + intros e He. apply Hb. by apply list_elem_of_fmap_2.
  - by rewrite fmap_app, fmap_cons.
Qed.

Lemma skip_detach_ok s l sc m :
  skip_repr s l -> (sc, m) ∈ l ->
  exists n, (skiplist_detach_node s m).1 = Some n /\ (sn_score n, sn_member n) = (sc, m) /\
    skip_node_ok n /\ skip_repr (skiplist_detach_node s m).2 (elem_remove m l).
Proof.
  intros (L & HL & ->) (x & Hx & Hin)%list_elem_of_fmap. injection Hx as -> ->.
  pose proof (r_heights L s HL) as Hh. rewrite Forall_forall in Hh. specialize (Hh x Hin).
  apply list_elem_of_split in Hin as (A & B & HE).
  destruct (detach_repr L s HL A B x HE) as (n & Hn & Hi & HR).
  exists n. split; [exact Hn|]. split; [by rewrite <- Hi|]. split.
  - unfold skip_node_ok. rewrite <- Hi in Hh. cbn in Hh. pose proof (r_level L s HL). lia.
  - exists (A ++ B). split; [exact HR|]. rewrite HE, !fmap_app, fmap_cons.
    destruct (detach_nodup L s HL A B x HE) as [_ Hm]. rewrite fmap_app, elem_of_app in Hm.
    apply elem_remove_app; rewrite skip_members; tauto.
Qed.

Lemma skip_range_ok s l first k :
  skip_repr s l -> 0 <= first -> skip_range s first k = take k (drop (Z.to_nat first) l).
Proof.
  intros (L & HL & ->) Hf. unfold skip_range. rewrite (by_rank_spec L s HL) by done.
  rewrite <- fmap_drop, <- (scan_spec L s HL k (take (Z.to_nat first) L)); [|by rewrite take_drop].
  f_equal. pose proof (lookup_drop L (Z.to_nat first) 0) as E. rewrite Nat.add_0_r in E.
  rewrite <- E. by destruct (drop (Z.to_nat first) L).
Qed.

Lemma skip_sorted s l : skip_repr s l -> zsorted l.
Proof. intros (L & HL & ->). apply (r_sorted L s HL). Qed.

Lemma skip_detach_rescore s l sc m :
  skip_repr s l -> (sc, m) ∈ l ->
  exists n, (skiplist_detach_node s m).1 = Some n /\ (sn_score n, sn_member n) = (sc, m) /\
    (forall sc', skip_node_ok (skip_set_score sc' n) /\
       (sn_score (skip_set_score sc' n), sn_member (skip_set_score sc' n)) = (sc', m)) /\
    skip_repr (skiplist_detach_node s m).2 (elem_remove m l).
Proof.
  intros Hr Hin. destruct (skip_detach_ok s l sc m Hr Hin) as (n & ? & Hn & ? & ?).
  exists n. split; [done|]. split; [done|]. split; [|done]. intros sc'.
  split; [done|]. cbn. by injection Hn as _ ->.
Qed.

#[export] Instance skiplist_index : OrderedIndex skiplist skip_node := {|
  oi_repr := skip_repr;
  oi_insert := skiplist_insert_node;
  oi_detach := skiplist_detach_node;
  oi_range := skip_range;
  oi_node n := (sn_score n, sn_member n);
  oi_node_ok := skip_node_ok;
  oi_set_score := skip_set_score;
  oi_sorted := skip_sorted;
  oi_insert_ok := skip_insert_ok;
  oi_detach_ok := skip_detach_rescore;
  oi_range_ok := skip_range_ok
|}.

(** The empty skip list. *)
Lemma skiplist_init_repr m s m' : skiplist_init m = (Some s, m') -> skip_repr s [].
Proof.
  unfold skiplist_init, skip_node_create. destruct (malloc m) as [[] m1]; [|done].
  cbn [sn_levels].
  assert (Hz : forall i, nth i (replicate ZSKIPLIST_MAXLEVEL zero_level) zero_level = zero_level).
  { intros i. rewrite nth_lookup. destruct (_ !! i) eqn:E; [|done].
    by apply lookup_replicate in E as [-> _]. }
  assert (Hlen : length (replicate ZSKIPLIST_MAXLEVEL zero_level) = ZSKIPLIST_MAXLEVEL)
    by apply length_replicate.
  revert Hz Hlen. generalize (replicate ZSKIPLIST_MAXLEVEL zero_level). intros hd Hz Hlen [= <- _]. exists []. split; [|done].
  split; cbn; try done.
  - split; [constructor|constructor].
  - unfold ZSKIPLIST_MAXLEVEL. lia.
  - intros i _. apply (f_equal forward (Hz i)).
  - intros m0. rewrite lookup_empty. split; [by intros [? ?]|]. intros Hm. by apply elem_of_nil in Hm.
  - intros pre suf i HE _. destruct pre; [|done]. cbn in HE. subst suf.
    apply (Hz i).
Qed.

Lemma random_level_range s : (1 <= (skip_random_level s).1 <= ZSKIPLIST_MAXLEVEL)%nat.
Proof.
  unfold skip_random_level.
  assert (H : forall fuel level s, (1 <= level <= ZSKIPLIST_MAXLEVEL)%nat ->
            (1 <= (random_level_loop fuel level s).1 <= ZSKIPLIST_MAXLEVEL)%nat).
  { induction fuel as [|fuel IH]; intros level s0 Hl; cbn [random_level_loop]; [done|].
    destruct (Nat.ltb_spec level ZSKIPLIST_MAXLEVEL); [|done].
    destruct (next_random s0) as [r s']. destruct (r <=? _); [|done]. apply IH. lia. }
  apply H. unfold ZSKIPLIST_MAXLEVEL. lia.
Qed.

Lemma random_level_repr s l : skip_repr s l -> skip_repr (skip_random_level s).2 l.
Proof.
  unfold skip_random_level. generalize ZSKIPLIST_MAXLEVEL at 1. intros fuel. generalize 1%nat.
  revert s. induction fuel as [|fuel IH]; intros s level Hs; cbn [random_level_loop]; [done|].
  destruct (level <? ZSKIPLIST_MAXLEVEL)%nat; [|done].
  destruct (next_random s) as [r s'] eqn:E.
  assert (Hs' : skip_repr s' l).
  { destruct Hs as (L & HL & ->). exists L. split; [|done]. unfold next_random in E. injection E as _ <-.
    destruct HL. by split. }
  destruct (r <=? _); [|done]. by apply IH.
Qed.

(** ** Validation *)

Lemma validate_loop_spec L s fuel pre suf :
  sl_repr L s -> L = pre ++ suf -> (length suf < fuel)%nat ->
  validate_skip_loop fuel s (it_member <$> head suf) (back_of pre) (zlen pre) = true.
Proof.
  intros HL. revert pre suf. induction fuel as [|fuel IH]; intros pre suf HE Hf; [lia|].
  destruct suf as [|e suf]; cbn [head fmap option_fmap option_map validate_skip_loop].
  { rewrite app_nil_r in HE. subst pre. rewrite (r_tail L s HL), (r_length L s HL).
    by rewrite Z.eqb_refl, bool_decide_true. }
  destruct (repr_lookup L s HL _ _ _ HE) as (n & -> & Hns & Hnm & Hnb & _).
  rewrite Hns, Hnm, Hnb, (bool_decide_true (back_of pre = _)) by done. cbn [negb orb].
  assert (Hrank : skiplist_by_rank s (zlen pre) = Some (it_member e)).
  { rewrite (by_rank_spec L s HL) by apply zlen_nonneg. unfold zlen.
    by rewrite Nat2Z.id, HE, list_lookup_middle. }
  rewrite Hrank, (bool_decide_true (Some _ = _)) by done.
  assert (HE' : L = (pre ++ [e]) ++ suf) by (rewrite HE; app_eq).
  assert (Hnext : validate_skip_loop fuel s (forward (level_at s (At (it_member e)) 0))
            (Some (it_member e)) (zlen pre + 1) = true).
  { pose proof (r_heights L s HL) as Hh. rewrite Forall_forall in Hh.
    rewrite <- (IH (pre ++ [e]) suf HE') by (cbn in Hf; lia).
    rewrite back_of_snoc, zlen_app. f_equal. rewrite <- (loc_of_snoc pre e).
    rewrite (r_link L s HL _ suf 0 HE').
    - destruct suf as [|e' suf']; [done|]. cbn [nxt].
      specialize (Hh e' ltac:(rewrite HE; set_solver)). by rewrite (proj2 (Nat.ltb_lt _ _)) by lia.
    - apply tall_snoc. specialize (Hh e ltac:(rewrite HE; set_solver)). lia. }
  rewrite Hnext. unfold back_of. destruct pre as [|p pre _] using rev_ind; [done|].
  rewrite last_snoc. cbn [fmap option_fmap option_map mbind option_bind].
  rewrite <- app_assoc in HE.
  destruct (repr_lookup L s HL pre p ([] ++ e :: suf)) as (np & -> & -> & -> & _ & _); [done|].
  destruct (r_sorted L s HL) as [Hso _]. rewrite HE, fmap_app in Hso. cbn in Hso.
  apply StronglySorted_app_iff in Hso as (_ & [_ Hf']%StronglySorted_inv & _).
  apply Forall_cons in Hf' as [Hlt _]. unfold elem_lt, elem_cmp in Hlt. cbn in Hlt.
  by rewrite (proj2 (Z.ltb_lt _ _) Hlt).
Qed.

Lemma validate_skiplist_ok s l : skip_repr s l -> validate_skiplist s = true.
Proof.
  intros (L & HL & _). unfold validate_skiplist.
  assert (Hh : forward (level_at s Header 0) = it_member <$> head L).
  { pose proof (r_level L s HL). pose proof (r_heights L s HL) as Hh. rewrite Forall_forall in Hh.
    change Header with (loc_of []). rewrite (r_link L s HL [] L 0); [|done|unfold tall; cbn; lia].
    destruct L as [|e L']; [done|]. cbn [nxt]. specialize (Hh e ltac:(set_solver)).
    by rewrite (proj2 (Nat.ltb_lt _ _)) by lia. }
  rewrite Hh. apply (validate_loop_spec L s _ [] L); [done..|].
  rewrite (r_length L s HL). unfold zlen. lia.
Qed.

Lemma skip_repr_length s l : skip_repr s l -> sl_length s = zlen l.
Proof. intros (L & HL & ->). rewrite (r_length L s HL). unfold zlen. by rewrite length_fmap. Qed.

(** ** Properties *)

(** C21. Inserting a node into a skip list of any node height keeps the
    representation (every forward pointer, span, backward pointer and the
    tail), and the list it represents gains the new element at its place in
    the order; the structure passes the code's own validation. *)
Theorem skiplist_insert_correct s l n :
  skip_repr s l -> skip_node_ok n -> sn_member n ∉ l.*2 ->
  let s' := skiplist_insert_node s n in
  skip_repr s' (elem_insert (sn_score n, sn_member n) l) /\
  zsorted (elem_insert (sn_score n, sn_member n) l) /\
  sl_length s' = sl_length s + 1 /\ validate_skiplist s' = true.
Proof.
  intros Hr Hn Hm s'. pose proof (skip_insert_ok s l n Hr Hn Hm) as Hr'.
  split; [done|]. split; [by apply (skip_sorted _ _ Hr')|]. split; [|by eapply validate_skiplist_ok].
  unfold s'. rewrite (skip_repr_length _ _ Hr'), (skip_repr_length _ _ Hr). unfold zlen.
  rewrite elem_insert_perm. cbn [length]. lia.
Qed.

(** Two nodes of different heights. *)
Definition sample_node1 : skip_node := mk_skip_node 5 [97] None (replicate 1 zero_level).

Definition sample_node3 : skip_node := mk_skip_node 3 [98] None (replicate 3 zero_level).

Definition sample_skiplist : skiplist :=
  match skiplist_init [] with
  | (Some s, _) => skiplist_insert_node s sample_node1
  | _ => mk_skiplist [] ∅ None 1 0 0
  end.

Lemma sample_skiplist_repr : skip_repr sample_skiplist [(5, [97])].
Proof.
  unfold sample_skiplist. destruct (skiplist_init []) as [[s|] m] eqn:E; [|done].
  apply skiplist_init_repr in E.
  apply (skip_insert_ok s [] sample_node1 E); [|set_solver]. unfold skip_node_ok. cbn.
  unfold ZSKIPLIST_MAXLEVEL. lia.
Qed.

Lemma skiplist_insert_correct_witness :
  skip_repr (skiplist_insert_node sample_skiplist sample_node3) [(3, [98]); (5, [97])].
Proof.
  apply (skiplist_insert_correct sample_skiplist [(5, [97])] sample_node3 sample_skiplist_repr).
  - split; cbn; unfold ZSKIPLIST_MAXLEVEL; lia.
  - cbn. intros H. apply list_elem_of_singleton in H. discriminate.
Defined.

(** C30. Detaching the node of a member keeps the representation, removes
    exactly that element, and returns the node with its score, member and
    height, ready to be inserted again. *)
Theorem skiplist_detach_correct s l sc m :
  skip_repr s l -> (sc, m) ∈ l ->
  exists n, (skiplist_detach_node s m).1 = Some n /\
    sn_score n = sc /\ sn_member n = m /\ skip_node_ok n /\
    skip_repr (skiplist_detach_node s m).2 (elem_remove m l) /\
    validate_skiplist (skiplist_detach_node s m).2 = true.
Proof.
  intros Hr Hin. destruct (skip_detach_ok s l sc m Hr Hin) as (n & ? & [= ? ?] & ? & ?).
  exists n. split_and!; try done. by eapply validate_skiplist_ok.
Qed.

Lemma skiplist_detach_correct_witness : skip_repr (skiplist_detach_node sample_skiplist [97]).2 [].
Proof.
  destruct (skiplist_detach_correct sample_skiplist [(5, [97])] 5 [97] sample_skiplist_repr) as (n & _ & _ & _ & _ & H & _).
  - apply list_elem_of_singleton. reflexivity.
  - exact H.
Defined.

(** Access by rank and the forward scan return exactly the elements at
    the wanted ranks, through the spans of the upper levels. *)
Theorem skiplist_range_correct s l first count :
  skip_repr s l -> 0 <= first ->
  skiplist_by_rank s first = snd <$> l !! Z.to_nat first /\
  skiplist_scan count s (skiplist_by_rank s first) = take count (drop (Z.to_nat first) l).
Proof.
  intros Hr Hf. split; [|by apply skip_range_ok].
  destruct Hr as (L & HL & ->). rewrite (by_rank_spec L s HL) by done.
  rewrite list_lookup_fmap. by destruct (L !! _).
Qed.

Lemma skiplist_range_correct_witness :
  skiplist_scan 2 sample_skiplist (skiplist_by_rank sample_skiplist 0) = [(5, [97])].
Proof.
  apply (skiplist_range_correct sample_skiplist [(5, [97])] 0 2 sample_skiplist_repr). lia.
Defined.
