(* ===== verification/ZRbTree.v ===== *)
(** The red-black tree that orders the members of a sorted set ([rb_node],
    [rb_tree], [rb_*] and [rbtree_*] of [src/engine/object.c]).

    The tree is an inductive type; [tree->nil] is [Leaf], black and of size
    0.  A pointer to a node is the location of the node in the tree: the
    subtree at the node and the frames of its ancestors, nearest first.
    [node->parent] is the first frame, and a rotation rearranges the subtree
    and the first frames.  The pointer [order_node] that a dictionary entry
    holds is represented by the member of the node, as in the skip list, and
    [locate] follows it. *)

From S2P Require Import Prelude ZOrder.

Inductive rb_color : Type := RB_RED | RB_BLACK.

#[export] Instance rb_color_eq_dec : EqDecision rb_color.
Proof. solve_decision. Defined.

(** The fields of a node that rotations do not touch, and its color and size. *)
Record rb_node : Type := mk_rb {
  rb_color_of : rb_color;
  rb_score : Z;
  rb_member : list Z;
  subtree_size : Z
}.

Definition SIZEOF_RB_NODE : Z := 64.

Inductive tree : Type := Leaf | Node (left_ : tree) (n : rb_node) (right_ : tree).

Definition color (t : tree) : rb_color :=
  match t with Leaf => RB_BLACK | Node _ n _ => rb_color_of n end.

Definition size_of (t : tree) : Z :=
  match t with Leaf => 0 | Node _ n _ => subtree_size n end.

Definition set_color (c : rb_color) (n : rb_node) : rb_node :=
  mk_rb c (rb_score n) (rb_member n) (subtree_size n).

Definition set_size (z : Z) (n : rb_node) : rb_node :=
  mk_rb (rb_color_of n) (rb_score n) (rb_member n) z.

Definition paint (c : rb_color) (t : tree) : tree :=
  match t with Leaf => Leaf | Node l n r => Node l (set_color c n) r end.

(** ** Locations *)

Inductive side : Type := InLeft | InRight.

(** An ancestor: which child the location is in, the ancestor's fields, and
    its other child. *)
Record frame : Type := mk_frame { f_side : side; f_node : rb_node; f_other : tree }.

Definition path : Type := list frame.

Definition plug (t : tree) (f : frame) : tree :=
  match f_side f with
  | InLeft => Node t (f_node f) (f_other f)
  | InRight => Node (f_other f) (f_node f) t
  end.

(** The whole tree of a location. *)
Fixpoint zip (t : tree) (p : path) : tree :=
  match p with [] => t | f :: p => zip (plug t f) p end.

Definition frame_color (c : rb_color) (f : frame) : frame :=
  mk_frame (f_side f) (set_color c (f_node f)) (f_other f).

Record rb_tree : Type := mk_rb_tree { rb_root : tree; rb_length : Z }.

(** ** Sizes *)

Definition rb_recalculate (t : tree) : tree :=
  match t with
  | Leaf => Leaf
  | Node l n r => Node l (set_size (size_of l + size_of r + 1) n) r
  end.

(** [rb_recalculate_up] from the first frame of [p], with [t] below it. *)
Fixpoint rb_recalculate_up (t : tree) (p : path) : path :=
  match p with
  | [] => []
  | f :: p =>
      let f' := mk_frame (f_side f)
                  (set_size (size_of t + size_of (f_other f) + 1) (f_node f)) (f_other f) in
      f' :: rb_recalculate_up (plug t f') p
  end.

(** ** Rotations of the subtree at a location *)

Definition rb_left_rotate (t : tree) : tree :=
  match t with
  | Node a n (Node b r c) => rb_recalculate (Node (rb_recalculate (Node a n b)) r c)
  | _ => t
  end.

Definition rb_right_rotate (t : tree) : tree :=
  match t with
  | Node (Node a l b) n c => rb_recalculate (Node a l (rb_recalculate (Node b n c)))
  | _ => t
  end.

Arguments rb_left_rotate : simpl never.
Arguments rb_right_rotate : simpl never.
Arguments paint : simpl never.

(** ** Initialisation and node preparation *)

Definition rbtree_init (m : mem) : option rb_tree * mem :=
  let '(ok, m) := malloc m in
  if ok then (Some (mk_rb_tree Leaf 0), m) else (None, m).

Definition rbtree_prepare_node (m : mem) (score : Z) : option rb_node * mem :=
  let '(ok, m) := malloc m in
  if ok then (Some (mk_rb RB_RED score [] 1), m) else (None, m).

(** ** Insertion *)

(** The descent, which counts the new node in every ancestor. *)
Fixpoint insert_descend (node : rb_node) (t : tree) (p : path) : path :=
  match t with
  | Leaf => p
  | Node l n r =>
      let n' := set_size (subtree_size n + 1) n in
      if compare_order (rb_score node) (rb_member node) (rb_score n) (rb_member n) <? 0
      then insert_descend node l (mk_frame InLeft n' r :: p)
      else insert_descend node r (mk_frame InRight n' l :: p)
  end.

(** [rbtree_insert_fixup]: the loop at the location [(t, p)], and the final
    assignment of the root's color.  With a red parent, the grandparent
    exists because the root is black. *)
Fixpoint rbtree_insert_fixup (t : tree) (p : path) : tree :=
  match p with
  | parent :: grand :: rest =>
      if decide (rb_color_of (f_node parent) = RB_RED) then
        match f_side grand with
        | InLeft =>
            let uncle := f_other grand in
            if decide (color uncle = RB_RED) then
              rbtree_insert_fixup
                (plug (plug t (frame_color RB_BLACK parent))
                   (mk_frame InLeft (set_color RB_RED (f_node grand)) (paint RB_BLACK uncle)))
                rest
            else
              let pt := match f_side parent with
                        | InRight => rb_left_rotate (plug t parent)
                        | InLeft => plug t parent
                        end in
              paint RB_BLACK
                (zip (rb_right_rotate
                        (plug (paint RB_BLACK pt) (frame_color RB_RED grand))) rest)
        | InRight =>
            let uncle := f_other grand in
            if decide (color uncle = RB_RED) then
              rbtree_insert_fixup
                (plug (plug t (frame_color RB_BLACK parent))
                   (mk_frame InRight (set_color RB_RED (f_node grand)) (paint RB_BLACK uncle)))
                rest
            else
              let pt := match f_side parent with
                        | InLeft => rb_right_rotate (plug t parent)
                        | InRight => plug t parent
                        end in
              paint RB_BLACK
                (zip (rb_left_rotate
                        (plug (paint RB_BLACK pt) (frame_color RB_RED grand))) rest)
        end
      else paint RB_BLACK (zip t p)
  | _ => paint RB_BLACK (zip t p)
  end.

Definition rbtree_insert_node (tr : rb_tree) (node : rb_node) : rb_tree :=
  let p := insert_descend node (rb_root tr) [] in
  mk_rb_tree (rbtree_insert_fixup (Node Leaf node Leaf) p) (rb_length tr + 1).

(** ** Removal *)

(** [rb_minimum]: the path from a node to the minimum of its subtree. *)
Fixpoint rb_minimum (t : tree) (p : path) : tree * path :=
  match t with
  | Node (Node _ _ _ as l) n r => rb_minimum l (mk_frame InLeft n r :: p)
  | _ => (t, p)
  end.

(** Following the pointer to the node of a member. *)
Fixpoint locate (m : list Z) (t : tree) (p : path) : option (tree * path) :=
  match t with
  | Leaf => None
  | Node l n r =>
      if decide (rb_member n = m) then Some (t, p) else
      match locate m l (mk_frame InLeft n r :: p) with
      | Some x => Some x
      | None => locate m r (mk_frame InRight n l :: p)
      end
  end.

(** One iteration of [rbtree_delete_fixup] on the left side: either the tree
    is done, or the loop goes on at a location. *)
Inductive fixup_result : Type := FixDone (t : tree) | FixMore (t : tree) (p : path).

Definition other_left (s : tree) : tree := match s with Node l _ _ => l | Leaf => Leaf end.

Definition other_right (s : tree) : tree := match s with Node _ _ r => r | Leaf => Leaf end.

(** The cases after a red sibling has been rotated away: [node] is the left
    child of [parent] and [sibling] its right child. *)
Definition delete_left_black (node : tree) (parent : rb_node) (sibling : tree) (rest : path)
  : fixup_result :=
  if decide (color (other_left sibling) = RB_BLACK /\ color (other_right sibling) = RB_BLACK) then
    FixMore (Node node parent (paint RB_RED sibling)) rest
  else
    let sibling :=
      if decide (color (other_right sibling) = RB_BLACK) then
        match sibling with
        | Node l n r => rb_right_rotate (Node (paint RB_BLACK l) (set_color RB_RED n) r)
        | Leaf => Leaf
        end
      else sibling in
    let sibling :=
      match sibling with
      | Node l n r => Node l (set_color (rb_color_of parent) n) (paint RB_BLACK r)
      | Leaf => Leaf
      end in
    FixDone (paint RB_BLACK
      (zip (rb_left_rotate (Node node (set_color RB_BLACK parent) sibling)) rest)).

Definition delete_right_black (node : tree) (parent : rb_node) (sibling : tree) (rest : path)
  : fixup_result :=
  if decide (color (other_right sibling) = RB_BLACK /\ color (other_left sibling) = RB_BLACK) then
    FixMore (Node (paint RB_RED sibling) parent node) rest
  else
    let sibling :=
      if decide (color (other_left sibling) = RB_BLACK) then
        match sibling with
        | Node l n r => rb_left_rotate (Node l (set_color RB_RED n) (paint RB_BLACK r))
        | Leaf => Leaf
        end
      else sibling in
    let sibling :=
      match sibling with
      | Node l n r => Node (paint RB_BLACK l) (set_color (rb_color_of parent) n) r
      | Leaf => Leaf
      end in
    FixDone (paint RB_BLACK
      (zip (rb_right_rotate (Node sibling (set_color RB_BLACK parent) node)) rest)).

(** The location below a rotation that lifts a red sibling: the rotated
    parent keeps the node as its child, and the sibling becomes its parent. *)
Definition delete_step (node : tree) (f : frame) (rest : path) : fixup_result :=
  match f_side f with
  | InLeft =>
      match f_other f with
      | Node sl sn sr =>
          if decide (rb_color_of sn = RB_RED) then
            match rb_left_rotate
                    (Node node (set_color RB_RED (f_node f)) (Node sl (set_color RB_BLACK sn) sr)) with
            | Node (Node node parent sibling) above other =>
                delete_left_black node parent sibling (mk_frame InLeft above other :: rest)
            | t => FixDone (zip t rest)
            end
          else delete_left_black node (f_node f) (f_other f) rest
      | Leaf => delete_left_black node (f_node f) (f_other f) rest
      end
  | InRight =>
      match f_other f with
      | Node sl sn sr =>
          if decide (rb_color_of sn = RB_RED) then
            match rb_right_rotate
                    (Node (Node sl (set_color RB_BLACK sn) sr) (set_color RB_RED (f_node f)) node) with
            | Node other above (Node sibling parent node) =>
                delete_right_black node parent sibling (mk_frame InRight above other :: rest)
            | t => FixDone (zip t rest)
            end
          else delete_right_black node (f_node f) (f_other f) rest
      | Leaf => delete_right_black node (f_node f) (f_other f) rest
      end
  end.

Fixpoint rbtree_delete_fixup (fuel : nat) (t : tree) (p : path) : tree :=
  match fuel, p with
  | S fuel, f :: rest =>
      if decide (color t = RB_BLACK) then
        match delete_step t f rest with
        | FixDone t => t
        | FixMore t p => rbtree_delete_fixup fuel t p
        end
      else zip (paint RB_BLACK t) p
  | _, _ => zip (paint RB_BLACK t) p
  end.

(** Recalculation from the node of a member up, after the fixup. *)
Definition recalculate_from (m : option (list Z)) (t : tree) : tree :=
  match m with
  | None => t
  | Some m =>
      match locate m t [] with
      | Some (t', p) =>
          let t' := rb_recalculate t' in zip t' (rb_recalculate_up t' p)
      | None => t
      end
  end.

(** The common end of the cases of [rbtree_detach_node]: [fixup] at its place
    below [p], with the color of the node that left its place. *)
Definition detach_finish (original : rb_color) (fixup : tree) (p : path) : tree :=
  let p := rb_recalculate_up fixup p in
  let parent := rb_member ∘ f_node <$> head p in
  let t := if decide (original = RB_BLACK)
           then rbtree_delete_fixup (S (length p)) fixup p else zip fixup p in
  recalculate_from parent t.

Definition rbtree_detach_node (tr : rb_tree) (m : list Z) : option rb_node * rb_tree :=
  match locate m (rb_root tr) [] with
  | Some (Node l target r, p) =>
      let t :=
        match l, r with
        | Leaf, _ => detach_finish (rb_color_of target) r p
        | _, Leaf => detach_finish (rb_color_of target) l p
        | _, _ =>
            match rb_minimum r [] with
            | (Node _ moved mr, mp) =>
                detach_finish (rb_color_of moved) mr
                  (mp ++ mk_frame InRight (set_color (rb_color_of target) moved) l :: p)
            | (Leaf, _) => rb_root tr
            end
        end in
      (Some target, mk_rb_tree t (rb_length tr - 1))
  | _ => (None, tr)
  end.

(** ** Access by rank and in-order traversal *)

Fixpoint rbtree_by_rank (rank : Z) (t : tree) (p : path) : option (tree * path) :=
  match t with
  | Leaf => None
  | Node l n r =>
      let left_size := size_of l in
      if rank <? left_size then rbtree_by_rank rank l (mk_frame InLeft n r :: p) else
      if rank =? left_size then Some (t, p) else
      rbtree_by_rank (rank - (left_size + 1)) r (mk_frame InRight n l :: p)
  end.

(** The loop of [rb_successor] over the ancestors. *)
Fixpoint climb (t : tree) (p : path) : option (tree * path) :=
  match p with
  | [] => None
  | f :: p =>
      match f_side f with
      | InRight => climb (plug t f) p
      | InLeft => Some (plug t f, p)
      end
  end.

Definition rb_successor (t : tree) (p : path) : option (tree * path) :=
  match t with
  | Node l n (Node _ _ _ as r) => Some (rb_minimum r (mk_frame InRight n l :: p))
  | _ => climb t p
  end.

(** The visiting loop of the callers. *)
Fixpoint rbtree_scan (fuel : nat) (node : option (tree * path)) : list zelem :=
  match fuel, node with
  | S fuel, Some (Node l n r, p) =>
      (rb_score n, rb_member n) :: rbtree_scan fuel (rb_successor (Node l n r) p)
  | _, _ => []
  end.

(** ** Validation *)

Record rb_validation : Type := mk_validation {
  v_previous : option rb_node;
  v_count : Z;
  v_valid : bool
}.

Definition invalidate (b : bool) (v : rb_validation) : rb_validation :=
  if b then mk_validation (v_previous v) (v_count v) false else v.

(** [validate_rb_node]: the count, the black height and the record.  The
    parent pointers it also checks are the locations themselves. *)
Fixpoint validate_rb_node (t : tree) (v : rb_validation) : Z * Z * rb_validation :=
  match t with
  | Leaf => (0, 1, v)
  | Node l n r =>
      let '(left_count, left_black, v) := validate_rb_node l v in
      let v := invalidate (match v_previous v with
                           | None => false
                           | Some q => compare_order (rb_score q) (rb_member q)
                                         (rb_score n) (rb_member n) >=? 0
                           end) v in
      let v := mk_validation (Some n) (v_count v + 1) (v_valid v) in
      let '(right_count, right_black, v) := validate_rb_node r v in
      let v := invalidate (bool_decide (rb_color_of n = RB_RED /\
                             (color l <> RB_BLACK \/ color r <> RB_BLACK))) v in
      let v := invalidate (negb (left_black =? right_black) ||
                           negb (subtree_size n =? left_count + right_count + 1)) v in
      (left_count + right_count + 1,
       left_black + (if decide (rb_color_of n = RB_BLACK) then 1 else 0), v)
  end.

Definition validate_rbtree (tr : rb_tree) : bool :=
  if negb (bool_decide (color (rb_root tr) = RB_BLACK)) then false else
  let '(count, _, v) := validate_rb_node (rb_root tr) (mk_validation None 0 true) in
  v_valid v && (v_count v =? count) && (count =? rb_length tr).

(** ** Abstraction: the elements in order *)

Definition elem_of_rb (n : rb_node) : zelem := (rb_score n, rb_member n).

Fixpoint elems (t : tree) : list zelem :=
  match t with Leaf => [] | Node l n r => elems l ++ elem_of_rb n :: elems r end.

(** The elements before and after a location. *)
Fixpoint before (p : path) : list zelem :=
  match p with
  | [] => []
  | f :: p =>
      before p ++ match f_side f with
                  | InLeft => []
                  | InRight => elems (f_other f) ++ [elem_of_rb (f_node f)]
                  end
  end.

Fixpoint after (p : path) : list zelem :=
  match p with
  | [] => []
  | f :: p =>
      match f_side f with
      | InLeft => elem_of_rb (f_node f) :: elems (f_other f)
      | InRight => []
      end ++ after p
  end.

Lemma elems_zip t p : elems (zip t p) = before p ++ elems t ++ after p.
Proof.
  revert t. induction p as [|[[] n o] p IH]; intros t; cbn [zip]; [cbn; by rewrite app_nil_r|..];
    rewrite IH; cbn; by rewrite <- ?app_assoc, ?app_nil_r.
Qed.

Lemma elems_paint c t : elems (paint c t) = elems t.
Proof. by destruct t. Qed.

Lemma elems_recalculate t : elems (rb_recalculate t) = elems t.
Proof. by destruct t. Qed.

Lemma elems_left_rotate t : elems (rb_left_rotate t) = elems t.
Proof. destruct t as [|a n [|b r c]]; unfold rb_left_rotate; cbn; try done. by rewrite <- app_assoc. Qed.

Lemma elems_right_rotate t : elems (rb_right_rotate t) = elems t.
Proof. destruct t as [|[|a l b] n c]; unfold rb_right_rotate; cbn; try done. by rewrite <- app_assoc. Qed.

Lemma elems_recalculate_up t p :
  before (rb_recalculate_up t p) = before p /\ after (rb_recalculate_up t p) = after p.
Proof.
  revert t. induction p as [|f p IH]; intros t; cbn; [done|].
  by destruct (IH (plug t (mk_frame (f_side f)
    (set_size (size_of t + size_of (f_other f) + 1) (f_node f)) (f_other f)))) as [-> ->].
Qed.

Create Rewrite HintDb rb.
#[export] Hint Rewrite elems_zip elems_paint elems_recalculate elems_left_rotate elems_right_rotate : rb.

(** Equality of in-order lists up to rotations and bracketing. *)
Ltac elems_eq :=
  repeat first [rewrite <- app_assoc | rewrite app_nil_r | progress (autorewrite with rb) | progress cbn];
  done.

Lemma insert_fixup_elems t p : elems (rbtree_insert_fixup t p) = before p ++ elems t ++ after p.
Proof.
  remember (length p) as k eqn:Hk. revert t p Hk.
  induction k as [k IH] using (well_founded_induction Nat.lt_wf_0). intros t p ->.
  destruct p as [|f [|g rest]]; cbn [rbtree_insert_fixup]; [elems_eq| |].
  { by rewrite elems_paint, elems_zip. }
  destruct (decide _); [|by rewrite elems_paint, elems_zip].
  destruct g as [[] gn go]; cbn [f_side f_other f_node]; (destruct (decide _);
    [rewrite (IH (length rest)) by (cbn; lia || done)|]);
    destruct f as [[] fn fo]; elems_eq.
Qed.

(** ** Sizes *)

Fixpoint sized (t : tree) : Prop :=
  match t with
  | Leaf => True
  | Node l n r => sized l /\ sized r /\ subtree_size n = size_of l + size_of r + 1
  end.

(** The sizes of the frames above a subtree of size [z]. *)
Fixpoint path_sized (z : Z) (p : path) : Prop :=
  match p with
  | [] => True
  | f :: p => sized (f_other f) /\ subtree_size (f_node f) = z + size_of (f_other f) + 1 /\
              path_sized (subtree_size (f_node f)) p
  end.

Lemma sized_length t : sized t -> size_of t = zlen (elems t).
Proof.
  induction t as [|l IHl n r IHr]; [done|]. intros (Hl & Hr & Hs). cbn.
  rewrite Hs, IHl, IHr by done. autorewrite with zlen. lia.
Qed.

Lemma size_plug t f : size_of (plug t f) = subtree_size (f_node f).
Proof. by destruct f as [[] n o]. Qed.

Lemma sized_plug t f :
  sized t -> sized (f_other f) -> subtree_size (f_node f) = size_of t + size_of (f_other f) + 1 ->
  sized (plug t f).
Proof. destruct f as [[] n o]; cbn; intros; split_and!; try done; lia. Qed.

Lemma sized_zip t p : sized t -> path_sized (size_of t) p -> sized (zip t p).
Proof.
  revert t. induction p as [|f p IH]; intros t Ht; cbn [zip path_sized]; [done|]. intros (Ho & Hs & Hp).
  apply IH; [by apply sized_plug|]. by rewrite size_plug.
Qed.

Lemma sized_paint c t : sized t -> sized (paint c t).
Proof. by destruct t. Qed.

Lemma size_paint c t : size_of (paint c t) = size_of t.
Proof. by destruct t. Qed.

Lemma sized_recalculate_id t : sized t -> rb_recalculate t = t.
Proof. destruct t as [|l [c s m z] r]; cbn; [done|]. intros (_ & _ & ->). done. Qed.

Lemma left_rotate_sized t :
  sized t -> sized (rb_left_rotate t) /\ size_of (rb_left_rotate t) = size_of t.
Proof. destruct t as [|a n [|b r c]]; unfold rb_left_rotate; cbn; try done. intros (? & (? & ? & ?) & ?). split_and!; done || lia. Qed.

Lemma right_rotate_sized t :
  sized t -> sized (rb_right_rotate t) /\ size_of (rb_right_rotate t) = size_of t.
Proof. destruct t as [|[|a l b] n c]; unfold rb_right_rotate; cbn; try done. intros ((? & ? & ?) & ? & ?). split_and!; done || lia. Qed.

Lemma insert_fixup_sized t p :
  sized t -> path_sized (size_of t) p -> sized (rbtree_insert_fixup t p).
Proof.
  remember (length p) as k eqn:Hk. revert t p Hk.
  induction k as [k IH] using (well_founded_induction Nat.lt_wf_0). intros t p -> Ht Hp.
  destruct p as [|f [|g rest]]; cbn [rbtree_insert_fixup];
    [by apply sized_paint|by apply sized_paint, sized_zip|].
  destruct (decide _); [|by apply sized_paint, sized_zip].
  cbn in Hp. destruct Hp as (Hfo & Hfs & Hgo & Hgs & Hrest).
  assert (Hpt : sized (plug t f)) by (by apply sized_plug).
  assert (Hrot : forall pt, sized pt -> size_of pt = subtree_size (f_node f) ->
            sized (plug (paint RB_BLACK pt) (frame_color RB_RED g)) /\
            size_of (plug (paint RB_BLACK pt) (frame_color RB_RED g)) = subtree_size (f_node g)).
  { intros pt Hpts Hsz. split; [|by rewrite size_plug]. apply sized_plug; cbn; [by apply sized_paint|done|].
    rewrite size_paint. lia. }
  destruct (left_rotate_sized _ Hpt) as [Hl1 Hl2]. destruct (right_rotate_sized _ Hpt) as [Hr1 Hr2].
  rewrite size_plug in Hl2, Hr2.
  destruct (f_side g) eqn:Eg; destruct (decide _).
  - apply (IH (length rest)); [cbn; lia|done|apply sized_plug|by rewrite size_plug]; cbn.
    + apply sized_plug; done.
    + by apply sized_paint.
    + rewrite size_plug, size_paint. cbn. lia.
  - set (pt := match f_side f with InLeft => _ | InRight => _ end).
    assert (Hpt' : sized pt /\ size_of pt = subtree_size (f_node f)) by (unfold pt; destruct (f_side f); auto using size_plug).
    destruct (Hrot pt (proj1 Hpt') (proj2 Hpt')) as [Hs1 Hs2].
    destruct (right_rotate_sized _ Hs1) as [Hs3 Hs4]. apply sized_paint, sized_zip; [done|].
    by rewrite Hs4, Hs2.
  - apply (IH (length rest)); [cbn; lia|done|apply sized_plug|by rewrite size_plug]; cbn.
    + apply sized_plug; done.
    + by apply sized_paint.
    + rewrite size_plug, size_paint. cbn. lia.
  - set (pt := match f_side f with InLeft => _ | InRight => _ end).
    assert (Hpt' : sized pt /\ size_of pt = subtree_size (f_node f)) by (unfold pt; destruct (f_side f); auto using size_plug).
    destruct (Hrot pt (proj1 Hpt') (proj2 Hpt')) as [Hs1 Hs2].
    destruct (left_rotate_sized _ Hs1) as [Hs3 Hs4]. apply sized_paint, sized_zip; [done|].
    by rewrite Hs4, Hs2.
Qed.

Lemma insert_descend_sized node t p :
  sized t -> path_sized (size_of t + 1) p -> path_sized 1 (insert_descend node t p).
Proof.
  revert p. induction t as [|l IHl n r IHr]; intros p; cbn; [done|]. intros (Hl & Hr & Hs) Hp.
  destruct (_ <? _).
  - apply IHl; [done|]. cbn. split; [done|]. split; [lia|done].
  - apply IHr; [done|]. cbn. split; [done|]. split; [lia|done].
Qed.

(** ** Red-black balance *)

(** [rbt c n t]: no red node of [t] has a red child, every path to a leaf has
    [n] black nodes, and the root has color [c]. *)
Inductive rbt : rb_color -> nat -> tree -> Prop :=
| rbt_leaf : rbt RB_BLACK 0 Leaf
| rbt_red n l x r : rb_color_of x = RB_RED ->
    rbt RB_BLACK n l -> rbt RB_BLACK n r -> rbt RB_RED n (Node l x r)
| rbt_black n cl cr l x r : rb_color_of x = RB_BLACK ->
    rbt cl n l -> rbt cr n r -> rbt RB_BLACK (S n) (Node l x r).

(** [ctx n c p]: a path whose hole takes trees of black height [n] and whose
    first frame has color [c] (the sentinel above the root is black). *)
Inductive ctx : nat -> rb_color -> path -> Prop :=
| ctx_root n : ctx n RB_BLACK []
| ctx_red n f p : rb_color_of (f_node f) = RB_RED -> rbt RB_BLACK n (f_other f) ->
    p <> [] -> ctx n RB_BLACK p -> ctx n RB_RED (f :: p)
| ctx_black n c c' f p : rb_color_of (f_node f) = RB_BLACK -> rbt c' n (f_other f) ->
    ctx (S n) c p -> ctx n RB_BLACK (f :: p).

Create HintDb rbtree.
#[export] Hint Constructors rbt : rbtree.

Lemma rbt_color c n t : rbt c n t -> color t = c.
Proof. by destruct 1. Qed.

Lemma rbt_paint_black c n t : rbt c n t -> exists n', rbt RB_BLACK n' (paint RB_BLACK t).
Proof. destruct 1; unfold paint; eexists; econstructor; eauto with rbtree. Qed.

Lemma rbt_paint_red n t : rbt RB_RED n t -> rbt RB_BLACK (S n) (paint RB_BLACK t).
Proof. inversion 1; subst. unfold paint. by econstructor. Qed.

Lemma rbt_paint_same n t : rbt RB_BLACK n t -> rbt RB_BLACK n (paint RB_BLACK t).
Proof. inversion 1; subst; unfold paint; by econstructor. Qed.

Lemma zip_rbt c n pc t p :
  rbt c n t -> ctx n pc p -> (c = RB_RED -> pc = RB_BLACK) ->
  exists c' n', rbt c' n' (zip t p) /\ (p <> [] -> c' = RB_BLACK).
Proof.
  intros Ht Hp. revert c t Ht. induction Hp as [n|n f p Hf Ho Hne Hp IH|n pc c' f p Hf Ho Hp IH];
    intros c t Ht Hc.
  - by exists c, n.
  - destruct c; [by specialize (Hc eq_refl)|].
    destruct (IH RB_RED (plug t f)) as (c' & n' & ? & Hb); [|done|].
    + destruct f as [[] x o]; cbn in *; by constructor.
    + exists c', n'. auto.
  - destruct (IH RB_BLACK (plug t f)) as (c2 & n' & Hz & Hb); [|done|].
    + destruct f as [[] x o]; cbn in *; by econstructor.
    + exists c2, n'. split; [done|]. intros _. destruct p; [|by apply Hb].
      cbn in Hz. apply rbt_color in Hz. rewrite <- Hz. destruct f as [[] x o]; done.
Qed.

Lemma zip_paint_rbt c n pc t p :
  rbt c n t -> ctx n pc p -> (c = RB_RED -> pc = RB_BLACK) ->
  exists n', rbt RB_BLACK n' (paint RB_BLACK (zip t p)).
Proof.
  intros Ht Hp Hc. destruct (zip_rbt c n pc t p Ht Hp Hc) as (c' & n' & Hz & _).
  by eapply rbt_paint_black.
Qed.

(** A black node over two subtrees of equal height. *)
Lemma black_node n l x r cl cr :
  rb_color_of x = RB_BLACK -> rbt cl n l -> rbt cr n r -> rbt RB_BLACK (S n) (Node l x r).
Proof. by econstructor. Qed.

Ltac rb_inv :=
  repeat match goal with
  | H : rbt _ _ Leaf |- _ => inversion H; subst; clear H
  | H : rbt _ _ (Node _ _ _) |- _ => inversion H; subst; clear H
  end; try congruence.

Ltac rb_build :=
  unfold rb_left_rotate, rb_right_rotate, paint; cbn;
  first [assumption | eapply rbt_red; [done|rb_build|rb_build]
        | eapply rbt_black; [done|rb_build|rb_build] | eassumption | apply rbt_leaf].

Lemma insert_fixup_rbt t p n pc :
  rbt RB_RED n t -> ctx n pc p -> exists n', rbt RB_BLACK n' (rbtree_insert_fixup t p).
Proof.
  remember (length p) as k eqn:Hk. revert t p n pc Hk.
  induction k as [k IH] using (well_founded_induction Nat.lt_wf_0). intros t p n pc -> Ht Hp.
  destruct p as [|f [|g rest]]; cbn [rbtree_insert_fixup].
  - by eapply rbt_paint_black.
  - apply (zip_paint_rbt RB_RED n pc t [f]); [done..|]. intros _. by inversion Hp; subst.
  - case_decide as Hf.
    2: { eapply zip_paint_rbt; [exact Ht|exact Hp|]. intros _. inversion Hp; subst; [congruence|done]. }
    inversion Hp as [|? ? ? _ Hfo _ Hg|]; subst; [|congruence].
    inversion Hg as [| |? c' cg ? ? Hgc Hgo Hrest]; subst.
    destruct f as [fs fn fo], g as [gs gn go]; cbn [f_side f_node f_other] in *.
    inversion Ht as [|? l x r Hx Hl Hr|]; subst.
    pose proof (rbt_color _ _ _ Hgo) as Hgoc. rewrite Hgoc.
    destruct gs, cg; [rewrite decide_True by done|rewrite decide_False by done
                     |rewrite decide_True by done|rewrite decide_False by done].
    + eapply (IH (length rest)); [cbn; lia|done| |exact Hrest].
      apply rbt_paint_red in Hgo. destruct fs; cbn; constructor; try done; by econstructor.
    + eapply (zip_paint_rbt RB_BLACK); [|exact Hrest|done].
      destruct fs; cbn [plug f_side f_node f_other]; rb_build.
    + eapply (IH (length rest)); [cbn; lia|done| |exact Hrest].
      apply rbt_paint_red in Hgo. destruct fs; cbn; constructor; try done; by econstructor.
    + eapply (zip_paint_rbt RB_BLACK); [|exact Hrest|done].
      destruct fs; cbn [plug f_side f_node f_other]; rb_build.
Qed.

Lemma ctx_insert_descend node t p c n pc :
  rbt c n t -> ctx n pc p -> (c = RB_RED -> pc = RB_BLACK) -> (p = [] -> c = RB_BLACK) ->
  exists pc', ctx 0 pc' (insert_descend node t p).
Proof.
  revert p c n pc. induction t as [|l IHl x r IHr]; intros p c n pc Ht Hp Hc Hroot; cbn.
  - inversion Ht; subst. eauto.
  - inversion Ht as [|? ? ? ? Hx Hl Hr|? cl cr ? ? ? Hx Hl Hr]; subst.
    + specialize (Hc eq_refl). subst pc. assert (p <> []) by (intros ->; by specialize (Hroot eq_refl)).
      destruct (_ <? _); [apply (IHl _ RB_BLACK n RB_RED)|apply (IHr _ RB_BLACK n RB_RED)];
        try done; by constructor.
    + destruct (_ <? _); [apply (IHl _ cl n0 RB_BLACK)|apply (IHr _ cr n0 RB_BLACK)];
        try done; by econstructor.
Qed.

(** ** The deletion loop *)

Definition res_elems (r : fixup_result) : list zelem :=
  match r with FixDone t => elems t | FixMore t p => before p ++ elems t ++ after p end.

Definition res_sized (r : fixup_result) : Prop :=
  match r with FixDone t => sized t | FixMore t p => sized t /\ path_sized (size_of t) p end.

(** Painting the sibling before the last rotation keeps its elements. *)
Definition set_sibling_left (c : rb_color) (s : tree) : tree :=
  match s with Node l n r => Node l (set_color c n) (paint RB_BLACK r) | Leaf => Leaf end.

Definition set_sibling_right (c : rb_color) (s : tree) : tree :=
  match s with Node l n r => Node (paint RB_BLACK l) (set_color c n) r | Leaf => Leaf end.

Lemma elems_sibling_left c s : elems (set_sibling_left c s) = elems s.
Proof. destruct s; elems_eq. Qed.

Lemma elems_sibling_right c s : elems (set_sibling_right c s) = elems s.
Proof. destruct s; elems_eq. Qed.

Lemma sized_sibling_left c s :
  sized s -> sized (set_sibling_left c s) /\ size_of (set_sibling_left c s) = size_of s.
Proof.
  destruct s as [|l n r]; [done|]. cbn. rewrite size_paint. intros (? & ? & ?).
  split_and!; try done. by apply sized_paint.
Qed.

Lemma sized_sibling_right c s :
  sized s -> sized (set_sibling_right c s) /\ size_of (set_sibling_right c s) = size_of s.
Proof.
  destruct s as [|l n r]; [done|]. cbn. rewrite size_paint. intros (? & ? & ?).
  split_and!; try done. by apply sized_paint.
Qed.

(** The inner rotation of a sibling whose outer child is black. *)
Definition turn_sibling_left (s : tree) : tree :=
  match s with
  | Node l n r => rb_right_rotate (Node (paint RB_BLACK l) (set_color RB_RED n) r)
  | Leaf => Leaf
  end.

Definition turn_sibling_right (s : tree) : tree :=
  match s with
  | Node l n r => rb_left_rotate (Node l (set_color RB_RED n) (paint RB_BLACK r))
  | Leaf => Leaf
  end.

Lemma elems_turn_left s : elems (turn_sibling_left s) = elems s.
Proof. destruct s; unfold turn_sibling_left; elems_eq. Qed.

Lemma elems_turn_right s : elems (turn_sibling_right s) = elems s.
Proof. destruct s; unfold turn_sibling_right; elems_eq. Qed.

Lemma sized_turn_left s :
  sized s -> sized (turn_sibling_left s) /\ size_of (turn_sibling_left s) = size_of s.
Proof.
  destruct s as [|l n r]; [done|]. intros (Hl & Hr & Hs). unfold turn_sibling_left.
  edestruct right_rotate_sized as [H1 H2]; [|split; [exact H1|rewrite H2; reflexivity]].
  cbn. rewrite size_paint. split_and!; try done. by apply sized_paint.
Qed.

Lemma sized_turn_right s :
  sized s -> sized (turn_sibling_right s) /\ size_of (turn_sibling_right s) = size_of s.
Proof.
  destruct s as [|l n r]; [done|]. intros (Hl & Hr & Hs). unfold turn_sibling_right.
  edestruct left_rotate_sized as [H1 H2]; [|split; [exact H1|rewrite H2; reflexivity]].
  cbn. rewrite size_paint. split_and!; try done. by apply sized_paint.
Qed.

#[export] Hint Rewrite elems_sibling_left elems_sibling_right elems_turn_left elems_turn_right : rb.

Lemma left_black_unfold node parent sibling rest :
  delete_left_black node parent sibling rest =
  if decide (color (other_left sibling) = RB_BLACK /\ color (other_right sibling) = RB_BLACK) then
    FixMore (Node node parent (paint RB_RED sibling)) rest
  else
    let s := if decide (color (other_right sibling) = RB_BLACK)
             then turn_sibling_left sibling else sibling in
    FixDone (paint RB_BLACK (zip (rb_left_rotate (Node node (set_color RB_BLACK parent)
      (set_sibling_left (rb_color_of parent) s))) rest)).
Proof. reflexivity. Qed.

Lemma right_black_unfold node parent sibling rest :
  delete_right_black node parent sibling rest =
  if decide (color (other_right sibling) = RB_BLACK /\ color (other_left sibling) = RB_BLACK) then
    FixMore (Node (paint RB_RED sibling) parent node) rest
  else
    let s := if decide (color (other_left sibling) = RB_BLACK)
             then turn_sibling_right sibling else sibling in
    FixDone (paint RB_BLACK (zip (rb_right_rotate (Node
      (set_sibling_right (rb_color_of parent) s) (set_color RB_BLACK parent) node)) rest)).
Proof. reflexivity. Qed.

Lemma left_black_elems node parent sibling rest :
  res_elems (delete_left_black node parent sibling rest)
  = before rest ++ elems (Node node parent sibling) ++ after rest.
Proof. rewrite left_black_unfold. repeat case_decide; cbn [res_elems]; elems_eq. Qed.

Lemma right_black_elems node parent sibling rest :
  res_elems (delete_right_black node parent sibling rest)
  = before rest ++ elems (Node sibling parent node) ++ after rest.
Proof. rewrite right_black_unfold. repeat case_decide; cbn [res_elems]; elems_eq. Qed.

Lemma left_black_sized node parent sibling rest :
  sized (Node node parent sibling) -> path_sized (subtree_size parent) rest ->
  res_sized (delete_left_black node parent sibling rest).
Proof.
  intros (Hn & Hs & Hz) Hp. rewrite left_black_unfold. case_decide; cbn [res_sized].
  { split; [|done]. cbn. rewrite size_paint. split_and!; try done. by apply sized_paint. }
  set (s := if decide _ then _ else _). cbn zeta.
  assert (Hs' : sized s /\ size_of s = size_of sibling) by (unfold s; case_decide; auto using sized_turn_left).
  destruct (sized_sibling_left (rb_color_of parent) s (proj1 Hs')) as [H1 H2].
  apply sized_paint.
  destruct (left_rotate_sized (Node node (set_color RB_BLACK parent)
    (set_sibling_left (rb_color_of parent) s))) as [H3 H4].
  { cbn. split_and!; try done. rewrite H2, (proj2 Hs'). done. }
  apply sized_zip; [done|]. by rewrite H4.
Qed.

Lemma right_black_sized node parent sibling rest :
  sized (Node sibling parent node) -> path_sized (subtree_size parent) rest ->
  res_sized (delete_right_black node parent sibling rest).
Proof.
  intros (Hs & Hn & Hz) Hp. rewrite right_black_unfold. case_decide; cbn [res_sized].
  { split; [|done]. cbn. rewrite size_paint. split_and!; try done. by apply sized_paint. }
  set (s := if decide _ then _ else _). cbn zeta.
  assert (Hs' : sized s /\ size_of s = size_of sibling) by (unfold s; case_decide; auto using sized_turn_right).
  destruct (sized_sibling_right (rb_color_of parent) s (proj1 Hs')) as [H1 H2].
  apply sized_paint.
  destruct (right_rotate_sized (Node (set_sibling_right (rb_color_of parent) s)
    (set_color RB_BLACK parent) node)) as [H3 H4].
  { cbn. split_and!; try done. rewrite H2, (proj2 Hs'). done. }
  apply sized_zip; [done|]. by rewrite H4.
Qed.

Lemma delete_step_elems t f rest :
  res_elems (delete_step t f rest) = before (f :: rest) ++ elems t ++ after (f :: rest).
Proof.
  unfold delete_step. destruct f as [[] n o]; cbn [f_side f_node f_other];
    destruct o as [|sl sn sr]; try case_decide;
    unfold rb_left_rotate, rb_right_rotate; cbn [rb_recalculate];
    rewrite ?left_black_elems, ?right_black_elems; elems_eq.
Qed.

Lemma delete_step_sized t f rest :
  sized t -> path_sized (size_of t) (f :: rest) -> res_sized (delete_step t f rest).
Proof.
  intros Ht (Ho & Hs & Hp). unfold delete_step. destruct f as [[] n o]; cbn [f_side f_node f_other] in *;
    destruct o as [|sl sn sr]; try case_decide;
    unfold rb_left_rotate, rb_right_rotate; cbn [rb_recalculate];
    (apply left_black_sized || apply right_black_sized); 
    cbn in *; destruct_and?; split_and?; try done; try lia;
    match goal with |- path_sized ?z _ => by replace z with (subtree_size n) by lia end.
Qed.

(** Where the hole below [parent] stands: the tree with [parent] at its root
    must have the height the rest expects. *)
Definition parent_ctx (n : nat) (parent : rb_node) (rest : path) : Prop :=
  (rb_color_of parent = RB_RED /\ ctx n RB_BLACK rest /\ rest <> []) \/
  (rb_color_of parent = RB_BLACK /\ exists pc, ctx (S n) pc rest).

(** The subtree of the loop: one black node short, or red, and then painting
    it restores the height. *)
Definition hole_ok (n : nat) (t : tree) : Prop :=
  (color t = RB_RED /\ rbt RB_BLACK (S n) (paint RB_BLACK t)) \/ rbt RB_BLACK n t.

(** Bound on the iterations left. *)
Definition res_measure (t : tree) (p : path) : nat :=
  if decide (color t = RB_RED) then 0 else length p.

Definition res_rbt (bound : nat) (r : fixup_result) : Prop :=
  match r with
  | FixDone t => exists n, rbt RB_BLACK n t
  | FixMore t p => exists n pc, hole_ok n t /\ ctx (S n) pc p /\ (res_measure t p < bound)%nat
  end.

Lemma rbt_hole_ok c n t : rbt c n t -> hole_ok n t.
Proof.
  intros Ht. destruct c; [left|by right]. split; [by eapply rbt_color|by apply rbt_paint_red].
Qed.

(** A tree with the color of [parent] fits in the place of [parent]. *)
Lemma parent_fits n parent rest t :
  parent_ctx n parent rest ->
  (rb_color_of parent = RB_RED -> rbt RB_RED n t) ->
  (rb_color_of parent = RB_BLACK -> rbt RB_BLACK (S n) t) ->
  exists n', rbt RB_BLACK n' (paint RB_BLACK (zip t rest)).
Proof.
  intros [(Hc & Hp & _)|(Hc & pc & Hp)] Hr Hb.
  - eapply zip_paint_rbt; [by apply Hr|exact Hp|done].
  - eapply zip_paint_rbt; [by apply Hb|exact Hp|done].
Qed.

(** Both subtrees of [parent] one black node short: the loop moves up. *)
Lemma recolored_more n l r parent rest bound :
  parent_ctx (S n) parent rest -> (exists cl cr, rbt cl n l /\ rbt cr n r) ->
  (0 < bound)%nat -> (rb_color_of parent = RB_BLACK -> (length rest < bound)%nat) ->
  res_rbt bound (FixMore (Node l parent r) rest).
Proof.
  intros Hctx (cl & cr & Hl & Hr) Hb1 Hb2. cbn. unfold res_measure, hole_ok. cbn [color].
  destruct Hctx as [(Hc & Hp & _)|(Hc & pc & Hp)]; rewrite Hc in *.
  - exists n, RB_BLACK. rewrite decide_True by done. split; [left|done].
    split; [done|]. unfold paint. by econstructor.
  - exists (S n), pc. rewrite decide_False by done. split; [right; by econstructor|auto].
Qed.

Lemma left_black_rbt n node parent sibling rest bound :
  parent_ctx (S n) parent rest -> rbt RB_BLACK n node -> rbt RB_BLACK (S n) sibling ->
  (0 < bound)%nat -> (rb_color_of parent = RB_BLACK -> (length rest < bound)%nat) ->
  res_rbt bound (delete_left_black node parent sibling rest).
Proof.
  intros Hctx Hn Hs Hb1 Hb2. rewrite left_black_unfold.
  inversion Hs as [| |? cl cr sl sn sr Hsc Hl Hr]; subst; cbn [other_left other_right].
  rewrite (rbt_color _ _ _ Hl), (rbt_color _ _ _ Hr).
  case_decide as Hd.
  - destruct Hd as [-> ->]. apply (recolored_more n); try done. exists RB_BLACK, RB_RED.
    split; [done|]. unfold paint. by constructor.
  - cbn [res_rbt]. cbn zeta. case_decide as Hd2.
    + subst cr. destruct cl; [|naive_solver]. inversion Hl; subst. unfold turn_sibling_left.
      apply (parent_fits (S n) parent); [done|intros Hc..]; rewrite Hc; rb_build.
    + destruct cr; [|done]. apply rbt_paint_red in Hr. unfold set_sibling_left.
      apply (parent_fits (S n) parent); [done|intros Hc..]; rewrite Hc; rb_build.
Qed.

Lemma right_black_rbt n node parent sibling rest bound :
  parent_ctx (S n) parent rest -> rbt RB_BLACK n node -> rbt RB_BLACK (S n) sibling ->
  (0 < bound)%nat -> (rb_color_of parent = RB_BLACK -> (length rest < bound)%nat) ->
  res_rbt bound (delete_right_black node parent sibling rest).
Proof.
  intros Hctx Hn Hs Hb1 Hb2. rewrite right_black_unfold.
  inversion Hs as [| |? cl cr sl sn sr Hsc Hl Hr]; subst; cbn [other_left other_right].
  rewrite (rbt_color _ _ _ Hl), (rbt_color _ _ _ Hr).
  case_decide as Hd.
  - destruct Hd as [-> ->]. apply (recolored_more n); try done. exists RB_RED, RB_BLACK.
    split; [|done]. unfold paint. by constructor.
  - cbn [res_rbt]. cbn zeta. case_decide as Hd2.
    + subst cl. destruct cr; [|naive_solver]. inversion Hr; subst. unfold turn_sibling_right.
      apply (parent_fits (S n) parent); [done|intros Hc..]; rewrite Hc; rb_build.
    + destruct cl; [|done]. apply rbt_paint_red in Hl. unfold set_sibling_right.
      apply (parent_fits (S n) parent); [done|intros Hc..]; rewrite Hc; rb_build.
Qed.

Lemma delete_step_rbt n t f rest pc :
  rbt RB_BLACK n t -> ctx (S n) pc (f :: rest) ->
  res_rbt (S (length rest)) (delete_step t f rest).
Proof.
  intros Ht Hp.
  assert (Hcase : exists co, rbt co (S n) (f_other f) /\
            (co = RB_RED -> rb_color_of (f_node f) = RB_BLACK) /\ parent_ctx (S n) (f_node f) rest).
  { inversion Hp as [|? ? ? Hc Ho Hne Hr|? pc' c' ? ? Hc Ho Hr]; subst.
    - exists RB_BLACK. split; [done|]. split; [done|]. by left.
    - exists c'. split; [done|]. split; [done|]. right. eauto. }
  destruct Hcase as (co & Ho & Hcol & Hctx). destruct f as [fs fn fo]; cbn [f_side f_node f_other] in *.
  unfold delete_step; cbn [f_side f_node f_other].
  destruct fo as [|sl sn sr]; [by inversion Ho|].
  destruct co.
  - (* red sibling: its subtrees are black *)
    specialize (Hcol eq_refl). inversion Ho as [|? ? ? ? Hsn Hsl Hsr|]; subst.
    destruct Hctx as [(Hc & _)|(_ & pc' & Hctx)]; [congruence|].
    assert (Hnew : forall sd x o, rb_color_of x = RB_BLACK -> rbt RB_BLACK (S n) o ->
              parent_ctx (S n) (set_size 0 (set_color RB_RED fn)) (mk_frame sd x o :: rest)).
    { intros sd x o Hx Hox. left. split; [done|]. split; [|done]. by econstructor. }
    destruct fs; rewrite decide_True by done;
      unfold rb_left_rotate, rb_right_rotate; cbn [rb_recalculate].
    + apply (left_black_rbt n); [by apply (Hnew InLeft)|done|done|lia|done].
    + apply (right_black_rbt n); [by apply (Hnew InRight)|done|done|lia|done].
  - inversion Ho as [| |? ? ? ? ? ? Hsn _ _]; subst.
    destruct fs; rewrite decide_False by congruence.
    + apply (left_black_rbt n); try done; lia.
    + apply (right_black_rbt n); try done; lia.
Qed.

Lemma delete_fixup_rbt fuel n t p pc :
  hole_ok n t -> ctx (S n) pc p -> (res_measure t p < fuel)%nat ->
  exists n', rbt RB_BLACK n' (rbtree_delete_fixup fuel t p).
Proof.
  revert n t p pc. induction fuel as [|fuel IH]; intros n t p pc Ht Hp Hf; [lia|].
  cbn [rbtree_delete_fixup]. destruct p as [|f rest].
  - cbn [zip]. destruct Ht as [[_ Ht]|Ht]; [eauto|]. apply rbt_paint_same in Ht. eauto.
  - unfold res_measure in Hf. destruct (decide (color t = RB_BLACK)) as [Hb|Hb].
    + destruct Ht as [[Ht _]|Ht]; [congruence|].
      rewrite decide_False in Hf by congruence.
      pose proof (delete_step_rbt n t f rest pc Ht Hp) as Hs.
      destruct (delete_step t f rest) as [t'|t' p']; cbn in Hs; [done|].
      destruct Hs as (n' & pc' & ? & ? & ?). eapply IH; [done..|]. cbn in Hf. lia.
    + destruct Ht as [[_ Ht]|Ht]; [|by apply rbt_color in Ht].
      destruct (zip_rbt _ _ _ _ _ Ht Hp) as (c' & n' & Hz & Hc); [done|].
      rewrite (Hc ltac:(done)) in Hz. eauto.
Qed.

Lemma delete_fixup_elems fuel t p :
  elems (rbtree_delete_fixup fuel t p) = before p ++ elems t ++ after p.
Proof.
  revert t p. induction fuel as [|fuel IH]; intros t p; cbn [rbtree_delete_fixup];
    [by rewrite elems_zip, elems_paint|].
  destruct p as [|f rest]; [by rewrite elems_zip, elems_paint|].
  case_decide; [|by rewrite elems_zip, elems_paint].
  rewrite <- delete_step_elems. destruct (delete_step t f rest); cbn [res_elems]; [done|apply IH].
Qed.

Lemma delete_fixup_sized fuel t p :
  sized t -> path_sized (size_of t) p -> sized (rbtree_delete_fixup fuel t p).
Proof.
  revert t p. induction fuel as [|fuel IH]; intros t p Ht Hp; cbn [rbtree_delete_fixup].
  - apply sized_zip; [by apply sized_paint|by rewrite size_paint].
  - destruct p as [|f rest]; [by apply sized_paint|]. case_decide.
    + pose proof (delete_step_sized t f rest Ht Hp) as Hs.
      destruct (delete_step t f rest); cbn in Hs; [done|]. destruct Hs. by apply IH.
    + apply sized_zip; [by apply sized_paint|by rewrite size_paint].
Qed.

(** ** Following pointers *)

Lemma zip_app t p q : zip t (p ++ q) = zip (zip t p) q.
Proof. revert t. induction p as [|f p IH]; intros t; cbn; [done|apply IH]. Qed.

Lemma before_app p q : before (p ++ q) = before q ++ before p.
Proof. induction p as [|f p IH]; cbn; [by rewrite app_nil_r|]. by rewrite IH, app_assoc. Qed.

Lemma after_app p q : after (p ++ q) = after p ++ after q.
Proof. induction p as [|f p IH]; cbn; [done|]. by rewrite IH, app_assoc. Qed.

Lemma unzip_sized t p : sized (zip t p) -> sized t /\ path_sized (size_of t) p.
Proof.
  revert t. induction p as [|[[] n o] p IH]; intros t; cbn; [done|..];
    intros H; apply IH in H as ((? & ? & Hs) & ?); cbn in *; split_and!; done || lia.
Qed.

Lemma unzip_rbt t p N :
  rbt RB_BLACK N (zip t p) ->
  exists c n pc, rbt c n t /\ ctx n pc p /\ (c = RB_RED -> pc = RB_BLACK) /\ (p = [] -> c = RB_BLACK).
Proof.
  revert t. induction p as [|f p IH]; intros t; cbn.
  - intros H. exists RB_BLACK, N, RB_BLACK. split_and!; try done. constructor.
  - intros (c & n & pc & Ht & Hp & Hc & Hroot)%IH.
    destruct f as [[] x o]; cbn in Ht;
      (inversion Ht as [|? ? ? ? Hx Hl Hr|? cl cr ? ? ? Hx Hl Hr]; subst;
       [exists RB_BLACK, n, RB_RED; split_and!; try done; specialize (Hc eq_refl); subst pc;
        constructor; try done; intros ->; by specialize (Hroot eq_refl)|]).
    + exists cl, n0, RB_BLACK. split_and!; try done. by econstructor.
    + exists cr, n0, RB_BLACK. split_and!; try done. by econstructor.
Qed.

Lemma locate_sound m t p t' p' :
  locate m t p = Some (t', p') ->
  zip t' p' = zip t p /\ exists l n r, t' = Node l n r /\ rb_member n = m.
Proof.
  revert p. induction t as [|l IHl n r IHr]; intros p; cbn; [done|].
  case_decide as Hd; [intros [= <- <-]; eauto 6|].
  destruct (locate m l _) as [[t1 p1]|] eqn:E.
  - intros [= <- <-]. by apply IHl in E.
  - intros E'. by apply IHr in E'.
Qed.

Lemma locate_complete m t p : m ∈ (elems t).*2 -> is_Some (locate m t p).
Proof.
  revert p. induction t as [|l IHl n r IHr]; intros p; cbn; [by intros ?%elem_of_nil|].
  rewrite fmap_app, fmap_cons, elem_of_app, elem_of_cons. cbn. intros H.
  case_decide as Hd; [eauto|]. destruct (locate m l _) as [x|] eqn:E; [eauto|].
  destruct H as [H|[H|H]]; [|congruence|by apply IHr].
  apply (IHl (mk_frame InLeft n r :: p)) in H. rewrite E in H. by destruct H.
Qed.

Lemma minimum_spec t p :
  t <> Leaf ->
  exists moved mr mp, rb_minimum t p = (Node Leaf moved mr, mp ++ p) /\
    zip (Node Leaf moved mr) mp = t /\ before mp = [].
Proof.
  revert p. induction t as [|l IHl n r _]; intros p Hne; [done|].
  destruct l as [|ll ln lr].
  - exists n, r, []. done.
  - destruct (IHl (mk_frame InLeft n r :: p)) as (moved & mr & mp & Hm & Hz & Hb); [done|].
    exists moved, mr, (mp ++ [mk_frame InLeft n r]). split_and!.
    + change (rb_minimum (Node (Node ll ln lr) n r) p)
        with (rb_minimum (Node ll ln lr) (mk_frame InLeft n r :: p)). rewrite Hm. by rewrite <- app_assoc.
    + rewrite zip_app, Hz. done.
    + rewrite before_app, Hb. done.
Qed.

Lemma recalculate_up_id t p : path_sized (size_of t) p -> rb_recalculate_up t p = p.
Proof.
  revert t. induction p as [|[sd [c sc m z] o] p IH]; intros t; cbn; [done|].
  intros (_ & -> & Hp). f_equal. apply IH. by rewrite size_plug.
Qed.

Lemma recalculate_from_id m t : sized t -> recalculate_from m t = t.
Proof.
  intros Ht. destruct m as [m|]; [|done]. cbn.
  destruct (locate m t []) as [[t' p']|] eqn:E; [|done].
  apply locate_sound in E as [Hz _]. cbn in Hz. rewrite <- Hz in Ht.
  apply unzip_sized in Ht as [Ht Hp]. by rewrite sized_recalculate_id, recalculate_up_id.
Qed.

Lemma recalculate_up_sized t p :
  Forall (fun f => sized (f_other f)) p -> path_sized (size_of t) (rb_recalculate_up t p).
Proof.
  intros Hp. revert t. induction Hp as [|f p Hf Hp IH]; intros t; cbn; [done|].
  split; [done|]. split; [done|]. set (f' := mk_frame _ _ _).
  specialize (IH (plug t f')). by rewrite size_plug in IH.
Qed.

Lemma recalculate_up_ctx n c t p : ctx n c p -> ctx n c (rb_recalculate_up t p).
Proof.
  intros Hp. revert t. induction Hp as [n|n f p Hf Ho Hne Hp IH|n c c' f p Hf Ho Hp IH];
    intros t; cbn; [constructor| |].
  - constructor; try done. by destruct p.
  - by econstructor.
Qed.

Lemma length_recalculate_up t p : length (rb_recalculate_up t p) = length p.
Proof. revert t. induction p as [|f p IH]; intros t; cbn; [done|by rewrite IH]. Qed.

Lemma path_sized_others z p : path_sized z p -> Forall (fun f => sized (f_other f)) p.
Proof. revert z. induction p as [|f p IH]; intros z; cbn; [done|]. intros (? & _ & ?). eauto. Qed.

Lemma ctx_swap n c a f f' b :
  rb_color_of (f_node f') = rb_color_of (f_node f) -> f_other f' = f_other f ->
  ctx n c (a ++ f :: b) -> ctx n c (a ++ f' :: b).
Proof.
  intros Hc Ho. revert n c. induction a as [|g a IH]; intros n c; cbn; intros H.
  - inversion H; subst; [apply ctx_red|eapply ctx_black]; rewrite ?Hc, ?Ho; done.
  - inversion H; subst; [constructor; try done; [by destruct a|by apply IH]|econstructor; try done; by apply IH].
Qed.

(** The common end of a removal. *)
Lemma detach_finish_spec original fixup p n c pc :
  sized fixup -> Forall (fun f => sized (f_other f)) p -> rbt c n fixup ->
  (original = RB_RED -> ctx n pc p /\ (c = RB_RED -> pc = RB_BLACK) /\ p <> []) ->
  (original = RB_BLACK -> ctx (S n) pc p) ->
  let t := detach_finish original fixup p in
  elems t = before p ++ elems fixup ++ after p /\ sized t /\ exists n', rbt RB_BLACK n' t.
Proof.
  intros Hs Hp Hr Hred Hblack t. unfold t, detach_finish.
  pose proof (recalculate_up_sized fixup p Hp) as Hps.
  destruct (elems_recalculate_up fixup p) as [Hb Ha].
  set (p' := rb_recalculate_up fixup p) in *.
  set (t' := if decide _ then _ else _).
  assert (Ht' : elems t' = before p ++ elems fixup ++ after p /\ sized t' /\ exists n', rbt RB_BLACK n' t').
  { unfold t'. case_decide as Hd.
    - split; [by rewrite delete_fixup_elems, Hb, Ha|]. split; [by apply delete_fixup_sized|].
      eapply delete_fixup_rbt; [by eapply rbt_hole_ok|by apply recalculate_up_ctx, Hblack|].
      unfold res_measure. case_decide; lia.
    - split; [by rewrite elems_zip, Hb, Ha|]. split; [by apply sized_zip|].
      destruct original; [|done]. destruct (Hred eq_refl) as (Hc & Hcc & Hne).
      destruct (zip_rbt c n pc fixup p') as (c' & n' & Hz & Hroot);
        [done|by apply recalculate_up_ctx|done|].
      rewrite Hroot in Hz by (unfold p'; by destruct p). eauto. }
  destruct Ht' as (He & Hsz & Hrb). rewrite recalculate_from_id by done. done.
Qed.

(** ** Invariant of the tree *)

Record rb_wf (tr : rb_tree) : Prop := {
  rbw_sorted : zsorted (elems (rb_root tr));
  rbw_sized : sized (rb_root tr);
  rbw_balanced : exists n, rbt RB_BLACK n (rb_root tr);
  rbw_length : rb_length tr = zlen (elems (rb_root tr))
}.

Definition rb_repr (tr : rb_tree) (l : list zelem) : Prop := rb_wf tr /\ l = elems (rb_root tr).

(** A node ready to be inserted. *)
Definition rb_node_ok (n : rb_node) : Prop := rb_color_of n = RB_RED /\ subtree_size n = 1.

Lemma insert_descend_split node t p a b :
  (forall y, y ∈ a -> elem_lt y (elem_of_rb node)) ->
  (forall y, y ∈ b -> elem_lt (elem_of_rb node) y) ->
  elems t = a ++ b ->
  before (insert_descend node t p) = before p ++ a /\
  after (insert_descend node t p) = b ++ after p.
Proof.
  revert p a b. induction t as [|l IHl n r IHr]; intros p a b Ha Hb Hab.
  { cbn. cbn in Hab. symmetry in Hab. apply app_eq_nil in Hab as [-> ->]. by rewrite app_nil_r. }
  cbn [insert_descend]. cbn in Hab.
  destruct (Z.ltb_spec (compare_order (rb_score node) (rb_member node) (rb_score n) (rb_member n)) 0) as [Hlt|Hge].
  - change (elem_lt (elem_of_rb node) (elem_of_rb n)) in Hlt.
    symmetry in Hab. apply app_eq_inv in Hab as [(k & -> & Hk)|(k & Hl & ->)].
    + (* the node would be among the smaller ones *)
      destruct k as [|y k].
      * cbn in Hk. subst b. rewrite app_nil_r in Ha.
        destruct (IHl (mk_frame InLeft (set_size (subtree_size n + 1) n) r :: p) (elems l) []) as [-> ->];
          [done|by intros y ?%elem_of_nil|by rewrite app_nil_r|]. cbn. rewrite ?app_nil_r. done.
      * injection Hk as <- _. exfalso. apply (elem_lt_irrefl (elem_of_rb node)). etrans; [exact Hlt|].
        apply Ha. rewrite elem_of_app, elem_of_cons. auto.
    + destruct (IHl (mk_frame InLeft (set_size (subtree_size n + 1) n) r :: p) a k) as [-> ->];
        [done|intros y Hy; apply Hb; rewrite elem_of_app; auto|done|].
      cbn. rewrite ?app_nil_r, <- app_assoc. done.
  - assert (Hnlt : ~ elem_lt (elem_of_rb node) (elem_of_rb n)) by (unfold elem_lt, elem_cmp; cbn; lia).
    symmetry in Hab. apply app_eq_inv in Hab as [(k & -> & Hk)|(k & Hl & ->)].
    + destruct k as [|y k].
      * cbn in Hk. subst b. exfalso. apply Hnlt, Hb, elem_of_cons. by left.
      * injection Hk as <- Hk.
        destruct (IHr (mk_frame InRight (set_size (subtree_size n + 1) n) l :: p) k b) as [-> ->];
          [intros y Hy; apply Ha; rewrite elem_of_app, elem_of_cons; auto|done|by symmetry|].
        cbn. rewrite <- !app_assoc. done.
    + exfalso. apply Hnlt, Hb. rewrite elem_of_app, elem_of_cons. auto.
Qed.

Lemma rb_insert_ok tr l n :
  rb_repr tr l -> rb_node_ok n -> rb_member n ∉ l.*2 ->
  rb_repr (rbtree_insert_node tr n) (elem_insert (elem_of_rb n) l).
Proof.
  intros [[Hso Hsz [h Hrb] Hlen] ->] [Hc Hs1] Hm.
  destruct (elem_insert_split (elem_of_rb n) _ Hso Hm) as (a & b & Hab & Hins & Ha & Hb).
  destruct (insert_descend_split n (rb_root tr) [] a b Ha Hb Hab) as [Hbef Haft].
  assert (He : elems (rb_root (rbtree_insert_node tr n)) = elem_insert (elem_of_rb n) (elems (rb_root tr))).
  { cbn. rewrite insert_fixup_elems, Hbef, Haft, Hins. cbn. by rewrite app_nil_r. }
  split; [|done]. split.
  - rewrite He. by apply elem_insert_sorted.
  - cbn. apply insert_fixup_sized; [by cbn; rewrite Hs1|]. cbn. rewrite Hs1.
    by apply insert_descend_sized.
  - cbn. destruct (ctx_insert_descend n (rb_root tr) [] RB_BLACK h RB_BLACK) as [pc Hctx];
      [done|constructor|done|done|].
    eapply insert_fixup_rbt; [|exact Hctx]. by repeat constructor.
  - rewrite He. cbn [rb_length rbtree_insert_node]. rewrite Hlen. unfold zlen.
    rewrite elem_insert_perm. cbn [length]. lia.
Qed.

(** A removal that takes [c0], which has a leaf child, out of its place [q]
    and leaves [fixup] below [q']. *)
Lemma detach_place_spec c0 fixup q q' T N :
  sized T -> rbt RB_BLACK N T ->
  zip (Node Leaf c0 fixup) q = T \/ zip (Node fixup c0 Leaf) q = T ->
  Forall (fun f => sized (f_other f)) q' ->
  (forall n c, ctx n c q -> ctx n c q') -> (q <> [] -> q' <> []) ->
  let t := detach_finish (rb_color_of c0) fixup q' in
  elems t = before q' ++ elems fixup ++ after q' /\ sized t /\ exists n', rbt RB_BLACK n' t.
Proof.
  intros Hs Hr Hz Hq' Hctx Hne'.
  assert (Hsf : sized fixup)
    by (destruct Hz as [<-|<-]; apply unzip_sized in Hs as [(? & ? & _) _]; done).
  assert (Hc : exists c n pc, rbt c n fixup /\
            (rb_color_of c0 = RB_RED -> ctx n pc q /\ (c = RB_RED -> pc = RB_BLACK) /\ q <> []) /\
            (rb_color_of c0 = RB_BLACK -> ctx (S n) pc q)).
  { destruct Hz as [<-|<-]; apply unzip_rbt in Hr as (c & n & pc & Ht & Hp & Hcc & Hroot);
      (inversion Ht as [|? ? ? ? Hx Hl0 Hr0|? cl cr ? ? ? Hx Hl0 Hr0]; subst;
       [exists RB_BLACK, n, pc; split; [done|]; split; [|congruence]; intros _; split; [done|]; split; [done|];
        intros ->; by specialize (Hroot eq_refl)
       |eexists _, _, pc; split; [eassumption|]; split; [congruence|done]]). }
  destruct Hc as (c & n & pc & Hrf & H1 & H2).
  apply (detach_finish_spec _ _ _ n c pc); try done.
  - intros Hx. destruct (H1 Hx) as (Hq & ? & Hne). auto.
  - intros Hx. by apply Hctx, H2.
Qed.

Lemma rb_detach_spec tr m l target r p :
  rb_wf tr -> locate m (rb_root tr) [] = Some (Node l target r, p) ->
  let t := rb_root (rbtree_detach_node tr m).2 in
  elems t = before p ++ elems l ++ elems r ++ after p /\ sized t /\ exists n', rbt RB_BLACK n' t.
Proof.
  intros [_ Hs [N Hr] _] Hloc. cbn zeta. unfold rbtree_detach_node. rewrite Hloc.
  apply locate_sound in Hloc as [Hz _]. cbn in Hz.
  assert (Hp : Forall (fun f => sized (f_other f)) p).
  { rewrite <- Hz in Hs. apply unzip_sized in Hs as [_ Hp]. by eapply path_sized_others. }
  destruct l as [|ll ln lr]; [|destruct r as [|rl rn rr]]; cbn [snd rb_root].
  - apply (detach_place_spec target r p p _ N Hs Hr); auto.
  - apply (detach_place_spec target (Node ll ln lr) p p _ N Hs Hr); auto.
  - set (r := Node rl rn rr) in *. set (l := Node ll ln lr) in *.
    destruct (minimum_spec r []) as (moved & mr & mp & Hm & Hzm & Hb); [done|].
    rewrite app_nil_r in Hm. rewrite Hm.
    set (q := mp ++ mk_frame InRight target l :: p).
    set (q' := mp ++ mk_frame InRight (set_color (rb_color_of target) moved) l :: p).
    assert (Hq : zip (Node Leaf moved mr) q = rb_root tr).
    { unfold q. rewrite zip_app, Hzm. exact Hz. }
    destruct (detach_place_spec moved mr q q' (rb_root tr) N Hs Hr) as (He & ? & ?); [auto| | | |].
    + rewrite <- Hq in Hs. apply unzip_sized in Hs as [_ Hpq]. apply path_sized_others in Hpq.
      unfold q, q' in *. rewrite !Forall_app, !Forall_cons in *. done.
    + intros n c. by apply ctx_swap.
    + intros _. unfold q'. by destruct mp.
    + split; [|done]. rewrite He. unfold q'. rewrite before_app, after_app, Hb.
      cbn [before after f_side f_other f_node app]. rewrite app_nil_r. assert (Er : elems r = elems (zip (Node Leaf moved mr) mp)) by (by rewrite Hzm).
      rewrite Er, elems_zip, Hb. elems_eq.
Qed.

Lemma rb_detach_ok tr l sc m :
  rb_repr tr l -> (sc, m) ∈ l ->
  exists n, (rbtree_detach_node tr m).1 = Some n /\ elem_of_rb n = (sc, m) /\
    rb_repr (rbtree_detach_node tr m).2 (elem_remove m l).
Proof.
  intros [Hw ->] Hin.
  destruct (locate_complete m (rb_root tr) []) as [[t p] Hloc]; [by apply (list_elem_of_fmap_2 snd) in Hin|].
  destruct (locate_sound _ _ _ _ _ Hloc) as (Hz & l & n & r & -> & Hm). cbn in Hz.
  destruct (rb_detach_spec tr m l n r p Hw Hloc) as (He & Hs & Hr).
  destruct Hw as [Hso Hsz Hrb Hlen].
  assert (Hold : elems (rb_root tr) = (before p ++ elems l) ++ elem_of_rb n :: (elems r ++ after p)).
  { rewrite <- Hz, elems_zip. elems_eq. }
  assert (Hel : elem_of_rb n = (rb_score n, m)) by (unfold elem_of_rb; by rewrite Hm).
  pose proof Hso as [_ Hnd]. rewrite Hold, Hel, fmap_app, fmap_cons in Hnd.
  apply NoDup_app in Hnd as (_ & Hd & [Hm2 _]%NoDup_cons).
  assert (Hm1 : m ∉ (before p ++ elems l).*2).
  { intros Hx. apply (Hd m Hx), elem_of_cons. by left. }
  assert (Hrem : elem_remove m (elems (rb_root tr)) = elems (rb_root (rbtree_detach_node tr m).2)).
  { rewrite He, Hold, Hel, elem_remove_app by done. elems_eq. }
  exists n. split; [unfold rbtree_detach_node; by rewrite Hloc|]. split.
  - rewrite Hel. rewrite Hold, Hel, elem_of_app, elem_of_cons in Hin.
    destruct Hin as [Hx|[Hx|Hx]]; [|by symmetry|]; exfalso; apply (list_elem_of_fmap_2 snd) in Hx; auto.
  - split; [|done]. split; [|done|done|].
    + rewrite <- Hrem, Hold, Hel, elem_remove_app by done. rewrite Hold in Hso.
      by apply zsorted_app_remove in Hso.
    + rewrite He. unfold rbtree_detach_node. rewrite Hloc. cbn [snd rb_length]. rewrite Hlen, Hold.
      autorewrite with zlen. lia.
Qed.

(** ** Ranks and traversal *)

Lemma by_rank_spec_rb t p rank :
  sized t -> 0 <= rank ->
  match rbtree_by_rank rank t p with
  | Some (t', p') => exists l n r, t' = Node l n r /\ zip t' p' = zip t p /\
      zlen (before p' ++ elems l) = zlen (before p) + rank
  | None => zlen (elems t) <= rank
  end.
Proof.
  revert p rank. induction t as [|l IHl n r IHr]; intros p rank Hs Hr; [exact Hr|].
  cbn [rbtree_by_rank]. destruct Hs as (Hl & Hrs & Hz).
  rewrite (sized_length l Hl) in *. cbn [elems]. autorewrite with zlen.
  destruct (Z.ltb_spec rank (zlen (elems l))) as [Hlt|Hge].
  - specialize (IHl (mk_frame InLeft n r :: p) rank Hl Hr).
    destruct (rbtree_by_rank rank l _) as [[t' p']|]; [|pose proof (zlen_nonneg (elems r)); lia].
    cbn in IHl. by rewrite app_nil_r in IHl.
  - destruct (Z.eqb_spec rank (zlen (elems l))) as [He|Hne].
    + exists l, n, r. split; [done|]. split; [done|]. autorewrite with zlen. lia.
    + specialize (IHr (mk_frame InRight n l :: p) (rank - (zlen (elems l) + 1)) Hrs ltac:(lia)).
      destruct (rbtree_by_rank _ r _) as [[t' p']|]; [|lia].
      destruct IHr as (l' & n' & r' & ? & ? & Hb). exists l', n', r'. split; [done|]. split; [done|].
      rewrite Hb. cbn [before f_side f_other f_node]. autorewrite with zlen. lia.
Qed.

Lemma climb_spec t p :
  match climb t p with
  | None => after p = []
  | Some (t', p') => exists l n r, t' = Node l n r /\ after p = elem_of_rb n :: elems r ++ after p'
  end.
Proof.
  revert t. induction p as [|[[] n o] p IH]; intros t; cbn [climb f_side after]; [done| |].
  - eexists _, n, o. split; [reflexivity|]. done.
  - apply IH.
Qed.

Lemma successor_spec l n r p :
  match rb_successor (Node l n r) p with
  | None => elems r ++ after p = []
  | Some (t', p') => exists l' n' r', t' = Node l' n' r' /\
      elems r ++ after p = elem_of_rb n' :: elems r' ++ after p'
  end.
Proof.
  unfold rb_successor. destruct r as [|rl rn rr]; [apply climb_spec|].
  destruct (minimum_spec (Node rl rn rr) (mk_frame InRight n l :: p)) as (moved & mr & mp & -> & Hz & Hb); [done|].
  exists Leaf, moved, mr. split; [done|]. rewrite <- Hz at 1. rewrite elems_zip, Hb, after_app.
  elems_eq.
Qed.

Lemma rb_scan_spec fuel l n r p :
  rbtree_scan fuel (Some (Node l n r, p)) = take fuel (elem_of_rb n :: elems r ++ after p).
Proof.
  revert l n r p. induction fuel as [|fuel IH]; intros l n r p; [done|]. cbn [rbtree_scan take].
  f_equal. pose proof (successor_spec l n r p) as Hs.
  destruct (rb_successor (Node l n r) p) as [[t' p']|].
  - destruct Hs as (l' & n' & r' & -> & ->). apply IH.
  - rewrite Hs. by destruct fuel.
Qed.

Definition rb_range (tr : rb_tree) (first : Z) (count : nat) : list zelem :=
  rbtree_scan count (rbtree_by_rank first (rb_root tr) []).

Lemma rb_range_ok tr l first k :
  rb_repr tr l -> 0 <= first -> rb_range tr first k = take k (drop (Z.to_nat first) l).
Proof.
  intros [[_ Hs _ _] ->] Hf. unfold rb_range.
  pose proof (by_rank_spec_rb (rb_root tr) [] first Hs Hf) as Hb.
  destruct (rbtree_by_rank first (rb_root tr) []) as [[t' p']|].
  - destruct Hb as (l & n & r & -> & Hz & Hlen). rewrite rb_scan_spec. f_equal.
    cbn in Hz, Hlen. rewrite <- Hz, elems_zip. cbn [elems].
    replace (before p' ++ (elems l ++ elem_of_rb n :: elems r) ++ after p')
      with ((before p' ++ elems l) ++ elem_of_rb n :: elems r ++ after p') by elems_eq.
    rewrite drop_app_length'; [done|]. unfold zlen in Hlen. cbn in Hlen. lia.
  - rewrite drop_ge by (unfold zlen in Hb; lia). by destruct k.
Qed.

(** ** The tree as an order structure *)

(** [ordered_set_score] on a tree node: a fresh red node of size one. *)
Definition rb_set_score (score : Z) (n : rb_node) : rb_node := mk_rb RB_RED score (rb_member n) 1.

Lemma rb_sorted tr l : rb_repr tr l -> zsorted l.
Proof. by intros [[] ->]. Qed.

Lemma rb_detach_rescore tr l sc m :
  rb_repr tr l -> (sc, m) ∈ l ->
  exists n, (rbtree_detach_node tr m).1 = Some n /\ elem_of_rb n = (sc, m) /\
    (forall sc', rb_node_ok (rb_set_score sc' n) /\ elem_of_rb (rb_set_score sc' n) = (sc', m)) /\
    rb_repr (rbtree_detach_node tr m).2 (elem_remove m l).
Proof.
  intros Hr Hin. destruct (rb_detach_ok tr l sc m Hr Hin) as (n & ? & Hn & ?).
  exists n. split; [done|]. split; [done|]. split; [|done]. intros sc'. split; [done|].
  unfold elem_of_rb. cbn. by injection Hn as _ ->.
Qed.

#[export] Instance rbtree_index : OrderedIndex rb_tree rb_node := {|
  oi_repr := rb_repr;
  oi_insert := rbtree_insert_node;
  oi_detach := rbtree_detach_node;
  oi_range := rb_range;
  oi_node := elem_of_rb;
  oi_node_ok := rb_node_ok;
  oi_set_score := rb_set_score;
  oi_sorted := rb_sorted;
  oi_insert_ok := rb_insert_ok;
  oi_detach_ok := rb_detach_rescore;
  oi_range_ok := rb_range_ok
|}.

Lemma rbtree_init_repr m tr m' : rbtree_init m = (Some tr, m') -> rb_repr tr [].
Proof.
  unfold rbtree_init. destruct (malloc m) as [[] m1]; [|done]. intros [= <- _].
  split; [|done]. split; cbn; [split; constructor|done|exists 0%nat; constructor|done].
Qed.

(** ** Validation *)

Lemma validate_rb_node_spec t v c n :
  sized t -> rbt c n t -> StronglySorted elem_lt (elems t) ->
  (forall q, v_previous v = Some q -> forall x, x ∈ elems t -> elem_lt (elem_of_rb q) x) ->
  exists prev,
    validate_rb_node t v
    = (zlen (elems t), Z.of_nat n + 1, mk_validation prev (v_count v + zlen (elems t)) (v_valid v)) /\
    (t = Leaf /\ prev = v_previous v \/ exists q, prev = Some q /\ elem_of_rb q ∈ elems t).
Proof.
  revert v c n. induction t as [|l IHl x r IHr]; intros [pv ct va] c n Hs Hr Hso Hpv; cbn [v_previous v_count v_valid] in *.
  { inversion Hr; subst. exists pv. change (zlen (elems Leaf)) with 0. rewrite Z.add_0_r. auto. }
  cbn [elems] in *. apply StronglySorted_app_iff in Hso as (Hsl & Hsr & Hlr).
  apply StronglySorted_inv in Hsr as [Hsr Hxr]. rewrite Forall_forall in Hxr.
  destruct Hs as (Hzl & Hzr & Hz). rewrite (sized_length l Hzl), (sized_length r Hzr) in Hz.
  assert (Hh : exists cl cr k, rbt cl k l /\ rbt cr k r /\
    Z.of_nat n + 1 = Z.of_nat k + 1 + (if decide (rb_color_of x = RB_BLACK) then 1 else 0) /\
    ~ (rb_color_of x = RB_RED /\ (color l <> RB_BLACK \/ color r <> RB_BLACK))).
  { inversion Hr as [|? ? ? ? Hx Hl Hrr|? cl cr ? ? ? Hx Hl Hrr]; subst.
    - exists RB_BLACK, RB_BLACK, n. rewrite Hx, decide_False by done. split_and!; try done; [lia|].
      apply rbt_color in Hl, Hrr. naive_solver.
    - exists cl, cr, n0. rewrite Hx, decide_True by done. split_and!; try done; [lia|]. intros [? _]. done. }
  destruct Hh as (cl & cr & k & Hl & Hrr & Hn & Hcol).
  cbn [validate_rb_node].
  destruct (IHl (mk_validation pv ct va) cl k) as (pl & -> & Hpl); [done..| |].
  { cbn. intros q Hq y Hy. apply (Hpv q Hq), elem_of_app. by left. }
  cbn [v_previous v_count v_valid] in *.
  assert (Hord : (match pl with
                  | None => false
                  | Some q => compare_order (rb_score q) (rb_member q) (rb_score x) (rb_member x) >=? 0
                  end) = false).
  { destruct pl as [q|]; [|done].
    assert (Hlt : elem_lt (elem_of_rb q) (elem_of_rb x)).
    { destruct Hpl as [[_ Hq]|(q' & [= <-] & Hq)].
      - apply (Hpv q); [done|]. rewrite elem_of_app, elem_of_cons. auto.
      - apply Hlr; [done|]. apply elem_of_cons. by left. }
    unfold elem_lt, elem_cmp in Hlt. cbn in Hlt. rewrite Z.geb_leb. by apply Z.leb_gt. }
  rewrite Hord. cbn [invalidate v_previous v_count v_valid].
  destruct (IHr (mk_validation (Some x) (ct + zlen (elems l) + 1) va) cr k) as (pr & -> & Hpr); [done..| |].
  { cbn. intros q [= <-] y Hy. by apply Hxr. }
  rewrite bool_decide_false by done. cbn [invalidate v_previous v_count v_valid].
  rewrite Z.eqb_refl, Hz, Z.eqb_refl. cbn [negb orb invalidate].
  exists pr. autorewrite with zlen. rewrite Hn. split.
  - f_equal; [f_equal; lia|]. f_equal. lia.
  - right. destruct Hpr as [[_ ->]|(q & -> & Hq)].
    + exists x. split; [done|]. rewrite elem_of_app, elem_of_cons. auto.
    + exists q. split; [done|]. rewrite elem_of_app, elem_of_cons. auto.
Qed.

Lemma validate_rbtree_ok tr l : rb_repr tr l -> validate_rbtree tr = true.
Proof.
  intros [[[Hso _] Hs [n Hr] Hlen] _]. unfold validate_rbtree.
  rewrite (rbt_color _ _ _ Hr), bool_decide_true by done. cbn [negb].
  destruct (validate_rb_node_spec (rb_root tr) (mk_validation None 0 true) RB_BLACK n) as (p & -> & _); try done.
  cbn. by rewrite Hlen, !Z.eqb_refl.
Qed.

Lemma rb_repr_length tr l : rb_repr tr l -> rb_length tr = zlen l.
Proof. by intros [[] ->]. Qed.

(** The red-black bound: a tree of black height [n] has at least [2 ^ n - 1] elements
    and no path longer than twice the black height. *)
Fixpoint height (t : tree) : nat :=
  match t with Leaf => 0 | Node l _ r => S (Nat.max (height l) (height r)) end.

Lemma rbt_height c n t :
  rbt c n t -> (height t <= 2 * n + (if decide (c = RB_RED) then 1 else 0))%nat.
Proof.
  induction 1 as [|n l x r Hx Hl IHl Hr IHr|n cl cr l x r Hx Hl IHl Hr IHr]; cbn [height].
  - lia.
  - rewrite decide_True by done. rewrite decide_False in IHl, IHr by done. lia.
  - rewrite decide_False by done. destruct (decide (cl = RB_RED)), (decide (cr = RB_RED)); lia.
Qed.

Lemma rbt_size c n t : rbt c n t -> 2 ^ Z.of_nat n <= zlen (elems t) + 1.
Proof.
  induction 1 as [|n l x r Hx Hl IHl Hr IHr|n cl cr l x r Hx Hl IHl Hr IHr]; cbn [elems].
  - cbn. zlia.
  - autorewrite with zlen. pose proof (zlen_nonneg (elems r)). lia.
  - autorewrite with zlen. rewrite Nat2Z.inj_succ, Z.pow_succ_r by lia. lia.
Qed.

(** ** Properties *)

(** C22. Inserting a node keeps the red-black tree valid: order, balance,
    subtree sizes and length; its elements gain the new one at its place, and
    the code's own validation accepts the result. *)
Theorem rbtree_insert_correct tr l n :
  rb_repr tr l -> rb_node_ok n -> rb_member n ∉ l.*2 ->
  let tr' := rbtree_insert_node tr n in
  rb_repr tr' (elem_insert (rb_score n, rb_member n) l) /\
  rb_length tr' = rb_length tr + 1 /\ validate_rbtree tr' = true.
Proof.
  intros Hr Hn Hm tr'. pose proof (rb_insert_ok tr l n Hr Hn Hm) as Hr'.
  split; [done|]. split; [done|]. by eapply validate_rbtree_ok.
Qed.

Definition sample_rbtree : rb_tree :=
  rbtree_insert_node (mk_rb_tree Leaf 0) (mk_rb RB_RED 5 [97] 1).

Lemma sample_rbtree_repr : rb_repr sample_rbtree [(5, [97])].
Proof.
  apply (rb_insert_ok (mk_rb_tree Leaf 0) [] (mk_rb RB_RED 5 [97] 1)); [|done|set_solver].
  by apply (rbtree_init_repr []  _ []).
Qed.

Lemma rbtree_insert_correct_witness :
  rb_repr (rbtree_insert_node sample_rbtree (mk_rb RB_RED 3 [98] 1)) [(3, [98]); (5, [97])].
Proof.
  apply (rbtree_insert_correct sample_rbtree [(5, [97])] (mk_rb RB_RED 3 [98] 1) sample_rbtree_repr).
  - split; reflexivity.
  - cbn. intros H. apply list_elem_of_singleton in H. discriminate.
Defined.

(** C31. Detaching the node of a member keeps the tree valid (order, balance,
    sizes), removes exactly that element and returns its node. *)
Theorem rbtree_detach_correct tr l sc m :
  rb_repr tr l -> (sc, m) ∈ l ->
  exists n, (rbtree_detach_node tr m).1 = Some n /\ rb_score n = sc /\ rb_member n = m /\
    rb_repr (rbtree_detach_node tr m).2 (elem_remove m l) /\
    validate_rbtree (rbtree_detach_node tr m).2 = true.
Proof.
  intros Hr Hin. destruct (rb_detach_ok tr l sc m Hr Hin) as (n & ? & [= ? ?] & ?).
  exists n. split_and!; try done. by eapply validate_rbtree_ok.
Qed.

Lemma rbtree_detach_correct_witness : rb_repr (rbtree_detach_node sample_rbtree [97]).2 [].
Proof.
  destruct (rbtree_detach_correct sample_rbtree [(5, [97])] 5 [97] sample_rbtree_repr) as (n & _ & _ & _ & H & _).
  - apply list_elem_of_singleton. reflexivity.
  - exact H.
Defined.

(** The tree is balanced: no path is longer than twice the logarithm of
    the number of elements plus one, and selecting a range by rank returns
    exactly the elements at those ranks. *)
Theorem rbtree_balance_and_rank tr l first count :
  rb_repr tr l -> 0 <= first ->
  2 ^ (Z.of_nat (height (rb_root tr)) / 2) <= zlen l + 1 /\
  rb_range tr first count = take count (drop (Z.to_nat first) l).
Proof.
  intros Hr Hf. split; [|by apply rb_range_ok]. destruct Hr as [[_ _ [n Hr] _] ->].
  pose proof (rbt_height _ _ _ Hr) as Hh. rewrite decide_False in Hh by done.
  pose proof (rbt_size _ _ _ Hr) as Hs. etrans; [|exact Hs]. apply Z.pow_le_mono_r; [lia|].
  apply Z.div_le_upper_bound; lia.
Qed.
