(* ===== verification/Object.v ===== *)
(** The value objects of [src/engine/object.c]: strings, hashes and sorted
    sets with their two order engines, memory accounting, range selection,
    validation and cloning.

    A [kv_object_t *] argument is never null in the model; a byte argument is
    a [slice].  The trailing NUL of stored bytes is not represented.  An
    operation that allocates threads the allocation outcomes. *)

From S2P Require Import Prelude HashTable ZOrder Skiplist ZRbTree.

Inductive kv_object_type : Type := KV_OBJECT_STRING | KV_OBJECT_HASH | KV_OBJECT_ZSET.

Inductive kv_zset_engine : Type := KV_ZSET_SKIPLIST | KV_ZSET_RBTREE.

#[export] Instance kv_object_type_eq_dec : EqDecision kv_object_type.
Proof. solve_decision. Defined.

#[export] Instance kv_zset_engine_eq_dec : EqDecision kv_zset_engine.
Proof. solve_decision. Defined.

(** [sizeof] of the structures. *)
Definition SIZEOF_KV_OBJECT : Z := 40.

Definition SIZEOF_ZSET : Z := 56.

Definition SIZEOF_HASH_VALUE : Z := 16.

Definition SIZEOF_ZMEMBER : Z := 24.

(** A hash field's value: its bytes and the capacity of its allocation. *)
Record hash_value : Type := mk_hash_value { hv_data : list Z; hv_capacity : Z }.

(** A dictionary entry of a sorted set: the pointer to its order node and
    the score. *)
Record zmember : Type := mk_zmember { zm_order_node : list Z; zm_score : Z }.

(** [union order], tagged by [engine]. *)
Inductive zorder : Type := OSkip (s : skiplist) | ORb (t : rb_tree).

Record zset : Type := mk_zset { zs_members : hashtable zmember; zs_order : zorder }.

Inductive object_value : Type :=
| VString (data : list Z) (capacity : Z)
| VHash (table : hashtable hash_value)
| VZset (set : zset).

Record kv_object : Type := mk_object { memory_usage : Z; o_value : object_value }.

Definition set_usage (z : Z) (v : object_value) : kv_object := mk_object (wrap64 z) v.

(** The length of a value is its number of bytes. *)
Definition hash_value_create (m : mem) (data : slice) : option hash_value * mem :=
  match data with
  | None => (None, m)
  | Some l =>
      if (zlen l =? SIZE_MAX) || (SIZEOF_HASH_VALUE >? SIZE_MAX - zlen l - 1) then (None, m) else
      let '(ok, m) := malloc m in
      if ok then (Some (mk_hash_value l (zlen l)), m) else (None, m)
  end.

(** ** Dispatch on the order engine *)

(** An order node that is not in a structure. *)
Inductive order_node : Type := NSkip (n : skip_node) | NRb (n : rb_node).

Definition zset_engine (o : zorder) : kv_zset_engine :=
  match o with OSkip _ => KV_ZSET_SKIPLIST | ORb _ => KV_ZSET_RBTREE end.

Definition ordered_base_memory (o : zorder) : Z :=
  match o with
  | OSkip _ => skip_node_memory ZSKIPLIST_MAXLEVEL
  | ORb _ => SIZEOF_RB_NODE
  end.

Definition ordered_prepare_node (m : mem) (o : zorder) (score : Z)
  : option order_node * zorder * mem :=
  match o with
  | OSkip s => let '(n, s, m) := skiplist_prepare_node m s score in (NSkip <$> n, OSkip s, m)
  | ORb t => let '(n, m) := rbtree_prepare_node m score in (NRb <$> n, ORb t, m)
  end.

Definition ordered_node_memory (n : order_node) : Z :=
  match n with NSkip n => skip_node_memory (level_count n) | NRb _ => SIZEOF_RB_NODE end.

(** The same for a node in the structure, given by its pointer. *)
Definition ordered_ptr_memory (o : zorder) (p : list Z) : Z :=
  match o with
  | OSkip s => skip_node_memory (match sl_heap s !! p with Some n => level_count n | None => 0 end)
  | ORb _ => SIZEOF_RB_NODE
  end.

Definition ordered_set_member (member : list Z) (n : order_node) : order_node :=
  match n with
  | NSkip n => NSkip (mk_skip_node (sn_score n) member (sn_backward n) (sn_levels n))
  | NRb n => NRb (mk_rb (rb_color_of n) (rb_score n) member (subtree_size n))
  end.

Definition ordered_insert_node (o : zorder) (n : order_node) : zorder :=
  match o, n with
  | OSkip s, NSkip n => OSkip (skiplist_insert_node s n)
  | ORb t, NRb n => ORb (rbtree_insert_node t n)
  | _, _ => o
  end.

Definition ordered_set_score (score : Z) (n : order_node) : order_node :=
  match n with
  | NSkip n => NSkip (skip_set_score score n)
  | NRb n => NRb (rb_set_score score n)
  end.

Definition ordered_detach_node (o : zorder) (p : list Z) : option order_node * zorder :=
  match o with
  | OSkip s => let '(n, s) := skiplist_detach_node s p in (NSkip <$> n, OSkip s)
  | ORb t => let '(n, t) := rbtree_detach_node t p in (NRb <$> n, ORb t)
  end.

Definition ordered_remove_node (o : zorder) (p : list Z) : zorder := (ordered_detach_node o p).2.

(** ** Creation *)

Definition kv_object_create_string (m : mem) (value : slice) : option kv_object * mem :=
  match value with
  | None => (None, m)
  | Some l =>
      if (zlen l =? SIZE_MAX) || (SIZEOF_KV_OBJECT >? SIZE_MAX - zlen l - 1) then (None, m) else
      let '(ok, m) := malloc m in
      if ok then (Some (mk_object (SIZEOF_KV_OBJECT + zlen l + 1) (VString l (zlen l))), m)
      else (None, m)
  end.

Definition kv_object_create_hash (m : mem) : option kv_object * mem :=
  let '(ok, m) := malloc m in
  if negb ok then (None, m) else
  match kv_hash_create m with
  | (None, m) => (None, m)
  | (Some h, m) => (Some (mk_object (SIZEOF_KV_OBJECT + kv_hash_index_memory h) (VHash h)), m)
  end.

Definition order_init (m : mem) (engine : kv_zset_engine) : option zorder * mem :=
  match engine with
  | KV_ZSET_SKIPLIST => let '(s, m) := skiplist_init m in (OSkip <$> s, m)
  | KV_ZSET_RBTREE => let '(t, m) := rbtree_init m in (ORb <$> t, m)
  end.

Definition kv_object_create_zset (m : mem) (engine : kv_zset_engine) : option kv_object * mem :=
  let '(ok_object, m) := malloc m in
  let '(ok_set, m) := malloc m in
  if negb ok_object || negb ok_set then (None, m) else
  match kv_hash_create m with
  | (None, m) => (None, m)
  | (Some members, m) =>
      match order_init m engine with
      | (None, m) => (None, m)
      | (Some order, m) =>
          (Some (mk_object (SIZEOF_KV_OBJECT + SIZEOF_ZSET + kv_hash_index_memory members +
                            ordered_base_memory order)
                   (VZset (mk_zset members order))), m)
      end
  end.

Definition type_of (o : kv_object) : kv_object_type :=
  match o_value o with
  | VString _ _ => KV_OBJECT_STRING
  | VHash _ => KV_OBJECT_HASH
  | VZset _ => KV_OBJECT_ZSET
  end.

(** [kv_object_type] *)
Definition kv_object_get_type (o : kv_object) : kv_object_type := type_of o.

Definition kv_object_memory_usage (o : kv_object) : Z := memory_usage o.

(** ** Strings *)

Definition kv_object_string_value (o : kv_object) : option (list Z) :=
  match o_value o with VString l _ => Some l | _ => None end.

Definition kv_object_string_update (o : kv_object) (value : slice) : Z * kv_object :=
  match o_value o, value with
  | VString _ capacity, Some l =>
      if zlen l >? capacity then (0, o)
      else (1, mk_object (memory_usage o) (VString l capacity))
  | _, _ => (-1, o)
  end.

(** ** Hashes *)

(** Outcome of a write: the status, [added] and [changed]. *)
Record write_result : Type := mk_write { w_status : Z; w_added : bool; w_changed : bool }.

Definition write_failed : write_result := mk_write (-1) false false.

Definition write_same : write_result := mk_write 0 false false.

Definition write_changed : write_result := mk_write 0 false true.

Definition write_added : write_result := mk_write 0 true true.

Definition kv_object_hash_set (m : mem) (o : kv_object) (field value : slice)
  : write_result * kv_object * mem :=
  match o_value o, field, value with
  | VHash table, Some f, Some v =>
      let table := (kv_hash_rehash_step table 1).2 in
      let o := mk_object (memory_usage o) (VHash table) in
      match kv_hash_find table (Some f) with
      | Some node =>
          let old := npayload node in
          if (zlen (hv_data old) =? zlen v) && bool_decide (hv_data old = v)
          then (write_same, o, m) else
          if zlen v <=? hv_capacity old then
            (write_changed,
             mk_object (memory_usage o)
               (VHash (kv_hash_node_set_payload table (Some node)
                         (mk_hash_value v (hv_capacity old)))), m)
          else
            match hash_value_create m (Some v) with
            | (None, m) => (write_failed, o, m)
            | (Some replacement, m) =>
                (write_changed,
                 set_usage (memory_usage o - hv_capacity old - 1 + hv_capacity replacement + 1)
                   (VHash (kv_hash_node_set_payload table (Some node) replacement)), m)
            end
      | None =>
          match hash_value_create m (Some v) with
          | (None, m) => (write_failed, o, m)
          | (Some replacement, m) =>
              let old_index := kv_hash_index_memory table in
              match kv_hash_insert m table (Some f) replacement with
              | (r, _, table, m) =>
                  if negb (r =? 0) then (write_failed, mk_object (memory_usage o) (VHash table), m)
                  else
                    (write_added,
                     set_usage (memory_usage o + (kv_hash_index_memory table - old_index +
                                  kv_hash_node_memory_for_key (zlen f) +
                                  SIZEOF_HASH_VALUE + hv_capacity replacement + 1))
                       (VHash table), m)
              end
          end
      end
  | _, _, _ => (write_failed, o, m)
  end.

(** The value found, and the object after its incremental rehash step. *)
Definition kv_object_hash_get (o : kv_object) (field : slice) : option (list Z) * kv_object :=
  match o_value o, field with
  | VHash table, Some f =>
      let table := (kv_hash_rehash_step table 1).2 in
      (hv_data <$> kv_hash_node_payload (kv_hash_find table (Some f)),
       mk_object (memory_usage o) (VHash table))
  | _, _ => (None, o)
  end.

Definition kv_object_hash_delete (o : kv_object) (field : slice) : Z * kv_object :=
  match o_value o, field with
  | VHash table, Some f =>
      match kv_hash_find table (Some f) with
      | None => (0, o)
      | Some node =>
          let charge := kv_hash_node_memory_for_key (zlen f) + SIZEOF_HASH_VALUE +
                        hv_capacity (npayload node) + 1 in
          let '(_, table) := kv_hash_remove_node table (Some node) in
          (1, set_usage (memory_usage o - charge) (VHash table))
      end
  | _, _ => (-1, o)
  end.

Definition kv_object_hash_length (o : kv_object) : Z :=
  match o_value o with VHash table => kv_hash_count table | _ => 0 end.

(** The visiting loop: the callback updates a context and stops the loop with
    a non-zero result. *)
Fixpoint visit {A X : Type} (callback : A -> X -> Z * A) (context : A) (l : list X) : Z * A :=
  match l with
  | [] => (0, context)
  | x :: l =>
      let '(r, context) := callback context x in
      if negb (r =? 0) then (-1, context) else visit callback context l
  end.

Definition hash_fields (table : hashtable hash_value) : list (list Z * list Z) :=
  (fun n => (nkey n, hv_data (npayload n)))
    <$> iterate (S (Z.to_nat (kv_hash_count table))) table kv_hash_iterator_begin.

Definition kv_object_hash_visit {A} (o : kv_object)
    (callback : A -> list Z * list Z -> Z * A) (context : A) : Z * A :=
  match o_value o with
  | VHash table => visit callback context (hash_fields table)
  | _ => (-1, context)
  end.

(** ** Sorted sets *)

Definition kv_object_zset_add (m : mem) (o : kv_object) (score : Z) (member : slice)
  : write_result * kv_object * mem :=
  match o_value o, member with
  | VZset set, Some k =>
      if isnan score then (write_failed, o, m) else
      let members := (kv_hash_rehash_step (zs_members set) 1).2 in
      let order := zs_order set in
      let o := mk_object (memory_usage o) (VZset (mk_zset members order)) in
      match kv_hash_find members (Some k) with
      | Some dict_node =>
          let entry := npayload dict_node in
          if score_eq (zm_score entry) score then (write_same, o, m) else
          let '(node, order) := ordered_detach_node order (zm_order_node entry) in
          let members := kv_hash_node_set_payload members (Some dict_node)
                           (mk_zmember (zm_order_node entry) score) in
          let order := match node with
                       | Some node => ordered_insert_node order (ordered_set_score score node)
                       | None => order
                       end in
          (write_changed, mk_object (memory_usage o) (VZset (mk_zset members order)), m)
      | None =>
          let '(entry, m) := malloc m in
          let '(prepared, order, m) := ordered_prepare_node m order score in
          let o := mk_object (memory_usage o) (VZset (mk_zset members order)) in
          match prepared with
          | None => (write_failed, o, m)
          | Some prepared =>
              if negb entry then (write_failed, o, m) else
              let old_index := kv_hash_index_memory members in
              match kv_hash_insert m members (Some k) (mk_zmember k score) with
              | (r, _, members, m) =>
                  if negb (r =? 0) then
                    (write_failed, mk_object (memory_usage o) (VZset (mk_zset members order)), m)
                  else
                    let node := ordered_set_member k prepared in
                    (write_added,
                     set_usage (memory_usage o + (kv_hash_index_memory members - old_index +
                                  kv_hash_node_memory_for_key (zlen k) +
                                  SIZEOF_ZMEMBER + ordered_node_memory node))
                       (VZset (mk_zset members (ordered_insert_node order node))), m)
              end
          end
      end
  | _, _ => (write_failed, o, m)
  end.

(** Status 1 with the score, 0 when absent, -1 on a bad argument. *)
Definition kv_object_zset_score (o : kv_object) (member : slice) : Z * option Z * kv_object :=
  match o_value o, member with
  | VZset set, Some k =>
      let members := (kv_hash_rehash_step (zs_members set) 1).2 in
      let o := mk_object (memory_usage o) (VZset (mk_zset members (zs_order set))) in
      match kv_hash_find members (Some k) with
      | None => (0, None, o)
      | Some node => (1, Some (zm_score (npayload node)), o)
      end
  | _, _ => (-1, None, o)
  end.

Definition kv_object_zset_remove (o : kv_object) (member : slice) : Z * kv_object :=
  match o_value o, member with
  | VZset set, Some k =>
      match kv_hash_find (zs_members set) (Some k) with
      | None => (0, o)
      | Some node =>
          let entry := npayload node in
          let charge := kv_hash_node_memory_for_key (zlen k) + SIZEOF_ZMEMBER +
                        ordered_ptr_memory (zs_order set) (zm_order_node entry) in
          let order := ordered_remove_node (zs_order set) (zm_order_node entry) in
          let '(_, members) := kv_hash_remove_node (zs_members set) (Some node) in
          (1, set_usage (memory_usage o - charge) (VZset (mk_zset members order)))
      end
  | _, _ => (-1, o)
  end.

Definition kv_object_zset_length (o : kv_object) : Z :=
  match o_value o with VZset set => kv_hash_count (zs_members set) | _ => 0 end.

(** The elements a range visits: a node by rank, then its successors. *)
Definition ordered_range (order : zorder) (first : Z) (count : nat) : list zelem :=
  match order with
  | OSkip s => skiplist_scan count s (skiplist_by_rank s first)
  | ORb t => rbtree_scan count (rbtree_by_rank first (rb_root t) [])
  end.

(** The normalised bounds of a range, [None] when it is empty. *)
Definition range_bounds (length start stop : Z) : option (Z * Z) :=
  if length =? 0 then None else
  let start := if start <? 0 then start + length else start in
  let stop := if stop <? 0 then stop + length else stop in
  let start := if start <? 0 then 0 else start in
  if (stop <? 0) || (start >=? length) || (start >? stop) then None else
  let stop := if stop >=? length then length - 1 else stop in
  Some (start, stop).

Definition kv_object_zset_range {A} (o : kv_object) (start stop : Z)
    (callback : A -> zelem -> Z * A) (context : A) : Z * A * Z :=
  match o_value o with
  | VZset set =>
      match range_bounds (kv_hash_count (zs_members set)) start stop with
      | None => (0, context, 0)
      | Some (first, last) =>
          let l := ordered_range (zs_order set) first (Z.to_nat (last - first + 1)) in
          match visit callback context l with
          | (0, context) => (0, context, zlen l)
          | (_, context) => (-1, context, 0)
          end
      end
  | _ => (-1, context, 0)
  end.

Definition kv_object_zset_engine (o : kv_object) : kv_zset_engine :=
  match o_value o with VZset set => zset_engine (zs_order set) | _ => KV_ZSET_SKIPLIST end.

Definition kv_zset_engine_name (engine : kv_zset_engine) : list Z :=
  match engine with KV_ZSET_RBTREE => lit "rbtree" | KV_ZSET_SKIPLIST => lit "skiplist" end.

Definition kv_object_zset_validate (o : kv_object) : Z :=
  match o_value o with
  | VZset set =>
      let count := kv_hash_count (zs_members set) in
      let valid := match zs_order set with
                   | OSkip s => validate_skiplist s && (sl_length s =? count)
                   | ORb t => validate_rbtree t && (rb_length t =? count)
                   end in
      if valid then 1 else 0
  | _ => -1
  end.

(** ** Cloning *)

(** The destination and the allocation outcomes are the callback's context. *)
Definition clone_hash_field (context : kv_object * mem) (x : list Z * list Z)
  : Z * (kv_object * mem) :=
  let '(destination, m) := context in
  let '(w, destination, m) := kv_object_hash_set m destination (Some x.1) (Some x.2) in
  (if negb (w_status w =? 0) then -1 else 0, (destination, m)).

Definition clone_zset_member (context : kv_object * mem) (x : zelem) : Z * (kv_object * mem) :=
  let '(destination, m) := context in
  let '(w, destination, m) := kv_object_zset_add m destination x.1 (Some x.2) in
  (if negb (w_status w =? 0) then -1 else 0, (destination, m)).

Definition kv_object_clone (m : mem) (o : kv_object) : option kv_object * mem :=
  match o_value o with
  | VString l _ => kv_object_create_string m (Some l)
  | VHash _ =>
      match kv_object_create_hash m with
      | (None, m) => (None, m)
      | (Some copy, m) =>
          match kv_object_hash_visit o clone_hash_field (copy, m) with
          | (0, (copy, m)) => (Some copy, m)
          | (_, (_, m)) => (None, m)
          end
      end
  | VZset set =>
      match kv_object_create_zset m (zset_engine (zs_order set)) with
      | (None, m) => (None, m)
      | (Some copy, m) =>
          match kv_object_zset_range o 0 (-1) clone_zset_member (copy, m) with
          | (0, (copy, m), _) => (Some copy, m)
          | (_, (_, m), _) => (None, m)
          end
      end
  end.

(** ** What the order structures guarantee *)

(** Moving a member to a new score, against the interface. *)
Lemma rescore_ok {T X : Type} `{OrderedIndex T X} (t : T) l old m score :
  oi_repr t l -> (old, m) ∈ l ->
  exists n, (oi_detach t m).1 = Some n /\
    oi_repr (oi_insert (oi_detach t m).2 (oi_set_score score n))
            (elem_insert (score, m) (elem_remove m l)).
Proof.
  intros Hr Hin. destruct (oi_detach_ok t l old m Hr Hin) as (n & Hn & _ & Hs & Hd).
  exists n. split; [done|]. destruct (Hs score) as [Hok Hnode].
  rewrite <- Hnode at 1. apply oi_insert_ok; [done|done|]. rewrite Hnode. cbn.
  unfold elem_remove. intros (x & -> & Hx)%list_elem_of_fmap. apply list_elem_of_filter in Hx. naive_solver.
Qed.

Definition order_repr (o : zorder) (l : list zelem) : Prop :=
  match o with OSkip s => oi_repr s l | ORb t => oi_repr t l end.

Definition order_node_ok (o : zorder) (n : order_node) : Prop :=
  match o, n with
  | OSkip _, NSkip n => oi_node_ok n
  | ORb _, NRb n => oi_node_ok n
  | _, _ => False
  end.

Definition order_node_elem (n : order_node) : zelem :=
  match n with NSkip n => oi_node n | NRb n => oi_node n end.

Lemma order_sorted o l : order_repr o l -> zsorted l.
Proof. destruct o as [s|t]; [exact (oi_sorted s l)|exact (oi_sorted t l)]. Qed.

Lemma order_insert_ok o l n :
  order_repr o l -> order_node_ok o n -> (order_node_elem n).2 ∉ l.*2 ->
  order_repr (ordered_insert_node o n) (elem_insert (order_node_elem n) l).
Proof.
  destruct o as [s|t], n as [n|n]; cbn [order_node_ok]; try done.
  - exact (oi_insert_ok s l n).
  - exact (oi_insert_ok t l n).
Qed.

Lemma order_rescore_ok o l old k score :
  order_repr o l -> (old, k) ∈ l ->
  exists n, (ordered_detach_node o k).1 = Some n /\
    order_repr (ordered_insert_node (ordered_detach_node o k).2 (ordered_set_score score n))
               (elem_insert (score, k) (elem_remove k l)).
Proof.
  destruct o as [s|t]; cbn [order_repr]; intros Hr Hin;
    [destruct (rescore_ok (X := skip_node) s l old k score Hr Hin) as (n & Hn & Hok)
    |destruct (rescore_ok (X := rb_node) t l old k score Hr Hin) as (n & Hn & Hok)]; cbn in Hn, Hok |- *.
  - destruct (skiplist_detach_node s k) as [n' s']. cbn in *. subst n'. by exists (NSkip n).
  - destruct (rbtree_detach_node t k) as [n' t']. cbn in *. subst n'. by exists (NRb n).
Qed.

Lemma order_remove_ok o l sc k :
  order_repr o l -> (sc, k) ∈ l -> order_repr (ordered_remove_node o k) (elem_remove k l).
Proof.
  unfold ordered_remove_node.
  destruct o as [s|t]; cbn [order_repr]; intros Hr Hin;
    [destruct (oi_detach_ok (N := skip_node) s l sc k Hr Hin) as (n & _ & _ & _ & Hok)
    |destruct (oi_detach_ok (N := rb_node) t l sc k Hr Hin) as (n & _ & _ & _ & Hok)]; cbn in Hok |- *.
  - by destruct (skiplist_detach_node s k).
  - by destruct (rbtree_detach_node t k).
Qed.

Lemma order_range_ok o l first k :
  order_repr o l -> 0 <= first -> ordered_range o first k = take k (drop (Z.to_nat first) l).
Proof. destruct o as [s|t]; [exact (oi_range_ok s l first k)|exact (oi_range_ok t l first k)]. Qed.

Lemma order_prepare_ok m o score l :
  order_repr o l ->
  let '(n, o', m') := ordered_prepare_node m o score in
  order_repr o' l /\ zset_engine o' = zset_engine o /\
  match n with
  | None => m <> []
  | Some n => forall k, order_node_ok o' (ordered_set_member k n) /\
                order_node_elem (ordered_set_member k n) = (score, k)
  end.
Proof.
  destruct o as [s|t]; cbn [ordered_prepare_node order_repr].
  - intros Hr. unfold skiplist_prepare_node.
    pose proof (random_level_range s) as Hlev. pose proof (random_level_repr s l Hr) as Hr'.
    destruct (skip_random_level s) as [level s']. cbn in Hlev, Hr'. unfold skip_node_create.
    destruct m as [|[] m]; cbn; split_and!; try done; intros k; (split; [|done]);
      unfold skip_node_ok, level_count; cbn; by rewrite length_replicate.
  - intros Hr. unfold rbtree_prepare_node. destruct m as [|[] m]; cbn; split_and!; done.
Qed.

Lemma order_init_ok m engine :
  match order_init m engine with
  | (Some o, _) => order_repr o [] /\ zset_engine o = engine
  | (None, _) => m <> []
  end.
Proof.
  destruct engine; cbn [order_init].
  - destruct (skiplist_init m) as [[s|] m'] eqn:E; cbn; [by apply skiplist_init_repr in E|].
    by intros ->.
  - destruct (rbtree_init m) as [[s|] m'] eqn:E; cbn; [by apply rbtree_init_repr in E|].
    by intros ->.
Qed.

(** ** Abstraction of hashes *)

Record hash_repr (o : kv_object) (M : gmap (list Z) (list Z)) (table : hashtable hash_value) : Prop := {
  hr_value : o_value o = VHash table;
  hr_wf : hash_wf table;
  hr_map : M = hv_data <$> to_map table;
  hr_capacity : map_Forall (fun _ v => zlen (hv_data v) <= hv_capacity v) (to_map table)
}.

(** The object is a hash that holds the finite map [M]. *)
Definition is_hash (o : kv_object) (M : gmap (list Z) (list Z)) : Prop := exists table, hash_repr o M table.

Lemma hash_value_create_ok m v :
  match hash_value_create m (Some v) with
  | (Some x, _) => x = mk_hash_value v (zlen v)
  | (None, _) => m <> [] \/ SIZE_MAX - 17 < zlen v
  end.
Proof.
  unfold hash_value_create. destruct (_ || _) eqn:E.
  - right. apply orb_true_iff in E as [E|E]; zb; unfold SIZEOF_HASH_VALUE in *; zlia.
  - destruct m as [|[] m]; cbn; auto.
Qed.

Lemma capacity_insert (M : gmap (list Z) hash_value) k v :
  map_Forall (fun _ v => zlen (hv_data v) <= hv_capacity v) M -> zlen (hv_data v) <= hv_capacity v ->
  map_Forall (fun _ v => zlen (hv_data v) <= hv_capacity v) (<[k := v]> M).
Proof. intros HM Hv. by apply map_Forall_insert_2. Qed.

(** Overwriting the payload of a node that was found is an insertion. *)
Lemma set_payload_insert {V} (h : hashtable V) k n v :
  hash_wf h -> kv_hash_find h (Some k) = Some n ->
  hash_wf (kv_hash_node_set_payload h (Some n) v) /\
  to_map (kv_hash_node_set_payload h (Some n) v) = <[k := v]> (to_map h).
Proof.
  intros Hw Hf. destruct (find_node_spec h k n Hw Hf) as (Hk & _ & Hl).
  destruct (set_payload_spec h n v Hw) as [Hw' Hm]. split; [done|]. rewrite Hm, Hk.
  apply map_eq. intros j. rewrite lookup_alter, lookup_insert.
  case_decide; [subst j; by rewrite Hl|done].
Qed.

Lemma hash_set_spec m o M f v :
  is_hash o M ->
  let '(w, o', m') := kv_object_hash_set m o (Some f) (Some v) in
  (w = write_same /\ M !! f = Some v /\ is_hash o' M) \/
  (w = write_changed /\ (exists old, M !! f = Some old /\ old <> v) /\ is_hash o' (<[f := v]> M)) \/
  (w = write_added /\ M !! f = None /\ is_hash o' (<[f := v]> M)) \/
  (w = write_failed /\ is_hash o' M).
Proof.
  intros (table & [Hv Hw HM Hcap]). unfold kv_object_hash_set. rewrite Hv. cbn zeta.
  destruct (rehash_step_map table 1 Hw ltac:(lia)) as (Hw1 & Hm1 & _).
  set (t1 := (kv_hash_rehash_step table 1).2) in *. rewrite <- Hm1 in HM, Hcap. clearbody t1. clear table Hw Hm1 Hv.
  assert (Hkeep : forall u, is_hash (mk_object u (VHash t1)) M) by (intros u; by exists t1).
  assert (Hupd : forall u t x, hash_wf t -> to_map t = <[f := x]> (to_map t1) -> hv_data x = v ->
            zlen v <= hv_capacity x -> is_hash (mk_object u (VHash t)) (<[f := v]> M)).
  { intros u t x Hwt Hmt Hx Hc. exists t. split; [done|done|by rewrite HM, Hmt, fmap_insert, Hx|].
    rewrite Hmt. apply capacity_insert; [done|]. by rewrite Hx. }
  destruct (kv_hash_find t1 (Some f)) as [n|] eqn:Ef.
  - destruct (find_node_spec t1 f n Hw1 Ef) as (Hk & _ & Hl).
    assert (HMf : M !! f = Some (hv_data (npayload n))) by (by rewrite HM, lookup_fmap, Hl).
    destruct (decide (hv_data (npayload n) = v)) as [Heq|Hne].
    { rewrite Heq, Z.eqb_refl, bool_decide_true by done. cbn [andb]. left. by rewrite HMf, Heq. }
    rewrite (bool_decide_false _ Hne), andb_false_r.
    assert (Hold : exists old, M !! f = Some old /\ old <> v) by eauto.
    zif.
    + right; left. split; [done|]. split; [done|].
      destruct (set_payload_insert t1 f n (mk_hash_value v (hv_capacity (npayload n))) Hw1 Ef).
      by eapply Hupd.
    + pose proof (hash_value_create_ok m v) as Hc.
      destruct (hash_value_create m (Some v)) as [[x|] m2]; [|by right; right; right].
      subst x. right; left. split; [done|]. split; [done|].
      destruct (set_payload_insert t1 f n (mk_hash_value v (zlen v)) Hw1 Ef). by eapply Hupd.
  - apply find_None_map in Ef; [|done]. pose proof (hash_value_create_ok m v) as Hc.
    destruct (hash_value_create m (Some v)) as [[x|] m2]; [|by right; right; right]. subst x.
    pose proof (insert_spec m2 t1 f (mk_hash_value v (zlen v)) Hw1) as Hi.
    destruct (kv_hash_insert m2 t1 (Some f) (mk_hash_value v (zlen v))) as [[[r n] t2] m3].
    destruct Hi as (Hw2 & [(-> & _ & _ & Hm2)|(-> & _ & Hm2)]); cbn [Z.eqb negb].
    + right; right; left. split; [done|]. split; [by rewrite HM, lookup_fmap, Ef|]. by eapply Hupd.
    + right; right; right. split; [done|]. exists t2. split; [done|done|by rewrite Hm2|by rewrite Hm2].
Qed.

Lemma hash_get_spec o M f :
  is_hash o M ->
  let '(v, o') := kv_object_hash_get o (Some f) in v = M !! f /\ is_hash o' M.
Proof.
  intros (table & [Hv Hw HM Hcap]). unfold kv_object_hash_get. rewrite Hv.
  destruct (rehash_step_map table 1 Hw ltac:(lia)) as (Hw1 & Hm1 & _).
  set (t1 := (kv_hash_rehash_step table 1).2) in *. rewrite <- Hm1 in HM, Hcap.
  split; [|by exists t1]. rewrite HM, lookup_fmap.
  destruct (kv_hash_find t1 (Some f)) as [n|] eqn:Ef.
  - by destruct (find_node_spec t1 f n Hw1 Ef) as (_ & _ & ->).
  - apply find_None_map in Ef; [|done]. by rewrite Ef.
Qed.

Lemma remove_found {V} (h : hashtable V) k n :
  hash_wf h -> kv_hash_find h (Some k) = Some n ->
  hash_wf (kv_hash_remove_node h (Some n)).2 /\
  to_map (kv_hash_remove_node h (Some n)).2 = delete k (to_map h).
Proof.
  intros Hw Hf. destruct (find_node_spec h k n Hw Hf) as (Hk & Hh & _).
  pose proof (remove_target_spec h n Hw ltac:(by rewrite Hk)) as Hr. unfold kv_hash_remove_node.
  destruct (remove_target h (Some n)) as [p h']. destruct Hr as (? & _ & ?). rewrite <- Hk. done.
Qed.

Lemma hash_delete_spec o M f :
  is_hash o M ->
  let '(r, o') := kv_object_hash_delete o (Some f) in
  r = (if decide (is_Some (M !! f)) then 1 else 0) /\ is_hash o' (delete f M).
Proof.
  intros (table & [Hv Hw HM Hcap]). unfold kv_object_hash_delete. rewrite Hv.
  destruct (kv_hash_find table (Some f)) as [n|] eqn:Ef.
  - destruct (find_node_spec table f n Hw Ef) as (_ & _ & Hl).
    destruct (remove_found table f n Hw Ef) as [Hw' Hm'].
    destruct (kv_hash_remove_node table (Some n)) as [p t']. cbn in Hw', Hm'.
    rewrite decide_True by (rewrite HM, lookup_fmap, Hl; eauto). split; [done|].
    exists t'. split; [done|done|by rewrite HM, Hm', fmap_delete|].
    rewrite Hm'. by apply map_Forall_delete.
  - apply find_None_map in Ef; [|done].
    assert (HN : M !! f = None) by (by rewrite HM, lookup_fmap, Ef).
    rewrite decide_False by (rewrite HN; by intros [? ?]). split; [done|].
    rewrite delete_id by done. by exists table.
Qed.

Lemma hash_fields_spec o M table : hash_repr o M table -> hash_fields table ≡ₚ map_to_list M.
Proof.
  intros [Hv Hw -> _]. unfold hash_fields.
  rewrite iterate_all; [|done|unfold kv_hash_count; rewrite (wf_count table Hw); unfold zlen; lia].
  rewrite map_to_list_fmap. unfold to_map.
  rewrite map_to_list_to_map by (rewrite pairs_keys; apply Hw).
  unfold pairs. rewrite <- list_fmap_compose. done.
Qed.

Lemma hash_length_spec o M : is_hash o M -> kv_object_hash_length o = Z.of_nat (size M).
Proof.
  intros (table & [Hv Hw -> _]). unfold kv_object_hash_length. rewrite Hv, map_size_fmap.
  by apply count_size.
Qed.

Lemma create_hash_spec m :
  match kv_object_create_hash m with (Some o, _) => is_hash o ∅ | (None, _) => m <> [] end.
Proof.
  unfold kv_object_create_hash. destruct m as [|[] m]; cbn [malloc negb]; [| |done].
  - pose proof (@create_spec hash_value []) as Hc. destruct (kv_hash_create []) as [[h|] m']; [|by destruct Hc].
    destruct Hc as (Hw & Hm & _). exists h. split; [done|done|by rewrite Hm, fmap_empty|by rewrite Hm].
  - pose proof (@create_spec hash_value m) as Hc. destruct (kv_hash_create m) as [[h|] m']; [|done].
    destruct Hc as (Hw & Hm & _). exists h. split; [done|done|by rewrite Hm, fmap_empty|by rewrite Hm].
Qed.

(** ** Abstraction of sorted sets *)

Record zset_repr (o : kv_object) (l : list zelem) (set : zset) : Prop := {
  zr_value : o_value o = VZset set;
  zr_wf : hash_wf (zs_members set);
  zr_order : order_repr (zs_order set) l;
  zr_dict : forall k e, to_map (zs_members set) !! k = Some e <->
    zm_order_node e = k /\ (zm_score e, k) ∈ l;
  zr_numbers : Forall (fun x => isnan x.1 = false) l
}.

(** The object is a sorted set whose elements, in order, are [l]. *)
Definition is_zset (o : kv_object) (l : list zelem) : Prop := exists set, zset_repr o l set.

Lemma zset_sorted o l : is_zset o l -> zsorted l.
Proof. intros (set & [_ _ Ho _ _]). by eapply order_sorted. Qed.

Lemma zsorted_score_unique l s1 s2 k : zsorted l -> (s1, k) ∈ l -> (s2, k) ∈ l -> s1 = s2.
Proof.
  intros [_ Hn] H1 H2. apply list_elem_of_lookup in H1 as [i Hi], H2 as [j Hj].
  assert (i = j) as <-.
  { eapply (NoDup_lookup l.*2); [done|by rewrite list_lookup_fmap, Hi|by rewrite list_lookup_fmap, Hj]. }
  congruence.
Qed.

Lemma elem_of_remove k x l : x ∈ elem_remove k l <-> x ∈ l /\ x.2 <> k.
Proof. unfold elem_remove. rewrite list_elem_of_filter. tauto. Qed.

Lemma elem_of_insert x y l : y ∈ elem_insert x l <-> y = x \/ y ∈ l.
Proof. rewrite elem_insert_perm. apply elem_of_cons. Qed.

Lemma zset_find o l set k :
  zset_repr o l set ->
  match kv_hash_find (zs_members set) (Some k) with
  | Some n => zm_order_node (npayload n) = k /\ (zm_score (npayload n), k) ∈ l
  | None => k ∉ l.*2
  end.
Proof.
  intros [_ Hw _ Hd _]. destruct (kv_hash_find (zs_members set) (Some k)) as [n|] eqn:Ef.
  - destruct (find_node_spec _ k n Hw Ef) as (_ & _ & Hl). by apply Hd.
  - apply find_None_map in Ef; [|done]. intros ([sc k'] & -> & Hin)%list_elem_of_fmap.
    assert (Hs : to_map (zs_members set) !! k' = Some (mk_zmember k' sc)) by (by apply Hd).
    cbn in Ef. congruence.
Qed.

(** The dictionary agrees with the new order after a member got a score. *)
Lemma dict_insert (D : gmap (list Z) zmember) l k score :
  zsorted l ->
  (forall j e, D !! j = Some e <-> zm_order_node e = j /\ (zm_score e, j) ∈ l) ->
  forall j e, <[k := mk_zmember k score]> D !! j = Some e <->
    zm_order_node e = j /\ (zm_score e, j) ∈ elem_insert (score, k) (elem_remove k l).
Proof.
  intros Hso HD j e. rewrite elem_of_insert, elem_of_remove. cbn.
  destruct (decide (j = k)) as [->|Hne].
  - rewrite lookup_insert_eq. split.
    + intros [= <-]. cbn. auto.
    + intros [He [[= Hs]|[_ ?]]]; [|done]. f_equal. destruct e; cbn in *. congruence.
  - rewrite lookup_insert_ne by done. rewrite HD. naive_solver.
Qed.

(** A rehash step of the dictionary changes nothing. *)
Lemma zset_rehash o l set u :
  zset_repr o l set ->
  let set' := mk_zset (kv_hash_rehash_step (zs_members set) 1).2 (zs_order set) in
  zset_repr (mk_object u (VZset set')) l set'.
Proof.
  intros [Hv Hw Ho Hd Hn]. destruct (rehash_step_map (zs_members set) 1 Hw ltac:(lia)) as (Hw1 & Hm1 & _).
  split; cbn; [done|done|done|by rewrite Hm1|done].
Qed.

Lemma hash_value_create_nil v :
  zlen v < 2 ^ 62 -> hash_value_create [] (Some v) = (Some (mk_hash_value v (zlen v)), []).
Proof.
  intros Hv. pose proof (zlen_nonneg v). unfold hash_value_create.
  destruct (_ || _) eqn:E; [|done].
  apply orb_true_iff in E as [E|E]; zb; unfold SIZEOF_HASH_VALUE in *; zlia.
Qed.

(** With memory available a field is always written. *)
Lemma hash_set_succeeds o M f v :
  is_hash o M -> Z.of_nat (size M) < 2 ^ 59 -> zlen f < 2 ^ 62 -> zlen v < 2 ^ 62 ->
  let '(w, _, m') := kv_object_hash_set [] o (Some f) (Some v) in w_status w = 0 /\ m' = [].
Proof.
  intros (table & [Hv Hw HM Hcap]) Hsz Hf Hl. unfold kv_object_hash_set. rewrite Hv. cbn zeta.
  rewrite hash_value_create_nil by done.
  destruct (rehash_step_map table 1 Hw ltac:(lia)) as (Hw1 & Hm1 & Hc1).
  set (t1 := (kv_hash_rehash_step table 1).2) in *.
  destruct (kv_hash_find t1 (Some f)) as [n|] eqn:Ef.
  - destruct (_ && _); [done|]. by destruct (_ <=? _).
  - apply find_None_map in Ef; [|done].
    destruct (insert_succeeds t1 f (mk_hash_value v (zlen v)) Hw1 Ef) as [Hr Hm]; [|done|].
    + rewrite count_size by done. rewrite Hm1. by rewrite HM, map_size_fmap in Hsz.
    + destruct (kv_hash_insert [] t1 (Some f) _) as [[[r n] t2] m3]. cbn in Hr, Hm. by subst.
Qed.

Lemma create_zset_spec m engine :
  match kv_object_create_zset m engine with
  | (Some o, _) => is_zset o [] /\ kv_object_zset_engine o = engine
  | (None, _) => m <> []
  end.
Proof.
  unfold kv_object_create_zset. destruct (malloc m) as [ok1 m1] eqn:E1, (malloc m1) as [ok2 m2] eqn:E2.
  assert (Hnil : m = [] -> ok1 = true /\ ok2 = true /\ m2 = []).
  { intros ->. cbn in E1. injection E1 as <- <-. cbn in E2. by injection E2 as <- <-. }
  destruct (negb ok1 || negb ok2) eqn:Eo.
  { intros Hm. destruct (Hnil Hm) as (-> & -> & _). done. }
  pose proof (@create_spec zmember m2) as Hc. destruct (kv_hash_create m2) as [[h|] m3] eqn:Eh.
  2: { intros Hm. destruct (Hnil Hm) as (_ & _ & Hm2). by destruct Hc. }
  pose proof (order_init_ok m3 engine) as Ho. destruct (order_init m3 engine) as [[ord|] m4].
  - destruct Hc as (Hw & Hm & _), Ho as [Ho He]. split; [|done].
    exists (mk_zset h ord). split; cbn; [done|done|done| |constructor].
    intros k e. rewrite Hm, lookup_empty. split; [done|]. by intros [_ ?%elem_of_nil].
  - intros Hm. destruct (Hnil Hm) as (_ & _ & ->). apply Ho. vm_compute in Eh. congruence.
Qed.

Lemma elem_insert_remove_id score k l : k ∉ l.*2 -> elem_insert (score, k) (elem_remove k l) = elem_insert (score, k) l.
Proof. intros Hk. by rewrite elem_remove_id. Qed.

Lemma numbers_insert score k l :
  isnan score = false -> Forall (fun x => isnan x.1 = false) l ->
  Forall (fun x => isnan x.1 = false) (elem_insert (score, k) (elem_remove k l)).
Proof.
  intros Hs Hl. rewrite Forall_forall in *. intros x [->|Hx]%elem_of_insert; [done|].
  apply elem_of_remove in Hx as [Hx _]. by apply Hl.
Qed.

Lemma zset_add_spec m o l score k :
  is_zset o l ->
  let '(w, o', m') := kv_object_zset_add m o score (Some k) in
  (isnan score = true /\ w = write_failed /\ o' = o) \/
  (isnan score = false /\
   ((w = write_same /\ (exists old, (old, k) ∈ l /\ score_eq old score = true) /\ is_zset o' l) \/
    (w = write_changed /\ (exists old, (old, k) ∈ l /\ score_eq old score = false) /\
       is_zset o' (elem_insert (score, k) (elem_remove k l))) \/
    (w = write_added /\ (k ∉ l.*2) /\ is_zset o' (elem_insert (score, k) l)) \/
    (w = write_failed /\ (k ∉ l.*2) /\ is_zset o' l))).
Proof.
  intros (set0 & HR). unfold kv_object_zset_add. rewrite (zr_value _ _ _ HR).
  destruct (isnan score) eqn:Hnan; [by left|]. cbn zeta.
  pose proof (fun u => zset_rehash o l set0 u HR) as HR1. cbn zeta in HR1.
  set (members := (kv_hash_rehash_step (zs_members set0) 1).2) in *.
  set (order := zs_order set0) in *. pose proof (HR1 0) as HR0.
  pose proof (zset_find _ _ _ k HR0) as Hfind. cbn [zs_members] in Hfind.
  destruct HR0 as [_ Hw Ho Hd Hn]. cbn in Hw, Ho, Hd. pose proof (order_sorted _ _ Ho) as Hso.
  destruct (kv_hash_find members (Some k)) as [n|] eqn:Ef.
  - destruct Hfind as [Hptr Hin].
    destruct (score_eq (zm_score (npayload n)) score) eqn:Eeq.
    { right. split; [done|]. left. split; [done|]. split; [eauto|]. by eexists. }
    rewrite Hptr.
    destruct (order_rescore_ok order l _ k score Ho Hin) as (nd & Hnd & Hord).
    destruct (ordered_detach_node order k) as [nd' order1]. cbn in Hnd, Hord. subst nd'.
    right. split; [done|]. right; left. split; [done|]. split; [eauto|].
    destruct (set_payload_insert members k n (mk_zmember k score) Hw Ef) as [Hw' Hm'].
    eexists. split; [reflexivity|exact Hw'|exact Hord| |by apply numbers_insert].
    cbn [zs_members]. rewrite Hm'. by apply dict_insert.
  - destruct (malloc m) as [entry m1].
    pose proof (order_prepare_ok m1 order score l Ho) as Hp.
    destruct (ordered_prepare_node m1 order score) as [[[nd|] order1] m2]; destruct Hp as (Ho1 & _ & Hnd);
      [|right; split; [done|]; do 3 right; split; [done|]; split; [done|]; by eexists].
    destruct entry; cbn [negb]; [|right; split; [done|]; do 3 right; split; [done|]; split; [done|]; by eexists].
    pose proof (insert_spec m2 members k (mk_zmember k score) Hw) as Hi.
    destruct (kv_hash_insert m2 members (Some k) (mk_zmember k score)) as [[[r n] t2] m3].
    destruct Hi as (Hw2 & [(-> & _ & _ & Hm2)|(-> & _ & Hm2)]); cbn [Z.eqb negb].
    + right. split; [done|]. right; right; left. split; [done|]. split; [done|]. destruct (Hnd k) as [Hok Hel].
      eexists. split; [reflexivity|exact Hw2| | |].
      * cbn [zs_order]. rewrite <- Hel. apply order_insert_ok; [done|done|]. by rewrite Hel.
      * cbn [zs_members]. rewrite Hm2. intros j e. rewrite <- elem_insert_remove_id by done.
        by apply dict_insert.
      * rewrite <- elem_insert_remove_id by done. by apply numbers_insert.
    + right. split; [done|]. do 3 right. split; [done|]. split; [done|]. eexists. split; [reflexivity|done|done| |done].
      cbn [zs_members]. by rewrite Hm2.
Qed.

Lemma zset_length_spec o l : is_zset o l -> kv_object_zset_length o = zlen l.
Proof.
  intros (set0 & [Hv Hw Ho Hd _]). unfold kv_object_zset_length. rewrite Hv.
  unfold kv_hash_count. rewrite count_size by done.
  pose proof (order_sorted _ _ Ho) as [_ Hnd].
  assert (HM : to_map (zs_members set0) = list_to_map ((fun x => (x.2, mk_zmember x.2 x.1)) <$> l)).
  { apply map_eq. intros k. apply option_eq. intros e. rewrite Hd.
    rewrite <- elem_of_list_to_map by (rewrite <- list_fmap_compose; exact Hnd).
    rewrite list_elem_of_fmap. split.
    - intros [He Hin]. exists (zm_score e, k). split; [|done]. destruct e; cbn in *. by subst.
    - intros ([sc k'] & [= -> ->] & Hin). done. }
  rewrite HM, map_size_list_to_map by (rewrite <- list_fmap_compose; exact Hnd).
  by rewrite length_fmap.
Qed.

Lemma zset_add_succeeds o l score k :
  is_zset o l -> isnan score = false -> zlen l < 2 ^ 59 -> zlen k < 2 ^ 62 ->
  let '(w, _, m') := kv_object_zset_add [] o score (Some k) in w_status w = 0 /\ m' = [].
Proof.
  intros HZ Hnan Hl Hk. pose proof (zset_length_spec o l HZ) as Hlen.
  destruct HZ as (set0 & HR). unfold kv_object_zset_add, kv_object_zset_length in *.
  rewrite (zr_value _ _ _ HR) in *. rewrite Hnan. cbn zeta.
  destruct (rehash_step_map (zs_members set0) 1 (zr_wf _ _ _ HR) ltac:(lia)) as (Hw1 & Hm1 & Hc1).
  set (members := (kv_hash_rehash_step (zs_members set0) 1).2) in *.
  destruct (kv_hash_find members (Some k)) as [n|] eqn:Ef.
  - destruct (score_eq _ _); [done|]. by destruct (ordered_detach_node _ _).
  - apply find_None_map in Ef; [|done]. cbn [malloc].
    pose proof (order_prepare_ok [] (zs_order set0) score l (zr_order _ _ _ HR)) as Hp.
    assert (Hmem : (ordered_prepare_node [] (zs_order set0) score).2 = []).
    { unfold ordered_prepare_node, skiplist_prepare_node. destruct (zs_order set0) as [s|t]; [|done].
      by destruct (skip_random_level s). }
    destruct (ordered_prepare_node [] (zs_order set0) score) as [[[nd|] order1] m2];
      destruct Hp as (_ & _ & Hnd); [|done]. cbn in Hmem. subst m2. cbn [negb].
    destruct (insert_succeeds members k (mk_zmember k score) Hw1 Ef) as [Hr Hm]; [|done|].
    + rewrite count_size by done. rewrite Hm1, <- count_size by apply HR. unfold kv_hash_count in Hlen. lia.
    + destruct (kv_hash_insert [] members (Some k) _) as [[[r n] t2] m3]. cbn in Hr, Hm. by subst.
Qed.

Lemma zset_score_spec o l k :
  is_zset o l ->
  let '(r, sc, o') := kv_object_zset_score o (Some k) in
  is_zset o' l /\
  (r = 1 /\ (exists s, sc = Some s /\ (s, k) ∈ l) \/ r = 0 /\ sc = None /\ (k ∉ l.*2)).
Proof.
  intros (set0 & HR). unfold kv_object_zset_score. rewrite (zr_value _ _ _ HR). cbn zeta.
  pose proof (zset_rehash o l set0 (memory_usage o) HR) as HR1. cbn zeta in HR1.
  set (members := (kv_hash_rehash_step (zs_members set0) 1).2) in *.
  pose proof (zset_find _ _ _ k HR1) as Hf. cbn [zs_members] in Hf.
  destruct (kv_hash_find members (Some k)) as [n|]; (split; [by eexists|]); [left|right]; naive_solver.
Qed.

Lemma zset_remove_spec o l k :
  is_zset o l ->
  let '(r, o') := kv_object_zset_remove o (Some k) in
  r = (if decide (k ∈ l.*2) then 1 else 0) /\ is_zset o' (elem_remove k l).
Proof.
  intros (set0 & HR). unfold kv_object_zset_remove. rewrite (zr_value _ _ _ HR).
  pose proof (zset_find _ _ _ k HR) as Hf. pose proof HR as [_ Hw Ho Hd Hn].
  destruct (kv_hash_find (zs_members set0) (Some k)) as [n|] eqn:Ef.
  - destruct Hf as [Hptr Hin]. rewrite Hptr.
    pose proof (order_remove_ok _ l _ k Ho Hin) as Ho'.
    destruct (remove_found _ k n Hw Ef) as [Hw' Hm'].
    destruct (kv_hash_remove_node (zs_members set0) (Some n)) as [p t']. cbn in Hw', Hm'.
    rewrite decide_True by (by apply (list_elem_of_fmap_2 snd) in Hin). split; [done|].
    eexists. split; [reflexivity|exact Hw'|exact Ho'| |].
    + cbn [zs_members]. rewrite Hm'. intros j e. rewrite elem_of_remove. cbn.
      destruct (decide (j = k)) as [->|Hne].
      * rewrite lookup_delete_eq. naive_solver.
      * rewrite lookup_delete_ne by done. rewrite Hd. naive_solver.
    + rewrite Forall_forall in *. intros x [Hx _]%elem_of_remove. by apply Hn.
  - rewrite decide_False by done. split; [done|]. rewrite elem_remove_id by done. by exists set0.
Qed.

(** ** Ranges *)

(** The reference semantics of a range: indices from the end when negative,
    clipped to the list. *)
Definition range_of (l : list zelem) (start stop : Z) : list zelem :=
  let n := zlen l in
  let lo := Z.max 0 (if start <? 0 then start + n else start) in
  let hi := Z.min (n - 1) (if stop <? 0 then stop + n else stop) in
  take (Z.to_nat (hi - lo + 1)) (drop (Z.to_nat lo) l).

Lemma range_bounds_spec o (l : list zelem) start stop :
  order_repr o l ->
  match range_bounds (zlen l) start stop with
  | None => range_of l start stop = []
  | Some (first, last) =>
      ordered_range o first (Z.to_nat (last - first + 1)) = range_of l start stop /\
      0 <= first <= last /\ last < zlen l
  end.
Proof.
  intros Ho. pose proof (zlen_nonneg l). unfold range_bounds.
  assert (Hempty : forall a b, b <= a -> take (Z.to_nat (b - a)) (drop (Z.to_nat a) l) = []).
  { intros a b Hab. replace (Z.to_nat (b - a)) with 0%nat by lia. by rewrite take_0. }
  unfold range_of.
  set (a := if start <? 0 then start + zlen l else start).
  set (b := if stop <? 0 then stop + zlen l else stop).
  destruct (Z.eqb_spec (zlen l) 0) as [Hz|Hz].
  { replace (Z.to_nat (_ - _ + 1)) with 0%nat by lia. by rewrite take_0. }
  assert (Ha : (if a <? 0 then 0 else a) = Z.max 0 a) by (destruct (Z.ltb_spec a 0); lia). rewrite Ha.
  destruct ((b <? 0) || (Z.max 0 a >=? zlen l) || (Z.max 0 a >? b)) eqn:E.
  - apply orb_true_iff in E as [E|E]; [apply orb_true_iff in E as [E|E]|]; zb;
      (replace (Z.to_nat (_ - _ + 1)) with 0%nat by lia; by rewrite take_0).
  - apply orb_false_iff in E as [E E3]. apply orb_false_iff in E as [E1 E2]. zb.
    assert (Hb : (if b >=? zlen l then zlen l - 1 else b) = Z.min (zlen l - 1) b).
    { destruct (b >=? zlen l) eqn:Eb; zb; lia. }
    rewrite Hb. split; [|lia]. by apply order_range_ok; [|lia].
Qed.

Lemma visit_app {A X : Type} (cb : A -> X -> Z * A) c l k :
  visit cb c (l ++ k) = let '(r, c') := visit cb c l in if r =? 0 then visit cb c' k else (r, c').
Proof.
  revert c. induction l as [|x l IH]; intros c; cbn; [done|].
  destruct (cb c x) as [r c']. destruct (negb (r =? 0)); [done|]. apply IH.
Qed.

Lemma visit_status {A X : Type} (cb : A -> X -> Z * A) c l :
  (visit cb c l).1 = 0 \/ (visit cb c l).1 = -1.
Proof.
  revert c. induction l as [|x l IH]; intros c; cbn; [by left|].
  destruct (cb c x) as [r c']. destruct (negb (r =? 0)); [by right|]. apply IH.
Qed.

Lemma zset_range_spec {A} o l start stop (cb : A -> zelem -> Z * A) c :
  is_zset o l ->
  kv_object_zset_range o start stop cb c =
  let '(r, c') := visit cb c (range_of l start stop) in
  (r, c', if r =? 0 then zlen (range_of l start stop) else 0).
Proof.
  intros HZ. pose proof (zset_length_spec o l HZ) as Hlen. destruct HZ as (set0 & [Hv _ Ho _ _]).
  unfold kv_object_zset_range, kv_object_zset_length in *. rewrite Hv in *.
  rewrite Hlen. pose proof (range_bounds_spec _ l start stop Ho) as Hb.
  destruct (range_bounds (zlen l) start stop) as [[first last]|]; [|by rewrite Hb].
  destruct Hb as [-> _]. pose proof (visit_status cb c (range_of l start stop)) as Hs.
  destruct (visit cb c (range_of l start stop)) as [r c']. cbn in Hs. by destruct Hs as [->| ->].
Qed.

Lemma range_all l : range_of l 0 (-1) = l.
Proof.
  unfold range_of. pose proof (zlen_nonneg l). cbn [Z.ltb Z.compare].
  rewrite Z.max_id, Z.min_l by lia. change (Z.to_nat 0) with 0%nat. rewrite drop_0, take_ge; [done|].
  unfold zlen. lia.
Qed.

Lemma validate_spec o l : is_zset o l -> kv_object_zset_validate o = 1.
Proof.
  intros HZ. pose proof (zset_length_spec o l HZ) as Hlen. destruct HZ as (set0 & [Hv _ Ho _ _]).
  unfold kv_object_zset_validate, kv_object_zset_length in *. rewrite Hv in *. rewrite Hlen.
  destruct (zs_order set0) as [s|t]; cbn in Ho.
  - rewrite (validate_skiplist_ok s l Ho), (skip_repr_length s l Ho), Z.eqb_refl. done.
  - rewrite (validate_rbtree_ok t l Ho), (rb_repr_length t l Ho), Z.eqb_refl. done.
Qed.

(** ** Cloning *)

(** What an object holds. *)
Inductive contents : Type :=
| CString (l : list Z)
| CHash (M : gmap (list Z) (list Z))
| CZset (engine : kv_zset_engine) (l : list zelem).

Definition holds (o : kv_object) (c : contents) : Prop :=
  match c with
  | CString l => kv_object_string_value o = Some l
  | CHash M => is_hash o M
  | CZset e l => is_zset o l /\ kv_object_zset_engine o = e
  end.

(** Sizes far above any real store and below the arithmetic limits. *)
Definition small_contents (c : contents) : Prop :=
  match c with
  | CString l => zlen l < 2 ^ 62
  | CHash M => Z.of_nat (size M) < 2 ^ 59 /\ map_Forall (fun f v => zlen f < 2 ^ 62 /\ zlen v < 2 ^ 62) M
  | CZset _ l => zlen l < 2 ^ 59 /\ Forall (fun x => zlen x.2 < 2 ^ 62) l
  end.

Lemma clone_hash_visit l M o m :
  is_hash o M -> NoDup l.*1 -> (forall f, f ∈ l.*1 -> M !! f = None) ->
  (let '(r, (o', m')) := visit clone_hash_field (o, m) l in
   r = 0 -> is_hash o' (list_to_map l ∪ M)) /\
  (m = [] -> Z.of_nat (size M) + zlen l < 2 ^ 59 ->
   Forall (fun x => zlen x.1 < 2 ^ 62 /\ zlen x.2 < 2 ^ 62) l ->
   (visit clone_hash_field (o, m) l).1 = 0 /\ (visit clone_hash_field (o, m) l).2.2 = []).
Proof.
  revert M o m. induction l as [|[f v] l IH]; intros M o m Ho Hn Hf; cbn [visit].
  { split; [|done]. intros _. by rewrite list_to_map_nil, (left_id_L ∅ (∪)). }
  rewrite fmap_cons in Hn, Hf. apply NoDup_cons in Hn as [Hn1 Hn2]. cbn in Hn1.
  assert (Hcb : clone_hash_field (o, m) (f, v) =
    let '(w, d, m) := kv_object_hash_set m o (Some f) (Some v) in
    (if negb (w_status w =? 0) then -1 else 0, (d, m))) by done.
  rewrite !Hcb.
  pose proof (hash_set_spec m o M f v Ho) as Hs. pose proof (hash_set_succeeds o M f v Ho) as Hsucc.
  assert (HMf : M !! f = None) by (apply Hf, elem_of_cons; by left).
  destruct (kv_object_hash_set m o (Some f) (Some v)) as [[w o1] m1] eqn:E.
  destruct (Z.eqb_spec (w_status w) 0) as [Hw|Hw]; cbn [negb Z.eqb].
  - assert (Ho1 : is_hash o1 (<[f := v]> M)).
    { destruct Hs as [(_ & Hx & _)|[(_ & (x & Hx & _) & _)|[(_ & _ & Hx)|(-> & _)]]]; [congruence|congruence|done|done]. }
    destruct (IH (<[f := v]> M) o1 m1 Ho1 Hn2) as [IH1 IH2].
    { intros f' Hf'. rewrite lookup_insert_ne by (by intros ->). apply Hf, elem_of_cons. by right. }
    split.
    + destruct (visit clone_hash_field (o1, m1) l) as [r [o' m']]. intros Hr. specialize (IH1 Hr).
      cbn [list_to_map foldr fst snd uncurry]. rewrite <- insert_union_l, insert_union_r; [done|].
      by apply not_elem_of_list_to_map_1.
    + intros -> Hsz Hsm. apply Forall_cons in Hsm as [[H1 H2] Hsm]. cbn in H1, H2.
      rewrite zlen_cons in Hsz. pose proof (zlen_nonneg l). rewrite E in Hsucc.
      destruct Hsucc as [_ ->]; [lia|done|done|]. apply IH2; [done| |done].
      rewrite map_size_insert_None by done. lia.
  - split; [done|]. intros -> Hsz Hsm. apply Forall_cons in Hsm as [[H1 H2] Hsm]. cbn in H1, H2.
    rewrite zlen_cons in Hsz. pose proof (zlen_nonneg l). rewrite E in Hsucc.
    destruct Hsucc as [Hx _]; [lia|done|done|]. done.
Qed.

Lemma elem_insert_last pre x : zsorted (pre ++ [x]) -> elem_insert x pre = pre ++ [x].
Proof.
  intros [Hso _]. apply StronglySorted_app_iff in Hso as (_ & _ & Hlt).
  rewrite <- (app_nil_r pre) at 1. apply elem_insert_app.
  - intros y Hy. apply Hlt; [done|]. by apply list_elem_of_singleton.
  - by intros y ?%elem_of_nil.
Qed.

Lemma zset_add_engine m o score k :
  kv_object_zset_engine (kv_object_zset_add m o score k).1.2 = kv_object_zset_engine o.
Proof.
  assert (Hins : forall ord n, zset_engine (ordered_insert_node ord n) = zset_engine ord) by (by intros [] []).
  unfold kv_object_zset_add, kv_object_zset_engine.
  destruct (o_value o) as [| |set0] eqn:Ev, k as [k|]; cbn [fst snd]; rewrite ?Ev; try done.
  destruct (isnan score); cbn [fst snd]; rewrite ?Ev; [done|]. cbn zeta.
  destruct (kv_hash_find _ _) as [n|].
  - destruct (score_eq _ _); [done|].
    assert (Hd : forall p, zset_engine (ordered_detach_node (zs_order set0) p).2 = zset_engine (zs_order set0)).
    { intros p. destruct (zs_order set0) as [s|t]; cbn.
      - by destruct (skiplist_detach_node s p).
      - by destruct (rbtree_detach_node t p). }
    specialize (Hd (zm_order_node (npayload n))).
    destruct (ordered_detach_node (zs_order set0) (zm_order_node (npayload n))) as [[nd|] ord]; cbn in *; by rewrite ?Hins.
  - destruct (malloc m) as [entry m1].
    assert (Hp : zset_engine (ordered_prepare_node m1 (zs_order set0) score).1.2 = zset_engine (zs_order set0)).
    { destruct (zs_order set0) as [s|t]; cbn.
      - by destruct (skiplist_prepare_node m1 s score) as [[? ?] ?].
      - by destruct (rbtree_prepare_node m1 score). }
    destruct (ordered_prepare_node m1 (zs_order set0) score) as [[[nd|] ord] m2]; cbn [fst snd] in *; [|done].
    destruct entry; cbn [negb]; [|done].
    destruct (kv_hash_insert m2 _ _ _) as [[[r ?] ?] ?].
    destruct (negb (r =? 0)); cbn [fst snd o_value set_usage zs_order]; by rewrite ?Hins.
Qed.

Lemma clone_zset_visit pre l o m :
  is_zset o pre -> zsorted (pre ++ l) -> Forall (fun x => isnan x.1 = false) l ->
  (let '(r, (o', m')) := visit clone_zset_member (o, m) l in
   kv_object_zset_engine o' = kv_object_zset_engine o /\ (r = 0 -> is_zset o' (pre ++ l))) /\
  (m = [] -> zlen (pre ++ l) < 2 ^ 59 -> Forall (fun x => zlen x.2 < 2 ^ 62) l ->
   (visit clone_zset_member (o, m) l).1 = 0 /\ (visit clone_zset_member (o, m) l).2.2 = []).
Proof.
  revert pre o m. induction l as [|[sc k] l IH]; intros pre o m Ho Hso Hnan; cbn [visit].
  { split; [|done]. split; [done|]. by rewrite app_nil_r. }
  apply Forall_cons in Hnan as [Hsc Hnan]. cbn in Hsc.
  assert (Hcb : clone_zset_member (o, m) (sc, k) =
    let '(w, d, m) := kv_object_zset_add m o sc (Some k) in
    (if negb (w_status w =? 0) then -1 else 0, (d, m))) by done.
  rewrite !Hcb. pose proof (zset_add_spec m o pre sc k Ho) as Hs.
  pose proof (zset_add_succeeds o pre sc k Ho Hsc) as Hsucc.
  pose proof (zset_add_engine m o sc (Some k)) as Heng.
  assert (Hk : k ∉ pre.*2).
  { destruct Hso as [_ Hnd]. rewrite fmap_app, fmap_cons in Hnd. apply NoDup_app in Hnd as (_ & Hd & _).
    intros Hx. apply (Hd k Hx), elem_of_cons. by left. }
  assert (Hso1 : zsorted (pre ++ [(sc, k)])).
  { change (pre ++ (sc, k) :: l) with (pre ++ [(sc, k)] ++ l) in Hso. rewrite app_assoc in Hso.
    destruct Hso as [H1 H2]. apply StronglySorted_app_iff in H1 as (H1 & _).
    rewrite fmap_app in H2. apply NoDup_app in H2 as (H2 & _). split; [exact H1|exact H2]. }
  destruct (kv_object_zset_add m o sc (Some k)) as [[w o1] m1] eqn:E. cbn in Heng.
  destruct (Z.eqb_spec (w_status w) 0) as [Hw|Hw]; cbn [negb Z.eqb].
  - assert (Ho1 : is_zset o1 (pre ++ [(sc, k)])).
    { assert (Hin : forall old, (old, k) ∈ pre -> False) by (intros old Hx; by apply (list_elem_of_fmap_2 snd) in Hx).
      destruct Hs as [[Hx _]|[_ [(_ & (old & Hx & _) & _)|[(_ & (old & Hx & _) & _)|[(_ & _ & Hx)|(-> & _)]]]]];
        [congruence|by apply Hin in Hx|by apply Hin in Hx| |done].
      by rewrite elem_insert_last in Hx. }
    destruct (IH (pre ++ [(sc, k)]) o1 m1 Ho1) as [IH1 IH2]; [by rewrite <- app_assoc|done|].
    rewrite <- app_assoc in IH1, IH2. cbn [app] in IH1, IH2. split.
    + destruct (visit clone_zset_member (o1, m1) l) as [r [o' m']]. by rewrite <- Heng.
    + intros -> Hsz Hsm. apply Forall_cons in Hsm as [Hl Hsm]. rewrite E in Hsucc.
      pose proof Hsz as Hsz'. rewrite zlen_app, zlen_cons in Hsz'. pose proof (zlen_nonneg l).
      destruct Hsucc as [_ ->]; [lia|done|]. by apply IH2.
  - split; [done|]. intros -> Hsz Hsm. apply Forall_cons in Hsm as [Hl Hsm]. rewrite E in Hsucc.
    pose proof Hsz as Hsz'. rewrite zlen_app, zlen_cons in Hsz'. pose proof (zlen_nonneg l).
    destruct Hsucc as [Hx _]; [lia|done|]. done.
Qed.

Lemma create_hash_nil : exists h, kv_object_create_hash [] = (Some h, []).
Proof. eexists. vm_compute. reflexivity. Qed.

Lemma create_zset_nil engine : exists h, kv_object_create_zset [] engine = (Some h, []).
Proof. destruct engine; eexists; vm_compute; reflexivity. Qed.

Lemma visit_result (x : Z * (kv_object * mem)) :
  x.1 = 0 -> x.2.2 = [] ->
  exists c, match x with
            | (0, (copy, m)) => (Some copy, m)
            | (_, (_, m)) => (None, m)
            end = (Some c, []).
Proof. destruct x as [r [c m]]. cbn. intros -> ->. by exists c. Qed.

Lemma clone_spec m o c :
  holds o c ->
  match kv_object_clone m o with (Some copy, _) => holds copy c | (None, _) => True end /\
  (small_contents c -> exists copy, kv_object_clone [] o = (Some copy, [])).
Proof.
  destruct c as [l|M|engine l]; cbn [holds small_contents].
  - unfold kv_object_string_value, kv_object_clone. destruct (o_value o) as [l' cap| |]; [|done..].
    intros [= ->]. unfold kv_object_create_string. split.
    + destruct (_ || _); [done|]. destruct (malloc m) as [[] ?]; [|done]. done.
    + intros Hl. pose proof (zlen_nonneg l). destruct (_ || _) eqn:E; [|by eexists].
      apply orb_true_iff in E as [E|E]; zb; unfold SIZEOF_KV_OBJECT in *; zlia.
  - intros Ho. unfold kv_object_clone, kv_object_hash_visit. destruct Ho as (table & HR).
    pose proof (hash_fields_spec _ _ _ HR) as Hp. rewrite (hr_value _ _ _ HR).
    assert (Hnd : NoDup (hash_fields table).*1) by (rewrite Hp; apply NoDup_fst_map_to_list).
    assert (Hlist : list_to_map (hash_fields table) = M).
    { rewrite <- (list_to_map_to_list M). by apply list_to_map_proper. }
    split.
    + pose proof (create_hash_spec m) as Hc. destruct (kv_object_create_hash m) as [[copy|] m1]; [|done].
      destruct (clone_hash_visit (hash_fields table) ∅ copy m1 Hc Hnd) as [Hv _]; [done|].
      destruct (visit clone_hash_field (copy, m1) (hash_fields table)) as [r [o' m']].
      destruct r; [|done..]. rewrite (right_id_L ∅ (∪)), Hlist in Hv. by apply Hv.
    + intros [Hsz Hsm]. destruct create_hash_nil as [copy Ec]. rewrite Ec.
      pose proof (create_hash_spec []) as Hc. rewrite Ec in Hc.
      destruct (clone_hash_visit (hash_fields table) ∅ copy [] Hc Hnd) as [_ Hv]; [done|].
      destruct Hv as [H1 H2]; [done| | |].
      * rewrite map_size_empty. unfold zlen. rewrite Hp, length_map_to_list. lia.
      * rewrite Hp. apply Forall_forall. intros [f v] Hx%elem_of_map_to_list. by apply (Hsm f v).
      * by apply visit_result.
  - intros [Ho He]. pose proof (zset_sorted _ _ Ho) as Hso. pose proof Ho as (set0 & HR).
    unfold kv_object_clone. unfold kv_object_zset_engine in He. rewrite (zr_value _ _ _ HR) in *. rewrite He.
    assert (Hn : Forall (fun x => isnan x.1 = false) l) by apply HR. split.
    + pose proof (create_zset_spec m engine) as Hc. destruct (kv_object_create_zset m engine) as [[copy|] m1]; [|done].
      destruct Hc as [Hc Hce]. rewrite (zset_range_spec o l) by done. rewrite range_all.
      destruct (clone_zset_visit [] l copy m1 Hc Hso Hn) as [Hv _].
      destruct (visit clone_zset_member (copy, m1) l) as [r [o' m']]. destruct Hv as [Hv1 Hv2].
      destruct r; [|done..]. split; [by apply Hv2|congruence].
    + intros [Hsz Hsm]. destruct (create_zset_nil engine) as [copy Ec]. rewrite Ec.
      pose proof (create_zset_spec [] engine) as Hc. rewrite Ec in Hc. destruct Hc as [Hc _].
      rewrite (zset_range_spec o l) by done. rewrite range_all.
      destruct (clone_zset_visit [] l copy [] Hc Hso Hn) as [_ Hv]. destruct Hv as [H1 H2]; [done..|].
      destruct (visit_result _ H1 H2) as [c Hc']. exists c. rewrite <- Hc'.
      destruct (visit _ _ _) as [r [o' m']]. cbn [fst] in H1. by subst r.
Qed.

(** ** Properties *)

(** Writing a hash field refines map insertion, with exact [added] and
    [changed] flags: an equal value changes nothing, another value replaces
    the old one (in place or in a larger allocation), a new field is added,
    and a failed write leaves the hash as it was.  With memory available no
    write fails. *)
Theorem hash_set_correct m o M f v :
  is_hash o M ->
  let '(w, o', m') := kv_object_hash_set m o (Some f) (Some v) in
  ((w = write_same /\ M !! f = Some v /\ is_hash o' M) \/
   (w = write_changed /\ (exists old, M !! f = Some old /\ old <> v) /\ is_hash o' (<[f := v]> M)) \/
   (w = write_added /\ M !! f = None /\ is_hash o' (<[f := v]> M)) \/
   (w = write_failed /\ is_hash o' M)) /\
  (m = [] -> Z.of_nat (size M) < 2 ^ 59 -> zlen f < 2 ^ 62 -> zlen v < 2 ^ 62 -> w_status w = 0).
Proof.
  intros Ho. pose proof (hash_set_spec m o M f v Ho) as Hs.
  pose proof (hash_set_succeeds o M f v Ho) as Hsucc.
  destruct (kv_object_hash_set m o (Some f) (Some v)) as [[w o'] m'] eqn:E.
  split; [done|]. intros -> H1 H2 H3. rewrite E in Hsucc. by destruct Hsucc.
Qed.

Definition sample_hash : kv_object :=
  match kv_object_create_hash [] with (Some o, _) => o | _ => mk_object 0 (VString [] 0) end.

Lemma sample_hash_ok : is_hash sample_hash ∅.
Proof.
  unfold sample_hash. pose proof (create_hash_spec []) as H.
  by destruct (kv_object_create_hash []) as [[o|] ?].
Qed.

(** C24. Adding a member refines the sorted list of elements for both order
    engines: NaN is rejected, an equal score changes nothing, a new score
    moves the member to its place, a new member is inserted at its place, a
    failed allocation leaves the set as it was; the flags tell which, and the
    set always passes the code's validation.  With memory available no
    addition of a number fails. *)
Theorem zset_add_correct m o l score k :
  is_zset o l ->
  let '(w, o', m') := kv_object_zset_add m o score (Some k) in
  ((isnan score = true /\ w = write_failed /\ o' = o) \/
   (isnan score = false /\
    ((w = write_same /\ (exists old, (old, k) ∈ l /\ score_eq old score = true) /\ is_zset o' l) \/
     (w = write_changed /\ (exists old, (old, k) ∈ l /\ score_eq old score = false) /\
        is_zset o' (elem_insert (score, k) (elem_remove k l))) \/
     (w = write_added /\ (k ∉ l.*2) /\ is_zset o' (elem_insert (score, k) l)) \/
     (w = write_failed /\ (k ∉ l.*2) /\ is_zset o' l)))) /\
  kv_object_zset_validate o' = 1 /\
  (m = [] -> isnan score = false -> zlen l < 2 ^ 59 -> zlen k < 2 ^ 62 -> w_status w = 0).
Proof.
  intros Ho. pose proof (zset_add_spec m o l score k Ho) as Hs.
  pose proof (zset_add_succeeds o l score k Ho) as Hsucc.
  destruct (kv_object_zset_add m o score (Some k)) as [[w o'] m'] eqn:E.
  split; [done|]. split.
  - destruct Hs as [(_ & _ & ->)|[_ [(_ & _ & H)|[(_ & _ & H)|[(_ & _ & H)|(_ & _ & H)]]]]];
      by eapply validate_spec.
  - intros -> H1 H2 H3. rewrite E in Hsucc. by destruct (Hsucc H1 H2 H3).
Qed.

Definition sample_zset : kv_object :=
  match kv_object_create_zset [] KV_ZSET_RBTREE with
  | (Some o, _) => o
  | _ => mk_object 0 (VString [] 0)
  end.

Lemma sample_zset_ok : is_zset sample_zset [].
Proof.
  unfold sample_zset. pose proof (create_zset_spec [] KV_ZSET_RBTREE) as H.
  by destruct (kv_object_create_zset [] KV_ZSET_RBTREE) as [[o|] ?]; [destruct H|].
Qed.

Lemma zset_add_correct_witness :
  is_zset (kv_object_zset_add [] sample_zset 4607182418800017408 (Some [97])).1.2
    [(4607182418800017408, [97])].
Proof.
  pose proof (zset_add_correct [] sample_zset [] 4607182418800017408 [97] sample_zset_ok) as H.
  destruct (kv_object_zset_add [] sample_zset 4607182418800017408 (Some [97])) as [[w o'] m'].
  cbn [fst snd]. destruct H as [H [_ Hs]]. specialize (Hs eq_refl ltac:(vm_compute; reflexivity)
    ltac:(vm_compute; reflexivity) ltac:(vm_compute; reflexivity)).
  destruct H as [(H & _)|[_ [(_ & (x & H & _) & _)|[(_ & (x & H & _) & _)|[(_ & _ & H)|(-> & _)]]]]].
  - vm_compute in H. discriminate.
  - apply elem_of_nil in H. destruct H.
  - apply elem_of_nil in H. destruct H.
  - exact H.
  - discriminate.
Defined.

(** A range visits exactly the elements between the two ranks, negative
    ranks counted from the end and the bounds clipped, in order, for both
    engines, and reports how many it visited; a callback that fails stops it. *)
Theorem zset_range_correct {A} o l start stop (cb : A -> zelem -> Z * A) c :
  is_zset o l ->
  kv_object_zset_range o start stop cb c =
  let '(r, c') := visit cb c (range_of l start stop) in
  (r, c', if r =? 0 then zlen (range_of l start stop) else 0).
Proof. apply zset_range_spec. Qed.

Definition two_member_zset : kv_object :=
  let o := (kv_object_zset_add [] sample_zset 4607182418800017408 (Some [97])).1.2 in
  (kv_object_zset_add [] o 0 (Some [98])).1.2.

Lemma two_member_zset_ok : is_zset two_member_zset [(0, [98]); (4607182418800017408, [97])].
Proof.
  unfold two_member_zset.
  set (o := (kv_object_zset_add [] sample_zset 4607182418800017408 (Some [97])).1.2).
  assert (Ho : is_zset o [(4607182418800017408, [97])]).
  { unfold o. pose proof (zset_add_spec [] sample_zset [] 4607182418800017408 [97] sample_zset_ok) as H.
    pose proof (zset_add_succeeds sample_zset [] 4607182418800017408 [97] sample_zset_ok eq_refl eq_refl eq_refl) as Hs.
    destruct (kv_object_zset_add [] sample_zset 4607182418800017408 (Some [97])) as [[w o'] m'].
    cbn [fst snd]. destruct Hs as [Hs _].
    destruct H as [(H & _)|[_ [(_ & (x & H & _) & _)|[(_ & (x & H & _) & _)|[(_ & _ & H)|(-> & _)]]]]];
      [done|by apply elem_of_nil in H|by apply elem_of_nil in H|exact H|done]. }
  clearbody o. pose proof (zset_add_spec [] o _ 0 [98] Ho) as H.
  pose proof (zset_add_succeeds o _ 0 [98] Ho eq_refl eq_refl eq_refl) as Hs.
  destruct (kv_object_zset_add [] o 0 (Some [98])) as [[w o'] m']. cbn [fst snd]. destruct Hs as [Hs _].
  destruct H as [(H & _)|[_ [(_ & (x & H & _) & _)|[(_ & (x & H & _) & _)|[(_ & _ & H)|(-> & _)]]]]];
    [done|by apply list_elem_of_singleton in H|by apply list_elem_of_singleton in H|exact H|done].
Qed.

(** A clone holds the same contents as the original, for strings, hashes
    and sorted sets of either engine (which it keeps); with memory available
    cloning succeeds. *)
Theorem clone_correct m o c :
  holds o c ->
  match kv_object_clone m o with (Some copy, _) => holds copy c | (None, _) => True end /\
  (small_contents c -> exists copy, kv_object_clone [] o = (Some copy, [])).
Proof. apply clone_spec. Qed.

(** ** Memory accounting *)

(** No operation makes the count negative. *)
Lemma set_usage_nonneg z v : 0 <= memory_usage (set_usage z v).
Proof. cbn. apply wrap64_range. Qed.

Lemma hash_set_usage m o f v : 0 <= memory_usage o -> 0 <= memory_usage (kv_object_hash_set m o f v).1.2.
Proof.
  intros Ho. unfold kv_object_hash_set. repeat case_match; cbn [fst snd]; try done; apply set_usage_nonneg || done.
Qed.

Lemma zset_add_usage m o sc k : 0 <= memory_usage o -> 0 <= memory_usage (kv_object_zset_add m o sc k).1.2.
Proof.
  intros Ho. unfold kv_object_zset_add. repeat case_match; cbn [fst snd]; try done; apply set_usage_nonneg || done.
Qed.

Lemma visit_usage {X} (cb : kv_object * mem -> X -> Z * (kv_object * mem)) l o m :
  (forall o m x, 0 <= memory_usage o -> 0 <= memory_usage (cb (o, m) x).2.1) -> 0 <= memory_usage o ->
  0 <= memory_usage (visit cb (o, m) l).2.1.
Proof.
  intros Hcb. revert o m. induction l as [|x l IH]; intros o m Ho; cbn [visit]; [done|].
  specialize (Hcb o m x Ho). destruct (cb (o, m) x) as [r [o1 m1]]. destruct (negb _); [done|]. by apply IH.
Qed.

(** The bytes a hash object really occupies. *)
Definition hash_actual_memory (table : hashtable hash_value) : Z :=
  SIZEOF_KV_OBJECT + kv_hash_index_memory table +
  fold_right (fun n z => kv_hash_node_memory_for_key (zlen (nkey n)) +
    SIZEOF_HASH_VALUE + hv_capacity (npayload n) + 1 + z) 0 (all_nodes table).

(** Thirteen fields, which start an expansion, then sixteen lookups, which
    complete it one bucket at a time. *)
Definition drifted_hash : kv_object :=
  let filled := fold_left (fun o i => (kv_object_hash_set [] o (Some [i]) (Some [i])).1.2)
                  (seqZ 0 13) sample_hash in
  fold_left (fun o i => (kv_object_hash_get o (Some [i])).2) (seqZ 0 16) filled.

(** The memory accounting of a hash drifts: once the incremental rehash
    of a lookup or a write releases the old bucket array, [memory_usage] keeps
    counting it.  After one expansion of the first table, with the rehash
    complete, the object reports 128 bytes more than it occupies. *)
Example hash_memory_usage_drifts :
  exists table, o_value drifted_hash = VHash table /\ kv_hash_is_rehashing table = false /\
    kv_object_memory_usage drifted_hash = hash_actual_memory table + 16 * SIZEOF_POINTER.
Proof. eexists. split; [vm_compute; reflexivity|]. split; vm_compute; reflexivity. Qed.
