(* ===== verification/ExpireHeap.v ===== *)
(** The binary heap of expiring entries ([expire_heap], [heap_*] of
    [src/cache/cache.c]).

    An entry pointer is represented by the key of the entry.  The array holds
    its first [heap_count] slots; the field [heap_index] of the entries is a
    finite map, in which an entry outside the heap ([CACHE_HEAP_NONE]) has no
    binding.  Expiration times, which the entries hold, are a parameter of
    the operations that compare them.  Indices are below [heap_count], so
    that no [size_t] operation on them wraps. *)

From S2P Require Import Prelude.

Definition CACHE_HEAP_INITIAL_CAPACITY : Z := 16.

Record expire_heap : Type := mk_heap {
  eh_array : list (list Z);
  eh_index : gmap (list Z) nat;
  eh_capacity : Z
}.

Definition empty_heap : expire_heap := mk_heap [] ∅ 0.

Definition heap_count (h : expire_heap) : nat := length (eh_array h).

(** [cache->expire_heap[i]] *)
Definition slot (h : expire_heap) (i : nat) : list Z := nth i (eh_array h) [].

(** [cache->expire_heap[i] = p; p->heap_index = i] *)
Definition put (i : nat) (p : list Z) (h : expire_heap) : expire_heap :=
  mk_heap (<[i := p]> (eh_array h)) (<[p := i]> (eh_index h)) (eh_capacity h).

Definition parent_of (i : nat) : nat := ((i - 1) / 2)%nat.

Section Operations.
Context (expire : list Z -> Z).

Definition heap_less (left_entry right_entry : list Z) : bool :=
  expire left_entry <? expire right_entry.

Definition heap_swap (h : expire_heap) (i j : nat) : expire_heap :=
  let temporary := slot h i in
  put j temporary (put i (slot h j) h).

(** The index at least halves: [fuel] starts as the index. *)
Fixpoint heap_sift_up (fuel : nat) (h : expire_heap) (index : nat) : expire_heap :=
  match fuel with
  | O => h
  | S fuel =>
      if (0 <? index)%nat then
        let parent := parent_of index in
        if negb (heap_less (slot h index) (slot h parent)) then h
        else heap_sift_up fuel (heap_swap h index parent) parent
      else h
  end.

(** The index grows below [heap_count], which bounds [fuel]. *)
Fixpoint heap_sift_down (fuel : nat) (h : expire_heap) (index : nat) : expire_heap :=
  match fuel with
  | O => h
  | S fuel =>
      let l := (index * 2 + 1)%nat in
      let r := (l + 1)%nat in
      let smallest := if (l <? heap_count h)%nat && heap_less (slot h l) (slot h index)
                      then l else index in
      let smallest := if (r <? heap_count h)%nat && heap_less (slot h r) (slot h smallest)
                      then r else smallest in
      if (smallest =? index)%nat then h
      else heap_sift_down fuel (heap_swap h index smallest) smallest
  end.

(** The growth loop: at most 64 doublings before the guard fails. *)
Fixpoint grow_heap (fuel : nat) (capacity required : Z) : option Z :=
  match fuel with
  | O => None
  | S fuel =>
      if capacity <? required then
        if capacity >? SIZE_MAX / 2 then None else grow_heap fuel (capacity * 2) required
      else Some capacity
  end.

Definition heap_reserve (m : mem) (h : expire_heap) (required : Z) : Z * expire_heap * mem :=
  if required <=? eh_capacity h then (0, h, m) else
  let capacity := if eh_capacity h =? 0 then CACHE_HEAP_INITIAL_CAPACITY else eh_capacity h in
  match grow_heap 64 capacity required with
  | None => (-1, h, m)
  | Some capacity =>
      if capacity >? SIZE_MAX / 8 then (-1, h, m) else
      let '(ok, m) := malloc m in
      if ok then (0, mk_heap (eh_array h) (eh_index h) capacity, m) else (-1, h, m)
  end.

Definition heap_insert_reserved (h : expire_heap) (p : list Z) : expire_heap :=
  let index := heap_count h in
  let h := mk_heap (eh_array h ++ [p]) (<[p := index]> (eh_index h)) (eh_capacity h) in
  heap_sift_up index h index.

Definition sift (h : expire_heap) (index : nat) : expire_heap :=
  if (0 <? index)%nat && heap_less (slot h index) (slot h (parent_of index))
  then heap_sift_up index h index
  else heap_sift_down (heap_count h) h index.

Definition heap_remove_at (h : expire_heap) (index : nat) : expire_heap :=
  if (heap_count h <=? index)%nat then h else
  let removed := slot h index in
  let last_index := (heap_count h - 1)%nat in
  let last_entry := slot h last_index in
  let h := mk_heap (take last_index (eh_array h)) (delete removed (eh_index h)) (eh_capacity h) in
  if (index =? last_index)%nat then h
  else sift (put index last_entry h) index.

Definition heap_expiration_changed (h : expire_heap) (p : list Z) : expire_heap :=
  match eh_index h !! p with
  | Some index => sift h index
  | None => h
  end.

(** ** Invariant *)

(** The index map is the inverse of the array. *)
Definition indexed (h : expire_heap) : Prop :=
  forall p i, eh_index h !! p = Some i <-> eh_array h !! i = Some p.

Definition key_at (h : expire_heap) (i : nat) : Z := expire (slot h i).

Definition ordered (h : expire_heap) : Prop :=
  forall i, (0 < i < heap_count h)%nat -> key_at h (parent_of i) <= key_at h i.

Record heap_ok (h : expire_heap) : Prop := {
  ho_indexed : indexed h;
  ho_ordered : ordered h
}.

Lemma slot_lookup h i : (i < heap_count h)%nat -> eh_array h !! i = Some (slot h i).
Proof.
  intros Hi. unfold slot. destruct (lookup_lt_is_Some_2 _ _ Hi) as [x Hx].
  rewrite nth_lookup, Hx. done.
Qed.

Lemma lookup_slot h i p : eh_array h !! i = Some p -> slot h i = p /\ (i < heap_count h)%nat.
Proof.
  intros Hi. unfold slot. rewrite nth_lookup, Hi. split; [done|]. by eapply lookup_lt_Some.
Qed.

Lemma indexed_nodup h : indexed h -> NoDup (eh_array h).
Proof.
  intros Hi. apply NoDup_alt. intros i j x H1 H2. apply Hi in H1, H2. congruence.
Qed.

Lemma parent_lt i : (0 < i)%nat -> (parent_of i < i)%nat.
Proof. intros. unfold parent_of. apply Nat.Div0.div_lt_upper_bound. lia. Qed.

Lemma parent_children i k : (0 < k)%nat -> parent_of k = i <-> (k = i * 2 + 1 \/ k = i * 2 + 2)%nat.
Proof.
  intros Hk. unfold parent_of. pose proof (Nat.div_mod_eq (k - 1) 2).
  pose proof (Nat.mod_upper_bound (k - 1) 2). lia.
Qed.

(** ** Swaps *)

Section Swap.
Context (h : expire_heap) (i j : nat).
Context (Hi : (i < heap_count h)%nat) (Hj : (j < heap_count h)%nat).

Lemma swap_count : heap_count (heap_swap h i j) = heap_count h.
Proof. unfold heap_swap, heap_count. cbn. by rewrite !length_insert. Qed.

Lemma swap_slot k :
  slot (heap_swap h i j) k = if decide (k = j) then slot h i else if decide (k = i) then slot h j else slot h k.
Proof.
  unfold heap_swap, slot. cbn. unfold heap_count in *. rewrite !nth_lookup.
  destruct (decide (k = j)) as [->|Hkj].
  - rewrite list_lookup_insert_eq by (rewrite length_insert; done). done.
  - rewrite list_lookup_insert_ne by done. destruct (decide (k = i)) as [->|Hki].
    + by rewrite list_lookup_insert_eq.
    + by rewrite list_lookup_insert_ne.
Qed.

Lemma swap_array_perm : eh_array (heap_swap h i j) ≡ₚ eh_array h.
Proof.
  unfold heap_swap, slot. cbn.
  destruct (decide (i = j)) as [->|Hne].
  - rewrite list_insert_insert_eq, list_insert_id; [done|]. unfold heap_count in *. by rewrite (slot_lookup h j).
  - symmetry. apply Permutation_inj. split; [by rewrite !length_insert|].
    exists (fun k => if decide (k = i) then j else if decide (k = j) then i else k). split.
    + intros a b. repeat case_decide; naive_solver.
    + intros k. pose proof (slot_lookup h i Hi) as Si. pose proof (slot_lookup h j Hj) as Sj.
      unfold slot in Si, Sj. unfold heap_count in *. destruct (decide (k = i)) as [->|]; [|destruct (decide (k = j)) as [->|]].
      * rewrite list_lookup_insert_eq by (rewrite length_insert; done). done.
      * rewrite list_lookup_insert_ne, list_lookup_insert_eq by done. done.
      * by rewrite !list_lookup_insert_ne.
Qed.

Lemma swap_indexed : indexed h -> indexed (heap_swap h i j).
Proof.
  intros Hx p k. pose proof (slot_lookup h i Hi) as Si. pose proof (slot_lookup h j Hj) as Sj.
  pose proof (indexed_nodup h Hx) as Hnd.
  assert (Hk : (eh_array (heap_swap h i j) !! k = Some p) <->
               ((k < heap_count h)%nat /\ slot (heap_swap h i j) k = p)).
  { split.
    - intros E. apply lookup_slot in E as [? ?]. by rewrite swap_count in *.
    - intros [? <-]. apply slot_lookup. by rewrite swap_count. }
  rewrite Hk, swap_slot. unfold heap_swap. cbn [eh_index put].
  rewrite !lookup_insert. clear Hk.
  assert (Hq : forall q a, eh_index h !! q = Some a <-> (a < heap_count h)%nat /\ slot h a = q).
  { intros q a. rewrite (Hx q a). split; [intros E; apply lookup_slot in E; tauto|].
    intros [Ha <-]. by apply slot_lookup. }
  assert (Hinj : forall a b, (a < heap_count h)%nat -> (b < heap_count h)%nat -> slot h a = slot h b -> a = b).
  { intros a b Ha Hb E. eapply (NoDup_lookup _ _ _ (slot h a) Hnd); [by apply slot_lookup|]. rewrite E. by apply slot_lookup. }
  repeat case_decide; subst; try (rewrite Hq); naive_solver.
Qed.

End Swap.

(** The result of restoring the order: the same entries, a good heap. *)
Record restored (h h' : expire_heap) : Prop := {
  rs_ok : heap_ok h';
  rs_perm : eh_array h' ≡ₚ eh_array h;
  rs_capacity : eh_capacity h' = eh_capacity h
}.

Lemma restored_trans h1 h2 h3 :
  eh_array h2 ≡ₚ eh_array h1 -> eh_capacity h2 = eh_capacity h1 -> restored h2 h3 -> restored h1 h3.
Proof. intros Hp Hc [H1 H2 H3]. split; [done|by rewrite H2|by rewrite H3]. Qed.

(** Order everywhere but between [i] and its parent. *)
Definition up_ok (h : expire_heap) (i : nat) : Prop :=
  (forall k, (0 < k < heap_count h)%nat -> k <> i -> key_at h (parent_of k) <= key_at h k) /\
  ((0 < i)%nat -> forall k, (0 < k < heap_count h)%nat -> parent_of k = i ->
     key_at h (parent_of i) <= key_at h k).

Lemma swap_key h i j k :
  (i < heap_count h)%nat -> (j < heap_count h)%nat ->
  key_at (heap_swap h i j) k =
  if decide (k = j) then key_at h i else if decide (k = i) then key_at h j else key_at h k.
Proof. intros Hi Hj. unfold key_at. rewrite swap_slot by done. by repeat case_decide. Qed.

Lemma sift_up_spec fuel h i :
  indexed h -> (i < heap_count h)%nat -> (i <= fuel)%nat -> up_ok h i ->
  restored h (heap_sift_up fuel h i).
Proof.
  revert h i. induction fuel as [|fuel IH]; intros h i Hx Hi Hf [Hup Hch]; cbn [heap_sift_up].
  { assert (i = 0%nat) as -> by lia. split; [split; [done|]|done|done]. intros k Hk. apply Hup; lia. }
  destruct (Nat.ltb_spec 0 i) as [Hpos|Hz].
  2: { split; [split; [done|]|done|done]. intros k Hk. apply Hup; lia. }
  pose proof (parent_lt i Hpos) as Hp.
  unfold heap_less. change (expire (slot h i)) with (key_at h i).
  change (expire (slot h (parent_of i))) with (key_at h (parent_of i)).
  destruct (Z.ltb_spec (key_at h i) (key_at h (parent_of i))) as [Hlt|Hge]; cbn [negb].
  2: { split; [split; [done|]|done|done]. intros k Hk. destruct (decide (k = i)) as [->|]; [done|by apply Hup]. }
  set (h' := heap_swap h i (parent_of i)).
  assert (Hcnt : heap_count h' = heap_count h) by (apply swap_count).
  assert (Hkey : forall k, key_at h' k = if decide (k = parent_of i) then key_at h i
             else if decide (k = i) then key_at h (parent_of i) else key_at h k)
    by (intros k; apply swap_key; lia).
  eapply restored_trans; [apply (swap_array_perm h i (parent_of i)); lia|reflexivity|].
  apply IH; [by apply swap_indexed; try lia|rewrite Hcnt; lia|lia|]. fold h'. split.
  - rewrite Hcnt. intros k Hk Hne. rewrite !Hkey. rewrite (decide_False (P := k = parent_of i)) by done.
    destruct (decide (k = i)) as [->|Hki].
    + rewrite decide_True by done. lia.
    + destruct (decide (parent_of k = parent_of i)) as [Hpp|Hpp].
      * specialize (Hup k Hk Hki). rewrite Hpp in Hup. lia.
      * destruct (decide (parent_of k = i)) as [Hpi|Hpi]; [by apply Hch|]. by apply Hup.
  - rewrite Hcnt. intros Hpos' k Hk Hpk. rewrite !Hkey.
    pose proof (parent_lt (parent_of i) Hpos') as Hpp. pose proof (parent_lt k (proj1 Hk)) as Hkk.
    rewrite (decide_False (P := parent_of (parent_of i) = parent_of i)),
      (decide_False (P := parent_of (parent_of i) = i)) by lia.
    assert (Hgp : key_at h (parent_of (parent_of i)) <= key_at h (parent_of i)) by (apply Hup; lia).
    rewrite (decide_False (P := k = parent_of i)) by lia.
    destruct (decide (k = i)) as [->|Hki]; [done|].
    etrans; [exact Hgp|]. rewrite <- Hpk at 1. by apply Hup.
Qed.

(** Order everywhere but between [i] and its children. *)
Definition down_ok (h : expire_heap) (i : nat) : Prop :=
  (forall k, (0 < k < heap_count h)%nat -> parent_of k <> i -> key_at h (parent_of k) <= key_at h k) /\
  ((0 < i)%nat -> forall k, (0 < k < heap_count h)%nat -> parent_of k = i ->
     key_at h (parent_of i) <= key_at h k).

(** The child selected by the loop. *)
Definition pick (h : expire_heap) (i : nat) : nat :=
  let l := (i * 2 + 1)%nat in
  let r := (l + 1)%nat in
  let smallest := if (l <? heap_count h)%nat && heap_less (slot h l) (slot h i) then l else i in
  if (r <? heap_count h)%nat && heap_less (slot h r) (slot h smallest) then r else smallest.

Lemma pick_spec h i :
  (i < heap_count h)%nat ->
  (pick h i = i \/ (i < pick h i < heap_count h)%nat /\ parent_of (pick h i) = i /\ key_at h (pick h i) < key_at h i) /\
  (forall k, (0 < k < heap_count h)%nat -> parent_of k = i -> key_at h (pick h i) <= key_at h k).
Proof.
  intros Hi. unfold pick, heap_less. change (fun p => expire p) with expire.
  assert (Hl : parent_of (i * 2 + 1) = i) by (apply parent_children; lia).
  assert (Hr : parent_of (i * 2 + 1 + 1) = i) by (apply parent_children; lia).
  fold (key_at h (i * 2 + 1)%nat) (key_at h (i * 2 + 1 + 1)%nat) (key_at h i).
  set (sm := if (i * 2 + 1 <? heap_count h)%nat && (key_at h (i * 2 + 1)%nat <? key_at h i)
             then (i * 2 + 1)%nat else i).
  assert (Hsm : (sm = i /\ ((i * 2 + 1 < heap_count h)%nat -> key_at h i <= key_at h (i * 2 + 1)%nat)) \/
                (sm = (i * 2 + 1)%nat /\ (i * 2 + 1 < heap_count h)%nat /\ key_at h sm < key_at h i)).
  { unfold sm. destruct (Nat.ltb_spec (i * 2 + 1) (heap_count h)); cbn [andb]; [|left; split; [done|lia]].
    destruct (Z.ltb_spec (key_at h (i * 2 + 1)%nat) (key_at h i)); [by right|by left]. }
  fold (key_at h sm).
  destruct (Nat.ltb_spec (i * 2 + 1 + 1) (heap_count h)) as [Hrc|Hrc]; cbn [andb].
  - destruct (Z.ltb_spec (key_at h (i * 2 + 1 + 1)%nat) (key_at h sm)) as [Hlt|Hge].
    + split.
      * right. split; [lia|]. split; [done|]. destruct Hsm as [[-> _]|(_ & _ & ?)]; lia.
      * intros k Hk Hpk. apply parent_children in Hpk; [|lia].
        destruct Hpk as [->| ->]; [|replace (i * 2 + 2)%nat with (i * 2 + 1 + 1)%nat by lia; lia].
        destruct Hsm as [[E Hs]|(E & _ & _)]; rewrite E in *; [specialize (Hs ltac:(lia))|]; lia.
    + split.
      * destruct Hsm as [[-> _]|(E & ? & ?)]; [by left|right]. rewrite E in *. split; [lia|done].
      * intros k Hk Hpk. apply parent_children in Hpk; [|lia].
        destruct Hpk as [->| ->]; [|replace (i * 2 + 2)%nat with (i * 2 + 1 + 1)%nat by lia; lia].
        destruct Hsm as [[E Hs]|(E & _ & _)]; rewrite E in *; [specialize (Hs ltac:(lia))|]; lia.
  - split.
    + destruct Hsm as [[-> _]|(E & ? & ?)]; [by left|right]. rewrite E in *. split; [lia|done].
    + intros k Hk Hpk. apply parent_children in Hpk; [|lia]. destruct Hpk as [->| ->]; [|lia].
      destruct Hsm as [[E Hs]|(E & _ & _)]; rewrite E in *; [specialize (Hs ltac:(lia))|]; lia.
Qed.

Lemma sift_down_unfold fuel h i :
  heap_sift_down (S fuel) h i =
  if (pick h i =? i)%nat then h else heap_sift_down fuel (heap_swap h i (pick h i)) (pick h i).
Proof. reflexivity. Qed.

Lemma sift_down_spec fuel h i :
  indexed h -> (i < heap_count h)%nat -> (heap_count h <= fuel + i)%nat -> down_ok h i ->
  restored h (heap_sift_down fuel h i).
Proof.
  revert h i. induction fuel as [|fuel IH]; intros h i Hx Hi Hf [Hdn Hch]; [lia|].
  rewrite sift_down_unfold. destruct (pick_spec h i Hi) as [Hp Hmin].
  destruct (Nat.eqb_spec (pick h i) i) as [Heq|Hne].
  { rewrite Heq in Hmin. split; [split; [done|]|done|done]. intros k Hk.
    destruct (decide (parent_of k = i)) as [<-|Hpk]; [by apply Hmin|by apply Hdn]. }
  destruct Hp as [?|(Hpi & Hpp & Hlt)]; [done|]. set (c := pick h i) in *.
  set (h' := heap_swap h i c).
  assert (Hcnt : heap_count h' = heap_count h) by (apply swap_count).
  assert (Hkey : forall k, key_at h' k = if decide (k = c) then key_at h i
             else if decide (k = i) then key_at h c else key_at h k) by (intros k; apply swap_key; lia).
  eapply restored_trans; [apply (swap_array_perm h i c); lia|reflexivity|].
  apply IH; [by apply swap_indexed; try lia|rewrite Hcnt; lia|rewrite Hcnt; lia|]. fold h'. split.
  - rewrite Hcnt. intros k Hk Hpk. rewrite !Hkey. rewrite (decide_False (P := parent_of k = c)) by done.
    pose proof (parent_lt k (proj1 Hk)).
    destruct (decide (parent_of k = i)) as [Hki|Hki].
    + destruct (decide (k = c)) as [->|]; [lia|]. rewrite decide_False by lia. by apply Hmin.
    + destruct (decide (k = c)) as [->|]; [done|]. destruct (decide (k = i)) as [->|]; [|by apply Hdn].
      apply Hch; [lia|lia|done].
  - rewrite Hcnt. intros _ k Hk Hpk. rewrite Hpp, !Hkey.
    pose proof (parent_lt k (proj1 Hk)).
    rewrite (decide_False (P := i = c)), (decide_True (P := i = i)) by (lia || done).
    rewrite !decide_False by lia. rewrite <- Hpk at 1. apply Hdn; [done|lia].
Qed.

(** Order everywhere but around [i]: sifting restores it. *)
Definition near_ok (h : expire_heap) (i : nat) : Prop :=
  (forall k, (0 < k < heap_count h)%nat -> k <> i -> parent_of k <> i -> key_at h (parent_of k) <= key_at h k) /\
  ((0 < i)%nat -> forall k, (0 < k < heap_count h)%nat -> parent_of k = i ->
     key_at h (parent_of i) <= key_at h k).

Lemma sift_spec h i :
  indexed h -> (i < heap_count h)%nat -> near_ok h i -> restored h (sift h i).
Proof.
  intros Hx Hi [Hn Hch]. unfold sift, heap_less.
  fold (key_at h i) (key_at h (parent_of i)).
  destruct (Nat.ltb_spec 0 i) as [Hpos|Hz]; cbn [andb].
  - destruct (Z.ltb_spec (key_at h i) (key_at h (parent_of i))) as [Hlt|Hge].
    + apply sift_up_spec; [done|done|lia|]. split; [|done]. intros k Hk Hne.
      destruct (decide (parent_of k = i)) as [Hpk|Hpk]; [|by apply Hn].
      specialize (Hch Hpos k Hk Hpk). rewrite Hpk. lia.
    + apply sift_down_spec; [done|done|lia|]. split; [|done]. intros k Hk Hpk.
      destruct (decide (k = i)) as [->|]; [done|by apply Hn].
  - apply sift_down_spec; [done|done|lia|]. split; [|done]. intros k Hk Hpk. apply Hn; [done|lia|done].
Qed.

Lemma heap_insert_spec h p :
  heap_ok h -> p ∉ eh_array h ->
  heap_ok (heap_insert_reserved h p) /\ eh_array (heap_insert_reserved h p) ≡ₚ p :: eh_array h.
Proof.
  intros [Hx Ho] Hp. unfold heap_insert_reserved. set (n := heap_count h).
  set (h1 := mk_heap (eh_array h ++ [p]) (<[p := n]> (eh_index h)) (eh_capacity h)).
  assert (Hcnt : heap_count h1 = S n) by (unfold heap_count, n; cbn; rewrite length_app; cbn; unfold heap_count; lia).
  assert (Hslot : forall k, (k < n)%nat -> slot h1 k = slot h k).
  { intros k Hk. unfold slot. cbn. by rewrite app_nth1. }
  assert (Hx1 : indexed h1).
  { intros q k. cbn. rewrite lookup_insert. destruct (decide (p = q)) as [->|Hne].
    - split.
      + intros [= <-]. by rewrite lookup_app_r, Nat.sub_diag by done.
      + intros Hk. destruct (decide (k < n)%nat) as [Hlt|Hge].
        * rewrite lookup_app_l in Hk by done. apply list_elem_of_lookup_2 in Hk. done.
        * rewrite lookup_app_r in Hk by (unfold n, heap_count in *; lia). fold (heap_count h) in Hk. fold n in Hk.
          apply lookup_lt_Some in Hk as Hl. cbn in Hl. f_equal. unfold heap_count in *. lia.
    - rewrite (Hx q k). split.
      + intros Hk. apply lookup_lt_Some in Hk as Hl. by rewrite lookup_app_l.
      + intros Hk. destruct (decide (k < n)%nat) as [Hlt|Hge]; [by rewrite lookup_app_l in Hk|].
        rewrite lookup_app_r in Hk by (unfold n, heap_count in *; lia).
        apply list_lookup_singleton_Some in Hk as [_ ?]. congruence. }
  destruct (sift_up_spec n h1 n) as [H1 H2 _]; [done|lia|lia| |split; [done|]].
  - split.
    + rewrite Hcnt. intros k Hk Hne. unfold key_at. pose proof (parent_lt k (proj1 Hk)).
      rewrite !Hslot by lia. apply Ho. change (heap_count h) with n. lia.
    + rewrite Hcnt. intros Hpos k Hk Hpk. pose proof (parent_lt k (proj1 Hk)). lia.
  - rewrite H2. cbn. by rewrite Permutation_app_comm.
Qed.

Lemma heap_remove_spec h i p :
  heap_ok h -> eh_array h !! i = Some p ->
  heap_ok (heap_remove_at h i) /\ p :: eh_array (heap_remove_at h i) ≡ₚ eh_array h.
Proof.
  intros [Hx Ho] Hp. pose proof (indexed_nodup h Hx) as Hnd.
  destruct (lookup_slot h i p Hp) as [Hs Hi]. unfold heap_remove_at.
  destruct (Nat.leb_spec (heap_count h) i) as [?|_]; [lia|]. rewrite Hs.
  set (n := (heap_count h - 1)%nat).
  destruct (@List.exists_last _ (eh_array h)) as (a & q & Ea).
  { intros Ea. unfold heap_count in Hi. rewrite Ea in Hi. cbn in Hi. lia. }
  assert (Hn : n = length a) by (unfold n, heap_count; rewrite Ea, length_app; cbn; lia).
  assert (Htake : take n (eh_array h) = a) by (by rewrite Ea, Hn, take_app_length).
  assert (Hlast : slot h n = q) by (unfold slot; by rewrite Ea, Hn, nth_middle).
  rewrite Htake, Hlast. set (h1 := mk_heap a (delete p (eh_index h)) (eh_capacity h)).
  assert (Hcnt : heap_count h = S n) by (unfold heap_count; rewrite Ea, length_app; cbn; lia).
  rewrite Ea in Hnd. apply NoDup_app in Hnd as (Hna & Hnq & _).
  assert (Hqa : q ∉ a) by (intros Hq; apply (Hnq q Hq), list_elem_of_singleton; done).
  assert (Hlook : forall k, (k < n)%nat -> eh_array h !! k = a !! k) by (intros; rewrite Ea, lookup_app_l; [done|lia]).
  destruct (Nat.eqb_spec i n) as [Hin|Hin].
  - (* the last slot *)
    assert (p = q) as -> by (rewrite Hin in Hp; rewrite Ea, Hn, list_lookup_middle in Hp by done; congruence).
    split; [split|].
    + intros x k. cbn. rewrite lookup_delete. case_decide as E.
      * subst x. split; [done|]. intros Hk. apply list_elem_of_lookup_2 in Hk. done.
      * rewrite (Hx x k). split.
        -- intros Hk. destruct (decide (k < n)%nat); [by rewrite <- Hlook|].
           apply lookup_lt_Some in Hk as Hl. fold (heap_count h) in Hl. assert (k = n) as -> by lia.
           rewrite Ea, Hn, list_lookup_middle in Hk by done. congruence.
        -- intros Hk. apply lookup_lt_Some in Hk as Hl. rewrite Hlook by lia. done.
    + intros k Hk. change (heap_count h1) with (length a) in Hk.
      assert (Hsl : forall j, (j < n)%nat -> key_at h1 j = key_at h j).
      { intros j Hj. unfold key_at, slot. cbn. rewrite Ea, app_nth1 by lia. done. }
      pose proof (parent_lt k (proj1 Hk)). rewrite !Hsl by lia. apply Ho. lia.
    + cbn. rewrite Ea. by rewrite Permutation_app_comm.
  - (* another slot: the last entry takes its place *)
    assert (Hpa : a !! i = Some p) by (rewrite <- Hlook by lia; done).
    set (h2 := put i q h1).
    assert (Hc2 : heap_count h2 = n) by (unfold heap_count, h2; cbn; rewrite length_insert; lia).
    assert (Hsl : forall j, (j < n)%nat -> key_at h2 j = if decide (j = i) then expire q else key_at h j).
    { intros j Hj. unfold key_at, slot. cbn. rewrite !nth_lookup. destruct (decide (j = i)) as [->|].
      - rewrite list_lookup_insert_eq by lia. done.
      - rewrite list_lookup_insert_ne by done. by rewrite Hlook. }
    assert (Hpq : p <> q) by (intros ->; apply list_elem_of_lookup_2 in Hpa; done).
    assert (Hx2 : indexed h2).
    { intros x k. cbn. rewrite lookup_insert. destruct (decide (q = x)) as [<-|Hqx].
      - split.
        + intros [= <-]. by rewrite list_lookup_insert_eq by lia.
        + intros Hk. destruct (decide (k = i)) as [->|]; [done|].
          rewrite list_lookup_insert_ne in Hk by done. apply list_elem_of_lookup_2 in Hk. done.
      - rewrite lookup_delete. destruct (decide (p = x)) as [<-|Hpx].
        + split; [done|]. intros Hk. destruct (decide (k = i)) as [->|].
          * rewrite list_lookup_insert_eq in Hk by lia. congruence.
          * rewrite list_lookup_insert_ne in Hk by done. exfalso.
            assert (k = i) by (eapply NoDup_lookup; eauto). done.
        + rewrite (Hx x k). destruct (decide (k = i)) as [->|].
          * rewrite list_lookup_insert_eq by lia. split; congruence.
          * rewrite list_lookup_insert_ne by done. split.
            -- intros Hk. destruct (decide (k < n)%nat); [by rewrite <- Hlook|].
               apply lookup_lt_Some in Hk as Hl. fold (heap_count h) in Hl. assert (k = n) as -> by lia.
               rewrite Ea, Hn, list_lookup_middle in Hk by done. congruence.
            -- intros Hk. apply lookup_lt_Some in Hk as Hl. rewrite Hlook by lia. done. }
    destruct (sift_spec h2 i) as [H1 H2 _]; [done|lia| |split; [done|]].
    + split.
      * rewrite Hc2. intros k Hk Hki Hpk. pose proof (parent_lt k (proj1 Hk)).
        rewrite !Hsl by lia. rewrite !decide_False by done. apply Ho. lia.
      * rewrite Hc2. intros Hpos k Hk Hpk. pose proof (parent_lt k (proj1 Hk)). pose proof (parent_lt i Hpos).
        rewrite !Hsl by lia. rewrite !decide_False by lia.
        etrans; [apply Ho; lia|]. rewrite <- Hpk at 1. apply Ho. lia.
    + rewrite H2. unfold h2. cbn. rewrite Ea.
      rewrite <- (list_insert_id a i p Hpa) at 2. rewrite (insert_take_drop a i q), (insert_take_drop a i p) by lia.
      solve_Permutation.
Qed.

(** The root expires first. *)
Lemma heap_root_min h i :
  ordered h -> (i < heap_count h)%nat -> key_at h 0 <= key_at h i.
Proof.
  intros Ho. induction i as [i IH] using (well_founded_induction Nat.lt_wf_0). intros Hi.
  destruct (decide (i = 0%nat)) as [->|]; [done|].
  pose proof (parent_lt i ltac:(lia)). etrans; [apply (IH (parent_of i)); lia|]. apply Ho. lia.
Qed.

(** The capacity changes only in [heap_reserve]. *)
Lemma sift_up_capacity fuel h i : eh_capacity (heap_sift_up fuel h i) = eh_capacity h.
Proof.
  revert h i. induction fuel as [|fuel IH]; intros h i; cbn [heap_sift_up]; [done|].
  repeat case_match; try done. by rewrite IH.
Qed.

Lemma sift_down_capacity fuel h i : eh_capacity (heap_sift_down fuel h i) = eh_capacity h.
Proof.
  revert h i. induction fuel as [|fuel IH]; intros h i; cbn [heap_sift_down]; [done|].
  repeat case_match; try done; by rewrite IH.
Qed.

Lemma heap_insert_capacity h p : eh_capacity (heap_insert_reserved h p) = eh_capacity h.
Proof. unfold heap_insert_reserved. by rewrite sift_up_capacity. Qed.

Lemma heap_remove_capacity h i : eh_capacity (heap_remove_at h i) = eh_capacity h.
Proof.
  unfold heap_remove_at, sift. repeat case_match; try done; by rewrite ?sift_up_capacity, ?sift_down_capacity.
Qed.

Lemma heap_index_lookup h p : heap_ok h -> p ∈ eh_array h <-> is_Some (eh_index h !! p).
Proof.
  intros [Hx _]. rewrite list_elem_of_lookup. split; intros [i Hi]; exists i; by apply Hx.
Qed.
End Operations.

(** A changed expiration time is repaired by one sift. *)
Lemma heap_expiration_changed_spec (e0 e : list Z -> Z) h p :
  heap_ok e0 h -> (forall q, q <> p -> e q = e0 q) ->
  restored e h (heap_expiration_changed e h p).
Proof.
  intros [Hx Ho] He. unfold heap_expiration_changed.
  pose proof (indexed_nodup h Hx) as Hnd.
  destruct (eh_index h !! p) as [i|] eqn:Ei.
  - pose proof Ei as Ep. apply Hx in Ep. destruct (lookup_slot h i p Ep) as [Hs Hi].
    assert (Hk : forall k, (k < heap_count h)%nat -> k <> i -> key_at e h k = key_at e0 h k).
    { intros k Hk Hne. unfold key_at. apply He. intros E. apply Hne.
      eapply (NoDup_lookup _ _ _ p Hnd); [|done]. rewrite <- E. by apply slot_lookup. }
    apply sift_spec; [done|done|]. split.
    + intros k Hkc Hne Hpk. pose proof (parent_lt k (proj1 Hkc)). rewrite !Hk by lia. by apply Ho.
    + intros Hpos k Hkc Hpk. pose proof (parent_lt k (proj1 Hkc)). pose proof (parent_lt i Hpos).
      rewrite !Hk by lia. etrans; [apply Ho; lia|]. rewrite <- Hpk at 1. by apply Ho.
  - split; [split; [done|]|done|done]. intros k Hkc.
    assert (Hk : forall j, (j < heap_count h)%nat -> key_at e h j = key_at e0 h j).
    { intros j Hj. unfold key_at. apply He. intros E. apply slot_lookup in Hj. rewrite E in Hj.
      apply Hx in Hj. congruence. }
    pose proof (parent_lt k (proj1 Hkc)). rewrite !Hk by lia. by apply Ho.
Qed.

(** The invariant only looks at the entries of the heap. *)
Lemma heap_ok_ext (e0 e : list Z -> Z) h :
  (forall p, p ∈ eh_array h -> e p = e0 p) -> heap_ok e0 h -> heap_ok e h.
Proof.
  intros He [Hx Ho]. split; [done|]. intros i Hi. unfold key_at.
  pose proof (parent_lt i (proj1 Hi)).
  rewrite !He; [by apply Ho| |]; eapply list_elem_of_lookup_2; apply slot_lookup; lia.
Qed.

Lemma empty_heap_ok e : heap_ok e empty_heap.
Proof.
  split.
  - intros p i. cbn. rewrite lookup_empty, lookup_nil. done.
  - intros i Hi. cbn in Hi. lia.
Qed.

Lemma heap_reserve_spec m h required :
  let '(r, h', m') := heap_reserve m h required in
  eh_array h' = eh_array h /\ eh_index h' = eh_index h /\
  (r = 0 /\ required <= eh_capacity h' \/ r = -1 /\ h' = h).
Proof.
  unfold heap_reserve. destruct (Z.leb_spec required (eh_capacity h)); [by auto|].
  assert (Hg : forall fuel c c', grow_heap fuel c required = Some c' -> required <= c').
  { induction fuel as [|fuel IH]; intros c c'; cbn; [done|].
    destruct (Z.ltb_spec c required); [|by intros [= <-]]. destruct (_ >? _); [done|]. apply IH. }
  destruct (grow_heap 64 _ required) as [c'|] eqn:E; [|by auto]. apply Hg in E.
  destruct (_ >? _); [by auto|]. destruct (malloc m) as [[] m']; [|by auto].
  split; [done|]. split; [done|]. left. split; [done|]. exact E.
Qed.

(** With memory available a heap of fewer than 2^59 entries can grow. *)
Lemma grow_heap_succeeds fuel c required :
  1 <= c -> required <= 2 ^ 59 -> required <= c * 2 ^ Z.of_nat fuel -> c <= 2 ^ 60 ->
  exists c', grow_heap (S fuel) c required = Some c' /\ c' <= 2 ^ 60.
Proof.
  revert c. induction fuel as [|fuel IH]; intros c Hc Hr Hf Hb; cbn [grow_heap].
  - destruct (Z.ltb_spec c required); [lia|by exists c].
  - destruct (Z.ltb_spec c required); [|by exists c].
    destruct (Z.gtb_spec c (SIZE_MAX / 2)) as [Hg|_]; [change (SIZE_MAX / 2) with (2 ^ 63 - 1) in Hg; lia|].
    apply IH; [lia|done| |lia]. rewrite Nat2Z.inj_succ, Z.pow_succ_r in Hf by lia. lia.
Qed.

Lemma heap_reserve_succeeds h required :
  0 <= eh_capacity h -> required <= 2 ^ 59 -> (heap_reserve [] h required).1.1 = 0.
Proof.
  intros Hc Hr. unfold heap_reserve. destruct (Z.leb_spec required (eh_capacity h)); [done|].
  set (c := if eh_capacity h =? 0 then CACHE_HEAP_INITIAL_CAPACITY else eh_capacity h).
  assert (1 <= c <= 2 ^ 60) as [H1 H2].
  { unfold c, CACHE_HEAP_INITIAL_CAPACITY. destruct (Z.eqb_spec (eh_capacity h) 0); lia. }
  destruct (grow_heap_succeeds 63 c required) as (c' & -> & Hle); [done|done| |done|].
  { change (Z.of_nat 63) with 63. lia. }
  destruct (Z.gtb_spec c' (SIZE_MAX / 8)) as [Hg|_]; [|done].
  change (SIZE_MAX / 8) with (2 ^ 61 - 1) in Hg. lia.
Qed.
