(* ===== verification/LruList.v ===== *)
(** The doubly linked list of entries in order of use ([lru_head],
    [lru_tail], [lru_previous], [lru_next] and [lru_*] of
    [src/cache/cache.c]).

    An entry pointer is represented by the key of the entry; the fields
    [lru_previous] and [lru_next] of the entries are a finite map. *)

From S2P Require Import Prelude.

Record lru_list : Type := mk_lru {
  lru_head : option (list Z);
  lru_tail : option (list Z);
  lru_links : gmap (list Z) (option (list Z) * option (list Z))
}.

Definition empty_lru : lru_list := mk_lru None None ∅.

Definition lru_previous (s : lru_list) (p : list Z) : option (list Z) :=
  match lru_links s !! p with Some (x, _) => x | None => None end.

Definition lru_next (s : lru_list) (p : list Z) : option (list Z) :=
  match lru_links s !! p with Some (_, x) => x | None => None end.

(** The assignments [p->lru_next = x] and [p->lru_previous = x]. *)
Definition set_next (p : list Z) (x : option (list Z)) (s : lru_list) : lru_list :=
  mk_lru (lru_head s) (lru_tail s) (<[p := (lru_previous s p, x)]> (lru_links s)).

Definition set_previous (p : list Z) (x : option (list Z)) (s : lru_list) : lru_list :=
  mk_lru (lru_head s) (lru_tail s) (<[p := (x, lru_next s p)]> (lru_links s)).

Definition set_lru_head (x : option (list Z)) (s : lru_list) : lru_list :=
  mk_lru x (lru_tail s) (lru_links s).

Definition set_lru_tail (x : option (list Z)) (s : lru_list) : lru_list :=
  mk_lru (lru_head s) x (lru_links s).

Definition lru_unlink (enabled : bool) (s : lru_list) (p : list Z) : lru_list :=
  if negb enabled then s else
  let previous := lru_previous s p in
  let next := lru_next s p in
  let s := match previous with
           | Some q => set_next q next s
           | None => set_lru_head next s
           end in
  let s := match next with
           | Some q => set_previous q previous s
           | None => set_lru_tail previous s
           end in
  set_next p None (set_previous p None s).

Definition lru_link_head (enabled : bool) (s : lru_list) (p : list Z) : lru_list :=
  if negb enabled then s else
  let s := set_previous p None s in
  let s := set_next p (lru_head s) s in
  let s := match lru_head s with
           | Some q => set_previous q (Some p) s
           | None => set_lru_tail (Some p) s
           end in
  set_lru_head (Some p) s.

Definition lru_touch (enabled : bool) (s : lru_list) (p : list Z) : lru_list :=
  if negb enabled then s else
  if bool_decide (lru_head s = Some p) then s else
  lru_link_head enabled (lru_unlink enabled s p) p.

(** ** Representation *)

Record lru_repr (L : list (list Z)) (s : lru_list) : Prop := {
  lr_nodup : NoDup L;
  lr_head : lru_head s = head L;
  lr_tail : lru_tail s = last L;
  lr_link : forall a p b, L = a ++ p :: b -> lru_previous s p = last a /\ lru_next s p = head b
}.

Lemma empty_lru_repr : lru_repr [] empty_lru.
Proof. split; cbn; try done; [constructor|]. intros a p b H. by destruct a. Qed.

Lemma previous_set_next s p x q : lru_previous (set_next p x s) q = lru_previous s q.
Proof.
  unfold lru_previous, set_next. cbn. rewrite lookup_insert. case_decide; [|done].
  subst. unfold lru_previous. done.
Qed.

Lemma next_set_next s p x q :
  lru_next (set_next p x s) q = if decide (q = p) then x else lru_next s q.
Proof.
  unfold lru_next at 1, set_next. cbn. rewrite lookup_insert.
  destruct (decide (p = q)), (decide (q = p)); congruence || done.
Qed.

Lemma previous_set_previous s p x q :
  lru_previous (set_previous p x s) q = if decide (q = p) then x else lru_previous s q.
Proof.
  unfold lru_previous at 1, set_previous. cbn. rewrite lookup_insert.
  destruct (decide (p = q)), (decide (q = p)); congruence || done.
Qed.

Lemma next_set_previous s p x q : lru_next (set_previous p x s) q = lru_next s q.
Proof.
  unfold lru_next, set_previous. cbn. rewrite lookup_insert. case_decide; [|done].
  subst. unfold lru_next. done.
Qed.

Lemma links_set_ends x s q :
  (lru_previous (set_lru_head x s) q = lru_previous s q /\
   lru_next (set_lru_head x s) q = lru_next s q) /\
  (lru_previous (set_lru_tail x s) q = lru_previous s q /\
   lru_next (set_lru_tail x s) q = lru_next s q).
Proof. done. Qed.

Lemma previous_set_head x s q : lru_previous (set_lru_head x s) q = lru_previous s q.
Proof. apply links_set_ends. Qed.

Lemma next_set_head x s q : lru_next (set_lru_head x s) q = lru_next s q.
Proof. apply links_set_ends. Qed.

Lemma previous_set_tail x s q : lru_previous (set_lru_tail x s) q = lru_previous s q.
Proof. apply links_set_ends. Qed.

Lemma next_set_tail x s q : lru_next (set_lru_tail x s) q = lru_next s q.
Proof. apply links_set_ends. Qed.

Create Rewrite HintDb lru.
#[export] Hint Rewrite previous_set_head next_set_head previous_set_tail next_set_tail : lru.
#[export] Hint Rewrite previous_set_next next_set_next previous_set_previous next_set_previous : lru.

(** Removing one element: the neighbours of every other one. *)
Lemma lru_unlink_spec a p b s :
  lru_repr (a ++ p :: b) s -> lru_repr (a ++ b) (lru_unlink true s p).
Proof.
  intros [Hn Hh Ht Hl]. destruct (Hl a p b eq_refl) as [Hp Hx].
  unfold lru_unlink. cbn [negb]. rewrite Hp, Hx.
  pose proof Hn as Hn'. apply NoDup_app in Hn' as (Hna & Hdis & Hnb). apply NoDup_cons in Hnb as [Hpb Hnb].
  assert (Hpa : p ∉ a) by (intros ?; apply (Hdis p); [done|apply elem_of_cons; by left]).
  assert (Hab : forall x, x ∈ a -> x ∉ b) by (intros x ? ?; apply (Hdis x); [done|apply elem_of_cons; by right]).
  split.
  - apply NoDup_app. split; [done|]. split; [done|done].
  - cbn. destruct a as [|x a]; cbn; [by destruct b|]. rewrite last_cons.
    destruct (last a); cbn; destruct (head b); cbn; done.
  - cbn. destruct b as [|y b _] using rev_ind; cbn.
    + rewrite app_nil_r. by destruct (last a).
    + rewrite app_assoc, last_snoc. rewrite app_comm_cons, app_assoc, last_snoc in Ht.
      destruct (head (b ++ [y])) eqn:E; [|by destruct b]. by destruct (last a).
  - intros a' q b' HE.
    assert (Hq : q <> p).
    { intros ->. assert (Hin : p ∈ a ++ b) by (rewrite HE, elem_of_app, elem_of_cons; auto).
      apply elem_of_app in Hin as [?|?]; [by apply Hpa|by apply Hpb]. }
    set (s1 := match last a with Some q => _ | None => _ end).
    set (s2 := match head b with Some q => _ | None => _ end).
    assert (Hprev : lru_previous (set_next p None (set_previous p None s2)) q =
                    if decide (Some q = head b) then last a else lru_previous s q).
    { autorewrite with lru. rewrite decide_False by done. unfold s2, s1.
      destruct (head b) as [y|]; destruct (last a); autorewrite with lru; repeat case_decide; congruence || done. }
    assert (Hnext : lru_next (set_next p None (set_previous p None s2)) q =
                    if decide (Some q = last a) then head b else lru_next s q).
    { autorewrite with lru. rewrite decide_False by done. unfold s2, s1.
      destruct (head b) as [y|]; destruct (last a); autorewrite with lru; repeat case_decide; congruence || done. }
    rewrite Hprev, Hnext. clear Hprev Hnext.
    apply app_eq_inv in HE as [([|y k] & HA' & Hk)|([|y k] & -> & Hk)].
    + (* q is the head of b, first shape *)
      cbn in Hk. rewrite app_nil_r in HA'. subst a' b. cbn [head].
      rewrite decide_True by done. destruct (Hl (a ++ [p]) q b') as [_ Hx']; [app_eq|].
      split; [done|]. rewrite Hx'. case_decide as E; [|done]. exfalso.
      symmetry in E. apply last_Some in E as [a0 E]. apply (Hab q); [rewrite E, elem_of_app, list_elem_of_singleton; auto|apply elem_of_cons; by left].
    + injection Hk as <- ->. subst a.
      destruct (Hl a' q (k ++ p :: b)) as [Hp' Hx']; [app_eq|]. rewrite Hp', Hx'.
      rewrite decide_False.
      2: { intros E. symmetry in E. apply head_Some in E as [b0 E]. apply (Hab q);
           [rewrite elem_of_app, elem_of_cons; auto|rewrite E; apply elem_of_cons; by left]. }
      split; [done|]. destruct k as [|z k _] using rev_ind.
      * rewrite last_snoc, decide_True by done. done.
      * rewrite app_comm_cons, app_assoc, last_snoc, decide_False; [by destruct k|].
        intros [= ->]. apply NoDup_app in Hna as (_ & _ & Hz).
        rewrite app_comm_cons in Hz. apply NoDup_app in Hz as (_ & Hz & _).
        apply (Hz z); [apply elem_of_cons; by left|by apply list_elem_of_singleton].
    + cbn in Hk. subst b. cbn [head]. rewrite app_nil_r, decide_True by done.
      destruct (Hl (a ++ [p]) q b') as [_ Hx']; [app_eq|]. split; [done|]. rewrite Hx'.
      case_decide as E; [|done]. exfalso. symmetry in E. apply last_Some in E as [a0 E].
      apply (Hab q); [rewrite E, elem_of_app, list_elem_of_singleton; auto|apply elem_of_cons; by left].
    + subst b. destruct (Hl (a ++ p :: y :: k) q b') as [Hp' Hx']; [app_eq|]. rewrite Hp', Hx'.
      rewrite decide_False.
      2: { cbn. intros [= ->]. cbn in Hnb. apply NoDup_cons in Hnb as [Hnb _]. apply Hnb.
           rewrite elem_of_app, elem_of_cons. auto. }
      rewrite decide_False.
      2: { intros E. symmetry in E. apply last_Some in E as [a0 E]. apply (Hab q);
           [rewrite E, elem_of_app, list_elem_of_singleton; auto|].
           cbn. rewrite elem_of_cons, elem_of_app, elem_of_cons. auto. }
      split; [|done]. change (a ++ p :: y :: k) with (a ++ [p] ++ y :: k). by rewrite app_assoc, !last_app_cons.
Qed.

Lemma lru_link_head_spec L s p :
  lru_repr L s -> p ∉ L -> lru_repr (p :: L) (lru_link_head true s p).
Proof.
  intros [Hn Hh Ht Hl] Hp. unfold lru_link_head. cbn [negb].
  split.
  - by apply NoDup_cons.
  - done.
  - cbn. rewrite Hh. destruct L as [|x L]; [done|]. cbn. by rewrite Ht.
  - intros a q b HE.
    change (lru_head (set_previous p None s)) with (lru_head s).
    change (lru_head (set_next p (lru_head s) (set_previous p None s))) with (lru_head s).
    rewrite Hh.
    set (s1 := match head L with Some q => _ | None => _ end).
    assert (Hprev : lru_previous (set_lru_head (Some p) s1) q =
              if decide (Some q = head L) then Some p else if decide (q = p) then None else lru_previous s q).
    { unfold s1. destruct L as [|x L]; cbn [head]; autorewrite with lru; repeat case_decide; congruence || done. }
    assert (Hnext : lru_next (set_lru_head (Some p) s1) q =
              if decide (q = p) then head L else lru_next s q).
    { unfold s1. destruct L as [|x L]; cbn [head]; autorewrite with lru; repeat case_decide; congruence || done. }
    rewrite Hprev, Hnext. destruct a as [|y a].
    + injection HE as -> ->. rewrite !(decide_True (P := q = q)) by done. rewrite decide_False; [done|].
      intros E. symmetry in E. apply head_Some in E as [b0 ->]. apply Hp, elem_of_cons. by left.
    + injection HE as <- ->. destruct (Hl a q b eq_refl) as [Hq1 Hq2].
      rewrite !(decide_False (P := q = p)) by (intros ->; apply Hp; rewrite elem_of_app, elem_of_cons; auto).
      rewrite Hq2. split; [|done]. destruct a as [|z a]; cbn [head app].
      * by rewrite decide_True.
      * rewrite decide_False.
        -- rewrite Hq1. by rewrite last_cons_cons.
        -- intros [= ->]. cbn in Hn. apply NoDup_cons in Hn as [Hn _]. apply Hn.
           rewrite elem_of_app, elem_of_cons. auto.
Qed.

(** Moving an element to the front. *)
Lemma lru_touch_spec a p b s :
  lru_repr (a ++ p :: b) s -> lru_repr (p :: a ++ b) (lru_touch true s p).
Proof.
  intros HL. unfold lru_touch. cbn [negb]. case_bool_decide as Hh.
  - rewrite (lr_head _ _ HL) in Hh. destruct a as [|x a]; [done|]. cbn in Hh. injection Hh as ->.
    pose proof (lr_nodup _ _ HL) as Hn. cbn in Hn. apply NoDup_cons in Hn as [Hn _].
    exfalso. apply Hn. rewrite elem_of_app, elem_of_cons. auto.
  - apply lru_link_head_spec; [by apply lru_unlink_spec|].
    pose proof (lr_nodup _ _ HL) as Hn. apply NoDup_app in Hn as (_ & Hd & [Hb _]%NoDup_cons).
    intros [H|H]%elem_of_app; [|done]. apply (Hd p H), elem_of_cons. by left.
Qed.

Lemma filter_keep (p : list Z) (L : list (list Z)) : p ∉ L -> filter (fun q => q <> p) L = L.
Proof.
  intros Hp. induction L as [|x L IH]; [done|]. apply not_elem_of_cons in Hp as [Hx Hp].
  rewrite filter_cons_True by congruence. f_equal. by apply IH.
Qed.

(** Eviction takes the least recently used entry, or the one before it when
    that entry is protected. *)
Definition eviction_candidate (s : lru_list) (protected_entry : list Z) : option (list Z) :=
  let candidate := lru_tail s in
  if bool_decide (candidate = Some protected_entry) then lru_previous s protected_entry
  else candidate.

Lemma eviction_candidate_spec L s p :
  lru_repr L s -> eviction_candidate s p = last (filter (fun q => q <> p) L).
Proof.
  intros [Hn Hh Ht Hl]. unfold eviction_candidate. rewrite Ht.
  destruct L as [|x L _] using rev_ind; [done|]. rewrite last_snoc, filter_app.
  apply NoDup_app in Hn as (_ & Hd & _).
  case_bool_decide as E.
  - injection E as ->. rewrite filter_cons_False by naive_solver. rewrite filter_nil, app_nil_r.
    destruct (Hl L p []) as [-> _]; [done|]. f_equal. symmetry.
    apply filter_keep. intros Hy. apply (Hd p Hy). by apply list_elem_of_singleton.
  - rewrite filter_cons_True by congruence. rewrite filter_nil, last_snoc. done.
Qed.
