(* ===== verification/Cache.v ===== *)
(** The cache of [src/cache/cache.c]: the key index, the entries with their
    expiration times, the order of use, limits with eviction, statistics and
    the hot entry of hash commands.

    A pointer to an entry is represented by the key of the entry; its fields
    [heap_index], [lru_previous] and [lru_next] belong to the components
    [ExpireHeap] and [LruList].  A [cache_t *] argument is never null.  The
    clock is an argument: [clock] is the reading of an operation, and an
    operation that reads it twice takes both readings.  Calls of the eviction
    callback are logged in [c_calls]. *)

From S2P Require Import Prelude HashTable ZOrder Object ExpireHeap LruList.

Definition SIZEOF_CACHE_ENTRY : Z := 64.

Inductive removal_reason : Type := REMOVE_NORMAL | REMOVE_EXPIRED | REMOVE_EVICTED.

Inductive cache_set_result : Type :=
| CACHE_SET_ERROR | CACHE_SET_OK | CACHE_SET_CAPACITY | CACHE_SET_RANGE.

#[export] Instance removal_reason_eq_dec : EqDecision removal_reason.
Proof. solve_decision. Defined.

#[export] Instance cache_set_result_eq_dec : EqDecision cache_set_result.
Proof. solve_decision. Defined.

Record cache_entry : Type := mk_entry {
  e_object : kv_object;
  e_charge : Z;
  e_items : Z;
  e_expire : Z
}.

Record cache_counters : Type := mk_counters {
  hits : Z; misses : Z; expired_keys : Z; evicted_keys : Z;
  string_keys : Z; hash_keys : Z; zset_keys : Z; hash_field_count : Z; zset_members : Z
}.

Record cache : Type := mk_cache {
  c_index : hashtable (list Z);
  c_entries : gmap (list Z) cache_entry;
  c_lru : lru_list;
  c_heap : expire_heap;
  c_used : Z;
  c_max_keys : Z;
  c_max_memory : Z;
  c_on_evict : bool;
  c_calls : list (list Z);
  c_stats : cache_counters;
  c_hot : option (list Z);
  c_lru_enabled : bool
}.

(** Field assignments. *)
Definition with_index (x : hashtable (list Z)) (c : cache) : cache :=
  mk_cache x (c_entries c) (c_lru c) (c_heap c) (c_used c) (c_max_keys c) (c_max_memory c)
    (c_on_evict c) (c_calls c) (c_stats c) (c_hot c) (c_lru_enabled c).

Definition with_entries (x : gmap (list Z) cache_entry) (c : cache) : cache :=
  mk_cache (c_index c) x (c_lru c) (c_heap c) (c_used c) (c_max_keys c) (c_max_memory c)
    (c_on_evict c) (c_calls c) (c_stats c) (c_hot c) (c_lru_enabled c).

Definition with_lru (x : lru_list) (c : cache) : cache :=
  mk_cache (c_index c) (c_entries c) x (c_heap c) (c_used c) (c_max_keys c) (c_max_memory c)
    (c_on_evict c) (c_calls c) (c_stats c) (c_hot c) (c_lru_enabled c).

Definition with_heap (x : expire_heap) (c : cache) : cache :=
  mk_cache (c_index c) (c_entries c) (c_lru c) x (c_used c) (c_max_keys c) (c_max_memory c)
    (c_on_evict c) (c_calls c) (c_stats c) (c_hot c) (c_lru_enabled c).

Definition with_used (x : Z) (c : cache) : cache :=
  mk_cache (c_index c) (c_entries c) (c_lru c) (c_heap c) (wrap64 x) (c_max_keys c) (c_max_memory c)
    (c_on_evict c) (c_calls c) (c_stats c) (c_hot c) (c_lru_enabled c).

Definition with_callback (x : bool) (c : cache) : cache :=
  mk_cache (c_index c) (c_entries c) (c_lru c) (c_heap c) (c_used c) (c_max_keys c) (c_max_memory c)
    x (c_calls c) (c_stats c) (c_hot c) (c_lru_enabled c).

Definition with_calls (x : list (list Z)) (c : cache) : cache :=
  mk_cache (c_index c) (c_entries c) (c_lru c) (c_heap c) (c_used c) (c_max_keys c) (c_max_memory c)
    (c_on_evict c) x (c_stats c) (c_hot c) (c_lru_enabled c).

Definition with_stats (x : cache_counters) (c : cache) : cache :=
  mk_cache (c_index c) (c_entries c) (c_lru c) (c_heap c) (c_used c) (c_max_keys c) (c_max_memory c)
    (c_on_evict c) (c_calls c) x (c_hot c) (c_lru_enabled c).

Definition with_hot (x : option (list Z)) (c : cache) : cache :=
  mk_cache (c_index c) (c_entries c) (c_lru c) (c_heap c) (c_used c) (c_max_keys c) (c_max_memory c)
    (c_on_evict c) (c_calls c) (c_stats c) x (c_lru_enabled c).

(** [entry->expire_at_ms] and [entry->memory_charge] through a pointer. *)
Definition expire_of (c : cache) (p : list Z) : Z :=
  match c_entries c !! p with Some e => e_expire e | None => 0 end.

Definition charge_of (c : cache) (p : list Z) : Z :=
  match c_entries c !! p with Some e => e_charge e | None => 0 end.

Definition set_expire (p : list Z) (x : Z) (c : cache) : cache :=
  with_entries (alter (fun e => mk_entry (e_object e) (e_charge e) (e_items e) x) p (c_entries c)) c.

Definition set_object (p : list Z) (o : kv_object) (c : cache) : cache :=
  with_entries (alter (fun e => mk_entry o (e_charge e) (e_items e) (e_expire e)) p (c_entries c)) c.

(** ** Accounting *)

Definition object_item_count (o : kv_object) : Z :=
  match type_of o with
  | KV_OBJECT_HASH => kv_object_hash_length o
  | KV_OBJECT_ZSET => kv_object_zset_length o
  | KV_OBJECT_STRING => 0
  end.

Definition entry_memory_charge (key_length : Z) (o : kv_object) : Z :=
  let node_charge := kv_hash_node_memory_for_key key_length in
  let object_charge := kv_object_memory_usage o in
  if node_charge =? SIZE_MAX then SIZE_MAX else
  if (SIZEOF_CACHE_ENTRY >? SIZE_MAX - node_charge) ||
     (object_charge >? SIZE_MAX - SIZEOF_CACHE_ENTRY - node_charge) then SIZE_MAX else
  SIZEOF_CACHE_ENTRY + node_charge + object_charge.

(** Adding [d] keys of the type of [o] with [items] elements. *)
Definition count_object (d : Z) (o : kv_object) (items : Z) (s : cache_counters) : cache_counters :=
  match type_of o with
  | KV_OBJECT_STRING =>
      mk_counters (hits s) (misses s) (expired_keys s) (evicted_keys s)
        (wrap64 (string_keys s + d)) (hash_keys s) (zset_keys s) (hash_field_count s) (zset_members s)
  | KV_OBJECT_HASH =>
      mk_counters (hits s) (misses s) (expired_keys s) (evicted_keys s)
        (string_keys s) (wrap64 (hash_keys s + d)) (zset_keys s)
        (wrap64 (hash_field_count s + d * items)) (zset_members s)
  | KV_OBJECT_ZSET =>
      mk_counters (hits s) (misses s) (expired_keys s) (evicted_keys s)
        (string_keys s) (hash_keys s) (wrap64 (zset_keys s + d)) (hash_field_count s)
        (wrap64 (zset_members s + d * items))
  end.

Definition stats_add_object (o : kv_object) (items : Z) (c : cache) : cache :=
  with_stats (count_object 1 o items (c_stats c)) c.

Definition stats_remove_object (o : kv_object) (items : Z) (c : cache) : cache :=
  with_stats (count_object (-1) o items (c_stats c)) c.

Definition count_removal (reason : removal_reason) (s : cache_counters) : cache_counters :=
  match reason with
  | REMOVE_NORMAL => s
  | REMOVE_EXPIRED =>
      mk_counters (hits s) (misses s) (wrap64 (expired_keys s + 1)) (evicted_keys s)
        (string_keys s) (hash_keys s) (zset_keys s) (hash_field_count s) (zset_members s)
  | REMOVE_EVICTED =>
      mk_counters (hits s) (misses s) (expired_keys s) (wrap64 (evicted_keys s + 1))
        (string_keys s) (hash_keys s) (zset_keys s) (hash_field_count s) (zset_members s)
  end.

Definition count_lookup (hit : bool) (s : cache_counters) : cache_counters :=
  mk_counters (if hit then wrap64 (hits s + 1) else hits s)
    (if hit then misses s else wrap64 (misses s + 1)) (expired_keys s) (evicted_keys s)
    (string_keys s) (hash_keys s) (zset_keys s) (hash_field_count s) (zset_members s).

(** ** Removal and lookup *)

(** [entry->index_node] *)
Definition index_node (p : list Z) : kv_hash_node (list Z) := mk_node p (hash_bytes p) p.

Definition unheap (p : list Z) (c : cache) : cache :=
  match eh_index (c_heap c) !! p with
  | Some i => with_heap (heap_remove_at (expire_of c) (c_heap c) i) c
  | None => c
  end.

Definition entry_remove (c : cache) (p : list Z) (reason : removal_reason) : cache :=
  match c_entries c !! p with
  | None => c
  | Some e =>
      let c := if bool_decide (c_hot c = Some p) then with_hot None c else c in
      let c := if bool_decide (reason = REMOVE_EVICTED) && c_on_evict c
               then with_calls (c_calls c ++ [p]) c else c in
      let c := unheap p c in
      let c := with_lru (lru_unlink (c_lru_enabled c) (c_lru c) p) c in
      let c := with_index (kv_hash_remove_node (c_index c) (Some (index_node p))).2 c in
      let c := with_used (c_used c - e_charge e) c in
      let c := with_stats (count_removal reason (c_stats c)) c in
      let c := stats_remove_object (e_object e) (e_items e) c in
      with_entries (delete p (c_entries c)) c
  end.

Definition find_live (clock : Z) (c : cache) (key : list Z) (now : Z)
  : option (list Z) * cache :=
  let c := with_index (kv_hash_rehash_step (c_index c) 1).2 c in
  match kv_hash_find (c_index c) (Some key) with
  | None => (None, c)
  | Some node =>
      let entry := npayload node in
      let now := if negb (expire_of c entry =? 0) && (now =? UINT64_MAX) then clock else now in
      if negb (expire_of c entry =? 0) && (now >=? expire_of c entry)
      then (None, entry_remove c entry REMOVE_EXPIRED)
      else (Some entry, c)
  end.

Definition limits_exceeded (c : cache) (projected_keys projected_memory : Z) : bool :=
  (negb (c_max_keys c =? 0) && (projected_keys >? c_max_keys c)) ||
  (negb (c_max_memory c =? 0) && (projected_memory >? c_max_memory c)).

(** ** Creation *)

Definition cache_create (m : mem) (max_keys max_memory : Z) : option cache * mem :=
  let '(ok, m) := malloc m in
  if negb ok then (None, m) else
  match kv_hash_create m with
  | (None, m) => (None, m)
  | (Some index, m) =>
      (Some (mk_cache index ∅ empty_lru empty_heap 0 max_keys max_memory false []
               (mk_counters 0 0 0 0 0 0 0 0 0) None
               (negb (max_keys =? 0) || negb (max_memory =? 0))), m)
  end.

Definition cache_set_eviction_callback (c : cache) (callback : bool) : cache :=
  with_callback callback c.

(** ** Storing *)

(** The removal reason of an eviction candidate. *)
Definition candidate_reason (c : cache) (now : Z) (p : list Z) : removal_reason :=
  if negb (expire_of c p =? 0) && (now >=? expire_of c p) then REMOVE_EXPIRED else REMOVE_EVICTED.

(** The eviction loop for an existing entry: [fuel] bounds the candidates. *)
Fixpoint evict_for_update (fuel : nat) (clock : Z) (c : cache) (entry : list Z) (now projected : Z)
  : bool * cache * Z :=
  match fuel with
  | O => (false, c, projected)
  | S fuel =>
      if limits_exceeded c (kv_hash_count (c_index c)) projected then
        match eviction_candidate (c_lru c) entry with
        | None => (false, c, projected)
        | Some candidate =>
            let now := if negb (expire_of c candidate =? 0) && (now =? UINT64_MAX)
                       then clock else now in
            let projected := wrap64 (projected - charge_of c candidate) in
            evict_for_update fuel clock
              (entry_remove c candidate (candidate_reason c now candidate)) entry now projected
        end
      else (true, c, projected)
  end.

(** The eviction loop after a new entry was added. *)
Fixpoint evict_for_insert (fuel : nat) (clock : Z) (c : cache) (entry : list Z) (now : Z)
  : bool * cache :=
  match fuel with
  | O => (false, c)
  | S fuel =>
      if limits_exceeded c (kv_hash_count (c_index c)) (c_used c) then
        match eviction_candidate (c_lru c) entry with
        | None => (false, c)
        | Some candidate =>
            let now := if negb (expire_of c candidate =? 0) && (now =? UINT64_MAX)
                       then clock else now in
            evict_for_insert fuel clock
              (entry_remove c candidate (candidate_reason c now candidate)) entry now
        end
      else (true, c)
  end.

(** Fuel for the loops: one iteration per entry and the final test. *)
Definition evict_fuel (c : cache) : nat := S (size (c_entries c)).

(** The common end of an update: the expiration and the order of use. *)
Definition update_expiration (c : cache) (p : list Z) (expire_at : Z) : cache :=
  let old := expire_of c p in
  let c :=
    if negb (old =? 0) && (expire_at =? 0) then unheap p c else
    if (old =? 0) && negb (expire_at =? 0) then
      let c := set_expire p expire_at c in
      with_heap (heap_insert_reserved (expire_of c) (c_heap c) p) c
    else if negb (old =? 0) && negb (expire_at =? 0) then
      let c := set_expire p expire_at c in
      with_heap (heap_expiration_changed (expire_of c) (c_heap c) p) c
    else c in
  let c := set_expire p expire_at c in
  with_lru (lru_touch (c_lru_enabled c) (c_lru c) p) c.

(** The branch of [cache_store_object] for an entry that was found. *)
Definition store_existing (m : mem) (clock : Z) (c : cache) (p : list Z) (o : kv_object)
    (now expire_at new_charge new_items : Z) : cache_set_result * cache * mem :=
  let '(reserved, heap, m) :=
    if negb (expire_at =? 0) && (expire_of c p =? 0)
    then heap_reserve m (c_heap c) (Z.of_nat (heap_count (c_heap c)) + 1)
    else (0, c_heap c, m) in
  let c := with_heap heap c in
  if negb (reserved =? 0) then (CACHE_SET_ERROR, c, m) else
  match c_entries c !! p with
  | None => (CACHE_SET_ERROR, c, m)
  | Some e =>
      let '(updated, object) :=
        match kv_object_string_value (e_object e), kv_object_string_value o with
        | Some _, Some value => kv_object_string_update (e_object e) (Some value)
        | _, _ => (0, e_object e)
        end in
      if updated <? 0 then (CACHE_SET_ERROR, c, m) else
      if updated >? 0 then
        (CACHE_SET_OK, update_expiration (set_object p object c) p expire_at, m)
      else
        let projected := wrap64 (c_used c - e_charge e + new_charge) in
        let '(ok, c, _) := evict_for_update (evict_fuel c) clock c p now projected in
        if negb ok then (CACHE_SET_CAPACITY, c, m) else
        let c := with_used (c_used c - e_charge e + new_charge) c in
        let c := stats_remove_object (e_object e) (e_items e) c in
        let c := stats_add_object o new_items c in
        let c := with_entries (<[p := mk_entry o new_charge new_items (e_expire e)]> (c_entries c)) c in
        (CACHE_SET_OK, update_expiration c p expire_at, m)
  end.

(** The branch for a new key. *)
Definition store_new (m : mem) (clock : Z) (c : cache) (key : list Z) (o : kv_object)
    (now expire_at new_charge new_items : Z) : cache_set_result * cache * mem :=
  let '(reserved, heap, m) :=
    if negb (expire_at =? 0)
    then heap_reserve m (c_heap c) (Z.of_nat (heap_count (c_heap c)) + 1)
    else (0, c_heap c, m) in
  let c := with_heap heap c in
  if negb (reserved =? 0) then (CACHE_SET_ERROR, c, m) else
  let '(ok, m) := malloc m in
  if negb ok then (CACHE_SET_ERROR, c, m) else
  let '(r, _, index, m) := kv_hash_insert m (c_index c) (Some key) key in
  let c := with_index index c in
  if negb (r =? 0) then (CACHE_SET_ERROR, c, m) else
  let c := with_entries (<[key := mk_entry o new_charge new_items expire_at]> (c_entries c)) c in
  let c := stats_add_object o new_items c in
  let c := with_lru (lru_link_head (c_lru_enabled c) (c_lru c) key) c in
  let c := with_used (c_used c + new_charge) c in
  let c := if negb (expire_at =? 0)
           then with_heap (heap_insert_reserved (expire_of c) (c_heap c) key) c else c in
  let '(ok, c) := evict_for_insert (evict_fuel c) clock c key now in
  if ok then (CACHE_SET_OK, c, m) else
  (* no candidate is left: the new entry is taken out again *)
  let c := stats_remove_object o new_items c in
  let c := unheap key c in
  let c := with_lru (lru_unlink (c_lru_enabled c) (c_lru c) key) c in
  let c := with_index (kv_hash_remove_node (c_index c) (Some (index_node key))).2 c in
  let c := with_used (c_used c - new_charge) c in
  (CACHE_SET_CAPACITY, with_entries (delete key (c_entries c)) c, m).

(** [clock] is the reading of the clock at the call or for the entry that is
    found, [later] the reading for the first candidate of an eviction, where the
    call has none of its own yet. *)
Definition cache_store_object (m : mem) (clock later : Z) (c : cache) (key : slice) (o : kv_object)
    (expire_at_ms : Z) (preserve_existing_ttl : bool) : cache_set_result * cache * mem :=
  match key with
  | None => (CACHE_SET_ERROR, c, m)
  | Some key =>
      let now := if negb (expire_at_ms =? 0) then clock else UINT64_MAX in
      let new_charge := entry_memory_charge (zlen key) o in
      let new_items := object_item_count o in
      if (new_charge =? SIZE_MAX) ||
         (negb (c_max_memory c =? 0) && (new_charge >? c_max_memory c))
      then (CACHE_SET_CAPACITY, c, m) else
      let '(entry, c) := find_live clock c key now in
      match entry with
      | Some p =>
          let expire_at := if preserve_existing_ttl then expire_of c p else expire_at_ms in
          store_existing m later c p o now expire_at new_charge new_items
      | None => store_new m later c key o now expire_at_ms new_charge new_items
      end
  end.

Definition cache_set_expire_at (m : mem) (clock later : Z) (c : cache) (key value : slice) (expire_at_ms : Z)
  : cache_set_result * cache * mem :=
  match value with
  | None => (CACHE_SET_ERROR, c, m)
  | Some _ =>
      match kv_object_create_string m value with
      | (None, m) => (CACHE_SET_ERROR, c, m)
      | (Some o, m) => cache_store_object m clock later c key o expire_at_ms false
      end
  end.

(** [now] is the first reading of the clock. *)
Definition cache_set (m : mem) (now clock later : Z) (c : cache) (key value : slice) (ttl_ms : Z)
  : cache_set_result * cache * mem :=
  let now := if ttl_ms =? 0 then 0 else now in
  if negb (ttl_ms =? 0) && (ttl_ms >? UINT64_MAX - now) then (CACHE_SET_RANGE, c, m) else
  cache_set_expire_at m clock later c key value (if ttl_ms =? 0 then 0 else now + ttl_ms).

(** ** Access *)

(** The entry found, which gives access to its object, and the new state. *)
Definition cache_get_object_ref (clock : Z) (c : cache) (key : slice) (record_hit_or_miss : bool)
  : option (list Z) * cache :=
  match key with
  | None => (None, c)
  | Some key =>
      let '(entry, c) := find_live clock c key UINT64_MAX in
      match entry with
      | None => (None, if record_hit_or_miss then with_stats (count_lookup false (c_stats c)) c else c)
      | Some p =>
          let c := if record_hit_or_miss then with_stats (count_lookup true (c_stats c)) c else c in
          (Some p, with_lru (lru_touch (c_lru_enabled c) (c_lru c) p) c)
      end
  end.

(** [entry->object] of a reference. *)
Definition object_at (c : cache) (p : list Z) : option kv_object := e_object <$> c_entries c !! p.

Definition cache_get_object (clock : Z) (c : cache) (key : slice) (record_hit_or_miss : bool)
  : option kv_object * cache :=
  let '(p, c) := cache_get_object_ref clock c key record_hit_or_miss in
  (p ≫= object_at c, c).

Definition cache_get (clock : Z) (c : cache) (key : slice) : option (list Z) * cache :=
  let '(o, c) := cache_get_object clock c key true in
  (o ≫= kv_object_string_value, c).

(** The eviction loop of [cache_recharge_ref]; [now] is 0 for an entry
    without expiration. *)
Fixpoint evict_for_recharge (fuel : nat) (c : cache) (entry : list Z) (now projected : Z)
  : bool * cache * Z :=
  match fuel with
  | O => (false, c, projected)
  | S fuel =>
      if limits_exceeded c (kv_hash_count (c_index c)) projected then
        match eviction_candidate (c_lru c) entry with
        | None => (false, c, projected)
        | Some candidate =>
            let projected := wrap64 (projected - charge_of c candidate) in
            evict_for_recharge fuel
              (entry_remove c candidate (candidate_reason c now candidate)) entry now projected
        end
      else (true, c, projected)
  end.

Definition recount (o : kv_object) (old_items new_items : Z) (s : cache_counters) : cache_counters :=
  match type_of o with
  | KV_OBJECT_STRING => s
  | KV_OBJECT_HASH =>
      mk_counters (hits s) (misses s) (expired_keys s) (evicted_keys s)
        (string_keys s) (hash_keys s) (zset_keys s)
        (wrap64 (hash_field_count s - old_items + new_items)) (zset_members s)
  | KV_OBJECT_ZSET =>
      mk_counters (hits s) (misses s) (expired_keys s) (evicted_keys s)
        (string_keys s) (hash_keys s) (zset_keys s) (hash_field_count s)
        (wrap64 (zset_members s - old_items + new_items))
  end.

Definition cache_recharge_ref (clock : Z) (c : cache) (entry : option (list Z))
  : cache_set_result * cache :=
  match entry ≫= fun p => (fun e => (p, e)) <$> c_entries c !! p with
  | None => (CACHE_SET_ERROR, c)
  | Some (p, e) =>
      let now := if negb (e_expire e =? 0) then clock else 0 in
      if negb (e_expire e =? 0) && (now >=? e_expire e) then (CACHE_SET_ERROR, c) else
      let new_charge := entry_memory_charge (zlen p) (e_object e) in
      if (new_charge =? SIZE_MAX) ||
         (negb (c_max_memory c =? 0) && (new_charge >? c_max_memory c))
      then (CACHE_SET_CAPACITY, c) else
      let projected := wrap64 (c_used c - e_charge e + new_charge) in
      let '(ok, c, projected) := evict_for_recharge (evict_fuel c) c p now projected in
      if negb ok then (CACHE_SET_CAPACITY, c) else
      let new_items := object_item_count (e_object e) in
      let c := with_stats (recount (e_object e) (e_items e) new_items (c_stats c)) c in
      let c := with_used projected c in
      let c := with_entries (<[p := mk_entry (e_object e) new_charge new_items (e_expire e)]> (c_entries c)) c in
      (CACHE_SET_OK, with_lru (lru_touch (c_lru_enabled c) (c_lru c) p) c)
  end.

Definition cache_recharge_object (clock later : Z) (c : cache) (key : slice) : cache_set_result * cache :=
  match key with
  | None => (CACHE_SET_ERROR, c)
  | Some key =>
      let '(entry, c) := find_live clock c key UINT64_MAX in
      cache_recharge_ref later c entry
  end.

Definition cache_max_memory (c : cache) : Z := c_max_memory c.

Definition cache_delete (clock : Z) (c : cache) (key : slice) : Z * cache :=
  match key with
  | None => (-1, c)
  | Some key =>
      let '(entry, c) := find_live clock c key UINT64_MAX in
      match entry with
      | None => (0, c)
      | Some p => (1, entry_remove c p REMOVE_NORMAL)
      end
  end.

(** ** Expiration *)

Definition cache_expire_at (m : mem) (clock : Z) (c : cache) (key : slice) (expire_at_ms : Z)
  : Z * cache * mem :=
  match key with
  | None => (-1, c, m)
  | Some k =>
      if expire_at_ms =? 0 then (cache_delete clock c key, m) else
      let '(entry, c) := find_live clock c k clock in
      match entry with
      | None => (0, c, m)
      | Some p =>
          if expire_of c p =? 0 then
            let '(r, heap, m) := heap_reserve m (c_heap c) (Z.of_nat (heap_count (c_heap c)) + 1) in
            let c := with_heap heap c in
            if negb (r =? 0) then (-1, c, m) else
            let c := set_expire p expire_at_ms c in
            (1, with_heap (heap_insert_reserved (expire_of c) (c_heap c) p) c, m)
          else
            let c := set_expire p expire_at_ms c in
            (1, with_heap (heap_expiration_changed (expire_of c) (c_heap c) p) c, m)
      end
  end.

(** [now] is the first reading of the clock. *)
Definition cache_expire (m : mem) (now clock : Z) (c : cache) (key : slice) (ttl_ms : Z)
  : Z * cache * mem :=
  if ttl_ms =? 0 then (cache_delete clock c key, m) else
  if ttl_ms >? UINT64_MAX - now then (-2, c, m) else
  cache_expire_at m clock c key (now + ttl_ms).

Definition cache_persist (clock : Z) (c : cache) (key : slice) : Z * cache :=
  match key with
  | None => (-1, c)
  | Some key =>
      let '(entry, c) := find_live clock c key UINT64_MAX in
      match entry with
      | None => (0, c)
      | Some p =>
          if expire_of c p =? 0 then (0, c) else
          (1, set_expire p 0 (unheap p c))
      end
  end.

(** The result is [None] for a bad argument, otherwise the value of [*ttl_ms]. *)
Definition cache_ttl_ms (clock : Z) (c : cache) (key : slice) : option Z * cache :=
  match key with
  | None => (None, c)
  | Some key =>
      let '(entry, c) := find_live clock c key clock in
      match entry with
      | None => (Some (-2), c)
      | Some p =>
          if expire_of c p =? 0 then (Some (-1), c) else
          let remaining := wrap64 (expire_of c p - clock) in
          (Some (if remaining >? INT64_MAX then INT64_MAX else remaining), c)
      end
  end.

(** The expiration loop: [fuel] is the smaller of the budget and the heap. *)
Fixpoint expire_loop (fuel : nat) (now : Z) (c : cache) (expired : Z) : Z * cache :=
  match fuel with
  | O => (expired, c)
  | S fuel =>
      if (0 <? heap_count (c_heap c))%nat then
        let entry := slot (c_heap c) 0 in
        if expire_of c entry >? now then (expired, c)
        else expire_loop fuel now (entry_remove c entry REMOVE_EXPIRED) (expired + 1)
      else (expired, c)
  end.

Definition cache_maintain (clock : Z) (c : cache) (expire_budget rehash_budget : Z) : Z * cache :=
  let fuel := Nat.min (Z.to_nat expire_budget) (heap_count (c_heap c)) in
  let '(expired, c) := expire_loop fuel clock c 0 in
  (expired, with_index (kv_hash_rehash_step (c_index c) rehash_budget).2 c).

(** ** Statistics and traversal *)

Record cache_stats : Type := mk_stats {
  st_keys : Z; st_used_memory : Z; st_index_memory : Z; st_max_keys : Z; st_max_memory : Z;
  st_counters : cache_counters; st_hash_slots : Z; st_rehashing : bool
}.

Definition cache_get_stats (c : cache) : cache_stats :=
  mk_stats (kv_hash_count (c_index c)) (c_used c)
    (wrap64 (kv_hash_index_memory (c_index c) + eh_capacity (c_heap c) * SIZEOF_POINTER))
    (c_max_keys c) (c_max_memory c) (c_stats c)
    (kv_hash_slot_count (c_index c)) (kv_hash_is_rehashing (c_index c)).

Definition cache_visit {A} (c : cache) (callback : A -> list Z * cache_entry -> Z * A) (context : A)
  : Z * A :=
  visit callback context
    (omap (fun n => (fun e => (nkey n, e)) <$> c_entries c !! npayload n)
       (iterate (S (Z.to_nat (kv_hash_count (c_index c)))) (c_index c) kv_hash_iterator_begin)).

(** ** The hot entry of hash commands *)

Definition find_live_hash (clock : Z) (c : cache) (key : list Z) : option (list Z) * cache :=
  match c_hot c with
  | Some p =>
      if (zlen p =? zlen key) && bool_decide (p = key) then
        if expire_of c p =? 0 then (Some p, c) else
        if clock <? expire_of c p then (Some p, c) else
        (None, entry_remove c p REMOVE_EXPIRED)
      else let '(entry, c) := find_live clock c key UINT64_MAX in (entry, with_hot entry c)
  | None => let '(entry, c) := find_live clock c key UINT64_MAX in (entry, with_hot entry c)
  end.

Definition cache_get_hash_object_ref (clock : Z) (c : cache) (key : slice) (record_hit_or_miss : bool)
  : option (list Z) * cache :=
  match key with
  | None => (None, c)
  | Some key =>
      let '(entry, c) := find_live_hash clock c key in
      match entry with
      | None => (None, if record_hit_or_miss then with_stats (count_lookup false (c_stats c)) c else c)
      | Some p =>
          let c := if record_hit_or_miss then with_stats (count_lookup true (c_stats c)) c else c in
          (Some p, with_lru (lru_touch (c_lru_enabled c) (c_lru c) p) c)
      end
  end.
