(* ===== verification/Allocation.v ===== *)
(** How the operations use the allocator: an operation takes the outcomes of
    its allocations from the front of the list it is given and returns the
    rest, so a later operation meets a failure only where the list has one. *)

From S2P Require Import Prelude HashTable ZOrder Skiplist ZRbTree Object ExpireHeap LruList Cache.

Create HintDb spend.

(** The outcomes that [x] leaves are the end of [m]. *)
Definition spends {A} (m : mem) (x : A * mem) : Prop := x.2 `suffix_of` m.

Lemma spends_keep {A} m (x : A) : spends m (x, m).
Proof. unfold spends. done. Qed.

Lemma spends_nil {A} (x : A * mem) : spends [] x -> x.2 = [].
Proof. apply suffix_nil_inv. Qed.

Lemma spends_trans {A B} m (x : A * mem) (y : B * mem) : spends m x -> spends x.2 y -> spends m y.
Proof. unfold spends. intros H1 H2. by etrans. Qed.

(** An allocation failed on the way from [m] to [m']. *)
Definition failed_between (m m' : mem) : Prop := exists used, m = used ++ m' /\ false ∈ used.

Lemma failed_before (m m1 m2 : mem) : failed_between m m1 -> m2 `suffix_of` m1 -> failed_between m m2.
Proof. intros (u & -> & Hu) [k ->]. exists (u ++ k). rewrite app_assoc. split; [done|]. apply elem_of_app. by left. Qed.

Lemma failed_after (m m1 m2 : mem) : m1 `suffix_of` m -> failed_between m1 m2 -> failed_between m m2.
Proof. intros [k ->] (u & -> & Hu). exists (k ++ u). rewrite app_assoc. split; [done|]. apply elem_of_app. by right. Qed.

Lemma malloc_spends m : spends m (malloc m).
Proof. unfold spends. destruct m as [|ok m]; [done|]. by exists [ok]. Qed.
#[export] Hint Resolve malloc_spends spends_keep : spend.

(** A step of the analysis of a body: the calls that allocate first. *)
Ltac spend_step :=
  match goal with
  | |- spends _ _ => solve [eauto 2 with spend]
  | |- context [match ?x with _ => _ end] =>
      lazymatch x with context [match _ with _ => _ end] => fail | _ => idtac end;
      lazymatch type of x with
      | (_ * mem)%type =>
          let H := fresh "Hs" in
          eassert (H : spends _ x) by (solve [eauto 2 with spend]);
          destruct x; eapply (spends_trans _ (_, _)); [exact H|clear H; cbn [snd]]
      | _ => destruct x
      end
  end.
Ltac spend := repeat spend_step.

Section Tables.
Context {V : Type}.

Lemma table_allocate_spends m n : spends m (table_allocate (V := V) m n).
Proof. unfold table_allocate. spend. Qed.
#[local] Hint Resolve table_allocate_spends : spend.

Lemma hash_init_spends m : spends m (hash_init (V := V) m).
Proof. unfold hash_init. spend. Qed.
#[local] Hint Resolve hash_init_spends : spend.

Lemma hash_create_spends m : spends m (kv_hash_create (V := V) m).
Proof. unfold kv_hash_create. spend. Qed.

Lemma start_expand_spends m (h : hashtable V) : spends m (start_expand m h).
Proof. unfold start_expand. spend. Qed.
#[local] Hint Resolve start_expand_spends : spend.

Lemma maybe_expand_spends m (h : hashtable V) : spends m (maybe_expand m h).
Proof. unfold maybe_expand. spend. Qed.
#[local] Hint Resolve maybe_expand_spends : spend.

Lemma hash_insert_spends m (h : hashtable V) k v : spends m (kv_hash_insert m h k v).
Proof. unfold kv_hash_insert. spend. Qed.
End Tables.
#[export] Hint Resolve hash_create_spends hash_insert_spends : spend.

(** ** Objects *)

Lemma hash_value_spends m data : spends m (hash_value_create m data).
Proof. unfold hash_value_create. spend. Qed.
#[export] Hint Resolve hash_value_spends : spend.

Lemma skip_node_spends m level score : spends m (skip_node_create m level score).
Proof. unfold skip_node_create. spend. Qed.
#[export] Hint Resolve skip_node_spends : spend.

Lemma prepare_node_spends m o score : spends m (ordered_prepare_node m o score).
Proof. unfold ordered_prepare_node, skiplist_prepare_node, rbtree_prepare_node. spend. Qed.
#[export] Hint Resolve prepare_node_spends : spend.

Lemma order_init_spends m engine : spends m (order_init m engine).
Proof. unfold order_init, skiplist_init, rbtree_init. spend. Qed.
#[export] Hint Resolve order_init_spends : spend.

Lemma create_string_spends m value : spends m (kv_object_create_string m value).
Proof. unfold kv_object_create_string. spend. Qed.

Lemma create_hash_spends m : spends m (kv_object_create_hash m).
Proof. unfold kv_object_create_hash. spend. Qed.

Lemma create_zset_spends m engine : spends m (kv_object_create_zset m engine).
Proof. unfold kv_object_create_zset. spend. Qed.

Lemma hash_set_spends m o field value : spends m (kv_object_hash_set m o field value).
Proof. unfold kv_object_hash_set. spend. Qed.

Lemma zset_add_spends m o score member : spends m (kv_object_zset_add m o score member).
Proof. unfold kv_object_zset_add. spend. Qed.
#[export] Hint Resolve create_string_spends create_hash_spends create_zset_spends hash_set_spends zset_add_spends : spend.

(** A visit whose callback allocates. *)
Lemma visit_spends {A X} (callback : A * mem -> X -> Z * (A * mem)) l x m :
  (forall x m y, spends m (callback (x, m) y).2) -> spends m (visit callback (x, m) l).2.
Proof.
  intros Hc. revert x m. induction l as [|y l IH]; intros x m; cbn [visit]; [apply spends_keep|].
  specialize (Hc x m y). destruct (callback (x, m) y) as [r [x1 m1]]. cbn [snd] in Hc. destruct (negb _).
  - done.
  - eapply (spends_trans _ (x1, m1)); [done|]. apply IH.
Qed.

Lemma clone_spends m o : spends m (kv_object_clone m o).
Proof.
  assert (Hf : forall (x : kv_object) m y, spends m (clone_hash_field (x, m) y).2) by (intros x m1 y; unfold clone_hash_field; spend).
  assert (Hm : forall (x : kv_object) m y, spends m (clone_zset_member (x, m) y).2) by (intros x m1 y; unfold clone_zset_member; spend).
  unfold kv_object_clone. destruct (o_value o) as [l n|table|set] eqn:Eo.
  - auto with spend.
  - pose proof (create_hash_spends m) as Hs. destruct (kv_object_create_hash m) as [[copy|] m1]; [|done]. eapply (spends_trans _ (tt, m1)); [exact Hs|].
    unfold kv_object_hash_visit. rewrite Eo. pose proof (visit_spends clone_hash_field (hash_fields table) copy m1 Hf) as Hv.
    destruct (visit _ _ _) as [r [x m2]]. by destruct r.
  - pose proof (create_zset_spends m (zset_engine (zs_order set))) as Hs. destruct (kv_object_create_zset _ _) as [[copy|] m1]; [|done].
    eapply (spends_trans _ (tt, m1)); [exact Hs|]. unfold kv_object_zset_range. rewrite Eo. destruct (range_bounds _ _ _) as [[first last]|]; [|apply spends_keep].
    pose proof (visit_spends clone_zset_member (ordered_range (zs_order set) first (Z.to_nat (last - first + 1))) copy m1 Hm) as Hv.
    destruct (visit _ _ _) as [r [x m2]]. by destruct r.
Qed.
#[export] Hint Resolve clone_spends : spend.

(** ** The cache *)

Lemma heap_reserve_spends m h n : spends m (heap_reserve m h n).
Proof. unfold heap_reserve. spend. Qed.
#[export] Hint Resolve heap_reserve_spends : spend.

Lemma store_existing_spends m clock c p o now x nc ni : spends m (store_existing m clock c p o now x nc ni).
Proof.
  unfold store_existing. set (d := if _ && _ then _ else _). assert (Hd : spends m d) by (unfold d; spend). destruct d as [[r h] m1].
  eapply (spends_trans _ (tt, m1)); [exact Hd|]. cbn [snd]. spend.
Qed.

Lemma store_new_spends m clock c key o now x nc ni : spends m (store_new m clock c key o now x nc ni).
Proof.
  unfold store_new. set (d := if negb _ then _ else _). assert (Hd : spends m d) by (unfold d; spend). destruct d as [[r h] m1].
  eapply (spends_trans _ (tt, m1)); [exact Hd|]. cbn [snd]. spend.
Qed.
#[export] Hint Resolve store_existing_spends store_new_spends : spend.

Lemma store_spends m clock later c key o x preserve : spends m (cache_store_object m clock later c key o x preserve).
Proof. unfold cache_store_object. spend. Qed.
#[export] Hint Resolve store_spends : spend.

Lemma set_spends m clock later c key value x : spends m (cache_set_expire_at m clock later c key value x).
Proof. unfold cache_set_expire_at. spend. Qed.

Lemma expire_spends m clock c key x : spends m (cache_expire_at m clock c key x).
Proof. unfold cache_expire_at. spend. Qed.
#[export] Hint Resolve set_spends expire_spends : spend.
