(* ===== verification/CacheSpec.v ===== *)
(** Invariant and contracts of the cache: what the entries, the key index, the
    expiration heap, the order of use, the accounting and the limits promise
    each other, the reference definition of eviction, and the behaviour of
    every operation of [Cache] on the map of entries. *)

From S2P Require Import Prelude HashTable ZOrder Object ExpireHeap LruList Cache.

Abbreviation entries := (gmap (list Z) cache_entry).

Implicit Types (k p q : list Z) (e : cache_entry) (M : entries) (f : cache_entry -> Z).

(** ** Sums over the entries *)

Definition total (f : cache_entry -> Z) (M : entries) : Z :=
  map_fold (fun _ e acc => f e + acc) 0 M.

Lemma total_empty f : total f ∅ = 0.
Proof. apply map_fold_empty. Qed.

Lemma total_insert f (M : entries) k e : M !! k = None -> total f (<[k := e]> M) = f e + total f M.
Proof. intros H. unfold total. rewrite map_fold_insert_L; [done| |done]. intros; lia. Qed.

Lemma total_delete f (M : entries) k e : M !! k = Some e -> total f (delete k M) = total f M - f e.
Proof. intros H. unfold total. rewrite (map_fold_delete_L _ _ k e M); [lia| |done]. intros; lia. Qed.

Lemma total_replace f (M : entries) k e e' :
  M !! k = Some e -> total f (<[k := e']> M) = total f M - f e + f e'.
Proof.
  intros H. rewrite <- insert_delete_eq, total_insert by apply lookup_delete_eq.
  rewrite (total_delete f M k e H). lia.
Qed.

Lemma total_nonneg f (M : entries) : map_Forall (fun _ e => 0 <= f e) M -> 0 <= total f M.
Proof.
  induction M as [|k e M Hk IH] using map_ind; [by rewrite total_empty|].
  intros [H1 H2]%map_Forall_insert; [|done]. rewrite total_insert by done. specialize (IH H2). lia.
Qed.

Lemma wrap64_add_l a b : wrap64 (wrap64 a + b) = wrap64 (a + b).
Proof. unfold wrap64. by rewrite Zplus_mod_idemp_l. Qed.

Lemma wrap64_sub_l a b : wrap64 (wrap64 a - b) = wrap64 (a - b).
Proof. unfold wrap64. by rewrite Zminus_mod_idemp_l. Qed.

Lemma wrap64_sub_add a b d : wrap64 (wrap64 a - b + d) = wrap64 (a - b + d).
Proof. by rewrite <- wrap64_add_l, wrap64_sub_l, wrap64_add_l. Qed.

Lemma wrap64_idemp a : wrap64 (wrap64 a) = wrap64 a.
Proof. unfold wrap64. by rewrite Z.mod_mod. Qed.

(** ** The key index *)

Record index_ok (M : entries) (h : hashtable (list Z)) : Prop := {
  ix_wf : hash_wf h;
  ix_map : forall k p, to_map h !! k = Some p <-> p = k /\ is_Some (M !! k)
}.

Lemma index_none M h k : index_ok M h -> to_map h !! k = None <-> M !! k = None.
Proof.
  intros [_ Hm]. rewrite !eq_None_not_Some. split; intros Hn Hs; apply Hn.
  - exists k. by apply Hm.
  - destruct Hs as [p Hp]. by apply Hm in Hp as [_ ?].
Qed.

Lemma index_remove M h p :
  index_ok M h -> index_ok (delete p M) (kv_hash_remove_node h (Some (index_node p))).2.
Proof.
  intros [Hw Hm]. pose proof (remove_target_spec h (index_node p) Hw eq_refl) as H.
  unfold kv_hash_remove_node. destruct (remove_target h _) as [v h']. cbn.
  destruct H as (Hw' & _ & Hm'). split; [done|]. intros k q. rewrite Hm'. cbn [nkey index_node].
  rewrite !lookup_delete. case_decide; [|apply Hm]. split; [done|]. intros [_ [? ?]]. done.
Qed.

Lemma index_rehash M h b :
  index_ok M h -> 0 <= b -> index_ok M (kv_hash_rehash_step h b).2.
Proof.
  intros [Hw Hm] Hb. destruct (rehash_step_map h b Hw Hb) as (Hw' & Hm' & _).
  split; [done|]. intros k q. by rewrite Hm'.
Qed.

Lemma index_ext M M' h :
  index_ok M h -> (forall k, is_Some (M' !! k) <-> is_Some (M !! k)) -> index_ok M' h.
Proof. intros [Hw Hm] Hd. split; [done|]. intros k p. by rewrite Hm, Hd. Qed.

Lemma index_insert m M h k e :
  index_ok M h ->
  let '(r, n, h', m') := kv_hash_insert m h (Some k) k in
  r = 0 /\ M !! k = None /\ index_ok (<[k := e]> M) h' \/ r = -1 /\ index_ok M h'.
Proof.
  intros [Hw Hm]. pose proof (insert_spec m h k k Hw) as H.
  destruct (kv_hash_insert m h (Some k) k) as [[[r n] h'] m'].
  destruct H as (Hw' & [(-> & _ & Hk & Hm')|(-> & _ & Hm')]).
  - left. split; [done|]. split; [by apply (index_none M h k)|]. split; [done|].
    intros k' p. rewrite Hm', !lookup_insert. case_decide; [|apply Hm].
    subst. split; [intros [= <-]; eauto|by intros [-> _]].
  - right. split; [done|]. split; [done|]. intros. by rewrite Hm'.
Qed.

Lemma index_count M h : index_ok M h -> kv_hash_count h = Z.of_nat (size M).
Proof.
  intros [Hw Hm]. unfold kv_hash_count. rewrite (wf_count h Hw).
  assert (Hs : size (to_map h) = size M).
  { rewrite <- !size_dom. f_equal. apply set_eq. intros k. rewrite !elem_of_dom. split.
    - intros [p Hp]. by apply Hm in Hp as [_ ?].
    - intros ?. exists k. by apply Hm. }
  rewrite <- Hs. unfold to_map, zlen. f_equal.
  assert (Hl : length (all_nodes h) = length (pairs (all_nodes h))) by (unfold pairs; by rewrite length_fmap).
  rewrite Hl. rewrite <- (map_to_list_to_map (pairs (all_nodes h))) at 1; [by rewrite length_map_to_list|].
  pose proof (wf_nodup h Hw) as Hnd. unfold pairs. by rewrite <- list_fmap_compose.
Qed.

(** ** Expiration times and the heap *)

Definition expire_in (M : entries) (p : list Z) : Z :=
  match M !! p with Some e => e_expire e | None => 0 end.

Record timed_ok (M : entries) (h : expire_heap) : Prop := {
  tm_heap : heap_ok (expire_in M) h;
  tm_members : forall p, p ∈ eh_array h <-> expire_in M p <> 0;
  tm_capacity : Z.of_nat (heap_count h) <= eh_capacity h
}.

(** [heap_remove_at] through the index kept in the entry. *)
Definition unheaped (M : entries) (p : list Z) (h : expire_heap) : expire_heap :=
  match eh_index h !! p with Some i => heap_remove_at (expire_in M) h i | None => h end.

Lemma timed_capacity M h : timed_ok M h -> 0 <= eh_capacity h.
Proof. intros H. pose proof (tm_capacity _ _ H). lia. Qed.

Section Timed.
Context (M M' : entries) (h : expire_heap) (p : list Z).
Context (Hok : timed_ok M h) (Hsame : forall q, q <> p -> expire_in M' q = expire_in M q).

Lemma timed_ext : expire_in M' p = expire_in M p -> timed_ok M' h.
Proof.
  intros Hp. destruct Hok as [Hh Hm Hc].
  assert (Hall : forall q, expire_in M' q = expire_in M q) by (intros q; destruct (decide (q = p)) as [->|]; auto).
  split; [|intros q; by rewrite Hm, Hall|done].
  eapply heap_ok_ext; [|exact Hh]. auto.
Qed.

Lemma timed_unheap : expire_in M' p = 0 -> timed_ok M' (unheaped M p h).
Proof.
  intros Hp. destruct Hok as [Hh Hm Hc]. unfold unheaped.
  destruct (eh_index h !! p) as [i|] eqn:Ei.
  - pose proof Ei as Ha. apply (ho_indexed _ _ Hh) in Ha.
    destruct (heap_remove_spec _ h i p Hh Ha) as [Hh' Hperm].
    pose proof (indexed_nodup h (ho_indexed _ _ Hh)) as Hnd. rewrite <- Hperm in Hnd.
    apply NoDup_cons in Hnd as [Hnp _].
    assert (Hmem : forall q, q ∈ eh_array (heap_remove_at (expire_in M) h i) <-> expire_in M' q <> 0).
    { intros q. destruct (decide (q = p)) as [->|Hne]; [by rewrite Hp|].
      rewrite Hsame, <- Hm, <- Hperm, elem_of_cons by done. naive_solver. }
    split; [|done|].
    + eapply heap_ok_ext; [|exact Hh']. intros q Hq. apply Hsame. by intros ->.
    + pose proof (Permutation_length Hperm) as Hlen. cbn in Hlen. rewrite heap_remove_capacity.
      unfold heap_count in *. lia.
  - assert (expire_in M p = 0).
    { destruct (decide (expire_in M p = 0)) as [|Hne]; [done|]. apply Hm in Hne.
      apply (heap_index_lookup _ _ _ Hh) in Hne. rewrite Ei in Hne. by destruct Hne. }
    apply timed_ext. congruence.
Qed.

Lemma timed_insert :
  expire_in M p = 0 -> expire_in M' p <> 0 -> Z.of_nat (heap_count h) + 1 <= eh_capacity h ->
  timed_ok M' (heap_insert_reserved (expire_in M') h p).
Proof.
  intros Hz Hp Hc. destruct Hok as [Hh Hm _].
  assert (Hn : p ∉ eh_array h) by (rewrite Hm; lia).
  destruct (heap_insert_spec (expire_in M') h p) as [Hh' Hperm]; [|done|].
  { eapply heap_ok_ext; [|exact Hh]. intros q Hq. apply Hsame. by intros ->. }
  split; [done| |].
  - intros q. rewrite Hperm, elem_of_cons, Hm. destruct (decide (q = p)) as [->|Hne]; [naive_solver|].
    rewrite Hsame by done. naive_solver.
  - pose proof (Permutation_length Hperm) as Hlen. cbn in Hlen. rewrite heap_insert_capacity.
    unfold heap_count in *. lia.
Qed.

Lemma timed_changed :
  expire_in M p <> 0 -> expire_in M' p <> 0 ->
  timed_ok M' (heap_expiration_changed (expire_in M') h p).
Proof.
  intros Hz Hp. destruct Hok as [Hh Hm Hc].
  destruct (heap_expiration_changed_spec _ (expire_in M') h p Hh Hsame) as [Hh' Hperm Hcap].
  split; [done| |].
  - intros q. rewrite Hperm, Hm. destruct (decide (q = p)) as [->|Hne]; [naive_solver|].
    by rewrite Hsame by done.
  - rewrite Hcap. pose proof (Permutation_length Hperm) as Hlen. unfold heap_count in *. lia.
Qed.
End Timed.

Lemma timed_reserve m M h :
  timed_ok M h ->
  let '(r, h', m') := heap_reserve m h (Z.of_nat (heap_count h) + 1) in
  timed_ok M h' /\ (r = 0 /\ Z.of_nat (heap_count h') + 1 <= eh_capacity h' \/ r = -1).
Proof.
  intros [Hh Hm Hc]. pose proof (heap_reserve_spec m h (Z.of_nat (heap_count h) + 1)) as H.
  destruct (heap_reserve m h _) as [[r h'] m']. destruct H as (Ha & Hi & Hr).
  assert (Hcnt : heap_count h' = heap_count h) by (unfold heap_count; by rewrite Ha).
  split.
  - split.
    + destruct Hh as [Hx Ho]. split; [intros q i; by rewrite Ha, Hi|].
      intros i. unfold key_at, slot. rewrite Hcnt, Ha. apply Ho.
    + intros q. by rewrite Ha.
    + destruct Hr as [[_ ?]|[_ ->]]; lia.
  - destruct Hr as [[-> ?]|[-> _]]; [left|by right]. split; [done|]. by rewrite Hcnt.
Qed.

(** ** The order of use *)

(** [L] lists the entries from the most to the least recently used; it is
    empty when the cache has no limits and keeps no order. *)
Definition order_ok (enabled : bool) (L : list (list Z)) (M : entries) (s : lru_list) : Prop :=
  if enabled then lru_repr L s /\ forall p, p ∈ L <-> is_Some (M !! p) else L = [].

Definition without (p : list Z) (L : list (list Z)) : list (list Z) := filter (fun q => q <> p) L.

Definition touched (enabled : bool) (p : list Z) (L : list (list Z)) : list (list Z) :=
  if enabled then p :: without p L else L.

Lemma elem_of_without p q L : q ∈ without p L <-> q <> p /\ q ∈ L.
Proof. unfold without. by rewrite list_elem_of_filter. Qed.

Lemma without_split p L : NoDup L -> p ∈ L -> exists a b, L = a ++ p :: b /\ without p L = a ++ b.
Proof.
  intros Hn Hp. apply list_elem_of_split in Hp as (a & b & ->). exists a, b. split; [done|].
  apply NoDup_app in Hn as (_ & Hd & [Hb _]%NoDup_cons).
  unfold without. rewrite filter_app, filter_cons_False, !filter_keep; [done|done| |naive_solver].
  intros Ha. apply (Hd p Ha), elem_of_cons. by left.
Qed.

Lemma order_remove enabled L M s p :
  order_ok enabled L M s -> is_Some (M !! p) ->
  order_ok enabled (without p L) (delete p M) (lru_unlink enabled s p).
Proof.
  destruct enabled; cbn [order_ok]; [|by intros ->]. intros [Hr Hd] Hp. apply Hd in Hp.
  destruct (without_split p L (lr_nodup _ _ Hr) Hp) as (a & b & HL & Hw). split.
  - rewrite Hw. apply lru_unlink_spec. by rewrite <- HL.
  - intros q. rewrite elem_of_without, Hd, lookup_delete_is_Some. naive_solver.
Qed.

Lemma order_link enabled L M s p e :
  order_ok enabled L M s -> M !! p = None ->
  order_ok enabled (touched enabled p L) (<[p := e]> M) (lru_link_head enabled s p).
Proof.
  destruct enabled; cbn [order_ok touched]; [|by intros ->]. intros [Hr Hd] Hp.
  assert (Hn : p ∉ L) by (rewrite Hd, Hp; apply is_Some_None). unfold without.
  rewrite filter_keep by done. split; [by apply lru_link_head_spec|].
  intros q. rewrite elem_of_cons, Hd, lookup_insert_is_Some. naive_solver.
Qed.

Lemma order_touch enabled L M s p :
  order_ok enabled L M s -> is_Some (M !! p) ->
  order_ok enabled (touched enabled p L) M (lru_touch enabled s p).
Proof.
  destruct enabled; cbn [order_ok touched]; [|by intros ->]. intros [Hr Hd] Hp. apply Hd in Hp as Hin.
  destruct (without_split p L (lr_nodup _ _ Hr) Hin) as (a & b & HL & Hw). split.
  - rewrite Hw. apply lru_touch_spec. by rewrite <- HL.
  - intros q. rewrite elem_of_cons, elem_of_without, Hd.
    destruct (decide (q = p)) as [->|]; naive_solver.
Qed.

Lemma order_ext enabled L M M' s :
  order_ok enabled L M s -> (forall k, is_Some (M' !! k) <-> is_Some (M !! k)) -> order_ok enabled L M' s.
Proof. destruct enabled; cbn; [|done]. intros [Hr Hd] He. split; [done|]. intros q. by rewrite Hd, He. Qed.

(** ** Statistics *)

Definition is_type (t : kv_object_type) (e : cache_entry) : Z :=
  if decide (type_of (e_object e) = t) then 1 else 0.

Definition items_of (t : kv_object_type) (e : cache_entry) : Z :=
  if decide (type_of (e_object e) = t) then e_items e else 0.

(** The object counters are the sums over the entries. *)
Record stats_ok (M : entries) (s : cache_counters) : Prop := {
  so_strings : string_keys s = wrap64 (total (is_type KV_OBJECT_STRING) M);
  so_hashes : hash_keys s = wrap64 (total (is_type KV_OBJECT_HASH) M);
  so_zsets : zset_keys s = wrap64 (total (is_type KV_OBJECT_ZSET) M);
  so_fields : hash_field_count s = wrap64 (total (items_of KV_OBJECT_HASH) M);
  so_members : zset_members s = wrap64 (total (items_of KV_OBJECT_ZSET) M)
}.

Lemma count_object_ok d M M' o n s :
  stats_ok M s ->
  (forall t, total (is_type t) M' = total (is_type t) M + (if decide (type_of o = t) then d else 0)) ->
  (forall t, total (items_of t) M' = total (items_of t) M + (if decide (type_of o = t) then d * n else 0)) ->
  stats_ok M' (count_object d o n s).
Proof.
  intros [H1 H2 H3 H4 H5] Ht Hi. unfold count_object.
  destruct (type_of o); split; cbn; rewrite ?Ht, ?Hi; cbn;
    rewrite ?H1, ?H2, ?H3, ?H4, ?H5, ?wrap64_add_l, ?Z.add_0_r; done.
Qed.

Lemma stats_remove_ok M p e s :
  stats_ok M s -> M !! p = Some e -> stats_ok (delete p M) (count_object (-1) (e_object e) (e_items e) s).
Proof.
  intros Hs He. apply (count_object_ok _ M); [done| |]; intros t;
    rewrite (total_delete _ M p e He); unfold is_type, items_of; case_decide; lia.
Qed.

Lemma stats_insert_ok M p e s :
  stats_ok M s -> M !! p = None -> stats_ok (<[p := e]> M) (count_object 1 (e_object e) (e_items e) s).
Proof.
  intros Hs He. apply (count_object_ok _ M); [done| |]; intros t;
    rewrite total_insert by done; unfold is_type, items_of; case_decide; lia.
Qed.

(** Only the object counters matter to [stats_ok]. *)
Lemma stats_same M s s' :
  stats_ok M s -> string_keys s' = string_keys s -> hash_keys s' = hash_keys s ->
  zset_keys s' = zset_keys s -> hash_field_count s' = hash_field_count s ->
  zset_members s' = zset_members s -> stats_ok M s'.
Proof. intros [] ? ? ? ? ?. split; congruence. Qed.

Lemma stats_removal M r s : stats_ok M s -> stats_ok M (count_removal r s).
Proof. intros H. by destruct r; [exact H| |]; apply (stats_same M s). Qed.

Lemma stats_lookup M b s : stats_ok M s -> stats_ok M (count_lookup b s).
Proof. intros H. by apply (stats_same M s). Qed.

(** Entries that keep their types and counted items. *)
Lemma stats_alter M p e e' s :
  stats_ok M s -> M !! p = Some e -> type_of (e_object e') = type_of (e_object e) -> e_items e' = e_items e ->
  stats_ok (<[p := e']> M) s.
Proof.
  intros [H1 H2 H3 H4 H5] He Ht Hi.
  assert (Ha : forall t, total (is_type t) (<[p := e']> M) = total (is_type t) M).
  { intros t. rewrite (total_replace _ M p e) by done. unfold is_type. rewrite Ht. lia. }
  assert (Hb : forall t, total (items_of t) (<[p := e']> M) = total (items_of t) M).
  { intros t. rewrite (total_replace _ M p e) by done. unfold items_of. rewrite Ht, Hi. lia. }
  split; rewrite ?Ha, ?Hb; done.
Qed.

(** ** The invariant *)

Definition entry_ok (e : cache_entry) : Prop :=
  0 <= e_charge e /\ u64_ok (e_expire e) /\ 0 <= memory_usage (e_object e).

Record config_ok (c : cache) : Prop := {
  cf_keys : 0 <= c_max_keys c;
  cf_memory : 0 <= c_max_memory c < 2 ^ 63;
  cf_enabled : c_lru_enabled c = negb (c_max_keys c =? 0) || negb (c_max_memory c =? 0)
}.

(** The consistency of the parts, which also holds between the insertion of an
    entry and the evictions it causes. *)
Record cache_core (L : list (list Z)) (c : cache) : Prop := {
  cc_index : index_ok (c_entries c) (c_index c);
  cc_timed : timed_ok (c_entries c) (c_heap c);
  cc_order : order_ok (c_lru_enabled c) L (c_entries c) (c_lru c);
  cc_used : c_used c = wrap64 (total e_charge (c_entries c));
  cc_stats : stats_ok (c_entries c) (c_stats c);
  cc_entries : map_Forall (fun _ e => entry_ok e) (c_entries c);
  cc_hot : forall p, c_hot c = Some p -> is_Some (c_entries c !! p);
  cc_config : config_ok c
}.

(** The limits on the number of entries and on the sum of their charges. *)
Definition exceeds (c : cache) (keys memory : Z) : bool :=
  (negb (c_max_keys c =? 0) && (keys >? c_max_keys c)) ||
  (negb (c_max_memory c =? 0) && (memory >? c_max_memory c)).

Definition within_limits (c : cache) : Prop :=
  exceeds c (Z.of_nat (size (c_entries c))) (total e_charge (c_entries c)) = false.

Definition cache_ok (L : list (list Z)) (c : cache) : Prop := cache_core L c /\ within_limits c.

(** What no operation but the configuration changes. *)
Definition settings (c : cache) : Z * Z * bool * bool :=
  (c_max_keys c, c_max_memory c, c_on_evict c, c_lru_enabled c).

(** ** Removal *)

Lemma unheap_entries p c : c_entries (unheap p c) = c_entries c.
Proof. unfold unheap. by destruct (eh_index _ !! p). Qed.

Lemma unheap_eq p c : unheap p c = with_heap (unheaped (c_entries c) p (c_heap c)) c.
Proof. unfold unheap, unheaped. destruct (eh_index (c_heap c) !! p); [done|]. by destruct c. Qed.

Lemma expire_in_delete M p q : q <> p -> expire_in (delete p M) q = expire_in M q.
Proof. intros H. unfold expire_in. by rewrite lookup_delete_ne. Qed.

Lemma expire_in_insert M p q e : q <> p -> expire_in (<[p := e]> M) q = expire_in M q.
Proof. intros H. unfold expire_in. by rewrite lookup_insert_ne. Qed.

Lemma entry_remove_eq c p e reason :
  c_entries c !! p = Some e ->
  entry_remove c p reason =
  mk_cache (kv_hash_remove_node (c_index c) (Some (index_node p))).2
    (delete p (c_entries c)) (lru_unlink (c_lru_enabled c) (c_lru c) p)
    (unheaped (c_entries c) p (c_heap c)) (wrap64 (c_used c - e_charge e))
    (c_max_keys c) (c_max_memory c) (c_on_evict c)
    (if bool_decide (reason = REMOVE_EVICTED) && c_on_evict c then c_calls c ++ [p] else c_calls c)
    (count_object (-1) (e_object e) (e_items e) (count_removal reason (c_stats c)))
    (if bool_decide (c_hot c = Some p) then None else c_hot c) (c_lru_enabled c).
Proof.
  intros He. unfold entry_remove. rewrite He, unheap_eq.
  destruct c as [ix M s hp u mk mm cb calls st hot en].
  cbn [c_index c_entries c_lru c_heap c_used c_max_keys c_max_memory c_on_evict c_calls c_stats c_hot c_lru_enabled].
  destruct (bool_decide (hot = Some p)), (bool_decide (reason = REMOVE_EVICTED)), cb; reflexivity.
Qed.

Lemma config_settings c c' : settings c' = settings c -> config_ok c -> config_ok c'.
Proof. intros [= H1 H2 H3 H4] [A B C]. split; congruence. Qed.

Lemma entry_remove_spec L c p e reason :
  cache_core L c -> c_entries c !! p = Some e ->
  cache_core (without p L) (entry_remove c p reason) /\
  c_entries (entry_remove c p reason) = delete p (c_entries c) /\
  settings (entry_remove c p reason) = settings c.
Proof.
  intros [H1 H2 H3 H4 H5 H6 H7 H8] He. rewrite (entry_remove_eq c p e reason He).
  split; [|done]. split; cbn [c_index c_entries c_lru c_heap c_used c_stats c_hot c_lru_enabled].
  - by apply index_remove.
  - apply (timed_unheap (c_entries c)); [done|intros; by apply expire_in_delete|].
    unfold expire_in. by rewrite lookup_delete_eq.
  - apply order_remove; [done|by exists e].
  - rewrite H4, wrap64_sub_l. by rewrite (total_delete _ _ p e).
  - by apply stats_remove_ok; [apply stats_removal|].
  - by apply map_Forall_delete.
  - intros q. case_bool_decide as Hh; [done|]. intros Hq. rewrite lookup_delete_ne by congruence. by apply H7.
  - by eapply config_settings; [|exact H8].
Qed.

(** The counters of lookups. *)
Definition traffic (c : cache) : Z * Z := (hits (c_stats c), misses (c_stats c)).

Lemma entry_remove_traffic c p reason : traffic (entry_remove c p reason) = traffic c.
Proof.
  destruct (c_entries c !! p) as [e|] eqn:He; [|unfold entry_remove; by rewrite He].
  rewrite (entry_remove_eq c p e reason He). unfold traffic, count_object. cbn [c_stats].
  by destruct (type_of (e_object e)), reason.
Qed.

(** A reserved slot of the heap stays free. *)
Definition room (c : cache) : Prop := Z.of_nat (heap_count (c_heap c)) + 1 <= eh_capacity (c_heap c).

Lemma entry_remove_room L c p e reason :
  cache_core L c -> c_entries c !! p = Some e -> room c -> room (entry_remove c p reason).
Proof.
  intros H He. rewrite (entry_remove_eq c p e reason He). unfold room. cbn [c_heap].
  unfold unheaped. destruct (eh_index (c_heap c) !! p) as [i|] eqn:Ei; [|done].
  pose proof (tm_heap _ _ (cc_timed _ _ H)) as Hh. apply (ho_indexed _ _ Hh) in Ei.
  destruct (heap_remove_spec _ _ i p Hh Ei) as [_ Hperm]. apply Permutation_length in Hperm.
  rewrite heap_remove_capacity. unfold heap_count. cbn in Hperm. lia.
Qed.

(** ** Lookup of a live entry *)

Definition expired (now : Z) (e : cache_entry) : bool :=
  negb (e_expire e =? 0) && (now >=? e_expire e).

(** The entry a reader sees at the time [now]. *)
Definition live_entry (M : entries) (now : Z) (k : list Z) : option cache_entry :=
  match M !! k with
  | Some e => if expired now e then None else Some e
  | None => None
  end.

(** [UINT64_MAX] asks for the clock. *)
Definition reading (clock now : Z) : Z := if now =? UINT64_MAX then clock else now.

Lemma live_lookup M now k e : live_entry M now k = Some e -> M !! k = Some e /\ expired now e = false.
Proof. unfold live_entry. destruct (M !! k); [|done]. destruct (expired now _) eqn:E; [done|]. by intros [= <-]. Qed.

Lemma core_index L c h : cache_core L c -> index_ok (c_entries c) h -> cache_core L (with_index h c).
Proof. intros [] ?. split; try done. by eapply config_settings; [|eassumption]. Qed.

Lemma core_rehash L c b : cache_core L c -> 0 <= b -> cache_core L (with_index (kv_hash_rehash_step (c_index c) b).2 c).
Proof. intros H Hb. apply core_index; [done|]. by apply index_rehash; [apply H|]. Qed.

Lemma core_dom L c p : cache_core L c -> c_entries c !! p = None -> p ∉ L.
Proof.
  intros H Hp. pose proof (cc_order _ _ H) as Ho. unfold order_ok in Ho.
  destruct (c_lru_enabled c); [|subst; apply not_elem_of_nil].
  destruct Ho as [_ Hd]. rewrite Hd, Hp. apply is_Some_None.
Qed.

Lemma find_live_spec L clock c key now :
  cache_core L c ->
  let '(r, c') := find_live clock c key now in
  match live_entry (c_entries c) (reading clock now) key with
  | Some e => r = Some key /\ c' = with_index (kv_hash_rehash_step (c_index c) 1).2 c /\ cache_core L c'
  | None => r = None /\ cache_core (without key L) c' /\ c_entries c' = delete key (c_entries c) /\
            settings c' = settings c /\ traffic c' = traffic c
  end.
Proof.
  intros H. unfold find_live. set (c1 := with_index (kv_hash_rehash_step (c_index c) 1).2 c).
  assert (H1 : cache_core L c1) by (by apply core_rehash).
  change (c_entries c) with (c_entries c1).
  change (settings c) with (settings c1). change (traffic c) with (traffic c1). clearbody c1. clear H.
  destruct (kv_hash_find (c_index c1) (Some key)) as [n|] eqn:E.
  - apply find_node_spec in E as (Hk & _ & Hm); [|apply H1].
    apply (ix_map _ _ (cc_index _ _ H1)) in Hm as [-> [e He]]. unfold live_entry. rewrite He.
    assert (Hx : expire_of c1 key = e_expire e) by (unfold expire_of; by rewrite He). rewrite Hx.
    assert (Hex : negb (e_expire e =? 0) &&
      ((if negb (e_expire e =? 0) && (now =? UINT64_MAX) then clock else now) >=? e_expire e)
      = expired (reading clock now) e).
    { unfold expired, reading. destruct (e_expire e =? 0); cbn [negb andb]; [done|].
      by destruct (now =? UINT64_MAX). }
    rewrite Hex. destruct (expired _ e); [|done].
    destruct (entry_remove_spec L c1 key e REMOVE_EXPIRED H1 He) as (? & ? & ?).
    split_and!; try done. apply entry_remove_traffic.
  - apply find_None_map in E; [|apply H1]. apply (index_none _ _ _ (cc_index _ _ H1)) in E.
    unfold live_entry. rewrite E. split; [done|]. unfold without.
    rewrite filter_keep by (by apply (core_dom L c1)). split; [done|]. by rewrite delete_id.
Qed.

(** ** Eviction *)

(** The reference definition: starting from the least recently used entry, as
    long as the limits are exceeded.  [extra] is the growth of the charge that
    is not yet part of the entries. *)
Fixpoint victims (c : cache) (extra : Z) (M : entries) (order : list (list Z)) : list (list Z) :=
  match order with
  | [] => []
  | q :: order =>
      if exceeds c (Z.of_nat (size M)) (total e_charge M + extra)
      then q :: victims c extra (delete q M) order
      else []
  end.

Definition remove_all (ks : list (list Z)) (M : entries) : entries := foldr delete M ks.

(** A sequence of removals by eviction. *)
Inductive evicts : list (list Z) -> cache -> cache -> Prop :=
| evicts_nil c : evicts [] c c
| evicts_cons q ks c c' now :
    evicts ks (entry_remove c q (candidate_reason c now q)) c' -> evicts (q :: ks) c c'.

Definition without_all (ks : list (list Z)) (L : list (list Z)) : list (list Z) :=
  filter (fun q => q ∉ ks) L.

Lemma without_all_nil L : without_all [] L = L.
Proof.
  unfold without_all. induction L as [|x L IH]; [done|].
  rewrite filter_cons_True by apply not_elem_of_nil. by rewrite IH.
Qed.

Lemma without_all_cons q ks L : without_all ks (without q L) = without_all (q :: ks) L.
Proof.
  unfold without_all, without. rewrite list_filter_filter. apply list_filter_iff.
  intros x. rewrite not_elem_of_cons. tauto.
Qed.

Lemma remove_all_lookup ks M k :
  remove_all ks M !! k = if decide (k ∈ ks) then None else M !! k.
Proof.
  unfold remove_all. induction ks as [|q ks IH]; cbn [foldr]; [done|].
  destruct (decide (k = q)) as [->|Hne].
  - rewrite lookup_delete_eq, decide_True; [done|]. apply elem_of_cons. by left.
  - rewrite lookup_delete_ne by done. rewrite IH. apply decide_ext. rewrite elem_of_cons. naive_solver.
Qed.

Lemma remove_all_cons q ks M : remove_all ks (delete q M) = remove_all (q :: ks) M.
Proof.
  apply map_eq. intros k. rewrite !remove_all_lookup, lookup_delete.
  destruct (decide (q = k)) as [->|]; repeat case_decide; rewrite ?elem_of_cons in *; naive_solver.
Qed.

Lemma evicts_spec L ks c c' :
  evicts ks c c' -> cache_core L c -> NoDup ks -> (forall q, q ∈ ks -> is_Some (c_entries c !! q)) ->
  cache_core (without_all ks L) c' /\ c_entries c' = remove_all ks (c_entries c) /\ settings c' = settings c /\
  (room c -> room c').
Proof.
  intros H. revert L. induction H as [c|q ks c c' now Hev IH]; intros L Hc Hn Hin.
  - by rewrite without_all_nil.
  - apply NoDup_cons in Hn as [Hq Hn].
    destruct (Hin q) as [e He]; [apply elem_of_cons; by left|].
    destruct (entry_remove_spec L c q e (candidate_reason c now q) Hc He) as (Hc1 & He1 & Hs1).
    destruct (IH (without q L) Hc1 Hn) as (Hc2 & He2 & Hs2 & Hr2).
    { intros k Hk. rewrite He1, lookup_delete_ne by congruence. apply Hin, elem_of_cons. by right. }
    rewrite without_all_cons in Hc2. split; [done|]. split; [by rewrite He2, He1, remove_all_cons|].
    split; [congruence|]. intros Hr. by eapply Hr2, entry_remove_room.
Qed.

Lemma exceeds_settings c c' : settings c' = settings c -> exceeds c' = exceeds c.
Proof. intros [= H1 H2 _ _]. unfold exceeds. by rewrite H1, H2. Qed.

Lemma victims_settings c c' extra M order :
  settings c' = settings c -> victims c' extra M order = victims c extra M order.
Proof.
  intros Hs. revert M. induction order as [|q order IH]; intros M; cbn [victims]; [done|].
  by rewrite (exceeds_settings c c' Hs), IH.
Qed.

Lemma victims_none c extra M order :
  exceeds c (Z.of_nat (size M)) (total e_charge M + extra) = false -> victims c extra M order = [].
Proof. intros H. destruct order; cbn [victims]; [done|]. by rewrite H. Qed.

Lemma exceeds_enabled c n x : config_ok c -> exceeds c n x = true -> c_lru_enabled c = true.
Proof.
  intros Hc. unfold exceeds. rewrite (cf_enabled c Hc).
  destruct (c_max_keys c =? 0), (c_max_memory c =? 0); done.
Qed.

Lemma without_comm p q L : without p (without q L) = without q (without p L).
Proof.
  unfold without. rewrite !list_filter_filter. apply list_filter_iff. intros x. tauto.
Qed.

Lemma core_total_part L c p e :
  cache_core L c -> c_entries c !! p = Some e -> e_charge e <= total e_charge (c_entries c).
Proof.
  intros H He. pose proof (total_delete e_charge _ p e He) as Ht.
  enough (0 <= total e_charge (delete p (c_entries c))) by lia.
  apply total_nonneg, map_Forall_delete. eapply map_Forall_impl; [apply (cc_entries _ _ H)|].
  intros k x [Hx _]. exact Hx.
Qed.

(** While the limits are exceeded there is a candidate besides the protected
    entry, since that entry alone fits. *)
Lemma evict_step L c p e extra :
  cache_core L c -> c_entries c !! p = Some e ->
  exceeds c 1 (e_charge e + extra) = false ->
  exceeds c (Z.of_nat (size (c_entries c))) (total e_charge (c_entries c) + extra) = true ->
  exists q eq front, eviction_candidate (c_lru c) p = Some q /\ without p L = front ++ [q] /\
    c_entries c !! q = Some eq /\ q <> p /\ without p (without q L) = front.
Proof.
  intros H He Hone Hex. pose proof (exceeds_enabled _ _ _ (cc_config _ _ H) Hex) as Hen.
  pose proof (cc_order _ _ H) as Ho. rewrite Hen in Ho. destruct Ho as [Hr Hd].
  rewrite (eviction_candidate_spec L (c_lru c) p Hr). fold (without p L).
  destruct (without p L) as [|q front _] eqn:Ew using rev_ind.
  - exfalso. assert (HM : c_entries c = {[p := e]}).
    { apply map_eq. intros k. destruct (decide (k = p)) as [->|Hne]; [by rewrite lookup_singleton_eq|].
      rewrite lookup_singleton_ne by done. apply eq_None_not_Some. intros Hk. apply Hd in Hk.
      assert (Hk2 : k ∈ without p L) by (by rewrite elem_of_without). rewrite Ew in Hk2. by apply not_elem_of_nil in Hk2. }
    rewrite HM in Hex. unfold total in Hex. rewrite map_size_singleton, map_fold_singleton in Hex.
    rewrite Z.add_0_r in Hex. change (Z.of_nat 1) with 1 in Hex. congruence.
  - rewrite last_snoc.
    assert (Hq : q ∈ without p L) by (rewrite Ew; apply elem_of_app; right; by apply list_elem_of_singleton).
    apply elem_of_without in Hq as [Hne HqL]. apply Hd in HqL as [eq Heq].
    exists q, eq, front. do 4 (split; [done|]). rewrite without_comm, Ew.
    assert (Hnd : NoDup (without p L)) by (apply NoDup_filter, Hr). rewrite Ew in Hnd.
    apply NoDup_app in Hnd as (_ & Hnd & _). unfold without. rewrite filter_app.
    rewrite filter_keep, filter_cons_False, filter_nil, app_nil_r; [done|naive_solver|].
    intros Hqf. apply (Hnd q Hqf). by apply list_elem_of_singleton.
Qed.

(** The state in which each loop runs: [p] is the protected entry. *)
Record evict_pre (L : list (list Z)) (c : cache) (p : list Z) (e : cache_entry) (extra : Z) (fuel : nat) : Prop := {
  ep_core : cache_core L c;
  ep_entry : c_entries c !! p = Some e;
  ep_new : 0 <= e_charge e + extra;
  ep_fits : exceeds c 1 (e_charge e + extra) = false;
  ep_range : c_max_memory c <> 0 -> total e_charge (c_entries c) + extra <= UINT64_MAX;
  ep_fuel : (length (without p L) < fuel)%nat
}.

(** One iteration re-establishes it. *)
Lemma evict_pre_step L c p e extra fuel :
  evict_pre L c p e extra (S fuel) ->
  exceeds c (Z.of_nat (size (c_entries c))) (total e_charge (c_entries c) + extra) = true ->
  exists q eq, eviction_candidate (c_lru c) p = Some q /\ c_entries c !! q = Some eq /\
    e_charge eq = charge_of c q /\
    wrap64 (wrap64 (total e_charge (c_entries c) + extra) - charge_of c q)
      = wrap64 (total e_charge (delete q (c_entries c)) + extra) /\
    forall reason, let c' := entry_remove c q reason in
      evict_pre (without q L) c' p e extra fuel /\ c_entries c' = delete q (c_entries c) /\
      victims c extra (c_entries c) (rev (without p L))
        = q :: victims c' extra (c_entries c') (rev (without p (without q L))).
Proof.
  intros [Hc He Hnew Hfit Hrng Hfuel] Hex.
  destruct (evict_step L c p e extra Hc He Hfit Hex) as (q & eq & front & Hcand & Hw & Hq & Hne & Hf).
  exists q, eq. do 2 (split; [done|]).
  assert (Hch : charge_of c q = e_charge eq) by (unfold charge_of; by rewrite Hq).
  rewrite Hch. split; [done|].
  pose proof (total_delete e_charge _ q eq Hq) as Hdel.
  assert (Heqc : entry_ok eq) by apply (cc_entries _ _ Hc q eq Hq). destruct Heqc as [Hc0 _].
  assert (Hin : forall reason, cache_core (without q L) (entry_remove c q reason) /\
     c_entries (entry_remove c q reason) = delete q (c_entries c) /\
     settings (entry_remove c q reason) = settings c) by (intros; by apply (entry_remove_spec L c q eq)).
  assert (Hp' : delete q (c_entries c) !! p = Some e) by (by rewrite lookup_delete_ne).
  split; [rewrite wrap64_sub_l; f_equal; lia|].
  intros reason c'. destruct (Hin reason) as (Hc' & He' & Hs'). fold c' in Hc', He', Hs'.
  split; [|split; [done|]].
  - split; [done|by rewrite He'|done|by rewrite (exceeds_settings c c' Hs')| |].
    { injection Hs' as _ Hmm _ _. rewrite Hmm, He'. lia. }
    rewrite Hf. rewrite Hw, length_app in Hfuel. cbn in Hfuel. lia.
  - rewrite Hw, rev_app_distr. cbn [rev app victims]. rewrite Hex. f_equal.
    rewrite Hf, He'. symmetry. by apply victims_settings.
Qed.

(** The wrapped sum decides like the exact one. *)
Lemma limits_exceeded_eq L c p e extra fuel :
  evict_pre L c p e extra fuel ->
  limits_exceeded c (kv_hash_count (c_index c)) (wrap64 (total e_charge (c_entries c) + extra))
  = exceeds c (Z.of_nat (size (c_entries c))) (total e_charge (c_entries c) + extra).
Proof.
  intros [Hc He Hnew _ Hr _]. unfold limits_exceeded, exceeds.
  rewrite (index_count _ _ (cc_index _ _ Hc)). f_equal.
  destruct (Z.eqb_spec (c_max_memory c) 0) as [|Hne]; [done|]. cbn [negb andb].
  pose proof (core_total_part L c p e Hc He). specialize (Hr Hne). rewrite wrap64_small by lia. done.
Qed.

Definition fits (c : cache) (extra : Z) : Prop :=
  exceeds c (Z.of_nat (size (c_entries c))) (total e_charge (c_entries c) + extra) = false.

Lemma evict_for_update_spec fuel clock p e extra L c now :
  evict_pre L c p e extra fuel ->
  exists c' x, evict_for_update fuel clock c p now (wrap64 (total e_charge (c_entries c) + extra)) = (true, c', x) /\
    evicts (victims c extra (c_entries c) (rev (without p L))) c c' /\ fits c' extra.
Proof.
  revert L c now. induction fuel as [|fuel IH]; intros L c now Hp; [destruct Hp; lia|].
  cbn [evict_for_update]. rewrite (limits_exceeded_eq _ _ _ _ _ _ Hp).
  destruct (exceeds c _ _) eqn:Hex.
  - destruct (evict_pre_step L c p e extra fuel Hp Hex) as (q & eq & Hcand & Hq & _ & Hw & Hstep).
    rewrite Hcand, Hw. set (now' := if negb _ && _ then clock else now).
    destruct (Hstep (candidate_reason c now' q)) as (Hp' & He' & Hv). rewrite <- He'.
    destruct (IH _ _ now' Hp') as (c' & x & Heq & Hev & Hfits). exists c', x. split; [exact Heq|].
    split; [|done]. rewrite Hv. by eapply evicts_cons.
  - rewrite victims_none by done. eexists _, _. split; [done|]. split; [constructor|exact Hex].
Qed.

Lemma evict_for_recharge_spec fuel p e extra L c now :
  evict_pre L c p e extra fuel ->
  exists c', evict_for_recharge fuel c p now (wrap64 (total e_charge (c_entries c) + extra))
      = (true, c', wrap64 (total e_charge (c_entries c') + extra)) /\
    evicts (victims c extra (c_entries c) (rev (without p L))) c c' /\ fits c' extra.
Proof.
  revert L c. induction fuel as [|fuel IH]; intros L c Hp; [destruct Hp; lia|].
  cbn [evict_for_recharge]. rewrite (limits_exceeded_eq _ _ _ _ _ _ Hp).
  destruct (exceeds c _ _) eqn:Hex.
  - destruct (evict_pre_step L c p e extra fuel Hp Hex) as (q & eq & Hcand & Hq & _ & Hw & Hstep).
    rewrite Hcand, Hw. destruct (Hstep (candidate_reason c now q)) as (Hp' & He' & Hv). rewrite <- He'.
    destruct (IH _ _ Hp') as (c' & Heq & Hev & Hfits). exists c'. split; [exact Heq|].
    split; [|done]. rewrite Hv. by eapply evicts_cons.
  - rewrite victims_none by done. eexists _. split; [done|]. split; [constructor|exact Hex].
Qed.

Lemma evict_for_insert_spec fuel clock p e L c now :
  evict_pre L c p e 0 fuel ->
  exists c', evict_for_insert fuel clock c p now = (true, c') /\
    evicts (victims c 0 (c_entries c) (rev (without p L))) c c' /\ fits c' 0.
Proof.
  revert L c now. induction fuel as [|fuel IH]; intros L c now Hp; [destruct Hp; lia|].
  cbn [evict_for_insert].
  assert (Hu : c_used c = wrap64 (total e_charge (c_entries c) + 0)).
  { rewrite Z.add_0_r. apply Hp. }
  rewrite Hu, (limits_exceeded_eq _ _ _ _ _ _ Hp). destruct (exceeds c _ _) eqn:Hex.
  - destruct (evict_pre_step L c p e 0 fuel Hp Hex) as (q & eq & Hcand & Hq & _ & Hw & Hstep).
    rewrite Hcand. set (now' := if negb _ && _ then clock else now).
    destruct (Hstep (candidate_reason c now' q)) as (Hp' & He' & Hv).
    destruct (IH _ _ now' Hp') as (c' & Heq & Hev & Hfits). exists c'. split; [exact Heq|].
    split; [|done]. rewrite Hv. by eapply evicts_cons.
  - rewrite victims_none by done. eexists _. split; [done|]. split; [constructor|exact Hex].
Qed.

Lemma victims_prefix c extra M order : exists rest, order = victims c extra M order ++ rest.
Proof.
  revert M. induction order as [|q order IH]; intros M; cbn [victims]; [by exists []|].
  destruct (exceeds c _ _); [|by eexists]. destruct (IH (delete q M)) as [rest Hr].
  exists rest. cbn [app]. by rewrite <- Hr.
Qed.

(** The evicted keys: a tail of the order of use, never the protected one. *)
Definition evicted (c : cache) (L : list (list Z)) (p : list Z) (extra : Z) : list (list Z) :=
  victims c extra (c_entries c) (rev (without p L)).

Lemma evicted_spec L c p extra :
  cache_core L c ->
  NoDup (evicted c L p extra) /\ (p ∉ evicted c L p extra) /\
  (forall q, q ∈ evicted c L p extra -> is_Some (c_entries c !! q)) /\
  (exists keep, without p L = keep ++ rev (evicted c L p extra)).
Proof.
  intros H. unfold evicted.
  destruct (victims_prefix c extra (c_entries c) (rev (without p L))) as [rest Hr].
  set (vs := victims _ _ _ _) in *.
  assert (Hl : without p L = rev rest ++ rev vs) by (by rewrite <- rev_app_distr, <- Hr, rev_involutive).
  assert (HL : NoDup L /\ forall q, q ∈ L -> is_Some (c_entries c !! q)).
  { pose proof (cc_order _ _ H) as Ho. unfold order_ok in Ho. destruct (c_lru_enabled c).
    - destruct Ho as [Hr' Hd]. split; [apply Hr'|]. intros q. by apply Hd.
    - subst L. split; [constructor|]. intros q Hq. by apply not_elem_of_nil in Hq. }
  destruct HL as [Hnd Hd].
  assert (Hin : forall q, q ∈ vs -> q ∈ without p L).
  { intros q Hq. rewrite Hl, elem_of_app, <- (Permutation_rev vs). by right. }
  split; [|split; [|split; [|by exists (rev rest)]]].
  - assert (Hn : NoDup (without p L)) by (by apply NoDup_filter).
    rewrite Hl in Hn. apply NoDup_app in Hn as (_ & _ & Hn). by rewrite <- Permutation_rev in Hn.
  - intros Hp. apply Hin, elem_of_without in Hp as [? _]. done.
  - intros q Hq. apply Hd. by apply Hin, elem_of_without in Hq as [_ ?].
Qed.

Lemma evicts_all L c c' p extra :
  cache_core L c -> evicts (evicted c L p extra) c c' ->
  cache_core (without_all (evicted c L p extra) L) c' /\
  c_entries c' = remove_all (evicted c L p extra) (c_entries c) /\ settings c' = settings c /\
  (room c -> room c').
Proof.
  intros H Hev. destruct (evicted_spec L c p extra H) as (Hn & _ & Hin & _).
  by apply (evicts_spec L _ c).
Qed.

(** ** Changing an entry in place *)

Definition retimed (x : Z) (e : cache_entry) : cache_entry :=
  mk_entry (e_object e) (e_charge e) (e_items e) x.

Lemma insert_dom M p e e' k : M !! p = Some e -> is_Some (<[p := e']> M !! k) <-> is_Some (M !! k).
Proof. intros He. rewrite lookup_insert_is_Some. destruct (decide (p = k)) as [->|]; naive_solver. Qed.

(** An entry replaced by one of the same charge, type and items. *)
Lemma core_replace L c p e e' h :
  cache_core L c -> c_entries c !! p = Some e -> entry_ok e' -> e_charge e' = e_charge e ->
  type_of (e_object e') = type_of (e_object e) -> e_items e' = e_items e ->
  timed_ok (<[p := e']> (c_entries c)) h ->
  cache_core L (with_heap h (with_entries (<[p := e']> (c_entries c)) c)).
Proof.
  intros [H1 H2 H3 H4 H5 H6 H7 H8] He Hok Hc Ht Hi Hh.
  split; cbn [c_index c_entries c_lru c_heap c_used c_stats c_hot c_lru_enabled with_heap with_entries].
  - eapply index_ext; [exact H1|]. intros k. by eapply insert_dom.
  - done.
  - eapply order_ext; [exact H3|]. intros k. by eapply insert_dom.
  - rewrite H4, (total_replace _ _ p e) by done. f_equal. lia.
  - by eapply stats_alter.
  - by apply map_Forall_insert_2.
  - intros q Hq. eapply insert_dom; [done|]. by apply H7.
  - by eapply config_settings; [|exact H8].
Qed.

Lemma core_touch L c p :
  cache_core L c -> is_Some (c_entries c !! p) ->
  cache_core (touched (c_lru_enabled c) p L) (with_lru (lru_touch (c_lru_enabled c) (c_lru c) p) c).
Proof.
  intros [H1 H2 H3 H4 H5 H6 H7 H8] Hp. split; try done; [by apply order_touch|].
  by eapply config_settings; [|exact H8].
Qed.

Lemma core_heap L c h : cache_core L c -> timed_ok (c_entries c) h -> cache_core L (with_heap h c).
Proof. intros [] ?. split; try done. by eapply config_settings; [|eassumption]. Qed.

Lemma core_lookup_stats L c b : cache_core L c -> cache_core L (with_stats (count_lookup b (c_stats c)) c).
Proof.
  intros [H1 H2 H3 H4 H5 H6 H7 H8]. split; try done; [by apply stats_lookup|].
  by eapply config_settings; [|exact H8].
Qed.

Lemma alter_found M p e (g : cache_entry -> cache_entry) : M !! p = Some e -> alter g p M = <[p := g e]> M.
Proof. intros He. rewrite <- (insert_id _ _ _ He) at 1. by rewrite alter_insert_eq. Qed.

Lemma set_expire_eq c p e x :
  c_entries c !! p = Some e -> set_expire p x c = with_entries (<[p := retimed x e]> (c_entries c)) c.
Proof. intros He. unfold set_expire. by erewrite alter_found. Qed.

Lemma expire_in_retimed M p e x q :
  M !! p = Some e -> expire_in (<[p := retimed x e]> M) q = if decide (q = p) then x else expire_in M q.
Proof.
  intros He. unfold expire_in. rewrite lookup_insert. destruct (decide (p = q)), (decide (q = p)); congruence || done.
Qed.

(** The heap after the expiration time of [p] became [x]. *)
Definition reheap (M : entries) (p : list Z) (e : cache_entry) (x : Z) (h : expire_heap) : expire_heap :=
  if negb (e_expire e =? 0) && (x =? 0) then unheaped M p h else
  if (e_expire e =? 0) && negb (x =? 0) then heap_insert_reserved (expire_in (<[p := retimed x e]> M)) h p else
  if negb (e_expire e =? 0) && negb (x =? 0) then heap_expiration_changed (expire_in (<[p := retimed x e]> M)) h p
  else h.

Lemma timed_reheap M p e x h :
  timed_ok M h -> M !! p = Some e ->
  (e_expire e = 0 -> x <> 0 -> Z.of_nat (heap_count h) + 1 <= eh_capacity h) ->
  timed_ok (<[p := retimed x e]> M) (reheap M p e x h).
Proof.
  intros Hh He Hc. assert (Hp : expire_in M p = e_expire e) by (unfold expire_in; by rewrite He).
  pose proof (expire_in_retimed M p e x) as Hx.
  assert (Hsame : forall q, q <> p -> expire_in (<[p := retimed x e]> M) q = expire_in M q)
    by (intros q Hq; rewrite Hx by done; by rewrite decide_False).
  assert (Hxp : expire_in (<[p := retimed x e]> M) p = x) by (rewrite Hx by done; by rewrite decide_True).
  unfold reheap. destruct (Z.eqb_spec (e_expire e) 0), (Z.eqb_spec x 0); cbn [negb andb].
  - apply (timed_ext M _ h p); [done|done|congruence].
  - apply (timed_insert M); [done|done|congruence|congruence|by apply Hc].
  - apply (timed_unheap M); [done|done|congruence].
  - apply (timed_changed M); [done|done|congruence|congruence].
Qed.

Lemma update_expiration_eq c p e x :
  c_entries c !! p = Some e ->
  update_expiration c p x =
  with_lru (lru_touch (c_lru_enabled c) (c_lru c) p)
    (with_heap (reheap (c_entries c) p e x (c_heap c))
       (with_entries (<[p := retimed x e]> (c_entries c)) c)).
Proof.
  intros He. unfold update_expiration.
  assert (Hp : expire_of c p = e_expire e) by (unfold expire_of; by rewrite He). rewrite Hp.
  pose proof (set_expire_eq c p e x He) as Hs. rewrite !Hs. unfold reheap.
  rewrite unheap_eq. destruct c as [ix M s hp u mk mm cb calls st hot en]. cbn [c_entries] in He.
  assert (He2 : <[p := retimed x e]> M !! p = Some (retimed x e)) by apply lookup_insert_eq.
  destruct (e_expire e =? 0), (x =? 0); cbn [negb andb];
    first [rewrite (set_expire_eq _ p e x) by exact He; reflexivity
          |rewrite (set_expire_eq _ p (retimed x e) x) by exact He2;
           cbn [c_entries with_entries with_heap]; rewrite insert_insert_eq; reflexivity].
Qed.

Lemma update_expiration_spec L c p e x :
  cache_core L c -> c_entries c !! p = Some e -> u64_ok x ->
  (e_expire e = 0 -> x <> 0 -> room c) ->
  cache_core (touched (c_lru_enabled c) p L) (update_expiration c p x) /\
  c_entries (update_expiration c p x) = <[p := retimed x e]> (c_entries c) /\
  settings (update_expiration c p x) = settings c.
Proof.
  intros H He Hx Hc. rewrite (update_expiration_eq c p e x He). split; [|done].
  destruct (cc_entries _ _ H p e He) as (Ha & _ & Hb).
  match goal with |- cache_core _ (with_lru _ ?c1) => apply (core_touch L c1 p) end.
  - apply core_replace with e; try done. apply timed_reheap; [apply H|done|done].
  - cbn [c_entries with_heap with_entries]. rewrite lookup_insert_eq. by eexists.
Qed.

(** ** Storing *)

Lemma nodup_size (M : entries) (l : list (list Z)) :
  NoDup l -> (forall q, q ∈ l -> is_Some (M !! q)) -> (length l <= size M)%nat.
Proof.
  intros Hn Hl. rewrite <- size_dom, <- (size_list_to_set (C := gset (list Z)) l Hn).
  apply subseteq_size. intros q Hq%elem_of_list_to_set. apply elem_of_dom. by apply Hl.
Qed.

Lemma core_fuel L c p : cache_core L c -> (length (without p L) < evict_fuel c)%nat.
Proof.
  intros H. unfold evict_fuel. pose proof (length_filter (fun q => q <> p) L).
  enough (length L <= size (c_entries c))%nat by (unfold without; lia).
  pose proof (cc_order _ _ H) as Ho. unfold order_ok in Ho. destruct (c_lru_enabled c); [|subst; cbn; lia].
  destruct Ho as [Hr Hd]. apply nodup_size; [apply Hr|]. intros q. by apply Hd.
Qed.

Lemma core_heap_count L c : cache_core L c -> (heap_count (c_heap c) <= size (c_entries c))%nat.
Proof.
  intros H. apply nodup_size; [eapply indexed_nodup, tm_heap, H|].
  intros q Hq. apply (tm_members _ _ (cc_timed _ _ H)) in Hq. unfold expire_in in Hq.
  destruct (c_entries c !! q); [by eexists|done].
Qed.

Lemma victims_replace c M p e e' order :
  M !! p = Some e -> p ∉ order ->
  victims c (e_charge e' - e_charge e) M order = victims c 0 (<[p := e']> M) order.
Proof.
  revert M. induction order as [|q order IH]; intros M He Hp; cbn [victims]; [done|].
  apply not_elem_of_cons in Hp as [Hpq Hp].
  rewrite map_size_insert_Some by by eexists. rewrite (total_replace _ _ p e) by done.
  replace (total e_charge M - e_charge e + e_charge e' + 0)
    with (total e_charge M + (e_charge e' - e_charge e)) by lia.
  destruct (exceeds c _ _); [|done]. f_equal. rewrite delete_insert_ne by done.
  apply IH; [|done]. by rewrite lookup_delete_ne.
Qed.

Lemma remove_all_insert ks M p e : p ∉ ks -> remove_all ks (<[p := e]> M) = <[p := e]> (remove_all ks M).
Proof.
  intros Hp. apply map_eq. intros k. rewrite lookup_insert, !remove_all_lookup, lookup_insert.
  destruct (decide (p = k)) as [->|]; [by rewrite decide_False|done].
Qed.

Lemma remove_all_nil M : remove_all [] M = M.
Proof. done. Qed.

(** What a successful store leaves: the new binding, and the victims that the
    reference definition selects for it. *)
Definition store_done (L : list (list Z)) (c : cache) (key : list Z) (e' : cache_entry) (c' : cache) : Prop :=
  let M' := <[key := e']> (c_entries c) in
  let vs := victims c 0 M' (rev (without key L)) in
  c_entries c' = remove_all vs M' /\
  cache_ok (touched (c_lru_enabled c) key (without_all vs L)) c' /\ settings c' = settings c.

Lemma store_done_ext L c1 c key e' c' :
  settings c1 = settings c -> c_entries c1 = c_entries c -> store_done L c1 key e' c' -> store_done L c key e' c'.
Proof.
  intros Hs HM. unfold store_done. rewrite (victims_settings c c1 _ _ _ Hs), HM, Hs.
  by injection Hs as _ _ _ ->.
Qed.

Lemma not_in_victims c extra M p L : p ∉ victims c extra M (rev (without p L)).
Proof.
  intros Hp. destruct (victims_prefix c extra M (rev (without p L))) as [rest Hr].
  assert (Hin : p ∈ rev (without p L)) by (rewrite Hr; apply elem_of_app; by left).
  rewrite <- Permutation_rev in Hin. apply elem_of_without in Hin as [? _]. done.
Qed.

Lemma ok_within L c : cache_ok L c -> fits c 0.
Proof. intros [_ H]. unfold fits. by rewrite Z.add_0_r. Qed.

(** In place: the charge does not change, so nothing is evicted. *)
Lemma store_inplace L c p e o' x :
  cache_ok L c -> c_entries c !! p = Some e -> u64_ok x -> 0 <= memory_usage o' ->
  type_of o' = type_of (e_object e) ->
  (e_expire e = 0 -> x <> 0 -> room c) ->
  store_done L c p (mk_entry o' (e_charge e) (e_items e) x) (update_expiration (set_object p o' c) p x).
Proof.
  intros [H Hl] He Hx Ho Ht Hc. pose proof (cc_entries _ _ H p e He) as (Ha & Hb & _).
  set (e1 := mk_entry o' (e_charge e) (e_items e) (e_expire e)).
  assert (Hset : set_object p o' c = with_heap (c_heap c) (with_entries (<[p := e1]> (c_entries c)) c)).
  { unfold set_object. by erewrite alter_found. }
  assert (H1 : cache_core L (set_object p o' c)).
  { rewrite Hset. apply core_replace with e; try done.
    apply (timed_ext (c_entries c) _ _ p); [apply H|intros; by apply expire_in_insert|].
    unfold expire_in. by rewrite lookup_insert_eq, He. }
  assert (He1 : c_entries (set_object p o' c) !! p = Some e1) by (rewrite Hset; apply lookup_insert_eq).
  destruct (update_expiration_spec L _ p e1 x H1 He1 Hx) as (H2 & HM & Hs); [by rewrite Hset|].
  rewrite Hset in HM at 2. cbn [c_entries with_heap with_entries] in HM. rewrite insert_insert_eq in HM.
  change (retimed x e1) with (mk_entry o' (e_charge e) (e_items e) x) in HM.
  set (e' := mk_entry o' (e_charge e) (e_items e) x) in *.
  assert (Hfit : exceeds c (Z.of_nat (size (<[p := e']> (c_entries c)))) (total e_charge (<[p := e']> (c_entries c)) + 0) = false).
  { rewrite map_size_insert_Some by by eexists. rewrite (total_replace _ _ p e) by done. cbn [e_charge e'].
    replace (_ - _ + _ + 0) with (total e_charge (c_entries c)) by lia. exact Hl. }
  unfold store_done. rewrite victims_none, without_all_nil, remove_all_nil by done.
  split; [done|]. split; [split; [done|]|by rewrite Hs, Hset].
  unfold within_limits. rewrite HM, (exceeds_settings c) by (by rewrite Hs, Hset). by rewrite Z.add_0_r in Hfit.
Qed.

(** The entry of [p] gets another object: accounting. *)
Lemma core_new_object L c p e e2 :
  cache_core L c -> c_entries c !! p = Some e -> entry_ok e2 -> e_expire e2 = e_expire e ->
  cache_core L
    (with_entries (<[p := e2]> (c_entries c))
       (stats_add_object (e_object e2) (e_items e2)
          (stats_remove_object (e_object e) (e_items e)
             (with_used (c_used c - e_charge e + e_charge e2) c)))).
Proof.
  intros [H1 H2 H3 H4 H5 H6 H7 H8] He Hok Hx.
  split; cbn [c_index c_entries c_lru c_heap c_used c_stats c_hot c_lru_enabled with_entries with_stats
              with_used stats_add_object stats_remove_object].
  - eapply index_ext; [exact H1|]. intros k. by eapply insert_dom.
  - apply (timed_ext (c_entries c) _ _ p); [done|intros; by apply expire_in_insert|].
    unfold expire_in. by rewrite lookup_insert_eq, He.
  - eapply order_ext; [exact H3|]. intros k. by eapply insert_dom.
  - rewrite H4, wrap64_sub_add. by rewrite (total_replace _ _ p e).
  - rewrite <- insert_delete_eq. apply stats_insert_ok; [|apply lookup_delete_eq]. by apply stats_remove_ok.
  - by apply map_Forall_insert_2.
  - intros q Hq. eapply insert_dom; [done|]. by apply H7.
  - by eapply config_settings; [|exact H8].
Qed.

Lemma within_range c n x : exceeds c n x = false -> c_max_memory c <> 0 -> x <= c_max_memory c.
Proof.
  unfold exceeds. intros [_ H]%orb_false_iff Hne.
  destruct (Z.eqb_spec (c_max_memory c) 0); [done|]. cbn in H. zb. lia.
Qed.

Lemma evict_pre_intro L c p e extra :
  cache_ok L c -> c_entries c !! p = Some e -> 0 <= e_charge e + extra ->
  exceeds c 1 (e_charge e + extra) = false -> evict_pre L c p e extra (evict_fuel c).
Proof.
  intros [H Hl] He Hn Hf. split; try done; [|by apply core_fuel].
  intros Hne. pose proof (within_range _ _ _ Hl Hne). pose proof (within_range _ _ _ Hf Hne).
  pose proof (cf_memory _ (cc_config _ _ H)). destruct (cc_entries _ _ H p e He) as [? _].
  pose proof (core_total_part L c p e H He). zlia.
Qed.

Lemma store_replaced L c p e o x clock now nc ni :
  cache_ok L c -> c_entries c !! p = Some e -> u64_ok x -> 0 <= memory_usage o -> 0 <= nc ->
  exceeds c 1 nc = false -> (e_expire e = 0 -> x <> 0 -> room c) ->
  exists c1 y, evict_for_update (evict_fuel c) clock c p now (wrap64 (c_used c - e_charge e + nc)) = (true, c1, y) /\
    store_done L c p (mk_entry o nc ni x)
      (update_expiration
         (with_entries (<[p := mk_entry o nc ni (e_expire e)]> (c_entries c1))
            (stats_add_object o ni
               (stats_remove_object (e_object e) (e_items e)
                  (with_used (c_used c1 - e_charge e + nc) c1)))) p x).
Proof.
  intros Hok He Hx Ho Hnc Hfit Hroom. destruct Hok as [H Hl].
  pose proof (evict_pre_intro L c p e (nc - e_charge e) (conj H Hl) He) as Hpre.
  replace (e_charge e + (nc - e_charge e)) with nc in Hpre by lia. specialize (Hpre Hnc Hfit).
  replace (wrap64 (c_used c - e_charge e + nc)) with (wrap64 (total e_charge (c_entries c) + (nc - e_charge e))).
  2:{ rewrite (cc_used _ _ H), wrap64_sub_add. f_equal. lia. }
  destruct (evict_for_update_spec _ clock p e (nc - e_charge e) L c now Hpre) as (c1 & y & Heq & Hev & Hfits).
  exists c1, y. split; [done|]. fold (evicted c L p (nc - e_charge e)) in Hev.
  destruct (evicts_all L c c1 p _ H Hev) as (H1 & HM1 & Hs1 & Hr1).
  pose proof (evicted_spec L c p (nc - e_charge e) H) as (_ & Hnp & _ & _).
  set (vs := evicted c L p (nc - e_charge e)) in *. set (e2 := mk_entry o nc ni (e_expire e)).
  assert (He1 : c_entries c1 !! p = Some e) by (by rewrite HM1, remove_all_lookup, decide_False).
  destruct (cc_entries _ _ H p e He) as (_ & Hxe & _).
  pose proof (core_new_object (without_all vs L) c1 p e e2 H1 He1) as H2.
  specialize (H2 ltac:(by split_and!) eq_refl). cbn [e2 e_object e_charge e_items] in H2. fold e2 in H2.
  set (c2 := with_entries _ _) in *.
  destruct (update_expiration_spec (without_all vs L) c2 p e2 x H2) as (H3 & HM3 & Hs3); [apply lookup_insert_eq|done| |].
  { intros Hz Hnz. by apply Hr1, Hroom. }
  change (c_entries c2) with (<[p := e2]> (c_entries c1)) in HM3. rewrite insert_insert_eq, HM1 in HM3.
  change (retimed x e2) with (mk_entry o nc ni x) in HM3. set (e' := mk_entry o nc ni x) in *.
  assert (Hvs : victims c 0 (<[p := e']> (c_entries c)) (rev (without p L)) = vs).
  { rewrite <- (victims_replace c _ p e e'); [done|done|].
    rewrite <- Permutation_rev, elem_of_without. naive_solver. }
  unfold store_done. rewrite Hvs, remove_all_insert by done.
  assert (Hen : c_lru_enabled c2 = c_lru_enabled c) by (by injection Hs1). rewrite Hen in H3.
  assert (Hs : settings (update_expiration c2 p x) = settings c) by (by rewrite Hs3).
  split; [done|]. split; [split; [done|]|done].
  unfold within_limits. rewrite (exceeds_settings _ _ Hs), HM3. rewrite <- HM1.
  rewrite map_size_insert_Some by by eexists. rewrite (total_replace _ _ p e) by done.
  unfold fits in Hfits. rewrite (exceeds_settings _ _ Hs1) in Hfits. rewrite <- Hfits. f_equal. cbn. lia.
Qed.

(** Growing the heap for one more member. *)
Lemma cache_reserve_spec L m c :
  cache_ok L c ->
  let '(r, h, m') := heap_reserve m (c_heap c) (Z.of_nat (heap_count (c_heap c)) + 1) in
  cache_ok L (with_heap h c) /\ (r = 0 /\ room (with_heap h c) \/ r = -1) /\
  (m = [] -> Z.of_nat (size (c_entries c)) < 2 ^ 59 -> r = 0 /\ m' = []).
Proof.
  intros [H Hl]. pose proof (timed_reserve m _ _ (cc_timed _ _ H)) as Ht.
  pose proof (core_heap_count L c H) as Hcnt.
  assert (Hs : m = [] -> Z.of_nat (size (c_entries c)) < 2 ^ 59 ->
    (heap_reserve [] (c_heap c) (Z.of_nat (heap_count (c_heap c)) + 1)).1.1 = 0).
  { intros _ Hb. apply heap_reserve_succeeds; [eapply timed_capacity, H|lia]. }
  destruct (heap_reserve m _ _) as [[r h] m'] eqn:E. destruct Ht as [Ht Hr].
  split; [split; [by apply core_heap|done]|]. split; [exact Hr|].
  intros -> Hb. specialize (Hs eq_refl Hb). rewrite E in Hs. split; [done|].
  revert E. unfold heap_reserve. cbn [malloc]. repeat case_match; intros; simplify_eq; done.
Qed.

(** The new entry of a key: the object as given, or, when both objects are
    strings and the new value fits, the old object with the new value. *)
Definition stored_entry (o : kv_object) (nc x : Z) (old : option cache_entry) (e' : cache_entry) : Prop :=
  e_expire e' = x /\
  (e_object e' = o /\ e_charge e' = nc /\ e_items e' = object_item_count o \/
   exists e v, old = Some e /\ kv_object_string_value o = Some v /\
     kv_object_string_value (e_object e') = Some v /\ e_charge e' = e_charge e /\ e_items e' = e_items e).

(** The outcome of a store that passed the size check: done, or failed for
    want of memory with the entries as they were. *)
Definition store_outcome (L : list (list Z)) (m : mem) (c : cache) (key : list Z) (o : kv_object) (nc x : Z)
    (old : option cache_entry) (r : cache_set_result) (c' : cache) : Prop :=
  r = CACHE_SET_OK /\ (exists e', stored_entry o nc x old e' /\ store_done L c key e' c') \/
  r = CACHE_SET_ERROR /\ cache_ok L c' /\ c_entries c' = c_entries c /\ settings c' = settings c /\
    (m = [] -> 2 ^ 59 <= Z.of_nat (size (c_entries c)) \/ 2 ^ 62 <= zlen key).

Lemma store_existing_spec L m clock c p e o now x nc :
  cache_ok L c -> c_entries c !! p = Some e -> u64_ok x -> 0 <= memory_usage o -> 0 <= nc ->
  exceeds c 1 nc = false ->
  let '(r, c', m') := store_existing m clock c p o now x nc (object_item_count o) in
  store_outcome L m c p o nc x (Some e) r c'.
Proof.
  intros Hok He Hx Ho Hnc Hfit. unfold store_existing.
  assert (Hxe : expire_of c p = e_expire e) by (unfold expire_of; by rewrite He). rewrite Hxe.
  destruct (if negb (x =? 0) && (e_expire e =? 0) then _ else _) as [[r h] m1] eqn:Er.
  assert (Hres : cache_ok L (with_heap h c) /\
    (r = 0 /\ (e_expire e = 0 -> x <> 0 -> room (with_heap h c)) \/
     r = -1 /\ (m = [] -> 2 ^ 59 <= Z.of_nat (size (c_entries c))))).
  { pose proof (cache_reserve_spec L m c Hok) as Hr. destruct (negb (x =? 0) && (e_expire e =? 0)) eqn:Ec.
    - rewrite Er in Hr. destruct Hr as (H1 & [[-> H2]| ->] & H3); split; try done; [by left|].
      right. split; [done|]. intros Hm. specialize (H3 Hm).
      destruct (Z_lt_le_dec (Z.of_nat (size (c_entries c))) (2 ^ 59)) as [Hlt|]; [|done].
      by destruct (H3 Hlt).
    - injection Er as <- <- <-. split; [by destruct c|]. left. split; [done|]. intros Hz Hnz.
      apply Z.eqb_eq in Hz. apply Z.eqb_neq in Hnz. by rewrite Hz, Hnz in Ec. }
  clear Er. destruct Hres as [Hok1 [[-> Hroom]|[-> Hm]]]; cbn [Z.eqb negb].
  2:{ right. split_and!; try done. intros E. left. by apply Hm. }
  change (c_entries (with_heap h c)) with (c_entries c). rewrite He.
  assert (Hmain : forall (y : Z * kv_object), y.1 = 0 \/ (y.1 = 1 /\ type_of y.2 = type_of (e_object e) /\
      0 <= memory_usage y.2 /\ exists v, kv_object_string_value o = Some v /\ kv_object_string_value y.2 = Some v) ->
    let '(r0, c', m') := (let '(updated, object) := y in
      if updated <? 0 then (CACHE_SET_ERROR, with_heap h c, m1) else
      if updated >? 0 then (CACHE_SET_OK, update_expiration (set_object p object (with_heap h c)) p x, m1) else
      let '(ok, c2, _) := evict_for_update (evict_fuel (with_heap h c)) clock (with_heap h c) p now
          (wrap64 (c_used (with_heap h c) - e_charge e + nc)) in
      if negb ok then (CACHE_SET_CAPACITY, c2, m1) else
      (CACHE_SET_OK, update_expiration
         (with_entries (<[p := mk_entry o nc (object_item_count o) (e_expire e)]> (c_entries c2))
            (stats_add_object o (object_item_count o) (stats_remove_object (e_object e) (e_items e)
                  (with_used (c_used c2 - e_charge e + nc) c2)))) p x, m1)) in
    store_outcome L m c p o nc x (Some e) r0 c').
  { intros [u o'] [Hu|(Hu & Ht & Hmu & v & Hv1 & Hv2)]; cbn [fst snd] in *; subst u.
    - change (0 <? 0) with false. change (0 >? 0) with false. cbn iota.
      destruct (store_replaced L (with_heap h c) p e o x clock now nc (object_item_count o) Hok1 He Hx Ho Hnc Hfit Hroom)
        as (c1 & z & Heq & Hd).
      rewrite Heq. cbn [negb]. left. split; [done|]. eexists. split; [|exact (store_done_ext L (with_heap h c) c _ _ _ eq_refl eq_refl Hd)].
      split; [done|]. left. done.
    - change (1 <? 0) with false. change (1 >? 0) with true. cbn iota. left. split; [done|].
      pose proof (store_inplace L (with_heap h c) p e o' x Hok1 He Hx Hmu Ht Hroom) as Hd.
      eexists. split; [|exact (store_done_ext L (with_heap h c) c _ _ _ eq_refl eq_refl Hd)].
      split; [done|]. right. by exists e, v. }
  destruct (cc_entries _ _ (proj1 Hok) p e He) as (_ & _ & Hmu).
  apply (Hmain (match kv_object_string_value (e_object e), kv_object_string_value o with
        | Some _, Some value => kv_object_string_update (e_object e) (Some value)
        | _, _ => (0, e_object e) end)).
  destruct (kv_object_string_value (e_object e)) as [v0|] eqn:Ev0; [|by left].
  destruct (kv_object_string_value o) as [v|] eqn:Ev; [|by left].
  unfold kv_object_string_update. revert Ev0. unfold kv_object_string_value, type_of.
  destruct (o_value (e_object e)); intros [= ->]. destruct (_ >? _); [by left|]. right.
  split; [done|]. split; [done|]. split; [done|]. by exists v.
Qed.

Lemma without_idemp p L : without p (without p L) = without p L.
Proof. unfold without at 1. apply filter_keep. rewrite elem_of_without. naive_solver. Qed.

Lemma without_touched b p L : without p (touched b p L) = without p L.
Proof.
  destruct b; cbn [touched]; [|done]. unfold without at 1.
  rewrite filter_cons_False by naive_solver. apply without_idemp.
Qed.

Lemma without_all_touched b ks p L : p ∉ ks -> without_all ks (touched b p L) = touched b p (without_all ks L).
Proof.
  intros Hp. destruct b; cbn [touched]; [|done]. unfold without_all at 1. rewrite filter_cons_True by done.
  f_equal. unfold without, without_all. rewrite !list_filter_filter. apply list_filter_iff. tauto.
Qed.

(** The state after a new entry was linked everywhere. *)
Definition added (c : cache) (ix : hashtable (list Z)) (key : list Z) (e' : cache_entry) : cache :=
  mk_cache ix (<[key := e']> (c_entries c)) (lru_link_head (c_lru_enabled c) (c_lru c) key)
    (if negb (e_expire e' =? 0)
     then heap_insert_reserved (expire_in (<[key := e']> (c_entries c))) (c_heap c) key else c_heap c)
    (wrap64 (c_used c + e_charge e')) (c_max_keys c) (c_max_memory c) (c_on_evict c) (c_calls c)
    (count_object 1 (e_object e') (e_items e') (c_stats c)) (c_hot c) (c_lru_enabled c).

Lemma core_added L c ix key e' :
  cache_core L c -> c_entries c !! key = None -> index_ok (<[key := e']> (c_entries c)) ix -> entry_ok e' ->
  (e_expire e' <> 0 -> room c) -> cache_core (touched (c_lru_enabled c) key L) (added c ix key e').
Proof.
  intros [H1 H2 H3 H4 H5 H6 H7 H8] Hk Hix Hok Hroom.
  assert (Hz : expire_in (c_entries c) key = 0) by (unfold expire_in; by rewrite Hk).
  assert (Hz' : expire_in (<[key := e']> (c_entries c)) key = e_expire e') by (unfold expire_in; by rewrite lookup_insert_eq).
  split; cbn [c_index c_entries c_lru c_heap c_used c_stats c_hot c_lru_enabled added].
  - done.
  - destruct (Z.eqb_spec (e_expire e') 0) as [Hx|Hx]; cbn [negb].
    + apply (timed_ext (c_entries c) _ _ key); [done|intros; by apply expire_in_insert|congruence].
    + apply (timed_insert (c_entries c)); [done|intros; by apply expire_in_insert|done|congruence|by apply Hroom].
  - by apply order_link.
  - rewrite H4, wrap64_add_l, total_insert by done. f_equal. lia.
  - by apply stats_insert_ok.
  - by apply map_Forall_insert_2.
  - intros q Hq. apply lookup_insert_is_Some'. right. by apply H7.
  - by eapply config_settings; [|exact H8].
Qed.

Lemma added_evict L c ix key e' clock now :
  cache_ok L c -> c_entries c !! key = None -> index_ok (<[key := e']> (c_entries c)) ix -> entry_ok e' ->
  (e_expire e' <> 0 -> room c) -> exceeds c 1 (e_charge e') = false ->
  exists c', evict_for_insert (evict_fuel (added c ix key e')) clock (added c ix key e') key now = (true, c') /\
    store_done L c key e' c'.
Proof.
  intros [H Hl] Hk Hix Hok Hroom Hfit. set (c1 := added c ix key e').
  assert (H1 : cache_core (touched (c_lru_enabled c) key L) c1) by (by apply core_added).
  assert (He : c_entries c1 !! key = Some e') by apply lookup_insert_eq.
  assert (Hs1 : settings c1 = settings c) by done.
  assert (Hpre : evict_pre (touched (c_lru_enabled c) key L) c1 key e' 0 (evict_fuel c1)).
  { destruct Hok as (Hc0 & _ & _). split; [done|done|lia|by rewrite Z.add_0_r| |by apply core_fuel].
    intros Hne. change (c_max_memory c1) with (c_max_memory c) in Hne.
    pose proof (within_range _ _ _ Hl Hne). pose proof (within_range _ _ _ Hfit Hne).
    pose proof (cf_memory _ (cc_config _ _ H)). change (c_entries c1) with (<[key := e']> (c_entries c)).
    rewrite total_insert by done. zlia. }
  destruct (evict_for_insert_spec _ clock key e' _ c1 now Hpre) as (c' & Heq & Hev & Hfits).
  exists c'. split; [done|]. fold (evicted c1 (touched (c_lru_enabled c) key L) key 0) in Hev.
  destruct (evicts_all _ c1 c' key 0 H1 Hev) as (H2 & HM & Hs & _).
  assert (Hvs : evicted c1 (touched (c_lru_enabled c) key L) key 0
              = victims c 0 (<[key := e']> (c_entries c)) (rev (without key L))).
  { unfold evicted. rewrite without_touched. by apply victims_settings. }
  rewrite Hvs, without_all_touched in H2 by apply not_in_victims. rewrite Hvs in HM.
  unfold store_done. split; [done|]. split; [split; [done|]|congruence].
  unfold within_limits. unfold fits in Hfits. by rewrite Z.add_0_r in Hfits.
Qed.

Lemma store_new_spec L m clock c key o now x nc :
  cache_ok L c -> c_entries c !! key = None -> u64_ok x -> 0 <= memory_usage o -> 0 <= nc ->
  exceeds c 1 nc = false ->
  let '(r, c', m') := store_new m clock c key o now x nc (object_item_count o) in
  store_outcome L m c key o nc x None r c'.
Proof.
  intros Hok Hk Hx Ho Hnc Hfit. unfold store_new.
  destruct (if negb (x =? 0) then _ else _) as [[r h] m1] eqn:Er.
  assert (Hres : cache_ok L (with_heap h c) /\
    (r = 0 /\ (x <> 0 -> room (with_heap h c)) \/ r = -1) /\
    (m = [] -> Z.of_nat (size (c_entries c)) < 2 ^ 59 -> r = 0 /\ m1 = [])).
  { pose proof (cache_reserve_spec L m c Hok) as Hr. destruct (Z.eqb_spec x 0) as [|Hz]; cbn [negb] in Er.
    - injection Er as <- <- <-. split; [by destruct c|]. split; [by left|done].
    - rewrite Er in Hr. destruct Hr as (H1 & [[-> H2]| ->] & H3); split_and!; auto. }
  clear Er. destruct Hres as (Hok1 & Hr & Hm). set (c1 := with_heap h c) in *.
  assert (Herr : forall c', cache_ok L c' -> c_entries c' = c_entries c -> settings c' = settings c ->
    ~ (m = [] /\ Z.of_nat (size (c_entries c)) < 2 ^ 59 /\ zlen key < 2 ^ 62) ->
    store_outcome L m c key o nc x None CACHE_SET_ERROR c').
  { intros c' ? ? ? Hne. right. split_and!; try done. intros ->.
    destruct (Z_lt_le_dec (Z.of_nat (size (c_entries c))) (2 ^ 59)), (Z_lt_le_dec (zlen key) (2 ^ 62)); tauto. }
  destruct Hr as [[-> Hroom]| ->]; cbn [Z.eqb negb].
  2:{ apply Herr; try done. intros (Ha & Hb & _). by destruct (Hm Ha Hb). }
  destruct (malloc m1) as [ok m2] eqn:Em. destruct ok; cbn [negb].
  2:{ apply Herr; try done. intros (Ha & Hb & _). destruct (Hm Ha Hb) as [_ ->]. done. }
  set (e' := mk_entry o nc (object_item_count o) x).
  pose proof (index_insert m2 (c_entries c) (c_index c1) key e' (cc_index _ _ (proj1 Hok1))) as Hi.
  pose proof (insert_succeeds (c_index c1) key key) as Hsucc.
  destruct (kv_hash_insert m2 (c_index c1) (Some key) key) as [[[ri n] ix] m3] eqn:Ei.
  destruct Hi as [(-> & _ & Hix)|(-> & Hix)]; cbn [Z.eqb negb].
  - destruct (added_evict L c1 ix key e' clock now Hok1 Hk Hix) as (c' & Heq & Hd); [by split_and!|done|done|].
    match goal with |- context [evict_for_insert _ _ ?c5 _ _] => assert (Hc5 : c5 = added c1 ix key e') end.
    { unfold added, e'. cbn [e_expire]. destruct (x =? 0); reflexivity. }
    rewrite Hc5, Heq. left. split; [done|]. exists e'.
    split; [|exact (store_done_ext L c1 c _ _ _ eq_refl eq_refl Hd)]. split; [done|]. by left.
  - apply Herr; [|done|done|].
    + destruct Hok1 as [H1 Hl1]. split; [by apply core_index|done].
    + intros (Ha & Hb & Hc). destruct (Hm Ha Hb) as [_ ->]. injection Em as <-.
      destruct Hsucc as [Hs0 _]; [apply (proj1 Hok1)| |change (hcount (c_index c1)) with (kv_hash_count (c_index c1))|done|].
      * by apply (index_none (c_entries c)); [apply (proj1 Hok1)|].
      * rewrite (index_count (c_entries c)); [done|apply (proj1 Hok1)].
      * rewrite Ei in Hs0. done.
Qed.

Definition oversized (c : cache) (key : list Z) (o : kv_object) : bool :=
  (entry_memory_charge (zlen key) o =? SIZE_MAX) ||
  (negb (c_max_memory c =? 0) && (entry_memory_charge (zlen key) o >? c_max_memory c)).

Lemma charge_nonneg (key : list Z) o : 0 <= memory_usage o -> 0 <= entry_memory_charge (zlen key) o.
Proof.
  intros Ho. unfold entry_memory_charge, kv_hash_node_memory_for_key, kv_object_memory_usage.
  pose proof (zlen_nonneg key). unfold SIZEOF_CACHE_ENTRY, SIZEOF_HASH_NODE.
  repeat zif; zlia.
Qed.

Lemma oversized_fits c key o :
  config_ok c -> oversized c key o = false -> exceeds c 1 (entry_memory_charge (zlen key) o) = false.
Proof.
  intros Hc [_ Hm]%orb_false_iff. unfold exceeds. rewrite Hm, orb_false_r.
  pose proof (cf_keys c Hc). destruct (Z.eqb_spec (c_max_keys c) 0); [done|]. cbn [negb andb].
  destruct (Z.gtb_spec 1 (c_max_keys c)); [lia|done].
Qed.

(** The entries without the binding of an expired [k]. *)
Definition purge (M : entries) (now : Z) (k : list Z) : entries :=
  match live_entry M now k with Some _ => M | None => delete k M end.

Definition purge_order (M : entries) (now : Z) (k : list Z) (L : list (list Z)) : list (list Z) :=
  match live_entry M now k with Some _ => L | None => without k L end.

(** The expiration time a store gives. *)
Definition target_expire (old : option cache_entry) (preserve : bool) (x : Z) : Z :=
  match old with Some e => if preserve then e_expire e else x | None => x end.

Lemma ok_delete L c c' p :
  cache_ok L c -> cache_core (without p L) c' -> c_entries c' = delete p (c_entries c) ->
  settings c' = settings c -> cache_ok (without p L) c'.
Proof.
  intros [H Hl] Hc HM Hs. split; [done|]. unfold within_limits. rewrite (exceeds_settings _ _ Hs), HM.
  destruct (c_entries c !! p) as [e|] eqn:He; [|by rewrite delete_id].
  pose proof (total_delete e_charge _ p e He). pose proof (map_size_delete p (c_entries c)) as Hsz.
  rewrite He in Hsz. destruct (cc_entries _ _ H p e He) as [? _]. unfold within_limits, exceeds in *.
  apply orb_false_iff in Hl as [Hk Hm]. apply orb_false_iff. split.
  - destruct (c_max_keys c =? 0); [done|]. cbn [negb andb] in *. zb. rewrite Z.gtb_ltb. apply Z.ltb_ge. lia.
  - destruct (c_max_memory c =? 0); [done|]. cbn [negb andb] in *. zb. rewrite Z.gtb_ltb. apply Z.ltb_ge. lia.
Qed.

Lemma find_live_ok L clock c key now :
  cache_ok L c ->
  let '(r, c') := find_live clock c key now in
  let t := reading clock now in
  cache_ok (purge_order (c_entries c) t key L) c' /\ c_entries c' = purge (c_entries c) t key /\
  settings c' = settings c /\ traffic c' = traffic c /\ r = (fun _ => key) <$> live_entry (c_entries c) t key.
Proof.
  intros Hok. pose proof (find_live_spec L clock c key now (proj1 Hok)) as Hf.
  destruct (find_live clock c key now) as [r c']. cbn zeta. unfold purge, purge_order.
  destruct (live_entry (c_entries c) (reading clock now) key) as [e|].
  - destruct Hf as (-> & -> & Hc). split; [|by split_and!]. split; [done|apply Hok].
  - destruct Hf as (-> & Hc & HM & Hs & Htr). split; [|by split_and!]. by apply (ok_delete L c).
Qed.

Lemma reading_store clock x : reading clock (if negb (x =? 0) then clock else UINT64_MAX) = clock.
Proof. unfold reading. destruct (negb (x =? 0)); [by destruct (clock =? UINT64_MAX)|done]. Qed.

(** [store_done] does not see whether an expired binding was removed first. *)
Lemma store_done_purge L c c1 key e' c' :
  cache_core L c -> settings c1 = settings c ->
  c_entries c1 = delete key (c_entries c) -> store_done (without key L) c1 key e' c' -> store_done L c key e' c'.
Proof.
  intros H Hs HM. unfold store_done. rewrite (victims_settings c c1 _ _ _ Hs), HM, insert_delete_eq, without_idemp, Hs.
  intros (H1 & H2 & H3). split; [done|]. split; [|done]. injection Hs as _ _ _ Hen. rewrite Hen in H2.
  pose proof (cc_order _ _ H) as Ho. unfold order_ok in Ho. destruct (c_lru_enabled c); cbn [touched] in *.
  - revert H2. unfold without, without_all. rewrite !list_filter_filter.
    intros H2. erewrite list_filter_iff; [exact H2|]. intros q. cbn. tauto.
  - by subst L.
Qed.

Lemma store_spec L m clock later c key o x preserve :
  cache_ok L c -> u64_ok x -> 0 <= memory_usage o ->
  let '(r, c', m') := cache_store_object m clock later c (Some key) o x preserve in
  let old := live_entry (c_entries c) clock key in
  if oversized c key o then r = CACHE_SET_CAPACITY /\ c' = c else
  r = CACHE_SET_OK /\
    (exists e', stored_entry o (entry_memory_charge (zlen key) o) (target_expire old preserve x) old e' /\
       store_done L c key e' c') \/
  r = CACHE_SET_ERROR /\ cache_ok (purge_order (c_entries c) clock key L) c' /\
    c_entries c' = purge (c_entries c) clock key /\ settings c' = settings c /\
    (m = [] -> 2 ^ 59 <= Z.of_nat (size (c_entries c)) \/ 2 ^ 62 <= zlen key).
Proof.
  intros Hok Hx Ho. unfold cache_store_object. fold (oversized c key o).
  destruct (oversized c key o) eqn:Hov; [done|].
  pose proof (oversized_fits c key o (cc_config _ _ (proj1 Hok)) Hov) as Hfit.
  pose proof (charge_nonneg key o Ho) as Hnc. set (now := if negb (x =? 0) then clock else UINT64_MAX).
  pose proof (find_live_ok L clock c key now Hok) as Hf. cbn zeta in Hf.
  assert (Ht : reading clock now = clock) by apply reading_store. rewrite Ht in Hf.
  destruct (find_live clock c key now) as [r1 c1]. destruct Hf as (Hok1 & HM1 & Hs1 & _ & Hr1).
  rewrite <- (exceeds_settings _ _ Hs1) in Hfit.
  destruct (live_entry (c_entries c) clock key) as [e|] eqn:El; cbn in Hr1; subst r1;
    unfold purge_order, purge in *; rewrite El in *; cbn [target_expire].
  - apply live_lookup in El as [He _]. rewrite <- HM1 in He.
    assert (Hxe : expire_of c1 key = e_expire e) by (unfold expire_of; by rewrite He). rewrite Hxe.
    set (x' := if preserve then e_expire e else x).
    assert (Hx' : u64_ok x') by (unfold x'; destruct preserve; [apply (cc_entries _ _ (proj1 Hok1) key e He)|done]).
    pose proof (store_existing_spec L m later c1 key e o now x' _ Hok1 He Hx' Ho Hnc Hfit) as Hst.
    destruct (store_existing _ _ _ _ _ _ _ _ _) as [[r c'] m'].
    destruct Hst as [(-> & e' & Hse & Hd)|(-> & Hok2 & HM2 & Hs2 & Hm)]; [left|right].
    + split; [done|]. exists e'. split; [done|]. by apply (store_done_ext L c1 c).
    + rewrite HM2, Hs2, HM1 in *. by rewrite Hs1.
  - assert (He : c_entries c1 !! key = None) by (rewrite HM1; apply lookup_delete_eq).
    pose proof (store_new_spec _ m later c1 key o now x _ Hok1 He Hx Ho Hnc Hfit) as Hst.
    destruct (store_new _ _ _ _ _ _ _ _ _) as [[r c'] m'].
    destruct Hst as [(-> & e' & Hse & Hd)|(-> & Hok2 & HM2 & Hs2 & Hm)]; [left|right].
    + split; [done|]. exists e'. split; [done|]. apply (store_done_purge L c c1); [apply Hok|done|done|done].
    + split; [done|]. split; [done|]. rewrite HM1 in HM2, Hm. split; [done|]. split; [by rewrite Hs2|].
      intros E. destruct (Hm E) as [Hl|Hl]; [left|by right].
      pose proof (map_size_delete key (c_entries c)) as Hsz. unfold id in Hsz. case_match; lia.
Qed.
