(* ===== verification/CacheProps.v ===== *)
(** Correctness of the cache operations: storing, reading, deleting,
    expiration, recharging, maintenance and the hot entry, and the invariant
    over every sequence of operations. *)

From S2P Require Import Prelude HashTable ZOrder Object ExpireHeap LruList Cache CacheSpec.

(** ** Removal and reading *)

Lemma remove_ok L c p e reason :
  cache_ok L c -> c_entries c !! p = Some e ->
  cache_ok (without p L) (entry_remove c p reason) /\
  c_entries (entry_remove c p reason) = delete p (c_entries c) /\
  settings (entry_remove c p reason) = settings c.
Proof.
  intros Hok He. destruct (entry_remove_spec L c p e reason (proj1 Hok) He) as (H1 & H2 & H3).
  split; [|done]. by apply (ok_delete L c).
Qed.

(** The order of use after a lookup of [k]. *)
Definition read_order (enabled : bool) (M : entries) (now : Z) (k : list Z) (L : list (list Z)) : list (list Z) :=
  match live_entry M now k with Some _ => touched enabled k L | None => without k L end.

(** The end of the two lookup functions: counters and order of use. *)
Definition note_lookup (record_hit_or_miss : bool) (entry : option (list Z)) (c : cache) : cache :=
  match entry with
  | None => if record_hit_or_miss then with_stats (count_lookup false (c_stats c)) c else c
  | Some p =>
      let c := if record_hit_or_miss then with_stats (count_lookup true (c_stats c)) c else c in
      with_lru (lru_touch (c_lru_enabled c) (c_lru c) p) c
  end.

Lemma note_lookup_spec L c r entry :
  cache_ok L c -> (forall p, entry = Some p -> is_Some (c_entries c !! p)) ->
  let c' := note_lookup r entry c in
  cache_ok (match entry with Some p => touched (c_lru_enabled c) p L | None => L end) c' /\
  c_entries c' = c_entries c /\ settings c' = settings c /\
  traffic c' = if r then traffic (with_stats (count_lookup (is_Some_bool entry) (c_stats c)) c) else traffic c.
Proof.
  intros [H Hl] Hin. destruct entry as [p|]; cbn [note_lookup is_Some_bool].
  - specialize (Hin p eq_refl). destruct r; cbn zeta.
    + split; [|done]. split; [|done]. apply (core_touch L (with_stats _ c)); [by apply core_lookup_stats|done].
    + split; [|done]. split; [|done]. by apply core_touch.
  - destruct r; (split; [|done]); [|done]. split; [by apply core_lookup_stats|done].
Qed.

Lemma get_ref_eq clock c key r :
  cache_get_object_ref clock c (Some key) r =
  let '(entry, c) := find_live clock c key UINT64_MAX in (entry, note_lookup r entry c).
Proof. unfold cache_get_object_ref, note_lookup. by destruct (find_live _ _ _ _) as [[p|] c1]. Qed.

Lemma hash_ref_eq clock c key r :
  cache_get_hash_object_ref clock c (Some key) r =
  let '(entry, c) := find_live_hash clock c key in (entry, note_lookup r entry c).
Proof. unfold cache_get_hash_object_ref, note_lookup. by destruct (find_live_hash _ _ _) as [[p|] c1]. Qed.

(** What a lookup does, whichever way the entry is found. *)
Definition looked_up (L : list (list Z)) (clock : Z) (c : cache) (key : list Z) (r : bool)
    (res : option (list Z) * cache) : Prop :=
  let live := live_entry (c_entries c) clock key in
  res.1 = (fun _ => key) <$> live /\
  cache_ok (read_order (c_lru_enabled c) (c_entries c) clock key L) res.2 /\
  c_entries res.2 = purge (c_entries c) clock key /\ settings res.2 = settings c /\
  traffic res.2 = if r then traffic (with_stats (count_lookup (is_Some_bool live) (c_stats c)) c) else traffic c.

Lemma looked_up_intro L clock c key r c1 :
  let live := live_entry (c_entries c) clock key in
  cache_ok (purge_order (c_entries c) clock key L) c1 -> c_entries c1 = purge (c_entries c) clock key ->
  settings c1 = settings c -> traffic c1 = traffic c ->
  looked_up L clock c key r ((fun _ => key) <$> live, note_lookup r ((fun _ => key) <$> live) c1).
Proof.
  intros live Hok HM Hs Ht. pose proof (note_lookup_spec _ c1 r ((fun _ => key) <$> live) Hok) as Hn.
  unfold looked_up. cbn [fst snd]. fold live. split; [done|].
  assert (Hen : c_lru_enabled c1 = c_lru_enabled c) by (by injection Hs).
  destruct Hn as (H1 & H2 & H3 & H4).
  { intros p Hp. destruct live as [e|] eqn:E; [|done]. cbn in Hp. injection Hp as <-.
    rewrite HM. unfold purge. fold live. rewrite E. apply live_lookup in E as [E _]. by eexists. }
  unfold read_order, purge_order in *. fold live in H1 |- *.
  split; [|split; [congruence|split; [congruence|]]].
  - destruct live; cbn in H1; [by rewrite Hen in H1|done].
  - rewrite H4. destruct r; [|done]. unfold traffic in *. injection Ht as Ha Hb.
    destruct live; cbn; by rewrite Ha, Hb.
Qed.

Lemma get_ref_spec L clock c key r :
  cache_ok L c -> looked_up L clock c key r (cache_get_object_ref clock c (Some key) r).
Proof.
  intros Hok. rewrite get_ref_eq. pose proof (find_live_ok L clock c key UINT64_MAX Hok) as Hf.
  cbn zeta in Hf. change (reading clock UINT64_MAX) with clock in Hf.
  destruct (find_live clock c key UINT64_MAX) as [entry c1].
  destruct Hf as (H1 & H2 & H3 & H4 & ->). by apply looked_up_intro.
Qed.

Lemma core_hot L c x : cache_core L c -> (forall p, x = Some p -> is_Some (c_entries c !! p)) -> cache_core L (with_hot x c).
Proof. intros [] ?. split; try done. by eapply config_settings; [|eassumption]. Qed.

Lemma find_live_hash_spec L clock c key :
  cache_ok L c ->
  let '(r, c') := find_live_hash clock c key in
  cache_ok (purge_order (c_entries c) clock key L) c' /\ c_entries c' = purge (c_entries c) clock key /\
  settings c' = settings c /\ traffic c' = traffic c /\
  r = (fun _ => key) <$> live_entry (c_entries c) clock key.
Proof.
  intros Hok. unfold find_live_hash.
  assert (Hslow : let '(r, c') := (let '(entry, c) := find_live clock c key UINT64_MAX in (entry, with_hot entry c)) in
    cache_ok (purge_order (c_entries c) clock key L) c' /\ c_entries c' = purge (c_entries c) clock key /\
    settings c' = settings c /\ traffic c' = traffic c /\
    r = (fun _ => key) <$> live_entry (c_entries c) clock key).
  { pose proof (find_live_ok L clock c key UINT64_MAX Hok) as Hf. cbn zeta in Hf.
    change (reading clock UINT64_MAX) with clock in Hf.
    destruct (find_live clock c key UINT64_MAX) as [r c1]. destruct Hf as ([H1 Hl] & H2 & H3 & H4 & H5).
    split; [|done]. split; [|done]. apply core_hot; [done|]. intros p ->.
    destruct (live_entry (c_entries c) clock key) as [e|] eqn:E; [|done]. injection H5 as ->.
    rewrite H2. unfold purge. rewrite E. apply live_lookup in E as [E _]. by eexists. }
  destruct (c_hot c) as [p|] eqn:Eh; [|exact Hslow].
  destruct (bool_decide (p = key)) eqn:Ep; [|by rewrite andb_false_r].
  apply bool_decide_eq_true in Ep as ->. rewrite Z.eqb_refl. cbn [andb].
  destruct (cc_hot _ _ (proj1 Hok) key Eh) as [e He].
  assert (Hx : expire_of c key = e_expire e) by (unfold expire_of; by rewrite He). rewrite Hx.
  unfold purge_order, purge, live_entry. rewrite He. unfold expired.
  destruct (Z.eqb_spec (e_expire e) 0) as [|Hnz]; cbn [negb andb]; [done|].
  rewrite Z.geb_leb, Z.ltb_antisym. destruct (e_expire e <=? clock); cbn [negb]; [|done].
  destruct (remove_ok L c key e REMOVE_EXPIRED Hok He) as (H1 & H2 & H3).
  split_and!; try done. apply entry_remove_traffic.
Qed.

Lemma hash_ref_spec L clock c key r :
  cache_ok L c -> looked_up L clock c key r (cache_get_hash_object_ref clock c (Some key) r).
Proof.
  intros Hok. rewrite hash_ref_eq. pose proof (find_live_hash_spec L clock c key Hok) as Hf.
  destruct (find_live_hash clock c key) as [entry c1].
  destruct Hf as (H1 & H2 & H3 & H4 & ->). by apply looked_up_intro.
Qed.

(** ** Deletion and expiration times *)

Lemma find_at_clock L clock c key now :
  cache_ok L c -> now = UINT64_MAX \/ now = clock ->
  let '(r, c') := find_live clock c key now in
  cache_ok (purge_order (c_entries c) clock key L) c' /\ c_entries c' = purge (c_entries c) clock key /\
  settings c' = settings c /\ r = (fun _ => key) <$> live_entry (c_entries c) clock key.
Proof.
  intros Hok Hn. pose proof (find_live_ok L clock c key now Hok) as Hf. cbn zeta in Hf.
  assert (Ht : reading clock now = clock).
  { unfold reading. destruct Hn as [-> | ->]; [done|]. by destruct (clock =? UINT64_MAX). }
  rewrite Ht in Hf. destruct (find_live clock c key now) as [r c'].
  destruct Hf as (H1 & H2 & H3 & _ & H5). by split_and!.
Qed.

Lemma purge_live M now k e : live_entry M now k = Some e -> purge M now k = M.
Proof. intros E. unfold purge. by rewrite E. Qed.

Lemma delete_spec L clock c key :
  cache_ok L c ->
  let '(r, c') := cache_delete clock c (Some key) in
  r = (if is_Some_bool (live_entry (c_entries c) clock key) then 1 else 0) /\
  cache_ok (without key L) c' /\ c_entries c' = delete key (c_entries c) /\ settings c' = settings c.
Proof.
  intros Hok. unfold cache_delete. pose proof (find_at_clock L clock c key UINT64_MAX Hok (or_introl eq_refl)) as Hf.
  destruct (find_live clock c key UINT64_MAX) as [r c1]. destruct Hf as (H1 & HM & Hs & ->).
  unfold purge_order, purge in *. destruct (live_entry (c_entries c) clock key) as [e|] eqn:El; cbn [fmap option_fmap option_map is_Some_bool]; [|done].
  apply live_lookup in El as [He _]. rewrite <- HM in He.
  destruct (remove_ok L c1 key e REMOVE_NORMAL H1 He) as (H2 & HM2 & Hs2).
  split; [done|]. split; [done|]. split; [by rewrite HM2, HM|congruence].
Qed.

(** The expiration time of an entry becomes [x]. *)
Lemma retime_ok L c p e x h :
  cache_ok L c -> c_entries c !! p = Some e -> u64_ok x ->
  timed_ok (<[p := retimed x e]> (c_entries c)) h ->
  cache_ok L (with_heap h (with_entries (<[p := retimed x e]> (c_entries c)) c)).
Proof.
  intros [H Hl] He Hx Ht. destruct (cc_entries _ _ H p e He) as (Ha & _ & Hb). split.
  - by apply core_replace with e.
  - unfold within_limits. cbn [c_entries with_heap with_entries]. rewrite map_size_insert_Some by by eexists.
    rewrite (total_replace _ _ p e) by done. cbn [e_charge retimed].
    replace (_ - _ + _) with (total e_charge (c_entries c)) by lia. exact Hl.
Qed.

Lemma expire_at_spec L m clock c key x :
  cache_ok L c -> u64_ok x -> x <> 0 ->
  let '(r, c', m') := cache_expire_at m clock c (Some key) x in
  settings c' = settings c /\
  match live_entry (c_entries c) clock key with
  | None => r = 0 /\ cache_ok (without key L) c' /\ c_entries c' = delete key (c_entries c)
  | Some e => cache_ok L c' /\
      (r = 1 /\ c_entries c' = <[key := retimed x e]> (c_entries c) \/
       r = -1 /\ c_entries c' = c_entries c /\ (m = [] -> 2 ^ 59 <= Z.of_nat (size (c_entries c))))
  end.
Proof.
  intros Hok Hx Hnz. unfold cache_expire_at. destruct (Z.eqb_spec x 0) as [|_]; [done|].
  pose proof (find_at_clock L clock c key clock Hok (or_intror eq_refl)) as Hf.
  destruct (find_live clock c key clock) as [r c1]. destruct Hf as (H1 & HM & Hs & ->).
  unfold purge_order, purge in *.
  destruct (live_entry (c_entries c) clock key) as [e|] eqn:El; cbn [fmap option_fmap option_map]; [|done].
  apply live_lookup in El as [He _]. rewrite <- HM in He.
  assert (Hxe : expire_of c1 key = e_expire e) by (unfold expire_of; by rewrite He). rewrite Hxe.
  destruct (Z.eqb_spec (e_expire e) 0) as [Hz|Hz].
  - pose proof (cache_reserve_spec L m c1 H1) as Hr.
    destruct (heap_reserve m (c_heap c1) _) as [[r h] m1]. destruct Hr as (H2 & [[-> Hroom]| ->] & Hm); cbn [Z.eqb negb].
    + rewrite (set_expire_eq (with_heap h c1) key e x He). split; [done|].
      pose proof (timed_reheap _ key e x h (cc_timed _ _ (proj1 H2)) He (fun _ _ => Hroom)) as Ht.
      unfold reheap in Ht. rewrite Hz, (proj2 (Z.eqb_neq x 0) Hnz) in Ht. cbn [Z.eqb negb andb] in Ht.
      split; [exact (retime_ok L _ key e x _ H2 He Hx Ht)|]. left. split; [done|]. cbn. by rewrite HM.
    + split; [done|]. split; [done|]. right. split; [done|]. split; [exact HM|]. intros E.
      destruct (Z_lt_le_dec (Z.of_nat (size (c_entries c1))) (2 ^ 59)) as [Hlt|]; [|by rewrite <- HM].
      by destruct (Hm E Hlt).
  - rewrite (set_expire_eq _ key e x He). split; [done|].
    pose proof (timed_reheap _ key e x _ (cc_timed _ _ (proj1 H1)) He) as Ht.
    unfold reheap in Ht. rewrite (proj2 (Z.eqb_neq x 0) Hnz), (proj2 (Z.eqb_neq _ 0) Hz) in Ht. cbn [negb andb] in Ht.
    split; [|left; split; [done|]; cbn; by rewrite HM].
    apply (retime_ok L c1 key e x _ H1 He Hx). apply Ht. intros ?. congruence.
Qed.

Lemma persist_spec L clock c key :
  cache_ok L c ->
  let '(r, c') := cache_persist clock c (Some key) in
  settings c' = settings c /\
  match live_entry (c_entries c) clock key with
  | None => r = 0 /\ cache_ok (without key L) c' /\ c_entries c' = delete key (c_entries c)
  | Some e => r = (if e_expire e =? 0 then 0 else 1) /\ cache_ok L c' /\
              c_entries c' = <[key := retimed 0 e]> (c_entries c)
  end.
Proof.
  intros Hok. unfold cache_persist. pose proof (find_at_clock L clock c key UINT64_MAX Hok (or_introl eq_refl)) as Hf.
  destruct (find_live clock c key UINT64_MAX) as [r c1]. destruct Hf as (H1 & HM & Hs & ->).
  unfold purge_order, purge in *.
  destruct (live_entry (c_entries c) clock key) as [e|] eqn:El; cbn [fmap option_fmap option_map]; [|done].
  apply live_lookup in El as [He _]. rewrite <- HM in He.
  assert (Hxe : expire_of c1 key = e_expire e) by (unfold expire_of; by rewrite He). rewrite Hxe.
  destruct (Z.eqb_spec (e_expire e) 0) as [Hz|Hz].
  - split; [done|]. split; [done|]. split; [done|]. rewrite <- HM. symmetry. apply insert_id.
    rewrite He. f_equal. destruct e. cbn in Hz. by subst.
  - rewrite unheap_eq. rewrite (set_expire_eq _ key e 0) by exact He. split; [done|]. split; [done|].
    pose proof (timed_reheap _ key e 0 _ (cc_timed _ _ (proj1 H1)) He) as Ht.
    unfold reheap in Ht. rewrite (proj2 (Z.eqb_neq _ 0) Hz) in Ht. cbn [negb andb Z.eqb] in Ht.
    split; [|cbn; by rewrite HM]. apply (retime_ok L c1 key e 0); [done|done|split; zlia|]. apply Ht. intros; congruence.
Qed.

(** The remaining time a reader is told. *)
Definition ttl_of (live : option cache_entry) (now : Z) : Z :=
  match live with
  | None => -2
  | Some e => if e_expire e =? 0 then -1 else Z.min (e_expire e - now) INT64_MAX
  end.

Lemma ttl_spec L clock c key :
  cache_ok L c -> 0 <= clock ->
  let '(r, c') := cache_ttl_ms clock c (Some key) in
  r = Some (ttl_of (live_entry (c_entries c) clock key) clock) /\
  cache_ok (purge_order (c_entries c) clock key L) c' /\ c_entries c' = purge (c_entries c) clock key /\
  settings c' = settings c.
Proof.
  intros Hok Hck. unfold cache_ttl_ms. pose proof (find_at_clock L clock c key clock Hok (or_intror eq_refl)) as Hf.
  destruct (find_live clock c key clock) as [r c1]. destruct Hf as (H1 & HM & Hs & ->).
  unfold ttl_of. destruct (live_entry (c_entries c) clock key) as [e|] eqn:El; cbn [fmap option_fmap option_map]; [|done].
  pose proof (purge_live _ _ _ _ El) as Hp. apply live_lookup in El as [He Hexp].
  assert (He1 : c_entries c1 !! key = Some e) by (by rewrite HM, Hp).
  assert (Hxe : expire_of c1 key = e_expire e) by (unfold expire_of; by rewrite He1). rewrite Hxe.
  destruct (cc_entries _ _ (proj1 Hok) key e He) as (_ & Hu & _). unfold u64_ok, expired in *.
  destruct (Z.eqb_spec (e_expire e) 0) as [Hz|Hz]; [done|]. cbn [negb andb] in Hexp. zb.
  rewrite wrap64_small by lia. split; [|done]. f_equal.
  destruct (Z.gtb_spec (e_expire e - clock) INT64_MAX); lia.
Qed.

(** ** Recharging *)

Lemma recount_ok M p e n' s nc :
  stats_ok M s -> M !! p = Some e ->
  stats_ok (<[p := mk_entry (e_object e) nc n' (e_expire e)]> M) (recount (e_object e) (e_items e) n' s).
Proof.
  intros [H1 H2 H3 H4 H5] He. set (e' := mk_entry _ _ _ _).
  assert (Ha : forall t, total (is_type t) (<[p := e']> M) = total (is_type t) M).
  { intros t. rewrite (total_replace _ M p e) by done. unfold is_type. cbn [e_object e']. lia. }
  assert (Hb : forall t, total (items_of t) (<[p := e']> M)
             = if decide (type_of (e_object e) = t) then total (items_of t) M - e_items e + n' else total (items_of t) M).
  { intros t. rewrite (total_replace _ M p e) by done. unfold items_of. cbn [e_object e_items e']. case_decide; lia. }
  unfold recount. destruct (type_of (e_object e)); split; cbn; rewrite ?Ha, ?Hb; cbn;
    rewrite ?H1, ?H2, ?H3, ?H4, ?H5, ?wrap64_sub_add; done.
Qed.

Lemma core_recharged L c p e nc y :
  cache_core L c -> c_entries c !! p = Some e -> 0 <= nc -> wrap64 y = wrap64 (total e_charge (c_entries c) + (nc - e_charge e)) ->
  cache_core L
    (with_entries (<[p := mk_entry (e_object e) nc (object_item_count (e_object e)) (e_expire e)]> (c_entries c))
       (with_used y (with_stats (recount (e_object e) (e_items e) (object_item_count (e_object e)) (c_stats c)) c))).
Proof.
  intros [H1 H2 H3 H4 H5 H6 H7 H8] He Hnc Hy. destruct (H6 p e He) as (_ & Hx & Hm).
  split; cbn [c_index c_entries c_lru c_heap c_used c_stats c_hot c_lru_enabled with_entries with_stats with_used].
  - eapply index_ext; [exact H1|]. intros k. by eapply insert_dom.
  - apply (timed_ext (c_entries c) _ _ p); [done|intros; by apply expire_in_insert|].
    unfold expire_in. by rewrite lookup_insert_eq, He.
  - eapply order_ext; [exact H3|]. intros k. by eapply insert_dom.
  - rewrite Hy, (total_replace _ _ p e) by done. f_equal. cbn. lia.
  - by apply recount_ok.
  - apply map_Forall_insert_2; [by split_and!|done].
  - intros q Hq. eapply insert_dom; [done|]. by apply H7.
  - by eapply config_settings; [|exact H8].
Qed.

Lemma recharge_ref_spec L clock c p e :
  cache_ok L c -> c_entries c !! p = Some e ->
  let '(r, c') := cache_recharge_ref clock c (Some p) in
  if expired clock e then r = CACHE_SET_ERROR /\ c' = c else
  if oversized c p (e_object e) then r = CACHE_SET_CAPACITY /\ c' = c else
  r = CACHE_SET_OK /\
  store_done L c p (mk_entry (e_object e) (entry_memory_charge (zlen p) (e_object e))
                      (object_item_count (e_object e)) (e_expire e)) c'.
Proof.
  intros Hok He. unfold cache_recharge_ref. cbn [mbind option_bind]. rewrite He. cbn [fmap option_fmap option_map].
  set (now := if negb (e_expire e =? 0) then clock else 0).
  assert (Hexp : negb (e_expire e =? 0) && (now >=? e_expire e) = expired clock e).
  { unfold now, expired. by destruct (e_expire e =? 0). }
  rewrite Hexp. destruct (expired clock e); [done|]. fold (oversized c p (e_object e)).
  destruct (oversized c p (e_object e)) eqn:Hov; [done|]. set (nc := entry_memory_charge _ _).
  pose proof (oversized_fits c p (e_object e) (cc_config _ _ (proj1 Hok)) Hov) as Hfit.
  destruct Hok as [H Hl]. destruct (cc_entries _ _ H p e He) as (_ & _ & Hmu).
  pose proof (charge_nonneg p (e_object e) Hmu) as Hnc. fold nc in Hnc, Hfit.
  pose proof (evict_pre_intro L c p e (nc - e_charge e) (conj H Hl) He) as Hpre.
  replace (e_charge e + (nc - e_charge e)) with nc in Hpre by lia. specialize (Hpre Hnc Hfit).
  replace (wrap64 (c_used c - e_charge e + nc)) with (wrap64 (total e_charge (c_entries c) + (nc - e_charge e))).
  2:{ rewrite (cc_used _ _ H), wrap64_sub_add. f_equal. lia. }
  destruct (evict_for_recharge_spec _ p e (nc - e_charge e) L c now Hpre) as (c1 & -> & Hev & Hfits). cbn [negb].
  split; [done|]. fold (evicted c L p (nc - e_charge e)) in Hev.
  destruct (evicts_all L c c1 p _ H Hev) as (H1 & HM1 & Hs1 & _).
  pose proof (evicted_spec L c p (nc - e_charge e) H) as (_ & Hnp & _ & _).
  set (vs := evicted c L p (nc - e_charge e)) in *. set (e' := mk_entry _ _ _ _).
  assert (He1 : c_entries c1 !! p = Some e) by (by rewrite HM1, remove_all_lookup, decide_False).
  pose proof (core_recharged (without_all vs L) c1 p e nc (wrap64 (total e_charge (c_entries c1) + (nc - e_charge e)))
                H1 He1 Hnc (wrap64_idemp _)) as H2. fold e' in H2.
  assert (Hvs : victims c 0 (<[p := e']> (c_entries c)) (rev (without p L)) = vs).
  { rewrite <- (victims_replace c _ p e e'); [done|done|].
    rewrite <- Permutation_rev, elem_of_without. naive_solver. }
  unfold store_done. rewrite Hvs, remove_all_insert by done. rewrite <- HM1.
  assert (Hen : c_lru_enabled c = c_lru_enabled c1) by (by injection Hs1). rewrite Hen.
  split; [done|]. split; [|done]. split.
  - match type of H2 with cache_core _ ?c2 => apply (core_touch _ c2 p H2) end.
    cbn. rewrite lookup_insert_eq. by eexists.
  - unfold within_limits. cbn [c_entries with_lru with_entries].
    rewrite map_size_insert_Some by by eexists. rewrite (total_replace _ _ p e) by done.
    unfold fits in Hfits. rewrite <- Hfits. unfold exceeds. cbn. f_equal. f_equal. f_equal. lia.
Qed.

(** ** Maintenance *)

(** The root of the heap is a timed entry that expires no later than any other. *)
Lemma heap_root_entry L c :
  cache_core L c -> (0 < heap_count (c_heap c))%nat ->
  exists e, c_entries c !! slot (c_heap c) 0 = Some e /\ e_expire e <> 0 /\
    forall k e', c_entries c !! k = Some e' -> e_expire e' <> 0 -> e_expire e <= e_expire e'.
Proof.
  intros H Hc. destruct (cc_timed _ _ H) as [Hh Hm _].
  assert (Hr : slot (c_heap c) 0 ∈ eh_array (c_heap c)) by (eapply list_elem_of_lookup_2, slot_lookup; done).
  apply Hm in Hr. unfold expire_in in Hr. destruct (c_entries c !! slot (c_heap c) 0) as [e|] eqn:He; [|done].
  exists e. split; [done|]. split; [done|]. intros k e' Hk Hne.
  assert (Hin : k ∈ eh_array (c_heap c)) by (apply Hm; unfold expire_in; by rewrite Hk).
  apply list_elem_of_lookup in Hin as [i Hi]. apply lookup_slot in Hi as [Hs Hi].
  pose proof (heap_root_min _ _ i (ho_ordered _ _ Hh) Hi) as Hle. unfold key_at, expire_in in Hle.
  by rewrite Hs, He, Hk in Hle.
Qed.

(** The keys removed by a round of expiration, earliest first. *)
Record expired_keys_of (now : Z) (M : entries) (ks : list (list Z)) : Prop := {
  xk_nodup : NoDup ks;
  xk_expired : forall k, k ∈ ks -> exists e, M !! k = Some e /\ expired now e = true;
  xk_first : forall k e k' e', k ∈ ks -> M !! k = Some e -> k' ∉ ks -> M !! k' = Some e' -> e_expire e' <> 0 ->
    e_expire e <= e_expire e'
}.

Lemma expire_loop_spec fuel now L c n :
  cache_ok L c ->
  exists ks, let '(r, c') := expire_loop fuel now c n in
    r = n + zlen ks /\ expired_keys_of now (c_entries c) ks /\ (length ks <= fuel)%nat /\
    cache_ok (without_all ks L) c' /\ c_entries c' = remove_all ks (c_entries c) /\ settings c' = settings c /\
    (length ks = fuel \/ forall k e, c_entries c' !! k = Some e -> expired now e = false).
Proof.
  assert (Hnil : forall L c, cache_ok L c -> expired_keys_of now (c_entries c) [] /\ cache_ok (without_all [] L) c).
  { intros L' c' Hok. rewrite without_all_nil. split; [|done]. split; [constructor| |]; intros; by set_solver. }
  revert L c n. induction fuel as [|fuel IH]; intros L c n Hok; cbn [expire_loop].
  { exists []. destruct (Hnil L c Hok). split_and!; try done; [rewrite zlen_nil; lia|by left]. }
  assert (Hstop : (forall k e, c_entries c !! k = Some e -> expired now e = false) ->
    exists ks, n = n + zlen ks /\ expired_keys_of now (c_entries c) ks /\ (length ks <= S fuel)%nat /\
      cache_ok (without_all ks L) c /\ c_entries c = remove_all ks (c_entries c) /\ settings c = settings c /\
      (length ks = S fuel \/ forall k e, c_entries c !! k = Some e -> expired now e = false)).
  { intros Hno. exists []. destruct (Hnil L c Hok). split_and!; try done; [rewrite zlen_nil; lia|cbn; lia|by right]. }
  destruct (Nat.ltb_spec 0 (heap_count (c_heap c))) as [Hc|Hc].
  2:{ apply Hstop. intros k e Hk. unfold expired. destruct (Z.eqb_spec (e_expire e) 0) as [|Hz]; [done|].
      exfalso. assert (Hin : k ∈ eh_array (c_heap c)).
      { apply (tm_members _ _ (cc_timed _ _ (proj1 Hok))). unfold expire_in. by rewrite Hk. }
      unfold heap_count in Hc. destruct (eh_array (c_heap c)); [by apply not_elem_of_nil in Hin|cbn in Hc; lia]. }
  destruct (heap_root_entry L c (proj1 Hok) Hc) as (e & He & Hz & Hmin). set (p := slot (c_heap c) 0) in *.
  assert (Hx : expire_of c p = e_expire e) by (unfold expire_of; by rewrite He). rewrite Hx.
  destruct (Z.gtb_spec (e_expire e) now) as [Hgt|Hle].
  { apply Hstop. intros k e' Hk. unfold expired. destruct (Z.eqb_spec (e_expire e') 0) as [|Hz']; [done|].
    specialize (Hmin k e' Hk Hz'). cbn [negb andb]. rewrite Z.geb_leb. apply Z.leb_gt. lia. }
  destruct (remove_ok L c p e REMOVE_EXPIRED Hok He) as (Hok1 & HM1 & Hs1).
  destruct (IH _ _ (n + 1) Hok1) as [ks Hks]. exists (p :: ks).
  destruct (expire_loop fuel now (entry_remove c p REMOVE_EXPIRED) (n + 1)) as [r c'].
  destruct Hks as (Hr & [Hnd Hall Hfirst] & Hlen & Hok2 & HM2 & Hs2 & Hend). rewrite HM1 in *.
  assert (Hp : p ∉ ks) by (intros Hp; destruct (Hall p Hp) as (? & Hl & _); by rewrite lookup_delete_eq in Hl).
  rewrite without_all_cons in Hok2. rewrite remove_all_cons in HM2.
  split_and!; [rewrite zlen_cons; lia| |cbn; lia|done|done|congruence|].
  - split; [by apply NoDup_cons| |].
    + intros k [->|Hk]%elem_of_cons.
      * exists e. split; [done|]. unfold expired. rewrite (proj2 (Z.eqb_neq _ 0) Hz). cbn [negb andb].
        rewrite Z.geb_leb. by apply Z.leb_le.
      * destruct (Hall k Hk) as (e' & Hl & ?). exists e'. split; [|done]. by apply lookup_delete_Some in Hl as [_ ?].
    + intros k e1 k' e' [->|Hk]%elem_of_cons Hk1 [Hk'p Hk']%not_elem_of_cons Hl Hne.
      * rewrite He in Hk1. injection Hk1 as <-. by eapply Hmin.
      * eapply (Hfirst k e1 k' e'); try done; rewrite lookup_delete_ne; try done; congruence.
  - destruct Hend as [Hend|]; [left; cbn; lia|by right].
Qed.

Lemma maintain_spec L clock c eb rb :
  cache_ok L c -> 0 <= eb -> 0 <= rb ->
  exists ks, let '(r, c') := cache_maintain clock c eb rb in
    r = zlen ks /\ expired_keys_of clock (c_entries c) ks /\ r <= eb /\
    cache_ok (without_all ks L) c' /\ c_entries c' = remove_all ks (c_entries c) /\ settings c' = settings c /\
    (r = eb \/ forall k e, c_entries c' !! k = Some e -> expired clock e = false).
Proof.
  intros Hok Heb Hrb. unfold cache_maintain. set (fuel := Nat.min _ _).
  destruct (expire_loop_spec fuel clock L c 0 Hok) as [ks Hks]. exists ks.
  destruct (expire_loop fuel clock c 0) as [r c1].
  destruct Hks as (Hr & Hx & Hlen & [Hc1 Hl1] & HM & Hs & Hend). rewrite Z.add_0_l in Hr.
  assert (Hr' : r <= eb) by (unfold zlen, fuel in *; lia).
  split; [done|]. split; [done|]. split; [done|].
  split; [split; [by apply core_rehash|exact Hl1]|]. split; [exact HM|]. split; [exact Hs|].
  destruct Hend as [Hend|Hend]; [|by right].
  destruct (Z.eq_dec r eb) as [|Hne]; [by left|]. right. cbn [c_entries with_index].
  (* every timed entry was removed *)
  intros k e Hk. unfold expired. destruct (Z.eqb_spec (e_expire e) 0) as [|Hz]; [done|]. exfalso.
  rewrite HM, remove_all_lookup in Hk. destruct (decide (k ∈ ks)) as [|Hnk]; [done|].
  destruct (cc_timed _ _ (proj1 Hok)) as [Hh Hm _].
  assert (Hin : forall q, q ∈ k :: ks -> q ∈ eh_array (c_heap c)).
  { intros q [->|Hq]%elem_of_cons; apply Hm; unfold expire_in; [by rewrite Hk|].
    destruct (xk_expired _ _ _ Hx q Hq) as (e' & -> & He'). unfold expired in He'. zb. done. }
  assert (Hle : (length (k :: ks) <= length (eh_array (c_heap c)))%nat).
  { apply submseteq_length. apply NoDup_submseteq; [apply NoDup_cons; split; [done|apply Hx]|exact Hin]. }
  cbn in Hle. unfold zlen, fuel, heap_count in *. lia.
Qed.

(** ** Sequences of operations *)

Lemma create_ok m mk mm :
  0 <= mk -> 0 <= mm < 2 ^ 63 ->
  match cache_create m mk mm with
  | (Some c, _) => cache_ok [] c /\ c_entries c = ∅ /\ c_max_keys c = mk /\ c_max_memory c = mm
  | (None, _) => m <> []
  end.
Proof.
  intros Hk Hm. unfold cache_create. destruct (malloc m) as [ok m1] eqn:Em.
  assert (Hm1 : m1 <> [] \/ ok = false -> m <> []).
  { intros Ha ->. cbn in Em. injection Em as <- <-. by destruct Ha. }
  destruct ok; cbn [negb]; [|apply Hm1; by right].
  pose proof (@create_spec (list Z) m1) as Hc. destruct (kv_hash_create m1) as [[ix|] m2].
  2:{ destruct Hc as [[]|Hne]. apply Hm1. by left. }
  destruct Hc as (Hw & Hmap & _). split; [|done].
  assert (Hlim : within_limits (mk_cache ix ∅ empty_lru empty_heap 0 mk mm false []
     (mk_counters 0 0 0 0 0 0 0 0 0) None (negb (mk =? 0) || negb (mm =? 0)))).
  { unfold within_limits, exceeds. cbn [c_entries c_max_keys c_max_memory]. rewrite map_size_empty, total_empty.
    change (Z.of_nat 0) with 0. apply orb_false_iff. rewrite !Z.gtb_ltb.
    split; apply andb_false_iff; right; apply Z.ltb_ge; lia. }
  split; [|done]. split; cbn [c_index c_entries c_lru c_heap c_used c_stats c_hot c_lru_enabled].
  - split; [done|]. intros k p. rewrite Hmap, !lookup_empty. split; [done|]. by intros [_ [? ?]].
  - split; [apply empty_heap_ok|intros p; cbn; split; [by intros ?%not_elem_of_nil|done]|done].
  - unfold order_ok. case_match; [|done]. split; [apply empty_lru_repr|].
    intros p. rewrite lookup_empty. split; [by intros ?%not_elem_of_nil|by intros []].
  - by rewrite total_empty.
  - split; cbn; by rewrite total_empty.
  - apply map_Forall_empty.
  - done.
  - by split.
Qed.

(** The operations of the interface, with the clock readings and allocation
    outcomes of the call.  [OpMutate] is a client that changes the object it
    got a reference to, which it reports with [OpRecharge]. *)
Inductive cache_op : Type :=
| OpStore (m : mem) (clock later : Z) (key : slice) (o : kv_object) (x : Z) (preserve : bool)
| OpSetAt (m : mem) (clock later : Z) (key value : slice) (x : Z)
| OpSet (m : mem) (now clock later : Z) (key value : slice) (ttl : Z)
| OpGet (clock : Z) (key : slice) (r : bool)
| OpGetHash (clock : Z) (key : slice) (r : bool)
| OpMutate (p : list Z) (o : kv_object)
| OpRecharge (clock : Z) (entry : option (list Z))
| OpRechargeKey (clock later : Z) (key : slice)
| OpDelete (clock : Z) (key : slice)
| OpExpireAt (m : mem) (clock : Z) (key : slice) (x : Z)
| OpExpire (m : mem) (now clock : Z) (key : slice) (ttl : Z)
| OpPersist (clock : Z) (key : slice)
| OpTtl (clock : Z) (key : slice)
| OpMaintain (clock eb rb : Z)
| OpCallback (b : bool).

Definition run_op (op : cache_op) (c : cache) : cache :=
  match op with
  | OpStore m clock later key o x preserve => (cache_store_object m clock later c key o x preserve).1.2
  | OpSetAt m clock later key value x => (cache_set_expire_at m clock later c key value x).1.2
  | OpSet m now clock later key value ttl => (cache_set m now clock later c key value ttl).1.2
  | OpGet clock key r => (cache_get_object_ref clock c key r).2
  | OpGetHash clock key r => (cache_get_hash_object_ref clock c key r).2
  | OpMutate p o => set_object p o c
  | OpRecharge clock entry => (cache_recharge_ref clock c entry).2
  | OpRechargeKey clock later key => (cache_recharge_object clock later c key).2
  | OpDelete clock key => (cache_delete clock c key).2
  | OpExpireAt m clock key x => (cache_expire_at m clock c key x).1.2
  | OpExpire m now clock key ttl => (cache_expire m now clock c key ttl).1.2
  | OpPersist clock key => (cache_persist clock c key).2
  | OpTtl clock key => (cache_ttl_ms clock c key).2
  | OpMaintain clock eb rb => (cache_maintain clock c eb rb).2
  | OpCallback b => cache_set_eviction_callback c b
  end.

(** Arguments are 64-bit values; a client keeps the type of an object. *)
Definition op_ok (c : cache) (op : cache_op) : Prop :=
  match op with
  | OpStore _ _ _ _ o x _ => u64_ok x /\ 0 <= memory_usage o
  | OpSetAt _ _ _ _ _ x | OpExpireAt _ _ _ x => u64_ok x
  | OpSet _ now _ _ _ _ ttl | OpExpire _ now _ _ ttl => u64_ok now /\ u64_ok ttl
  | OpMutate p o => 0 <= memory_usage o /\
      forall e, c_entries c !! p = Some e -> type_of o = type_of (e_object e)
  | OpTtl clock _ => 0 <= clock
  | OpMaintain _ eb rb => 0 <= eb /\ 0 <= rb
  | _ => True
  end.

Inductive reachable (mk mm : Z) : cache -> Prop :=
| reach_create m c m' : cache_create m mk mm = (Some c, m') -> reachable mk mm c
| reach_op c op : reachable mk mm c -> op_ok c op -> reachable mk mm (run_op op c).

(** An operation keeps the invariant and the limits. *)
Definition keeps (c c' : cache) : Prop :=
  (exists L, cache_ok L c') /\ c_max_keys c' = c_max_keys c /\ c_max_memory c' = c_max_memory c.

Lemma keeps_intro L c c' : cache_ok L c' -> settings c' = settings c -> keeps c c'.
Proof. intros H [= H1 H2 _ _]. split; [by exists L|done]. Qed.

Lemma keeps_done L c key e c' : store_done L c key e c' -> keeps c c'.
Proof. intros (_ & H & Hs). by eapply keeps_intro. Qed.

Lemma store_keeps L m clock later c key o x preserve :
  cache_ok L c -> u64_ok x -> 0 <= memory_usage o -> keeps c (cache_store_object m clock later c key o x preserve).1.2.
Proof.
  intros Hok Hx Ho. destruct key as [key|]; [|by eapply keeps_intro].
  pose proof (store_spec L m clock later c key o x preserve Hok Hx Ho) as H.
  destruct (cache_store_object _ _ _ _ _ _ _ _) as [[r c'] m']. cbn [fst snd]. cbn zeta in H.
  destruct (oversized c key o); [destruct H as [_ ->]; by eapply keeps_intro|].
  destruct H as [(_ & e' & _ & Hd)|(_ & Hok' & _ & Hs & _)]; [by eapply keeps_done|by eapply keeps_intro].
Qed.

Lemma set_at_keeps L m clock later c key value x :
  cache_ok L c -> u64_ok x -> keeps c (cache_set_expire_at m clock later c key value x).1.2.
Proof.
  intros Hok Hx. unfold cache_set_expire_at. destruct value as [v|]; [|by eapply keeps_intro].
  destruct (kv_object_create_string m (Some v)) as [[o|] m'] eqn:E; [|by eapply keeps_intro].
  apply (store_keeps L); [done|done|]. revert E. unfold kv_object_create_string.
  destruct (_ || _); [done|]. destruct (malloc m) as [[] m1]; [|done]. intros [= <- _].
  cbn [memory_usage]. pose proof (zlen_nonneg v). unfold SIZEOF_KV_OBJECT. lia.
Qed.

Lemma delete_keeps L clock c key : cache_ok L c -> keeps c (cache_delete clock c key).2.
Proof.
  intros Hok. destruct key as [key|]; [|by eapply keeps_intro].
  pose proof (delete_spec L clock c key Hok) as H. destruct (cache_delete clock c (Some key)) as [r c'].
  destruct H as (_ & H1 & _ & H2). by eapply keeps_intro.
Qed.

Lemma expire_at_keeps L m clock c key x :
  cache_ok L c -> u64_ok x -> keeps c (cache_expire_at m clock c key x).1.2.
Proof.
  intros Hok Hx. destruct key as [key|]; [|by eapply keeps_intro].
  destruct (decide (x = 0)) as [->|Hne]; [by apply (delete_keeps L clock c (Some key))|].
  pose proof (expire_at_spec L m clock c key x Hok Hx Hne) as H.
  destruct (cache_expire_at m clock c (Some key) x) as [[r c'] m']. destruct H as [Hs H].
  destruct (live_entry _ _ _); [destruct H as [H _]|destruct H as (_ & H & _)]; by eapply keeps_intro.
Qed.

Lemma recharge_keeps L clock c p : cache_ok L c -> keeps c (cache_recharge_ref clock c p).2.
Proof.
  intros Hok. destruct p as [p|]; [|by eapply keeps_intro].
  destruct (c_entries c !! p) as [e|] eqn:He.
  - pose proof (recharge_ref_spec L clock c p e Hok He) as H.
    destruct (cache_recharge_ref clock c (Some p)) as [r c']. cbn [snd].
    destruct (expired clock e); [destruct H as [_ ->]; by eapply keeps_intro|].
    destruct (oversized _ _ _); [destruct H as [_ ->]; by eapply keeps_intro|].
    destruct H as [_ H]. by eapply keeps_done.
  - unfold cache_recharge_ref. cbn [mbind option_bind]. rewrite He. by eapply keeps_intro.
Qed.

Lemma keeps_trans c1 c2 c3 : keeps c1 c2 -> keeps c2 c3 -> keeps c1 c3.
Proof. intros (_ & H1 & H2) (H3 & H4 & H5). split; [done|]. split; congruence. Qed.

Lemma mutate_keeps L c p o :
  cache_ok L c -> 0 <= memory_usage o ->
  (forall e, c_entries c !! p = Some e -> type_of o = type_of (e_object e)) -> keeps c (set_object p o c).
Proof.
  intros [H Hl] Ho Ht. apply (keeps_intro L); [|done]. unfold set_object.
  destruct (c_entries c !! p) as [e|] eqn:He.
  2:{ rewrite alter_id; [by destruct c|]. intros x Hx. congruence. }
  rewrite (alter_found _ p e) by done. destruct (cc_entries _ _ H p e He) as (Ha & Hb & _).
  set (e1 := mk_entry o (e_charge e) (e_items e) (e_expire e)).
  split.
  - change (cache_core L (with_heap (c_heap c) (with_entries (<[p := e1]> (c_entries c)) c))).
    apply core_replace with e; try done; [by apply Ht|].
    apply (timed_ext (c_entries c) _ _ p); [apply H|intros; by apply expire_in_insert|].
    unfold expire_in. by rewrite lookup_insert_eq, He.
  - unfold within_limits. cbn [c_entries with_entries]. rewrite map_size_insert_Some by by eexists.
    rewrite (total_replace _ _ p e) by done. cbn [e_charge e1].
    replace (_ - _ + _) with (total e_charge (c_entries c)) by lia. exact Hl.
Qed.

Lemma run_op_keeps L c op : cache_ok L c -> op_ok c op -> keeps c (run_op op c).
Proof.
  intros Hok Hop. destruct op as [m clock later key o x preserve|m clock later key value x|m now clock later key value ttl
    |clock key r|clock key r|p o|clock entry|clock later key|clock key|m clock key x|m now clock key ttl|clock key
    |clock key|clock eb rb|b]; cbn [run_op op_ok] in *.
  - by apply (store_keeps L); [|apply Hop|apply Hop].
  - by apply (set_at_keeps L).
  - unfold cache_set, u64_ok in *. destruct (Z.eqb_spec ttl 0) as [->|]; cbn [negb andb Z.eqb].
    + apply (set_at_keeps L); [done|split; zlia].
    + destruct (Z.gtb_spec ttl (UINT64_MAX - now)); [by eapply keeps_intro|].
      apply (set_at_keeps L); [done|split; lia].
  - destruct key as [key|]; [|by eapply keeps_intro].
    destruct (get_ref_spec L clock c key r Hok) as (_ & H & _ & Hs & _). by eapply keeps_intro.
  - destruct key as [key|]; [|by eapply keeps_intro].
    destruct (hash_ref_spec L clock c key r Hok) as (_ & H & _ & Hs & _). by eapply keeps_intro.
  - destruct Hop. by apply (mutate_keeps L).
  - by apply (recharge_keeps L).
  - destruct key as [key|]; [|by eapply keeps_intro]. unfold cache_recharge_object.
    pose proof (find_at_clock L clock c key UINT64_MAX Hok (or_introl eq_refl)) as Hf.
    destruct (find_live clock c key UINT64_MAX) as [r c1]. destruct Hf as (H1 & _ & Hs & _).
    eapply keeps_trans; [by eapply keeps_intro|by eapply recharge_keeps].
  - by apply (delete_keeps L).
  - by apply (expire_at_keeps L).
  - unfold cache_expire, u64_ok in *. destruct (Z.eqb_spec ttl 0); [by apply (delete_keeps L)|].
    destruct (Z.gtb_spec ttl (UINT64_MAX - now)); [by eapply keeps_intro|].
    apply (expire_at_keeps L); [done|split; lia].
  - destruct key as [key|]; [|by eapply keeps_intro]. pose proof (persist_spec L clock c key Hok) as H.
    destruct (cache_persist clock c (Some key)) as [r c']. destruct H as [Hs H].
    destruct (live_entry _ _ _); destruct H as (_ & H & _); by eapply keeps_intro.
  - destruct key as [key|]; [|by eapply keeps_intro]. pose proof (ttl_spec L clock c key Hok Hop) as H.
    destruct (cache_ttl_ms clock c (Some key)) as [r c']. destruct H as (_ & H & _ & Hs). by eapply keeps_intro.
  - destruct (maintain_spec L clock c eb rb Hok (proj1 Hop) (proj2 Hop)) as [ks H].
    destruct (cache_maintain clock c eb rb) as [r c']. destruct H as (_ & _ & _ & H & _ & Hs & _). by eapply keeps_intro.
  - destruct Hok as [[? ? ? ? ? ? ? [? ? ?]] Hl]. split; [|done]. exists L. split; [|done]. by split.
Qed.

Lemma reachable_ok mk mm c :
  0 <= mk -> 0 <= mm < 2 ^ 63 -> reachable mk mm c ->
  (exists L, cache_ok L c) /\ c_max_keys c = mk /\ c_max_memory c = mm.
Proof.
  intros Hk Hm. induction 1 as [m c m' Hc|c op _ IH Hop].
  - pose proof (create_ok m mk mm Hk Hm) as H. rewrite Hc in H.
    destruct H as (H1 & _ & H2 & H3). split; [by exists []|done].
  - destruct IH as ([L HL] & H1 & H2). destruct (run_op_keeps L c op HL Hop) as (H3 & H4 & H5).
    split; [done|]. split; congruence.
Qed.

(** ** Properties *)

(** A cache of two keys and one with a value that expires at 5000. *)
Definition small_cache : cache :=
  match cache_create [] 2 0 with
  | (Some c, _) => c
  | (None, _) => mk_cache (mk_hashtable zero_table zero_table 0 0) ∅ empty_lru empty_heap 0 0 0 false []
                   (mk_counters 0 0 0 0 0 0 0 0 0) None false
  end.

Definition sample_ops : list cache_op :=
  [OpSetAt [] 1000 1000 (Some [97]) (Some [1]) 0; OpSetAt [] 1000 1000 (Some [98]) (Some [2; 3]) 5000].

Definition sample_cache : cache := fold_left (fun c op => run_op op c) sample_ops small_cache.

Lemma small_cache_reachable : reachable 2 0 small_cache.
Proof. eapply (reach_create 2 0 []). vm_compute. reflexivity. Qed.

Lemma sample_cache_reachable : reachable 2 0 sample_cache.
Proof.
  unfold sample_cache, sample_ops. cbn [fold_left].
  apply reach_op; [apply reach_op; [apply small_cache_reachable|]|]; split; vm_compute; discriminate.
Qed.

Lemma sample_cache_ok : exists L, cache_ok L sample_cache.
Proof. apply (reachable_ok 2 0); [lia|lia|apply sample_cache_reachable]. Qed.

(** C14. Every operation of the cache keeps the invariant: in every state that
    a sequence of operations reaches from [cache_create], whatever the clock
    and the allocator do, the key index, the entries, the expiration heap and
    its back indices, the list of uses, the memory account and the object
    counters agree, the hot entry is an entry, the heap fits its array, and the
    configured limits hold. *)
Theorem cache_reachable_ok mk mm c :
  0 <= mk -> 0 <= mm < 2 ^ 63 -> reachable mk mm c ->
  (exists L, cache_ok L c) /\ c_max_keys c = mk /\ c_max_memory c = mm.
Proof. apply reachable_ok. Qed.

Lemma cache_reachable_ok_witness :
  size (c_entries sample_cache) = 2%nat /\ exists L, cache_ok L sample_cache.
Proof.
  split; [vm_compute; reflexivity|].
  apply (cache_reachable_ok 2 0); [lia|lia|apply sample_cache_reachable].
Defined.

(** The statistics report the state: the number of keys is the number of
    entries and never above [max_keys]; the used memory is the sum of the
    charges of the entries and never above [max_memory]; the counters of
    strings, hashes and sorted sets and of their elements are the sums over the
    entries (modulo the word size). *)
Theorem cache_stats_correct mk mm c :
  0 <= mk -> 0 <= mm < 2 ^ 63 -> reachable mk mm c ->
  let s := cache_get_stats c in
  st_keys s = Z.of_nat (size (c_entries c)) /\ (mk <> 0 -> st_keys s <= mk) /\
  st_used_memory s = wrap64 (total e_charge (c_entries c)) /\
  (mm <> 0 -> st_used_memory s = total e_charge (c_entries c) /\ st_used_memory s <= mm) /\
  string_keys (st_counters s) = wrap64 (total (is_type KV_OBJECT_STRING) (c_entries c)) /\
  hash_keys (st_counters s) = wrap64 (total (is_type KV_OBJECT_HASH) (c_entries c)) /\
  zset_keys (st_counters s) = wrap64 (total (is_type KV_OBJECT_ZSET) (c_entries c)) /\
  hash_field_count (st_counters s) = wrap64 (total (items_of KV_OBJECT_HASH) (c_entries c)) /\
  zset_members (st_counters s) = wrap64 (total (items_of KV_OBJECT_ZSET) (c_entries c)).
Proof.
  intros Hk Hm Hr. destruct (reachable_ok mk mm c Hk Hm Hr) as ([L [H Hl]] & Hmk & Hmm).
  cbn [st_keys st_used_memory st_counters cache_get_stats]. rewrite (index_count _ _ (cc_index _ _ H)).
  unfold within_limits, exceeds in Hl. rewrite Hmk, Hmm in Hl. apply orb_false_iff in Hl as [H1 H2].
  pose proof (total_nonneg e_charge (c_entries c)) as Hnn.
  assert (0 <= total e_charge (c_entries c)).
  { apply Hnn. eapply map_Forall_impl; [apply (cc_entries _ _ H)|]. by intros k e [? _]. }
  destruct (cc_stats _ _ H). split_and!; try done.
  - intros Hne. rewrite (proj2 (Z.eqb_neq mk 0) Hne) in H1. cbn [negb andb] in H1. zb. lia.
  - apply H.
  - intros Hne. rewrite (proj2 (Z.eqb_neq mm 0) Hne) in H2. cbn [negb andb] in H2. zb.
    rewrite (cc_used _ _ H), wrap64_small by zlia. done.
Qed.

(** C15. Storing an object.  A value that cannot fit is refused and nothing
    changes.  Otherwise the call fails only for want of memory, and then the
    entries are as before but for an expired old value of the key; or it
    succeeds: the key is bound to the object (or, when both are strings and the
    value fits, the old object holds the new value) with the requested
    expiration time, the evicted keys are exactly those the reference definition
    [victims] takes from the least recently used end for as long as the limits
    are exceeded (at whatever time the eviction reads the clock), never the
    stored key, every other binding is unchanged, the key becomes the most
    recently used, and the limits hold. *)
Theorem cache_store_correct L m clock later c key o x preserve :
  cache_ok L c -> u64_ok x -> 0 <= memory_usage o ->
  let '(r, c', m') := cache_store_object m clock later c (Some key) o x preserve in
  let old := live_entry (c_entries c) clock key in
  if oversized c key o then r = CACHE_SET_CAPACITY /\ c' = c else
  r = CACHE_SET_OK /\
    (exists e', stored_entry o (entry_memory_charge (zlen key) o) (target_expire old preserve x) old e' /\
       store_done L c key e' c' /\ c_entries c' !! key = Some e') \/
  r = CACHE_SET_ERROR /\ cache_ok (purge_order (c_entries c) clock key L) c' /\
    c_entries c' = purge (c_entries c) clock key /\ settings c' = settings c /\
    (m = [] -> 2 ^ 59 <= Z.of_nat (size (c_entries c)) \/ 2 ^ 62 <= zlen key).
Proof.
  intros Hok Hx Ho. pose proof (store_spec L m clock later c key o x preserve Hok Hx Ho) as H.
  destruct (cache_store_object _ _ _ _ _ _ _ _) as [[r c'] m']. cbn zeta in *.
  destruct (oversized c key o); [done|].
  destruct H as [(-> & e' & He & Hd)|H]; [left|by right]. split; [done|]. exists e'.
  split; [done|]. split; [done|]. destruct Hd as (-> & _).
  rewrite remove_all_lookup, decide_False by apply not_in_victims. apply lookup_insert_eq.
Qed.

(** A third key evicts the least recently used one. *)
Lemma cache_store_correct_witness :
  let '(r, c', _) := cache_store_object [] 1000 1001 sample_cache (Some [99]) (mk_object 42 (VString [7] 1)) 0 false in
  r = CACHE_SET_OK /\ c_entries c' !! [97] = None /\ is_Some (c_entries c' !! [98]) /\
  exists e', c_entries c' !! [99] = Some e'.
Proof.
  destruct sample_cache_ok as [L HL].
  pose proof (cache_store_correct L [] 1000 1001 sample_cache [99] (mk_object 42 (VString [7] 1)) 0 false HL) as H.
  assert (u64_ok 0) as Hu by (split; vm_compute; discriminate).
  specialize (H Hu ltac:(cbn; lia)).
  destruct (cache_store_object _ _ _ _ _ _ _ _) as [[r c'] m'] eqn:E. cbn zeta in H.
  assert (Hov : oversized sample_cache [99] (mk_object 42 (VString [7] 1)) = false) by (vm_compute; reflexivity).
  rewrite Hov in H.
  assert (Hr : r = CACHE_SET_OK /\ c_entries c' !! [97] = None /\ is_Some_bool (c_entries c' !! [98]) = true).
  { replace c' with (cache_store_object [] 1000 1001 sample_cache (Some [99]) (mk_object 42 (VString [7] 1)) 0 false).1.2 by (by rewrite E).
    replace r with (cache_store_object [] 1000 1001 sample_cache (Some [99]) (mk_object 42 (VString [7] 1)) 0 false).1.1 by (by rewrite E).
    vm_compute. split_and!; reflexivity. }
  clear E Hov. destruct Hr as (-> & Ha & Hb). split; [reflexivity|]. split; [exact Ha|].
  split; [destruct (c_entries c' !! [98]); [eexists; reflexivity|discriminate]|].
  destruct H as [(_ & e' & _ & _ & He)|(? & _)]; [exists e'; exact He|discriminate].
Defined.

(** Reading.  [cache_get] returns the value of a key exactly when the key
    is bound to a string that has not expired at the time of the call; the
    access counts one hit or one miss, makes the key the most recently used,
    removes the binding if it had expired and changes no other binding. *)
Theorem cache_get_correct L clock c key :
  cache_ok L c ->
  let live := live_entry (c_entries c) clock key in
  let '(v, c') := cache_get clock c (Some key) in
  v = live ≫= (fun e => kv_object_string_value (e_object e)) /\
  cache_ok (read_order (c_lru_enabled c) (c_entries c) clock key L) c' /\
  c_entries c' = purge (c_entries c) clock key /\
  traffic c' = traffic (with_stats (count_lookup (is_Some_bool live) (c_stats c)) c).
Proof.
  intros Hok live. unfold cache_get, cache_get_object.
  destruct (get_ref_spec L clock c key true Hok) as (H1 & H2 & H3 & _ & H4).
  destruct (cache_get_object_ref clock c (Some key) true) as [p c']. cbn [fst snd] in *.
  split; [|done]. subst p. fold live in H4 |- *. unfold object_at. rewrite H3. unfold purge. fold live.
  destruct live as [e|] eqn:E; [|done]. apply live_lookup in E as [E _].
  cbn [fmap option_fmap option_map mbind option_bind]. by rewrite E.
Qed.

(** C32. The hot entry is only a shortcut: a lookup of the hash commands, which
    compares the key with the entry found last before it consults the index,
    finds the same entry, leaves the same bindings, the same order of use and
    the same hit and miss counters as the ordinary lookup. *)
Theorem hot_lookup_equivalent L clock c key r :
  cache_ok L c ->
  let fast := cache_get_hash_object_ref clock c (Some key) r in
  let slow := cache_get_object_ref clock c (Some key) r in
  fast.1 = slow.1 /\ c_entries fast.2 = c_entries slow.2 /\ traffic fast.2 = traffic slow.2 /\
  settings fast.2 = settings slow.2 /\
  exists L', cache_ok L' fast.2 /\ cache_ok L' slow.2.
Proof.
  intros Hok fast slow.
  destruct (hash_ref_spec L clock c key r Hok) as (F1 & F2 & F3 & F4 & F5).
  destruct (get_ref_spec L clock c key r Hok) as (S1 & S2 & S3 & S4 & S5).
  fold fast in F1, F2, F3, F4, F5. fold slow in S1, S2, S3, S4, S5.
  split_and!; [congruence|congruence|congruence|congruence|]. by eexists.
Qed.

Lemma hot_lookup_equivalent_witness :
  let c := (cache_get_hash_object_ref 1000 sample_cache (Some [98]) true).2 in
  c_hot c = Some [98] /\
  (cache_get_hash_object_ref 6000 c (Some [98]) true).1 = (cache_get_object_ref 6000 c (Some [98]) true).1.
Proof.
  set (c := (cache_get_hash_object_ref 1000 sample_cache (Some [98]) true).2).
  split; [vm_compute; reflexivity|].
  assert (Hr : reachable 2 0 c) by (apply (reach_op 2 0 _ (OpGetHash 1000 (Some [98]) true) sample_cache_reachable); done).
  destruct (reachable_ok 2 0 c ltac:(lia) ltac:(lia) Hr) as ([L HL] & _).
  apply (hot_lookup_equivalent L 6000 c [98] true HL).
Defined.

(** Expiration times are reported back.  Giving a live key the expiration
    time [x] answers 1 and only changes that time; then at every later moment
    [t] the key has [x - t] milliseconds left (at most [INT64_MAX]) and from
    [x] on it is gone; making it persistent before that answers 1 and the key
    has no expiration time any more. *)
Theorem expiration_roundtrip L clock c key e x :
  cache_ok L c -> live_entry (c_entries c) clock key = Some e ->
  u64_ok x -> x <> 0 -> Z.of_nat (size (c_entries c)) < 2 ^ 59 ->
  let '(r, c', m') := cache_expire_at [] clock c (Some key) x in
  r = 1 /\ c_entries c' = <[key := retimed x e]> (c_entries c) /\
  (forall t, 0 <= t < x ->
     (cache_ttl_ms t c' (Some key)).1 = Some (Z.min (x - t) INT64_MAX) /\
     (cache_persist t c' (Some key)).1 = 1 /\
     (cache_ttl_ms t (cache_persist t c' (Some key)).2 (Some key)).1 = Some (-1)) /\
  (forall t, x <= t -> (cache_ttl_ms t c' (Some key)).1 = Some (-2)).
Proof.
  intros Hok Hlive Hx Hnz Hsz. pose proof (expire_at_spec L [] clock c key x Hok Hx Hnz) as H.
  destruct (cache_expire_at [] clock c (Some key) x) as [[r c'] m']. rewrite Hlive in H.
  destruct H as (_ & Hok' & [[-> HM]|(_ & _ & Hm)]); [|specialize (Hm eq_refl); lia].
  destruct Hx as [Hx0 Hx1].
  assert (Hl : forall t, live_entry (c_entries c') t key = if t >=? x then None else Some (retimed x e)).
  { intros t. unfold live_entry. rewrite HM, lookup_insert_eq. unfold expired. cbn [e_expire retimed].
    by rewrite (proj2 (Z.eqb_neq x 0) Hnz). }
  split; [done|]. split; [done|]. split.
  - intros t Ht. assert (Hlt : live_entry (c_entries c') t key = Some (retimed x e)).
    { rewrite Hl. destruct (Z.geb_spec t x); [lia|done]. }
    pose proof (ttl_spec L t c' key Hok' (proj1 Ht)) as Httl. rewrite Hlt in Httl.
    destruct (cache_ttl_ms t c' (Some key)) as [r1 c1]. destruct Httl as (-> & _). cbn [fst].
    split; [unfold ttl_of; cbn [e_expire retimed]; by rewrite (proj2 (Z.eqb_neq x 0) Hnz)|].
    pose proof (persist_spec L t c' key Hok') as Hp. rewrite Hlt in Hp.
    destruct (cache_persist t c' (Some key)) as [r2 c2]. destruct Hp as (_ & -> & Hok2 & HM2). cbn [fst snd].
    split; [cbn [e_expire retimed]; by rewrite (proj2 (Z.eqb_neq x 0) Hnz)|].
    pose proof (ttl_spec L t c2 key Hok2 (proj1 Ht)) as Httl.
    destruct (cache_ttl_ms t c2 (Some key)) as [r3 c3]. destruct Httl as (-> & _). cbn [fst].
    unfold live_entry. rewrite HM2, lookup_insert_eq. done.
  - intros t Ht. pose proof (ttl_spec L t c' key Hok' ltac:(lia)) as Httl. rewrite Hl in Httl.
    destruct (Z.geb_spec t x); [|lia].
    destruct (cache_ttl_ms t c' (Some key)) as [r1 c1]. by destruct Httl as (-> & _).
Qed.

(** C28. Periodic maintenance removes only entries that have expired, earliest
    expiration first, reports how many, and makes progress: it uses up its
    budget or leaves no expired entry behind. *)
Theorem cache_maintain_correct L clock c eb rb :
  cache_ok L c -> 0 <= eb -> 0 <= rb ->
  exists ks, let '(r, c') := cache_maintain clock c eb rb in
    r = zlen ks /\ expired_keys_of clock (c_entries c) ks /\ r <= eb /\
    cache_ok (without_all ks L) c' /\ c_entries c' = remove_all ks (c_entries c) /\ settings c' = settings c /\
    (r = eb \/ forall k e, c_entries c' !! k = Some e -> expired clock e = false).
Proof. apply maintain_spec. Qed.

Lemma cache_maintain_correct_witness :
  let '(r, c') := cache_maintain 5000 sample_cache 10 10 in
  r = 1 /\ forall k e, c_entries c' !! k = Some e -> expired 5000 e = false.
Proof.
  destruct sample_cache_ok as [L HL].
  destruct (cache_maintain_correct L 5000 sample_cache 10 10 HL ltac:(lia) ltac:(lia)) as [ks H].
  assert (Hr : (cache_maintain 5000 sample_cache 10 10).1 = 1) by (vm_compute; reflexivity).
  destruct (cache_maintain 5000 sample_cache 10 10) as [r c']. cbn in Hr. subst r.
  split; [done|]. destruct H as (_ & _ & _ & _ & _ & _ & [?|H]); [lia|exact H].
Defined.

(** Recharging after a client changed an object through its reference: an
    expired entry and an object that cannot fit are refused with the state
    unchanged; otherwise the charge and the item count of the entry become
    those of the object as it is now, the evicted keys are those of the
    reference definition for the new charge, and the limits hold again. *)
Theorem recharge_correct L clock c p e :
  cache_ok L c -> c_entries c !! p = Some e ->
  let '(r, c') := cache_recharge_ref clock c (Some p) in
  if expired clock e then r = CACHE_SET_ERROR /\ c' = c else
  if oversized c p (e_object e) then r = CACHE_SET_CAPACITY /\ c' = c else
  r = CACHE_SET_OK /\
  store_done L c p (mk_entry (e_object e) (entry_memory_charge (zlen p) (e_object e))
                      (object_item_count (e_object e)) (e_expire e)) c'.
Proof. apply recharge_ref_spec. Qed.
