(* ===== verification/CacheEvents.v ===== *)
(** Which keys the eviction callback of the cache is told.

    [trims p t c c' ks]: from [c] to [c'], keys other than [p] were only
    removed; those in [ks] were reported, in that order, and every key that was
    not expired at [t] and is gone was reported. *)

From S2P Require Import Prelude HashTable ZOrder Object ExpireHeap LruList Cache CacheSpec CacheProps.

Record trims (p : list Z) (t : Z) (c c' : cache) (ks : list (list Z)) : Prop := {
  tr_calls : c_calls c' = c_calls c ++ ks;
  tr_evict : c_on_evict c' = c_on_evict c;
  tr_kept : p ∉ ks;
  tr_had : forall k, k ∈ ks -> is_Some (c_entries c !! k);
  tr_gone : forall k, k ∈ ks -> c_entries c' !! k = None;
  tr_same : forall k, k <> p -> c_entries c' !! k = c_entries c !! k \/ c_entries c' !! k = None;
  tr_live : forall k e, k <> p -> c_entries c !! k = Some e -> expired t e = false ->
              c_entries c' !! k = None -> k ∈ ks
}.

Lemma trims_at p t c c' :
  c_calls c' = c_calls c -> c_on_evict c' = c_on_evict c ->
  (forall k, k <> p -> c_entries c' !! k = c_entries c !! k) -> trims p t c c' [].
Proof.
  intros Hc He HM. split; [by rewrite app_nil_r|done|apply not_elem_of_nil| | | |].
  - intros k Hk. by apply not_elem_of_nil in Hk.
  - intros k Hk. by apply not_elem_of_nil in Hk.
  - intros k Hk. left. by apply HM.
  - intros k e Hk Hke _ Hn. rewrite HM in Hn by done. congruence.
Qed.

Lemma trims_refl p t c : trims p t c c [].
Proof. by apply trims_at. Qed.

Lemma trims_trans p t c1 c2 c3 ks1 ks2 :
  trims p t c1 c2 ks1 -> trims p t c2 c3 ks2 -> trims p t c1 c3 (ks1 ++ ks2).
Proof.
  intros [A1 A2 A3 A0 A4 A5 A6] [B1 B2 B3 B0 B4 B5 B6]. split.
  - by rewrite B1, A1, app_assoc.
  - congruence.
  - rewrite elem_of_app. tauto.
  - intros k [Hk|Hk]%elem_of_app; [by apply A0|]. specialize (B0 k Hk).
    destruct (A5 k) as [E|E]; [intros ->; done|by rewrite <- E|]. rewrite E in B0. by apply is_Some_None in B0.
  - intros k [Hk|Hk]%elem_of_app; [|by apply B4].
    destruct (B5 k) as [->| ->]; [intros ->; done|by apply A4|done].
  - intros k Hk. destruct (B5 k Hk) as [->| ->]; [by apply A5|by right].
  - intros k e Hk Hke Hx Hn. apply elem_of_app. destruct (A5 k Hk) as [Heq|Hnone].
    + right. apply (B6 k e); [done|congruence|done|done].
    + left. by apply (A6 k e).
Qed.

Lemma trims_step p t c1 c2 c3 ks :
  trims p t c1 c2 [] -> trims p t c2 c3 ks -> trims p t c1 c3 ks.
Proof. intros H1 H2. exact (trims_trans _ _ _ _ _ _ _ H1 H2). Qed.

Lemma trims_end p t c1 c2 c3 ks :
  trims p t c1 c2 ks -> trims p t c2 c3 [] -> trims p t c1 c3 ks.
Proof. intros H1 H2. rewrite <- (app_nil_r ks). by apply (trims_trans _ _ _ c2). Qed.

(** ** Removals *)

Lemma entry_remove_other c q reason k : k <> q -> c_entries (entry_remove c q reason) !! k = c_entries c !! k.
Proof.
  intros Hk. destruct (c_entries c !! q) as [e|] eqn:He.
  - rewrite (entry_remove_eq c q e) by done. cbn [c_entries]. by rewrite lookup_delete_ne.
  - unfold entry_remove. by rewrite He.
Qed.

Lemma entry_remove_calls c q reason :
  c_calls (entry_remove c q reason) =
    c_calls c ++ (if bool_decide (reason = REMOVE_EVICTED) && c_on_evict c && is_Some_bool (c_entries c !! q) then [q] else []) /\
  c_on_evict (entry_remove c q reason) = c_on_evict c.
Proof.
  destruct (c_entries c !! q) as [e|] eqn:He.
  - rewrite (entry_remove_eq c q e) by done. cbn [c_calls c_on_evict is_Some_bool]. rewrite andb_true_r.
    destruct (_ && _); [done|]. by rewrite app_nil_r.
  - unfold entry_remove. rewrite He. cbn [is_Some_bool]. rewrite andb_false_r. by rewrite app_nil_r.
Qed.

(** The entry [p] itself. *)
Lemma entry_remove_self p t c reason : reason <> REMOVE_EVICTED -> trims p t c (entry_remove c p reason) [].
Proof.
  intros Hr. destruct (entry_remove_calls c p reason) as [Hc He]. apply trims_at.
  - rewrite Hc, bool_decide_false by done. by rewrite app_nil_r.
  - done.
  - intros k Hk. by apply entry_remove_other.
Qed.

(** A candidate for eviction. *)
Lemma candidate_trims p t c q now :
  c_on_evict c = true -> q <> p -> (forall e, c_entries c !! q = Some e -> e_expire e <> 0 -> now = t \/ now < e_expire e) ->
  exists ks, trims p t c (entry_remove c q (candidate_reason c now q)) ks.
Proof.
  intros Hev Hq Hnow. destruct (c_entries c !! q) as [e|] eqn:He.
  2:{ exists []. unfold entry_remove. rewrite He. apply trims_refl. }
  specialize (Hnow e eq_refl). destruct (entry_remove_calls c q (candidate_reason c now q)) as [Hc Ho].
  assert (HM : forall k, c_entries (entry_remove c q (candidate_reason c now q)) !! k = if decide (k = q) then None else c_entries c !! k).
  { intros k. destruct (decide (k = q)) as [->|Hk]; [|by apply entry_remove_other].
    rewrite (entry_remove_eq c q e) by done. apply lookup_delete_eq. }
  unfold candidate_reason, expire_of in *. rewrite He in *.
  assert (Hexp : negb (e_expire e =? 0) && (now >=? e_expire e) = true -> expired t e = true).
  { intros [H1 H2]%andb_true_iff. unfold expired. rewrite H1. zb.
    destruct (Hnow H1) as [<-|]; [|lia]. rewrite Z.geb_leb. by apply Z.leb_le. }
  destruct (negb (e_expire e =? 0) && (now >=? e_expire e)) eqn:Ex; cbn [is_Some_bool] in Hc.
  - exists []. split.
    + rewrite Hc. by rewrite bool_decide_false.
    + done.
    + apply not_elem_of_nil.
    + intros k Hk. by apply not_elem_of_nil in Hk.
    + intros k Hk. by apply not_elem_of_nil in Hk.
    + intros k Hk. rewrite HM. destruct (decide (k = q)); [by right|by left].
    + intros k e0 Hk Hk0 Hx Hn. rewrite HM in Hn. destruct (decide (k = q)) as [->|Hkq]; [|by rewrite Hk0 in Hn].
      assert (e0 = e) as -> by congruence. by rewrite Hexp in Hx.
  - exists [q]. rewrite bool_decide_true, Hev in Hc by done. split.
    + done.
    + done.
    + rewrite list_elem_of_singleton. congruence.
    + intros k ->%list_elem_of_singleton. by eexists.
    + intros k ->%list_elem_of_singleton. rewrite HM. by rewrite decide_True.
    + intros k Hk. rewrite HM. destruct (decide (k = q)); [by right|by left].
    + intros k e0 Hk Hk0 Hx Hn. rewrite HM in Hn. destruct (decide (k = q)); [by apply list_elem_of_singleton|by rewrite Hk0 in Hn].
Qed.

(** ** The eviction loops *)

(** The time a candidate is compared with. *)
Lemma candidate_time t c q now :
  now = UINT64_MAX \/ now = t ->
  let now' := if negb (expire_of c q =? 0) && (now =? UINT64_MAX) then t else now in
  (now' = UINT64_MAX \/ now' = t) /\
  forall e, c_entries c !! q = Some e -> e_expire e <> 0 -> now' = t \/ now' < e_expire e.
Proof.
  intros Hn. cbn zeta. split; [destruct (_ && _); tauto|]. intros e He Hz. left.
  unfold expire_of. rewrite He, (proj2 (Z.eqb_neq _ _) Hz). cbn [negb andb].
  destruct (Z.eqb_spec now UINT64_MAX); [done|]. naive_solver.
Qed.

Section Loops.
Context (p : list Z) (t : Z).

Lemma candidate_not_kept c extra M L q rest : victims c extra M (rev (without p L)) = q :: rest -> q <> p.
Proof.
  intros Hv ->. apply (not_in_victims c extra M p L). rewrite Hv. apply elem_of_cons. by left.
Qed.

Lemma evict_for_update_trims fuel e extra L c now :
  evict_pre L c p e extra fuel -> c_on_evict c = true -> now = UINT64_MAX \/ now = t ->
  exists ks, trims p t c (evict_for_update fuel t c p now (wrap64 (total e_charge (c_entries c) + extra))).1.2 ks.
Proof.
  revert L c now. induction fuel as [|fuel IH]; intros L c now Hp Hev Hn; [destruct Hp; lia|].
  cbn [evict_for_update]. rewrite (limits_exceeded_eq _ _ _ _ _ _ Hp).
  destruct (exceeds c _ _) eqn:Hex; [|exists []; apply trims_refl].
  destruct (evict_pre_step L c p e extra fuel Hp Hex) as (q & eq & Hcand & Hq & _ & Hw & Hstep).
  rewrite Hcand, Hw. destruct (candidate_time t c q now Hn) as [Hn' Ht]. set (now' := if _ && _ then t else now) in *.
  destruct (Hstep (candidate_reason c now' q)) as (Hp' & He' & Hv). rewrite <- He'.
  destruct (candidate_trims p t c q now' Hev (candidate_not_kept _ _ _ _ _ _ Hv) Ht) as [ks1 H1].
  destruct (IH _ _ now' Hp' ltac:(by rewrite (tr_evict _ _ _ _ _ H1)) Hn') as [ks2 H2].
  exists (ks1 ++ ks2). by eapply trims_trans.
Qed.

Lemma evict_for_insert_trims fuel e L c now :
  evict_pre L c p e 0 fuel -> c_on_evict c = true -> now = UINT64_MAX \/ now = t ->
  exists ks, trims p t c (evict_for_insert fuel t c p now).2 ks.
Proof.
  revert L c now. induction fuel as [|fuel IH]; intros L c now Hp Hev Hn; [destruct Hp; lia|].
  cbn [evict_for_insert].
  assert (Hu : c_used c = wrap64 (total e_charge (c_entries c) + 0)) by (rewrite Z.add_0_r; apply Hp).
  rewrite Hu, (limits_exceeded_eq _ _ _ _ _ _ Hp).
  destruct (exceeds c _ _) eqn:Hex; [|exists []; apply trims_refl].
  destruct (evict_pre_step L c p e 0 fuel Hp Hex) as (q & eq & Hcand & Hq & _ & Hw & Hstep).
  rewrite Hcand. destruct (candidate_time t c q now Hn) as [Hn' Ht]. set (now' := if _ && _ then t else now) in *.
  destruct (Hstep (candidate_reason c now' q)) as (Hp' & He' & Hv).
  destruct (candidate_trims p t c q now' Hev (candidate_not_kept _ _ _ _ _ _ Hv) Ht) as [ks1 H1].
  destruct (IH _ _ now' Hp' ltac:(by rewrite (tr_evict _ _ _ _ _ H1)) Hn') as [ks2 H2].
  exists (ks1 ++ ks2). by eapply trims_trans.
Qed.

Lemma evict_for_recharge_trims fuel e extra L c now :
  evict_pre L c p e extra fuel -> c_on_evict c = true -> now = 0 \/ now = t ->
  exists ks, trims p t c (evict_for_recharge fuel c p now (wrap64 (total e_charge (c_entries c) + extra))).1.2 ks.
Proof.
  revert L c. induction fuel as [|fuel IH]; intros L c Hp Hev Hn; [destruct Hp; lia|].
  cbn [evict_for_recharge]. rewrite (limits_exceeded_eq _ _ _ _ _ _ Hp).
  destruct (exceeds c _ _) eqn:Hex; [|exists []; apply trims_refl].
  destruct (evict_pre_step L c p e extra fuel Hp Hex) as (q & eq & Hcand & Hq & _ & Hw & Hstep).
  rewrite Hcand, Hw. destruct (Hstep (candidate_reason c now q)) as (Hp' & He' & Hv). rewrite <- He'.
  assert (Ht : forall e0, c_entries c !! q = Some e0 -> e_expire e0 <> 0 -> now = t \/ now < e_expire e0).
  { intros e0 He0 Hz. destruct Hn as [->| ->]; [right|by left].
    destruct (cc_entries _ _ (ep_core _ _ _ _ _ _ Hp) q e0 He0) as (_ & [Hu _] & _). lia. }
  destruct (candidate_trims p t c q now Hev (candidate_not_kept _ _ _ _ _ _ Hv) Ht) as [ks1 H1].
  destruct (IH _ _ Hp' ltac:(by rewrite (tr_evict _ _ _ _ _ H1)) Hn) as [ks2 H2].
  exists (ks1 ++ ks2). by eapply trims_trans.
Qed.
End Loops.

(** ** Storing and recharging *)

Lemma update_expiration_at p t c x : trims p t c (update_expiration c p x) [].
Proof.
  unfold update_expiration. rewrite !unheap_eq.
  apply trims_at; [repeat zif; done|repeat zif; done|].
  intros k Hk. unfold set_expire. cbn [with_lru with_entries c_entries]. rewrite lookup_alter_ne by done.
  repeat zif; cbn; rewrite ?lookup_alter_ne by done; done.
Qed.

Lemma find_live_trims L t c key now :
  cache_ok L c -> now = UINT64_MAX \/ now = t -> trims key t c (find_live t c key now).2 [].
Proof.
  intros Hok Hn. pose proof (find_at_clock L t c key now Hok Hn) as Hf.
  assert (Hc : c_calls (find_live t c key now).2 = c_calls c /\ c_on_evict (find_live t c key now).2 = c_on_evict c).
  { unfold find_live. destruct (kv_hash_find _ _) as [n|]; [|done]. destruct (_ && _); [|done].
    cbn [snd]. destruct (entry_remove_calls (with_index (kv_hash_rehash_step (c_index c) 1).2 c) (npayload n) REMOVE_EXPIRED) as [-> ->].
    rewrite bool_decide_false by done. by rewrite app_nil_r. }
  destruct (find_live t c key now) as [r c1]. cbn [snd] in *. destruct Hf as (_ & HM & _ & _).
  apply trims_at; [apply Hc|apply Hc|]. intros k Hk. rewrite HM. unfold purge.
  case_match; [done|]. by rewrite lookup_delete_ne.
Qed.

Section Store.
Context (L : list (list Z)) (t : Z) (m : mem) (c : cache) (p : list Z) (o : kv_object) (now x nc : Z).
Context (Hok : cache_ok L c) (Hev : c_on_evict c = true) (Hn : now = UINT64_MAX \/ now = t).
Context (Hx : u64_ok x) (Ho : 0 <= memory_usage o) (Hnc : 0 <= nc) (Hfit : exceeds c 1 nc = false).

Definition reported (res : cache_set_result * cache * mem) : Prop :=
  exists ks, trims p t c res.1.2 ks /\ (res.1.1 <> CACHE_SET_OK -> ks = []).

Lemma reported_none r c' m' : trims p t c c' [] -> reported (r, c', m').
Proof. intros H. by exists []. Qed.

Lemma store_existing_reported e ni :
  c_entries c !! p = Some e -> reported (store_existing m t c p o now x nc ni).
Proof.
  intros He. unfold store_existing.
  destruct (if negb (x =? 0) && _ then _ else _) as [[r h] m1] eqn:Er.
  assert (Hh : cache_ok L (with_heap h c)).
  { pose proof (cache_reserve_spec L m c Hok) as Hr. destruct (_ && _).
    - rewrite Er in Hr. apply Hr.
    - injection Er as _ <- _. by destruct c. }
  assert (H0 : trims p t c (with_heap h c) []) by (by apply trims_at).
  zif; [by apply reported_none|]. change (c_entries (with_heap h c)) with (c_entries c). rewrite He.
  destruct (match kv_object_string_value (e_object e) with Some _ => _ | None => _ end) as [u o'].
  zif; [by apply reported_none|]. zif.
  { apply reported_none. eapply trims_step; [exact H0|].
    eapply trims_step; [|apply update_expiration_at]. apply trims_at; [done|done|].
    intros k Hk. unfold set_object. cbn. by rewrite lookup_alter_ne. }
  pose proof (evict_pre_intro L (with_heap h c) p e (nc - e_charge e) Hh He) as Hpre.
  replace (e_charge e + (nc - e_charge e)) with nc in Hpre by lia. specialize (Hpre Hnc Hfit).
  assert (Hw : wrap64 (c_used (with_heap h c) - e_charge e + nc)
             = wrap64 (total e_charge (c_entries (with_heap h c)) + (nc - e_charge e))).
  { rewrite (cc_used _ _ (proj1 Hh)), wrap64_sub_add. f_equal. lia. }
  rewrite Hw. destruct (evict_for_update_trims p t _ e _ L (with_heap h c) now Hpre Hev Hn) as [ks Hks].
  destruct (evict_for_update_spec _ t p e (nc - e_charge e) L (with_heap h c) now Hpre) as (c1 & y & Heq & _ & _).
  rewrite Heq in Hks |- *. cbn [negb fst snd] in *. exists ks. cbn [fst snd]. split; [|done].
  eapply trims_step; [exact H0|]. eapply trims_end; [exact Hks|].
  eapply trims_step; [|apply update_expiration_at]. apply trims_at; [done|done|].
  intros k Hk. cbn. by rewrite lookup_insert_ne.
Qed.

Lemma store_new_reported :
  c_entries c !! p = None -> reported (store_new m t c p o now x nc (object_item_count o)).
Proof.
  intros Hp. unfold store_new.
  destruct (if negb (x =? 0) then _ else _) as [[r h] m1] eqn:Er.
  assert (Hh : cache_ok L (with_heap h c) /\ (r = 0 -> x <> 0 -> room (with_heap h c))).
  { pose proof (cache_reserve_spec L m c Hok) as Hr. destruct (Z.eqb_spec x 0) as [->|Hz]; cbn [negb] in Er.
    - injection Er as <- <- _. split; [by destruct c|done].
    - rewrite Er in Hr. destruct Hr as (H1 & [[-> H2]| ->] & _); done. }
  destruct Hh as [Hh Hroom]. assert (H0 : trims p t c (with_heap h c) []) by (by apply trims_at).
  zif; [by apply reported_none|]. specialize (Hroom Hif). set (c1 := with_heap h c) in *.
  destruct (malloc m1) as [ok m2] eqn:Em.
  destruct ok; cbn [negb]; [|by apply reported_none].
  set (e' := mk_entry o nc (object_item_count o) x).
  pose proof (index_insert m2 (c_entries c) (c_index c1) p e' (cc_index _ _ (proj1 Hh))) as Hi.
  destruct (kv_hash_insert m2 (c_index c1) (Some p) p) as [[[ri n] ix] m3] eqn:Ei.
  destruct Hi as [(-> & _ & Hix)|(-> & Hix)]; cbn [Z.eqb negb].
  2:{ apply reported_none. by apply trims_at. }
  match goal with |- context [evict_for_insert _ _ ?c5 _ _] => assert (Hc5 : c5 = added c1 ix p e') end.
  { unfold added, e'. cbn [e_expire]. destruct (x =? 0); reflexivity. }
  rewrite Hc5. destruct (added_evict L c1 ix p e' t now Hh Hp Hix) as (c' & Heq & Hd); [by split_and!|done|done|].
  assert (Hpre : evict_pre (touched (c_lru_enabled c1) p L) (added c1 ix p e') p e' 0 (evict_fuel (added c1 ix p e'))).
  { assert (H1 : cache_core (touched (c_lru_enabled c1) p L) (added c1 ix p e')) by (apply core_added; [apply Hh|done|done|by split_and!|done]).
    split; [done|apply lookup_insert_eq|cbn; lia|by rewrite Z.add_0_r| |by apply core_fuel].
    intros Hne. change (c_max_memory (added c1 ix p e')) with (c_max_memory c1) in Hne.
    pose proof (within_range _ _ _ (proj2 Hh) Hne). pose proof (within_range c _ _ Hfit Hne).
    pose proof (cf_memory _ (cc_config _ _ (proj1 Hh))). change (c_entries (added c1 ix p e')) with (<[p := e']> (c_entries c1)).
    rewrite total_insert by done. change (e_charge e') with nc. change (c_max_memory c1) with (c_max_memory c) in *. zlia. }
  destruct (evict_for_insert_trims p t _ e' _ _ now Hpre Hev Hn) as [ks Hks].
  rewrite Heq in Hks |- *. cbn [snd] in Hks. exists ks. cbn [fst snd]. split; [|done].
  eapply trims_step; [|exact Hks]. apply trims_at; [done|done|]. intros k Hk. cbn. by rewrite lookup_insert_ne.
Qed.
End Store.

Lemma store_reported L t m c key o x preserve :
  cache_ok L c -> c_on_evict c = true -> u64_ok x -> 0 <= memory_usage o ->
  reported t c key (cache_store_object m t t c (Some key) o x preserve).
Proof.
  intros Hok Hev Hx Ho. unfold cache_store_object. fold (oversized c key o).
  destruct (oversized c key o) eqn:Hov; [apply reported_none, trims_refl|].
  pose proof (oversized_fits c key o (cc_config _ _ (proj1 Hok)) Hov) as Hfit.
  pose proof (charge_nonneg key o Ho) as Hnc. set (now := if negb (x =? 0) then t else UINT64_MAX).
  assert (Hn : now = UINT64_MAX \/ now = t) by (unfold now; destruct (negb _); tauto).
  pose proof (find_at_clock L t c key now Hok Hn) as Hf. pose proof (find_live_trims L t c key now Hok Hn) as Ht.
  destruct (find_live t c key now) as [r1 c1]. cbn [snd] in Ht. destruct Hf as (Hok1 & HM1 & Hs1 & Hr1).
  rewrite <- (exceeds_settings _ _ Hs1) in Hfit. assert (Hev1 : c_on_evict c1 = true) by (rewrite (tr_evict _ _ _ _ _ Ht); done).
  assert (Hend : forall res, reported t c1 key res -> reported t c key res).
  { intros res (ks & H1 & H2). exists ks. split; [by eapply trims_step|done]. }
  destruct (live_entry (c_entries c) t key) as [e|] eqn:El; cbn in Hr1; subst r1; apply Hend.
  - apply live_lookup in El as He. destruct He as [He _]. unfold purge, purge_order in *. rewrite El in *. rewrite <- HM1 in He.
    by eapply store_existing_reported.
  - unfold purge, purge_order in *. rewrite El in *.
    eapply store_new_reported; try done. rewrite HM1. apply lookup_delete_eq.
Qed.

Lemma create_string_value m v o m' :
  kv_object_create_string m (Some v) = (Some o, m') -> kv_object_string_value o = Some v /\ 0 <= memory_usage o.
Proof.
  unfold kv_object_create_string. destruct (_ || _); [done|]. destruct (malloc m) as [[] ?]; [|done]. intros [= <- _].
  split; [done|]. cbn. pose proof (zlen_nonneg v). unfold SIZEOF_KV_OBJECT. lia.
Qed.

Lemma set_reported L t m c key v x :
  cache_ok L c -> c_on_evict c = true -> u64_ok x ->
  reported t c key (cache_set_expire_at m t t c (Some key) (Some v) x).
Proof.
  intros Hok Hev Hx. unfold cache_set_expire_at.
  destruct (kv_object_create_string m (Some v)) as [[o|] m'] eqn:E.
  - destruct (create_string_value _ _ _ _ E) as [_ Ho].
    by apply (store_reported L).
  - apply reported_none, trims_refl.
Qed.

Lemma recharge_reported L t c p e :
  cache_ok L c -> c_on_evict c = true -> c_entries c !! p = Some e ->
  exists ks, trims p t c (cache_recharge_ref t c (Some p)).2 ks /\
    ((cache_recharge_ref t c (Some p)).1 <> CACHE_SET_OK -> ks = []).
Proof.
  intros Hok Hev He. unfold cache_recharge_ref. cbn [mbind option_bind]. rewrite He. cbn [fmap option_fmap option_map].
  set (now := if negb (e_expire e =? 0) then t else 0). assert (Hn : now = 0 \/ now = t) by (unfold now; destruct (negb _); tauto).
  destruct (_ && _); [exists []; split; [apply trims_refl|done]|]. fold (oversized c p (e_object e)).
  destruct (oversized c p (e_object e)) eqn:Hov; [exists []; split; [apply trims_refl|done]|]. set (nc := entry_memory_charge _ _).
  pose proof (oversized_fits c p (e_object e) (cc_config _ _ (proj1 Hok)) Hov) as Hfit.
  destruct (cc_entries _ _ (proj1 Hok) p e He) as (_ & _ & Hmu).
  pose proof (charge_nonneg p (e_object e) Hmu) as Hnc. fold nc in Hnc, Hfit.
  pose proof (evict_pre_intro L c p e (nc - e_charge e) Hok He) as Hpre.
  replace (e_charge e + (nc - e_charge e)) with nc in Hpre by lia. specialize (Hpre Hnc Hfit).
  replace (wrap64 (c_used c - e_charge e + nc)) with (wrap64 (total e_charge (c_entries c) + (nc - e_charge e))).
  2:{ rewrite (cc_used _ _ (proj1 Hok)), wrap64_sub_add. f_equal. lia. }
  destruct (evict_for_recharge_trims p t _ e _ L c now Hpre Hev Hn) as [ks Hks].
  destruct (evict_for_recharge_spec _ p e (nc - e_charge e) L c now Hpre) as (c1 & Heq & _ & _).
  rewrite Heq in Hks |- *. cbn [negb fst snd] in *. exists ks. split; [|done].
  eapply trims_end; [exact Hks|]. apply trims_at; [done|done|]. intros k Hk. cbn. by rewrite lookup_insert_ne.
Qed.

(** ** The operations that evict nothing *)

Lemma note_lookup_at p t r entry c : trims p t c (note_lookup r entry c) [].
Proof. apply trims_at; destruct entry, r; done. Qed.

Lemma get_ref_trims L t c key r : cache_ok L c -> trims key t c (cache_get_object_ref t c (Some key) r).2 [].
Proof.
  intros Hok. rewrite get_ref_eq. pose proof (find_live_trims L t c key UINT64_MAX Hok (or_introl eq_refl)) as H.
  destruct (find_live t c key UINT64_MAX) as [entry c1]. eapply trims_step; [exact H|apply note_lookup_at].
Qed.

Lemma hash_ref_trims L t c key r : cache_ok L c -> trims key t c (cache_get_hash_object_ref t c (Some key) r).2 [].
Proof.
  intros Hok. rewrite hash_ref_eq. pose proof (find_live_trims L t c key UINT64_MAX Hok (or_introl eq_refl)) as H.
  assert (Hf : trims key t c (find_live_hash t c key).2 []).
  { unfold find_live_hash.
    assert (Hslow : trims key t c (let '(entry, c0) := find_live t c key UINT64_MAX in (entry, with_hot entry c0)).2 []).
    { destruct (find_live t c key UINT64_MAX) as [entry c1]. eapply trims_step; [exact H|]. by apply trims_at. }
    destruct (c_hot c) as [p|]; [|done]. destruct (_ && _) eqn:E; [|done].
    apply andb_true_iff in E as [_ E]. apply bool_decide_eq_true in E as ->.
    repeat (zif; [apply trims_refl|]). by apply entry_remove_self. }
  destruct (find_live_hash t c key) as [entry c1]. eapply trims_step; [exact Hf|apply note_lookup_at].
Qed.

Lemma delete_trims L t c key : cache_ok L c -> trims key t c (cache_delete t c (Some key)).2 [].
Proof.
  intros Hok. unfold cache_delete. pose proof (find_live_trims L t c key UINT64_MAX Hok (or_introl eq_refl)) as H.
  pose proof (find_at_clock L t c key UINT64_MAX Hok (or_introl eq_refl)) as Hf.
  destruct (find_live t c key UINT64_MAX) as [entry c1]. cbn [snd] in H. destruct Hf as (_ & _ & _ & Hr).
  destruct entry as [p|]; [|exact H]. eapply trims_step; [exact H|].
  destruct (live_entry _ _ _); [|done]. injection Hr as ->. by apply entry_remove_self.
Qed.

Lemma persist_trims L t c key : cache_ok L c -> trims key t c (cache_persist t c (Some key)).2 [].
Proof.
  intros Hok. unfold cache_persist. pose proof (find_live_trims L t c key UINT64_MAX Hok (or_introl eq_refl)) as H.
  pose proof (find_at_clock L t c key UINT64_MAX Hok (or_introl eq_refl)) as Hf.
  destruct (find_live t c key UINT64_MAX) as [entry c1]. cbn [snd] in H. destruct Hf as (_ & _ & _ & Hr).
  destruct entry as [p|]; [|exact H]. eapply trims_step; [exact H|]. zif; [apply trims_refl|].
  destruct (live_entry _ _ _); [|done]. injection Hr as ->. rewrite unheap_eq.
  apply trims_at; [done|done|]. intros k Hk. unfold set_expire. cbn. by rewrite lookup_alter_ne.
Qed.

Lemma ttl_trims L t c key : cache_ok L c -> trims key t c (cache_ttl_ms t c (Some key)).2 [].
Proof.
  intros Hok. unfold cache_ttl_ms. pose proof (find_live_trims L t c key t Hok (or_intror eq_refl)) as H.
  destruct (find_live t c key t) as [entry c1]. cbn [snd] in H. destruct entry as [p|]; [|exact H]. by destruct (_ =? 0).
Qed.

Lemma expire_at_trims L m t c key x :
  cache_ok L c -> trims key t c (cache_expire_at m t c (Some key) x).1.2 [].
Proof.
  intros Hok. unfold cache_expire_at. zif; [apply (delete_trims L t c key Hok)|].
  pose proof (find_live_trims L t c key t Hok (or_intror eq_refl)) as H.
  pose proof (find_at_clock L t c key t Hok (or_intror eq_refl)) as Hf.
  destruct (find_live t c key t) as [entry c1]. cbn [snd] in H. destruct Hf as (_ & _ & _ & Hr). destruct entry as [p|]; [|done].
  destruct (live_entry _ _ _); [|done]. injection Hr as ->.
  assert (Hset : forall h c2, trims key t c1 c2 [] -> trims key t c1 (with_heap h (set_expire key x c2)) []).
  { intros h c2 H2. eapply trims_step; [exact H2|]. apply trims_at; [done|done|].
    intros k Hk. unfold set_expire. cbn. by rewrite lookup_alter_ne. }
  destruct (expire_of c1 key =? 0).
  - destruct (heap_reserve m (c_heap c1) _) as [[r h] m1] eqn:Er.
    assert (H1 : trims key t c1 (with_heap h c1) []) by (by apply trims_at).
    destruct (negb _); cbn [fst snd]; (eapply trims_step; [exact H|]); [done|]. by apply Hset.
  - cbn [fst snd]. eapply trims_step; [exact H|]. apply Hset, trims_refl.
Qed.

Lemma nothing_reported p t c c' ks :
  trims p t c c' ks -> (forall k, k <> p -> c_entries c' !! k = c_entries c !! k) -> ks = [].
Proof.
  intros Ht Hsame. destruct ks as [|k ks]; [done|]. assert (Hk : k ∈ k :: ks) by (apply elem_of_cons; by left).
  pose proof (tr_gone _ _ _ _ _ Ht k Hk) as Hg. destruct (tr_had _ _ _ _ _ Ht k Hk) as [e He].
  rewrite (Hsame k), He in Hg; [done|]. intros ->. by apply (tr_kept _ _ _ _ _ Ht).
Qed.
