(* ===== verification/Rdb.v ===== *)
(** Snapshots of [src/persistence/rdb.c]: the writer with its checksum, the
    atomic replacement of the snapshot file, and the loader.

    A file is the list of its bytes.  The results of the system calls are
    arguments: [write] may transfer any part of a buffer, be interrupted or
    fail.  [errno] is not represented.  A score is its 64-bit pattern, so the
    copies between [double] and [uint64_t] are the identity. *)

From S2P Require Import Prelude HashTable ZOrder Object Cache.

Definition RDB_MAGIC : list Z := lit "KVRDB001".

Definition RDB_TYPE_STRING : Z := 0.
Definition RDB_TYPE_HASH : Z := 1.
Definition RDB_TYPE_ZSET : Z := 2.
Definition RDB_TYPE_END : Z := 255.

Definition RDB_CRC64_POLY : Z := 0x42f0e1eba9ea3693.

Definition RDB_CHECKPOINT_TOKEN_SIZE : Z := 16.

Record rdb_checkpoint : Type := mk_checkpoint { aof_offset : Z; token : list Z; cp_valid : bool }.

Record rdb_stats : Type := mk_rdb_stats {
  snapshot_time_ms : Z; rs_keys : Z; rs_string_keys : Z; rs_hash_keys : Z; rs_zset_keys : Z;
  rs_hash_fields : Z; rs_zset_members : Z; rs_bytes : Z
}.

Definition zero_stats : rdb_stats := mk_rdb_stats 0 0 0 0 0 0 0 0.

Definition with_snapshot_time (x : Z) (s : rdb_stats) : rdb_stats :=
  mk_rdb_stats x (rs_keys s) (rs_string_keys s) (rs_hash_keys s) (rs_zset_keys s)
    (rs_hash_fields s) (rs_zset_members s) (rs_bytes s).

Definition with_bytes (x : Z) (s : rdb_stats) : rdb_stats :=
  mk_rdb_stats (snapshot_time_ms s) (rs_keys s) (rs_string_keys s) (rs_hash_keys s) (rs_zset_keys s)
    (rs_hash_fields s) (rs_zset_members s) x.

Definition add_key (s : rdb_stats) : rdb_stats :=
  mk_rdb_stats (snapshot_time_ms s) (wrap64 (rs_keys s + 1)) (rs_string_keys s) (rs_hash_keys s)
    (rs_zset_keys s) (rs_hash_fields s) (rs_zset_members s) (rs_bytes s).

(** One more object of type [t] with [count] elements. *)
Definition add_object (t : kv_object_type) (count : Z) (s : rdb_stats) : rdb_stats :=
  match t with
  | KV_OBJECT_STRING =>
      mk_rdb_stats (snapshot_time_ms s) (rs_keys s) (wrap64 (rs_string_keys s + 1)) (rs_hash_keys s)
        (rs_zset_keys s) (rs_hash_fields s) (rs_zset_members s) (rs_bytes s)
  | KV_OBJECT_HASH =>
      mk_rdb_stats (snapshot_time_ms s) (rs_keys s) (rs_string_keys s) (wrap64 (rs_hash_keys s + 1))
        (rs_zset_keys s) (wrap64 (rs_hash_fields s + count)) (rs_zset_members s) (rs_bytes s)
  | KV_OBJECT_ZSET =>
      mk_rdb_stats (snapshot_time_ms s) (rs_keys s) (rs_string_keys s) (rs_hash_keys s)
        (wrap64 (rs_zset_keys s + 1)) (rs_hash_fields s) (wrap64 (rs_zset_members s + count)) (rs_bytes s)
  end.

(** ** Checksum and integers *)

Definition crc64_bit (crc : Z) : Z :=
  if negb (Z.land crc 0x8000000000000000 =? 0)
  then Z.lxor (wrap64 (Z.shiftl crc 1)) RDB_CRC64_POLY
  else wrap64 (Z.shiftl crc 1).

Definition crc64_byte (crc byte : Z) : Z :=
  Nat.iter 8 crc64_bit (Z.lxor crc (Z.shiftl byte 56)).

Definition crc64_update (crc : Z) (data : list Z) : Z := fold_left crc64_byte data crc.

(** The loop stores [output[7 - index]], so each byte goes before the ones
    already stored. *)
Fixpoint encode_u64_loop (n : nat) (value : Z) (output : list Z) : list Z :=
  match n with
  | O => output
  | S n => encode_u64_loop n (Z.shiftr value 8) (Z.land value 0xff :: output)
  end.

Definition encode_u64 (value : Z) : list Z := encode_u64_loop 8 value [].

Definition decode_u64 (input : list Z) : Z :=
  fold_left (fun value b => Z.lor (wrap64 (Z.shiftl value 8)) b) (take 8 input) 0.

(** ** Writing *)

(** The results of [write]: a count, an interruption or another error; when
    the list is exhausted every further call transfers the whole buffer. *)
Inductive write_outcome : Type := Wrote (n : Z) | Interrupted | WriteError.

(** The status, the bytes that reached the file and the unused results. *)
Fixpoint write_all_fd (io : list write_outcome) (data : list Z) : Z * list Z * list write_outcome :=
  match data with
  | [] => (0, [], io)
  | _ =>
      match io with
      | [] => (0, data, [])
      | Wrote n :: io =>
          if n >? 0 then
            let n := Z.to_nat n in
            let '(r, out, io) := write_all_fd io (drop n data) in (r, take n data ++ out, io)
          else (-1, [], io)
      | Interrupted :: io => write_all_fd io data
      | WriteError :: io => (-1, [], io)
      end
  end.

(** [w_file] is what the file [writer->fd] holds. *)
Record rdb_writer : Type := mk_writer {
  w_file : list Z; w_io : list write_outcome;
  w_crc : Z; w_bytes : Z; w_snapshot_time : Z; w_stats : rdb_stats
}.

Definition writer_stats (f : rdb_stats -> rdb_stats) (w : rdb_writer) : rdb_writer :=
  mk_writer (w_file w) (w_io w) (w_crc w) (w_bytes w) (w_snapshot_time w) (f (w_stats w)).

Definition writer_bytes (w : rdb_writer) (data : list Z) : Z * rdb_writer :=
  if zlen data >? UINT64_MAX - w_bytes w then (-1, w) else
  let '(r, out, io) := write_all_fd (w_io w) data in
  if negb (r =? 0)
  then (-1, mk_writer (w_file w ++ out) io (w_crc w) (w_bytes w) (w_snapshot_time w) (w_stats w))
  else (0, mk_writer (w_file w ++ out) io (crc64_update (w_crc w) data) (w_bytes w + zlen data)
             (w_snapshot_time w) (w_stats w)).

Definition writer_u8 (w : rdb_writer) (value : Z) : Z * rdb_writer := writer_bytes w [value mod 256].

Definition writer_u64 (w : rdb_writer) (value : Z) : Z * rdb_writer := writer_bytes w (encode_u64 value).

(** [a != 0 || b != 0 ...]: the next call only after a success. *)
Definition and_then (r : Z * rdb_writer) (f : rdb_writer -> Z * rdb_writer) : Z * rdb_writer :=
  if negb (r.1 =? 0) then (-1, r.2) else f r.2.

Notation "r >>> f" := (and_then r f) (at level 50, left associativity).

Definition write_hash_field (w : rdb_writer) (x : list Z * list Z) : Z * rdb_writer :=
  writer_u64 w (zlen x.1) >>> (fun w => writer_bytes w x.1) >>>
  (fun w => writer_u64 w (zlen x.2)) >>> (fun w => writer_bytes w x.2).

Definition write_zset_member (w : rdb_writer) (x : zelem) : Z * rdb_writer :=
  writer_u64 w (zlen x.2) >>> (fun w => writer_bytes w x.2) >>> (fun w => writer_u64 w x.1).

(** [(unsigned int)type] *)
Definition type_code (t : kv_object_type) : Z :=
  match t with KV_OBJECT_STRING => 0 | KV_OBJECT_HASH => 1 | KV_OBJECT_ZSET => 2 end.

(** The part of an entry that depends on its type. *)
Definition write_value (w : rdb_writer) (o : kv_object) : Z * rdb_writer :=
  match type_of o with
  | KV_OBJECT_STRING =>
      let value := default [] (kv_object_string_value o) in
      writer_u64 w (zlen value) >>> (fun w => writer_bytes w value) >>>
      (fun w => (0, writer_stats (add_object KV_OBJECT_STRING (zlen value)) w))
  | KV_OBJECT_HASH =>
      let count := kv_object_hash_length o in
      writer_u64 w count >>> (fun w => kv_object_hash_visit o write_hash_field w) >>>
      (fun w => (0, writer_stats (add_object KV_OBJECT_HASH count) w))
  | KV_OBJECT_ZSET =>
      let count := kv_object_zset_length o in
      writer_u64 w count >>>
      (fun w => let '(r, w, visited) := kv_object_zset_range o 0 (-1) write_zset_member w in
                if negb (r =? 0) || negb (visited =? count) then (-1, w) else (0, w)) >>>
      (fun w => (0, writer_stats (add_object KV_OBJECT_ZSET count) w))
  end.

Definition write_cache_entry (w : rdb_writer) (x : list Z * cache_entry) : Z * rdb_writer :=
  let '(key, e) := x in
  if negb (e_expire e =? 0) && (e_expire e <=? w_snapshot_time w) then (0, w) else
  writer_u8 w (type_code (type_of (e_object e))) >>> (fun w => writer_u64 w (e_expire e)) >>>
  (fun w => writer_u64 w (zlen key)) >>> (fun w => writer_bytes w key) >>>
  (fun w => write_value w (e_object e)) >>> (fun w => (0, writer_stats add_key w)).

Record rdb_counter : Type := mk_counter { ct_time : Z; ct_keys : Z }.

Definition count_cache_entry (counter : rdb_counter) (x : list Z * cache_entry) : Z * rdb_counter :=
  if (e_expire x.2 =? 0) || (e_expire x.2 >? ct_time counter) then
    if ct_keys counter =? UINT64_MAX then (-1, counter)
    else (0, mk_counter (ct_time counter) (ct_keys counter + 1))
  else (0, counter).

(** ** Saving *)

(** What the file system and the system calls of one save answer.
    [se_temporary] is the name [mkstemp] makes; [se_clock] is [None] when the
    clock cannot be read. *)
Record save_env : Type := mk_save_env {
  se_malloc : bool; se_temporary : list Z; se_mkstemp : bool; se_fchmod : bool; se_clock : option Z;
  se_io : list write_outcome; se_fdatasync : bool; se_close : bool; se_rename : bool;
  se_directory : bool * bool * bool * bool
}.

Abbreviation files := (gmap (list Z) (list Z)).

(** The directory of [path] is opened, synced and closed. *)
Definition sync_parent_directory (path : list Z) (env : bool * bool * bool * bool) : Z :=
  let '(allocated, opened, synced, closed) := env in
  if bool_decide (47 ∈ path) && negb allocated then -1 else
  if negb opened then -1 else
  let result := if synced then 0 else -1 in
  if negb closed && (result =? 0) then -1 else result.

(** The bytes of the snapshot up to the footer: status and writer. *)
Definition save_body (w : rdb_writer) (c : cache) (checkpoint : option rdb_checkpoint) (keys : Z)
  : Z * rdb_writer :=
  let valid := match checkpoint with Some cp => cp_valid cp | None => false end in
  writer_bytes w RDB_MAGIC >>> (fun w => writer_u64 w (w_snapshot_time w)) >>>
  (fun w => writer_u64 w keys) >>>
  (fun w => writer_u64 w (match checkpoint with Some cp => if cp_valid cp then aof_offset cp else 0
                                              | None => 0 end)) >>>
  (fun w => writer_u8 w (if valid then 1 else 0)) >>>
  (fun w => match checkpoint with
            | Some cp => if cp_valid cp then writer_bytes w (token cp)
                         else writer_bytes w (replicate (Z.to_nat RDB_CHECKPOINT_TOKEN_SIZE) 0)
            | None => writer_bytes w (replicate (Z.to_nat RDB_CHECKPOINT_TOKEN_SIZE) 0)
            end) >>>
  (fun w => cache_visit c write_cache_entry w) >>> (fun w => writer_u8 w RDB_TYPE_END).

(** The result, the files afterwards and the value of [*stats] if written. *)
Definition rdb_save (env : save_env) (fs : files) (path : list Z) (c : cache)
    (checkpoint : option rdb_checkpoint) : Z * files * option rdb_stats :=
  if zlen path =? 0 then (-1, fs, None) else
  if zlen path >? SIZE_MAX - 16 then (-1, fs, None) else
  if negb (se_malloc env) then (-1, fs, None) else
  let temporary := se_temporary env in
  (* the cleanup of a failed save *)
  let failed (fs : files) := (-1, delete temporary fs, None) in
  if negb (se_mkstemp env) then failed fs else
  let fs := <[temporary := []]> fs in
  if negb (se_fchmod env) then failed fs else
  match se_clock env with
  | None => failed fs
  | Some now =>
      let '(counted, counter) := cache_visit c count_cache_entry (mk_counter now 0) in
      if negb (counted =? 0) then failed fs else
      let w := mk_writer [] (se_io env) 0 0 now (with_snapshot_time now zero_stats) in
      let '(r, w) := save_body w c checkpoint (ct_keys counter) in
      let fs := <[temporary := w_file w]> fs in
      if negb (r =? 0) then failed fs else
      if negb (rs_keys (w_stats w) =? ct_keys counter) then failed fs else
      let '(r, out, _) := write_all_fd (w_io w) (encode_u64 (w_crc w)) in
      let fs := <[temporary := w_file w ++ out]> fs in
      if negb (r =? 0) then failed fs else
      if negb (se_fdatasync env) || negb (se_close env) then failed fs else
      if negb (se_rename env) then failed fs else
      let fs := <[path := w_file w ++ out]> (delete temporary fs) in
      if negb (sync_parent_directory path (se_directory env) =? 0) then failed fs else
      (0, fs, Some (with_bytes (wrap64 (w_bytes w + 8)) (w_stats w)))
  end.

(** ** Loading *)

Record rdb_reader : Type := mk_reader { rd_data : list Z; rd_size : Z; rd_position : Z }.

Definition reader_bytes (rd : rdb_reader) (length : Z) : option (list Z) * rdb_reader :=
  if length >? rd_size rd - rd_position rd then (None, rd)
  else (Some (sub_bytes (rd_data rd) (rd_position rd) length),
        mk_reader (rd_data rd) (rd_size rd) (rd_position rd + length)).

Definition reader_u8 (rd : rdb_reader) : option Z * rdb_reader :=
  let '(data, rd) := reader_bytes rd 1 in (data ≫= head, rd).

Definition reader_u64 (rd : rdb_reader) : option Z * rdb_reader :=
  let '(data, rd) := reader_bytes rd 8 in (decode_u64 <$> data, rd).

Definition u64_size (value : Z) : option Z := if value >? SIZE_MAX then None else Some value.

(** [reader_u64], [u64_size] and [reader_bytes] in sequence. *)
Definition reader_string (rd : rdb_reader) : option (list Z) * rdb_reader :=
  let '(raw, rd) := reader_u64 rd in
  match raw ≫= u64_size with
  | None => (None, rd)
  | Some length => reader_bytes rd length
  end.

(** The loop over the fields of a hash. *)
Fixpoint load_hash_fields (count : nat) (m : mem) (rd : rdb_reader) (o : kv_object)
  : option kv_object * rdb_reader * mem :=
  match count with
  | O => (Some o, rd, m)
  | S count =>
      let '(field, rd) := reader_string rd in
      match field with
      | None => (None, rd, m)
      | Some field =>
          let '(value, rd) := reader_string rd in
          match value with
          | None => (None, rd, m)
          | Some value =>
              let '(w, o, m) := kv_object_hash_set m o (Some field) (Some value) in
              if negb (w_status w =? 0) || negb (w_added w) then (None, rd, m)
              else load_hash_fields count m rd o
          end
      end
  end.

(** The loop over the members of a sorted set. *)
Fixpoint load_zset_members (count : nat) (m : mem) (rd : rdb_reader) (o : kv_object)
  : option kv_object * rdb_reader * mem :=
  match count with
  | O => (Some o, rd, m)
  | S count =>
      let '(member, rd) := reader_string rd in
      match member with
      | None => (None, rd, m)
      | Some member =>
          let '(score, rd) := reader_u64 rd in
          match score with
          | None => (None, rd, m)
          | Some score =>
              let '(w, o, m) := kv_object_zset_add m o score (Some member) in
              if negb (w_status w =? 0) || negb (w_added w) then (None, rd, m)
              else load_zset_members count m rd o
          end
      end
  end.

(** The object of a record: [None] is an error. *)
Definition load_value (m : mem) (rd : rdb_reader) (zset_engine : kv_zset_engine) (type count : Z)
  : option kv_object * rdb_reader * mem :=
  if type =? RDB_TYPE_STRING then
    let '(value, rd) := reader_bytes rd count in
    match value with
    | None => (None, rd, m)
    | Some value => let '(o, m) := kv_object_create_string m (Some value) in (o, rd, m)
    end
  else if type =? RDB_TYPE_HASH then
    match kv_object_create_hash m with
    | (None, m) => (None, rd, m)
    | (Some o, m) => load_hash_fields (Z.to_nat count) m rd o
    end
  else if type =? RDB_TYPE_ZSET then
    match kv_object_create_zset m zset_engine with
    | (None, m) => (None, rd, m)
    | (Some o, m) => load_zset_members (Z.to_nat count) m rd o
    end
  else (None, rd, m).

(** [clock] and [later] are the readings of the cache's own clock while it
    stores. *)
Definition load_object (m : mem) (clock later : Z) (rd : rdb_reader) (c : cache) (zset_engine : kv_zset_engine)
    (type expire_at : Z) (key : list Z) (now_ms : Z) (s : rdb_stats)
  : Z * rdb_reader * cache * rdb_stats * mem :=
  let expired := negb (expire_at =? 0) && (expire_at <=? now_ms) in
  let '(raw_count, rd) := reader_u64 rd in
  match raw_count ≫= u64_size with
  | None => (-1, rd, c, s, m)
  | Some count =>
      let '(object, rd, m) := load_value m rd zset_engine type count in
      match object with
      | None => (-1, rd, c, s, m)
      | Some o =>
          let s := if expired then s else add_object (type_of o) count s in
          if expired then (0, rd, c, s, m) else
          let '(r, c, m) := cache_store_object m clock later c (Some key) o expire_at false in
          if bool_decide (r = CACHE_SET_OK) then (0, rd, c, add_key s, m) else (-1, rd, c, s, m)
      end
  end.

(** The loop over the records.  An iteration reads at least one byte, so
    [fuel] of more than the bytes left is never used up.  [clock] has the
    readings of the clock, two for each record. *)
Fixpoint load_records (fuel : nat) (m : mem) (clock : nat -> Z) (rd : rdb_reader) (c : cache)
    (zset_engine : kv_zset_engine) (now_ms : Z) (s : rdb_stats) (records : Z)
  : option (rdb_reader * rdb_stats * Z) * cache :=
  match fuel with
  | O => (None, c)
  | S fuel =>
      let '(type, rd) := reader_u8 rd in
      match type with
      | None => (None, c)
      | Some type =>
          if type =? RDB_TYPE_END then (Some (rd, s, records), c) else
          let '(expire_at, rd) := reader_u64 rd in
          match expire_at with
          | None => (None, c)
          | Some expire_at =>
              let '(key, rd) := reader_string rd in
              match key with
              | None => (None, c)
              | Some key =>
                  let '(r, rd, c, s, m) :=
                    load_object m (clock (2 * fuel)%nat) (clock (2 * fuel + 1)%nat) rd c zset_engine type expire_at key now_ms s in
                  if negb (r =? 0) then (None, c) else
                  if records =? UINT64_MAX then (None, c) else
                  load_records fuel m clock rd c zset_engine now_ms s (records + 1)
              end
          end
      end
  end.

(** The header: snapshot time, declared keys and checkpoint. *)
Definition load_header (rd : rdb_reader) : option (Z * Z * rdb_checkpoint) * rdb_reader :=
  let '(magic, rd) := reader_bytes rd (zlen RDB_MAGIC) in
  if negb (bool_decide (magic = Some RDB_MAGIC)) then (None, rd) else
  let '(time, rd) := reader_u64 rd in
  let '(keys, rd) := reader_u64 rd in
  let '(offset, rd) := reader_u64 rd in
  let '(valid, rd) := reader_u8 rd in
  let '(tok, rd) := reader_bytes rd RDB_CHECKPOINT_TOKEN_SIZE in
  match time, keys, offset, valid, tok with
  | Some time, Some keys, Some offset, Some valid, Some tok =>
      if valid >? 1 then (None, rd)
      else (Some (time, keys, mk_checkpoint offset tok (negb (valid =? 0))), rd)
  | _, _, _, _, _ => (None, rd)
  end.

(** Loading the bytes of a file; [now_ms] is the reading of
    [cache_current_time_ms]. *)
Definition load_image (m : mem) (clock : nat -> Z) (now_ms : Z) (image : list Z) (c : cache)
    (zset_engine : kv_zset_engine) : option (rdb_checkpoint * rdb_stats) * cache :=
  let size := zlen image in
  if size <? 58 then (None, c) else
  let stored_crc := decode_u64 (drop (Z.to_nat (size - 8)) image) in
  let calculated_crc := crc64_update 0 (take (Z.to_nat (size - 8)) image) in
  if negb (stored_crc =? calculated_crc) then (None, c) else
  let '(header, rd) := load_header (mk_reader image (size - 8) 0) in
  match header with
  | None => (None, c)
  | Some (time, declared_keys, checkpoint) =>
      let '(loaded, c) :=
        load_records (S (Z.to_nat size)) m clock rd c zset_engine now_ms
          (with_snapshot_time time zero_stats) 0 in
      match loaded with
      | None => (None, c)
      | Some (rd, s, records) =>
          if negb (rd_position rd =? rd_size rd) then (None, c) else
          if negb (records =? declared_keys) then (None, c) else
          (Some (checkpoint, with_bytes size s), c)
      end
  end.

(** [opened], [stated] and [mapped] are the outcomes of [open], [fstat] and
    [mmap]. *)
Definition rdb_load (m : mem) (opened stated mapped : bool) (clock : nat -> Z) (now_ms : Z) (fs : files)
    (path : list Z) (c : cache) (zset_engine : kv_zset_engine)
  : Z * cache * option (rdb_checkpoint * rdb_stats) :=
  if zlen path =? 0 then (-1, c, None) else
  match fs !! path with
  | Some image =>
      if negb opened || negb stated || negb mapped then (-1, c, None) else
      let '(r, c) := load_image m clock now_ms image c zset_engine in
      (match r with Some _ => 0 | None => -1 end, c, r)
  | None => (-1, c, None)
  end.
