(* ===== verification/RdbImage.v ===== *)
(** The bytes of a snapshot: the integer codec and the checksum of
    [src/persistence/rdb.c], the reference image of a cache, and the proof that
    the writer produces it and that a save replaces the file atomically. *)

From S2P Require Import Prelude HashTable ZOrder Object ExpireHeap LruList Cache CacheSpec CacheProps Rdb.

(** ** The integer codec *)

Fixpoint big_endian (n : nat) (v : Z) : list Z :=
  match n with
  | O => []
  | S n => big_endian n (v / 256) ++ [v mod 256]
  end.

Lemma encode_loop_big_endian n v out : encode_u64_loop n v out = big_endian n v ++ out.
Proof.
  revert v out. induction n as [|n IH]; intros v out; cbn [encode_u64_loop big_endian]; [done|].
  rewrite IH. change 0xff with (Z.ones 8). rewrite Z.land_ones by lia.
  rewrite Z.shiftr_div_pow2 by lia. change (2 ^ 8) with 256. by rewrite <- app_assoc.
Qed.

Lemma encode_u64_big_endian v : encode_u64 v = big_endian 8 v.
Proof. unfold encode_u64. by rewrite encode_loop_big_endian, app_nil_r. Qed.

Lemma length_big_endian n v : length (big_endian n v) = n.
Proof. revert v. induction n as [|n IH]; intros v; cbn [big_endian]; [done|]. rewrite length_app, IH. cbn. lia. Qed.

Lemma lor_byte a b : 0 <= b < 256 -> Z.lor (a * 256) b = a * 256 + b.
Proof.
  intros Hb. rewrite <- Z.add_nocarry_lor; [lia|]. apply Z.bits_inj_0. intros i. rewrite Z.land_spec.
  destruct (Z.lt_decidable i 8) as [Hlt|Hge].
  - change 256 with (2 ^ 8). rewrite Z.mul_pow2_bits_low by done. done.
  - destruct (Z.eq_dec b 0) as [->|Hne]; [by rewrite Z.testbit_0_l, andb_false_r|].
    rewrite (Z.bits_above_log2 b i), andb_false_r; [done|lia|].
    assert (Z.log2 b < 8) by (apply Z.log2_lt_pow2; lia). lia.
Qed.

Definition decode_step (v b : Z) : Z := Z.lor (wrap64 (Z.shiftl v 8)) b.

Lemma decode_big_endian n v a :
  0 <= v < 256 ^ Z.of_nat n -> 0 <= a -> a * 256 ^ Z.of_nat n + v < 2 ^ 64 ->
  fold_left decode_step (big_endian n v) a = a * 256 ^ Z.of_nat n + v.
Proof.
  revert v. induction n as [|n IH]; intros v Hv Ha Hb; cbn [big_endian fold_left].
  { change (256 ^ Z.of_nat 0) with 1 in *. lia. }
  rewrite Nat2Z.inj_succ, Z.pow_succ_r in * by lia. set (p := 256 ^ Z.of_nat n) in *.
  pose proof (Z.div_mod v 256 ltac:(lia)). pose proof (Z.mod_pos_bound v 256 ltac:(lia)).
  assert (0 <= v / 256 < p) by (split; [apply Z.div_pos; lia|apply Z.div_lt_upper_bound; lia]).
  assert (0 <= a * p) by (apply Z.mul_nonneg_nonneg; lia).
  rewrite fold_left_app, IH by nia. cbn [fold_left]. unfold decode_step.
  rewrite Z.shiftl_mul_pow2 by lia. change (2 ^ 8) with 256.
  rewrite wrap64_small by (unfold UINT64_MAX; nia).
  rewrite lor_byte by lia. nia.
Qed.

Lemma zlen_encode_u64 v : zlen (encode_u64 v) = 8.
Proof. unfold zlen. by rewrite encode_u64_big_endian, length_big_endian. Qed.

Lemma decode_encode_app v rest : u64_ok v -> decode_u64 (encode_u64 v ++ rest) = v.
Proof.
  intros Hv. unfold decode_u64. rewrite take_app_le by (rewrite encode_u64_big_endian, length_big_endian; lia).
  rewrite take_ge by (rewrite encode_u64_big_endian, length_big_endian; lia).
  rewrite encode_u64_big_endian. fold decode_step.
  unfold u64_ok, UINT64_MAX in Hv. rewrite decode_big_endian; [lia|change (256 ^ Z.of_nat 8) with (2 ^ 64); lia|lia|lia].
Qed.

Lemma decode_encode v : u64_ok v -> decode_u64 (encode_u64 v) = v.
Proof. intros Hv. rewrite <- (app_nil_r (encode_u64 v)). by apply decode_encode_app. Qed.

Lemma big_endian_bytes n v : bytes_ok (big_endian n v).
Proof.
  revert v. induction n as [|n IH]; intros v; cbn [big_endian]; [constructor|].
  apply Forall_app. split; [apply IH|]. constructor; [|constructor].
  unfold byte_ok. apply Z.mod_pos_bound. lia.
Qed.

(** ** The checksum *)

Lemma crc64_update_app crc a b : crc64_update crc (a ++ b) = crc64_update (crc64_update crc a) b.
Proof. apply fold_left_app. Qed.

Lemma lxor_range n a b : 0 < n -> 0 <= a < 2 ^ n -> 0 <= b < 2 ^ n -> 0 <= Z.lxor a b < 2 ^ n.
Proof.
  intros Hn Ha Hb. assert (0 <= Z.lxor a b) by (apply Z.lxor_nonneg; lia). split; [done|].
  destruct (Z.eq_dec (Z.lxor a b) 0) as [->|Hne]; [lia|].
  apply Z.log2_lt_pow2; [lia|]. pose proof (Z.log2_lxor a b ltac:(lia) ltac:(lia)).
  assert (Z.log2 a < n) by (destruct (Z.eq_dec a 0) as [->|]; [cbn; lia|apply Z.log2_lt_pow2; lia]).
  assert (Z.log2 b < n) by (destruct (Z.eq_dec b 0) as [->|]; [cbn; lia|apply Z.log2_lt_pow2; lia]). lia.
Qed.

Lemma crc64_bit_range c : u64_ok c -> u64_ok (crc64_bit c).
Proof.
  intros Hc. pose proof (wrap64_range (Z.shiftl c 1)) as Hw. unfold crc64_bit, u64_ok, UINT64_MAX in *.
  case_match; [|done].
  pose proof (lxor_range 64 (wrap64 (Z.shiftl c 1)) RDB_CRC64_POLY ltac:(lia) ltac:(lia)) as Hx.
  unfold RDB_CRC64_POLY in *. lia.
Qed.

(** The top bit decides the branch and is shifted out. *)
Lemma crc64_bit_eq c :
  u64_ok c ->
  crc64_bit c = if c <? 2 ^ 63 then 2 * c else Z.lxor (2 * (c - 2 ^ 63)) RDB_CRC64_POLY.
Proof.
  intros Hc. unfold u64_ok, UINT64_MAX in Hc. unfold crc64_bit.
  rewrite Z.shiftl_mul_pow2 by lia. change (2 ^ 1) with 2.
  assert (Htop : Z.land c 0x8000000000000000 = if c <? 2 ^ 63 then 0 else 2 ^ 63).
  { change 0x8000000000000000 with (2 ^ 63). apply Z.bits_inj'. intros i Hi. rewrite Z.land_spec, Z.pow2_bits_eqb by lia.
    assert (Hb : Z.testbit c 63 = negb (c <? 2 ^ 63)).
    { destruct (Z.ltb_spec c (2 ^ 63)); cbn [negb].
      - apply Z.testbit_false; [lia|]. by rewrite Z.div_small by lia.
      - apply Z.testbit_true; [lia|].
        assert (c / 2 ^ 63 = 1) as -> by (symmetry; apply Z.div_unique with (c - 2 ^ 63); lia). done. }
    destruct (Z.eqb_spec 63 i) as [<-|Hne]; [rewrite Hb|rewrite andb_false_r];
      destruct (c <? 2 ^ 63); rewrite ?Z.testbit_0_l, ?Z.pow2_bits_eqb by lia; try done;
      symmetry; apply Z.eqb_neq; done. }
  rewrite Htop. destruct (Z.ltb_spec c (2 ^ 63)); cbn [negb].
  - change (0 =? 0) with true. cbn [negb]. rewrite wrap64_small by (unfold UINT64_MAX; lia). lia.
  - change (2 ^ 63 =? 0) with false. cbn [negb]. f_equal. unfold wrap64.
    symmetry. apply Z.mod_unique with 1; lia.
Qed.

Lemma lxor_inj_r a b c : Z.lxor a c = Z.lxor b c -> a = b.
Proof.
  intros H. rewrite <- (Z.lxor_0_r a), <- (Z.lxor_nilpotent c), <- Z.lxor_assoc, H.
  by rewrite Z.lxor_assoc, Z.lxor_nilpotent, Z.lxor_0_r.
Qed.

(** The polynomial is odd, so a step loses no information. *)
Lemma crc64_bit_inj a b : u64_ok a -> u64_ok b -> crc64_bit a = crc64_bit b -> a = b.
Proof.
  intros Ha Hb. rewrite !crc64_bit_eq by done.
  assert (Hodd : forall x, Z.testbit (Z.lxor (2 * x) RDB_CRC64_POLY) 0 = true).
  { intros x. rewrite Z.lxor_spec, Z.testbit_even_0. done. }
  destruct (Z.ltb_spec a (2 ^ 63)), (Z.ltb_spec b (2 ^ 63)); intros Heq.
  - lia.
  - specialize (Hodd (b - 2 ^ 63)). rewrite <- Heq, Z.testbit_even_0 in Hodd. done.
  - specialize (Hodd (a - 2 ^ 63)). rewrite Heq, Z.testbit_even_0 in Hodd. done.
  - apply lxor_inj_r in Heq. lia.
Qed.

Lemma iter_bit_range n c : u64_ok c -> u64_ok (Nat.iter n crc64_bit c).
Proof. intros Hc. induction n as [|n IH]; [done|]. rewrite Nat.iter_succ. by apply crc64_bit_range. Qed.

Lemma iter_bit_inj n a b :
  u64_ok a -> u64_ok b -> Nat.iter n crc64_bit a = Nat.iter n crc64_bit b -> a = b.
Proof.
  intros Ha Hb. induction n as [|n IH]; [done|]. rewrite !Nat.iter_succ. intros H.
  apply IH, crc64_bit_inj; [by apply iter_bit_range..|done].
Qed.

Lemma byte_top b : byte_ok b -> 0 <= Z.shiftl b 56 < 2 ^ 64.
Proof. intros [H1 H2]. rewrite Z.shiftl_mul_pow2 by lia. lia. Qed.

Lemma crc_in_range c b : u64_ok c -> byte_ok b -> u64_ok (Z.lxor c (Z.shiftl b 56)).
Proof.
  intros Hc Hb. pose proof (byte_top b Hb). unfold u64_ok, UINT64_MAX in *.
  pose proof (lxor_range 64 c (Z.shiftl b 56)). lia.
Qed.

Lemma crc64_update_range c l : u64_ok c -> bytes_ok l -> u64_ok (crc64_update c l).
Proof.
  revert c. induction l as [|b l IH]; intros c Hc Hl; [done|]. apply Forall_cons in Hl as [Hb Hl].
  cbn [crc64_update fold_left]. apply IH; [|done]. apply iter_bit_range. by apply crc_in_range.
Qed.

Lemma crc64_update_inj a b l :
  u64_ok a -> u64_ok b -> bytes_ok l -> crc64_update a l = crc64_update b l -> a = b.
Proof.
  revert a b. induction l as [|x l IH]; intros a b Ha Hb Hl; [done|]. apply Forall_cons in Hl as [Hx Hl].
  cbn [crc64_update fold_left]. intros H. apply IH in H; [|by apply iter_bit_range, crc_in_range..|done].
  apply iter_bit_inj in H; [|by apply crc_in_range..]. by apply lxor_inj_r in H.
Qed.

(** Two byte strings that differ in one byte have different checksums. *)
Lemma crc64_one_byte pre x y post :
  bytes_ok pre -> byte_ok x -> byte_ok y -> bytes_ok post -> x <> y ->
  crc64_update 0 (pre ++ x :: post) <> crc64_update 0 (pre ++ y :: post).
Proof.
  intros Hp Hx Hy Hpo Hne H. rewrite !crc64_update_app in H. cbn [crc64_update fold_left] in H.
  set (c := fold_left crc64_byte pre 0) in *.
  assert (Hc : u64_ok c) by (apply (crc64_update_range 0 pre); [split; vm_compute; discriminate|done]).
  apply crc64_update_inj in H; [|by apply iter_bit_range, crc_in_range..|done].
  apply iter_bit_inj in H; [|by apply crc_in_range..].
  rewrite !(Z.lxor_comm c) in H. apply lxor_inj_r in H. apply Hne.
  rewrite !Z.shiftl_mul_pow2 in H by lia. lia.
Qed.

(** ** The writer *)

Lemma write_all_fd_spec io data :
  let '(r, out, io') := write_all_fd io data in
  (r = 0 /\ out = data \/ r = -1 /\ exists rest, data = out ++ rest) /\ (io = [] -> r = 0 /\ io' = []).
Proof.
  revert data. induction io as [|x io IH]; intros data; cbn [write_all_fd].
  - by destruct data as [|b data]; cbn iota beta; auto.
  - destruct data as [|b data]; [cbn iota beta; split; [by left|done]|]. set (d := b :: data) in *.
    enough (Hd : let '(r, out, io') := match x with
        | Wrote n => if n >? 0 then let n := Z.to_nat n in
            let '(r, out, io) := write_all_fd io (drop n d) in (r, take n d ++ out, io) else (-1, [], io)
        | Interrupted => write_all_fd io d
        | WriteError => (-1, [], io) end in r = 0 /\ out = d \/ r = -1 /\ exists rest, d = out ++ rest).
    { destruct x as [n| |]; cbn zeta in *; (destruct (write_all_fd io _) as [[r out] io'] || idtac);
        [destruct (n >? 0)| |]; (split; [exact Hd|done]). }
    destruct x as [n| |]; cbn zeta.
    + destruct (n >? 0); [|right; split; [done|by exists d]].
      specialize (IH (drop (Z.to_nat n) d)). destruct (write_all_fd io (drop (Z.to_nat n) d)) as [[r out] io'].
      destruct IH as [[[-> ->]|[-> [rest Hr]]] _]; [left|right].
      * split; [done|]. apply take_drop.
      * split; [done|]. exists rest. by rewrite <- app_assoc, <- Hr, take_drop.
    + specialize (IH d). destruct (write_all_fd io d) as [[r out] io']. apply IH.
    + right. split; [done|]. by exists d.
Qed.

(** [res] is what a routine returns that writes [data] and applies [f] to the
    statistics: on success exactly that happened, and it succeeds when every
    [write] does and the byte counter does not overflow. *)
Record writes (data : list Z) (f : rdb_stats -> rdb_stats) (w : rdb_writer) (res : Z * rdb_writer) : Prop := {
  wr_done : res.1 = 0 -> w_file res.2 = w_file w ++ data /\ w_crc res.2 = crc64_update (w_crc w) data /\
            w_bytes res.2 = w_bytes w + zlen data /\ w_stats res.2 = f (w_stats w);
  wr_time : w_snapshot_time res.2 = w_snapshot_time w;
  wr_succeeds : w_io w = [] -> w_bytes w + zlen data <= UINT64_MAX -> res.1 = 0 /\ w_io res.2 = [];
  wr_append : exists more, w_file res.2 = w_file w ++ more
}.

Lemma writer_bytes_spec w data : writes data id w (writer_bytes w data).
Proof.
  unfold writer_bytes. destruct (Z.gtb_spec (zlen data) (UINT64_MAX - w_bytes w)).
  - split; [done|done|cbn; lia|]. exists []. by rewrite app_nil_r.
  - pose proof (write_all_fd_spec (w_io w) data) as Hw. destruct (write_all_fd (w_io w) data) as [[r out] io].
    destruct Hw as [Hw Hio]. destruct (Z.eqb_spec r 0) as [->|Hne]; cbn [negb].
    + destruct Hw as [[_ ->]|[? _]]; [|done]. split; [done|done| |by eexists]. cbn. intros E _. by apply Hio.
    + split; [done|done| |by eexists]. cbn. intros E _. by destruct (Hio E).
Qed.

Lemma writes_nil f w : writes [] f w (0, writer_stats f w).
Proof.
  split; cbn; [|done|done|exists []; by rewrite app_nil_r].
  intros _. rewrite app_nil_r, zlen_nil, Z.add_0_r. done.
Qed.

(** Sequencing. *)
Lemma writes_then d1 d2 f g w r k :
  writes d1 f w r -> (forall w', w_snapshot_time w' = w_snapshot_time w -> writes d2 g w' (k w')) ->
  writes (d1 ++ d2) (fun s => g (f s)) w (r >>> k).
Proof.
  intros [H1 H2 H3 [m1 H4]] Hk. unfold and_then. destruct (Z.eqb_spec r.1 0) as [Hr|Hr]; cbn [negb].
  - destruct (Hk r.2 H2) as [K1 K2 K3 [m2 K4]]. destruct (H1 Hr) as (A1 & A2 & A3 & A4). split.
    + intros E. destruct (K1 E) as (B1 & B2 & B3 & B4). rewrite B1, B2, B3, B4, A1, A2, A3, A4.
      rewrite crc64_update_app, app_assoc, zlen_app. split_and!; try done. lia.
    + congruence.
    + rewrite zlen_app. intros E Hb. pose proof (zlen_nonneg d1). pose proof (zlen_nonneg d2).
      destruct (H3 E) as [_ E2]; [lia|]. apply K3; [done|lia].
    + exists (m1 ++ m2). by rewrite K4, H4, app_assoc.
  - split; cbn [fst snd]; [done|done| |by exists m1].
    rewrite zlen_app. intros E Hb. pose proof (zlen_nonneg d2). destruct (H3 E) as [? _]; [lia|]. done.
Qed.

Lemma writes_equal d d' f f' w r : writes d f w r -> d = d' -> (forall s, f s = f' s) -> writes d' f' w r.
Proof. intros [H1 H2 H3 H4] -> Hf. split; [|done|done|done]. intros E. rewrite <- Hf. by apply H1. Qed.

(** The visiting loop writes the elements one after the other. *)
Lemma visit_writes {X} (cb : rdb_writer -> X -> Z * rdb_writer) (enc : X -> list Z) (f : X -> rdb_stats -> rdb_stats) l w :
  (forall x w', x ∈ l -> w_snapshot_time w' = w_snapshot_time w -> writes (enc x) (f x) w' (cb w' x)) ->
  writes (concat (enc <$> l)) (fun s => fold_left (fun s x => f x s) l s) w (visit cb w l).
Proof.
  revert w. induction l as [|x l IH]; intros w Hcb; cbn [visit fmap list_fmap concat fold_left].
  { eapply (writes_equal [] _ id id); [|done|done]. split; cbn; [|done|done|exists []; by rewrite app_nil_r].
    intros _. by rewrite app_nil_r, zlen_nil, Z.add_0_r. }
  assert (Heq : (let '(r, w1) := cb w x in if negb (r =? 0) then (-1, w1) else visit cb w1 l)
                = cb w x >>> (fun w => visit cb w l)) by (unfold and_then; by destruct (cb w x)).
  rewrite Heq. apply (writes_then (enc x) _ (f x)).
  - apply Hcb; [apply elem_of_cons; by left|done].
  - intros w' Hw'. apply IH. intros y w'' Hy Hw''. apply Hcb; [apply elem_of_cons; by right|congruence].
Qed.

(** ** The image of a snapshot *)

Definition string_image (s : list Z) : list Z := encode_u64 (zlen s) ++ s.

Definition field_image (x : list Z * list Z) : list Z := string_image x.1 ++ string_image x.2.

Definition member_image (x : zelem) : list Z := string_image x.2 ++ encode_u64 x.1.

(** The elements of a sorted set, by rank. *)
Definition zset_list (set : zset) : list zelem :=
  ordered_range (zs_order set) 0 (Z.to_nat (kv_hash_count (zs_members set))).

Definition value_image (o : kv_object) : list Z :=
  match o_value o with
  | VString l _ => string_image l
  | VHash table => encode_u64 (kv_hash_count table) ++ concat (field_image <$> hash_fields table)
  | VZset set => encode_u64 (kv_hash_count (zs_members set)) ++ concat (member_image <$> zset_list set)
  end.

Definition items_in (o : kv_object) : Z :=
  match o_value o with
  | VString l _ => zlen l
  | VHash table => kv_hash_count table
  | VZset set => kv_hash_count (zs_members set)
  end.

Definition entry_image (x : list Z * cache_entry) : list Z :=
  [type_code (type_of (e_object x.2))] ++ encode_u64 (e_expire x.2) ++ string_image x.1 ++ value_image (e_object x.2).

(** The entries a snapshot of the time [time] contains. *)
Definition saved (time : Z) (e : cache_entry) : bool := (e_expire e =? 0) || (e_expire e >? time).

Definition header_image (time keys : Z) (checkpoint : option rdb_checkpoint) : list Z :=
  let cp := match checkpoint with
            | Some cp => if cp_valid cp then cp else mk_checkpoint 0 (replicate 16 0) false
            | None => mk_checkpoint 0 (replicate 16 0) false
            end in
  RDB_MAGIC ++ encode_u64 time ++ encode_u64 keys ++ encode_u64 (aof_offset cp) ++
  [if cp_valid cp then 1 else 0] ++ token cp.

(** The entries in the order of the traversal. *)
Definition entry_list (c : cache) : list (list Z * cache_entry) :=
  omap (fun n => (fun e => (nkey n, e)) <$> c_entries c !! npayload n)
    (iterate (S (Z.to_nat (kv_hash_count (c_index c)))) (c_index c) kv_hash_iterator_begin).

Definition saved_list (time : Z) (c : cache) : list (list Z * cache_entry) :=
  List.filter (fun x => saved time x.2) (entry_list c).

Definition body_image (time : Z) (c : cache) (checkpoint : option rdb_checkpoint) : list Z :=
  header_image time (zlen (saved_list time c)) checkpoint ++
  concat (entry_image <$> saved_list time c) ++ [RDB_TYPE_END].

Definition snapshot_image (time : Z) (c : cache) (checkpoint : option rdb_checkpoint) : list Z :=
  body_image time c checkpoint ++ encode_u64 (crc64_update 0 (body_image time c checkpoint)).

(** An object that the engine structures represent. *)
Definition wf_object (o : kv_object) : Prop := exists ct, holds o ct.

Lemma zset_list_spec o l set : zset_repr o l set -> zset_list set = l.
Proof.
  intros HR. pose proof (zset_length_spec o l (ex_intro _ set HR)) as Hlen.
  unfold kv_object_zset_length in Hlen. rewrite (zr_value _ _ _ HR) in Hlen. unfold zset_list.
  rewrite (order_range_ok _ l) by (apply HR || lia). rewrite Hlen. change (Z.to_nat 0) with 0%nat.
  rewrite drop_0. apply take_ge. unfold zlen. lia.
Qed.

Lemma write_hash_field_spec w x : writes (field_image x) id w (write_hash_field w x).
Proof.
  unfold write_hash_field. eapply writes_equal.
  - do 3 (eapply writes_then; [|intros; apply writer_bytes_spec]). apply writer_bytes_spec.
  - unfold field_image, string_image. by rewrite !app_assoc.
  - done.
Qed.

Lemma write_zset_member_spec w x : writes (member_image x) id w (write_zset_member w x).
Proof.
  unfold write_zset_member. eapply writes_equal.
  - do 2 (eapply writes_then; [|intros; apply writer_bytes_spec]). apply writer_bytes_spec.
  - done.
  - done.
Qed.

Lemma fold_id {X} (l : list X) (s : rdb_stats) : fold_left (fun s _ => id s) l s = s.
Proof. revert s. induction l as [|x l IH]; intros s; [done|]. apply IH. Qed.

Lemma write_value_spec w o : wf_object o -> writes (value_image o) (add_object (type_of o) (items_in o)) w (write_value w o).
Proof.
  intros [ct Ho]. unfold write_value, value_image, items_in, type_of.
  destruct ct as [l|M|engine l]; cbn [holds] in Ho.
  - unfold kv_object_string_value in *. destruct (o_value o) as [l' cap| |]; [|done..]. injection Ho as ->.
    eapply writes_equal; [|apply app_nil_r|].
    + eapply writes_then; [|intros; apply writes_nil].
      eapply writes_then; [apply writer_bytes_spec|intros; apply writer_bytes_spec].
    + done.
  - destruct Ho as (table & HR). unfold kv_object_hash_length, kv_object_hash_visit. rewrite (hr_value _ _ _ HR).
    eapply writes_equal; [|apply app_nil_r|].
    + eapply writes_then; [|intros; apply writes_nil].
      eapply writes_then; [apply writer_bytes_spec|]. intros w' _.
      apply (visit_writes _ field_image (fun _ => id)). intros; apply write_hash_field_spec.
    + intros s. cbn beta. by rewrite fold_id.
  - destruct Ho as [HZ _]. pose proof (zset_length_spec o l HZ) as Hlen. destruct HZ as (set & HR).
    assert (Hr : forall w', kv_object_zset_range o 0 (-1) write_zset_member w' =
        let '(r, w2) := visit write_zset_member w' l in (r, w2, if r =? 0 then zlen l else 0)).
    { intros w'. rewrite (zset_range_spec o l) by (by exists set). by rewrite range_all. }
    rewrite (zr_value _ _ _ HR).
    rewrite (zset_list_spec o l set HR). unfold kv_object_zset_length in *. rewrite (zr_value _ _ _ HR) in *.
    eapply writes_equal; [|apply app_nil_r|].
    + eapply writes_then; [|intros; apply writes_nil].
      eapply writes_then; [apply writer_bytes_spec|]. intros w' _. rewrite Hr.
      pose proof (visit_writes write_zset_member member_image (fun _ => id) l w') as Hv.
      specialize (Hv ltac:(intros; apply write_zset_member_spec)).
      pose proof (visit_status write_zset_member w' l) as Hst.
      destruct (visit write_zset_member w' l) as [r w2]. cbn in Hst. rewrite <- Hlen.
      destruct Hst as [-> | ->]; [|exact Hv]. rewrite !Z.eqb_refl. exact Hv.
    + intros s. cbn beta. by rewrite fold_id.
Qed.

Definition entry_stats (time : Z) (x : list Z * cache_entry) (s : rdb_stats) : rdb_stats :=
  if saved time x.2 then add_key (add_object (type_of (e_object x.2)) (items_in (e_object x.2)) s) else s.

Definition entry_bytes (time : Z) (x : list Z * cache_entry) : list Z :=
  if saved time x.2 then entry_image x else [].

Lemma saved_test time e : negb (e_expire e =? 0) && (e_expire e <=? time) = negb (saved time e).
Proof.
  unfold saved. rewrite negb_orb. f_equal. rewrite Z.gtb_ltb. destruct (Z.ltb_spec time (e_expire e)), (Z.leb_spec (e_expire e) time); lia || done.
Qed.

Lemma write_cache_entry_spec w x :
  wf_object (e_object x.2) ->
  writes (entry_bytes (w_snapshot_time w) x) (entry_stats (w_snapshot_time w) x) w (write_cache_entry w x).
Proof.
  intros Ho. destruct x as [key e]. unfold write_cache_entry. rewrite saved_test.
  unfold entry_bytes, entry_stats. cbn [snd]. destruct (saved (w_snapshot_time w) e); cbn [negb].
  - eapply writes_equal.
    + eapply writes_then; [|intros; apply writes_nil].
      eapply writes_then; [|intros; by apply write_value_spec].
      do 3 (eapply writes_then; [|intros; apply writer_bytes_spec]). apply writer_bytes_spec.
    + rewrite app_nil_r. unfold entry_image, string_image. cbn [fst snd]. rewrite <- !app_assoc.
      by destruct (type_of (e_object e)).
    + done.
  - eapply (writes_equal [] _ id id); [|done|done]. split; cbn; [|done|done|exists []; by rewrite app_nil_r].
    intros _. by rewrite app_nil_r, zlen_nil, Z.add_0_r.
Qed.

(** ** Saving *)

Definition objects_ok (c : cache) : Prop := map_Forall (fun _ e => wf_object (e_object e)) (c_entries c).

Lemma entry_list_lookup c x : x ∈ entry_list c -> exists k, c_entries c !! k = Some x.2.
Proof.
  intros Hx. apply list_elem_of_omap in Hx as (n & _ & Hn). exists (npayload n).
  destruct (c_entries c !! npayload n); [|done]. injection Hn as <-. done.
Qed.

Lemma concat_entry_bytes time l :
  concat (entry_bytes time <$> l) = concat (entry_image <$> List.filter (fun x => saved time x.2) l).
Proof.
  induction l as [|x l IH]; [done|]. cbn [fmap list_fmap concat List.filter]. unfold entry_bytes at 1.
  destruct (saved time x.2); cbn [fmap list_fmap concat]; [f_equal|]; exact IH.
Qed.

Definition all_stats (time : Z) (c : cache) (s : rdb_stats) : rdb_stats :=
  fold_left (fun s x => entry_stats time x s) (entry_list c) s.

Lemma checkpoint_choice (cp : option rdb_checkpoint) (w : rdb_writer) :
  match cp with
  | Some cp => if cp_valid cp then writer_bytes w (token cp)
               else writer_bytes w (replicate (Z.to_nat RDB_CHECKPOINT_TOKEN_SIZE) 0)
  | None => writer_bytes w (replicate (Z.to_nat RDB_CHECKPOINT_TOKEN_SIZE) 0)
  end = writer_bytes w (match cp with
            | Some cp => if cp_valid cp then token cp else replicate 16 0
            | None => replicate 16 0 end).
Proof. destruct cp as [cp|]; [by destruct (cp_valid cp)|done]. Qed.

Lemma save_body_spec w c cp keys :
  objects_ok c ->
  writes (header_image (w_snapshot_time w) keys cp ++ concat (entry_image <$> saved_list (w_snapshot_time w) c) ++ [RDB_TYPE_END])
    (all_stats (w_snapshot_time w) c) w (save_body w c cp keys).
Proof.
  intros Hc. unfold save_body. eapply writes_equal.
  - eapply writes_then; [|intros; apply writer_bytes_spec].
    eapply (writes_then _ (concat (entry_bytes (w_snapshot_time w) <$> entry_list c)));
      [|intros w' Hw'; apply (visit_writes _ (entry_bytes (w_snapshot_time w)) (entry_stats (w_snapshot_time w)) (entry_list c))].
    2:{ intros x w2 Hx Hw2. destruct (entry_list_lookup c x Hx) as [k Hk].
        pose proof (write_cache_entry_spec w2 x (Hc k _ Hk)) as H. by rewrite Hw2, Hw' in H. }
    eapply writes_then; [|intros; rewrite checkpoint_choice; apply writer_bytes_spec].
    do 3 (eapply writes_then; [|intros; apply writer_bytes_spec]).
    eapply (writes_then _ (encode_u64 (w_snapshot_time w))); [apply writer_bytes_spec|].
    intros w' Hw'. cbn beta. unfold writer_u64. rewrite Hw'. apply writer_bytes_spec.
  - rewrite concat_entry_bytes. fold (saved_list (w_snapshot_time w) c). unfold header_image.
    rewrite <- !app_assoc. do 3 f_equal. change (RDB_TYPE_END mod 256) with 255.
    destruct cp as [[off tok []]|]; reflexivity.
  - done.
Qed.

Lemma count_spec time l n :
  0 <= n ->
  let '(r, ct) := visit count_cache_entry (mk_counter time n) l in
  let total := n + zlen (List.filter (fun x => saved time x.2) l) in
  (r = 0 -> ct_keys ct = total) /\ (total <= UINT64_MAX -> r = 0).
Proof.
  revert n. induction l as [|x l IH]; intros n Hn; cbn [visit List.filter].
  { unfold zlen. cbn. split; [lia|done]. }
  unfold count_cache_entry at 1. cbn [ct_time ct_keys].
  change ((e_expire x.2 =? 0) || (e_expire x.2 >? time)) with (saved time x.2).
  destruct (saved time x.2).
  - rewrite zlen_cons. pose proof (zlen_nonneg (List.filter (fun x => saved time x.2) l)).
    destruct (Z.eqb_spec n UINT64_MAX) as [->|Hne]; cbn [Z.eqb negb].
    + cbn zeta. split; [done|lia].
    + specialize (IH (n + 1) ltac:(lia)). destruct (visit _ _ l) as [r ct]. cbn zeta in *.
      replace (n + (1 + zlen (List.filter (fun x => saved time x.2) l))) with (n + 1 + zlen (List.filter (fun x => saved time x.2) l)) by lia.
      exact IH.
  - exact (IH n Hn).
Qed.

(** The statistics count the saved entries. *)
Lemma all_stats_keys time l s :
  0 <= rs_keys s -> rs_keys s + zlen (List.filter (fun x => saved time x.2) l) <= UINT64_MAX ->
  rs_keys (fold_left (fun s x => entry_stats time x s) l s)
  = rs_keys s + zlen (List.filter (fun x => saved time x.2) l).
Proof.
  revert s. induction l as [|x l IH]; intros s Hs Hb; cbn [fold_left List.filter] in *; [rewrite zlen_nil; lia|].
  unfold entry_stats at 2. destruct (saved time x.2) eqn:E; [|by apply IH].
  rewrite zlen_cons in *. pose proof (zlen_nonneg (List.filter (fun x => saved time x.2) l)).
  set (s2 := add_object _ _ s). assert (Hk : rs_keys (add_key s2) = rs_keys s + 1).
  { cbn [rs_keys add_key]. assert (rs_keys s2 = rs_keys s) as -> by (by unfold s2; destruct (type_of _)).
    apply wrap64_small. lia. }
  rewrite IH; lia.
Qed.

(** Every system call of the save succeeds. *)
Definition env_ok (env : save_env) : Prop :=
  se_malloc env = true /\ se_mkstemp env = true /\ se_fchmod env = true /\ is_Some (se_clock env) /\
  se_io env = [] /\ se_fdatasync env = true /\ se_close env = true /\ se_rename env = true /\
  se_directory env = (true, true, true, true).

Lemma sync_directory_ok path : sync_parent_directory path (true, true, true, true) = 0.
Proof. unfold sync_parent_directory. by rewrite andb_false_r. Qed.

(** What a save leaves in the file system. *)
Definition save_outcome (env : save_env) (fs : files) (path : list Z) (c : cache)
    (cp : option rdb_checkpoint) (r : Z) (fs' : files) : Prop :=
  (forall q, q <> path -> q <> se_temporary env -> fs' !! q = fs !! q) /\
  (r = 0 /\ (exists time, se_clock env = Some time /\ fs' !! path = Some (snapshot_image time c cp)) /\
     fs' !! se_temporary env = None \/
   r = -1 /\ (fs' = fs \/ fs' !! se_temporary env = None) /\
     (fs' !! path = fs !! path \/
      exists time, se_clock env = Some time /\ fs' !! path = Some (snapshot_image time c cp))).

Lemma save_failed (env : save_env) (fs fs' : files) (path : list Z) c cp :
  path <> se_temporary env -> (forall q, q <> se_temporary env -> fs' !! q = fs !! q) ->
  save_outcome env fs path c cp (-1) (delete (se_temporary env) fs').
Proof.
  intros Hne Hsame. split.
  - intros q _ Hq. rewrite lookup_delete_ne by done. by apply Hsame.
  - right. split; [done|]. split; [right; apply lookup_delete_eq|]. left.
    rewrite lookup_delete_ne by done. by apply Hsame.
Qed.

Lemma save_spec (env : save_env) fs (path : list Z) c cp :
  objects_ok c -> path <> se_temporary env ->
  let '(r, fs', st) := rdb_save env fs path c cp in
  save_outcome env fs path c cp r fs' /\
  (env_ok env -> zlen path <> 0 -> zlen path <= SIZE_MAX - 16 ->
   (forall time, zlen (saved_list time c) <= UINT64_MAX /\ zlen (body_image time c cp) <= UINT64_MAX) -> r = 0).
Proof.
  intros Hc Hne. unfold rdb_save. set (tmp := se_temporary env).
  assert (Hearly : save_outcome env fs path c cp (-1) fs) by (split; [done|]; right; auto).
  destruct (Z.eqb_spec (zlen path) 0); [by split|].
  destruct (Z.gtb_spec (zlen path) (SIZE_MAX - 16)); [split; [done|lia]|].
  destruct (se_malloc env) eqn:E1; cbn [negb]; [|split; [done|by intros (? & _); congruence]].
  destruct (se_mkstemp env) eqn:E2; cbn [negb];
    [|split; [by apply save_failed|intros (_ & ? & _); congruence]].
  assert (Hfail : forall x, save_outcome env fs path c cp (-1) (delete tmp (<[tmp := x]> fs))).
  { intros x. apply save_failed; [done|]. intros q Hq. by rewrite !lookup_insert_ne. }
  destruct (se_fchmod env) eqn:E3; cbn [negb]; [|split; [apply Hfail|intros (_ & _ & ? & _); congruence]].
  destruct (se_clock env) as [time|] eqn:E4; [|split; [apply Hfail|intros (_ & _ & _ & [? ?] & _); congruence]].
  pose proof (count_spec time (entry_list c) 0 ltac:(lia)) as Hct.
  change (cache_visit c count_cache_entry (mk_counter time 0)) with (visit count_cache_entry (mk_counter time 0) (entry_list c)).
  destruct (visit count_cache_entry _ (entry_list c)) as [counted ct]. cbn zeta in Hct. fold (saved_list time c) in Hct.
  rewrite Z.add_0_l in Hct. destruct Hct as [Hct1 Hct2].
  destruct (Z.eqb_spec counted 0) as [->|Hn0]; cbn [negb].
  2:{ split; [apply Hfail|]. intros _ _ _ Hsz. by destruct (Hn0 (Hct2 (proj1 (Hsz time)))). }
  rewrite (Hct1 eq_refl). set (w0 := mk_writer [] (se_io env) 0 0 time (with_snapshot_time time zero_stats)).
  pose proof (save_body_spec w0 c cp (zlen (saved_list time c)) Hc) as Hb. change (w_snapshot_time w0) with time in Hb.
  fold (body_image time c cp) in Hb. destruct (save_body w0 c cp (zlen (saved_list time c))) as [r w].
  destruct Hb as [Hb1 _ Hb2 _]. cbn [fst snd] in Hb1, Hb2.
  destruct (Z.eqb_spec r 0) as [->|Hn1]; cbn [negb].
  2:{ split; [rewrite insert_insert_eq; apply Hfail|]. intros (_ & _ & _ & _ & Hio & _) _ _ Hsz. destruct Hn1. apply Hb2; [done|]. cbn. apply (Hsz time). }
  destruct (Hb1 eq_refl) as (Hfile & Hcrc & _ & Hst). rewrite Hst, Hfile, Hcrc. cbn [w_file w_crc w_stats w0 app].
  destruct (Z.eqb_spec (rs_keys (all_stats time c (with_snapshot_time time zero_stats))) (zlen (saved_list time c))) as [_|Hn2]; cbn [negb].
  2:{ split; [rewrite insert_insert_eq; apply Hfail|]. intros _ _ _ Hsz. destruct Hn2. unfold all_stats.
      rewrite all_stats_keys; cbn [rs_keys with_snapshot_time zero_stats]; [|lia|].
      - unfold saved_list. lia.
      - pose proof (proj1 (Hsz time)). unfold saved_list in *. lia. }
  pose proof (write_all_fd_spec (w_io w) (encode_u64 (crc64_update 0 (body_image time c cp)))) as Hf.
  destruct (write_all_fd (w_io w) _) as [[r out] io']. destruct Hf as [Hf Hfio].
  destruct (Z.eqb_spec r 0) as [->|Hn3]; cbn [negb].
  2:{ split; [rewrite !insert_insert_eq; apply Hfail|]. intros (_ & _ & _ & _ & Hio & _) _ _ Hsz. destruct Hn3.
      apply Hfio. apply Hb2; [done|]. cbn. apply (Hsz time). }
  destruct Hf as [[_ ->]|[? _]]; [|done]. fold (snapshot_image time c cp). rewrite !insert_insert_eq.
  destruct (se_fdatasync env) eqn:E5, (se_close env) eqn:E6; cbn [negb orb];
    try (split; [apply Hfail|intros (_ & _ & _ & _ & _ & ? & ? & _); congruence]).
  destruct (se_rename env) eqn:E7; cbn [negb]; [|split; [apply Hfail|intros (_ & _ & _ & _ & _ & _ & _ & ? & _); congruence]].
  assert (Hren : forall q, q <> path -> q <> tmp ->
     <[path := snapshot_image time c cp]> (delete tmp (<[tmp := snapshot_image time c cp]> fs)) !! q = fs !! q).
  { intros q Hq Hqt. by rewrite lookup_insert_ne, lookup_delete_ne, lookup_insert_ne by done. }
  destruct (Z.eqb_spec (sync_parent_directory path (se_directory env)) 0) as [_|Hn4]; cbn [negb].
  - split; [|done]. split; [done|]. left. split; [done|]. split.
    + exists time. split; [done|]. apply lookup_insert_eq.
    + rewrite lookup_insert_ne by done. apply lookup_delete_eq.
  - split.
    + split; [intros q Hq Hqt; rewrite lookup_delete_ne by done; by apply Hren|]. right. split; [done|].
      split; [right; apply lookup_delete_eq|]. right. exists time. split; [done|].
      rewrite lookup_delete_ne by done. apply lookup_insert_eq.
    + intros (_ & _ & _ & _ & _ & _ & _ & _ & Hd) _ _ _. destruct Hn4. rewrite Hd. apply sync_directory_ok.
Qed.
