(* ===== verification/RdbProps.v ===== *)
(** The loader of snapshots and the properties of [src/persistence/rdb.c]: the
    round trip of a cache through its image, the atomic save and the rejection
    of corrupted files. *)

From S2P Require Import Prelude HashTable ZOrder Object ExpireHeap LruList Cache Allocation CacheSpec CacheProps CacheEvents Rdb RdbImage.

(** ** The reader *)

(** [rest] is what the reader has left before the end of its range. *)
Definition unread (rd : rdb_reader) (rest : list Z) : Prop :=
  exists pre footer, rd_data rd = pre ++ rest ++ footer /\ rd_position rd = zlen pre /\
    rd_size rd = zlen pre + zlen rest.

Lemma reader_bytes_spec rd x rest n :
  unread rd (x ++ rest) -> n = zlen x ->
  exists rd', reader_bytes rd n = (Some x, rd') /\ unread rd' rest.
Proof.
  intros (pre & footer & Hd & Hp & Hs) ->. unfold reader_bytes.
  rewrite zlen_app in Hs. pose proof (zlen_nonneg rest).
  destruct (Z.gtb_spec (zlen x) (rd_size rd - rd_position rd)); [lia|].
  eexists. split; [f_equal; f_equal|].
  - rewrite Hd, Hp, <- app_assoc, sub_bytes_app_r. unfold zlen. rewrite Nat2Z.id. by apply take_app_length.
  - exists (pre ++ x), footer. cbn [rd_data rd_size rd_position]. rewrite Hd, zlen_app, <- !app_assoc.
    split; [done|lia].
Qed.

Lemma reader_u64_spec rd v rest :
  unread rd (encode_u64 v ++ rest) -> u64_ok v ->
  exists rd', reader_u64 rd = (Some v, rd') /\ unread rd' rest.
Proof.
  intros Hr Hv. unfold reader_u64.
  destruct (reader_bytes_spec rd (encode_u64 v) rest 8 Hr) as (rd' & -> & Hr'); [by rewrite zlen_encode_u64|].
  exists rd'. split; [|done]. cbn [fmap option_fmap option_map]. by rewrite decode_encode.
Qed.

Lemma reader_u8_spec rd b rest :
  unread rd ([b] ++ rest) -> exists rd', reader_u8 rd = (Some b, rd') /\ unread rd' rest.
Proof.
  intros Hr. unfold reader_u8. destruct (reader_bytes_spec rd [b] rest 1 Hr) as (rd' & -> & Hr'); [done|].
  by exists rd'.
Qed.

Lemma reader_string_spec rd s rest :
  unread rd (string_image s ++ rest) -> zlen s < 2 ^ 62 ->
  exists rd', reader_string rd = (Some s, rd') /\ unread rd' rest.
Proof.
  intros Hr Hs. unfold string_image in Hr. rewrite <- app_assoc in Hr. pose proof (zlen_nonneg s).
  assert (Hu : u64_ok (zlen s)) by (unfold u64_ok, UINT64_MAX; lia).
  unfold reader_string. destruct (reader_u64_spec rd _ _ Hr Hu) as (rd1 & -> & Hr1). cbn [mbind option_bind].
  unfold u64_size. destruct (Z.gtb_spec (zlen s) SIZE_MAX) as [Hg|_]; [unfold SIZE_MAX in Hg; lia|].
  by apply reader_bytes_spec.
Qed.

(** ** Rebuilding an object *)

(** The object the loader builds for the contents of [o]. *)
Definition rebuilt (engine : kv_zset_engine) (o : kv_object) : kv_object :=
  match o_value o with
  | VString l _ => default o (kv_object_create_string [] (Some l)).1
  | VHash table =>
      match (kv_object_create_hash []).1 with
      | Some h => (visit clone_hash_field (h, []) (hash_fields table)).2.1
      | None => o
      end
  | VZset set =>
      match (kv_object_create_zset [] engine).1 with
      | Some z => (visit clone_zset_member (z, []) (zset_list set)).2.1
      | None => o
      end
  end.

Definition with_engine (engine : kv_zset_engine) (ct : contents) : contents :=
  match ct with CZset _ l => CZset engine l | _ => ct end.

(** Contents whose sizes are far below the arithmetic limits and whose scores
    are 64-bit patterns. *)
Definition portable (ct : contents) : Prop :=
  small_contents ct /\ match ct with CZset _ l => Forall (fun x => u64_ok x.1) l | _ => True end.

Lemma hash_set_step o M f v :
  is_hash o M -> M !! f = None -> Z.of_nat (size M) < 2 ^ 59 -> zlen f < 2 ^ 62 -> zlen v < 2 ^ 62 ->
  exists o1, kv_object_hash_set [] o (Some f) (Some v) = (write_added, o1, []) /\ is_hash o1 (<[f := v]> M).
Proof.
  intros Ho Hf Hs Hlf Hlv. pose proof (hash_set_spec [] o M f v Ho) as H.
  pose proof (hash_set_succeeds o M f v Ho Hs Hlf Hlv) as Hk.
  destruct (kv_object_hash_set [] o (Some f) (Some v)) as [[w o1] m1]. destruct Hk as [Hw ->].
  destruct H as [(_ & Hx & _)|[(_ & (old & Hx & _) & _)|[(-> & _ & Hx)|(-> & _)]]]; [congruence|congruence| |done].
  by exists o1.
Qed.

Lemma load_hash_spec l M o rd rest :
  unread rd (concat (field_image <$> l) ++ rest) -> is_hash o M -> NoDup l.*1 ->
  (forall f, f ∈ l.*1 -> M !! f = None) -> Z.of_nat (size M) + zlen l < 2 ^ 59 ->
  Forall (fun x => zlen x.1 < 2 ^ 62 /\ zlen x.2 < 2 ^ 62) l ->
  exists rd', load_hash_fields (length l) [] rd o = (Some (visit clone_hash_field (o, []) l).2.1, rd', []) /\
    unread rd' rest.
Proof.
  revert M o rd. induction l as [|[f v] l IH]; intros M o rd Hr Ho Hn Hd Hs Hl; [by exists rd|].
  cbn [fmap list_fmap concat length load_hash_fields visit fst] in *.
  apply Forall_cons in Hl as [[Hlf Hlv] Hl]. apply NoDup_cons in Hn as [Hnf Hn]. rewrite zlen_cons in Hs.
  pose proof (zlen_nonneg l). unfold field_image at 1 in Hr. cbn [fst snd] in *. rewrite <- !app_assoc in Hr.
  destruct (reader_string_spec rd f _ Hr Hlf) as (rd1 & -> & Hr1).
  destruct (reader_string_spec rd1 v _ Hr1 Hlv) as (rd2 & -> & Hr2).
  destruct (hash_set_step o M f v Ho) as (o1 & E & Ho1); [apply Hd, elem_of_cons; by left|lia|done|done|].
  unfold clone_hash_field. cbn [fst snd]. rewrite E. cbn [w_status w_added write_added Z.eqb negb orb].
  apply (IH (<[f := v]> M)); [done|done|done| | |done].
  - intros g Hg. rewrite lookup_insert_ne by congruence. apply Hd, elem_of_cons. by right.
  - rewrite map_size_insert_None by (apply Hd, elem_of_cons; by left). lia.
Qed.

Lemma zset_add_step o l score k :
  is_zset o l -> isnan score = false -> k ∉ l.*2 -> zlen l < 2 ^ 59 -> zlen k < 2 ^ 62 ->
  exists o1, kv_object_zset_add [] o score (Some k) = (write_added, o1, []) /\ is_zset o1 (elem_insert (score, k) l).
Proof.
  intros Ho Hn Hk Hs Hl. pose proof (zset_add_spec [] o l score k Ho) as H.
  pose proof (zset_add_succeeds o l score k Ho Hn Hs Hl) as Hok.
  destruct (kv_object_zset_add [] o score (Some k)) as [[w o1] m1]. destruct Hok as [Hw ->].
  assert (Hno : forall old, (old, k) ∈ l -> False).
  { intros old Hin. apply Hk, list_elem_of_fmap. by exists (old, k). }
  destruct H as [(? & _)|(_ & [(_ & (old & Hin & _) & _)|[(_ & (old & Hin & _) & _)|[(-> & _ & Hx)|(-> & _)]]])];
    [congruence|by destruct (Hno old)|by destruct (Hno old)|by exists o1|done].
Qed.

Lemma load_zset_spec pre l o rd rest :
  unread rd (concat (member_image <$> l) ++ rest) -> is_zset o pre -> zsorted (pre ++ l) ->
  Forall (fun x => isnan x.1 = false) l -> zlen (pre ++ l) < 2 ^ 59 ->
  Forall (fun x => zlen x.2 < 2 ^ 62) l -> Forall (fun x => u64_ok x.1) l ->
  exists rd', load_zset_members (length l) [] rd o = (Some (visit clone_zset_member (o, []) l).2.1, rd', []) /\
    unread rd' rest.
Proof.
  revert pre o rd. induction l as [|[sc k] l IH]; intros pre o rd Hr Ho Hso Hn Hs Hl Hu; [by exists rd|].
  cbn [fmap list_fmap concat length load_zset_members visit fst] in *.
  apply Forall_cons in Hl as [Hlk Hl]. apply Forall_cons in Hn as [Hnk Hn]. apply Forall_cons in Hu as [Huk Hu].
  cbn [fst snd] in *. unfold member_image at 1 in Hr. cbn [fst snd] in Hr. rewrite <- !app_assoc in Hr.
  destruct (reader_string_spec rd k _ Hr Hlk) as (rd1 & -> & Hr1).
  destruct (reader_u64_spec rd1 sc _ Hr1 Huk) as (rd2 & -> & Hr2).
  rewrite zlen_app, zlen_cons in Hs. pose proof (zlen_nonneg l).
  destruct (zset_add_step o pre sc k Ho Hnk) as (o1 & E & Ho1); [|lia|done|].
  { destruct Hso as [_ Hnd]. rewrite fmap_app, NoDup_app in Hnd. destruct Hnd as (_ & Hnd & _).
    intros Hk. apply (Hnd k Hk). cbn. apply elem_of_cons. by left. }
  unfold clone_zset_member. cbn [fst snd]. rewrite E. cbn [w_status w_added write_added Z.eqb negb orb].
  assert (Hso' : zsorted ((pre ++ [(sc, k)]) ++ l)) by (by rewrite <- app_assoc).
  rewrite elem_insert_last in Ho1.
  - apply (IH (pre ++ [(sc, k)])); [done|done|done|done| |done|done]. rewrite !zlen_app, zlen_cons, zlen_nil. lia.
  - destruct Hso' as [Hss Hnd]. split.
    + apply StronglySorted_app_iff in Hss as (? & _). done.
    + rewrite fmap_app, NoDup_app in Hnd. by destruct Hnd.
Qed.

(** The image of a value without its count. *)
Definition payload_image (o : kv_object) : list Z :=
  match o_value o with
  | VString l _ => l
  | VHash table => concat (field_image <$> hash_fields table)
  | VZset set => concat (member_image <$> zset_list set)
  end.

Lemma value_image_split o : value_image o = encode_u64 (items_in o) ++ payload_image o.
Proof. unfold value_image, items_in, payload_image. by destruct (o_value o). Qed.

Lemma hash_fields_facts o M table :
  hash_repr o M table -> small_contents (CHash M) ->
  NoDup (hash_fields table).*1 /\ list_to_map (hash_fields table) = M /\
  Forall (fun x => zlen x.1 < 2 ^ 62 /\ zlen x.2 < 2 ^ 62) (hash_fields table) /\
  zlen (hash_fields table) = kv_hash_count table /\ zlen (hash_fields table) < 2 ^ 59.
Proof.
  intros HR [Hsz Hsm]. pose proof (hash_fields_spec _ _ _ HR) as Hp.
  assert (Hnd : NoDup (hash_fields table).*1) by (rewrite Hp; apply NoDup_fst_map_to_list).
  pose proof (hash_length_spec o M (ex_intro _ table HR)) as Hlen. unfold kv_object_hash_length in Hlen.
  rewrite (hr_value _ _ _ HR) in Hlen.
  assert (Hz : zlen (hash_fields table) = Z.of_nat (size M)) by (unfold zlen; by rewrite Hp, length_map_to_list).
  split_and!; [done| | |congruence|lia].
  - rewrite <- (list_to_map_to_list M). by apply list_to_map_proper.
  - rewrite Hp. apply Forall_forall. intros [f v] Hx%elem_of_map_to_list. by apply (Hsm f v).
Qed.

Lemma load_value_spec o ct engine rd rest :
  holds o ct -> portable ct -> unread rd (payload_image o ++ rest) ->
  u64_ok (items_in o) /\
  exists rd', load_value [] rd engine (type_code (type_of o)) (items_in o) = (Some (rebuilt engine o), rd', []) /\
    unread rd' rest.
Proof.
  intros Ho [Hsm Hp] Hr. unfold load_value, rebuilt, items_in, payload_image, type_of in *.
  destruct ct as [l|M|en l]; cbn [holds] in Ho.
  - unfold kv_object_string_value in Ho. destruct (o_value o) as [l' cap| |]; [|done..]. injection Ho as ->.
    cbn [small_contents] in Hsm. pose proof (zlen_nonneg l). split; [unfold u64_ok, UINT64_MAX; lia|].
    cbn [type_code Z.eqb RDB_TYPE_STRING]. destruct (reader_bytes_spec rd l rest _ Hr eq_refl) as (rd' & -> & Hr').
    exists rd'. split; [|done]. unfold kv_object_create_string.
    destruct ((zlen l =? SIZE_MAX) || (SIZEOF_KV_OBJECT >? SIZE_MAX - zlen l - 1)) eqn:E; [|done].
    apply orb_true_iff in E as [E|E]; zb; unfold SIZEOF_KV_OBJECT in *; zlia.
  - destruct Ho as (table & HR). destruct (hash_fields_facts o M table HR Hsm) as (Hnd & _ & Hl & Hcnt & Hlt).
    rewrite (hr_value _ _ _ HR) in *. rewrite <- Hcnt. pose proof (zlen_nonneg (hash_fields table)).
    split; [unfold u64_ok, UINT64_MAX; lia|]. cbn [type_code Z.eqb RDB_TYPE_STRING RDB_TYPE_HASH].
    destruct create_hash_nil as [h Eh]. pose proof (create_hash_spec []) as Hh. rewrite Eh in Hh |- *.
    unfold zlen. rewrite Nat2Z.id.
    destruct (load_hash_spec (hash_fields table) ∅ h rd rest Hr Hh Hnd) as (rd' & E & Hr'); [done| |done|].
    + rewrite map_size_empty. lia.
    + exists rd'. by rewrite E.
  - destruct Ho as [HZ _]. pose proof (zset_length_spec o l HZ) as Hlen. pose proof (zset_sorted _ _ HZ) as Hso.
    destruct HZ as (set & HR). unfold kv_object_zset_length in Hlen. rewrite (zr_value _ _ _ HR) in *.
    rewrite (zset_list_spec o l set HR) in *. rewrite Hlen. cbn [small_contents] in Hsm. destruct Hsm as [Hsz Hsm].
    pose proof (zlen_nonneg l). split; [unfold u64_ok, UINT64_MAX; lia|].
    cbn [type_code Z.eqb RDB_TYPE_STRING RDB_TYPE_HASH RDB_TYPE_ZSET].
    destruct (create_zset_nil engine) as [z Ez]. pose proof (create_zset_spec [] engine) as Hz. rewrite Ez in Hz |- *.
    destruct Hz as [Hz _]. unfold zlen. rewrite Nat2Z.id.
    destruct (load_zset_spec [] l z rd rest Hr Hz Hso (zr_numbers _ _ _ HR) Hsz Hsm Hp) as (rd' & E & Hr').
    exists rd'. by rewrite E.
Qed.

Lemma visit_object (x : Z * (kv_object * mem)) (P Q : kv_object -> Prop) :
  (let '(r, (o, m)) := x in Q o /\ (r = 0 -> P o)) -> x.1 = 0 -> P x.2.1 /\ Q x.2.1.
Proof. destruct x as [r [o m]]. cbn. naive_solver. Qed.

Lemma visit_object_1 (x : Z * (kv_object * mem)) (P : kv_object -> Prop) :
  (let '(r, (o, m)) := x in r = 0 -> P o) -> x.1 = 0 -> P x.2.1.
Proof. destruct x as [r [o m]]. cbn. naive_solver. Qed.

(** The rebuilt object holds the same contents. *)
Lemma rebuilt_holds o ct engine : holds o ct -> portable ct -> holds (rebuilt engine o) (with_engine engine ct).
Proof.
  intros Ho [Hsm _]. unfold rebuilt. destruct ct as [l|M|en l]; cbn [holds with_engine] in *.
  - unfold kv_object_string_value in *. destruct (o_value o) as [l' cap| |] eqn:E; [|done..]. injection Ho as ->.
    unfold kv_object_create_string. destruct (_ || _); cbn; [by rewrite E|done].
  - destruct Ho as (table & HR). destruct (hash_fields_facts o M table HR Hsm) as (Hnd & Hlist & Hl & Hcnt & Hlt).
    rewrite (hr_value _ _ _ HR). destruct create_hash_nil as [h Eh]. pose proof (create_hash_spec []) as Hh.
    rewrite Eh in Hh |- *. cbn [fst].
    destruct (clone_hash_visit (hash_fields table) ∅ h [] Hh Hnd) as [Hv Hk]; [done|].
    destruct Hk as [Hk _]; [done|rewrite map_size_empty; lia|done|].
    pose proof (visit_object_1 _ (fun o' => is_hash o' _) Hv Hk) as H.
    by rewrite (right_id_L ∅ (∪)), Hlist in H.
  - destruct Ho as [HZ _]. pose proof (zset_sorted _ _ HZ) as Hso. destruct HZ as (set & HR).
    rewrite (zr_value _ _ _ HR), (zset_list_spec o l set HR). destruct Hsm as [Hsz Hsm].
    destruct (create_zset_nil engine) as [z Ez]. pose proof (create_zset_spec [] engine) as Hz.
    rewrite Ez in Hz |- *. destruct Hz as [Hz He]. cbn [fst].
    destruct (clone_zset_visit [] l z [] Hz Hso (zr_numbers _ _ _ HR)) as [Hv Hk].
    destruct Hk as [Hk _]; [done..|].
    destruct (visit_object _ (fun o' => is_zset o' _) (fun o' => kv_object_zset_engine o' = _) Hv Hk) as [H1 H2].
    split; [exact H1|]. etrans; [exact H2|exact He].
Qed.

Lemma rebuilt_usage engine o : 0 <= memory_usage o -> 0 <= memory_usage (rebuilt engine o).
Proof.
  intros Ho. unfold rebuilt. destruct (o_value o) as [l cap|table|set].
  - unfold kv_object_create_string. destruct (_ || _); [done|]. cbn [malloc fst default from_option id memory_usage].
    pose proof (zlen_nonneg l). unfold SIZEOF_KV_OBJECT. cbn. lia.
  - destruct create_hash_nil as [h Eh]. rewrite Eh. cbn [fst]. apply visit_usage.
    + intros o1 m x H1. unfold clone_hash_field. pose proof (hash_set_usage m o1 (Some x.1) (Some x.2) H1) as H2.
      by destruct (kv_object_hash_set _ _ _ _) as [[w o2] m2].
    + vm_compute in Eh. injection Eh as <-. cbn. lia.
  - destruct (create_zset_nil engine) as [z Ez]. rewrite Ez. cbn [fst]. apply visit_usage.
    + intros o1 m x H1. unfold clone_zset_member. pose proof (zset_add_usage m o1 x.1 (Some x.2) H1) as H2.
      by destruct (kv_object_zset_add _ _ _ _) as [[w o2] m2].
    + destruct engine; vm_compute in Ez; injection Ez as <-; cbn; lia.
Qed.

(** ** Storing the records *)

Definition unlimited (c : cache) : Prop := c_max_keys c = 0 /\ c_max_memory c = 0.

Lemma unlimited_exceeds c n x : unlimited c -> exceeds c n x = false.
Proof. intros [H1 H2]. unfold exceeds. by rewrite H1, H2. Qed.

(** The entry the loader stores for a record. *)
Definition restored_entry (engine : kv_zset_engine) (x : list Z * cache_entry) : cache_entry :=
  let o := rebuilt engine (e_object x.2) in
  mk_entry o (entry_memory_charge (zlen x.1) o) (object_item_count o) (e_expire x.2).

(** A record that fits the machine: contents, key and charge. *)
Definition loadable (engine : kv_zset_engine) (x : list Z * cache_entry) : Prop :=
  (exists ct, holds (e_object x.2) ct /\ portable ct) /\ 0 <= memory_usage (e_object x.2) /\
  u64_ok (e_expire x.2) /\ zlen x.1 < 2 ^ 62 /\
  entry_memory_charge (zlen x.1) (rebuilt engine (e_object x.2)) <> SIZE_MAX.

(** Storing in a cache without limits tells the eviction callback nothing. *)
Definition calm (c c' : cache) : Prop :=
  unlimited c' /\ c_on_evict c' = c_on_evict c /\ (c_on_evict c = true -> c_calls c' = c_calls c).

Lemma calm_refl c : unlimited c -> calm c c.
Proof. done. Qed.

Lemma calm_trans c1 c2 c3 : calm c1 c2 -> calm c2 c3 -> calm c1 c3.
Proof. intros (_ & E1 & C1) (U & E2 & C2). split_and!; [done|congruence|]. intros E. rewrite C2 by congruence. by apply C1. Qed.

(** Without limits nothing is evicted, and the clock is not read again. *)
Lemma store_unlimited m clock later c key o x preserve L :
  cache_ok L c -> unlimited c -> cache_store_object m clock later c key o x preserve = cache_store_object m clock clock c key o x preserve.
Proof.
  intros Hok Hun. unfold cache_store_object. destruct key as [key|]; [|done]. case_match; [done|].
  pose proof (find_live_ok L clock c key (if negb (x =? 0) then clock else UINT64_MAX) Hok) as Hf. destruct (find_live _ _ _ _) as [p c1].
  destruct Hf as (_ & _ & Hs & _). injection Hs as S1 S2 _ _. destruct Hun as [U1 U2].
  assert (Hfree : forall c2 n y, c_max_keys c2 = c_max_keys c1 -> c_max_memory c2 = c_max_memory c1 -> limits_exceeded c2 n y = false).
  { intros c2 n y E1 E2. unfold limits_exceeded. by rewrite E1, E2, S1, S2, U1, U2. }
  destruct p as [p|].
  - unfold store_existing. destruct (if negb _ && _ then _ else _) as [[r h] m1]. case_match; [done|]. destruct (c_entries _ !! p) as [e|]; [|done].
    destruct (match kv_object_string_value _ with Some _ => _ | None => _ end) as [u o']. do 2 (case_match; [done|]). cbn [evict_fuel evict_for_update].
    by rewrite Hfree.
  - unfold store_new. destruct (if negb _ then _ else _) as [[r h] m1]. case_match; [done|]. destruct (malloc m1) as [ok m2]. case_match; [done|].
    destruct (kv_hash_insert _ _ _ _) as [[[ri n] ix] m3]. case_match; [done|]. cbn [evict_fuel evict_for_insert].
    by rewrite Hfree by (by destruct (negb (x =? 0))).
Qed.

Lemma store_fresh L clock later c engine x :
  cache_ok L c -> unlimited c -> c_entries c !! x.1 = None -> loadable engine x ->
  Z.of_nat (size (c_entries c)) < 2 ^ 59 ->
  exists c' L', cache_store_object [] clock later c (Some x.1) (rebuilt engine (e_object x.2)) (e_expire x.2) false
      = (CACHE_SET_OK, c', []) /\
    cache_ok L' c' /\ calm c c' /\ c_entries c' = <[x.1 := restored_entry engine x]> (c_entries c).
Proof.
  intros Hok Hun Hk (_ & Hmu & Hx & Hkl & Hch) Hsz. rewrite (store_unlimited _ _ _ _ _ _ _ _ L) by done.
  pose proof (store_spec L [] clock clock c x.1 (rebuilt engine (e_object x.2)) (e_expire x.2) false Hok Hx
                (rebuilt_usage engine _ Hmu)) as H.
  pose proof (store_reported L clock [] c x.1 (rebuilt engine (e_object x.2)) (e_expire x.2) false Hok) as Hrep.
  pose proof (spends_nil _ (store_spends [] clock clock c (Some x.1) (rebuilt engine (e_object x.2)) (e_expire x.2) false)) as Hm.
  destruct (cache_store_object [] clock clock c (Some x.1) _ _ false) as [[r c'] m']. cbn in Hm. subst m'. cbn zeta in H.
  assert (Hov : oversized c x.1 (rebuilt engine (e_object x.2)) = false).
  { unfold oversized. rewrite (proj2 Hun), orb_false_r. by apply Z.eqb_neq. }
  rewrite Hov in H. unfold live_entry in H. rewrite Hk in H. cbn [target_expire] in H.
  destruct H as [(-> & e' & [He1 He2] & HM & Hok' & Hs)|(_ & _ & _ & _ & Hbad)].
  2:{ destruct (Hbad eq_refl); lia. }
  rewrite victims_none in HM by (by apply unlimited_exceeds). rewrite remove_all_nil in HM.
  eexists c', _. split; [done|]. split; [exact Hok'|]. split.
  { injection Hs as H1 H2 H3 _. split_and!; [destruct Hun; split; congruence|done|]. intros Hev.
    destruct (Hrep Hev Hx (rebuilt_usage engine _ Hmu)) as (ks & Ht & _). cbn [fst snd] in Ht.
    rewrite (tr_calls _ _ _ _ _ Ht), (nothing_reported _ _ _ _ _ Ht); [by rewrite app_nil_r|].
    intros k Hne. by rewrite HM, lookup_insert_ne. }
  rewrite HM. f_equal. destruct He2 as [(Ha & Hb & Hc)|(? & ? & ? & _)]; [|done].
  unfold restored_entry. destruct e' as [eo ec ei ex]. cbn in *. by subst.
Qed.

(** The entries after the records [l] were loaded at the time [now]. *)
Definition load_all (engine : kv_zset_engine) (now : Z) (l : list (list Z * cache_entry)) (M : entries) : entries :=
  fold_left (fun M x => if expired now x.2 then M else <[x.1 := restored_entry engine x]> M) l M.

Lemma expired_flag now e : negb (e_expire e =? 0) && (e_expire e <=? now) = expired now e.
Proof. unfold expired. by rewrite Z.geb_leb. Qed.

Lemma load_object_spec L clock later rd rest c engine x now s :
  cache_ok L c -> unlimited c -> c_entries c !! x.1 = None -> loadable engine x ->
  Z.of_nat (size (c_entries c)) < 2 ^ 59 -> unread rd (value_image (e_object x.2) ++ rest) ->
  exists rd' c' s' L',
    load_object [] clock later rd c engine (type_code (type_of (e_object x.2))) (e_expire x.2) x.1 now s
      = (0, rd', c', s', []) /\
    unread rd' rest /\ cache_ok L' c' /\ calm c c' /\
    c_entries c' = if expired now x.2 then c_entries c else <[x.1 := restored_entry engine x]> (c_entries c).
Proof.
  intros Hok Hun Hk Hld Hsz Hr. destruct Hld as ((ct & Ho & Hp) & Hrest).
  rewrite value_image_split, <- app_assoc in Hr. unfold load_object. rewrite expired_flag.
  assert (Hu : u64_ok (items_in (e_object x.2))).
  { destruct (load_value_spec _ ct engine (mk_reader (payload_image (e_object x.2)) (zlen (payload_image (e_object x.2))) 0) [] Ho Hp) as [Hu _]; [|done].
    exists [], []. cbn [rd_data rd_size rd_position app]. rewrite !app_nil_r. done. }
  destruct (reader_u64_spec rd _ _ Hr Hu) as (rd1 & -> & Hr1). cbn [mbind option_bind].
  unfold u64_size. destruct (Z.gtb_spec (items_in (e_object x.2)) SIZE_MAX) as [Hg|_].
  { unfold u64_ok, UINT64_MAX, SIZE_MAX in *. lia. }
  destruct (load_value_spec _ ct engine rd1 rest Ho Hp Hr1) as (_ & rd2 & -> & Hr2).
  destruct (expired now x.2) eqn:Ex; [by eexists _, _, _, _|].
  destruct (store_fresh L clock later c engine x Hok Hun Hk) as (c' & L' & -> & H1 & H2 & H3); [|done|].
  { split; [by exists ct|done]. }
  rewrite bool_decide_true by done. by eexists _, _, _, _.
Qed.

Lemma load_records_spec fuel clock rd rest c engine now s n l L :
  cache_ok L c -> unlimited c -> NoDup l.*1 -> (forall k, k ∈ l.*1 -> c_entries c !! k = None) ->
  Forall (loadable engine) l -> Z.of_nat (size (c_entries c)) + zlen l < 2 ^ 59 ->
  unread rd (concat (entry_image <$> l) ++ [RDB_TYPE_END] ++ rest) -> (length l < fuel)%nat ->
  0 <= n -> n + zlen l <= UINT64_MAX ->
  exists rd' s' c' L', load_records fuel [] clock rd c engine now s n = (Some (rd', s', n + zlen l), c') /\
    unread rd' rest /\ cache_ok L' c' /\ calm c c' /\ c_entries c' = load_all engine now l (c_entries c).
Proof.
  revert fuel rd c s n L. induction l as [|x l IH]; intros fuel rd c s n L Hok Hun Hnd Hdis Hld Hsz Hr Hf Hn0 Hn.
  - destruct fuel as [|fuel]; [cbn in Hf; lia|]. cbn [fmap list_fmap concat app] in Hr. cbn [load_records].
    destruct (reader_u8_spec rd RDB_TYPE_END rest Hr) as (rd1 & -> & Hr1). rewrite Z.eqb_refl, zlen_nil, Z.add_0_r.
    by eexists _, _, _, _.
  - destruct fuel as [|fuel]; [cbn in Hf; lia|]. cbn [fmap list_fmap concat load_records] in *.
    apply Forall_cons in Hld as [Hx Hld]. apply NoDup_cons in Hnd as [Hnx Hnd]. rewrite zlen_cons in *.
    pose proof (zlen_nonneg l). pose proof Hx as (_ & _ & Hxu & Hxk & _).
    unfold entry_image at 1 in Hr. rewrite <- !app_assoc in Hr.
    destruct (reader_u8_spec rd _ _ Hr) as (rd1 & -> & Hr1).
    assert (Hty : (type_code (type_of (e_object x.2)) =? RDB_TYPE_END) = false) by (by destruct (type_of _)).
    rewrite Hty. destruct (reader_u64_spec rd1 _ _ Hr1 Hxu) as (rd2 & -> & Hr2).
    destruct (reader_string_spec rd2 _ _ Hr2 Hxk) as (rd3 & -> & Hr3).
    assert (Hxn : c_entries c !! x.1 = None) by (apply Hdis; cbn; apply elem_of_cons; by left).
    destruct (load_object_spec L (clock (2 * fuel)%nat) (clock (2 * fuel + 1)%nat) rd3 _ c engine x now s Hok Hun Hxn Hx ltac:(lia) Hr3)
      as (rd4 & c1 & s1 & L1 & -> & Hr4 & Hok1 & Hun1 & HM1).
    cbn [Z.eqb negb]. destruct (Z.eqb_spec n UINT64_MAX); [lia|]. pose proof (proj1 Hun1) as Hun2.
    destruct (IH fuel rd4 c1 s1 (n + 1) L1) as (rd5 & s5 & c5 & L5 & E & H5a & H5b & H5c & H5); try done; try lia.
    + intros k Hk. rewrite HM1. assert (c_entries c !! k = None) by (apply Hdis; cbn; apply elem_of_cons; by right).
      destruct (expired now x.2); [done|]. rewrite lookup_insert_ne by congruence. done.
    + rewrite HM1. destruct (expired now x.2); [lia|]. rewrite map_size_insert_None by done. lia.
    + cbn in Hf. lia.
    + replace (n + (1 + zlen l)) with (n + 1 + zlen l) by lia.
      eexists _, _, _, _. split; [exact E|]. split_and!; [done|done|by eapply calm_trans|]. rewrite HM1 in H5. unfold load_all. cbn [fold_left].
      destruct (expired now x.2); exact H5.
Qed.

(** ** The entries of a cache as a list *)

Lemma entry_list_nodes L c :
  cache_core L c ->
  entry_list c = omap (fun n => (fun e => (nkey n, e)) <$> c_entries c !! npayload n) (all_nodes (c_index c)).
Proof.
  intros H. unfold entry_list. destruct (cc_index _ _ H) as [Hw _]. rewrite iterate_all; [done|done|].
  unfold kv_hash_count. rewrite (wf_count _ Hw). unfold zlen. lia.
Qed.

Lemma node_payload L c n :
  cache_core L c -> n ∈ all_nodes (c_index c) -> npayload n = nkey n /\ is_Some (c_entries c !! nkey n).
Proof.
  intros H Hn. destruct (cc_index _ _ H) as [Hw Hm]. apply Hm. unfold to_map.
  apply elem_of_list_to_map_1; [rewrite pairs_keys; apply Hw|].
  unfold pairs. apply list_elem_of_fmap. by exists n.
Qed.

Lemma entry_list_keys L c : cache_core L c -> (entry_list c).*1 = nkey <$> all_nodes (c_index c).
Proof.
  intros H. rewrite (entry_list_nodes L c H).
  assert (Hall : forall n, n ∈ all_nodes (c_index c) -> is_Some (c_entries c !! npayload n)).
  { intros n Hn. destruct (node_payload L c n H Hn) as [-> ?]. done. }
  induction (all_nodes (c_index c)) as [|n l IH]; [done|].
  destruct (Hall n) as [e He]; [apply elem_of_cons; by left|].
  cbn [omap list_omap fmap list_fmap]. rewrite He. cbn [fmap option_fmap option_map list_fmap fst].
  f_equal. apply IH. intros m Hm. apply Hall, elem_of_cons. by right.
Qed.

Lemma entry_list_spec L c :
  cache_core L c ->
  NoDup (entry_list c).*1 /\ zlen (entry_list c) = Z.of_nat (size (c_entries c)) /\
  forall k e, (k, e) ∈ entry_list c <-> c_entries c !! k = Some e.
Proof.
  intros H. pose proof (entry_list_keys L c H) as Hk. pose proof (cc_index _ _ H) as [Hw Hm].
  split; [rewrite Hk; apply Hw|]. split.
  - rewrite <- (index_count _ _ (cc_index _ _ H)). unfold kv_hash_count. rewrite (wf_count _ Hw). unfold zlen.
    f_equal. rewrite <- (length_fmap fst (entry_list c)). rewrite Hk. by rewrite length_fmap.
  - intros k e. rewrite (entry_list_nodes L c H), list_elem_of_omap. split.
    + intros (n & Hn & He). destruct (node_payload L c n H Hn) as [Hp _]. rewrite Hp in He.
      destruct (c_entries c !! nkey n) eqn:E; [|done]. cbn in He. by simplify_eq.
    + intros He. assert (Hto : to_map (c_index c) !! k = Some k) by (apply Hm; by split; [|eexists]).
      unfold to_map in Hto. apply elem_of_list_to_map_2 in Hto. unfold pairs in Hto.
      apply list_elem_of_fmap in Hto as (n & [= Ha Hb] & Hn). exists n. split; [done|].
      rewrite <- Hb, He. cbn. by rewrite <- Ha.
Qed.

Lemma saved_list_spec L c time :
  cache_core L c ->
  NoDup (saved_list time c).*1 /\ zlen (saved_list time c) <= Z.of_nat (size (c_entries c)) /\
  forall k e, (k, e) ∈ saved_list time c <-> c_entries c !! k = Some e /\ saved time e = true.
Proof.
  intros H. destruct (entry_list_spec L c H) as (Hn & Hl & He). unfold saved_list. split_and!.
  - clear Hl He. induction (entry_list c) as [|x l IH]; [constructor|]. cbn [fmap list_fmap List.filter] in *.
    apply NoDup_cons in Hn as [Hx Hn]. destruct (saved time x.2); [|by apply IH].
    cbn [fmap list_fmap]. apply NoDup_cons. split; [|by apply IH].
    intros Hin. apply Hx. apply list_elem_of_fmap in Hin as (y & -> & Hy). apply list_elem_of_fmap. exists y.
    split; [done|]. apply list_elem_of_In, List.filter_In in Hy as [Hy _]. by apply list_elem_of_In.
  - rewrite <- Hl. unfold zlen. pose proof (List.filter_length_le (fun x => saved time x.2) (entry_list c)). lia.
  - intros k e. rewrite <- He, !list_elem_of_In, List.filter_In. done.
Qed.

Lemma load_all_lookup engine now l M k :
  NoDup l.*1 -> (forall q, q ∈ l.*1 -> M !! q = None) ->
  (forall e, (k, e) ∈ l ->
     load_all engine now l M !! k = if expired now e then None else Some (restored_entry engine (k, e))) /\
  (k ∉ l.*1 -> load_all engine now l M !! k = M !! k).
Proof.
  revert M. induction l as [|[q eq] l IH]; intros M Hn Hd; cbn [load_all fold_left fst snd fmap list_fmap] in *.
  { split; [|done]. intros e He. by apply not_elem_of_nil in He. }
  apply NoDup_cons in Hn as [Hq Hn]. set (M1 := if expired now eq then M else _).
  assert (HM1 : forall r, r <> q -> M1 !! r = M !! r).
  { intros r Hr. unfold M1. destruct (expired now eq); [done|]. by rewrite lookup_insert_ne. }
  destruct (IH M1 Hn) as [IH1 IH2].
  { intros r Hr. rewrite HM1 by congruence. apply Hd, elem_of_cons. by right. }
  split.
  - intros e [[= -> ->]|He]%elem_of_cons; [|by apply IH1].
    fold (load_all engine now l M1). rewrite IH2 by done. unfold M1.
    destruct (expired now eq); [apply Hd, elem_of_cons; by left|]. apply lookup_insert_eq.
  - intros [Hkq Hk]%not_elem_of_cons. fold (load_all engine now l M1). rewrite IH2 by done. by apply HM1.
Qed.

(** ** The header *)

Definition effective_checkpoint (cp : option rdb_checkpoint) : rdb_checkpoint :=
  match cp with
  | Some cp => if cp_valid cp then cp else mk_checkpoint 0 (replicate 16 0) false
  | None => mk_checkpoint 0 (replicate 16 0) false
  end.

Definition checkpoint_ok (cp : option rdb_checkpoint) : Prop :=
  match cp with Some cp => u64_ok (aof_offset cp) /\ zlen (token cp) = 16 | None => True end.

Lemma load_header_spec rd time keys cp rest :
  unread rd (header_image time keys cp ++ rest) -> u64_ok time -> u64_ok keys -> checkpoint_ok cp ->
  exists rd', load_header rd = (Some (time, keys, effective_checkpoint cp), rd') /\ unread rd' rest.
Proof.
  intros Hr Ht Hk Hc. unfold header_image in Hr. fold (effective_checkpoint cp) in Hr.
  assert (Ho : u64_ok (aof_offset (effective_checkpoint cp)) /\ zlen (token (effective_checkpoint cp)) = 16).
  { unfold effective_checkpoint, checkpoint_ok in *. destruct cp as [cp|]; [destruct (cp_valid cp); [done|]|];
      (split; [split; vm_compute; discriminate|reflexivity]). }
  destruct Ho as [Ho1 Ho2]. rewrite <- !app_assoc in Hr. unfold load_header.
  destruct (reader_bytes_spec rd RDB_MAGIC _ _ Hr eq_refl) as (rd1 & -> & Hr1). rewrite bool_decide_true by done. cbn [negb].
  destruct (reader_u64_spec rd1 _ _ Hr1 Ht) as (rd2 & -> & Hr2).
  destruct (reader_u64_spec rd2 _ _ Hr2 Hk) as (rd3 & -> & Hr3).
  destruct (reader_u64_spec rd3 _ _ Hr3 Ho1) as (rd4 & -> & Hr4).
  destruct (reader_u8_spec rd4 _ _ Hr4) as (rd5 & -> & Hr5).
  destruct (reader_bytes_spec rd5 _ _ RDB_CHECKPOINT_TOKEN_SIZE Hr5) as (rd6 & -> & Hr6); [done|].
  exists rd6. split; [|done]. destruct (effective_checkpoint cp) as [off tok v]. by destruct v.
Qed.

Lemma zlen_header time keys cp : checkpoint_ok cp -> zlen (header_image time keys cp) = 49.
Proof.
  intros Hc. unfold header_image. fold (effective_checkpoint cp). autorewrite with zlen.
  rewrite !zlen_encode_u64. change (zlen RDB_MAGIC) with 8.
  assert (zlen (token (effective_checkpoint cp)) = 16) as ->; [|done].
  unfold effective_checkpoint, checkpoint_ok in *. destruct cp as [cp|]; [destruct (cp_valid cp)|]; naive_solver.
Qed.

(** ** The whole image *)

(** The cut between the body and the footer. *)
Lemma image_cut (body footer : list Z) :
  zlen footer = 8 ->
  take (Z.to_nat (zlen (body ++ footer) - 8)) (body ++ footer) = body /\
  drop (Z.to_nat (zlen (body ++ footer) - 8)) (body ++ footer) = footer.
Proof.
  intros Hf. rewrite zlen_app, Hf. replace (zlen body + 8 - 8) with (zlen body) by lia.
  unfold zlen. rewrite Nat2Z.id. split; [apply take_app_length|apply drop_app_length].
Qed.

Lemma entry_images_length (l : list (list Z * cache_entry)) : zlen l <= zlen (concat (entry_image <$> l)).
Proof.
  induction l as [|x l IH]; [done|]. cbn [fmap list_fmap concat]. rewrite zlen_app, zlen_cons.
  unfold entry_image at 1. rewrite zlen_app. change (zlen [_]) with 1.
  pose proof (zlen_nonneg (encode_u64 (e_expire x.2) ++ string_image x.1 ++ value_image (e_object x.2))). lia.
Qed.

Lemma load_image_spec L L0 c c0 engine time cp clock now :
  cache_ok L c -> cache_ok L0 c0 -> c_entries c0 = ∅ -> unlimited c0 ->
  map_Forall (fun k e => loadable engine (k, e)) (c_entries c) -> Z.of_nat (size (c_entries c)) < 2 ^ 59 ->
  checkpoint_ok cp -> u64_ok time -> bytes_ok (body_image time c cp) ->
  exists s c' L', load_image [] clock now (snapshot_image time c cp) c0 engine
      = (Some (effective_checkpoint cp, s), c') /\
    cache_ok L' c' /\ calm c0 c' /\ c_entries c' = load_all engine now (saved_list time c) ∅.
Proof.
  intros [Hc _] Hc0 He0 Hun Hld Hsz Hcp Ht Hby. destruct (saved_list_spec L c time Hc) as (Hnd & Hlen & Hin).
  set (body := body_image time c cp) in *. set (footer := encode_u64 (crc64_update 0 body)).
  destruct (image_cut body footer) as [Htake Hdrop]; [apply zlen_encode_u64|].
  assert (Hsize : zlen (snapshot_image time c cp) = zlen body + 8).
  { unfold snapshot_image. fold body. by rewrite zlen_app, zlen_encode_u64. }
  pose proof (entry_images_length (saved_list time c)) as Hel. pose proof (zlen_nonneg (saved_list time c)).
  assert (Hbody : zlen body = 49 + zlen (concat (entry_image <$> saved_list time c)) + 1).
  { unfold body, body_image. rewrite !zlen_app, zlen_header by done. change (zlen [RDB_TYPE_END]) with 1. lia. }
  assert (Hu : u64_ok (zlen (saved_list time c))) by (unfold u64_ok, UINT64_MAX; lia).
  unfold load_image. destruct (Z.ltb_spec (zlen (snapshot_image time c cp)) 58); [lia|].
  unfold snapshot_image at 1 2 3 4. fold body footer. rewrite Htake, Hdrop. unfold footer at 1.
  rewrite decode_encode by (apply crc64_update_range; [split; vm_compute; discriminate|done]).
  rewrite Z.eqb_refl. cbn [negb]. rewrite Hsize. replace (zlen body + 8 - 8) with (zlen body) by lia.
  assert (Hr : unread (mk_reader (snapshot_image time c cp) (zlen body) 0)
                 (header_image time (zlen (saved_list time c)) cp ++
                  concat (entry_image <$> saved_list time c) ++ [RDB_TYPE_END] ++ [])).
  { exists [], footer. rewrite app_nil_r. change (header_image _ _ _ ++ _) with body. by split_and!. }
  destruct (load_header_spec _ _ _ _ _ Hr Ht Hu Hcp) as (rd1 & -> & Hr1).
  destruct (load_records_spec (S (Z.to_nat (zlen body + 8))) clock rd1 [] c0 engine now
              (with_snapshot_time time zero_stats) 0 (saved_list time c) L0)
    as (rd2 & s2 & c2 & L2 & -> & (pre & ft & _ & Hp & Hs) & Hok2 & Hcalm & HM);
    [done|done|done| | | |exact Hr1| |lia|unfold u64_ok in Hu; lia|].
  - intros k _. by rewrite He0, lookup_empty.
  - apply Forall_forall. intros [k e] Hke. apply Hin in Hke as [Hke _]. exact (Hld k e Hke).
  - rewrite He0, map_size_empty. lia.
  - unfold zlen in *. lia.
  - rewrite zlen_nil in Hs. rewrite Hp, Hs, Z.add_0_r, Z.eqb_refl. cbn [negb]. rewrite Z.eqb_refl. cbn [negb].
    eexists _, _, _. split; [reflexivity|]. split; [exact Hok2|]. split; [done|]. by rewrite HM, He0.
Qed.

(** What a cache loaded at [now] holds for [k] when the snapshot of [c] was
    taken at [time]. *)
Definition restored_lookup (engine : kv_zset_engine) (time now : Z) (c : cache) (k : list Z) : option cache_entry :=
  match c_entries c !! k with
  | Some e => if saved time e && negb (expired now e) then Some (restored_entry engine (k, e)) else None
  | None => None
  end.

Lemma load_all_restored L c engine time now k :
  cache_core L c -> load_all engine now (saved_list time c) ∅ !! k = restored_lookup engine time now c k.
Proof.
  intros Hc. destruct (saved_list_spec L c time Hc) as (Hnd & _ & Hin). unfold restored_lookup.
  destruct (load_all_lookup engine now (saved_list time c) ∅ k Hnd) as [H1 H2]; [by intros; apply lookup_empty|].
  assert (Hno : (forall e, c_entries c !! k = Some e -> saved time e = false) -> k ∉ (saved_list time c).*1).
  { intros Hx Hk. apply list_elem_of_fmap in Hk as ([k' e] & -> & [He Hs]%Hin). by rewrite (Hx e He) in Hs. }
  destruct (c_entries c !! k) as [e|] eqn:E.
  - destruct (saved time e) eqn:Es; cbn [andb].
    + rewrite (H1 e) by (by apply Hin). by destruct (expired now e).
    + rewrite H2; [apply lookup_empty|]. apply Hno. intros e' [= <-]. done.
  - rewrite H2; [apply lookup_empty|]. by apply Hno.
Qed.

(** ** Corrupted files *)

Lemma decode_step_byte v b : 0 <= v < 2 ^ 56 -> byte_ok b -> decode_step v b = v * 256 + b.
Proof.
  intros Hv Hb. unfold decode_step. rewrite Z.shiftl_mul_pow2 by lia. change (2 ^ 8) with 256.
  rewrite wrap64_small by (unfold UINT64_MAX; lia). by rewrite lor_byte.
Qed.

(** The eight bytes of a number determine it and are determined by it. *)
Lemma big_endian_decode l :
  bytes_ok l -> (length l <= 8)%nat ->
  0 <= fold_left decode_step l 0 < 256 ^ Z.of_nat (length l) /\
  big_endian (length l) (fold_left decode_step l 0) = l.
Proof.
  induction l as [|b l IH] using rev_ind; intros Hl Hn; [cbn; split; [lia|done]|].
  apply Forall_app in Hl as [Hl Hb]. apply Forall_cons in Hb as [Hb _]. rewrite length_app in *. cbn [length] in *.
  destruct IH as [IHr IHe]; [done|lia|]. rewrite fold_left_app. cbn [fold_left].
  set (v := fold_left decode_step l 0) in *.
  assert (Hp : 256 ^ Z.of_nat (length l) <= 256 ^ 7) by (apply Z.pow_le_mono_r; lia).
  change (256 ^ 7) with (2 ^ 56) in Hp. rewrite decode_step_byte by (done || lia). unfold byte_ok in Hb.
  replace (length l + 1)%nat with (S (length l)) by lia. rewrite Nat2Z.inj_succ, Z.pow_succ_r by lia.
  split; [lia|]. cbn [big_endian].
  rewrite Z.div_add_l, (Z.div_small b), Z.add_0_r, IHe by lia.
  by rewrite Z.add_comm, Z.mod_add, Z.mod_small by lia.
Qed.

Lemma decode_u64_inj a b : bytes_ok a -> bytes_ok b -> length a = 8%nat -> length b = 8%nat -> decode_u64 a = decode_u64 b -> a = b.
Proof.
  intros Ha Hb La Lb H. unfold decode_u64 in H. rewrite !take_ge in H by lia. fold decode_step in H.
  destruct (big_endian_decode a Ha) as [_ Ea]; [lia|]. destruct (big_endian_decode b Hb) as [_ Eb]; [lia|].
  rewrite La in Ea. rewrite Lb in Eb. congruence.
Qed.

(** A file whose checksum does not match is refused and leaves the cache
    alone. *)
Lemma load_image_mismatch clock now body footer c0 engine m :
  zlen footer = 8 -> decode_u64 footer <> crc64_update 0 body ->
  load_image m clock now (body ++ footer) c0 engine = (None, c0).
Proof.
  intros Hf Hne. unfold load_image. destruct (_ <? 58); [done|].
  destruct (image_cut body footer Hf) as [-> ->]. by apply Z.eqb_neq in Hne as ->.
Qed.

(** One changed byte anywhere makes the checksum wrong. *)
Lemma altered_image body pre x y post clock now c0 engine m :
  bytes_ok body -> byte_ok y -> x <> y -> body ++ encode_u64 (crc64_update 0 body) = pre ++ x :: post ->
  load_image m clock now (pre ++ y :: post) c0 engine = (None, c0).
Proof.
  intros Hb Hy Hxy Heq. set (crc := crc64_update 0 body) in *.
  assert (Hcrc : u64_ok crc) by (apply crc64_update_range; [split; vm_compute; discriminate|done]).
  assert (Hfb : bytes_ok (encode_u64 crc)) by (rewrite encode_u64_big_endian; apply big_endian_bytes).
  pose proof (zlen_encode_u64 crc) as Hfl. assert (Hdef : crc64_update 0 body = crc) by done. clearbody crc.
  apply app_eq_inv in Heq as [(k & -> & Hk)|(k & -> & Hk)].
  - destruct k as [|x' k]; cbn [app] in Hk.
    + rewrite app_nil_r in *. rewrite <- Hk in Hfb, Hfl.
      apply load_image_mismatch; [by rewrite zlen_cons in *|]. intros E.
      rewrite Hdef, <- (decode_encode crc Hcrc), <- Hk in E. apply decode_u64_inj in E; [congruence|..].
      * apply Forall_cons in Hfb as [_ Hfb]. by constructor.
      * done.
      * unfold zlen in Hfl. cbn in *. lia.
      * unfold zlen in Hfl. cbn in *. lia.
    + injection Hk as <- ->. replace (pre ++ y :: k ++ encode_u64 crc) with ((pre ++ y :: k) ++ encode_u64 crc) by (by rewrite <- app_assoc).
      apply load_image_mismatch; [done|]. rewrite decode_encode by done. rewrite <- Hdef.
      apply Forall_app in Hb as [Hpre [Hx Hk]%Forall_cons]. by apply crc64_one_byte.
  - rewrite <- app_assoc. rewrite Hk in Hfb, Hfl. apply load_image_mismatch; [by rewrite zlen_app, zlen_cons in *|].
    intros E. rewrite Hdef, <- (decode_encode crc Hcrc), Hk in E. apply decode_u64_inj in E.
    + apply app_inv_head in E. congruence.
    + apply Forall_app in Hfb as [? [_ ?]%Forall_cons]. apply Forall_app. split; [done|by constructor].
    + done.
    + unfold zlen in Hfl. rewrite length_app in *. cbn in *. lia.
    + unfold zlen in Hfl. rewrite length_app in *. cbn in *. lia.
Qed.

(** ** The properties *)

Lemma loadable_objects engine c :
  map_Forall (fun k e => loadable engine (k, e)) (c_entries c) -> objects_ok c.
Proof. intros H k e He. destruct (H k e He) as ((ct & Hct & _) & _). by exists ct. Qed.

(** C17. A snapshot that was saved at the time [time] and is loaded into an empty
    cache without limits at the time [now] restores exactly the keys that had
    not expired, each with the contents and the deadline it had (a sorted set
    is rebuilt on the engine the loader is configured with), and returns the
    log checkpoint it was saved with; the loaded cache satisfies the cache
    invariant. *)
Theorem rdb_roundtrip L L0 env fs path c cp c0 engine time now clock :
  cache_ok L c -> cache_ok L0 c0 -> c_entries c0 = ∅ -> unlimited c0 ->
  map_Forall (fun k e => loadable engine (k, e)) (c_entries c) -> Z.of_nat (size (c_entries c)) < 2 ^ 59 ->
  checkpoint_ok cp -> se_clock env = Some time -> u64_ok time -> bytes_ok (body_image time c cp) ->
  path <> se_temporary env -> zlen path <> 0 ->
  let '(r, fs', _) := rdb_save env fs path c cp in
  r = 0 ->
  let '(r', c', loaded) := rdb_load [] true true true clock now fs' path c0 engine in
  r' = 0 /\ fst <$> loaded = Some (effective_checkpoint cp) /\ (exists L', cache_ok L' c') /\
  forall k, match c_entries c !! k with
            | Some e =>
                if saved time e && negb (expired now e)
                then exists e', c_entries c' !! k = Some e' /\ e_expire e' = e_expire e /\
                       forall ct, holds (e_object e) ct -> portable ct ->
                                  holds (e_object e') (with_engine engine ct)
                else c_entries c' !! k = None
            | None => c_entries c' !! k = None
            end.
Proof.
  intros Hc Hc0 He0 Hun Hld Hsz Hcp Hclk Ht Hby Hne Hp.
  pose proof (save_spec env fs path c cp (loadable_objects engine c Hld) Hne) as Hs.
  destruct (rdb_save env fs path c cp) as [[r fs'] st]. destruct Hs as [[_ Hs] _]. intros ->.
  destruct Hs as [(_ & (time' & E & Hf) & _)|(? & _)]; [|done].
  assert (time' = time) as -> by congruence. unfold rdb_load. rewrite Hf.
  destruct (Z.eqb_spec (zlen path) 0); [done|]. cbn [negb orb].
  destruct (load_image_spec L L0 c c0 engine time cp clock now) as (s & c' & L' & -> & Hok & _ & HM); try done.
  split_and!; [done|done|by exists L'|]. intros k.
  assert (Hk : c_entries c' !! k = restored_lookup engine time now c k).
  { rewrite HM. destruct Hc as [Hc _]. by apply (load_all_restored L). }
  unfold restored_lookup in Hk. destruct (c_entries c !! k) as [e|]; [|done].
  destruct (saved time e && negb (expired now e)); [|done].
  exists (restored_entry engine (k, e)). split; [done|]. split; [done|]. intros ct. apply rebuilt_holds.
Qed.

(** C20. A save replaces the snapshot atomically: it either succeeds and leaves
    the complete image of the cache under the name, or fails and leaves under
    the name what was there before, except that a failure to sync the
    directory is reported with the complete new image in place; no other file
    changes and no temporary file is left.  It succeeds when every system call
    does. *)
Theorem rdb_save_atomic (env : save_env) fs (path : list Z) c cp :
  objects_ok c -> path <> se_temporary env ->
  let '(r, fs', _) := rdb_save env fs path c cp in
  (forall q, q <> path -> q <> se_temporary env -> fs' !! q = fs !! q) /\
  (r = 0 /\ (exists time, se_clock env = Some time /\ fs' !! path = Some (snapshot_image time c cp)) /\
     fs' !! se_temporary env = None \/
   r = -1 /\ (fs' = fs \/ fs' !! se_temporary env = None) /\
     (fs' !! path = fs !! path \/
      exists time, se_clock env = Some time /\ fs' !! path = Some (snapshot_image time c cp))) /\
  (env_ok env -> zlen path <> 0 -> zlen path <= SIZE_MAX - 16 ->
   (forall time, zlen (saved_list time c) <= UINT64_MAX /\ zlen (body_image time c cp) <= UINT64_MAX) -> r = 0).
Proof.
  intros Hc Hne. pose proof (save_spec env fs path c cp Hc Hne) as H.
  destruct (rdb_save env fs path c cp) as [[r fs'] st]. destruct H as [[H1 H2] H3]. by split_and!.
Qed.

(** C25. A snapshot in which one byte was changed, wherever it is, is refused
    and the cache is left as it was. *)
Theorem rdb_load_rejects_corruption time c cp pre x y post m clock now fs path c0 engine :
  bytes_ok (body_image time c cp) -> byte_ok y -> x <> y ->
  snapshot_image time c cp = pre ++ x :: post -> fs !! path = Some (pre ++ y :: post) ->
  rdb_load m true true true clock now fs path c0 engine = (-1, c0, None).
Proof.
  intros Hb Hy Hne Heq Hf. unfold rdb_load. destruct (_ =? 0); [done|]. rewrite Hf. cbn [negb orb].
  by rewrite (altered_image (body_image time c cp) pre x y post).
Qed.

(** *** Witnesses *)

Definition sample_path : list Z := lit "a.rdb".

Definition sample_env : save_env :=
  mk_save_env true (lit "a.rdb.tmp.abcdef") true true (Some 3000) [Wrote 3; Interrupted] true true true
    (true, true, true, true).

Definition sample_target : cache :=
  match cache_create [] 0 0 with (Some c, _) => c | (None, _) => small_cache end.

Lemma sample_target_ok : exists L, cache_ok L sample_target.
Proof.
  apply (reachable_ok 0 0); [lia|lia|]. eapply (reach_create 0 0 []). vm_compute. reflexivity.
Qed.

Lemma sample_list :
  map_to_list (c_entries sample_cache) =
  [([98], mk_entry (mk_object 43 (VString [2; 3] 2)) 141 0 5000);
   ([97], mk_entry (mk_object 42 (VString [1] 1)) 140 0 0)].
Proof. vm_compute. reflexivity. Qed.

Lemma sample_string_loadable engine k n l cap charge x :
  0 <= n -> u64_ok x -> zlen k < 2 ^ 62 -> zlen l < 2 ^ 62 ->
  entry_memory_charge (zlen k) (rebuilt engine (mk_object n (VString l cap))) <> SIZE_MAX ->
  loadable engine (k, mk_entry (mk_object n (VString l cap)) charge 0 x).
Proof. intros H1 H2 H3 H4 H5. split; [|done]. by exists (CString l). Qed.

Lemma sample_loadable : map_Forall (fun k e => loadable KV_ZSET_SKIPLIST (k, e)) (c_entries sample_cache).
Proof.
  intros k e He. apply elem_of_map_to_list in He. rewrite sample_list in He.
  repeat (apply elem_of_cons in He as [[= -> ->]|He]); [| |by apply not_elem_of_nil in He];
    (apply sample_string_loadable; [lia|split; vm_compute; discriminate|reflexivity|reflexivity|vm_compute; discriminate]).
Qed.

Lemma sample_bytes : bytes_ok (body_image 3000 sample_cache None).
Proof.
  assert (forallb (fun b => (0 <=? b) && (b <? 256)) (body_image 3000 sample_cache None) = true) as H
    by (vm_compute; reflexivity).
  apply Forall_forall. intros b Hb. rewrite forallb_forall in H. apply list_elem_of_In in Hb.
  specialize (H b Hb). unfold byte_ok. apply andb_true_iff in H as [H1 H2]. zb. lia.
Qed.

Lemma rdb_roundtrip_witness :
  let '(r, fs', _) := rdb_save sample_env ∅ sample_path sample_cache None in
  r = 0 /\
  let '(r', c', _) := rdb_load [] true true true (fun _ => 6000) 6000 fs' sample_path sample_target KV_ZSET_SKIPLIST in
  r' = 0 /\ c_entries c' !! [98] = None /\ is_Some (c_entries c' !! [97]).
Proof.
  destruct sample_cache_ok as [L HL]. destruct sample_target_ok as [L0 HL0].
  assert (Hr : (rdb_save sample_env ∅ sample_path sample_cache None).1.1 = 0) by (vm_compute; reflexivity).
  pose proof (rdb_roundtrip L L0 sample_env ∅ sample_path sample_cache None sample_target KV_ZSET_SKIPLIST 3000 6000
                (fun _ => 6000) HL HL0) as H.
  destruct (rdb_save sample_env ∅ sample_path sample_cache None) as [[r fs'] st]. cbn [fst] in Hr.
  split; [exact Hr|].
  destruct (rdb_load [] true true true (fun _ => 6000) 6000 fs' sample_path sample_target KV_ZSET_SKIPLIST) as [[r' c'] i].
  destruct H as (H1 & _ & _ & H2);
    [vm_compute; reflexivity|split; reflexivity|exact sample_loadable|vm_compute; reflexivity|exact I|reflexivity
    |split; vm_compute; discriminate|exact sample_bytes|discriminate|discriminate|exact Hr|].
  split; [exact H1|]. split.
  - specialize (H2 [98]). vm_compute in H2. exact H2.
  - specialize (H2 [97]). assert (E : c_entries sample_cache !! [97] = Some (mk_entry (mk_object 42 (VString [1] 1)) 140 0 0))
      by (vm_compute; reflexivity). rewrite E in H2. cbn in H2. destruct H2 as (e' & -> & _). by eexists.
Defined.

Lemma rdb_save_atomic_witness :
  let '(r, fs', _) := rdb_save (mk_save_env true [116] true true (Some 1) [WriteError] true true true (true, true, true, true))
                        (<[sample_path := [1; 2]]> ∅) sample_path sample_cache None in
  r = -1 /\ forall q, q <> sample_path -> q <> [116] -> fs' !! q = <[sample_path := [1; 2]]> (∅ : files) !! q.
Proof.
  set (env := mk_save_env true [116] true true (Some 1) [WriteError] true true true (true, true, true, true)).
  assert (Hr : (rdb_save env (<[sample_path := [1; 2]]> ∅) sample_path sample_cache None).1.1 = -1)
    by (vm_compute; reflexivity).
  pose proof (rdb_save_atomic env (<[sample_path := [1; 2]]> ∅) sample_path sample_cache None
                (loadable_objects _ _ sample_loadable)) as H.
  destruct (rdb_save env _ sample_path sample_cache None) as [[r fs'] st].
  destruct H as [H _]; [discriminate|]. split; [exact Hr|exact H].
Defined.

Lemma rdb_load_rejects_corruption_witness :
  rdb_load [] true true true (fun _ => 6000) 6000
    (<[sample_path := <[20%nat := 1]> (snapshot_image 3000 sample_cache None)]> ∅) sample_path sample_target KV_ZSET_RBTREE
  = (-1, sample_target, None).
Proof.
  apply (rdb_load_rejects_corruption 3000 sample_cache None
           (take 20 (snapshot_image 3000 sample_cache None)) 0 1 (drop 21 (snapshot_image 3000 sample_cache None)));
    [exact sample_bytes|split; lia|discriminate|vm_compute; reflexivity|vm_compute; reflexivity].
Defined.
