(* ===== verification/Aof.v ===== *)
(** The append-only log of [src/persistence/aof.c]: the encoding of records,
    replay with the repair of a torn tail, checkpoints, and the two threads
    that share the queue of chunks.

    The producer is the thread that runs the commands; the writer is the
    thread [writer_main].  A region that holds [aof->mutex] is one step of its
    thread, and so is each system call; [errno] is represented where the code
    publishes it. *)

From S2P Require Import Prelude Resp Rdb.

Definition AOF_MAX_RECORD_SIZE : Z := RESP_MAX_FRAME_SIZE + 1024.

Definition AOF_CHUNK_CAPACITY : Z := 256 * 1024.

Definition AOF_QUEUE_HIGH_WATER : Z := 4 * 1024 * 1024.

Definition AOF_QUEUE_LOW_WATER : Z := 2 * 1024 * 1024.

Definition AOF_WRITEV_MAX : nat := 16.

Arguments AOF_CHUNK_CAPACITY : simpl never.

Definition EIO : Z := 5.

Inductive aof_fsync_policy : Type := AOF_FSYNC_ALWAYS | AOF_FSYNC_EVERYSEC | AOF_FSYNC_NO.

#[export] Instance aof_fsync_policy_eq_dec : EqDecision aof_fsync_policy.
Proof. solve_decision. Defined.

(** ** Records *)

(** A 64-bit value has at most 20 digits. *)
Fixpoint decimal_length_loop (fuel : nat) (value length : Z) : Z :=
  match fuel with
  | O => length
  | S fuel => if value >=? 10 then decimal_length_loop fuel (value / 10) (length + 1) else length
  end.

Definition decimal_length (value : Z) : Z := decimal_length_loop 20 value 1.

Definition checked_add (total amount : Z) : option Z :=
  if amount >? SIZE_MAX - total then None else Some (total + amount).

Fixpoint encoded_size_loop (arguments : list slice) (total : Z) : option Z :=
  match arguments with
  | [] => Some total
  | None :: _ => None
  | Some data :: arguments =>
      checked_add total (1 + decimal_length (zlen data) + 2) ≫= fun total =>
      checked_add total (zlen data) ≫= fun total =>
      checked_add total 2 ≫= fun total => encoded_size_loop arguments total
  end.

Definition encoded_size (arguments : list slice) : option Z :=
  if (zlen arguments =? 0) || (zlen arguments >? RESP_MAX_ARGUMENTS) then None else
  encoded_size_loop arguments (1 + decimal_length (zlen arguments) + 2) ≫= fun total =>
  if total >? AOF_MAX_RECORD_SIZE then None else Some total.

Definition encode_unsigned (prefix value : Z) : list Z := prefix :: decimal value ++ [CR; LF].

Fixpoint encode_arguments (arguments : list slice) : list Z :=
  match arguments with
  | [] => []
  | a :: arguments =>
      let data := default [] a in
      encode_unsigned 36 (zlen data) ++ data ++ [CR; LF] ++ encode_arguments arguments
  end.

(** The bytes written at [output]. *)
Definition encode_record (capacity : Z) (arguments : list slice) (expected_length : Z) : option (list Z) :=
  if capacity <? expected_length then None else
  let output := encode_unsigned 42 (zlen arguments) ++ encode_arguments arguments in
  if negb (zlen output =? expected_length) then None else Some output.

(** The doubling loop; from [AOF_CHUNK_CAPACITY] it ends within 64 steps. *)
Fixpoint double_capacity (fuel : nat) (next needed : Z) : option Z :=
  match fuel with
  | O => None
  | S fuel =>
      if next <? needed then
        if next >? SIZE_MAX / 2 then None else double_capacity fuel (next * 2) needed
      else Some next
  end.

(** The new capacity; [realloc] keeps the contents. *)
Definition reserve_bytes (m : mem) (capacity needed : Z) : option Z * mem :=
  if needed <=? capacity then (Some capacity, m) else
  match double_capacity 65 (if capacity =? 0 then AOF_CHUNK_CAPACITY else capacity) needed with
  | None => (None, m)
  | Some next => let '(ok, m) := malloc m in (if ok then Some next else None, m)
  end.

(** ** Replay *)

Record aof_replay_stats : Type := mk_replay_stats { commands_loaded : Z; truncated_tail_repaired : bool }.

(** The outcomes of [fstat], [mmap] and [ftruncate]. *)
Record replay_env : Type := mk_replay_env { re_fstat : bool; re_mmap : bool; re_truncate : bool }.

(** The position where the loop ended, or [None] for an error.  An iteration
    consumes at least one byte. *)
Fixpoint replay_loop {C} (fuel : nat) (callback : C -> list (list Z) -> Z * C) (file : list Z)
    (position : Z) (context : C) (loaded : Z) : option Z * C * Z :=
  match fuel with
  | O => (None, context, loaded)
  | S fuel =>
      if position <? zlen file then
        let input := drop (Z.to_nat position) file in
        match resp_parse_request_with_limit (Some input) false AOF_MAX_RECORD_SIZE with
        | (RESP_PARSE_INCOMPLETE, _, _) => (Some position, context, loaded)
        | (RESP_PARSE_COMPLETE, arguments, consumed) =>
            let '(r, context) := callback context (map (slice_bytes input) arguments) in
            if negb (r =? 0) then (None, context, loaded)
            else replay_loop fuel callback file (position + consumed) context (loaded + 1)
        | _ => (None, context, loaded)
        end
      else (Some position, context, loaded)
  end.

(** The result, the file afterwards, the callback's context and the
    statistics. *)
Definition aof_replay_from {C} (env : replay_env) (file : list Z) (offset : Z)
    (callback : C -> list (list Z) -> Z * C) (context : C) : Z * list Z * C * aof_replay_stats :=
  if negb (re_fstat env) then (-1, file, context, mk_replay_stats 0 false) else
  if offset >? zlen file then (-1, file, context, mk_replay_stats 0 false) else
  if (zlen file =? 0) || (offset =? zlen file) then (0, file, context, mk_replay_stats 0 false) else
  if negb (re_mmap env) then (-1, file, context, mk_replay_stats 0 false) else
  let '(ended, context, loaded) := replay_loop (S (length file)) callback file offset context 0 in
  match ended with
  | None => (-1, file, context, mk_replay_stats loaded false)
  | Some position =>
      if negb (position =? zlen file) then
        if negb (re_truncate env) then (-1, file, context, mk_replay_stats loaded false)
        else (0, take (Z.to_nat position) file, context, mk_replay_stats loaded true)
      else (0, file, context, mk_replay_stats loaded false)
  end.

Definition aof_replay {C} (env : replay_env) (file : list Z)
    (callback : C -> list (list Z) -> Z * C) (context : C) : Z * list Z * C * aof_replay_stats :=
  aof_replay_from env file 0 callback context.

(** ** Checkpoints *)

Definition hex_digit (v : Z) : Z := byte_at (lit "0123456789abcdef") v.

Definition checkpoint_token_text (token : list Z) : list Z :=
  token ≫= fun b => [hex_digit (Z.shiftr b 4); hex_digit (Z.land b 0x0f)].

(** The results of [getrandom]; a list that ends early is a failed call. *)
Inductive random_outcome : Type := RandomBytes (l : list Z) | RandomInterrupted | RandomError.

Fixpoint fill_random_token (io : list random_outcome) (length : Z) : option (list Z) :=
  if length <=? 0 then Some [] else
  match io with
  | RandomBytes l :: io =>
      if (0 <? zlen l) && (zlen l <=? length) then (app l) <$> fill_random_token io (length - zlen l) else None
  | RandomInterrupted :: io => fill_random_token io length
  | _ => None
  end.

Definition checkpoint_arguments (token : list Z) : list slice :=
  [Some (lit "PING"); Some (checkpoint_token_text token)].

(** The record and its length. *)
Definition checkpoint_record (cp : rdb_checkpoint) (capacity : Z) : option (list Z * Z) :=
  encoded_size (checkpoint_arguments (token cp)) ≫= fun length =>
  if length >? capacity then None else
  (fun output => (output, length)) <$> encode_record capacity (checkpoint_arguments (token cp)) length.

(** The results of [pread]: at most so many bytes, or an error; after the
    list every call reads all it can. *)
Inductive read_outcome : Type := ReadUpTo (n : Z) | ReadInterrupted | ReadError.

(** The [length] bytes of the file from [offset] on. *)
Fixpoint pread_all (io : list read_outcome) (file : list Z) (offset length : Z) : option (list Z) :=
  if length <=? 0 then Some [] else
  let available := take (Z.to_nat length) (drop (Z.to_nat offset) file) in
  match io with
  | [] => if zlen available =? length then Some available else None
  | ReadUpTo n :: io =>
      let got := take (Z.to_nat n) available in
      if zlen got =? 0 then None
      else (app got) <$> pread_all io file (offset + zlen got) (length - zlen got)
  | ReadInterrupted :: io => pread_all io file offset length
  | ReadError :: _ => None
  end.

Definition aof_validate_checkpoint (io : list read_outcome) (file : list Z) (cp : rdb_checkpoint) : Z :=
  if negb (cp_valid cp) then -1 else
  match checkpoint_record cp 128 with
  | None => -1
  | Some (expected, length) =>
      if aof_offset cp <? length then -1 else
      match pread_all io file (aof_offset cp - length) length with
      | None => -1
      | Some actual => if negb (bool_decide (actual = expected)) then -1 else 0
      end
  end.

(** ** The log *)

(** [ck_data] holds the first [length] bytes of the array [data]. *)
Record aof_chunk : Type := mk_chunk {
  ck_data : list Z; ck_offset : Z; ck_sequence : Z; ck_end : bool
}.

Definition ck_rest (k : aof_chunk) : list Z := drop (Z.to_nat (ck_offset k)) (ck_data k).

(** The file behind [fd] and how many of its bytes have reached the device. *)
Record aof_disk : Type := mk_disk { d_file : list Z; d_durable : Z }.

(** The fields that [mutex] protects.  The free list is represented by its
    length. *)
Record aof_shared : Type := mk_shared {
  sh_queue : list aof_chunk; sh_free : Z; sh_queue_bytes : Z; sh_written_bytes : Z;
  sh_backpressure_events : Z; sh_backpressured : bool; sh_error : Z;
  sh_stopping : bool; sh_pause_requested : bool; sh_paused : bool;
  sh_fsync_count : Z; sh_fsync_total : Z; sh_fsync_max : Z
}.

(** The sequence numbers: assigned, written and synced. *)
Record aof_sequences : Type := mk_seqs { sq_next : Z; sq_written : Z; sq_synced : Z }.

(** The fields only the producer uses. *)
Record aof_producer : Type := mk_producer {
  pr_chunk : option aof_chunk;
  pr_pending : list Z; pr_pending_capacity : Z;
  pr_transaction : list Z; pr_transaction_capacity : Z; pr_active : bool
}.

(** [a_sync_mutex]: the mutex [sync_mutex] is held. *)
Record aof : Type := mk_aof {
  a_disk : aof_disk; a_policy : aof_fsync_policy; a_shared : aof_shared;
  a_seqs : aof_sequences; a_producer : aof_producer; a_sync_mutex : bool
}.

Definition with_disk (x : aof_disk) (a : aof) : aof :=
  mk_aof x (a_policy a) (a_shared a) (a_seqs a) (a_producer a) (a_sync_mutex a).

Definition with_shared (x : aof_shared) (a : aof) : aof :=
  mk_aof (a_disk a) (a_policy a) x (a_seqs a) (a_producer a) (a_sync_mutex a).

Definition with_seqs (x : aof_sequences) (a : aof) : aof :=
  mk_aof (a_disk a) (a_policy a) (a_shared a) x (a_producer a) (a_sync_mutex a).

Definition with_producer (x : aof_producer) (a : aof) : aof :=
  mk_aof (a_disk a) (a_policy a) (a_shared a) (a_seqs a) x (a_sync_mutex a).

Definition with_sync_mutex (x : bool) (a : aof) : aof :=
  mk_aof (a_disk a) (a_policy a) (a_shared a) (a_seqs a) (a_producer a) x.

(** [aof_open] once the file is open and the thread started. *)
Definition aof_open (file : list Z) (policy : aof_fsync_policy) : aof :=
  mk_aof (mk_disk file (zlen file)) policy
    (mk_shared [] 0 0 0 0 false 0 false false false 0 0 0) (mk_seqs 0 0 0)
    (mk_producer None [] 0 [] 0 false) false.

Definition aof_last_error (a : aof) : Z := sh_error (a_shared a).

Definition aof_is_failed (a : aof) : bool := negb (aof_last_error a =? 0).

Definition aof_can_accept_write (a : aof) : bool :=
  negb (sh_backpressured (a_shared a)) && (sh_error (a_shared a) =? 0).

Definition aof_sequence_ready (a : aof) (sequence : Z) : bool :=
  if sequence =? 0 then true else sq_written (a_seqs a) >=? sequence.

Definition aof_maintain (a : aof) : Z := if negb (aof_last_error a =? 0) then -1 else 0.

Definition with_error (e : Z) (sh : aof_shared) : aof_shared :=
  mk_shared (sh_queue sh) (sh_free sh) (sh_queue_bytes sh) (sh_written_bytes sh)
    (sh_backpressure_events sh) (sh_backpressured sh) e (sh_stopping sh) (sh_pause_requested sh) (sh_paused sh)
    (sh_fsync_count sh) (sh_fsync_total sh) (sh_fsync_max sh).

Definition publish_error (error_number : Z) (sh : aof_shared) : aof_shared :=
  let error_number := if error_number =? 0 then EIO else error_number in
  if sh_error sh =? 0 then with_error error_number sh else sh.

Definition with_free (n : Z) (sh : aof_shared) : aof_shared :=
  mk_shared (sh_queue sh) n (sh_queue_bytes sh) (sh_written_bytes sh)
    (sh_backpressure_events sh) (sh_backpressured sh) (sh_error sh) (sh_stopping sh) (sh_pause_requested sh)
    (sh_paused sh) (sh_fsync_count sh) (sh_fsync_total sh) (sh_fsync_max sh).

Definition with_flags (stopping requested paused : bool) (sh : aof_shared) : aof_shared :=
  mk_shared (sh_queue sh) (sh_free sh) (sh_queue_bytes sh) (sh_written_bytes sh)
    (sh_backpressure_events sh) (sh_backpressured sh) (sh_error sh) stopping requested paused
    (sh_fsync_count sh) (sh_fsync_total sh) (sh_fsync_max sh).

(** Whether a chunk was acquired. *)
Definition acquire_chunk (m : mem) (sh : aof_shared) : bool * aof_shared * mem :=
  if sh_free sh >? 0 then (true, with_free (sh_free sh - 1) sh, m)
  else let '(ok, m) := malloc m in (ok, sh, m).

Definition queue_chunk_locked (chunk : aof_chunk) (sh : aof_shared) : aof_shared :=
  let bytes := wrap64 (sh_queue_bytes sh + zlen (ck_data chunk)) in
  let raise := (bytes >=? AOF_QUEUE_HIGH_WATER) && negb (sh_backpressured sh) in
  mk_shared (sh_queue sh ++ [chunk]) (sh_free sh) bytes (sh_written_bytes sh)
    (if raise then wrap64 (sh_backpressure_events sh + 1) else sh_backpressure_events sh)
    (raise || sh_backpressured sh) (sh_error sh) (sh_stopping sh) (sh_pause_requested sh) (sh_paused sh)
    (sh_fsync_count sh) (sh_fsync_total sh) (sh_fsync_max sh).

(** ** Operations of the producer *)

Definition with_chunk (k : option aof_chunk) (p : aof_producer) : aof_producer :=
  mk_producer k (pr_pending p) (pr_pending_capacity p) (pr_transaction p) (pr_transaction_capacity p) (pr_active p).

Definition with_transaction (bytes : list Z) (capacity : Z) (active : bool) (p : aof_producer) : aof_producer :=
  mk_producer (pr_chunk p) (pr_pending p) (pr_pending_capacity p) bytes capacity active.

Definition with_pending (bytes : list Z) (capacity : Z) (p : aof_producer) : aof_producer :=
  mk_producer (pr_chunk p) bytes capacity (pr_transaction p) (pr_transaction_capacity p) (pr_active p).

(** The buffer that receives the record and the capacity it ends up with. *)
Definition append_to (m : mem) (bytes : list Z) (capacity : Z) (arguments : list slice) (record_length : Z)
  : option (list Z) * Z * mem :=
  if record_length >? SIZE_MAX - zlen bytes then (None, capacity, m) else
  match reserve_bytes m capacity (zlen bytes + record_length) with
  | (None, m) => (None, capacity, m)
  | (Some capacity, m) =>
      match encode_record (capacity - zlen bytes) arguments record_length with
      | None => (None, capacity, m)
      | Some record => (Some (bytes ++ record), capacity, m)
      end
  end.

Definition aof_append (m : mem) (a : aof) (arguments : list slice) : Z * aof * mem :=
  if negb (aof_last_error a =? 0) then (-1, a, m) else
  match encoded_size arguments with
  | None => (-1, a, m)
  | Some record_length =>
      let p := a_producer a in
      if pr_active p then
        let '(r, capacity, m) := append_to m (pr_transaction p) (pr_transaction_capacity p) arguments record_length in
        (match r with Some _ => 0 | None => -1 end,
         with_producer (with_transaction (default (pr_transaction p) r) capacity true p) a, m)
      else
        let '(r, capacity, m) := append_to m (pr_pending p) (pr_pending_capacity p) arguments record_length in
        (match r with Some _ => 0 | None => -1 end,
         with_producer (with_pending (default (pr_pending p) r) capacity p) a, m)
  end.

Definition aof_transaction_begin (a : aof) : Z * aof :=
  if pr_active (a_producer a) || negb (aof_can_accept_write a) then (-1, a) else
  (0, with_producer (with_transaction [] (pr_transaction_capacity (a_producer a)) true (a_producer a)) a).

Definition aof_transaction_rollback (a : aof) : aof :=
  with_producer (with_transaction [] (pr_transaction_capacity (a_producer a)) false (a_producer a)) a.

Definition empty_chunk : aof_chunk := mk_chunk [] 0 0 false.

(** [atomic_fetch_add(&aof->next_sequence, 1) + 1] *)
Definition assign_sequence (a : aof) : Z * aof :=
  let assigned := wrap64 (sq_next (a_seqs a) + 1) in
  (assigned, with_seqs (mk_seqs assigned (sq_written (a_seqs a)) (sq_synced (a_seqs a))) a).

(** The head of the loop of [aof_transaction_commit]: a producer chunk is
    acquired when there is none; [false] when that fails. *)
Definition commit_acquire (m : mem) (a : aof) : bool * aof * mem :=
  match pr_chunk (a_producer a) with
  | Some _ => (true, a, m)
  | None =>
      let '(ok, sh, m) := acquire_chunk m (a_shared a) in
      if ok then (true, with_producer (with_chunk (Some empty_chunk) (a_producer a)) (with_shared sh a), m)
      else (false, aof_transaction_rollback (with_shared sh a), m)
  end.

(** The rest of the loop body: the new position. *)
Definition commit_copy (position assigned : Z) (k : aof_chunk) (a : aof) : Z * aof :=
  let p := a_producer a in
  let available := AOF_CHUNK_CAPACITY - zlen (ck_data k) in
  let amount := zlen (pr_transaction p) - position in
  let amount := if amount >? available then available else amount in
  let data := ck_data k ++ sub_bytes (pr_transaction p) position amount in
  let position := position + amount in
  let k := mk_chunk data (ck_offset k) assigned (position =? zlen (pr_transaction p)) in
  if zlen data =? AOF_CHUNK_CAPACITY
  then (position, with_producer (with_chunk None p) (with_shared (queue_chunk_locked k (a_shared a)) a))
  else (position, with_producer (with_chunk (Some k) p) a).

(** The loop without interference; an iteration with a chunk that is not full
    copies at least one byte. *)
Fixpoint commit_loop (fuel : nat) (m : mem) (position assigned : Z) (a : aof) : bool * aof * mem :=
  if position <? zlen (pr_transaction (a_producer a)) then
    match fuel with
    | O => (false, a, m)
    | S fuel =>
        let '(ok, a, m) := commit_acquire m a in
        if negb ok then (false, a, m) else
        match pr_chunk (a_producer a) with
        | None => (false, a, m)
        | Some k => let '(position, a) := commit_copy position assigned k a in commit_loop fuel m position assigned a
        end
    end
  else (true, a, m).

(** The result, the value of [*sequence] and the log. *)
Definition aof_transaction_commit (m : mem) (a : aof) : Z * Z * aof * mem :=
  if negb (pr_active (a_producer a)) then (-1, 0, a, m) else
  let '(assigned, a) := if zlen (pr_transaction (a_producer a)) >? 0 then assign_sequence a else (0, a) in
  let '(ok, a, m) := commit_loop (length (pr_transaction (a_producer a))) m 0 assigned a in
  if ok then (0, assigned, aof_transaction_rollback a, m) else (-1, 0, a, m).

(** The producer chunk is handed to the writer. *)
Definition queue_producer_chunk (a : aof) : aof :=
  match pr_chunk (a_producer a) with
  | Some k => with_producer (with_chunk None (a_producer a)) (with_shared (queue_chunk_locked k (a_shared a)) a)
  | None => a
  end.

(** The chunks that [enqueue_bytes] fills before it takes the mutex. *)
Fixpoint fill_chunks (fuel : nat) (m : mem) (data : list Z) (sh : aof_shared)
  : option (list aof_chunk) * aof_shared * mem :=
  match data, fuel with
  | [], _ => (Some [], sh, m)
  | _, O => (None, sh, m)
  | _, S fuel =>
      let '(ok, sh, m) := acquire_chunk m sh in
      if negb ok then (None, sh, m) else
      let amount := Z.to_nat AOF_CHUNK_CAPACITY in
      let '(chunks, sh, m) := fill_chunks fuel m (drop amount data) sh in
      (cons (mk_chunk (take amount data) 0 0 false) <$> chunks, sh, m)
  end.

(** The last chunk carries the sequence number. *)
Fixpoint mark_last (assigned : Z) (chunks : list aof_chunk) : list aof_chunk :=
  match chunks with
  | [] => []
  | [k] => [mk_chunk (ck_data k) (ck_offset k) assigned true]
  | k :: chunks => k :: mark_last assigned chunks
  end.

(** The region of [enqueue_bytes] under the mutex. *)
Definition enqueue_locked (chunks : list aof_chunk) (a : aof) : Z * aof :=
  let '(assigned, a) := assign_sequence a in
  (assigned, with_shared (fold_left (fun sh k => queue_chunk_locked k sh) (mark_last assigned chunks) (a_shared a)) a).

(** ** Syncing *)

(** The duration of the sync in microseconds; [None]: the clock failed. *)
Definition elapsed_us (start : Z * Z) (finish : option (Z * Z)) : Z :=
  match finish with
  | None => 0
  | Some (fs, fn) =>
      let seconds := fs - start.1 in
      let nanoseconds := fn - start.2 in
      let '(seconds, nanoseconds) :=
        if nanoseconds <? 0 then (seconds - 1, nanoseconds + 1000000000) else (seconds, nanoseconds) in
      if seconds >=? 0 then wrap64 (seconds * 1000000 + nanoseconds / 1000) else 0
  end.

(** The first region of [sync_written], once it holds [sync_mutex]: whether
    the target is synced already; [None]: the other thread is syncing. *)
Definition sync_enter (target : Z) (a : aof) : option (bool * aof) :=
  if a_sync_mutex a then None else
  if target <=? sq_synced (a_seqs a) then Some (true, a) else Some (false, with_sync_mutex true a).

(** [fdatasync] *)
Definition sync_device (a : aof) : aof :=
  with_disk (mk_disk (d_file (a_disk a)) (zlen (d_file (a_disk a)))) a.

(** The last region of [sync_written]: the new number and the statistics. *)
Definition sync_leave (target elapsed : Z) (a : aof) : aof :=
  let s := a_seqs a in
  let sh := a_shared a in
  with_sync_mutex false
    (with_seqs (mk_seqs (sq_next s) (sq_written s) (if target >? sq_synced s then target else sq_synced s))
       (with_shared (mk_shared (sh_queue sh) (sh_free sh) (sh_queue_bytes sh) (sh_written_bytes sh)
          (sh_backpressure_events sh) (sh_backpressured sh) (sh_error sh) (sh_stopping sh) (sh_pause_requested sh)
          (sh_paused sh) (wrap64 (sh_fsync_count sh + 1)) (wrap64 (sh_fsync_total sh + elapsed))
          (if elapsed >? sh_fsync_max sh then elapsed else sh_fsync_max sh)) a)).

(** ** The writer *)

(** The loop of [consume_written]: the chunks that stay, the bytes taken off
    the queue, the chunks released and the last number completed.  [None]: the
    queue ends before [amount] does. *)
Fixpoint consume_loop (queue : list aof_chunk) (amount consumed_bytes released completed : Z)
  : option (list aof_chunk * Z * Z * Z) :=
  if amount >? 0 then
    match queue with
    | [] => None
    | k :: queue =>
        let available := zlen (ck_data k) - ck_offset k in
        let consumed := if amount <? available then amount else available in
        let k := mk_chunk (ck_data k) (ck_offset k + consumed) (ck_sequence k) (ck_end k) in
        if ck_offset k =? zlen (ck_data k)
        then consume_loop queue (amount - consumed) (consumed_bytes + consumed) (released + 1)
               (if ck_end k then ck_sequence k else completed)
        else Some (k :: queue, consumed_bytes + consumed, released, completed)
    end
  else Some (queue, consumed_bytes, released, completed).

Definition consume_written (amount : Z) (sh : aof_shared) : option (Z * aof_shared) :=
  match consume_loop (sh_queue sh) amount 0 0 0 with
  | None => None
  | Some (queue, consumed, released, completed) =>
      let bytes := wrap64 (sh_queue_bytes sh - consumed) in
      Some (completed,
        mk_shared queue (sh_free sh + released) bytes (sh_written_bytes sh) (sh_backpressure_events sh)
          (if bytes <=? AOF_QUEUE_LOW_WATER then false else sh_backpressured sh) (sh_error sh) (sh_stopping sh)
          (sh_pause_requested sh) (sh_paused sh) (sh_fsync_count sh) (sh_fsync_total sh) (sh_fsync_max sh))
  end.

(** Why the writer syncs, which says where it goes on. *)
Inductive sync_reason : Type := SyncCompleted (sequence : Z) | SyncTimeout | SyncDeadline | SyncFinal.

(** Where the writer is in [writer_main]. *)
Inductive writer_pc : Type :=
| WTop
| WWrite (data : list Z)
| WConsume (result : Z)
| WSyncEnter (why : sync_reason) (target : Z)
| WSyncDevice (why : sync_reason) (target : Z)
| WSyncLeave (why : sync_reason) (target elapsed : Z)
| WPublish (completed : Z)
| WDeadline
| WFail (error_number : Z) (next : writer_pc)
| WFinal
| WStopped.

(** What the system answers: nothing, a timeout of the wait, the result of
    [writev], the result of [fdatasync] with the clock before and after it, and
    whether the deadline is reached. *)
Inductive writer_event : Type :=
| WRun | WTimeout | WWritten (n : Z) | WInterrupted | WWriteError (e : Z)
| WSynced (start : Z * Z) (finish : option (Z * Z)) | WSyncError (e : Z) | WReached.

Definition after_sync (why : sync_reason) : writer_pc :=
  match why with
  | SyncCompleted c => WPublish c
  | SyncTimeout => WTop
  | SyncDeadline => WTop
  | SyncFinal => WStopped
  end.

(** The bytes of the vectors. *)
Definition gather (queue : list aof_chunk) : list Z := concat (ck_rest <$> take AOF_WRITEV_MAX queue).

Definition with_written (s : Z) (q : aof_sequences) : aof_sequences := mk_seqs (sq_next q) s (sq_synced q).

Definition add_written_bytes (n : Z) (sh : aof_shared) : aof_shared :=
  mk_shared (sh_queue sh) (sh_free sh) (sh_queue_bytes sh) (wrap64 (sh_written_bytes sh + n))
    (sh_backpressure_events sh) (sh_backpressured sh) (sh_error sh) (sh_stopping sh) (sh_pause_requested sh)
    (sh_paused sh) (sh_fsync_count sh) (sh_fsync_total sh) (sh_fsync_max sh).

(** The region at the top of the loop. *)
Definition writer_top (ev : writer_event) (a : aof) : writer_pc * aof :=
  let sh := a_shared a in
  if sh_pause_requested sh && negb (sh_stopping sh)
  then (WTop, with_shared (with_flags (sh_stopping sh) true true sh) a)
  else
    let a := with_shared (with_flags (sh_stopping sh) (sh_pause_requested sh) false sh) a in
    match sh_queue sh with
    | [] =>
        if sh_stopping sh then (WFinal, a) else
        match ev, a_policy a with
        | WTimeout, AOF_FSYNC_EVERYSEC => (WSyncEnter SyncTimeout (sq_written (a_seqs a)), a)
        | _, _ => (WTop, a)
        end
    | _ => (WWrite (gather (sh_queue sh)), a)
    end.

(** The region after the write. *)
Definition writer_consume (result : Z) (a : aof) : option (writer_pc * aof) :=
  match consume_written result (add_written_bytes result (a_shared a)) with
  | None => None
  | Some (completed, sh) =>
      let a := with_shared sh a in
      let publish := negb (completed =? 0) && negb (bool_decide (a_policy a = AOF_FSYNC_ALWAYS)) &&
                     (completed >? sq_written (a_seqs a)) in
      let a := if publish then with_seqs (with_written completed (a_seqs a)) a else a in
      Some (if negb (completed =? 0) && bool_decide (a_policy a = AOF_FSYNC_ALWAYS)
            then WSyncEnter (SyncCompleted completed) completed else WDeadline, a)
  end.

(** One step of the writer; [None]: it waits, or the event does not apply. *)
Definition writer_step (ev : writer_event) (pc : writer_pc) (a : aof) : option (writer_pc * aof) :=
  match pc with
  | WTop => Some (writer_top ev a)
  | WWrite data =>
      match ev with
      | WWritten n =>
          if (0 <? n) && (n <=? zlen data) then
            let d := a_disk a in
            Some (WConsume n, with_disk (mk_disk (d_file d ++ take (Z.to_nat n) data) (d_durable d)) a)
          else if n =? 0 then Some (WFail EIO WFinal, a) else None
      | WInterrupted => Some (WWrite data, a)
      | WWriteError e => Some (WFail e WFinal, a)
      | _ => None
      end
  | WConsume result => writer_consume result a
  | WSyncEnter why target =>
      match sync_enter target a with
      | None => None
      | Some (done, a) => Some (if done then after_sync why else WSyncDevice why target, a)
      end
  | WSyncDevice why target =>
      match ev with
      | WSynced start finish => Some (WSyncLeave why target (elapsed_us start finish), sync_device a)
      | WSyncError e => Some (WFail e WStopped, with_sync_mutex false a)
      | _ => None
      end
  | WSyncLeave why target elapsed => Some (after_sync why, sync_leave target elapsed a)
  | WPublish completed =>
      Some (WDeadline, if completed >? sq_written (a_seqs a)
                       then with_seqs (with_written completed (a_seqs a)) a else a)
  | WDeadline =>
      match ev, a_policy a with
      | WReached, AOF_FSYNC_EVERYSEC => Some (WSyncEnter SyncDeadline (sq_written (a_seqs a)), a)
      | _, _ => Some (WTop, a)
      end
  | WFail e next => Some (next, with_shared (publish_error e (a_shared a)) a)
  | WFinal =>
      Some (if bool_decide (a_policy a = AOF_FSYNC_EVERYSEC) then WSyncEnter SyncFinal (sq_written (a_seqs a))
            else WStopped, a)
  | WStopped => None
  end.

(** ** The producer *)

(** What follows a commit, a wait or a flush. *)
Inductive commit_use : Type := ForCommand | ForCheckpoint (token : list Z).

Inductive wait_use : Type := ForFlush | ForClose | ForToken (token : list Z).

(** Where the producer is: idle between calls or inside one. *)
Inductive producer_pc : Type :=
| PIdle
| PCommit (use : commit_use) (position assigned : Z)
| PQueue (token : list Z) (sequence : Z)
| PFill (use : wait_use)
| PEnqueue (use : wait_use) (chunks : list aof_chunk)
| PWait (use : wait_use) (sequence : Z)
| PSyncEnter (token : list Z) (sequence : Z)
| PSyncDevice (token : list Z) (sequence : Z)
| PSyncLeave (token : list Z) (sequence elapsed : Z)
| PStat (token : list Z)
| PPause
| PJoin (result : Z)
| PClosed.

(** The call the producer makes next, or the answers of the system to the one
    it is in: the allocations, the result of [fdatasync], of [fstat]. *)
Inductive producer_event : Type :=
| CallAppend (m : mem) (arguments : list slice)
| CallBegin | CallCommit | CallRollback | CallFlush
| CallCheckpoint (m : mem) (io : list random_outcome)
| CallPause | CallResume | CallClose
| PRun (m : mem) | PSynced (start : Z * Z) (finish : option (Z * Z)) | PSyncError (e : Z) | PStatError.

(** What a call returned: its status, with the sequence number of a commit
    and the checkpoint that was created. *)
Inductive call_result : Type :=
| Pending | Returned (r : Z) | Committed (sequence : Z) | Checkpointed (cp : rdb_checkpoint).

(** [aof_transaction_commit] up to its loop. *)
Definition commit_enter (use : commit_use) (a : aof) : producer_pc * aof * call_result :=
  if negb (pr_active (a_producer a)) then (PIdle, a, Returned (-1)) else
  let '(assigned, a) := if zlen (pr_transaction (a_producer a)) >? 0 then assign_sequence a else (0, a) in
  (PCommit use 0 assigned, a, Pending).

(** An iteration of the loop, or the end of the commit. *)
Definition commit_step (m : mem) (use : commit_use) (position assigned : Z) (a : aof)
  : producer_pc * aof * call_result :=
  if position <? zlen (pr_transaction (a_producer a)) then
    match pr_chunk (a_producer a) with
    | None =>
        let '(ok, a, _) := commit_acquire m a in
        if ok then (PCommit use position assigned, a, Pending) else (PIdle, a, Returned (-1))
    | Some k =>
        let '(position, a) := commit_copy position assigned k a in (PCommit use position assigned, a, Pending)
    end
  else
    let a := aof_transaction_rollback a in
    match use with
    | ForCommand => (PIdle, a, Committed assigned)
    | ForCheckpoint token => (PQueue token assigned, a, Pending)
    end.

(** The end of a flush. *)
Definition flushed (use : wait_use) (r : Z) (a : aof) : producer_pc * aof * call_result :=
  match use with
  | ForClose => (PJoin r, with_shared (with_flags true (sh_pause_requested (a_shared a)) (sh_paused (a_shared a)) (a_shared a)) a, Pending)
  | _ => (PIdle, a, Returned r)
  end.

(** [aof_flush] up to [enqueue_bytes]. *)
Definition flush_enter (use : wait_use) (a : aof) : producer_pc * aof * call_result :=
  if pr_active (a_producer a) then flushed use (-1) a else
  let a := queue_producer_chunk a in
  if zlen (pr_pending (a_producer a)) =? 0 then flushed use 0 a else (PFill use, a, Pending).

(** [aof_create_checkpoint] up to the commit of the marker. *)
Definition checkpoint_enter (m : mem) (io : list random_outcome) (a : aof) : producer_pc * aof * call_result :=
  match fill_random_token io RDB_CHECKPOINT_TOKEN_SIZE with
  | None => (PIdle, a, Returned (-1))
  | Some token =>
      let '(r, a) := aof_transaction_begin a in
      if negb (r =? 0) then (PIdle, aof_transaction_rollback a, Returned (-1)) else
      let '(r, a, _) := aof_append m a (checkpoint_arguments token) in
      if negb (r =? 0) then (PIdle, aof_transaction_rollback a, Returned (-1))
      else commit_enter (ForCheckpoint token) a
  end.

(** [aof_pause_for_fork] up to its wait. *)
Definition pause_enter (a : aof) : producer_pc * aof * call_result :=
  let sh := a_shared a in
  if sh_pause_requested sh || sh_stopping sh || negb (sh_error sh =? 0) then (PIdle, a, Returned (-1))
  else (PPause, with_shared (with_flags (sh_stopping sh) true (sh_paused sh) sh) a, Pending).

Definition aof_resume_after_fork (a : aof) : aof :=
  with_shared (with_flags (sh_stopping (a_shared a)) false (sh_paused (a_shared a)) (a_shared a)) a.

(** The wait of [aof_pause_for_fork]. *)
Definition pause_wait (a : aof) : option (producer_pc * aof * call_result) :=
  let sh := a_shared a in
  if negb (sh_paused sh) && (sh_error sh =? 0) then None else
  if negb (sh_error sh =? 0) then Some (PIdle, aof_resume_after_fork a, Returned (-1))
  else Some (PIdle, a, Returned 0).

(** [aof_close] up to the end of its flush. *)
Definition close_enter (a : aof) : producer_pc * aof * call_result :=
  flush_enter ForClose (if pr_active (a_producer a) then aof_transaction_rollback a else a).

(** The wait of a flush, a close or a checkpoint for the writer. *)
Definition wait_step (use : wait_use) (sequence : Z) (a : aof) : option (producer_pc * aof * call_result) :=
  let error_number := sh_error (a_shared a) in
  if (sq_written (a_seqs a) <? sequence) && (error_number =? 0) then None else
  match use with
  | ForToken token =>
      if error_number =? 0 then Some (PSyncEnter token sequence, a, Pending) else Some (PIdle, a, Returned (-1))
  | _ => Some (flushed use (if error_number =? 0 then 0 else -1) a)
  end.

(** The calls. *)
Definition producer_call (ev : producer_event) (a : aof) : option (producer_pc * aof * call_result) :=
  match ev with
  | CallAppend m arguments => let '(r, a, _) := aof_append m a arguments in Some (PIdle, a, Returned r)
  | CallBegin => let '(r, a) := aof_transaction_begin a in Some (PIdle, a, Returned r)
  | CallCommit => Some (commit_enter ForCommand a)
  | CallRollback => Some (PIdle, aof_transaction_rollback a, Returned 0)
  | CallFlush => Some (flush_enter ForFlush a)
  | CallCheckpoint m io => Some (checkpoint_enter m io a)
  | CallPause => Some (pause_enter a)
  | CallResume => Some (PIdle, aof_resume_after_fork a, Returned 0)
  | CallClose => Some (close_enter a)
  | _ => None
  end.

(** One step of the producer; [joined]: the writer has ended; [None]: it
    waits, or the event does not apply. *)
Definition producer_step (joined : bool) (ev : producer_event) (pc : producer_pc) (a : aof)
  : option (producer_pc * aof * call_result) :=
  match pc, ev with
  | PIdle, _ => producer_call ev a
  | PCommit use position assigned, PRun m => Some (commit_step m use position assigned a)
  | PQueue token sequence, PRun _ => Some (PWait (ForToken token) sequence, queue_producer_chunk a, Pending)
  | PFill use, PRun m =>
      let data := pr_pending (a_producer a) in
      let '(chunks, sh, _) := fill_chunks (length data) m data (a_shared a) in
      match chunks with
      | None => Some (flushed use (-1) (with_shared sh a))
      | Some chunks => Some (PEnqueue use chunks, with_shared sh a, Pending)
      end
  | PEnqueue use chunks, PRun _ =>
      let '(assigned, a) := enqueue_locked chunks a in
      Some (PWait use assigned,
            with_producer (with_pending [] (pr_pending_capacity (a_producer a)) (a_producer a)) a, Pending)
  | PWait use sequence, PRun _ => wait_step use sequence a
  | PSyncEnter token sequence, PRun _ =>
      match sync_enter sequence a with
      | None => None
      | Some (done, a) => Some (if done then PStat token else PSyncDevice token sequence, a, Pending)
      end
  | PSyncDevice token sequence, PSynced start finish =>
      Some (PSyncLeave token sequence (elapsed_us start finish), sync_device a, Pending)
  | PSyncDevice token sequence, PSyncError _ => Some (PIdle, with_sync_mutex false a, Returned (-1))
  | PSyncLeave token sequence elapsed, PRun _ => Some (PStat token, sync_leave sequence elapsed a, Pending)
  | PStat token, PRun _ => Some (PIdle, a, Checkpointed (mk_checkpoint (zlen (d_file (a_disk a))) token true))
  | PStat token, PStatError => Some (PIdle, a, Returned (-1))
  | PPause, PRun _ => pause_wait a
  | PJoin r, PRun _ =>
      if joined then Some (PClosed, a, Returned (if negb (aof_last_error a =? 0) && (r =? 0) then -1 else r)) else None
  | _, _ => None
  end.

(** ** Reports *)

Record aof_info : Type := mk_info {
  in_queue_bytes : Z; in_enqueued : Z; in_written : Z; in_synced : Z; in_written_bytes : Z;
  in_backpressure_events : Z; in_fsync_count : Z; in_fsync_total : Z; in_fsync_max : Z;
  in_backpressured : bool; in_failed : bool; in_last_error : Z
}.

Definition aof_get_info (a : aof) : aof_info :=
  let sh := a_shared a in
  mk_info (wrap64 (sh_queue_bytes sh + match pr_chunk (a_producer a) with None => 0 | Some k => zlen (ck_data k) end))
    (sq_next (a_seqs a)) (sq_written (a_seqs a)) (sq_synced (a_seqs a)) (sh_written_bytes sh)
    (sh_backpressure_events sh) (sh_fsync_count sh) (sh_fsync_total sh) (sh_fsync_max sh)
    (sh_backpressured sh) (negb (sh_error sh =? 0)) (sh_error sh).
