(* ===== verification/AofCodec.v ===== *)
(** The records of the append-only log: what the encoder of
    [src/persistence/aof.c] writes is the request frame of the protocol, replay
    reads a log back and repairs a torn tail, and a checkpoint is recognised in
    the log it was created in. *)

From S2P Require Import Prelude Resp Rdb RdbImage Aof.

(** A command that fits one record. *)
Definition command_ok (args : list (list Z)) : Prop :=
  1 <= zlen args <= RESP_MAX_ARGUMENTS /\ zlen (request_frame args) <= AOF_MAX_RECORD_SIZE.

(** The log of a list of commands. *)
Definition log_bytes (cmds : list (list (list Z))) : list Z := concat (request_frame <$> cmds).

Lemma log_bytes_app l k : log_bytes (l ++ k) = log_bytes l ++ log_bytes k.
Proof. unfold log_bytes. by rewrite fmap_app, concat_app. Qed.

Lemma log_bytes_cons c l : log_bytes (c :: l) = request_frame c ++ log_bytes l.
Proof. done. Qed.

Lemma frame_positive args : 0 < zlen (request_frame args).
Proof.
  unfold request_frame. rewrite zlen_cons.
  pose proof (zlen_nonneg (decimal (zlen args) ++ [CR; LF] ++ concat (map bulk_frame args))). lia.
Qed.

(** ** Encoding *)

Lemma decimal_length_loop_digits fuel v n :
  0 <= v < 10 ^ Z.of_nat fuel -> (0 < fuel)%nat ->
  decimal_length_loop fuel v n = n - 1 + zlen (digits_rev fuel v).
Proof.
  revert v n. induction fuel as [|fuel IH]; intros v n Hv Hf; [lia|].
  cbn [decimal_length_loop digits_rev]. rewrite zlen_cons. pose proof (Z.div_mod v 10 ltac:(lia)).
  pose proof (Z.mod_pos_bound v 10 ltac:(lia)). rewrite Z.geb_leb.
  destruct (Z.leb_spec 10 v), (Z.eqb_spec (v / 10) 0); try lia; [|rewrite zlen_nil; lia].
  rewrite Nat2Z.inj_succ, Z.pow_succ_r in Hv by lia.
  assert (v / 10 < 10 ^ Z.of_nat fuel) by (apply Z.div_lt_upper_bound; lia).
  rewrite IH; [lia|lia|]. destruct fuel; [|lia]. cbn in *. lia.
Qed.

Lemma decimal_length_spec v : 0 <= v <= UINT64_MAX -> decimal_length v = zlen (decimal v).
Proof.
  intros Hv. unfold decimal_length. rewrite decimal_length_loop_digits by (unfold UINT64_MAX in Hv; cbn; lia).
  unfold decimal, zlen. rewrite length_rev. lia.
Qed.

Lemma checked_add_some total amount t : checked_add total amount = Some t <-> amount <= SIZE_MAX - total /\ t = total + amount.
Proof. unfold checked_add. destruct (Z.gtb_spec amount (SIZE_MAX - total)); naive_solver lia. Qed.

Lemma encoded_size_loop_some arguments total n :
  0 <= total -> encoded_size_loop arguments total = Some n ->
  exists args, arguments = Some <$> args /\ n = total + zlen (concat (map bulk_frame args)) /\
    Forall (fun a => zlen a <= SIZE_MAX) args.
Proof.
  revert total. induction arguments as [|[data|] arguments IH]; intros total Ht H; cbn [encoded_size_loop] in H; [| |done].
  { injection H as <-. exists []. split; [done|]. cbn. rewrite zlen_nil. split; [lia|constructor]. }
  apply bind_Some in H as (t1 & [H1 ->]%checked_add_some & H). apply bind_Some in H as (t2 & [H2 ->]%checked_add_some & H).
  apply bind_Some in H as (t3 & [H3 ->]%checked_add_some & H). pose proof (zlen_nonneg data).
  assert (Hd : 0 <= decimal_length (zlen data)).
  { unfold decimal_length. clear. assert (forall f v n, 0 <= n -> 0 <= decimal_length_loop f v n) as Hg; [|apply Hg; lia].
    induction f as [|f IH]; intros v n Hn; cbn; [done|]. destruct (_ >=? _); [apply IH; lia|done]. }
  assert (zlen data <= SIZE_MAX) by lia.
  apply IH in H as (args & -> & -> & Hall); [|lia]. exists (data :: args). split; [done|]. split; [|by constructor].
  cbn [map concat]. rewrite zlen_app, zlen_bulk_frame, decimal_length_spec by (unfold UINT64_MAX, SIZE_MAX in *; lia). lia.
Qed.

Lemma encoded_size_loop_ok args total :
  0 <= total -> total + zlen (concat (map bulk_frame args)) <= SIZE_MAX ->
  encoded_size_loop (Some <$> args) total = Some (total + zlen (concat (map bulk_frame args))).
Proof.
  revert total. induction args as [|a args IH]; intros total Ht H; cbn [fmap list_fmap encoded_size_loop map concat] in *.
  { rewrite zlen_nil. f_equal. lia. }
  rewrite zlen_app, zlen_bulk_frame in *. pose proof (zlen_nonneg a).
  pose proof (zlen_nonneg (decimal (zlen a))). pose proof (zlen_nonneg (concat (map bulk_frame args))).
  rewrite decimal_length_spec by (unfold UINT64_MAX, SIZE_MAX in *; lia).
  assert (Hadd : forall x y, y <= SIZE_MAX - x -> checked_add x y = Some (x + y)) by (intros; by apply checked_add_some).
  do 3 (rewrite Hadd by lia; cbn [mbind option_bind]). rewrite IH by lia. f_equal. lia.
Qed.

Lemma encoded_size_some arguments n :
  encoded_size arguments = Some n -> exists args, arguments = Some <$> args /\ command_ok args /\ n = zlen (request_frame args).
Proof.
  unfold encoded_size. destruct (Z.eqb_spec (zlen arguments) 0); [done|].
  destruct (Z.gtb_spec (zlen arguments) RESP_MAX_ARGUMENTS); [done|]. cbn [orb].
  pose proof (zlen_nonneg arguments). unfold RESP_MAX_ARGUMENTS in *.
  rewrite decimal_length_spec by (unfold UINT64_MAX; lia). intros H'.
  apply bind_Some in H' as (t & Hl & Ht). destruct (Z.gtb_spec t AOF_MAX_RECORD_SIZE); [done|]. injection Ht as <-.
  apply encoded_size_loop_some in Hl as (args & -> & -> & _); [|pose proof (zlen_nonneg (decimal (zlen arguments))); lia].
  change (Some <$> args) with (map Some args) in *. rewrite zlen_map in *.
  exists args. split; [done|]. assert (Hz : zlen (request_frame args) = 1 + zlen (decimal (zlen args)) + 2 + zlen (concat (map bulk_frame args)))
    by (rewrite zlen_request_frame; lia).
  rewrite <- Hz in *. split; [|done]. split; [unfold RESP_MAX_ARGUMENTS; lia|done].
Qed.

Lemma encoded_size_ok args : command_ok args -> encoded_size (Some <$> args) = Some (zlen (request_frame args)).
Proof.
  intros [Hn Hs]. unfold encoded_size. change (Some <$> args) with (map Some args). rewrite zlen_map.
  unfold RESP_MAX_ARGUMENTS, AOF_MAX_RECORD_SIZE, RESP_MAX_FRAME_SIZE in *.
  destruct (Z.eqb_spec (zlen args) 0); [lia|]. destruct (Z.gtb_spec (zlen args) 128); [lia|]. cbn [orb].
  rewrite decimal_length_spec by (unfold UINT64_MAX; lia). rewrite zlen_request_frame in *.
  pose proof (zlen_nonneg (decimal (zlen args))).
  change (map Some args) with (Some <$> args). rewrite encoded_size_loop_ok by (unfold SIZE_MAX; lia).
  cbn [mbind option_bind]. destruct (Z.gtb_spec (1 + zlen (decimal (zlen args)) + 2 + zlen (concat (map bulk_frame args))) (64 * 1024 + 1024)); [lia|].
  f_equal. lia.
Qed.

Lemma encode_arguments_frames args : encode_arguments (Some <$> args) = concat (map bulk_frame args).
Proof.
  induction args as [|a args IH]; cbn [fmap list_fmap encode_arguments map concat default from_option id]; [done|].
  change (list_fmap _ _ Some args) with (Some <$> args). rewrite IH. unfold bulk_frame, encode_unsigned. app_eq.
Qed.

Lemma encode_record_frame cap args :
  zlen (request_frame args) <= cap -> encode_record cap (Some <$> args) (zlen (request_frame args)) = Some (request_frame args).
Proof.
  intros Hc. unfold encode_record. destruct (Z.ltb_spec cap (zlen (request_frame args))); [lia|].
  rewrite encode_arguments_frames. change (Some <$> args) with (map Some args). rewrite zlen_map.
  assert (encode_unsigned 42 (zlen args) ++ concat (map bulk_frame args) = request_frame args) as ->.
  { unfold encode_unsigned, request_frame. app_eq. }
  by rewrite Z.eqb_refl.
Qed.

Lemma double_capacity_some fuel next needed c : double_capacity fuel next needed = Some c -> needed <= c.
Proof.
  revert next. induction fuel as [|fuel IH]; intros next H; cbn in H; [done|].
  destruct (Z.ltb_spec next needed); [|by injection H as <-].
  destruct (_ >? _); [done|]. by apply IH in H.
Qed.

Lemma double_capacity_ok fuel next needed :
  0 < next -> needed <= 2 ^ 62 -> needed <= next * 2 ^ Z.of_nat fuel -> is_Some (double_capacity (S fuel) next needed).
Proof.
  revert next. induction fuel as [|fuel IH]; intros next Hn Hm Hf.
  - cbn in Hf |- *. destruct (Z.ltb_spec next needed); [lia|]. by eexists.
  - remember (S fuel) as f eqn:Ef. cbn [double_capacity]. subst f.
    destruct (Z.ltb_spec next needed); [|by eexists].
    destruct (Z.gtb_spec next (SIZE_MAX / 2)) as [Hg|_].
    { assert (SIZE_MAX / 2 = 2 ^ 63 - 1) as Hx by reflexivity. lia. }
    apply IH; [lia|done|]. rewrite Nat2Z.inj_succ, Z.pow_succ_r in Hf by lia. lia.
Qed.

Lemma reserve_bytes_some m cap needed c m' : reserve_bytes m cap needed = (Some c, m') -> needed <= c.
Proof.
  unfold reserve_bytes. destruct (Z.leb_spec needed cap); [intros [= <- <-]; done|].
  destruct (double_capacity _ _ _) as [next|] eqn:E; [|done]. destruct (malloc m) as [[] m1]; intros [= <- <-].
  by apply double_capacity_some in E.
Qed.

Lemma reserve_bytes_ok cap needed : 0 <= cap -> needed <= 2 ^ 62 -> exists c, reserve_bytes [] cap needed = (Some c, []).
Proof.
  intros Hc Hn. unfold reserve_bytes. destruct (Z.leb_spec needed cap); [by eexists|].
  set (start := if cap =? 0 then _ else _).
  assert (Hs : 0 < start) by (unfold start, AOF_CHUNK_CAPACITY; destruct (Z.eqb_spec cap 0); lia).
  destruct (double_capacity_ok 64 start needed) as [c ->]; [done|done| |by eexists].
  change (2 ^ Z.of_nat 64) with (2 ^ 64). lia.
Qed.

Lemma append_to_spec m bytes cap args :
  let '(r, cap', m') := append_to m bytes cap (Some <$> args) (zlen (request_frame args)) in
  (r = Some (bytes ++ request_frame args) \/ r = None) /\
  (m = [] -> 0 <= cap -> zlen bytes + zlen (request_frame args) <= 2 ^ 62 -> r = Some (bytes ++ request_frame args)).
Proof.
  unfold append_to. pose proof (frame_positive args). pose proof (zlen_nonneg bytes).
  destruct (Z.gtb_spec (zlen (request_frame args)) (SIZE_MAX - zlen bytes)) as [Hg|_].
  { split; [by right|]. intros. unfold SIZE_MAX in Hg. lia. }
  pose proof (reserve_bytes_ok cap (zlen bytes + zlen (request_frame args))) as Hk.
  destruct (reserve_bytes m cap _) as [[c|] m1] eqn:E.
  - apply reserve_bytes_some in E. rewrite encode_record_frame by lia. split; [by left|done].
  - split; [by right|]. intros -> Hc Hs. destruct Hk as [c Hk]; [done|lia|]. congruence.
Qed.

(** The fields an append does not touch. *)
Definition same_but_buffers (a a' : aof) : Prop :=
  a_disk a' = a_disk a /\ a_policy a' = a_policy a /\ a_shared a' = a_shared a /\ a_seqs a' = a_seqs a /\
  a_sync_mutex a' = a_sync_mutex a /\ pr_chunk (a_producer a') = pr_chunk (a_producer a) /\
  pr_active (a_producer a') = pr_active (a_producer a).

(** What an append does to the two buffers. *)
Definition appended (a : aof) (bytes : list Z) (a' : aof) : Prop :=
  let p := a_producer a in
  let p' := a_producer a' in
  if pr_active p
  then pr_transaction p' = pr_transaction p ++ bytes /\ pr_pending p' = pr_pending p
  else pr_transaction p' = pr_transaction p /\ pr_pending p' = pr_pending p ++ bytes.

Lemma append_spec m a arguments :
  let '(r, a', m') := aof_append m a arguments in
  same_but_buffers a a' /\
  (r = 0 /\ (exists args, arguments = Some <$> args /\ command_ok args /\ appended a (request_frame args) a') \/
   r = -1 /\ appended a [] a') /\
  (forall args, arguments = Some <$> args -> command_ok args -> m = [] -> aof_last_error a = 0 ->
     0 <= pr_transaction_capacity (a_producer a) -> 0 <= pr_pending_capacity (a_producer a) ->
     zlen (pr_transaction (a_producer a)) <= 2 ^ 61 -> zlen (pr_pending (a_producer a)) <= 2 ^ 61 -> r = 0).
Proof.
  assert (Hnil : forall b, appended b [] b) by (intros b; unfold appended; rewrite !app_nil_r; by destruct (pr_active _)).
  unfold aof_append. destruct (Z.eqb_spec (aof_last_error a) 0) as [He|He]; cbn [negb].
  2:{ split_and!; try done. right. split; [done|]. apply Hnil. }
  destruct (encoded_size arguments) as [n|] eqn:Es.
  2:{ split; [by split_and!|]. split; [right; split; [done|]; apply Hnil|].
      intros args -> Hok. by rewrite encoded_size_ok in Es. }
  apply encoded_size_some in Es as (args & -> & Hok & ->).
  assert (Hfr : zlen (request_frame args) <= 2 ^ 20).
  { destruct Hok as [_ Hs]. unfold AOF_MAX_RECORD_SIZE, RESP_MAX_FRAME_SIZE in Hs. lia. }
  destruct (pr_active (a_producer a)) eqn:Ha.
  - pose proof (append_to_spec m (pr_transaction (a_producer a)) (pr_transaction_capacity (a_producer a)) args) as H.
    destruct (append_to _ _ _ _ _) as [[r cap'] m']. destruct H as [[-> | ->] Hk].
    + split; [by split_and!|]. split; [|done]. left. split; [done|]. exists args. split; [done|].
      split; [done|]. unfold appended. by rewrite Ha.
    + split; [by split_and!|]. split; [right; split; [done|]; unfold appended; rewrite Ha, app_nil_r; done|].
      intros x _ _ -> _ Hc1 Hc2 Hs1 Hs2. assert (None = Some (pr_transaction (a_producer a) ++ request_frame args)); [apply Hk; [done|done|lia]|done].
  - pose proof (append_to_spec m (pr_pending (a_producer a)) (pr_pending_capacity (a_producer a)) args) as H.
    destruct (append_to _ _ _ _ _) as [[r cap'] m']. destruct H as [[-> | ->] Hk].
    + split; [split_and!; try done; by rewrite Ha|]. split; [|done]. left. split; [done|]. exists args. split; [done|].
      split; [done|]. unfold appended. by rewrite Ha.
    + split; [split_and!; try done; by rewrite Ha|]. split; [right; split; [done|]; unfold appended; rewrite Ha, app_nil_r; done|].
      intros x _ _ -> _ Hc1 Hc2 Hs1 Hs2. assert (None = Some (pr_pending (a_producer a) ++ request_frame args)); [apply Hk; [done|done|lia]|done].
Qed.

(** ** Replay *)

(** The tail that a crash leaves: a record without its end, or nothing. *)
Definition torn (tail : list Z) : Prop :=
  exists cmd rest, command_ok cmd /\ request_frame cmd = tail ++ rest /\ rest <> [].

Fixpoint run_commands {C} (callback : C -> list (list Z) -> Z * C) (context : C) (cmds : list (list (list Z)))
  : option C :=
  match cmds with
  | [] => Some context
  | c :: cmds => let '(r, context) := callback context c in if r =? 0 then run_commands callback context cmds else None
  end.

Lemma bulk_length args a : a ∈ args -> zlen a <= zlen (concat (map bulk_frame args)).
Proof.
  induction args as [|b args IH]; intros Ha; [by apply not_elem_of_nil in Ha|]. cbn [map concat].
  rewrite zlen_app, zlen_bulk_frame. pose proof (zlen_nonneg (decimal (zlen b))). pose proof (zlen_nonneg b).
  pose proof (zlen_nonneg (concat (map bulk_frame args))).
  apply elem_of_cons in Ha as [->|Ha]; [lia|]. specialize (IH Ha). lia.
Qed.

Lemma argument_length args a : a ∈ args -> zlen a <= zlen (request_frame args).
Proof.
  intros Ha%bulk_length. rewrite zlen_request_frame. pose proof (zlen_nonneg (decimal (zlen args))). lia.
Qed.

Lemma command_payload args : command_ok args -> Forall payload_ok args.
Proof.
  intros [_ Hs]. apply Forall_forall. intros a Ha. apply argument_length in Ha. unfold payload_ok.
  unfold AOF_MAX_RECORD_SIZE, RESP_MAX_FRAME_SIZE, SIZE_MAX in *. lia.
Qed.

Lemma parse_record args more :
  command_ok args ->
  exists slices,
    resp_parse_request_with_limit (Some (request_frame args ++ more)) false AOF_MAX_RECORD_SIZE
      = (RESP_PARSE_COMPLETE, slices, zlen (request_frame args)) /\
    map (slice_bytes (request_frame args ++ more)) slices = args.
Proof.
  intros Hok. apply parse_frame; [apply Hok| |apply Hok].
  eapply Forall_impl; [by apply command_payload|]. unfold payload_ok, SIZE_MAX, UINT64_MAX. cbn. lia.
Qed.

Lemma parse_torn tail : torn tail -> resp_parse_request_with_limit (Some tail) false AOF_MAX_RECORD_SIZE = (RESP_PARSE_INCOMPLETE, [], 0).
Proof.
  intros (cmd & rest & Hok & Heq & Hr). apply (prefix_incomplete cmd AOF_MAX_RECORD_SIZE tail rest); try done; try apply Hok.
  by apply command_payload.
Qed.

Lemma drop_at {A} (pre l : list A) : drop (Z.to_nat (zlen pre)) (pre ++ l) = l.
Proof. unfold zlen. rewrite Nat2Z.id. apply drop_app_length. Qed.

Lemma replay_loop_spec {C} (callback : C -> list (list Z) -> Z * C) fuel pre cmds tail context context' n :
  Forall command_ok cmds -> torn tail -> run_commands callback context cmds = Some context' ->
  (length cmds < fuel)%nat ->
  replay_loop fuel callback (pre ++ log_bytes cmds ++ tail) (zlen pre) context n
  = (Some (zlen pre + zlen (log_bytes cmds)), context', n + zlen cmds).
Proof.
  revert fuel pre context n. induction cmds as [|c cmds IH]; intros fuel pre context n Hok Ht Hrun Hf;
    (destruct fuel as [|fuel]; [cbn in Hf; lia|]); cbn [replay_loop run_commands] in *.
  - injection Hrun as <-. unfold log_bytes. cbn [fmap list_fmap concat app]. rewrite (zlen_nil (A := Z)), (zlen_nil (A := list (list Z))), !Z.add_0_r.
    destruct (zlen pre <? zlen (pre ++ tail)); [|done]. rewrite drop_at. by rewrite (parse_torn tail Ht).
  - apply Forall_cons in Hok as [Hc Hok]. rewrite log_bytes_cons, <- app_assoc.
    pose proof (frame_positive c). pose proof (zlen_nonneg (log_bytes cmds ++ tail)).
    destruct (Z.ltb_spec (zlen pre) (zlen (pre ++ request_frame c ++ log_bytes cmds ++ tail))) as [_|Hg].
    2:{ rewrite !(zlen_app pre), (zlen_app (request_frame c)) in Hg. lia. }
    rewrite drop_at. destruct (parse_record c (log_bytes cmds ++ tail) Hc) as (slices & -> & ->).
    destruct (callback context c) as [r ctx]. destruct (r =? 0); [|done]. cbn [negb].
    rewrite app_assoc, <- zlen_app, IH; [|done|done|done|cbn in Hf; lia].
    rewrite !zlen_app, zlen_cons. f_equal; [do 2 f_equal|]; lia.
Qed.

(** A callback that refuses a record ends the replay. *)
Lemma replay_loop_refused {C} (callback : C -> list (list Z) -> Z * C) fuel pre cmds tail context n :
  Forall command_ok cmds -> run_commands callback context cmds = None ->
  (replay_loop fuel callback (pre ++ log_bytes cmds ++ tail) (zlen pre) context n).1.1 = None.
Proof.
  revert fuel pre context n. induction cmds as [|c cmds IH]; intros fuel pre context n Hok Hrun; [done|].
  destruct fuel as [|fuel]; cbn [replay_loop run_commands] in *; [done|]. apply Forall_cons in Hok as [Hc Hok].
  rewrite log_bytes_cons, <- app_assoc. pose proof (frame_positive c). pose proof (zlen_nonneg (log_bytes cmds ++ tail)).
  destruct (Z.ltb_spec (zlen pre) (zlen (pre ++ request_frame c ++ log_bytes cmds ++ tail))) as [_|Hg].
  2:{ rewrite !(zlen_app pre), (zlen_app (request_frame c)) in Hg. lia. }
  rewrite drop_at. destruct (parse_record c (log_bytes cmds ++ tail) Hc) as (slices & -> & ->).
  destruct (callback context c) as [r ctx]. destruct (r =? 0); [|done]. cbn [negb].
  by rewrite app_assoc, <- zlen_app, IH.
Qed.

Lemma log_bytes_length cmds : zlen cmds <= zlen (log_bytes cmds).
Proof.
  induction cmds as [|c cmds IH]; [done|]. rewrite log_bytes_cons, zlen_app, zlen_cons. pose proof (frame_positive c). lia.
Qed.

(** The system calls of a replay succeed. *)
Definition replay_ok : replay_env := mk_replay_env true true true.

Lemma replay_spec {C} (callback : C -> list (list Z) -> Z * C) pre cmds tail context context' :
  Forall command_ok cmds -> torn tail -> run_commands callback context cmds = Some context' ->
  aof_replay_from replay_ok (pre ++ log_bytes cmds ++ tail) (zlen pre) callback context
  = (0, pre ++ log_bytes cmds, context', mk_replay_stats (zlen cmds) (bool_decide (tail <> []))).
Proof.
  intros Hok Ht Hrun. unfold aof_replay_from. cbn [re_fstat re_mmap re_truncate replay_ok negb].
  pose proof (zlen_nonneg pre). pose proof (zlen_nonneg tail). pose proof (log_bytes_length cmds). pose proof (zlen_nonneg cmds).
  rewrite !zlen_app. destruct (Z.gtb_spec (zlen pre) (zlen pre + (zlen (log_bytes cmds) + zlen tail))); [lia|].
  assert (Htail : zlen tail = 0 -> tail = []) by (destruct tail; [done|rewrite zlen_cons; pose proof (zlen_nonneg tail); lia]).
  destruct (_ || _) eqn:E.
  - assert (zlen (log_bytes cmds) = 0 /\ zlen tail = 0) as [Hl Htl] by (apply orb_true_iff in E as [E|E]; zb; lia).
    rewrite (Htail Htl). assert (cmds = []) as ->.
    { destruct cmds as [|c cmds]; [done|]. rewrite log_bytes_cons, zlen_app in Hl. pose proof (frame_positive c).
      pose proof (zlen_nonneg (log_bytes cmds)). lia. }
    injection Hrun as <-. by rewrite !app_nil_r.
  - rewrite (replay_loop_spec callback _ pre cmds tail context context'); [|done|done|done|].
    2:{ rewrite !length_app. unfold zlen in *. lia. }
    rewrite Z.add_0_l. destruct (Z.eqb_spec (zlen pre + zlen (log_bytes cmds)) (zlen pre + (zlen (log_bytes cmds) + zlen tail))); cbn [negb].
    + rewrite Htail by lia. by rewrite !app_nil_r.
    + rewrite app_assoc. rewrite <- zlen_app. unfold zlen at 1. rewrite Nat2Z.id, take_app_length.
      rewrite bool_decide_true; [done|]. intros ->. rewrite zlen_nil in *. lia.
Qed.

(** A replay whose callback refuses a record fails and leaves the file. *)
Lemma replay_refused {C} (callback : C -> list (list Z) -> Z * C) pre cmds tail context :
  Forall command_ok cmds -> run_commands callback context cmds = None ->
  exists context' stats, aof_replay_from replay_ok (pre ++ log_bytes cmds ++ tail) (zlen pre) callback context
    = (-1, pre ++ log_bytes cmds ++ tail, context', stats).
Proof.
  intros Hok Hrun. destruct cmds as [|c cmds]; [done|]. unfold aof_replay_from. cbn [re_fstat re_mmap replay_ok negb].
  pose proof (replay_loop_refused callback (S (length (pre ++ log_bytes (c :: cmds) ++ tail))) pre (c :: cmds) tail context 0 Hok Hrun) as Hn.
  assert (Hsize : zlen pre < zlen (pre ++ log_bytes (c :: cmds) ++ tail)).
  { rewrite log_bytes_cons, !zlen_app. pose proof (frame_positive c). pose proof (zlen_nonneg tail). pose proof (zlen_nonneg (log_bytes cmds)). lia. }
  pose proof (zlen_nonneg pre). destruct (Z.gtb_spec (zlen pre) (zlen (pre ++ log_bytes (c :: cmds) ++ tail))); [lia|].
  destruct (Z.eqb_spec (zlen (pre ++ log_bytes (c :: cmds) ++ tail)) 0); [lia|].
  destruct (Z.eqb_spec (zlen pre) (zlen (pre ++ log_bytes (c :: cmds) ++ tail))); [lia|]. cbn [orb].
  destruct (replay_loop _ _ _ _ _ _) as [[ended ctx] loaded]. cbn in Hn. subst ended. by eexists _, _.
Qed.
