(* ===== verification/AofLog.v ===== *)
(** The two threads of [src/persistence/aof.c] together: the transition system
    of the producer and the writer with the history of what was committed, and
    the invariant that relates the file, the queue, the producer's chunk and
    the three sequence numbers to that history. *)

From S2P Require Import Prelude Resp ZOrder Rdb RdbImage Aof AofCodec.

Abbreviation command := (list (list Z)).

(** What was asked of the log: the commands of the open transaction, the
    commands appended outside a transaction, the committed transactions with
    their numbers, whether a commit failed with a part of its bytes already
    handed over, and how many numbers were assigned. *)
Record history : Type := mk_history {
  h_txn : list command; h_pend : list command; h_log : list (Z * list command); h_torn : bool; h_count : Z
}.

Record system : Type := mk_system {
  s_aof : aof; s_producer : producer_pc; s_writer : writer_pc; s_history : history
}.

Definition marker (token : list Z) : command := [lit "PING"; checkpoint_token_text token].

Definition plain (arguments : list slice) : command := default [] <$> arguments.

Definition set_txn (l : list command) (h : history) : history := mk_history l (h_pend h) (h_log h) (h_torn h) (h_count h).

Definition set_pend (l : list command) (h : history) : history := mk_history (h_txn h) l (h_log h) (h_torn h) (h_count h).

Definition add_log (q : Z) (l : list command) (h : history) : history :=
  mk_history (h_txn h) (h_pend h) (h_log h ++ [(q, l)]) (h_torn h) (h_count h).

Definition add_count (h : history) : history :=
  mk_history (h_txn h) (h_pend h) (h_log h) (h_torn h) (h_count h + 1).

(** The history after a step of the producer from [pc] in the state [a] to
    [pc']. *)
Definition record_step (ev : producer_event) (pc : producer_pc) (a : aof) (pc' : producer_pc) (r : call_result)
    (h : history) : history :=
  match pc, ev, pc', r with
  | PIdle, CallAppend _ arguments, _, Returned 0 =>
      if pr_active (a_producer a) then set_txn (h_txn h ++ [plain arguments]) h
      else set_pend (h_pend h ++ [plain arguments]) h
  | PIdle, CallBegin, _, Returned 0 => set_txn [] h
  | PIdle, CallRollback, _, _ => set_txn [] h
  | PIdle, CallClose, _, _ => if pr_active (a_producer a) then set_txn [] h else h
  | PIdle, CallCommit, PCommit _ _ _, _ => if zlen (pr_transaction (a_producer a)) >? 0 then add_count h else h
  | PIdle, CallCheckpoint _ _, PCommit (ForCheckpoint token) _ _, _ => add_count (set_txn [marker token] h)
  | PIdle, CallCheckpoint _ io, _, _ =>
      if bool_decide (fill_random_token io RDB_CHECKPOINT_TOKEN_SIZE = None) then h else set_txn [] h
  | PCommit _ position assigned, _, PCommit _ position' _, _ =>
      if (position =? 0) && (0 <? position') then add_log assigned (h_txn h) h else h
  | PCommit _ position _, _, PIdle, Returned _ =>
      mk_history [] (h_pend h) (h_log h) (h_torn h || (0 <? position)) (h_count h)
  | PCommit _ _ _, _, _, _ => set_txn [] h
  | PEnqueue _ _, _, PWait _ assigned, _ => add_count (set_pend [] (add_log assigned (h_pend h) h))
  | _, _, _, _ => h
  end.

Definition joined (pc : writer_pc) : bool := match pc with WStopped => true | _ => false end.

Inductive step (s : system) : system -> Prop :=
| step_producer ev pc a r :
    producer_step (joined (s_writer s)) ev (s_producer s) (s_aof s) = Some (pc, a, r) ->
    step s (mk_system a pc (s_writer s) (record_step ev (s_producer s) (s_aof s) pc r (s_history s)))
| step_writer ev pc a :
    writer_step ev (s_writer s) (s_aof s) = Some (pc, a) ->
    step s (mk_system a (s_producer s) pc (s_history s)).

(** A log that was opened on a file of whole records. *)
Definition opened (policy : aof_fsync_policy) (cmds : list command) : system :=
  mk_system (aof_open (log_bytes cmds) policy) PIdle WTop (mk_history [] [] [(0, cmds)] false 0).

Inductive reach (policy : aof_fsync_policy) (cmds : list command) : system -> Prop :=
| reach_open : reach policy cmds (opened policy cmds)
| reach_step s s' : reach policy cmds s -> step s s' -> reach policy cmds s'.

(** ** The stream of committed bytes *)

(** The commands of the transactions up to the number [q]. *)
Definition upto (q : Z) (log : list (Z * list command)) : list command :=
  concat (List.filter (fun x => x.1 <=? q) log).*2.

Definition all_commands (log : list (Z * list command)) : list command := concat log.*2.

Definition stream (log : list (Z * list command)) : list Z := log_bytes (all_commands log).

(** Where the transactions up to [q] end in the stream. *)
Definition log_end (log : list (Z * list command)) (q : Z) : Z := zlen (log_bytes (upto q log)).

(** Strictly increasing numbers. *)
Definition numbered (log : list (Z * list command)) : Prop := StronglySorted Z.lt log.*1.

Lemma stream_snoc log q l : stream (log ++ [(q, l)]) = stream log ++ log_bytes l.
Proof.
  unfold stream, all_commands. rewrite fmap_app, concat_app, log_bytes_app. cbn. by rewrite app_nil_r.
Qed.

Lemma log_end_snoc_lt log q l n : n < q -> log_end (log ++ [(q, l)]) n = log_end log n.
Proof.
  intros Hn. unfold log_end, upto. rewrite List.filter_app. cbn [List.filter fst].
  destruct (Z.leb_spec q n); [lia|]. by rewrite app_nil_r.
Qed.

Lemma upto_all log n : Forall (fun x => x.1 <= n) log -> upto n log = all_commands log.
Proof.
  intros H. unfold upto, all_commands. f_equal. induction H as [|x log Hx _ IH]; [done|]. cbn [List.filter].
  destruct (Z.leb_spec x.1 n); [|lia]. cbn [fmap list_fmap]. by f_equal.
Qed.

Lemma log_end_all log n : Forall (fun x => x.1 <= n) log -> log_end log n = zlen (stream log).
Proof. intros H. unfold log_end, stream. by rewrite upto_all. Qed.

(** The transactions up to a number are the beginning of the log. *)
Lemma upto_prefix log n : numbered log -> exists rest, all_commands log = upto n log ++ rest /\ log_end log n + zlen (log_bytes rest) = zlen (stream log).
Proof.
  intros Hn. enough (exists rest, all_commands log = upto n log ++ rest) as [rest Hr].
  { exists rest. split; [done|]. unfold log_end, stream. by rewrite Hr, log_bytes_app, zlen_app. }
  unfold numbered in Hn. induction log as [|[q l] log IH]; [by exists []|]. cbn [fmap list_fmap fst] in Hn.
  apply StronglySorted_inv in Hn as [Hs Hq]. destruct (IH Hs) as [rest Hr]. unfold upto, all_commands in *.
  cbn [List.filter fst fmap list_fmap snd concat]. destruct (Z.leb_spec q n).
  - exists rest. cbn [fmap list_fmap snd concat]. by rewrite Hr, app_assoc.
  - exists (l ++ concat log.*2). assert (Hf : List.filter (fun x : Z * list command => x.1 <=? n) log = []).
    { clear -Hq H. induction log as [|x log IH]; [done|]. apply Forall_cons in Hq as [Hx Hq]. cbn [List.filter].
      destruct (Z.leb_spec x.1 n); [lia|]. by apply IH. }
    by rewrite Hf.
Qed.

Lemma log_end_mono log m n : numbered log -> m <= n -> log_end log m <= log_end log n.
Proof.
  intros Hn Hmn. unfold log_end, upto. clear Hn. induction log as [|[q l] log IH]; [done|]. cbn [List.filter fst].
  destruct (Z.leb_spec q m), (Z.leb_spec q n); try lia; cbn [fmap list_fmap snd concat]; rewrite ?log_bytes_app, ?zlen_app;
    [lia|pose proof (zlen_nonneg (log_bytes l)); lia].
Qed.

Lemma log_end_le log n : numbered log -> log_end log n <= zlen (stream log).
Proof. intros Hn. destruct (upto_prefix log n Hn) as (rest & _ & <-). pose proof (zlen_nonneg (log_bytes rest)). lia. Qed.

Lemma numbered_snoc log q l : numbered log -> Forall (fun x => x.1 < q) log -> numbered (log ++ [(q, l)]).
Proof.
  intros Hn Hq. unfold numbered. rewrite fmap_app. cbn. apply StronglySorted_app_iff.
  split; [done|]. split; [repeat constructor|]. intros x y Hx Hy. apply list_elem_of_singleton in Hy as ->.
  apply list_elem_of_fmap in Hx as (z & -> & Hz). by apply (proj1 (Forall_forall _ _) Hq).
Qed.

(** ** The invariant *)

(** Bytes the writer has written but not yet taken off the queue. *)
Definition inflight (pc : writer_pc) : Z := match pc with WConsume n => n | _ => 0 end.

Definition unwritten (l : list aof_chunk) : list Z := concat (ck_rest <$> l).

(** The producer's chunk comes after the queue. *)
Definition held (k : option aof_chunk) : list aof_chunk := match k with Some k => [k] | None => [] end.

(** What a commit has still to copy. *)
Definition uncopied (pc : producer_pc) (p : aof_producer) : list Z :=
  match pc with
  | PCommit _ position _ => if 0 <? position then drop (Z.to_nat position) (pr_transaction p) else []
  | _ => []
  end.

(** Every number that the threads have passed on is at most this one: a
    commit that has copied nothing has its number but no entry yet. *)
Definition bound (pc : producer_pc) (q : aof_sequences) : Z :=
  match pc with
  | PCommit _ 0 assigned => if assigned =? 0 then sq_next q else sq_next q - 1
  | _ => sq_next q
  end.

Definition ends_with (log : list (Z * list command)) (q : Z) (l : list command) : Prop := exists g, log = g ++ [(q, l)].

(** A chunk that waits to be written. *)
Definition queued (k : aof_chunk) : Prop := 0 <= ck_offset k < zlen (ck_data k) /\ zlen (ck_data k) <= AOF_CHUNK_CAPACITY.

Definition filled (k : aof_chunk) : Prop := queued k /\ ck_offset k = 0 /\ ck_end k = false.

(** The bytes: the file is [base] and what is in flight; [base], the queue, the
    producer's chunk and the rest of a commit are the committed stream. *)
Record bytes_inv (base : list Z) (a : aof) (pc : producer_pc) (wpc : writer_pc) (log : list (Z * list command)) : Prop := {
  bi_file : d_file (a_disk a) = base ++ take (Z.to_nat (inflight wpc)) (unwritten (sh_queue (a_shared a)));
  bi_stream : base ++ unwritten (sh_queue (a_shared a) ++ held (pr_chunk (a_producer a))) ++ uncopied pc (a_producer a) = stream log;
  bi_queued : Forall queued (sh_queue (a_shared a));
  bi_chunk : match pr_chunk (a_producer a) with
             | None => True
             | Some k => ck_offset k = 0 /\ zlen (ck_data k) < AOF_CHUNK_CAPACITY /\
                         (0 < zlen (ck_data k) \/ match pc with PCommit _ position _ => position < zlen (pr_transaction (a_producer a)) | _ => False end)
             end
}.

(** The writer between its regions. *)
Definition writer_inv (base : list Z) (a : aof) (b : Z) (log : list (Z * list command)) (wpc : writer_pc) : Prop :=
  match wpc with
  | WWrite data => data `prefix_of` unwritten (sh_queue (a_shared a)) /\ 0 < zlen data
  | WConsume n => 0 < n <= zlen (unwritten (sh_queue (a_shared a)))
  | WSyncEnter why t | WSyncDevice why t =>
      0 <= t <= b /\ log_end log t <= zlen base /\ match why with SyncCompleted c => c = t | _ => True end
  | WSyncLeave why t _ =>
      0 <= t <= b /\ log_end log t <= zlen base /\ log_end log t <= d_durable (a_disk a) /\
      match why with SyncCompleted c => c = t | _ => True end
  | WPublish c => 0 <= c <= b /\ log_end log c <= zlen base /\ log_end log c <= d_durable (a_disk a)
  | WFail _ next => next = WFinal \/ next = WStopped
  | _ => True
  end.

(** A flush waits for itself or for a close. *)
Definition direct (use : wait_use) : Prop := match use with ForToken _ => False | _ => True end.

(** The producer inside a call. *)
Definition producer_inv (a : aof) (h : history) (pc : producer_pc) : Prop :=
  match pc with
  | PCommit use position assigned =>
      0 <= position <= zlen (pr_transaction (a_producer a)) /\
      (assigned = if zlen (pr_transaction (a_producer a)) >? 0 then sq_next (a_seqs a) else 0) /\
      (0 < zlen (pr_transaction (a_producer a)) -> 0 < assigned) /\
      (0 < position -> ends_with (h_log h) assigned (h_txn h)) /\
      match use with ForCheckpoint token => h_txn h = [marker token] | ForCommand => True end
  | PQueue token q => ends_with (h_log h) q [marker token]
  | PFill use => direct use /\ pr_chunk (a_producer a) = None /\ pr_pending (a_producer a) <> []
  | PEnqueue use chunks =>
      direct use /\ pr_chunk (a_producer a) = None /\ concat (ck_data <$> chunks) = pr_pending (a_producer a) /\
      Forall filled chunks /\ chunks <> []
  | PWait (ForToken token) q => pr_chunk (a_producer a) = None /\ ends_with (h_log h) q [marker token]
  | PSyncEnter token q | PSyncDevice token q =>
      pr_chunk (a_producer a) = None /\ ends_with (h_log h) q [marker token] /\ q <= sq_written (a_seqs a)
  | PSyncLeave token q _ =>
      pr_chunk (a_producer a) = None /\ ends_with (h_log h) q [marker token] /\ q <= sq_written (a_seqs a) /\
      log_end (h_log h) q <= d_durable (a_disk a)
  | PStat token =>
      pr_chunk (a_producer a) = None /\ exists q, ends_with (h_log h) q [marker token] /\ q <= sq_written (a_seqs a)
  | _ => True
  end.

(** The numbers. *)
Record numbers_inv (base : list Z) (a : aof) (b : Z) (log : list (Z * list command)) : Prop := {
  ni_next : 0 <= b <= sq_next (a_seqs a);
  ni_log : numbered log;
  ni_bound : Forall (fun x => 0 <= x.1 <= b) log;
  ni_marks : forall l1 k l2, sh_queue (a_shared a) ++ held (pr_chunk (a_producer a)) = l1 ++ k :: l2 -> ck_end k = true ->
               0 < ck_sequence k <= b /\ log_end log (ck_sequence k) = zlen base + zlen (unwritten (l1 ++ [k]));
  ni_written : 0 <= sq_written (a_seqs a) <= b /\ log_end log (sq_written (a_seqs a)) <= zlen base;
  ni_synced : 0 <= sq_synced (a_seqs a) <= b /\ log_end log (sq_synced (a_seqs a)) <= d_durable (a_disk a);
  ni_durable : 0 <= d_durable (a_disk a) <= zlen (d_file (a_disk a));
  ni_always : a_policy a = AOF_FSYNC_ALWAYS -> log_end log (sq_written (a_seqs a)) <= d_durable (a_disk a)
}.

(** The buffers hold what was appended. *)
Record buffers_inv (a : aof) (h : history) : Prop := {
  bu_txn : pr_transaction (a_producer a) = log_bytes (h_txn h);
  bu_pend : pr_pending (a_producer a) = log_bytes (h_pend h);
  bu_txn_ok : Forall command_ok (h_txn h);
  bu_pend_ok : Forall command_ok (h_pend h);
  bu_log_ok : Forall command_ok (all_commands (h_log h))
}.

Record log_inv (base : list Z) (s : system) : Prop := {
  li_bytes : bytes_inv base (s_aof s) (s_producer s) (s_writer s) (h_log (s_history s));
  li_writer : writer_inv base (s_aof s) (bound (s_producer s) (a_seqs (s_aof s))) (h_log (s_history s)) (s_writer s);
  li_producer : producer_inv (s_aof s) (s_history s) (s_producer s);
  li_numbers : numbers_inv base (s_aof s) (bound (s_producer s) (a_seqs (s_aof s))) (h_log (s_history s));
  li_buffers : buffers_inv (s_aof s) (s_history s);
  li_count : sq_next (a_seqs (s_aof s)) = h_count (s_history s)
}.

(** ** Chunks *)

Lemma unwritten_app l k : unwritten (l ++ k) = unwritten l ++ unwritten k.
Proof. unfold unwritten. by rewrite fmap_app, concat_app. Qed.

Lemma unwritten_cons k l : unwritten (k :: l) = ck_rest k ++ unwritten l.
Proof. done. Qed.

Lemma unwritten_one k : unwritten [k] = ck_rest k.
Proof. unfold unwritten. cbn. apply app_nil_r. Qed.

Lemma zlen_rest k : queued k -> zlen (ck_rest k) = zlen (ck_data k) - ck_offset k.
Proof. intros [H _]. unfold ck_rest, zlen in *. rewrite length_drop. lia. Qed.

Lemma zlen_take_z {A} n (l : list A) : 0 <= n <= zlen l -> zlen (take (Z.to_nat n) l) = n.
Proof. unfold zlen. intros. rewrite length_take. lia. Qed.

Lemma zlen_drop_z {A} n (l : list A) : 0 <= n <= zlen l -> zlen (drop (Z.to_nat n) l) = zlen l - n.
Proof. unfold zlen. intros. rewrite length_drop. lia. Qed.

Lemma drop_app_ge_z {A} n (l k : list A) : zlen l <= n -> drop (Z.to_nat n) (l ++ k) = drop (Z.to_nat (n - zlen l)) k.
Proof. intros Hn. rewrite drop_app_ge by (unfold zlen in *; lia). f_equal. unfold zlen in *. lia. Qed.

(** A chunk of which [n] more bytes were written. *)
Definition advance (k : aof_chunk) (n : Z) : aof_chunk :=
  mk_chunk (ck_data k) (ck_offset k + n) (ck_sequence k) (ck_end k).

Lemma rest_advance k n : 0 <= ck_offset k -> 0 <= n -> ck_rest (advance k n) = drop (Z.to_nat n) (ck_rest k).
Proof. intros. unfold ck_rest, advance. cbn. rewrite drop_drop. f_equal. lia. Qed.

(** What [consume_written] leaves of a queue: the rest of its bytes, chunks
    whose ends lie where they were, and the last number completed. *)
Definition consumed_from (queue : list aof_chunk) (n : Z) (queue' : list aof_chunk) (completed0 completed : Z) : Prop :=
  unwritten queue' = drop (Z.to_nat n) (unwritten queue) /\ Forall queued queue' /\
  (forall tl l1 k l2, queue' ++ tl = l1 ++ k :: l2 ->
     exists l1' k', queue ++ tl = l1' ++ k' :: l2 /\ ck_end k' = ck_end k /\ ck_sequence k' = ck_sequence k /\
       zlen (unwritten (l1' ++ [k'])) = n + zlen (unwritten (l1 ++ [k]))) /\
  (completed = completed0 \/
   exists l1 k l2, queue = l1 ++ k :: l2 /\ ck_end k = true /\ ck_sequence k = completed /\
     zlen (unwritten (l1 ++ [k])) <= n).

Lemma consume_loop_spec queue n c r d :
  Forall queued queue -> 0 <= n <= zlen (unwritten queue) ->
  exists queue' r' d', consume_loop queue n c r d = Some (queue', c + n, r', d') /\ consumed_from queue n queue' d d'.
Proof.
  revert n c r d. induction queue as [|k queue IH]; intros n c r d Hq Hn; cbn [consume_loop].
  - assert (n = 0) as -> by (change (zlen (unwritten [])) with 0 in Hn; lia). rewrite Z.add_0_r.
    eexists _, _, _. split; [reflexivity|]. split_and!; [done|done| |by left]. intros tl l1 k l2 H. exists l1, k. by split_and!.
  - destruct (Z.gtb_spec n 0) as [Hpos|]; cycle 1.
    { assert (n = 0) as -> by lia. rewrite Z.add_0_r. eexists _, _, _. split; [reflexivity|].
      split_and!; [done|done| |by left]. intros tl l1 k' l2 Hs. exists l1, k'. by split_and!. }
    apply Forall_cons in Hq as [Hk Hq]. pose proof (zlen_rest k Hk) as Hr. pose proof Hk as [[Hk1 Hk2] Hk3].
    rewrite unwritten_cons, zlen_app in Hn. cbn [ck_offset ck_data ck_end ck_sequence].
    destruct (Z.ltb_spec n (zlen (ck_data k) - ck_offset k)).
    + destruct (Z.eqb_spec (ck_offset k + n) (zlen (ck_data k))); [lia|]. fold (advance k n).
      assert (Hadv : ck_rest (advance k n) = drop (Z.to_nat n) (ck_rest k)) by (apply rest_advance; lia).
      eexists _, _, _. split; [reflexivity|]. split_and!; [| | |by left].
      * rewrite !unwritten_cons, Hadv, drop_app_le by (unfold zlen in *; lia). done.
      * constructor; [|done]. split; [|done]. cbn. lia.
      * intros tl l1 k' l2 E. destruct l1 as [|x l1]; injection E as <- E.
        { exists [], k. cbn [app]. rewrite !unwritten_one, Hadv, zlen_drop_z by lia. subst l2. split_and!; [done|done|done|lia]. }
        exists (k :: l1), k'. cbn [app]. rewrite !unwritten_cons, !zlen_app, Hadv, zlen_drop_z by lia.
        rewrite E. split_and!; [done|done|done|lia].
    + destruct (Z.eqb_spec (ck_offset k + (zlen (ck_data k) - ck_offset k)) (zlen (ck_data k))); [|lia].
      destruct (IH (n - (zlen (ck_data k) - ck_offset k)) (c + (zlen (ck_data k) - ck_offset k)) (r + 1)
                  (if ck_end k then ck_sequence k else d) Hq ltac:(lia)) as (queue' & r' & d' & E & H1 & H2 & H3 & H4).
      exists queue', r', d'. split.
      { replace (c + n) with (c + (zlen (ck_data k) - ck_offset k) + (n - (zlen (ck_data k) - ck_offset k))) by lia. exact E. }
      split_and!; [|done| |].
      * rewrite H1, unwritten_cons, drop_app_ge_z, Hr by lia. done.
      * intros tl l1 k' l2 Hs. destruct (H3 tl l1 k' l2 Hs) as (l1' & k'' & E1 & E2 & E3 & E4). exists (k :: l1'), k''.
        cbn [app]. rewrite unwritten_cons, zlen_app, E1. split_and!; [done|done|done|lia].
      * destruct H4 as [->|(l1 & k' & l2 & -> & E2 & E3 & E4)].
        -- destruct (ck_end k) eqn:Ee; [|by left]. right. exists [], k, queue. cbn [app]. rewrite unwritten_one.
           split_and!; [done|done|done|lia].
        -- right. exists (k :: l1), k', l2. cbn [app]. rewrite unwritten_cons, zlen_app. split_and!; [done|done|done|lia].
Qed.

(** ** The writer keeps the invariant *)

Definition same_number (a a' : aof) : Prop := sq_next (a_seqs a') = sq_next (a_seqs a).

Lemma bound_same pc (a a' : aof) : same_number a a' -> bound pc (a_seqs a') = bound pc (a_seqs a).
Proof. unfold same_number, bound. intros ->. done. Qed.

(** The producer's part only depends on its own fields and on numbers that
    grow. *)
Lemma producer_inv_grow a a' h pc :
  producer_inv a h pc -> a_producer a' = a_producer a -> same_number a a' ->
  sq_written (a_seqs a) <= sq_written (a_seqs a') -> d_durable (a_disk a) <= d_durable (a_disk a') ->
  producer_inv a' h pc.
Proof.
  intros H Hp Hn Hw Hd. unfold producer_inv, same_number in *. rewrite Hp, Hn.
  destruct pc as [|u x y|t q|u|u l|[| |t] q|t q|t q|t q e|t| |r|]; try done.
  - destruct H as (H1 & H2 & H3). split_and!; [done|done|lia].
  - destruct H as (H1 & H2 & H3). split_and!; [done|done|lia].
  - destruct H as (H1 & H2 & H3 & H4). split_and!; [done|done|lia|lia].
  - destruct H as (H1 & q & H2 & H3). split; [done|]. exists q. split; [done|lia].
Qed.

(** A step that leaves the file, the queue and the producer alone. *)
Lemma inv_update base a ppc wpc h a' wpc' :
  log_inv base (mk_system a ppc wpc h) -> inflight wpc' = inflight wpc ->
  d_file (a_disk a') = d_file (a_disk a) -> a_policy a' = a_policy a ->
  sh_queue (a_shared a') = sh_queue (a_shared a) -> same_number a a' -> a_producer a' = a_producer a ->
  d_durable (a_disk a) <= d_durable (a_disk a') <= zlen (d_file (a_disk a)) ->
  sq_written (a_seqs a) <= sq_written (a_seqs a') <= bound ppc (a_seqs a) ->
  log_end (h_log h) (sq_written (a_seqs a')) <= zlen base ->
  0 <= sq_synced (a_seqs a') <= bound ppc (a_seqs a) ->
  log_end (h_log h) (sq_synced (a_seqs a')) <= d_durable (a_disk a') ->
  (a_policy a = AOF_FSYNC_ALWAYS -> log_end (h_log h) (sq_written (a_seqs a')) <= d_durable (a_disk a')) ->
  writer_inv base a' (bound ppc (a_seqs a)) (h_log h) wpc' ->
  log_inv base (mk_system a' ppc wpc' h).
Proof.
  intros [Hb Hw Hp Hn Hbu Hc] Hi Hf Hpol Hq Hnum Hpr Hd Hwr Hwe Hsy Hse Hal Hw'. cbn [s_aof s_producer s_writer s_history] in *.
  split; cbn [s_aof s_producer s_writer s_history].
  - destruct Hb as [B1 B2 B3 B4]. split; [|by rewrite Hq, Hpr|by rewrite Hq|by rewrite Hpr].
    by rewrite Hf, B1, Hi, Hq.
  - by rewrite (bound_same ppc a a').
  - apply (producer_inv_grow a); try done; lia.
  - rewrite (bound_same ppc a a') by done. destruct Hn as [N1 N2 N3 N4 N5 N6 N7 N8].
    split; [by rewrite Hnum|done|done| |split; [lia|done]|done|rewrite Hf; lia|by rewrite Hpol].
    rewrite Hq, Hpr. exact N4.
  - destruct Hbu as [U1 U2 U3 U4 U5]. split; try done; by rewrite Hpr.
  - by rewrite Hnum.
Qed.

(** The file is at least [base]. *)
Lemma base_le_file base a ppc wpc log : bytes_inv base a ppc wpc log -> zlen base <= zlen (d_file (a_disk a)).
Proof. intros [-> _ _ _]. rewrite zlen_app. pose proof (zlen_nonneg (take (Z.to_nat (inflight wpc)) (unwritten (sh_queue (a_shared a))))). lia. Qed.

Lemma gather_prefix queue : gather queue `prefix_of` unwritten queue.
Proof.
  unfold gather, unwritten. rewrite <- (take_drop AOF_WRITEV_MAX queue) at 2. rewrite fmap_app, concat_app. by eexists.
Qed.

Lemma gather_positive k queue : queued k -> 0 < zlen (gather (k :: queue)).
Proof.
  intros Hk. unfold gather, AOF_WRITEV_MAX. cbn [take fmap list_fmap concat]. rewrite zlen_app, zlen_rest by done.
  destruct Hk as [[? ?] _]. pose proof (zlen_nonneg (concat (ck_rest <$> take 15 queue))). lia.
Qed.

(** Nothing but the position of the writer and the flags changes. *)
Lemma inv_move base a ppc wpc h a' wpc' :
  log_inv base (mk_system a ppc wpc h) -> inflight wpc' = inflight wpc ->
  a_disk a' = a_disk a -> a_policy a' = a_policy a -> sh_queue (a_shared a') = sh_queue (a_shared a) ->
  a_seqs a' = a_seqs a -> a_producer a' = a_producer a ->
  writer_inv base a' (bound ppc (a_seqs a)) (h_log h) wpc' ->
  log_inv base (mk_system a' ppc wpc' h).
Proof.
  intros H Hi Hd Hpol Hq Hs Hp Hw. pose proof (li_numbers _ _ H) as Hn. cbn [s_aof s_producer s_history] in Hn.
  destruct Hn as [N1 N2 N3 N4 [N5 N5'] [N6 N6'] N7 N8].
  apply (inv_update base a ppc wpc h); try done; rewrite ?Hd, ?Hs; try done; try lia. unfold same_number. by rewrite Hs.
Qed.

Lemma top_preserves base a ppc h ev :
  log_inv base (mk_system a ppc WTop h) ->
  let '(pc, a') := writer_top ev a in log_inv base (mk_system a' ppc pc h).
Proof.
  intros H. pose proof (li_numbers _ _ H) as Hn. cbn [s_aof s_producer s_history] in Hn.
  destruct Hn as [N1 N2 N3 N4 [N5 N5'] [N6 N6'] N7 N8].
  unfold writer_top. destruct (_ && _).
  { by apply (inv_move base a ppc WTop h). }
  destruct (sh_queue (a_shared a)) as [|k q] eqn:Eq.
  - destruct (sh_stopping (a_shared a)); [by apply (inv_move base a ppc WTop h)|].
    assert (Hstay : log_inv base (mk_system (with_shared (with_flags false
                      (sh_pause_requested (a_shared a)) false (a_shared a)) a) ppc WTop h))
      by (by apply (inv_move base a ppc WTop h)).
    destruct ev; try exact Hstay. cbn [a_policy with_shared]. destruct (a_policy a); try exact Hstay.
    by apply (inv_move base a ppc WTop h).
  - apply (inv_move base a ppc WTop h); try done. cbn [writer_inv a_shared with_shared sh_queue with_flags]. rewrite Eq.
    split; [apply gather_prefix|]. apply gather_positive.
    destruct (li_bytes _ _ H) as [_ _ B3 _]. cbn [s_aof] in B3. rewrite Eq in B3. by apply Forall_cons in B3 as [? _].
Qed.

Lemma write_preserves base a ppc h data n :
  log_inv base (mk_system a ppc (WWrite data) h) -> 0 < n <= zlen data ->
  log_inv base (mk_system (with_disk (mk_disk (d_file (a_disk a) ++ take (Z.to_nat n) data) (d_durable (a_disk a))) a)
                  ppc (WConsume n) h).
Proof.
  intros [Hb Hw Hp Hn Hbu Hc] Hn0. cbn [s_aof s_producer s_writer s_history] in *. destruct Hw as [[rest Hr] _].
  split; cbn [s_aof s_producer s_writer s_history with_disk a_disk a_shared a_producer a_seqs].
  - destruct Hb as [B1 B2 B3 B4]. split; try done. cbn [d_file a_disk a_shared with_disk inflight]. rewrite B1. cbn [inflight].
    rewrite take_0, app_nil_r, Hr, take_app_le by (unfold zlen in *; lia). done.
  - cbn [writer_inv a_shared with_disk]. rewrite Hr, zlen_app. pose proof (zlen_nonneg rest). lia.
  - apply (producer_inv_grow a); try done.
  - destruct Hn as [N1 N2 N3 N4 N5 N6 N7 N8]. split; try done. cbn [d_file d_durable a_disk with_disk].
    rewrite zlen_app. pose proof (zlen_nonneg (take (Z.to_nat n) data)). lia.
  - by destruct Hbu as [U1 U2 U3 U4 U5].
  - done.
Qed.

(** The chunks after a write: numbers and ends seen from the new base. *)
Lemma consume_marks base a ppc h n queue' completed :
  log_inv base (mk_system a ppc (WConsume n) h) ->
  consumed_from (sh_queue (a_shared a)) n queue' 0 completed ->
  (forall l1 k l2, queue' ++ held (pr_chunk (a_producer a)) = l1 ++ k :: l2 -> ck_end k = true ->
     0 < ck_sequence k <= bound ppc (a_seqs a) /\
     log_end (h_log h) (ck_sequence k) = zlen (d_file (a_disk a)) + zlen (unwritten (l1 ++ [k]))) /\
  0 <= completed <= bound ppc (a_seqs a) /\ (completed <> 0 -> log_end (h_log h) completed <= zlen (d_file (a_disk a))).
Proof.
  intros [Hb Hw _ Hn _ _] (_ & _ & Hm & Hcomp). cbn [s_aof s_producer s_writer s_history] in *.
  destruct Hb as [B1 _ _ _]. cbn [inflight] in B1. cbn [writer_inv] in Hw.
  assert (Hf : zlen (d_file (a_disk a)) = zlen base + n) by (rewrite B1, zlen_app, zlen_take_z; lia).
  destruct Hn as [N1 N2 N3 N4 N5 N6 N7 N8]. split.
  - intros l1 k l2 E He. destruct (Hm _ _ _ _ E) as (l1' & k' & E1 & E2 & E3 & E4).
    destruct (N4 l1' k' l2 E1) as [M1 M2]; [congruence|]. rewrite E3 in *. split; [done|]. lia.
  - destruct Hcomp as [->|(l1 & k & l2 & E1 & E2 & E3 & E4)]; [split; [lia|done]|].
    destruct (N4 l1 k (l2 ++ held (pr_chunk (a_producer a)))) as [M1 M2]; [by rewrite E1, <- app_assoc|done|].
    rewrite E3 in *. split; [lia|]. lia.
Qed.

Lemma consume_preserves base a ppc h n :
  log_inv base (mk_system a ppc (WConsume n) h) ->
  exists pc a', writer_consume n a = Some (pc, a') /\ log_inv (d_file (a_disk a)) (mk_system a' ppc pc h).
Proof.
  intros H. pose proof H as [Hb Hw Hp Hn Hbu Hc]. cbn [s_aof s_producer s_writer s_history writer_inv] in *.
  pose proof Hb as [B1 B2 B3 B4]. cbn [inflight] in B1.
  destruct (consume_loop_spec (sh_queue (a_shared a)) n 0 0 0 B3 ltac:(lia)) as (queue' & r' & completed & E & Hcf).
  destruct (consume_marks _ _ _ _ _ _ _ H Hcf) as (Hmarks & Hcb & Hce). destruct Hcf as (F1 & F2 & _ & _).
  pose proof Hn as [N1 N2 N3 N4 [N5 N5'] [N6 N6'] N7 N8].
  assert (Hf : zlen (d_file (a_disk a)) = zlen base + n) by (rewrite B1, zlen_app, zlen_take_z; lia).
  unfold writer_consume, consume_written. cbn [sh_queue add_written_bytes]. rewrite E. cbn [a_policy with_shared a_seqs].
  set (sh' := mk_shared queue' _ _ _ _ _ _ _ _ _ _ _ _).
  assert (Hbase : forall w, w = sq_written (a_seqs a) \/ w = completed /\ completed <> 0 /\ sq_written (a_seqs a) < completed /\ a_policy a <> AOF_FSYNC_ALWAYS ->
            forall wpc, inflight wpc = 0 ->
            writer_inv (d_file (a_disk a)) (with_seqs (with_written w (a_seqs a)) (with_shared sh' a)) (bound ppc (a_seqs a)) (h_log h) wpc ->
            log_inv (d_file (a_disk a)) (mk_system (with_seqs (with_written w (a_seqs a)) (with_shared sh' a)) ppc wpc h)).
  { intros w Hwc wpc Hi Hw'. split; cbn [s_aof s_producer s_writer s_history a_seqs with_seqs with_shared].
    - split; cbn [a_disk a_shared a_producer with_seqs with_shared sh_queue sh']; [by rewrite Hi, take_0, app_nil_r| |done|done].
      rewrite <- B2. rewrite !unwritten_app, F1, !app_assoc. do 2 f_equal. rewrite B1 at 1.
      by rewrite <- app_assoc, take_drop.
    - exact Hw'.
    - apply (producer_inv_grow a); try done. cbn. destruct Hwc as [->|(-> & _ & ? & _)]; lia.
    - change (numbers_inv (d_file (a_disk a)) (with_seqs (with_written w (a_seqs a)) (with_shared sh' a)) (bound ppc (a_seqs a)) (h_log h)).
      split; cbn [a_disk a_shared a_producer a_seqs a_policy with_seqs with_shared with_written sq_next sq_written sq_synced sh_queue sh']; try done.
      + destruct Hwc as [->|(-> & Hc0 & ? & _)]; (split; [lia|]); [lia|by apply Hce].
      + intros Hal. destruct Hwc as [->|(_ & _ & _ & ?)]; [by apply N8|done].
    - by destruct Hbu as [U1 U2 U3 U4 U5].
    - done. }
  assert (Hkeep : with_shared sh' a = with_seqs (with_written (sq_written (a_seqs a)) (a_seqs a)) (with_shared sh' a)).
  { destruct a as [? ? ? [? ? ?] ? ?]. done. }
  eexists _, _. split; [reflexivity|]. destruct (Z.eqb_spec completed 0) as [->|Hne]; cbn [negb andb].
  { rewrite Hkeep. apply Hbase; [by left|done|done]. }
  destruct (decide (a_policy a = AOF_FSYNC_ALWAYS)) as [Hal|Hal].
  - rewrite bool_decide_true by done. cbn [negb andb]. rewrite Hkeep at 1. rewrite bool_decide_true by done.
    apply Hbase; [by left|done|]. split; [done|]. split; [by apply Hce|done].
  - rewrite bool_decide_false by done. cbn [negb andb]. destruct (Z.gtb_spec completed (sq_written (a_seqs a))).
    + cbn [a_policy with_seqs with_shared]. rewrite bool_decide_false by done. apply Hbase; [by right|done|done].
    + rewrite bool_decide_false by done. rewrite Hkeep. apply Hbase; [by left|done|done].
Qed.

Lemma sync_leave_preserves base a ppc wpc h target elapsed wpc' :
  log_inv base (mk_system a ppc wpc h) -> inflight wpc' = inflight wpc ->
  0 <= target <= bound ppc (a_seqs a) -> log_end (h_log h) target <= d_durable (a_disk a) ->
  writer_inv base (sync_leave target elapsed a) (bound ppc (a_seqs a)) (h_log h) wpc' ->
  log_inv base (mk_system (sync_leave target elapsed a) ppc wpc' h).
Proof.
  intros H Hi Ht Htd Hw. pose proof (li_numbers _ _ H) as Hn. cbn [s_aof s_producer s_history] in Hn.
  destruct Hn as [N1 N2 N3 N4 [N5 N5'] [N6 N6'] N7 N8].
  apply (inv_update base a ppc wpc h); try done; cbn; destruct (Z.gtb_spec target (sq_synced (a_seqs a))); try done; lia.
Qed.

Lemma after_sync_inflight why : inflight (after_sync why) = 0.
Proof. by destruct why. Qed.

(** After a sync of [t] the writer may publish it. *)
Lemma after_sync_inv base a b log why t :
  0 <= t <= b -> log_end log t <= zlen base -> log_end log t <= d_durable (a_disk a) ->
  match why with SyncCompleted c => c = t | _ => True end -> writer_inv base a b log (after_sync why).
Proof. intros H1 H2 H3 Hw. destruct why; cbn; [by subst|done..]. Qed.

Lemma writer_preserves base a ppc wpc h ev pc a' :
  log_inv base (mk_system a ppc wpc h) -> writer_step ev wpc a = Some (pc, a') ->
  exists base', log_inv base' (mk_system a' ppc pc h).
Proof.
  intros H E. pose proof (li_numbers _ _ H) as Hn. pose proof (li_writer _ _ H) as Hw. pose proof (base_le_file _ _ _ _ _ (li_bytes _ _ H)) as Hbf.
  cbn [s_aof s_producer s_writer s_history] in Hn, Hw, Hbf. pose proof Hn as [N1 N2 N3 N4 [N5 N5'] [N6 N6'] N7 N8].
  destruct wpc as [|data|n|why t|why t|why t e|c| |e next| |]; cbn [writer_step writer_inv] in E, Hw.
  - exists base. pose proof (top_preserves base a ppc h ev H) as Ht. injection E as E. by rewrite E in Ht.
  - destruct ev as [| |n| |e| | |]; try done.
    + destruct (Z.ltb_spec 0 n), (Z.leb_spec n (zlen data)); cbn [andb] in E.
      * injection E as <- <-. exists base. by apply write_preserves.
      * destruct (Z.eqb_spec n 0); [lia|done].
      * destruct (n =? 0); [|done]. injection E as <- <-. exists base. apply (inv_move base a ppc (WWrite data) h); try done. by left.
      * destruct (n =? 0); [|done]. injection E as <- <-. exists base. apply (inv_move base a ppc (WWrite data) h); try done. by left.
    + injection E as <- <-. by exists base.
    + injection E as <- <-. exists base. apply (inv_move base a ppc (WWrite data) h); try done. by left.
  - destruct (consume_preserves base a ppc h n H) as (pc1 & a1 & E1 & H1). rewrite E1 in E. injection E as <- <-. by eexists.
  - destruct Hw as (Hw1 & Hw2 & Hw3). unfold sync_enter in E. destruct (a_sync_mutex a); [done|].
    destruct (Z.leb_spec t (sq_synced (a_seqs a))); injection E as <- <-; exists base.
    + apply (inv_move base a ppc (WSyncEnter why t) h); try done; [apply after_sync_inflight|].
      apply (after_sync_inv _ _ _ _ _ t); try done. pose proof (log_end_mono (h_log h) t (sq_synced (a_seqs a)) N2). lia.
    + by apply (inv_move base a ppc (WSyncEnter why t) h).
  - destruct Hw as (Hw1 & Hw2 & Hw3). destruct ev; try done; injection E as <- <-; exists base.
    + apply (inv_update base a ppc (WSyncDevice why t) h); try done; cbn; try lia.
      split_and!; try done; lia.
    + apply (inv_move base a ppc (WSyncDevice why t) h); try done. by right.
  - destruct Hw as (Hw1 & Hw2 & Hw3 & Hw4). injection E as <- <-. exists base.
    apply (sync_leave_preserves base a ppc (WSyncLeave why t e) h); try done; [apply after_sync_inflight|].
    by apply (after_sync_inv _ _ _ _ _ t).
  - destruct Hw as (Hw1 & Hw2 & Hw3). injection E as <- <-. exists base. destruct (Z.gtb_spec c (sq_written (a_seqs a))).
    + apply (inv_update base a ppc (WPublish c) h); try done; cbn; lia.
    + by apply (inv_move base a ppc (WPublish c) h).
  - assert (Hstay : log_inv base (mk_system a ppc WTop h)) by (by apply (inv_move base a ppc WDeadline h)).
    destruct ev; try (injection E as <- <-; by exists base). destruct (a_policy a); injection E as <- <-; exists base; try exact Hstay.
    by apply (inv_move base a ppc WDeadline h).
  - injection E as <- <-. exists base. unfold publish_error. destruct (sh_error (a_shared a) =? 0), Hw as [-> | ->];
      by apply (inv_move base a ppc (WFail e _) h) || by eapply inv_move.
  - injection E as <- <-. exists base. destruct (bool_decide (a_policy a = AOF_FSYNC_EVERYSEC)); by apply (inv_move base a ppc WFinal h).
  - done.
Qed.

(** ** The producer keeps the invariant *)

(** A longer queue, more numbers and a longer log do not disturb the writer. *)
Lemma writer_inv_grow base a a' b b' log log' wpc :
  writer_inv base a b log wpc -> unwritten (sh_queue (a_shared a)) `prefix_of` unwritten (sh_queue (a_shared a')) ->
  b <= b' -> d_durable (a_disk a) <= d_durable (a_disk a') -> (forall q, q <= b -> log_end log' q = log_end log q) ->
  writer_inv base a' b' log' wpc.
Proof.
  intros H Hq Hb Hd Hl. destruct wpc as [|data|n|why t|why t|why t e|c| |e next| |]; cbn [writer_inv] in *; try done.
  - destruct H as [H1 H2]. split; [by etrans|done].
  - destruct Hq as [x ->]. rewrite zlen_app. pose proof (zlen_nonneg x). lia.
  - destruct H as (H1 & H2 & H3). rewrite Hl by lia. split_and!; [lia|lia|done|done].
  - destruct H as (H1 & H2 & H3). rewrite Hl by lia. split_and!; [lia|lia|done|done].
  - destruct H as (H1 & H2 & H3 & H4). rewrite Hl by lia. split_and!; [lia|lia|done|lia|done].
  - destruct H as (H1 & H2 & H3). rewrite Hl by lia. split_and!; lia.
Qed.

(** The bytes in flight stay those at the head of the queue. *)
Lemma inflight_bound base a b log wpc :
  writer_inv base a b log wpc -> 0 <= inflight wpc <= zlen (unwritten (sh_queue (a_shared a))).
Proof.
  pose proof (zlen_nonneg (unwritten (sh_queue (a_shared a)))). destruct wpc; cbn [writer_inv inflight]; lia || (intros; lia).
Qed.

Lemma take_grow {A} n (l k : list A) : 0 <= n <= zlen l -> take (Z.to_nat n) (l ++ k) = take (Z.to_nat n) l.
Proof. intros Hn. apply take_app_le. unfold zlen in *. lia. Qed.

(** Outside the loop of a commit. *)
Definition settled (pc : producer_pc) : Prop := match pc with PCommit _ _ _ => False | _ => True end.

Lemma settled_bound pc q : settled pc -> bound pc q = sq_next q.
Proof. by destruct pc. Qed.

Lemma settled_uncopied pc p : settled pc -> uncopied pc p = [].
Proof. by destruct pc. Qed.

(** A step of the producer that leaves the bytes and the numbers alone. *)
Lemma inv_call base a ppc wpc h a' ppc' h' :
  log_inv base (mk_system a ppc wpc h) -> settled ppc -> settled ppc' ->
  a_disk a' = a_disk a -> a_policy a' = a_policy a -> sh_queue (a_shared a') = sh_queue (a_shared a) ->
  a_seqs a' = a_seqs a -> pr_chunk (a_producer a') = pr_chunk (a_producer a) ->
  h_log h' = h_log h -> h_count h' = h_count h -> buffers_inv a' h' -> producer_inv a' h' ppc' ->
  log_inv base (mk_system a' ppc' wpc h').
Proof.
  intros [Hb Hw Hp Hn Hbu Hc] Hs Hs' Hd Hpol Hq Hsq Hch Hl Hct Hbu' Hp'. cbn [s_aof s_producer s_writer s_history] in *.
  rewrite (settled_bound _ _ Hs) in *.
  split; cbn [s_aof s_producer s_writer s_history]; rewrite ?(settled_bound _ _ Hs'), ?Hl, ?Hsq, ?Hct; try done.
  - destruct Hb as [B1 B2 B3 B4]. rewrite (settled_uncopied _ _ Hs) in B2.
    split; rewrite ?Hd, ?Hq, ?Hch, ?(settled_uncopied _ _ Hs'); try done.
    destruct (pr_chunk (a_producer a)) as [k|]; [|done]. destruct B4 as (? & ? & [?|Hx]); [auto|by destruct ppc].
  - apply (writer_inv_grow base a a' (sq_next (a_seqs a)) (sq_next (a_seqs a)) (h_log h) (h_log h)); [done|by rewrite Hq|done|by rewrite Hd|done].
  - destruct Hn as [N1 N2 N3 N4 N5 N6 N7 N8]. split; rewrite ?Hd, ?Hq, ?Hch, ?Hsq, ?Hpol; done.
Qed.

(** The producer's chunk moves to the queue. *)
Lemma queue_chunk_inv base a ppc wpc h :
  log_inv base (mk_system a ppc wpc h) -> settled ppc ->
  log_inv base (mk_system (queue_producer_chunk a) PIdle wpc h) /\ pr_chunk (a_producer (queue_producer_chunk a)) = None.
Proof.
  intros H Hs. unfold queue_producer_chunk. destruct (pr_chunk (a_producer a)) as [k|] eqn:Ek.
  2:{ split; [|done]. apply (inv_call base a ppc wpc h); try done; apply H. }
  split; [|done]. destruct H as [Hb Hw Hp Hn Hbu Hc]. cbn [s_aof s_producer s_writer s_history] in *.
  rewrite (settled_bound _ _ Hs) in *. pose proof (inflight_bound _ _ _ _ _ Hw) as Hfl.
  destruct Hb as [B1 B2 B3 B4]. rewrite (settled_uncopied _ _ Hs) in B2. rewrite Ek in *. cbn [held] in *.
  destruct B4 as (K1 & K2 & K3). assert (Hkl : 0 < zlen (ck_data k)) by (destruct K3 as [?|?]; [done|by destruct ppc]).
  split; cbn [s_aof s_producer s_writer s_history]; try done.
  - split; cbn [a_disk a_shared a_producer with_producer with_shared with_chunk pr_chunk held sh_queue queue_chunk_locked uncopied].
    + by rewrite unwritten_app, take_grow.
    + by rewrite !app_nil_r in *.
    + apply Forall_app. split; [done|]. constructor; [|constructor]. split; lia.
    + done.
  - eapply writer_inv_grow; [exact Hw| |done|done|done].
    cbn [a_shared with_producer with_shared sh_queue queue_chunk_locked]. rewrite unwritten_app. by eexists.
  - destruct Hn as [N1 N2 N3 N4 N5 N6 N7 N8]. rewrite Ek in N4. cbn [held] in N4.
    split; try done. cbn [a_shared a_producer with_producer with_shared with_chunk pr_chunk held sh_queue queue_chunk_locked].
    by rewrite app_nil_r.
  - by destruct Hbu.
Qed.

(** *** Commit *)

Lemma commit_enter_inv base a wpc h use :
  log_inv base (mk_system a PIdle wpc h) ->
  match use with ForCheckpoint token => h_txn h = [marker token] | ForCommand => True end ->
  let '(pc, a', _) := commit_enter use a in
  let h' := match pc with
            | PCommit _ _ _ => if zlen (pr_transaction (a_producer a)) >? 0 then add_count h else h
            | _ => h
            end in
  h_count h' < 2 ^ 64 -> log_inv base (mk_system a' pc wpc h').
Proof.
  intros H Huse. unfold commit_enter. destruct (pr_active (a_producer a)); cbn [negb]; [|by intros _].
  destruct (Z.gtb_spec (zlen (pr_transaction (a_producer a))) 0) as [Ht|Ht]; cycle 1.
  - intros _. destruct H as [Hb Hw Hp Hn Hbu Hc]. split; cbn [s_aof s_producer s_writer s_history] in *; try done.
    + destruct Hb as [B1 B2 B3 B4]. split; try done. destruct (pr_chunk _); [|done]. destruct B4 as (? & ? & [?|[]]). auto.
    + cbn [producer_inv]. destruct (Z.gtb_spec (zlen (pr_transaction (a_producer a))) 0); [lia|].
      split_and!; [lia|apply zlen_nonneg|done|lia|lia|done].
  - intros Hcnt. cbn [add_count h_count] in Hcnt. destruct H as [Hb Hw Hp Hn Hbu Hc].
    cbn [s_aof s_producer s_writer s_history bound] in *. pose proof Hn as [N1 N2 N3 N4 N5 N6 N7 N8].
    assert (Hnext : wrap64 (sq_next (a_seqs a) + 1) = sq_next (a_seqs a) + 1).
    { apply wrap64_small. unfold UINT64_MAX. lia. }
    unfold assign_sequence. rewrite Hnext.
    set (a' := with_seqs _ a). assert (Hbd : bound (PCommit use 0 (sq_next (a_seqs a) + 1)) (a_seqs a') = sq_next (a_seqs a)).
    { cbn. destruct (Z.eqb_spec (sq_next (a_seqs a) + 1) 0); lia. }
    split; cbn [s_aof s_producer s_writer s_history]; rewrite ?Hbd; try done.
    + destruct Hb as [B1 B2 B3 B4]. split; try done. cbn [a_producer a' with_seqs] in *. destruct (pr_chunk _); [|done].
      destruct B4 as (? & ? & [?|[]]). auto.
    + cbn [producer_inv a_producer a' with_seqs]. destruct (Z.gtb_spec (zlen (pr_transaction (a_producer a))) 0); [|lia].
      split_and!; [lia|apply zlen_nonneg|done|lia|lia|done].
    + split; try done. cbn. lia.
    + by destruct Hbu.
    + cbn. lia.
Qed.

(** The producer gets an empty chunk. *)
Lemma acquire_inv base a wpc h use position assigned sh :
  log_inv base (mk_system a (PCommit use position assigned) wpc h) -> pr_chunk (a_producer a) = None ->
  position < zlen (pr_transaction (a_producer a)) -> sh_queue sh = sh_queue (a_shared a) ->
  log_inv base (mk_system (with_producer (with_chunk (Some empty_chunk) (a_producer a)) (with_shared sh a))
                  (PCommit use position assigned) wpc h).
Proof.
  intros [Hb Hw Hp Hn Hbu Hc] Hk Hpos Hq. cbn [s_aof s_producer s_writer s_history] in *.
  split; cbn [s_aof s_producer s_writer s_history]; try done.
  - destruct Hb as [B1 B2 B3 B4]. rewrite Hk in B2. split; cbn [a_disk a_shared a_producer with_producer with_shared with_chunk pr_chunk held];
      rewrite ?Hq; try done.
    + rewrite unwritten_app. cbn [held] in B2. rewrite app_nil_r in B2. rewrite unwritten_one. unfold ck_rest.
      cbn [empty_chunk ck_data ck_offset]. rewrite drop_nil, app_nil_r. exact B2.
    + split; [done|]. split; [done|]. by right.
  - eapply writer_inv_grow; [exact Hw| |done|done|done]. cbn. by rewrite Hq.
  - destruct Hn as [N1 N2 N3 N4 N5 N6 N7 N8]. rewrite Hk in N4. cbn [held] in N4. split; try done.
    cbn [a_shared a_producer with_producer with_shared with_chunk pr_chunk held]. rewrite Hq. intros l1 k l2 E He.
    destruct l2 as [|x l2 _] using rev_ind.
    + apply app_inj_tail in E as [_ <-]. done.
    + rewrite app_comm_cons, app_assoc in E. apply app_inj_tail in E as [E _]. apply (N4 l1 k l2); [|done]. by rewrite app_nil_r.
  - by destruct Hbu.
Qed.

(** The commit fails before anything was copied. *)
Lemma commit_failed_inv base a wpc h use assigned sh :
  log_inv base (mk_system a (PCommit use 0 assigned) wpc h) -> pr_chunk (a_producer a) = None ->
  sh_queue sh = sh_queue (a_shared a) ->
  log_inv base (mk_system (aof_transaction_rollback (with_shared sh a)) PIdle wpc
                  (mk_history [] (h_pend h) (h_log h) (h_torn h || (0 <? 0)) (h_count h))).
Proof.
  intros [Hb Hw Hp Hn Hbu Hc] Hk Hq. cbn [s_aof s_producer s_writer s_history] in *.
  assert (Hbd : bound (PCommit use 0 assigned) (a_seqs a) <= sq_next (a_seqs a)) by (cbn; destruct (_ =? 0); lia).
  remember (bound (PCommit use 0 assigned) (a_seqs a)) as b eqn:Eb. clear Eb.
  split; cbn [s_aof s_producer s_writer s_history h_log h_count]; try done.
  - destruct Hb as [B1 B2 B3 B4]. split; cbn; rewrite ?Hq; try done.
    destruct (pr_chunk (a_producer a)); done.
  - eapply writer_inv_grow; [exact Hw|cbn; by rewrite Hq|exact Hbd|done|done].
  - destruct Hn as [N1 N2 N3 N4 N5 N6 N7 N8]. split; cbn; rewrite ?Hq; try done; try lia.
    + eapply Forall_impl; [exact N3|]. cbn. lia.
    + intros l1 k l2 E He. destruct (N4 l1 k l2 E He). split; [lia|done].
  - destruct Hbu as [U1 U2 U3 U4 U5]. by split.
Qed.

(** The commit is complete. *)
Lemma commit_done_inv base a wpc h use position assigned :
  log_inv base (mk_system a (PCommit use position assigned) wpc h) -> zlen (pr_transaction (a_producer a)) <= position ->
  log_inv base (mk_system (aof_transaction_rollback a) PIdle wpc (set_txn [] h)) /\
  match use with ForCheckpoint token => ends_with (h_log h) assigned [marker token] | ForCommand => True end.
Proof.
  intros [Hb Hw Hp Hn Hbu Hc] Hpos. cbn [s_aof s_producer s_writer s_history] in *.
  destruct Hp as (P1 & P2 & _ & P3 & P4).
  assert (Hbd : bound (PCommit use position assigned) (a_seqs a) = sq_next (a_seqs a)).
  { cbn. destruct position; [|done..]. destruct (Z.gtb_spec (zlen (pr_transaction (a_producer a))) 0); [lia|]. by rewrite P2. }
  rewrite Hbd in *. split.
  - split; cbn [s_aof s_producer s_writer s_history h_log h_count set_txn]; try done.
    + destruct Hb as [B1 B2 B3 B4]. split; try done.
      * cbn [uncopied] in *. rewrite <- B2. cbn [a_shared a_producer aof_transaction_rollback with_producer with_transaction pr_chunk].
        do 2 f_equal. destruct (0 <? position); [|done]. rewrite drop_ge; [done|]. unfold zlen in *. lia.
      * cbn [a_producer aof_transaction_rollback with_producer with_transaction pr_chunk]. destruct (pr_chunk (a_producer a)); [|done].
        destruct B4 as (? & ? & [?|?]); [auto|lia].
    + by destruct Hn.
    + destruct Hbu as [U1 U2 U3 U4 U5]. by split.
  - destruct use as [|token]; [done|]. rewrite <- P4. apply P3. destruct Hbu as [U1 _ _ _ _]. rewrite U1, P4 in Hpos.
    rewrite log_bytes_cons, zlen_app in Hpos. pose proof (frame_positive (marker token)). pose proof (zlen_nonneg (log_bytes [])). lia.
Qed.

(** The log once a commit has copied something. *)
Definition committing (position assigned : Z) (h : history) : list (Z * list command) :=
  if position =? 0 then h_log h ++ [(assigned, h_txn h)] else h_log h.

Lemma rest_of_whole k : ck_offset k = 0 -> ck_rest k = ck_data k.
Proof. intros H. unfold ck_rest. by rewrite H. Qed.

Lemma committing_spec base a wpc h use position assigned k :
  log_inv base (mk_system a (PCommit use position assigned) wpc h) -> pr_chunk (a_producer a) = Some k ->
  position < zlen (pr_transaction (a_producer a)) ->
  let log := committing position assigned h in
  let b := bound (PCommit use position assigned) (a_seqs a) in
  stream log = base ++ unwritten (sh_queue (a_shared a)) ++ ck_data k ++ drop (Z.to_nat position) (pr_transaction (a_producer a)) /\
  (forall q, q <= b -> log_end log q = log_end (h_log h) q) /\
  numbered log /\ Forall (fun x => 0 <= x.1 <= assigned) log /\ ends_with log assigned (h_txn h) /\
  b <= assigned /\ assigned = sq_next (a_seqs a) /\ 0 < assigned /\ Forall command_ok (all_commands log).
Proof.
  intros [Hb Hw Hp Hn Hbu Hc] Hk Hpos. cbn [s_aof s_producer s_writer s_history] in *. cbn zeta.
  destruct Hp as (P1 & P2 & P2' & P3 & P4). destruct (Z.gtb_spec (zlen (pr_transaction (a_producer a))) 0); [|lia].
  specialize (P2' ltac:(lia)). destruct Hb as [B1 B2 B3 B4]. rewrite Hk in B2, B4. destruct B4 as (K1 & _). cbn [held] in B2.
  rewrite unwritten_app, unwritten_one, (rest_of_whole k K1), <- !app_assoc in B2.
  destruct Hbu as [U1 U2 U3 U4 U5]. unfold committing. cbn [uncopied] in B2.
  destruct Hn as [N1 N2 N3 N4 N5 N6 N7 N8]. destruct (Z.eqb_spec position 0) as [->|Hne].
  - cbn [bound] in *. destruct (Z.eqb_spec assigned 0); [lia|]. cbn in B2. rewrite app_nil_r in B2.
    rewrite stream_snoc, <- B2, <- !app_assoc, U1. change (Z.to_nat 0) with 0%nat. rewrite drop_0. split_and!; try done; try lia.
    + intros q Hq. apply log_end_snoc_lt. lia.
    + apply numbered_snoc; [done|]. eapply Forall_impl; [exact N3|]. cbn. lia.
    + apply Forall_app. split; [|repeat constructor; cbn; lia]. eapply Forall_impl; [exact N3|]. cbn. lia.
    + by eexists.
    + unfold all_commands. rewrite fmap_app, concat_app. cbn. rewrite app_nil_r. by apply Forall_app.
  - destruct (Z.ltb_spec 0 position); [|lia].
    assert (Hbd : bound (PCommit use position assigned) (a_seqs a) = sq_next (a_seqs a)) by (by destruct position).
    rewrite Hbd, <- P2 in *. split_and!; try done; try lia. apply P3. lia.
Qed.

Lemma log_history position position' assigned h :
  position < position' -> 0 <= position ->
  (if (position =? 0) && (0 <? position') then add_log assigned (h_txn h) h else h)
  = mk_history (h_txn h) (h_pend h) (committing position assigned h) (h_torn h) (h_count h).
Proof.
  intros H1 H2. unfold committing. destruct (Z.eqb_spec position 0) as [->|]; cbn [andb]; [|by destruct h].
  by destruct (Z.ltb_spec 0 position'); [|lia].
Qed.

(** The chunks of the commit after one copy: the old ones and the one that was
    extended. *)
Lemma copy_marks base a wpc h use position assigned k k' amount :
  log_inv base (mk_system a (PCommit use position assigned) wpc h) -> pr_chunk (a_producer a) = Some k ->
  position < zlen (pr_transaction (a_producer a)) -> 0 < amount <= zlen (pr_transaction (a_producer a)) - position ->
  k' = mk_chunk (ck_data k ++ sub_bytes (pr_transaction (a_producer a)) position amount) (ck_offset k) assigned
         (position + amount =? zlen (pr_transaction (a_producer a))) ->
  let log := committing position assigned h in
  base ++ unwritten (sh_queue (a_shared a) ++ [k']) ++ drop (Z.to_nat (position + amount)) (pr_transaction (a_producer a)) = stream log /\
  forall l1 x l2, sh_queue (a_shared a) ++ [k'] = l1 ++ x :: l2 -> ck_end x = true ->
    0 < ck_sequence x <= assigned /\ log_end log (ck_sequence x) = zlen base + zlen (unwritten (l1 ++ [x])).
Proof.
  intros H Hk Hpos Ham -> log. destruct (committing_spec _ _ _ _ _ _ _ _ H Hk Hpos) as (S1 & S2 & S3 & S4 & _ & S6 & _ & S8 & _).
  fold log in S1, S2, S3, S4. set (k' := mk_chunk _ _ _ _). destruct H as [Hb _ Hp Hn _ _]. cbn [s_aof s_producer s_writer s_history] in *.
  destruct Hp as (P1 & _). destruct Hb as [_ _ _ B4]. rewrite Hk in B4. destruct B4 as (K1 & _).
  set (t := pr_transaction (a_producer a)) in *.
  assert (Hr : ck_rest k' = ck_data k ++ sub_bytes t position amount) by (by apply rest_of_whole).
  assert (Hs : base ++ unwritten (sh_queue (a_shared a) ++ [k']) ++ drop (Z.to_nat (position + amount)) t = stream log).
  { rewrite S1, unwritten_app, unwritten_one, Hr, <- !app_assoc. do 3 f_equal. unfold sub_bytes.
    replace (Z.to_nat (position + amount)) with (Z.to_nat position + Z.to_nat amount)%nat by lia.
    rewrite <- drop_drop. apply take_drop. }
  split; [done|]. intros l1 x l2 E He. destruct Hn as [_ _ _ N4 _ _ _ _]. rewrite Hk in N4. cbn [held] in N4.
  destruct l2 as [|y l2 _] using rev_ind.
  - apply app_inj_tail in E as [<- <-]. cbn [ck_end ck_sequence k'] in *. apply Z.eqb_eq in He. split; [lia|].
    rewrite log_end_all by (eapply Forall_impl; [exact S4|]; cbn; lia). rewrite <- Hs, !zlen_app.
    rewrite (drop_ge t) by (unfold zlen in *; lia). rewrite zlen_nil. lia.
  - rewrite app_comm_cons, app_assoc in E. apply app_inj_tail in E as [E _].
    destruct (N4 l1 x (l2 ++ [k])) as [M1 M2]; [rewrite E, <- app_assoc; done|done|]. rewrite S2 by lia. split; [lia|done].
Qed.

Lemma commit_copy_inv base a wpc h use position assigned k :
  log_inv base (mk_system a (PCommit use position assigned) wpc h) -> pr_chunk (a_producer a) = Some k ->
  position < zlen (pr_transaction (a_producer a)) ->
  let '(position', a') := commit_copy position assigned k a in
  position < position' /\
  log_inv base (mk_system a' (PCommit use position' assigned) wpc
    (if (position =? 0) && (0 <? position') then add_log assigned (h_txn h) h else h)).
Proof.
  intros H Hk Hpos. destruct (committing_spec _ _ _ _ _ _ _ _ H Hk Hpos) as (S1 & S2 & S3 & S4 & S5 & S6 & S7 & S8 & S9).
  pose proof H as [Hb Hw Hp Hn Hbu Hc]. cbn [s_aof s_producer s_writer s_history] in *.
  destruct Hp as (P1 & P2 & P2' & P3 & P4). destruct Hb as [B1 B2 B3 B4]. rewrite Hk in B4. destruct B4 as (K1 & K2 & _).
  unfold commit_copy. set (t := pr_transaction (a_producer a)) in *.
  set (amount := if _ >? _ then _ else _). assert (Ham : 0 < amount <= zlen t - position /\ amount <= AOF_CHUNK_CAPACITY - zlen (ck_data k)).
  { unfold amount. destruct (Z.gtb_spec (zlen t - position) (AOF_CHUNK_CAPACITY - zlen (ck_data k))); lia. }
  set (k' := mk_chunk _ _ _ _). destruct Ham as [Ham Hcap]. destruct (copy_marks _ _ _ _ _ _ _ _ k' amount H Hk Hpos Ham eq_refl) as [Hs Hm].
  fold t in Hs. set (log := committing position assigned h) in *.
  assert (Hdl : zlen (ck_data k') = zlen (ck_data k) + amount).
  { cbn [ck_data k']. rewrite zlen_app, zlen_sub_bytes by lia. done. }
  pose proof (inflight_bound _ _ _ _ _ Hw) as Hfl. pose proof (zlen_nonneg (ck_data k)).
  assert (Hbd : forall q, bound (PCommit use (position + amount) assigned) q = sq_next q).
  { intros q. cbn. destruct (position + amount) eqn:E; [lia|done..]. }
  assert (Hmain : forall queue' chunk' a', queue' ++ held chunk' = sh_queue (a_shared a) ++ [k'] ->
     a_disk a' = a_disk a -> a_policy a' = a_policy a -> a_seqs a' = a_seqs a ->
     sh_queue (a_shared a') = queue' -> a_producer a' = with_chunk chunk' (a_producer a) ->
     unwritten (sh_queue (a_shared a)) `prefix_of` unwritten queue' -> Forall queued queue' ->
     match chunk' with None => True | Some k => ck_offset k = 0 /\ 0 < zlen (ck_data k) < AOF_CHUNK_CAPACITY end ->
     log_inv base (mk_system a' (PCommit use (position + amount) assigned) wpc
       (mk_history (h_txn h) (h_pend h) log (h_torn h) (h_count h)))).
  { intros queue' chunk' a' Hq Hd Hpol Hsq Hsq' Hpr Hpre Hqd Hck.
    split; cbn [s_aof s_producer s_writer s_history h_log h_txn h_count]; rewrite ?Hbd, ?Hsq, <- ?S7.
    - split; rewrite ?Hd, ?Hsq', ?Hpr; cbn [with_chunk pr_chunk pr_transaction uncopied]; rewrite ?Hq; fold t; try done.
      + rewrite B1. destruct Hpre as [x ->]. by rewrite take_grow.
      + destruct (Z.ltb_spec 0 (position + amount)); [|lia]. exact Hs.
      + destruct chunk' as [c|]; [|done]. destruct Hck as (? & ? & ?). auto.
    - eapply writer_inv_grow; [exact Hw|by rewrite Hsq'|exact S6|by rewrite Hd|exact S2].
    - cbn [producer_inv]. rewrite Hpr, Hsq. cbn [with_chunk pr_transaction]. fold t. split_and!; try done; lia.
    - destruct Hn as [N1 N2 N3 N4 [N5 N5'] [N6 N6'] N7 N8].
      split; rewrite ?Hd, ?Hsq, ?Hsq', ?Hpr, ?Hpol; cbn [with_chunk pr_chunk]; rewrite ?Hq; try done; try lia.
      + rewrite S2 by lia. split; [lia|done].
      + rewrite S2 by lia. split; [lia|done].
      + rewrite S2 by lia. done.
    - destruct Hbu as [U1 U2 U3 U4 U5]. split; rewrite ?Hpr; done.
    - by rewrite <- Hc. }
  change (zlen (ck_data k ++ sub_bytes t position amount)) with (zlen (ck_data k')).
  destruct (Z.eqb_spec (zlen (ck_data k')) AOF_CHUNK_CAPACITY); (split; [lia|]); rewrite log_history by lia.
  - apply (Hmain (sh_queue (a_shared a) ++ [k']) None); try done.
    + cbn [held]. by rewrite app_nil_r.
    + rewrite unwritten_app. by eexists.
    + apply Forall_app. split; [done|]. constructor; [|constructor]. split; [cbn [ck_offset k']|]; lia.
  - apply (Hmain (sh_queue (a_shared a)) (Some k')); try done. cbn [ck_offset k']. split; [done|]. lia.
Qed.

(** *** Flush *)

Lemma acquire_queue m sh : sh_queue (acquire_chunk m sh).1.2 = sh_queue sh.
Proof. unfold acquire_chunk. destruct (_ >? 0); [done|]. by destruct (malloc m). Qed.

Lemma fill_chunks_spec fuel m data sh :
  let '(chunks, sh', _) := fill_chunks fuel m data sh in
  sh_queue sh' = sh_queue sh /\
  match chunks with
  | Some chunks => concat (ck_data <$> chunks) = data /\ Forall filled chunks /\ (data <> [] -> chunks <> [])
  | None => True
  end.
Proof.
  revert m data sh. induction fuel as [|fuel IH]; intros m data sh; (destruct data as [|b data]; cbn [fill_chunks]; [by split_and!|]); [done|].
  pose proof (acquire_queue m sh) as Ha. destruct (acquire_chunk m sh) as [[ok sh1] m1]. cbn [fst snd] in Ha.
  destruct ok; cbn [negb]; [|done]. set (n := Z.to_nat AOF_CHUNK_CAPACITY). specialize (IH m1 (drop n (b :: data)) sh1).
  destruct (fill_chunks fuel m1 (drop n (b :: data)) sh1) as [[[chunks|] sh2] m2]; destruct IH as [I1 I2]; (split; [congruence|]); [|done].
  destruct I2 as (I2 & I3 & _). cbn [fmap option_fmap option_map list_fmap concat ck_data]. rewrite I2.
  split; [apply take_drop|]. split; [|done]. constructor; [|done].
  assert (0 < zlen (take n (b :: data)) <= AOF_CHUNK_CAPACITY).
  { unfold zlen, n. rewrite length_take. cbn [length]. unfold AOF_CHUNK_CAPACITY. lia. }
  split; [|done]. split; cbn [ck_offset ck_data]; lia.
Qed.

Lemma mark_last_spec q chunks :
  Forall filled chunks -> chunks <> [] ->
  unwritten (mark_last q chunks) = concat (ck_data <$> chunks) /\ Forall queued (mark_last q chunks) /\
  forall l1 k l2, mark_last q chunks = l1 ++ k :: l2 -> ck_end k = true -> ck_sequence k = q /\ l2 = [].
Proof.
  induction chunks as [|k chunks IH]; intros Hf Hne; [done|]. apply Forall_cons in Hf as [(Hk & Ho & He) Hf].
  destruct chunks as [|k2 chunks].
  - cbn [mark_last fmap list_fmap concat]. rewrite unwritten_one, app_nil_r. split; [by rewrite rest_of_whole|].
    split; [constructor; [done|constructor]|]. intros l1 x l2 E Hx. destruct l1 as [|y l1]; injection E as <- E; [by subst|].
    by destruct l1.
  - destruct (IH Hf) as (I1 & I2 & I3); [done|]. change (mark_last q (k :: k2 :: chunks)) with (k :: mark_last q (k2 :: chunks)).
    rewrite unwritten_cons, I1, (rest_of_whole k Ho). split; [done|]. split; [by constructor|].
    intros l1 x l2 E Hx. destruct l1 as [|y l1]; injection E as <- E; [congruence|]. by apply (I3 l1 x l2).
Qed.

Lemma queue_all chunks sh : sh_queue (fold_left (fun sh k => queue_chunk_locked k sh) chunks sh) = sh_queue sh ++ chunks.
Proof.
  revert sh. induction chunks as [|k chunks IH]; intros sh; cbn [fold_left]; [by rewrite app_nil_r|]. rewrite IH. cbn.
  by rewrite <- app_assoc.
Qed.

Lemma split_app_cons {A} (a b l1 l2 : list A) x :
  a ++ b = l1 ++ x :: l2 -> (exists l3, a = l1 ++ x :: l3 /\ l2 = l3 ++ b) \/ (exists l0, l1 = a ++ l0 /\ b = l0 ++ x :: l2).
Proof.
  intros E. apply app_eq_inv in E as [(k & -> & E)|(k & -> & ->)]; [|right; by exists k].
  destruct k as [|y k]; [right; exists []; by rewrite !app_nil_r|]. injection E as <- ->. left. by exists k.
Qed.

Lemma enqueue_inv base a wpc h use chunks :
  log_inv base (mk_system a (PEnqueue use chunks) wpc h) -> h_count h + 1 < 2 ^ 64 ->
  let '(assigned, a') := enqueue_locked chunks a in
  log_inv base (mk_system (with_producer (with_pending [] (pr_pending_capacity (a_producer a')) (a_producer a')) a') PIdle wpc
                  (add_count (set_pend [] (add_log assigned (h_pend h) h)))) /\ a_producer a' = a_producer a.
Proof.
  intros [Hb Hw Hp Hn Hbu Hc] Hcnt. cbn [s_aof s_producer s_writer s_history bound uncopied] in *.
  destruct Hp as (_ & Hk & Hd & Hf & Hne). destruct Hb as [B1 B2 B3 B4]. rewrite Hk in *. cbn [held uncopied] in *.
  rewrite !app_nil_r in B2. pose proof Hn as [N1 N2 N3 N4 [N5 N5'] [N6 N6'] N7 N8]. rewrite Hk in N4. cbn [held] in N4.
  assert (Hnext : wrap64 (sq_next (a_seqs a) + 1) = sq_next (a_seqs a) + 1) by (apply wrap64_small; unfold UINT64_MAX; lia).
  unfold enqueue_locked, assign_sequence. rewrite Hnext. set (q := sq_next (a_seqs a) + 1) in *. cbn [a_shared with_seqs].
  destruct (mark_last_spec q chunks Hf Hne) as (M1 & M2 & M3). destruct Hbu as [U1 U2 U3 U4 U5].
  pose proof (inflight_bound _ _ _ _ _ Hw) as Hfl.
  assert (Hst : stream (h_log h ++ [(q, h_pend h)]) = base ++ unwritten (sh_queue (a_shared a)) ++ unwritten (mark_last q chunks)).
  { rewrite stream_snoc, <- B2, <- U2, <- Hd, M1. by rewrite app_assoc. }
  assert (Hlt : Forall (fun x => x.1 < q) (h_log h)) by (eapply Forall_impl; [exact N3|]; cbn; lia).
  assert (Hle : forall n, n <= sq_next (a_seqs a) -> log_end (h_log h ++ [(q, h_pend h)]) n = log_end (h_log h) n)
    by (intros; apply log_end_snoc_lt; lia).
  split; [|done]. split; cbn [s_aof s_producer s_writer s_history h_log h_count add_count set_pend add_log bound].
  - split; cbn [a_disk a_shared a_producer with_producer with_shared with_seqs with_pending pr_chunk uncopied]; rewrite ?queue_all, ?Hk; cbn [held]; try done.
    + rewrite unwritten_app, take_grow by done. done.
    + rewrite !app_nil_r, unwritten_app. done.
    + by apply Forall_app.
  - eapply writer_inv_grow; [exact Hw| |cbn; lia|done|exact Hle].
    cbn [a_shared with_producer with_shared with_seqs]. rewrite queue_all, unwritten_app. by eexists.
  - done.
  - split; cbn [a_disk a_shared a_producer a_seqs a_policy with_producer with_shared with_seqs with_pending pr_chunk sq_next sq_written sq_synced];
      rewrite ?queue_all, ?Hk; cbn [held]; rewrite ?app_nil_r, ?Hle by lia; try done; try lia.
    + by apply numbered_snoc.
    + apply Forall_app. split; [eapply Forall_impl; [exact N3|]; cbn; lia|]. constructor; [cbn; lia|constructor].
    + intros l1 k l2 E He. destruct (split_app_cons _ _ _ _ _ E) as [(l3 & E1 & ->)|(l0 & -> & E1)].
      * destruct (N4 l1 k l3) as [X1 X2]; [by rewrite app_nil_r|done|]. rewrite Hle by lia. split; [lia|done].
      * destruct (M3 l0 k l2 E1 He) as [-> ->]. split; [lia|]. rewrite <- app_assoc, <- E1, unwritten_app, !zlen_app.
        rewrite log_end_all, Hst, !zlen_app; [lia|]. apply Forall_app. split; [eapply Forall_impl; [exact N3|]; cbn; lia|].
        constructor; [cbn; lia|constructor].
  - split; cbn; try done. unfold all_commands. rewrite fmap_app, concat_app. cbn. rewrite app_nil_r. by apply Forall_app.
  - cbn. lia.
Qed.

(** *** The other calls *)

Lemma plain_some args : plain (Some <$> args) = args.
Proof. unfold plain. rewrite <- list_fmap_compose. induction args as [|x l IH]; [done|]. cbn. by f_equal. Qed.

Lemma append_inv base a wpc h m arguments :
  log_inv base (mk_system a PIdle wpc h) ->
  let '(r, a', _) := aof_append m a arguments in
  log_inv base (mk_system a' PIdle wpc
    (match r with
     | 0 => if pr_active (a_producer a) then set_txn (h_txn h ++ [plain arguments]) h
            else set_pend (h_pend h ++ [plain arguments]) h
     | _ => h
     end)).
Proof.
  intros H. pose proof (append_spec m a arguments) as Ha. destruct (aof_append m a arguments) as [[r a'] m'].
  destruct Ha as ((D1 & D2 & D3 & D4 & D5 & D6 & D7) & Ha & _). destruct (li_buffers _ _ H) as [U1 U2 U3 U4 U5].
  cbn [s_aof s_history] in *. unfold appended in Ha.
  destruct Ha as [(-> & args & -> & Hok & Happ)|(-> & Happ)].
  - rewrite plain_some. destruct (pr_active (a_producer a)); destruct Happ as [A1 A2];
      (apply (inv_call base a PIdle wpc h); try done; [by rewrite D3|]; split; cbn [h_txn h_pend h_log set_txn set_pend]; rewrite ?A1, ?A2, ?log_bytes_app; try done;
       [|by apply Forall_app; split; [|constructor]]).
    + by rewrite U1, log_bytes_cons, app_nil_r.
    + by rewrite U2, log_bytes_cons, app_nil_r.
  - apply (inv_call base a PIdle wpc h); try done; [by rewrite D3|].
    rewrite !app_nil_r in Happ. destruct (pr_active (a_producer a)); destruct Happ as [A1 A2]; split; by rewrite ?A1, ?A2.
Qed.

(** The transaction buffer is emptied. *)
Lemma rollback_inv base a wpc h ppc active :
  log_inv base (mk_system a ppc wpc h) -> settled ppc ->
  log_inv base (mk_system (with_producer (with_transaction [] (pr_transaction_capacity (a_producer a)) active (a_producer a)) a)
                  PIdle wpc (set_txn [] h)).
Proof.
  intros H Hs. destruct (li_buffers _ _ H) as [U1 U2 U3 U4 U5]. by apply (inv_call base a ppc wpc h).
Qed.

(** Only flags change, or nothing. *)
Lemma inv_flags base a ppc wpc h a' ppc' :
  log_inv base (mk_system a ppc wpc h) -> settled ppc -> settled ppc' ->
  a_disk a' = a_disk a -> a_policy a' = a_policy a -> sh_queue (a_shared a') = sh_queue (a_shared a) ->
  a_seqs a' = a_seqs a -> a_producer a' = a_producer a -> producer_inv a' h ppc' ->
  log_inv base (mk_system a' ppc' wpc h).
Proof.
  intros H Hs Hs' Hd Hp Hq Hsq Hpr Hi. apply (inv_call base a ppc wpc h); try done; [by rewrite Hpr|].
  destruct (li_buffers _ _ H) as [U1 U2 U3 U4 U5]. split; try done; by rewrite Hpr.
Qed.

Lemma flushed_inv base a ppc wpc h use r :
  log_inv base (mk_system a ppc wpc h) -> settled ppc ->
  log_inv base (mk_system (flushed use r a).1.2 (flushed use r a).1.1 wpc h).
Proof. intros H Hs. destruct use; by apply (inv_flags base a ppc wpc h). Qed.

Lemma flush_enter_inv base a ppc wpc h use :
  log_inv base (mk_system a ppc wpc h) -> settled ppc -> direct use ->
  log_inv base (mk_system (flush_enter use a).1.2 (flush_enter use a).1.1 wpc h).
Proof.
  intros H Hs Hu. unfold flush_enter. destruct (pr_active (a_producer a)); [by apply (flushed_inv base a ppc)|].
  destruct (queue_chunk_inv base a ppc wpc h H Hs) as [Hq Hk].
  destruct (Z.eqb_spec (zlen (pr_pending (a_producer (queue_producer_chunk a)))) 0) as [_|Hne]; [by apply (flushed_inv base _ PIdle)|].
  apply (inv_flags base (queue_producer_chunk a) PIdle wpc h); try done. split; [done|]. split; [done|]. cbn [fst snd]. intros E. by rewrite E in Hne.
Qed.

Lemma checkpoint_enter_inv base a wpc h m io :
  log_inv base (mk_system a PIdle wpc h) ->
  let '(pc, a', r) := checkpoint_enter m io a in
  let h' := record_step (CallCheckpoint m io) PIdle a pc r h in
  h_count h' < 2 ^ 64 -> log_inv base (mk_system a' pc wpc h').
Proof.
  intros H. unfold checkpoint_enter. destruct (fill_random_token io RDB_CHECKPOINT_TOKEN_SIZE) as [token|] eqn:Et.
  2:{ cbn. rewrite bool_decide_true by done. done. }
  assert (Hrec : forall r, record_step (CallCheckpoint m io) PIdle a PIdle r h = set_txn [] h).
  { intros r. cbn. rewrite bool_decide_false; [by destruct r|]. by rewrite Et. }
  unfold aof_transaction_begin. destruct (pr_active (a_producer a) || negb (aof_can_accept_write a)) eqn:Eb.
  { cbn [Z.eqb negb]. rewrite Hrec. intros _. by apply (rollback_inv base a wpc h PIdle false). }
  change (negb (0 =? 0)) with false. cbn iota. pose proof (rollback_inv base a wpc h PIdle true H I) as H1.
  set (a1 := with_producer _ a) in *. pose proof (append_inv base a1 wpc (set_txn [] h) m (checkpoint_arguments token) H1) as H2.
  pose proof (append_spec m a1 (checkpoint_arguments token)) as Hspec.
  destruct (aof_append m a1 (checkpoint_arguments token)) as [[r a2] m2]. destruct Hspec as (Hsame & Hspec & _).
  change (pr_active (a_producer a1)) with true in H2. unfold appended in Hspec.
  change (pr_active (a_producer a1)) with true in Hspec. cbn iota in Hspec.
  destruct Hspec as [(-> & args & Hargs & Hok & Htx & _)|(-> & _)].
  - assert (Hmk : plain (checkpoint_arguments token) = marker token) by done. rewrite Hmk in H2. cbn [Z.eqb negb app h_txn set_txn] in *.
    pose proof (commit_enter_inv base a2 wpc _ (ForCheckpoint token) H2 eq_refl) as H3. cbn zeta in H3.
    assert (Hact : pr_active (a_producer a2) = true) by (by destruct Hsame as (_ & _ & _ & _ & _ & _ & ->)).
    unfold commit_enter in *. rewrite Hact in *. cbn [negb] in *.
    assert (Hz : (zlen (pr_transaction (a_producer a2)) >? 0) = true).
    { rewrite Htx. apply Z.gtb_lt. rewrite zlen_app. pose proof (frame_positive args).
      pose proof (zlen_nonneg (pr_transaction (a_producer a1))). lia. }
    rewrite Hz in *. destruct (assign_sequence a2) as [assigned a3]. exact H3.
  - cbn [Z.eqb negb]. rewrite Hrec. intros _. by apply (rollback_inv base a2 wpc (set_txn [] h) PIdle false).
Qed.

(** The producer syncs on its own. *)
Lemma producer_sync_inv base a ppc wpc h a' ppc' :
  log_inv base (mk_system a ppc wpc h) -> settled ppc -> settled ppc' ->
  d_file (a_disk a') = d_file (a_disk a) -> a_policy a' = a_policy a ->
  sh_queue (a_shared a') = sh_queue (a_shared a) -> a_producer a' = a_producer a ->
  d_durable (a_disk a) <= d_durable (a_disk a') <= zlen (d_file (a_disk a)) ->
  sq_next (a_seqs a') = sq_next (a_seqs a) -> sq_written (a_seqs a') = sq_written (a_seqs a) ->
  0 <= sq_synced (a_seqs a') <= sq_next (a_seqs a) ->
  log_end (h_log h) (sq_synced (a_seqs a')) <= d_durable (a_disk a') -> producer_inv a' h ppc' ->
  log_inv base (mk_system a' ppc' wpc h).
Proof.
  intros H Hs Hs' Hf Hpol Hq Hpr Hd Hnx Hwr Hsy Hse Hp. pose proof (li_numbers _ _ H) as Hn. pose proof (li_writer _ _ H) as Hw.
  cbn [s_aof s_producer s_writer s_history] in Hn, Hw. destruct Hn as [N1 N2 N3 N4 [N5 N5'] [N6 N6'] N7 N8].
  rewrite (settled_bound _ _ Hs) in *. apply (inv_flags base a' ppc wpc h); try done.
  apply (inv_update base a ppc wpc h); try done; rewrite ?(settled_bound _ _ Hs), ?Hwr; try done; try lia.
  { intros Hal. specialize (N8 Hal). lia. }
  eapply writer_inv_grow; [exact Hw|by rewrite Hq|done|lia|done].
Qed.

Lemma ends_with_bound log q l b : Forall (fun x : Z * list command => 0 <= x.1 <= b) log -> ends_with log q l -> 0 <= q <= b.
Proof. intros H [g ->]. apply Forall_app in H as [_ H]. by apply Forall_cons in H as [H _]. Qed.

Lemma sync_preserves base a ppc wpc h ev pc a' r :
  log_inv base (mk_system a ppc wpc h) -> producer_step (joined wpc) ev ppc a = Some (pc, a', r) ->
  match ppc with PWait _ _ | PSyncEnter _ _ | PSyncDevice _ _ | PSyncLeave _ _ _ | PStat _ | PQueue _ _ => True | _ => False end ->
  log_inv base (mk_system a' pc wpc h).
Proof.
  intros H E Hpc. pose proof (li_numbers _ _ H) as Hn. pose proof (li_producer _ _ H) as Hp. pose proof (li_bytes _ _ H) as Hb.
  cbn [s_aof s_producer s_writer s_history] in Hn, Hp, Hb. pose proof (base_le_file _ _ _ _ _ Hb) as Hbf.
  assert (Hs : settled ppc) by (by destruct ppc). rewrite (settled_bound _ _ Hs) in Hn.
  pose proof Hn as [N1 N2 N3 N4 [N5 N5'] [N6 N6'] N7 N8]. clear Hs.
  destruct ppc as [|u x y|t q|u|u l|u q|t q|t q|t q e|t| |r0|]; try done; destruct ev; try done; cbn [producer_step producer_inv] in E, Hp.
  - injection E as <- <- _. destruct (queue_chunk_inv base a (PQueue t q) wpc h H I) as [Hq Hk]. by apply (inv_flags base (queue_producer_chunk a) PIdle wpc h).
  - unfold wait_step in E. destruct ((sq_written (a_seqs a) <? q) && (sh_error (a_shared a) =? 0)) eqn:Ew; [done|].
    set (e := sh_error (a_shared a)) in *. destruct u as [| |t].
    + pose proof (flushed_inv base a (PWait ForFlush q) wpc h ForFlush (if e =? 0 then 0 else -1) H I) as Hf.
      apply (inj Some) in E. by rewrite E in Hf.
    + pose proof (flushed_inv base a (PWait ForClose q) wpc h ForClose (if e =? 0 then 0 else -1) H I) as Hf.
      apply (inj Some) in E. by rewrite E in Hf.
    + destruct (e =? 0); injection E as <- <- <-; [|by apply (inv_flags base a (PWait (ForToken t) q) wpc h)].
      destruct Hp as [Hk He]. rewrite andb_true_r in Ew. apply Z.ltb_ge in Ew. by apply (inv_flags base a (PWait (ForToken t) q) wpc h).
  - destruct Hp as (Hk & He & Hq). unfold sync_enter in E. destruct (a_sync_mutex a); [done|].
    destruct (q <=? sq_synced (a_seqs a)); injection E as <- <- <-; apply (inv_flags base a (PSyncEnter t q) wpc h); try done.
    split; [done|]. by exists q.
  - destruct Hp as (Hk & He & Hq). injection E as <- <- <-. pose proof (log_end_mono (h_log h) q (sq_written (a_seqs a)) N2 Hq).
    apply (producer_sync_inv base a (PSyncDevice t q) wpc h); try done; cbn; try lia. split_and!; try done; lia.
  - injection E as <- <- <-. by apply (inv_flags base a (PSyncDevice t q) wpc h).
  - destruct Hp as (Hk & He & Hq & Hd). injection E as <- <- <-. pose proof (ends_with_bound _ _ _ _ N3 He).
    apply (producer_sync_inv base a (PSyncLeave t q e) wpc h); try done; cbn; try lia;
      try (destruct (Z.gtb_spec q (sq_synced (a_seqs a))); try done; lia).
    split; [done|]. by exists q.
  - injection E as <- <- <-. by apply (inv_flags base a (PStat t) wpc h).
  - injection E as <- <- <-. by apply (inv_flags base a (PStat t) wpc h).
Qed.

Lemma commit_step_preserves base a wpc h use position assigned m ev :
  log_inv base (mk_system a (PCommit use position assigned) wpc h) ->
  let '(pc, a', r) := commit_step m use position assigned a in
  let h' := record_step ev (PCommit use position assigned) a pc r h in
  h_torn h' = false -> log_inv base (mk_system a' pc wpc h').
Proof.
  intros H. unfold commit_step. destruct (li_producer _ _ H) as (P1 & _). cbn [s_aof s_producer s_history] in P1.
  destruct (Z.ltb_spec position (zlen (pr_transaction (a_producer a)))).
  - destruct (pr_chunk (a_producer a)) as [k|] eqn:Ek.
    + pose proof (commit_copy_inv base a wpc h use position assigned k H Ek ltac:(lia)) as Hc.
      destruct (commit_copy position assigned k a) as [position' a']. by destruct Hc as [_ Hc].
    + unfold commit_acquire. rewrite Ek. pose proof (acquire_queue m (a_shared a)) as Hq.
      destruct (acquire_chunk m (a_shared a)) as [[ok sh] m']. cbn [fst snd] in Hq. destruct ok.
      * cbn [record_step]. assert ((position =? 0) && (0 <? position) = false) as ->.
        { destruct (Z.eqb_spec position 0), (Z.ltb_spec 0 position); try done; lia. }
        intros _. by apply acquire_inv.
      * cbn [record_step h_torn]. intros Ht. apply orb_false_iff in Ht as [_ Ht]. apply Z.ltb_ge in Ht.
        assert (position = 0) as -> by lia. by apply (commit_failed_inv base a wpc h use assigned sh).
  - destruct (commit_done_inv base a wpc h use position assigned H ltac:(lia)) as [Hd He].
    destruct use as [|token]; cbn [record_step]; intros _; [exact Hd|].
    by apply (inv_flags base (aof_transaction_rollback a) PIdle wpc (set_txn [] h)).
Qed.

Lemma call_preserves base a wpc h ev pc a' r :
  log_inv base (mk_system a PIdle wpc h) -> producer_call ev a = Some (pc, a', r) ->
  h_count (record_step ev PIdle a pc r h) < 2 ^ 64 -> log_inv base (mk_system a' pc wpc (record_step ev PIdle a pc r h)).
Proof.
  intros H E Hcnt. destruct ev; cbn [producer_call] in E; try done.
  - pose proof (append_inv base a wpc h m arguments H) as Ha. destruct (aof_append m a arguments) as [[r0 a0] m0].
    injection E as <- <- <-. by destruct r0.
  - unfold aof_transaction_begin in E. destruct (_ || _); injection E as <- <- <-; [done|]. by apply (rollback_inv base a wpc h PIdle true).
  - pose proof (commit_enter_inv base a wpc h ForCommand H I) as Hc. apply (inj Some) in E. rewrite E in Hc.
    destruct pc; by apply Hc.
  - injection E as <- <- <-. by apply (rollback_inv base a wpc h PIdle false).
  - pose proof (flush_enter_inv base a PIdle wpc h ForFlush H I I) as Hf. apply (inj Some) in E. rewrite E in Hf. by destruct pc.
  - pose proof (checkpoint_enter_inv base a wpc h m io H) as Hc. apply (inj Some) in E. rewrite E in Hc. by apply Hc.
  - injection E as E. unfold pause_enter in E. destruct (_ || _); injection E as <- <- <-; by apply (inv_flags base a PIdle wpc h).
  - injection E as <- <- <-. by apply (inv_flags base a PIdle wpc h).
  - assert (H1 : log_inv base (mk_system (if pr_active (a_producer a) then aof_transaction_rollback a else a) PIdle wpc
                   (if pr_active (a_producer a) then set_txn [] h else h))).
    { destruct (pr_active (a_producer a)); [by apply (rollback_inv base a wpc h PIdle false)|done]. }
    pose proof (flush_enter_inv base _ PIdle wpc _ ForClose H1 I I) as Hf. apply (inj Some) in E. unfold close_enter in E. rewrite E in Hf. by destruct pc.
Qed.

Lemma fill_preserves base a wpc h u m pc a' r :
  log_inv base (mk_system a (PFill u) wpc h) -> producer_step (joined wpc) (PRun m) (PFill u) a = Some (pc, a', r) ->
  log_inv base (mk_system a' pc wpc h).
Proof.
  intros H E. cbn [producer_step] in E. set (data := pr_pending (a_producer a)) in *.
  pose proof (fill_chunks_spec (length data) m data (a_shared a)) as Hf. destruct (fill_chunks (length data) m data (a_shared a)) as [[chunks sh] m'].
  destruct Hf as [Hq Hf]. destruct (li_producer _ _ H) as (Hu & Hk & Hne). cbn [s_aof s_producer s_history] in Hk, Hne.
  destruct chunks as [chunks|].
  - injection E as <- <- <-. destruct Hf as (F1 & F2 & F3). apply (inv_flags base a (PFill u) wpc h); try done.
    cbn [producer_inv a_producer with_shared]. split_and!; try done. by apply F3.
  - assert (H1 : log_inv base (mk_system (with_shared sh a) PIdle wpc h)) by (by apply (inv_flags base a (PFill u) wpc h)).
    pose proof (flushed_inv base _ PIdle wpc h u (-1) H1 I) as Hfl. apply (inj Some) in E. by rewrite E in Hfl.
Qed.

Lemma producer_preserves base a ppc wpc h ev pc a' r :
  log_inv base (mk_system a ppc wpc h) -> producer_step (joined wpc) ev ppc a = Some (pc, a', r) ->
  h_torn (record_step ev ppc a pc r h) = false -> h_count (record_step ev ppc a pc r h) < 2 ^ 64 ->
  log_inv base (mk_system a' pc wpc (record_step ev ppc a pc r h)).
Proof.
  intros H E Ht Hcnt.
  destruct ppc as [|u x y|t q|u|u l|u q|t q|t q|t q e|t| |r0|].
  - by apply call_preserves.
  - destruct ev as [| | | | | | | | |m| | |]; try done. pose proof (commit_step_preserves base a wpc h u x y m (PRun m) H) as Hc.
    apply (inj Some) in E. rewrite E in Hc. by apply Hc.
  - by apply (sync_preserves base a (PQueue t q) wpc h ev pc a' r).
  - destruct ev as [| | | | | | | | |m| | |]; try done. by apply (fill_preserves base a wpc h u m pc a' r).
  - destruct ev as [| | | | | | | | |m| | |]; try done. cbn [producer_step] in E.
    destruct (enqueue_locked l a) as [assigned a1] eqn:Ee. injection E as <- <- <-.
    cbn [record_step h_count add_count set_pend add_log] in *. pose proof (enqueue_inv base a wpc h u l H Hcnt) as He. rewrite Ee in He.
    destruct He as [He Hp]. destruct (li_producer _ _ H) as (Hu & Hk & _). cbn [s_aof s_producer s_history] in Hk.
    apply (inv_flags base _ PIdle wpc _ _ (PWait u assigned) He); try done. by destruct u.
  - by apply (sync_preserves base a (PWait u q) wpc h ev pc a' r).
  - by apply (sync_preserves base a (PSyncEnter t q) wpc h ev pc a' r).
  - by apply (sync_preserves base a (PSyncDevice t q) wpc h ev pc a' r).
  - by apply (sync_preserves base a (PSyncLeave t q e) wpc h ev pc a' r).
  - by apply (sync_preserves base a (PStat t) wpc h ev pc a' r).
  - destruct ev as [| | | | | | | | |m| | |]; try done. cbn [producer_step] in E. unfold pause_wait in E. destruct (_ && _); [done|].
    destruct (negb _); injection E as <- <- <-; by apply (inv_flags base a PPause wpc h).
  - destruct ev as [| | | | | | | | |m| | |]; try done. cbn [producer_step] in E. destruct (joined wpc); [|done].
    injection E as <- <- <-. by apply (inv_flags base a (PJoin r0) wpc h).
  - done.
Qed.

(** ** Every reachable state *)

Lemma history_grows ev ppc a pc r h :
  h_count h <= h_count (record_step ev ppc a pc r h) /\ (h_torn (record_step ev ppc a pc r h) = false -> h_torn h = false).
Proof.
  unfold record_step. destruct ppc, ev; try (split; [cbn; lia|done]);
    repeat case_match; cbn; (split; [lia|]); try done; by intros [? _]%orb_false_iff.
Qed.

Lemma opened_inv policy cmds : Forall command_ok cmds -> log_inv (log_bytes cmds) (opened policy cmds).
Proof.
  intros Hok. assert (Hs : stream [(0, cmds)] = log_bytes cmds) by (unfold stream, all_commands; cbn; by rewrite app_nil_r).
  assert (He : log_end [(0, cmds)] 0 = zlen (log_bytes cmds)) by (rewrite log_end_all, Hs; [done|by constructor]).
  split; cbn [opened s_aof s_producer s_writer s_history h_log h_txn h_pend h_count bound]; try done.
  - split; cbn; try done; by rewrite ?app_nil_r.
  - split; cbn; try done; rewrite ?He; try done; try (split; [lia|done]).
    + repeat constructor.
    + constructor; [cbn; lia|constructor].
    + intros l1 k l2 E. by destruct l1.
    + pose proof (zlen_nonneg (log_bytes cmds)). lia.
  - split; cbn; try done. unfold all_commands. cbn. by rewrite app_nil_r.
Qed.

(** As long as fewer than 2^64 numbers were assigned and no commit was cut
    short by a failed allocation, the invariant holds. *)
Lemma reach_inv policy cmds s :
  Forall command_ok cmds -> reach policy cmds s -> h_torn (s_history s) = false -> h_count (s_history s) < 2 ^ 64 ->
  exists base, log_inv base s.
Proof.
  intros Hok Hr. induction Hr as [|s s' Hr IH Hstep]; intros Ht Hc; [eexists; by apply opened_inv|].
  destruct Hstep as [ev pc a r E|ev pc a E]; cbn [s_history] in *.
  - destruct (history_grows ev (s_producer s) (s_aof s) pc r (s_history s)) as [Hg1 Hg2].
    destruct IH as [base Hb]; [by apply Hg2|lia|]. exists base. apply producer_preserves; try done. by destruct s.
  - destruct (IH Ht Hc) as [base Hb]. destruct s as [a0 ppc wpc h]. by apply (writer_preserves base a0 ppc wpc h ev).
Qed.
