(* ===== verification/AofProps.v ===== *)
(** Properties of the append-only log: what a crash leaves recovers to a prefix
    of the committed commands with everything that was acknowledged, a
    checkpoint marks its place in the log, the queue stays between its water
    marks, a pause stops the writer, and a commit that fails half-way corrupts
    the log. *)

From S2P Require Import Prelude Resp ZOrder Rdb RdbImage Aof AofCodec AofLog.

(** ** Cutting a log *)

Lemma sample_command_ok : command_ok [[80]].
Proof. split; [split; vm_compute; discriminate|vm_compute; discriminate]. Qed.

Lemma torn_nil : torn [].
Proof. exists [[80]], (request_frame [[80]]). split; [apply sample_command_ok|]. split; [done|]. vm_compute. discriminate. Qed.

(** A prefix of a log is whole records and a torn one, and contains every
    record that ends in it. *)
Lemma cut_log cmds n :
  Forall command_ok cmds -> 0 <= n <= zlen (log_bytes cmds) ->
  exists c1 tail, c1 `prefix_of` cmds /\ take (Z.to_nat n) (log_bytes cmds) = log_bytes c1 ++ tail /\ torn tail /\
    forall p, p `prefix_of` cmds -> zlen (log_bytes p) <= n -> p `prefix_of` c1.
Proof.
  revert n. induction cmds as [|c cmds IH]; intros n Hok Hn.
  - exists [], []. change (log_bytes []) with (@nil Z). rewrite take_nil. split_and!; [done|done|apply torn_nil|]. by intros p Hp _.
  - apply Forall_cons in Hok as [Hc Hok]. rewrite log_bytes_cons, zlen_app in Hn. pose proof (frame_positive c).
    rewrite log_bytes_cons. destruct (Z.lt_decidable n (zlen (request_frame c))) as [Hlt|Hge].
    + exists [], (take (Z.to_nat n) (request_frame c)). rewrite (take_grow n (request_frame c)) by lia. split_and!; [apply prefix_nil|done| |].
      * exists c, (drop (Z.to_nat n) (request_frame c)). split; [done|]. split; [by rewrite take_drop|].
        intros E. apply (f_equal zlen) in E. rewrite zlen_drop_z, zlen_nil in E by lia. lia.
      * intros p [x Hx] Hp. destruct p as [|d p]; [done|]. injection Hx as <- _. rewrite log_bytes_cons, zlen_app in Hp.
        pose proof (zlen_nonneg (log_bytes p)). lia.
    + destruct (IH (n - zlen (request_frame c)) Hok ltac:(lia)) as (c1 & tail & H1 & H2 & H3 & H4). exists (c :: c1), tail.
      split_and!; [by apply prefix_cons| |done|].
      * rewrite take_app_ge by (unfold zlen in *; lia). rewrite log_bytes_cons, <- app_assoc. f_equal. rewrite <- H2. f_equal. unfold zlen in *. lia.
      * intros p Hp Hz. destruct p as [|d p]; [apply prefix_nil|]. destruct Hp as [x Hx]. injection Hx as -> Hx.
        apply prefix_cons, H4; [by exists x|]. rewrite log_bytes_cons, zlen_app in Hz. lia.
Qed.

(** The callback that keeps what it is given. *)
Definition collect (seen : list command) (args : command) : Z * list command := (0, seen ++ [args]).

Lemma run_collect seen cmds : run_commands collect seen cmds = Some (seen ++ cmds).
Proof.
  revert seen. induction cmds as [|c cmds IH]; intros seen; cbn; [by rewrite app_nil_r|]. rewrite IH. by rewrite <- app_assoc.
Qed.

Lemma prefix_length {A} (a b l : list A) : a `prefix_of` l -> b `prefix_of` l -> zlen a <= zlen b -> a `prefix_of` b.
Proof.
  intros Ha Hb Hl. destruct (prefix_weak_total a b l Ha Hb) as [H|[x ->]]; [done|].
  rewrite zlen_app in Hl. destruct x as [|y x]; [by rewrite app_nil_r|]. rewrite zlen_cons in Hl. pose proof (zlen_nonneg x). lia.
Qed.

Lemma prefix_app_cases {A} (p l k : list A) :
  p `prefix_of` l ++ k -> p `prefix_of` l \/ exists q, p = l ++ q /\ q `prefix_of` k.
Proof.
  intros Hp. destruct (prefix_weak_total p l (l ++ k) Hp ltac:(by exists k)) as [H|[q ->]]; [by left|right].
  exists q. split; [done|]. by apply prefix_app_inv in Hp.
Qed.

Lemma upto_prefix_of log n : numbered log -> upto n log `prefix_of` all_commands log.
Proof. intros Hn. destruct (upto_prefix log n Hn) as (rest & -> & _). by eexists. Qed.

Lemma upto_mono log m n : numbered log -> m <= n -> upto m log `prefix_of` upto n log.
Proof.
  intros Hn Hmn. unfold numbered in Hn. induction log as [|[q l] log IH]; [done|]. cbn [fmap list_fmap fst] in Hn.
  apply StronglySorted_inv in Hn as [Hs Hq]. specialize (IH Hs). unfold upto in *. cbn [List.filter fst].
  destruct (Z.leb_spec q m), (Z.leb_spec q n); try lia; cbn [fmap list_fmap snd concat].
  - by apply prefix_app.
  - assert (List.filter (fun x : Z * list command => x.1 <=? m) log = []) as ->; [|apply prefix_nil].
    clear -Hq H. induction log as [|x log IH]; [done|]. apply Forall_cons in Hq as [Hx Hq]. cbn [List.filter].
    destruct (Z.leb_spec x.1 m); [lia|]. by apply IH.
  - done.
Qed.

(** ** Recovery *)

Lemma file_prefix base s : log_inv base s -> d_file (a_disk (s_aof s)) `prefix_of` stream (h_log (s_history s)).
Proof.
  intros H. destruct (li_bytes _ _ H) as [B1 B2 _ _]. rewrite B1, <- B2, unwritten_app, <- app_assoc.
  apply prefix_app. set (u := unwritten _). exists (drop (Z.to_nat (inflight (s_writer s))) u ++
    unwritten (held (pr_chunk (a_producer (s_aof s)))) ++ uncopied (s_producer s) (a_producer (s_aof s))).
  by rewrite (app_assoc (take _ u)), take_drop.
Qed.

(** What a crash leaves of the file. *)
Lemma crash_cut base s n :
  log_inv base s -> 0 <= n <= zlen (d_file (a_disk (s_aof s))) ->
  exists recovered tail,
    take (Z.to_nat n) (d_file (a_disk (s_aof s))) = log_bytes recovered ++ tail /\ torn tail /\ Forall command_ok recovered /\
    recovered `prefix_of` all_commands (h_log (s_history s)) /\
    forall q, log_end (h_log (s_history s)) q <= n -> upto q (h_log (s_history s)) `prefix_of` recovered.
Proof.
  intros H Hn. pose proof (li_numbers _ _ H) as Hnum. destruct (li_buffers _ _ H) as [_ _ _ _ U5].
  destruct (file_prefix base s H) as [rest Hf]. set (file := d_file (a_disk (s_aof s))) in *. set (log := h_log (s_history s)) in *.
  assert (Hlen : 0 <= n <= zlen (log_bytes (all_commands log))) by (fold (stream log); rewrite Hf, zlen_app; pose proof (zlen_nonneg rest); lia).
  destruct (cut_log (all_commands log) n U5 Hlen) as (c1 & tail & H1 & H2 & H3 & H4). exists c1, tail. split_and!; [|done| |done|].
  - rewrite <- H2. fold (stream log). by rewrite Hf, take_grow.
  - destruct H1 as [x Hx]. rewrite Hx in U5. by apply Forall_app in U5 as [? _].
  - intros q Hq. apply H4; [|done]. apply upto_prefix_of. apply Hnum.
Qed.

(** A number that is ready is recovered. *)
Lemma ready_recovered base s n q recovered :
  log_inv base s -> d_durable (a_disk (s_aof s)) <= n <= zlen (d_file (a_disk (s_aof s))) ->
  (forall q, log_end (h_log (s_history s)) q <= n -> upto q (h_log (s_history s)) `prefix_of` recovered) ->
  aof_sequence_ready (s_aof s) q = true ->
  (a_policy (s_aof s) = AOF_FSYNC_ALWAYS \/ n = zlen (d_file (a_disk (s_aof s)))) ->
  upto q (h_log (s_history s)) `prefix_of` recovered.
Proof.
  intros H Hn Hq Hready Hpol. destruct (li_numbers _ _ H) as [N1 N2 N3 N4 [N5 N5'] [N6 N6'] N7 N8].
  pose proof (base_le_file _ _ _ _ _ (li_bytes _ _ H)) as Hbf. unfold aof_sequence_ready in Hready.
  assert (Hqw : q <= sq_written (a_seqs (s_aof s))).
  { destruct (Z.eqb_spec q 0); [lia|]. rewrite Z.geb_leb in Hready. by apply Z.leb_le in Hready. }
  etrans; [by apply (upto_mono _ q (sq_written (a_seqs (s_aof s))))|]. apply Hq. destruct Hpol as [Hal| ->]; [specialize (N8 Hal)|]; lia.
Qed.

(** C16. Crash recovery of the log.  Whatever the two threads did, when a crash
    leaves the file with any length between what the device holds and what was
    written, replaying it succeeds, cuts the file to whole records and yields a
    prefix of the committed commands in the order of their commits, with all
    transactions up to the synced number.  A number that
    [aof_sequence_ready] reports is recovered from the written file, and under
    the policy [AOF_FSYNC_ALWAYS] from every such file.  This supposes fewer
    than 2^64 transactions and that no commit was cut short by a failed
    allocation. *)
Theorem aof_crash_recovery policy cmds s n :
  Forall command_ok cmds -> reach policy cmds s -> h_torn (s_history s) = false -> h_count (s_history s) < 2 ^ 64 ->
  d_durable (a_disk (s_aof s)) <= n <= zlen (d_file (a_disk (s_aof s))) ->
  exists recovered stats,
    aof_replay replay_ok (take (Z.to_nat n) (d_file (a_disk (s_aof s)))) collect [] = (0, log_bytes recovered, recovered, stats) /\
    recovered `prefix_of` all_commands (h_log (s_history s)) /\
    upto (sq_synced (a_seqs (s_aof s))) (h_log (s_history s)) `prefix_of` recovered /\
    forall q, aof_sequence_ready (s_aof s) q = true ->
      (a_policy (s_aof s) = AOF_FSYNC_ALWAYS \/ n = zlen (d_file (a_disk (s_aof s)))) ->
      upto q (h_log (s_history s)) `prefix_of` recovered.
Proof.
  intros Hok Hr Ht Hc Hn. destruct (reach_inv policy cmds s Hok Hr Ht Hc) as [base H].
  destruct (li_numbers _ _ H) as [N1 N2 N3 N4 [N5 N5'] [N6 N6'] N7 N8]. pose proof (base_le_file _ _ _ _ _ (li_bytes _ _ H)) as Hbf.
  destruct (crash_cut base s n H ltac:(lia)) as (rec & tail & -> & Htorn & Hrec & Hp & Hq). exists rec. eexists. split; [|split; [done|]].
  - pose proof (replay_spec collect [] rec tail [] rec Hrec Htorn (run_collect [] rec)) as Hr'. rewrite zlen_nil in Hr'. exact Hr'.
  - split; [apply Hq; lia|]. intros q Hready Hpol. by eapply ready_recovered.
Qed.

(** *** Running the system *)

Definition run_event (e : producer_event + writer_event) (s : system) : option system :=
  match e with
  | inl ev =>
      match producer_step (joined (s_writer s)) ev (s_producer s) (s_aof s) with
      | Some (pc, a, r) => Some (mk_system a pc (s_writer s) (record_step ev (s_producer s) (s_aof s) pc r (s_history s)))
      | None => None
      end
  | inr ev =>
      match writer_step ev (s_writer s) (s_aof s) with
      | Some (pc, a) => Some (mk_system a (s_producer s) pc (s_history s))
      | None => None
      end
  end.

Fixpoint run_events (l : list (producer_event + writer_event)) (s : system) : option system :=
  match l with
  | [] => Some s
  | e :: l => run_event e s ≫= run_events l
  end.

Lemma run_reach policy cmds l s s' : reach policy cmds s -> run_events l s = Some s' -> reach policy cmds s'.
Proof.
  revert s. induction l as [|e l IH]; intros s Hr E; cbn [run_events] in E; [by injection E as <-|].
  apply bind_Some in E as (s1 & E1 & E). apply (IH s1); [|done]. apply (reach_step _ _ s); [done|].
  unfold run_event in E1. destruct e as [ev|ev].
  - destruct (producer_step _ ev _ _) as [[[pc a] r]|] eqn:Ep; [|done]. injection E1 as <-. by eapply step_producer.
  - destruct (writer_step ev _ _) as [[pc a]|] eqn:Ew; [|done]. injection E1 as <-. by eapply step_writer.
Qed.

(** Two commits; the first is written in two parts and synced, the second is
    written half. *)
Definition sample_events : list (producer_event + writer_event) :=
  [inl CallBegin; inl (CallAppend [] [Some (lit "DEL"); Some [97]]); inl CallCommit; inl (PRun []); inl (PRun []);
   inl (PRun []); inl CallFlush; inr WRun; inr (WWritten 5); inr WRun; inr WRun; inr WRun; inr (WWritten 15);
   inl CallBegin; inl (CallAppend [] [Some (lit "DEL"); Some [98]]); inr WRun; inr WRun; inr (WSynced (1, 999999000) (Some (2, 2000))); inr WRun; inr WRun;
   inl CallCommit; inl (PRun []); inl (PRun []); inl (PRun []); inl CallFlush; inr WRun; inr WRun; inr (WWritten 7)].

Definition sample_system : system := default (opened AOF_FSYNC_ALWAYS []) (run_events sample_events (opened AOF_FSYNC_ALWAYS [])).

Lemma sample_reach : reach AOF_FSYNC_ALWAYS [] sample_system.
Proof. apply (run_reach _ _ sample_events (opened AOF_FSYNC_ALWAYS [])); [apply reach_open|]. vm_compute. reflexivity. Qed.

Lemma aof_crash_recovery_witness :
  exists recovered stats,
    aof_replay replay_ok (take 23 (d_file (a_disk (s_aof sample_system)))) collect [] = (0, log_bytes recovered, recovered, stats) /\
    [[lit "DEL"; [97]]] `prefix_of` recovered.
Proof.
  destruct (aof_crash_recovery AOF_FSYNC_ALWAYS [] sample_system 23) as (rec & stats & H1 & _ & H2 & _);
    [constructor|exact sample_reach|vm_compute; reflexivity|vm_compute; reflexivity|vm_compute; split; discriminate|].
  exists rec, stats. split; [exact H1|]. vm_compute in H2. vm_compute. exact H2.
Defined.

(** ** Checkpoints *)

(** A token is sixteen bytes wherever it is. *)
Definition token_ok (pc : producer_pc) : Prop :=
  match pc with
  | PCommit (ForCheckpoint t) _ _ | PQueue t _ | PWait (ForToken t) _ | PSyncEnter t _ | PSyncDevice t _
  | PSyncLeave t _ _ | PStat t => zlen t = RDB_CHECKPOINT_TOKEN_SIZE
  | PFill use | PEnqueue use _ => direct use
  | _ => True
  end.

Lemma fill_random_length io n token : 0 <= n -> fill_random_token io n = Some token -> zlen token = n.
Proof.
  revert n token. induction io as [|[l| |] io IH]; intros n token Hn; cbn [fill_random_token]; destruct (Z.leb_spec n 0); try done;
    try (intros [= <-]; rewrite zlen_nil; lia).
  - destruct (Z.ltb_spec 0 (zlen l)), (Z.leb_spec (zlen l) n); cbn [andb]; try done. intros (t & Ht & ->)%fmap_Some.
    apply IH in Ht; [|lia]. rewrite zlen_app. lia.
  - by apply IH.
Qed.

Lemma flushed_token use r a : direct use -> token_ok (flushed use r a).1.1.
Proof. by destruct use. Qed.

Lemma flush_enter_token use a : direct use -> token_ok (flush_enter use a).1.1.
Proof.
  intros H. unfold flush_enter. destruct (pr_active _); [by apply flushed_token|]. by destruct (_ =? 0); [apply flushed_token|].
Qed.

Lemma checkpoint_enter_token m io a : token_ok (checkpoint_enter m io a).1.1.
Proof.
  unfold checkpoint_enter. destruct (fill_random_token io RDB_CHECKPOINT_TOKEN_SIZE) as [t|] eqn:E; [|done].
  apply fill_random_length in E; [|vm_compute; discriminate]. destruct (aof_transaction_begin a) as [r a1]. destruct (negb (r =? 0)); [done|].
  destruct (aof_append m a1 _) as [[r2 a2] m2]. destruct (negb (r2 =? 0)); [done|]. unfold commit_enter.
  destruct (negb _); [done|]. destruct (_ >? 0); [|done]. by destruct (assign_sequence a2).
Qed.

Lemma producer_token j ev ppc a pc a' r : token_ok ppc -> producer_step j ev ppc a = Some (pc, a', r) -> token_ok pc.
Proof.
  intros Hok E. destruct ppc as [|u x y|t q|u|u l|u q|t q|t q|t q e|t| |r0|]; cbn [producer_step token_ok] in *.
  - destruct ev; cbn [producer_call] in E; try done; try (repeat case_match; by simplify_eq).
    + injection E as E. unfold commit_enter in E. repeat case_match; by simplify_eq.
    + apply (inj Some) in E. pose proof (flush_enter_token ForFlush a I) as H. by rewrite E in H.
    + apply (inj Some) in E. pose proof (checkpoint_enter_token m io a) as H. by rewrite E in H.
    + injection E as E. unfold pause_enter in E. repeat case_match; by simplify_eq.
    + apply (inj Some) in E. unfold close_enter in E. pose proof (flush_enter_token ForClose (if pr_active (a_producer a) then aof_transaction_rollback a else a) I) as H.
      by rewrite E in H.
  - destruct ev; try done. injection E as E. unfold commit_step in E. repeat case_match; by simplify_eq.
  - destruct ev; try done. by injection E as <- <- <-.
  - destruct ev; try done. destruct (fill_chunks _ _ _ _) as [[[c|] sh] m']; [by injection E as <- <- <-|].
    apply (inj Some) in E. pose proof (flushed_token u (-1) (with_shared sh a) Hok) as H. by rewrite E in H.
  - destruct ev; try done. destruct (enqueue_locked l a). injection E as <- <- <-. by destruct u.
  - destruct ev; try done. unfold wait_step in E. destruct (_ && _); [done|].
    destruct u as [| |t]; [by injection E as <- <- <-..|]. destruct (_ =? 0); by injection E as <- <- <-.
  - destruct ev; try done. repeat case_match; by simplify_eq.
  - destruct ev; try done; by injection E as <- <- <-.
  - destruct ev; try done; by injection E as <- <- <-.
  - destruct ev; try done; by injection E as <- <- <-.
  - destruct ev; try done. unfold pause_wait in E. repeat case_match; by simplify_eq.
  - destruct ev; try done. repeat case_match; by simplify_eq.
  - done.
Qed.

Lemma reach_token policy cmds s : reach policy cmds s -> token_ok (s_producer s).
Proof.
  induction 1 as [|s s' Hr IH Hs]; [done|]. destruct Hs as [ev pc a r E|ev pc a E]; [|done]. by apply (producer_token _ _ _ _ _ _ _ IH E).
Qed.

(** A read that makes progress or is interrupted. *)
Definition progress (r : read_outcome) : Prop :=
  match r with ReadUpTo n => 0 < n | ReadInterrupted => True | ReadError => False end.

Lemma pread_all_spec io file off len :
  Forall progress io -> 0 <= off -> 0 <= len -> off + len <= zlen file ->
  pread_all io file off len = Some (sub_bytes file off len).
Proof.
  revert off len. induction io as [|r io IH]; intros off len Hio Ho Hl Hs; cbn [pread_all];
    (destruct (Z.leb_spec len 0); [assert (len = 0) as -> by lia; by rewrite sub_bytes_0|]); fold (sub_bytes file off len);
    pose proof (zlen_sub_bytes file off len Ho Hl Hs) as Hz.
  - by rewrite Hz, Z.eqb_refl.
  - apply Forall_cons in Hio as [Hr Hio]. destruct r as [n| |]; [|by apply IH|done]. cbn in Hr.
    set (got := take (Z.to_nat n) (sub_bytes file off len)). assert (Hg : zlen got = Z.min n len).
    { unfold got, zlen in *. rewrite length_take. lia. }
    destruct (Z.eqb_spec (zlen got) 0); [lia|]. rewrite IH by (done || lia). cbn [fmap option_fmap option_map]. f_equal.
    unfold got, sub_bytes in *. rewrite Hg. set (l := drop (Z.to_nat off) file).
    replace (Z.to_nat (off + Z.min n len)) with (Z.to_nat off + Z.to_nat (Z.min n len))%nat by lia. rewrite <- drop_drop. fold l.
    rewrite take_take. replace (Z.to_nat n `min` Z.to_nat len)%nat with (Z.to_nat (Z.min n len)) by lia.
    rewrite take_take_drop. f_equal. lia.
Qed.

Lemma zlen_token_text token : zlen (checkpoint_token_text token) = 2 * zlen token.
Proof.
  unfold checkpoint_token_text. induction token as [|b token IH]; [done|].
  rewrite bind_cons, zlen_app, IH, !zlen_cons, zlen_nil. lia.
Qed.

Lemma zlen_marker token : zlen token = 16 -> zlen (request_frame (marker token)) = 53.
Proof.
  intros Ht. rewrite zlen_request_frame. cbn [marker map concat]. rewrite app_nil_r, zlen_app, !zlen_bulk_frame, zlen_token_text, Ht.
  vm_compute. reflexivity.
Qed.

Lemma marker_ok token : zlen token = 16 -> command_ok (marker token).
Proof. intros Ht. split; [split; vm_compute; discriminate|]. rewrite zlen_marker by done. vm_compute. discriminate. Qed.

Lemma checkpoint_record_spec cp :
  zlen (token cp) = 16 -> checkpoint_record cp 128 = Some (request_frame (marker (token cp)), 53).
Proof.
  intros Ht. unfold checkpoint_record. change (checkpoint_arguments (token cp)) with (Some <$> marker (token cp)).
  rewrite encoded_size_ok by (by apply marker_ok). cbn [mbind option_bind]. rewrite zlen_marker by done. cbn [Z.gtb Z.compare Pos.compare Pos.compare_cont].
  pose proof (encode_record_frame 128 (marker (token cp))) as He. rewrite zlen_marker in He by done. by rewrite He.
Qed.

(** A checkpoint is valid exactly where its marker ends. *)
Lemma checkpoint_valid_spec io file cp :
  Forall progress io -> zlen (token cp) = 16 -> cp_valid cp = true -> 0 <= aof_offset cp <= zlen file ->
  aof_validate_checkpoint io file cp = 0 <->
  53 <= aof_offset cp /\ sub_bytes file (aof_offset cp - 53) 53 = request_frame (marker (token cp)).
Proof.
  intros Hio Ht Hv Ho. unfold aof_validate_checkpoint. rewrite Hv, checkpoint_record_spec by done. cbn [negb].
  destruct (Z.ltb_spec (aof_offset cp) 53); [split; [done|lia]|]. rewrite pread_all_spec by (done || lia).
  destruct (decide (sub_bytes file (aof_offset cp - 53) 53 = request_frame (marker (token cp)))).
  - rewrite bool_decide_true by done. split; [by split; [lia|]|done].
  - rewrite bool_decide_false by done. split; [done|naive_solver].
Qed.

(** When the producer measures the file, everything is in it. *)
Lemma stat_file base s token :
  log_inv base s -> s_producer s = PStat token ->
  d_file (a_disk (s_aof s)) = stream (h_log (s_history s)) /\ exists g q, h_log (s_history s) = g ++ [(q, [marker token])].
Proof.
  intros H Hpc. pose proof (li_producer _ _ H) as Hp. pose proof (file_prefix base s H) as Hf. rewrite Hpc in Hp. destruct Hp as (Hk & q & [g Hg] & Hq).
  destruct (li_numbers _ _ H) as [N1 N2 N3 N4 [N5 N5'] _ _ _]. pose proof (base_le_file _ _ _ _ _ (li_bytes _ _ H)) as Hb.
  assert (Hall : Forall (fun x => x.1 <= sq_written (a_seqs (s_aof s))) (h_log (s_history s))).
  { rewrite Hg in *. apply Forall_forall. intros x Hx. apply elem_of_app in Hx as [Hx|Hx]; [|apply list_elem_of_singleton in Hx as ->; done].
    unfold numbered in N2. rewrite fmap_app in N2. apply StronglySorted_app_iff in N2 as (_ & _ & N2).
    specialize (N2 x.1 q). assert (x.1 < q); [|lia]. apply N2; [apply list_elem_of_fmap; by exists x|cbn; apply elem_of_cons; by left]. }
  rewrite log_end_all in N5' by done. split; [|by exists g, q].
  destruct Hf as [r Hf]. rewrite Hf, zlen_app in N5'. destruct r as [|y r]; [by rewrite app_nil_r in Hf|].
  rewrite zlen_cons in N5'. pose proof (zlen_nonneg r). lia.
Qed.

(** Which step of the producer returns a checkpoint. *)
Lemma checkpointed_at j ev ppc a pc a' cp :
  producer_step j ev ppc a = Some (pc, a', Checkpointed cp) ->
  exists t, ppc = PStat t /\ a' = a /\ cp = mk_checkpoint (zlen (d_file (a_disk a))) t true.
Proof.
  assert (Hfl : forall use r b x y, flushed use r b <> (x, y, Checkpointed cp)) by (by intros []).
  assert (Hfe : forall use b x y, flush_enter use b <> (x, y, Checkpointed cp)).
  { intros use b x y. unfold flush_enter. destruct (pr_active _); [apply Hfl|]. destruct (_ =? 0); [apply Hfl|done]. }
  assert (Hce : forall use b x y, commit_enter use b <> (x, y, Checkpointed cp)).
  { intros use b x y. unfold commit_enter. destruct (negb _); [done|]. destruct (_ >? 0); [|done]. by destruct (assign_sequence b). }
  destruct ppc as [|u x y|t q|u|u l|u q|t q|t q|t q e|t| |r0|]; cbn [producer_step]; destruct ev; try done; cbn [producer_call]; intros E.
  all: try (unfold wait_step, pause_wait in E; repeat case_match; by simplify_eq).
  - by apply (inj Some), Hce in E.
  - by apply (inj Some), Hfe in E.
  - apply (inj Some) in E. unfold checkpoint_enter in E. repeat case_match; simplify_eq. by apply Hce in E.
  - apply (inj Some) in E. unfold pause_enter in E. repeat case_match; simplify_eq.
  - apply (inj Some) in E. unfold close_enter in E. by apply Hfe in E.
  - apply (inj Some) in E. unfold commit_step in E. repeat case_match; simplify_eq.
  - destruct (fill_chunks _ _ _ _) as [[[c|] sh] m']; [done|]. by apply (inj Some), Hfl in E.
  - injection E as <- <- <-. by exists t.
Qed.

(** C26. A checkpoint marks its place: when [aof_create_checkpoint] succeeds the
    file holds exactly the committed commands, and with anything logged
    afterwards the checkpoint validates, whatever parts [pread] returns, and
    replay from it yields exactly what was logged after it.  This supposes fewer
    than 2^64 transactions and that no commit was cut short by a failed
    allocation. *)
Theorem aof_checkpoint_correct policy cmds s ev pc a cp later io :
  Forall command_ok cmds -> reach policy cmds s -> h_torn (s_history s) = false -> h_count (s_history s) < 2 ^ 64 ->
  producer_step (joined (s_writer s)) ev (s_producer s) (s_aof s) = Some (pc, a, Checkpointed cp) ->
  Forall command_ok later -> Forall progress io ->
  let file := d_file (a_disk a) ++ log_bytes later in
  d_file (a_disk a) = log_bytes (all_commands (h_log (s_history s))) /\
  aof_validate_checkpoint io file cp = 0 /\
  aof_replay_from replay_ok file (aof_offset cp) collect [] = (0, file, later, mk_replay_stats (zlen later) false).
Proof.
  intros Hok Hr Ht Hc E Hl Hio. apply checkpointed_at in E as (t & Hpc & -> & ->). cbn [aof_offset token].
  destruct (reach_inv policy cmds s Hok Hr Ht Hc) as [base H]. pose proof (reach_token _ _ _ Hr) as Htok. rewrite Hpc in Htok.
  destruct (stat_file base s t H Hpc) as [Hf (g & q & Hg)]. set (f := d_file (a_disk (s_aof s))) in *. cbn zeta.
  pose proof (zlen_nonneg (log_bytes later)). split; [done|]. split.
  - assert (Hsplit : f = stream g ++ request_frame (marker t)).
    { rewrite Hf, Hg, stream_snoc, log_bytes_cons. change (log_bytes []) with (@nil Z). by rewrite app_nil_r. }
    pose proof (zlen_marker t Htok) as Hm. pose proof (zlen_nonneg (stream g)).
    apply checkpoint_valid_spec; try done; cbn [aof_offset token].
    + rewrite zlen_app. pose proof (zlen_nonneg f). lia.
    + rewrite Hsplit, zlen_app, Hm. split; [lia|]. replace (zlen (stream g) + 53 - 53) with (zlen (stream g)) by lia.
      rewrite <- app_assoc, sub_bytes_app_r, take_app_le by (unfold zlen in *; lia). apply take_ge. unfold zlen in *. lia.
  - pose proof (replay_spec collect f later [] [] later Hl torn_nil (run_collect [] later)) as Hrep.
    rewrite app_nil_r in Hrep. rewrite Hrep. rewrite bool_decide_false; [done|]. naive_solver.
Qed.

(** A checkpoint of a log with one command. *)
Definition checkpoint_events : list (producer_event + writer_event) :=
  [inl (CallCheckpoint [] [RandomBytes (replicate 16 171)]); inl (PRun []); inl (PRun []); inl (PRun []); inl (PRun []);
   inr WRun; inr (WWritten 53); inr WRun; inl (PRun []); inl (PRun []); inl (PSynced (1, 0) None); inl (PRun [])].

Definition checkpoint_system : system :=
  default (opened AOF_FSYNC_NO [[[80]]]) (run_events checkpoint_events (opened AOF_FSYNC_NO [[[80]]])).

Lemma checkpoint_reach : reach AOF_FSYNC_NO [[[80]]] checkpoint_system.
Proof. apply (run_reach _ _ checkpoint_events (opened AOF_FSYNC_NO [[[80]]])); [apply reach_open|]. vm_compute. reflexivity. Qed.

Lemma aof_checkpoint_correct_witness :
  exists cp, aof_validate_checkpoint [ReadUpTo 7; ReadInterrupted] (d_file (a_disk (s_aof checkpoint_system)) ++ log_bytes [[[80]]]) cp = 0 /\
    aof_offset cp = 64.
Proof.
  assert (exists cp, producer_step (joined (s_writer checkpoint_system)) (PRun []) (s_producer checkpoint_system) (s_aof checkpoint_system)
            = Some (PIdle, s_aof checkpoint_system, Checkpointed cp) /\ aof_offset cp = 64) as (cp & E & Eo).
  { eexists. split; vm_compute; reflexivity. }
  exists cp. split; [|exact Eo].
  apply (aof_checkpoint_correct AOF_FSYNC_NO [[[80]]] checkpoint_system (PRun []) PIdle (s_aof checkpoint_system) cp [[[80]]] [ReadUpTo 7; ReadInterrupted]);
    [constructor; [exact sample_command_ok|constructor]|exact checkpoint_reach|vm_compute; reflexivity|vm_compute; reflexivity|exact E
    |constructor; [exact sample_command_ok|constructor]|repeat constructor].
Defined.

(** ** Pausing the writer *)

(** A paused writer is at the top of its loop, and a pause is pending while
    the producer waits for it. *)
Definition pause_inv (s : system) : Prop :=
  (sh_paused (a_shared (s_aof s)) = true -> s_writer s = WTop) /\
  (s_producer s = PPause -> sh_pause_requested (a_shared (s_aof s)) = true /\ sh_stopping (a_shared (s_aof s)) = false).

(** The flags of the shared state. *)
Definition flags (sh : aof_shared) : bool * bool * bool := (sh_stopping sh, sh_pause_requested sh, sh_paused sh).

Lemma queue_all_flags ks sh : flags (fold_left (fun sh k => queue_chunk_locked k sh) ks sh) = flags sh.
Proof. revert sh. induction ks as [|k ks IH]; intros sh; [done|]. cbn [fold_left]. by rewrite IH. Qed.

Lemma acquire_flags m sh : flags (acquire_chunk m sh).1.2 = flags sh.
Proof. unfold acquire_chunk. destruct (_ >? 0); [done|]. by destruct (malloc m). Qed.

Lemma fill_flags fuel m data sh : flags (fill_chunks fuel m data sh).1.2 = flags sh.
Proof.
  revert m data sh. induction fuel as [|fuel IH]; intros m data sh; destruct data as [|b data]; cbn [fill_chunks]; try done.
  pose proof (acquire_flags m sh) as Ha. destruct (acquire_chunk m sh) as [[ok sh1] m1]. destruct (negb ok); [done|].
  specialize (IH m1 (drop (Z.to_nat AOF_CHUNK_CAPACITY) (b :: data)) sh1). destruct (fill_chunks fuel _ _ _) as [[c sh2] m2]. cbn in *. congruence.
Qed.

Lemma queue_producer_flags a : flags (a_shared (queue_producer_chunk a)) = flags (a_shared a).
Proof. unfold queue_producer_chunk. by destruct (pr_chunk _). Qed.

Lemma append_shared m a arguments : a_shared (aof_append m a arguments).1.2 = a_shared a.
Proof.
  pose proof (append_spec m a arguments) as H. destruct (aof_append m a arguments) as [[r a'] m']. by destruct H as ((_ & _ & ? & _) & _).
Qed.

(** Only the two calls for the fork, a failed pause and a close touch the
    flags from the producer's side. *)
Lemma producer_flags j ev ppc a pc a' r :
  producer_step j ev ppc a = Some (pc, a', r) ->
  sh_paused (a_shared a') = sh_paused (a_shared a) /\
  (pc = PPause -> ppc = PIdle /\ sh_pause_requested (a_shared a') = true /\ sh_stopping (a_shared a') = false).
Proof.
  assert (Hfl : forall use x b, sh_paused (a_shared (flushed use x b).1.2) = sh_paused (a_shared b) /\ (flushed use x b).1.1 <> PPause)
    by (by intros []).
  assert (Hfe : forall use b, sh_paused (a_shared (flush_enter use b).1.2) = sh_paused (a_shared b) /\ (flush_enter use b).1.1 <> PPause).
  { intros use b. unfold flush_enter. destruct (pr_active _); [apply Hfl|]. pose proof (queue_producer_flags b) as Hq. injection Hq as _ _ Hq.
    rewrite <- Hq. destruct (_ =? 0); [apply Hfl|done]. }
  assert (Hce : forall use b, a_shared (commit_enter use b).1.2 = a_shared b /\ (commit_enter use b).1.1 <> PPause).
  { intros use b. unfold commit_enter. destruct (negb _); [done|]. destruct (_ >? 0); done. }
  intros E. destruct ppc as [|u x y|t q|u|u l|u q|t q|t q|t q e|t| |r0|]; cbn [producer_step] in E; destruct ev; try done;
    cbn [producer_call] in E; try (injection E as <- <- <-; done).
  - pose proof (append_shared m a arguments) as Ha. destruct (aof_append m a arguments) as [[r1 a1] m1]. injection E as <- <- <-.
    cbn in Ha. by rewrite Ha.
  - unfold aof_transaction_begin in E. destruct (_ || _); by injection E as <- <- <-.
  - apply (inj Some) in E. destruct (Hce ForCommand a) as [H1 H2]. rewrite E in H1, H2. cbn in H1, H2. by rewrite H1.
  - apply (inj Some) in E. destruct (Hfe ForFlush a) as [H1 H2]. rewrite E in H1, H2. done.
  - apply (inj Some) in E. unfold checkpoint_enter in E. destruct (fill_random_token _ _) as [tok|]; [|by injection E as <- <- <-].
    unfold aof_transaction_begin in E. destruct (_ || _); [by injection E as <- <- <-|]. change (negb (0 =? 0)) with false in E. cbn iota in E.
    set (a1 := with_producer _ a) in *. pose proof (append_shared m a1 (checkpoint_arguments tok)) as Ha.
    destruct (aof_append m a1 _) as [[r2 a2] m2]. cbn in Ha. destruct (negb _).
    { injection E as <- <- <-. cbn. by rewrite Ha. }
    destruct (Hce (ForCheckpoint tok) a2) as [H1 H2]. rewrite E in H1, H2. cbn in H1, H2. by rewrite H1, Ha.
  - apply (inj Some) in E. unfold pause_enter in E. destruct (_ || _) eqn:Eo; injection E as <- <- <-; [done|].
    apply orb_false_iff in Eo as [Eo _]. by apply orb_false_iff in Eo as [_ Eo].
  - apply (inj Some) in E. unfold close_enter in E. destruct (Hfe ForClose (if pr_active (a_producer a) then aof_transaction_rollback a else a)) as [H1 H2].
    rewrite E in H1, H2. cbn in H1. split; [|done]. rewrite H1. by destruct (pr_active _).
  - apply (inj Some) in E. unfold commit_step in E. destruct (_ <? _).
    + destruct (pr_chunk _) eqn:Ek.
      * unfold commit_copy in E. destruct (_ =? AOF_CHUNK_CAPACITY); injection E as <- <- <-; done.
      * unfold commit_acquire in E. rewrite Ek in E. pose proof (acquire_flags m (a_shared a)) as Ha.
        destruct (acquire_chunk m (a_shared a)) as [[[] sh] m']; injection E as <- <- <-; injection Ha as _ _ Ha; done.
    + destruct u; injection E as <- <- <-; done.
  - injection E as <- <- <-. pose proof (queue_producer_flags a) as Hq. by injection Hq as _ _ Hq.
  - pose proof (fill_flags (length (pr_pending (a_producer a))) m (pr_pending (a_producer a)) (a_shared a)) as Hf.
    destruct (fill_chunks _ _ _ _) as [[[c|] sh] m']; injection Hf as _ _ Hf; [by injection E as <- <- <-|].
    apply (inj Some) in E. destruct (Hfl u (-1) (with_shared sh a)) as [H1 H2]. rewrite E in H1, H2. cbn in H1. by rewrite H1.
  - unfold enqueue_locked in E. injection E as <- <- <-. cbn. pose proof (queue_all_flags (mark_last (wrap64 (sq_next (a_seqs a) + 1)) l) (a_shared a)) as Hq.
    by injection Hq as _ _ Hq.
  - unfold wait_step in E. destruct (_ && _); [done|]. destruct u as [| |t].
    + apply (inj Some) in E. destruct (Hfl ForFlush (if sh_error (a_shared a) =? 0 then 0 else -1) a) as [H1 H2]. by rewrite E in H1, H2.
    + apply (inj Some) in E. destruct (Hfl ForClose (if sh_error (a_shared a) =? 0 then 0 else -1) a) as [H1 H2]. by rewrite E in H1, H2.
    + destruct (_ =? 0); by injection E as <- <- <-.
  - unfold sync_enter in E. destruct (a_sync_mutex a); [done|]. destruct (_ <=? _); by injection E as <- <- <-.
  - unfold pause_wait in E. destruct (_ && _); [done|]. destruct (negb _); by injection E as <- <- <-.
  - destruct j; [|done]. by injection E as <- <- <-.
Qed.

Lemma consume_flags n a pc a' : writer_consume n a = Some (pc, a') -> flags (a_shared a') = flags (a_shared a).
Proof.
  unfold writer_consume, consume_written. destruct (consume_loop _ _ _ _ _) as [[[[q c] r] d]|]; [|done]. intros E. injection E as _ <-.
  by destruct (_ && _).
Qed.

Lemma writer_flags ev wpc a pc a' :
  writer_step ev wpc a = Some (pc, a') -> (sh_paused (a_shared a) = true -> wpc = WTop) ->
  sh_pause_requested (a_shared a') = sh_pause_requested (a_shared a) /\ sh_stopping (a_shared a') = sh_stopping (a_shared a) /\
  (sh_paused (a_shared a') = true -> pc = WTop).
Proof.
  intros E Hp. assert (Hno : wpc <> WTop -> sh_paused (a_shared a) = true -> pc = WTop) by (intros H1 H2; by destruct (H1 (Hp H2))).
  clear Hp. destruct wpc as [|data|n|why t|why t|why t e|c| |e next| |]; cbn [writer_step] in E; try specialize (Hno ltac:(discriminate)).
  - injection E as E. unfold writer_top in E. destruct (_ && _) eqn:Ef.
    + injection E as <- <-. cbn. apply andb_true_iff in Ef as [-> _]. done.
    + destruct (sh_queue _), (sh_stopping _) eqn:Es; try (injection E as <- <-; cbn; by rewrite ?Es).
      cbn [a_policy with_shared] in E. destruct ev, (a_policy a); injection E as <- <-; cbn; by rewrite ?Es.
  - destruct ev; try done; try (injection E as <- <-; done). destruct (_ && _); [by injection E as <- <-|].
    destruct (_ =? 0); [by injection E as <- <-|done].
  - apply consume_flags in E. injection E as <- <- E. by rewrite E.
  - unfold sync_enter in E. destruct (a_sync_mutex a); [done|]. destruct (_ <=? _); by injection E as <- <-.
  - destruct ev; try done; by injection E as <- <-.
  - by injection E as <- <-.
  - injection E as <- <-. by destruct (_ >? _).
  - destruct ev; try (injection E as <- <-; done). destruct (a_policy a); by injection E as <- <-.
  - injection E as <- <-. unfold publish_error. cbn.
    by destruct (sh_error (a_shared a) =? 0).
  - by injection E as <- <-.
  - done.
Qed.

Lemma reach_pause policy cmds s : reach policy cmds s -> pause_inv s.
Proof.
  induction 1 as [|s s' Hr IH Hs]; [done|]. destruct IH as [I1 I2]. destruct Hs as [ev pc a r E|ev pc a E]; split; cbn [s_aof s_producer s_writer].
  - apply producer_flags in E as [-> _]. done.
  - apply producer_flags in E as [_ E]. intros Hpc. by apply E.
  - by apply (writer_flags _ _ _ _ _ E I1).
  - destruct (writer_flags _ _ _ _ _ E I1) as (-> & -> & _). exact I2.
Qed.

(** Steps of the writer alone. *)
Fixpoint writer_run (evs : list writer_event) (pc : writer_pc) (a : aof) : option (writer_pc * aof) :=
  match evs with
  | [] => Some (pc, a)
  | ev :: evs => match writer_step ev pc a with Some (pc, a) => writer_run evs pc a | None => None end
  end.

Lemma paused_run evs a :
  sh_pause_requested (a_shared a) = true -> sh_stopping (a_shared a) = false ->
  exists a', writer_run evs WTop a = Some (WTop, a') /\ a_disk a' = a_disk a /\ sh_queue (a_shared a') = sh_queue (a_shared a) /\
    a_seqs a' = a_seqs a /\ a_producer a' = a_producer a.
Proof.
  revert a. induction evs as [|ev evs IH]; intros a H1 H2; [by exists a|]. cbn [writer_run writer_step]. unfold writer_top. rewrite H1, H2. cbn [andb negb].
  destruct (IH (with_shared (with_flags false true true (a_shared a)) a)) as (a' & E & R1 & R2 & R3 & R4); [done|done|]. by exists a'.
Qed.

(** Once [aof_pause_for_fork] has succeeded the writer is parked at the top
    of its loop with no write in progress, and until the pause is lifted
    whatever it does leaves the file, the queue and the sequence numbers
    alone: a process forked in between copies a log at rest. *)
Theorem aof_pause_quiesces policy cmds s m a evs :
  reach policy cmds s -> s_producer s = PPause ->
  producer_step (joined (s_writer s)) (PRun m) PPause (s_aof s) = Some (PIdle, a, Returned 0) ->
  s_writer s = WTop /\ sh_error (a_shared a) = 0 /\
  exists a', writer_run evs WTop a = Some (WTop, a') /\ a_disk a' = a_disk a /\ sh_queue (a_shared a') = sh_queue (a_shared a) /\
    a_seqs a' = a_seqs a /\ a_producer a' = a_producer a.
Proof.
  intros Hr Hpc E. destruct (reach_pause _ _ _ Hr) as [I1 I2]. destruct (I2 Hpc) as [I3 I4]. cbn [producer_step] in E. unfold pause_wait in E.
  destruct (negb (sh_paused (a_shared (s_aof s))) && (sh_error (a_shared (s_aof s)) =? 0)) eqn:Ew; [done|].
  destruct (Z.eqb_spec (sh_error (a_shared (s_aof s))) 0) as [He|]; [|done]. injection E as <-. rewrite andb_true_r in Ew.
  apply negb_false_iff in Ew. split; [by apply I1|]. split; [done|]. by apply paused_run.
Qed.

Definition pause_events : list (producer_event + writer_event) :=
  [inl CallBegin; inl (CallAppend [] [Some (lit "DEL"); Some [97]]); inl CallCommit; inl (PRun []); inl (PRun []); inl (PRun []);
   inl CallFlush; inr WRun; inl CallPause; inr (WWritten 5); inr WRun; inr WRun; inr WRun].

Definition pause_system : system := default (opened AOF_FSYNC_NO []) (run_events pause_events (opened AOF_FSYNC_NO [])).

Lemma pause_reach : reach AOF_FSYNC_NO [] pause_system.
Proof. apply (run_reach _ _ pause_events (opened AOF_FSYNC_NO [])); [apply reach_open|]. vm_compute. reflexivity. Qed.

(** ** A commit that fails half-way *)

(** C33. A commit that finds no memory for its second chunk reports failure, but
    the part of the transaction that fitted the first chunk stays in the queue and
    will be written: the log goes on with the next record inside a broken one. *)
Theorem failed_commit_leaves_part a k t :
  pr_active (a_producer a) = true -> pr_chunk (a_producer a) = Some k -> pr_transaction (a_producer a) = t ->
  zlen (ck_data k) < AOF_CHUNK_CAPACITY < zlen (ck_data k) + zlen t -> sh_free (a_shared a) = 0 ->
  let '(r, _, a', _) := aof_transaction_commit [false] a in
  r = -1 /\ pr_active (a_producer a') = false /\ aof_last_error a' = aof_last_error a /\
  sh_queue (a_shared a') = sh_queue (a_shared a) ++
    [mk_chunk (ck_data k ++ take (Z.to_nat (AOF_CHUNK_CAPACITY - zlen (ck_data k))) t) (ck_offset k) (wrap64 (sq_next (a_seqs a) + 1)) false].
Proof.
  intros Ha Hk Ht Hs Hfree. pose proof (zlen_nonneg (ck_data k)).
  unfold aof_transaction_commit. rewrite Ha, Ht. cbn [negb]. destruct (Z.gtb_spec (zlen t) 0); [|lia]. unfold assign_sequence.
  set (q := wrap64 _). cbn [a_producer with_seqs]. rewrite Ht.
  destruct (length t) as [|fuel] eqn:El; [unfold zlen in *; lia|]. cbn [commit_loop a_producer with_seqs]. rewrite Ht.
  destruct (Z.ltb_spec 0 (zlen t)); [|lia]. unfold commit_acquire at 1. cbn [a_producer with_seqs]. rewrite Hk. cbn [negb].
  cbn [a_producer with_seqs]. rewrite Hk. unfold commit_copy. cbn [a_producer with_seqs]. rewrite Ht.
  destruct (Z.gtb_spec (zlen t - 0) (AOF_CHUNK_CAPACITY - zlen (ck_data k))); [|lia]. rewrite Z.add_0_l.
  set (n := AOF_CHUNK_CAPACITY - zlen (ck_data k)) in *. unfold sub_bytes. change (Z.to_nat 0) with 0%nat. rewrite drop_0.
  rewrite zlen_app, zlen_take_z by lia. destruct (Z.eqb_spec (zlen (ck_data k) + n) AOF_CHUNK_CAPACITY); [|lia].
  assert (Hn : (n =? zlen t) = false) by (apply Z.eqb_neq; lia). rewrite Hn.
  assert (exists f, fuel = S f) as [f ->].
  { destruct fuel as [|f]; [|by exists f]. unfold zlen in *. rewrite El in *. lia. }
  cbn [commit_loop a_producer with_producer with_chunk pr_transaction]. rewrite Ht. destruct (Z.ltb_spec n (zlen t)); [|lia].
  unfold commit_acquire. cbn [a_producer a_shared with_producer with_chunk pr_chunk with_shared]. unfold acquire_chunk. cbn [sh_free queue_chunk_locked a_shared with_seqs].
  rewrite Hfree. by split_and!.
Qed.

Lemma failed_commit_leaves_part_witness :
  let a := mk_aof (mk_disk [] 0) AOF_FSYNC_NO (mk_shared [] 0 0 0 0 false 0 false false false 0 0 0) (mk_seqs 1 0 0)
             (mk_producer (Some (mk_chunk (repeat 7 (Z.to_nat 262140)) 0 1 true)) [] 0 (request_frame [[80]]) 0 true) false in
  (let '(r, _, a', _) := aof_transaction_commit [false] a in r = -1 /\ length (sh_queue (a_shared a')) = 1%nat).
Proof.
  set (l := repeat 7 (Z.to_nat 262140)). cbv zeta. set (a := mk_aof _ _ _ _ _ _).
  assert (Hl : zlen l = 262140) by (unfold l, zlen; rewrite repeat_length; lia).
  assert (Hs : zlen l < AOF_CHUNK_CAPACITY < zlen l + zlen (request_frame [[80]])) by (rewrite Hl; split; vm_compute; reflexivity).
  pose proof (failed_commit_leaves_part a (mk_chunk l 0 1 true) (request_frame [[80]]) eq_refl eq_refl eq_refl Hs eq_refl) as H.
  destruct (aof_transaction_commit [false] a) as [[[r q] a'] m']. destruct H as (H1 & _ & _ & H2). split; [exact H1|]. rewrite H2. reflexivity.
Defined.

(** ** Backpressure *)

Record pressure_ok (sh : aof_shared) : Prop := {
  pk_bytes : sh_queue_bytes sh = zlen (unwritten (sh_queue sh));
  pk_low : sh_backpressured sh = true -> AOF_QUEUE_LOW_WATER < sh_queue_bytes sh;
  pk_high : sh_backpressured sh = false -> sh_queue_bytes sh < AOF_QUEUE_HIGH_WATER
}.

(** The fields it is about. *)
Definition pressure (sh : aof_shared) : list aof_chunk * Z * bool := (sh_queue sh, sh_queue_bytes sh, sh_backpressured sh).

Lemma pressure_same sh sh' : pressure sh' = pressure sh -> pressure_ok sh -> pressure_ok sh'.
Proof. intros [= H1 H2 H3] [K1 K2 K3]. split; rewrite ?H1, ?H2, ?H3; done. Qed.

Lemma push_pressure k sh :
  pressure_ok sh -> ck_offset k = 0 -> zlen (unwritten (sh_queue sh ++ [k])) < 2 ^ 64 -> pressure_ok (queue_chunk_locked k sh).
Proof.
  intros [K1 K2 K3] Ho Hz. rewrite unwritten_app, unwritten_one, rest_of_whole, zlen_app in Hz by done.
  pose proof (zlen_nonneg (unwritten (sh_queue sh))). pose proof (zlen_nonneg (ck_data k)).
  assert (Hw : wrap64 (sh_queue_bytes sh + zlen (ck_data k)) = zlen (unwritten (sh_queue sh)) + zlen (ck_data k)).
  { rewrite K1. apply wrap64_small. unfold UINT64_MAX. lia. }
  split; cbn [queue_chunk_locked sh_queue sh_queue_bytes sh_backpressured]; rewrite Hw.
  - by rewrite unwritten_app, unwritten_one, rest_of_whole, zlen_app.
  - rewrite Z.geb_leb. destruct (Z.leb_spec AOF_QUEUE_HIGH_WATER (zlen (unwritten (sh_queue sh)) + zlen (ck_data k))) as [Hh|Hh]; cbn [andb].
    + unfold AOF_QUEUE_HIGH_WATER, AOF_QUEUE_LOW_WATER in *. intros _. lia.
    + intros Hb. specialize (K2 Hb). lia.
  - rewrite Z.geb_leb. destruct (Z.leb_spec AOF_QUEUE_HIGH_WATER (zlen (unwritten (sh_queue sh)) + zlen (ck_data k))) as [Hh|Hh]; cbn [andb]; [|done].
    by destruct (sh_backpressured sh).
Qed.

Lemma push_all_pressure ks sh :
  pressure_ok sh -> Forall (fun k => ck_offset k = 0) ks -> zlen (unwritten (sh_queue sh ++ ks)) < 2 ^ 64 ->
  pressure_ok (fold_left (fun sh k => queue_chunk_locked k sh) ks sh).
Proof.
  revert sh. induction ks as [|k ks IH]; intros sh Hp Ho Hz; [done|]. apply Forall_cons in Ho as [Hk Ho]. cbn [fold_left].
  assert (Hsplit : sh_queue sh ++ k :: ks = (sh_queue sh ++ [k]) ++ ks) by (by rewrite <- app_assoc). rewrite Hsplit in Hz.
  apply IH; [|done|done]. apply push_pressure; [done|done|]. rewrite unwritten_app, zlen_app in Hz. pose proof (zlen_nonneg (unwritten ks)). lia.
Qed.

(** A step of the producer appends chunks to the queue. *)
Definition pushes (sh sh' : aof_shared) : Prop :=
  exists ks, Forall (fun k => ck_offset k = 0) ks /\
    pressure sh' = pressure (fold_left (fun sh k => queue_chunk_locked k sh) ks sh).

Lemma pushes_none sh sh' : pressure sh' = pressure sh -> pushes sh sh'.
Proof. intros H. by exists []. Qed.

Lemma acquire_pressure m sh : pressure (acquire_chunk m sh).1.2 = pressure sh.
Proof. unfold acquire_chunk. destruct (_ >? 0); [done|]. by destruct (malloc m). Qed.

Lemma fill_pressure fuel m data sh : pressure (fill_chunks fuel m data sh).1.2 = pressure sh.
Proof.
  revert m data sh. induction fuel as [|fuel IH]; intros m data sh; destruct data as [|b data]; cbn [fill_chunks]; try done.
  pose proof (acquire_pressure m sh) as Ha. destruct (acquire_chunk m sh) as [[ok sh1] m1]. destruct (negb ok); [done|].
  specialize (IH m1 (drop (Z.to_nat AOF_CHUNK_CAPACITY) (b :: data)) sh1). destruct (fill_chunks fuel _ _ _) as [[c sh2] m2]. cbn in *. congruence.
Qed.

Lemma producer_chunk_offset base a ppc wpc h k :
  log_inv base (mk_system a ppc wpc h) -> pr_chunk (a_producer a) = Some k -> ck_offset k = 0.
Proof. intros H Hk. destruct (li_bytes _ _ H) as [_ _ _ B4]. cbn [s_aof] in B4. rewrite Hk in B4. by destruct B4. Qed.

Lemma queue_producer_pushes base a ppc wpc h :
  log_inv base (mk_system a ppc wpc h) -> pushes (a_shared a) (a_shared (queue_producer_chunk a)).
Proof.
  intros H. unfold queue_producer_chunk. destruct (pr_chunk (a_producer a)) as [k|] eqn:Ek; [|by apply pushes_none].
  exists [k]. split; [|done]. constructor; [|constructor]. by apply (producer_chunk_offset base a ppc wpc h).
Qed.

Lemma producer_pushes base a ppc wpc h j ev pc a' r :
  log_inv base (mk_system a ppc wpc h) -> producer_step j ev ppc a = Some (pc, a', r) -> pushes (a_shared a) (a_shared a').
Proof.
  intros H E.
  assert (Hfl : forall use x b, pressure (a_shared (flushed use x b).1.2) = pressure (a_shared b)) by (by intros []).
  assert (Hfe : forall use b h', log_inv base (mk_system b PIdle wpc h') -> pushes (a_shared b) (a_shared (flush_enter use b).1.2)).
  { intros use b h' Hb. unfold flush_enter. destruct (pr_active _); [apply pushes_none, Hfl|].
    destruct (queue_producer_pushes base b PIdle wpc h' Hb) as (ks & K1 & K2). exists ks. split; [done|].
    destruct (_ =? 0); [by rewrite Hfl|done]. }
  assert (Hce : forall use b, a_shared (commit_enter use b).1.2 = a_shared b).
  { intros use b. unfold commit_enter. destruct (negb _); [done|]. by destruct (_ >? 0). }
  destruct ppc as [|u x y|t q|u|u l|u q|t q|t q|t q e|t| |r0|]; cbn [producer_step] in E; destruct ev; try done;
    cbn [producer_call] in E; try (injection E as <- <- <-; by apply pushes_none).
  - pose proof (append_shared m a arguments) as Ha. destruct (aof_append m a arguments) as [[r1 a1] m1]. injection E as <- <- <-.
    cbn in Ha. rewrite Ha. by apply pushes_none.
  - unfold aof_transaction_begin in E. destruct (_ || _); injection E as <- <- <-; by apply pushes_none.
  - apply (inj Some) in E. pose proof (Hce ForCommand a) as H1. rewrite E in H1. cbn in H1. rewrite H1. by apply pushes_none.
  - apply (inj Some) in E. pose proof (Hfe ForFlush a h H) as H1. by rewrite E in H1.
  - apply (inj Some) in E. unfold checkpoint_enter in E. destruct (fill_random_token _ _) as [tok|]; [|injection E as <- <- <-; by apply pushes_none].
    unfold aof_transaction_begin in E. destruct (_ || _); [injection E as <- <- <-; by apply pushes_none|].
    change (negb (0 =? 0)) with false in E. cbn iota in E.
    set (a1 := with_producer _ a) in *. pose proof (append_shared m a1 (checkpoint_arguments tok)) as Ha.
    destruct (aof_append m a1 _) as [[r2 a2] m2]. cbn in Ha. destruct (negb _).
    { injection E as <- <- <-. cbn. rewrite Ha. by apply pushes_none. }
    pose proof (Hce (ForCheckpoint tok) a2) as H1. rewrite E in H1. cbn in H1. rewrite H1, Ha. by apply pushes_none.
  - apply (inj Some) in E. unfold pause_enter in E. destruct (_ || _); injection E as <- <- <-; by apply pushes_none.
  - apply (inj Some) in E. unfold close_enter in E. set (b := if pr_active (a_producer a) then aof_transaction_rollback a else a) in *.
    assert (Hb : exists h', log_inv base (mk_system b PIdle wpc h')).
    { unfold b. destruct (pr_active _); [|by exists h]. exists (set_txn [] h). by apply (rollback_inv base a wpc h PIdle false). }
    destruct Hb as [h' Hb]. pose proof (Hfe ForClose b h' Hb) as H1. rewrite E in H1. cbn in H1.
    assert (a_shared b = a_shared a) as Heq by (unfold b; by destruct (pr_active _)). by rewrite Heq in H1.
  - apply (inj Some) in E. unfold commit_step in E. destruct (_ <? _).
    + destruct (pr_chunk _) as [k|] eqn:Ek.
      * unfold commit_copy in E. destruct (_ =? AOF_CHUNK_CAPACITY); injection E as <- <- <-; [|by apply pushes_none].
        eexists [_]. split; [|reflexivity]. constructor; [|constructor]. by apply (producer_chunk_offset _ _ _ _ _ k H).
      * unfold commit_acquire in E. rewrite Ek in E. pose proof (acquire_pressure m (a_shared a)) as Ha.
        destruct (acquire_chunk m (a_shared a)) as [[[] sh] m']; injection E as <- <- <-; by apply pushes_none.
    + destruct u; injection E as <- <- <-; by apply pushes_none.
  - injection E as <- <- <-. by apply (queue_producer_pushes base a (PQueue t q) wpc h).
  - pose proof (fill_pressure (length (pr_pending (a_producer a))) m (pr_pending (a_producer a)) (a_shared a)) as Hf.
    destruct (fill_chunks _ _ _ _) as [[[c|] sh] m']; cbn in Hf; [injection E as <- <- <-; by apply pushes_none|].
    apply (inj Some) in E. pose proof (Hfl u (-1) (with_shared sh a)) as H1. rewrite E in H1. apply pushes_none. etrans; [exact H1|exact Hf].
  - unfold enqueue_locked in E. injection E as <- <- <-. eexists (mark_last _ l). split; [|reflexivity].
    destruct (li_producer _ _ H) as (_ & _ & _ & Hfd & _). cbn [s_aof s_producer s_history] in Hfd. clear -Hfd.
    induction l as [|k l IH]; [constructor|]. apply Forall_cons in Hfd as [(_ & Ho & _) Hfd]. destruct l as [|k2 l].
    + constructor; [done|constructor].
    + constructor; [done|]. by apply IH.
  - unfold wait_step in E. destruct (_ && _); [done|]. destruct u as [| |t].
    + apply (inj Some) in E. pose proof (Hfl ForFlush (if sh_error (a_shared a) =? 0 then 0 else -1) a) as H1. rewrite E in H1. by apply pushes_none.
    + apply (inj Some) in E. pose proof (Hfl ForClose (if sh_error (a_shared a) =? 0 then 0 else -1) a) as H1. rewrite E in H1. by apply pushes_none.
    + destruct (_ =? 0); injection E as <- <- <-; by apply pushes_none.
  - unfold sync_enter in E. destruct (a_sync_mutex a); [done|]. destruct (_ <=? _); injection E as <- <- <-; by apply pushes_none.
  - unfold pause_wait in E. destruct (_ && _); [done|]. destruct (negb _); injection E as <- <- <-; by apply pushes_none.
  - destruct j; [|done]. injection E as <- <- <-. by apply pushes_none.
Qed.

Lemma consume_pressure base a ppc h n pc a' :
  log_inv base (mk_system a ppc (WConsume n) h) -> pressure_ok (a_shared a) -> zlen (unwritten (sh_queue (a_shared a))) < 2 ^ 64 ->
  writer_consume n a = Some (pc, a') -> pressure_ok (a_shared a').
Proof.
  intros H [K1 K2 K3] Hz E. destruct (li_bytes _ _ H) as [_ _ B3 _]. pose proof (li_writer _ _ H) as Hw. cbn [s_aof s_writer writer_inv] in B3, Hw.
  destruct (consume_loop_spec (sh_queue (a_shared a)) n 0 0 0 B3 ltac:(lia)) as (q' & r' & d' & El & Hu & _).
  unfold writer_consume, consume_written in E. cbn [sh_queue add_written_bytes] in E. rewrite El in E. cbn [sh_queue_bytes add_written_bytes] in E.
  assert (Hwrap : wrap64 (sh_queue_bytes (a_shared a) - (0 + n)) = zlen (unwritten q')).
  { rewrite Hu, zlen_drop_z, K1 by lia. rewrite wrap64_small; [lia|]. unfold UINT64_MAX. lia. }
  rewrite Hwrap in E. injection E as _ <-. set (sh' := mk_shared q' _ _ _ _ _ _ _ _ _ _ _ _).
  assert (Hok : pressure_ok sh').
  { split; cbn [sh' sh_queue sh_queue_bytes sh_backpressured]; [done| |].
    - destruct (Z.leb_spec (zlen (unwritten q')) AOF_QUEUE_LOW_WATER); [done|]. intros _. done.
    - destruct (Z.leb_spec (zlen (unwritten q')) AOF_QUEUE_LOW_WATER).
      + unfold AOF_QUEUE_LOW_WATER, AOF_QUEUE_HIGH_WATER in *. lia.
      + intros Hb. specialize (K3 Hb). rewrite Hu, zlen_drop_z by lia. lia. }
  by destruct (_ && _).
Qed.

Lemma writer_pressure base a ppc wpc h ev pc a' :
  log_inv base (mk_system a ppc wpc h) -> pressure_ok (a_shared a) -> zlen (unwritten (sh_queue (a_shared a))) < 2 ^ 64 ->
  writer_step ev wpc a = Some (pc, a') -> pressure_ok (a_shared a').
Proof.
  intros H Hp Hz E. destruct wpc as [|data|n|why t|why t|why t e|c| |e next| |]; cbn [writer_step] in E.
  - apply (pressure_same (a_shared a)); [|done]. injection E as E. unfold writer_top in E. destruct (_ && _); [by injection E as <- <-|].
    destruct (sh_queue _); [|by injection E as <- <-]. destruct (sh_stopping _); [by injection E as <- <-|].
    cbn [a_policy with_shared] in E. destruct ev, (a_policy a); by injection E as <- <-.
  - destruct ev; try done; try (injection E as <- <-; done). destruct (_ && _); [by injection E as <- <-|].
    destruct (_ =? 0); [by injection E as <- <-|done].
  - by apply (consume_pressure base a ppc h n pc a').
  - unfold sync_enter in E. destruct (a_sync_mutex a); [done|]. destruct (_ <=? _); by injection E as <- <-.
  - destruct ev; try done; by injection E as <- <-.
  - injection E as <- <-. by apply (pressure_same (a_shared a)).
  - injection E as <- <-. by destruct (_ >? _).
  - destruct ev; try (injection E as <- <-; done). destruct (a_policy a); by injection E as <- <-.
  - injection E as <- <-. apply (pressure_same (a_shared a)); [|done]. unfold publish_error. cbn. by destruct (sh_error (a_shared a) =? 0).
  - by injection E as <- <-.
  - done.
Qed.

Lemma history_log ev ppc a pc r h : zlen (stream (h_log h)) <= zlen (stream (h_log (record_step ev ppc a pc r h))).
Proof.
  assert (Hadd : forall q l, zlen (stream (h_log h)) <= zlen (stream (h_log h ++ [(q, l)]))).
  { intros q l. rewrite stream_snoc, zlen_app. pose proof (zlen_nonneg (log_bytes l)). lia. }
  unfold record_step. destruct ppc, ev; try done; repeat case_match; cbn; done || apply Hadd.
Qed.

(** The queue is part of the stream. *)
Lemma queue_le_stream base s : log_inv base s -> zlen (unwritten (sh_queue (a_shared (s_aof s)))) <= zlen (stream (h_log (s_history s))).
Proof.
  intros H. destruct (li_bytes _ _ H) as [_ B2 _ _]. rewrite <- B2, unwritten_app, !zlen_app.
  pose proof (zlen_nonneg base). pose proof (zlen_nonneg (unwritten (held (pr_chunk (a_producer (s_aof s)))))).
  pose proof (zlen_nonneg (uncopied (s_producer s) (a_producer (s_aof s)))). lia.
Qed.

Lemma reach_pressure policy cmds s :
  Forall command_ok cmds -> reach policy cmds s -> h_torn (s_history s) = false -> h_count (s_history s) < 2 ^ 64 ->
  zlen (stream (h_log (s_history s))) < 2 ^ 64 -> pressure_ok (a_shared (s_aof s)).
Proof.
  intros Hok Hr. induction Hr as [|s s' Hr IH Hstep]; intros Ht Hc Hz; [by split; vm_compute|].
  destruct (reach_inv policy cmds s' Hok (reach_step _ _ _ _ Hr Hstep) Ht Hc) as [base' H'].
  pose proof (queue_le_stream _ _ H') as Hq'. destruct s as [a0 ppc wpc h].
  destruct Hstep as [ev pc a r E|ev pc a E]; cbn [s_history s_aof s_producer s_writer] in *.
  - destruct (history_grows ev ppc a0 pc r h) as [Hg1 Hg2]. pose proof (history_log ev ppc a0 pc r h).
    specialize (IH (Hg2 Ht) ltac:(lia) ltac:(lia)).
    destruct (reach_inv policy cmds _ Hok Hr (Hg2 Ht) ltac:(cbn; lia)) as [base Hb].
    destruct (producer_pushes base a0 ppc wpc h _ ev pc a r Hb E) as (ks & K1 & K2).
    apply (pressure_same _ _ K2), push_all_pressure; [done|done|]. injection K2 as Kq _ _. rewrite queue_all in Kq. rewrite <- Kq. lia.
  - specialize (IH Ht Hc Hz). destruct (reach_inv policy cmds _ Hok Hr Ht Hc) as [base Hb].
    apply (writer_pressure base a0 ppc wpc h ev pc a); try done. pose proof (queue_le_stream _ _ Hb). cbn in *. lia.
Qed.

(** C27. Backpressure works as a hysteresis between the two water marks.  In
    every state that is reached without a commit cut short by a failed
    allocation, with fewer than 2^64 transactions and 2^64 bytes logged,
    [queue_bytes] is exactly the number of bytes that wait in the queue, a log
    that accepts writes holds less than the high water mark, and one that
    refuses them holds more than the low one. *)
Theorem aof_backpressure policy cmds s :
  Forall command_ok cmds -> reach policy cmds s -> h_torn (s_history s) = false -> h_count (s_history s) < 2 ^ 64 ->
  zlen (stream (h_log (s_history s))) < 2 ^ 64 ->
  sh_queue_bytes (a_shared (s_aof s)) = zlen (unwritten (sh_queue (a_shared (s_aof s)))) /\
  (aof_can_accept_write (s_aof s) = true -> zlen (unwritten (sh_queue (a_shared (s_aof s)))) < AOF_QUEUE_HIGH_WATER) /\
  (aof_last_error (s_aof s) = 0 -> aof_can_accept_write (s_aof s) = false ->
   AOF_QUEUE_LOW_WATER < zlen (unwritten (sh_queue (a_shared (s_aof s))))).
Proof.
  intros Hok Hr Ht Hc Hz. destruct (reach_pressure policy cmds s Hok Hr Ht Hc Hz) as [K1 K2 K3]. rewrite <- K1.
  unfold aof_can_accept_write, aof_last_error. split; [done|]. split.
  - intros [Hb _]%andb_true_iff. apply negb_true_iff in Hb. by apply K3.
  - intros -> Hb. rewrite Z.eqb_refl, andb_true_r in Hb. apply negb_false_iff in Hb. by apply K2.
Qed.

Lemma aof_backpressure_witness : sh_queue_bytes (a_shared (s_aof sample_system)) = 20 /\ 20 < AOF_QUEUE_HIGH_WATER.
Proof.
  destruct (aof_backpressure AOF_FSYNC_ALWAYS [] sample_system) as (H1 & H2 & _);
    [constructor|exact sample_reach|vm_compute; reflexivity|vm_compute; reflexivity|vm_compute; reflexivity|].
  assert (Hz : zlen (unwritten (sh_queue (a_shared (s_aof sample_system)))) = 20) by (vm_compute; reflexivity).
  rewrite Hz in H1, H2. split; [exact H1|]. apply H2. vm_compute. reflexivity.
Defined.

(** ** Replay *)

(** Replay reads a log back: from an offset at the start of a record it
    passes the commands to the callback in order, and when the file ends in a
    record without its end, as an interrupted write leaves it, it cuts the file
    back to the whole records and reports the repair. *)
Theorem aof_replay_correct {C} (callback : C -> command -> Z * C) pre cmds tail context context' :
  Forall command_ok cmds -> torn tail -> run_commands callback context cmds = Some context' ->
  aof_replay_from replay_ok (pre ++ log_bytes cmds ++ tail) (zlen pre) callback context
  = (0, pre ++ log_bytes cmds, context', mk_replay_stats (zlen cmds) (bool_decide (tail <> []))).
Proof. apply replay_spec. Qed.
