(* ===== verification/Double.v ===== *)
(** Doubles of the C code as 64-bit patterns: the arithmetic, conversions and
    comparisons of IEEE 754 binary64 in round-to-nearest, the conversions
    [%.17g] and [%.2f] of [printf], and [strtod] in the C locale.

    The arithmetic is that of the Standard Library's [SpecFloat].  Printing and
    reading work on the exact rational value of a pattern, so both are
    correctly rounded, as the C library documents. *)

From S2P Require Import Prelude Resp ZOrder.
From Stdlib Require Import SpecFloat.

(** ** Patterns *)

Definition PRECISION : Z := 53.

Definition EMAX : Z := 1024.

Definition decode (s : Z) : spec_float :=
  let sign := SIGN_BIT <=? s in
  let exponent := (s mod SIGN_BIT) / 2 ^ 52 in
  let fraction := s mod 2 ^ 52 in
  if exponent =? 2047 then (if fraction =? 0 then S754_infinity sign else S754_nan) else
  if exponent =? 0 then
    match fraction with Zpos p => S754_finite sign p (-1074) | _ => S754_zero sign end
  else
    match fraction + 2 ^ 52 with Zpos p => S754_finite sign p (exponent - 1075) | _ => S754_nan end.

Definition sign_bits (sign : bool) : Z := if sign then SIGN_BIT else 0.

Definition encode (x : spec_float) : Z :=
  match x with
  | S754_zero s => sign_bits s
  | S754_infinity s => sign_bits s + INFINITY_BITS
  | S754_nan => INFINITY_BITS + 2 ^ 51
  | S754_finite s m e =>
      sign_bits s + (if Zpos m <? 2 ^ 52 then Zpos m else (e + 1075) * 2 ^ 52 + (Zpos m - 2 ^ 52))
  end.

Definition isfinite (s : Z) : bool := s mod SIGN_BIT <? INFINITY_BITS.

Definition signbit (s : Z) : bool := SIGN_BIT <=? s.

Definition double_mul (a b : Z) : Z := encode (SFmul PRECISION EMAX (decode a) (decode b)).

Definition double_div (a b : Z) : Z := encode (SFdiv PRECISION EMAX (decode a) (decode b)).

(** [(double)n] for an integer. *)
Definition double_of_int (n : Z) : Z := encode (binary_normalize PRECISION EMAX n 0 false).

Definition double_eq (a b : Z) : bool := SFeqb (decode a) (decode b).

Definition double_le (a b : Z) : bool := SFleb (decode a) (decode b).

(** The exact value of a finite mantissa and exponent, as a ratio. *)
Definition ratio (m : positive) (e : Z) : Z * Z :=
  if 0 <=? e then (Zpos m * 2 ^ e, 1) else (Zpos m, 2 ^ (- e)).

(** [(int64_t)s]: the integral part; [None] when the conversion is undefined. *)
Definition int64_of_double (s : Z) : option Z :=
  match decode s with
  | S754_zero _ => Some 0
  | S754_finite sign m e =>
      let '(num, den) := ratio m e in
      let n := if sign then - (num / den) else num / den in
      if (INT64_MIN <=? n) && (n <=? INT64_MAX) then Some n else None
  | _ => None
  end.

(** ** Printing *)

(** A non-negative integer of any size in decimal; the integral part of a
    double has at most 309 digits. *)
Definition decimal_text (n : Z) : list Z := rev (digits_rev 310 n).

Definition round_half_even (num den : Z) : Z :=
  let q := num / den in
  let r := num mod den in
  if 2 * r <? den then q else
  if 2 * r >? den then q + 1 else
  if Z.even q then q else q + 1.

Definition pow10_le (k num den : Z) : bool :=
  if 0 <=? k then 10 ^ k * den <=? num else den <=? num * 10 ^ (- k).

(** The greatest power of ten that is not greater than the value, searched
    from [k] down. *)
Fixpoint decimal_exponent (fuel : nat) (k num den : Z) : Z :=
  match fuel with
  | O => k
  | S fuel => if pow10_le k num den then k else decimal_exponent fuel (k - 1) num den
  end.

(** The 17 significant digits and the decimal exponent after rounding. *)
Definition significant (num den : Z) : Z * Z :=
  let k := decimal_exponent 640 309 num den in
  let d := if k <=? 16 then round_half_even (num * 10 ^ (16 - k)) den
           else round_half_even num (den * 10 ^ (k - 16)) in
  if d =? 10 ^ 17 then (10 ^ 16, k + 1) else (d, k).

Fixpoint strip_zeros (reversed : list Z) : list Z :=
  match reversed with
  | 48 :: l => strip_zeros l
  | l => l
  end.

(** The fraction without its trailing zeros, after the point. *)
Definition fraction_text (digits : list Z) : list Z :=
  match rev (strip_zeros (rev digits)) with
  | [] => []
  | l => 46 :: l
  end.

Definition exponent_text (k : Z) : list Z :=
  let a := Z.abs k in
  101 :: (if k <? 0 then 45 else 43) :: (if a <? 10 then [48] else []) ++ decimal_text a.

Definition general_text (num den : Z) : list Z :=
  let '(d, k) := significant num den in
  let digits := decimal_text d in
  if (-4 <=? k) && (k <? 17) then
    if 0 <=? k then take (Z.to_nat (k + 1)) digits ++ fraction_text (drop (Z.to_nat (k + 1)) digits)
    else [48] ++ fraction_text (replicate (Z.to_nat (- k - 1)) 48 ++ digits)
  else take 1 digits ++ fraction_text (drop 1 digits) ++ exponent_text k.

Definition sign_text (sign : bool) : list Z := if sign then [45] else [].

(** [%.17g] *)
Definition format_g17 (s : Z) : list Z :=
  match decode s with
  | S754_zero sign => sign_text sign ++ [48]
  | S754_infinity sign => sign_text sign ++ lit "inf"
  | S754_nan => sign_text (signbit s) ++ lit "nan"
  | S754_finite sign m e => let '(num, den) := ratio m e in sign_text sign ++ general_text num den
  end.

(** [%.2f] *)
Definition format_f2 (s : Z) : list Z :=
  match decode s with
  | S754_zero sign => sign_text sign ++ lit "0.00"
  | S754_infinity sign => sign_text sign ++ lit "inf"
  | S754_nan => sign_text (signbit s) ++ lit "nan"
  | S754_finite sign m e =>
      let '(num, den) := ratio m e in
      let n := round_half_even (num * 100) den in
      sign_text sign ++ decimal_text (n / 100) ++ [46; 48 + n / 10 mod 10; 48 + n mod 10]
  end.

(** ** Reading *)

Definition isspace (c : Z) : bool := (c =? 32) || ((9 <=? c) && (c <=? 13)).

Fixpoint skip_space (l : list Z) : list Z :=
  match l with
  | c :: l' => if isspace c then skip_space l' else l
  | [] => []
  end.

Definition digit_value (base c : Z) : option Z :=
  let v := if (48 <=? c) && (c <=? 57) then c - 48
           else if (97 <=? c) && (c <=? 102) then c - 87
           else if (65 <=? c) && (c <=? 70) then c - 55 else 99 in
  if v <? base then Some v else None.

Fixpoint span_digits (base : Z) (l : list Z) : list Z * list Z :=
  match l with
  | c :: l' =>
      match digit_value base c with
      | Some v => let '(ds, rest) := span_digits base l' in (v :: ds, rest)
      | None => ([], l)
      end
  | [] => ([], [])
  end.

Definition digits_value (base : Z) (ds : list Z) : Z := fold_left (fun a d => a * base + d) ds 0.

Definition lower (c : Z) : Z := if (65 <=? c) && (c <=? 90) then c + 32 else c.

(** The rest of [l] after the word, in any case. *)
Fixpoint match_word (w l : list Z) : option (list Z) :=
  match w, l with
  | [], _ => Some l
  | a :: w, c :: l => if lower c =? a then match_word w l else None
  | _ :: _, [] => None
  end.

(** An optional exponent introduced by the letter [mark]. *)
Definition read_exponent (mark : Z) (l : list Z) : Z * list Z :=
  match l with
  | c :: l' =>
      if lower c =? mark then
        let '(negative, l'') := match l' with
                                | 45 :: r => (true, r) | 43 :: r => (false, r) | _ => (false, l') end in
        match span_digits 10 l'' with
        | ([], _) => (0, l)
        | (ds, rest) => (if negative then - digits_value 10 ds else digits_value 10 ds, rest)
        end
      else (0, l)
  | [] => (0, l)
  end.

(** The digits before and after the point; [None]: there are none. *)
Definition read_mantissa (base : Z) (l : list Z) : option (list Z * list Z * list Z) :=
  let '(whole, r) := span_digits base l in
  let '(fraction, r) := match r with 46 :: r' => span_digits base r' | _ => ([], r) end in
  match whole ++ fraction with
  | [] => None
  | _ => Some (whole, fraction, r)
  end.

(** The value [num / den] rounded with the exponent range [emax]. *)
Definition round_ratio (emax : Z) (sign : bool) (num den : Z) : spec_float :=
  let '(q, e, loc) := SFdiv_core_binary PRECISION emax num 0 den 0 in
  binary_round_aux PRECISION emax sign q e loc.

(** A result that is below the normal range when rounded to the precision
    with any exponent. *)
Definition tiny (num den : Z) : bool :=
  match round_ratio (2 ^ 20) false num den with
  | S754_finite _ m e => Zpos (digits2_pos m) + e <=? -1022
  | _ => true
  end.

Definition exact (x : spec_float) (num den : Z) : bool :=
  match x with
  | S754_finite _ m e => let '(a, b) := ratio m e in a * den =? num * b
  | _ => false
  end.

(** The double and whether [errno] becomes [ERANGE]. *)
Definition round_value (sign : bool) (num den : Z) : Z * bool :=
  let x := round_ratio EMAX sign num den in
  (encode x, match x with
             | S754_infinity _ => true
             | _ => tiny num den && negb (exact x num den)
             end).

(** [mantissa * base ^ exponent], [base] being 10 or 2.  A value far outside
    the range of doubles is settled before its power is computed: [size] is the
    number of digits to that base that the mantissa has. *)
Definition scale (sign : bool) (base size limit mantissa exponent : Z) : Z * bool :=
  if mantissa =? 0 then (sign_bits sign, false) else
  if size + exponent >? limit then (sign_bits sign + INFINITY_BITS, true) else
  if size + exponent <? - limit then (sign_bits sign, true) else
  if 0 <=? exponent then round_value sign (mantissa * base ^ exponent) 1
  else round_value sign mantissa (base ^ (- exponent)).

Fixpoint drop_leading (ds : list Z) : list Z :=
  match ds with
  | 0 :: ds => drop_leading ds
  | _ => ds
  end.

Definition read_decimal (sign : bool) (l : list Z) : option (Z * bool * list Z) :=
  match read_mantissa 10 l with
  | None => None
  | Some (whole, fraction, r) =>
      let '(exponent, r) := read_exponent 101 r in
      let mantissa := digits_value 10 (whole ++ fraction) in
      Some (scale sign 10 (zlen (drop_leading (whole ++ fraction))) 400 mantissa (exponent - zlen fraction), r)
  end.

Definition read_hexadecimal (sign : bool) (l : list Z) : option (Z * bool * list Z) :=
  match read_mantissa 16 l with
  | None => None
  | Some (whole, fraction, r) =>
      let '(exponent, r) := read_exponent 112 r in
      let mantissa := digits_value 16 (whole ++ fraction) in
      Some (scale sign 2 (Z.log2 mantissa) 1200 mantissa (exponent - 4 * zlen fraction), r)
  end.

(** A number after the sign. *)
Definition read_number (sign : bool) (l : list Z) : option (Z * bool * list Z) :=
  match match_word (lit "infinity") l, match_word (lit "inf") l, match_word (lit "nan") l with
  | Some r, _, _ => Some (sign_bits sign + INFINITY_BITS, false, r)
  | None, Some r, _ => Some (sign_bits sign + INFINITY_BITS, false, r)
  | None, None, Some r => Some (encode S754_nan, false, r)
  | None, None, None =>
      match match_word (lit "0x") l ≫= read_hexadecimal sign with
      | Some x => Some x
      | None => read_decimal sign l
      end
  end.

(** The value, whether [errno] becomes [ERANGE], and the text after the number;
    [None]: no conversion. *)
Definition strtod (l : list Z) : option (Z * bool * list Z) :=
  match skip_space l with
  | 45 :: r => read_number true r
  | 43 :: r => read_number false r
  | r => read_number false r
  end.
