(* ===== verification/MysqlStore.v ===== *)
(** The queues of [src/storage/mysql_store.c] as the other components use them:
    loads that several requests can wait for, and mutations in the order of
    their sequence numbers.  The threads that work on them are in
    [MysqlThreads].

    A load job is represented by its key, which is unique among the jobs in
    flight. *)

From S2P Require Import Prelude Object.

(** What a waiter was submitted with. *)
Definition context : Type := Z.

Record mysql_load_job : Type := mk_load_job { lj_key : list Z; lj_waiters : list context }.

Record mysql_write_job : Type := mk_write_job {
  wj_sequence : Z; wj_arguments : list (list Z); wj_encoded_bytes : Z
}.

Inductive mysql_store_status : Type :=
| MYSQL_STORE_OK | MYSQL_STORE_UNAVAILABLE | MYSQL_STORE_TOO_LARGE | MYSQL_STORE_COLLISION
| MYSQL_STORE_INTERNAL.

#[export] Instance mysql_store_status_eq_dec : EqDecision mysql_store_status.
Proof. solve_decision. Defined.

(** The object that was found and its expiration time. *)
Record mysql_store_load_result : Type := mk_load_result {
  lr_status : mysql_store_status; lr_found : option (kv_object * Z); lr_waiters : list context;
  lr_mysql_error : Z
}.

Record mysql_store_stats : Type := mk_mysql_stats {
  ms_read_workers : Z; ms_connected_readers : Z; ms_connected_writer : bool; ms_pending_reads : Z;
  ms_read_queue_limit : Z; ms_pending_write_bytes : Z; ms_write_queue_max_bytes : Z;
  ms_load_max_bytes : Z; ms_submitted : Z; ms_applied : Z; ms_loads : Z; ms_coalesced : Z;
  ms_negative_hits : Z; ms_load_errors : Z; ms_write_errors : Z; ms_reconnects : Z; ms_last_error : Z
}.

(** [my_queue] has the keys of the jobs that no reader has taken; [my_inflight]
    the jobs, the latest first; [my_destroyed] the contexts handed to
    [destroy_waiter_context]. *)
Record mysql_store : Type := mk_mysql {
  my_queue : list (list Z);
  my_inflight : list mysql_load_job;
  my_completed : list mysql_store_load_result;
  my_writes : list mysql_write_job;
  my_pending_write_bytes : Z;
  my_pending_reads : Z;
  my_connected_readers : Z;
  my_stopping : bool;
  my_shutdown_deadline : Z;
  my_stats : mysql_store_stats;
  my_destroyed : list context
}.

(** [mysql_store_open], the threads being started. *)
Definition mysql_store_open (read_workers read_queue_limit write_queue_max_bytes load_max_bytes : Z)
  : option mysql_store :=
  if (read_workers =? 0) || (read_queue_limit =? 0) || (load_max_bytes =? 0) then None else
  Some (mk_mysql [] [] [] [] 0 0 0 false 0
    (mk_mysql_stats read_workers 0 false 0 read_queue_limit 0 write_queue_max_bytes load_max_bytes
       0 0 0 0 0 0 0 0 0) []).

Definition with_jobs (queue : list (list Z)) (inflight : list mysql_load_job) (pending : Z)
    (s : mysql_store) : mysql_store :=
  mk_mysql queue inflight (my_completed s) (my_writes s) (my_pending_write_bytes s) pending
    (my_connected_readers s) (my_stopping s) (my_shutdown_deadline s) (my_stats s) (my_destroyed s).

Definition with_completed (l : list mysql_store_load_result) (s : mysql_store) : mysql_store :=
  mk_mysql (my_queue s) (my_inflight s) l (my_writes s) (my_pending_write_bytes s) (my_pending_reads s)
    (my_connected_readers s) (my_stopping s) (my_shutdown_deadline s) (my_stats s) (my_destroyed s).

Definition with_writes (l : list mysql_write_job) (bytes : Z) (s : mysql_store) : mysql_store :=
  mk_mysql (my_queue s) (my_inflight s) (my_completed s) l bytes (my_pending_reads s)
    (my_connected_readers s) (my_stopping s) (my_shutdown_deadline s) (my_stats s) (my_destroyed s).

Definition with_mysql_stats (x : mysql_store_stats) (s : mysql_store) : mysql_store :=
  mk_mysql (my_queue s) (my_inflight s) (my_completed s) (my_writes s) (my_pending_write_bytes s)
    (my_pending_reads s) (my_connected_readers s) (my_stopping s) (my_shutdown_deadline s) x (my_destroyed s).

Definition with_readers (n : Z) (s : mysql_store) : mysql_store :=
  mk_mysql (my_queue s) (my_inflight s) (my_completed s) (my_writes s) (my_pending_write_bytes s)
    (my_pending_reads s) n (my_stopping s) (my_shutdown_deadline s) (my_stats s) (my_destroyed s).

Definition with_destroyed (l : list context) (s : mysql_store) : mysql_store :=
  mk_mysql (my_queue s) (my_inflight s) (my_completed s) (my_writes s) (my_pending_write_bytes s)
    (my_pending_reads s) (my_connected_readers s) (my_stopping s) (my_shutdown_deadline s) (my_stats s) l.

(** The counters a step changes. *)
Definition count_submitted (q : Z) (x : mysql_store_stats) : mysql_store_stats :=
  mk_mysql_stats (ms_read_workers x) (ms_connected_readers x) (ms_connected_writer x) (ms_pending_reads x)
    (ms_read_queue_limit x) (ms_pending_write_bytes x) (ms_write_queue_max_bytes x) (ms_load_max_bytes x)
    (if q >? ms_submitted x then q else ms_submitted x) (ms_applied x) (ms_loads x) (ms_coalesced x)
    (ms_negative_hits x) (ms_load_errors x) (ms_write_errors x) (ms_reconnects x) (ms_last_error x).

Definition count_applied (q : Z) (x : mysql_store_stats) : mysql_store_stats :=
  mk_mysql_stats (ms_read_workers x) (ms_connected_readers x) (ms_connected_writer x) (ms_pending_reads x)
    (ms_read_queue_limit x) (ms_pending_write_bytes x) (ms_write_queue_max_bytes x) (ms_load_max_bytes x)
    (ms_submitted x) (if q >? ms_applied x then q else ms_applied x) (ms_loads x) (ms_coalesced x)
    (ms_negative_hits x) (ms_load_errors x) (ms_write_errors x) (ms_reconnects x) (ms_last_error x).

Definition count_coalesced (x : mysql_store_stats) : mysql_store_stats :=
  mk_mysql_stats (ms_read_workers x) (ms_connected_readers x) (ms_connected_writer x) (ms_pending_reads x)
    (ms_read_queue_limit x) (ms_pending_write_bytes x) (ms_write_queue_max_bytes x) (ms_load_max_bytes x)
    (ms_submitted x) (ms_applied x) (ms_loads x) (wrap64 (ms_coalesced x + 1))
    (ms_negative_hits x) (ms_load_errors x) (ms_write_errors x) (ms_reconnects x) (ms_last_error x).

Definition count_negative_hit (x : mysql_store_stats) : mysql_store_stats :=
  mk_mysql_stats (ms_read_workers x) (ms_connected_readers x) (ms_connected_writer x) (ms_pending_reads x)
    (ms_read_queue_limit x) (ms_pending_write_bytes x) (ms_write_queue_max_bytes x) (ms_load_max_bytes x)
    (ms_submitted x) (ms_applied x) (ms_loads x) (ms_coalesced x)
    (wrap64 (ms_negative_hits x + 1)) (ms_load_errors x) (ms_write_errors x) (ms_reconnects x) (ms_last_error x).

(** The end of a load: [error] is set for a result that is not [OK], with the
    error number of the result if there is one. *)
Definition count_load (error : bool) (number : option Z) (x : mysql_store_stats) : mysql_store_stats :=
  mk_mysql_stats (ms_read_workers x) (ms_connected_readers x) (ms_connected_writer x) (ms_pending_reads x)
    (ms_read_queue_limit x) (ms_pending_write_bytes x) (ms_write_queue_max_bytes x) (ms_load_max_bytes x)
    (ms_submitted x) (ms_applied x) (wrap64 (ms_loads x + 1)) (ms_coalesced x) (ms_negative_hits x)
    (if error then wrap64 (ms_load_errors x + 1) else ms_load_errors x) (ms_write_errors x) (ms_reconnects x)
    (if error then default (ms_last_error x) number else ms_last_error x).

Definition count_reconnect (writer : bool) (x : mysql_store_stats) : mysql_store_stats :=
  mk_mysql_stats (ms_read_workers x) (ms_connected_readers x) (writer || ms_connected_writer x) (ms_pending_reads x)
    (ms_read_queue_limit x) (ms_pending_write_bytes x) (ms_write_queue_max_bytes x) (ms_load_max_bytes x)
    (ms_submitted x) (ms_applied x) (ms_loads x) (ms_coalesced x) (ms_negative_hits x)
    (ms_load_errors x) (ms_write_errors x) (wrap64 (ms_reconnects x + 1)) (ms_last_error x).

(** The writer's connection and the last error; [failed] counts a failed
    mutation. *)
Definition note_writer (connected failed : bool) (number : Z) (x : mysql_store_stats) : mysql_store_stats :=
  mk_mysql_stats (ms_read_workers x) (ms_connected_readers x) connected (ms_pending_reads x)
    (ms_read_queue_limit x) (ms_pending_write_bytes x) (ms_write_queue_max_bytes x) (ms_load_max_bytes x)
    (ms_submitted x) (ms_applied x) (ms_loads x) (ms_coalesced x) (ms_negative_hits x) (ms_load_errors x)
    (if failed then wrap64 (ms_write_errors x + 1) else ms_write_errors x) (ms_reconnects x) number.

(** ** The interface *)

(** The waiter joins the job in flight for its key. *)
Fixpoint join_inflight (key : list Z) (waiter : context) (l : list mysql_load_job)
  : option (list mysql_load_job) :=
  match l with
  | [] => None
  | job :: l =>
      if (zlen (lj_key job) =? zlen key) && bool_decide (lj_key job = key)
      then Some (mk_load_job (lj_key job) (waiter :: lj_waiters job) :: l)
      else (cons job) <$> join_inflight key waiter l
  end.

(** 1: a new job, 0: an existing one, -1: refused. *)
Definition mysql_store_submit_load (m : mem) (s : mysql_store) (key : slice) (waiter : context)
  : Z * mysql_store * mem :=
  match key with
  | None => (-1, s, m)
  | Some key =>
      let '(ok, m) := malloc m in
      if negb ok then (-1, s, m) else
      match join_inflight key waiter (my_inflight s) with
      | Some inflight =>
          (0, with_mysql_stats (count_coalesced (my_stats s))
                (with_jobs (my_queue s) inflight (my_pending_reads s) s), m)
      | None =>
          if my_stopping s || (my_pending_reads s >=? ms_read_queue_limit (my_stats s)) then (-1, s, m) else
          let '(job, m) := malloc m in
          let '(copy, m) := if job then malloc m else (false, m) in
          if negb (job && copy) then (-1, s, m) else
          (1, with_jobs (my_queue s ++ [key]) (mk_load_job key [waiter] :: my_inflight s)
                (my_pending_reads s + 1) s, m)
      end
  end.

Definition mysql_store_can_accept_write (s : mysql_store) (encoded_bytes : Z) : bool :=
  if encoded_bytes =? 0 then false else
  negb (my_stopping s) && (encoded_bytes <=? ms_write_queue_max_bytes (my_stats s)) &&
  (my_pending_write_bytes s <=? ms_write_queue_max_bytes (my_stats s) - encoded_bytes).

(** The total length of the arguments, [None] on overflow. *)
Definition payload_bytes (arguments : list (list Z)) : option Z :=
  fold_left (fun total a => total ≫= fun t => if zlen a >? SIZE_MAX - t then None else Some (t + zlen a))
    arguments (Some 0).

Definition mysql_store_submit_mutation (m : mem) (s : mysql_store) (sequence : Z)
    (arguments : list (list Z)) (encoded_bytes : Z) : Z * mysql_store * mem :=
  if (sequence =? 0) || (zlen arguments <? 2) || (encoded_bytes =? 0) then (-1, s, m) else
  match payload_bytes arguments with
  | None => (-1, s, m)
  | Some _ =>
      let '(job, m) := malloc m in
      if negb job then (-1, s, m) else
      let '(ok1, m) := malloc m in
      let '(ok2, m) := malloc m in
      if negb (ok1 && ok2) then (-1, s, m) else
      if my_stopping s || (encoded_bytes >? ms_write_queue_max_bytes (my_stats s)) ||
         (my_pending_write_bytes s >? ms_write_queue_max_bytes (my_stats s) - encoded_bytes)
      then (-1, s, m) else
      (0, with_mysql_stats (count_submitted sequence (my_stats s))
            (with_writes (my_writes s ++ [mk_write_job sequence arguments encoded_bytes])
               (my_pending_write_bytes s + encoded_bytes) s), m)
  end.

Definition mysql_store_take_load_results (s : mysql_store) : list mysql_store_load_result * mysql_store :=
  (my_completed s, with_completed [] s).

Definition mysql_store_get_stats (s : mysql_store) : mysql_store_stats :=
  let x := my_stats s in
  mk_mysql_stats (ms_read_workers x) (my_connected_readers s) (ms_connected_writer x) (my_pending_reads s)
    (ms_read_queue_limit x) (my_pending_write_bytes s) (ms_write_queue_max_bytes x) (ms_load_max_bytes x)
    (ms_submitted x) (ms_applied x) (ms_loads x) (ms_coalesced x)
    (ms_negative_hits x) (ms_load_errors x) (ms_write_errors x) (ms_reconnects x) (ms_last_error x).

Definition mysql_store_note_negative_hit (s : mysql_store) : mysql_store :=
  with_mysql_stats (count_negative_hit (my_stats s)) s.
