(* ===== verification/MysqlThreads.v ===== *)
(** The threads of [src/storage/mysql_store.c]: the readers that load keys from
    the database ([reader_main]), the writer that applies mutations
    ([writer_main]) and the shutdown ([mysql_store_close]), as steps between
    the regions under [store->mutex].

    A step that talks to the database takes the answer as its event.  The
    history records what the main thread handed over and got back. *)

From S2P Require Import Prelude Object MysqlStore.

(** ** Readers *)

(** Where a reader is; a job in hand is its key. *)
Inductive reader_pc : Type :=
| RStart
| RTop
| RAllocate (key : list Z)
| RReconnect (key : list Z)
| RLoad (key : list Z)
| RCollect (key : list Z) (status : mysql_store_status) (found : option (kv_object * Z)) (number : Z)
| RFinish (key : list Z) (result : option mysql_store_load_result)
| RExit
| RDone.

Record mysql_reader : Type := mk_reader { rd_pc : reader_pc; rd_connected : bool }.

(** The answers of [connect_database], [calloc] and [load_object]. *)
Inductive reader_event : Type :=
| RRun
| RConnected (ok : bool)
| RAllocated (ok : bool)
| RLoaded (status : mysql_store_status) (found : option (kv_object * Z)) (number : Z).

Fixpoint remove_inflight (key : list Z) (l : list mysql_load_job) : list mysql_load_job :=
  match l with
  | [] => []
  | job :: l => if bool_decide (lj_key job = key) then l else job :: remove_inflight key l
  end.

(** [job->waiters] *)
Fixpoint job_waiters (key : list Z) (l : list mysql_load_job) : list context :=
  match l with
  | [] => []
  | job :: l => if bool_decide (lj_key job = key) then lj_waiters job else job_waiters key l
  end.

Definition count_connected (ok : bool) (s : mysql_store) : mysql_store :=
  if ok then with_readers (my_connected_readers s + 1) s else s.

Definition count_disconnected (s : mysql_store) : mysql_store :=
  if my_connected_readers s >? 0 then with_readers (my_connected_readers s - 1) s else s.

(** The head of the queue is taken, or the reader leaves. *)
Definition reader_top (s : mysql_store) : option (reader_pc * mysql_store) :=
  if my_stopping s then Some (RExit, s) else
  match my_queue s with
  | [] => None
  | key :: queue => Some (RAllocate key, with_jobs queue (my_inflight s) (my_pending_reads s) s)
  end.

(** The region under the mutex that publishes a result. *)
Definition reader_finish (key : list Z) (result : option mysql_store_load_result) (s : mysql_store) : mysql_store :=
  let waiters := job_waiters key (my_inflight s) in
  let pending := if my_pending_reads s >? 0 then my_pending_reads s - 1 else my_pending_reads s in
  let s := with_jobs (my_queue s) (remove_inflight key (my_inflight s)) pending s in
  let failed := match result with None => true | Some r => negb (bool_decide (lr_status r = MYSQL_STORE_OK)) end in
  let s := with_mysql_stats (count_load failed (lr_mysql_error <$> result) (my_stats s)) s in
  match result with
  | Some r => with_completed (my_completed s ++ [r]) s
  | None => with_destroyed (my_destroyed s ++ waiters) s
  end.

(** [None]: the reader waits, or the event does not fit. *)
Definition reader_step (ev : reader_event) (r : mysql_reader) (s : mysql_store)
  : option (mysql_reader * mysql_store) :=
  match rd_pc r, ev with
  | RStart, RConnected ok => Some (mk_reader RTop ok, count_connected ok s)
  | RTop, RRun => '(pc, s) ← reader_top s; Some (mk_reader pc (rd_connected r), s)
  | RAllocate key, RAllocated ok =>
      let pc := if negb ok then RFinish key None else if rd_connected r then RLoad key else RReconnect key in
      Some (mk_reader pc (rd_connected r), s)
  | RReconnect key, RConnected ok =>
      if ok then Some (mk_reader (RLoad key) true, with_mysql_stats (count_reconnect false (my_stats s)) (count_connected true s))
      else Some (mk_reader (RCollect key MYSQL_STORE_UNAVAILABLE None 0) false, s)
  | RLoad key, RLoaded status found number =>
      let pc := RCollect key status found number in
      if bool_decide (status = MYSQL_STORE_UNAVAILABLE) then Some (mk_reader pc false, count_disconnected s)
      else Some (mk_reader pc (rd_connected r), s)
  | RCollect key status found number, RRun =>
      Some (mk_reader (RFinish key (Some (mk_load_result status found (job_waiters key (my_inflight s)) number))) (rd_connected r), s)
  | RFinish key result, RRun => Some (mk_reader RTop (rd_connected r), reader_finish key result s)
  | RExit, RRun => Some (mk_reader RDone false, if rd_connected r then count_disconnected s else s)
  | _, _ => None
  end.

(** ** The writer *)

Inductive store_writer_pc : Type :=
| SWStart
| SWTop
| SWCheck (job : mysql_write_job)
| SWConnect (job : mysql_write_job)
| SWQuery (job : mysql_write_job)
| SWApply (job : mysql_write_job)
| SWFail (job : mysql_write_job) (number : Z)
| SWFinish (job : mysql_write_job) (applied : bool)
| SWExit
| SWDone.

Record mysql_writer : Type := mk_writer { wr_pc : store_writer_pc; wr_connected : bool }.

(** The answers of the clock, of [connect_database], [mutation_is_applied] and
    [apply_mutation]; a failure comes with [mysql_errno]. *)
Inductive store_writer_event : Type :=
| SWRun
| SWClock (now : Z)
| SWConnected (ok : bool)
| SWState (state : Z)
| SWResult (result number : Z).

Definition writer_take (s : mysql_store) : option (store_writer_pc * mysql_store) :=
  match my_writes s with
  | [] => if my_stopping s then Some (SWExit, s) else None
  | job :: writes => Some (SWCheck job, with_writes writes (my_pending_write_bytes s) s)
  end.

Definition writer_finish (job : mysql_write_job) (applied : bool) (s : mysql_store) : mysql_store :=
  let bytes := if my_pending_write_bytes s >=? wj_encoded_bytes job
               then my_pending_write_bytes s - wj_encoded_bytes job else 0 in
  let s := with_writes (my_writes s) bytes s in
  if applied then with_mysql_stats (count_applied (wj_sequence job) (my_stats s)) s else s.

Definition store_writer_step (ev : store_writer_event) (w : mysql_writer) (s : mysql_store)
  : option (mysql_writer * mysql_store) :=
  match wr_pc w, ev with
  | SWStart, SWConnected ok =>
      Some (mk_writer SWTop ok, with_mysql_stats (note_writer ok false (ms_last_error (my_stats s)) (my_stats s)) s)
  | SWTop, SWRun => '(pc, s) ← writer_take s; Some (mk_writer pc (wr_connected w), s)
  | SWCheck job, SWClock now =>
      let pc := if my_stopping s && (now >=? my_shutdown_deadline s) then SWFinish job false
                else if wr_connected w then SWQuery job else SWConnect job in
      Some (mk_writer pc (wr_connected w), s)
  | SWConnect job, SWConnected ok =>
      if ok then Some (mk_writer (SWQuery job) true, with_mysql_stats (count_reconnect true (my_stats s)) s)
      else Some (mk_writer (SWCheck job) false,
                 with_mysql_stats (note_writer (ms_connected_writer (my_stats s)) false 1 (my_stats s)) s)
  | SWQuery job, SWState state =>
      Some (mk_writer (if state =? 1 then SWFinish job true else SWApply job) (wr_connected w), s)
  | SWApply job, SWResult result number =>
      Some (mk_writer (if result =? 0 then SWFinish job true else SWFail job number) (wr_connected w), s)
  | SWFail job number, SWRun =>
      Some (mk_writer (SWCheck job) false, with_mysql_stats (note_writer false true number (my_stats s)) s)
  | SWFinish job applied, SWRun =>
      Some (mk_writer (if applied then SWTop else SWExit) (wr_connected w), writer_finish job applied s)
  | SWExit, SWRun =>
      Some (mk_writer SWDone false, with_mysql_stats (note_writer false false (ms_last_error (my_stats s)) (my_stats s)) s)
  | _, _ => None
  end.

(** ** Shutdown *)

(** [mysql_store_close] up to the joins. *)
Definition close_begin (now drain_timeout_ms : Z) (s : mysql_store) : mysql_store :=
  mk_mysql (my_queue s) (my_inflight s) (my_completed s) (my_writes s) (my_pending_write_bytes s)
    (my_pending_reads s) (my_connected_readers s) true
    (if drain_timeout_ms <=? UINT64_MAX - now then now + drain_timeout_ms else UINT64_MAX)
    (my_stats s) (my_destroyed s).

(** After the joins: the contexts of results that nobody took and of jobs that
    no reader took are destroyed, in this order; jobs left in [my_writes] are
    dropped. *)
Definition close_end (s : mysql_store) : mysql_store :=
  let contexts := (my_completed s ≫= lr_waiters) ++ (my_queue s ≫= fun key => job_waiters key (my_inflight s)) in
  with_destroyed (my_destroyed s ++ contexts) (with_completed [] (with_jobs [] [] (my_pending_reads s) s)).

(** ** The threads together *)

Inductive main_pc : Type := MRunning | MClosing | MClosed.

(** What the main thread handed over and got back. *)
Record store_history : Type := mk_store_history {
  sh_accepted : list context; sh_delivered : list context;
  sh_mutations : list mysql_write_job; sh_finished : list (mysql_write_job * bool)
}.

Record store_system : Type := mk_store_system {
  ss_store : mysql_store; ss_readers : list mysql_reader; ss_writer : mysql_writer; ss_main : main_pc;
  ss_history : store_history
}.

Definition accept_waiter (r : Z) (waiter : context) (h : store_history) : store_history :=
  if r <? 0 then h
  else mk_store_history (sh_accepted h ++ [waiter]) (sh_delivered h) (sh_mutations h) (sh_finished h).

Definition deliver (l : list mysql_store_load_result) (h : store_history) : store_history :=
  mk_store_history (sh_accepted h) (sh_delivered h ++ (l ≫= lr_waiters)) (sh_mutations h) (sh_finished h).

Definition accept_mutation (r : Z) (job : mysql_write_job) (h : store_history) : store_history :=
  if r =? 0 then mk_store_history (sh_accepted h) (sh_delivered h) (sh_mutations h ++ [job]) (sh_finished h) else h.

Definition note_finished (w : mysql_writer) (h : store_history) : store_history :=
  match wr_pc w with
  | SWFinish job applied => mk_store_history (sh_accepted h) (sh_delivered h) (sh_mutations h) (sh_finished h ++ [(job, applied)])
  | _ => h
  end.

(** A reader is about to publish the result for [key]. *)
Definition publishing (key : list Z) (r : mysql_reader) : bool :=
  match rd_pc r with RFinish k (Some _) => bool_decide (k = key) | _ => false end.

Definition joined_all (s : store_system) : bool :=
  forallb (fun r => match rd_pc r with RDone => true | _ => false end) (ss_readers s) &&
  match wr_pc (ss_writer s) with SWDone => true | _ => false end.

Definition opened_store (s : mysql_store) : store_system :=
  mk_store_system s (replicate (Z.to_nat (ms_read_workers (my_stats s))) (mk_reader RStart false)) (mk_writer SWStart false) MRunning
    (mk_store_history [] [] [] []).

(** One step; with [strict] no load is submitted for a key whose result a
    reader is about to publish. *)
Inductive store_step (strict : bool) : store_system -> store_system -> Prop :=
| step_submit_load s m key waiter r st m' :
    ss_main s = MRunning -> (strict = true -> forallb (fun x => negb (publishing key x)) (ss_readers s) = true) ->
    mysql_store_submit_load m (ss_store s) (Some key) waiter = (r, st, m') ->
    store_step strict s (mk_store_system st (ss_readers s) (ss_writer s) MRunning (accept_waiter r waiter (ss_history s)))
| step_submit_mutation s m sequence arguments encoded r st m' :
    ss_main s = MRunning -> 0 <= encoded <= SIZE_MAX -> mysql_store_submit_mutation m (ss_store s) sequence arguments encoded = (r, st, m') ->
    store_step strict s (mk_store_system st (ss_readers s) (ss_writer s) MRunning
      (accept_mutation r (mk_write_job sequence arguments encoded) (ss_history s)))
| step_take s l st :
    ss_main s = MRunning -> mysql_store_take_load_results (ss_store s) = (l, st) ->
    store_step strict s (mk_store_system st (ss_readers s) (ss_writer s) MRunning (deliver l (ss_history s)))
| step_negative_hit s :
    ss_main s = MRunning ->
    store_step strict s (mk_store_system (mysql_store_note_negative_hit (ss_store s)) (ss_readers s) (ss_writer s) MRunning (ss_history s))
| step_reader s i r ev r' st :
    ss_readers s !! i = Some r -> reader_step ev r (ss_store s) = Some (r', st) ->
    store_step strict s (mk_store_system st (<[i := r']> (ss_readers s)) (ss_writer s) (ss_main s) (ss_history s))
| step_store_writer s ev w' st :
    store_writer_step ev (ss_writer s) (ss_store s) = Some (w', st) ->
    store_step strict s (mk_store_system st (ss_readers s) w' (ss_main s) (note_finished (ss_writer s) (ss_history s)))
| step_close_begin s now timeout :
    ss_main s = MRunning ->
    store_step strict s (mk_store_system (close_begin now timeout (ss_store s)) (ss_readers s) (ss_writer s) MClosing (ss_history s))
| step_close_end s :
    ss_main s = MClosing -> joined_all s = true ->
    store_step strict s (mk_store_system (close_end (ss_store s)) (ss_readers s) (ss_writer s) MClosed (ss_history s)).

Inductive store_reach (strict : bool) (s0 : mysql_store) : store_system -> Prop :=
| store_reach_open : store_reach strict s0 (opened_store s0)
| store_reach_step s s' : store_reach strict s0 s -> store_step strict s s' -> store_reach strict s0 s'.

(** ** The invariant *)

(** The job a reader has in hand. *)
Definition held_key (r : mysql_reader) : list (list Z) :=
  match rd_pc r with
  | RAllocate key | RReconnect key | RLoad key | RCollect key _ _ _ | RFinish key _ => [key]
  | _ => []
  end.

Definition connection_of (r : mysql_reader) : list unit := if rd_connected r then [tt] else [].

(** A reader that has not started or has ended has no connection; a reader
    that loads has one. *)
Definition reader_ok (r : mysql_reader) : Prop :=
  match rd_pc r with
  | RStart | RDone | RReconnect _ => rd_connected r = false
  | RLoad _ => rd_connected r = true
  | _ => True
  end.

Record loads_ok (s : mysql_store) (rs : list mysql_reader) : Prop := {
  lo_unique : NoDup (lj_key <$> my_inflight s);
  lo_keys : my_queue s ++ (rs ≫= held_key) ≡ₚ lj_key <$> my_inflight s;
  lo_pending : my_pending_reads s = zlen (my_inflight s);
  lo_limit : my_pending_reads s <= ms_read_queue_limit (my_stats s);
  lo_connected : my_connected_readers s = zlen (rs ≫= connection_of);
  lo_readers : Forall reader_ok rs
}.

#[export] Instance loads_ok_perm s : Proper ((≡ₚ) ==> iff) (loads_ok s).
Proof.
  assert (Hd : forall rs rs', rs ≡ₚ rs' -> loads_ok s rs -> loads_ok s rs').
  { intros rs rs' E [L1 L2 L3 L4 L5 L6]. split; try done.
    - by rewrite <- E.
    - rewrite L5. unfold zlen. by rewrite (Permutation_length (bind_Permutation connection_of _ _ E)).
    - by rewrite <- E. }
  intros rs rs' E. split; by apply Hd.
Qed.

Lemma readers_split (rs : list mysql_reader) i r :
  rs !! i = Some r -> exists others, rs ≡ₚ r :: others /\ forall r', <[i := r']> rs ≡ₚ r' :: others.
Proof.
  intros Hi. exists (take i rs ++ drop (S i) rs). split.
  - rewrite <- (take_drop_middle rs i r Hi) at 1. symmetry. apply Permutation_middle.
  - intros r'. rewrite insert_take_drop by (by eapply lookup_lt_Some). symmetry. apply Permutation_middle.
Qed.

(** *** Jobs in flight *)

Lemma remove_inflight_keys key l :
  key ∈ lj_key <$> l -> lj_key <$> l ≡ₚ key :: (lj_key <$> remove_inflight key l).
Proof.
  induction l as [|job l IH]; cbn; intros Hin; [by apply not_elem_of_nil in Hin|]. case_bool_decide as E; [by rewrite E|].
  apply elem_of_cons in Hin as [->|Hin]; [done|]. cbn. rewrite (IH Hin). apply Permutation_swap.
Qed.

Lemma remove_inflight_waiters key l :
  key ∈ lj_key <$> l -> (l ≫= lj_waiters) ≡ₚ job_waiters key l ++ (remove_inflight key l ≫= lj_waiters).
Proof.
  induction l as [|job l IH]; cbn; intros Hin; [by apply not_elem_of_nil in Hin|]. case_bool_decide as E; [done|].
  apply elem_of_cons in Hin as [->|Hin]; [done|]. cbn. rewrite (IH Hin). rewrite !app_assoc. apply Permutation_app_tail, Permutation_app_comm.
Qed.

Lemma job_waiters_other key k l : NoDup (lj_key <$> l) -> k <> key -> job_waiters k (remove_inflight key l) = job_waiters k l.
Proof.
  intros Hn Hk. induction l as [|job l IH]; cbn in *; [done|]. apply NoDup_cons in Hn as [_ Hn].
  destruct (bool_decide (lj_key job = key)) eqn:E; cbn; [apply bool_decide_eq_true in E; by rewrite bool_decide_false by congruence|].
  by rewrite IH.
Qed.

Lemma join_inflight_some key waiter l l' :
  join_inflight key waiter l = Some l' ->
  lj_key <$> l' = lj_key <$> l /\ (l' ≫= lj_waiters) ≡ₚ waiter :: (l ≫= lj_waiters) /\
  forall k, k <> key -> job_waiters k l' = job_waiters k l.
Proof.
  revert l'. induction l as [|job l IH]; intros l'; cbn [join_inflight]; [done|].
  destruct ((zlen (lj_key job) =? zlen key) && bool_decide (lj_key job = key)) eqn:E.
  - intros [= <-]. apply andb_true_iff in E as [_ E]. apply bool_decide_eq_true in E. split; [done|]. split; [done|].
    intros k Hk. cbn. by rewrite bool_decide_false by congruence.
  - intros (l1 & E1 & ->)%fmap_Some. destruct (IH l1 E1) as (I1 & I2 & I3). split; [cbn; by rewrite I1|]. split.
    + cbn. rewrite I2. symmetry. apply Permutation_middle.
    + intros k Hk. cbn. by rewrite I3.
Qed.

Lemma join_inflight_none key waiter l : join_inflight key waiter l = None -> key ∉ lj_key <$> l.
Proof.
  induction l as [|job l IH]; cbn [join_inflight fmap list_fmap]; [intros _; apply not_elem_of_nil|].
  destruct ((zlen (lj_key job) =? zlen key) && bool_decide (lj_key job = key)) eqn:E; [done|].
  intros H1%fmap_None. apply not_elem_of_cons. split; [|by apply IH]. intros ->. rewrite Z.eqb_refl, bool_decide_true in E; done.
Qed.

Lemma held_inflight s rs r key : loads_ok s rs -> r ∈ rs -> key ∈ held_key r -> key ∈ lj_key <$> my_inflight s.
Proof.
  intros L Hr Hk. rewrite <- (lo_keys _ _ L). apply elem_of_app. right. apply list_elem_of_bind. by exists r.
Qed.

(** Two readers do not have the same job. *)
Lemma held_apart s r others x key : loads_ok s (r :: others) -> x ∈ others -> key ∈ held_key r -> key ∉ held_key x.
Proof.
  intros L Hx Hr Hk. assert (Hn : NoDup (my_queue s ++ ((r :: others) ≫= held_key))) by (rewrite (lo_keys _ _ L); apply L).
  apply NoDup_app in Hn as (_ & _ & Hn). cbn in Hn. apply NoDup_app in Hn as (_ & Hd & _). apply (Hd key Hr), list_elem_of_bind. by exists x.
Qed.

(** *** Readers keep the invariant *)

(** Changes of a store that the loads do not see. *)
Definition same_loads (s s' : mysql_store) : Prop :=
  my_queue s' = my_queue s /\ my_inflight s' = my_inflight s /\ my_pending_reads s' = my_pending_reads s /\
  ms_read_queue_limit (my_stats s') = ms_read_queue_limit (my_stats s) /\ my_connected_readers s' = my_connected_readers s.

Lemma loads_ok_same s s' rs : same_loads s s' -> loads_ok s rs -> loads_ok s' rs.
Proof. intros (E1 & E2 & E3 & E4 & E5) [L1 L2 L3 L4 L5 L6]. split; congruence || by rewrite ?E1, ?E2, ?E3, ?E4. Qed.

Lemma loads_connect ok s r others pc :
  loads_ok s (r :: others) -> rd_connected r = false -> held_key (mk_reader pc ok) = held_key r -> reader_ok (mk_reader pc ok) ->
  loads_ok (count_connected ok s) (mk_reader pc ok :: others).
Proof.
  intros [L1 L2 L3 L4 L5 L6] Hr Hh Hok. apply Forall_cons in L6 as [_ L6]. cbn [mbind list_bind] in *. rewrite <- Hh in L2. unfold count_connected.
  destruct ok; (split; try done; [|by constructor]); cbn [with_readers my_connected_readers mbind list_bind]; unfold connection_of at 1; cbn [rd_connected app].
  - rewrite L5. unfold connection_of at 1. by rewrite Hr, zlen_cons, Z.add_comm.
  - rewrite L5. unfold connection_of at 1. by rewrite Hr.
Qed.

Lemma loads_disconnect s r others pc :
  loads_ok s (r :: others) -> rd_connected r = true -> held_key (mk_reader pc false) = held_key r -> reader_ok (mk_reader pc false) ->
  loads_ok (count_disconnected s) (mk_reader pc false :: others).
Proof.
  intros [L1 L2 L3 L4 L5 L6] Hr Hh Hok. apply Forall_cons in L6 as [_ L6]. cbn [mbind list_bind] in *. rewrite <- Hh in L2. unfold count_disconnected.
  unfold connection_of at 1 in L5. rewrite Hr, zlen_app in L5. change (zlen [()]) with 1 in L5. pose proof (zlen_nonneg (others ≫= connection_of)) as Hz.
  cbn [mbind list_bind] in Hz. destruct (Z.gtb_spec (my_connected_readers s) 0); [|lia].
  split; try done; [|by constructor]. cbn [with_readers my_connected_readers mbind list_bind]. unfold connection_of at 1. cbn [rd_connected app]. lia.
Qed.

Lemma loads_move s r others pc :
  loads_ok s (r :: others) -> held_key (mk_reader pc (rd_connected r)) = held_key r -> reader_ok (mk_reader pc (rd_connected r)) ->
  loads_ok s (mk_reader pc (rd_connected r) :: others).
Proof.
  intros [L1 L2 L3 L4 L5 L6] Hh Hok. apply Forall_cons in L6 as [_ L6]. cbn [mbind list_bind] in *. rewrite <- Hh in L2.
  split; try done. by constructor.
Qed.

Lemma loads_finish s r others key result :
  loads_ok s (r :: others) -> rd_pc r = RFinish key result ->
  loads_ok (reader_finish key result s) (mk_reader RTop (rd_connected r) :: others).
Proof.
  intros L Hpc. assert (Hk : held_key r = [key]) by (unfold held_key; by rewrite Hpc).
  assert (Hin : key ∈ lj_key <$> my_inflight s) by (eapply held_inflight; [done|by left|rewrite Hk; by left]).
  destruct L as [L1 L2 L3 L4 L5 L6]. apply Forall_cons in L6 as [_ L6]. cbn [mbind list_bind] in *. rewrite Hk in L2.
  pose proof (remove_inflight_keys key (my_inflight s) Hin) as Hp.
  assert (Hlen : zlen (my_inflight s) = zlen (remove_inflight key (my_inflight s)) + 1).
  { apply Permutation_length in Hp. cbn in Hp. rewrite !length_fmap in Hp. unfold zlen. lia. }
  pose proof (zlen_nonneg (remove_inflight key (my_inflight s))) as Hz.
  assert (Hs : same_loads (with_jobs (my_queue s) (remove_inflight key (my_inflight s)) (my_pending_reads s - 1) s) (reader_finish key result s)).
  { unfold reader_finish. destruct (Z.gtb_spec (my_pending_reads s) 0); [|lia]. by destruct result. }
  apply (loads_ok_same _ _ _ Hs). split; cbn [with_jobs my_inflight my_queue my_pending_reads my_stats my_connected_readers mbind list_bind held_key rd_pc app].
  - rewrite Hp in L1. by apply NoDup_cons in L1 as [_ ?].
  - rewrite Hp in L2. cbn [app] in L2. rewrite <- Permutation_middle in L2. by apply Permutation_cons_inv in L2.
  - lia.
  - lia.
  - done.
  - by constructor.
Qed.

Lemma reader_step_loads s r others ev r' s' :
  loads_ok s (r :: others) -> reader_step ev r s = Some (r', s') -> loads_ok s' (r' :: others).
Proof.
  intros L E. pose proof (lo_readers _ _ L) as Hok. apply Forall_cons in Hok as [Hok _]. unfold reader_ok in Hok. unfold reader_step in E.
  destruct (rd_pc r) as [| |key|key|key|key st fd no|key res| |] eqn:Hpc; destruct ev; try done.
  - injection E as <- <-. apply (loads_connect _ _ r); try done. unfold held_key. by rewrite Hpc.
  - unfold reader_top in E. destruct (my_stopping s).
    { injection E as <- <-. apply loads_move; [done|unfold held_key; by rewrite Hpc|done]. }
    destruct (my_queue s) as [|key queue] eqn:Hq; [done|]. injection E as <- <-.
    destruct L as [L1 L2 L3 L4 L5 L6]. apply Forall_cons in L6 as [_ L6]. rewrite Hq in L2. cbn [mbind list_bind] in *. unfold held_key at 1 in L2. rewrite Hpc in L2.
    split; try done; [|by constructor]. cbn [with_jobs my_queue my_inflight mbind list_bind held_key rd_pc app] in *. by rewrite <- Permutation_middle.
  - injection E as <- <-. apply loads_move; [done|unfold held_key; rewrite Hpc; by destruct ok, (rd_connected r)|by destruct ok, (rd_connected r) eqn:?].
  - destruct ok; injection E as <- <-.
    + eapply (loads_ok_same (count_connected true s)); [done|]. apply (loads_connect true _ r); try done. unfold held_key. by rewrite Hpc.
    + rewrite <- Hok. apply loads_move; [done|unfold held_key; by rewrite Hpc|done].
  - case_bool_decide; injection E as <- <-.
    + apply (loads_disconnect _ r); try done. unfold held_key. by rewrite Hpc.
    + apply loads_move; [done|unfold held_key; by rewrite Hpc|done].
  - injection E as <- <-. apply loads_move; [done|unfold held_key; by rewrite Hpc|done].
  - injection E as <- <-. by apply loads_finish.
  - destruct (rd_connected r) eqn:Hc; injection E as <- <-.
    + apply (loads_disconnect _ r); try done. unfold held_key. by rewrite Hpc.
    + rewrite <- Hc. apply loads_move; [done|unfold held_key; by rewrite Hpc|done].
Qed.

(** *** The main thread keeps the invariant *)

Lemma submit_load_loads m s key waiter rs :
  loads_ok s rs -> let '(r, s', _) := mysql_store_submit_load m s (Some key) waiter in loads_ok s' rs.
Proof.
  intros L. unfold mysql_store_submit_load. destruct (malloc m) as [[] m1]; [|done]. cbn [negb].
  destruct (join_inflight key waiter (my_inflight s)) as [l|] eqn:Ej.
  - destruct (join_inflight_some _ _ _ _ Ej) as (J1 & _ & _). destruct L as [L1 L2 L3 L4 L5 L6]. split; cbn [with_mysql_stats with_jobs my_inflight my_queue my_pending_reads my_stats my_connected_readers count_coalesced ms_read_queue_limit]; try done.
    + by rewrite J1.
    + by rewrite J1.
    + rewrite L3. apply (f_equal length) in J1. rewrite !length_fmap in J1. unfold zlen. lia.
  - destruct (my_stopping s || (my_pending_reads s >=? ms_read_queue_limit (my_stats s))) eqn:Eb; [done|]. destruct (malloc m1) as [job m2].
    destruct (if job then malloc m2 else (false, m2)) as [copy m3]. destruct (negb (job && copy)); [done|].
    apply join_inflight_none in Ej. apply orb_false_iff in Eb as [_ Eb]. rewrite Z.geb_leb in Eb. apply Z.leb_gt in Eb. destruct L as [L1 L2 L3 L4 L5 L6].
    split; cbn [with_jobs my_inflight my_queue my_pending_reads my_stats my_connected_readers fmap list_fmap lj_key]; try done.
    + by constructor.
    + rewrite <- app_assoc. cbn [app]. rewrite <- Permutation_middle. by constructor.
    + rewrite zlen_cons. lia.
    + lia.
Qed.

Lemma submit_mutation_same m s sequence arguments encoded :
  let '(r, s', _) := mysql_store_submit_mutation m s sequence arguments encoded in
  same_loads s s' /\ my_completed s' = my_completed s /\ my_destroyed s' = my_destroyed s.
Proof.
  unfold mysql_store_submit_mutation. destruct (_ || _); [done|]. destruct (payload_bytes arguments); [|done].
  destruct (malloc m) as [[] m1]; [|done]. cbn [negb]. destruct (malloc m1) as [ok1 m2]. destruct (malloc m2) as [ok2 m3]. destruct (negb _); [done|].
  by destruct (_ || _).
Qed.

Lemma writer_step_same ev w s w' s' :
  store_writer_step ev w s = Some (w', s') -> same_loads s s' /\ my_completed s' = my_completed s /\ my_destroyed s' = my_destroyed s /\ my_stopping s' = my_stopping s.
Proof.
  unfold store_writer_step. destruct (wr_pc w) as [| |job|job|job|job|job no|job ap| |], ev; try done; try (by intros [= <- <-]).
  - unfold writer_take. destruct (my_writes s); [destruct (my_stopping s) eqn:Es; [|done]|]; cbn; by intros [= <- <-].
  - destruct ok; by intros [= <- <-].
  - intros [= <- <-]. unfold writer_finish. by destruct ap.
Qed.

(** ** Mutations *)

Definition held_job (w : mysql_writer) : list mysql_write_job :=
  match wr_pc w with
  | SWCheck job | SWConnect job | SWQuery job | SWApply job | SWFail job _ | SWFinish job _ => [job]
  | _ => []
  end.

Definition total_bytes (l : list mysql_write_job) : Z := foldr (fun job n => wj_encoded_bytes job + n) 0 l.

Lemma total_bytes_app l k : total_bytes (l ++ k) = total_bytes l + total_bytes k.
Proof. unfold total_bytes. induction l as [|job l IH]; cbn; [done|]. rewrite IH. lia. Qed.

Record writes_ok (s : mysql_store) (w : mysql_writer) (h : store_history) : Prop := {
  wo_bytes : my_pending_write_bytes s = total_bytes (held_job w ++ my_writes s);
  wo_positive : Forall (fun job => 0 < wj_encoded_bytes job) (held_job w ++ my_writes s);
  wo_limit : my_pending_write_bytes s <= ms_write_queue_max_bytes (my_stats s) \/ my_pending_write_bytes s = 0;
  wo_order : sh_mutations h = (sh_finished h).*1 ++ held_job w ++ my_writes s;
  wo_applied : Forall (fun x => x.2 = true) (sh_finished h) \/
    (wr_pc w = SWExit \/ wr_pc w = SWDone) /\ exists l job, sh_finished h = l ++ [(job, false)] /\ Forall (fun x => x.2 = true) l;
  wo_connected : match wr_pc w with SWQuery _ | SWApply _ => wr_connected w = true | SWStart | SWDone => wr_connected w = false | _ => True end
}.

Lemma total_bytes_nonneg l : Forall (fun job => 0 < wj_encoded_bytes job) l -> 0 <= total_bytes l.
Proof. unfold total_bytes. induction 1 as [|job l Hj _ IH]; cbn; lia. Qed.

Lemma submit_mutation_writes m s w h sequence arguments encoded :
  writes_ok s w h -> 0 <= encoded ->
  let '(r, s', _) := mysql_store_submit_mutation m s sequence arguments encoded in
  writes_ok s' w (accept_mutation r (mk_write_job sequence arguments encoded) h).
Proof.
  intros Hw He. unfold mysql_store_submit_mutation. destruct ((sequence =? 0) || (zlen arguments <? 2) || (encoded =? 0)) eqn:E0; [done|].
  apply orb_false_iff in E0 as [_ E0]. apply Z.eqb_neq in E0. destruct (payload_bytes arguments); [|done].
  destruct (malloc m) as [[] m1]; [|done]. cbn [negb]. destruct (malloc m1) as [ok1 m2]. destruct (malloc m2) as [ok2 m3]. destruct (negb _); [done|].
  destruct (_ || _) eqn:Eb; [done|]. apply orb_false_iff in Eb as [_ Eb]. rewrite Z.gtb_ltb in Eb. apply Z.ltb_ge in Eb.
  destruct Hw as [W1 W2 W3 W4 W5 W6]. unfold accept_mutation. cbn [Z.eqb]. split; cbn [with_mysql_stats with_writes my_pending_write_bytes my_writes my_stats count_submitted ms_write_queue_max_bytes sh_mutations sh_finished]; try done.
  - rewrite app_assoc, total_bytes_app, <- W1. cbn. lia.
  - rewrite app_assoc. apply Forall_app. split; [done|]. constructor; [cbn; lia|constructor].
  - left. lia.
  - by rewrite W4, <- !app_assoc.
Qed.

Lemma writer_step_writes ev w s w' s' h :
  writes_ok s w h -> store_writer_step ev w s = Some (w', s') -> writes_ok s' w' (note_finished w h).
Proof.
  intros Hw E. destruct Hw as [W1 W2 W3 W4 W5 W6].
  assert (Hmove : forall pc c s1, held_job (mk_writer pc c) = held_job w -> my_writes s1 = my_writes s -> my_pending_write_bytes s1 = my_pending_write_bytes s ->
    ms_write_queue_max_bytes (my_stats s1) = ms_write_queue_max_bytes (my_stats s) ->
    (wr_pc w <> SWExit /\ wr_pc w <> SWDone \/ (wr_pc w = SWExit /\ pc = SWDone)) ->
    match pc with SWQuery _ | SWApply _ => c = true | SWStart | SWDone => c = false | _ => True end ->
    writes_ok s1 (mk_writer pc c) h).
  { intros pc c s1 Hh E1 E2 E3 Hpc Hc. split; rewrite ?Hh, ?E1, ?E2, ?E3; try done. destruct W5 as [?|[Hx Hl]]; [by left|]. right. split; [|done].
    destruct Hpc as [[? ?]|[_ ->]]; [by destruct Hx|by right]. }
  unfold store_writer_step in E. unfold note_finished.
  destruct (wr_pc w) as [| |job|job|job|job|job no|job ap| |] eqn:Hpc; destruct ev; try done.
  - injection E as <- <-. apply Hmove; try done; [unfold held_job; by rewrite Hpc|by left].
  - unfold writer_take in E. destruct (my_writes s) as [|job writes] eqn:Hq.
    + destruct (my_stopping s); [|done]. injection E as <- <-. apply Hmove; try done; [unfold held_job; by rewrite Hpc|by left].
    + injection E as <- <-. assert (Hh : held_job w = []) by (unfold held_job; by rewrite Hpc). rewrite Hh in *.
      split; try done. destruct W5 as [?|[[?|?] _]]; [by left|done|done].
  - injection E as <- <-. apply Hmove; try done; [|by left|].
    + unfold held_job. rewrite Hpc. cbn. by destruct (_ && _), (wr_connected w).
    + destruct (_ && _); [done|]. by destruct (wr_connected w).
  - destruct ok; injection E as <- <-; (apply Hmove; try done; [unfold held_job; by rewrite Hpc|by left]).
  - injection E as <- <-. apply Hmove; try done; [unfold held_job; rewrite Hpc; by destruct (state =? 1)|by left|by destruct (state =? 1)].
  - injection E as <- <-. apply Hmove; try done; [unfold held_job; rewrite Hpc; by destruct (result =? 0)|by left|by destruct (result =? 0)].
  - injection E as <- <-. apply Hmove; try done; [unfold held_job; by rewrite Hpc|by left].
  - injection E as <- <-. assert (Hh : held_job w = [job]) by (unfold held_job; by rewrite Hpc). rewrite Hh in *. cbn [app] in *. apply Forall_cons in W2 as [Wj W2].
    pose proof (total_bytes_nonneg _ W2) as Hz. cbn [total_bytes foldr] in W1. fold (total_bytes (my_writes s)) in W1.
    assert (Hfin : Forall (fun x => x.2 = true) (sh_finished h)) by (destruct W5 as [?|[[?|?] _]]; done).
    assert (Hb : (if my_pending_write_bytes s >=? wj_encoded_bytes job then my_pending_write_bytes s - wj_encoded_bytes job else 0) = total_bytes (my_writes s)).
    { destruct (Z.geb_spec (my_pending_write_bytes s) (wj_encoded_bytes job)); lia. }
    unfold writer_finish. rewrite Hb. destruct ap; (split; cbn [with_mysql_stats with_writes my_pending_write_bytes my_writes my_stats held_job wr_pc app sh_mutations sh_finished count_applied ms_write_queue_max_bytes]; try done).
    + left. lia.
    + by rewrite W4, fmap_app, <- app_assoc.
    + left. apply Forall_app. split; [done|]. by constructor.
    + left. lia.
    + by rewrite W4, fmap_app, <- app_assoc.
    + right. split; [by left|]. by exists (sh_finished h), job.
  - injection E as <- <-. apply Hmove; try done; [unfold held_job; by rewrite Hpc|by right].
Qed.
