(* ===== verification/MysqlProps.v ===== *)
(** Properties of the threads of the database store: every waiter that was
    accepted is answered once, mutations are applied in the order of their
    submission within the budget of the queue, and a waiter that joins a load
    whose result is being published is lost. *)

From S2P Require Import Prelude Object MysqlStore MysqlThreads.

(** ** Waiters *)

Record waiters_ok (s : mysql_store) (rs : list mysql_reader) (h : store_history) : Prop := {
  wa_conserved : sh_accepted h ≡ₚ (my_inflight s ≫= lj_waiters) ++ (my_completed s ≫= lr_waiters) ++ sh_delivered h ++ my_destroyed s;
  wa_collected : forall r key res, r ∈ rs -> rd_pc r = RFinish key (Some res) -> lr_waiters res = job_waiters key (my_inflight s)
}.

Lemma waiters_same s s' rs h :
  my_inflight s' = my_inflight s -> my_completed s' = my_completed s -> my_destroyed s' = my_destroyed s -> waiters_ok s rs h -> waiters_ok s' rs h.
Proof. intros E1 E2 E3 [A1 A2]. split; [by rewrite E1, E2, E3|]. rewrite E1. done. Qed.

Lemma waiters_history s rs h h' :
  sh_accepted h' = sh_accepted h -> sh_delivered h' = sh_delivered h -> waiters_ok s rs h -> waiters_ok s rs h'.
Proof. intros E1 E2 [A1 A2]. split; [by rewrite E1, E2|done]. Qed.

Lemma waiters_readers s rs rs' h : rs ≡ₚ rs' -> waiters_ok s rs h -> waiters_ok s rs' h.
Proof. intros E [A1 A2]. split; [done|]. intros r key res Hr. apply A2. by rewrite E. Qed.

Lemma submit_load_waiters m s key waiter rs h :
  waiters_ok s rs h -> forallb (fun x => negb (publishing key x)) rs = true ->
  let '(r, s', _) := mysql_store_submit_load m s (Some key) waiter in waiters_ok s' rs (accept_waiter r waiter h).
Proof.
  intros A Hq. assert (Hk : forall r k res, r ∈ rs -> rd_pc r = RFinish k (Some res) -> k <> key).
  { intros r k res Hr Hpc ->. rewrite forallb_forall in Hq. specialize (Hq r ltac:(by apply list_elem_of_In)). unfold publishing in Hq. rewrite Hpc in Hq.
    by rewrite bool_decide_true in Hq. }
  destruct A as [A1 A2]. unfold mysql_store_submit_load. destruct (malloc m) as [[] m1]; [|done]. cbn [negb].
  destruct (join_inflight key waiter (my_inflight s)) as [l|] eqn:Ej.
  - destruct (join_inflight_some _ _ _ _ Ej) as (_ & J2 & J3). split; cbn [with_mysql_stats with_jobs my_inflight my_completed my_destroyed accept_waiter Z.ltb Z.compare sh_accepted sh_delivered].
    + rewrite J2, A1, (Permutation_app_comm _ [waiter]). done.
    + intros r k res Hr Hpc. rewrite J3 by eauto. eauto.
  - destruct (_ || _); [done|]. destruct (malloc m1) as [job m2]. destruct (if job then malloc m2 else (false, m2)) as [copy m3]. destruct (negb (job && copy)); [done|].
    split; cbn [with_jobs my_inflight my_completed my_destroyed accept_waiter Z.ltb Z.compare sh_accepted sh_delivered].
    + cbn. rewrite A1, (Permutation_app_comm _ [waiter]). done.
    + intros r k res Hr Hpc. cbn. rewrite bool_decide_false by (intros <-; by eapply Hk). eauto.
Qed.

Lemma reader_step_waiters s r others ev r' s' h :
  loads_ok s (r :: others) -> waiters_ok s (r :: others) h -> reader_step ev r s = Some (r', s') -> waiters_ok s' (r' :: others) h.
Proof.
  intros L A E.
  assert (Hmove : forall pc c s1, (forall key res, pc = RFinish key (Some res) -> lr_waiters res = job_waiters key (my_inflight s)) ->
    my_inflight s1 = my_inflight s -> my_completed s1 = my_completed s -> my_destroyed s1 = my_destroyed s -> waiters_ok s1 (mk_reader pc c :: others) h).
  { intros pc c s1 Hpc E1 E2 E3. apply (waiters_same s); [done..|]. destruct A as [A1 A2]. split; [done|]. intros x key res Hx Hx2.
    apply elem_of_cons in Hx as [->|Hx]; [by apply Hpc|]. apply (A2 x key res); [by right|done]. }
  assert (Hcc : forall b, my_inflight (count_connected b s) = my_inflight s /\ my_completed (count_connected b s) = my_completed s /\ my_destroyed (count_connected b s) = my_destroyed s) by by intros [].
  assert (Hcd : my_inflight (count_disconnected s) = my_inflight s /\ my_completed (count_disconnected s) = my_completed s /\ my_destroyed (count_disconnected s) = my_destroyed s).
  { unfold count_disconnected. by destruct (_ >? _). }
  unfold reader_step in E. destruct (rd_pc r) as [| |key|key|key|key st fd no|key res| |] eqn:Hpc; destruct ev; try done.
  - injection E as <- <-. apply Hmove; [done|apply Hcc..].
  - unfold reader_top in E. destruct (my_stopping s); [injection E as <- <-; by apply Hmove|]. destruct (my_queue s); [done|]. injection E as <- <-. by apply Hmove.
  - injection E as <- <-. apply Hmove; try done. intros k res. by destruct ok, (rd_connected r).
  - destruct ok; injection E as <- <-; [|by apply Hmove]. by apply Hmove.
  - case_bool_decide; injection E as <- <-; (apply Hmove; try done; apply Hcd).
  - injection E as <- <-. apply Hmove; try done. by intros k res [= <- <-].
  - injection E as <- <-.
    assert (Hk : held_key r = [key]) by (unfold held_key; by rewrite Hpc).
    assert (Hin : key ∈ lj_key <$> my_inflight s) by (eapply held_inflight; [done|by left|rewrite Hk; by left]).
    pose proof (remove_inflight_waiters key (my_inflight s) Hin) as Hp. destruct A as [A1 A2]. split.
    + rewrite A1, Hp. unfold reader_finish. destruct res as [res|]; cbn.
      * rewrite bind_app. cbn. rewrite app_nil_r, (A2 r key res) by (by left || done). solve_Permutation.
      * solve_Permutation.
    + intros x k res' Hx Hx2. apply elem_of_cons in Hx as [->|Hx]; [done|]. rewrite (A2 x k res') by (by right || done).
      assert (Hne : k <> key). { intros ->. apply (held_apart s r others x key L Hx); [rewrite Hk; by left|]. unfold held_key. rewrite Hx2. by left. }
      pose proof (job_waiters_other key k (my_inflight s) (lo_unique _ _ L) Hne) as Hj. by destruct res.
  - injection E as <- <-. destruct (rd_connected r); apply Hmove; try done; apply Hcd.
Qed.

(** The contexts of the jobs, by their keys. *)
Lemma waiters_by_key l : NoDup (lj_key <$> l) -> ((lj_key <$> l) ≫= fun key => job_waiters key l) = l ≫= lj_waiters.
Proof.
  intros Hn. assert (Hg : forall l1 l2, l = l1 ++ l2 -> ((lj_key <$> l2) ≫= fun key => job_waiters key l) = l2 ≫= lj_waiters); [|by apply (Hg [] l)].
  intros l1 l2. revert l1. induction l2 as [|job l2 IH]; intros l1 El; [done|]. cbn. rewrite (IH (l1 ++ [job])) by (by rewrite <- app_assoc). f_equal.
  clear IH. subst l. induction l1 as [|j l1 IH]; cbn in *; [by rewrite bool_decide_true|]. apply NoDup_cons in Hn as [Hj Hn].
  rewrite bool_decide_false; [by apply IH|]. intros Ej. apply Hj. rewrite Ej, fmap_app. apply elem_of_app. right. by left.
Qed.

(** ** The system *)

Record store_inv (strict : bool) (s : store_system) : Prop := {
  si_loads : ss_main s <> MClosed -> loads_ok (ss_store s) (ss_readers s);
  si_waiters : strict = true -> waiters_ok (ss_store s) (ss_readers s) (ss_history s);
  si_writes : writes_ok (ss_store s) (ss_writer s) (ss_history s);
  si_closed : ss_main s = MClosed -> joined_all s = true /\ my_inflight (ss_store s) = [] /\ my_completed (ss_store s) = []
}.

Lemma joined_held rs : forallb (fun r => match rd_pc r with RDone => true | _ => false end) rs = true -> rs ≫= held_key = [].
Proof.
  induction rs as [|r rs IH]; cbn; [done|]. intros [Hr Hrs]%andb_true_iff. rewrite (IH Hrs). unfold held_key. by destruct (rd_pc r).
Qed.

Lemma joined_readers rs i r ev st :
  forallb (fun r => match rd_pc r with RDone => true | _ => false end) rs = true -> rs !! i = Some r -> reader_step ev r st = None.
Proof.
  intros Hj Hi. rewrite forallb_forall in Hj. specialize (Hj r ltac:(by eapply list_elem_of_In, list_elem_of_lookup_2)). unfold reader_step. by destruct (rd_pc r).
Qed.

Lemma reader_step_writes s r ev r' s' :
  reader_step ev r s = Some (r', s') ->
  my_writes s' = my_writes s /\ my_pending_write_bytes s' = my_pending_write_bytes s /\
  ms_write_queue_max_bytes (my_stats s') = ms_write_queue_max_bytes (my_stats s).
Proof.
  intros E. unfold reader_step, count_connected, count_disconnected in E.
  destruct (rd_pc r) as [| |key|key|key|key st fd no|key res| |]; destruct ev; try done.
  - injection E as <- <-. by destruct ok.
  - unfold reader_top in E. destruct (my_stopping s); [by injection E as <- <-|]. destruct (my_queue s); [done|]. by injection E as <- <-.
  - by injection E as <- <-.
  - destruct ok; by injection E as <- <-.
  - case_bool_decide; injection E as <- <-; [by destruct (_ >? _)|done].
  - by injection E as <- <-.
  - injection E as <- <-. unfold reader_finish. by destruct res.
  - injection E as <- <-. destruct (rd_connected r); [by destruct (_ >? _)|done].
Qed.

Lemma store_step_inv strict s s' : store_inv strict s -> store_step strict s s' -> store_inv strict s'.
Proof.
  intros [I1 I2 I3 I4] Hst. destruct Hst as [s m key waiter r st m' Hm Hq E|s m q args enc r st m' Hm He E|s l st Hm E|s Hm|s i r ev r' st Hi E|s ev w' st E|s now timeout Hm|s Hm Hj].
  - specialize (I1 ltac:(by rewrite Hm)). pose proof (submit_load_loads m (ss_store s) key waiter (ss_readers s) I1) as HL.
    pose proof (fun Hs => submit_load_waiters m (ss_store s) key waiter (ss_readers s) (ss_history s) (I2 Hs) (Hq Hs)) as HW.
    assert (Hsame : my_writes st = my_writes (ss_store s) /\ my_pending_write_bytes st = my_pending_write_bytes (ss_store s) /\
      ms_write_queue_max_bytes (my_stats st) = ms_write_queue_max_bytes (my_stats (ss_store s))).
    { unfold mysql_store_submit_load in E. destruct (malloc m) as [[] m1]; [|by injection E as _ <- _]. cbn [negb] in E. destruct (join_inflight _ _ _); [by injection E as _ <- _|].
      destruct (_ || _); [by injection E as _ <- _|]. destruct (malloc m1) as [job m2]. destruct (if job then malloc m2 else (false, m2)) as [copy m3].
      destruct (negb (job && copy)); by injection E as _ <- _. }
    rewrite E in HL, HW. split; [done|done| |done]. destruct Hsame as (E1 & E2 & E3). destruct I3 as [W1 W2 W3 W4 W5 W6]. cbn [ss_store ss_writer ss_history] in *.
    assert (Hh : sh_mutations (accept_waiter r waiter (ss_history s)) = sh_mutations (ss_history s) /\ sh_finished (accept_waiter r waiter (ss_history s)) = sh_finished (ss_history s)) by (unfold accept_waiter; by destruct (r <? 0)).
    destruct Hh as [H1 H2]. split; rewrite ?E1, ?E2, ?E3, ?H1, ?H2; done.
  - pose proof (submit_mutation_same m (ss_store s) q args enc) as Hs. pose proof (submit_mutation_writes m (ss_store s) (ss_writer s) (ss_history s) q args enc I3 ltac:(lia)) as Hw.
    rewrite E in Hs, Hw. destruct Hs as (Hs & Hc & Hd). split; [intros _; eapply loads_ok_same; [done|apply I1; by rewrite Hm]| |done|done].
    intros Hst. apply (waiters_history _ _ (ss_history s)); [unfold accept_mutation; by destruct (r =? 0)..|]. apply (waiters_same (ss_store s)); [apply Hs|done|done|by apply I2].
  - injection E as <- <-. split; [intros _; eapply loads_ok_same; [|apply I1; by rewrite Hm]; done| | |done].
    + intros Hst. destruct (I2 Hst) as [A1 A2]. split; [|done]. cbn in *. rewrite A1. solve_Permutation.
    + destruct I3 as [W1 W2 W3 W4 W5 W6]. by split.
  - split; [intros _; eapply loads_ok_same; [|apply I1; by rewrite Hm]; done| | |done].
    + intros Hst. by apply (waiters_same (ss_store s)), I2.
    + destruct I3 as [W1 W2 W3 W4 W5 W6]. by split.
  - destruct (readers_split _ _ _ Hi) as (others & P1 & P2). cbn [ss_store ss_readers ss_writer ss_main ss_history].
    assert (Hopen : ss_main s <> MClosed -> loads_ok (ss_store s) (r :: others)) by (intros Hm; rewrite <- P1; by apply I1).
    assert (Hw : my_writes st = my_writes (ss_store s) /\ my_pending_write_bytes st = my_pending_write_bytes (ss_store s) /\
      ms_write_queue_max_bytes (my_stats st) = ms_write_queue_max_bytes (my_stats (ss_store s))) by by eapply reader_step_writes.
    assert (Hm : ss_main s <> MClosed).
    { intros Hm. destruct (I4 Hm) as [[Hj _]%andb_true_iff _]. by rewrite (joined_readers _ _ _ ev (ss_store s) Hj Hi) in E. }
    split; [| | |done].
    + intros _. cbn [ss_store ss_readers]. rewrite P2. eapply reader_step_loads; [by apply Hopen|done].
    + intros Hst. cbn [ss_store ss_readers ss_history]. apply (waiters_readers _ (r' :: others)); [symmetry; apply P2|]. eapply reader_step_waiters; [by apply Hopen|apply (waiters_readers _ (ss_readers s)); [done|by apply I2]|done].
    + destruct Hw as (E1 & E2 & E3). destruct I3 as [W1 W2 W3 W4 W5 W6]. cbn [ss_store ss_writer ss_history] in *. split; rewrite ?E1, ?E2, ?E3; done.
  - destruct (writer_step_same _ _ _ _ _ E) as (Hs & Hc & Hd & _). pose proof (writer_step_writes _ _ _ _ _ _ I3 E) as Hw.
    split; [intros Hm; eapply loads_ok_same; [done|by apply I1]| |done|].
    2:{ intros Hm. destruct (I4 Hm) as [[_ Hj]%andb_true_iff _]. unfold store_writer_step in E. by destruct (wr_pc (ss_writer s)). }
    intros Hst. apply (waiters_history _ _ (ss_history s)); [unfold note_finished; by destruct (wr_pc _)..|]. apply (waiters_same (ss_store s)); [apply Hs|done|done|by apply I2].
  - split; [intros _; eapply loads_ok_same; [|apply I1; by rewrite Hm]; done| | |done].
    + intros Hst. by apply (waiters_same (ss_store s)), I2.
    + destruct I3 as [W1 W2 W3 W4 W5 W6]. by split.
  - specialize (I1 ltac:(by rewrite Hm)). pose proof Hj as Hj2. apply andb_true_iff in Hj as [Hj _]. split; [done| | |done].
    + intros Hst. destruct (I2 Hst) as [A1 A2]. split; cbn [ss_store ss_readers ss_history].
      * rewrite A1. cbn. pose proof (lo_keys _ _ I1) as Hk. rewrite (joined_held _ Hj), app_nil_r in Hk.
        rewrite <- (waiters_by_key _ (lo_unique _ _ I1)), <- Hk. solve_Permutation.
      * intros r key res Hr Hpc. rewrite forallb_forall in Hj. specialize (Hj r ltac:(by apply list_elem_of_In)). by rewrite Hpc in Hj.
    + destruct I3 as [W1 W2 W3 W4 W5 W6]. by split.
Qed.

Lemma opened_store_inv strict workers limit bytes load_max s :
  0 <= workers -> 0 <= limit -> mysql_store_open workers limit bytes load_max = Some s -> store_inv strict (opened_store s).
Proof.
  intros Hw Hl E. unfold mysql_store_open in E. destruct (_ || _); [done|]. injection E as <-. unfold opened_store. cbn [my_stats ms_read_workers].
  set (rs := replicate _ _). assert (Hrs : rs ≫= held_key = [] /\ rs ≫= connection_of = [] /\ Forall reader_ok rs /\ forall r, r ∈ rs -> rd_pc r = RStart).
  { unfold rs. induction (Z.to_nat workers) as [|n (I1 & I2 & I3 & I4)]; cbn.
    - split_and!; try done. by intros r ?%not_elem_of_nil.
    - split_and!; try done; [by constructor|]. intros r [->|?]%elem_of_cons; [done|by apply I4]. }
  destruct Hrs as (R1 & R2 & R3 & R4). split; cbn [ss_store ss_readers ss_writer ss_main ss_history].
  - intros _. split; cbn; rewrite ?R1, ?R2; try done. constructor.
  - intros _. split; [done|]. intros r key res Hr Hpc. by rewrite (R4 r Hr) in Hpc.
  - split; cbn; try done; [by right|left; apply Forall_nil_2].
  - done.
Qed.

Lemma reach_store_inv strict workers limit bytes load_max s0 s :
  0 <= workers -> 0 <= limit -> mysql_store_open workers limit bytes load_max = Some s0 -> store_reach strict s0 s -> store_inv strict s.
Proof.
  intros Hw Hl E. induction 1 as [|s s' _ IH Hs]; [exact (opened_store_inv strict workers limit bytes load_max s0 Hw Hl E)|]. by eapply store_step_inv.
Qed.

(** ** Claims *)

(** C34. Waiters of loads.  As long as no load is submitted for a key whose
    result a reader is about to publish, every waiter that was accepted is in
    exactly one place: with a job in flight, with a result nobody took yet,
    delivered, or destroyed.  Once the store is closed it was delivered or
    destroyed, once. *)
Theorem load_waiters_conserved workers limit bytes load_max s0 s :
  0 <= workers -> 0 <= limit -> mysql_store_open workers limit bytes load_max = Some s0 -> store_reach true s0 s ->
  let h := ss_history s in
  sh_accepted h ≡ₚ (my_inflight (ss_store s) ≫= lj_waiters) ++ (my_completed (ss_store s) ≫= lr_waiters) ++ sh_delivered h ++ my_destroyed (ss_store s) /\
  (ss_main s = MClosed -> sh_accepted h ≡ₚ sh_delivered h ++ my_destroyed (ss_store s)).
Proof.
  intros Hw Hl E Hr. destruct (reach_store_inv _ _ _ _ _ _ _ Hw Hl E Hr) as [_ I2 _ I4]. destruct (I2 eq_refl) as [A1 _]. cbn zeta. split; [done|].
  intros Hc. destruct (I4 Hc) as (_ & E1 & E2). by rewrite E1, E2 in A1.
Qed.

(** C35. The database queues.  Whatever the threads do, at most
    [read_queue_limit] loads are in flight, one per key, each waiting in the
    queue or in the hand of exactly one reader; the connected readers are
    counted; the bytes of the waiting mutations are counted and within the
    budget; and the mutations are finished in the order they were accepted,
    all of them applied but for the last one when the writer gave up at the
    end of the shutdown. *)
Theorem store_queues_ordered strict workers limit bytes load_max s0 s :
  0 <= workers -> 0 <= limit -> mysql_store_open workers limit bytes load_max = Some s0 -> store_reach strict s0 s ->
  (ss_main s <> MClosed -> loads_ok (ss_store s) (ss_readers s)) /\ writes_ok (ss_store s) (ss_writer s) (ss_history s).
Proof. intros Hw Hl E Hr. by destruct (reach_store_inv _ _ _ _ _ _ _ Hw Hl E Hr). Qed.

(** ** Runs *)

Inductive store_event : Type :=
| ELoad (key : list Z) (waiter : context)
| ETake
| EMutation (sequence : Z) (arguments : list (list Z)) (encoded : Z)
| EReader (i : nat) (ev : reader_event)
| EWriter (ev : store_writer_event)
| EClose (now timeout : Z)
| EJoin.

Definition run_store_event (strict : bool) (e : store_event) (s : store_system) : option store_system :=
  match e, ss_main s with
  | ELoad key waiter, MRunning =>
      if negb strict || forallb (fun x => negb (publishing key x)) (ss_readers s) then
        let '(r, st, _) := mysql_store_submit_load [] (ss_store s) (Some key) waiter in
        Some (mk_store_system st (ss_readers s) (ss_writer s) MRunning (accept_waiter r waiter (ss_history s)))
      else None
  | ETake, MRunning =>
      let '(l, st) := mysql_store_take_load_results (ss_store s) in
      Some (mk_store_system st (ss_readers s) (ss_writer s) MRunning (deliver l (ss_history s)))
  | EMutation sequence arguments encoded, MRunning =>
      if (0 <=? encoded) && (encoded <=? SIZE_MAX) then
        let '(r, st, _) := mysql_store_submit_mutation [] (ss_store s) sequence arguments encoded in
        Some (mk_store_system st (ss_readers s) (ss_writer s) MRunning
          (accept_mutation r (mk_write_job sequence arguments encoded) (ss_history s)))
      else None
  | EReader i ev, _ =>
      r ← ss_readers s !! i;
      '(r', st) ← reader_step ev r (ss_store s);
      Some (mk_store_system st (<[i := r']> (ss_readers s)) (ss_writer s) (ss_main s) (ss_history s))
  | EWriter ev, _ =>
      '(w', st) ← store_writer_step ev (ss_writer s) (ss_store s);
      Some (mk_store_system st (ss_readers s) w' (ss_main s) (note_finished (ss_writer s) (ss_history s)))
  | EClose now timeout, MRunning =>
      Some (mk_store_system (close_begin now timeout (ss_store s)) (ss_readers s) (ss_writer s) MClosing (ss_history s))
  | EJoin, MClosing =>
      if joined_all s then Some (mk_store_system (close_end (ss_store s)) (ss_readers s) (ss_writer s) MClosed (ss_history s)) else None
  | _, _ => None
  end.

Definition run_store_events (strict : bool) (l : list store_event) (s : store_system) : option store_system :=
  fold_left (fun o e => o ≫= run_store_event strict e) l (Some s).

Lemma run_store_step strict e s s' : run_store_event strict e s = Some s' -> store_step strict s s'.
Proof.
  destruct e as [key w| |q args enc|i ev|ev|now t|]; cbn [run_store_event]; destruct (ss_main s) eqn:Hm; try done.
  all: try (intros (r & E1 & E2)%bind_Some; apply bind_Some in E2 as ([r' st] & E2 & [= <-]); rewrite <- Hm; by eapply step_reader).
  all: try (intros ([w' st] & E2 & [= <-])%bind_Some; rewrite <- Hm; by eapply step_store_writer).
  - destruct (negb strict || _) eqn:Eb; [|done]. destruct (mysql_store_submit_load _ _ _ _) as [[r st] m'] eqn:E. intros [= <-].
    eapply step_submit_load; [done| |exact E]. intros ->. exact Eb.
  - intros [= <-]. by eapply step_take.
  - destruct (_ && _) eqn:Eb; [|done]. apply andb_true_iff in Eb as [B1%Z.leb_le B2%Z.leb_le].
    destruct (mysql_store_submit_mutation _ _ _ _ _) as [[r st] m'] eqn:E. intros [= <-]. by eapply step_submit_mutation.
  - intros [= <-]. by apply step_close_begin.
  - destruct (joined_all s) eqn:Ej; [|done]. intros [= <-]. by apply step_close_end.
Qed.

Lemma run_store_reach strict s0 l s : run_store_events strict l (opened_store s0) = Some s -> store_reach strict s0 s.
Proof.
  unfold run_store_events. revert s. induction l as [|e l IH] using rev_ind; intros s; cbn [fold_left]; [intros [= <-]; constructor|].
  rewrite fold_left_app. cbn. intros (s1 & E1 & E2)%bind_Some. eapply store_reach_step; [by apply IH|by eapply run_store_step].
Qed.

Definition sample_store : mysql_store :=
  mk_mysql [] [] [] [] 0 0 0 false 0 (mk_mysql_stats 1 0 false 0 8 0 1000 1000 0 0 0 0 0 0 0 0 0) [].

(** The threads end and the store is closed. *)
Definition shutdown : list store_event :=
  [EClose 100 5000; EReader 0 RRun; EReader 0 RRun; EWriter (SWConnected true); EWriter SWRun; EWriter SWRun; EJoin].

(** Two waiters for one key, both before the reader collects them, and one that
    nobody takes. *)
Definition joined_in_time : list store_event :=
  [EReader 0 (RConnected true); ELoad [97] 1; EReader 0 RRun; ELoad [97] 2; EReader 0 (RAllocated true);
   EReader 0 (RLoaded MYSQL_STORE_OK None 0); EReader 0 RRun; EReader 0 RRun; ETake; ELoad [98] 3] ++ shutdown.

(** The second waiter joins while the reader is about to publish. *)
Definition joined_late : list store_event :=
  [EReader 0 (RConnected true); ELoad [97] 1; EReader 0 RRun; EReader 0 (RAllocated true);
   EReader 0 (RLoaded MYSQL_STORE_OK None 0); EReader 0 RRun; ELoad [97] 2; EReader 0 RRun; ETake] ++ shutdown.

Definition joined_in_time_end : store_system := default (opened_store sample_store) (run_store_events true joined_in_time (opened_store sample_store)).

Lemma load_waiters_conserved_witness :
  [1; 2; 3] ≡ₚ [2; 1] ++ [3].
Proof.
  assert (Hr : store_reach true sample_store joined_in_time_end) by (apply (run_store_reach true sample_store joined_in_time); vm_compute; reflexivity).
  destruct (load_waiters_conserved 1 8 1000 1000 sample_store joined_in_time_end ltac:(lia) ltac:(lia) eq_refl Hr) as [_ Hc].
  specialize (Hc ltac:(vm_compute; reflexivity)). vm_compute in Hc. exact Hc.
Defined.

(** Two mutations; the first is retried after a failure, the second is in the
    queue. *)
Definition retried : list store_event :=
  [EWriter (SWConnected true); EMutation 1 [lit "DEL"; [97]] 40; EMutation 2 [lit "DEL"; [98]] 50; EWriter SWRun; EWriter (SWClock 10); EWriter (SWState 0);
   EWriter (SWResult (-1) 2006); EWriter SWRun; EWriter (SWClock 20); EWriter (SWConnected true); EWriter (SWState 1); EWriter SWRun].

Definition retried_end : store_system := default (opened_store sample_store) (run_store_events false retried (opened_store sample_store)).

Lemma store_queues_ordered_witness :
  my_pending_write_bytes (ss_store retried_end) = 50 /\ (sh_mutations (ss_history retried_end)) = [mk_write_job 1 [lit "DEL"; [97]] 40; mk_write_job 2 [lit "DEL"; [98]] 50] /\
  (ss_main retried_end <> MClosed -> my_pending_reads (ss_store retried_end) <= 8).
Proof.
  assert (Hr : store_reach false sample_store retried_end) by (apply (run_store_reach false sample_store retried); vm_compute; reflexivity).
  destruct (store_queues_ordered false 1 8 1000 1000 sample_store retried_end ltac:(lia) ltac:(lia) eq_refl Hr) as [H1 [W1 _ _ W4 _ _]].
  split; [rewrite W1; vm_compute; reflexivity|]. split; [rewrite W4; vm_compute; reflexivity|]. intros Hm. destruct (H1 Hm) as [_ _ _ L4 _ _]. exact L4.
Defined.

(** A lost waiter.  A reader copies the list of waiters of its job before it
    takes the mutex to publish the result.  A load that is submitted for the
    same key in between is accepted and joins the job, but its waiter is in no
    result: after the shutdown it was neither delivered nor destroyed. *)
Example late_join_loses_waiter :
  exists s, store_reach false sample_store s /\ ss_main s = MClosed /\
    sh_accepted (ss_history s) = [1; 2] /\ sh_delivered (ss_history s) = [1] /\ my_destroyed (ss_store s) = [].
Proof.
  exists (default (opened_store sample_store) (run_store_events false joined_late (opened_store sample_store))).
  split; [|by vm_compute]. apply (run_store_reach false sample_store joined_late). vm_compute. reflexivity.
Qed.
