(* ===== verification/CommandText.v ===== *)
(** The text side of [src/service/kvstore_resp_service.c]: recognising
    commands and options, numbers in arguments, scores in replies and sizes of
    encoded replies. *)

From S2P Require Import Prelude Resp ZOrder Double.

Inductive service_command : Type :=
| SERVICE_COMMAND_SET | SERVICE_COMMAND_GET | SERVICE_COMMAND_DEL | SERVICE_COMMAND_PING
| SERVICE_COMMAND_EXPIRE | SERVICE_COMMAND_PEXPIRE | SERVICE_COMMAND_TTL | SERVICE_COMMAND_PTTL
| SERVICE_COMMAND_PERSIST | SERVICE_COMMAND_INFO | SERVICE_COMMAND_DBSIZE | SERVICE_COMMAND_HSET
| SERVICE_COMMAND_HGET | SERVICE_COMMAND_HDEL | SERVICE_COMMAND_HLEN | SERVICE_COMMAND_HGETALL
| SERVICE_COMMAND_ZADD | SERVICE_COMMAND_ZREM | SERVICE_COMMAND_ZSCORE | SERVICE_COMMAND_ZCARD
| SERVICE_COMMAND_ZRANGE | SERVICE_COMMAND_SAVE | SERVICE_COMMAND_BGSAVE | SERVICE_COMMAND_LASTSAVE
| SERVICE_COMMAND_UNKNOWN.

#[export] Instance service_command_eq_dec : EqDecision service_command.
Proof. solve_decision. Defined.

(** ** Recognition *)

Definition ascii_upper (value : Z) : Z :=
  if (value >=? 97) && (value <=? 122) then value - 32 else value.

(** The comparing loop; the lengths are equal. *)
Fixpoint equals_loop (data name : list Z) : bool :=
  match data, name with
  | a :: data, b :: name => if negb (ascii_upper a =? b) then false else equals_loop data name
  | _, _ => true
  end.

(** [argument_equals_length] and [argument_equals] *)
Definition argument_equals (argument name : list Z) : bool :=
  if negb (zlen argument =? zlen name) then false else equals_loop argument name.

(** The tests of one case of the switch, in their order. *)
Fixpoint first_match (argument : list Z) (names : list (list Z * service_command)) : service_command :=
  match names with
  | [] => SERVICE_COMMAND_UNKNOWN
  | (name, command) :: names =>
      if argument_equals argument name then command else first_match argument names
  end.

(** The cases of the switch on the length. *)
Definition commands_of_length (length : Z) : list (list Z * service_command) :=
  if length =? 3 then
    [(lit "SET", SERVICE_COMMAND_SET); (lit "GET", SERVICE_COMMAND_GET);
     (lit "DEL", SERVICE_COMMAND_DEL); (lit "TTL", SERVICE_COMMAND_TTL)]
  else if length =? 4 then
    [(lit "PING", SERVICE_COMMAND_PING); (lit "PTTL", SERVICE_COMMAND_PTTL);
     (lit "INFO", SERVICE_COMMAND_INFO); (lit "HSET", SERVICE_COMMAND_HSET);
     (lit "HGET", SERVICE_COMMAND_HGET); (lit "HDEL", SERVICE_COMMAND_HDEL);
     (lit "HLEN", SERVICE_COMMAND_HLEN); (lit "ZADD", SERVICE_COMMAND_ZADD);
     (lit "ZREM", SERVICE_COMMAND_ZREM); (lit "SAVE", SERVICE_COMMAND_SAVE)]
  else if length =? 5 then [(lit "ZCARD", SERVICE_COMMAND_ZCARD)]
  else if length =? 6 then
    [(lit "EXPIRE", SERVICE_COMMAND_EXPIRE); (lit "DBSIZE", SERVICE_COMMAND_DBSIZE);
     (lit "ZSCORE", SERVICE_COMMAND_ZSCORE); (lit "ZRANGE", SERVICE_COMMAND_ZRANGE);
     (lit "BGSAVE", SERVICE_COMMAND_BGSAVE)]
  else if length =? 7 then
    [(lit "PEXPIRE", SERVICE_COMMAND_PEXPIRE); (lit "PERSIST", SERVICE_COMMAND_PERSIST);
     (lit "HGETALL", SERVICE_COMMAND_HGETALL)]
  else if length =? 8 then [(lit "LASTSAVE", SERVICE_COMMAND_LASTSAVE)]
  else [].

Definition find_command (argument : list Z) : service_command :=
  first_match argument (commands_of_length (zlen argument)).

Definition is_write_command (command : service_command) : bool :=
  match command with
  | SERVICE_COMMAND_SET | SERVICE_COMMAND_DEL | SERVICE_COMMAND_EXPIRE | SERVICE_COMMAND_PEXPIRE
  | SERVICE_COMMAND_PERSIST | SERVICE_COMMAND_HSET | SERVICE_COMMAND_HDEL | SERVICE_COMMAND_ZADD
  | SERVICE_COMMAND_ZREM => true
  | _ => false
  end.

Definition command_arity_valid (command : service_command) (argument_count : Z) : bool :=
  match command with
  | SERVICE_COMMAND_SET => (argument_count =? 3) || (argument_count =? 5)
  | SERVICE_COMMAND_GET | SERVICE_COMMAND_DEL | SERVICE_COMMAND_TTL | SERVICE_COMMAND_PTTL
  | SERVICE_COMMAND_PERSIST | SERVICE_COMMAND_HLEN | SERVICE_COMMAND_HGETALL
  | SERVICE_COMMAND_ZCARD => argument_count =? 2
  | SERVICE_COMMAND_EXPIRE | SERVICE_COMMAND_PEXPIRE | SERVICE_COMMAND_HGET
  | SERVICE_COMMAND_ZSCORE => argument_count =? 3
  | SERVICE_COMMAND_PING => (argument_count =? 1) || (argument_count =? 2)
  | SERVICE_COMMAND_DBSIZE | SERVICE_COMMAND_SAVE | SERVICE_COMMAND_BGSAVE
  | SERVICE_COMMAND_LASTSAVE => argument_count =? 1
  | SERVICE_COMMAND_INFO => argument_count =? 2
  | SERVICE_COMMAND_HSET | SERVICE_COMMAND_ZADD => (argument_count >=? 4) && (argument_count mod 2 =? 0)
  | SERVICE_COMMAND_HDEL | SERVICE_COMMAND_ZREM => argument_count >=? 3
  | SERVICE_COMMAND_ZRANGE => (argument_count =? 4) || (argument_count =? 5)
  | SERVICE_COMMAND_UNKNOWN => false
  end.

(** ** Integers *)

(** The digit loop of the two parsers; [None]: a byte that is not a digit or a
    magnitude above [limit]. *)
Fixpoint magnitude_loop (limit : Z) (data : list Z) (magnitude : Z) : option Z :=
  match data with
  | [] => Some magnitude
  | c :: data =>
      if (c <? 48) || (c >? 57) then None else
      let digit := c - 48 in
      if magnitude >? (limit - digit) / 10 then None
      else magnitude_loop limit data (magnitude * 10 + digit)
  end.

Definition parse_int64 (argument : list Z) : option Z :=
  match argument with
  | [] => None
  | c :: rest =>
      if c =? 45 then
        match rest with
        | [] => None
        | _ =>
            (fun magnitude => if magnitude =? INT64_MAX + 1 then INT64_MIN else - magnitude)
              <$> magnitude_loop (INT64_MAX + 1) rest 0
        end
      else magnitude_loop INT64_MAX argument 0
  end.

Definition parse_uint64_bytes (data : list Z) : option Z :=
  match data with
  | [] => None
  | _ => magnitude_loop UINT64_MAX data 0
  end.

(** The status with [*parsed] and [*milliseconds]. *)
Definition duration_ms (argument : list Z) (multiplier : Z) (require_positive : bool) : Z * Z * Z :=
  match parse_int64 argument with
  | None => (-1, 0, 0)
  | Some value =>
      if value <=? 0 then (if require_positive then -2 else 0, value, 0) else
      if value >? UINT64_MAX / multiplier then (-1, value, 0) else
      (0, value, value * multiplier)
  end.

(** ** Sizes *)

(** A 64-bit value has at most 20 digits. *)
Fixpoint decimal_digits_loop (fuel : nat) (value digits : Z) : Z :=
  match fuel with
  | O => digits
  | S fuel => if value >=? 10 then decimal_digits_loop fuel (value / 10) (digits + 1) else digits
  end.

Definition decimal_digits (value : Z) : Z := decimal_digits_loop 20 value 1.

Definition bulk_encoded_size (length : Z) : Z :=
  if length >? SIZE_MAX - decimal_digits length - 5 then SIZE_MAX
  else length + decimal_digits length + 5.

(** ** Scores *)

Definition TEN : Z := double_of_int 10.

(** The text of [tenths] tenths. *)
Definition tenths_text (tenths : Z) : list Z :=
  let magnitude := Z.abs tenths in
  let fraction := magnitude mod 10 in
  sign_text (tenths <? 0) ++ decimal (magnitude / 10) ++
  (if fraction =? 0 then [] else [46; 48 + fraction]).

(** Whether the score goes through [int64_t]. *)
Definition tenths_guard (score : Z) : bool :=
  let scaled := double_mul score TEN in
  isfinite score && negb (double_eq score 0 && signbit score) &&
  double_le (double_of_int INT64_MIN) scaled && double_le scaled (double_of_int INT64_MAX).

(** The text and the value returned: the length, or -1.  The conversion of a
    value outside the range of [int64_t] is undefined; x86-64 gives
    [INT64_MIN]. *)
Definition format_score (capacity score : Z) : list Z * Z :=
  if capacity =? 0 then ([], -1) else
  let scaled := double_mul score TEN in
  let tenths := default INT64_MIN (int64_of_double scaled) in
  if tenths_guard score && double_eq scaled (double_of_int tenths) &&
     double_eq (double_div (double_of_int tenths) TEN) score
  then
    let text := tenths_text tenths in
    if zlen text >? capacity then ([], -1) else (text, zlen text)
  else
    let text := format_g17 score in
    (take (Z.to_nat (capacity - 1)) text, zlen text).

(** The bytes before the first NUL. *)
Fixpoint until_nul (l : list Z) : list Z :=
  match l with
  | [] => []
  | c :: l => if c =? 0 then [] else c :: until_nul l
  end.

(** The status with [*result]. *)
Definition parse_double_argument (m : mem) (argument : list Z) : Z * Z * mem :=
  if (zlen argument =? 0) || (zlen argument =? SIZE_MAX) then (-1, 0, m) else
  let '(ok, m) := if zlen argument + 1 >? 128 then malloc m else (true, m) in
  if negb ok then (-2, 0, m) else
  let text := until_nul argument in
  match strtod text with
  | None => (-1, 0, m)
  | Some (value, erange, rest) =>
      if negb (zlen text - zlen rest =? zlen argument) then (-1, 0, m) else
      if erange || isnan value then (-1, 0, m) else (0, value, m)
  end.
