(* ===== verification/CommandProps.v ===== *)
(** Texts of commands: names are found whatever their case, and the integer
    parsers of [src/service/kvstore_resp_service.c] accept exactly the decimal
    numbers that fit. *)

From S2P Require Import Prelude Resp Double CommandText.

(** ** Integers *)

(** The loop accepts the digits whose value is at most the limit. *)
Lemma magnitude_loop_spec limit data m v :
  9 <= limit -> 0 <= m ->
  (magnitude_loop limit data m = Some v <-> Forall is_digit data /\ v = dec_acc m data /\ (data = [] \/ v <= limit)).
Proof.
  intros Hl. revert m. induction data as [|c data IH]; intros m Hm; cbn [magnitude_loop].
  { split; [intros [= ->]; split_and!; [constructor|done|by left]|intros (_ & -> & _); done]. }
  destruct (Z.ltb_spec c 48), (Z.gtb_spec c 57); cbn [orb]; try (split; [done|]; intros [Hd _]; apply Forall_cons in Hd as [Hd _]; unfold is_digit in Hd; lia).
  assert (Hq : is_digit c) by (unfold is_digit; lia). change (dec_acc m (c :: data)) with (dec_acc (m * 10 + (c - 48)) data).
  destruct (Z.gtb_spec m ((limit - (c - 48)) / 10)) as [Hg|Hg].
  - split; [done|]. intros (Hd & -> & [?|Hle]); [done|]. apply Forall_cons in Hd as [_ Hd].
    pose proof (dec_acc_ge (m * 10 + (c - 48)) data ltac:(lia) Hd).
    assert (limit - (c - 48) < m * 10); [|lia]. pose proof (Z.div_mod (limit - (c - 48)) 10 ltac:(lia)). pose proof (Z.mod_pos_bound (limit - (c - 48)) 10 ltac:(lia)). lia.
  - assert (Hn : m * 10 + (c - 48) <= limit).
    { pose proof (Z.mul_div_le (limit - (c - 48)) 10 ltac:(lia)). lia. }
    rewrite IH by lia. rewrite Forall_cons. split.
    + intros (Hd & -> & Hc). split_and!; [done|done|done|right]. destruct Hc as [->|Hc]; [done|done].
    + intros ((_ & Hd) & -> & [?|Hc]); [done|]. split_and!; [done|done|by right].
Qed.

Lemma digit_not_minus c : is_digit c -> c <> 45.
Proof. unfold is_digit. lia. Qed.

(** [parse_int64] accepts a text exactly when it is an optional minus sign
    and at least one digit, and nothing else, whose value fits 64 bits with a
    sign; the result is that value. *)
Theorem parse_int64_correct text v :
  parse_int64 text = Some v <->
  exists (negative : bool) digits, text = (if negative then [45] else []) ++ digits /\ digits <> [] /\ Forall is_digit digits /\
    v = (if negative then - dec_acc 0 digits else dec_acc 0 digits) /\ INT64_MIN <= v <= INT64_MAX.
Proof.
  unfold parse_int64, INT64_MIN, INT64_MAX. destruct text as [|c rest].
  { split; [done|]. intros ([] & digits & E & Hne & _); [done|]. destruct digits; done. }
  destruct (Z.eqb_spec c 45) as [->|Hc].
  - assert (Hiff : forall digits, digits <> [] -> ((exists m, magnitude_loop (9223372036854775807 + 1) digits 0 = Some m /\
        v = if m =? 9223372036854775807 + 1 then -9223372036854775808 else - m) <->
        Forall is_digit digits /\ v = - dec_acc 0 digits /\ -9223372036854775808 <= v <= 9223372036854775807)).
    { intros digits Hne. split.
      - intros (m & Hm & Hv). apply magnitude_loop_spec in Hm as (Hd & -> & [?|Hm]); [done| |lia|lia]. pose proof (dec_acc_ge 0 digits ltac:(lia) Hd).
        split; [done|]. destruct (Z.eqb_spec (dec_acc 0 digits) (9223372036854775807 + 1)); lia.
      - intros (Hd & -> & Hr). exists (dec_acc 0 digits). split; [apply magnitude_loop_spec; [lia|lia|]; split_and!; [done|done|right; lia]|].
        destruct (Z.eqb_spec (dec_acc 0 digits) (9223372036854775807 + 1)); lia. }
    destruct rest as [|c rest].
    { split; [done|]. intros ([] & digits & E & Hne & Hd & _); [by destruct digits|]. cbn in E. destruct digits as [|d digits]; [done|]. injection E as <- _.
      apply Forall_cons in Hd as [Hd _]. by apply digit_not_minus in Hd. }
    specialize (Hiff (c :: rest) ltac:(done)). split.
    + intros (m & Hm & Hv)%fmap_Some. destruct (proj1 Hiff) as (Hd & Hv' & Hr); [by exists m|]. by exists true, (c :: rest).
    + intros ([] & digits & E & Hne & Hd & Hv & Hr); cbn in E.
      * injection E as <-. destruct (proj2 Hiff) as (m & Hm & ->); [done|]. apply fmap_Some. by exists m.
      * destruct digits as [|d digits]; [done|]. injection E as <- _. apply Forall_cons in Hd as [Hd _]. by apply digit_not_minus in Hd.
  - rewrite magnitude_loop_spec by lia. split.
    + intros (Hd & -> & [?|Hv]); [done|]. exists false, (c :: rest). pose proof (dec_acc_ge 0 (c :: rest) ltac:(lia) Hd). split_and!; try done; lia.
    + intros ([] & digits & E & Hne & Hd & -> & Hr); cbn in E; [by injection E|]. rewrite E. split_and!; [done|done|right; lia].
Qed.

(** The number that the log writes is the one that replay reads. *)
Lemma parse_uint64_decimal v : u64_ok v -> parse_uint64_bytes (decimal v) = Some v.
Proof.
  intros Hv. destruct (decimal_spec v Hv) as (Hd & Hl & Ha). unfold parse_uint64_bytes. destruct (decimal v) as [|c l] eqn:E; [rewrite zlen_nil in Hl; lia|].
  apply magnitude_loop_spec; [done|lia|]. split_and!; [done|by rewrite Ha|right]. unfold u64_ok in Hv. lia.
Qed.

Lemma parse_uint64_range text v : parse_uint64_bytes text = Some v -> u64_ok v.
Proof.
  unfold parse_uint64_bytes. destruct text as [|c l]; [done|]. intros (Hd & -> & [?|?])%magnitude_loop_spec; [done| |done|lia].
  split; [|done]. by apply dec_acc_ge.
Qed.

(** ** Names *)

Definition command_name (command : service_command) : list Z :=
  match command with
  | SERVICE_COMMAND_SET => lit "SET" | SERVICE_COMMAND_GET => lit "GET" | SERVICE_COMMAND_DEL => lit "DEL"
  | SERVICE_COMMAND_PING => lit "PING" | SERVICE_COMMAND_EXPIRE => lit "EXPIRE" | SERVICE_COMMAND_PEXPIRE => lit "PEXPIRE"
  | SERVICE_COMMAND_TTL => lit "TTL" | SERVICE_COMMAND_PTTL => lit "PTTL" | SERVICE_COMMAND_PERSIST => lit "PERSIST"
  | SERVICE_COMMAND_INFO => lit "INFO" | SERVICE_COMMAND_DBSIZE => lit "DBSIZE" | SERVICE_COMMAND_HSET => lit "HSET"
  | SERVICE_COMMAND_HGET => lit "HGET" | SERVICE_COMMAND_HDEL => lit "HDEL" | SERVICE_COMMAND_HLEN => lit "HLEN"
  | SERVICE_COMMAND_HGETALL => lit "HGETALL" | SERVICE_COMMAND_ZADD => lit "ZADD" | SERVICE_COMMAND_ZREM => lit "ZREM"
  | SERVICE_COMMAND_ZSCORE => lit "ZSCORE" | SERVICE_COMMAND_ZCARD => lit "ZCARD" | SERVICE_COMMAND_ZRANGE => lit "ZRANGE"
  | SERVICE_COMMAND_SAVE => lit "SAVE" | SERVICE_COMMAND_BGSAVE => lit "BGSAVE" | SERVICE_COMMAND_LASTSAVE => lit "LASTSAVE"
  | SERVICE_COMMAND_UNKNOWN => []
  end.

Lemma argument_equals_spec text name : argument_equals text name = true <-> map ascii_upper text = name.
Proof.
  unfold argument_equals. destruct (Z.eqb_spec (zlen text) (zlen name)) as [Hl|Hl]; cbn [negb].
  - revert name Hl. induction text as [|a text IH]; intros [|b name] Hl; cbn [equals_loop map]; rewrite ?zlen_cons, ?zlen_nil in Hl;
      try (pose proof (zlen_nonneg name); lia); try (pose proof (zlen_nonneg text); lia); [done|].
    destruct (Z.eqb_spec (ascii_upper a) b) as [->|Hb]; cbn [negb]; [|split; [done|congruence]].
    rewrite IH by lia. split; [by intros ->|by intros [= ->]].
  - split; [done|]. intros <-. destruct Hl. unfold zlen. by rewrite length_map.
Qed.

Lemma first_match_spec text names command :
  first_match text names = command -> command <> SERVICE_COMMAND_UNKNOWN ->
  exists name, (name, command) ∈ names /\ map ascii_upper text = name.
Proof.
  intros E Hu. induction names as [|[name c] names IH]; cbn [first_match] in E; [by subst|].
  destruct (argument_equals text name) eqn:Ea.
  - subst c. exists name. split; [apply elem_of_cons; by left|by apply argument_equals_spec].
  - destruct (IH E) as (n & Hn & Hm). exists n. split; [apply elem_of_cons; by right|done].
Qed.

Lemma find_command_name text command :
  command <> SERVICE_COMMAND_UNKNOWN -> find_command text = command -> map ascii_upper text = command_name command.
Proof.
  intros Hu E. destruct (first_match_spec _ _ _ E Hu) as (name & Hn & ->). unfold commands_of_length in Hn.
  repeat (match type of Hn with context [if ?b then _ else _] => destruct b end);
    repeat (apply elem_of_cons in Hn as [[= -> ->]|Hn]; [done|]); by apply not_elem_of_nil in Hn.
Qed.

Lemma find_command_by_name text command :
  command <> SERVICE_COMMAND_UNKNOWN -> map ascii_upper text = command_name command -> find_command text = command.
Proof.
  intros Hu Hm. unfold find_command. assert (Hz : zlen text = zlen (command_name command)) by (unfold zlen; by rewrite <- Hm, length_map).
  assert (He : forall name, argument_equals text name = argument_equals (command_name command) name).
  { intros name. apply eq_true_iff_eq. rewrite !argument_equals_spec, Hm. assert (map ascii_upper (command_name command) = command_name command) as ->; [|done].
    by destruct command; vm_compute. }
  assert (Hf : forall names, first_match text names = first_match (command_name command) names).
  { induction names as [|[n c] names IH]; [done|]. cbn [first_match]. by rewrite He, IH. }
  rewrite Hf, Hz. clear Hm Hz He Hf. by destruct command; vm_compute.
Qed.

(** The lookup of commands: a name is that of a command exactly when it is
    the command's name in upper or lower case letters. *)
Theorem find_command_correct text command :
  command <> SERVICE_COMMAND_UNKNOWN ->
  find_command text = command <-> map ascii_upper text = command_name command.
Proof. intros Hu. split; [by apply find_command_name|by apply find_command_by_name]. Qed.
