(* ===== verification/Service.v ===== *)
(** The command service of [src/service/kvstore_resp_service.c]: command
    dispatch, the commands on strings, hashes and sorted sets, the records
    they append to the log, transactions of the log and mutations for the
    database, and the replay of a log.

    The service is a state monad over a [world]: the service structure, the
    outcomes of allocations and the clock, which moves by the next tick at each
    reading.  The log is reached through the interface [LogOps]; the callbacks
    of the persistence administration are arguments.  A reply carries its bytes
    instead of pointers into the store. *)

From S2P Require Import Prelude Resp HashTable ZOrder Object ExpireHeap LruList Cache.
From S2P Require Import Rdb Aof Double CommandText MysqlStore.

(** ** The log *)

(** The operations of [src/persistence/aof.c] that the service calls.  A flush
    gives [None] when it waits for the writer, which it does for records that
    were appended outside a transaction. *)
Class LogOps (A : Type) : Type := {
  log_is_failed : A -> bool;
  log_begin : A -> Z * A;
  log_append : mem -> A -> list slice -> Z * A * mem;
  log_commit : mem -> A -> Z * Z * A * mem;
  log_rollback : A -> A;
  log_flush : A -> option (Z * A);
  log_info : A -> aof_info
}.

(** [aof_flush], when it does not wait. *)
Definition flush_now (a : aof) : option (Z * aof) :=
  match flush_enter ForFlush a with
  | (_, a, Returned r) => Some (r, a)
  | _ => None
  end.

#[export] Instance aof_ops : LogOps aof := {
  log_is_failed := aof_is_failed;
  log_begin := aof_transaction_begin;
  log_append := aof_append;
  log_commit := aof_transaction_commit;
  log_rollback := aof_transaction_rollback;
  log_flush := flush_now;
  log_info := aof_get_info
}.

(** ** State *)

Inductive kvstore_reply : Type :=
| REPLY_SIMPLE (data : list Z)
| REPLY_ERROR (data : list Z)
| REPLY_INTEGER (integer : Z)
| REPLY_BULK (data : list Z)
| REPLY_NULL_BULK
| REPLY_ARRAY (elements : list (list Z)).

(** The buffers are represented by their capacities; [sv_admin]: the callbacks
    of the persistence administration are set. *)
Record kvstore_service (A : Type) : Type := mk_service {
  sv_cache : cache;
  sv_aof : option A;
  sv_flush_reported : bool;
  sv_initialized : bool;
  sv_engine : kv_zset_engine;
  sv_element_capacity : Z;
  sv_score_capacity : Z;
  sv_admin : bool;
  sv_dirty : Z;
  sv_mysql : option mysql_store;
  sv_uuid : list Z;
  sv_next_sequence : Z;
  sv_candidate : Z;
  sv_recording : bool;
  sv_mutation : list (list Z);
  sv_mutation_capacity : Z
}.

Arguments mk_service {A}.
Arguments sv_cache {A}.
Arguments sv_aof {A}.
Arguments sv_flush_reported {A}.
Arguments sv_initialized {A}.
Arguments sv_engine {A}.
Arguments sv_element_capacity {A}.
Arguments sv_score_capacity {A}.
Arguments sv_admin {A}.
Arguments sv_dirty {A}.
Arguments sv_mysql {A}.
Arguments sv_uuid {A}.
Arguments sv_next_sequence {A}.
Arguments sv_candidate {A}.
Arguments sv_recording {A}.
Arguments sv_mutation {A}.
Arguments sv_mutation_capacity {A}.

Record world (A : Type) : Type := mk_world {
  w_mem : mem; w_now : Z; w_ticks : list Z; w_service : kvstore_service A
}.

Arguments mk_world {A}.
Arguments w_mem {A}.
Arguments w_now {A}.
Arguments w_ticks {A}.
Arguments w_service {A}.

(** The fields of the service that commands assign. *)
Definition put_cache {A} (x : cache) (s : kvstore_service A) : kvstore_service A :=
  mk_service x (sv_aof s) (sv_flush_reported s) (sv_initialized s) (sv_engine s) (sv_element_capacity s)
    (sv_score_capacity s) (sv_admin s) (sv_dirty s) (sv_mysql s) (sv_uuid s) (sv_next_sequence s)
    (sv_candidate s) (sv_recording s) (sv_mutation s) (sv_mutation_capacity s).

Definition put_aof {A} (x : option A) (s : kvstore_service A) : kvstore_service A :=
  mk_service (sv_cache s) x (sv_flush_reported s) (sv_initialized s) (sv_engine s) (sv_element_capacity s)
    (sv_score_capacity s) (sv_admin s) (sv_dirty s) (sv_mysql s) (sv_uuid s) (sv_next_sequence s)
    (sv_candidate s) (sv_recording s) (sv_mutation s) (sv_mutation_capacity s).

Definition put_reported {A} (x : bool) (s : kvstore_service A) : kvstore_service A :=
  mk_service (sv_cache s) (sv_aof s) x (sv_initialized s) (sv_engine s) (sv_element_capacity s)
    (sv_score_capacity s) (sv_admin s) (sv_dirty s) (sv_mysql s) (sv_uuid s) (sv_next_sequence s)
    (sv_candidate s) (sv_recording s) (sv_mutation s) (sv_mutation_capacity s).

Definition put_capacities {A} (elements scores : Z) (s : kvstore_service A) : kvstore_service A :=
  mk_service (sv_cache s) (sv_aof s) (sv_flush_reported s) (sv_initialized s) (sv_engine s) elements
    scores (sv_admin s) (sv_dirty s) (sv_mysql s) (sv_uuid s) (sv_next_sequence s)
    (sv_candidate s) (sv_recording s) (sv_mutation s) (sv_mutation_capacity s).

Definition put_dirty {A} (x : Z) (s : kvstore_service A) : kvstore_service A :=
  mk_service (sv_cache s) (sv_aof s) (sv_flush_reported s) (sv_initialized s) (sv_engine s)
    (sv_element_capacity s) (sv_score_capacity s) (sv_admin s) x (sv_mysql s) (sv_uuid s)
    (sv_next_sequence s) (sv_candidate s) (sv_recording s) (sv_mutation s) (sv_mutation_capacity s).

Definition put_admin {A} (x : bool) (s : kvstore_service A) : kvstore_service A :=
  mk_service (sv_cache s) (sv_aof s) (sv_flush_reported s) (sv_initialized s) (sv_engine s)
    (sv_element_capacity s) (sv_score_capacity s) x (sv_dirty s) (sv_mysql s) (sv_uuid s)
    (sv_next_sequence s) (sv_candidate s) (sv_recording s) (sv_mutation s) (sv_mutation_capacity s).

Definition put_mysql {A} (x : option mysql_store) (s : kvstore_service A) : kvstore_service A :=
  mk_service (sv_cache s) (sv_aof s) (sv_flush_reported s) (sv_initialized s) (sv_engine s)
    (sv_element_capacity s) (sv_score_capacity s) (sv_admin s) (sv_dirty s) x (sv_uuid s)
    (sv_next_sequence s) (sv_candidate s) (sv_recording s) (sv_mutation s) (sv_mutation_capacity s).

Definition put_uuid {A} (x : list Z) (s : kvstore_service A) : kvstore_service A :=
  mk_service (sv_cache s) (sv_aof s) (sv_flush_reported s) (sv_initialized s) (sv_engine s)
    (sv_element_capacity s) (sv_score_capacity s) (sv_admin s) (sv_dirty s) (sv_mysql s) x
    (sv_next_sequence s) (sv_candidate s) (sv_recording s) (sv_mutation s) (sv_mutation_capacity s).

Definition put_sequences {A} (next candidate : Z) (s : kvstore_service A) : kvstore_service A :=
  mk_service (sv_cache s) (sv_aof s) (sv_flush_reported s) (sv_initialized s) (sv_engine s)
    (sv_element_capacity s) (sv_score_capacity s) (sv_admin s) (sv_dirty s) (sv_mysql s) (sv_uuid s)
    next candidate (sv_recording s) (sv_mutation s) (sv_mutation_capacity s).

Definition put_mutation {A} (recording : bool) (mutation : list (list Z)) (capacity : Z)
    (s : kvstore_service A) : kvstore_service A :=
  mk_service (sv_cache s) (sv_aof s) (sv_flush_reported s) (sv_initialized s) (sv_engine s)
    (sv_element_capacity s) (sv_score_capacity s) (sv_admin s) (sv_dirty s) (sv_mysql s) (sv_uuid s)
    (sv_next_sequence s) (sv_candidate s) recording mutation capacity.

(** ** The monad *)

Definition cmd (A T : Type) : Type := world A -> T * world A.

#[export] Instance cmd_ret A : MRet (cmd A) := fun T x w => (x, w).

#[export] Instance cmd_bind A : MBind (cmd A) := fun T U k c w => let '(x, w) := c w in k x w.

Section Primitives.
Context {A : Type}.

Definition ask : cmd A (kvstore_service A) := fun w => (w_service w, w).

Definition modify (f : kvstore_service A -> kvstore_service A) : cmd A unit := fun w =>
  (tt, mk_world (w_mem w) (w_now w) (w_ticks w) (f (w_service w))).

(** An allocation, or code that allocates. *)
Definition allocating {T} (f : mem -> T * mem) : cmd A T := fun w =>
  let '(x, m) := f (w_mem w) in (x, mk_world m (w_now w) (w_ticks w) (w_service w)).

(** [cache_current_time_ms] *)
Definition current_time : cmd A Z := fun w =>
  (w_now w, mk_world (w_mem w) (w_now w + default 0 (head (w_ticks w))) (tail (w_ticks w)) (w_service w)).

(** Code of the cache without the eviction callbacks it causes. *)
Definition cache_run {T} (f : mem -> cache -> T * cache * mem) : cmd A T := fun w =>
  let '(x, c, m) := f (w_mem w) (sv_cache (w_service w)) in
  (x, mk_world m (w_now w) (w_ticks w) (put_cache c (w_service w))).
End Primitives.

(** ** Constants *)

Definition SERVICE_MAX_RESPONSE : Z := 1024 * 1024.

Definition SERVICE_MAX_ARRAY_ELEMENTS : Z := 65536.

Definition INFO_BUFFER : Z := 1024.

Definition ERR_UNKNOWN : kvstore_reply := REPLY_ERROR (lit "ERR unknown command").
Definition ERR_ARITY : kvstore_reply := REPLY_ERROR (lit "ERR wrong number of arguments").
Definition ERR_INTERNAL : kvstore_reply := REPLY_ERROR (lit "ERR internal error").
Definition ERR_SYNTAX : kvstore_reply := REPLY_ERROR (lit "ERR syntax error").
Definition ERR_INTEGER : kvstore_reply := REPLY_ERROR (lit "ERR value is not an integer or out of range").
Definition ERR_EXPIRE : kvstore_reply := REPLY_ERROR (lit "ERR invalid expire time in SET").
Definition ERR_CAPACITY : kvstore_reply := REPLY_ERROR (lit "ERR cache capacity exceeded").
Definition ERR_AOF : kvstore_reply := REPLY_ERROR (lit "ERR AOF persistence unavailable").
Definition ERR_MYSQL_QUEUE : kvstore_reply :=
  REPLY_ERROR (lit "TRYAGAIN MySQL writer queue is above the high-water mark").
Definition ERR_AOF_QUEUE : kvstore_reply :=
  REPLY_ERROR (lit "TRYAGAIN AOF writer queue is above the high-water mark").
Definition ERR_WRONGTYPE : kvstore_reply :=
  REPLY_ERROR (lit "WRONGTYPE Operation against a key holding the wrong kind of value").
Definition ERR_FLOAT : kvstore_reply := REPLY_ERROR (lit "ERR value is not a valid float").
Definition ERR_TOO_LARGE : kvstore_reply := REPLY_ERROR (lit "ERR response exceeds 1 MiB limit").
Definition ERR_RDB_DISABLED : kvstore_reply := REPLY_ERROR (lit "ERR RDB persistence disabled").
Definition ERR_SAVE_BUSY : kvstore_reply := REPLY_ERROR (lit "ERR Background save already in progress").
Definition REPLY_OK : kvstore_reply := REPLY_SIMPLE (lit "OK").
Definition REPLY_PONG : kvstore_reply := REPLY_SIMPLE (lit "PONG").
Definition REPLY_BGSAVE_STARTED : kvstore_reply := REPLY_SIMPLE (lit "Background saving started").

Definition arg (arguments : list (list Z)) (i : nat) : list Z := nth i arguments [].

(** ** Appending to the log *)

Section Commands.
Context {A : Type} `{LogOps A}.

(** The doubling of the mutation buffer; [capacity] is at least 512. *)
Fixpoint mutation_capacity (fuel : nat) (capacity required : Z) : Z :=
  match fuel with
  | O => capacity
  | S fuel =>
      if capacity <? required then
        if capacity >? SIZE_MAX / 2 then required else mutation_capacity fuel (capacity * 2) required
      else capacity
  end.

Definition capture_mysql_mutation (arguments : list (list Z)) : cmd A Z :=
  s ← ask;
  if negb (sv_recording s) || negb (is_Some_bool (sv_mysql s)) then mret 0 else
  if (zlen arguments =? 0) || (zlen arguments >? 128) then mret (-1) else
  match payload_bytes arguments with
  | None => mret (-1)
  | Some required =>
      if required >? sv_mutation_capacity s then
        ok ← allocating malloc;
        if negb ok then mret (-1) else
        let capacity := if sv_mutation_capacity s =? 0 then 512 else sv_mutation_capacity s in
        modify (put_mutation (sv_recording s) arguments (mutation_capacity 64 capacity required)) ;; mret 0
      else modify (put_mutation (sv_recording s) arguments (sv_mutation_capacity s)) ;; mret 0
  end.

(** [aof_append] on the log of the service, which is not null. *)
Definition append_to_log (arguments : list (list Z)) : cmd A Z := fun w =>
  match sv_aof (w_service w) with
  | None => (-1, w)
  | Some a =>
      let '(r, a, m) := log_append (w_mem w) a (Some <$> arguments) in
      (r, mk_world m (w_now w) (w_ticks w) (put_aof (Some a) (w_service w)))
  end.

Definition append_aof_record (arguments : list (list Z)) : cmd A Z :=
  r ← append_to_log arguments;
  if negb (r =? 0) then mret (-1) else capture_mysql_mutation arguments.

(** The test for a null log at the start of the four functions below. *)
Definition when_logging (c : cmd A Z) : cmd A Z :=
  s ← ask;
  if negb (is_Some_bool (sv_aof s)) then mret 0 else c.

Definition append_key_command (command key : list Z) : cmd A Z :=
  when_logging (append_aof_record [command; key]).

(** The text of a 64-bit number has at most 20 characters and fits the buffer
    of 32. *)
Definition append_deadline_command (command key : list Z) (deadline : Z) : cmd A Z :=
  when_logging (append_aof_record [command; key; decimal deadline]).

Definition append_set_command (arguments : list (list Z)) (deadline : Z) : cmd A Z :=
  when_logging
    (append_aof_record
       ([lit "SET"; arg arguments 1; arg arguments 2] ++
        if deadline =? 0 then [] else [lit "PXAT"; decimal deadline])).

Definition append_original_command (arguments : list (list Z)) : cmd A Z :=
  when_logging
    (if (zlen arguments =? 0) || (zlen arguments >? RESP_MAX_ARGUMENTS) then mret (-1)
     else append_aof_record arguments).

Definition append_mysql_marker (sequence : Z) : cmd A Z :=
  s ← ask;
  if zlen (decimal sequence) >=? 64 - (9 + 2 * zlen (sv_uuid s) + 1) then mret (-1) else
  append_to_log
    [lit "PING"; lit "KVMYSQL1:" ++ checkpoint_token_text (sv_uuid s) ++ lit ":" ++ decimal sequence].

Definition mysql_write_estimate (arguments : list (list Z)) : Z :=
  fold_left (fun amount a =>
    if amount =? SIZE_MAX then SIZE_MAX else
    if zlen a >? SIZE_MAX - amount then SIZE_MAX else amount + zlen a) arguments 128.

(** [record_eviction], for the keys the cache reported since the last call. *)
Fixpoint record_evictions (keys : list (list Z)) : cmd A unit :=
  match keys with
  | [] => mret tt
  | key :: keys => _ ← append_key_command (lit "DEL") key; record_evictions keys
  end.

(** A call of the cache with the eviction callbacks it makes.  The cache does
    not use the log and allocates nothing after its first eviction. *)
Definition on_cache {T} (f : mem -> Z -> cache -> T * cache * mem) : cmd A T :=
  clock ← current_time;
  x ← cache_run (fun m c => f m clock c);
  s ← ask;
  modify (put_cache (with_calls [] (sv_cache s))) ;;
  record_evictions (c_calls (sv_cache s)) ;;
  mret x.

(** The same for a call that can read the clock again before an eviction. *)
Definition on_cache_twice {T} (f : mem -> Z -> Z -> cache -> T * cache * mem) : cmd A T :=
  clock ← current_time; on_cache (fun m later c => f m clock later c).

(** The same for an operation that does not allocate. *)
Definition on_cache_pure {T} (f : Z -> cache -> T * cache) : cmd A T :=
  on_cache (fun m clock c => let '(x, c) := f clock c in (x, c, m)).

(** Writing the object a reference leads to. *)
Definition write_object (p : list Z) (o : kv_object) : cmd A unit :=
  modify (fun s => put_cache (set_object p o (sv_cache s)) s).

(** The object of a reference. *)
Definition read_object (p : option (list Z)) : cmd A (option kv_object) :=
  s ← ask; mret (p ≫= object_at (sv_cache s)).

(** [cache_get_object_ref] and [cache_get_hash_object_ref] with the object. *)
Definition get_object (key : list Z) (record : bool) : cmd A (option (list Z) * option kv_object) :=
  p ← on_cache_pure (fun clock c => cache_get_object_ref clock c (Some key) record);
  o ← read_object p; mret (p, o).

Definition get_hash_object (key : list Z) (record : bool) : cmd A (option (list Z) * option kv_object) :=
  p ← on_cache_pure (fun clock c => cache_get_hash_object_ref clock c (Some key) record);
  o ← read_object p; mret (p, o).

(** ** Reply buffers *)

(** The doubling loops of the two buffers: a result below [limit] is at least
    [needed]. *)
Fixpoint reply_capacity (fuel : nat) (limit capacity needed : Z) : Z :=
  match fuel with
  | O => capacity
  | S fuel =>
      if capacity <? needed then
        if capacity >? limit / 2 then limit else reply_capacity fuel limit (capacity * 2) needed
      else capacity
  end.

Definition reserve_reply_elements (count : Z) : cmd A Z :=
  s ← ask;
  if count >? SERVICE_MAX_ARRAY_ELEMENTS then mret (-2) else
  if count <=? sv_element_capacity s then mret 0 else
  let start := if sv_element_capacity s =? 0 then 16 else sv_element_capacity s in
  ok ← allocating malloc;
  if negb ok then mret (-1) else
  modify (put_capacities (reply_capacity 64 SERVICE_MAX_ARRAY_ELEMENTS start count) (sv_score_capacity s)) ;;
  mret 0.

Definition reserve_score_buffer (bytes : Z) : cmd A Z :=
  s ← ask;
  if bytes <=? sv_score_capacity s then mret 0 else
  let start := if sv_score_capacity s =? 0 then 256 else sv_score_capacity s in
  let capacity := reply_capacity 64 SERVICE_MAX_RESPONSE start bytes in
  if capacity <? bytes then mret (-2) else
  ok ← allocating malloc;
  if negb ok then mret (-1) else
  modify (put_capacities (sv_element_capacity s) capacity) ;; mret 0.

(** The error for a failed reservation or collection. *)
Definition size_error (too_large : bool) : kvstore_reply := if too_large then ERR_TOO_LARGE else ERR_INTERNAL.

(** ** Strings and expiration *)

(** The option of SET: an error reply or the time to live. *)
Definition set_option (arguments : list (list Z)) : kvstore_reply + Z :=
  if zlen arguments =? 5 then
    let parse multiplier :=
      match duration_ms (arg arguments 4) multiplier true with
      | (parse_result, _, ttl_ms) =>
          if parse_result =? -2 then inl ERR_EXPIRE else
          if negb (parse_result =? 0) then inl ERR_INTEGER else inr ttl_ms
      end in
    if argument_equals (arg arguments 3) (lit "EX") then parse 1000 else
    if argument_equals (arg arguments 3) (lit "PX") then parse 1 else inl ERR_SYNTAX
  else inr 0.

Definition execute_set (arguments : list (list Z)) : cmd A kvstore_reply :=
  match set_option arguments with
  | inl error => mret error
  | inr ttl_ms =>
      now ← current_time;
      if negb (ttl_ms =? 0) && (ttl_ms >? UINT64_MAX - now) then mret ERR_INTEGER else
      let expire_at_ms := if ttl_ms =? 0 then 0 else now + ttl_ms in
      result ← on_cache_twice (fun m clock later c =>
        cache_set_expire_at m clock later c (Some (arg arguments 1)) (Some (arg arguments 2)) expire_at_ms);
      match result with
      | CACHE_SET_CAPACITY => mret ERR_CAPACITY
      | CACHE_SET_RANGE => mret ERR_INTEGER
      | CACHE_SET_ERROR => mret ERR_INTERNAL
      | CACHE_SET_OK =>
          r ← append_set_command arguments expire_at_ms;
          mret (if negb (r =? 0) then ERR_AOF else REPLY_OK)
      end
  end.

(** The last part of the commands that answer with a count: the record is
    appended when something changed. *)
Definition answer_count (result : Z) (append : cmd A Z) : cmd A kvstore_reply :=
  if result =? -2 then mret ERR_INTEGER else
  if result <? 0 then mret ERR_INTERNAL else
  if result >? 0 then
    r ← append;
    mret (if negb (r =? 0) then ERR_AOF else REPLY_INTEGER result)
  else mret (REPLY_INTEGER result).

Definition execute_delete (key : list Z) : cmd A kvstore_reply :=
  deleted ← on_cache_pure (fun clock c => cache_delete clock c (Some key));
  answer_count deleted (append_key_command (lit "DEL") key).

Definition execute_persist (key : list Z) : cmd A kvstore_reply :=
  persisted ← on_cache_pure (fun clock c => cache_persist clock c (Some key));
  answer_count persisted (append_key_command (lit "PERSIST") key).

Definition execute_expire (arguments : list (list Z)) (multiplier : Z) : cmd A kvstore_reply :=
  let key := arg arguments 1 in
  match duration_ms (arg arguments 2) multiplier false with
  | (parse_result, parsed, ttl_ms) =>
      if negb (parse_result =? 0) then mret ERR_INTEGER else
      if parsed <=? 0 then
        result ← on_cache_pure (fun clock c => cache_delete clock c (Some key));
        answer_count result (append_key_command (lit "DEL") key)
      else
        now ← current_time;
        if ttl_ms >? UINT64_MAX - now then mret ERR_INTEGER else
        let deadline := now + ttl_ms in
        result ← on_cache (fun m clock c => cache_expire_at m clock c (Some key) deadline);
        answer_count result (append_deadline_command (lit "PEXPIREAT") key deadline)
  end.

Definition execute_ttl (key : list Z) (seconds : bool) : cmd A kvstore_reply :=
  ttl ← on_cache_pure (fun clock c => cache_ttl_ms clock c (Some key));
  match ttl with
  | None => mret ERR_INTERNAL
  | Some ttl_ms =>
      mret (REPLY_INTEGER (if seconds && (ttl_ms >=? 0) then ttl_ms / 1000 else ttl_ms))
  end.

Definition execute_get (key : list Z) : cmd A kvstore_reply :=
  '(_, object) ← get_object key true;
  match object with
  | None => mret REPLY_NULL_BULK
  | Some o =>
      match kv_object_string_value o with
      | Some data => mret (REPLY_BULK data)
      | None => mret ERR_WRONGTYPE
      end
  end.

(** ** Hashes *)

Definition set_object_error (result : cache_set_result) : kvstore_reply :=
  match result with CACHE_SET_CAPACITY => ERR_CAPACITY | _ => ERR_INTERNAL end.

(** The arguments from the third on, in pairs. *)
Fixpoint argument_pairs (l : list (list Z)) : list (list Z * list Z) :=
  match l with
  | a :: b :: l => (a, b) :: argument_pairs l
  | _ => []
  end.

(** The loop of HSET: the object, and the fields added and whether one changed,
    or [None] when a field could not be set. *)
Fixpoint hset_loop (m : mem) (o : kv_object) (pairs : list (list Z * list Z)) (added : Z) (changed : bool)
  : option (Z * bool) * kv_object * mem :=
  match pairs with
  | [] => (Some (added, changed), o, m)
  | (field, value) :: pairs =>
      let '(w, o, m) := kv_object_hash_set m o (Some field) (Some value) in
      if negb (w_status w =? 0) then (None, o, m)
      else hset_loop m o pairs (added + (if w_added w then 1 else 0)) (changed || w_changed w)
  end.

(** Where HSET and ZADD work: on a new object, a copy, or the object itself;
    [None] when the allocation fails. *)
Definition working_object (create : mem -> option kv_object * mem) (original : option kv_object)
    (pair_count : Z) : cmd A (option (kv_object * bool)) :=
  match original with
  | None =>
      o ← allocating create; mret ((fun o => (o, true)) <$> o)
  | Some object =>
      s ← ask;
      if (pair_count >? 1) || negb (cache_max_memory (sv_cache s) =? 0) then
        o ← allocating (fun m => kv_object_clone m object); mret ((fun o => (o, true)) <$> o)
      else mret (Some (object, false))
  end.

(** The end of HSET and ZADD: store the copy or recharge the entry, append the
    record, and answer. *)
Definition finish_update (arguments : list (list Z)) (p : option (list Z)) (working : kv_object)
    (copied changed_any : bool) (added_total : Z) : cmd A kvstore_reply :=
  if changed_any then
    result ← (if copied
              then on_cache_twice (fun m clock later c => cache_store_object m clock later c (Some (arg arguments 1)) working 0 true)
              else on_cache_pure (fun clock c => cache_recharge_ref clock c p));
    match result with
    | CACHE_SET_OK =>
        r ← append_original_command arguments;
        mret (if negb (r =? 0) then ERR_AOF else REPLY_INTEGER added_total)
    | _ => mret (set_object_error result)
    end
  else mret (REPLY_INTEGER added_total).

(** Changes made to the object itself reach the cache at once. *)
Definition commit_in_place (p : option (list Z)) (copied : bool) (o : kv_object) : cmd A unit :=
  match p with
  | Some p => if copied then mret tt else write_object p o
  | None => mret tt
  end.

Definition execute_hset (arguments : list (list Z)) : cmd A kvstore_reply :=
  '(p, original) ← get_hash_object (arg arguments 1) false;
  if match original with Some o => bool_decide (kv_object_get_type o <> KV_OBJECT_HASH) | None => false end
  then mret ERR_WRONGTYPE else
  let pairs := argument_pairs (drop 2 arguments) in
  w ← working_object kv_object_create_hash original (zlen pairs);
  match w with
  | None => mret ERR_INTERNAL
  | Some (working, copied) =>
      '(r, working) ← allocating (fun m => hset_loop m working pairs 0 false);
      commit_in_place p copied working ;;
      match r with
      | None => mret ERR_INTERNAL
      | Some (added_total, changed_any) => finish_update arguments p working copied changed_any added_total
      end
  end.

(** The loops of HDEL and ZREM. *)
Fixpoint remove_loop (remove : kv_object -> slice -> Z * kv_object) (o : kv_object) (names : list (list Z))
    (removed : Z) : option Z * kv_object :=
  match names with
  | [] => (Some removed, o)
  | name :: names =>
      let '(result, o) := remove o (Some name) in
      if result <? 0 then (None, o) else remove_loop remove o names (removed + result)
  end.

(** The end of HDEL and ZREM: an object that became empty is deleted. *)
Definition finish_removal (arguments : list (list Z)) (p : option (list Z)) (length removed : Z)
  : cmd A kvstore_reply :=
  if removed >? 0 then
    ok ← (if length =? 0
          then r ← on_cache_pure (fun clock c => cache_delete clock c (Some (arg arguments 1)));
               mret (negb (r <? 0))
          else r ← on_cache_pure (fun clock c => cache_recharge_ref clock c p);
               mret (bool_decide (r = CACHE_SET_OK)));
    if negb ok then mret ERR_INTERNAL else
    r ← append_original_command arguments;
    mret (if negb (r =? 0) then ERR_AOF else REPLY_INTEGER removed)
  else mret (REPLY_INTEGER removed).

Definition execute_hdel (arguments : list (list Z)) : cmd A kvstore_reply :=
  '(p, object) ← get_hash_object (arg arguments 1) false;
  match object with
  | None => mret (REPLY_INTEGER 0)
  | Some o =>
      if bool_decide (kv_object_get_type o <> KV_OBJECT_HASH) then mret ERR_WRONGTYPE else
      let '(r, o) := remove_loop kv_object_hash_delete o (drop 2 arguments) 0 in
      commit_in_place p false o ;;
      match r with
      | None => mret ERR_INTERNAL
      | Some removed => finish_removal arguments p (kv_object_hash_length o) removed
      end
  end.

(** The collection of HGETALL. *)
Record hash_array_context : Type := mk_hash_array {
  ha_elements : list (list Z); ha_encoded_size : Z; ha_too_large : bool
}.

Definition collect_hash_pair (collection : hash_array_context) (x : list Z * list Z)
  : Z * hash_array_context :=
  let field_size := bulk_encoded_size (zlen x.1) in
  let value_size := bulk_encoded_size (zlen x.2) in
  if (field_size =? SIZE_MAX) || (value_size =? SIZE_MAX) ||
     (ha_encoded_size collection >? wrap64 (SERVICE_MAX_RESPONSE - field_size)) ||
     (wrap64 (ha_encoded_size collection + field_size) >? wrap64 (SERVICE_MAX_RESPONSE - value_size))
  then (-1, mk_hash_array (ha_elements collection) (ha_encoded_size collection) true)
  else (0, mk_hash_array (ha_elements collection ++ [x.1; x.2])
             (wrap64 (ha_encoded_size collection + (field_size + value_size))) (ha_too_large collection)).

Definition execute_hgetall (key : list Z) : cmd A kvstore_reply :=
  '(_, object) ← get_hash_object key true;
  match object with
  | None => mret (REPLY_ARRAY [])
  | Some o =>
      if bool_decide (kv_object_get_type o <> KV_OBJECT_HASH) then mret ERR_WRONGTYPE else
      let fields := kv_object_hash_length o in
      if fields >? SERVICE_MAX_ARRAY_ELEMENTS / 2 then mret ERR_TOO_LARGE else
      reserve_result ← reserve_reply_elements (fields * 2);
      if negb (reserve_result =? 0) then mret (size_error (reserve_result =? -2)) else
      let '(r, context) := kv_object_hash_visit o collect_hash_pair
                             (mk_hash_array [] (decimal_digits (fields * 2) + 3) false) in
      mret (if negb (r =? 0) then size_error (ha_too_large context) else REPLY_ARRAY (ha_elements context))
  end.

(** The answer of HGET, with the object after its rehash step. *)
Definition execute_hget (key field : list Z) : cmd A kvstore_reply :=
  '(p, object) ← get_hash_object key true;
  match object with
  | None => mret REPLY_NULL_BULK
  | Some o =>
      if bool_decide (kv_object_get_type o <> KV_OBJECT_HASH) then mret ERR_WRONGTYPE else
      let '(data, o) := kv_object_hash_get o (Some field) in
      commit_in_place p false o ;;
      mret (match data with None => REPLY_NULL_BULK | Some data => REPLY_BULK data end)
  end.

Definition execute_hlen (key : list Z) : cmd A kvstore_reply :=
  '(_, object) ← get_hash_object key true;
  mret match object with
       | None => REPLY_INTEGER 0
       | Some o => if bool_decide (kv_object_get_type o <> KV_OBJECT_HASH) then ERR_WRONGTYPE
                   else REPLY_INTEGER (kv_object_hash_length o)
       end.

(** ** Sorted sets *)

(** The scores of ZADD: a status that is not 0 stops the loop. *)
Fixpoint parse_scores (m : mem) (pairs : list (list Z * list Z)) : Z * list Z * mem :=
  match pairs with
  | [] => (0, [], m)
  | (text, _) :: pairs =>
      let '(result, score, m) := parse_double_argument m text in
      if negb (result =? 0) then (result, [], m) else
      let '(result, scores, m) := parse_scores m pairs in (result, score :: scores, m)
  end.

Fixpoint zadd_loop (m : mem) (o : kv_object) (members : list (Z * list Z)) (added : Z) (changed : bool)
  : option (Z * bool) * kv_object * mem :=
  match members with
  | [] => (Some (added, changed), o, m)
  | (score, member) :: members =>
      let '(w, o, m) := kv_object_zset_add m o score (Some member) in
      if negb (w_status w =? 0) then (None, o, m)
      else zadd_loop m o members (added + (if w_added w then 1 else 0)) (changed || w_changed w)
  end.

Definition ZADD_SCORES : Z := 64.

Definition execute_zadd (arguments : list (list Z)) : cmd A kvstore_reply :=
  let pairs := argument_pairs (drop 2 arguments) in
  if zlen pairs >? ZADD_SCORES then mret ERR_INTERNAL else
  '(result, scores) ← allocating (fun m => parse_scores m pairs);
  if negb (result =? 0) then mret (if result =? -2 then ERR_INTERNAL else ERR_FLOAT) else
  '(p, original) ← get_object (arg arguments 1) false;
  if match original with Some o => bool_decide (kv_object_get_type o <> KV_OBJECT_ZSET) | None => false end
  then mret ERR_WRONGTYPE else
  s ← ask;
  w ← working_object (fun m => kv_object_create_zset m (sv_engine s)) original (zlen pairs);
  match w with
  | None => mret ERR_INTERNAL
  | Some (working, copied) =>
      '(r, working) ← allocating (fun m => zadd_loop m working (zip scores pairs.*2) 0 false);
      commit_in_place p copied working ;;
      match r with
      | None => mret ERR_INTERNAL
      | Some (added_total, changed_any) => finish_update arguments p working copied changed_any added_total
      end
  end.

Definition execute_zrem (arguments : list (list Z)) : cmd A kvstore_reply :=
  '(p, object) ← get_object (arg arguments 1) false;
  match object with
  | None => mret (REPLY_INTEGER 0)
  | Some o =>
      if bool_decide (kv_object_get_type o <> KV_OBJECT_ZSET) then mret ERR_WRONGTYPE else
      let '(r, o) := remove_loop kv_object_zset_remove o (drop 2 arguments) 0 in
      commit_in_place p false o ;;
      match r with
      | None => mret ERR_INTERNAL
      | Some removed => finish_removal arguments p (kv_object_zset_length o) removed
      end
  end.

Definition count_zset_member (count : Z) (x : zelem) : Z * Z := (0, count + 1).

(** The collection of ZRANGE. *)
Record zrange_array_context : Type := mk_zrange_array {
  za_elements : list (list Z); za_encoded_size : Z; za_too_large : bool
}.

Definition collect_zset_member (with_scores : bool) (collection : zrange_array_context) (x : zelem)
  : Z * zrange_array_context :=
  let too_large := (-1, mk_zrange_array (za_elements collection) (za_encoded_size collection) true) in
  let member_size := bulk_encoded_size (zlen x.2) in
  if (member_size =? SIZE_MAX) ||
     (za_encoded_size collection >? wrap64 (SERVICE_MAX_RESPONSE - member_size)) then too_large else
  let collection := mk_zrange_array (za_elements collection ++ [x.2])
                      (wrap64 (za_encoded_size collection + member_size)) (za_too_large collection) in
  if negb with_scores then (0, collection) else
  let '(text, written) := format_score 32 x.1 in
  if (written <? 0) || (written >=? 32) then (-1, collection) else
  let score_size := bulk_encoded_size written in
  if (score_size =? SIZE_MAX) ||
     (za_encoded_size collection >? wrap64 (SERVICE_MAX_RESPONSE - score_size))
  then (-1, mk_zrange_array (za_elements collection) (za_encoded_size collection) true)
  else (0, mk_zrange_array (za_elements collection ++ [text])
             (wrap64 (za_encoded_size collection + score_size)) (za_too_large collection)).

(** The two passes over the range, counting and collecting. *)
Definition collect_range (o : kv_object) (start stop : Z) (with_scores : bool) : cmd A kvstore_reply :=
  match kv_object_zset_range o start stop count_zset_member 0 with
  | (r, count, _) =>
      if negb (r =? 0) then mret ERR_INTERNAL else
      let per_member := if with_scores then 2 else 1 in
      if count >? SERVICE_MAX_ARRAY_ELEMENTS / per_member then mret ERR_TOO_LARGE else
      let element_count := count * per_member in
      reserve_elements ← reserve_reply_elements element_count;
      reserve_result ← (if (reserve_elements =? 0) && with_scores then reserve_score_buffer (count * 32)
                        else mret reserve_elements);
      if negb (reserve_result =? 0) then mret (size_error (reserve_result =? -2)) else
      match kv_object_zset_range o start stop (collect_zset_member with_scores)
              (mk_zrange_array [] (decimal_digits element_count + 3) false) with
      | (r, collection, _) =>
          mret (if negb (r =? 0) then size_error (za_too_large collection)
                else REPLY_ARRAY (za_elements collection))
      end
  end.

Definition execute_zrange (arguments : list (list Z)) : cmd A kvstore_reply :=
  let with_scores := zlen arguments =? 5 in
  match parse_int64 (arg arguments 2), parse_int64 (arg arguments 3) with
  | Some start, Some stop =>
      if with_scores && negb (argument_equals (arg arguments 4) (lit "WITHSCORES")) then mret ERR_SYNTAX else
      '(_, object) ← get_object (arg arguments 1) true;
      match object with
      | None => mret (REPLY_ARRAY [])
      | Some o =>
          if bool_decide (kv_object_get_type o <> KV_OBJECT_ZSET) then mret ERR_WRONGTYPE
          else collect_range o start stop with_scores
      end
  | _, _ => mret ERR_INTEGER
  end.

Definition execute_zscore (key member : list Z) : cmd A kvstore_reply :=
  '(p, object) ← get_object key true;
  match object with
  | None => mret REPLY_NULL_BULK
  | Some o =>
      if bool_decide (kv_object_get_type o <> KV_OBJECT_ZSET) then mret ERR_WRONGTYPE else
      let '(found, score, o) := kv_object_zset_score o (Some member) in
      commit_in_place p false o ;;
      if found <? 0 then mret ERR_INTERNAL else
      if found =? 0 then mret REPLY_NULL_BULK else
      reserved ← reserve_score_buffer 32;
      if negb (reserved =? 0) then mret ERR_INTERNAL else
      let '(text, written) := format_score 32 (default 0 score) in
      mret (if (written <? 0) || (written >=? 32) then ERR_INTERNAL else REPLY_BULK text)
  end.

Definition execute_zcard (key : list Z) : cmd A kvstore_reply :=
  '(_, object) ← get_object key true;
  mret match object with
       | None => REPLY_INTEGER 0
       | Some o => if bool_decide (kv_object_get_type o <> KV_OBJECT_ZSET) then ERR_WRONGTYPE
                   else REPLY_INTEGER (kv_object_zset_length o)
       end.

(** ** Information *)

Definition info_line (name value : list Z) : list Z := name ++ [58] ++ value ++ [CR; LF].

Definition flag_text (b : bool) : list Z := if b then [49] else [48].

(** [%d] *)
Definition int_text (z : Z) : list Z := sign_text (z <? 0) ++ decimal (Z.abs z).

(** [snprintf] into the information buffer. *)
Definition info_reply (text : list Z) : kvstore_reply :=
  if zlen text >=? INFO_BUFFER then ERR_INTERNAL else REPLY_BULK text.

Definition cache_info_text (stats : cache_stats) (engine : kv_zset_engine) : list Z :=
  let x := st_counters stats in
  let requests := wrap64 (hits x + misses x) in
  let hit_rate := if requests =? 0 then 0
                  else double_div (double_mul (double_of_int (hits x)) (double_of_int 100))
                         (double_of_int requests) in
  info_line (lit "keys") (decimal (st_keys stats)) ++
  info_line (lit "used_memory") (decimal (st_used_memory stats)) ++
  info_line (lit "index_memory") (decimal (st_index_memory stats)) ++
  info_line (lit "maxmemory") (decimal (st_max_memory stats)) ++
  info_line (lit "maxkeys") (decimal (st_max_keys stats)) ++
  info_line (lit "hits") (decimal (hits x)) ++
  info_line (lit "misses") (decimal (misses x)) ++
  info_line (lit "hit_rate") (format_f2 hit_rate ++ [37]) ++
  info_line (lit "expired_keys") (decimal (expired_keys x)) ++
  info_line (lit "evicted_keys") (decimal (evicted_keys x)) ++
  info_line (lit "hash_slots") (decimal (st_hash_slots stats)) ++
  info_line (lit "rehashing") (flag_text (st_rehashing stats)) ++
  info_line (lit "string_keys") (decimal (string_keys x)) ++
  info_line (lit "hash_keys") (decimal (hash_keys x)) ++
  info_line (lit "zset_keys") (decimal (zset_keys x)) ++
  info_line (lit "hash_fields") (decimal (hash_field_count x)) ++
  info_line (lit "zset_members") (decimal (zset_members x)) ++
  info_line (lit "zset_engine") (kv_zset_engine_name engine).

Definition execute_info : cmd A kvstore_reply :=
  s ← ask; mret (info_reply (cache_info_text (cache_get_stats (sv_cache s)) (sv_engine s))).

Record kvstore_persistence_info : Type := mk_persistence_info {
  pi_rdb_enabled : Z; pi_bgsave_in_progress : Z; pi_dirty_changes : Z; pi_last_save_time : Z;
  pi_last_save_duration : Z; pi_last_fork_pause : Z; pi_child_peak_rss : Z; pi_child_minor_faults : Z;
  pi_child_major_faults : Z; pi_checkpoint_offset : Z; pi_last_save_status : Z
}.

(** What a save callback returns: success, or [errno]. *)
Inductive save_status : Type := SaveDone | SaveBusy | SaveUnsupported | SaveError.

(** The callbacks of [kvstore_persistence_admin_t]; [None] is a null pointer. *)
Record persistence_admin : Type := mk_admin {
  pa_save : option (bool -> cmd A save_status);
  pa_lastsave : option (cmd A Z);
  pa_get_info : option (kvstore_persistence_info -> cmd A kvstore_persistence_info)
}.

Definition persistence_info_text (logging : bool) (x : aof_info) (p : kvstore_persistence_info) : list Z :=
  info_line (lit "aof_enabled") (flag_text logging) ++
  info_line (lit "aof_queue_bytes") (decimal (in_queue_bytes x)) ++
  info_line (lit "aof_queue_high_water") (decimal AOF_QUEUE_HIGH_WATER) ++
  info_line (lit "aof_queue_low_water") (decimal AOF_QUEUE_LOW_WATER) ++
  info_line (lit "aof_enqueued_sequence") (decimal (in_enqueued x)) ++
  info_line (lit "aof_written_sequence") (decimal (in_written x)) ++
  info_line (lit "aof_synced_sequence") (decimal (in_synced x)) ++
  info_line (lit "aof_written_bytes") (decimal (in_written_bytes x)) ++
  info_line (lit "aof_backpressure_events") (decimal (in_backpressure_events x)) ++
  info_line (lit "aof_fsync_count") (decimal (in_fsync_count x)) ++
  info_line (lit "aof_fsync_total_us") (decimal (in_fsync_total x)) ++
  info_line (lit "aof_fsync_max_us") (decimal (in_fsync_max x)) ++
  info_line (lit "aof_backpressured") (flag_text (in_backpressured x)) ++
  info_line (lit "aof_failed") (flag_text (in_failed x)) ++
  info_line (lit "aof_last_error") (int_text (in_last_error x)) ++
  info_line (lit "rdb_enabled") (int_text (pi_rdb_enabled p)) ++
  info_line (lit "rdb_bgsave_in_progress") (int_text (pi_bgsave_in_progress p)) ++
  info_line (lit "rdb_dirty_changes") (decimal (pi_dirty_changes p)) ++
  info_line (lit "rdb_last_save_time") (decimal (pi_last_save_time p)) ++
  info_line (lit "rdb_last_save_duration_us") (decimal (pi_last_save_duration p)) ++
  info_line (lit "rdb_last_fork_pause_us") (decimal (pi_last_fork_pause p)) ++
  info_line (lit "rdb_last_child_peak_rss_kb") (decimal (pi_child_peak_rss p)) ++
  info_line (lit "rdb_last_child_minor_faults") (decimal (pi_child_minor_faults p)) ++
  info_line (lit "rdb_last_child_major_faults") (decimal (pi_child_major_faults p)) ++
  info_line (lit "rdb_last_save_status") (int_text (pi_last_save_status p)) ++
  info_line (lit "rdb_checkpoint_offset") (decimal (pi_checkpoint_offset p)).

Definition mysql_info_text (enabled : bool) (x : mysql_store_stats) : list Z :=
  info_line (lit "mysql_enabled") (flag_text enabled) ++
  info_line (lit "mysql_read_workers") (decimal (ms_read_workers x)) ++
  info_line (lit "mysql_connected_readers") (decimal (ms_connected_readers x)) ++
  info_line (lit "mysql_connected_writer") (flag_text (ms_connected_writer x)) ++
  info_line (lit "mysql_pending_reads") (decimal (ms_pending_reads x)) ++
  info_line (lit "mysql_read_queue_limit") (decimal (ms_read_queue_limit x)) ++
  info_line (lit "mysql_pending_write_bytes") (decimal (ms_pending_write_bytes x)) ++
  info_line (lit "mysql_write_queue_max_bytes") (decimal (ms_write_queue_max_bytes x)) ++
  info_line (lit "mysql_load_max_bytes") (decimal (ms_load_max_bytes x)) ++
  info_line (lit "mysql_submitted_sequence") (decimal (ms_submitted x)) ++
  info_line (lit "mysql_applied_sequence") (decimal (ms_applied x)) ++
  info_line (lit "mysql_loads") (decimal (ms_loads x)) ++
  info_line (lit "mysql_coalesced_loads") (decimal (ms_coalesced x)) ++
  info_line (lit "mysql_negative_cache_hits") (decimal (ms_negative_hits x)) ++
  info_line (lit "mysql_load_errors") (decimal (ms_load_errors x)) ++
  info_line (lit "mysql_write_errors") (decimal (ms_write_errors x)) ++
  info_line (lit "mysql_reconnects") (decimal (ms_reconnects x)) ++
  info_line (lit "mysql_last_error") (decimal (ms_last_error x)).

Definition no_aof_info : aof_info := mk_info 0 0 0 0 0 0 0 0 0 false false 0.

Definition no_mysql_stats : mysql_store_stats := mk_mysql_stats 0 0 false 0 0 0 0 0 0 0 0 0 0 0 0 0 0.

Definition execute_mysql_info : cmd A kvstore_reply :=
  s ← ask;
  mret (info_reply (mysql_info_text (is_Some_bool (sv_mysql s))
          (match sv_mysql s with Some store => mysql_store_get_stats store | None => no_mysql_stats end))).

(** ** Dispatch *)

Variable admin : persistence_admin.

(** The callbacks that are set. *)
Definition current_admin : cmd A persistence_admin :=
  s ← ask; mret (if sv_admin s then admin else mk_admin None None None).

Definition execute_persistence_info : cmd A kvstore_reply :=
  s ← ask;
  let info := match sv_aof s with Some a => log_info a | None => no_aof_info end in
  callbacks ← current_admin;
  let persistence := mk_persistence_info 0 0 (sv_dirty s) 0 0 0 0 0 0 0 0 in
  persistence ← match pa_get_info callbacks with None => mret persistence | Some f => f persistence end;
  mret (info_reply (persistence_info_text (is_Some_bool (sv_aof s)) info persistence)).

Definition execute_save_command (background : bool) : cmd A kvstore_reply :=
  callbacks ← current_admin;
  match pa_save callbacks with
  | None => mret ERR_RDB_DISABLED
  | Some save =>
      result ← save background;
      mret match result with
           | SaveBusy => ERR_SAVE_BUSY
           | SaveUnsupported => ERR_RDB_DISABLED
           | SaveError => ERR_INTERNAL
           | SaveDone => if background then REPLY_BGSAVE_STARTED else REPLY_OK
           end
  end.

Definition execute_lastsave : cmd A kvstore_reply :=
  callbacks ← current_admin;
  match pa_lastsave callbacks with
  | None => mret (REPLY_INTEGER 0)
  | Some f => t ← f; mret (REPLY_INTEGER t)
  end.

Definition execute_info_command (section : list Z) : cmd A kvstore_reply :=
  if argument_equals section (lit "PERSISTENCE") then execute_persistence_info else
  if argument_equals section (lit "MYSQL") then execute_mysql_info else
  if negb (argument_equals section (lit "CACHE")) then mret ERR_SYNTAX else execute_info.

Definition execute_ping (arguments : list (list Z)) : cmd A kvstore_reply :=
  mret (if zlen arguments =? 2 then REPLY_BULK (arg arguments 1) else REPLY_PONG).

Definition execute_dbsize : cmd A kvstore_reply :=
  s ← ask; mret (REPLY_INTEGER (st_keys (cache_get_stats (sv_cache s)))).

(** The switch of [execute_command]. *)
Definition dispatch (command : service_command) (arguments : list (list Z)) : cmd A kvstore_reply :=
  let key := arg arguments 1 in
  match command with
  | SERVICE_COMMAND_SET => execute_set arguments
  | SERVICE_COMMAND_GET => execute_get key
  | SERVICE_COMMAND_DEL => execute_delete key
  | SERVICE_COMMAND_PING => execute_ping arguments
  | SERVICE_COMMAND_EXPIRE => execute_expire arguments 1000
  | SERVICE_COMMAND_PEXPIRE => execute_expire arguments 1
  | SERVICE_COMMAND_TTL => execute_ttl key true
  | SERVICE_COMMAND_PTTL => execute_ttl key false
  | SERVICE_COMMAND_PERSIST => execute_persist key
  | SERVICE_COMMAND_INFO => execute_info_command key
  | SERVICE_COMMAND_DBSIZE => execute_dbsize
  | SERVICE_COMMAND_SAVE => execute_save_command false
  | SERVICE_COMMAND_BGSAVE => execute_save_command true
  | SERVICE_COMMAND_LASTSAVE => execute_lastsave
  | SERVICE_COMMAND_HSET => execute_hset arguments
  | SERVICE_COMMAND_HGET => execute_hget key (arg arguments 2)
  | SERVICE_COMMAND_HDEL => execute_hdel arguments
  | SERVICE_COMMAND_HLEN => execute_hlen key
  | SERVICE_COMMAND_HGETALL => execute_hgetall key
  | SERVICE_COMMAND_ZADD => execute_zadd arguments
  | SERVICE_COMMAND_ZREM => execute_zrem arguments
  | SERVICE_COMMAND_ZSCORE => execute_zscore key (arg arguments 2)
  | SERVICE_COMMAND_ZCARD => execute_zcard key
  | SERVICE_COMMAND_ZRANGE => execute_zrange arguments
  | SERVICE_COMMAND_UNKNOWN => mret ERR_UNKNOWN
  end.

(** [None] is the result -1. *)
Definition execute_command (command : service_command) (arguments : list (list Z))
  : cmd A (option kvstore_reply) :=
  s ← ask;
  if negb (sv_initialized s) || (zlen arguments =? 0) then mret None else
  if bool_decide (command = SERVICE_COMMAND_UNKNOWN) then mret (Some ERR_UNKNOWN) else
  if negb (command_arity_valid command (zlen arguments)) then mret (Some ERR_ARITY) else
  if is_write_command command && match sv_aof s with Some a => log_is_failed a | None => false end
  then mret (Some ERR_AOF) else
  reply ← dispatch command arguments; mret (Some reply).

(** ** Transactions *)

(** [aof_transaction_begin], [aof_transaction_rollback] and
    [aof_transaction_commit] on the log of the service; the commit returns its
    status and the sequence number. *)
Definition begin_transaction : cmd A Z := fun w =>
  match sv_aof (w_service w) with
  | None => (0, w)
  | Some a => let '(r, a) := log_begin a in
              (r, mk_world (w_mem w) (w_now w) (w_ticks w) (put_aof (Some a) (w_service w)))
  end.

Definition rollback_transaction : cmd A unit :=
  modify (fun s => put_aof (log_rollback <$> sv_aof s) s).

Definition commit_transaction : cmd A (Z * Z) := fun w =>
  match sv_aof (w_service w) with
  | None => (0, 0, w)
  | Some a => let '(r, q, a, m) := log_commit (w_mem w) a in
              (r, q, mk_world m (w_now w) (w_ticks w) (put_aof (Some a) (w_service w)))
  end.

(** The admission of a write by the database queue: an error reply, or the
    number of bytes reserved. *)
Definition admit_mysql (arguments : list (list Z)) : cmd A (kvstore_reply + Z) :=
  s ← ask;
  match sv_mysql s with
  | None => mret (inr 0)
  | Some store =>
      let mysql_bytes := mysql_write_estimate arguments in
      if negb (is_Some_bool (sv_aof s)) then mret (inl ERR_AOF) else
      if (mysql_bytes =? SIZE_MAX) || negb (mysql_store_can_accept_write store mysql_bytes)
      then mret (inl ERR_MYSQL_QUEUE) else
      let candidate := wrap64 (sv_next_sequence s + 1) in
      modify (put_sequences (sv_next_sequence s) candidate) ;;
      mret (if candidate =? 0 then inl ERR_INTERNAL else inr mysql_bytes)
  end.

(** [mysql_store_submit_mutation] for the candidate that was committed. *)
Definition submit_mutation (mysql_bytes : Z) : cmd A Z := fun w =>
  let s := w_service w in
  match sv_mysql s with
  | None => (-1, w)
  | Some store =>
      let '(r, store, m) :=
        mysql_store_submit_mutation (w_mem w) store (sv_candidate s) (sv_mutation s) mysql_bytes in
      (r, mk_world m (w_now w) (w_ticks w) (put_mysql (Some store) s))
  end.

(** The end of a write command: the marker, the commit and the mutation. *)
Definition finish_write (mysql_write : bool) (mysql_bytes : Z) (reply : kvstore_reply)
  : cmd A (kvstore_reply * Z) :=
  s ← ask;
  let mutated := mysql_write && negb (zlen (sv_mutation s) =? 0) in
  marked ← (if mutated then append_mysql_marker (sv_candidate s) else mret 0);
  if negb (marked =? 0) then rollback_transaction ;; mret (ERR_AOF, 0) else
  '(committed, barrier) ← commit_transaction;
  if negb (committed =? 0) then rollback_transaction ;; mret (ERR_AOF, 0) else
  if mutated then
    modify (fun s => put_sequences (sv_candidate s) (sv_candidate s) s) ;;
    submitted ← submit_mutation mysql_bytes;
    mret (if negb (submitted =? 0) then ERR_MYSQL_QUEUE else reply, barrier)
  else mret (reply, barrier).

Definition is_error (reply : kvstore_reply) : bool :=
  match reply with REPLY_ERROR _ => true | _ => false end.

(** The reply and the value of [*response_barrier]; [None] is the result -1. *)
Definition kvstore_service_execute_with_barrier (arguments : list (list Z))
  : cmd A (option kvstore_reply * Z) :=
  if zlen arguments =? 0 then mret (None, 0) else
  s ← ask;
  let command := find_command (arg arguments 0) in
  let logical_write := negb (bool_decide (command = SERVICE_COMMAND_UNKNOWN)) &&
                       command_arity_valid command (zlen arguments) && is_write_command command in
  let write_command := logical_write && is_Some_bool (sv_aof s) in
  let mysql_write := logical_write && is_Some_bool (sv_mysql s) in
  admitted ← (if mysql_write then admit_mysql arguments else mret (inr 0));
  match admitted with
  | inl error => mret (Some error, 0)
  | inr mysql_bytes =>
      begun ← (if write_command then begin_transaction else mret 0);
      if negb (begun =? 0) then mret (Some ERR_AOF_QUEUE, 0) else
      modify (fun s => put_mutation mysql_write [] (sv_mutation_capacity s) s) ;;
      result ← execute_command command arguments;
      modify (fun s => put_mutation false (sv_mutation s) (sv_mutation_capacity s) s) ;;
      match result with
      | None =>
          (if write_command then rollback_transaction else mret tt) ;; mret (None, 0)
      | Some reply =>
          (if logical_write && negb (is_error reply)
           then modify (fun s => put_dirty (wrap64 (sv_dirty s + 1)) s) else mret tt) ;;
          if negb write_command then mret (Some reply, 0) else
          '(reply, barrier) ← finish_write mysql_write mysql_bytes reply;
          mret (Some reply, barrier)
      end
  end.

Definition kvstore_service_execute (arguments : list (list Z)) : cmd A (option kvstore_reply) :=
  '(reply, _) ← kvstore_service_execute_with_barrier arguments; mret reply.

(** ** Replay *)

(** A deletion or another operation of replay: a count that is not negative is
    success. *)
Definition replay_count (c : cmd A Z) : cmd A Z :=
  result ← c; mret (if result <? 0 then -1 else 0).

Definition replay_delete (key : list Z) : cmd A Z :=
  replay_count (on_cache_pure (fun clock c => cache_delete clock c (Some key))).

Definition replay_set (arguments : list (list Z)) (now : Z) : cmd A Z :=
  if negb (zlen arguments =? 3) && negb (zlen arguments =? 5) then mret (-1) else
  let deadline :=
    if zlen arguments =? 5 then
      if negb (argument_equals (arg arguments 3) (lit "PXAT")) then None else
      match parse_uint64_bytes (arg arguments 4) with
      | None => None
      | Some deadline => if deadline =? 0 then None else Some deadline
      end
    else Some 0 in
  match deadline with
  | None => mret (-1)
  | Some deadline =>
      if negb (deadline =? 0) && (deadline <=? now) then replay_delete (arg arguments 1) else
      result ← on_cache_twice (fun m clock later c =>
        cache_set_expire_at m clock later c (Some (arg arguments 1)) (Some (arg arguments 2)) deadline);
      mret (if bool_decide (result = CACHE_SET_OK) then 0 else -1)
  end.

Definition replay_expire (arguments : list (list Z)) (now : Z) : cmd A Z :=
  match parse_uint64_bytes (arg arguments 2) with
  | None => mret (-1)
  | Some deadline =>
      if deadline =? 0 then mret (-1) else
      if deadline <=? now then replay_delete (arg arguments 1)
      else replay_count (on_cache (fun m clock c => cache_expire_at m clock c (Some (arg arguments 1)) deadline))
  end.

(** The records that are executed as commands. *)
Definition replay_command (arguments : list (list Z)) : cmd A Z :=
  if zlen arguments >? RESP_MAX_ARGUMENTS then mret (-1) else
  reply ← kvstore_service_execute arguments;
  mret (match reply with Some reply => if is_error reply then -1 else 0 | None => -1 end).

Definition kvstore_service_replay_aof (arguments : list (list Z)) : cmd A Z :=
  s ← ask;
  if negb (sv_initialized s) || (zlen arguments =? 0) then mret (-1) else
  let name := arg arguments 0 in
  let count := zlen arguments in
  if argument_equals name (lit "PING") && ((count =? 1) || (count =? 2)) then mret 0 else
  now ← current_time;
  if argument_equals name (lit "SET") then replay_set arguments now else
  if argument_equals name (lit "DEL") && (count =? 2) then replay_delete (arg arguments 1) else
  if argument_equals name (lit "PERSIST") && (count =? 2) then
    replay_count (on_cache_pure (fun clock c => cache_persist clock c (Some (arg arguments 1)))) else
  if argument_equals name (lit "PEXPIREAT") && (count =? 3) then replay_expire arguments now else
  if argument_equals name (lit "HSET") || argument_equals name (lit "HDEL") ||
     argument_equals name (lit "ZADD") || argument_equals name (lit "ZREM")
  then replay_command arguments else mret (-1).
End Commands.

(** ** Life cycle *)

Section Life.
Context {A : Type} `{LogOps A}.

(** [kvstore_service_init_with_config]; the engine of a configuration is one of
    the two.  The callback [record_eviction] is installed. *)
Definition kvstore_service_init_with_config (m : mem) (max_keys max_memory : Z) (engine : kv_zset_engine)
  : option (kvstore_service A) * mem :=
  match cache_create m max_keys max_memory with
  | (None, m) => (None, m)
  | (Some c, m) =>
      (Some (mk_service (cache_set_eviction_callback c true) None false true engine 0 0 false 0 None
               (replicate 16 0) 0 0 false [] 0), m)
  end.

(** [kvstore_service_init] *)
Definition kvstore_service_init (m : mem) (max_keys max_memory : Z) : option (kvstore_service A) * mem :=
  kvstore_service_init_with_config m max_keys max_memory KV_ZSET_SKIPLIST.

(** [aof_maintain] has no effect on the log. *)
Definition kvstore_service_maintain : cmd A Z :=
  s ← ask;
  if negb (sv_initialized s) then mret (-1) else
  _ ← on_cache_pure (fun clock c => cache_maintain clock c 64 16);
  mret 0.

(** [aof_flush] on the log of the service. *)
Definition flush_log : cmd A (option Z) := fun w =>
  match sv_aof (w_service w) with
  | None => (Some 0, w)
  | Some a =>
      match log_flush a with
      | None => (None, w)
      | Some (r, a) => (Some r, mk_world (w_mem w) (w_now w) (w_ticks w) (put_aof (Some a) (w_service w)))
      end
  end.

(** [None]: the flush waits. *)
Definition kvstore_service_flush : cmd A (option Z) :=
  s ← ask;
  if negb (sv_initialized s) then mret (Some (-1)) else
  flushed ← flush_log;
  match flushed with
  | None => mret None
  | Some r =>
      if negb (r =? 0) && negb (sv_flush_reported s)
      then modify (put_reported true) ;; mret (Some (-1))
      else mret (Some 0)
  end.

Definition kvstore_service_attach_aof (aof : option A) (s : kvstore_service A) : kvstore_service A :=
  if sv_initialized s then put_aof aof s else s.

Definition kvstore_service_attach_mysql (store : option mysql_store) (writer_uuid : option (list Z))
    (next_sequence : Z) (s : kvstore_service A) : kvstore_service A :=
  if negb (sv_initialized s) then s else
  let uuid := match store, writer_uuid with Some _, Some uuid => uuid | _, _ => replicate 16 0 end in
  put_uuid uuid (put_sequences next_sequence (sv_candidate s) (put_mysql store s)).

Definition kvstore_service_set_persistence_admin (set : bool) (s : kvstore_service A) : kvstore_service A :=
  if negb (sv_initialized s) then s else put_admin set s.

Definition kvstore_service_dirty_changes (s : kvstore_service A) : Z := sv_dirty s.

Definition kvstore_service_snapshot_committed (covered_changes : Z) (s : kvstore_service A)
  : kvstore_service A :=
  put_dirty (if covered_changes >=? sv_dirty s then 0 else sv_dirty s - covered_changes) s.
End Life.
