(* ===== verification/ServiceStore.v ===== *)
(** What the cache holds as the commands of the service see it: the abstract
    store of the keys that are not expired, and the effect of each operation of
    the cache on it together with the keys the eviction callback is told. *)

From S2P Require Import Prelude HashTable ZOrder Skiplist Object ExpireHeap LruList Cache Allocation CacheSpec CacheProps.
From S2P Require Import CacheEvents Resp Rdb RdbImage.

(** ** Values *)

Inductive avalue : Type :=
| AString (l : list Z)
| AHash (M : gmap (list Z) (list Z))
| AZset (l : list zelem).

Definition shows (o : kv_object) (v : avalue) : Prop :=
  match v with
  | AString l => kv_object_string_value o = Some l
  | AHash M => is_hash o M
  | AZset l => is_zset o l
  end.

Definition view_object (o : kv_object) : avalue :=
  match o_value o with
  | VString l _ => AString l
  | VHash table => AHash (hv_data <$> to_map table)
  | VZset set => AZset (zset_list set)
  end.

Lemma shows_view o v : shows o v -> view_object o = v.
Proof.
  unfold view_object. destruct v as [l|M|l]; cbn.
  - unfold kv_object_string_value. by destruct (o_value o); intros [= <-].
  - intros [table HR]. by rewrite (hr_value _ _ _ HR), (hr_map _ _ _ HR).
  - intros [set HR]. rewrite (zr_value _ _ _ HR). f_equal. by apply (zset_list_spec o).
Qed.

Lemma wf_shows o : wf_object o <-> shows o (view_object o).
Proof.
  split.
  - intros [[l|M|e l] H].
    + assert (shows o (AString l)) as Hs by done. by rewrite (shows_view _ _ Hs).
    + assert (shows o (AHash M)) as Hs by done. by rewrite (shows_view _ _ Hs).
    + assert (shows o (AZset l)) as Hs by apply H. by rewrite (shows_view _ _ Hs).
  - intros H. destruct (view_object o) as [l|M|l].
    + by exists (CString l).
    + by exists (CHash M).
    + by exists (CZset (kv_object_zset_engine o) l).
Qed.

Lemma shows_wf o v : shows o v -> wf_object o.
Proof. intros H. apply wf_shows. by rewrite (shows_view _ _ H). Qed.

Lemma clone_shows m o copy m' v :
  shows o v -> kv_object_clone m o = (Some copy, m') -> shows copy v.
Proof.
  intros H E. destruct v as [l|M|l].
  - pose proof (proj1 (clone_spec m o (CString l) H)) as Hc. by rewrite E in Hc.
  - pose proof (proj1 (clone_spec m o (CHash M) H)) as Hc. by rewrite E in Hc.
  - pose proof (proj1 (clone_spec m o (CZset _ l) (conj H eq_refl))) as Hc. rewrite E in Hc. apply Hc.
Qed.

Definition type_of_value (v : avalue) : kv_object_type :=
  match v with AString _ => KV_OBJECT_STRING | AHash _ => KV_OBJECT_HASH | AZset _ => KV_OBJECT_ZSET end.

Lemma view_type o : type_of o = type_of_value (view_object o).
Proof. unfold type_of, view_object. by destruct (o_value o). Qed.

(** ** The memory an object reports is never negative *)

Lemma hash_delete_usage o f : 0 <= memory_usage o -> 0 <= memory_usage (kv_object_hash_delete o f).2.
Proof.
  intros H. unfold kv_object_hash_delete. destruct (o_value o); [done| |done]. destruct f as [f|]; [|done].
  destruct (kv_hash_find _ _); [|done]. destruct (kv_hash_remove_node _ _). apply set_usage_nonneg.
Qed.

Lemma zset_remove_usage o k : 0 <= memory_usage o -> 0 <= memory_usage (kv_object_zset_remove o k).2.
Proof.
  intros H. unfold kv_object_zset_remove. destruct (o_value o); [done|done|]. destruct k as [k|]; [|done].
  destruct (kv_hash_find _ _); [|done]. destruct (kv_hash_remove_node _ _). apply set_usage_nonneg.
Qed.

Lemma hash_get_usage o f : memory_usage (kv_object_hash_get o f).2 = memory_usage o.
Proof. unfold kv_object_hash_get. destruct (o_value o); [done| |done]. by destruct f. Qed.

Lemma zset_score_usage o k : memory_usage (kv_object_zset_score o k).2 = memory_usage o.
Proof. unfold kv_object_zset_score. destruct (o_value o); [done|done|]. destruct k; [|done]. by destruct (kv_hash_find _ _). Qed.

Lemma hash_create_memory {V} m (h : hashtable V) m' : kv_hash_create m = (Some h, m') -> 0 <= kv_hash_index_memory h.
Proof.
  unfold kv_hash_create. destruct (malloc m) as [[] m1]; [|done]. cbn [negb]. unfold hash_init, table_allocate.
  destruct (_ || _); [done|]. destruct (malloc m1) as [[] m2]; [|done]. cbn [negb]. intros [= <- _]. unfold kv_hash_index_memory. cbn.
  unfold SIZEOF_HASHTABLE, HASH_INITIAL_SLOTS, SIZEOF_POINTER. lia.
Qed.

Lemma create_hash_usage m o m' : kv_object_create_hash m = (Some o, m') -> 0 <= memory_usage o.
Proof.
  unfold kv_object_create_hash. destruct (malloc m) as [[] m1]; [|done]. cbn [negb].
  destruct (kv_hash_create m1) as [[h|] m2] eqn:E; [|done]. apply hash_create_memory in E. intros [= <- _]. cbn. unfold SIZEOF_KV_OBJECT. lia.
Qed.

Lemma create_zset_usage m engine o m' : kv_object_create_zset m engine = (Some o, m') -> 0 <= memory_usage o.
Proof.
  unfold kv_object_create_zset. destruct (malloc m) as [a m1]. destruct (malloc m1) as [b m2]. destruct (_ || _); [done|].
  destruct (kv_hash_create m2) as [[h|] m3] eqn:E; [|done]. apply hash_create_memory in E.
  destruct (order_init m3 engine) as [[x|] m4]; [|done]. intros [= <- _]. cbn.
  assert (0 <= ordered_base_memory x) by (by destruct x). unfold SIZEOF_KV_OBJECT, SIZEOF_ZSET. lia.
Qed.

Lemma clone_usage m o copy m' : kv_object_clone m o = (Some copy, m') -> 0 <= memory_usage copy.
Proof.
  unfold kv_object_clone. destruct (o_value o) as [l c|table|set] eqn:Eo.
  - intros E. apply create_string_value in E. apply E.
  - destruct (kv_object_create_hash m) as [[x|] m1] eqn:E; [|done]. apply create_hash_usage in E.
    unfold kv_object_hash_visit. rewrite Eo.
    pose proof (visit_usage clone_hash_field (hash_fields table) x m1) as Hv.
    destruct (visit clone_hash_field (x, m1) _) as [r [y m2]]. destruct r; [|done..]. intros [= <- _]. apply Hv; [|done].
    intros z m3 f H. unfold clone_hash_field. pose proof (hash_set_usage m3 z (Some f.1) (Some f.2) H).
    by destruct (kv_object_hash_set _ _ _ _) as [[? ?] ?].
  - destruct (kv_object_create_zset m _) as [[x|] m1] eqn:E; [|done]. apply create_zset_usage in E.
    unfold kv_object_zset_range. rewrite Eo. destruct (range_bounds _ _ _) as [[a b]|]; [|by intros [= <- _]].
    pose proof (fun l => visit_usage clone_zset_member l x m1) as Hv. match goal with |- context [visit clone_zset_member _ ?l] => specialize (Hv l) end.
    destruct (visit clone_zset_member (x, m1) _) as [r [y m2]]. destruct r; [|done..]. intros [= <- _]. apply Hv; [|done].
    intros z m3 f H. unfold clone_zset_member. pose proof (zset_add_usage m3 z f.1 (Some f.2) H).
    by destruct (kv_object_zset_add _ _ _ _) as [[? ?] ?].
Qed.

(** ** The abstract store *)

(** The value and the expiration time of the keys that are not expired; 0 is no
    expiration. *)
Abbreviation astore := (gmap (list Z) (avalue * Z)).

Definition view_entry (e : cache_entry) : avalue * Z := (view_object (e_object e), e_expire e).

Definition visible (t : Z) (c : cache) : astore :=
  omap (fun e => if expired t e then None else Some (view_entry e)) (c_entries c).

Definition drop_keys (ks : list (list Z)) (A : astore) : astore := foldr delete A ks.

Definition place (p : list Z) (x : option (avalue * Z)) (A : astore) : astore := partial_alter (fun _ => x) p A.

Lemma visible_lookup t c k : visible t c !! k = view_entry <$> live_entry (c_entries c) t k.
Proof.
  unfold visible, live_entry. rewrite lookup_omap. destruct (c_entries c !! k) as [e|]; [|done]. cbn. by destruct (expired t e).
Qed.

Lemma drop_keys_lookup (ks : list (list Z)) (A : astore) (k : list Z) : drop_keys ks A !! k = if decide (k ∈ ks) then None else A !! k.
Proof.
  unfold drop_keys. induction ks as [|q ks IH]; cbn [foldr].
  - by rewrite decide_False by apply not_elem_of_nil.
  - destruct (decide (k = q)) as [->|Hk].
    + rewrite lookup_delete_eq, decide_True by (apply elem_of_cons; by left). done.
    + rewrite lookup_delete_ne, IH by done. destruct (decide (k ∈ ks)).
      * rewrite decide_True by (apply elem_of_cons; by right). done.
      * rewrite decide_False by (rewrite elem_of_cons; tauto). done.
Qed.

Lemma place_insert (p : list Z) (x : avalue * Z) (A : astore) : place p (Some x) A = <[p := x]> A.
Proof. done. Qed.

Lemma place_delete (p : list Z) (A : astore) : place p None A = delete p A.
Proof. done. Qed.

Lemma place_same (p : list Z) (A : astore) : place p (A !! p) A = A.
Proof. unfold place. apply partial_alter_self. Qed.

(** A key that the service stores: it fits a record of the log. *)
Definition key_ok (k : list Z) : Prop := zlen k <= RESP_MAX_FRAME_SIZE.

Record cache_good (c : cache) : Prop := {
  cg_ok : exists L, cache_ok L c;
  cg_objects : objects_ok c;
  cg_evict : c_on_evict c = true;
  cg_calls : c_calls c = [];
  cg_keys : forall k, is_Some (c_entries c !! k) -> key_ok k
}.

(** The limits of the cache; 0 is none. *)
Definition limits (c : cache) : Z * Z := (c_max_keys c, c_max_memory c).

(** Keys that can be evicted: nothing is, where there is no limit. *)
Definition evictable (c : cache) (ks : list (list Z)) : Prop := Forall key_ok ks /\ (limits c = (0, 0) -> ks = []).

Lemma evictable_nil c : evictable c [].
Proof. by split; [constructor|]. Qed.

Lemma settings_limits c c' : settings c' = settings c -> limits c' = limits c.
Proof. unfold limits. by intros [= -> -> _ _]. Qed.

Lemma victims_unlimited c extra M order : limits c = (0, 0) -> victims c extra M order = [].
Proof. intros [= H1 H2]. destruct order; [done|]. cbn [victims]. unfold exceeds. by rewrite H1, H2. Qed.

(** [moved t c c' p ks x]: from [c] to [c'] the eviction callback was told [ks],
    the key [p] got the contents [x] and nothing else changed. *)
Record moved (t : Z) (c c' : cache) (p : list Z) (ks : list (list Z)) (x : option (avalue * Z)) : Prop := {
  mv_good : cache_good (with_calls [] c');
  mv_calls : c_calls c' = ks;
  mv_keys : evictable c ks;
  mv_kept : p ∉ ks;
  mv_visible : visible t c' = place p x (drop_keys ks (visible t c));
  mv_limits : limits c' = limits c
}.

Lemma visible_calls t ks c : visible t (with_calls ks c) = visible t c.
Proof. done. Qed.

Lemma trims_visible p t c c' ks k :
  trims p t c c' ks -> k <> p -> visible t c' !! k = drop_keys ks (visible t c) !! k.
Proof.
  intros [A1 A2 A3 _ A4 A5 A6] Hk. rewrite drop_keys_lookup, !visible_lookup. unfold live_entry.
  destruct (decide (k ∈ ks)) as [Hin|Hout]; [by rewrite (A4 k Hin)|].
  destruct (A5 k Hk) as [->|Hn]; [done|]. rewrite Hn. destruct (c_entries c !! k) as [e|] eqn:E; [|done].
  destruct (expired t e) eqn:Ex; [done|]. by destruct Hout; apply (A6 k e).
Qed.

Lemma moved_intro t c c' p ks :
  cache_good c -> trims p t c c' ks -> (exists L, cache_ok L c') -> limits c' = limits c -> (limits c = (0, 0) -> ks = []) ->
  (forall e, c_entries c' !! p = Some e -> wf_object (e_object e) /\ key_ok p) ->
  moved t c c' p ks (visible t c' !! p).
Proof.
  intros [G1 G2 G3 G4 G5] Ht [L HL] Hmm Hno Hp. assert (Hsame := tr_same _ _ _ _ _ Ht). split.
  - split.
    + exists L. destruct HL as [[C1 C2 C3 C4 C5 C6 C7 [D1 D2 D3]] HW]. split; [|done]. by split.
    + intros k e Hk. destruct (decide (k = p)) as [->|Hne]; [by apply Hp|].
      change (c_entries c' !! k = Some e) in Hk. destruct (Hsame k Hne) as [E|E]; [|congruence].
      rewrite E in Hk. by apply (G2 k e).
    + change (c_on_evict c' = true). by rewrite (tr_evict _ _ _ _ _ Ht).
    + done.
    + intros k [e Hk]. change (c_entries c' !! k = Some e) in Hk. destruct (decide (k = p)) as [->|Hne]; [by apply (Hp e)|].
      destruct (Hsame k Hne) as [E|E]; [|congruence]. apply G5. rewrite <- E. by eexists.
  - by rewrite (tr_calls _ _ _ _ _ Ht), G4.
  - split; [|done]. apply Forall_forall. intros k Hk. by apply G5, (tr_had _ _ _ _ _ Ht).
  - apply Ht.
  - apply map_eq. intros k. unfold place. destruct (decide (k = p)) as [->|Hne].
    + by rewrite lookup_partial_alter_eq.
    + rewrite lookup_partial_alter_ne by done. by apply trims_visible with p.
  - done.
Qed.

(** ** The operations *)

Lemma live_some M t k e : live_entry M t k = Some e -> M !! k = Some e.
Proof. intros H. apply live_lookup in H. apply H. Qed.

Lemma purge_lookup M t k : purge M t k !! k = live_entry M t k.
Proof.
  unfold purge. destruct (live_entry M t k) as [e|] eqn:E; [by apply live_lookup in E as [-> _]|apply lookup_delete_eq].
Qed.

Lemma live_purge M t k : live_entry (purge M t k) t k = live_entry M t k.
Proof.
  unfold live_entry at 1. rewrite purge_lookup. destruct (live_entry M t k) as [e|] eqn:E; [|done]. by apply live_lookup in E as [_ ->].
Qed.

Lemma good_entry c k e : cache_good c -> c_entries c !! k = Some e -> wf_object (e_object e) /\ key_ok k.
Proof. intros G H. split; [by apply (cg_objects c G k)|]. apply (cg_keys c G). by eexists. Qed.

Lemma live_visible t c k : is_Some_bool (live_entry (c_entries c) t k) = is_Some_bool (visible t c !! k).
Proof. rewrite visible_lookup. by destruct (live_entry _ _ _). Qed.

(** An operation that only removes the key when it is expired. *)
Lemma moved_purged t c c' key L :
  cache_good c -> trims key t c c' [] -> cache_ok L c' -> settings c' = settings c ->
  c_entries c' = purge (c_entries c) t key -> moved t c c' key [] (visible t c !! key).
Proof.
  intros G Ht HL Hs HM.
  assert (Hv : visible t c' !! key = visible t c !! key) by (rewrite !visible_lookup, HM; by rewrite live_purge).
  rewrite <- Hv. apply moved_intro; [done|done|by exists L|by try apply settings_limits|done|].
  intros e He. rewrite HM, purge_lookup in He. apply (good_entry c); [done|]. by apply live_some with t.
Qed.

Lemma lookup_moved L t c key r res :
  cache_good c -> looked_up L t c key r res -> trims key t c res.2 [] ->
  moved t c res.2 key [] (visible t c !! key) /\ res.1 = (fun _ => key) <$> visible t c !! key /\
  c_entries res.2 !! key = live_entry (c_entries c) t key.
Proof.
  intros G (H1 & H2 & H3 & H4 & H5) Ht. split; [by eapply moved_purged|]. split.
  - rewrite H1, visible_lookup. by destruct (live_entry _ _ _).
  - by rewrite H3, purge_lookup.
Qed.

Lemma delete_moved t c key :
  cache_good c ->
  let '(r, c') := cache_delete t c (Some key) in
  r = (if is_Some_bool (visible t c !! key) then 1 else 0) /\ moved t c c' key [] None.
Proof.
  intros G. destruct (cg_ok c G) as [L HL]. pose proof (delete_spec L t c key HL) as H. pose proof (delete_trims L t c key HL) as Ht.
  destruct (cache_delete t c (Some key)) as [r c']. destruct H as (-> & H1 & H2 & H3). split; [by rewrite live_visible|].
  assert (Hv : visible t c' !! key = None) by (rewrite visible_lookup; unfold live_entry; by rewrite H2, lookup_delete_eq).
  rewrite <- Hv. apply moved_intro; [done|done|by eexists|by try apply settings_limits|done|]. intros e. by rewrite H2, lookup_delete_eq.
Qed.

Lemma persist_moved t c key :
  cache_good c ->
  let '(r, c') := cache_persist t c (Some key) in
  r = match visible t c !! key with Some (_, x) => if x =? 0 then 0 else 1 | None => 0 end /\
  moved t c c' key [] ((fun x => (x.1, 0)) <$> visible t c !! key).
Proof.
  intros G. destruct (cg_ok c G) as [L HL]. pose proof (persist_spec L t c key HL) as H. pose proof (persist_trims L t c key HL) as Ht.
  destruct (cache_persist t c (Some key)) as [r c']. destruct H as (Hs & H). rewrite visible_lookup.
  destruct (live_entry (c_entries c) t key) as [e|] eqn:El; cbn [fmap option_fmap option_map view_entry].
  - destruct H as (-> & H1 & H2). split; [done|].
    assert (Hv : visible t c' !! key = Some (view_object (e_object e), 0)).
    { rewrite visible_lookup. unfold live_entry. by rewrite H2, lookup_insert_eq. }
    cbn. rewrite <- Hv. apply moved_intro; [done|done|by eexists|by try apply settings_limits|done|]. intros e'. rewrite H2, lookup_insert_eq.
    intros [= <-]. apply (good_entry c _ e); [done|]. by apply live_some with t.
  - destruct H as (-> & H1 & H2). split; [done|].
    assert (Hv : visible t c' !! key = None) by (rewrite visible_lookup; unfold live_entry; by rewrite H2, lookup_delete_eq).
    cbn. rewrite <- Hv. apply moved_intro; [done|done|by eexists|by try apply settings_limits|done|]. intros e. by rewrite H2, lookup_delete_eq.
Qed.

Lemma expire_moved m t c key x :
  cache_good c -> u64_ok x -> t < x -> x <> 0 ->
  let '(r, c', m') := cache_expire_at m t c (Some key) x in
  (r = (if is_Some_bool (visible t c !! key) then 1 else 0) /\ moved t c c' key [] ((fun y => (y.1, x)) <$> visible t c !! key) \/
   r = -1 /\ moved t c c' key [] (visible t c !! key)) /\ m' `suffix_of` m.
Proof.
  intros G Hx Htx Hx0. destruct (cg_ok c G) as [L HL]. pose proof (expire_at_spec L m t c key x HL Hx Hx0) as H.
  pose proof (expire_at_trims L m t c key x HL) as Ht. pose proof (expire_spends m t c (Some key) x) as Hm.
  destruct (cache_expire_at m t c (Some key) x) as [[r c'] m']. cbn [fst snd] in *. split; [|done].
  destruct H as (Hs & H). rewrite visible_lookup in *.
  destruct (live_entry (c_entries c) t key) as [e|] eqn:El; cbn [fmap option_fmap option_map view_entry is_Some_bool].
  - destruct H as (H1 & [(-> & H2)|(-> & H2 & _)]).
    + left. split; [done|]. assert (Hv : visible t c' !! key = Some (view_object (e_object e), x)).
      { rewrite visible_lookup. unfold live_entry. rewrite H2, lookup_insert_eq. unfold expired. cbn [e_expire retimed].
        destruct (Z.geb_spec t x); [lia|]. by rewrite andb_false_r. }
      cbn. rewrite <- Hv. apply moved_intro; [done|done|by eexists|by try apply settings_limits|done|]. intros e'. rewrite H2, lookup_insert_eq.
      intros [= <-]. apply (good_entry c _ e); [done|]. by apply live_some with t.
    + right. split; [done|]. assert (Hv : visible t c' !! key = Some (view_entry e)) by (rewrite visible_lookup, H2, El; done).
      rewrite <- Hv. apply moved_intro; [done|done|by eexists|by try apply settings_limits|done|]. intros e' He. rewrite H2 in He. by apply (good_entry c).
  - destruct H as (-> & H1 & H2). left. split; [done|].
    assert (Hv : visible t c' !! key = None) by (rewrite visible_lookup; unfold live_entry; by rewrite H2, lookup_delete_eq).
    cbn. rewrite <- Hv. apply moved_intro; [done|done|by eexists|by try apply settings_limits|done|]. intros e. by rewrite H2, lookup_delete_eq.
Qed.

(** The answer of TTL. *)
Definition ttl_value (x : option (avalue * Z)) (t : Z) : Z :=
  match x with
  | None => -2
  | Some (_, x) => if x =? 0 then -1 else Z.min (x - t) INT64_MAX
  end.

Lemma ttl_moved t c key :
  cache_good c -> 0 <= t ->
  let '(r, c') := cache_ttl_ms t c (Some key) in
  r = Some (ttl_value (visible t c !! key) t) /\ moved t c c' key [] (visible t c !! key).
Proof.
  intros G Ht0. destruct (cg_ok c G) as [L HL]. pose proof (ttl_spec L t c key HL Ht0) as H. pose proof (ttl_trims L t c key HL) as Ht.
  destruct (cache_ttl_ms t c (Some key)) as [r c']. destruct H as (-> & H1 & H2 & H3). split; [|by eapply moved_purged].
  rewrite visible_lookup. by destruct (live_entry _ _ _).
Qed.

(** The deadline of a stored object: none, or in the future. *)
Definition future (t x : Z) : Prop := u64_ok x /\ (x = 0 \/ t < x).

Lemma future_live t x e : future t x -> e_expire e = x -> expired t e = false.
Proof. intros [_ Hx] <-. unfold expired. destruct (Z.eqb_spec (e_expire e) 0); [done|]. cbn. destruct (Z.geb_spec t (e_expire e)); [lia|done]. Qed.

Lemma store_moved m t c (key : list Z) o v x (preserve : bool) :
  cache_good c -> future t x -> 0 <= memory_usage o -> shows o v -> key_ok key ->
  let deadline := match visible t c !! key with Some (_, y) => if preserve then y else x | None => x end in
  let '(r, c', m') := cache_store_object m t t c (Some key) o x preserve in
  (exists ks, (r = CACHE_SET_OK /\ moved t c c' key ks (Some (v, deadline)) \/
               (r = CACHE_SET_CAPACITY \/ r = CACHE_SET_ERROR) /\ ks = [] /\ moved t c c' key ks (visible t c !! key))) /\
  m' `suffix_of` m.
Proof.
  intros G Hx Ho Hv Hk deadline. destruct (cg_ok c G) as [L HL].
  pose proof (store_spec L m t t c key o x preserve HL (proj1 Hx) Ho) as H.
  pose proof (store_reported L t m c key o x preserve HL (cg_evict c G) (proj1 Hx) Ho) as (ks & Ht & Hks).
  pose proof (store_spends m t t c (Some key) o x preserve) as Hm.
  destruct (cache_store_object m t t c (Some key) o x preserve) as [[r c'] m']. cbn [fst snd] in *. split; [|done]. exists ks.
  destruct (oversized c key o).
  { destruct H as [-> ->]. right. assert (ks = []) as -> by (by apply Hks). split; [tauto|]. split; [done|].
    apply moved_intro; [done|done|by exists L|by try apply settings_limits|done|]. intros e. by apply good_entry. }
  destruct H as [(-> & e' & [He1 He2] & HM & Hok & Hs)|(-> & Hok & HM & Hs & _)].
  - left. split; [done|]. set (vs := victims _ _ _ _) in *.
    assert (Hin : c_entries c' !! key = Some e').
    { rewrite HM, remove_all_lookup, decide_False by apply not_in_victims. apply lookup_insert_eq. }
    assert (Hd : e_expire e' = deadline /\ future t deadline).
    { unfold deadline. rewrite visible_lookup, He1. unfold target_expire.
      destruct (live_entry (c_entries c) t key) as [e|] eqn:El; [|done]. cbn. destruct preserve; [|done]. split; [done|].
      apply live_lookup in El as [El Ex]. destruct (cc_entries _ _ (proj1 HL) key e El) as (_ & Hu & _). split; [done|].
      unfold expired in Ex. destruct (Z.eqb_spec (e_expire e) 0); [by left|right]. cbn in Ex. destruct (Z.geb_spec t (e_expire e)); [done|lia]. }
    destruct Hd as [Hd Hf].
    assert (Hsh : shows (e_object e') v).
    { destruct He2 as [(-> & _)|(e & s & _ & Hs1 & Hs2 & _)]; [done|]. destruct v as [l|M|l]; cbn in Hv |- *.
      - rewrite Hv in Hs1. by injection Hs1 as ->.
      - destruct Hv as [tb HR]. unfold kv_object_string_value in Hs1. by rewrite (hr_value _ _ _ HR) in Hs1.
      - destruct Hv as [st HR]. unfold kv_object_string_value in Hs1. by rewrite (zr_value _ _ _ HR) in Hs1. }
    assert (Hvis : visible t c' !! key = Some (v, deadline)).
    { rewrite visible_lookup. unfold live_entry. rewrite Hin, (future_live t deadline e' Hf Hd). cbn. unfold view_entry.
      by rewrite (shows_view _ _ Hsh), Hd. }
    rewrite <- Hvis. apply moved_intro; [done|done|by eexists|by apply settings_limits| |].
    { intros Hl. eapply nothing_reported; [exact Ht|]. intros k Hne. rewrite HM. unfold vs. rewrite victims_unlimited by done. cbn.
      by rewrite lookup_insert_ne by done. }
    intros e. rewrite Hin. intros [= <-].
    split; [by eapply shows_wf|done].
  - right. assert (ks = []) as -> by (by apply Hks). split; [tauto|]. split; [done|]. by eapply moved_purged.
Qed.

Lemma set_moved m t c (key : list Z) v x :
  cache_good c -> future t x -> key_ok key ->
  let '(r, c', m') := cache_set_expire_at m t t c (Some key) (Some v) x in
  (exists ks, (r = CACHE_SET_OK /\ moved t c c' key ks (Some (AString v, x)) \/
               (r = CACHE_SET_CAPACITY \/ r = CACHE_SET_ERROR) /\ ks = [] /\ moved t c c' key ks (visible t c !! key))) /\
  m' `suffix_of` m.
Proof.
  intros G Hx Hk. unfold cache_set_expire_at. pose proof (create_string_spends m (Some v)) as Hm.
  destruct (kv_object_create_string m (Some v)) as [[o|] m1] eqn:E.
  - destruct (create_string_value _ _ _ _ E) as [Hv Ho].
    pose proof (store_moved m1 t c key o (AString v) x false G Hx Ho Hv Hk) as H. cbn zeta in H.
    destruct (cache_store_object m1 t t c (Some key) o x false) as [[r c'] m']. destruct H as [(ks & H) H2]. split.
    + exists ks. destruct (visible t c !! key) as [[? ?]|]; exact H.
    + by etrans.
  - split; [|done]. exists []. right. split; [by right|]. split; [done|].
    destruct (cg_ok c G) as [L HL]. apply moved_intro; [done|apply trims_refl|by exists L|by try apply settings_limits|done|]. intros e. by apply good_entry.
Qed.

(** Writing the object of an entry. *)
Lemma write_visible t c (p : list Z) e o v :
  cache_good c -> c_entries c !! p = Some e -> expired t e = false ->
  0 <= memory_usage o -> shows o v -> type_of o = type_of (e_object e) ->
  cache_good (set_object p o c) /\ visible t (set_object p o c) = <[p := (v, e_expire e)]> (visible t c) /\
  c_entries (set_object p o c) !! p = Some (mk_entry o (e_charge e) (e_items e) (e_expire e)).
Proof.
  intros G He Hx Ho Hv Hty. destruct (cg_ok c G) as [L HL].
  destruct (mutate_keeps L c p o HL Ho) as [HL' _]; [intros e0; rewrite He; by intros [= <-]|].
  assert (HM : c_entries (set_object p o c) = <[p := mk_entry o (e_charge e) (e_items e) (e_expire e)]> (c_entries c)).
  { unfold set_object. cbn [c_entries with_entries]. by rewrite (alter_found _ _ e). }
  split; [|split; [|by rewrite HM, lookup_insert_eq]].
  - split; [done| |apply G|apply G|].
    + intros k e'. rewrite HM. destruct (decide (k = p)) as [->|Hk].
      * rewrite lookup_insert_eq. intros [= <-]. by eapply shows_wf.
      * rewrite lookup_insert_ne by done. by apply (cg_objects c G).
    + intros k. rewrite HM. destruct (decide (k = p)) as [->|Hk].
      * intros _. apply (cg_keys c G). by eexists.
      * rewrite lookup_insert_ne by done. apply (cg_keys c G).
  - apply map_eq. intros k. rewrite visible_lookup. unfold live_entry. rewrite HM. destruct (decide (k = p)) as [->|Hk].
    + rewrite !lookup_insert_eq. unfold expired in *. cbn [e_expire]. rewrite Hx. cbn. unfold view_entry. cbn. by rewrite (shows_view _ _ Hv).
    + rewrite !lookup_insert_ne by done. by rewrite visible_lookup.
Qed.

Lemma recharge_moved t c (p : list Z) e :
  cache_good c -> c_entries c !! p = Some e -> expired t e = false ->
  let '(r, c') := cache_recharge_ref t c (Some p) in
  exists ks, (r = CACHE_SET_OK /\ moved t c c' p ks (visible t c !! p) \/
              r = CACHE_SET_CAPACITY /\ ks = [] /\ moved t c c' p ks (visible t c !! p)).
Proof.
  intros G He Hx. destruct (cg_ok c G) as [L HL]. pose proof (recharge_ref_spec L t c p e HL He) as H.
  destruct (recharge_reported L t c p e HL (cg_evict c G) He) as (ks & Ht & Hks).
  destruct (cache_recharge_ref t c (Some p)) as [r c']. cbn [fst snd] in *. rewrite Hx in H. exists ks.
  destruct (oversized c p (e_object e)).
  - destruct H as [-> ->]. right. assert (ks = []) as -> by (by apply Hks). split; [done|]. split; [done|].
    apply moved_intro; [done|done|by exists L|by try apply settings_limits|done|]. intros e'. by apply good_entry.
  - destruct H as (-> & HM & Hok & Hs). left. split; [done|]. set (vs := victims _ _ _ _) in *.
    assert (Hin : c_entries c' !! p = Some (mk_entry (e_object e) (entry_memory_charge (zlen p) (e_object e)) (object_item_count (e_object e)) (e_expire e))).
    { rewrite HM, remove_all_lookup, decide_False by apply not_in_victims. apply lookup_insert_eq. }
    assert (Hvis : visible t c' !! p = visible t c !! p).
    { rewrite !visible_lookup. unfold live_entry. rewrite Hin, He. unfold expired in *. cbn [e_expire]. by rewrite Hx. }
    rewrite <- Hvis. apply moved_intro; [done|done|by eexists|by apply settings_limits| |].
    { intros Hl. eapply nothing_reported; [exact Ht|]. intros k Hne. rewrite HM. unfold vs. rewrite victims_unlimited by done. cbn.
      by rewrite lookup_insert_ne by done. }
    intros e'. rewrite Hin. intros [= <-]. by apply (good_entry c _ e).
Qed.

(** Maintenance removes nothing that is visible. *)
Lemma expire_loop_calls fuel t c n : c_calls (expire_loop fuel t c n).2 = c_calls c.
Proof.
  revert c n. induction fuel as [|fuel IH]; intros c n; [done|]. cbn [expire_loop].
  destruct (_ <? _)%nat; [|done]. destruct (_ >? _); [done|]. rewrite IH.
  destruct (entry_remove_calls c (slot (c_heap c) 0) REMOVE_EXPIRED) as [-> _]. rewrite bool_decide_false by done. apply app_nil_r.
Qed.

Lemma maintain_quiet t c eb rb :
  cache_good c -> 0 <= eb -> 0 <= rb ->
  cache_good (cache_maintain t c eb rb).2 /\ visible t (cache_maintain t c eb rb).2 = visible t c /\
  limits (cache_maintain t c eb rb).2 = limits c.
Proof.
  intros G Heb Hrb. destruct (cg_ok c G) as [L HL]. destruct (maintain_spec L t c eb rb HL Heb Hrb) as (ks & H).
  assert (Hc : c_calls (cache_maintain t c eb rb).2 = c_calls c).
  { unfold cache_maintain. pose proof (expire_loop_calls (Nat.min (Z.to_nat eb) (heap_count (c_heap c))) t c 0) as He. by destruct (expire_loop _ _ _ _). }
  destruct (cache_maintain t c eb rb) as [r c']. cbn [snd] in *. destruct H as (_ & Hx & _ & Hok & HM & Hs & _).
  assert (Hsub : forall k e, c_entries c' !! k = Some e -> c_entries c !! k = Some e).
  { intros k e. rewrite HM, remove_all_lookup. by destruct (decide _). }
  split; [|split; [|by apply settings_limits]].
  - split; [by eexists| | |by rewrite Hc, (cg_calls c G)|].
    + intros k e Hk. by apply (cg_objects c G k), Hsub.
    + injection Hs as _ _ -> _. apply (cg_evict c G).
    + intros k [e Hk]. apply (cg_keys c G). exists e. by apply Hsub.
  - apply map_eq. intros k. rewrite !visible_lookup. unfold live_entry. rewrite HM, remove_all_lookup.
    destruct (decide (k ∈ ks)) as [Hk|]; [|done]. destruct (xk_expired _ _ _ Hx k Hk) as (e & -> & ->). done.
Qed.
