(* ===== verification/ServiceSpec.v ===== *)
(** What the commands of the service promise: the effects of records of the
    log on the abstract store, the answer of each data command with the record
    it logs, the laws of a log, and the rules for reasoning about the state
    monad of [Service]. *)

From S2P Require Import Prelude Resp HashTable ZOrder Object ExpireHeap LruList Cache Allocation CacheSpec CacheProps.
From S2P Require Import CacheEvents Rdb RdbImage Aof AofCodec AofLog Double CommandText MysqlStore Service ServiceStore.

(** ** Effects *)

(** What a record of the log does to the store. *)
Inductive effect : Type :=
| ESet (key value : list Z) (deadline : Z)
| EDel (key : list Z)
| EPersist (key : list Z)
| EExpire (key : list Z) (deadline : Z)
| EHset (key : list Z) (pairs : list (list Z * list Z))
| EHdel (key : list Z) (fields : list (list Z))
| EZadd (key : list Z) (members : list zelem)
| EZrem (key : list Z) (names : list (list Z))
| ENone.

(** *** Hashes *)

Definition hset_one (M : gmap (list Z) (list Z)) (x : list Z * list Z) : gmap (list Z) (list Z) := <[x.1 := x.2]> M.

Definition hset_all (M : gmap (list Z) (list Z)) (pairs : list (list Z * list Z)) : gmap (list Z) (list Z) :=
  fold_left hset_one pairs M.

(** How many fields are new, and whether one gets another value. *)
Fixpoint hset_added (M : gmap (list Z) (list Z)) (pairs : list (list Z * list Z)) : Z :=
  match pairs with
  | [] => 0
  | x :: pairs => (if is_Some_bool (M !! x.1) then 0 else 1) + hset_added (hset_one M x) pairs
  end.

Fixpoint hset_changes (M : gmap (list Z) (list Z)) (pairs : list (list Z * list Z)) : bool :=
  match pairs with
  | [] => false
  | x :: pairs => negb (bool_decide (M !! x.1 = Some x.2)) || hset_changes (hset_one M x) pairs
  end.

Definition hdel_all (M : gmap (list Z) (list Z)) (fields : list (list Z)) : gmap (list Z) (list Z) :=
  fold_left (fun M f => delete f M) fields M.

Fixpoint hdel_removed (M : gmap (list Z) (list Z)) (fields : list (list Z)) : Z :=
  match fields with
  | [] => 0
  | f :: fields => (if is_Some_bool (M !! f) then 1 else 0) + hdel_removed (delete f M) fields
  end.

(** *** Sorted sets *)

Fixpoint score_of (k : list Z) (l : list zelem) : option Z :=
  match l with
  | [] => None
  | x :: l => if bool_decide (x.2 = k) then Some x.1 else score_of k l
  end.

Definition zadd_one (l : list zelem) (x : zelem) : list zelem :=
  match score_of x.2 l with
  | Some old => if score_eq old x.1 then l else elem_insert x (elem_remove x.2 l)
  | None => elem_insert x l
  end.

Definition zadd_all (l members : list zelem) : list zelem := fold_left zadd_one members l.

Fixpoint zadd_added (l members : list zelem) : Z :=
  match members with
  | [] => 0
  | x :: members => (if is_Some_bool (score_of x.2 l) then 0 else 1) + zadd_added (zadd_one l x) members
  end.

Fixpoint zadd_changes (l members : list zelem) : bool :=
  match members with
  | [] => false
  | x :: members =>
      match score_of x.2 l with Some old => negb (score_eq old x.1) | None => true end ||
      zadd_changes (zadd_one l x) members
  end.

Definition zrem_all (l : list zelem) (names : list (list Z)) : list zelem :=
  fold_left (fun l k => elem_remove k l) names l.

Fixpoint zrem_removed (l : list zelem) (names : list (list Z)) : Z :=
  match names with
  | [] => 0
  | k :: names => (if is_Some_bool (score_of k l) then 1 else 0) + zrem_removed (elem_remove k l) names
  end.

(** *** The store *)

(** A hash or a sorted set that becomes empty is removed. *)
Definition put_hash (key : list Z) (M : gmap (list Z) (list Z)) (deadline : Z) (A : astore) : astore :=
  if decide (M = ∅) then delete key A else <[key := (AHash M, deadline)]> A.

Definition put_zset (key : list Z) (l : list zelem) (deadline : Z) (A : astore) : astore :=
  if decide (l = []) then delete key A else <[key := (AZset l, deadline)]> A.

Definition apply_effect (t : Z) (A : astore) (e : effect) : astore :=
  match e with
  | ESet key value deadline =>
      if negb (deadline =? 0) && (deadline <=? t) then delete key A else <[key := (AString value, deadline)]> A
  | EDel key => delete key A
  | EPersist key => alter (fun x => (x.1, 0)) key A
  | EExpire key deadline =>
      if deadline <=? t then delete key A else alter (fun x => (x.1, deadline)) key A
  | EHset key pairs =>
      match A !! key with
      | None => <[key := (AHash (hset_all ∅ pairs), 0)]> A
      | Some (AHash M, deadline) => <[key := (AHash (hset_all M pairs), deadline)]> A
      | Some _ => A
      end
  | EHdel key fields =>
      match A !! key with
      | Some (AHash M, deadline) =>
          if hdel_removed M fields =? 0 then A else put_hash key (hdel_all M fields) deadline A
      | _ => A
      end
  | EZadd key members =>
      match A !! key with
      | None => <[key := (AZset (zadd_all [] members), 0)]> A
      | Some (AZset l, deadline) => <[key := (AZset (zadd_all l members), deadline)]> A
      | Some _ => A
      end
  | EZrem key names =>
      match A !! key with
      | Some (AZset l, deadline) =>
          if zrem_removed l names =? 0 then A else put_zset key (zrem_all l names) deadline A
      | _ => A
      end
  | ENone => A
  end.

Definition apply_effects (t : Z) (es : list effect) (A : astore) : astore := fold_left (apply_effect t) es A.

(** ** Answers *)

Definition set_record (arguments : list (list Z)) (deadline : Z) : command :=
  [lit "SET"; arg arguments 1; arg arguments 2] ++
  if deadline =? 0 then [] else [lit "PXAT"; decimal deadline].

(** What a command answers, and the effects it has with their records. *)
Abbreviation answer := (kvstore_reply * list (effect * command))%type.

Definition answer_key (A : astore) (key : list Z) (n : Z) (e : effect) (r : command) : answer :=
  (REPLY_INTEGER n, if n =? 0 then [] else [(e, r)]).

Definition present (A : astore) (key : list Z) : Z := if is_Some_bool (A !! key) then 1 else 0.

Definition delete_answer (A : astore) (key : list Z) : answer :=
  answer_key A key (present A key) (EDel key) [lit "DEL"; key].

Definition set_answer (t : Z) (arguments : list (list Z)) : answer :=
  match set_option arguments with
  | inl error => (error, [])
  | inr ttl =>
      if negb (ttl =? 0) && (ttl >? UINT64_MAX - t) then (ERR_INTEGER, []) else
      let deadline := if ttl =? 0 then 0 else t + ttl in
      (REPLY_OK, [(ESet (arg arguments 1) (arg arguments 2) deadline, set_record arguments deadline)])
  end.

Definition expire_answer (t : Z) (A : astore) (arguments : list (list Z)) (multiplier : Z) : answer :=
  let key := arg arguments 1 in
  match duration_ms (arg arguments 2) multiplier false with
  | (status, parsed, ttl) =>
      if negb (status =? 0) then (ERR_INTEGER, []) else
      if parsed <=? 0 then delete_answer A key else
      if ttl >? UINT64_MAX - t then (ERR_INTEGER, []) else
      answer_key A key (present A key) (EExpire key (t + ttl)) [lit "PEXPIREAT"; key; decimal (t + ttl)]
  end.

Definition persist_answer (A : astore) (key : list Z) : answer :=
  answer_key A key (match A !! key with Some (_, x) => if x =? 0 then 0 else 1 | None => 0 end)
    (EPersist key) [lit "PERSIST"; key].

Definition get_answer (A : astore) (key : list Z) : answer :=
  (match A !! key with
   | None => REPLY_NULL_BULK
   | Some (AString l, _) => REPLY_BULK l
   | Some _ => ERR_WRONGTYPE
   end, []).

Definition ttl_answer (t : Z) (A : astore) (key : list Z) (seconds : bool) : answer :=
  let ttl := ttl_value (A !! key) t in
  (REPLY_INTEGER (if seconds && (ttl >=? 0) then ttl / 1000 else ttl), []).

(** A command on hashes: [None] is the absent key. *)
Definition on_hash (A : astore) (key : list Z) (f : option (gmap (list Z) (list Z)) -> answer) : answer :=
  match A !! key with
  | None => f None
  | Some (AHash M, _) => f (Some M)
  | Some _ => (ERR_WRONGTYPE, [])
  end.

Definition on_zset (A : astore) (key : list Z) (f : option (list zelem) -> answer) : answer :=
  match A !! key with
  | None => f None
  | Some (AZset l, _) => f (Some l)
  | Some _ => (ERR_WRONGTYPE, [])
  end.

Definition logged_if (changed : bool) (e : effect) (r : command) : list (effect * command) :=
  if changed then [(e, r)] else [].

Definition hset_answer (A : astore) (arguments : list (list Z)) : answer :=
  let key := arg arguments 1 in
  let pairs := argument_pairs (drop 2 arguments) in
  on_hash A key (fun M =>
    (REPLY_INTEGER (hset_added (default ∅ M) pairs),
     logged_if (hset_changes (default ∅ M) pairs) (EHset key pairs) arguments)).

Definition hdel_answer (A : astore) (arguments : list (list Z)) : answer :=
  let key := arg arguments 1 in
  let fields := drop 2 arguments in
  on_hash A key (fun M =>
    let n := hdel_removed (default ∅ M) fields in
    (REPLY_INTEGER n, logged_if (n >? 0) (EHdel key fields) arguments)).

Definition hget_answer (A : astore) (key field : list Z) : answer :=
  on_hash A key (fun M =>
    (match M ≫= lookup field with None => REPLY_NULL_BULK | Some v => REPLY_BULK v end, [])).

Definition hlen_answer (A : astore) (key : list Z) : answer :=
  on_hash A key (fun M => (REPLY_INTEGER (Z.of_nat (size (default ∅ M))), [])).

(** The scores of ZADD, when the texts have no allocation to fail. *)
Definition zadd_scores (pairs : list (list Z * list Z)) : Z * list Z :=
  let '(status, scores, _) := parse_scores [] pairs in (status, scores).

Definition zadd_answer (A : astore) (arguments : list (list Z)) : answer :=
  let key := arg arguments 1 in
  let pairs := argument_pairs (drop 2 arguments) in
  let '(status, scores) := zadd_scores pairs in
  if negb (status =? 0) then (ERR_FLOAT, []) else
  let members := zip scores pairs.*2 in
  on_zset A key (fun l =>
    (REPLY_INTEGER (zadd_added (default [] l) members),
     logged_if (zadd_changes (default [] l) members) (EZadd key members) arguments)).

Definition zrem_answer (A : astore) (arguments : list (list Z)) : answer :=
  let key := arg arguments 1 in
  let names := drop 2 arguments in
  on_zset A key (fun l =>
    let n := zrem_removed (default [] l) names in
    (REPLY_INTEGER n, logged_if (n >? 0) (EZrem key names) arguments)).

Definition score_text (score : Z) : list Z := (format_score 32 score).1.

Definition zscore_answer (A : astore) (key member : list Z) : answer :=
  on_zset A key (fun l =>
    (match l ≫= score_of member with None => REPLY_NULL_BULK | Some s => REPLY_BULK (score_text s) end, [])).

Definition zcard_answer (A : astore) (key : list Z) : answer :=
  on_zset A key (fun l => (REPLY_INTEGER (zlen (default [] l)), [])).

Definition range_elements (with_scores : bool) (l : list zelem) : list (list Z) :=
  concat ((fun x => if with_scores then [x.2; score_text x.1] else [x.2]) <$> l).

Definition zrange_answer (A : astore) (arguments : list (list Z)) : answer :=
  let with_scores := zlen arguments =? 5 in
  match parse_int64 (arg arguments 2), parse_int64 (arg arguments 3) with
  | Some start, Some stop =>
      if with_scores && negb (argument_equals (arg arguments 4) (lit "WITHSCORES")) then (ERR_SYNTAX, []) else
      on_zset A (arg arguments 1) (fun l =>
        (REPLY_ARRAY (range_elements with_scores (range_of (default [] l) start stop)), []))
  | _, _ => (ERR_INTEGER, [])
  end.

(** The fields of HGETALL come in some order. *)
Definition hgetall_answer (A : astore) (key : list Z) (a : answer) : Prop :=
  exists fields, a = on_hash A key (fun _ => (REPLY_ARRAY (concat ((fun x => [x.1; x.2]) <$> fields)), [])) /\
    forall M deadline, A !! key = Some (AHash M, deadline) -> fields ≡ₚ map_to_list M.

(** DBSIZE also counts expired keys that were not removed yet. *)
Definition dbsize_answer (A : astore) (a : answer) : Prop :=
  exists n, a = (REPLY_INTEGER n, []) /\ Z.of_nat (size A) <= n.

Definition answers (t : Z) (A : astore) (command : service_command) (arguments : list (list Z)) (a : answer) : Prop :=
  let key := arg arguments 1 in
  match command with
  | SERVICE_COMMAND_SET => a = set_answer t arguments
  | SERVICE_COMMAND_GET => a = get_answer A key
  | SERVICE_COMMAND_DEL => a = delete_answer A key
  | SERVICE_COMMAND_PING => a = (if zlen arguments =? 2 then REPLY_BULK key else REPLY_PONG, [])
  | SERVICE_COMMAND_EXPIRE => a = expire_answer t A arguments 1000
  | SERVICE_COMMAND_PEXPIRE => a = expire_answer t A arguments 1
  | SERVICE_COMMAND_TTL => a = ttl_answer t A key true
  | SERVICE_COMMAND_PTTL => a = ttl_answer t A key false
  | SERVICE_COMMAND_PERSIST => a = persist_answer A key
  | SERVICE_COMMAND_DBSIZE => dbsize_answer A a
  | SERVICE_COMMAND_HSET => a = hset_answer A arguments
  | SERVICE_COMMAND_HGET => a = hget_answer A key (arg arguments 2)
  | SERVICE_COMMAND_HDEL => a = hdel_answer A arguments
  | SERVICE_COMMAND_HLEN => a = hlen_answer A key
  | SERVICE_COMMAND_HGETALL => hgetall_answer A key a
  | SERVICE_COMMAND_ZADD => a = zadd_answer A arguments
  | SERVICE_COMMAND_ZREM => a = zrem_answer A arguments
  | SERVICE_COMMAND_ZSCORE => a = zscore_answer A key (arg arguments 2)
  | SERVICE_COMMAND_ZCARD => a = zcard_answer A key
  | SERVICE_COMMAND_ZRANGE => a = zrange_answer A arguments
  | SERVICE_COMMAND_UNKNOWN => a = (ERR_UNKNOWN, [])
  | _ => False
  end.

(** The commands on data: all but INFO, SAVE, BGSAVE and LASTSAVE. *)
Definition data_command (command : service_command) : bool :=
  match command with
  | SERVICE_COMMAND_INFO | SERVICE_COMMAND_SAVE | SERVICE_COMMAND_BGSAVE | SERVICE_COMMAND_LASTSAVE => false
  | _ => true
  end.

(** The replies of a command that ran out of a resource. *)
Definition may_fail (command : service_command) (r : kvstore_reply) : Prop :=
  match command with
  | SERVICE_COMMAND_SET | SERVICE_COMMAND_HSET | SERVICE_COMMAND_ZADD => r = ERR_INTERNAL \/ r = ERR_CAPACITY
  | SERVICE_COMMAND_EXPIRE | SERVICE_COMMAND_PEXPIRE | SERVICE_COMMAND_HDEL | SERVICE_COMMAND_ZREM
  | SERVICE_COMMAND_ZSCORE => r = ERR_INTERNAL
  | SERVICE_COMMAND_HGETALL | SERVICE_COMMAND_ZRANGE => r = ERR_INTERNAL \/ r = ERR_TOO_LARGE
  | _ => False
  end.

(** ** The laws of a log *)

(** The transactions of a log with their numbers; an empty one has none. *)
Definition transactions : Type := list (Z * list command).

Definition add_transaction (d : transactions) (q : Z) (txn : list command) : transactions :=
  match txn with [] => d | _ => d ++ [(q, txn)] end.

(** [log_repr a txn done]: [done] is what was committed, [txn] the records of
    the transaction that is open. *)
Class LogLaws (A : Type) `{LogOps A} : Type := {
  log_repr : A -> option (list command) -> transactions -> Prop;
  log_exhausted : A -> Prop;
  law_begin : forall a d, log_repr a None d ->
    let '(r, a') := log_begin a in
    r = 0 /\ log_repr a' (Some []) d \/ r <> 0 /\ log_repr a' None d;
  law_append : forall m a txn d args, log_repr a (Some txn) d ->
    let '(r, a', m') := log_append m a (Some <$> args) in
    (r = 0 /\ log_repr a' (Some (txn ++ [args])) d \/
     r <> 0 /\ log_repr a' (Some txn) d /\
     (failed_between m m' \/ log_is_failed a' = true \/ ~ command_ok args \/ 2 ^ 61 < zlen (log_bytes txn)));
  law_append_any : forall m a args,
    let '(r, a', m') := log_append m a (Some <$> args) in
    m' `suffix_of` m /\ (log_is_failed a = true -> log_is_failed a' = true /\ r <> 0);
  law_commit : forall m a txn d, log_repr a (Some txn) d ->
    let '(r, q, a', m') := log_commit m a in
    r = 0 /\ (txn = [] -> q = 0) /\ (log_repr a' None (add_transaction d q txn) \/ txn <> [] /\ log_exhausted a') \/
    r <> 0 /\ (m <> [] \/ log_exhausted a');
  law_commit_any : forall m a,
    let '(r, q, a', m') := log_commit m a in
    m' `suffix_of` m /\ (log_is_failed a = true -> log_is_failed a' = true);
  law_rollback : forall a txn d, log_repr a txn d -> log_repr (log_rollback a) None d;
  law_flush : forall a d, log_repr a None d -> exists a', log_flush a = Some (0, a') /\ log_repr a' None d
}.

(** ** The monad *)

Section Logic.
Context {A : Type} `{LogLaws A}.

Definition wp {T} (c : cmd A T) (w : world A) (Q : T -> world A -> Prop) : Prop := Q (c w).1 (c w).2.

Lemma wp_ret {T} (x : T) w (Q : T -> world A -> Prop) : Q x w -> wp (mret x) w Q.
Proof. done. Qed.

Lemma wp_bind {T U} (c : cmd A T) (k : T -> cmd A U) w Q :
  wp c w (fun x w' => wp (k x) w' Q) -> wp (c ≫= k) w Q.
Proof. unfold wp, mbind, cmd_bind. by destruct (c w). Qed.

Lemma wp_mono {T} (c : cmd A T) w (P Q : T -> world A -> Prop) :
  wp c w P -> (forall x w', P x w' -> Q x w') -> wp c w Q.
Proof. unfold wp. auto. Qed.

Lemma wp_ask w (Q : kvstore_service A -> world A -> Prop) : Q (w_service w) w -> wp ask w Q.
Proof. done. Qed.

(** ** Runs *)

Abbreviation store_of w := (sv_cache (w_service w)).

Record good (w : world A) : Prop := {
  g_cache : cache_good (store_of w);
  g_ticks : w_ticks w = [];
  g_now : u64_ok (w_now w)
}.

(** What a command leaves as it is. *)
Definition fixed (s : kvstore_service A) :=
  (sv_flush_reported s, sv_initialized s, sv_engine s, sv_admin s, sv_dirty s, sv_mysql s, sv_uuid s,
   sv_next_sequence s, sv_candidate s, sv_recording s).

(** From some record on nothing was appended. *)
Definition cut (records logged : list command) : Prop :=
  exists r1 r2, records = r1 ++ r2 /\ r2 <> [] /\ logged `sublist_of` r1.

(** Why records are missing from the log: an append met a failed allocation; the
    log had failed, and takes nothing from then on; a record cannot be encoded
    or the transaction is too long. *)
Definition lossy (w w' : world A) (a' : A) (txn records logged : list command) : Prop :=
  failed_between (w_mem w) (w_mem w') \/ log_is_failed a' = true /\ cut records logged \/ ~ Forall command_ok records \/
  2 ^ 61 < zlen (log_bytes (txn ++ records)).

(** The log was asked to append [records] and has [logged]. *)
Definition logs (records logged : list command) (w w' : world A) : Prop :=
  match sv_aof (w_service w), sv_aof (w_service w') with
  | None, None => True
  | Some a, Some a' =>
      (records = [] -> a' = a) /\ (log_is_failed a = true -> log_is_failed a' = true /\ logged = []) /\
      forall txn d, log_repr a (Some txn) d ->
        log_repr a' (Some (txn ++ logged)) d /\ (logged = records \/ lossy w w' a' txn records logged)
  | _, _ => False
  end.

(** From [w] to [w'] the visible store became [S], and the records were
    appended. *)
Record runs (records logged : list command) (S : astore) (w w' : world A) : Prop := {
  ru_good : good w';
  ru_now : w_now w' = w_now w;
  ru_fixed : fixed (w_service w') = fixed (w_service w);
  ru_mem : w_mem w' `suffix_of` w_mem w;
  ru_visible : visible (w_now w) (store_of w') = S;
  ru_limits : limits (store_of w') = limits (store_of w);
  ru_sub : logged `sublist_of` records;
  ru_log : logs records logged w w'
}.

Lemma logs_nothing w w' : sv_aof (w_service w') = sv_aof (w_service w) -> logs [] [] w w'.
Proof.
  unfold logs. intros ->. destruct (sv_aof _) as [a|]; [|done]. split; [done|]. split; [done|]. intros txn d Hr. rewrite app_nil_r. split; [done|]. by left.
Qed.

Lemma cut_before r1 l1 r2 l2 : l1 `sublist_of` r1 -> cut r2 l2 -> cut (r1 ++ r2) (l1 ++ l2).
Proof. intros Hs (x & y & -> & Hy & Hl). exists (r1 ++ x), y. split; [by rewrite app_assoc|]. split; [done|]. by apply sublist_app. Qed.

Lemma cut_after r1 l1 r2 : cut r1 l1 -> cut (r1 ++ r2) l1.
Proof. intros (x & y & -> & Hy & Hl). exists x, (y ++ r2). split; [by rewrite app_assoc|]. split; [|done]. by intros [-> ?]%app_eq_nil. Qed.

Lemma logs_trans r1 l1 r2 l2 w w1 w2 :
  w_mem w1 `suffix_of` w_mem w -> w_mem w2 `suffix_of` w_mem w1 -> l1 `sublist_of` r1 ->
  logs r1 l1 w w1 -> logs r2 l2 w1 w2 -> logs (r1 ++ r2) (l1 ++ l2) w w2.
Proof.
  intros Hm Hm2 Hsub. unfold logs. destruct (sv_aof (w_service w)) as [a|]; destruct (sv_aof (w_service w1)) as [a1|]; try done.
  destruct (sv_aof (w_service w2)) as [a2|]; try done. intros (E1 & F1 & L1) (E2 & F2 & L2). split.
  { intros [-> ->]%app_eq_nil. rewrite E2 by done. by apply E1. }
  split. { intros Hf. destruct (F1 Hf) as [Hf1 ->]. by destruct (F2 Hf1) as [? ->]. }
  intros txn d Hr. destruct (L1 txn d Hr) as [H1 D1]. destruct (L2 _ _ H1) as [H2 D2]. rewrite <- app_assoc in H2.
  split; [done|]. unfold lossy in *. rewrite Forall_app. destruct D1 as [->|D1]; cycle 1.
  { right. rewrite app_assoc, log_bytes_app, zlen_app. pose proof (zlen_nonneg (log_bytes r2)). destruct D1 as [Hb|[[Hf Hc]|[?|?]]]; [left; by eapply failed_before| |tauto|].
    - right; left. destruct (F2 Hf) as [? ->]. rewrite app_nil_r. split; [done|]. by apply cut_after.
    - right; right; right. lia. }
  destruct D2 as [->|D2]; [by left|right]. rewrite <- app_assoc in D2. destruct D2 as [?%(failed_after _ _ _ Hm)|[[? ?]|[?|?]]]; [tauto| |tauto|tauto].
  right; left. split; [done|]. by apply cut_before.
Qed.

Lemma runs_refl w : good w -> runs [] [] (visible (w_now w) (store_of w)) w w.
Proof. intros G. split; try done. by apply logs_nothing. Qed.

Lemma runs_trans r1 l1 S1 r2 l2 S2 w w1 w2 :
  runs r1 l1 S1 w w1 -> runs r2 l2 S2 w1 w2 -> runs (r1 ++ r2) (l1 ++ l2) S2 w w2.
Proof.
  intros [A1 A2 A3 A4 A5 A6 A7 A8] [B1 B2 B3 B4 B5 B6 B7 B8]. split; try done; try congruence.
  - by etrans.
  - by apply sublist_app.
  - by eapply logs_trans.
Qed.

Lemma runs_silent w w1 w2 r l S1 S2 : runs [] [] S1 w w1 -> runs r l S2 w1 w2 -> runs r l S2 w w2.
Proof. intros H1 H2. exact (runs_trans _ _ _ _ _ _ _ _ _ H1 H2). Qed.

Lemma runs_end w w1 w2 r l S1 S2 : runs r l S1 w w1 -> runs [] [] S2 w1 w2 -> runs r l S2 w w2.
Proof. intros H1 H2. pose proof (runs_trans _ _ _ _ _ _ _ _ _ H1 H2) as H3. by rewrite !app_nil_r in H3. Qed.

(** A step that leaves the store. *)
Lemma runs_keep w w1 w2 r l S :
  runs r l S w w1 -> runs [] [] (visible (w_now w1) (store_of w1)) w1 w2 -> runs r l S w w2.
Proof. intros H1 H2. rewrite (ru_now _ _ _ _ _ H1), (ru_visible _ _ _ _ _ H1) in H2. by eapply runs_end. Qed.

(** A change of the service outside the cache and the log. *)
Lemma modify_runs f w :
  good w -> sv_cache (f (w_service w)) = store_of w -> sv_aof (f (w_service w)) = sv_aof (w_service w) ->
  fixed (f (w_service w)) = fixed (w_service w) ->
  wp (modify f) w (fun _ w' => runs [] [] (visible (w_now w) (store_of w)) w w' /\ store_of w' = store_of w).
Proof.
  intros [G1 G2 G3] Hc Ha Hf. unfold wp, modify. cbn. rewrite Hc. split; [|done]. split; cbn; try done.
  - split; cbn; [by rewrite Hc|done|done].
  - by rewrite Hc.
  - by rewrite Hc.
  - by apply logs_nothing.
Qed.

Lemma allocating_runs {T} (f : mem -> T * mem) w :
  good w -> spends (w_mem w) (f (w_mem w)) ->
  wp (allocating f) w (fun x w' => x = (f (w_mem w)).1 /\ runs [] [] (visible (w_now w) (store_of w)) w w' /\ store_of w' = store_of w).
Proof.
  intros [G1 G2 G3] Hm. unfold wp, allocating. destruct (f (w_mem w)) as [x m]. cbn in *. split; [done|]. split; [|done].
  split; cbn; try done. by apply logs_nothing.
Qed.
End Logic.

Abbreviation store_of w := (sv_cache (w_service w)).
