(* ===== verification/ServiceRuns.v ===== *)
(** The steps of the commands: appending records, calls of the cache with the
    evictions they cause, and the loops on objects, each with its effect on the
    visible store and the log. *)

From S2P Require Import Prelude Resp HashTable ZOrder Object ExpireHeap LruList Cache Allocation CacheSpec CacheProps.
From S2P Require Import CacheEvents Rdb RdbImage Aof AofCodec AofLog Double CommandText MysqlStore Service ServiceStore ServiceSpec.

Section Runs.
Context {A : Type} `{LogLaws A}.

(** ** Appending *)

(** A step that leaves the visible store and the cache. *)
Definition appends (args : command) (r : Z) (w w' : world A) : Prop :=
  exists l, runs [args] l (visible (w_now w) (store_of w)) w w' /\ (r = 0 -> l = [args]) /\ store_of w' = store_of w.

Lemma append_to_log_runs args w a :
  good w -> sv_aof (w_service w) = Some a -> wp (append_to_log args) w (fun r w' => appends args r w w').
Proof.
  intros [G1 G2 G3] Ha. unfold wp, append_to_log. rewrite Ha. pose proof (law_append (w_mem w) a) as Hl. pose proof (law_append_any (w_mem w) a args) as Hany.
  specialize (fun txn d => Hl txn d args).
  destruct (log_append (w_mem w) a (Some <$> args)) as [[r a'] m'] eqn:E. cbn. destruct Hany as [Hm Hf].
  exists (if decide (r = 0) then [args] else []). split; [|split; [|done]].
  2:{ intros ->. done. }
  split; cbn; try done.
  - destruct (decide (r = 0)); [done|]. apply sublist_nil_l.
  - unfold logs. cbn. rewrite Ha. split; [done|]. split; [intros F; destruct (Hf F) as [? Hr0]; by rewrite decide_False by done|]. intros txn d Hr.
    destruct (Hl txn d Hr) as [[-> Hrep]|(Hne & Hrep & Hwhy)].
    + rewrite decide_True by done. split; [done|]. by left.
    + rewrite decide_False by done. rewrite app_nil_r. split; [done|]. right. unfold lossy.
      rewrite log_bytes_app, zlen_app. pose proof (zlen_nonneg (log_bytes [args])).
      destruct Hwhy as [?|[?|[Hk|?]]]; [tauto| | |right; right; right; lia].
      * right; left. split; [done|]. by exists [], [args].
      * right; right; left. intros Hall. by apply Forall_cons in Hall as [? _].
Qed.

Lemma capture_runs args w :
  good w -> wp (capture_mysql_mutation args) w
    (fun _ w' => runs [] [] (visible (w_now w) (store_of w)) w w' /\ store_of w' = store_of w).
Proof.
  intros G. assert (Hret : forall (r : Z), wp (A := A) (mret r) w (fun _ w' => runs [] [] (visible (w_now w) (store_of w)) w w' /\ store_of w' = store_of w)).
  { intros r. apply wp_ret. split; [by apply runs_refl|done]. }
  unfold capture_mysql_mutation. apply wp_bind, wp_ask. destruct (_ || _); [apply Hret|]. destruct (_ || _); [apply Hret|].
  destruct (payload_bytes args) as [n|]; [|apply Hret].
  assert (Hmod : forall b l (c : Z) w1, runs [] [] (visible (w_now w) (store_of w)) w w1 /\ store_of w1 = store_of w -> b = sv_recording (w_service w1) ->
    wp (_ ← modify (put_mutation b l c); mret 0) w1 (fun _ w' => runs [] [] (visible (w_now w) (store_of w)) w w' /\ store_of w' = store_of w)).
  { intros b l c w1 [H1 H2] ->. apply wp_bind. eapply wp_mono; [apply modify_runs; [apply H1|done..]|]. intros _ w2 [H3 H4]. apply wp_ret.
    split; [|congruence]. rewrite (ru_now _ _ _ _ _ H1), H2 in H3. by eapply runs_silent. }
  destruct (n >? _).
  - apply wp_bind. eapply wp_mono; [apply allocating_runs; [done|apply malloc_spends]|]. intros ok w1 (_ & H1 & H2).
    destruct (negb ok); [apply wp_ret; done|]. apply Hmod; [done|]. apply ru_fixed in H1. unfold fixed in H1. by injection H1.
  - apply Hmod; [|done]. split; [by apply runs_refl|done].
Qed.

Lemma append_record_runs args w a :
  good w -> sv_aof (w_service w) = Some a -> wp (append_aof_record args) w (fun r w' => appends args r w w').
Proof.
  intros G Ha. unfold append_aof_record. apply wp_bind. eapply wp_mono; [by eapply append_to_log_runs|].
  intros r w1 (l & H1 & Hr & Hc). destruct (Z.eqb_spec r 0) as [->|Hne]; cbn [negb].
  - eapply wp_mono; [apply capture_runs, H1|]. cbn. intros r2 w2 [H2 Hc2]. exists l. rewrite (ru_now _ _ _ _ _ H1), Hc in H2.
    split; [by eapply runs_end|]. split; [|congruence]. intros _. by apply Hr.
  - apply wp_ret. exists l. split; [done|]. split; [|done]. lia.
Qed.

Lemma logging_runs args w :
  good w -> wp (when_logging (append_aof_record args)) w (fun r w' => appends args r w w').
Proof.
  intros G. unfold when_logging. apply wp_bind, wp_ask. destruct (sv_aof (w_service w)) as [a|] eqn:Ha; cbn [is_Some_bool negb].
  - by eapply append_record_runs.
  - apply wp_ret. exists [args]. split; [|done]. split; try done. unfold logs. by rewrite Ha.
Qed.

Lemma append_original_runs args w :
  good w -> 1 <= zlen args <= RESP_MAX_ARGUMENTS -> wp (append_original_command args) w (fun r w' => appends args r w w').
Proof.
  intros G Hn. unfold append_original_command.
  replace ((zlen args =? 0) || (zlen args >? RESP_MAX_ARGUMENTS)) with false.
  { by apply logging_runs. }
  symmetry. apply orb_false_iff. split; [apply Z.eqb_neq; lia|]. rewrite Z.gtb_ltb. apply Z.ltb_ge. lia.
Qed.

(** ** Calls of the cache *)

Definition del_record (key : list Z) : command := [lit "DEL"; key].

Lemma evictions_runs ks w :
  good w -> wp (record_evictions ks) w
    (fun _ w' => exists l, runs (del_record <$> ks) l (visible (w_now w) (store_of w)) w w' /\ store_of w' = store_of w).
Proof.
  revert w. induction ks as [|k ks IH]; intros w G; cbn [record_evictions fmap list_fmap].
  - apply wp_ret. exists []. split; [by apply runs_refl|done].
  - apply wp_bind. eapply wp_mono; [by apply logging_runs|]. intros r w1 (l & H1 & _ & Hc).
    eapply wp_mono; [apply IH, H1|]. cbn. intros _ w2 (l2 & H2 & Hc2). exists (l ++ l2).
    rewrite (ru_now _ _ _ _ _ H1), Hc in H2. split; [|congruence]. exact (runs_trans _ _ _ _ _ _ _ _ _ H1 H2).
Qed.

(** What a call of the cache does: the result, the evictions and the store. *)
Definition called (w w' : world A) (c' : cache) (key : list Z) (ks : list (list Z)) (x : option (avalue * Z)) : Prop :=
  exists l, runs (del_record <$> ks) l (place key x (drop_keys ks (visible (w_now w) (store_of w)))) w w' /\
    store_of w' = with_calls [] c' /\ (key ∉ ks) /\ evictable (store_of w) ks.

Lemma evictable_runs records l S w w1 ks : runs records l S w w1 -> evictable (store_of w1) ks -> evictable (store_of w) ks.
Proof. intros H1. unfold evictable. by rewrite (ru_limits _ _ _ _ _ H1). Qed.

Lemma on_cache_called {T} (f : mem -> Z -> cache -> T * cache * mem) w r c' m' key ks x :
  good w -> f (w_mem w) (w_now w) (store_of w) = (r, c', m') ->
  moved (w_now w) (store_of w) c' key ks x -> m' `suffix_of` w_mem w ->
  wp (on_cache f) w (fun y w' => y = r /\ called w w' c' key ks x).
Proof.
  intros [G1 G2 G3] Hf Hmv Hm. unfold on_cache. apply wp_bind. unfold wp at 1, current_time. cbn [fst snd]. rewrite G2. cbn [head tail default].
  rewrite Z.add_0_r. apply wp_bind. unfold wp at 1, cache_run. cbn [w_mem w_service sv_cache]. rewrite Hf. cbn [fst snd].
  apply wp_bind, wp_ask. apply wp_bind. unfold wp at 1, modify. cbn [fst snd w_service w_now w_mem w_ticks].
  cbn [put_cache sv_cache]. rewrite (mv_calls _ _ _ _ _ _ Hmv).
  set (w2 := mk_world _ _ _ _). assert (H2 : runs [] [] (visible (w_now w) c') w w2).
  { split; cbn; try done.
    - split; cbn; [apply Hmv|done|done].
    - apply (mv_limits _ _ _ _ _ _ Hmv).
    - by apply logs_nothing. }
  apply wp_bind. eapply wp_mono; [apply (evictions_runs ks w2), H2|]. cbn beta. intros _ w3 (l & H3 & Hc3). apply wp_ret. split; [done|].
  exists l. split; [|split; [done|split; [apply Hmv|apply Hmv]]].
  assert (Hv : visible (w_now w2) (store_of w2) = _) by exact (mv_visible _ _ _ _ _ _ Hmv). rewrite Hv in H3.
  by eapply runs_silent.
Qed.

Lemma on_cache_twice_called {T} (f : mem -> Z -> Z -> cache -> T * cache * mem) w r c' m' key ks x :
  good w -> f (w_mem w) (w_now w) (w_now w) (store_of w) = (r, c', m') ->
  moved (w_now w) (store_of w) c' key ks x -> m' `suffix_of` w_mem w ->
  wp (on_cache_twice f) w (fun y w' => y = r /\ called w w' c' key ks x).
Proof.
  intros G Hf Hmv Hm. unfold on_cache_twice. apply wp_bind. unfold wp at 1, current_time. cbn [fst snd]. rewrite (g_ticks _ G). cbn [head tail default].
  rewrite Z.add_0_r. replace (mk_world _ _ _ _) with w by (destruct w; cbn; pose proof (g_ticks _ G) as Ht; cbn in Ht; by rewrite Ht).
  by eapply on_cache_called.
Qed.

Lemma on_cache_pure_called {T} (f : Z -> cache -> T * cache) w r c' key ks x :
  good w -> f (w_now w) (store_of w) = (r, c') -> moved (w_now w) (store_of w) c' key ks x ->
  wp (on_cache_pure f) w (fun y w' => y = r /\ called w w' c' key ks x).
Proof.
  intros G Hf Hmv. eapply on_cache_called; [done|cbn; by rewrite Hf|done|done].
Qed.

(** ** Outcomes *)

Definition evicting (t : Z) (ks : list (list Z)) (es : list effect) (S : astore) : astore :=
  apply_effects t ((EDel <$> ks) ++ es) S.

(** A command that was given a reply: as it is specified; without a resource
    it needs; or with a record that did not reach the log. *)
Definition served (command : service_command) (arguments : list (list Z)) (w : world A) (r : kvstore_reply)
    (w' : world A) : Prop :=
  let t := w_now w in
  let S := visible t (store_of w) in
  exists a, answers t S command arguments a /\
  ((exists ks l, r = a.1 /\ evictable (store_of w) ks /\ (is_write_command command = true /\ a.2 <> [] \/ ks = [] /\ a.2 = []) /\
      (arg arguments 1 ∉ ks) /\ l `sublist_of` (del_record <$> ks) /\
      runs ((del_record <$> ks) ++ a.2.*2) (l ++ a.2.*2) (evicting t ks a.2.*1 S) w w') \/
   (exists S', may_fail command r /\ (S' = S \/ S' = apply_effects t a.2.*1 S) /\ runs [] [] S' w w') \/
   (exists ks l, r = ERR_AOF /\ a.2 <> [] /\ evictable (store_of w) ks /\ is_write_command command = true /\
      runs ((del_record <$> ks) ++ a.2.*2) l (evicting t ks a.2.*1 S) w w')).

Lemma apply_effects_app (t : Z) (e1 e2 : list effect) (S : astore) : apply_effects t (e1 ++ e2) S = apply_effects t e2 (apply_effects t e1 S).
Proof. apply fold_left_app. Qed.

Lemma apply_dels (t : Z) (ks : list (list Z)) (S : astore) : apply_effects t (EDel <$> ks) S = drop_keys ks S.
Proof.
  revert S. induction ks as [|k ks IH]; intros S; [done|]. cbn [fmap list_fmap]. change (EDel k :: (EDel <$> ks)) with ([EDel k] ++ (EDel <$> ks)).
  rewrite apply_effects_app, IH. apply map_eq. intros i. rewrite !drop_keys_lookup. cbn.
  destruct (decide (i = k)) as [->|Hik].
  - rewrite lookup_delete_eq, (decide_True (P := k ∈ k :: ks)) by (apply elem_of_cons; by left). by destruct (decide _).
  - rewrite lookup_delete_ne by done. destruct (decide (i ∈ ks)).
    + by rewrite decide_True by (apply elem_of_cons; by right).
    + by rewrite decide_False by (rewrite elem_of_cons; tauto).
Qed.

Lemma evicting_eq (t : Z) (ks : list (list Z)) (es : list effect) (S : astore) : evicting t ks es S = apply_effects t es (drop_keys ks S).
Proof. unfold evicting. by rewrite apply_effects_app, apply_dels. Qed.

(** The record of the change was appended, or not. *)
Lemma served_logged command arguments w w1 w2 c' ks x reply e record q (key := arg arguments 1) :
  answers (w_now w) (visible (w_now w) (store_of w)) command arguments (reply, [(e, record)]) ->
  is_write_command command = true -> called w w1 c' key ks x ->
  place key x (drop_keys ks (visible (w_now w) (store_of w))) = apply_effect (w_now w) (drop_keys ks (visible (w_now w) (store_of w))) e ->
  appends record q w1 w2 ->
  served command arguments w (if negb (q =? 0) then ERR_AOF else reply) w2.
Proof.
  intros Ha Hw (l & H1 & Hc & Hkept & Hks) Hx (l2 & H2 & Hq & _). exists (reply, [(e, record)]). split; [done|].
  assert (H3 : runs ((del_record <$> ks) ++ [record]) (l ++ l2) (evicting (w_now w) ks [e] (visible (w_now w) (store_of w))) w w2).
  { eapply runs_trans; [exact H1|]. rewrite evicting_eq. cbn. rewrite <- Hx. rewrite <- (ru_visible _ _ _ _ _ H1), <- (ru_now _ _ _ _ _ H1). exact H2. }
  destruct (Z.eqb_spec q 0) as [Hq0|Hq0]; cbn [negb].
  - left. exists ks, l. rewrite (Hq Hq0) in H3. split_and!; [done|done|by left|done|apply H1|done].
  - right; right. exists ks, (l ++ l2). done.
Qed.

(** Nothing was changed. *)
Lemma served_same command arguments w w1 reply :
  answers (w_now w) (visible (w_now w) (store_of w)) command arguments (reply, []) ->
  runs [] [] (visible (w_now w) (store_of w)) w w1 ->
  served command arguments w reply w1.
Proof. intros Ha H1. exists (reply, []). split; [done|]. left. exists [], []. split; [done|]. split; [apply evictable_nil|]. split; [by right|]. split; [apply not_elem_of_nil|]. done. Qed.

(** A resource was missing and nothing was changed. *)
Lemma served_failed command arguments w w1 a r :
  answers (w_now w) (visible (w_now w) (store_of w)) command arguments a -> may_fail command r ->
  runs [] [] (visible (w_now w) (store_of w)) w w1 -> served command arguments w r w1.
Proof. intros Ha Hf H1. exists a. split; [done|]. right; left. eexists. split; [done|]. split; [by left|done]. Qed.

Lemma called_same w w1 c' key : 
  called w w1 c' key [] (visible (w_now w) (store_of w) !! key) -> runs [] [] (visible (w_now w) (store_of w)) w w1.
Proof. intros (l & H1 & _). cbn in H1. pose proof (ru_sub _ _ _ _ _ H1) as Hs. apply sublist_nil_r in Hs as ->. by rewrite place_same in H1. Qed.

Lemma called_none w w1 c' key x :
  called w w1 c' key [] x -> runs [] [] (place key x (visible (w_now w) (store_of w))) w w1.
Proof. intros (l & H1 & _). cbn in H1. pose proof (ru_sub _ _ _ _ _ H1) as Hs. by apply sublist_nil_r in Hs as ->. Qed.

Lemma answer_count_runs n append w (record : command) :
  0 <= n -> wp append w (fun r w' => appends record r w w') ->
  wp (answer_count n append) w (fun r w' =>
    (n = 0 /\ r = REPLY_INTEGER 0 /\ w' = w) \/
    (0 < n /\ exists q, appends record q w w' /\ r = if negb (q =? 0) then ERR_AOF else REPLY_INTEGER n)).
Proof.
  intros Hn Happ. unfold answer_count. destruct (Z.eqb_spec n (-2)); [lia|]. destruct (Z.ltb_spec n 0); [lia|].
  destruct (Z.gtb_spec n 0).
  - apply wp_bind. eapply wp_mono; [exact Happ|]. cbn. intros q w1 Hq. apply wp_ret. right. split; [done|]. by exists q.
  - assert (n = 0) as -> by lia. apply wp_ret. by left.
Qed.
End Runs.
