(* ===== verification/ServiceCommands.v ===== *)
(** The data commands of the service against their specification. *)

From S2P Require Import Prelude Resp HashTable ZOrder Object ExpireHeap LruList Cache Allocation CacheSpec CacheProps.
From S2P Require Import CacheEvents Rdb RdbImage Aof AofCodec AofLog Double CommandText MysqlStore Service ServiceStore ServiceSpec ServiceRuns.

Section Commands.
Context {A : Type} `{LogLaws A}.

(** ** Strings and expiration *)

Lemma time_wp (Q : Z -> world A -> Prop) w : good w -> Q (w_now w) w -> wp current_time w Q.
Proof.
  intros G HQ. unfold wp, current_time. cbn. rewrite (g_ticks _ G). cbn. rewrite Z.add_0_r.
  destruct w as [m n ticks s]. cbn in *. pose proof (g_ticks _ G) as Ht. cbn in Ht. by subst.
Qed.

Lemma delete_serves command arguments w :
  good w -> is_write_command command = true ->
  answers (w_now w) (visible (w_now w) (store_of w)) command arguments
    (delete_answer (visible (w_now w) (store_of w)) (arg arguments 1)) ->
  wp (execute_delete (arg arguments 1)) w (served command arguments w).
Proof.
  intros G Hw Ha. set (key := arg arguments 1) in *. unfold execute_delete. apply wp_bind.
  pose proof (delete_moved (w_now w) (store_of w) key (g_cache _ G)) as Hd.
  destruct (cache_delete (w_now w) (store_of w) (Some key)) as [r c'] eqn:E. destruct Hd as [Hr Hmv].
  eapply wp_mono; [by eapply on_cache_pure_called|]. cbn. intros n w1 [-> Hc].
  assert (G1 : good w1) by (destruct Hc as (l & Hrun & _); apply Hrun).
  unfold delete_answer, answer_key, present in Ha. rewrite <- Hr in Ha.
  eapply wp_mono; [apply (answer_count_runs r _ w1 [lit "DEL"; key])|].
  - rewrite Hr. destruct (is_Some_bool _); lia.
  - by apply logging_runs.
  - intros reply w2 [(-> & -> & ->)|(Hpos & q & Happ & ->)].
    + apply served_same; [done|]. destruct (visible _ _ !! key) eqn:Ev; [done|]. rewrite <- Ev in Hc. by apply called_same in Hc.
    + destruct (Z.eqb_spec r 0); [lia|]. eapply served_logged; [exact Ha|done|exact Hc| |exact Happ]. done.
Qed.

Lemma persist_serves arguments w :
  good w -> wp (execute_persist (arg arguments 1)) w (served SERVICE_COMMAND_PERSIST arguments w).
Proof.
  intros G. set (key := arg arguments 1) in *. unfold execute_persist. apply wp_bind.
  pose proof (persist_moved (w_now w) (store_of w) key (g_cache _ G)) as Hd.
  destruct (cache_persist (w_now w) (store_of w) (Some key)) as [r c'] eqn:E. destruct Hd as [Hr Hmv].
  eapply wp_mono; [by eapply on_cache_pure_called|]. cbn. intros n w1 [-> Hc].
  assert (G1 : good w1) by (destruct Hc as (l & Hrun & _); apply Hrun).
  assert (Ha : answers (w_now w) (visible (w_now w) (store_of w)) SERVICE_COMMAND_PERSIST arguments
            (REPLY_INTEGER r, if r =? 0 then [] else [(EPersist key, [lit "PERSIST"; key])])).
  { unfold answers, persist_answer, answer_key. fold key. by rewrite <- Hr. }
  eapply wp_mono; [apply (answer_count_runs r _ w1 [lit "PERSIST"; key])|].
  - rewrite Hr. destruct (visible _ _ !! key) as [[v x]|]; [|lia]. destruct (x =? 0); lia.
  - by apply logging_runs.
  - intros reply w2 [(-> & -> & ->)|(Hpos & q & Happ & ->)].
    + apply served_same; [done|]. apply (called_same _ _ c' key). destruct (visible _ _ !! key) as [[v x]|] eqn:Ev; [|done].
      destruct (Z.eqb_spec x 0) as [->|]; [|done]. done.
    + destruct (Z.eqb_spec r 0); [lia|]. eapply served_logged; [exact Ha|done|exact Hc| |exact Happ].
      cbn. destruct Hc as (l & _ & _ & Hk & _). cbn [drop_keys foldr]. unfold alter, map_alter, place.
      apply partial_alter_ext. intros x Hx. rewrite <- Hx. done.
Qed.

Lemma expire_serves command arguments multiplier w :
  good w -> multiplier = 1 \/ multiplier = 1000 ->
  (command = SERVICE_COMMAND_EXPIRE \/ command = SERVICE_COMMAND_PEXPIRE) ->
  (forall a, a = expire_answer (w_now w) (visible (w_now w) (store_of w)) arguments multiplier ->
     answers (w_now w) (visible (w_now w) (store_of w)) command arguments a) ->
  wp (execute_expire arguments multiplier) w (served command arguments w).
Proof.
  intros G Hmul Hcmd Ha. specialize (Ha _ eq_refl). assert (Hw : is_write_command command = true) by (by destruct Hcmd as [-> | ->]). set (key := arg arguments 1) in *. unfold execute_expire. fold key.
  unfold expire_answer in Ha. fold key in Ha. unfold duration_ms in *.
  destruct (parse_int64 (arg arguments 2)) as [value|]; cbn [Z.eqb negb] in *; cycle 1.
  { apply wp_ret. apply served_same; [done|by apply runs_refl]. }
  destruct (Z.leb_spec value 0) as [Hv|Hv]; cbn [Z.eqb negb] in *.
  { destruct (Z.leb_spec value 0); [|lia]. by apply (delete_serves command arguments w). }
  destruct (value >? UINT64_MAX / multiplier); cbn [Z.eqb negb] in *.
  { apply wp_ret. apply served_same; [done|by apply runs_refl]. }
  destruct (Z.leb_spec value 0); [lia|]. set (ttl := value * multiplier) in *. assert (Httl : 0 < ttl) by (unfold ttl; nia).
  apply wp_bind, time_wp; [done|].
  destruct (Z.gtb_spec ttl (UINT64_MAX - w_now w)) as [|Hle].
  { apply wp_ret. apply served_same; [done|by apply runs_refl]. }
  pose proof (g_now _ G) as Hnow. assert (Hx : u64_ok (w_now w + ttl)) by (unfold u64_ok in *; lia).
  apply wp_bind. pose proof (expire_moved (w_mem w) (w_now w) (store_of w) key (w_now w + ttl) (g_cache _ G) Hx) as Hd.
  destruct (cache_expire_at (w_mem w) (w_now w) (store_of w) (Some key) (w_now w + ttl)) as [[r c'] m'] eqn:E.
  destruct Hd as [Hd Hm]; [lia|unfold u64_ok in Hnow; lia|]. destruct Hd as [[Hr Hmv]|[-> Hmv]].
  - eapply wp_mono; [by eapply on_cache_called|]. cbn. intros n w1 [-> Hc].
    assert (G1 : good w1) by (destruct Hc as (l & Hrun & _); apply Hrun).
    unfold answer_key, present in Ha. rewrite <- Hr in Ha.
    eapply wp_mono; [apply (answer_count_runs r _ w1 [lit "PEXPIREAT"; key; decimal (w_now w + ttl)])|].
    + rewrite Hr. destruct (is_Some_bool _); lia.
    + by apply logging_runs.
    + intros reply w2 [(-> & -> & ->)|(Hpos & q & Happ & ->)].
      * apply served_same; [done|]. destruct (visible _ _ !! key) eqn:Ev; [done|]. cbn in Hc. rewrite <- Ev in Hc. by apply called_same in Hc.
      * destruct (Z.eqb_spec r 0); [lia|]. eapply served_logged; [exact Ha|done|exact Hc| |exact Happ]. cbn.
        destruct (Z.leb_spec (w_now w + ttl) (w_now w)); [lia|]. apply partial_alter_ext. intros x Hx'. by rewrite <- Hx'.
  - eapply wp_mono; [by eapply on_cache_called|]. cbn. intros n w1 [-> Hc]. apply wp_ret.
    eapply served_failed; [exact Ha| |by apply called_same in Hc]. by destruct Hcmd as [-> | ->].
Qed.

Lemma ttl_serves command arguments w seconds :
  good w ->
  (forall a, a = ttl_answer (w_now w) (visible (w_now w) (store_of w)) (arg arguments 1) seconds ->
     answers (w_now w) (visible (w_now w) (store_of w)) command arguments a) ->
  wp (execute_ttl (arg arguments 1) seconds) w (served command arguments w).
Proof.
  intros G Ha. set (key := arg arguments 1) in *. unfold execute_ttl. apply wp_bind. pose proof (g_now _ G) as Hnow.
  pose proof (ttl_moved (w_now w) (store_of w) key (g_cache _ G) (proj1 Hnow)) as Hd.
  destruct (cache_ttl_ms (w_now w) (store_of w) (Some key)) as [r c'] eqn:E. destruct Hd as [-> Hmv].
  eapply wp_mono; [by eapply on_cache_pure_called|]. cbn. intros n w1 [-> Hc]. apply wp_ret.
  apply served_same; [|by eapply called_same]. by apply Ha.
Qed.

Lemma set_option_nonneg arguments ttl : set_option arguments = inr ttl -> 0 <= ttl.
Proof.
  unfold set_option. destruct (zlen arguments =? 5); [|intros [= <-]; lia].
  assert (Hp : forall mu, 0 < mu -> match duration_ms (arg arguments 4) mu true with
    | (parse_result, _, ttl_ms) => if parse_result =? -2 then inl ERR_EXPIRE else if negb (parse_result =? 0) then inl ERR_INTEGER else inr ttl_ms end = inr ttl -> 0 <= ttl).
  { intros mu Hmu. unfold duration_ms. destruct (parse_int64 _) as [v|]; [|done]. destruct (Z.leb_spec v 0); [done|].
    destruct (v >? _); [done|]. cbn. intros [= <-]. nia. }
  destruct (argument_equals _ (lit "EX")); [by apply Hp|]. destruct (argument_equals _ (lit "PX")); [by apply Hp|done].
Qed.

Lemma set_serves arguments w :
  good w -> key_ok (arg arguments 1) -> wp (execute_set arguments) w (served SERVICE_COMMAND_SET arguments w).
Proof.
  intros G Hk. unfold execute_set. set (key := arg arguments 1) in *.
  assert (Ha : answers (w_now w) (visible (w_now w) (store_of w)) SERVICE_COMMAND_SET arguments (set_answer (w_now w) arguments)) by done.
  unfold set_answer in Ha. pose proof (set_option_nonneg arguments) as Hpos.
  destruct (set_option arguments) as [error|ttl].
  { apply wp_ret. apply served_same; [done|by apply runs_refl]. }
  specialize (Hpos ttl eq_refl). apply wp_bind, time_wp; [done|]. destruct (_ && _) eqn:Eb.
  { apply wp_ret. apply served_same; [done|by apply runs_refl]. }
  set (x := if ttl =? 0 then 0 else w_now w + ttl) in *. pose proof (g_now _ G) as Hnow.
  assert (Hx : future (w_now w) x).
  { unfold x. destruct (Z.eqb_spec ttl 0); [split; [done|by left]|]. cbn [negb andb] in Eb. unfold future, u64_ok in *.
    destruct (Z.gtb_spec ttl (UINT64_MAX - w_now w)); [done|]. lia. }
  apply wp_bind. pose proof (set_moved (w_mem w) (w_now w) (store_of w) key (arg arguments 2) x (g_cache _ G) Hx Hk) as Hd.
  destruct (cache_set_expire_at (w_mem w) (w_now w) (w_now w) (store_of w) (Some key) (Some (arg arguments 2)) x) as [[r c'] m'] eqn:E.
  destruct Hd as [(ks & [[-> Hmv]|(Hr & -> & Hmv)]) Hm].
  - eapply wp_mono; [by eapply on_cache_twice_called|]. cbn. intros n w1 [-> Hc].
    assert (G1 : good w1) by (destruct Hc as (l & Hrun & _); apply Hrun). apply wp_bind. unfold append_set_command.
    eapply wp_mono; [by apply logging_runs|]. cbn. intros q w2 Happ. apply wp_ret. eapply served_logged; [exact Ha|done|exact Hc| |exact Happ].
    cbn. destruct Hx as [_ [Hx|Hx]]; [by rewrite Hx|]. destruct (Z.leb_spec x (w_now w)); [lia|]. by rewrite andb_false_r.
  - eapply wp_mono; [by eapply on_cache_twice_called|]. cbn. intros n w1 [-> Hc]. apply called_same in Hc.
    destruct Hr as [-> | ->]; apply wp_ret; (eapply served_failed; [exact Ha|cbn; tauto|done]).
Qed.

(** ** Lookups *)

(** What a lookup gives: the entry of the key, with its object. *)
Definition looked (w : world A) (key : list Z) (p : option (list Z)) (o : option kv_object) (w' : world A) : Prop :=
  let S := visible (w_now w) (store_of w) in
  runs [] [] S w w' /\
  match S !! key with
  | None => p = None /\ o = None
  | Some (v, x) => exists e, p = Some key /\ o = Some (e_object e) /\ shows (e_object e) v /\ e_expire e = x /\
      c_entries (store_of w') !! key = Some e /\ expired (w_now w) e = false /\ 0 <= memory_usage (e_object e)
  end.

Lemma looked_intro w w1 key c' p :
  good w -> called w w1 c' key [] (visible (w_now w) (store_of w) !! key) ->
  p = (fun _ => key) <$> visible (w_now w) (store_of w) !! key ->
  c_entries c' !! key = live_entry (c_entries (store_of w)) (w_now w) key ->
  wp (read_object p) w1 (fun o w' => looked w key p o w').
Proof.
  intros G Hc Hp He. pose proof (called_same _ _ _ _ Hc) as Hr. destruct Hc as (_ & _ & Hst & _).
  unfold read_object. apply wp_bind, wp_ask, wp_ret. split; [done|]. rewrite Hst, Hp. rewrite visible_lookup in *.
  destruct (live_entry (c_entries (store_of w)) (w_now w) key) as [e|] eqn:El; cbn; [|done].
  exists e. unfold object_at. cbn. rewrite He. cbn. apply live_lookup in El as [El Ex].
  destruct (cg_ok _ (g_cache _ G)) as [L HL]. destruct (cc_entries _ _ (proj1 HL) key e El) as (_ & _ & Hmu).
  split_and!; try done. apply wf_shows. by apply (cg_objects _ (g_cache _ G) key e).
Qed.

Lemma get_object_wp key record w :
  good w -> wp (get_object key record) w (fun po w' => looked w key po.1 po.2 w').
Proof.
  intros G. destruct (cg_ok _ (g_cache _ G)) as [L HL]. unfold get_object. apply wp_bind.
  pose proof (get_ref_spec L (w_now w) (store_of w) key record HL) as Hl. pose proof (get_ref_trims L (w_now w) (store_of w) key record HL) as Ht.
  destruct (lookup_moved L _ _ _ _ _ (g_cache _ G) Hl Ht) as (Hmv & Hp & He). clear Hl Ht.
  destruct (cache_get_object_ref (w_now w) (store_of w) (Some key) record) as [p c'] eqn:E. cbn [fst snd] in *.
  eapply wp_mono; [by eapply on_cache_pure_called|]. cbn. intros p' w1 [-> Hc]. apply wp_bind.
  eapply wp_mono; [by eapply looked_intro|]. cbn. intros o w2 Hlk. by apply wp_ret.
Qed.

Lemma get_hash_wp key record w :
  good w -> wp (get_hash_object key record) w (fun po w' => looked w key po.1 po.2 w').
Proof.
  intros G. destruct (cg_ok _ (g_cache _ G)) as [L HL]. unfold get_hash_object. apply wp_bind.
  pose proof (hash_ref_spec L (w_now w) (store_of w) key record HL) as Hl. pose proof (hash_ref_trims L (w_now w) (store_of w) key record HL) as Ht.
  destruct (lookup_moved L _ _ _ _ _ (g_cache _ G) Hl Ht) as (Hmv & Hp & He). clear Hl Ht.
  destruct (cache_get_hash_object_ref (w_now w) (store_of w) (Some key) record) as [p c'] eqn:E. cbn [fst snd] in *.
  eapply wp_mono; [by eapply on_cache_pure_called|]. cbn. intros p' w1 [-> Hc]. apply wp_bind.
  eapply wp_mono; [by eapply looked_intro|]. cbn. intros o w2 Hlk. by apply wp_ret.
Qed.

(** The object that is found shows what the store has. *)
Lemma looked_none w key p w' : looked w key p None w' -> visible (w_now w) (store_of w) !! key = None /\ p = None.
Proof. intros [_ Hl]. destruct (visible _ _ !! key) as [[v x]|]; [|tauto]. by destruct Hl as (e & _ & ? & _). Qed.

Lemma looked_some w key p o w' :
  looked w key p (Some o) w' ->
  exists e v, visible (w_now w) (store_of w) !! key = Some (v, e_expire e) /\ p = Some key /\ o = e_object e /\ shows o v /\
    c_entries (store_of w') !! key = Some e /\ expired (w_now w) e = false /\ 0 <= memory_usage o.
Proof.
  intros [_ Hl]. destruct (visible _ _ !! key) as [[v x]|]; [|by destruct Hl]. destruct Hl as (e & -> & [= ->] & ? & <- & ?). exists e, v. tauto.
Qed.

(** The object of a found entry is changed in place. *)
Lemma in_place_runs w key p o o' v' w0 :
  looked w0 key p (Some o) w -> 0 <= memory_usage o' -> shows o' v' -> type_of o' = type_of o ->
  wp (commit_in_place p false o') w (fun _ w' =>
    exists e, runs [] [] (<[key := (v', e_expire e)]> (visible (w_now w0) (store_of w0))) w0 w' /\
      visible (w_now w0) (store_of w0) !! key = Some (view_object o, e_expire e) /\
      c_entries (store_of w') !! key = Some (mk_entry o' (e_charge e) (e_items e) (e_expire e)) /\
      expired (w_now w0) e = false /\ sv_engine (w_service w') = sv_engine (w_service w) /\
      c_max_memory (store_of w') = c_max_memory (store_of w)).
Proof.
  intros Hl Ho Hv Hty. pose proof Hl as [Hr _]. destruct (looked_some _ _ _ _ _ Hl) as (e & v & HS & -> & -> & Hsh & He & Hx & Hmu).
  cbn [commit_in_place]. unfold write_object, wp, modify. cbn. exists e.
  assert (Hnow : w_now w = w_now w0) by apply Hr.
  destruct (write_visible (w_now w) (store_of w) key e o' v') as (W1 & W2 & W3); [apply Hr|done|by rewrite Hnow|done..|].
  rewrite Hnow, (ru_visible _ _ _ _ _ Hr) in W2. split_and!; try done.
  2:{ by rewrite HS, (shows_view _ _ Hsh). }
  eapply runs_silent; [exact Hr|]. destruct (ru_good _ _ _ _ _ Hr) as [G1 G2 G3]. split; cbn; try done.
  - by rewrite Hnow.
  - by apply logs_nothing.
Qed.

Lemma get_serves arguments w :
  good w -> wp (execute_get (arg arguments 1)) w (served SERVICE_COMMAND_GET arguments w).
Proof.
  intros G. unfold execute_get. apply wp_bind. eapply wp_mono; [by apply get_object_wp|]. intros [p o] w1 Hl. cbn [fst snd] in Hl.
  pose proof (proj1 Hl) as Hr.
  assert (Ha : forall r, r = (get_answer (visible (w_now w) (store_of w)) (arg arguments 1)).1 ->
            answers (w_now w) (visible (w_now w) (store_of w)) SERVICE_COMMAND_GET arguments (r, [])) by (by intros r ->).
  unfold get_answer in Ha. destruct o as [o|].
  - destruct (looked_some _ _ _ _ _ Hl) as (e & v & HS & _ & -> & Hsh & _). rewrite HS in Ha. cbn [fst] in Ha.
    destruct (kv_object_string_value (e_object e)) as [data|] eqn:Es; (apply wp_ret, served_same; [|done]); apply Ha.
    + destruct v as [l|M|l]; cbn in Hsh.
      * congruence.
      * destruct Hsh as [tb HR]. unfold kv_object_string_value in Es. by rewrite (hr_value _ _ _ HR) in Es.
      * destruct Hsh as [st HR]. unfold kv_object_string_value in Es. by rewrite (zr_value _ _ _ HR) in Es.
    + destruct v as [l|M|l]; [by cbn in Hsh; congruence|done|done].
  - destruct (looked_none _ _ _ _ Hl) as [HS _]. rewrite HS in Ha. apply wp_ret, served_same; [|done]. by apply Ha.
Qed.

(** ** Reading hashes *)

Lemma type_test o v ty :
  shows o v -> bool_decide (kv_object_get_type o <> ty) = bool_decide (type_of_value v <> ty).
Proof. intros Hv. unfold kv_object_get_type. by rewrite view_type, (shows_view _ _ Hv). Qed.

(** A command that looks a hash up. *)
Lemma hash_read command arguments w (key := arg arguments 1) (k : option (list Z) * option kv_object -> cmd A kvstore_reply) f :
  good w ->
  (forall a, a = on_hash (visible (w_now w) (store_of w)) key f ->
     answers (w_now w) (visible (w_now w) (store_of w)) command arguments a) ->
  (forall w1 p, looked w key p None w1 ->
     answers (w_now w) (visible (w_now w) (store_of w)) command arguments (f None) ->
     wp (k (p, None)) w1 (served command arguments w)) ->
  (forall w1 p o M, looked w key p (Some o) w1 -> is_hash o M ->
     answers (w_now w) (visible (w_now w) (store_of w)) command arguments (f (Some M)) ->
     wp (k (p, Some o)) w1 (served command arguments w)) ->
  (forall w1 p o, bool_decide (kv_object_get_type o <> KV_OBJECT_HASH) = true ->
     k (p, Some o) w1 = (ERR_WRONGTYPE, w1)) ->
  wp (x ← get_hash_object key true; k x) w (served command arguments w).
Proof.
  intros G Ha Hnone Hsome Hwrong. apply wp_bind. eapply wp_mono; [by apply get_hash_wp|]. intros [p o] w1 Hl. cbn [fst snd] in Hl.
  unfold on_hash in Ha. destruct o as [o|].
  - destruct (looked_some _ _ _ _ _ Hl) as (e & v & HS & Hp & Ho & Hsh & _). rewrite HS in Ha.
    destruct (bool_decide (kv_object_get_type o <> KV_OBJECT_HASH)) eqn:Ety.
    + unfold wp. rewrite (Hwrong w1 p o Ety). cbn. rewrite (type_test _ _ _ Hsh) in Ety.
      apply served_same; [|apply Hl]. apply Ha. by destruct v.
    + rewrite (type_test _ _ _ Hsh) in Ety. destruct v as [l|M|l]; [done| |done]. by apply (Hsome w1 p o M); [| |apply Ha].
  - destruct (looked_none _ _ _ _ Hl) as [HS _]. rewrite HS in Ha. apply Hnone; [done|]. by apply Ha.
Qed.

Lemma hget_serves arguments w :
  good w -> wp (execute_hget (arg arguments 1) (arg arguments 2)) w (served SERVICE_COMMAND_HGET arguments w).
Proof.
  intros G. unfold execute_hget. eapply hash_read; [done|intros a ->; reflexivity| | |].
  - intros w1 p Hl Ha. apply wp_ret, served_same; [done|apply Hl].
  - intros w1 p o M Hl HM Ha. pose proof (type_test o (AHash M) KV_OBJECT_HASH HM) as Hty. rewrite Hty. cbn [type_of_value].
    rewrite bool_decide_false by tauto. pose proof (hash_get_spec o M (arg arguments 2) HM) as Hg. pose proof (hash_get_usage o (Some (arg arguments 2))) as Hu.
    destruct (looked_some _ _ _ _ _ Hl) as (e & v & HS & Hp & Ho & Hsh & _ & _ & Hmu).
    destruct (kv_object_hash_get o (Some (arg arguments 2))) as [data o'] eqn:Eg. destruct Hg as [-> HM']. cbn [snd] in Hu.
    apply wp_bind. eapply wp_mono; [apply (in_place_runs w1 (arg arguments 1) p o o' (AHash M) w Hl)|].
    + lia.
    + exact HM'.
    + rewrite !view_type. rewrite (shows_view o (AHash M) HM), (shows_view o' (AHash M) HM'). done.
    + intros _ w2 (e2 & Hr & HS2 & _). apply wp_ret, served_same; [done|]. rewrite (shows_view o (AHash M) HM) in HS2.
      by rewrite insert_id in Hr by done.
  - intros w1 p o Ety. by rewrite Ety.
Qed.

Lemma hlen_serves arguments w :
  good w -> wp (execute_hlen (arg arguments 1)) w (served SERVICE_COMMAND_HLEN arguments w).
Proof.
  intros G. unfold execute_hlen. eapply hash_read; [done|intros a ->; reflexivity| | |].
  - intros w1 p Hl Ha. apply wp_ret, served_same; [done|apply Hl].
  - intros w1 p o M Hl HM Ha. pose proof (type_test o (AHash M) KV_OBJECT_HASH HM) as Hty. rewrite Hty. cbn [type_of_value].
    rewrite bool_decide_false by tauto. apply wp_ret, served_same; [|apply Hl]. by rewrite (hash_length_spec o M HM).
  - intros w1 p o Ety. by rewrite Ety.
Qed.

Lemma collect_hash_elements l ctx :
  (visit collect_hash_pair ctx l).1 = 0 ->
  ha_elements (visit collect_hash_pair ctx l).2 = ha_elements ctx ++ concat ((fun x => [x.1; x.2]) <$> l).
Proof.
  revert ctx. induction l as [|x l IH]; intros ctx; cbn [visit fmap list_fmap concat]; [intros _; by rewrite app_nil_r|].
  unfold collect_hash_pair at 1 3. destruct (_ || _); cbn [Z.eqb negb]; [done|]. intros Hr.
  rewrite IH by done. cbn [ha_elements]. by rewrite <- app_assoc.
Qed.

Lemma reserve_elements_runs n w :
  good w -> wp (reserve_reply_elements n) w (fun _ w' => runs [] [] (visible (w_now w) (store_of w)) w w').
Proof.
  intros G. unfold reserve_reply_elements. apply wp_bind, wp_ask. destruct (_ >? _); [by apply wp_ret, runs_refl|].
  destruct (_ <=? _); [by apply wp_ret, runs_refl|]. apply wp_bind. eapply wp_mono; [apply allocating_runs; [done|apply malloc_spends]|].
  intros ok w1 (_ & H1 & Hc). destruct (negb ok); [by apply wp_ret|]. apply wp_bind.
  eapply wp_mono; [apply modify_runs; [apply H1|done..]|]. intros _ w2 [H2 _]. apply wp_ret. rewrite (ru_now _ _ _ _ _ H1), Hc in H2. by eapply runs_silent.
Qed.

Lemma reserve_score_runs n w :
  good w -> wp (reserve_score_buffer n) w (fun _ w' => runs [] [] (visible (w_now w) (store_of w)) w w').
Proof.
  intros G. unfold reserve_score_buffer. apply wp_bind, wp_ask. destruct (_ <=? _); [by apply wp_ret, runs_refl|].
  destruct (_ <? _); [by apply wp_ret, runs_refl|]. apply wp_bind. eapply wp_mono; [apply allocating_runs; [done|apply malloc_spends]|].
  intros ok w1 (_ & H1 & Hc). destruct (negb ok); [by apply wp_ret|]. apply wp_bind.
  eapply wp_mono; [apply modify_runs; [apply H1|done..]|]. intros _ w2 [H2 _]. apply wp_ret. rewrite (ru_now _ _ _ _ _ H1), Hc in H2. by eapply runs_silent.
Qed.

Lemma size_error_fails command b :
  command = SERVICE_COMMAND_HGETALL \/ command = SERVICE_COMMAND_ZRANGE -> may_fail command (size_error b).
Proof. intros [-> | ->]; destruct b; cbn; tauto. Qed.

Lemma hgetall_serves arguments w :
  good w -> wp (execute_hgetall (arg arguments 1)) w (served SERVICE_COMMAND_HGETALL arguments w).
Proof.
  intros G. unfold execute_hgetall. set (key := arg arguments 1). set (S := visible (w_now w) (store_of w)).
  assert (Ha : forall fields, (forall M x, S !! key = Some (AHash M, x) -> fields ≡ₚ map_to_list M) ->
    answers (w_now w) S SERVICE_COMMAND_HGETALL arguments
      (on_hash S key (fun _ => (REPLY_ARRAY (concat ((fun x => [x.1; x.2]) <$> fields)), [])))).
  { intros fields Hf. exists fields. done. }
  apply wp_bind. eapply wp_mono; [by apply get_hash_wp|]. intros [p o] w1 Hl. cbn [fst snd] in Hl. unfold on_hash in Ha.
  destruct o as [o|]; cycle 1.
  { destruct (looked_none _ _ _ _ Hl) as [HS _]. fold S in HS. rewrite HS in Ha. apply wp_ret, served_same; [|apply Hl]. by apply (Ha []). }
  destruct (looked_some _ _ _ _ _ Hl) as (e & v & HS & Hp & Ho & Hsh & _). fold S in HS. rewrite HS in Ha. rewrite (type_test _ _ _ Hsh).
  destruct v as [l|M|l]; cbn [type_of_value].
  { rewrite bool_decide_true by done. apply wp_ret, served_same; [|apply Hl]. by apply (Ha []). }
  2:{ rewrite bool_decide_true by done. apply wp_ret, served_same; [|apply Hl]. by apply (Ha []). }
  rewrite bool_decide_false by tauto. destruct Hsh as [table HR].
  specialize (Ha (hash_fields table)). assert (Hf : forall M' x, Some (AHash M, e_expire e) = Some (AHash M', x) -> hash_fields table ≡ₚ map_to_list M').
  { intros M' x [= <- <-]. by apply (hash_fields_spec o). }
  specialize (Ha Hf). destruct (_ >? _).
  { apply wp_ret. eapply served_failed; [exact Ha|cbn; tauto|apply Hl]. }
  apply wp_bind. eapply wp_mono; [apply reserve_elements_runs, Hl|]. intros n w2 H2. eapply runs_keep in H2; [|apply Hl].
  destruct (negb _).
  { apply wp_ret. eapply served_failed; [exact Ha|apply size_error_fails; tauto|done]. }
  unfold kv_object_hash_visit. rewrite (hr_value _ _ _ HR). set (ctx := mk_hash_array _ _ _).
  pose proof (collect_hash_elements (hash_fields table) ctx) as Hv. destruct (visit collect_hash_pair ctx (hash_fields table)) as [r ctx'].
  cbn [fst snd] in Hv. apply wp_ret. destruct (Z.eqb_spec r 0) as [->|]; cbn [negb].
  - rewrite Hv by done. by apply served_same.
  - eapply served_failed; [exact Ha|apply size_error_fails; tauto|done].
Qed.

(** ** Writing hashes and sorted sets *)

(** The key keeps its deadline. *)
Definition deadline_of (S : astore) (key : list Z) : Z := match S !! key with Some (_, x) => x | None => 0 end.

(** An effect on one key that is not among the evicted ones. *)
Definition effect_is (t : Z) (S : astore) (key : list Z) (e : effect) (x : option (avalue * Z)) : Prop :=
  forall ks, key ∉ ks -> apply_effect t (drop_keys ks S) e = place key x (drop_keys ks S).

Lemma effect_is_nil (t : Z) (S : astore) (key : list Z) e x : effect_is t S key e x -> apply_effects t [e] S = place key x S.
Proof. intros He. apply (He []), not_elem_of_nil. Qed.

Lemma visible_deadline (w : world A) (key : list Z) v x : good w -> visible (w_now w) (store_of w) !! key = Some (v, x) -> future (w_now w) x.
Proof.
  intros G. rewrite visible_lookup. destruct (live_entry _ _ _) as [e|] eqn:El; [|done]. cbn. intros [= _ <-]. apply live_lookup in El as [El Ex].
  destruct (cg_ok _ (g_cache _ G)) as [L HL]. destruct (cc_entries _ _ (proj1 HL) key e El) as (_ & Hu & _). split; [done|].
  unfold expired in Ex. destruct (Z.eqb_spec (e_expire e) 0); [by left|right]. cbn in Ex. destruct (Z.geb_spec (w_now w) (e_expire e)); [done|lia].
Qed.

Section Update.
Context (command : service_command) (arguments : list (list Z)) (w : world A).
Let key := arg arguments 1.
Let S := visible (w_now w) (store_of w).
Context (Hk : key_ok key) (Hn : 1 <= zlen arguments <= RESP_MAX_ARGUMENTS).
Context (Hf : may_fail command ERR_INTERNAL /\ may_fail command ERR_CAPACITY) (Hw : is_write_command command = true).
Context (n : Z) (changed : bool) (e : effect) (v : avalue).
Context (Ha : answers (w_now w) S command arguments (REPLY_INTEGER n, logged_if changed e arguments)).
Context (He : effect_is (w_now w) S key e (Some (v, deadline_of S key))).

Lemma set_object_error_fails r : may_fail command (set_object_error r).
Proof. destruct r; apply Hf. Qed.

Lemma finish_copied p w1 working :
  runs [] [] S w w1 -> shows working v -> 0 <= memory_usage working ->
  wp (finish_update arguments p working true changed n) w1 (served command arguments w).
Proof.
  intros H1 Hv Hu. unfold finish_update. unfold logged_if in Ha. destruct changed; cycle 1.
  { apply wp_ret. by apply served_same. }
  apply wp_bind. assert (G1 := ru_good _ _ _ _ _ H1). assert (HS1 : visible (w_now w1) (store_of w1) = S).
  { rewrite (ru_now _ _ _ _ _ H1). apply (ru_visible _ _ _ _ _ H1). }
  pose proof (store_moved (w_mem w1) (w_now w1) (store_of w1) key working v 0 true (g_cache _ G1)) as Hst.
  cbn zeta in Hst. destruct (cache_store_object (w_mem w1) (w_now w1) (w_now w1) (store_of w1) (Some key) working 0 true) as [[r c'] m'] eqn:E.
  destruct Hst as [(ks & Hst) Hm]; [split; [done|by left]|done|done|done|]. rewrite HS1 in Hst.
  assert (Hd : match S !! key with Some (_, y) => y | None => 0 end = deadline_of S key) by done.
  destruct Hst as [[-> Hmv]|(Hr & -> & Hmv)].
  - eapply wp_mono; [by eapply on_cache_twice_called|]. cbn. intros n' w2 [-> Hc].
    assert (G2 : good w2) by (destruct Hc as (l & Hrun & _); apply Hrun).
    apply wp_bind. eapply wp_mono; [by apply append_original_runs|]. cbn. intros q w3 Happ. apply wp_ret.
    eapply (served_logged command arguments w w2 w3 c' ks); [exact Ha|exact Hw| | |exact Happ].
    + destruct Hc as (l & Hrun & Hrest). exists l. split; [|destruct Hrest as (? & ? & ?); split_and!; [done|done|by eapply evictable_runs]]. rewrite HS1 in Hrun. by eapply runs_silent.
    + rewrite <- Hd in He. symmetry. apply He. by destruct Hc as (_ & _ & _ & ? & _).
  - eapply wp_mono; [by eapply on_cache_twice_called|]. cbn. intros n' w2 [-> Hc]. rewrite <- HS1 in Hc. apply called_same in Hc. eapply runs_keep in Hc; [|exact H1].
    destruct Hr as [-> | ->]; apply wp_ret; (eapply served_failed; [exact Ha|apply Hf|exact Hc]).
Qed.

Lemma finish_in_place w1 e1 working :
  runs [] [] (<[key := (v, deadline_of S key)]> S) w w1 ->
  c_entries (store_of w1) !! key = Some e1 -> expired (w_now w) e1 = false ->
  (changed = false -> <[key := (v, deadline_of S key)]> S = S) ->
  wp (finish_update arguments (Some key) working false changed n) w1 (served command arguments w).
Proof.
  intros H1 He1 Hx Hsame. unfold finish_update. unfold logged_if in Ha. destruct changed; cycle 1.
  { apply wp_ret. rewrite Hsame in H1 by done. by apply served_same. }
  apply wp_bind. assert (G1 := ru_good _ _ _ _ _ H1). assert (HS1 : visible (w_now w1) (store_of w1) = <[key := (v, deadline_of S key)]> S).
  { rewrite (ru_now _ _ _ _ _ H1). apply (ru_visible _ _ _ _ _ H1). }
  rewrite <- (ru_now _ _ _ _ _ H1) in Hx. pose proof (recharge_moved (w_now w1) (store_of w1) key e1 (g_cache _ G1) He1 Hx) as Hst.
  destruct (cache_recharge_ref (w_now w1) (store_of w1) (Some key)) as [r c'] eqn:E. destruct Hst as [ks Hst]. rewrite HS1, lookup_insert_eq in Hst.
  destruct Hst as [[-> Hmv]|(-> & -> & Hmv)].
  - eapply wp_mono; [by eapply on_cache_pure_called|]. cbn. intros n' w2 [-> Hc].
    assert (G2 : good w2) by (destruct Hc as (l & Hrun & _); apply Hrun).
    apply wp_bind. eapply wp_mono; [by apply append_original_runs|]. cbn. intros q w3 Happ. apply wp_ret.
    eapply (served_logged command arguments w w2 w3 c' ks); [exact Ha|exact Hw| | |exact Happ].
    + destruct Hc as (l & Hrun & Hst & Hkept & Hks). exists l. split; [|split_and!; [done|done|by eapply evictable_runs]]. rewrite HS1 in Hrun.
      replace (place key _ (drop_keys ks (<[key := (v, deadline_of S key)]> S))) with (place key (Some (v, deadline_of S key)) (drop_keys ks S)) in Hrun; [by eapply runs_silent|].
      apply map_eq. intros i. unfold place. destruct (decide (i = key)) as [->|Hi]; [by rewrite !lookup_partial_alter_eq|].
      rewrite !lookup_partial_alter_ne, !drop_keys_lookup by done. by rewrite lookup_insert_ne.
    + symmetry. apply He. by destruct Hc as (_ & _ & _ & ? & _).
  - eapply wp_mono; [by eapply on_cache_pure_called|]. cbn. intros n' w2 [-> Hc]. apply called_none in Hc. rewrite HS1 in Hc.
    apply wp_ret. exists (REPLY_INTEGER n, [(e, arguments)]). split; [exact Ha|]. right; left. exists (apply_effects (w_now w) [e] S).
    split; [apply Hf|]. split; [by right|]. rewrite (effect_is_nil _ _ _ _ _ He), place_insert. rewrite place_insert in Hc.
    rewrite insert_insert_eq in Hc. by eapply runs_silent.
Qed.
End Update.

(** Where an update works. *)
Definition working_on (create : mem -> option kv_object * mem) (original : option kv_object) (pair_count : Z)
    (res : option (kv_object * bool)) : Prop :=
  match res with
  | None => True
  | Some (o, copied) =>
      match original with
      | None => copied = true /\ exists m m', create m = (Some o, m')
      | Some object =>
          copied = true /\ (exists m m', kv_object_clone m object = (Some o, m')) \/
          copied = false /\ o = object /\ pair_count <= 1
      end
  end.

Lemma working_object_runs create original n w :
  good w -> (forall m, spends m (create m)) ->
  wp (working_object create original n) w (fun res w' =>
    runs [] [] (visible (w_now w) (store_of w)) w w' /\ store_of w' = store_of w /\ working_on create original n res).
Proof.
  intros G Hc. unfold working_object. destruct original as [object|].
  - apply wp_bind, wp_ask. destruct (Z.gtb_spec n 1) as [Hn|Hn]; cbn [orb].
    2: destruct (negb _).
    3:{ apply wp_ret. split; [by apply runs_refl|]. split; [done|]. right. done. }
    all: (apply wp_bind; eapply wp_mono; [apply allocating_runs; [done|apply clone_spends]|]; intros o w1 (-> & H1 & Hs1);
      apply wp_ret; split; [done|]; split; [done|]; destruct (kv_object_clone (w_mem w) object) as [[o|] m'] eqn:E; cbn; [|done]; left; split; [done|]; by eexists _, _).
  - apply wp_bind. eapply wp_mono; [apply allocating_runs; [done|apply Hc]|]. intros o w1 (-> & H1 & Hs1).
    apply wp_ret. split; [done|]. split; [done|]. destruct (create (w_mem w)) as [[o|] m'] eqn:E; cbn; [|done]. split; [done|]. by eexists _, _.
Qed.

(** The loop of HSET. *)
Lemma hset_loop_spec pairs m o M added changed :
  is_hash o M -> 0 <= memory_usage o ->
  let '(r, o', m') := hset_loop m o pairs added changed in
  0 <= memory_usage o' /\ m' `suffix_of` m /\
  (r = Some (added + hset_added M pairs, changed || hset_changes M pairs) /\ is_hash o' (hset_all M pairs) \/
   r = None /\ exists M', is_hash o' M' /\ (zlen pairs <= 1 -> M' = M)).
Proof.
  revert m o M added changed. induction pairs as [|[f v] pairs IH]; intros m o M added changed Ho Hu; cbn [hset_loop].
  - split; [done|]. split; [done|]. left. cbn. by rewrite Z.add_0_r, orb_false_r.
  - pose proof (hash_set_spec m o M f v Ho) as Hs. pose proof (hash_set_usage m o (Some f) (Some v) Hu) as Hu1.
    pose proof (hash_set_spends m o (Some f) (Some v)) as Hm.
    destruct (kv_object_hash_set m o (Some f) (Some v)) as [[wr o1] m1] eqn:E. unfold spends in Hm. cbn [fst snd] in *.
    assert (Hz : zlen ((f, v) :: pairs) <= 1 -> pairs = []) by (rewrite zlen_cons; destruct pairs; [done|]; rewrite zlen_cons; pose proof (zlen_nonneg pairs); lia).
    assert (Hgo : forall b c M1, is_hash o1 M1 -> M1 = hset_one M (f, v) -> b = (if is_Some_bool (M !! f) then 0 else 1) ->
      c = negb (bool_decide (M !! f = Some v)) ->
      let '(r, o', m') := hset_loop m1 o1 pairs (added + b) (changed || c) in
      0 <= memory_usage o' /\ m' `suffix_of` m /\
      (r = Some (added + hset_added M ((f, v) :: pairs), changed || hset_changes M ((f, v) :: pairs)) /\ is_hash o' (hset_all M ((f, v) :: pairs)) \/
       r = None /\ exists M', is_hash o' M' /\ (zlen ((f, v) :: pairs) <= 1 -> M' = M))).
    { intros b c M1 H1 -> -> ->. cbn [hset_added hset_changes hset_all fold_left fst snd].
      specialize (IH m1 o1 (hset_one M (f, v)) (added + (if is_Some_bool (M !! f) then 0 else 1)) (changed || negb (bool_decide (M !! f = Some v))) H1 Hu1).
      destruct (hset_loop m1 o1 pairs _ _) as [[r o'] m'] eqn:El. destruct IH as (I1 & I2 & I3). split; [done|]. split; [by etrans|].
      destruct I3 as [[-> I3]|(-> & M' & I3 & I4)].
      - left. split; [|done]. by rewrite Z.add_assoc, orb_assoc.
      - right. split; [done|]. exists M'. split; [done|]. intros Hl. rewrite (Hz Hl) in El. done. }
    destruct Hs as [(-> & Hv & H1)|[(-> & (old & Hv & Hne) & H1)|[(-> & Hv & H1)|(-> & H1)]]]; cbn [w_status w_added w_changed write_same write_changed write_added write_failed Z.eqb negb].
    + apply (Hgo 0 false M); [done| |by rewrite Hv|by rewrite Hv, bool_decide_true]. unfold hset_one. cbn. by rewrite insert_id.
    + apply (Hgo 0 true (<[f := v]> M)); [done|done|by rewrite Hv|]. rewrite bool_decide_false; [done|]. rewrite Hv. congruence.
    + apply (Hgo 1 true (<[f := v]> M)); [done|done|by rewrite Hv|]. rewrite bool_decide_false; [done|]. rewrite Hv. done.
    + split; [done|]. split; [done|]. right. split; [done|]. exists M. done.
Qed.

Lemma hset_unchanged pairs M : hset_changes M pairs = false -> hset_all M pairs = M.
Proof.
  revert M. induction pairs as [|x pairs IH]; intros M; [done|]. cbn [hset_changes hset_all fold_left].
  intros [Hx Hrest]%orb_false_iff. apply negb_false_iff, bool_decide_eq_true in Hx.
  assert (hset_one M x = M) as E by (unfold hset_one; by apply insert_id). rewrite E in *. by apply IH.
Qed.

(** The common part of HSET and ZADD. *)
Definition update (arguments : list (list Z)) (create : mem -> option kv_object * mem)
    (loop : mem -> kv_object -> option (Z * bool) * kv_object * mem) (p : option (list Z)) (original : option kv_object)
    (pair_count : Z) : cmd A kvstore_reply :=
  x ← working_object create original pair_count;
  match x with
  | None => mret ERR_INTERNAL
  | Some (working, copied) =>
      '(r, working) ← allocating (fun m => loop m working);
      commit_in_place p copied working ;;
      match r with
      | None => mret ERR_INTERNAL
      | Some (added_total, changed_any) => finish_update arguments p working copied changed_any added_total
      end
  end.

Section UpdateLoop.
Context (command : service_command) (arguments : list (list Z)) (w : world A).
Let key := arg arguments 1.
Let S := visible (w_now w) (store_of w).
Context (Hk : key_ok key) (Hn : 1 <= zlen arguments <= RESP_MAX_ARGUMENTS).
Context (Hf : may_fail command ERR_INTERNAL /\ may_fail command ERR_CAPACITY) (Hw : is_write_command command = true).
Context (n : Z) (changed : bool) (e : effect) (v0 v1 : avalue).
Context (Ha : answers (w_now w) S command arguments (REPLY_INTEGER n, logged_if changed e arguments)).
Context (He : effect_is (w_now w) S key e (Some (v1, deadline_of S key))).
Context (create : mem -> option kv_object * mem) (loop : mem -> kv_object -> option (Z * bool) * kv_object * mem) (pair_count : Z).
Context (Hcm : forall m, spends m (create m)).
Context (Hloop : forall m o, shows o v0 -> 0 <= memory_usage o ->
  let '(r, o', m') := loop m o in
  0 <= memory_usage o' /\ m' `suffix_of` m /\
  (r = Some (n, changed) /\ shows o' v1 \/ r = None /\ exists v', shows o' v' /\ (pair_count <= 1 -> v' = v0))).
Context (Hty : type_of_value v1 = type_of_value v0) (Hsame : changed = false -> v1 = v0).

Lemma update_serves w1 p original :
  looked w key p original w1 -> (forall o, original = Some o -> shows o v0) ->
  (original = None -> forall m o m', create m = (Some o, m') -> shows o v0 /\ 0 <= memory_usage o) ->
  wp (update arguments create loop p original pair_count) w1 (served command arguments w).
Proof.
  intros Hl Ho Hcreate. unfold update. apply wp_bind. eapply wp_mono; [apply working_object_runs; [apply Hl|done]|].
  intros x w2 (H2 & Hs2 & Hx). eapply runs_keep in H2; [|apply Hl].
  destruct x as [[o copied]|]; cycle 1.
  { apply wp_ret. eapply served_failed; [exact Ha|apply Hf|done]. }
  assert (Hwk : shows o v0 /\ 0 <= memory_usage o).
  { destruct original as [object|]; cbn in Hx.
    - destruct (looked_some _ _ _ _ _ Hl) as (_ & _ & _ & _ & _ & _ & _ & _ & Hmu).
      destruct Hx as [(-> & m & m' & Hc)|(-> & -> & _)]; [|split; [by apply Ho|done]].
      split; [eapply clone_shows; [by apply Ho|done]|by eapply clone_usage].
    - destruct Hx as (-> & m & m' & Hc). by eapply Hcreate. }
  destruct Hwk as [Hwk Hu]. specialize (fun m => Hloop m o Hwk Hu). apply wp_bind.
  eapply wp_mono; [apply allocating_runs; [apply H2|unfold spends; specialize (Hloop (w_mem w2)); destruct (loop (w_mem w2) o) as [[? ?] ?]; tauto]|].
  intros [r o'] w3 (Er & H3 & Hs3). eapply runs_keep in H3; [|exact H2]. specialize (Hloop (w_mem w2)).
  destruct (loop (w_mem w2) o) as [[r0 o0] m0]. cbn [fst] in Er. injection Er as <- <-. destruct Hloop as (Hu' & _ & Hres).
  assert (Hend : copied = true -> wp (_ ← commit_in_place p copied o'; match r with
      | None => mret ERR_INTERNAL
      | Some (added_total, changed_any) => finish_update arguments p o' copied changed_any added_total end) w3 (served command arguments w)).
  { intros ->. apply wp_bind. assert (Hc : wp (A := A) (commit_in_place p true o') w3 (fun _ w' => w' = w3)) by (by destruct p).
    eapply wp_mono; [exact Hc|]. cbn. intros _ ? ->. destruct Hres as [[-> Hv]|(-> & _)].
    - eapply finish_copied; try done.
    - apply wp_ret. eapply served_failed; [exact Ha|apply Hf|done]. }
  destruct original as [object|]; cbn in Hx; [|by apply Hend, Hx].
  destruct Hx as [(-> & _)|(-> & -> & Hpc)]; [by apply Hend|]. clear Hend.
  assert (Hl3 : looked w key p (Some object) w3).
  { split; [done|]. destruct Hl as [_ Hl]. destruct (visible (w_now w) (store_of w) !! key) as [[v x]|]; [|done].
    by rewrite Hs3, Hs2. }
  destruct (looked_some _ _ _ _ _ Hl) as (en & v & HS & Hp & _ & Hsh & _). assert (v = v0) as -> by (rewrite <- (shows_view _ _ Hwk), <- (shows_view _ _ Hsh); done).
  assert (Hd : deadline_of S key = e_expire en) by (unfold deadline_of, S; by rewrite HS).
  apply wp_bind. destruct Hres as [[-> Hv]|(-> & v' & Hv & Hv')].
  - eapply wp_mono; [apply (in_place_runs w3 key p object o' v1 w Hl3 Hu' Hv); by rewrite !view_type, (shows_view _ _ Hv), (shows_view _ _ Hwk)|].
    intros _ w4 (e4 & H4 & HS4 & He4 & Hx4 & _). rewrite HS in HS4. injection HS4 as _ E4. rewrite <- E4, <- Hd in H4. rewrite Hp.
    eapply finish_in_place; try done.
    intros Hch. apply insert_id. fold S key in Hd |- *. rewrite (Hsame Hch), Hd. exact HS.
  - specialize (Hv' Hpc). subst v'.
    eapply wp_mono; [apply (in_place_runs w3 key p object o' v0 w Hl3 Hu' Hv); by rewrite !view_type, (shows_view _ _ Hv), (shows_view _ _ Hwk)|].
    intros _ w4 (e4 & H4 & HS4 & _). rewrite HS in HS4. injection HS4 as _ E4. rewrite <- E4 in H4. rewrite insert_id in H4 by done.
    apply wp_ret. eapply served_failed; [exact Ha|apply Hf|done].
Qed.
End UpdateLoop.

Lemma hset_serves arguments w :
  good w -> key_ok (arg arguments 1) -> 1 <= zlen arguments <= RESP_MAX_ARGUMENTS ->
  wp (execute_hset arguments) w (served SERVICE_COMMAND_HSET arguments w).
Proof.
  intros G Hk Hn. unfold execute_hset. set (key := arg arguments 1) in *. set (pairs := argument_pairs (drop 2 arguments)).
  set (S := visible (w_now w) (store_of w)).
  assert (Ha : forall a, a = hset_answer S arguments -> answers (w_now w) S SERVICE_COMMAND_HSET arguments a) by done.
  unfold hset_answer in Ha. fold key pairs in Ha. unfold on_hash in Ha.
  apply wp_bind. eapply wp_mono; [by apply get_hash_wp|]. intros [p original] w1 Hl. cbn [fst snd] in Hl.
  assert (Hgo : forall M, S !! key = None /\ M = ∅ \/ (exists x, S !! key = Some (AHash M, x)) ->
    (forall o, original = Some o -> shows o (AHash M)) ->
    wp (update arguments kv_object_create_hash (fun m working => hset_loop m working pairs 0 false) p original (zlen pairs)) w1
       (served SERVICE_COMMAND_HSET arguments w)).
  { intros M HS Ho. eapply (update_serves SERVICE_COMMAND_HSET arguments w Hk Hn ltac:(cbn; tauto) eq_refl (hset_added M pairs) (hset_changes M pairs)
      (EHset key pairs) (AHash M) (AHash (hset_all M pairs))); try done.
    - refine (Ha _ _). destruct HS as [[-> ->]|[x ->]]; done.
    - intros ks Hks. cbn [apply_effect]. rewrite drop_keys_lookup, decide_False by done. fold S key. unfold deadline_of.
      destruct HS as [[-> ->]|[x ->]]; done.
    - intros m. apply create_hash_spends.
    - intros m o HM Hu. pose proof (hset_loop_spec pairs m o M 0 false HM Hu) as Hs. destruct (hset_loop m o pairs 0 false) as [[r o'] m'].
      destruct Hs as (Hs1 & Hs2 & [[-> Hs3]|(-> & M' & Hs3 & Hs4)]); (split; [done|]; split; [done|]).
      + left. done.
      + right. split; [done|]. exists (AHash M'). split; [done|]. intros Hle. by rewrite Hs4.
    - intros Hch. by rewrite hset_unchanged.
    - intros -> m o m' Hc. split; [|by eapply create_hash_usage]. pose proof (create_hash_spec m) as Hs. rewrite Hc in Hs.
      destruct (looked_none _ _ _ _ Hl) as [HS' _]. destruct HS as [[_ ->]|[x HS]]; [done|]. fold S in HS'. congruence. }
  destruct original as [o|].
  - destruct (looked_some _ _ _ _ _ Hl) as (e & v & HS & Hp & Ho & Hsh & _). fold S in HS. rewrite (type_test _ _ _ Hsh).
    destruct v as [l|M|l]; cbn [type_of_value].
    + rewrite bool_decide_true by done. apply wp_ret, served_same; [|apply Hl]. refine (Ha _ _). by rewrite HS.
    + rewrite bool_decide_false by tauto. apply (Hgo M); [right; by eexists|]. by intros ? [= <-].
    + rewrite bool_decide_true by done. apply wp_ret, served_same; [|apply Hl]. refine (Ha _ _). by rewrite HS.
  - destruct (looked_none _ _ _ _ Hl) as [HS _]. apply (Hgo ∅); [by left|done].
Qed.

(** ** Sorted sets *)

Lemma score_of_none k l : score_of k l = None <-> k ∉ l.*2.
Proof.
  induction l as [|x l IH]; cbn [score_of fmap list_fmap]; [split; [intros _; apply not_elem_of_nil|done]|].
  rewrite not_elem_of_cons, <- IH. destruct (bool_decide (x.2 = k)) eqn:E; [apply bool_decide_eq_true in E|apply bool_decide_eq_false in E].
  - split; [done|]. intros [? _]. by subst.
  - split; [intros; split; [congruence|done]|tauto].
Qed.

Lemma score_of_some k l s : NoDup l.*2 -> (s, k) ∈ l -> score_of k l = Some s.
Proof.
  induction l as [|x l IH]; cbn [score_of fmap list_fmap]; [intros _ Hin; by apply not_elem_of_nil in Hin|].
  intros [Hx Hl]%NoDup_cons [<-|Hin]%elem_of_cons; [by rewrite bool_decide_true|].
  rewrite bool_decide_false; [by apply IH|]. intros <-. apply Hx. apply list_elem_of_fmap. by exists (s, x.2).
Qed.

Lemma zset_nodup o l : is_zset o l -> NoDup l.*2.
Proof. intros [set HR]. by apply (order_sorted (zs_order set)), (zr_order _ _ _ HR). Qed.

Lemma zadd_loop_spec members m o l added changed :
  is_zset o l -> 0 <= memory_usage o -> Forall (fun x => isnan x.1 = false) members ->
  let '(r, o', m') := zadd_loop m o members added changed in
  0 <= memory_usage o' /\ m' `suffix_of` m /\
  (r = Some (added + zadd_added l members, changed || zadd_changes l members) /\ is_zset o' (zadd_all l members) \/
   r = None /\ exists l', is_zset o' l' /\ (zlen members <= 1 -> l' = l)).
Proof.
  revert m o l added changed. induction members as [|[s k] members IH]; intros m o l added changed Ho Hu Hall; cbn [zadd_loop].
  - split; [done|]. split; [done|]. left. cbn. by rewrite Z.add_0_r, orb_false_r.
  - apply Forall_cons in Hall as [Hnan Hall]. cbn [fst] in Hnan.
    pose proof (zset_add_spec m o l s k Ho) as Hs. pose proof (zset_add_usage m o s (Some k) Hu) as Hu1. pose proof (zset_add_spends m o s (Some k)) as Hm.
    destruct (kv_object_zset_add m o s (Some k)) as [[wr o1] m1] eqn:E. unfold spends in Hm. cbn [fst snd] in *. pose proof (zset_nodup _ _ Ho) as Hnd.
    assert (Hz : zlen ((s, k) :: members) <= 1 -> members = []) by (rewrite zlen_cons; destruct members; [done|]; rewrite zlen_cons; pose proof (zlen_nonneg members); lia).
    assert (Hgo : forall b c, is_zset o1 (zadd_one l (s, k)) -> b = (if is_Some_bool (score_of k l) then 0 else 1) ->
      c = match score_of k l with Some old => negb (score_eq old s) | None => true end ->
      let '(r, o', m') := zadd_loop m1 o1 members (added + b) (changed || c) in
      0 <= memory_usage o' /\ m' `suffix_of` m /\
      (r = Some (added + zadd_added l ((s, k) :: members), changed || zadd_changes l ((s, k) :: members)) /\ is_zset o' (zadd_all l ((s, k) :: members)) \/
       r = None /\ exists l', is_zset o' l' /\ (zlen ((s, k) :: members) <= 1 -> l' = l))).
    { intros b c H1 -> ->. cbn [zadd_added zadd_changes zadd_all fold_left fst snd].
      specialize (IH m1 o1 (zadd_one l (s, k)) (added + (if is_Some_bool (score_of k l) then 0 else 1)) (changed || match score_of k l with Some old => negb (score_eq old s) | None => true end) H1 Hu1 Hall).
      destruct (zadd_loop m1 o1 members _ _) as [[r o'] m'] eqn:El. destruct IH as (I1 & I2 & I3). split; [done|]. split; [by etrans|].
      destruct I3 as [[-> I3]|(-> & l' & I3 & I4)].
      - left. split; [|done]. by rewrite Z.add_assoc, orb_assoc.
      - right. split; [done|]. exists l'. split; [done|]. intros Hl. rewrite (Hz Hl) in El. done. }
    unfold zadd_one in Hgo. cbn [fst snd] in Hgo.
    destruct Hs as [(Hn & _)|(_ & Hs)]; [congruence|].
    destruct Hs as [(-> & (old & Hin & Heq) & H1)|[(-> & (old & Hin & Heq) & H1)|[(-> & Hout & H1)|(-> & Hout & H1)]]];
      cbn [w_status w_added w_changed write_same write_changed write_added write_failed Z.eqb negb].
    + rewrite (score_of_some k l old), Heq in Hgo by done. by apply Hgo.
    + rewrite (score_of_some k l old), Heq in Hgo by done. by apply Hgo.
    + apply score_of_none in Hout. rewrite Hout in Hgo. by apply Hgo.
    + split; [done|]. split; [done|]. right. split; [done|]. by exists l.
Qed.

Lemma zadd_unchanged members l : zadd_changes l members = false -> zadd_all l members = l.
Proof.
  revert l. induction members as [|x members IH]; intros l; [done|]. cbn [zadd_changes zadd_all fold_left].
  intros [Hx Hrest]%orb_false_iff.
  assert (zadd_one l x = l) as E. { unfold zadd_one. destruct (score_of x.2 l); [|done]. apply negb_false_iff in Hx. by rewrite Hx. }
  rewrite E in *. by apply IH.
Qed.

(** The scores: only a failing allocation changes the result. *)
Lemma parse_double_spec m text :
  let '(r, s, m') := parse_double_argument m text in
  m' `suffix_of` m /\ (r = 0 -> isnan s = false) /\
  (r = -2 \/ (r, s) = (parse_double_argument [] text).1).
Proof.
  unfold parse_double_argument. destruct (_ || _); [split_and!; [done|done|by right]|].
  assert (Hs : (if zlen text + 1 >? 128 then malloc m else (true, m)).2 `suffix_of` m) by (destruct (_ >? _); [apply malloc_spends|done]).
  destruct (if zlen text + 1 >? 128 then malloc m else (true, m)) as [[] m1]; cbn [snd negb] in *; [|split_and!; [done|done|by left]].
  assert (Hnil : (if zlen text + 1 >? 128 then malloc [] else (true, [] : mem)) = (true, [] : mem)) by (by destruct (_ >? _)). rewrite Hnil. cbn [negb].
  destruct (strtod _) as [[[value erange] rest]|]; [|split_and!; [done|done|by right]].
  destruct (negb _); [split_and!; [done|done|by right]|]. destruct (erange || isnan value) eqn:En; [split_and!; [done|done|by right]|].
  apply orb_false_iff in En as [_ En]. split_and!; [done|done|by right].
Qed.

Lemma parse_scores_spec pairs m :
  let '(r, scores, m') := parse_scores m pairs in
  m' `suffix_of` m /\ (r = 0 -> length scores = length pairs /\ Forall (fun s => isnan s = false) scores) /\
  (r = -2 \/ (r, scores) = zadd_scores pairs).
Proof.
  unfold zadd_scores. revert m. induction pairs as [|[text member] pairs IH]; intros m; cbn [parse_scores]; [split_and!; [done|done|by right]|].
  pose proof (parse_double_spec m text) as Hp. destruct (parse_double_argument m text) as [[r s] m1]. destruct Hp as (Hm & Hn & Hr).
  destruct (parse_double_argument [] text) as [[r0 s0] m0] eqn:E0. cbn [fst] in Hr.
  assert (m0 = []) as ->. { pose proof (parse_double_spec [] text) as H0'. rewrite E0 in H0'. by apply suffix_nil_inv, H0'. }
  destruct (Z.eqb_spec r 0) as [->|Hne]; cbn [negb].
  - destruct Hr as [|[= <- <-]]; [done|]. cbn [Z.eqb negb]. specialize (IH m1) as IH1.
    destruct (parse_scores m1 pairs) as [[r1 scores1] m2]. destruct (parse_scores [] pairs) as [[r2 scores2] m3].
    destruct IH1 as (I1 & I2 & I3). split_and!; [by etrans| |].
    + intros ->. destruct (I2 eq_refl) as [Hlen Hall]. split; [cbn; by f_equal|]. constructor; [by apply Hn|done].
    + destruct I3 as [->|[= -> ->]]; [by left|by right].
  - split_and!; [tauto|done|]. destruct Hr as [->|[= <- <-]]; [by left|right]. destruct (Z.eqb_spec r 0); [done|]. done.
Qed.

Lemma zip_members {X} (scores : list Z) (names : list X) :
  length scores = length names -> length (zip scores names) = length names.
Proof. intros Hl. rewrite length_zip_with. lia. Qed.

Lemma zadd_serves arguments w :
  good w -> key_ok (arg arguments 1) -> 1 <= zlen arguments <= RESP_MAX_ARGUMENTS ->
  wp (execute_zadd arguments) w (served SERVICE_COMMAND_ZADD arguments w).
Proof.
  intros G Hk Hn. unfold execute_zadd. set (key := arg arguments 1) in *. set (pairs := argument_pairs (drop 2 arguments)).
  set (S := visible (w_now w) (store_of w)).
  assert (Ha : forall a, a = zadd_answer S arguments -> answers (w_now w) S SERVICE_COMMAND_ZADD arguments a) by done.
  unfold zadd_answer in Ha. fold key pairs in Ha. pose proof (parse_scores_spec pairs (w_mem w)) as Hp.
  destruct (zlen pairs >? ZADD_SCORES).
  { apply wp_ret. eapply served_failed; [by refine (Ha _ _)|cbn; tauto|by apply runs_refl]. }
  apply wp_bind. eapply wp_mono; [apply allocating_runs; [done|unfold spends; destruct (parse_scores (w_mem w) pairs) as [[? ?] ?]; tauto]|].
  intros [status scores] w1 (Er & H1 & Hs1). destruct (parse_scores (w_mem w) pairs) as [[r0 sc0] m0]. cbn [fst] in Er. injection Er as -> ->.
  destruct Hp as (_ & Hok & Hsc). destruct (Z.eqb_spec r0 0) as [->|Hne]; cbn [negb]; cycle 1.
  { apply wp_ret. destruct (Z.eqb_spec r0 (-2)) as [->|Hne2]; [eapply served_failed; [by refine (Ha _ _)|cbn; tauto|done]|].
    destruct Hsc as [|Hsc]; [done|]. rewrite <- Hsc in Ha. rewrite (proj2 (Z.eqb_neq r0 0) Hne) in Ha. apply served_same; [by refine (Ha _ _)|done]. }
  destruct (Hok eq_refl) as [Hlen Hnan]. destruct Hsc as [|Hsc]; [done|]. rewrite <- Hsc in Ha. cbn [Z.eqb negb] in Ha. unfold on_zset in Ha.
  set (members := zip sc0 pairs.*2) in *.
  assert (Hmem : Forall (fun x => isnan x.1 = false) members).
  { apply Forall_forall. intros [s k] Hin. apply elem_of_zip_l in Hin. rewrite Forall_forall in Hnan. by apply Hnan. }
  assert (Hzl : zlen members = zlen pairs) by (unfold zlen, members; rewrite zip_members; rewrite ?length_fmap; done).
  apply wp_bind. eapply wp_mono; [apply get_object_wp, H1|]. intros [p original] w2 Hl2. cbn [fst snd] in Hl2.
  assert (Hl : looked w key p original w2).
  { destruct Hl2 as [Hl2 Hl3]. split; [by eapply runs_keep|]. rewrite (ru_now _ _ _ _ _ H1), Hs1 in Hl3. exact Hl3. }
  assert (Hgo : forall l engine, S !! key = None /\ l = [] \/ (exists x, S !! key = Some (AZset l, x)) ->
    (forall o, original = Some o -> shows o (AZset l)) ->
    wp (update arguments (fun m => kv_object_create_zset m engine) (fun m working => zadd_loop m working members 0 false) p original (zlen pairs)) w2
       (served SERVICE_COMMAND_ZADD arguments w)).
  { intros l engine HS Ho. eapply (update_serves SERVICE_COMMAND_ZADD arguments w Hk Hn ltac:(cbn; tauto) eq_refl (zadd_added l members) (zadd_changes l members)
      (EZadd key members) (AZset l) (AZset (zadd_all l members))); try done.
    - refine (Ha _ _). destruct HS as [[-> ->]|[x ->]]; done.
    - intros ks Hks. cbn [apply_effect]. rewrite drop_keys_lookup, decide_False by done. fold S key. unfold deadline_of.
      destruct HS as [[-> ->]|[x ->]]; done.
    - intros m. apply create_zset_spends.
    - intros m o HM Hu. pose proof (zadd_loop_spec members m o l 0 false HM Hu Hmem) as Hs. destruct (zadd_loop m o members 0 false) as [[r o'] m'].
      destruct Hs as (Hs1' & Hs2 & [[-> Hs3]|(-> & l' & Hs3 & Hs4)]); (split; [done|]; split; [done|]).
      + left. done.
      + right. split; [done|]. exists (AZset l'). split; [done|]. intros Hle. rewrite Hs4; [done|lia].
    - intros Hch. by rewrite zadd_unchanged.
    - intros -> m o m' Hc. split; [|by eapply create_zset_usage]. pose proof (create_zset_spec m engine) as Hs. rewrite Hc in Hs.
      destruct (looked_none _ _ _ _ Hl) as [HS' _]. destruct HS as [[_ ->]|[x HS]]; [apply Hs|]. fold S in HS'. congruence. }
  destruct original as [o|].
  - destruct (looked_some _ _ _ _ _ Hl) as (e & v & HS & Hpp & Ho & Hsh & _). fold S in HS. rewrite (type_test _ _ _ Hsh).
    destruct v as [l|M|l]; cbn [type_of_value].
    + rewrite bool_decide_true by done. apply wp_ret, served_same; [|apply Hl]. refine (Ha _ _). by rewrite HS.
    + rewrite bool_decide_true by done. apply wp_ret, served_same; [|apply Hl]. refine (Ha _ _). by rewrite HS.
    + rewrite bool_decide_false by tauto. apply wp_bind, wp_ask. apply (Hgo l); [right; by eexists|]. by intros ? [= <-].
  - destruct (looked_none _ _ _ _ Hl) as [HS _]. apply wp_bind, wp_ask. apply (Hgo []); [by left|done].
Qed.

(** ** Removing *)

Lemma hdel_loop_spec names o M removed :
  is_hash o M -> 0 <= memory_usage o ->
  let '(r, o') := remove_loop kv_object_hash_delete o names removed in
  r = Some (removed + hdel_removed M names) /\ is_hash o' (hdel_all M names) /\ 0 <= memory_usage o'.
Proof.
  revert o M removed. induction names as [|f names IH]; intros o M removed Ho Hu; cbn [remove_loop]; [cbn; by rewrite Z.add_0_r|].
  pose proof (hash_delete_spec o M f Ho) as Hs. pose proof (hash_delete_usage o (Some f) Hu) as Hu1.
  destruct (kv_object_hash_delete o (Some f)) as [r o1]. destruct Hs as [-> H1]. cbn [snd] in Hu1.
  assert (Hr : (if decide (is_Some (M !! f)) then 1 else 0) = (if is_Some_bool (M !! f) then 1 else 0)).
  { destruct (M !! f); [by rewrite decide_True|]. rewrite decide_False; [done|]. by intros [? ?]. }
  rewrite Hr. destruct (Z.ltb_spec (if is_Some_bool (M !! f) then 1 else 0) 0) as [Hlt|_]; [destruct (is_Some_bool _); lia|].
  specialize (IH o1 (delete f M) (removed + (if is_Some_bool (M !! f) then 1 else 0)) H1 Hu1).
  destruct (remove_loop _ o1 names _) as [r' o']. destruct IH as (-> & I2 & I3). cbn [hdel_removed hdel_all fold_left]. by rewrite Z.add_assoc.
Qed.

Lemma zrem_loop_spec names o l removed :
  is_zset o l -> 0 <= memory_usage o ->
  let '(r, o') := remove_loop kv_object_zset_remove o names removed in
  r = Some (removed + zrem_removed l names) /\ is_zset o' (zrem_all l names) /\ 0 <= memory_usage o'.
Proof.
  revert o l removed. induction names as [|k names IH]; intros o l removed Ho Hu; cbn [remove_loop]; [cbn; by rewrite Z.add_0_r|].
  pose proof (zset_remove_spec o l k Ho) as Hs. pose proof (zset_remove_usage o (Some k) Hu) as Hu1.
  destruct (kv_object_zset_remove o (Some k)) as [r o1]. destruct Hs as [-> H1]. cbn [snd] in Hu1.
  assert (Hr : (if decide (k ∈ l.*2) then 1 else 0) = (if is_Some_bool (score_of k l) then 1 else 0)).
  { pose proof (score_of_none k l) as Hsn. destruct (decide (k ∈ l.*2)) as [Hin|Hout].
    - destruct (score_of k l); [done|]. by destruct (proj1 Hsn eq_refl).
    - by rewrite (proj2 Hsn Hout). }
  rewrite Hr. destruct (Z.ltb_spec (if is_Some_bool (score_of k l) then 1 else 0) 0) as [Hlt|_]; [destruct (is_Some_bool _); lia|].
  specialize (IH o1 (elem_remove k l) (removed + (if is_Some_bool (score_of k l) then 1 else 0)) H1 Hu1).
  destruct (remove_loop _ o1 names _) as [r' o']. destruct IH as (-> & I2 & I3). cbn [zrem_removed zrem_all fold_left]. by rewrite Z.add_assoc.
Qed.

Section Removal.
Context (command : service_command) (arguments : list (list Z)) (w : world A).
Let key := arg arguments 1.
Let S := visible (w_now w) (store_of w).
Context (Hn : 1 <= zlen arguments <= RESP_MAX_ARGUMENTS) (Hf : may_fail command ERR_INTERNAL) (Hw : is_write_command command = true).
Context (n length : Z) (e : effect) (v : avalue) (x : Z) (w1 : world A) (e1 : cache_entry).
Context (Ha : answers (w_now w) S command arguments (REPLY_INTEGER n, logged_if (n >? 0) e arguments)).
Context (He : 0 < n -> effect_is (w_now w) S key e (if length =? 0 then None else Some (v, x))).
Context (H1 : runs [] [] (<[key := (v, x)]> S) w w1) (He1 : c_entries (store_of w1) !! key = Some e1) (Hx : expired (w_now w) e1 = false).
Context (Hsame : n <= 0 -> <[key := (v, x)]> S = S).

Lemma place_over ks y : key ∉ ks -> place key y (drop_keys ks (<[key := (v, x)]> S)) = place key y (drop_keys ks S).
Proof.
  intros Hks. apply map_eq. intros i. unfold place. destruct (decide (i = key)) as [->|Hi]; [by rewrite !lookup_partial_alter_eq|].
  rewrite !lookup_partial_alter_ne, !drop_keys_lookup by done. by rewrite lookup_insert_ne.
Qed.

(** The cache was called and the record is appended. *)
Lemma removal_logged w2 c' ks :
  0 < n -> called w1 w2 c' key ks (if length =? 0 then None else Some (v, x)) ->
  wp (r ← append_original_command arguments; mret (if negb (r =? 0) then ERR_AOF else REPLY_INTEGER n)) w2 (served command arguments w).
Proof.
  intros Hpos Hc. destruct Hc as (l & Hrun & Hst & Hkept & Hks). unfold logged_if in Ha. destruct (Z.gtb_spec n 0); [|lia].
  apply wp_bind. eapply wp_mono; [apply append_original_runs; [apply Hrun|done]|]. cbn. intros q w3 Happ. apply wp_ret.
  eapply (served_logged command arguments w w2 w3 c' ks); [exact Ha|exact Hw| | |exact Happ].
  - exists l. split; [|split_and!; [done|done|by eapply evictable_runs]].
    rewrite (ru_now _ _ _ _ _ H1), (ru_visible _ _ _ _ _ H1), place_over in Hrun by done. by eapply runs_silent.
  - symmetry. by apply (He Hpos).
Qed.

Lemma finish_removal_serves : wp (finish_removal arguments (Some key) length n) w1 (served command arguments w).
Proof.
  unfold finish_removal. destruct (decide (0 < n)) as [Hpos|Hle]; cycle 1.
  { assert (Hg : (n >? 0) = false) by (rewrite Z.gtb_ltb; apply Z.ltb_ge; lia). rewrite Hg. apply wp_ret. pose proof Ha as Ha'. unfold logged_if in Ha'.
    rewrite Hg in Ha'. apply served_same; [done|]. pose proof H1 as H1'. rewrite Hsame in H1' by lia. exact H1'. }
  assert (Hg : (n >? 0) = true) by (by apply Z.gtb_lt). rewrite Hg.
  assert (G1 := ru_good _ _ _ _ _ H1). fold key. apply wp_bind. destruct (decide (length = 0)) as [Hz|Hz].
  - rewrite (proj2 (Z.eqb_eq length 0) Hz) at 1. apply wp_bind. pose proof (delete_moved (w_now w1) (store_of w1) key (g_cache _ G1)) as Hd.
    destruct (cache_delete (w_now w1) (store_of w1) (Some key)) as [r c'] eqn:E. destruct Hd as [Hr Hmv].
    eapply wp_mono; [by eapply on_cache_pure_called|]. cbn. intros r' w2 [-> Hc]. apply wp_ret.
    destruct (Z.ltb_spec r 0) as [Hlt|_]; [rewrite Hr in Hlt; destruct (is_Some_bool _); lia|]. cbn [negb].
    eapply removal_logged; [lia|]. rewrite (proj2 (Z.eqb_eq length 0) Hz). exact Hc.
  - rewrite (proj2 (Z.eqb_neq length 0) Hz) at 1. apply wp_bind. assert (HS1 : visible (w_now w1) (store_of w1) = <[key := (v, x)]> S).
    { rewrite (ru_now _ _ _ _ _ H1). apply (ru_visible _ _ _ _ _ H1). }
    pose proof Hx as Hx'. rewrite <- (ru_now _ _ _ _ _ H1) in Hx'. pose proof (recharge_moved (w_now w1) (store_of w1) key e1 (g_cache _ G1) He1 Hx') as Hst.
    destruct (cache_recharge_ref (w_now w1) (store_of w1) (Some key)) as [r c'] eqn:E. destruct Hst as [ks Hst]. rewrite HS1, lookup_insert_eq in Hst.
    destruct Hst as [[-> Hmv]|(-> & -> & Hmv)].
    + eapply wp_mono; [by eapply on_cache_pure_called|]. cbn. intros r' w2 [-> Hc]. apply wp_ret. rewrite bool_decide_true by done. cbn [negb].
      eapply removal_logged; [lia|]. rewrite (proj2 (Z.eqb_neq length 0) Hz). exact Hc.
    + eapply wp_mono; [by eapply on_cache_pure_called|]. cbn. intros r' w2 [-> Hc]. apply wp_ret. rewrite bool_decide_false by done. cbn [negb].
      apply called_none in Hc. rewrite HS1, place_insert, insert_insert_eq in Hc. apply wp_ret. pose proof Ha as Ha'. unfold logged_if in Ha'. rewrite Hg in Ha'.
      exists (REPLY_INTEGER n, [(e, arguments)]). split; [exact Ha'|]. right; left. exists (apply_effects (w_now w) [e] S).
      split; [exact Hf|]. split; [by right|]. rewrite (effect_is_nil _ _ _ _ _ (He Hpos)), (proj2 (Z.eqb_neq length 0) Hz), place_insert. by eapply runs_silent.
Qed.
End Removal.

Lemma hdel_count_nonneg names M : 0 <= hdel_removed M names.
Proof. revert M. induction names as [|f names IH]; intros M; cbn; [lia|]. specialize (IH (delete f M)). destruct (is_Some_bool _); lia. Qed.

Lemma hdel_unchanged names M : hdel_removed M names <= 0 -> hdel_all M names = M.
Proof.
  revert M. induction names as [|f names IH]; intros M; cbn [hdel_removed hdel_all fold_left]; [done|].
  pose proof (hdel_count_nonneg names (delete f M)). destruct (M !! f) eqn:E; cbn [is_Some_bool]; [lia|]. intros Hle.
  rewrite (delete_id M f) in * by done. apply IH. lia.
Qed.

Lemma zrem_count_nonneg names l : 0 <= zrem_removed l names.
Proof. revert l. induction names as [|f names IH]; intros l; cbn; [lia|]. specialize (IH (elem_remove f l)). destruct (is_Some_bool _); lia. Qed.

Lemma zrem_unchanged names l : zrem_removed l names <= 0 -> zrem_all l names = l.
Proof.
  revert l. induction names as [|k names IH]; intros l; cbn [zrem_removed zrem_all fold_left]; [done|].
  pose proof (zrem_count_nonneg names (elem_remove k l)). destruct (score_of k l) eqn:E; cbn [is_Some_bool]; [lia|]. intros Hle.
  apply score_of_none in E. rewrite (elem_remove_id k l) in * by done. apply IH. lia.
Qed.

Lemma hdel_serves arguments w :
  good w -> 1 <= zlen arguments <= RESP_MAX_ARGUMENTS ->
  wp (execute_hdel arguments) w (served SERVICE_COMMAND_HDEL arguments w).
Proof.
  intros G Hn. unfold execute_hdel. set (key := arg arguments 1) in *. set (names := drop 2 arguments).
  set (S := visible (w_now w) (store_of w)).
  assert (Ha : forall a, a = hdel_answer S arguments -> answers (w_now w) S SERVICE_COMMAND_HDEL arguments a) by done.
  unfold hdel_answer in Ha. fold key names in Ha. unfold on_hash in Ha.
  apply wp_bind. eapply wp_mono; [by apply get_hash_wp|]. intros [p original] w1 Hl. cbn [fst snd] in Hl.
  destruct original as [o|]; cycle 1.
  { destruct (looked_none _ _ _ _ Hl) as [HS _]. fold S in HS. apply wp_ret, served_same; [|apply Hl]. refine (Ha _ _). rewrite HS. cbn [default].
    assert (Hz : forall l, hdel_removed ∅ l = 0). { induction l as [|f l IH]; cbn; [done|]. by rewrite delete_empty. }
    by rewrite Hz. }
  destruct (looked_some _ _ _ _ _ Hl) as (e & v & HS & Hp & Ho & Hsh & _ & _ & Hmu). fold S in HS. rewrite (type_test _ _ _ Hsh).
  destruct v as [l|M|l]; cbn [type_of_value].
  1,3: rewrite bool_decide_true by done; apply wp_ret, served_same; [|apply Hl]; refine (Ha _ _); by rewrite HS.
  rewrite bool_decide_false by tauto. pose proof (hdel_loop_spec names o M 0 Hsh Hmu) as Hloop.
  destruct (remove_loop kv_object_hash_delete o names 0) as [r o']. destruct Hloop as (-> & HM' & Hu'). cbn [Z.add].
  apply wp_bind. eapply wp_mono; [apply (in_place_runs w1 key p o o' (AHash (hdel_all M names)) w Hl Hu' HM'); by rewrite !view_type, (shows_view o' (AHash _) HM'), (shows_view _ _ Hsh)|].
  intros _ w2 (e2 & H2 & HS2 & He2 & Hx2 & _). fold S in HS2. rewrite HS in HS2. injection HS2 as _ E2. rewrite Hp. rewrite (hash_length_spec _ _ HM').
  eapply (finish_removal_serves SERVICE_COMMAND_HDEL arguments w Hn ltac:(done) eq_refl _ _ (EHdel key names) (AHash (hdel_all M names)) (e_expire e2)); try done.
  - refine (Ha _ _). by rewrite HS.
  - intros Hpos ks Hks. cbn [apply_effect]. rewrite drop_keys_lookup, decide_False by done. fold S key. rewrite HS, E2. unfold put_hash.
    destruct (Z.eqb_spec (hdel_removed M names) 0); [lia|].
    destruct (decide (hdel_all M names = ∅)) as [E0|E0].
    + rewrite E0, map_size_empty. done.
    + destruct (Z.eqb_spec (Z.of_nat (size (hdel_all M names))) 0) as [Ez|]; [|done]. destruct E0. apply map_size_empty_inv. lia.
  - intros Hle. apply insert_id. rewrite hdel_unchanged by done. fold S key. by rewrite <- E2.
Qed.

Lemma zrem_serves arguments w :
  good w -> 1 <= zlen arguments <= RESP_MAX_ARGUMENTS ->
  wp (execute_zrem arguments) w (served SERVICE_COMMAND_ZREM arguments w).
Proof.
  intros G Hn. unfold execute_zrem. set (key := arg arguments 1) in *. set (names := drop 2 arguments).
  set (S := visible (w_now w) (store_of w)).
  assert (Ha : forall a, a = zrem_answer S arguments -> answers (w_now w) S SERVICE_COMMAND_ZREM arguments a) by done.
  unfold zrem_answer in Ha. fold key names in Ha. unfold on_zset in Ha.
  apply wp_bind. eapply wp_mono; [by apply get_object_wp|]. intros [p original] w1 Hl. cbn [fst snd] in Hl.
  destruct original as [o|]; cycle 1.
  { destruct (looked_none _ _ _ _ Hl) as [HS _]. fold S in HS. apply wp_ret, served_same; [|apply Hl]. refine (Ha _ _). rewrite HS. cbn [default].
    assert (Hz : forall l, zrem_removed [] l = 0) by (induction l as [|f l IH]; cbn; done). by rewrite Hz. }
  destruct (looked_some _ _ _ _ _ Hl) as (e & v & HS & Hp & Ho & Hsh & _ & _ & Hmu). fold S in HS. rewrite (type_test _ _ _ Hsh).
  destruct v as [l|M|l]; cbn [type_of_value].
  1,2: rewrite bool_decide_true by done; apply wp_ret, served_same; [|apply Hl]; refine (Ha _ _); by rewrite HS.
  rewrite bool_decide_false by tauto. pose proof (zrem_loop_spec names o l 0 Hsh Hmu) as Hloop.
  destruct (remove_loop kv_object_zset_remove o names 0) as [r o']. destruct Hloop as (-> & HM' & Hu'). cbn [Z.add].
  apply wp_bind. eapply wp_mono; [apply (in_place_runs w1 key p o o' (AZset (zrem_all l names)) w Hl Hu' HM'); by rewrite !view_type, (shows_view o' (AZset _) HM'), (shows_view _ _ Hsh)|].
  intros _ w2 (e2 & H2 & HS2 & He2 & Hx2 & _). fold S in HS2. rewrite HS in HS2. injection HS2 as _ E2. rewrite Hp. rewrite (zset_length_spec _ _ HM').
  eapply (finish_removal_serves SERVICE_COMMAND_ZREM arguments w Hn ltac:(done) eq_refl _ _ (EZrem key names) (AZset (zrem_all l names)) (e_expire e2)); try done.
  - refine (Ha _ _). by rewrite HS.
  - intros Hpos ks Hks. cbn [apply_effect]. rewrite drop_keys_lookup, decide_False by done. fold S key. rewrite HS, E2. unfold put_zset.
    destruct (Z.eqb_spec (zrem_removed l names) 0); [lia|].
    destruct (decide (zrem_all l names = [])) as [E0|E0]; [by rewrite E0|].
    destruct (Z.eqb_spec (zlen (zrem_all l names)) 0) as [Ez|]; [|done]. destruct E0. destruct (zrem_all l names) as [|? t]; [done|].
    rewrite zlen_cons in Ez. pose proof (zlen_nonneg t). lia.
  - intros Hle. apply insert_id. rewrite zrem_unchanged by done. fold S key. by rewrite <- E2.
Qed.

(** ** Reading sorted sets *)

Lemma zset_read command arguments w (key := arg arguments 1) (k : option (list Z) * option kv_object -> cmd A kvstore_reply) f :
  good w ->
  (forall a, a = on_zset (visible (w_now w) (store_of w)) key f ->
     answers (w_now w) (visible (w_now w) (store_of w)) command arguments a) ->
  (forall w1 p, looked w key p None w1 ->
     answers (w_now w) (visible (w_now w) (store_of w)) command arguments (f None) ->
     wp (k (p, None)) w1 (served command arguments w)) ->
  (forall w1 p o l, looked w key p (Some o) w1 -> is_zset o l ->
     answers (w_now w) (visible (w_now w) (store_of w)) command arguments (f (Some l)) ->
     wp (k (p, Some o)) w1 (served command arguments w)) ->
  (forall w1 p o, bool_decide (kv_object_get_type o <> KV_OBJECT_ZSET) = true ->
     k (p, Some o) w1 = (ERR_WRONGTYPE, w1)) ->
  wp (x ← get_object key true; k x) w (served command arguments w).
Proof.
  intros G Ha Hnone Hsome Hwrong. apply wp_bind. eapply wp_mono; [by apply get_object_wp|]. intros [p o] w1 Hl. cbn [fst snd] in Hl.
  unfold on_zset in Ha. destruct o as [o|].
  - destruct (looked_some _ _ _ _ _ Hl) as (e & v & HS & Hp & Ho & Hsh & _). rewrite HS in Ha.
    destruct (bool_decide (kv_object_get_type o <> KV_OBJECT_ZSET)) eqn:Ety.
    + unfold wp. rewrite (Hwrong w1 p o Ety). cbn. rewrite (type_test _ _ _ Hsh) in Ety.
      apply served_same; [|apply Hl]. apply Ha. by destruct v.
    + rewrite (type_test _ _ _ Hsh) in Ety. destruct v as [l|M|l]; [done|done|]. by apply (Hsome w1 p o l); [| |apply Ha].
  - destruct (looked_none _ _ _ _ Hl) as [HS _]. rewrite HS in Ha. apply Hnone; [done|]. by apply Ha.
Qed.

Lemma zcard_serves arguments w :
  good w -> wp (execute_zcard (arg arguments 1)) w (served SERVICE_COMMAND_ZCARD arguments w).
Proof.
  intros G. unfold execute_zcard. eapply zset_read; [done|intros a ->; reflexivity| | |].
  - intros w1 p Hl Ha. apply wp_ret, served_same; [done|apply Hl].
  - intros w1 p o l Hl HM Ha. pose proof (type_test o (AZset l) KV_OBJECT_ZSET HM) as Hty. rewrite Hty. cbn [type_of_value].
    rewrite bool_decide_false by tauto. apply wp_ret, served_same; [|apply Hl]. by rewrite (zset_length_spec o l HM).
  - intros w1 p o Ety. by rewrite Ety.
Qed.

Lemma zscore_serves arguments w :
  good w -> wp (execute_zscore (arg arguments 1) (arg arguments 2)) w (served SERVICE_COMMAND_ZSCORE arguments w).
Proof.
  intros G. unfold execute_zscore. eapply zset_read; [done|intros a ->; reflexivity| | |].
  - intros w1 p Hl Ha. apply wp_ret, served_same; [done|apply Hl].
  - intros w1 p o l Hl HM Ha. pose proof (type_test o (AZset l) KV_OBJECT_ZSET HM) as Hty. rewrite Hty. cbn [type_of_value].
    rewrite bool_decide_false by tauto. pose proof (zset_score_spec o l (arg arguments 2) HM) as Hg. pose proof (zset_score_usage o (Some (arg arguments 2))) as Hu.
    destruct (looked_some _ _ _ _ _ Hl) as (e & v & HS & Hp & Ho & Hsh & _ & _ & Hmu). pose proof (zset_nodup _ _ HM) as Hnd.
    destruct (kv_object_zset_score o (Some (arg arguments 2))) as [[found score] o'] eqn:Eg. destruct Hg as [HM' Hg]. cbn [snd] in Hu.
    apply wp_bind. eapply wp_mono; [apply (in_place_runs w1 (arg arguments 1) p o o' (AZset l) w Hl)|].
    + lia.
    + exact HM'.
    + rewrite !view_type. rewrite (shows_view o (AZset l) HM), (shows_view o' (AZset l) HM'). done.
    + intros _ w2 (e2 & Hr & HS2 & _). rewrite (shows_view o (AZset l) HM) in HS2. rewrite insert_id in Hr by done.
      cbn [mbind option_bind] in Ha. destruct Hg as [(-> & s & -> & Hin)|(-> & -> & Hout)]; cbn [Z.ltb Z.eqb Z.compare].
      -- rewrite (score_of_some _ _ s) in Ha by done. apply wp_bind. eapply wp_mono; [apply reserve_score_runs, Hr|]. intros rs w3 H3.
        eapply runs_keep in H3; [|exact Hr]. destruct (negb _).
        { apply wp_ret. eapply served_failed; [exact Ha|done|done]. }
        change (default 0 (Some s)) with s. unfold score_text in Ha. destruct (format_score 32 s) as [text written]. cbn [fst] in Ha.
        apply wp_ret. destruct ((written <? 0) || (written >=? 32)).
        * eapply served_failed; [exact Ha|done|done].
        * apply served_same; [exact Ha|done].
      -- apply score_of_none in Hout. rewrite Hout in Ha. apply wp_ret. by apply served_same.
  - intros w1 p o Ety. by rewrite Ety.
Qed.

Lemma count_visit l n : visit count_zset_member n l = (0, n + zlen l).
Proof.
  revert n. induction l as [|x l IH]; intros n; cbn [visit count_zset_member]; [f_equal; unfold zlen; cbn; lia|].
  cbn [Z.eqb negb]. rewrite IH. f_equal. unfold zlen. cbn. lia.
Qed.

Lemma collect_range_elements ws l ctx :
  (visit (collect_zset_member ws) ctx l).1 = 0 ->
  za_elements (visit (collect_zset_member ws) ctx l).2 = za_elements ctx ++ range_elements ws l.
Proof.
  unfold range_elements. revert ctx. induction l as [|x l IH]; intros ctx; cbn [visit fmap list_fmap concat]; [intros _; by rewrite app_nil_r|].
  unfold collect_zset_member at 1 3. destruct (_ || _); cbn [Z.eqb negb]; [done|]. destruct ws; cbn [negb].
  - unfold score_text. destruct (format_score 32 x.1) as [text written] eqn:Ef. cbn [fst]. destruct (_ || _); cbn [Z.eqb negb]; [done|].
    destruct (_ || _); cbn [Z.eqb negb]; [done|]. intros Hr. rewrite IH by done. cbn [za_elements]. by rewrite <- !app_assoc.
  - cbn [Z.eqb negb]. intros Hr. rewrite IH by done. cbn [za_elements]. by rewrite <- app_assoc.
Qed.

Lemma zrange_serves arguments w :
  good w -> wp (execute_zrange arguments) w (served SERVICE_COMMAND_ZRANGE arguments w).
Proof.
  intros G. unfold execute_zrange. set (ws := zlen arguments =? 5). set (S := visible (w_now w) (store_of w)).
  assert (Ha : forall a, a = zrange_answer S arguments -> answers (w_now w) S SERVICE_COMMAND_ZRANGE arguments a) by done.
  unfold zrange_answer in Ha. fold ws in Ha. destruct (parse_int64 (arg arguments 2)) as [start|].
  2:{ apply wp_ret, served_same; [by refine (Ha _ _)|by apply runs_refl]. }
  destruct (parse_int64 (arg arguments 3)) as [stop|].
  2:{ apply wp_ret, served_same; [by refine (Ha _ _)|by apply runs_refl]. }
  destruct (_ && _).
  { apply wp_ret, served_same; [by refine (Ha _ _)|by apply runs_refl]. }
  eapply zset_read; [done|exact Ha| | |].
  - intros w1 p Hl Hans. apply wp_ret, served_same; [|apply Hl]. cbn [default] in Hans. unfold range_of in Hans. rewrite drop_nil, take_nil in Hans. exact Hans.
  - intros w1 p o l Hl HM Hans. pose proof (type_test o (AZset l) KV_OBJECT_ZSET HM) as Hty. rewrite Hty. cbn [type_of_value].
    rewrite bool_decide_false by tauto. cbn [default] in Hans. unfold collect_range. rewrite (zset_range_spec o l) by done. rewrite count_visit.
    cbn [Z.eqb negb Z.add]. set (elements := range_of l start stop) in *.
    assert (Hfail : forall b w', runs [] [] S w w' -> served SERVICE_COMMAND_ZRANGE arguments w (size_error b) w').
    { intros b w' Hr. eapply served_failed; [exact Hans|apply size_error_fails; tauto|done]. }
    destruct (_ >? _); [apply wp_ret, (Hfail true), Hl|].
    apply wp_bind. eapply wp_mono; [apply reserve_elements_runs, Hl|]. intros n w2 H2. eapply runs_keep in H2; [|apply Hl].
    apply wp_bind. apply (wp_mono _ _ (fun _ w' => runs [] [] S w w')).
    { destruct (_ && _); [|by apply wp_ret]. eapply wp_mono; [apply reserve_score_runs, H2|]. intros n3 w3 H3. by eapply runs_keep. }
    intros n3 w3 H3. destruct (negb _); [by apply wp_ret, Hfail|]. rewrite (zset_range_spec o l) by done. fold elements.
    set (ctx := mk_zrange_array _ _ _). pose proof (collect_range_elements ws elements ctx) as Hv.
    destruct (visit (collect_zset_member ws) ctx elements) as [r ctx']. cbn [fst snd] in Hv. apply wp_ret.
    destruct (Z.eqb_spec r 0) as [->|]; cbn [negb]; [rewrite Hv by done; by apply served_same|by apply Hfail].
  - intros w1 p o Ety. by rewrite Ety.
Qed.

(** ** Every command *)

Lemma visible_size t c : (size (visible t c) <= size (c_entries c))%nat.
Proof.
  rewrite <- !size_dom. apply subseteq_size. intros k. rewrite !elem_of_dom, visible_lookup. intros [x Hx].
  destruct (live_entry _ _ _) as [e|] eqn:E; [|done]. apply live_some in E. by exists e.
Qed.

Lemma dbsize_serves arguments w : good w -> wp execute_dbsize w (served SERVICE_COMMAND_DBSIZE arguments w).
Proof.
  intros G. unfold execute_dbsize. apply wp_bind, wp_ask, wp_ret. apply served_same; [|by apply runs_refl].
  eexists. split; [reflexivity|]. destruct (cg_ok _ (g_cache _ G)) as [L HL]. unfold cache_get_stats. cbn [st_keys].
  rewrite (index_count _ _ (cc_index _ _ (proj1 HL))). pose proof (visible_size (w_now w) (store_of w)). lia.
Qed.

Lemma dispatch_serves admin command arguments w :
  good w -> data_command command = true -> key_ok (arg arguments 1) -> 1 <= zlen arguments <= RESP_MAX_ARGUMENTS ->
  wp (dispatch admin command arguments) w (served command arguments w).
Proof.
  intros G Hd Hk Hn. destruct command; try done; unfold dispatch.
  - by apply set_serves.
  - by apply get_serves.
  - by apply delete_serves.
  - unfold execute_ping. apply wp_ret. apply served_same; [done|by apply runs_refl].
  - apply expire_serves; [done|tauto|tauto|by intros a ->].
  - apply expire_serves; [done|tauto|tauto|by intros a ->].
  - apply ttl_serves; [done|by intros a ->].
  - apply ttl_serves; [done|by intros a ->].
  - by apply persist_serves.
  - by apply dbsize_serves.
  - by apply hset_serves.
  - by apply hget_serves.
  - by apply hdel_serves.
  - by apply hlen_serves.
  - by apply hgetall_serves.
  - by apply zadd_serves.
  - by apply zrem_serves.
  - by apply zscore_serves.
  - by apply zcard_serves.
  - by apply zrange_serves.
  - apply wp_ret. apply served_same; [done|by apply runs_refl].
Qed.
End Commands.
