(* ===== verification/ServiceProps.v ===== *)
(** The service as a whole: a request with its transaction of the log, the
    invariant of the service, and what a run of requests leaves in the store
    and in the log. *)

From S2P Require Import Prelude Resp HashTable ZOrder Object ExpireHeap LruList Cache Allocation CacheSpec CacheProps.
From S2P Require Import CacheEvents Rdb RdbImage Aof AofCodec AofLog AofProps Double CommandText MysqlStore.
From S2P Require Import Service ServiceStore ServiceSpec ServiceRuns ServiceCommands.

(** ** Records fit the log *)

(** A request that the protocol lets through. *)
Definition request_ok (arguments : list (list Z)) : Prop :=
  1 <= zlen arguments <= RESP_MAX_ARGUMENTS /\ zlen (request_frame arguments) <= RESP_MAX_FRAME_SIZE.

Lemma request_command arguments : request_ok arguments -> command_ok arguments.
Proof. intros [H1 H2]. split; [done|]. unfold AOF_MAX_RECORD_SIZE. lia. Qed.

Lemma zlen_decimal v : zlen (decimal v) <= 20.
Proof.
  unfold decimal, zlen. rewrite length_rev. assert (Hd : forall fuel x, (length (digits_rev fuel x) <= fuel)%nat).
  { induction fuel as [|fuel IH]; intros x; cbn [digits_rev length]; [lia|]. specialize (IH (x / 10)). destruct (_ =? 0); cbn [length]; lia. }
  specialize (Hd 20%nat v). lia.
Qed.

Lemma bulk_frame_bound a : zlen a <= zlen (bulk_frame a) <= zlen a + 25.
Proof. rewrite zlen_bulk_frame. pose proof (zlen_decimal (zlen a)). pose proof (zlen_nonneg (decimal (zlen a))). lia. Qed.

Definition total_length (arguments : list (list Z)) : Z := fold_right (fun a n => zlen a + n) 0 arguments.

Lemma request_frame_bound arguments :
  total_length arguments <= zlen (request_frame arguments) <= total_length arguments + 25 * zlen arguments + 23.
Proof.
  assert (Hc : total_length arguments <= zlen (concat (map bulk_frame arguments)) <= total_length arguments + 25 * zlen arguments).
  { induction arguments as [|a arguments IH]; [done|]. cbn [map concat total_length fold_right]. rewrite zlen_app, zlen_cons.
    pose proof (bulk_frame_bound a). unfold total_length in IH. lia. }
  rewrite zlen_request_frame. pose proof (zlen_decimal (zlen arguments)). pose proof (zlen_nonneg (decimal (zlen arguments))). lia.
Qed.

Lemma arg_length arguments i : request_ok arguments -> zlen (arg arguments i) <= RESP_MAX_FRAME_SIZE.
Proof.
  intros [_ Hf]. pose proof (request_frame_bound arguments) as Hb. assert (Hi : zlen (arg arguments i) <= total_length arguments); [|lia].
  clear. unfold arg. revert i. induction arguments as [|a arguments IH]; intros i; cbn [total_length fold_right].
  { destruct i; done. }
  assert (Hn : 0 <= total_length arguments). { clear. induction arguments as [|b l IH]; cbn [total_length fold_right]; [lia|]. pose proof (zlen_nonneg b). unfold total_length in IH. lia. }
  destruct i as [|i]; cbn [nth]; [unfold total_length in Hn; lia|]. specialize (IH i). pose proof (zlen_nonneg a). unfold total_length in IH. lia.
Qed.

Lemma request_key arguments : request_ok arguments -> key_ok (arg arguments 1).
Proof. apply arg_length. Qed.

Lemma short_record arguments :
  1 <= zlen arguments <= 5 -> total_length arguments <= RESP_MAX_FRAME_SIZE + 50 -> command_ok arguments.
Proof.
  intros Hn Ht. pose proof (request_frame_bound arguments). split; [unfold RESP_MAX_ARGUMENTS; lia|]. unfold AOF_MAX_RECORD_SIZE. lia.
Qed.

Lemma del_records_ok ks : Forall key_ok ks -> Forall command_ok (del_record <$> ks).
Proof.
  intros Hk. apply Forall_fmap. eapply Forall_impl; [exact Hk|]. intros k Hl. apply short_record; [done|].
  unfold key_ok in Hl. unfold total_length, del_record. cbn [fold_right]. change (zlen (lit "DEL")) with 3. lia.
Qed.

Lemma total_nonneg_length l : 0 <= total_length l.
Proof. induction l as [|b l IH]; cbn [total_length fold_right]; [lia|]. pose proof (zlen_nonneg b). unfold total_length in IH. lia. Qed.

Lemma set_record_ok arguments deadline : request_ok arguments -> 3 <= zlen arguments -> command_ok (set_record arguments deadline).
Proof.
  intros [Hn Hf] H3. pose proof (request_frame_bound arguments) as Hb. destruct arguments as [|a0 [|a1 [|a2 rest]]]; try (unfold zlen in H3; cbn [length] in H3; lia).
  unfold set_record, arg. cbn [nth]. cbn [total_length fold_right] in Hb. pose proof (total_nonneg_length rest) as Hr. unfold total_length in Hr. pose proof (zlen_nonneg a0).
  pose proof (zlen_decimal deadline). destruct (deadline =? 0); (apply short_record; [done|]); unfold total_length; cbn [app fold_right];
    change (zlen (lit "SET")) with 3; change (zlen (lit "PXAT")) with 4; lia.
Qed.

Lemma answer_records_ok t S command arguments a :
  request_ok arguments -> command_arity_valid command (zlen arguments) = true -> answers t S command arguments a ->
  Forall command_ok a.2.*2.
Proof.
  intros Hok Har Ha. pose proof (request_command arguments Hok) as Hc. pose proof (arg_length arguments 1 Hok) as Hk.
  assert (Hone : forall n key e (r : AofLog.command), command_ok r -> Forall command_ok (answer_key S key n e r).2.*2).
  { intros n key e r Hr. unfold answer_key. cbn [snd]. destruct (n =? 0); [constructor|]. by constructor; [|constructor]. }
  assert (Hif : forall b e, Forall command_ok (logged_if b e arguments).*2) by (intros [] e; cbn; [by constructor; [|constructor]|constructor]).
  assert (Hdel : command_ok [lit "DEL"; arg arguments 1]).
  { apply short_record; [done|]. unfold total_length. cbn [fold_right]. change (zlen (lit "DEL")) with 3. lia. }
  assert (Hexp : forall mul, Forall command_ok (expire_answer t S arguments mul).2.*2).
  { intros mul. unfold expire_answer. destruct (duration_ms _ _ _) as [[st parsed] ttl]. destruct (negb _); [constructor|].
    destruct (_ <=? _); [by apply Hone|]. destruct (_ >? _); [constructor|]. apply Hone. apply short_record; [done|].
    unfold total_length. cbn [fold_right]. change (zlen (lit "PEXPIREAT")) with 9. pose proof (zlen_decimal (t + ttl)). lia. }
  assert (Hset : command = SERVICE_COMMAND_SET -> Forall command_ok (set_answer t arguments).2.*2).
  { intros ->. unfold set_answer. destruct (set_option arguments) as [|ttl]; [constructor|]. destruct (_ && _); [constructor|]. cbn [snd].
    constructor; [|constructor]. cbn [snd]. apply set_record_ok; [done|]. cbn in Har. apply orb_true_iff in Har as [?|?]; zb; lia. }
  assert (Hper : command_ok [lit "PERSIST"; arg arguments 1]).
  { apply short_record; [done|]. unfold total_length. cbn [fold_right]. change (zlen (lit "PERSIST")) with 7. lia. }
  destruct command; cbn [answers] in Ha; try contradiction; try (rewrite Ha);
    first [by apply Hset | by apply Hexp | by apply Hone | constructor | idtac].
  - destruct Ha as (n & -> & _). constructor.
  - unfold hset_answer, on_hash. destruct (S !! _) as [[[]]|]; [constructor|apply Hif|constructor|apply Hif].
  - unfold hget_answer, on_hash. destruct (S !! _) as [[[]]|]; constructor.
  - unfold hdel_answer, on_hash. destruct (S !! _) as [[[]]|]; [constructor|apply Hif|constructor|apply Hif].
  - unfold hlen_answer, on_hash. destruct (S !! _) as [[[]]|]; constructor.
  - destruct Ha as (fields & -> & _). unfold on_hash. destruct (S !! _) as [[[]]|]; constructor.
  - unfold zadd_answer, on_zset. destruct (zadd_scores _) as [st sc]. destruct (negb _); [constructor|]. destruct (S !! _) as [[[]]|]; [constructor|constructor|apply Hif|apply Hif].
  - unfold zrem_answer, on_zset. destruct (S !! _) as [[[]]|]; [constructor|constructor|apply Hif|apply Hif].
  - unfold zscore_answer, on_zset. destruct (S !! _) as [[[]]|]; constructor.
  - unfold zcard_answer, on_zset. destruct (S !! _) as [[[]]|]; constructor.
  - unfold zrange_answer, on_zset. destruct (parse_int64 _); [|constructor]. destruct (parse_int64 _); [|constructor]. destruct (_ && _); [constructor|].
    destruct (S !! _) as [[[]]|]; constructor.
Qed.

(** ** Requests *)

Section Requests.
Context {A : Type} `{LogLaws A} (admin : persistence_admin (A := A)).

(** The record that tells which mutation of the database a transaction was. *)
Definition mysql_marker (uuid : list Z) (sequence : Z) : AofLog.command :=
  [lit "PING"; lit "KVMYSQL1:" ++ checkpoint_token_text uuid ++ lit ":" ++ decimal sequence].

(** The marker was written to a buffer of 64 bytes. *)
Definition marked (M : list AofLog.command) : Prop :=
  exists uuid q, M = [mysql_marker uuid q] /\ zlen (arg (mysql_marker uuid q) 1) < 64.

Definition log_idle (w : world A) (d : transactions) : Prop :=
  match sv_aof (w_service w) with Some a => log_repr a None d | None => True end.

(** The log has the transactions [d] and then one with the number [barrier] and
    the records [rs], unless its sequence numbers ran out. *)
Definition log_has (w : world A) (d : transactions) (barrier : Z) (rs : list AofLog.command) : Prop :=
  (rs = [] -> barrier = 0) /\
  match sv_aof (w_service w) with Some a => log_repr a None (add_transaction d barrier rs) \/ log_exhausted a | None => True end.

Definition log_failed (w : world A) : bool :=
  match sv_aof (w_service w) with Some a => log_is_failed a | None => false end.

(** Two states that differ in neither the store nor the log. *)
Record same_data (w w' : world A) : Prop := {
  sd_store : store_of w' = store_of w;
  sd_aof : sv_aof (w_service w') = sv_aof (w_service w);
  sd_mem : w_mem w' = w_mem w;
  sd_now : w_now w' = w_now w;
  sd_ticks : w_ticks w' = w_ticks w;
  sd_init : sv_initialized (w_service w') = sv_initialized (w_service w)
}.

Lemma same_data_refl w : same_data w w.
Proof. by split. Qed.

Lemma same_data_trans w w1 w2 : same_data w w1 -> same_data w1 w2 -> same_data w w2.
Proof. intros [] []. split; congruence. Qed.

Lemma same_data_good w w' : same_data w w' -> good w -> good w'.
Proof. intros [E1 E2 E3 E4 E5 _] [G1 G2 G3]. split; congruence. Qed.

Lemma modify_same f w :
  sv_cache (f (w_service w)) = store_of w -> sv_aof (f (w_service w)) = sv_aof (w_service w) ->
  sv_initialized (f (w_service w)) = sv_initialized (w_service w) ->
  wp (modify f) w (fun _ w' => same_data w w').
Proof. intros Hc Ha Hi. by split. Qed.

Lemma admit_same arguments w :
  wp (admit_mysql arguments) w (fun r w' => same_data w w' /\ (forall e, r = inl e -> e ∈ [ERR_AOF; ERR_MYSQL_QUEUE; ERR_INTERNAL])).
Proof.
  unfold admit_mysql. apply wp_bind, wp_ask. destruct (sv_mysql _) as [store|]; [|apply wp_ret; split; [apply same_data_refl|done]].
  destruct (negb _); [apply wp_ret; split; [apply same_data_refl|]; intros e [= <-]; set_solver|].
  destruct (_ || _); [apply wp_ret; split; [apply same_data_refl|]; intros e [= <-]; set_solver|].
  apply wp_bind. eapply wp_mono; [by apply modify_same|]. cbn beta. intros _ w1 H1. apply wp_ret. split; [done|]. destruct (_ =? 0); [|done].
  intros e [= <-]. set_solver.
Qed.

(** *** The end of a write *)

Lemma submit_mutation_spends m s sequence arguments bytes : spends m (mysql_store_submit_mutation m s sequence arguments bytes).
Proof.
  unfold mysql_store_submit_mutation. destruct (_ || _); [apply spends_keep|]. destruct (payload_bytes arguments); [|apply spends_keep]. spend.
Qed.

Definition finished (mysql_write : bool) (reply : kvstore_reply) (d : transactions) (txn : list AofLog.command) (w : world A) (r : kvstore_reply) (barrier : Z) (w' : world A) : Prop :=
  good w' /\ store_of w' = store_of w /\ w_mem w' `suffix_of` w_mem w /\ w_now w' = w_now w /\ sv_initialized (w_service w') = sv_initialized (w_service w) /\
  ((exists M, (log_failed w = true -> log_failed w' = true) /\ (r = reply \/ mysql_write = true /\ r = ERR_MYSQL_QUEUE) /\
      (M = [] \/ mysql_write = true /\ marked M) /\ log_has w' d barrier (txn ++ M)) \/
   r = ERR_AOF).

Lemma commit_wp w a txn d :
  good w -> sv_aof (w_service w) = Some a -> log_repr a (Some txn) d ->
  wp commit_transaction w (fun rb w' => exists a', w' = mk_world (w_mem w') (w_now w) (w_ticks w) (put_aof (Some a') (w_service w)) /\ w_mem w' `suffix_of` w_mem w /\
    (log_is_failed a = true -> log_is_failed a' = true) /\
    (rb.1 = 0 -> (txn = [] -> rb.2 = 0) /\ (log_repr a' None (add_transaction d rb.2 txn) \/ log_exhausted a'))).
Proof.
  intros G Ha Hr. unfold wp, commit_transaction. rewrite Ha. pose proof (law_commit (w_mem w) a txn d Hr) as Hc. pose proof (law_commit_any (w_mem w) a) as Hany.
  destruct (log_commit (w_mem w) a) as [[[r q] a'] m']. cbn. destruct Hany as [Hm Hany]. exists a'. split; [done|]. split; [done|]. split; [done|].
  intros ->. destruct Hc as [(_ & Hq & [?|[_ ?]])|[? _]]; [|by auto|done]. split; [done|by left].
Qed.

Lemma finish_write_spec mysql_write bytes reply w a txn d :
  good w -> sv_aof (w_service w) = Some a -> log_repr a (Some txn) d ->
  wp (finish_write mysql_write bytes reply) w (fun rb w' => finished mysql_write reply d txn w rb.1 rb.2 w').
Proof.
  intros G Ha Hr. unfold finish_write. apply wp_bind, wp_ask. set (mutated := mysql_write && _).
  assert (Hmut : mutated = true -> mysql_write = true) by (unfold mutated; by destruct mysql_write).
  (* the rest, once the marker [M] is in the transaction *)
  assert (Hrest : forall w1 a1 M, good w1 -> store_of w1 = store_of w -> w_mem w1 `suffix_of` w_mem w -> w_now w1 = w_now w ->
    sv_initialized (w_service w1) = sv_initialized (w_service w) -> sv_aof (w_service w1) = Some a1 ->
    log_repr a1 (Some (txn ++ M)) d -> (log_is_failed a = true -> log_is_failed a1 = true) ->
    (M = [] \/ mysql_write = true /\ marked M) ->
    wp ('(committed, barrier) ← commit_transaction;
        if negb (committed =? 0) then rollback_transaction ;; mret (ERR_AOF, 0) else
        if mutated then
          modify (fun s => put_sequences (sv_candidate s) (sv_candidate s) s) ;;
          submitted ← submit_mutation bytes;
          mret (if negb (submitted =? 0) then ERR_MYSQL_QUEUE else reply, barrier)
        else mret (reply, barrier)) w1 (fun rb w' => finished mysql_write reply d txn w rb.1 rb.2 w')).
  { intros w1 a1 M G1 Hs1 Hm1 Hn1 Hi1 Ha1 Hr1 Hf1 HM. apply wp_bind. eapply wp_mono; [by eapply commit_wp|]. cbn beta.
    intros [committed barrier] w2 (a2 & E2 & Hm2 & Hf2 & Hlog). assert (Hmem : w_mem w2 `suffix_of` w_mem w) by (by etrans). clear Hm1 Hm2. destruct G1 as [C1 C2 C3].
    assert (G2 : good w2) by (rewrite E2; by split). assert (Hs2 : store_of w2 = store_of w) by (rewrite E2; done).
    assert (Ha2 : sv_aof (w_service w2) = Some a2) by (rewrite E2; done). assert (Hn2 : w_now w2 = w_now w) by (rewrite E2; done).
    assert (Hi2 : sv_initialized (w_service w2) = sv_initialized (w_service w)) by (rewrite E2; done). clear E2.
    destruct (Z.eqb_spec committed 0) as [->|]; cbn [negb]; cycle 1.
    { apply wp_bind. unfold wp, rollback_transaction, modify. cbn. split; [by destruct G2|]. split_and!; [done|done|done|done|by right]. }
    specialize (Hlog eq_refl). cbn [fst snd] in Hlog.
    assert (Hend : forall w3, same_data w2 w3 -> forall r, r = reply \/ mysql_write = true /\ r = ERR_MYSQL_QUEUE -> finished mysql_write reply d txn w r barrier w3).
    { intros w3 H3 r Hrr. split; [by eapply same_data_good|]. destruct H3 as [E1 E2 E3 E4 E5 E6]. split_and!; [congruence|by rewrite E3|congruence|congruence|].
      left. exists M. split_and!; [|done|done|].
      - unfold log_failed. rewrite Ha, E2, Ha2. tauto.
      - unfold log_has. by rewrite E2, Ha2. }
    destruct mutated.
    - apply wp_bind. eapply wp_mono; [by apply modify_same|]. cbn beta. intros _ w3 H3. apply wp_bind.
      assert (Hsub : wp (submit_mutation bytes) w3 (fun _ w' => sv_aof (w_service w') = sv_aof (w_service w3) /\ store_of w' = store_of w3 /\ w_mem w' `suffix_of` w_mem w3 /\
        w_now w' = w_now w3 /\ w_ticks w' = w_ticks w3 /\ sv_initialized (w_service w') = sv_initialized (w_service w3))).
      { unfold wp, submit_mutation. destruct (sv_mysql _) as [store|]; [|done].
        pose proof (submit_mutation_spends (w_mem w3) store (sv_candidate (w_service w3)) (sv_mutation (w_service w3)) bytes) as Hsp.
        by destruct (mysql_store_submit_mutation _ _ _ _ _) as [[? ?] ?]. }
      eapply wp_mono; [exact Hsub|]. cbn beta. intros sb w4 (F1 & F2 & F0 & F3 & F4 & F5). apply wp_ret. cbn [fst].
      destruct H3 as [E1 E2 E3 E4 E5 E6]. destruct G2 as [D1 D2 D3]. split; [split; congruence|]. split_and!; [congruence|etrans; [exact F0|by rewrite E3]|congruence|congruence|].
      left. exists M. split_and!; [|destruct (negb _); auto|done|].
      + unfold log_failed. rewrite Ha, F1, E2, Ha2. tauto.
      + unfold log_has. by rewrite F1, E2, Ha2.
    - apply wp_ret. apply Hend; [apply same_data_refl|by left]. }
  apply wp_bind. destruct mutated.
  - unfold append_mysql_marker. apply wp_bind, wp_ask.
    assert (Hbad : forall w1, good w1 -> store_of w1 = store_of w -> w_mem w1 `suffix_of` w_mem w -> w_now w1 = w_now w -> sv_initialized (w_service w1) = sv_initialized (w_service w) ->
      wp (rollback_transaction ;; mret (ERR_AOF, 0)) w1 (fun rb w' => finished mysql_write reply d txn w rb.1 rb.2 w')).
    { intros w1 [D1 D2 D3] Hs Hm Hn Hi. split; [done|]. split_and!; [done|done|done|done|by right]. }
    destruct (Z.geb_spec (zlen (decimal (sv_candidate (w_service w)))) (64 - (9 + 2 * zlen (sv_uuid (w_service w)) + 1))) as [|Hfit].
    { apply wp_ret. cbn [Z.eqb negb]. by apply Hbad. }
    eapply wp_mono; [by eapply append_to_log_runs|]. cbn beta. intros q w1 (l & H1 & Hq & Hs1).
    pose proof (ru_log _ _ _ _ _ H1) as Hl. unfold logs in Hl. rewrite Ha in Hl. destruct (sv_aof (w_service w1)) as [a1|] eqn:Ea1; [|done].
    destruct Hl as (_ & Hf & Hl). destruct (Hl txn d Hr) as [Hl1 _].
    pose proof (ru_fixed _ _ _ _ _ H1) as Hfix. assert (Hi1 : sv_initialized (w_service w1) = sv_initialized (w_service w)) by (unfold fixed in Hfix; by injection Hfix).
    destruct (Z.eqb_spec q 0) as [->|]; cbn [negb].
    + eapply Hrest; [apply H1|done|apply H1|apply H1|done|done| |intros F; by apply Hf|]; [rewrite (Hq eq_refl) in Hl1; exact Hl1|]. right. split; [by apply Hmut|]. eexists _, _. split; [done|].
      unfold arg. cbn [nth mysql_marker]. rewrite !zlen_app, zlen_token_text. change (zlen (lit "KVMYSQL1:")) with 9. change (zlen (lit ":")) with 1. lia.
    + apply Hbad; [apply H1|done|apply H1|apply H1|done].
  - apply wp_ret. cbn [Z.eqb negb]. apply (Hrest w a []); try done; [by rewrite app_nil_r|by left].
Qed.

(** *** The command *)

Lemma execute_command_spec command arguments w :
  good w -> sv_initialized (w_service w) = true -> request_ok arguments -> data_command command = true ->
  wp (execute_command admin command arguments) w (fun ro w' => exists r, ro = Some r /\
    ((r = ERR_ARITY \/ r = ERR_AOF) /\ w' = w \/
     (command = SERVICE_COMMAND_UNKNOWN \/ command_arity_valid command (zlen arguments) = true) /\ served command arguments w r w')).
Proof.
  intros G Hi Hok Hd. unfold execute_command. apply wp_bind, wp_ask. rewrite Hi. cbn [negb orb].
  destruct (Z.eqb_spec (zlen arguments) 0) as [Hz|_]; [destruct Hok as [Hn _]; lia|].
  destruct (bool_decide (command = SERVICE_COMMAND_UNKNOWN)) eqn:Eu; [apply bool_decide_eq_true in Eu as ->|].
  { apply wp_ret. eexists. split; [done|]. right. split; [by left|]. apply served_same; [done|by apply runs_refl]. }
  destruct (command_arity_valid command (zlen arguments)) eqn:Ear; cbn [negb].
  2:{ apply wp_ret. eexists. split; [done|]. left. split; [by left|done]. }
  destruct (_ && _).
  { apply wp_ret. eexists. split; [done|]. left. split; [by right|done]. }
  apply wp_bind. eapply wp_mono; [apply dispatch_serves; [done|done|by apply request_key|apply Hok]|]. cbn beta.
  intros r w' Hs. apply wp_ret. exists r. split; [done|]. right. split; [by right|done].
Qed.

(** *** The request *)

(** The replies after which the store and the log can differ from what the
    command is specified to leave. *)
Definition trouble (r : kvstore_reply) : Prop := r ∈ [ERR_AOF; ERR_MYSQL_QUEUE; ERR_INTERNAL; ERR_CAPACITY].

(** The records of the evicted keys all reached the log, unless an append failed
    because an allocation between [w] and [w'] failed, or past 2^61 bytes in the
    transaction. *)
Definition evictions_logged (w w' : world A) (ks : list (list Z)) (l records : list AofLog.command) : Prop :=
  l `sublist_of` (del_record <$> ks) /\
  (l = del_record <$> ks \/ failed_between (w_mem w) (w_mem w') \/ 2 ^ 61 < zlen (log_bytes ((del_record <$> ks) ++ records))).

Definition executed (arguments : list (list Z)) (d : transactions) (w : world A) (r : kvstore_reply) (barrier : Z) (w' : world A) : Prop :=
  let t := w_now w in
  let S := visible t (store_of w) in
  let command := find_command (arg arguments 0) in
  (exists a ks l M, answers t S command arguments a /\ r = a.1 /\ evictable (store_of w) ks /\
     visible t (store_of w') = evicting t ks a.2.*1 S /\
     log_has w' d barrier (l ++ a.2.*2 ++ M) /\ evictions_logged w w' ks l a.2.*2 /\
     (a.2 <> [] -> command_arity_valid command (zlen arguments) = true) /\
     (M = [] \/ marked M)) \/
  (r ∈ [ERR_AOF_QUEUE; ERR_ARITY; ERR_TOO_LARGE; ERR_AOF; ERR_MYSQL_QUEUE; ERR_INTERNAL; ERR_CAPACITY] /\
     visible t (store_of w') = S /\ (~ trouble r -> exists M, log_has w' d barrier M /\ (M = [] \/ marked M))) \/
  (trouble r /\ exists a ks, answers t S command arguments a /\ a.2 <> [] /\ evictable (store_of w) ks /\
     visible t (store_of w') = evicting t ks a.2.*1 S).

Lemma may_fail_cases command r : may_fail command r -> r = ERR_INTERNAL \/ r = ERR_CAPACITY \/ r = ERR_TOO_LARGE.
Proof. destruct command; cbn; tauto. Qed.

Lemma may_fail_refused command r :
  may_fail command r -> r ∈ [ERR_AOF_QUEUE; ERR_ARITY; ERR_TOO_LARGE; ERR_AOF; ERR_MYSQL_QUEUE; ERR_INTERNAL; ERR_CAPACITY].
Proof. intros Hf. rewrite !elem_of_cons. destruct (may_fail_cases _ _ Hf) as [->|[->| ->]]; tauto. Qed.

Lemma read_answers t S command arguments a :
  is_write_command command = false -> answers t S command arguments a -> a.2 = [].
Proof.
  destruct command; cbn [is_write_command answers]; intros Hw Ha; try done; try (rewrite Ha; done).
  - by destruct Ha as (n & -> & _).
  - rewrite Ha. unfold hget_answer, on_hash. by destruct (S !! _) as [[[]]|].
  - rewrite Ha. unfold hlen_answer, on_hash. by destruct (S !! _) as [[[]]|].
  - destruct Ha as (fields & -> & _). unfold on_hash. by destruct (S !! _) as [[[]]|].
  - rewrite Ha. unfold zscore_answer, on_zset. by destruct (S !! _) as [[[]]|].
  - rewrite Ha. unfold zcard_answer, on_zset. by destruct (S !! _) as [[[]]|].
  - rewrite Ha. unfold zrange_answer, on_zset. destruct (parse_int64 _); [|done]. destruct (parse_int64 _); [|done]. destruct (_ && _); [done|].
    by destruct (S !! _) as [[[]]|].
Qed.

(** The record of an answer names the key of the request. *)
Lemma answer_record (t : Z) (S : astore) command arguments a :
  answers t S command arguments a -> a.2 = [] \/ exists x, a.2 = [x] /\ arg x.2 1 = arg arguments 1.
Proof.
  intros Ha. destruct (is_write_command command) eqn:Hw; [|left; by eapply read_answers]. destruct command; try done; cbn [answers] in Ha; subst a.
  - unfold set_answer. destruct (set_option arguments); [by left|]. destruct (_ && _); [by left|]. right. eexists. split; [done|]. unfold set_record. by destruct (_ =? 0).
  - unfold delete_answer, answer_key. cbn. destruct (_ =? 0); [by left|right; by eexists].
  - unfold expire_answer. destruct (duration_ms _ _ _) as [[st parsed] ttl]. destruct (negb _); [by left|]. unfold delete_answer, answer_key.
    destruct (_ <=? _); [|destruct (_ >? _); [by left|]]; cbn; (destruct (_ =? 0); [by left|right; by eexists]).
  - unfold expire_answer. destruct (duration_ms _ _ _) as [[st parsed] ttl]. destruct (negb _); [by left|]. unfold delete_answer, answer_key.
    destruct (_ <=? _); [|destruct (_ >? _); [by left|]]; cbn; (destruct (_ =? 0); [by left|right; by eexists]).
  - unfold persist_answer, answer_key. cbn. destruct (_ =? 0); [by left|right; by eexists].
  - unfold hset_answer, on_hash, logged_if. destruct (S !! _) as [[[]]|]; cbn; try (by left); (destruct (hset_changes _ _); [right; by eexists|by left]).
  - unfold hdel_answer, on_hash, logged_if. destruct (S !! _) as [[[]]|]; cbn; try (by left); (destruct (_ >? _); [right; by eexists|by left]).
  - unfold zadd_answer. destruct (zadd_scores _) as [st scores]. destruct (negb _); [by left|]. unfold on_zset, logged_if.
    destruct (S !! _) as [[[]]|]; cbn; try (by left); (destruct (zadd_changes _ _); [right; by eexists|by left]).
  - unfold zrem_answer, on_zset, logged_if. destruct (S !! _) as [[[]]|]; cbn; try (by left); (destruct (_ >? _); [right; by eexists|by left]).
Qed.

(** Where the last record reached the log, it was not cut before it. *)
Lemma cut_evicted ks l x (key : list Z) :
  cut ((del_record <$> ks) ++ [x].*2) (l ++ [x].*2) -> arg (x : effect * AofLog.command).2 1 = key -> key ∈ ks.
Proof.
  intros (r1 & r2 & E & Hr2 & Hs) <-. cbn in E, Hs. destruct r2 as [|y r3 _] using rev_ind; [done|]. rewrite app_assoc in E.
  apply app_inj_tail in E as [E _]. assert (Hin : x.2 ∈ del_record <$> ks).
  { rewrite E. apply elem_of_app. left. eapply elem_of_submseteq; [|by apply sublist_submseteq, Hs]. apply elem_of_app. right. by apply list_elem_of_singleton. }
  apply list_elem_of_fmap in Hin as (k & -> & Hk). done.
Qed.

(** What remains of an outcome when the reply is replaced by an error of the
    log or the database. *)
Lemma served_troubled arguments d w r w1 w' r' b :
  served (find_command (arg arguments 0)) arguments w r w1 ->
  (r' = ERR_AOF \/ r' = ERR_MYSQL_QUEUE) -> store_of w' = store_of w1 -> executed arguments d w r' b w'.
Proof.
  intros (a & Ha & Hs) Hr' Hst. assert (Ht : trouble r') by (destruct Hr' as [-> | ->]; unfold trouble; set_solver).
  assert (Hin : r' ∈ [ERR_AOF_QUEUE; ERR_ARITY; ERR_TOO_LARGE; ERR_AOF; ERR_MYSQL_QUEUE; ERR_INTERNAL; ERR_CAPACITY]) by (destruct Hr' as [-> | ->]; set_solver).
  assert (Hgo : forall ks, evictable (store_of w) ks -> (a.2 = [] -> ks = []) ->
     visible (w_now w) (store_of w1) = evicting (w_now w) ks a.2.*1 (visible (w_now w) (store_of w)) -> executed arguments d w r' b w').
  { intros ks Hks Hnil Hv. rewrite <- Hst in Hv. destruct (decide (a.2 = [])) as [E|E].
    - right; left. split; [done|]. rewrite (Hnil E), E in Hv. split; [done|]. by intros.
    - right; right. split; [done|]. exists a, ks. done. }
  destruct Hs as [(ks & l & -> & Hks & Hw & _ & _ & Hrun)|[(S' & Hf & HS' & Hrun)|(ks & l & -> & Hne & Hks & _ & Hrun)]].
  - apply (Hgo ks); [done| |apply Hrun]. destruct Hw as [[_ ?]|[-> _]]; [done|done].
  - destruct HS' as [->|HS'].
    + right; left. split; [done|]. rewrite Hst. split; [apply Hrun|]. by intros.
    + apply (Hgo []); [apply evictable_nil|done|]. rewrite (ru_visible _ _ _ _ _ Hrun), HS'. done.
  - apply (Hgo ks); [done| |apply Hrun]. done.
Qed.

(** The outcome of a command that needs no transaction. *)
Lemma served_plain arguments d w r w1 w' :
  served (find_command (arg arguments 0)) arguments w r w1 ->
  (find_command (arg arguments 0) = SERVICE_COMMAND_UNKNOWN \/ command_arity_valid (find_command (arg arguments 0)) (zlen arguments) = true) ->
  (is_write_command (find_command (arg arguments 0)) = false \/ sv_aof (w_service w) = None) -> log_idle w d ->
  store_of w' = store_of w1 -> sv_aof (w_service w') = sv_aof (w_service w1) -> executed arguments d w r 0 w'.
Proof.
  intros Hsv Hval Hread Hidle Hst Haof.
  assert (Hlog : forall records l S', runs records l S' w w1 -> records = [] \/ sv_aof (w_service w) = None -> forall rs, (sv_aof (w_service w) <> None -> rs = []) -> log_has w' d 0 rs).
  { intros records l S' Hrun Hrec rs Hd'. split; [done|]. pose proof (ru_log _ _ _ _ _ Hrun) as Hl. unfold logs in Hl. unfold log_idle in *. rewrite Haof.
    destruct (sv_aof (w_service w)) as [a|] eqn:Ea; destruct (sv_aof (w_service w1)) as [a1|] eqn:Ea1; try done.
    destruct Hl as (Hsame & _). destruct Hrec as [->|]; [|done]. rewrite (Hsame eq_refl), Hd' by done. by left. }
  pose proof Hsv as (a & Ha & Hs).
  assert (Hnil : is_write_command (find_command (arg arguments 0)) = false -> a.2 = []) by (intros Hr; by eapply read_answers).
  destruct Hs as [(ks & l & -> & Hks & Hw & Hkey & Hsub & Hrun)|[(S' & Hf & HS' & Hrun)|(ks & l & -> & _)]].
  - left. exists a, ks, (del_record <$> ks), []. split_and!; try done; try (by left).
    + rewrite Hst. apply Hrun.
    + eapply Hlog; [exact Hrun| |].
      * destruct Hread as [Hr|]; [left|by right]. destruct Hw as [[? _]|[-> ->]]; [congruence|done].
      * intros Hno. destruct Hread as [Hr|]; [|done]. by destruct Hw as [[? _]|[-> ->]]; [congruence|].
    + split; [done|]. by left.
    + intros Hne. destruct Hval as [Eu|]; [|done]. destruct Hne. apply Hnil. by rewrite Eu.
  - assert (HS : visible (w_now w) (store_of w') = visible (w_now w) (store_of w) \/ a.2 <> [] /\ trouble r /\
      visible (w_now w) (store_of w') = evicting (w_now w) [] a.2.*1 (visible (w_now w) (store_of w))).
    { rewrite Hst, (ru_visible _ _ _ _ _ Hrun). destruct HS' as [->|HS']; [by left|]. destruct (decide (a.2 = [])) as [E|E]; [left; rewrite HS', E; done|].
      right. split; [done|]. split; [|done]. destruct (may_fail_cases _ _ Hf) as [->|[->| ->]]; unfold trouble; [set_solver|set_solver|].
      destruct E. destruct (find_command (arg arguments 0)); cbn in Hf; try done; try (by destruct Hf); (refine (read_answers _ _ _ _ _ _ Ha); done). }
    destruct HS as [HS|(E & Ht & HS)].
    + right; left. split; [by eapply may_fail_refused|]. split; [done|]. intros _. exists []. split; [|by left].
      eapply Hlog; [exact Hrun|by left|done].
    + right; right. split; [done|]. exists a, []. split_and!; [done|done|apply evictable_nil|done].
  - eapply served_troubled; [exact Hsv|by left|done].
Qed.

(** The outcome of a command that ran in a transaction of its own. *)
Lemma served_logged_request arguments d w w0 a0 mysql_write r w1 w2 r' b w' :
  request_ok arguments -> command_arity_valid (find_command (arg arguments 0)) (zlen arguments) = true ->
  served (find_command (arg arguments 0)) arguments w0 r w1 ->
  store_of w0 = store_of w -> w_now w0 = w_now w -> w_mem w0 = w_mem w ->
  sv_aof (w_service w0) = Some a0 -> log_repr a0 (Some []) d ->
  store_of w2 = store_of w1 -> w_mem w2 = w_mem w1 -> sv_aof (w_service w2) = sv_aof (w_service w1) ->
  (forall a2 txn, sv_aof (w_service w2) = Some a2 -> log_repr a2 (Some txn) d -> finished mysql_write r d txn w2 r' b w') ->
  executed arguments d w r' b w'.
Proof.
  intros Hok Har Hsv Hst0 Hn0 Hm0 Ha0 Hr0 Hst2 Hmem2 Haof2 Hfin.
  assert (Hex : executed arguments d w0 r' b w' -> executed arguments d w r' b w').
  { unfold executed, evictions_logged. by rewrite Hst0, Hn0, Hm0. }
  apply Hex. clear Hex Hst0 Hn0 Hm0.
  (* what the transaction holds *)
  assert (Htxn : forall records l S', runs records l S' w0 w1 -> exists a1, sv_aof (w_service w2) = Some a1 /\ log_repr a1 (Some l) d /\
    (l = records \/ lossy w0 w1 a1 [] records l)).
  { intros records l S' Hrun. pose proof (ru_log _ _ _ _ _ Hrun) as Hl. unfold logs in Hl. rewrite Ha0 in Hl.
    destruct (sv_aof (w_service w1)) as [a1|] eqn:Ea1; [|done]. destruct Hl as (_ & _ & Hl). exists a1. rewrite Haof2. split; [done|]. apply (Hl [] d Hr0). }
  pose proof Hsv as (a & Ha & Hs). pose proof (answer_records_ok _ _ _ _ _ Hok Har Ha) as Hrok.
  destruct Hs as [(ks & l & -> & Hks & Hw & Hkey & Hsub & Hrun)|[(S' & Hf & HS' & Hrun)|(ks & l & -> & Hne & Hks & Hw & Hrun)]].
  - destruct (Htxn _ _ _ Hrun) as (a1 & Ea1 & Hl1 & Hloss). destruct (Hfin _ _ Ea1 Hl1) as (_ & Hst' & Hmem' & _ & _ & Hout).
    destruct Hout as [(M & Hfl & Hrr & HM & Hlog)| ->]; [|eapply served_troubled; [exact Hsv|by left|congruence]].
    destruct Hrr as [->|[_ ->]]; [|eapply served_troubled; [exact Hsv|by right|congruence]].
    left. exists a, ks, l, M. split_and!; try done.
    + rewrite Hst', Hst2. apply Hrun.
    + by rewrite <- app_assoc in Hlog.
    + split; [done|]. destruct Hloss as [E|Hloss]; [left; by apply app_inv_tail in E|]. destruct Hloss as [Hb|[[_ Hcut]|[Hbad|?]]].
      * right; left. rewrite <- Hmem2 in Hb. by eapply failed_before.
      * left. destruct (answer_record _ _ _ _ _ Ha) as [Hnil|(x & Hx & Hx1)].
        -- destruct Hw as [[_ ?]|[-> _]]; [done|]. cbn in Hsub. by apply sublist_nil_r in Hsub.
        -- destruct Hkey. rewrite Hx in Hcut. by eapply cut_evicted.
      * destruct Hbad. apply Forall_app. split; [by apply del_records_ok, Hks|done].
      * by right; right.
    + destruct HM as [->|[_ HM]]; [by left|by right].
  - destruct (Htxn _ _ _ Hrun) as (a1 & Ea1 & Hl1 & _). destruct (Hfin _ _ Ea1 Hl1) as (_ & Hst' & Hmem' & _ & _ & Hout).
    destruct Hout as [(M & Hfl & Hrr & HM & Hlog)| ->]; [|eapply served_troubled; [exact Hsv|by left|congruence]].
    destruct Hrr as [->|[_ ->]]; [|eapply served_troubled; [exact Hsv|by right|congruence]].
    destruct HS' as [->|HS'].
    + right; left. split; [by eapply may_fail_refused|]. split; [rewrite Hst', Hst2; apply Hrun|].
      intros _. exists M. split; [done|]. destruct HM as [->|[_ HM]]; [by left|by right].
    + destruct (decide (a.2 = [])) as [E|E].
      * rewrite E in HS'. right; left. split; [by eapply may_fail_refused|].
        split; [rewrite Hst', Hst2, (ru_visible _ _ _ _ _ Hrun), HS'; done|].
        intros _. exists M. split; [done|]. destruct HM as [->|[_ HM]]; [by left|by right].
      * right; right. split.
        { destruct (may_fail_cases _ _ Hf) as [->|[->| ->]]; unfold trouble; [set_solver|set_solver|].
          destruct E. destruct (find_command (arg arguments 0)); cbn in Hf; try done; try (by destruct Hf); (refine (read_answers _ _ _ _ _ _ Ha); done). }
        exists a, []. split_and!; [done|done|apply evictable_nil|]. rewrite Hst', Hst2, (ru_visible _ _ _ _ _ Hrun), HS'. done.
  - destruct (Htxn _ _ _ Hrun) as (a1 & Ea1 & Hl1 & _). destruct (Hfin _ _ Ea1 Hl1) as (_ & Hst' & Hmem' & _ & _ & Hout).
    destruct Hout as [(M & Hfl & Hrr & HM & Hlog)| ->]; [|eapply served_troubled; [exact Hsv|by left|congruence]].
    destruct Hrr as [->|[_ ->]]; eapply served_troubled; [exact Hsv|by left|congruence|exact Hsv|by right|congruence].
Qed.

Lemma begin_wp w a d :
  sv_aof (w_service w) = Some a -> log_repr a None d ->
  wp begin_transaction w (fun r w' => exists a', w' = mk_world (w_mem w) (w_now w) (w_ticks w) (put_aof (Some a') (w_service w)) /\
    (r = 0 /\ log_repr a' (Some []) d \/ r <> 0 /\ log_repr a' None d)).
Proof.
  intros Ha Hr. unfold wp, begin_transaction. rewrite Ha. pose proof (law_begin a d Hr) as Hb. destruct (log_begin a) as [r a']. cbn. by exists a'.
Qed.

(** The service is in order before and after a request. *)
Definition steady (w w' : world A) : Prop :=
  good w' /\ w_now w' = w_now w /\ sv_initialized (w_service w') = sv_initialized (w_service w) /\
  limits (store_of w') = limits (store_of w) /\ (sv_aof (w_service w) = None -> sv_aof (w_service w') = None).

Lemma steady_same w w' : good w -> same_data w w' -> steady w w'.
Proof.
  intros G Hs. split; [by eapply same_data_good|]. destruct Hs as [E1 E2 E3 E4 E5 E6]. split_and!; congruence.
Qed.

Lemma steady_trans w w1 w2 : steady w w1 -> steady w1 w2 -> steady w w2.
Proof. intros (A1 & A2 & A3 & A4 & A5) (B1 & B2 & B3 & B4 & B5). split; [done|]. split_and!; [congruence..|tauto]. Qed.

Lemma runs_steady records l S w w' : runs records l S w w' -> steady w w'.
Proof.
  intros Hr. pose proof (ru_fixed _ _ _ _ _ Hr) as Hf. unfold fixed in Hf. split_and!; [apply Hr|apply Hr|by injection Hf|apply Hr|].
  intros Hn. pose proof (ru_log _ _ _ _ _ Hr) as Hl. unfold logs in Hl. rewrite Hn in Hl. by destruct (sv_aof (w_service w')).
Qed.

Lemma served_steady command arguments w r w' : served command arguments w r w' -> steady w w'.
Proof.
  intros (a & _ & [(ks & l & _ & _ & _ & _ & _ & Hr)|[(S' & _ & _ & Hr)|(ks & l & _ & _ & _ & _ & Hr)]]); by eapply runs_steady.
Qed.

(** The outcome of [execute_command] from [w3]. *)
Definition outcome (arguments : list (list Z)) (w3 : world A) (r : kvstore_reply) (w4 : world A) : Prop :=
  let command := find_command (arg arguments 0) in
  (r = ERR_ARITY \/ r = ERR_AOF) /\ w4 = w3 \/
  (command = SERVICE_COMMAND_UNKNOWN \/ command_arity_valid command (zlen arguments) = true) /\
  served command arguments w3 r w4.

(** The command between the two assignments to the mutation. *)
Lemma command_wp arguments mysql_write w2 k (Q : option kvstore_reply * Z -> world A -> Prop) :
  good w2 -> sv_initialized (w_service w2) = true -> request_ok arguments ->
  data_command (find_command (arg arguments 0)) = true ->
  (forall r w3 w4, same_data w2 w3 -> outcome arguments w3 r w4 -> forall w5, same_data w4 w5 -> wp (k (Some r)) w5 Q) ->
  wp (modify (fun s => put_mutation mysql_write [] (sv_mutation_capacity s) s) ;;
      result ← execute_command admin (find_command (arg arguments 0)) arguments;
      modify (fun s => put_mutation false (sv_mutation s) (sv_mutation_capacity s) s) ;; k result) w2 Q.
Proof.
  intros G Hi Hok Hd Hk. apply wp_bind. eapply wp_mono; [by apply modify_same|]. cbn beta. intros _ w3 H3. apply wp_bind.
  eapply wp_mono; [apply (execute_command_spec _ arguments w3); [by eapply same_data_good|by rewrite (sd_init _ _ H3)|done|done]|].
  cbn beta. intros ro w4 (r & -> & Hr). apply wp_bind. eapply wp_mono; [by apply modify_same|]. cbn beta. intros _ w5 H5. by eapply Hk.
Qed.

Lemma count_dirty_wp (b : bool) w :
  wp (A := A) (if b then modify (fun s => put_dirty (wrap64 (sv_dirty s + 1)) s) else mret tt) w (fun _ w' => same_data w w').
Proof. destruct b; [by apply modify_same|apply wp_ret, same_data_refl]. Qed.

(** The transaction that a command leaves. *)
Lemma served_transaction command arguments w r w' a d :
  served command arguments w r w' -> sv_aof (w_service w) = Some a -> log_repr a (Some []) d ->
  exists a' txn, sv_aof (w_service w') = Some a' /\ log_repr a' (Some txn) d.
Proof.
  intros Hsv Ha Hb.
  assert (Hl : forall rs l S', runs rs l S' w w' -> exists a' txn, sv_aof (w_service w') = Some a' /\ log_repr a' (Some txn) d).
  { intros rs l S' Hrun. pose proof (ru_log _ _ _ _ _ Hrun) as Hl. unfold logs in Hl. rewrite Ha in Hl.
    destruct (sv_aof (w_service w')) as [a4|]; [|done]. destruct Hl as (_ & _ & Hl). exists a4, l. split; [done|]. apply (Hl [] d Hb). }
  destruct Hsv as (an & _ & [(ks & l & _ & _ & _ & _ & _ & Hrun)|[(S' & _ & _ & Hrun)|(ks & l & _ & _ & _ & _ & Hrun)]]); by eapply Hl.
Qed.

(** The end of a request that has a transaction. *)
Lemma logged_request_wp arguments d mysql_write bytes w w3 a3 r w4 w6 :
  request_ok arguments -> command_arity_valid (find_command (arg arguments 0)) (zlen arguments) = true ->
  steady w w3 -> store_of w3 = store_of w -> w_mem w3 = w_mem w -> sv_aof (w_service w3) = Some a3 -> log_repr a3 (Some []) d ->
  outcome arguments w3 r w4 -> same_data w4 w6 ->
  wp (finish_write mysql_write bytes r) w6 (fun rb w' => steady w w' /\ executed arguments d w rb.1 rb.2 w').
Proof.
  intros Hok Har Hstd3 Hst3 Hm3 Ha3 Hb Hr H46. destruct Hr as [[Hr ->]|[_ Hsv]].
  - assert (Hstd6 : steady w3 w6) by (apply steady_same; [apply Hstd3|done]).
    eapply wp_mono; [apply (finish_write_spec mysql_write bytes r w6 a3 [] d); [apply Hstd6|by rewrite (sd_aof _ _ H46)|done]|].
    intros [r' b] w7 (F1 & F2 & _ & F3 & F4 & Hout). cbn [fst] in *.
    assert (Hv : visible (w_now w) (store_of w7) = visible (w_now w) (store_of w)) by (by rewrite F2, (sd_store _ _ H46), Hst3).
    assert (Hsome : sv_aof (w_service w6) = None -> sv_aof (w_service w7) = None) by (rewrite (sd_aof _ _ H46), Ha3; done).
    split; [eapply steady_trans; [exact Hstd3|]; eapply steady_trans; [exact Hstd6|split_and!; try done; by rewrite F2]|].
    right; left. destruct Hout as [(M & _ & Hrr & HM & Hl)| ->]; [|split; [set_solver|]; split; [done|]; intros Ht; destruct Ht; unfold trouble; set_solver].
    split; [destruct Hrr as [->|[_ ->]]; [destruct Hr as [-> | ->]|]; set_solver|]. split; [done|]. intros _. exists M. split; [done|].
    destruct HM as [->|[_ HM]]; [by left|by right].
  - pose proof (served_steady _ _ _ _ _ Hsv) as Hstd4. assert (Hstd6 : steady w4 w6) by (apply steady_same; [apply Hstd4|done]).
    destruct (served_transaction _ _ _ _ _ _ _ Hsv Ha3 Hb) as (a6 & txn6 & Ea6 & Hr6). rewrite <- (sd_aof _ _ H46) in Ea6.
    apply (wp_mono _ _ (fun rb w7 => forall a7 txn, sv_aof (w_service w6) = Some a7 -> log_repr a7 (Some txn) d -> finished mysql_write r d txn w6 rb.1 rb.2 w7)).
    { intros a7 txn E7 R7. eapply finish_write_spec; [apply Hstd6|done|done]. }
    intros [r' b] w7 Hfin. cbn [fst] in *. split.
    + destruct (Hfin a6 txn6 Ea6 Hr6) as (F1 & F2 & _ & F3 & F4 & _). eapply steady_trans; [exact Hstd3|]. eapply steady_trans; [exact Hstd4|].
      eapply steady_trans; [exact Hstd6|]. split_and!; try done; [by rewrite F2|by rewrite Ea6].
    + eapply (served_logged_request arguments d w w3 a3 mysql_write r w4 w6 r' b w7); try done; [apply Hstd3|apply H46|apply H46|apply H46].
Qed.

(** The end of a request that has none. *)
Lemma plain_request arguments d w w3 r w4 w6 :
  good w -> log_idle w d -> same_data w w3 -> outcome arguments w3 r w4 -> same_data w4 w6 ->
  (forall command, command = find_command (arg arguments 0) ->
     negb (bool_decide (command = SERVICE_COMMAND_UNKNOWN)) && command_arity_valid command (zlen arguments) && is_write_command command = false \/
     sv_aof (w_service w) = None) ->
  steady w w6 /\ executed arguments d w r 0 w6.
Proof.
  intros G Hidle H03 Hr H46 Hplain. specialize (Hplain _ eq_refl). assert (G3 : good w3) by (by eapply same_data_good).
  destruct Hr as [[Hr ->]|[Hval Hsv]].
  - assert (H06 : same_data w w6) by (by eapply same_data_trans). split; [by apply steady_same|]. right; left.
    split; [destruct Hr as [-> | ->]; set_solver|]. rewrite (sd_store _ _ H06). split; [done|]. intros _. exists []. split; [|by left].
    split; [done|]. unfold log_idle in *. rewrite (sd_aof _ _ H06). destruct (sv_aof (w_service w)); [by left|done].
  - pose proof (served_steady _ _ _ _ _ Hsv) as Hstd4. split.
    { eapply steady_trans; [apply steady_same; [done|exact H03]|]. eapply steady_trans; [exact Hstd4|]. apply steady_same; [apply Hstd4|done]. }
    assert (Hpl : executed arguments d w3 r 0 w6).
    { eapply served_plain; [exact Hsv|exact Hval| | |apply H46|apply H46].
      - rewrite (sd_aof _ _ H03). destruct Hplain as [El|Ea]; [left|by right]. destruct Hval as [->|Har]; [done|]. rewrite Har, andb_true_r in El.
        destruct (bool_decide _) eqn:Eu in El; [by apply bool_decide_eq_true in Eu as ->|]. exact El.
      - unfold log_idle in *. by rewrite (sd_aof _ _ H03). }
    unfold executed, evictions_logged in *. by rewrite (sd_store _ _ H03), (sd_now _ _ H03), (sd_mem _ _ H03) in Hpl.
Qed.

Lemma execute_spec arguments w d :
  good w -> sv_initialized (w_service w) = true -> log_idle w d -> request_ok arguments ->
  data_command (find_command (arg arguments 0)) = true ->
  wp (kvstore_service_execute_with_barrier admin arguments) w (fun rb w' =>
    exists r, rb.1 = Some r /\ steady w w' /\ executed arguments d w r rb.2 w').
Proof.
  intros G Hi Hidle Hok Hd. unfold kvstore_service_execute_with_barrier. destruct (Z.eqb_spec (zlen arguments) 0) as [Hz|_]; [destruct Hok as [Hn _]; lia|].
  apply wp_bind, wp_ask. set (logical := negb _ && _ && _). set (mysql_write := logical && is_Some_bool (sv_mysql _)).
  apply wp_bind. apply (wp_mono _ _ (fun r w1 => same_data w w1 /\ forall e, r = inl e -> e ∈ [ERR_AOF; ERR_MYSQL_QUEUE; ERR_INTERNAL])).
  { destruct mysql_write; [apply admit_same|]. apply wp_ret. split; [apply same_data_refl|done]. }
  intros admitted w1 [H1 Herr]. destruct admitted as [e|bytes].
  { apply wp_ret. exists e. split; [done|]. split; [by apply steady_same|]. right; left. specialize (Herr e eq_refl).
    assert (Ht : trouble e) by (unfold trouble; set_solver). split; [set_solver|]. rewrite (sd_store _ _ H1). split; [done|]. by intros. }
  clear Herr. assert (Hstd1 : steady w w1) by (by apply steady_same). assert (Hi1 : sv_initialized (w_service w1) = true) by (rewrite (sd_init _ _ H1); done).
  apply wp_bind. destruct (logical && is_Some_bool (sv_aof (w_service w))) eqn:Ewrite.
  - apply andb_true_iff in Ewrite as [El Ea]. apply andb_true_iff in El as [[_ Har]%andb_true_iff _]. unfold log_idle in Hidle.
    destruct (sv_aof (w_service w)) as [a|] eqn:Eaof; [|done]. rewrite <- (sd_aof _ _ H1) in Eaof.
    eapply wp_mono; [by eapply begin_wp|]. cbn beta. intros begun w2 (a2 & E2 & Hb).
    assert (Hstd2 : steady w w2) by (rewrite E2; destruct Hstd1 as ([? ? ?] & ? & ? & ? & ?); split_and!; try done; cbn; by rewrite <- (sd_aof _ _ H1), Eaof).
    assert (Hst2 : store_of w2 = store_of w) by (rewrite E2; apply (sd_store _ _ H1)). assert (Hm2 : w_mem w2 = w_mem w) by (rewrite E2; apply H1).
    assert (Ha2 : sv_aof (w_service w2) = Some a2) by (by rewrite E2). clear E2.
    destruct Hb as [[-> Hb]|[Hne Hb]]; cbn [Z.eqb negb]; cycle 1.
    { destruct (Z.eqb_spec begun 0); [done|]. cbn [negb]. apply wp_ret. eexists. split; [done|]. split; [done|]. right; left. split; [set_solver|].
      rewrite Hst2. split; [done|]. intros _. exists []. split; [|by left]. split; [done|]. rewrite Ha2. by left. }
    apply command_wp; [apply Hstd2|rewrite (proj1 (proj2 (proj2 Hstd2))); done|done|done|]. intros r w3 w4 H3 Hr w5 H5. apply wp_bind.
    eapply wp_mono; [apply count_dirty_wp|]. cbn beta. intros _ w6 H6. apply wp_bind.
    eapply wp_mono; [eapply (logged_request_wp arguments d mysql_write bytes w w3 a2 r w4 w6); try done|].
    + eapply steady_trans; [exact Hstd2|]. apply steady_same; [apply Hstd2|done].
    + by rewrite (sd_store _ _ H3).
    + by rewrite (sd_mem _ _ H3).
    + by rewrite (sd_aof _ _ H3).
    + by eapply same_data_trans.
    + intros [r' b] w7 [Hs He]. apply wp_ret. by exists r'.
  - apply wp_ret. cbn [Z.eqb negb]. apply command_wp; [apply Hstd1|done|done|done|]. intros r w3 w4 H3 Hr w5 H5. apply wp_bind.
    eapply wp_mono; [apply count_dirty_wp|]. cbn beta. intros _ w6 H6. cbn [negb]. apply wp_ret. exists r. split; [done|].
    apply (plain_request arguments d w w3 r w4 w6); try done; [by eapply same_data_trans|by eapply same_data_trans|].
    intros command ->. apply andb_false_iff in Ewrite as [El|Ea]; [by left|right; by destruct (sv_aof (w_service w))].
Qed.
End Requests.
