(* ===== verification/ServiceReplay.v ===== *)
(** The replay of a log by the service: what a record means, that
    [kvstore_service_replay_aof] does it, and why replaying the records of a
    session at a later time gives back the store of the session. *)

From S2P Require Import Prelude Resp HashTable ZOrder Object ExpireHeap LruList Cache Allocation CacheSpec CacheProps.
From S2P Require Import CacheEvents Rdb RdbImage Aof AofCodec AofLog Double CommandText MysqlStore.
From S2P Require Import CommandProps Service ServiceStore ServiceSpec ServiceRuns ServiceCommands ServiceProps.

(** ** The store at a later time *)

(** What is left at the time [T] when nothing more happens. *)
Definition outlives (T : Z) (x : avalue * Z) : bool := (x.2 =? 0) || (T <? x.2).

Definition alive (T : Z) (S : astore) : astore := omap (fun x => if outlives T x then Some x else None) S.

Lemma alive_lookup (T : Z) (S : astore) (k : list Z) :
  alive T S !! k = S !! k ≫= fun x => if outlives T x then Some x else None.
Proof. unfold alive. apply lookup_omap. Qed.

Lemma outlives_iff T x : outlives T x = true <-> x.2 = 0 \/ T < x.2.
Proof. unfold outlives. by rewrite orb_true_iff, Z.eqb_eq, Z.ltb_lt. Qed.

Lemma alive_some (T : Z) (S : astore) (k : list Z) (x : avalue * Z) : alive T S !! k = Some x <-> S !! k = Some x /\ (x.2 = 0 \/ T < x.2).
Proof.
  rewrite alive_lookup, bind_Some, <- outlives_iff. split.
  - intros (y & H1 & H2). destruct (outlives T y) eqn:E; [|done]. by injection H2 as <-.
  - intros [H1 H2]. exists x. by rewrite H2.
Qed.

Lemma alive_later (t T : Z) (S : astore) : t <= T -> alive T (alive t S) = alive T S.
Proof. intros Ht. apply map_eq. intros k. apply option_eq. intros x. rewrite !alive_some. intuition lia. Qed.

Lemma visible_later (t T : Z) (c : cache) : t <= T -> visible T c = alive T (visible t c).
Proof.
  intros Ht. apply map_eq. intros k. apply option_eq. intros x. rewrite alive_some, !visible_lookup. unfold live_entry.
  destruct (c_entries c !! k) as [e|]; [|naive_solver]. unfold expired.
  destruct (Z.eqb_spec (e_expire e) 0) as [E|E], (Z.geb_spec t (e_expire e)), (Z.geb_spec T (e_expire e)); cbn; try lia; try naive_solver lia.
  all: split; [intros [= <-]; cbn; split; [done|lia]|by intros [? _]].
Qed.

(** The key of an effect. *)
Definition effect_key (e : effect) : option (list Z) :=
  match e with
  | ESet key _ _ | EDel key | EPersist key | EExpire key _ | EHset key _ | EHdel key _ | EZadd key _ | EZrem key _ => Some key
  | ENone => None
  end.

(** An effect that depends on what its key holds. *)
Definition depends (e : effect) : bool := match e with ESet _ _ _ | EDel _ | ENone => false | _ => true end.

(** The effect is not on a key that expires before [T]. *)
Definition undisturbed (T : Z) (S : astore) (e : effect) : Prop :=
  depends e = true -> forall k x, effect_key e = Some k -> S !! k = Some x -> outlives T x = true.

Lemma effect_other (t : Z) (S : astore) (e : effect) (k : list Z) : effect_key e <> Some k -> apply_effect t S e !! k = S !! k.
Proof.
  intros Hk. destruct e; cbn [effect_key] in Hk; cbn [apply_effect]; try done; unfold put_hash, put_zset; repeat case_match;
    rewrite ?lookup_insert_ne, ?lookup_delete_ne, ?lookup_alter_ne by congruence; done.
Qed.

(** The contents of the key after an effect that depends on it. *)
Lemma effect_at (t : Z) (S1 S2 : astore) (e : effect) (k : list Z) :
  effect_key e = Some k -> S1 !! k = S2 !! k -> apply_effect t S1 e !! k = apply_effect t S2 e !! k.
Proof.
  intros Hk E. destruct e; cbn [effect_key] in Hk; try (injection Hk as ->); cbn [apply_effect]; try done; rewrite ?E; unfold put_hash, put_zset;
    repeat case_match; rewrite ?lookup_insert_eq, ?lookup_delete_eq, ?lookup_alter_eq, ?E; done.
Qed.

(** The deadline of the key after an effect. *)
Lemma effect_deadline (t T : Z) (S : astore) (e : effect) (k : list Z) :
  0 <= t <= T -> effect_key e = Some k -> depends e = true -> (forall x, S !! k = Some x -> outlives T x = true) ->
  apply_effect T S e !! k = alive T (apply_effect t S e) !! k.
Proof.
  intros Ht Hk Hd Hx. rewrite alive_lookup. destruct e; cbn [effect_key depends] in *; try done; injection Hk as ->; cbn [apply_effect].
  - rewrite !lookup_alter_eq. by destruct (S !! k).
  - destruct (Z.leb_spec deadline T), (Z.leb_spec deadline t); try lia; rewrite ?lookup_delete_eq, ?lookup_alter_eq; try done;
      destruct (S !! k) as [x|]; try done; cbn; unfold outlives; cbn;
      destruct (Z.eqb_spec deadline 0), (Z.ltb_spec T deadline); try lia; done.
  - destruct (S !! k) as [[[l|M|l] x]|] eqn:E; rewrite ?lookup_insert_eq, ?E; try done; specialize (Hx _ eq_refl); unfold outlives in *; cbn in *; by rewrite Hx.
  - destruct (S !! k) as [[[l|M|l] x]|] eqn:E; rewrite ?E; try done; specialize (Hx _ eq_refl); unfold outlives in *; cbn in *; [by rewrite Hx| |by rewrite Hx].
    destruct (hdel_removed _ _ =? 0); [rewrite E; cbn; by rewrite Hx|]. unfold put_hash. destruct (decide _); rewrite ?lookup_delete_eq, ?lookup_insert_eq; [done|]. cbn. by rewrite Hx.
  - destruct (S !! k) as [[[l|M|l] x]|] eqn:E; rewrite ?lookup_insert_eq, ?E; try done; specialize (Hx _ eq_refl); unfold outlives in *; cbn in *; by rewrite Hx.
  - destruct (S !! k) as [[[l|M|l] x]|] eqn:E; rewrite ?E; try done; specialize (Hx _ eq_refl); unfold outlives in *; cbn in *; [by rewrite Hx|by rewrite Hx|].
    destruct (zrem_removed _ _ =? 0); [rewrite E; cbn; by rewrite Hx|]. unfold put_zset. destruct (decide _); rewrite ?lookup_delete_eq, ?lookup_insert_eq; [done|]. cbn. by rewrite Hx.
Qed.

(** Applying an effect at [T] to what is left at [T] gives what is left at [T]
    of the effect. *)
Lemma effect_later (t T : Z) (S : astore) (e : effect) :
  0 <= t <= T -> undisturbed T S e -> apply_effect T (alive T S) e = alive T (apply_effect t S e).
Proof.
  intros Ht Hu. apply map_eq. intros k. destruct (decide (effect_key e = Some k)) as [Hk|Hk]; cycle 1.
  { rewrite alive_lookup, !effect_other by done. apply alive_lookup. }
  destruct (depends e) eqn:Hd.
  - specialize (Hu Hd k). rewrite <- (effect_deadline t T S e k Ht Hk Hd) by eauto. apply effect_at; [done|].
    rewrite alive_lookup. destruct (S !! k) as [x|] eqn:E; [|done]. cbn. by rewrite (Hu x Hk eq_refl).
  - rewrite alive_lookup. destruct e; cbn [effect_key depends] in *; try done; injection Hk as ->; cbn [apply_effect]; [|by rewrite !lookup_delete_eq].
    destruct (Z.eqb_spec deadline 0) as [->|Hz]; cbn [negb andb]; [by rewrite !lookup_insert_eq|].
    destruct (Z.leb_spec deadline T), (Z.leb_spec deadline t); try lia; rewrite ?lookup_delete_eq, ?lookup_insert_eq; cbn; try done;
      unfold outlives; cbn; destruct (Z.eqb_spec deadline 0), (Z.ltb_spec T deadline); try lia; done.
Qed.

(** ** Records *)

(** A deadline of a record; 0 is not one. *)
Definition record_deadline (text : list Z) : option Z :=
  match parse_uint64_bytes text with
  | Some deadline => if deadline =? 0 then None else Some deadline
  | None => None
  end.

(** The members of a record of ZADD. *)
Definition record_members (pairs : list (list Z * list Z)) : option (list zelem) :=
  let '(status, scores) := zadd_scores pairs in if status =? 0 then Some (zip scores pairs.*2) else None.

(** What a record means; [None]: it is not a record. *)
Definition record_effect (args : command) : option effect :=
  let key := arg args 1 in
  let count := zlen args in
  let named name := argument_equals (arg args 0) (lit name) in
  if named "PING" && ((count =? 1) || (count =? 2)) then Some ENone else
  if named "SET" then
    if count =? 3 then Some (ESet key (arg args 2) 0) else
    if (count =? 5) && argument_equals (arg args 3) (lit "PXAT")
    then ESet key (arg args 2) <$> record_deadline (arg args 4) else None else
  if named "DEL" && (count =? 2) then Some (EDel key) else
  if named "PERSIST" && (count =? 2) then Some (EPersist key) else
  if named "PEXPIREAT" && (count =? 3) then EExpire key <$> record_deadline (arg args 2) else
  if named "HSET" && command_arity_valid SERVICE_COMMAND_HSET count then Some (EHset key (argument_pairs (drop 2 args))) else
  if named "HDEL" && command_arity_valid SERVICE_COMMAND_HDEL count then Some (EHdel key (drop 2 args)) else
  if named "ZADD" && command_arity_valid SERVICE_COMMAND_ZADD count
  then EZadd key <$> record_members (argument_pairs (drop 2 args)) else
  if named "ZREM" && command_arity_valid SERVICE_COMMAND_ZREM count then Some (EZrem key (drop 2 args)) else
  None.

(** The name of a record decides the tests. *)
Lemma name_test args command name :
  command <> SERVICE_COMMAND_UNKNOWN -> find_command (arg args 0) = command ->
  argument_equals (arg args 0) name = bool_decide (command_name command = name).
Proof.
  intros Hu E. apply find_command_name in E; [|done]. destruct (argument_equals (arg args 0) name) eqn:Ea; symmetry.
  - apply bool_decide_eq_true. apply argument_equals_spec in Ea. congruence.
  - apply bool_decide_eq_false. intros <-. apply argument_equals_spec in E. congruence.
Qed.

Lemma deadline_decimal x : u64_ok x -> x <> 0 -> record_deadline (decimal x) = Some x.
Proof. intros Hx Hz. unfold record_deadline. rewrite parse_uint64_decimal by done. by destruct (Z.eqb_spec x 0). Qed.

Lemma set_record_effect arguments deadline :
  u64_ok deadline -> record_effect (set_record arguments deadline) = Some (ESet (arg arguments 1) (arg arguments 2) deadline).
Proof.
  intros Hx. unfold set_record. destruct (Z.eqb_spec deadline 0) as [->|Hz]; [done|].
  change (record_effect ([lit "SET"; arg arguments 1; arg arguments 2] ++ [lit "PXAT"; decimal deadline]))
    with (ESet (arg arguments 1) (arg arguments 2) <$> record_deadline (decimal deadline)).
  by rewrite deadline_decimal.
Qed.

Lemma del_record_effect key : record_effect (del_record key) = Some (EDel key).
Proof. done. Qed.

Lemma marker_effect uuid q : record_effect (mysql_marker uuid q) = Some ENone.
Proof. done. Qed.

(** The record of an answer means its effect. *)
Definition faithful (x : effect * command) : Prop := record_effect x.2 = Some x.1.

Lemma key_faithful S key n e r : record_effect r = Some e -> Forall faithful (answer_key S key n e r).2.
Proof. intros H. unfold answer_key. cbn. destruct (n =? 0); [constructor|]. by constructor; [|constructor]. Qed.

Lemma if_faithful b e r : record_effect r = Some e -> Forall faithful (logged_if b e r).
Proof. intros H. destruct b; cbn; [|constructor]. by constructor; [|constructor]. Qed.

Lemma expire_faithful (t : Z) (S : astore) (arguments : command) (mul : Z) :
  u64_ok t -> 0 < mul -> Forall faithful (expire_answer t S arguments mul).2.
Proof.
  intros Ht Hm. unfold expire_answer. destruct (duration_ms (arg arguments 2) mul false) as [[st parsed] ttl] eqn:E.
  destruct (Z.eqb_spec st 0) as [->|]; cbn [negb]; [|constructor].
  destruct (Z.leb_spec parsed 0); [by apply key_faithful|]. destruct (Z.gtb_spec ttl (UINT64_MAX - t)) as [|Hle]; [constructor|].
  assert (Httl : 0 < ttl).
  { unfold duration_ms in E. destruct (parse_int64 _) as [v|]; [|done]. destruct (Z.leb_spec v 0); [injection E; lia|].
    destruct (_ >? _); [done|]. injection E as <- <-. nia. }
  apply key_faithful. change (EExpire (arg arguments 1) <$> record_deadline (decimal (t + ttl)) = Some (EExpire (arg arguments 1) (t + ttl))).
  unfold u64_ok in *. by rewrite deadline_decimal by (unfold u64_ok; lia).
Qed.

Lemma set_faithful (t : Z) (arguments : command) : u64_ok t -> Forall faithful (set_answer t arguments).2.
Proof.
  intros Ht. unfold set_answer. destruct (set_option arguments) as [|ttl] eqn:E; [constructor|]. apply set_option_nonneg in E.
  destruct (Z.eqb_spec ttl 0) as [->|Hz]; cbn [negb andb snd].
  - constructor; [|constructor]. by apply set_record_effect.
  - destruct (Z.gtb_spec ttl (UINT64_MAX - t)); [constructor|]. constructor; [|constructor]. apply set_record_effect. unfold u64_ok in *. lia.
Qed.

Lemma answers_faithful (t : Z) (S : astore) (command : service_command) (arguments : AofLog.command) a :
  u64_ok t -> command_arity_valid command (zlen arguments) = true -> find_command (arg arguments 0) = command ->
  answers t S command arguments a -> Forall faithful a.2.
Proof.
  intros Ht Har E Ha.
  assert (Hif : forall b e, record_effect arguments = Some e -> Forall faithful (logged_if b e arguments)) by (intros; by apply if_faithful).
  destruct (is_write_command command) eqn:Hw; cycle 1.
  { rewrite (read_answers _ _ _ _ _ Hw Ha). constructor. }
  assert (Hnm : forall name, argument_equals (arg arguments 0) name = bool_decide (command_name command = name)).
  { intros name. apply name_test; [|done]. by intros ->. }
  destruct command; try done; cbn [answers] in Ha; rewrite Ha.
  - by apply set_faithful.
  - by apply key_faithful.
  - by apply expire_faithful.
  - by apply expire_faithful.
  - by apply key_faithful.
  - unfold hset_answer, on_hash. destruct (S !! _) as [[[]]|]; cbn [snd]; [apply Forall_nil_2|apply Hif|apply Forall_nil_2|apply Hif]; unfold record_effect; rewrite !Hnm; by rewrite Har.
  - unfold hdel_answer, on_hash. destruct (S !! _) as [[[]]|]; cbn [snd]; [apply Forall_nil_2|apply Hif|apply Forall_nil_2|apply Hif]; unfold record_effect; rewrite !Hnm; by rewrite Har.
  - unfold zadd_answer. destruct (zadd_scores _) as [st sc] eqn:Es. destruct (Z.eqb_spec st 0) as [->|]; cbn [negb]; [|constructor].
    unfold on_zset. destruct (S !! _) as [[[]]|]; cbn [snd]; [apply Forall_nil_2|apply Forall_nil_2|apply Hif|apply Hif]; unfold record_effect; rewrite !Hnm; rewrite Har; unfold record_members; by rewrite Es.
  - unfold zrem_answer, on_zset. destruct (S !! _) as [[[]]|]; cbn [snd]; [apply Forall_nil_2|apply Forall_nil_2|apply Hif|apply Hif]; unfold record_effect; rewrite !Hnm; by rewrite Har.
Qed.

(** ** Replay of a record *)

(** A record that a service wrote. *)
Definition record_fits (args : command) : Prop :=
  1 <= zlen args /\ key_ok (arg args 1) /\
  match find_command (arg args 0) with
  | SERVICE_COMMAND_HSET | SERVICE_COMMAND_HDEL | SERVICE_COMMAND_ZADD | SERVICE_COMMAND_ZREM => request_ok args
  | _ => True
  end.

Lemma pairs_nonempty (args : command) : 4 <= zlen args -> argument_pairs (drop 2 args) <> [].
Proof. destruct args as [|a [|b [|c [|d args]]]]; unfold zlen; cbn [length]; try lia. done. Qed.

(** The effect of a command that answers a count, changed or not. *)
Lemma logged_effect (t : Z) (S : astore) b e r : apply_effects t (logged_if b e r).*1 S = if b then apply_effect t S e else S.
Proof. by destruct b. Qed.

Lemma hset_effect (t : Z) (S : astore) (args : command) :
  4 <= zlen args -> is_error (hset_answer S args).1 = false ->
  apply_effects t (hset_answer S args).2.*1 S = apply_effect t S (EHset (arg args 1) (argument_pairs (drop 2 args))).
Proof.
  intros Hn. pose proof (pairs_nonempty args Hn) as Hp. unfold hset_answer, on_hash. set (pairs := argument_pairs (drop 2 args)) in *.
  destruct (S !! arg args 1) as [[[l|M|l] x]|] eqn:E; cbn [fst snd from_option id]; try done; intros _; rewrite logged_effect.
  - destruct (hset_changes M pairs) eqn:Ec; [done|]. cbn [apply_effect]. rewrite E, hset_unchanged by done. by rewrite insert_id.
  - destruct pairs as [|y pairs]; [done|]. cbn [hset_changes]. by rewrite lookup_empty.
Qed.

Lemma hdel_effect (t : Z) (S : astore) (args : command) :
  is_error (hdel_answer S args).1 = false ->
  apply_effects t (hdel_answer S args).2.*1 S = apply_effect t S (EHdel (arg args 1) (drop 2 args)).
Proof.
  unfold hdel_answer, on_hash. destruct (S !! arg args 1) as [[[l|M|l] x]|] eqn:E; cbn [fst snd from_option id]; try done; intros _; rewrite logged_effect.
  - pose proof (hdel_count_nonneg (drop 2 args) M). destruct (Z.gtb_spec (hdel_removed M (drop 2 args)) 0); [done|].
    cbn [apply_effect]. rewrite E. destruct (Z.eqb_spec (hdel_removed M (drop 2 args)) 0); [done|lia].
  - assert (Hz : forall l, hdel_removed ∅ l = 0). { induction l as [|f l IH]; cbn; [done|]. by rewrite delete_empty. }
    rewrite Hz. cbn [Z.gtb Z.compare apply_effect]. by rewrite E.
Qed.

Lemma zadd_nonempty_changes (members : list zelem) : members <> [] -> zadd_changes [] members = true.
Proof. by destruct members. Qed.

Lemma zadd_effect (t : Z) (S : astore) (args : command) members :
  4 <= zlen args -> record_members (argument_pairs (drop 2 args)) = Some members -> is_error (zadd_answer S args).1 = false ->
  apply_effects t (zadd_answer S args).2.*1 S = apply_effect t S (EZadd (arg args 1) members).
Proof.
  intros Hn. unfold record_members, zadd_answer. pose proof (parse_scores_spec (argument_pairs (drop 2 args)) []) as Hsc. unfold zadd_scores.
  destruct (parse_scores [] _) as [[st scores] m']. destruct Hsc as (_ & Hlen & _). destruct (Z.eqb_spec st 0) as [->|]; [|done]. cbn [negb].
  destruct (Hlen eq_refl) as [Hl _]. intros [= <-]. pose proof (pairs_nonempty args Hn) as Hp. set (pairs := argument_pairs (drop 2 args)) in *.
  assert (Hne : zip scores pairs.*2 <> []). { destruct pairs as [|y pairs]; [done|]. by destruct scores. }
  unfold on_zset. destruct (S !! arg args 1) as [[[l|M|l] x]|] eqn:E; cbn [fst snd from_option id]; try done; intros _; rewrite logged_effect.
  - destruct (zadd_changes l (zip scores pairs.*2)) eqn:Ec; [done|]. cbn [apply_effect]. rewrite E, zadd_unchanged by done. by rewrite insert_id.
  - by rewrite zadd_nonempty_changes.
Qed.

Lemma zrem_effect (t : Z) (S : astore) (args : command) :
  is_error (zrem_answer S args).1 = false ->
  apply_effects t (zrem_answer S args).2.*1 S = apply_effect t S (EZrem (arg args 1) (drop 2 args)).
Proof.
  unfold zrem_answer, on_zset. destruct (S !! arg args 1) as [[[l|M|l] x]|] eqn:E; cbn [fst snd from_option id]; try done; intros _; rewrite logged_effect.
  - assert (Hz : forall names k, 0 <= zrem_removed k names).
    { induction names as [|f names IH]; intros k; cbn; [lia|]. specialize (IH (elem_remove f k)). destruct (is_Some_bool _); lia. }
    specialize (Hz (drop 2 args) l). destruct (Z.gtb_spec (zrem_removed l (drop 2 args)) 0); [done|].
    cbn [apply_effect]. rewrite E. destruct (Z.eqb_spec (zrem_removed l (drop 2 args)) 0); [done|lia].
  - assert (Hz : forall l, zrem_removed [] l = 0) by (induction l as [|f l IH]; cbn; done).
    rewrite Hz. cbn [Z.gtb Z.compare apply_effect]. by rewrite E.
Qed.

Section Replay.
Context {A : Type} `{LogLaws A} (admin : persistence_admin (A := A)).

Abbreviation store_of w := (sv_cache (w_service w)).

(** A service that replays: without a log and without limits. *)
Record replaying (w : world A) : Prop := {
  rp_good : good w;
  rp_init : sv_initialized (w_service w) = true;
  rp_log : sv_aof (w_service w) = None;
  rp_free : limits (store_of w) = (0, 0)
}.

Lemma replaying_steady w w' : replaying w -> steady w w' -> replaying w' /\ w_now w' = w_now w.
Proof. intros [R1 R2 R3 R4] (S1 & S2 & S3 & S4 & S5). split; [|done]. split; [done|congruence|tauto|congruence]. Qed.

(** What the replay at the time [T] can refuse: to store or change a value.  A
    record that removes a key or its deadline is always taken. *)
Definition refusable (T : Z) (e : effect) : Prop :=
  match e with
  | EDel _ | EPersist _ | ENone => False
  | ESet _ _ x => x = 0 \/ T < x
  | EExpire _ x => T < x
  | EHset _ _ | EHdel _ _ | EZadd _ _ | EZrem _ _ => True
  end.

(** The outcome of replaying a record. *)
Definition replayed (e : effect) (w : world A) (r : Z) (w' : world A) : Prop :=
  steady w w' /\ (r = 0 -> visible (w_now w) (store_of w') = apply_effect (w_now w) (visible (w_now w) (store_of w)) e) /\
  (r <> 0 -> refusable (w_now w) e).

Lemma called_free w w' c' (key : list Z) ks x :
  replaying w -> called w w' c' key ks x -> steady w w' /\ visible (w_now w) (store_of w') = place key x (visible (w_now w) (store_of w)).
Proof.
  intros R Hc. destruct Hc as (l & Hrun & Hst & Hkept & Hev). assert (ks = []) as -> by (apply Hev, R). cbn in Hrun.
  split; [by eapply runs_steady|]. apply Hrun.
Qed.

Lemma replay_delete_spec (key : list Z) w :
  replaying w -> wp (replay_delete key) w (replayed (EDel key) w).
Proof.
  intros R. unfold replay_delete, replay_count. apply wp_bind. pose proof (delete_moved (w_now w) (store_of w) key (g_cache _ (rp_good _ R))) as Hd.
  destruct (cache_delete (w_now w) (store_of w) (Some key)) as [r c'] eqn:E. destruct Hd as [Hr Hmv].
  eapply wp_mono; [eapply on_cache_pure_called; [apply R|done|exact Hmv]|]. cbn beta. intros y w1 [-> Hc]. apply wp_ret.
  destruct (called_free _ _ _ _ _ _ R Hc) as [Hs Hv]. split; [done|]. split; [by intros _|]. rewrite Hr. by destruct (is_Some_bool _).
Qed.

Lemma replay_persist_spec (key : list Z) w :
  replaying w -> wp (replay_count (on_cache_pure (fun clock c => cache_persist clock c (Some key)))) w (replayed (EPersist key) w).
Proof.
  intros R. unfold replay_count. apply wp_bind. pose proof (persist_moved (w_now w) (store_of w) key (g_cache _ (rp_good _ R))) as Hd.
  destruct (cache_persist (w_now w) (store_of w) (Some key)) as [r c'] eqn:E. destruct Hd as [Hr Hmv].
  eapply wp_mono; [eapply on_cache_pure_called; [apply R|done|exact Hmv]|]. cbn beta. intros y w1 [-> Hc]. apply wp_ret.
  destruct (called_free _ _ _ _ _ _ R Hc) as [Hs Hv]. split; [done|]. split.
  - intros _. rewrite Hv. cbn. apply partial_alter_ext. by intros ? <-.
  - rewrite Hr. by repeat case_match.
Qed.

Lemma replay_expire_spec (args : command) w deadline :
  replaying w -> record_deadline (arg args 2) = Some deadline ->
  wp (replay_expire args (w_now w)) w (replayed (EExpire (arg args 1) deadline) w).
Proof.
  intros R Hd. unfold replay_expire. unfold record_deadline in Hd. destruct (parse_uint64_bytes (arg args 2)) as [x|] eqn:Ep; [|done].
  destruct (Z.eqb_spec x 0); [done|]. injection Hd as ->.
  pose proof (parse_uint64_range _ _ Ep) as Hu.
  destruct (Z.leb_spec deadline (w_now w)) as [Hle|Hlt].
  { eapply wp_mono; [by apply replay_delete_spec|]. intros r w1 (Hs & Hv & Hno). split; [done|]. split; [|by intros ?%Hno]. intros Hz. rewrite (Hv Hz). cbn [apply_effect].
    by destruct (Z.leb_spec deadline (w_now w)); [|lia]. }
  unfold replay_count. apply wp_bind.
  pose proof (expire_moved (w_mem w) (w_now w) (store_of w) (arg args 1) deadline (g_cache _ (rp_good _ R)) Hu Hlt ltac:(done)) as Hx.
  destruct (cache_expire_at (w_mem w) (w_now w) (store_of w) (Some (arg args 1)) deadline) as [[r c'] m'] eqn:E.
  destruct Hx as [[[Hr Hmv]|[-> Hmv]] Hm]; (eapply wp_mono; [eapply on_cache_called; [apply R|done|exact Hmv|done]|]); cbn beta; intros y w1 [-> Hc]; apply wp_ret;
    destruct (called_free _ _ _ _ _ _ R Hc) as [Hs Hv]; (split; [done|]); (split; [|done]); [|done].
  intros _. rewrite Hv. cbn [apply_effect]. destruct (Z.leb_spec deadline (w_now w)); [lia|]. apply partial_alter_ext. by intros ? <-.
Qed.

Lemma replay_set_spec (args : command) w deadline :
  replaying w -> key_ok (arg args 1) -> u64_ok deadline ->
  wp (if negb (deadline =? 0) && (deadline <=? w_now w) then replay_delete (arg args 1) else
      result ← on_cache_twice (fun m clock later c => cache_set_expire_at m clock later c (Some (arg args 1)) (Some (arg args 2)) deadline);
      mret (if bool_decide (result = CACHE_SET_OK) then 0 else -1)) w
    (replayed (ESet (arg args 1) (arg args 2) deadline) w).
Proof.
  intros R Hk Hu. destruct (negb (deadline =? 0) && (deadline <=? w_now w)) eqn:Eb.
  { eapply wp_mono; [by apply replay_delete_spec|]. intros r w1 (Hs & Hv & Hno). split; [done|]. split; [|by intros ?%Hno]. intros Hz. rewrite (Hv Hz). cbn [apply_effect]. by rewrite Eb. }
  assert (Hf : future (w_now w) deadline).
  { split; [done|]. apply andb_false_iff in Eb as [Eb|Eb]; [left; by apply negb_false_iff, Z.eqb_eq in Eb|right]. apply Z.leb_gt in Eb. lia. }
  apply wp_bind. pose proof (set_moved (w_mem w) (w_now w) (store_of w) (arg args 1) (arg args 2) deadline (g_cache _ (rp_good _ R)) Hf Hk) as Hx.
  destruct (cache_set_expire_at (w_mem w) (w_now w) (w_now w) (store_of w) (Some (arg args 1)) (Some (arg args 2)) deadline) as [[r c'] m'] eqn:E.
  destruct Hx as [(ks & [[-> Hmv]|(Hr & -> & Hmv)]) Hm]; (eapply wp_mono; [eapply on_cache_twice_called; [apply R|done|exact Hmv|done]|]); cbn beta; intros y w1 [-> Hc]; apply wp_ret;
    destruct (called_free _ _ _ _ _ _ R Hc) as [Hs Hv]; (split; [done|]); (split; [|intros _; destruct Hf as [_ [?|?]]; cbn; auto]).
  - intros _. rewrite Hv. cbn [apply_effect]. by rewrite Eb.
  - by destruct Hr as [-> | ->].
Qed.

(** A record that is executed as a command. *)
Lemma replay_command_spec (args : command) w e :
  replaying w -> request_ok args -> data_command (find_command (arg args 0)) = true -> refusable (w_now w) e ->
  (forall t S a, answers t S (find_command (arg args 0)) args a -> is_error a.1 = false -> apply_effects t a.2.*1 S = apply_effect t S e) ->
  wp (replay_command admin args) w (replayed e w).
Proof.
  intros R Hok Hd Href He. unfold replay_command. destruct (Z.gtb_spec (zlen args) RESP_MAX_ARGUMENTS) as [|_]; [destruct Hok as [? _]; lia|].
  apply wp_bind. unfold kvstore_service_execute. apply wp_bind.
  eapply wp_mono; [apply (execute_spec admin args w []); [apply R|apply R| |done|done]|].
  { unfold log_idle. by rewrite (rp_log _ R). }
  intros [ro b] w1 (r & Hr & Hs & Hex). cbn [fst] in Hr. subst ro. apply wp_ret, wp_ret. split; [done|]. split; [|by intros _]. destruct (is_error r) eqn:Eerr; [done|]. intros _.
  destruct Hex as [(a & ks & l & M & Ha & -> & Hev & Hv & _)|[(Hin & _)|(Ht & _)]].
  - rewrite Hv. assert (ks = []) as -> by (apply Hev, R). by apply (He _ _ _ Ha).
  - repeat (apply elem_of_cons in Hin as [->|Hin]; [done|]). by apply not_elem_of_nil in Hin.
  - unfold trouble in Ht. repeat (apply elem_of_cons in Ht as [->|Ht]; [done|]). by apply not_elem_of_nil in Ht.
Qed.

(** The records of the four commands. *)
Lemma replay_original_spec (args : command) w e command :
  replaying w -> request_ok args -> find_command (arg args 0) = command ->
  (command = SERVICE_COMMAND_HSET /\ command_arity_valid command (zlen args) = true /\ e = EHset (arg args 1) (argument_pairs (drop 2 args)) \/
   command = SERVICE_COMMAND_HDEL /\ e = EHdel (arg args 1) (drop 2 args) \/
   command = SERVICE_COMMAND_ZADD /\ command_arity_valid command (zlen args) = true /\
     (EZadd (arg args 1) <$> record_members (argument_pairs (drop 2 args))) = Some e \/
   command = SERVICE_COMMAND_ZREM /\ e = EZrem (arg args 1) (drop 2 args)) ->
  wp (replay_command admin args) w (replayed e w).
Proof.
  intros R Hok E Hc. assert (Hpair : (zlen args >=? 4) && (zlen args mod 2 =? 0) = true -> 4 <= zlen args).
  { intros [Hge _]%andb_true_iff. rewrite Z.geb_leb in Hge. by apply Z.leb_le in Hge. }
  apply replay_command_spec; [done|done|rewrite E; by destruct Hc as [(-> & _)|[(-> & _)|[(-> & _)|(-> & _)]]]| |].
  { destruct Hc as [(_ & _ & ->)|[(_ & ->)|[(_ & _ & He)|(_ & ->)]]]; try done. by apply fmap_Some in He as (? & _ & ->). }
  intros t S a Ha Herr. rewrite E in Ha.
  destruct Hc as [(-> & Har & ->)|[(-> & ->)|[(-> & Har & He)|(-> & ->)]]]; cbn [answers] in Ha; subst a.
  - apply hset_effect; [by apply Hpair|done].
  - by apply hdel_effect.
  - apply fmap_Some in He as (members & Hm & ->). apply zadd_effect; [by apply Hpair|done|done].
  - by apply zrem_effect.
Qed.

Lemma replay_record_spec (args : command) w e :
  replaying w -> record_fits args -> record_effect args = Some e ->
  wp (kvstore_service_replay_aof admin args) w (replayed e w).
Proof.
  intros R (Hn & Hk & Hfit) He. unfold kvstore_service_replay_aof. apply wp_bind, wp_ask. rewrite (rp_init _ R). cbn [negb orb].
  destruct (Z.eqb_spec (zlen args) 0) as [|_]; [lia|]. unfold record_effect in He.
  destruct (argument_equals (arg args 0) (lit "PING") && ((zlen args =? 1) || (zlen args =? 2))).
  { injection He as <-. apply wp_ret. split; [by eapply runs_steady, runs_refl, R|]. by split. }
  apply wp_bind, time_wp; [apply R|].
  destruct (argument_equals (arg args 0) (lit "SET")).
  { unfold replay_set. destruct (Z.eqb_spec (zlen args) 3) as [E3|E3]; cbn [negb andb].
    - injection He as <-. destruct (Z.eqb_spec (zlen args) 5); [lia|]. by apply replay_set_spec.
    - destruct (Z.eqb_spec (zlen args) 5) as [E5|E5]; cbn [negb andb] in He |- *; [|done].
      destruct (argument_equals (arg args 3) (lit "PXAT")); cbn [negb]; [|done]. apply fmap_Some in He as (x & Hx & ->).
      unfold record_deadline in Hx. destruct (parse_uint64_bytes (arg args 4)) as [y|] eqn:Ep; [|done]. destruct (Z.eqb_spec y 0); [done|].
      injection Hx as ->. apply replay_set_spec; [done|done|]. by eapply parse_uint64_range. }
  destruct (argument_equals (arg args 0) (lit "DEL") && (zlen args =? 2)); [injection He as <-; by apply replay_delete_spec|].
  destruct (argument_equals (arg args 0) (lit "PERSIST") && (zlen args =? 2)); [injection He as <-; by apply replay_persist_spec|].
  destruct (argument_equals (arg args 0) (lit "PEXPIREAT") && (zlen args =? 3)).
  { apply fmap_Some in He as (x & Hx & ->). by apply replay_expire_spec. }
  assert (Hname : forall command, command <> SERVICE_COMMAND_UNKNOWN -> argument_equals (arg args 0) (command_name command) = true -> find_command (arg args 0) = command).
  { intros command Hu Hx. apply find_command_by_name; [done|]. by apply argument_equals_spec. }
  destruct (argument_equals (arg args 0) (lit "HSET")) eqn:E1; cbn [orb andb] in *.
  { specialize (Hname SERVICE_COMMAND_HSET ltac:(done) E1).
    destruct (command_arity_valid SERVICE_COMMAND_HSET (zlen args)) eqn:Har; cycle 1.
    { exfalso. rewrite !(name_test args SERVICE_COMMAND_HSET) in He by done. done. }
    injection He as <-. rewrite Hname in Hfit. eapply replay_original_spec; try done. left. done. }
  destruct (argument_equals (arg args 0) (lit "HDEL")) eqn:E2; cbn [orb andb] in *.
  { specialize (Hname SERVICE_COMMAND_HDEL ltac:(done) E2). destruct (command_arity_valid SERVICE_COMMAND_HDEL (zlen args)) eqn:Har; cycle 1.
    { exfalso. rewrite !(name_test args SERVICE_COMMAND_HDEL) in He by done. done. }
    injection He as <-. rewrite Hname in Hfit. eapply replay_original_spec; try done. right; left. done. }
  destruct (argument_equals (arg args 0) (lit "ZADD")) eqn:E3; cbn [orb andb] in *.
  { specialize (Hname SERVICE_COMMAND_ZADD ltac:(done) E3). destruct (command_arity_valid SERVICE_COMMAND_ZADD (zlen args)) eqn:Har; cycle 1.
    { exfalso. rewrite !(name_test args SERVICE_COMMAND_ZADD) in He by done. done. }
    rewrite Hname in Hfit. eapply replay_original_spec; try done. right; right; left. done. }
  destruct (argument_equals (arg args 0) (lit "ZREM")) eqn:E4; cbn [orb andb] in *; [|done].
  specialize (Hname SERVICE_COMMAND_ZREM ltac:(done) E4). destruct (command_arity_valid SERVICE_COMMAND_ZREM (zlen args)); [|done].
  injection He as <-. rewrite Hname in Hfit. eapply replay_original_spec; try done. right; right; right. done.
Qed.
End Replay.
