(* ===== verification/ServiceSession.v ===== *)
(** Sessions of the service: requests, maintenance and the passing of time from
    a fresh start on, and what a restart recovers from the log they leave. *)

From S2P Require Import Prelude Resp HashTable ZOrder Object ExpireHeap LruList Cache Allocation CacheSpec CacheProps.
From S2P Require Import CacheEvents Rdb RdbImage Aof AofCodec AofLog AofProps Double CommandText MysqlStore.
From S2P Require Import CommandProps Service ServiceStore ServiceSpec ServiceRuns ServiceCommands ServiceProps ServiceReplay.

(** ** The record of an answer *)

(** Records that replay understands. *)
Definition record_good (r : command) : Prop := command_ok r /\ record_fits r /\ is_Some (record_effect r).

(** What the records of a log do at the time [T]. *)
Definition replay_record (T : Z) (S : astore) (r : command) : astore := default S (apply_effect T S <$> record_effect r).

Definition replay_records (T : Z) (rs : list command) (S : astore) : astore := fold_left (replay_record T) rs S.

Lemma replay_records_app (T : Z) (r1 r2 : list command) (S : astore) : replay_records T (r1 ++ r2) S = replay_records T r2 (replay_records T r1 S).
Proof. apply fold_left_app. Qed.

Lemma marker_good uuid q : zlen (arg (mysql_marker uuid q) 1) < 64 -> record_good (mysql_marker uuid q).
Proof.
  intros Hl. pose proof (zlen_nonneg (arg (mysql_marker uuid q) 1)). split; [|split; [split_and!; [done| |done]|by eexists]].
  - apply short_record; [done|]. unfold total_length, mysql_marker in *. cbn [fold_right]. unfold arg in Hl. cbn [nth] in Hl.
    change (zlen (lit "PING")) with 4. unfold RESP_MAX_FRAME_SIZE. lia.
  - unfold key_ok, RESP_MAX_FRAME_SIZE. lia.
Qed.

(** The command is not SET or DEL, which do not look at the key. *)
Definition looks (command : service_command) : bool :=
  is_write_command command && negb (bool_decide (command ∈ [SERVICE_COMMAND_SET; SERVICE_COMMAND_DEL])).

Lemma answer_effect (t : Z) (S : astore) command (arguments : AofLog.command) a :
  answers t S command arguments a ->
  a.2 = [] \/ exists e r, a.2 = [(e, r)] /\ effect_key e = Some (arg arguments 1) /\ (depends e = true -> looks command = true).
Proof.
  intros Ha. destruct (is_write_command command) eqn:Hw; [|left; by eapply read_answers].
  assert (Hkey : forall n e r, effect_key e = Some (arg arguments 1) -> (depends e = true -> looks command = true) ->
    (answer_key S (arg arguments 1) n e r).2 = [] \/ exists e' r', (answer_key S (arg arguments 1) n e r).2 = [(e', r')] /\
      effect_key e' = Some (arg arguments 1) /\ (depends e' = true -> looks command = true)).
  { intros n e r Hk Hl. unfold answer_key. cbn [snd]. destruct (n =? 0); [by left|right]. by exists e, r. }
  assert (Hif : forall b e, effect_key e = Some (arg arguments 1) -> looks command = true -> logged_if b e arguments = [] \/
    exists e' r', logged_if b e arguments = [(e', r')] /\ effect_key e' = Some (arg arguments 1) /\ (depends e' = true -> looks command = true)).
  { intros [] e Hk Hl; [right; by exists e, arguments|by left]. }
  assert (Hexp : forall mul, looks command = true -> (expire_answer t S arguments mul).2 = [] \/ exists e r, (expire_answer t S arguments mul).2 = [(e, r)] /\
    effect_key e = Some (arg arguments 1) /\ (depends e = true -> looks command = true)).
  { intros mul Hl. unfold expire_answer. destruct (duration_ms _ _ _) as [[st parsed] ttl]. destruct (negb _); [by left|]. destruct (_ <=? _); [by apply Hkey|].
    destruct (_ >? _); [by left|]. by apply Hkey. }
  destruct command; try done; cbn [answers] in Ha; rewrite Ha.
  - unfold set_answer. destruct (set_option arguments); [by left|]. destruct (_ && _); [by left|]. right. eexists _, _. done.
  - by apply Hkey.
  - by apply Hexp.
  - by apply Hexp.
  - by apply Hkey.
  - unfold hset_answer, on_hash. destruct (S !! _) as [[[]]|]; cbn [snd]; try (by left); by apply Hif.
  - unfold hdel_answer, on_hash. destruct (S !! _) as [[[]]|]; cbn [snd]; try (by left); by apply Hif.
  - unfold zadd_answer. destruct (zadd_scores _) as [st sc]. destruct (negb _); [by left|]. unfold on_zset.
    destruct (S !! _) as [[[]]|]; cbn [snd]; try (by left); by apply Hif.
  - unfold zrem_answer, on_zset. destruct (S !! _) as [[[]]|]; cbn [snd]; try (by left); by apply Hif.
Qed.

Lemma answer_fits (t : Z) (S : astore) command (arguments : AofLog.command) a :
  request_ok arguments -> answers t S command arguments a -> Forall record_fits a.2.*2.
Proof.
  intros Hok Ha. destruct (is_write_command command) eqn:Hw; cycle 1.
  { rewrite (read_answers _ _ _ _ _ Hw Ha). constructor. }
  pose proof (request_key _ Hok) as Hk. assert (Hself : record_fits arguments).
  { split_and!; [apply Hok|done|]. by destruct (find_command _). }
  assert (Hkey : forall n e r, record_fits r -> Forall record_fits (answer_key S (arg arguments 1) n e r).2.*2).
  { intros n e r Hr. unfold answer_key. cbn [snd]. destruct (n =? 0); [constructor|]. by constructor; [|constructor]. }
  assert (Hif : forall b e, Forall record_fits (logged_if b e arguments).*2) by (intros [] e; cbn; [by constructor; [|constructor]|constructor]).
  assert (Hexp : forall mul, Forall record_fits (expire_answer t S arguments mul).2.*2).
  { intros mul. unfold expire_answer. destruct (duration_ms _ _ _) as [[st parsed] ttl]. destruct (negb _); [constructor|]. destruct (_ <=? _); [by apply Hkey|].
    destruct (_ >? _); [constructor|]. by apply Hkey. }
  destruct command; try done; cbn [answers] in Ha; rewrite Ha.
  - unfold set_answer. destruct (set_option arguments); [constructor|]. destruct (_ && _); [constructor|]. constructor; [|constructor]. cbn [snd].
    unfold set_record. by destruct (_ =? 0).
  - by apply Hkey.
  - by apply Hexp.
  - by apply Hexp.
  - by apply Hkey.
  - unfold hset_answer, on_hash. destruct (S !! _) as [[[]]|]; cbn [snd]; try (by constructor); by apply Hif.
  - unfold hdel_answer, on_hash. destruct (S !! _) as [[[]]|]; cbn [snd]; try (by constructor); by apply Hif.
  - unfold zadd_answer. destruct (zadd_scores _) as [st sc]. destruct (negb _); [constructor|]. unfold on_zset.
    destruct (S !! _) as [[[]]|]; cbn [snd]; try (by constructor); by apply Hif.
  - unfold zrem_answer, on_zset. destruct (S !! _) as [[[]]|]; cbn [snd]; try (by constructor); by apply Hif.
Qed.

(** ** Sessions *)

Section Sessions.
Context {A : Type} `{LogLaws A} (admin : persistence_admin (A := A)).

Abbreviation store_of w := (sv_cache (w_service w)).

Definition set_clock (t : Z) (w : world A) : world A := mk_world (w_mem w) t (w_ticks w) (w_service w).

(** The request does not look at a key that expires by the time [T]. *)
Definition lasting (T : Z) (arguments : command) (w : world A) : Prop :=
  looks (find_command (arg arguments 0)) = true ->
  forall x, visible (w_now w) (store_of w) !! arg arguments 1 = Some x -> outlives T x = true.

(** The log can number further transactions. *)
Definition log_usable (w : world A) : Prop :=
  match sv_aof (w_service w) with Some a => ~ log_exhausted a | None => True end.

(** A request that was carried out. *)
Record requested (T : Z) (arguments : command) (reply : kvstore_reply) (barrier : Z) (w w' : world A) : Prop := {
  rq_ok : request_ok arguments;
  rq_data : data_command (find_command (arg arguments 0)) = true;
  rq_lasting : lasting T arguments w;
  rq_run : kvstore_service_execute_with_barrier admin arguments w = ((Some reply, barrier), w');
  rq_reply : ~ trouble reply;
  rq_usable : log_usable w'
}.

(** A session before the time [T]. *)
Inductive session (T : Z) (w0 : world A) : world A -> Prop :=
| session_start : session T w0 w0
| session_clock w t : session T w0 w -> w_now w <= t <= T -> session T w0 (set_clock t w)
| session_maintain w : session T w0 w -> session T w0 (kvstore_service_maintain w).2
| session_flush w : session T w0 w -> session T w0 (kvstore_service_flush w).2
| session_request w arguments reply barrier w' :
    session T w0 w -> requested T arguments reply barrier w w' -> session T w0 w'.

Lemma session_trans T w0 w1 w2 : session T w0 w1 -> session T w1 w2 -> session T w0 w2.
Proof.
  intros H1 H2. induction H2 as [|w t _ IH Ht|w _ IH|w _ IH|w args r b w' _ IH E]; [done|by constructor|by constructor|by constructor|].
  by eapply session_request.
Qed.

(** The service between requests, with the transactions [d] in its log. *)
Record serving (d : transactions) (w : world A) : Prop := {
  se_good : good w;
  se_init : sv_initialized (w_service w) = true;
  se_free : limits (store_of w) = (0, 0);
  se_log : log_idle w d
}.

(** The store of [w] is what the records make of [S] at the time [T]. *)
Definition recovers (T : Z) (rs : list command) (S : astore) (w : world A) : Prop :=
  replay_records T rs S = alive T (visible (w_now w) (store_of w)).

Definition prefixes_recover (T : Z) (rs : list command) (S S' : astore) : Prop :=
  forall p, p `prefix_of` rs -> replay_records T p S = S \/ replay_records T p S = S'.

Lemma clock_serving d w T t : serving d w -> 0 <= w_now w <= t -> t <= T -> u64_ok T ->
  serving d (set_clock t w) /\ alive T (visible t (store_of w)) = alive T (visible (w_now w) (store_of w)).
Proof.
  intros [[G1 G2 G3] S2 S3 S4] Ht HT Hu. split.
  - split; [split; cbn; try done; unfold u64_ok in *; lia|done..].
  - rewrite (visible_later (w_now w) t) by lia. apply alive_later. lia.
Qed.

Lemma maintain_serving d w :
  serving d w -> serving d (kvstore_service_maintain w).2 /\ w_now (kvstore_service_maintain w).2 = w_now w /\
  visible (w_now w) (store_of (kvstore_service_maintain w).2) = visible (w_now w) (store_of w).
Proof.
  intros [[G1 G2 G3] S2 S3 S4].
  pose proof (maintain_quiet (w_now w) (store_of w) 64 16 G1 ltac:(lia) ltac:(lia)) as (Q1 & Q2 & Q3).
  destruct w as [m t ticks s]. cbn [w_mem w_now w_ticks w_service] in *. subst ticks. pose proof (cg_calls _ Q1) as Hc.
  assert (Hw : with_calls [] (cache_maintain t (sv_cache s) 64 16).2 = (cache_maintain t (sv_cache s) 64 16).2).
  { destruct (cache_maintain t (sv_cache s) 64 16) as [r c']. cbn [snd] in *. destruct c'. cbn in *. by subst. }
  assert (E : (kvstore_service_maintain (mk_world m t [] s)).2 = mk_world m t [] (put_cache (cache_maintain t (sv_cache s) 64 16).2 s)).
  { unfold kvstore_service_maintain, on_cache_pure, on_cache, mbind, cmd_bind, ask, current_time, cache_run. cbn [w_mem w_now w_ticks w_service head tail default].
    rewrite S2. cbn [negb]. destruct (cache_maintain t (sv_cache s) 64 16) as [r c'] eqn:Em. cbn [snd] in *. cbn. rewrite Em. cbn. rewrite Hc. cbn. by rewrite Hw, Z.add_0_r. }
  rewrite E. cbn [w_now w_service store_of]. split; [|done]. split; [by split|done|cbn; congruence|done].
Qed.

Lemma flush_serving d w :
  serving d w -> serving d (kvstore_service_flush w).2 /\ w_now (kvstore_service_flush w).2 = w_now w /\ store_of (kvstore_service_flush w).2 = store_of w.
Proof.
  intros [[G1 G2 G3] S2 S3 S4]. unfold kvstore_service_flush, mbind, cmd_bind, ask, flush_log. rewrite S2. cbn [negb]. unfold log_idle in S4.
  destruct (sv_aof (w_service w)) as [a|] eqn:Ea; cbn [Z.eqb negb andb mret cmd_ret snd].
  - destruct (law_flush a d S4) as (a' & -> & Hr). cbn. split; [|done]. by split; [split|..].
  - split; [|done]. split; [by split|done|done|]. unfold log_idle. by rewrite Ea.
Qed.

(** A request adds to the log what it did to the store. *)
Lemma request_serving T d w arguments reply barrier w' :
  serving d w -> 0 <= w_now w <= T -> requested T arguments reply barrier w w' ->
  exists rs, (rs = [] -> barrier = 0) /\ serving (add_transaction d barrier rs) w' /\ w_now w' = w_now w /\ Forall record_good rs /\
    replay_records T rs (alive T (visible (w_now w) (store_of w))) = alive T (visible (w_now w) (store_of w')) /\
    prefixes_recover T rs (alive T (visible (w_now w) (store_of w))) (alive T (visible (w_now w) (store_of w'))).
Proof.
  intros [S1 S2 S3 S4] Ht [Hok Hd Hlast E Hnt Huse]. pose proof (execute_spec admin arguments w d S1 S2 S4 Hok Hd) as Hex.
  unfold wp in Hex. rewrite E in Hex. cbn [fst snd] in Hex. destruct Hex as (r & [= <-] & (G' & Hn & Hi & Hl & _) & Hex).
  assert (Hserv : forall rs, log_has w' d barrier rs -> serving (add_transaction d barrier rs) w').
  { intros rs [_ Hh]. split; [done|congruence|congruence|]. unfold log_idle, log_usable in *. destruct (sv_aof (w_service w')); [by destruct Hh|done]. }
  assert (Hmark : forall M, M = [] \/ marked M -> Forall record_good M /\ forall S p, p `prefix_of` M -> replay_records T p S = S).
  { intros M [->|(uuid & q & -> & Hq)].
    - split; [constructor|]. by intros S p ->%prefix_nil_inv.
    - split; [constructor; [by apply marker_good|constructor]|]. intros S p Hp. destruct p as [|x p]; [done|].
      apply prefix_cons_inv_1 in Hp as Hx. apply prefix_cons_inv_2 in Hp. subst x. by apply prefix_nil_inv in Hp as ->. }
  destruct Hex as [(a & ks & l & M & Ha & -> & Hev & Hv & Hlog & [Hsub _] & Har & HM)|[(_ & Hv & Hlog)|(Hbad & _)]]; [| |done].
  - assert (ks = []) as -> by (by apply Hev). apply sublist_nil_r in Hsub as ->. cbn [app] in Hlog. destruct (Hmark M HM) as [Hgood Hpre].
    assert (Hrep : forall S, replay_records T M S = S) by (intros S; by apply Hpre).
    change (evicting (w_now w) [] a.2.*1 (visible (w_now w) (store_of w))) with (apply_effects (w_now w) a.2.*1 (visible (w_now w) (store_of w))) in Hv.
    exists (a.2.*2 ++ M). split; [apply Hlog|]. split; [by apply Hserv|]. split; [done|]. pose proof (answer_effect _ _ _ _ _ Ha) as [Hnil|(e & rec & Hone & Hkey & Hdep)].
    + rewrite Hnil in *. cbn [fmap list_fmap fst snd app apply_effects fold_left] in Hv |- *. rewrite Hv, Hrep. split; [done|]. split; [done|]. intros p Hp. left. by apply Hpre.
    + specialize (Har ltac:(by rewrite Hone)). pose proof (answers_faithful _ _ _ _ _ (g_now _ S1) Har eq_refl Ha) as Hf.
      pose proof (answer_records_ok _ _ _ _ _ Hok Har Ha) as Hcok. pose proof (answer_fits _ _ _ _ _ Hok Ha) as Hfit.
      rewrite Hone in *. cbn [fmap list_fmap fst snd app] in *. apply Forall_cons in Hf as [Hf _]. apply Forall_cons in Hcok as [Hcok _].
      apply Forall_cons in Hfit as [Hfit _]. unfold faithful in Hf. cbn [fst snd] in Hf.
      assert (Hstep : forall S, replay_record T S rec = apply_effect T S e) by (intros S; unfold replay_record; by rewrite Hf).
      assert (Hlater : replay_record T (alive T (visible (w_now w) (store_of w))) rec = alive T (visible (w_now w) (store_of w'))).
      { rewrite Hstep, Hv. cbn [apply_effects fold_left]. apply effect_later; [done|]. intros Hdp k x Hk Hx. rewrite Hkey in Hk. injection Hk as <-.
        apply Hlast; [by apply Hdep|done]. }
      split; [constructor; [|done]; split; [done|]; split; [done|by eexists]|]. unfold replay_records in *. cbn [fold_left]. rewrite Hlater.
      split; [apply Hrep|]. intros p Hp. destruct p as [|x p]; [by left|]. apply prefix_cons_inv_1 in Hp as Hx. apply prefix_cons_inv_2 in Hp. subst x.
      right. unfold replay_records. cbn [fold_left]. rewrite Hlater. by apply Hpre.
  - destruct (Hlog Hnt) as (M & Hm & HM). destruct (Hmark M HM) as [Hgood Hpre]. exists M. split; [apply Hm|]. split; [by apply Hserv|]. split; [done|]. split; [done|].
    rewrite Hv. split; [by apply Hpre|]. intros p Hp. left. by apply Hpre.
Qed.

(** The log [d] has the transactions [d0] and then the records [rs]. *)
Definition log_grew (d0 d : transactions) (rs : list command) : Prop := exists x, d = d0 ++ x /\ all_commands x = rs.

Lemma log_grew_refl d : log_grew d d [].
Proof. exists []. by rewrite app_nil_r. Qed.

Lemma log_grew_add d0 d rs q txn : log_grew d0 d rs -> log_grew d0 (add_transaction d q txn) (rs ++ txn).
Proof.
  intros (x & -> & <-). destruct txn as [|y txn]; cbn [add_transaction]; [rewrite app_nil_r; by exists x|].
  exists (x ++ [(q, y :: txn)]). split; [by rewrite app_assoc|]. unfold all_commands. rewrite fmap_app, concat_app. cbn. by rewrite app_nil_r.
Qed.

(** What a session leaves: a log whose every prefix stands for a state that the
    session went through. *)
Lemma session_serving T d0 w0 w :
  serving d0 w0 -> w_now w0 <= T -> u64_ok T -> session T w0 w ->
  w_now w0 <= w_now w <= T /\ exists d rs, serving d w /\ log_grew d0 d rs /\ Forall record_good rs /\
    recovers T rs (alive T (visible (w_now w0) (store_of w0))) w /\
    forall p, p `prefix_of` rs -> exists w1, session T w0 w1 /\ session T w1 w /\
      recovers T p (alive T (visible (w_now w0) (store_of w0))) w1.
Proof.
  intros S0 Hle Hu Hs. pose proof (g_now _ (se_good _ _ S0)) as Hz. unfold u64_ok in Hz.
  induction Hs as [|w t Hs [IH1 (d & rs & I1 & I0 & I2 & I3 & I4)] Ht|w Hs [IH1 (d & rs & I1 & I0 & I2 & I3 & I4)]|w Hs [IH1 (d & rs & I1 & I0 & I2 & I3 & I4)]|w args r b w' Hs [IH1 (d & rs & I1 & I0 & I2 & I3 & I4)] E].
  - split; [lia|]. exists d0, []. split_and!; [done|apply log_grew_refl|constructor|done|]. intros p ->%prefix_nil_inv. exists w0. split_and!; [constructor|constructor|done].
  - destruct (clock_serving d w T t I1 ltac:(lia) ltac:(lia) Hu) as [J1 J2]. split; [cbn; lia|]. exists d, rs. split_and!; [done|done|done| |].
    + unfold recovers in *. cbn. by rewrite J2.
    + intros p Hp. destruct (I4 p Hp) as (w1 & K1 & K2 & K3). exists w1. split_and!; [done|by constructor|done].
  - destruct (maintain_serving _ _ I1) as (J1 & J2 & J3). rewrite J2. split; [lia|]. exists d, rs. split_and!; [done|done|done| |].
    + unfold recovers in *. by rewrite J2, J3.
    + intros p Hp. destruct (I4 p Hp) as (w1 & K1 & K2 & K3). exists w1. split_and!; [done|by constructor|done].
  - destruct (flush_serving _ _ I1) as (J1 & J2 & J3). rewrite J2. split; [lia|]. exists d, rs. split_and!; [done|done|done| |].
    + unfold recovers in *. by rewrite J2, J3.
    + intros p Hp. destruct (I4 p Hp) as (w1 & K1 & K2 & K3). exists w1. split_and!; [done|by constructor|done].
  - destruct (request_serving T d w args r b w' I1 ltac:(lia) E) as (rs' & _ & J1 & J2 & J3 & J4 & J5).
    rewrite J2. split; [lia|]. exists (add_transaction d b rs'), (rs ++ rs'). split_and!; [done| |by apply Forall_app| |].
    + by apply log_grew_add.
    + unfold recovers in *. by rewrite replay_records_app, I3, J2.
    + intros p Hp. assert (Hstep : session T w w') by (eapply session_request; [constructor|done]).
      destruct (prefix_app_cases p rs rs' Hp) as [Hp'|(q & -> & Hq)].
      * destruct (I4 p Hp') as (w1 & K1 & K2 & K3). exists w1. split_and!; [done|by eapply session_trans|done].
      * unfold recovers in *. rewrite replay_records_app, I3. destruct (J5 q Hq) as [Eq|Eq]; [exists w|exists w']; (split_and!; [|by try constructor|by rewrite ?J2]); [done|].
        by eapply session_trans.
Qed.

(** ** Restarts *)

Definition replay_callback (w : world A) (args : command) : Z * world A := kvstore_service_replay_aof admin args w.

Lemma run_replay rs v v' :
  replaying v -> Forall record_good rs -> run_commands replay_callback v rs = Some v' ->
  replaying v' /\ w_now v' = w_now v /\
  visible (w_now v) (store_of v') = replay_records (w_now v) rs (visible (w_now v) (store_of v)).
Proof.
  revert v. induction rs as [|r rs IH]; intros v R Hg Hrun; cbn [run_commands] in Hrun; [by injection Hrun as <-|].
  apply Forall_cons in Hg as [(_ & Hfit & e & He) Hg]. pose proof (replay_record_spec admin r v e R Hfit He) as Hs. unfold wp, replayed in Hs.
  unfold replay_callback at 1 in Hrun. destruct (kvstore_service_replay_aof admin r v) as [x v1]. cbn [fst snd] in Hs.
  destruct (Z.eqb_spec x 0) as [->|]; [|done]. destruct Hs as (Hst & Hv & _). destruct (replaying_steady _ _ R Hst) as [R1 Hn].
  destruct (IH v1 R1 Hg Hrun) as (I1 & I2 & I3). split; [done|]. rewrite I2, Hn. split; [done|]. rewrite Hn in I3. rewrite I3.
  unfold replay_records. cbn [fold_left]. unfold replay_record at 3. rewrite He. cbn [fmap option_fmap option_map from_option id default].
  by rewrite <- (Hv eq_refl).
Qed.

Lemma alive_empty T : alive T ∅ = ∅.
Proof. apply map_eq. intros k. rewrite alive_lookup. by rewrite lookup_empty. Qed.

(** The store after the transactions [d] is that of [w]. *)
Definition stands_for (T : Z) (d : transactions) (w : world A) : Prop :=
  Forall record_good (all_commands d) /\ recovers T (all_commands d) ∅ w.

Lemma all_commands_app (d x : transactions) : all_commands (d ++ x) = all_commands d ++ all_commands x.
Proof. unfold all_commands. by rewrite fmap_app, concat_app. Qed.

Lemma all_commands_add d q txn : all_commands (add_transaction d q txn) = all_commands d ++ txn.
Proof. destruct txn; cbn [add_transaction]; [by rewrite app_nil_r|]. rewrite all_commands_app. cbn. by rewrite app_nil_r. Qed.

(** A session that goes on from [w0]. *)
Lemma session_prefix T d0 w0 w :
  serving d0 w0 -> stands_for T d0 w0 -> w_now w0 <= T -> u64_ok T -> session T w0 w ->
  w_now w0 <= w_now w <= T /\ exists x, serving (d0 ++ x) w /\ stands_for T (d0 ++ x) w /\
    forall p, all_commands d0 `prefix_of` p -> p `prefix_of` all_commands (d0 ++ x) -> exists w1, session T w0 w1 /\ session T w1 w /\ recovers T p ∅ w1.
Proof.
  intros S0 [Hg Hr] Hle Hu Hs. destruct (session_serving T d0 w0 w S0 Hle Hu Hs) as (Ht & d & rs & J1 & (x & -> & J0) & J2 & J3 & J4).
  unfold recovers in Hr. split; [done|]. exists x. split; [done|]. unfold stands_for. rewrite all_commands_app, J0. split.
  - split; [by apply Forall_app|]. unfold recovers in *. by rewrite replay_records_app, Hr.
  - intros p [q ->] Hq. apply prefix_app_inv in Hq. destruct (J4 q Hq) as (w1 & K1 & K2 & K3). exists w1. split_and!; [done|done|].
    unfold recovers in *. by rewrite replay_records_app, Hr.
Qed.

(** A request that goes on from [w]. *)
Lemma request_stands T d w arguments reply barrier w' :
  serving d w -> stands_for T d w -> 0 <= w_now w <= T -> requested T arguments reply barrier w w' ->
  exists rs, (barrier <> 0 -> rs <> []) /\ serving (add_transaction d barrier rs) w' /\ stands_for T (add_transaction d barrier rs) w' /\ w_now w' = w_now w.
Proof.
  intros Hs [Hg Hr] Ht Hreq. destruct (request_serving T d w arguments reply barrier w' Hs Ht Hreq) as (rs & J0 & J1 & J2 & J3 & J4 & _).
  exists rs. split; [tauto|]. split; [done|]. split; [|done]. unfold stands_for, recovers in *. rewrite all_commands_add. split; [by apply Forall_app|].
  by rewrite replay_records_app, Hr, J2.
Qed.

(** The service refuses a record of the log that is read from [offset] on: it took
    the records before this one, which is whole and stores or changes a value. *)
Definition refuses (offset : Z) (v : world A) (file : list Z) : Prop :=
  exists pre taken r e rest v1,
    file = pre ++ log_bytes taken ++ request_frame r ++ rest /\ zlen pre = offset /\ run_commands replay_callback v taken = Some v1 /\
    record_effect r = Some e /\ refusable (w_now v) e /\ (replay_callback v1 r).1 <> 0.

Lemma run_refuses rs v :
  replaying v -> Forall record_good rs -> run_commands replay_callback v rs = None ->
  exists taken r e rest v1, rs = taken ++ r :: rest /\ run_commands replay_callback v taken = Some v1 /\
    record_effect r = Some e /\ refusable (w_now v) e /\ (replay_callback v1 r).1 <> 0.
Proof.
  revert v. induction rs as [|r rs IH]; intros v R Hg Hrun; [done|]. cbn [run_commands] in Hrun. pose proof Hg as [(_ & Hfit & e & He) Hg']%Forall_cons.
  pose proof (replay_record_spec admin r v e R Hfit He) as Hs. unfold wp, replayed in Hs. fold (replay_callback v r) in Hs. destruct (replay_callback v r) as [x v1] eqn:Ec.
  cbn [fst snd] in Hs. destruct Hs as (Hst & _ & Hno). destruct (Z.eqb_spec x 0) as [->|Hx].
  - destruct (replaying_steady _ _ R Hst) as [R1 Hn]. destruct (IH v1 R1 Hg' Hrun) as (taken & r' & e' & rest & v2 & -> & H2 & H3 & H4 & H5).
    exists (r :: taken), r', e', rest, v2. split; [done|]. cbn [run_commands]. rewrite Ec. cbn [Z.eqb]. rewrite <- Hn. by split_and!.
  - exists [], r, e, rs, v. split_and!; try done; [by apply Hno|by rewrite Ec].
Qed.

(** Replaying a log from the end of [pre] on. *)
Lemma replay_outcome S pre p tail v w :
  Forall record_good p -> torn tail -> replaying v -> visible (w_now v) (store_of v) = S -> recovers (w_now v) p S w ->
  let '(r, file', v', _) := aof_replay_from replay_ok (pre ++ log_bytes p ++ tail) (zlen pre) replay_callback v in
  r = 0 /\ replaying v' /\ visible (w_now v) (store_of v') = alive (w_now v) (visible (w_now w) (store_of w)) \/
  r = -1 /\ file' = pre ++ log_bytes p ++ tail /\ refuses (zlen pre) v (pre ++ log_bytes p ++ tail).
Proof.
  intros Hg Htorn R Hv Hrec. assert (Hok : Forall command_ok p) by (eapply Forall_impl; [exact Hg|]; by intros r [? _]).
  destruct (run_commands replay_callback v p) as [v'|] eqn:Hrun.
  - rewrite (replay_spec replay_callback pre p tail v v' Hok Htorn Hrun). left. destruct (run_replay p v v' R Hg Hrun) as (R' & Hn & Hvis).
    split_and!; try done. by rewrite Hvis, Hv.
  - destruct (replay_refused replay_callback pre p tail v Hok Hrun) as (v' & st & ->). right. split_and!; try done.
    destruct (run_refuses p v R Hg Hrun) as (taken & r & e & rest & v1 & -> & H1 & H2 & H3 & H4).
    exists pre, taken, r, e, (log_bytes rest ++ tail), v1. split_and!; try done. by rewrite log_bytes_app, log_bytes_cons, <- !app_assoc.
Qed.

(** ** Starting *)

(** A service that starts with the records [p] in its log and in its store. *)
Definition started (T : Z) (p : list command) (w : world A) : Prop := serving [(0, p)] w /\ stands_for T [(0, p)] w.

(** A new service, before a log is attached. *)
Lemma init_service m max_keys max_memory engine (s : kvstore_service A) m' :
  0 <= max_keys -> 0 <= max_memory < 2 ^ 63 ->
  kvstore_service_init_with_config m max_keys max_memory engine = (Some s, m') ->
  cache_good (sv_cache s) /\ c_entries (sv_cache s) = ∅ /\ limits (sv_cache s) = (max_keys, max_memory) /\
  sv_initialized s = true /\ sv_aof s = None.
Proof.
  intros Hk Hm E. unfold kvstore_service_init_with_config in E. pose proof (create_ok m max_keys max_memory Hk Hm) as Hc.
  destruct (cache_create m max_keys max_memory) as [[c|] m1] eqn:Ec; [|done]. injection E as <- <-. cbn [sv_cache sv_initialized sv_aof].
  destruct Hc as ([Hcore Hw] & He & Hmk & Hmm). split_and!; [|done|unfold limits; cbn; by rewrite Hmk, Hmm|done|done]. split.
  - exists []. split; [|done]. destruct Hcore as [C1 C2 C3 C4 C5 C6 C7 C8]. split; try done. by destruct C8.
  - intros k e. cbn. by rewrite He, lookup_empty.
  - done.
  - unfold cache_create in Ec. destruct (malloc m) as [[] m2]; [|done]. cbn [negb] in Ec.
    destruct (kv_hash_create m2) as [[ix|] m3]; [|done]. by injection Ec as <- <-.
  - intros k [e Hk2]. cbn in Hk2. by rewrite He, lookup_empty in Hk2.
Qed.

Lemma empty_visible t c : c_entries c = ∅ -> visible t c = ∅.
Proof. intros E. apply map_eq. intros k. rewrite visible_lookup. unfold live_entry. by rewrite E, !lookup_empty. Qed.

(** A new service replays into an empty store; with an empty log it starts. *)
Lemma init_replaying m engine (s : kvstore_service A) m' m1 t :
  kvstore_service_init_with_config m 0 0 engine = (Some s, m') -> u64_ok t ->
  replaying (mk_world m1 t [] s) /\ visible t (sv_cache s) = ∅.
Proof.
  intros E Ht. destruct (init_service m 0 0 engine s m' ltac:(lia) ltac:(lia) E) as (H1 & H2 & H3 & H4 & H5).
  split; [by split|]. by apply empty_visible.
Qed.

Lemma init_started m engine (s : kvstore_service A) m' m1 t a T :
  kvstore_service_init_with_config m 0 0 engine = (Some s, m') -> u64_ok t -> log_repr a None [(0, [])] ->
  started T [] (mk_world m1 t [] (kvstore_service_attach_aof (Some a) s)).
Proof.
  intros E Ht Ha. destruct (init_service m 0 0 engine s m' ltac:(lia) ltac:(lia) E) as (H1 & H2 & H3 & H4 & H5).
  unfold kvstore_service_attach_aof. rewrite H4. split.
  - split; [by split|done|done|exact Ha].
  - split; [constructor|]. unfold recovers. cbn. by rewrite empty_visible, alive_empty.
Qed.
End Sessions.
