(* ===== verification/ServiceLog.v ===== *)
(** The append-only log as the service uses it: the calls of the service with
    the writer thread running between them satisfy the laws of a log. *)

From S2P Require Import Prelude Allocation Resp ZOrder Rdb RdbImage Aof AofCodec AofLog AofProps CommandText MysqlStore Service ServiceStore ServiceSpec.

(** ** The log and its writer *)

(** The schedule says what the writer does before each call. *)
Record shared_log : Type := mk_shared_log {
  sl_aof : aof; sl_writer : writer_pc; sl_schedule : list (list writer_event)
}.

Fixpoint run_writer (evs : list writer_event) (pc : writer_pc) (a : aof) : writer_pc * aof :=
  match evs with
  | [] => (pc, a)
  | ev :: evs =>
      match writer_step ev pc a with
      | Some (pc, a) => run_writer evs pc a
      | None => run_writer evs pc a
      end
  end.

Definition interleave (s : shared_log) : shared_log :=
  let '(pc, a) := run_writer (default [] (head (sl_schedule s))) (sl_writer s) (sl_aof s) in
  mk_shared_log a pc (tail (sl_schedule s)).

Definition with_log (a : aof) (s : shared_log) : shared_log := mk_shared_log a (sl_writer s) (sl_schedule s).

#[export] Instance shared_log_ops : LogOps shared_log := {
  log_is_failed s := aof_is_failed (sl_aof s);
  log_begin s :=
    let s := interleave s in let '(r, a) := aof_transaction_begin (sl_aof s) in (r, with_log a s);
  log_append m s arguments :=
    let s := interleave s in let '(r, a, m) := aof_append m (sl_aof s) arguments in (r, with_log a s, m);
  log_commit m s :=
    let s := interleave s in let '(r, q, a, m) := aof_transaction_commit m (sl_aof s) in (r, q, with_log a s, m);
  log_rollback s := let s := interleave s in with_log (aof_transaction_rollback (sl_aof s)) s;
  log_flush s :=
    let s := interleave s in '(r, a) ← flush_now (sl_aof s); Some (r, with_log a s);
  log_info s := aof_get_info (sl_aof s)
}.

(** ** What the log holds *)

Record log_state (policy : aof_fsync_policy) (cmds : list command) (s : shared_log) (pc : producer_pc) (h : history) : Prop := {
  ls_cmds : Forall command_ok cmds;
  ls_reach : reach policy cmds (mk_system (sl_aof s) pc (sl_writer s) h);
  ls_torn : h_torn h = false;
  ls_count : h_count h < 2 ^ 64;
  ls_pend : h_pend h = [];
  ls_capacity : 0 <= pr_transaction_capacity (a_producer (sl_aof s)) /\ 0 <= pr_pending_capacity (a_producer (sl_aof s))
}.

Definition log_contents (s : shared_log) (txn : option (list command)) (d : transactions) : Prop :=
  exists policy cmds h, log_state policy cmds s PIdle h /\
    txn = (if pr_active (a_producer (sl_aof s)) then Some (h_txn h) else None) /\ d = h_log h.

Lemma state_inv policy cmds s pc h : log_state policy cmds s pc h -> exists base, log_inv base (mk_system (sl_aof s) pc (sl_writer s) h).
Proof. intros H. eapply reach_inv; [apply H|apply H|apply H|apply H]. Qed.

(** ** The writer changes neither buffers nor numbers of the producer *)

Lemma consume_producer n a pc a' :
  writer_consume n a = Some (pc, a') -> a_producer a' = a_producer a /\ (sh_error (a_shared a) <> 0 -> sh_error (a_shared a') <> 0).
Proof.
  unfold writer_consume, consume_written. cbn. destruct (consume_loop _ _ _ _ _) as [[[[q c] r] d]|]; [|done]. intros [= _ <-].
  destruct (_ && _); cbn; done.
Qed.

Lemma writer_producer ev pc a pc' a' :
  writer_step ev pc a = Some (pc', a') -> a_producer a' = a_producer a /\ (sh_error (a_shared a) <> 0 -> sh_error (a_shared a') <> 0).
Proof.
  destruct pc; cbn [writer_step].
  - intros [= E]. unfold writer_top in E. destruct (_ && _); [by injection E as <- <-|].
    destruct (sh_queue _); [|by injection E as <- <-]. destruct (sh_stopping _); [by injection E as <- <-|].
    destruct ev; try (by injection E as <- <-). cbn in E. by destruct (a_policy a); injection E as <- <-.
  - destruct ev; try done; try (by intros [= <- <-]). destruct (_ && _); [by intros [= <- <-]|]. destruct (_ =? 0); [by intros [= <- <-]|done].
  - apply consume_producer.
  - unfold sync_enter. destruct (a_sync_mutex a); [done|]. destruct (_ <=? _); by intros [= <- <-].
  - destruct ev; try done; by intros [= <- <-].
  - intros [= <- <-]. done.
  - intros [= <- <-]. by destruct (_ >? _).
  - destruct ev; try (by intros [= <- <-]). destruct (a_policy a); by intros [= <- <-].
  - intros [= <- <-]. split; [done|]. cbn. unfold publish_error. intros Hz. destruct (Z.eqb_spec (sh_error (a_shared a)) 0); done.
  - intros [= <- <-]. done.
  - done.
Qed.

Lemma run_writer_state policy cmds evs pc0 h a pc :
  reach policy cmds (mk_system a pc0 pc h) ->
  let '(pc', a') := run_writer evs pc a in
  reach policy cmds (mk_system a' pc0 pc' h) /\ a_producer a' = a_producer a /\ (sh_error (a_shared a) <> 0 -> sh_error (a_shared a') <> 0).
Proof.
  revert a pc. induction evs as [|ev evs IH]; intros a pc Hr; cbn [run_writer]; [done|].
  destruct (writer_step ev pc a) as [[pc1 a1]|] eqn:E; [|by apply IH].
  destruct (writer_producer _ _ _ _ _ E) as [Hp He]. specialize (IH a1 pc1). destruct (run_writer evs pc1 a1) as [pc' a'].
  destruct IH as (I1 & I2 & I3); [|split; [done|]; split; [congruence|tauto]].
  eapply reach_step; [exact Hr|]. exact (step_writer (mk_system a pc0 pc h) ev pc1 a1 E).
Qed.

Lemma interleave_state policy cmds s pc h :
  log_state policy cmds s pc h ->
  log_state policy cmds (interleave s) pc h /\ a_producer (sl_aof (interleave s)) = a_producer (sl_aof s).
Proof.
  intros [L1 L2 L3 L4 L5 L6]. unfold interleave. pose proof (run_writer_state policy cmds (default [] (head (sl_schedule s))) pc h _ _ L2) as Hr.
  destruct (run_writer _ _ _) as [pc' a']. destruct Hr as (R1 & R2 & _). cbn. split; [|done]. split; cbn; try done. by rewrite R2.
Qed.

Lemma run_writer_failed evs pc a : aof_is_failed a = true -> aof_is_failed (run_writer evs pc a).2 = true.
Proof.
  revert pc a. induction evs as [|ev evs IH]; intros pc a Hf; cbn [run_writer]; [done|].
  destruct (writer_step ev pc a) as [[pc1 a1]|] eqn:E; [|by apply IH]. apply IH.
  apply writer_producer in E as [_ He]. unfold aof_is_failed, aof_last_error in *. destruct (Z.eqb_spec (sh_error (a_shared a)) 0); [done|].
  destruct (Z.eqb_spec (sh_error (a_shared a1)) 0); [tauto|done].
Qed.

Lemma interleave_failed s : aof_is_failed (sl_aof s) = true -> aof_is_failed (sl_aof (interleave s)) = true.
Proof.
  intros Hf. unfold interleave. pose proof (run_writer_failed (default [] (head (sl_schedule s))) (sl_writer s) _ Hf) as Hr.
  by destruct (run_writer _ _ _).
Qed.

(** ** The calls *)

(** A call that ends at once. *)
Lemma call_state policy cmds s h ev pc a r :
  log_state policy cmds s PIdle h -> producer_call ev (sl_aof s) = Some (pc, a, r) ->
  let h' := record_step ev PIdle (sl_aof s) pc r h in
  h_torn h' = false -> h_count h' < 2 ^ 64 -> h_pend h' = [] ->
  0 <= pr_transaction_capacity (a_producer a) /\ 0 <= pr_pending_capacity (a_producer a) ->
  log_state policy cmds (with_log a s) pc h'.
Proof.
  intros [L1 L2 L3 L4 L5 L6] E h' H1 H2 H3 H4. split; cbn; try done.
  eapply reach_step; [exact L2|]. exact (step_producer (mk_system (sl_aof s) PIdle (sl_writer s) h) ev pc a r E).
Qed.

Lemma reserve_capacity m cap needed :
  0 <= cap -> let '(c, m') := reserve_bytes m cap needed in (forall x, c = Some x -> 0 <= x) /\ m' `suffix_of` m.
Proof.
  intros H0. unfold reserve_bytes. destruct (Z.leb_spec needed cap); [split; [by intros x [= <-]|done]|].
  destruct (double_capacity _ _ _) as [next|] eqn:E; [|done]. apply double_capacity_some in E.
  pose proof (malloc_spends m) as Hm. destruct (malloc m) as [[] m1]; (split; [|done]); intros x; [intros [= <-]; lia|done].
Qed.

Lemma append_to_capacity m bytes cap arguments n :
  0 <= cap -> let '(r, cap', m') := append_to m bytes cap arguments n in 0 <= cap' /\ m' `suffix_of` m.
Proof.
  intros H0. unfold append_to. destruct (_ >? _); [done|]. pose proof (reserve_capacity m cap (zlen bytes + n) H0) as Hr.
  destruct (reserve_bytes m cap (zlen bytes + n)) as [[c|] m1]; destruct Hr as [Hr1 Hr2]; [|done].
  specialize (Hr1 c eq_refl). by destruct (encode_record _ _ _).
Qed.

Lemma append_spends m a arguments : spends m (aof_append m a arguments).
Proof.
  unfold aof_append. destruct (negb _); [apply spends_keep|]. destruct (encoded_size arguments) as [n|]; [|apply spends_keep].
  assert (Hto : forall bytes cap, spends m (append_to m bytes cap arguments n)).
  { intros bytes cap. unfold append_to. destruct (_ >? _); [apply spends_keep|]. unfold reserve_bytes. destruct (_ <=? _).
    - destruct (encode_record _ _ _); apply spends_keep.
    - destruct (double_capacity _ _ _); [|apply spends_keep]. pose proof (malloc_spends m) as Hm. destruct (malloc m) as [[] m1]; [|done]. by destruct (encode_record _ _ _). }
  destruct (pr_active _).
  - pose proof (Hto (pr_transaction (a_producer a)) (pr_transaction_capacity (a_producer a))) as H. by destruct (append_to _ _ _ _ _) as [[? ?] ?].
  - pose proof (Hto (pr_pending (a_producer a)) (pr_pending_capacity (a_producer a))) as H. by destruct (append_to _ _ _ _ _) as [[? ?] ?].
Qed.

(** An append allocates at most once: either that allocation failed, or the result
    is that of an append with memory. *)
Lemma append_supplied m a arguments :
  failed_between m (aof_append m a arguments).2 \/ (aof_append m a arguments).1.1 = (aof_append [] a arguments).1.1.
Proof.
  unfold aof_append. destruct (negb _); [by right|]. destruct (encoded_size arguments) as [n|]; [|by right].
  assert (Hto : forall bytes cap, failed_between m (append_to m bytes cap arguments n).2 \/ (append_to m bytes cap arguments n).1 = (append_to [] bytes cap arguments n).1).
  { intros bytes cap. unfold append_to. destruct (_ >? _); [by right|]. unfold reserve_bytes. destruct (_ <=? _).
    - right. by destruct (encode_record _ _ _).
    - destruct (double_capacity _ _ _); [|by right]. destruct m as [|[] m]; cbn [malloc].
      + by right.
      + right. by destruct (encode_record _ _ _).
      + left. exists [false]. split; [done|]. by apply list_elem_of_singleton. }
  destruct (pr_active _).
  - pose proof (Hto (pr_transaction (a_producer a)) (pr_transaction_capacity (a_producer a))) as H.
    destruct (append_to m _ _ _ _) as [[? ?] ?], (append_to [] _ _ _ _) as [[? ?] ?]. cbn in *. destruct H as [?|H]; [by left|right]. by simplify_eq.
  - pose proof (Hto (pr_pending (a_producer a)) (pr_pending_capacity (a_producer a))) as H.
    destruct (append_to m _ _ _ _) as [[? ?] ?], (append_to [] _ _ _ _) as [[? ?] ?]. cbn in *. destruct H as [?|H]; [by left|right]. by simplify_eq.
Qed.

Lemma append_capacity m a arguments :
  0 <= pr_transaction_capacity (a_producer a) /\ 0 <= pr_pending_capacity (a_producer a) ->
  let '(r, a', m') := aof_append m a arguments in
  0 <= pr_transaction_capacity (a_producer a') /\ 0 <= pr_pending_capacity (a_producer a').
Proof.
  intros [H1 H2]. unfold aof_append. destruct (negb _); [done|]. destruct (encoded_size arguments) as [n|]; [|done]. destruct (pr_active _).
  - pose proof (append_to_capacity m (pr_transaction (a_producer a)) (pr_transaction_capacity (a_producer a)) arguments n H1) as H.
    destruct (append_to _ _ _ _ _) as [[? ?] ?]. cbn. tauto.
  - pose proof (append_to_capacity m (pr_pending (a_producer a)) (pr_pending_capacity (a_producer a)) arguments n H2) as H.
    destruct (append_to _ _ _ _ _) as [[? ?] ?]. cbn. tauto.
Qed.

Lemma begin_contents s d :
  log_contents s None d ->
  let '(r, s') := log_begin s in r = 0 /\ log_contents s' (Some []) d \/ r <> 0 /\ log_contents s' None d.
Proof.
  intros (policy & cmds & h & Hs & Ht & ->). cbn. destruct (interleave_state _ _ _ _ _ Hs) as [Hi Hp]. set (s1 := interleave s) in *.
  destruct (aof_transaction_begin (sl_aof s1)) as [r a] eqn:E.
  assert (Hcall : producer_call CallBegin (sl_aof s1) = Some (PIdle, a, Returned r)) by (cbn; by rewrite E).
  unfold aof_transaction_begin in E. rewrite <- Hp in Ht. destruct (pr_active (a_producer (sl_aof s1))) eqn:Eact; [done|]. cbn [orb] in E.
  destruct (negb (aof_can_accept_write (sl_aof s1))); injection E as <- <-.
  - right. split; [done|]. exists policy, cmds, h. split; [|cbn; by rewrite Eact].
    apply (call_state policy cmds s1 h CallBegin PIdle _ (Returned (-1)) Hi Hcall); apply Hi.
  - left. split; [done|]. exists policy, cmds, (set_txn [] h). split; [|done].
    apply (call_state policy cmds s1 h CallBegin PIdle _ (Returned 0) Hi Hcall); apply Hi.
Qed.

Lemma rollback_contents s txn d : log_contents s txn d -> log_contents (log_rollback s) None d.
Proof.
  intros (policy & cmds & h & Hs & Ht & ->). cbn. destruct (interleave_state _ _ _ _ _ Hs) as [Hi Hp]. set (s1 := interleave s) in *.
  exists policy, cmds, (set_txn [] h). split; [|done].
  apply (call_state policy cmds s1 h CallRollback PIdle _ (Returned 0) Hi eq_refl); apply Hi.
Qed.

Lemma flush_contents s d : log_contents s None d -> exists s', log_flush s = Some (0, s') /\ log_contents s' None d.
Proof.
  intros (policy & cmds & h & Hs & Ht & ->). cbn. destruct (interleave_state _ _ _ _ _ Hs) as [Hi Hp]. set (s1 := interleave s) in *.
  rewrite <- Hp in Ht. destruct (pr_active (a_producer (sl_aof s1))) eqn:Eact; [done|].
  destruct (state_inv _ _ _ _ _ Hi) as [base Hinv]. pose proof (bu_pend _ _ (li_buffers _ _ Hinv)) as Hb. cbn [s_aof s_history] in Hb. rewrite (ls_pend _ _ _ _ _ Hi) in Hb.
  set (a := queue_producer_chunk (sl_aof s1)).
  assert (Ha : a_producer a = with_chunk None (a_producer (sl_aof s1)) \/ a_producer a = a_producer (sl_aof s1)).
  { unfold a, queue_producer_chunk. destruct (pr_chunk _); [by left|by right]. }
  assert (Hcall : producer_call CallFlush (sl_aof s1) = Some (PIdle, a, Returned 0)).
  { cbn [producer_call]. unfold flush_enter. rewrite Eact. fold a. replace (pr_pending (a_producer a)) with (@nil Z); [done|]. by destruct Ha as [-> | ->]. }
  exists (with_log a s1). unfold flush_now. cbn [producer_call] in Hcall. injection Hcall as Hf. rewrite Hf. split; [done|].
  exists policy, cmds, h. split; [|cbn; by destruct Ha as [-> | ->]; cbn; rewrite Eact].
  apply (call_state policy cmds s1 h CallFlush PIdle a (Returned 0) Hi); [cbn; by rewrite Hf| | | |]; try apply Hi. destruct Ha as [-> | ->]; apply Hi.
Qed.

Lemma append_contents m s txn d args :
  log_contents s (Some txn) d ->
  let '(r, s', m') := log_append m s (Some <$> args) in
  (r = 0 /\ log_contents s' (Some (txn ++ [args])) d \/
   r <> 0 /\ log_contents s' (Some txn) d /\
   (failed_between m m' \/ log_is_failed s' = true \/ ~ command_ok args \/ 2 ^ 61 < zlen (log_bytes txn))).
Proof.
  intros (policy & cmds & h & Hs & Ht & ->). cbn. destruct (interleave_state _ _ _ _ _ Hs) as [Hi Hp]. set (s1 := interleave s) in *.
  rewrite <- Hp in Ht. destruct (pr_active (a_producer (sl_aof s1))) eqn:Eact; [|done]. injection Ht as ->.
  destruct (state_inv _ _ _ _ _ Hi) as [base Hinv]. destruct (li_buffers _ _ Hinv) as [U1 U2 _ _ _]. cbn [s_aof s_history] in U1, U2.
  pose proof (append_spec m (sl_aof s1) (Some <$> args)) as Ha. pose proof (append_capacity m (sl_aof s1) (Some <$> args) (ls_capacity _ _ _ _ _ Hi)) as Hcap.
  assert (Hcall : forall r a m', aof_append m (sl_aof s1) (Some <$> args) = (r, a, m') ->
    producer_call (CallAppend m (Some <$> args)) (sl_aof s1) = Some (PIdle, a, Returned r)) by (intros r a m' E; cbn; by rewrite E).
  destruct (aof_append m (sl_aof s1) (Some <$> args)) as [[r a] m'] eqn:E. specialize (Hcall r a m' eq_refl).
  destruct Ha as ((_ & _ & Hsh & _ & _ & _ & Hact) & Ha & Hok). pose proof (ls_capacity _ _ _ _ _ Hi) as [Hc1 Hc2].
  destruct Ha as [(-> & args' & Hargs & Hcok & _)|(-> & _)].
  - left. split; [done|]. exists policy, cmds, (set_txn (h_txn h ++ [args]) h). split; [|cbn; by rewrite Hact, Eact].
    pose proof (call_state policy cmds s1 h _ PIdle a (Returned 0) Hi Hcall) as Hst. cbn [record_step] in Hst. rewrite Eact, plain_some in Hst.
    apply Hst; [apply Hi|apply Hi|apply Hi|done].
  - right. split; [done|]. split.
    + exists policy, cmds, h. split; [|cbn; by rewrite Hact, Eact].
      apply (call_state policy cmds s1 h _ PIdle a (Returned (-1)) Hi Hcall); [apply Hi|apply Hi|apply Hi|done].
    + pose proof (append_supplied m (sl_aof s1) (Some <$> args)) as Hsup. rewrite E in Hsup. cbn [fst snd] in Hsup. destruct Hsup as [|H0]; [by left|].
      right. destruct (Z.eqb_spec (aof_last_error (sl_aof s1)) 0) as [Herr|Herr]; cycle 1.
      { left. cbn. unfold aof_is_failed, aof_last_error in *. rewrite Hsh. by destruct (Z.eqb_spec (sh_error (a_shared (sl_aof s1))) 0). }
      right. destruct (decide (zlen (log_bytes (h_txn h)) <= 2 ^ 61)) as [Hle|]; [|right; lia]. left. intros Hcok.
      pose proof (append_spec [] (sl_aof s1) (Some <$> args)) as Hz. destruct (aof_append [] _ _) as [[r0 a0] m0]. cbn in H0. subst r0. destruct Hz as (_ & _ & Hz).
      assert (-1 = 0); [|done]. apply (Hz args); try done; [by rewrite U1|]. rewrite U2, (ls_pend _ _ _ _ _ Hi). done.
Qed.

(** ** Commit *)

Lemma in_commit_state policy cmds s h position assigned m pc a r :
  log_state policy cmds s (PCommit ForCommand position assigned) h ->
  commit_step m ForCommand position assigned (sl_aof s) = (pc, a, r) ->
  let h' := record_step (PRun m) (PCommit ForCommand position assigned) (sl_aof s) pc r h in
  h_torn h' = false -> h_count h' = h_count h -> h_pend h' = h_pend h ->
  pr_transaction_capacity (a_producer a) = pr_transaction_capacity (a_producer (sl_aof s)) ->
  pr_pending_capacity (a_producer a) = pr_pending_capacity (a_producer (sl_aof s)) ->
  log_state policy cmds (with_log a s) pc h'.
Proof.
  intros [L1 L2 L3 L4 L5 L6] E h' H1 H2 H3 H4 H5. split; [done| |done|by rewrite H2|by rewrite H3|cbn; by rewrite H4, H5].
  cbn [sl_aof sl_writer with_log]. eapply reach_step; [exact L2|]. refine (step_producer (mk_system (sl_aof s) (PCommit ForCommand position assigned) (sl_writer s) h) (PRun m) pc a r _).
  cbn. by rewrite E.
Qed.

Definition commit_history (position position' assigned : Z) (h : history) : history :=
  if (position =? 0) && (0 <? position') then add_log assigned (h_txn h) h else h.

Lemma commit_history_trans p1 p2 p3 q h :
  0 <= p1 <= p2 -> p2 <= p3 -> commit_history p2 p3 q (commit_history p1 p2 q h) = commit_history p1 p3 q h.
Proof.
  intros H1 H2. unfold commit_history. destruct (Z.eqb_spec p1 0), (Z.ltb_spec 0 p2), (Z.eqb_spec p2 0), (Z.ltb_spec 0 p3); cbn [andb]; try lia; done.
Qed.

(** A chunk to copy to. *)
Lemma acquire_state policy cmds s h position assigned m :
  log_state policy cmds s (PCommit ForCommand position assigned) h -> position < zlen (pr_transaction (a_producer (sl_aof s))) ->
  let '(ok, a, m') := commit_acquire m (sl_aof s) in
  (m = [] -> ok = true /\ m' = []) /\
  (ok = true -> log_state policy cmds (with_log a s) (PCommit ForCommand position assigned) h /\
     (exists k, pr_chunk (a_producer a) = Some k) /\ pr_transaction (a_producer a) = pr_transaction (a_producer (sl_aof s))).
Proof.
  intros Hs Hp. destruct (commit_acquire m (sl_aof s)) as [[ok a] m'] eqn:E. pose proof E as E0. unfold commit_acquire in E.
  destruct (pr_chunk (a_producer (sl_aof s))) as [k|] eqn:Ek.
  - injection E as <- <- <-. split; [done|]. intros _. split; [by destruct s|]. split; [by eexists|done].
  - unfold acquire_chunk in E.
    assert (Hm : m = [] -> ok = true /\ m' = []).
    { intros ->. cbn [malloc] in E. destruct (sh_free _ >? 0); by injection E as <- _ <-. }
    split; [done|]. intros ->.
    assert (Ha : exists sh, a = with_producer (with_chunk (Some empty_chunk) (a_producer (sl_aof s))) (with_shared sh (sl_aof s))).
    { destruct (sh_free _ >? 0); [injection E as <- _; by eexists|]. destruct (malloc m) as [[] m1]; [injection E as <- _; by eexists|done]. }
    destruct Ha as [sh ->]. split; [|split; [by eexists|done]].
    set (a := with_producer _ _) in *.
    assert (Hstep : commit_step m ForCommand position assigned (sl_aof s) = (PCommit ForCommand position assigned, a, Pending)).
    { unfold commit_step. by rewrite (proj2 (Z.ltb_lt _ _) Hp), Ek, E0. }
    pose proof (in_commit_state policy cmds s h position assigned m _ a Pending Hs Hstep) as Hst.
    cbn [record_step] in Hst. assert ((position =? 0) && (0 <? position) = false) as Hf by (destruct (Z.eqb_spec position 0), (Z.ltb_spec 0 position); lia || done).
    rewrite Hf in Hst. apply Hst; try done. apply Hs.
Qed.

(** A copy moves on. *)
Lemma copy_state policy cmds s h position assigned k :
  log_state policy cmds s (PCommit ForCommand position assigned) h -> position < zlen (pr_transaction (a_producer (sl_aof s))) ->
  pr_chunk (a_producer (sl_aof s)) = Some k ->
  let '(position', a) := commit_copy position assigned k (sl_aof s) in
  0 <= position < position' /\ position' <= zlen (pr_transaction (a_producer (sl_aof s))) /\
  pr_transaction (a_producer a) = pr_transaction (a_producer (sl_aof s)) /\
  log_state policy cmds (with_log a s) (PCommit ForCommand position' assigned) (commit_history position position' assigned h).
Proof.
  intros Hs Hp Hk. destruct (state_inv _ _ _ _ _ Hs) as [base Hinv]. pose proof (bi_chunk _ _ _ _ _ (li_bytes _ _ Hinv)) as Hc.
  cbn [s_aof] in Hc. rewrite Hk in Hc. destruct Hc as (_ & Hlt & _). destruct (li_producer _ _ Hinv) as (Hpos & _). cbn [s_aof] in Hpos.
  destruct (commit_copy position assigned k (sl_aof s)) as [position' a] eqn:E. pose proof E as E0. unfold commit_copy in E.
  assert (Hp' : position < position' <= zlen (pr_transaction (a_producer (sl_aof s)))).
  { destruct (_ =? AOF_CHUNK_CAPACITY); injection E as <- _; destruct (Z.gtb_spec (zlen (pr_transaction (a_producer (sl_aof s))) - position) (AOF_CHUNK_CAPACITY - zlen (ck_data k))); lia. }
  assert (Ha : pr_transaction (a_producer a) = pr_transaction (a_producer (sl_aof s)) /\
    pr_transaction_capacity (a_producer a) = pr_transaction_capacity (a_producer (sl_aof s)) /\
    pr_pending_capacity (a_producer a) = pr_pending_capacity (a_producer (sl_aof s))) by (destruct (_ =? AOF_CHUNK_CAPACITY); by injection E as _ <-).
  destruct Ha as (A1 & A2 & A3). split_and!; try lia; try done.
  assert (Hstep : commit_step [] ForCommand position assigned (sl_aof s) = (PCommit ForCommand position' assigned, a, Pending)).
  { unfold commit_step. by rewrite (proj2 (Z.ltb_lt _ _) Hp), Hk, E0. }
  apply (in_commit_state policy cmds s h position assigned [] _ a Pending Hs Hstep); try done; cbn; destruct (_ && _); try done; apply Hs.
Qed.

Lemma commit_loop_state policy cmds fuel m s h position assigned :
  log_state policy cmds s (PCommit ForCommand position assigned) h ->
  zlen (pr_transaction (a_producer (sl_aof s))) - position <= Z.of_nat fuel ->
  let '(ok, a, m') := commit_loop fuel m position assigned (sl_aof s) in
  let size := zlen (pr_transaction (a_producer (sl_aof s))) in
  (ok = false -> m <> []) /\
  (ok = true -> pr_transaction (a_producer a) = pr_transaction (a_producer (sl_aof s)) /\
    log_state policy cmds (with_log a s) (PCommit ForCommand size assigned) (commit_history position size assigned h)).
Proof.
  revert m s h position. induction fuel as [|fuel IH]; intros m s h position Hs Hf; cbn [commit_loop];
    destruct (state_inv _ _ _ _ _ Hs) as [base Hinv]; destruct (li_producer _ _ Hinv) as (Hpos & _); cbn [s_aof] in Hpos;
    destruct (Z.ltb_spec position (zlen (pr_transaction (a_producer (sl_aof s))))) as [Hp|Hp].
  1: lia.
  1, 3: split; [done|]; intros _; split; [done|];
    assert (position = zlen (pr_transaction (a_producer (sl_aof s)))) as <- by lia; unfold commit_history;
    destruct (Z.eqb_spec position 0), (Z.ltb_spec 0 position); cbn [andb]; try lia; by destruct s.
  pose proof (acquire_state _ _ _ _ _ _ m Hs Hp) as Ha. destruct (commit_acquire m (sl_aof s)) as [[ok a] m1].
  destruct Ha as [Ha1 Ha2]. destruct ok; cbn [negb]; [|split; [intros _ ->; by destruct Ha1|done]].
  destruct Ha2 as (Hs1 & [k Hk] & Htx); [done|]. cbn [sl_aof] in Hk. rewrite Hk.
  pose proof (copy_state _ _ _ _ _ _ k Hs1) as Hc. cbn [sl_aof with_log] in Hc. rewrite Htx in Hc. specialize (Hc Hp Hk).
  destruct (commit_copy position assigned k a) as [position' a1]. destruct Hc as (Hc1 & Hc2 & Hc3 & Hs2).
  change (with_log a1 (with_log a s)) with (with_log a1 s) in Hs2.
  specialize (IH m1 (with_log a1 s) _ position' Hs2). cbn [sl_aof with_log] in IH. rewrite Hc3 in IH. specialize (IH ltac:(lia)).
  destruct (commit_loop fuel m1 position' assigned a1) as [[ok a2] m2]. destruct IH as [I1 I2]. split.
  - intros Ho ->. destruct Ha1 as [_ ->]; [done|]. by apply I1.
  - intros Ho. destruct (I2 Ho) as [I3 I4]. split; [done|]. rewrite commit_history_trans in I4 by lia. done.
Qed.

Lemma commit_loop_keeps fuel m position assigned a :
  let '(ok, a', m') := commit_loop fuel m position assigned a in
  a_seqs a' = a_seqs a /\ sh_error (a_shared a') = sh_error (a_shared a) /\ m' `suffix_of` m.
Proof.
  revert m position a. induction fuel as [|fuel IH]; intros m position a; cbn [commit_loop]; destruct (_ <? _); try done.
  assert (Hacq : let '(ok, a', m') := commit_acquire m a in
    a_seqs a' = a_seqs a /\ sh_error (a_shared a') = sh_error (a_shared a) /\ m' `suffix_of` m).
  { unfold commit_acquire, acquire_chunk. destruct (pr_chunk _); [done|]. destruct (sh_free _ >? 0); [done|]. pose proof (malloc_spends m). by destruct (malloc m) as [[] m1]. }
  destruct (commit_acquire m a) as [[ok a1] m1]. destruct Hacq as (Q1 & Q2 & Q3). destruct ok; cbn [negb]; [|done].
  destruct (pr_chunk (a_producer a1)) as [k|]; [|done].
  assert (Hcopy : a_seqs (commit_copy position assigned k a1).2 = a_seqs a1 /\
    sh_error (a_shared (commit_copy position assigned k a1).2) = sh_error (a_shared a1)) by (unfold commit_copy; by destruct (_ =? AOF_CHUNK_CAPACITY)).
  destruct (commit_copy position assigned k a1) as [position' a2]. destruct Hcopy as [C1 C2]. cbn in C1, C2. specialize (IH m1 position' a2).
  destruct (commit_loop fuel m1 position' assigned a2) as [[ok a3] m3]. destruct IH as (I1 & I2 & I3). split; [congruence|]. split; [congruence|by etrans].
Qed.

Lemma commit_enter_state policy cmds s h a assigned :
  log_state policy cmds s PIdle h -> pr_active (a_producer (sl_aof s)) = true ->
  (if zlen (pr_transaction (a_producer (sl_aof s))) >? 0 then assign_sequence (sl_aof s) else (0, sl_aof s)) = (assigned, a) ->
  let grown := zlen (pr_transaction (a_producer (sl_aof s))) >? 0 in
  h_count h + (if grown then 1 else 0) < 2 ^ 64 ->
  log_state policy cmds (with_log a s) (PCommit ForCommand 0 assigned) (if grown then add_count h else h) /\ a_producer a = a_producer (sl_aof s).
Proof.
  intros Hs Hact E grown Hc.
  assert (Hp : a_producer a = a_producer (sl_aof s)) by (destruct (_ >? 0); by injection E as _ <-).
  assert (Hcall : producer_call CallCommit (sl_aof s) = Some (PCommit ForCommand 0 assigned, a, Pending)).
  { cbn [producer_call]. unfold commit_enter. rewrite Hact. cbn [negb]. by rewrite E. }
  split; [|done]. pose proof (call_state policy cmds s h CallCommit _ a Pending Hs Hcall) as Hst. cbn [record_step] in Hst. fold grown in Hst.
  apply Hst; destruct grown; cbn; rewrite ?Hp; try apply Hs; lia.
Qed.

Lemma commit_leave_state policy cmds s h assigned :
  log_state policy cmds s (PCommit ForCommand (zlen (pr_transaction (a_producer (sl_aof s)))) assigned) h ->
  log_state policy cmds (with_log (aof_transaction_rollback (sl_aof s)) s) PIdle (set_txn [] h).
Proof.
  intros Hs. set (size := zlen _) in Hs.
  assert (Hstep : commit_step [] ForCommand size assigned (sl_aof s) = (PIdle, aof_transaction_rollback (sl_aof s), Committed assigned)).
  { unfold commit_step. fold size. by rewrite Z.ltb_irrefl. }
  apply (in_commit_state policy cmds s h size assigned [] PIdle _ (Committed assigned) Hs Hstep); try done. apply Hs.
Qed.

Definition log_worn (s : shared_log) : Prop := sq_next (a_seqs (sl_aof s)) = 0.

Lemma commit_contents m s txn d :
  log_contents s (Some txn) d ->
  let '(r, q, s', m') := log_commit m s in
  r = 0 /\ (txn = [] -> q = 0) /\ (log_contents s' None (add_transaction d q txn) \/ txn <> [] /\ log_worn s') \/ r <> 0 /\ (m <> [] \/ log_worn s').
Proof.
  intros (policy & cmds & h & Hs & Ht & ->). cbn. destruct (interleave_state _ _ _ _ _ Hs) as [Hi Hp]. set (s1 := interleave s) in *.
  rewrite <- Hp in Ht. destruct (pr_active (a_producer (sl_aof s1))) eqn:Eact; [|done]. injection Ht as ->.
  destruct (state_inv _ _ _ _ _ Hi) as [base Hinv]. destruct (li_buffers _ _ Hinv) as [U1 _ _ _ _]. pose proof (li_count _ _ Hinv) as Hcount.
  cbn [s_aof s_history] in U1, Hcount. unfold aof_transaction_commit. rewrite Eact. cbn [negb].
  destruct (if _ >? 0 then assign_sequence (sl_aof s1) else _) as [assigned a] eqn:E. pose proof (ls_count _ _ _ _ _ Hi) as Hlt.
  assert (Htxn : h_txn h = [] <-> (zlen (pr_transaction (a_producer (sl_aof s1))) >? 0) = false).
  { rewrite U1. destruct (h_txn h) as [|x l]; [done|]. split; [done|]. rewrite log_bytes_cons, zlen_app.
    pose proof (frame_positive x). pose proof (zlen_nonneg (log_bytes l)). destruct (Z.gtb_spec (zlen (request_frame x) + zlen (log_bytes l)) 0); [done|lia]. }
  pose proof (commit_loop_keeps (length (pr_transaction (a_producer a))) m 0 assigned a) as Hk.
  destruct (decide (h_count h + (if zlen (pr_transaction (a_producer (sl_aof s1))) >? 0 then 1 else 0) < 2 ^ 64)) as [Hc|Hc]; cycle 1.
  { destruct (zlen (pr_transaction (a_producer (sl_aof s1))) >? 0) eqn:Hgrown; [|lia].
    assert (Hw : sq_next (a_seqs a) = 0).
    { unfold assign_sequence in E. injection E as _ <-. cbn. rewrite Hcount. by replace (h_count h + 1) with (2 ^ 64) by lia. }
    destruct (commit_loop _ m 0 assigned a) as [[ok a1] m1]. destruct Hk as (Hk & _).
    destruct ok; cbn; [left; split; [done|]; split; [by intros ?%Htxn|]|right; split; [done|]]; right; unfold log_worn; cbn; rewrite Hk; [|done]. split; [|done]. by intros ?%Htxn. }
  destruct (commit_enter_state _ _ _ _ a assigned Hi Eact E Hc) as [He Hpa].
  pose proof (commit_loop_state _ _ (length (pr_transaction (a_producer a))) m _ _ _ _ He) as Hl. cbn [sl_aof with_log] in Hl.
  specialize (Hl ltac:(unfold zlen; lia)). destruct (commit_loop _ m 0 assigned a) as [[ok a1] m1]. destruct Hl as [L1 L2].
  destruct ok; [|right; split; [done|left; by apply L1]]. left. split; [done|]. split; [by intros Hx%Htxn; rewrite Hx in E; injection E|left]. destruct (L2 eq_refl) as [L3 L4].
  change (with_log a1 (with_log a s1)) with (with_log a1 s1) in L4.
  pose proof (fun h => commit_leave_state policy cmds (with_log a1 s1) h assigned) as Hlv. cbn [sl_aof with_log] in Hlv. rewrite L3 in Hlv.
  specialize (Hlv _ L4). eexists policy, cmds, _. split; [exact Hlv|]. split; [done|]. unfold commit_history.
  rewrite Hpa. cbn [Z.eqb andb]. rewrite <- Z.gtb_ltb. destruct (_ >? 0) eqn:Hgrown;
    cbn [set_txn add_log add_count h_log h_txn]; [|by rewrite (proj2 Htxn eq_refl)].
  destruct (h_txn h) as [|x l]; [by specialize (proj1 Htxn eq_refl)|done].
Qed.

(** A log that was opened on a file of whole records. *)
Lemma opened_contents policy cmds schedule :
  Forall command_ok cmds -> log_contents (mk_shared_log (aof_open (log_bytes cmds) policy) WTop schedule) None [(0, cmds)].
Proof. intros Hok. exists policy, cmds, (mk_history [] [] [(0, cmds)] false 0). split; [|done]. split; try done. apply reach_open. Qed.

#[export] Instance shared_log_laws : LogLaws shared_log.
Proof.
  refine {| log_repr := log_contents; log_exhausted := log_worn |}.
  - intros a d. apply begin_contents.
  - intros m a txn d args. apply append_contents.
  - intros m s args. cbn. pose proof (append_spends m (sl_aof (interleave s)) (Some <$> args)) as Hm.
    pose proof (append_spec m (sl_aof (interleave s)) (Some <$> args)) as Ha.
    assert (Hno : aof_is_failed (sl_aof (interleave s)) = true -> (aof_append m (sl_aof (interleave s)) (Some <$> args)).1.1 = -1).
    { unfold aof_append, aof_is_failed. by intros ->. }
    destruct (aof_append m _ _) as [[r a'] m']. destruct Ha as ((_ & _ & Hsh & _) & _). split; [done|]. cbn. intros Hf%interleave_failed.
    specialize (Hno Hf). cbn in Hno. subst r. unfold aof_is_failed, aof_last_error in *. by rewrite Hsh.
  - intros m a txn d. apply commit_contents.
  - intros m s. cbn. unfold aof_transaction_commit.
    assert (Hf : aof_is_failed (sl_aof s) = true -> aof_is_failed (sl_aof (interleave s)) = true) by apply interleave_failed.
    destruct (negb _); [done|]. set (a := sl_aof (interleave s)) in *.
    destruct (if _ >? 0 then assign_sequence a else _) as [assigned a1] eqn:E.
    assert (Hsh : a_shared a1 = a_shared a) by (destruct (_ >? 0); by injection E as _ <-).
    pose proof (commit_loop_keeps (length (pr_transaction (a_producer a1))) m 0 assigned a1) as Hk.
    destruct (commit_loop _ m 0 assigned a1) as [[ok a2] m2]. destruct Hk as (_ & Hk2 & Hk3).
    destruct ok; (split; [done|]); cbn; intros H%Hf; unfold aof_is_failed, aof_last_error in *; cbn; by rewrite Hk2, Hsh.
  - intros a txn d. apply rollback_contents.
  - intros a d. apply flush_contents.
Defined.
