(* ===== verification/ServiceClaims.v ===== *)
(** The promises of the server: what a request answers and logs, what a
    session leaves in the log, and what a restart recovers of the requests
    that were acknowledged. *)

From S2P Require Import Prelude Resp HashTable ZOrder Object ExpireHeap LruList Cache CacheSpec CacheProps.
From S2P Require Import CacheEvents Rdb RdbImage Aof AofCodec AofLog AofProps Double CommandText MysqlStore.
From S2P Require Import CommandProps Service ServiceStore ServiceSpec ServiceRuns ServiceCommands ServiceProps ServiceReplay ServiceSession ServiceLog.

(** ** Crashes of the server *)

(** The file of the log as a crash can leave it: at least what the device
    holds, at most what was written. *)
Definition crash_file (w : world shared_log) (file : list Z) : Prop :=
  exists s n, sv_aof (w_service w) = Some s /\ file = take (Z.to_nat n) (d_file (a_disk (sl_aof s))) /\
    d_durable (a_disk (sl_aof s)) <= n <= zlen (d_file (a_disk (sl_aof s))).

(** The reply with this barrier can be sent. *)
Definition acknowledged (barrier : Z) (w : world shared_log) : Prop :=
  exists s, sv_aof (w_service w) = Some s /\ aof_sequence_ready (sl_aof s) barrier = true.

Definition always_synced (w : world shared_log) : Prop :=
  exists s, sv_aof (w_service w) = Some s /\ a_policy (sl_aof s) = AOF_FSYNC_ALWAYS.

(** Only the process died. *)
Definition written_file (w : world shared_log) (file : list Z) : Prop :=
  exists s, sv_aof (w_service w) = Some s /\ file = d_file (a_disk (sl_aof s)).

(** The commands up to a transaction. *)
Lemma upto_after q (x : transactions) : Forall (Z.lt q) x.*1 -> upto q x = [].
Proof.
  induction x as [|y x IH]; cbn [fmap list_fmap]; intros Hx; [done|]. apply Forall_cons in Hx as [Hy Hx]. unfold upto in *. cbn [List.filter].
  destruct (Z.leb_spec y.1 q); [lia|]. by apply IH.
Qed.

Lemma upto_at d q txn x : numbered (d ++ (q, txn) :: x) -> upto q (d ++ (q, txn) :: x) = all_commands (d ++ [(q, txn)]).
Proof.
  unfold numbered. induction d as [|y d IH]; cbn [app fmap list_fmap fst]; intros [Hs Hq]%StronglySorted_inv.
  - apply upto_after in Hq. unfold upto, all_commands in *. cbn [List.filter fst]. rewrite Z.leb_refl. cbn. by rewrite Hq.
  - specialize (IH Hs). rewrite fmap_app, Forall_app in Hq. destruct Hq as [_ Hq]. apply Forall_cons in Hq as [Hq _]. cbn [fst] in Hq.
    unfold upto, all_commands in *. cbn [List.filter]. destruct (Z.leb_spec y.1 q); [|lia]. cbn [fmap list_fmap concat]. by rewrite IH.
Qed.

Lemma upto_transaction d q txn x :
  txn <> [] -> numbered (add_transaction d q txn ++ x) -> upto q (add_transaction d q txn ++ x) = all_commands (add_transaction d q txn).
Proof.
  intros Hne. assert (add_transaction d q txn = d ++ [(q, txn)]) as -> by (by destruct txn). rewrite <- app_assoc. apply upto_at.
Qed.

Lemma crash_recovers d w file :
  log_idle w d -> crash_file w file ->
  exists recovered tail, file = log_bytes recovered ++ tail /\ torn tail /\ recovered `prefix_of` all_commands d /\ numbered d /\
    upto 0 d `prefix_of` recovered /\
    (forall barrier, acknowledged barrier w -> always_synced w \/ written_file w file -> upto barrier d `prefix_of` recovered).
Proof.
  unfold log_idle. intros Hd (s & n & Hs & -> & Hn). rewrite Hs in Hd. destruct Hd as (policy & cmds & h & Hst & _ & ->).
  destruct (state_inv _ _ _ _ _ Hst) as [base Hinv]. pose proof (li_numbers _ _ Hinv) as Hnum.
  destruct (crash_cut base _ n Hinv) as (rec & tail & E & Htorn & _ & Hp & Hq); [cbn; destruct (ni_durable _ _ _ _ Hnum); cbn in *; lia|].
  exists rec, tail. split_and!; [done|done|done|apply Hnum| |].
  - destruct (ni_synced _ _ _ _ Hnum) as [N1 N2]. cbn [s_aof s_history] in *. etrans; [apply (upto_mono _ 0); [apply Hnum|apply N1]|]. apply Hq. lia.
  - intros barrier (s1 & H1 & Hready) Hpol. assert (s1 = s) as -> by congruence.
    apply (ready_recovered base _ n barrier rec Hinv Hn Hq Hready). destruct Hpol as [(s2 & H2 & Hpol)|(s2 & H2 & Hf)]; assert (s2 = s) as -> by congruence; [by left|right].
    cbn. apply (f_equal zlen) in Hf. destruct (ni_durable _ _ _ _ Hnum) as [? _]. cbn in *. rewrite zlen_take_z in Hf by lia. lia.
Qed.

(** ** A sample session *)

Definition no_admin : persistence_admin (A := shared_log) := mk_admin None None None.

Definition new_service : kvstore_service shared_log :=
  match kvstore_service_init_with_config [] 0 0 KV_ZSET_SKIPLIST as x
    return match x.1 with Some _ => kvstore_service shared_log | None => unit end with
  | (Some s, _) => s
  | (None, _) => tt
  end.

(** The writer writes and syncs the first transaction before the second request
    begins. *)
Definition sample_log : shared_log :=
  mk_shared_log (aof_open [] AOF_FSYNC_ALWAYS) WTop
    [[]; []; []; []; [WRun; WWritten 27; WRun; WRun; WSynced (1, 0) (Some (1, 2000)); WRun; WRun; WRun]; []; []].

Definition sample_start : world shared_log := mk_world [] 1000 [] (kvstore_service_attach_aof (Some sample_log) new_service).

Definition sample_set : command := [lit "SET"; [97]; [49]].

Definition sample_hset : command := [lit "HSET"; [104]; [102]; [118]].

Definition sample_stored : world shared_log := (kvstore_service_execute_with_barrier no_admin sample_set sample_start).2.

Definition sample_flushed : world shared_log := (kvstore_service_flush sample_stored).2.

Definition sample_end : world shared_log := (kvstore_service_execute_with_barrier no_admin sample_hset sample_flushed).2.

Definition sample_file : list Z :=
  match sv_aof (w_service sample_end) with Some s => d_file (a_disk (sl_aof s)) | None => [] end.

Definition sample_restart : world shared_log := mk_world [] 5000 [] new_service.

Definition sample_recovered : world shared_log := (aof_replay replay_ok sample_file (replay_callback no_admin) sample_restart).1.2.

Ltac not_trouble :=
  let Hin := fresh in intros Hin; unfold trouble in Hin;
  repeat (apply elem_of_cons in Hin as [Hin|Hin]; [discriminate|]); by apply not_elem_of_nil in Hin.

Lemma sample_started : started 5000 [] sample_start.
Proof.
  apply (init_started [] KV_ZSET_SKIPLIST new_service []); [reflexivity|split; vm_compute; discriminate|].
  apply (opened_contents AOF_FSYNC_ALWAYS []). constructor.
Qed.

Lemma sample_replaying : replaying sample_restart /\ visible 5000 (sv_cache (w_service sample_restart)) = ∅.
Proof. apply (init_replaying [] KV_ZSET_SKIPLIST new_service []); [reflexivity|split; vm_compute; discriminate]. Qed.

Lemma sample_set_requested : requested no_admin 5000 sample_set REPLY_OK 1 sample_start sample_stored.
Proof.
  split; [split; [split|]; vm_compute; discriminate|reflexivity|discriminate| |not_trouble|vm_compute; discriminate].
  unfold sample_stored. rewrite (surjective_pairing (kvstore_service_execute_with_barrier no_admin sample_set sample_start)) at 1. f_equal.
Qed.

Lemma sample_hset_requested : requested no_admin 5000 sample_hset (REPLY_INTEGER 1) 2 sample_flushed sample_end.
Proof.
  split; [split; [split|]; vm_compute; discriminate|reflexivity| | |not_trouble|vm_compute; discriminate].
  - intros _ x Hx. vm_compute in Hx. discriminate.
  - unfold sample_end. rewrite (surjective_pairing (kvstore_service_execute_with_barrier no_admin sample_hset sample_flushed)) at 1. f_equal.
Qed.

Lemma sample_rest : session no_admin 5000 sample_stored sample_end.
Proof.
  apply (session_request no_admin 5000 sample_stored sample_flushed sample_hset (REPLY_INTEGER 1) 2 sample_end); [|exact sample_hset_requested].
  exact (session_flush no_admin 5000 sample_stored sample_stored (session_start no_admin 5000 sample_stored)).
Qed.

Lemma sample_crash : crash_file sample_end sample_file.
Proof. eexists _, 27. split; [vm_compute; reflexivity|]. split; [vm_compute; reflexivity|]. split; vm_compute; discriminate. Qed.

Lemma sample_replay :
  aof_replay replay_ok sample_file (replay_callback no_admin) sample_restart = (0, sample_file, sample_recovered, mk_replay_stats 1 false).
Proof. unfold sample_recovered. vm_compute. reflexivity. Qed.

(** ** The promises *)

(** C3. What a request does.  With a store and a log in order, a clock that
    stands still during the request, any allocation outcome and any behaviour of
    the log within its laws, a request on data gets a reply and leaves the store
    and the log in order.  Either the reply and the new contents of the store
    are those of the specification [answers], after the eviction of some keys,
    and the log gained one transaction with the deletions of those keys, the
    record of the change and perhaps a marker; a deletion is missing only when
    an allocation failed during the request or the transaction exceeds 2^61
    bytes.  Or the request was refused and nothing visible changed; or the reply
    reports a failure of the log, the database queue, memory or capacity after
    the change was made. *)
Theorem service_execute_correct {A} `{LogLaws A} (admin : persistence_admin (A := A)) arguments w d :
  good w -> sv_initialized (w_service w) = true -> log_idle w d -> request_ok arguments ->
  data_command (find_command (arg arguments 0)) = true ->
  let '((reply, barrier), w') := kvstore_service_execute_with_barrier admin arguments w in
  exists r, reply = Some r /\ steady w w' /\ executed arguments d w r barrier w'.
Proof.
  intros G Hi Hl Hok Hd. pose proof (execute_spec admin arguments w d G Hi Hl Hok Hd) as He. unfold wp in He.
  by destruct (kvstore_service_execute_with_barrier admin arguments w) as [[ro b] w'].
Qed.

Lemma service_execute_correct_witness :
  exists r, Some REPLY_OK = Some r /\ steady sample_start sample_stored /\ executed sample_set [(0, [])] sample_start r 1 sample_stored.
Proof.
  destruct sample_started as [[S1 S2 _ S4] _].
  pose proof (service_execute_correct no_admin sample_set sample_start [(0, [])] S1 S2 S4 (rq_ok _ _ _ _ _ _ _ sample_set_requested) eq_refl) as Hx.
  rewrite (rq_run _ _ _ _ _ _ _ sample_set_requested) in Hx. exact Hx.
Defined.

(** Replay does what the record says.  Replaying a record into a service
    without a log and without limits leaves the service in order and, when it
    reports success, applies exactly the effect that the record stands for at
    the time of the replay. *)
Theorem replay_record_correct {A} `{LogLaws A} (admin : persistence_admin (A := A)) args w e :
  replaying w -> record_fits args -> record_effect args = Some e ->
  let '(r, w') := kvstore_service_replay_aof admin args w in
  steady w w' /\
  (r = 0 -> visible (w_now w) (sv_cache (w_service w')) = apply_effect (w_now w) (visible (w_now w) (sv_cache (w_service w))) e).
Proof.
  intros R Hf He. pose proof (replay_record_spec admin args w e R Hf He) as Hs. unfold wp, replayed in Hs.
  destruct (kvstore_service_replay_aof admin args w). by destruct Hs as (? & ? & _).
Qed.

Section Promises.
Context (admin : persistence_admin (A := shared_log)).

(** C2. Crash recovery of the server.  A server starts with a log of whole
    records that stand for its store, goes through a session and crashes; the
    file of the log keeps at least what the device holds.  A restart at a later
    time replays the file into an empty service.  Either the replay succeeds and
    leaves what some state of that session holds at that time: no command is
    recovered in part, and none without those before it.  Or it fails and leaves
    the file, because the service refused a whole record that stores or changes
    a value; then the server does not start.  In a session the server executes
    requests, runs maintenance and flushes the log while time passes and the
    writer thread works.  Its store has no limits, no reply reported a failure
    of the log, the queue of the database, memory or capacity, the clock stands
    still during a request, and no write but SET and DEL names a key whose
    deadline falls before the restart. *)
Theorem server_crash_recovery p w0 w v file :
  started (w_now v) p w0 -> w_now w0 <= w_now v -> session admin (w_now v) w0 w -> crash_file w file ->
  replaying v -> visible (w_now v) (sv_cache (w_service v)) = ∅ ->
  let '(r, file', v', _) := aof_replay replay_ok file (replay_callback admin) v in
  r = 0 /\ replaying v' /\
    (exists w1, session admin (w_now v) w0 w1 /\ session admin (w_now v) w1 w /\
       visible (w_now v) (sv_cache (w_service v')) = alive (w_now v) (visible (w_now w1) (sv_cache (w_service w1)))) \/
  r = -1 /\ file' = file /\ refuses admin 0 v file.
Proof.
  intros [S1 S2] Hle Hs Hcrash R Hv. destruct (session_prefix admin _ _ _ _ S1 S2 Hle (g_now _ (rp_good _ R)) Hs) as (_ & x & X1 & [X2 _] & X3).
  destruct (crash_recovers _ _ _ (se_log _ _ X1) Hcrash) as (rec & tail & -> & Htorn & Hp & _ & H0 & _).
  assert (Hg : Forall record_good rec). { destruct Hp as [y Hy]. rewrite Hy in X2. by apply Forall_app in X2 as [? _]. }
  destruct (X3 rec) as (w1 & K1 & K2 & K3); [|done|].
  - etrans; [|exact H0]. unfold upto, all_commands. cbn [app List.filter fst Z.leb Z.compare fmap list_fmap snd concat]. rewrite app_nil_r. by eexists.
  - pose proof (replay_outcome admin ∅ [] rec tail v w1 Hg Htorn R Hv K3) as Ho. unfold aof_replay. cbn [app] in Ho. rewrite zlen_nil in Ho.
    destruct (aof_replay_from _ _ _ _ _) as [[[r file'] v'] stats]. destruct Ho as [(-> & R' & Hvis)|Ho]; [left|by right]. split_and!; try done. by exists w1.
Qed.

(** C1. Acknowledged requests survive.  A request is executed in a session as in
    [server_crash_recovery] and its reply could be sent because its transaction
    was written; the policy is [AOF_FSYNC_ALWAYS] or only the process died.
    Then a restart whose replay succeeds recovers a state of the server after
    that request; it fails only when the service refuses a whole record that
    stores or changes a value, and then it leaves the file and does not start.
    *)
Theorem acknowledged_requests_survive p w0 w1 arguments reply barrier w2 w v file :
  started (w_now v) p w0 -> w_now w0 <= w_now v -> session admin (w_now v) w0 w1 ->
  requested admin (w_now v) arguments reply barrier w1 w2 -> session admin (w_now v) w2 w ->
  barrier <> 0 -> acknowledged barrier w -> crash_file w file -> always_synced w \/ written_file w file ->
  replaying v -> visible (w_now v) (sv_cache (w_service v)) = ∅ ->
  let '(r, file', v', _) := aof_replay replay_ok file (replay_callback admin) v in
  r = 0 /\
    (exists w3, session admin (w_now v) w2 w3 /\ session admin (w_now v) w3 w /\
       visible (w_now v) (sv_cache (w_service v')) = alive (w_now v) (visible (w_now w3) (sv_cache (w_service w3)))) \/
  r = -1 /\ file' = file /\ refuses admin 0 v file.
Proof.
  intros [S1 S2] Hle Hs1 Hreq Hs2 Hb Hack Hcrash Hpol R Hv. pose proof (g_now _ (rp_good _ R)) as Hu.
  destruct (session_prefix admin _ _ _ _ S1 S2 Hle Hu Hs1) as (Ht1 & x & X1 & X2 & _). set (d1 := [(0, p)] ++ x) in *.
  pose proof (g_now _ (se_good _ _ S1)) as Hz. unfold u64_ok in Hz.
  destruct (request_stands admin (w_now v) d1 w1 arguments reply barrier w2 X1 X2 ltac:(lia) Hreq) as (rs & Hne & Y1 & Y2 & Yn). specialize (Hne Hb).
  destruct (session_prefix admin _ _ _ _ Y1 Y2 ltac:(lia) Hu Hs2) as (_ & y & Z1 & [Z2 _] & Z3).
  destruct (crash_recovers _ _ _ (se_log _ _ Z1) Hcrash) as (rec & tail & -> & Htorn & Hp & Hnum & _ & Hrec).
  assert (Hg : Forall record_good rec). { destruct Hp as [z Hy]. rewrite Hy in Z2. by apply Forall_app in Z2 as [? _]. }
  destruct (Z3 rec) as (w3 & K1 & K2 & K3); [|done|].
  - specialize (Hrec barrier Hack Hpol). by rewrite (upto_transaction d1 barrier rs y) in Hrec.
  - pose proof (replay_outcome admin ∅ [] rec tail v w3 Hg Htorn R Hv K3) as Ho. unfold aof_replay. cbn [app] in Ho. rewrite zlen_nil in Ho.
    destruct (aof_replay_from _ _ _ _ _) as [[[r file'] v'] stats]. destruct Ho as [(-> & _ & Hvis)|Ho]; [left|by right]. split; [done|]. by exists w3.
Qed.
End Promises.

Lemma server_crash_recovery_witness :
  exists w1, session no_admin 5000 sample_start w1 /\ session no_admin 5000 w1 sample_end /\
    visible 5000 (sv_cache (w_service sample_recovered)) = alive 5000 (visible (w_now w1) (sv_cache (w_service w1))).
Proof.
  assert (Hs : session no_admin 5000 sample_start sample_end).
  { refine (session_trans no_admin 5000 sample_start sample_stored sample_end _ sample_rest).
    exact (session_request no_admin 5000 sample_start sample_start sample_set REPLY_OK 1 sample_stored (session_start no_admin 5000 sample_start) sample_set_requested). }
  pose proof (server_crash_recovery no_admin [] sample_start sample_end sample_restart sample_file
    sample_started ltac:(vm_compute; discriminate) Hs sample_crash (proj1 sample_replaying) (proj2 sample_replaying)) as H.
  rewrite sample_replay in H. destruct H as [(_ & _ & H)|(H & _)]; [exact H|discriminate].
Defined.

Lemma acknowledged_requests_survive_witness :
  exists w3, session no_admin 5000 sample_stored w3 /\ session no_admin 5000 w3 sample_end /\
    visible 5000 (sv_cache (w_service sample_recovered)) = alive 5000 (visible (w_now w3) (sv_cache (w_service w3))).
Proof.
  assert (Hack : acknowledged 1 sample_end) by (eexists; split; vm_compute; reflexivity).
  assert (Hpol : always_synced sample_end) by (eexists; split; vm_compute; reflexivity).
  pose proof (acknowledged_requests_survive no_admin [] sample_start sample_start sample_set REPLY_OK 1 sample_stored sample_end sample_restart sample_file
    sample_started ltac:(vm_compute; discriminate) (session_start _ _ _) sample_set_requested sample_rest ltac:(discriminate) Hack sample_crash (or_introl Hpol)
    (proj1 sample_replaying) (proj2 sample_replaying)) as H.
  rewrite sample_replay in H. destruct H as [(_ & H)|(H & _)]; [exact H|discriminate].
Defined.

(** ** Keys that expire before the restart *)

(** Requests at given times, each followed by a flush. *)
Definition timed_run (l : list (Z * command)) (w : world shared_log) : world shared_log :=
  fold_left (fun w x => (kvstore_service_flush (kvstore_service_execute_with_barrier no_admin x.2 (set_clock x.1 w)).2).2) l w.

Definition idle_start : world shared_log :=
  mk_world [] 1000 [] (kvstore_service_attach_aof (Some (mk_shared_log (aof_open [] AOF_FSYNC_ALWAYS) WTop [])) new_service).

(** The file once the writer wrote [sizes] bytes at a time. *)
Definition drained_file (sizes : list Z) (w : world shared_log) : list Z :=
  match sv_aof (w_service w) with
  | Some s =>
      d_file (a_disk (run_writer (sizes ≫= fun n => [WRun; WWritten n; WRun; WRun; WSynced (1, 0) (Some (1, 2000)); WRun; WRun]) (sl_writer s) (sl_aof s)).2)
  | None => []
  end.

Definition recovered_store (file : list Z) : Z * astore :=
  let '(r, _, v, _) := aof_replay replay_ok file (replay_callback no_admin) sample_restart in
  (r, visible 5000 (sv_cache (w_service v))).

(** SET k v PX 1000, PERSIST k. *)
Definition persisted : world shared_log :=
  timed_run [(1000, [lit "SET"; [107]; [118]; lit "PX"; decimal 1000]); (1500, [lit "PERSIST"; [107]])] idle_start.

(** HSET h f v, PEXPIRE h 1000, HSET h g w. *)
Definition expired_hash : world shared_log :=
  timed_run [(1000, [lit "HSET"; [104]; [102]; [118]]); (1000, [lit "PEXPIRE"; [104]; decimal 1000]); (1500, [lit "HSET"; [104]; [103]; [119]])] idle_start.

(** Deadlines that passed before the restart.  Replay compares the deadline
    of a record with the time of the restart, not of the record.  A key that
    was set with a deadline which PERSIST removed is gone after a restart that
    comes later than the removed deadline; a hash that got a deadline, was
    written again and expired is back after the restart with the last field
    only and without a deadline. *)
Example restart_mishandles_deadlines :
  visible 5000 (sv_cache (w_service persisted)) = {[ [107] := (AString [118], 0) ]} /\
  recovered_store (drained_file [71] persisted) = (0, ∅) /\
  visible 5000 (sv_cache (w_service expired_hash)) = ∅ /\
  recovered_store (drained_file [106] expired_hash) = (0, {[ [104] := (AHash {[ [103] := [119] ]}, 0) ]}).
Proof. split_and!; vm_compute; reflexivity. Qed.
