(* ===== verification/Checkpoint.v ===== *)
(** A call of the log that waits for the writer thread, run to its end:
    checkpoints and pauses as the saving of snapshots uses them.  What reached
    the device stays there. *)

From S2P Require Import Prelude Resp ZOrder Rdb RdbImage Aof AofCodec AofLog AofProps CommandText MysqlStore Service ServiceStore ServiceSpec ServiceLog.

(** ** Calls *)

(** The call that the first event makes, with the steps of both threads in the
    order of the events; an event that does not apply is skipped.  [None]: the
    events end before the call does. *)
Fixpoint run_call (evs : list (producer_event + writer_event)) (pc : producer_pc) (s : shared_log)
  : option (call_result * shared_log) :=
  match evs with
  | [] => None
  | inr ev :: evs =>
      match writer_step ev (sl_writer s) (sl_aof s) with
      | Some (wpc, a) => run_call evs pc (mk_shared_log a wpc (sl_schedule s))
      | None => run_call evs pc s
      end
  | inl ev :: evs =>
      match producer_step (joined (sl_writer s)) ev pc (sl_aof s) with
      | Some (pc, a, Pending) => run_call evs pc (with_log a s)
      | Some (_, a, r) => Some (r, with_log a s)
      | None => run_call evs pc s
      end
  end.

Definition aof_create_checkpoint (m : mem) (io : list random_outcome) (evs : list (producer_event + writer_event)) (s : shared_log)
  : option (option rdb_checkpoint * shared_log) :=
  '(r, s) ← run_call (inl (CallCheckpoint m io) :: evs) PIdle s;
  Some (match r with Checkpointed cp => Some cp | _ => None end, s).

Definition aof_pause_for_fork (evs : list (producer_event + writer_event)) (s : shared_log) : option (Z * shared_log) :=
  '(r, s) ← run_call (inl CallPause :: evs) PIdle s;
  Some (match r with Returned r => r | _ => -1 end, s).

(** ** What reached the device stays there *)

(** At least [n] bytes are on the device. *)
Definition holds_bytes (n : Z) (a : aof) : Prop := n <= d_durable (a_disk a) <= zlen (d_file (a_disk a)).

Lemma writer_keeps n ev pc a pc' a' :
  writer_step ev pc a = Some (pc', a') -> holds_bytes n a -> holds_bytes n a' /\ sq_synced (a_seqs a) <= sq_synced (a_seqs a').
Proof.
  unfold holds_bytes. destruct pc; cbn [writer_step]; intros E H.
  - injection E as E. unfold writer_top in E. repeat case_match; injection E as <- <-; done.
  - destruct ev as [| |k| |e| | |]; try done; try (by injection E as <- <-). destruct (_ && _).
    + injection E as <- <-. cbn. rewrite zlen_app. pose proof (zlen_nonneg (take (Z.to_nat k) data)). lia.
    + destruct (_ =? 0); [by injection E as <- <-|done].
  - unfold writer_consume in E. destruct (consume_written _ _) as [[completed sh]|]; [|done]. injection E as <- <-. destruct (_ && _); done.
  - unfold sync_enter in E. destruct (a_sync_mutex a); [done|]. destruct (_ <=? _); by injection E as <- <-.
  - destruct ev; try done; injection E as <- <-; cbn; [lia|done].
  - injection E as <- <-. cbn. destruct (Z.gtb_spec target (sq_synced (a_seqs a))); lia.
  - injection E as <- <-. by destruct (_ >? _).
  - destruct ev; try (by injection E as <- <-). destruct (a_policy a); by injection E as <- <-.
  - by injection E as <- <-.
  - by injection E as <- <-.
  - done.
Qed.

Lemma run_writer_keeps n evs pc a : holds_bytes n a -> holds_bytes n (run_writer evs pc a).2.
Proof.
  revert pc a. induction evs as [|ev evs IH]; intros pc a H; cbn [run_writer]; [done|].
  destruct (writer_step ev pc a) as [[pc1 a1]|] eqn:E; [|by apply IH]. apply IH. by eapply writer_keeps.
Qed.

Lemma interleave_keeps n s : holds_bytes n (sl_aof s) -> holds_bytes n (sl_aof (interleave s)).
Proof.
  intros H. unfold interleave. pose proof (run_writer_keeps n (default [] (head (sl_schedule s))) (sl_writer s) _ H) as Hr. by destruct (run_writer _ _ _).
Qed.

Lemma append_disk m a arguments : a_disk (aof_append m a arguments).1.2 = a_disk a.
Proof.
  pose proof (append_spec m a arguments) as H. destruct (aof_append m a arguments) as [[r a'] m']. cbn. apply H.
Qed.

Lemma commit_loop_disk fuel m position assigned a : a_disk (commit_loop fuel m position assigned a).1.2 = a_disk a.
Proof.
  revert m position a. induction fuel as [|fuel IH]; intros m position a; cbn [commit_loop]; destruct (_ <? _); try done.
  assert (Hacq : a_disk (commit_acquire m a).1.2 = a_disk a).
  { unfold commit_acquire. destruct (pr_chunk _); [done|]. by destruct (acquire_chunk _ _) as [[[] sh] m1]. }
  destruct (commit_acquire m a) as [[ok a1] m1]. cbn in Hacq. destruct ok; cbn [negb]; [|done].
  destruct (pr_chunk (a_producer a1)) as [k|]; [|done].
  assert (Hcopy : a_disk (commit_copy position assigned k a1).2 = a_disk a1) by (unfold commit_copy; by destruct (_ =? AOF_CHUNK_CAPACITY)).
  destruct (commit_copy position assigned k a1) as [position' a2]. cbn in Hcopy. rewrite IH. congruence.
Qed.

Lemma commit_disk m a : a_disk (aof_transaction_commit m a).1.2 = a_disk a.
Proof.
  unfold aof_transaction_commit. destruct (negb _); [done|].
  assert (Ha : a_disk (if zlen (pr_transaction (a_producer a)) >? 0 then assign_sequence a else (0, a)).2 = a_disk a) by (by destruct (_ >? 0)).
  destruct (if _ >? 0 then _ else _) as [assigned a1]. cbn in Ha. pose proof (commit_loop_disk (length (pr_transaction (a_producer a1))) m 0 assigned a1) as Hl.
  destruct (commit_loop _ _ _ _ _) as [[ok a2] m2]. cbn in Hl. destruct ok; cbn; congruence.
Qed.

(** The laws of the log with the bytes that the device holds. *)
Definition contents_holding (n : Z) (s : shared_log) (txn : option (list command)) (d : transactions) : Prop :=
  log_contents s txn d /\ holds_bytes n (sl_aof s).

Definition holding_laws (n : Z) : LogLaws shared_log.
Proof.
  refine {| log_repr := contents_holding n; log_exhausted := log_worn |}.
  - intros s d [Hc Hb]. pose proof (law_begin s d Hc) as Hl. apply interleave_keeps in Hb. cbn [log_begin shared_log_ops] in *.
    assert (Hd : a_disk (aof_transaction_begin (sl_aof (interleave s))).2 = a_disk (sl_aof (interleave s))) by (unfold aof_transaction_begin; by destruct (_ || _)).
    destruct (aof_transaction_begin (sl_aof (interleave s))) as [r a]. cbn in Hd. unfold contents_holding, holds_bytes in *. cbn. rewrite Hd. tauto.
  - intros m s txn d args [Hc Hb]. pose proof (law_append m s txn d args Hc) as Hl. apply interleave_keeps in Hb. cbn [log_append shared_log_ops] in *.
    pose proof (append_disk m (sl_aof (interleave s)) (Some <$> args)) as Hd. destruct (aof_append m (sl_aof (interleave s)) (Some <$> args)) as [[r a] m']. cbn in Hd.
    unfold contents_holding, holds_bytes in *. cbn in *. rewrite Hd. tauto.
  - intros m s args. apply (law_append_any m s args).
  - intros m s txn d [Hc Hb]. pose proof (law_commit m s txn d Hc) as Hl. apply interleave_keeps in Hb. cbn [log_commit shared_log_ops] in *.
    pose proof (commit_disk m (sl_aof (interleave s))) as Hd. destruct (aof_transaction_commit m (sl_aof (interleave s))) as [[[r q] a] m']. cbn in Hd.
    unfold contents_holding, holds_bytes in *. cbn in *. rewrite Hd. tauto.
  - intros m s. apply (law_commit_any m s).
  - intros s txn d [Hc Hb]. split; [exact (law_rollback s txn d Hc)|]. by apply interleave_keeps in Hb.
  - intros s d [Hc Hb]. pose proof (law_flush s d Hc) as (s' & E & Hs'). exists s'. split; [done|]. split; [done|]. apply interleave_keeps in Hb.
    cbn in E. destruct (flush_now (sl_aof (interleave s))) as [[r a]|] eqn:Ef; [|done]. cbn in E. injection E as -> <-. cbn. unfold flush_now, flush_enter in Ef.
    destruct (pr_active _); [done|]. assert (Hq : forall b, a_disk (queue_producer_chunk b) = a_disk b) by (intros b; unfold queue_producer_chunk; by destruct (pr_chunk _)).
    destruct (_ =? 0); [|done]. injection Ef as <-. unfold holds_bytes. by rewrite Hq.
Defined.

(** ** A checkpoint is created *)

(** The log [d] with the marker of the checkpoint. *)
Definition marked_log (d : transactions) (q : Z) (t : list Z) : transactions := d ++ [(q, [marker t])].

(** Where [aof_create_checkpoint] is, and what the log has of the marker. *)
Definition phase (d : transactions) (pc : producer_pc) (a : aof) (h : history) : Prop :=
  match pc with
  | PCommit (ForCheckpoint t) position q => h_log h = if 0 <? position then marked_log d q t else d
  | PQueue t q | PWait (ForToken t) q | PSyncEnter t q | PSyncDevice t q | PSyncLeave t q _ =>
      h_log h = marked_log d q t /\ pr_active (a_producer a) = false
  | PStat t => (exists q, h_log h = marked_log d q t /\ q <= sq_synced (a_seqs a)) /\ pr_active (a_producer a) = false
  | _ => False
  end.

Lemma producer_state policy cmds s pc h ev pc' a r :
  log_state policy cmds s pc h -> producer_step (joined (sl_writer s)) ev pc (sl_aof s) = Some (pc', a, r) ->
  let h' := record_step ev pc (sl_aof s) pc' r h in
  h_torn h' = h_torn h -> h_count h' = h_count h -> h_pend h' = h_pend h ->
  pr_transaction_capacity (a_producer a) = pr_transaction_capacity (a_producer (sl_aof s)) ->
  pr_pending_capacity (a_producer a) = pr_pending_capacity (a_producer (sl_aof s)) ->
  log_state policy cmds (with_log a s) pc' h'.
Proof.
  intros [L1 L2 L3 L4 L5 L6] E h' H1 H2 H3 H4 H5. split; [done| |by rewrite H1|by rewrite H2|by rewrite H3|cbn; by rewrite H4, H5].
  eapply reach_step; [exact L2|]. exact (step_producer (mk_system (sl_aof s) pc (sl_writer s) h) ev pc' a r E).
Qed.

Lemma writer_state policy cmds s pc h ev wpc a :
  log_state policy cmds s pc h -> writer_step ev (sl_writer s) (sl_aof s) = Some (wpc, a) ->
  log_state policy cmds (mk_shared_log a wpc (sl_schedule s)) pc h.
Proof.
  intros [L1 L2 L3 L4 L5 L6] E. destruct (writer_producer _ _ _ _ _ E) as [Hp _]. split; try done; cbn; [|by rewrite Hp].
  eapply reach_step; [exact L2|]. exact (step_writer (mk_system (sl_aof s) pc (sl_writer s) h) ev wpc a E).
Qed.

(** A step towards the checkpoint. *)
Lemma commit_phase policy cmds s h d t position q m pc a :
  log_state policy cmds s (PCommit (ForCheckpoint t) position q) h -> phase d (PCommit (ForCheckpoint t) position q) (sl_aof s) h ->
  commit_step m (ForCheckpoint t) position q (sl_aof s) = (pc, a, Pending) ->
  exists h', log_state policy cmds (with_log a s) pc h' /\ phase d pc a h'.
Proof.
  intros Hs Hph E. destruct (state_inv _ _ _ _ _ Hs) as [base Hinv]. destruct (li_producer _ _ Hinv) as (Hpos & _ & _ & _ & Htxn). cbn [s_aof s_history] in *.
  assert (Hst : producer_step (joined (sl_writer s)) (PRun m) (PCommit (ForCheckpoint t) position q) (sl_aof s) = Some (pc, a, Pending)) by (cbn; by rewrite E).
  pose proof (producer_state _ _ _ _ _ _ _ _ _ Hs Hst) as Hnew. eexists. split.
  - apply Hnew; clear Hnew; unfold commit_step in E.
    all: destruct (_ <? _); [destruct (pr_chunk _) as [k|] eqn:Ek|injection E as <- <-; done].
    all: try (destruct (commit_copy _ _ _ _) as [position' a'] eqn:Ec; injection E as <- <-; unfold commit_copy in Ec; cbn; try destruct (_ && _); destruct (_ =? AOF_CHUNK_CAPACITY); injection Ec as _ <-; done).
    all: unfold commit_acquire in E; rewrite Ek in E; destruct (acquire_chunk _ _) as [[[] sh] m1]; try done; injection E as <- <-; cbn; try destruct (_ && _); done.
  - clear Hnew. unfold commit_step in E. cbn [phase] in Hph. destruct (Z.ltb_spec position (zlen (pr_transaction (a_producer (sl_aof s))))) as [Hlt|Hge].
    + destruct (pr_chunk _) as [k|] eqn:Ek.
      * pose proof (bi_chunk _ _ _ _ _ (li_bytes _ _ Hinv)) as Hc. cbn [s_aof] in Hc. rewrite Ek in Hc. destruct Hc as (_ & Hcap & _).
        destruct (commit_copy position q k (sl_aof s)) as [position' a'] eqn:Ec. injection E as <- <-. cbn [record_step phase].
        assert (position < position').
        { unfold commit_copy in Ec. destruct (_ =? AOF_CHUNK_CAPACITY); injection Ec as <- _; destruct (Z.gtb_spec (zlen (pr_transaction (a_producer (sl_aof s))) - position) (AOF_CHUNK_CAPACITY - zlen (ck_data k))); lia. }
        destruct (Z.ltb_spec 0 position'); [|lia]. destruct (Z.eqb_spec position 0) as [->|]; cbn [andb Z.ltb Z.compare] in *.
        -- cbn. by rewrite Hph, Htxn.
        -- destruct (Z.ltb_spec 0 position); [done|lia].
      * unfold commit_acquire in E. rewrite Ek in E. destruct (acquire_chunk _ _) as [[[] sh] m1]; [|done]. injection E as <- <-. cbn [record_step phase].
        destruct (Z.eqb_spec position 0) as [->|]; cbn [andb]; done.
    + injection E as <- <-. cbn. rewrite Hph. destruct (Z.ltb_spec 0 position); [done|]. exfalso.
      pose proof (bu_txn _ _ (li_buffers _ _ Hinv)) as Hb. cbn [s_aof s_history] in Hb. rewrite Hb, Htxn, log_bytes_cons, zlen_app in Hge.
      pose proof (frame_positive (marker t)). pose proof (zlen_nonneg (log_bytes [])). lia.
Qed.

Lemma step_phase policy cmds s h d pc ev pc' a :
  log_state policy cmds s pc h -> phase d pc (sl_aof s) h ->
  producer_step (joined (sl_writer s)) ev pc (sl_aof s) = Some (pc', a, Pending) ->
  exists h', log_state policy cmds (with_log a s) pc' h' /\ phase d pc' a h'.
Proof.
  intros Hs Hph E. destruct pc as [|[|t] position q|t q|use|use chunks|[| |t] q|t q|t q|t q elapsed|t| |r|]; try done.
  - cbn [producer_step] in E. destruct ev; try done. injection E as E. by eapply commit_phase.
  - assert (Hq : forall b, a_producer (queue_producer_chunk b) = with_chunk None (a_producer b) \/ a_producer (queue_producer_chunk b) = a_producer b).
    { intros b. unfold queue_producer_chunk. destruct (pr_chunk _); [by left|by right]. }
    pose proof (producer_state _ _ _ _ _ _ _ _ _ Hs E) as Hnew. cbn [producer_step] in E. destruct ev; try done. injection E as <- <-.
    exists h. specialize (Hq (sl_aof s)). split; [apply Hnew; try done; by destruct Hq as [-> | ->]|]. cbn in *. by destruct Hq as [-> | ->].
  - pose proof (producer_state _ _ _ _ _ _ _ _ _ Hs E) as Hnew. cbn [producer_step] in E. destruct ev; try done. unfold wait_step in E.
    destruct (_ && _); [done|]. destruct (_ =? 0); [|done]. injection E as <- <-. exists h. split; [by apply Hnew|done].
  - pose proof (producer_state _ _ _ _ _ _ _ _ _ Hs E) as Hnew. cbn [producer_step] in E. destruct ev; try done. unfold sync_enter in E.
    destruct (a_sync_mutex _); [done|]. cbn in Hph. destruct (Z.leb_spec q (sq_synced (a_seqs (sl_aof s)))); injection E as <- <-; exists h; (split; [by apply Hnew|]); cbn; [|done].
    split; [|by apply Hph]. exists q. split; [by apply Hph|done].
  - pose proof (producer_state _ _ _ _ _ _ _ _ _ Hs E) as Hnew. cbn [producer_step] in E. destruct ev; try done. injection E as <- <-. exists h. split; [by apply Hnew|done].
  - pose proof (producer_state _ _ _ _ _ _ _ _ _ Hs E) as Hnew. cbn [producer_step] in E. destruct ev; try done. injection E as <- <-. exists h. split; [by apply Hnew|].
    cbn in *. split; [|by apply Hph]. exists q. split; [by apply Hph|]. destruct (Z.gtb_spec q (sq_synced (a_seqs (sl_aof s)))); lia.
  - cbn [producer_step] in E. by destruct ev.
Qed.

Lemma writer_phase policy cmds s h d pc ev wpc a :
  log_state policy cmds s pc h -> phase d pc (sl_aof s) h -> writer_step ev (sl_writer s) (sl_aof s) = Some (wpc, a) -> phase d pc a h.
Proof.
  intros Hs Hph E. destruct (state_inv _ _ _ _ _ Hs) as [base Hinv]. pose proof (ni_durable _ _ _ _ (li_numbers _ _ Hinv)) as Hd. cbn [s_aof] in Hd.
  destruct (writer_producer _ _ _ _ _ E) as [Hp _]. destruct (writer_keeps _ _ _ _ _ _ E Hd) as [_ Hle].
  destruct pc as [|[|t] position q|t q|use|use chunks|[| |t] q|t q|t q|t q elapsed|t| |r|]; try done; cbn in *; rewrite ?Hp; try done.
  destruct Hph as [(q & H1 & H2) H3]. split; [|done]. exists q. split; [done|lia].
Qed.

(** The log with the checkpoint [cp]: the marker ends the file, which is on the
    device up to there. *)
Record checkpointed (d : transactions) (cp : rdb_checkpoint) (s : shared_log) : Prop := {
  ck_valid : cp_valid cp = true;
  ck_token : zlen (token cp) = 16;
  ck_log : exists q, log_contents s None (marked_log d q (token cp)) /\
    aof_offset cp = zlen (log_bytes (all_commands (marked_log d q (token cp))));
  ck_durable : holds_bytes (aof_offset cp) (sl_aof s)
}.

Lemma stat_checkpoint policy cmds s h d t :
  log_state policy cmds s (PStat t) h -> phase d (PStat t) (sl_aof s) h ->
  checkpointed d (mk_checkpoint (zlen (d_file (a_disk (sl_aof s)))) t true) s.
Proof.
  intros Hs [(q & Hlog & Hq) Hact]. destruct (state_inv _ _ _ _ _ Hs) as [base Hinv]. pose proof (reach_token _ _ _ (ls_reach _ _ _ _ _ Hs)) as Htok.
  destruct (stat_file base _ t Hinv eq_refl) as [Hf _]. cbn [s_aof s_history] in Hf. pose proof (li_numbers _ _ Hinv) as [_ N2 _ _ _ [_ N6] N7 _]. cbn [s_aof s_history] in *.
  assert (Hall : log_end (h_log h) (sq_synced (a_seqs (sl_aof s))) = zlen (stream (h_log h))).
  { apply log_end_all. rewrite Hlog in *. apply Forall_app. split; [|by constructor; [|constructor]]. unfold numbered, marked_log in N2. rewrite fmap_app in N2.
    apply StronglySorted_app_iff in N2 as (_ & _ & N2). apply Forall_forall. intros x Hx. assert (x.1 < q); [|lia].
    apply N2; [by apply list_elem_of_fmap_2|cbn; apply elem_of_cons; by left]. }
  split; cbn [token aof_offset cp_valid]; try done.
  - exists q. rewrite <- Hlog, Hf. split; [|done]. exists policy, cmds, h. split; [|by rewrite Hact].
    pose proof (producer_state _ _ _ _ _ (PRun []) _ _ _ Hs eq_refl) as Hn. cbn in Hn. specialize (Hn eq_refl eq_refl eq_refl eq_refl eq_refl). by destruct s.
  - unfold holds_bytes. rewrite Hf, <- Hall. rewrite <- Hf in Hall. lia.
Qed.

Lemma run_checkpoint policy cmds evs d pc s h r s' cp :
  log_state policy cmds s pc h -> phase d pc (sl_aof s) h -> run_call evs pc s = Some (r, s') -> r = Checkpointed cp ->
  checkpointed d cp s'.
Proof.
  revert pc s h. induction evs as [|[ev|ev] evs IH]; intros pc s h Hs Hph E ->; cbn [run_call] in E; [done| |].
  - destruct (producer_step _ ev pc (sl_aof s)) as [[[pc' a] r']|] eqn:Ep; [|by eapply IH].
    destruct r' as [|x|x|cp']; [|done..|].
    + destruct (step_phase _ _ _ _ _ _ _ _ _ Hs Hph Ep) as (h' & Hs' & Hph'). by eapply IH.
    + injection E as -> <-. apply checkpointed_at in Ep as (t & -> & -> & ->). replace (with_log (sl_aof s) s) with s by (by destruct s). by eapply stat_checkpoint.
  - destruct (writer_step ev (sl_writer s) (sl_aof s)) as [[wpc a]|] eqn:Ew; [|by eapply IH].
    eapply IH; [by eapply writer_state|by eapply writer_phase|done|done].
Qed.

(** The log has numbers for a further transaction. *)
Definition log_room (s : shared_log) : Prop := sq_next (a_seqs (sl_aof s)) + 1 < 2 ^ 64.

Lemma checkpoint_begins policy cmds m io s h pc a :
  log_state policy cmds s PIdle h -> log_room s -> checkpoint_enter m io (sl_aof s) = (pc, a, Pending) ->
  exists h', log_state policy cmds (with_log a s) pc h' /\ phase (h_log h) pc a h'.
Proof.
  intros Hs Hroom E. destruct (state_inv _ _ _ _ _ Hs) as [base Hinv]. pose proof (li_count _ _ Hinv) as Hcnt. cbn [s_aof s_history] in Hcnt. unfold log_room in Hroom.
  assert (Hcall : producer_call (CallCheckpoint m io) (sl_aof s) = Some (pc, a, Pending)) by (cbn; by rewrite E).
  pose proof (call_state policy cmds s h _ pc a Pending Hs Hcall) as Hnew. clear Hcall. unfold checkpoint_enter in E.
  destruct (fill_random_token io _) as [t|]; [|done]. unfold aof_transaction_begin in E. destruct (_ || _); [done|]. cbn [Z.eqb negb] in E.
  match type of E with context [aof_append m ?b _] => set (a1 := b) in E end. pose proof (append_capacity m a1 (checkpoint_arguments t) (ls_capacity _ _ _ _ _ Hs)) as Hcap.
  destruct (aof_append m a1 (checkpoint_arguments t)) as [[r a2] m2]. destruct (r =? 0); [|done]. cbn [negb] in E. unfold commit_enter in E.
  destruct (pr_active _); [|done]. cbn [negb] in E. destruct (if _ >? 0 then _ else _) as [q a3] eqn:Ea. injection E as <- <-.
  assert (Hp : a_producer a3 = a_producer a2) by (destruct (_ >? 0); by injection Ea as _ <-).
  exists (add_count (set_txn [marker t] h)). split; [|done]. apply Hnew; cbn; [apply Hs|lia|apply Hs|by rewrite Hp].
Qed.

Lemma create_checkpoint_spec m io evs s d cp s' :
  log_contents s None d -> log_room s -> aof_create_checkpoint m io evs s = Some (Some cp, s') -> checkpointed d cp s'.
Proof.
  intros (policy & cmds & h & Hs & _ & ->) Hroom E. unfold aof_create_checkpoint in E. destruct (run_call _ _ _) as [[r s1]|] eqn:Er; [|done].
  destruct r as [|x|x|cp']; try done. injection E as -> ->. cbn [run_call producer_step producer_call] in Er.
  destruct (checkpoint_enter m io (sl_aof s)) as [[pc a] r] eqn:Ec. pose proof (checkpointed_at (joined (sl_writer s)) (CallCheckpoint m io) PIdle (sl_aof s) pc a) as Hno.
  cbn in Hno. rewrite Ec in Hno. destruct r as [|x|x|cp']; try done; [|by destruct (Hno cp' eq_refl) as (t & ? & _)].
  destruct (checkpoint_begins _ _ _ _ _ _ _ _ Hs Hroom Ec) as (h' & Hs' & Hph). by eapply run_checkpoint.
Qed.

(** ** A checkpoint that is not created *)

(** The commit that the step ends failed after it had handed over a part of the
    marker. *)
Definition cut_short (pc : producer_pc) (r : call_result) : bool :=
  match pc, r with PCommit _ position _, Returned _ => 0 <? position | _, _ => false end.

(** The call of [run_call] hands over its marker as a whole or not at all. *)
Fixpoint whole_marker (evs : list (producer_event + writer_event)) (pc : producer_pc) (s : shared_log) : bool :=
  match evs with
  | [] => true
  | inr ev :: evs =>
      match writer_step ev (sl_writer s) (sl_aof s) with
      | Some (wpc, a) => whole_marker evs pc (mk_shared_log a wpc (sl_schedule s))
      | None => whole_marker evs pc s
      end
  | inl ev :: evs =>
      match producer_step (joined (sl_writer s)) ev pc (sl_aof s) with
      | Some (pc, a, Pending) => whole_marker evs pc (with_log a s)
      | Some (_, _, r) => negb (cut_short pc r)
      | None => whole_marker evs pc s
      end
  end.

(** The log as it was, or with the marker of the checkpoint that failed. *)
Definition unmarked_or_marked (d d' : transactions) : Prop := d' = d \/ exists q t, zlen t = 16 /\ d' = marked_log d q t.

Lemma phase_keeps n j d ev pc a h pc' a' r :
  phase d pc a h -> producer_step j ev pc a = Some (pc', a', r) -> holds_bytes n a -> holds_bytes n a'.
Proof.
  intros Hph E H. unfold holds_bytes in *. assert (Hq : forall b, a_disk (queue_producer_chunk b) = a_disk b) by (intros b; unfold queue_producer_chunk; by destruct (pr_chunk _)).
  destruct pc as [|[|t] position q|t q|use|use chunks|[| |t] q|t q|t q|t q elapsed|t| |x|]; try done; cbn [producer_step] in E; destruct ev; try done.
  - injection E as E. unfold commit_step in E. destruct (_ <? _); [|by injection E as <- <- <-]. destruct (pr_chunk _) as [k|] eqn:Ek.
    + unfold commit_copy in E. destruct (_ =? AOF_CHUNK_CAPACITY); by injection E as <- <- <-.
    + unfold commit_acquire in E. rewrite Ek in E. destruct (acquire_chunk _ _) as [[[] sh] m1]; by injection E as <- <- <-.
  - injection E as <- <- <-. by rewrite Hq.
  - unfold wait_step in E. destruct (_ && _); [done|]. destruct (_ =? 0); by injection E as <- <- <-.
  - unfold sync_enter in E. destruct (a_sync_mutex _); [done|]. destruct (_ <=? _); by injection E as <- <- <-.
  - injection E as <- <- <-. cbn. lia.
  - by injection E as <- <- <-.
  - injection E as <- <- <-. cbn. done.
  - by injection E as <- <- <-.
  - by injection E as <- <- <-.
Qed.

Lemma returned_contents policy cmds s h d ev pc pc' a r :
  log_state policy cmds s pc h -> phase d pc (sl_aof s) h -> producer_step (joined (sl_writer s)) ev pc (sl_aof s) = Some (pc', a, Returned r) ->
  cut_short pc (Returned r) = false -> exists d', unmarked_or_marked d d' /\ log_contents (with_log a s) None d'.
Proof.
  intros Hs Hph E Hcut. pose proof (producer_state _ _ _ _ _ _ _ _ _ Hs E) as Hnew. pose proof (reach_token _ _ _ (ls_reach _ _ _ _ _ Hs)) as Htok. cbn [s_producer] in Htok.
  destruct pc as [|[|t] position q|t q|use|use chunks|[| |t] q|t q|t q|t q elapsed|t| |x|]; try done; cbn [producer_step] in E; destruct ev; try done.
  - injection E as E. unfold commit_step in E. cbn [cut_short phase] in *. rewrite Hcut in Hph. destruct (_ <? zlen _); [|done]. destruct (pr_chunk _) as [k|] eqn:Ek.
    { by destruct (commit_copy _ _ _ _). }
    unfold commit_acquire in E. rewrite Ek in E. destruct (acquire_chunk _ _) as [[[] sh] m1]; [done|]. injection E as <- <- <-. exists d. split; [by left|].
    eexists policy, cmds, _. split; [apply Hnew; cbn; rewrite ?Hcut, ?orb_false_r; done|]. cbn. by rewrite Hph.
  - unfold wait_step in E. destruct (_ && _); [done|]. destruct (_ =? 0); [done|]. injection E as <- <- <-. destruct Hph as [Hl Ha]. exists (h_log h).
    split; [right; by exists q, t|]. exists policy, cmds, h. split; [by apply Hnew|]. cbn. by rewrite Ha.
  - destruct (sync_enter _ _) as [[] |]; done.
  - injection E as <- <- <-. destruct Hph as [Hl Ha]. exists (h_log h). split; [right; by exists q, t|]. exists policy, cmds, h. split; [by apply Hnew|]. cbn. by rewrite Ha.
  - injection E as <- <- <-. destruct Hph as [(q & Hl & _) Ha]. exists (h_log h). split; [right; by exists q, t|]. exists policy, cmds, h. split; [by apply Hnew|]. cbn. by rewrite Ha.
Qed.

Lemma phase_no_commit j d ev pc a h pc' a' q : phase d pc a h -> producer_step j ev pc a <> Some (pc', a', Committed q).
Proof.
  intros Hph E. destruct pc as [|[|t] position x|t x|use|use chunks|[| |t] x|t x|t x|t x elapsed|t| |x|]; try done; cbn [producer_step] in E; destruct ev; try done.
  - injection E as E. unfold commit_step in E. destruct (_ <? _); [|done]. destruct (pr_chunk _); [by destruct (commit_copy _ _ _ _)|].
    by destruct (commit_acquire _ _) as [[[] ?] ?].
  - unfold wait_step in E. destruct (_ && _); [done|]. by destruct (_ =? 0).
  - by destruct (sync_enter _ _) as [[] |].
Qed.

Lemma run_failed policy cmds evs d n pc s h r s' :
  log_state policy cmds s pc h -> phase d pc (sl_aof s) h -> holds_bytes n (sl_aof s) -> run_call evs pc s = Some (r, s') ->
  (forall cp, r <> Checkpointed cp) -> whole_marker evs pc s = true -> exists d', unmarked_or_marked d d' /\ contents_holding n s' None d'.
Proof.
  revert pc s h. induction evs as [|[ev|ev] evs IH]; intros pc s h Hs Hph Hb E Hr Hw; cbn [run_call whole_marker] in E, Hw; [done| |].
  - destruct (producer_step _ ev pc (sl_aof s)) as [[[pc' a] r']|] eqn:Ep; [|by eapply IH]. pose proof (phase_keeps n _ _ _ _ _ _ _ _ _ Hph Ep Hb) as Hb'.
    destruct r' as [|x|x|cp].
    + destruct (step_phase _ _ _ _ _ _ _ _ _ Hs Hph Ep) as (h' & Hs' & Hph'). by eapply IH.
    + injection E as <- <-. apply negb_true_iff in Hw. destruct (returned_contents _ _ _ _ _ _ _ _ _ _ Hs Hph Ep Hw) as (d' & H1 & H2). by exists d'.
    + by apply (phase_no_commit _ _ _ _ _ _ _ _ _ Hph) in Ep.
    + injection E as <- _. by destruct (Hr cp).
  - destruct (writer_step ev (sl_writer s) (sl_aof s)) as [[wpc a]|] eqn:Ew; [|by eapply IH]. destruct (writer_keeps _ _ _ _ _ _ Ew Hb) as [Hb' _].
    eapply IH; [by eapply writer_state|by eapply writer_phase|done|done|done|done].
Qed.

(** The call is refused before its commit begins: nothing of it is in the log. *)
Lemma checkpoint_refused policy cmds m io s h pc a r :
  log_state policy cmds s PIdle h -> pr_active (a_producer (sl_aof s)) = false -> checkpoint_enter m io (sl_aof s) = (pc, a, Returned r) ->
  log_contents (with_log a s) None (h_log h) /\ a_disk a = a_disk (sl_aof s).
Proof.
  intros Hs Hidle E. assert (Hcall : producer_call (CallCheckpoint m io) (sl_aof s) = Some (pc, a, Returned r)) by (cbn; by rewrite E).
  pose proof (call_state policy cmds s h _ pc a (Returned r) Hs Hcall) as Hnew. clear Hcall. unfold checkpoint_enter in E.
  assert (Hrec : forall x, let h' := record_step (CallCheckpoint m io) PIdle (sl_aof s) PIdle (Returned x) h in
    h_torn h' = h_torn h /\ h_count h' = h_count h /\ h_pend h' = h_pend h /\ h_log h' = h_log h) by (intros x; cbn; by destruct (bool_decide _)).
  destruct (Hrec r) as (R1 & R2 & R3 & R4). clear Hrec.
  assert (Hend : pc = PIdle -> pr_active (a_producer a) = false -> 0 <= pr_transaction_capacity (a_producer a) /\ 0 <= pr_pending_capacity (a_producer a) ->
    log_contents (with_log a s) None (h_log h)).
  { intros -> Ha Hc. eexists policy, cmds, _. split; [apply Hnew; [rewrite R1; apply Hs|rewrite R2; apply Hs|rewrite R3; apply Hs|done]|]. cbn [sl_aof with_log]. by rewrite Ha, R4. }
  pose proof (ls_capacity _ _ _ _ _ Hs) as Hcap. destruct (fill_random_token io _) as [t|]; [|injection E as <- <- <-; split; [by apply Hend|done]].
  unfold aof_transaction_begin in E. destruct (_ || _); [injection E as <- <- <-; split; [by apply Hend|done]|]. cbn [Z.eqb negb] in E.
  match type of E with context [aof_append m ?b _] => set (a1 := b) in E end. pose proof (append_capacity m a1 (checkpoint_arguments t) Hcap) as Hcap'.
  pose proof (append_disk m a1 (checkpoint_arguments t)) as Hd. pose proof (append_spec m a1 (checkpoint_arguments t)) as Hspec.
  destruct (aof_append m a1 (checkpoint_arguments t)) as [[x a2] m2]. cbn in Hd. destruct (x =? 0); cbn [negb] in E.
  - unfold commit_enter in E. destruct Hspec as ((_ & _ & _ & _ & _ & _ & Hact) & _). rewrite Hact in E. cbn [negb a1 a_producer with_producer pr_active] in E.
    by destruct (if _ >? 0 then _ else _).
  - injection E as <- <- <-. split; [by apply Hend|done].
Qed.

(** A checkpoint that fails leaves the log as it was, or with the marker. *)
Lemma failed_checkpoint_spec m io evs s d n s' :
  contents_holding n s None d -> log_room s -> aof_create_checkpoint m io evs s = Some (None, s') ->
  whole_marker (inl (CallCheckpoint m io) :: evs) PIdle s = true -> exists d', unmarked_or_marked d d' /\ contents_holding n s' None d'.
Proof.
  intros [(policy & cmds & h & Hs & Ht & ->) Hb] Hroom E Hw. unfold aof_create_checkpoint in E. destruct (run_call _ _ _) as [[r s1]|] eqn:Er; [|done]. injection E as E <-.
  cbn [run_call producer_step producer_call whole_marker] in Er, Hw. destruct (checkpoint_enter m io (sl_aof s)) as [[pc a] x] eqn:Ec.
  assert (Hidle : pr_active (a_producer (sl_aof s)) = false) by (by destruct (pr_active _)).
  destruct x as [|x|x|cp].
  - destruct (checkpoint_begins _ _ _ _ _ _ _ _ Hs Hroom Ec) as (h' & Hs' & Hph). eapply run_failed; [exact Hs'|exact Hph| |exact Er| |exact Hw].
    + unfold checkpoint_enter in Ec. assert (a_disk a = a_disk (sl_aof s)) as Hd; [|unfold holds_bytes in *; cbn; by rewrite Hd].
      destruct (fill_random_token io _) as [t|]; [|done]. unfold aof_transaction_begin in Ec. destruct (_ || _); [done|]. cbn [Z.eqb negb] in Ec.
      match type of Ec with context [aof_append m ?b ?c] => pose proof (append_disk m b c) as Hd; destruct (aof_append m b c) as [[y a2] m2] end.
      destruct (y =? 0); [|done]. cbn [negb] in Ec. unfold commit_enter in Ec. destruct (negb _); [done|]. cbn in Hd. destruct (_ >? 0); by injection Ec as _ <-.
    + intros cp ->. done.
  - injection Er as <- <-. destruct (checkpoint_refused _ _ _ _ _ _ _ _ _ Hs Hidle Ec) as [H1 H2]. exists (h_log h). split; [by left|]. split; [done|].
    unfold holds_bytes in *. cbn. by rewrite H2.
  - exfalso. unfold checkpoint_enter in Ec. destruct (fill_random_token _ _); [|done]. destruct (aof_transaction_begin _) as [y b]. destruct (negb _); [done|].
    destruct (aof_append _ _ _) as [[z b2] m2]. destruct (negb _); [done|]. unfold commit_enter in Ec. destruct (negb _); [done|]. by destruct (if _ >? 0 then _ else _).
  - by injection Er as <- _.
Qed.

(** ** A pause *)

Lemma run_pause policy cmds evs s h n r s' :
  log_state policy cmds s PPause h -> holds_bytes n (sl_aof s) -> run_call evs PPause s = Some (r, s') ->
  log_state policy cmds s' PIdle h /\ a_producer (sl_aof s') = a_producer (sl_aof s) /\ holds_bytes n (sl_aof s').
Proof.
  revert s. induction evs as [|[ev|ev] evs IH]; intros s Hs Hb E; cbn [run_call] in E; [done| |].
  - destruct (producer_step _ ev PPause (sl_aof s)) as [[[pc' a] r']|] eqn:Ep; [|by eapply IH].
    pose proof (producer_state _ _ _ _ _ _ _ _ _ Hs Ep) as Hn. cbn [producer_step] in Ep. destruct ev; try done. unfold pause_wait in Ep.
    destruct (_ && _); [done|]. destruct (negb _); injection Ep as <- <- <-; injection E as <- <-; (split; [by apply Hn|done]).
  - destruct (writer_step ev (sl_writer s) (sl_aof s)) as [[wpc a]|] eqn:Ew; [|by eapply IH].
    destruct (writer_producer _ _ _ _ _ Ew) as [Hp _]. destruct (writer_keeps _ _ _ _ _ _ Ew Hb) as [Hb' _].
    destruct (IH _ (writer_state _ _ _ _ _ _ _ _ Hs Ew) Hb' E) as (I1 & I2 & I3). split_and!; [done|by rewrite I2|done].
Qed.

Lemma pause_contents evs s d n r s' :
  contents_holding n s None d -> aof_pause_for_fork evs s = Some (r, s') -> contents_holding n s' None d.
Proof.
  intros [(policy & cmds & h & Hs & Ht & ->) Hb] E. unfold aof_pause_for_fork in E. destruct (run_call _ _ _) as [[x s1]|] eqn:Er; [|done].
  injection E as _ ->. cbn [run_call producer_step] in Er. destruct (producer_call CallPause (sl_aof s)) as [[[pc a] x']|] eqn:Ec; [|done].
  pose proof (call_state _ _ _ _ _ _ _ _ Hs Ec) as Hn. cbn in Ec. injection Ec as Ec. unfold pause_enter in Ec. destruct (_ || _).
  - injection Ec as <- <- <-. injection Er as <- <-. split; [|done]. exists policy, cmds, h. split; [apply Hn; apply Hs|done].
  - injection Ec as <- <- <-. destruct (run_pause policy cmds evs _ h n x s' ltac:(apply Hn; apply Hs) Hb Er) as (H1 & H2 & H3). split; [|done].
    exists policy, cmds, h. split; [done|]. by rewrite H2.
Qed.

Lemma resume_contents s d n :
  contents_holding n s None d -> contents_holding n (with_log (aof_resume_after_fork (sl_aof s)) s) None d.
Proof.
  intros [(policy & cmds & h & Hs & Ht & ->) Hb]. split; [|done]. exists policy, cmds, h. split; [|done].
  apply (call_state policy cmds s h CallResume PIdle _ (Returned 0) Hs eq_refl); apply Hs.
Qed.
