(* ===== verification/Persistence.v ===== *)
(** Snapshots as [src/app/main.c] takes and loads them: the manager of
    snapshots with its background child, and the start from a snapshot and the
    rest of the log. *)

From S2P Require Import Prelude Resp ZOrder Object Cache Rdb Aof AofLog CommandText MysqlStore Service ServiceLog Checkpoint.

(** ** The manager *)

(** [persistence_manager_t]; the service, the log and the files are passed
    beside it.  A time of [CLOCK_MONOTONIC] is seconds and nanoseconds; a child
    that does not run has the number 0. *)
Record persistence_manager : Type := mk_manager {
  pm_path : list Z; pm_enabled : bool; pm_save_seconds : Z; pm_save_changes : Z;
  pm_child_pid : Z; pm_child_covered_changes : Z; pm_child_snapshot_time : Z; pm_child_started : Z * Z;
  pm_automatic_epoch : Z * Z; pm_last_save_time : Z; pm_last_save_duration : Z; pm_last_fork_pause : Z;
  pm_child_peak_rss : Z; pm_child_minor_faults : Z; pm_child_major_faults : Z;
  pm_checkpoint_offset : Z; pm_last_save_status : Z
}.

Definition set_child (pid covered time : Z) (started : Z * Z) (p : persistence_manager) : persistence_manager :=
  mk_manager (pm_path p) (pm_enabled p) (pm_save_seconds p) (pm_save_changes p) pid covered time started
    (pm_automatic_epoch p) (pm_last_save_time p) (pm_last_save_duration p) (pm_last_fork_pause p)
    (pm_child_peak_rss p) (pm_child_minor_faults p) (pm_child_major_faults p) (pm_checkpoint_offset p) (pm_last_save_status p).

Definition set_epoch (epoch : Z * Z) (p : persistence_manager) : persistence_manager :=
  mk_manager (pm_path p) (pm_enabled p) (pm_save_seconds p) (pm_save_changes p) (pm_child_pid p)
    (pm_child_covered_changes p) (pm_child_snapshot_time p) (pm_child_started p)
    epoch (pm_last_save_time p) (pm_last_save_duration p) (pm_last_fork_pause p)
    (pm_child_peak_rss p) (pm_child_minor_faults p) (pm_child_major_faults p) (pm_checkpoint_offset p) (pm_last_save_status p).

Definition set_times (time duration pause : Z) (p : persistence_manager) : persistence_manager :=
  mk_manager (pm_path p) (pm_enabled p) (pm_save_seconds p) (pm_save_changes p) (pm_child_pid p)
    (pm_child_covered_changes p) (pm_child_snapshot_time p) (pm_child_started p)
    (pm_automatic_epoch p) time duration pause
    (pm_child_peak_rss p) (pm_child_minor_faults p) (pm_child_major_faults p) (pm_checkpoint_offset p) (pm_last_save_status p).

Definition set_usage (rss minor major : Z) (p : persistence_manager) : persistence_manager :=
  mk_manager (pm_path p) (pm_enabled p) (pm_save_seconds p) (pm_save_changes p) (pm_child_pid p)
    (pm_child_covered_changes p) (pm_child_snapshot_time p) (pm_child_started p)
    (pm_automatic_epoch p) (pm_last_save_time p) (pm_last_save_duration p) (pm_last_fork_pause p)
    rss minor major (pm_checkpoint_offset p) (pm_last_save_status p).

Definition set_outcome (offset status : Z) (p : persistence_manager) : persistence_manager :=
  mk_manager (pm_path p) (pm_enabled p) (pm_save_seconds p) (pm_save_changes p) (pm_child_pid p)
    (pm_child_covered_changes p) (pm_child_snapshot_time p) (pm_child_started p)
    (pm_automatic_epoch p) (pm_last_save_time p) (pm_last_save_duration p) (pm_last_fork_pause p)
    (pm_child_peak_rss p) (pm_child_minor_faults p) (pm_child_major_faults p) offset status.

Definition set_status (status : Z) (p : persistence_manager) : persistence_manager :=
  set_outcome (pm_checkpoint_offset p) status p.

Definition set_last_time (time : Z) (p : persistence_manager) : persistence_manager :=
  set_times time (pm_last_save_duration p) (pm_last_fork_pause p) p.

Definition set_duration (duration : Z) (p : persistence_manager) : persistence_manager :=
  set_times (pm_last_save_time p) duration (pm_last_fork_pause p) p.

Definition set_pause (pause : Z) (p : persistence_manager) : persistence_manager :=
  set_times (pm_last_save_time p) (pm_last_save_duration p) pause p.

Definition monotonic_elapsed_us (start finish : Z * Z) : Z :=
  let seconds := finish.1 - start.1 in
  let nanoseconds := finish.2 - start.2 in
  let '(seconds, nanoseconds) :=
    if nanoseconds <? 0 then (seconds - 1, nanoseconds + 1000000000) else (seconds, nanoseconds) in
  if seconds <? 0 then 0 else wrap64 (wrap64 (seconds * 1000000) + nanoseconds / 1000).

Abbreviation service := (kvstore_service shared_log).

Definition put_service (s : service) (w : world shared_log) : world shared_log :=
  mk_world (w_mem w) (w_now w) (w_ticks w) s.

(** [exit] is the exit status, [None] when a signal ended the child. *)
Definition persistence_finish_child (exit : option Z) (finished : Z * Z) (p : persistence_manager) (s : service)
  : persistence_manager * service :=
  let p := set_duration (monotonic_elapsed_us (pm_child_started p) finished) p in
  let '(p, s) :=
    if bool_decide (exit = Some 0)
    then (set_last_time (pm_child_snapshot_time p) (set_status 0 p),
          kvstore_service_snapshot_committed (pm_child_covered_changes p) s)
    else (set_status (-1) p, s) in
  (set_epoch finished (set_child 0 0 0 (pm_child_started p) p), s).

(** The answers of [wait4]; with [WNOHANG] and at the end of the list the child
    still runs. *)
Inductive wait_answer : Type :=
| WaitInterrupted | WaitRunning | WaitError | WaitEnded (exit : option Z) (rss minor major : Z).

Fixpoint wait_child (answers : list wait_answer) : wait_answer :=
  match answers with
  | [] => WaitRunning
  | WaitInterrupted :: answers => wait_child answers
  | answer :: _ => answer
  end.

(** Whether it succeeded; [clock] is the reading after the wait. *)
Definition persistence_reap (answers : list wait_answer) (clock : option (Z * Z)) (p : persistence_manager) (s : service)
  : bool * persistence_manager * service :=
  if pm_child_pid p <=? 0 then (true, p, s) else
  match wait_child answers with
  | WaitEnded exit rss minor major =>
      let p := set_usage rss minor major p in
      match clock with
      | None => (false, p, s)
      | Some finished => let '(p, s) := persistence_finish_child exit finished p s in (true, p, s)
      end
  | WaitError => (false, p, s)
  | _ => (true, p, s)
  end.

(** What the system answers during one save; [sc_fork] is the number of the
    child, or negative. *)
Record save_calls : Type := mk_save_calls {
  sc_wait : list wait_answer; sc_reaped : option (Z * Z); sc_started : option (Z * Z);
  sc_mem : mem; sc_random : list random_outcome; sc_checkpoint : list (producer_event + writer_event);
  sc_save : save_env; sc_finished : option (Z * Z); sc_wall : option Z;
  sc_pause : list (producer_event + writer_event); sc_fork : Z
}.

Definition no_checkpoint : rdb_checkpoint := mk_checkpoint 0 (replicate 16 0) false.

(** [None]: the call does not return; [(None, _)]: it fails. *)
Definition persistence_checkpoint (x : save_calls) (s : service) : option (option rdb_checkpoint * service) :=
  match sv_aof s with
  | None => Some (Some no_checkpoint, s)
  | Some a =>
      '(cp, a) ← aof_create_checkpoint (sc_mem x) (sc_random x) (sc_checkpoint x) a;
      Some (cp, put_aof (Some a) s)
  end.

Definition pause_log (x : save_calls) (s : service) : option (Z * service) :=
  match sv_aof s with
  | None => Some (0, s)
  | Some a => '(r, a) ← aof_pause_for_fork (sc_pause x) a; Some (r, put_aof (Some a) s)
  end.

Definition resume_log (s : service) : service :=
  put_aof ((fun a => with_log (aof_resume_after_fork (sl_aof a)) a) <$> sv_aof s) s.

(** What a child was forked with: the cache at that time and the checkpoint. *)
Record child : Type := mk_child { ch_cache : cache; ch_checkpoint : rdb_checkpoint }.

(** The foreground part of [persistence_save], after the checkpoint. *)
Definition save_now (x : save_calls) (started : Z * Z) (covered : Z) (cp : rdb_checkpoint) (fs : files)
    (p : persistence_manager) (s : service) : save_status * files * persistence_manager * service :=
  let '(result, fs, stats) := rdb_save (sc_save x) fs (pm_path p) (sv_cache s) (Some cp) in
  let p := match sc_finished x with
           | Some finished => set_epoch finished (set_duration (monotonic_elapsed_us started finished) p)
           | None => p
           end in
  if negb (result =? 0) then (SaveError, fs, set_status (-1) p, s) else
  let time := match stats with Some st => snapshot_time_ms st / 1000 | None => 0 end in
  (SaveDone, fs, set_last_time time (set_status 0 p), kvstore_service_snapshot_committed covered s).

(** The background part: [fork] with the log at rest. *)
Definition save_forked (x : save_calls) (started : Z * Z) (covered : Z) (cp : rdb_checkpoint)
    (p : persistence_manager) (s : service) : option (save_status * option child * persistence_manager * service) :=
  match sc_wall x with
  | None => Some (SaveError, None, p, s)
  | Some wall =>
      '(r, s) ← pause_log x s;
      if negb (r =? 0) then Some (SaveError, None, p, s) else
      let c := mk_child (sv_cache s) cp in
      let s := resume_log s in
      if sc_fork x <? 0 then Some (SaveError, None, set_status (-1) (set_child 0 (pm_child_covered_changes p) (pm_child_snapshot_time p) (pm_child_started p) p), s) else
      let p := match sc_finished x with
               | Some finished => set_pause (monotonic_elapsed_us started finished) p
               | None => p
               end in
      Some (SaveDone, Some c, set_child (sc_fork x) covered wall started p, s)
  end.

(** The result, the child that was forked, the files, the manager and the
    service. *)
Definition persistence_save (background : bool) (x : save_calls) (fs : files) (p : persistence_manager) (s : service)
  : option (save_status * option child * files * persistence_manager * service) :=
  if negb (pm_enabled p) then Some (SaveUnsupported, None, fs, p, s) else
  let '(reaped, p, s) := persistence_reap (sc_wait x) (sc_reaped x) p s in
  if negb reaped then Some (SaveError, None, fs, p, s) else
  if 0 <? pm_child_pid p then Some (SaveBusy, None, fs, p, s) else
  match sc_started x with
  | None => Some (SaveError, None, fs, set_status (-1) p, s)
  | Some started =>
      '(checkpoint, s) ← persistence_checkpoint x s;
      match checkpoint with
      | None => Some (SaveError, None, fs, set_status (-1) p, s)
      | Some cp =>
          let covered := kvstore_service_dirty_changes s in
          let p := set_outcome (if cp_valid cp then aof_offset cp else 0) (pm_last_save_status p) p in
          if background then '(r, c, p, s) ← save_forked x started covered cp p s; Some (r, c, fs, p, s)
          else let '(r, fs, p, s) := save_now x started covered cp fs p s in Some (r, None, fs, p, s)
      end
  end.

(** The child saves its copy; its exit status. *)
Definition child_main (env : save_env) (path : list Z) (c : child) (fs : files) : Z * files :=
  let '(result, fs, _) := rdb_save env fs path (ch_cache c) (Some (ch_checkpoint c)) in
  (if result =? 0 then 0 else 1, fs).

Definition persistence_lastsave (p : persistence_manager) : Z := pm_last_save_time p.

Definition persistence_get_info (p : persistence_manager) (s : service) : kvstore_persistence_info :=
  mk_persistence_info (if pm_enabled p then 1 else 0) (if 0 <? pm_child_pid p then 1 else 0)
    (kvstore_service_dirty_changes s) (pm_last_save_time p) (pm_last_save_duration p) (pm_last_fork_pause p)
    (pm_child_peak_rss p) (pm_child_minor_faults p) (pm_child_major_faults p) (pm_checkpoint_offset p)
    (pm_last_save_status p).

#[export] Instance save_status_eq_dec : EqDecision save_status.
Proof. solve_decision. Defined.

(** Whether it succeeded; [wait] and [reaped] are the answers to its own reap,
    [clock] the reading before the save. *)
Definition persistence_maintain (wait : list wait_answer) (reaped clock : option (Z * Z)) (x : save_calls) (fs : files)
    (p : persistence_manager) (s : service) : option (bool * option child * files * persistence_manager * service) :=
  let '(ok, p, s) := persistence_reap wait reaped p s in
  if negb ok then Some (false, None, fs, p, s) else
  if negb (pm_enabled p) || (0 <? pm_child_pid p) || (pm_save_seconds p =? 0) || (pm_save_changes p =? 0) ||
     (kvstore_service_dirty_changes s <? pm_save_changes p) then Some (true, None, fs, p, s) else
  match clock with
  | None => Some (false, None, fs, p, s)
  | Some now =>
      if wrap64 (now.1 - (pm_automatic_epoch p).1) <? pm_save_seconds p then Some (true, None, fs, p, s) else
      '(r, c, fs, p, s) ← persistence_save true x fs p s;
      Some (bool_decide (r = SaveDone), c, fs, p, s)
  end.

(** ** Starting from a snapshot *)

(** What the system answers while the snapshot is loaded: [st_access] is false
    when [access] fails for another reason than a missing file. *)
Record start_env : Type := mk_start_env {
  st_access : bool; st_opened : bool; st_stated : bool; st_mapped : bool; st_mem : mem; st_clock : nat -> Z;
  st_reads : list read_outcome; st_replay : replay_env
}.

Section Start.
Context {A : Type} `{LogOps A} (admin : persistence_admin (A := A)).

Definition load_into_service (env : start_env) (fs : files) (path : list Z) : cmd A (option (rdb_checkpoint * rdb_stats)) :=
  s ← ask;
  on_cache (fun m now c =>
    let '(_, c, loaded) := rdb_load (st_mem env) (st_opened env) (st_stated env) (st_mapped env) (st_clock env) now fs path c (sv_engine s) in
    (loaded, c, m)).

(** Where the replay begins, the manager and the service; [None]: the server
    does not start.  [log] is the file of the log if there is one. *)
Definition load_snapshot (env : start_env) (fs : files) (log : option (list Z)) (p : persistence_manager) (w : world A)
  : option (Z * persistence_manager * world A) :=
  if negb (pm_enabled p) then Some (0, p, w) else
  if negb (st_access env) then None else
  if bool_decide (fs !! pm_path p = None) then Some (0, p, w) else
  let '(loaded, w) := load_into_service env fs (pm_path p) w in
  match loaded with
  | None => None
  | Some (cp, stats) =>
      let p := set_outcome (if cp_valid cp then aof_offset cp else 0) 0 (set_last_time (snapshot_time_ms stats / 1000) p) in
      match log with
      | None => Some (0, p, w)
      | Some file =>
          if negb (cp_valid cp) || negb (aof_validate_checkpoint (st_reads env) file cp =? 0) then None
          else Some (aof_offset cp, p, w)
      end
  end.

(** The start up to the attachment of the log: the file of the log afterwards,
    the manager and the service. *)
Definition start_store (env : start_env) (fs : files) (log : option (list Z)) (p : persistence_manager) (w : world A)
  : option (option (list Z) * persistence_manager * world A) :=
  '(offset, p, w) ← load_snapshot env fs log p w;
  match log with
  | None => Some (None, p, w)
  | Some file =>
      let '(r, file, w, _) := aof_replay_from (st_replay env) file offset (fun w args => kvstore_service_replay_aof admin args w) w in
      if negb (r =? 0) then None else Some (Some file, p, w)
  end.
End Start.
