(* ===== verification/Restart.v ===== *)
(** Snapshots and the log together: the process as a transition system with its
    sessions and saves, and what a restart makes of the snapshot and the log that
    a crash leaves. *)

From S2P Require Import Prelude Resp HashTable ZOrder Object ExpireHeap LruList Cache CacheSpec CacheProps CacheEvents Rdb RdbImage RdbProps.
From S2P Require Import Aof AofCodec AofLog AofProps Double CommandText MysqlStore CommandProps.
From S2P Require Import Service ServiceStore ServiceSpec ServiceRuns ServiceCommands ServiceProps ServiceReplay ServiceSession ServiceLog ServiceClaims Checkpoint Persistence.

Abbreviation cache_of w := (sv_cache (w_service w)).

(** ** The process *)

(** The manager, the service, the files, and the child: running, or ended with
    its status. *)
Record process : Type := mk_process {
  pr_manager : persistence_manager; pr_world : world shared_log; pr_files : files; pr_child : option (child + option Z)
}.

Definition with_world (w : world shared_log) (p : process) : process := mk_process (pr_manager p) w (pr_files p) (pr_child p).

(** What a save leaves: a child that was reaped is gone. *)
Definition after_save (c : option child) (fs : files) (m : persistence_manager) (s : service) (p : process) : process :=
  mk_process m (put_service s (pr_world p)) fs
    (match c with Some c => Some (inl c) | None => if 0 <? pm_child_pid m then pr_child p else None end).

(** [wait4] reports the end of a child that ended. *)
Definition wait_agrees (answers : list wait_answer) (c : option (child + option Z)) : Prop :=
  forall exit rss minor major, wait_child answers = WaitEnded exit rss minor major -> c = Some (inr exit).

Section Process.
Context (admin : persistence_admin (A := shared_log)) (engine : kv_zset_engine) (T : Z).

(** The snapshot of the cache can be loaded again. *)
Definition snapshot_fits (cp : rdb_checkpoint) (c : cache) : Prop :=
  map_Forall (fun k e => loadable engine (k, e)) (c_entries c) /\ Z.of_nat (size (c_entries c)) < 2 ^ 59 /\
  u64_ok (aof_offset cp) /\ forall t, u64_ok t -> bytes_ok (body_image t c (Some cp)).

(** The clock and the temporary name of a save. *)
Definition save_sane (now : Z) (path : list Z) (env : save_env) : Prop :=
  path <> se_temporary env /\ forall t, se_clock env = Some t -> now <= t <= T.

(** The checkpoint that the save of [x] makes in the log [a], created or not. *)
Abbreviation checkpoint_of x a := (aof_create_checkpoint (sc_mem x) (sc_random x) (sc_checkpoint x) a).

(** The log has a number left for the marker of the checkpoint; the creation of
    the checkpoint may fail, but its commit does not stop in the middle of the
    marker; where it is created the cache fits the format of the snapshot. *)
Definition save_possible (x : save_calls) (path : list Z) (w : world shared_log) : Prop :=
  save_sane (w_now w) path (sc_save x) /\ exists a, sv_aof (w_service w) = Some a /\ log_room a /\
    whole_marker (inl (CallCheckpoint (sc_mem x) (sc_random x)) :: sc_checkpoint x) PIdle a = true /\
    forall cp a', checkpoint_of x a = Some (Some cp, a') -> snapshot_fits cp (cache_of w).

(** A step of the process: a part of a session, a save that is asked for or
    comes of its own, the end of the child, or its death by a signal, before it
    replaced the file or after. *)
Inductive process_step (p : process) : process -> Prop :=
| process_work w : session admin T (pr_world p) w -> process_step p (with_world w p)
| process_save background x r c fs m s :
    save_possible x (pm_path (pr_manager p)) (pr_world p) -> wait_agrees (sc_wait x) (pr_child p) ->
    persistence_save background x (pr_files p) (pr_manager p) (w_service (pr_world p)) = Some (r, c, fs, m, s) ->
    process_step p (after_save c fs m s p)
| process_maintain wait reaped clock x ok c fs m s :
    save_possible x (pm_path (pr_manager p)) (pr_world p) -> wait_agrees wait (pr_child p) ->
    persistence_maintain wait reaped clock x (pr_files p) (pr_manager p) (w_service (pr_world p)) = Some (ok, c, fs, m, s) ->
    process_step p (after_save c fs m s p)
| process_child c env code fs :
    pr_child p = Some (inl c) -> save_sane (w_now (pr_world p)) (pm_path (pr_manager p)) env ->
    child_main env (pm_path (pr_manager p)) c (pr_files p) = (code, fs) ->
    process_step p (mk_process (pr_manager p) (pr_world p) fs (Some (inr (Some code))))
| process_killed c env r fs' st fs :
    pr_child p = Some (inl c) -> save_sane (w_now (pr_world p)) (pm_path (pr_manager p)) env ->
    rdb_save env (pr_files p) (pm_path (pr_manager p)) (ch_cache c) (Some (ch_checkpoint c)) = (r, fs', st) ->
    fs !! pm_path (pr_manager p) = pr_files p !! pm_path (pr_manager p) \/ fs !! pm_path (pr_manager p) = fs' !! pm_path (pr_manager p) ->
    process_step p (mk_process (pr_manager p) (pr_world p) fs (Some (inr None))).

Abbreviation life := (rtc process_step).

(** ** What a save does to the service *)

Lemma reap_service answers clock m s :
  let '(_, m', s') := persistence_reap answers clock m s in pm_path m' = pm_path m /\ exists y, s' = put_dirty y s.
Proof.
  assert (Hs : s = put_dirty (sv_dirty s) s) by (by destruct s). unfold persistence_reap. destruct (_ <=? 0); [split; [done|by eexists]|].
  destruct (wait_child answers); try (split; [done|by eexists]). destruct clock; [|split; [done|by eexists]].
  unfold persistence_finish_child. destruct (bool_decide _); (split; [done|by eexists]).
Qed.

(** The service after a save: the count of changes, and the log. *)
Definition saved_service (y : Z) (z : option shared_log) (s : service) : service := put_dirty y (put_aof z s).

(** After the checkpoint [cp] the log [a] became [b]: paused, resumed. *)
Definition log_after (a b : shared_log) : Prop :=
  forall n d, contents_holding n a None d -> contents_holding n b None d.

Lemma log_after_refl a : log_after a a.
Proof. by intros n d. Qed.

Lemma pause_after x s a r s' :
  sv_aof s = Some a -> pause_log x s = Some (r, s') ->
  exists b, s' = put_aof (Some b) s /\ log_after a b /\ log_after a (with_log (aof_resume_after_fork (sl_aof b)) b).
Proof.
  intros Ha E. unfold pause_log in E. rewrite Ha in E. destruct (aof_pause_for_fork (sc_pause x) a) as [[r' b]|] eqn:Ep; [|done]. cbn in E. injection E as <- <-.
  exists b. split; [done|]. assert (H1 : log_after a b) by (intros n d Hc; by eapply pause_contents). split; [done|].
  intros n d Hc. by apply resume_contents, H1.
Qed.

Lemma forked_effect x started covered cp m s a r c m' s' :
  sv_aof s = Some a -> save_forked x started covered cp m s = Some (r, c, m', s') ->
  pm_path m' = pm_path m /\ (exists b, s' = put_aof (Some b) s /\ log_after a b) /\ (c = None \/ c = Some (mk_child (sv_cache s) cp)).
Proof.
  intros Ha E. unfold save_forked in E. assert (Hs : s = put_aof (Some a) s) by (destruct s; cbn in *; by subst).
  destruct (sc_wall x) as [wall|]; [|injection E as <- <- <- <-; split_and!; [done|exists a; split; [done|apply log_after_refl]|by left]].
  destruct (pause_log x s) as [[r1 s1]|] eqn:Ep; [|done]. cbn in E. destruct (pause_after _ _ _ _ _ Ha Ep) as (b & -> & H1 & H2).
  destruct (negb _); [injection E as <- <- <- <-; split_and!; [done|by exists b|by left]|].
  destruct (_ <? 0); injection E as <- <- <- <-; (split_and!; [by destruct (sc_finished x)|eexists; split; [reflexivity|exact H2]|]); [by left|by right].
Qed.

(** A save is refused, or fails to make its checkpoint, or makes it and perhaps
    a snapshot or a child. *)
Definition save_effect (x : save_calls) (path : list Z) (a : shared_log) (fs fs' : files) (c : option child) (s s' : service) : Prop :=
  exists y z, s' = saved_service y z s /\
    (z = Some a /\ c = None /\ fs' = fs \/
     (exists a', checkpoint_of x a = Some (None, a') /\ z = Some a' /\ c = None /\ fs' = fs) \/
     exists cp a', checkpoint_of x a = Some (Some cp, a') /\ (exists b, z = Some b /\ log_after a' b) /\ (c = None \/ c = Some (mk_child (sv_cache s) cp)) /\
       (fs' = fs \/ exists r st, rdb_save (sc_save x) fs path (sv_cache s) (Some cp) = (r, fs', st))).

Lemma save_refused x path a fs s y : sv_aof s = Some a -> save_effect x path a fs fs None s (put_dirty y s).
Proof. intros Ha. exists y, (sv_aof s). split; [by destruct s|]. by left. Qed.

Lemma save_effect_spec background x fs m s a r c fs' m' s' :
  sv_aof s = Some a -> persistence_save background x fs m s = Some (r, c, fs', m', s') ->
  pm_path m' = pm_path m /\ save_effect x (pm_path m) a fs fs' c s s'.
Proof.
  intros Ha E. unfold persistence_save in E. assert (Hs : s = put_dirty (sv_dirty s) s) by (by destruct s).
  destruct (negb _); [injection E as <- <- <- <- <-; split; [done|rewrite Hs at 2; by apply save_refused]|].
  pose proof (reap_service (sc_wait x) (sc_reaped x) m s) as Hr. destruct (persistence_reap _ _ m s) as [[reaped m1] s1]. destruct Hr as (Hp & y & ->).
  destruct (negb _); [injection E as <- <- <- <- <-; split; [done|by apply save_refused]|].
  destruct (0 <? _); [injection E as <- <- <- <- <-; split; [done|by apply save_refused]|].
  destruct (sc_started x) as [started|]; [|injection E as <- <- <- <- <-; split; [done|by apply save_refused]].
  unfold persistence_checkpoint in E. cbn [sv_aof put_dirty] in E. rewrite Ha in E. cbn [mbind option_bind] in E.
  destruct (checkpoint_of x a) as [[[cp|] a']|] eqn:Hcp; [| |done]; cbn [mbind option_bind] in E.
  2:{ injection E as <- <- <- <- <-. split; [done|]. exists y, (Some a'). split; [done|]. right; left. by exists a'. }
  destruct background.
  - destruct (save_forked _ _ _ _ _ _) as [[[[r2 c2] m2] s2]|] eqn:Ef; [|done]. cbn in E. injection E as <- <- <- <- <-.
    destruct (forked_effect x started _ cp _ (put_aof (Some a') (put_dirty y s)) a' _ _ _ _ eq_refl Ef) as (Hp2 & (b & -> & Hb) & Hc). split; [by rewrite Hp2|].
    exists y, (Some b). split; [done|]. do 2 right. exists cp, a'. split; [done|]. split; [by exists b|]. split; [done|by left].
  - destruct (save_now _ _ _ _ _ _ _) as [[[r2 fs2] m2] s2] eqn:En. injection E as <- <- <- <- <-. unfold save_now in En.
    destruct (rdb_save _ _ _ _ _) as [[result fs3] st] eqn:Er. cbn [pm_path set_outcome sv_cache put_aof put_dirty] in Er. rewrite Hp in Er.
    assert (Hm : forall fin : option (Z * Z), pm_path (match fin with Some f => set_epoch f (set_duration (monotonic_elapsed_us started f)
       (set_outcome (if cp_valid cp then aof_offset cp else 0) (pm_last_save_status m1) m1)) | None => set_outcome (if cp_valid cp then aof_offset cp else 0) (pm_last_save_status m1) m1 end) = pm_path m)
      by (by intros []).
    assert (Heff : forall y2, save_effect x (pm_path m) a fs fs3 None s (saved_service y2 (Some a') s)).
    { intros y2. exists y2, (Some a'). split; [done|]. do 2 right. exists cp, a'. split; [done|]. split; [exists a'; split; [done|apply log_after_refl]|]. split; [by left|right; by eexists _, _]. }
    destruct (negb _); injection En as <- <- <- <-; (split; [apply (Hm (sc_finished x))|]); [exact (Heff y)|].
    exact (Heff _).
Qed.

Lemma maintain_effect_spec wait reaped clock x fs m s a ok c fs' m' s' :
  sv_aof s = Some a -> persistence_maintain wait reaped clock x fs m s = Some (ok, c, fs', m', s') ->
  pm_path m' = pm_path m /\ save_effect x (pm_path m) a fs fs' c s s'.
Proof.
  intros Ha E. unfold persistence_maintain in E.
  pose proof (reap_service wait reaped m s) as Hr. destruct (persistence_reap _ _ m s) as [[r1 m1] s1]. destruct Hr as (Hp & y & ->).
  destruct (negb r1); [injection E as <- <- <- <- <-; split; [done|by apply save_refused]|].
  destruct (_ || _); [injection E as <- <- <- <- <-; split; [done|by apply save_refused]|].
  destruct clock as [now|]; [|injection E as <- <- <- <- <-; split; [done|by apply save_refused]].
  destruct (_ <? _); [injection E as <- <- <- <- <-; split; [done|by apply save_refused]|].
  destruct (persistence_save _ _ _ _ _) as [[[[[r c2] fs2] m2] s2]|] eqn:Es; [|done]. cbn in E. injection E as <- <- <- <- <-.
  destruct (save_effect_spec true x fs m1 (put_dirty y s) a _ _ _ _ _ Ha Es) as (Hp2 & y2 & z & -> & Hz). rewrite Hp in *. split; [done|].
  exists y2, z. split; [done|]. exact Hz.
Qed.
(** ** The log grows with the process *)

Abbreviation serves n d w := (serving (H0 := holding_laws n) d w).

Lemma session_change (X Y : LogLaws shared_log) w0 w :
  @log_exhausted _ _ X = @log_exhausted _ _ Y -> session (H0 := X) admin T w0 w -> session (H0 := Y) admin T w0 w.
Proof.
  intros Hx Hs. induction Hs as [|w t _ IH Ht|w _ IH|w _ IH|w args r b w' _ IH [E1 E2 E3 E4 E5 E6]]; [constructor|by constructor|by constructor|by constructor|].
  eapply session_request; [exact IH|]. split; try done. unfold log_usable in *. by rewrite <- Hx.
Qed.

Lemma holding_le n n' s txn d : n <= n' -> contents_holding n' s txn d -> contents_holding n s txn d.
Proof. intros Hn [Hc [H1 H2]]. split; [done|]. split; lia. Qed.

Lemma holding_bound n s d : contents_holding n s None d -> n <= zlen (log_bytes (all_commands d)).
Proof.
  intros [(policy & cmds & h & Hs & _ & ->) [H1 H2]]. destruct (state_inv _ _ _ _ _ Hs) as [base Hinv]. pose proof (file_prefix _ _ Hinv) as [r Hr]. cbn in Hr.
  unfold stream in Hr. rewrite Hr, zlen_app. pose proof (zlen_nonneg r). lia.
Qed.

Lemma checkpoint_marker_good t : zlen t = 16 -> record_good (marker t) /\ forall S, replay_record T S (marker t) = S.
Proof.
  intros Ht. split; [|done]. pose proof (zlen_token_text t) as Hl. split; [by apply marker_ok|]. split; [|by eexists].
  split_and!; [done| |done]. unfold key_ok, marker, arg. cbn [nth]. rewrite Hl. unfold RESP_MAX_FRAME_SIZE. lia.
Qed.

(** From [p1] with the log [d1] to [p], through states that the prefixes of the
    new records stand for. *)
Definition grown (n : Z) (p1 : process) (d1 : transactions) (p : process) : Prop :=
  life p1 p /\ w_now (pr_world p1) <= w_now (pr_world p) <= T /\ exists d rs, serves n d (pr_world p) /\ log_grew d1 d rs /\ Forall record_good rs /\
    recovers T rs (alive T (visible (w_now (pr_world p1)) (cache_of (pr_world p1)))) (pr_world p) /\
    forall l, l `prefix_of` rs -> exists p2, life p1 p2 /\ life p2 p /\
      recovers T l (alive T (visible (w_now (pr_world p1)) (cache_of (pr_world p1)))) (pr_world p2).

Lemma grown_refl n p d : serves n d (pr_world p) -> w_now (pr_world p) <= T -> grown n p d p.
Proof.
  intros Hs Ht. split; [done|]. split; [lia|]. exists d, []. split_and!; [done|apply log_grew_refl|constructor|done|].
  intros l ->%prefix_nil_inv. by exists p.
Qed.

Lemma grown_trans n p1 d1 p p' :
  grown n p1 d1 p -> (forall d, serves n d (pr_world p) -> grown n p d p') -> grown n p1 d1 p'.
Proof.
  intros (G1 & G2 & d & rs & G3 & (x & -> & G4) & G5 & G6 & G7) H. destruct (H _ G3) as (K1 & K2 & d' & rs' & K3 & (x' & -> & K4) & K5 & K6 & K7).
  split; [by etrans|]. split; [lia|]. exists ((d1 ++ x) ++ x'), (rs ++ rs'). unfold recovers in *. split_and!; [done| |by apply Forall_app| |].
  - exists (x ++ x'). split; [by rewrite app_assoc|]. by rewrite all_commands_app, G4, K4.
  - by rewrite replay_records_app, G6.
  - intros l Hl. destruct (prefix_app_cases l rs rs' Hl) as [Hl'|(q & -> & Hq)].
    + destruct (G7 l Hl') as (p2 & A1 & A2 & A3). exists p2. split_and!; [done|by etrans|done].
    + destruct (K7 q Hq) as (p2 & A1 & A2 & A3). exists p2. split_and!; [by etrans|done|]. by rewrite replay_records_app, G6.
Qed.

(** A step that shows the same store. *)
Lemma grown_same n p d p' d' rs :
  process_step p p' -> w_now (pr_world p') = w_now (pr_world p) -> w_now (pr_world p) <= T -> cache_of (pr_world p') = cache_of (pr_world p) ->
  serves n d' (pr_world p') -> log_grew d d' rs -> Forall record_good rs -> (forall S, Forall (fun r => replay_record T S r = S) rs) -> grown n p d p'.
Proof.
  intros Hstep Hn Ht Hc Hs Hg Hgood Hsame.
  assert (Hrep : forall l, l `prefix_of` rs -> forall S, replay_records T l S = S).
  { intros l [k Hk] S. specialize (Hsame S). rewrite Hk in Hsame. apply Forall_app in Hsame as [Hsame _]. clear -Hsame. unfold replay_records.
    induction l as [|r l IH]; [done|]. apply Forall_cons in Hsame as [Hr Hl]. cbn. rewrite Hr. by apply IH. }
  split; [by apply rtc_once|]. split; [lia|]. exists d', rs. unfold recovers. rewrite Hn, Hc. split_and!; [done|done|done|by apply Hrep|].
  intros l Hl. exists p. split_and!; [done|by apply rtc_once|]. by apply Hrep.
Qed.
Lemma serves_saved n d d' y z w :
  serves n d w -> (forall b, z = Some b -> contents_holding n b None d') -> serves n d' (put_service (saved_service y z (w_service w)) w).
Proof.
  intros [[G1 G2 G3] S2 S3 S4] Hz. split; [by split|done|done|]. unfold log_idle. cbn. destruct z as [b|]; [by apply Hz|done].
Qed.

(** What a checkpoint means for the log that goes on. *)
Lemma checkpoint_after n d a a' b cp m io evs :
  contents_holding n a None d -> log_room a -> aof_create_checkpoint m io evs a = Some (Some cp, a') -> log_after a' b ->
  cp_valid cp = true /\ zlen (token cp) = 16 /\ exists q, let d' := marked_log d q (token cp) in
    aof_offset cp = zlen (log_bytes (all_commands d')) /\ contents_holding (aof_offset cp) b None d' /\ contents_holding n b None d'.
Proof.
  intros Ha Hroom Hcp Hb. destruct (create_checkpoint_spec _ _ _ _ _ _ _ (proj1 Ha) Hroom Hcp) as [C1 C2 (q & C3 & C4) C5].
  split; [done|]. split; [done|]. exists q. cbn zeta. split; [done|]. assert (Hoff : contents_holding (aof_offset cp) b None (marked_log d q (token cp))) by (by apply Hb).
  split; [done|]. eapply holding_le; [|exact Hoff]. apply holding_bound in Ha. rewrite C4. unfold marked_log. rewrite all_commands_app, log_bytes_app, zlen_app.
  pose proof (zlen_nonneg (log_bytes (all_commands [(q, [marker (token cp)])]))). lia.
Qed.

(** A cache and a checkpoint from which the process went on to [p]. *)
Definition taken (p0 p1 p : process) (cp : rdb_checkpoint) : Prop :=
  life p0 p1 /\ cp_valid cp = true /\ zlen (token cp) = 16 /\ snapshot_fits cp (cache_of (pr_world p1)) /\ good (pr_world p1) /\
  exists d q, let d1 := marked_log d q (token cp) in aof_offset cp = zlen (log_bytes (all_commands d1)) /\ grown (aof_offset cp) p1 d1 p.

(** A save goes on with the same store; where it was not refused, its cache and
    its checkpoint are taken. *)
Lemma save_step n d p p' x path fs' c s' :
  serves n d (pr_world p) -> w_now (pr_world p) <= T -> process_step p p' -> pr_world p' = put_service s' (pr_world p) ->
  save_possible x path (pr_world p) ->
  (forall a, sv_aof (w_service (pr_world p)) = Some a -> save_effect x path a (pr_files p) fs' c (w_service (pr_world p)) s') ->
  grown n p d p' /\
  (fs' = pr_files p /\ c = None \/ exists cp, taken p p' p' cp /\ cache_of (pr_world p') = cache_of (pr_world p) /\ (c = None \/ c = Some (mk_child (cache_of (pr_world p')) cp)) /\
     (fs' = pr_files p \/ exists r st, rdb_save (sc_save x) (pr_files p) path (cache_of (pr_world p)) (Some cp) = (r, fs', st))).
Proof.
  intros Hs Ht Hstep Hw (_ & a & Ha & Hroom & Hwhole & Hfit) Heff. destruct (Heff a Ha) as (y & z & -> & Hz). clear Heff.
  assert (Hlog : contents_holding n a None d). { pose proof (se_log _ _ Hs) as Hl. unfold log_idle in Hl. by rewrite Ha in Hl. }
  destruct Hz as [(-> & -> & ->)|[(a' & Hcp & -> & -> & ->)|(cp & a' & Hcp & (b & -> & Hb) & Hc & Hfs)]].
  - split; [|by left]. apply (grown_same n p d p' d []); try done; try (by rewrite Hw); [|apply log_grew_refl].
    rewrite Hw. apply (serves_saved n d); [done|]. by intros b [= <-].
  - split; [|by left]. destruct (failed_checkpoint_spec _ _ _ _ _ _ _ Hlog Hroom Hcp Hwhole) as (d' & Hd & Hl).
    assert (Hs' : serves n d' (pr_world p')) by (rewrite Hw; apply (serves_saved n d); [done|]; by intros b [= <-]).
    destruct Hd as [->|(q & t & Hlen & ->)]; [apply (grown_same n p d p' d []); try done; try (by rewrite Hw); apply log_grew_refl|].
    destruct (checkpoint_marker_good _ Hlen) as [M1 M2]. apply (grown_same n p d p' (marked_log d q t) [marker t]); try done; try (by rewrite Hw).
    + exists [(q, [marker t])]. by split.
    + by constructor; [|constructor].
    + intros S. constructor; [apply M2|constructor].
  - specialize (Hfit cp a' Hcp). destruct (checkpoint_after n d a a' b cp _ _ _ Hlog Hroom Hcp Hb) as (V1 & V2 & q & V3 & V4 & V5). destruct (checkpoint_marker_good _ V2) as [M1 M2].
    assert (Hserve : forall k, contents_holding k b None (marked_log d q (token cp)) -> serving (H0 := holding_laws k) (marked_log d q (token cp)) (pr_world p')).
    { intros k Hk. rewrite Hw. destruct Hs as [[G1 G2 G3] S2 S3 _]. split; [by split|done|done|exact Hk]. }
    split.
    + apply (grown_same n p d p' (marked_log d q (token cp)) [marker (token cp)]); try done; try (by rewrite Hw); [by apply Hserve| |by constructor; [|constructor]|].
      * exists [(q, [marker (token cp)])]. by split.
      * intros S. constructor; [apply M2|constructor].
    + right. exists cp. assert (Hcache : cache_of (pr_world p') = cache_of (pr_world p)) by (by rewrite Hw). split; [|split; [done|]; by rewrite Hcache].
      split; [by apply rtc_once|]. split; [done|]. split; [done|]. rewrite Hcache. split; [done|]. pose proof (Hserve _ V4) as Hs'. split; [apply Hs'|]. exists d, q. split; [done|].
      apply grown_refl; [by apply Hserve|by rewrite Hw].
Qed.
Context (HT : u64_ok T).

Lemma step_grown n d p p' : serves n d (pr_world p) -> w_now (pr_world p) <= T -> process_step p p' -> grown n p d p'.
Proof.
  intros Hs Ht Hstep. pose proof Hstep as Hstep0. destruct Hstep as [w Hw|b x r c fs m s Hp Ha E|wt re cl x ok c fs m s Hp Ha E|c env code fs Hc Hsane E|c env r fs1 st fs Hc Hsane E Hfs].
  - pose proof (session_change shared_log_laws (holding_laws n) (pr_world p) w eq_refl Hw) as Hw'.
    destruct (session_serving admin T d (pr_world p) w Hs Ht HT Hw') as (Hn & d' & rs & J1 & J2 & J3 & J4 & J5).
    split; [by apply rtc_once|]. split; [done|]. exists d', rs. split_and!; try done. intros l Hl. destruct (J5 l Hl) as (w1 & K1 & K2 & K3).
    apply (session_change (holding_laws n) shared_log_laws) in K1, K2; [|done..]. exists (with_world w1 p). split_and!; [|apply rtc_once|done].
    + by apply rtc_once, process_work.
    + exact (process_work (with_world w1 p) w K2).
  - eapply save_step; [done|done|exact Hstep0|done|done|]. intros a Ha'. by apply (save_effect_spec b x (pr_files p) (pr_manager p) (w_service (pr_world p)) a r c fs m s).
  - eapply save_step; [done|done|exact Hstep0|done|done|]. intros a Ha'. by apply (maintain_effect_spec wt re cl x (pr_files p) (pr_manager p) (w_service (pr_world p)) a ok c fs m s).
  - apply (grown_same n p d _ d []); try done. apply log_grew_refl.
  - apply (grown_same n p d _ d []); try done. apply log_grew_refl.
Qed.

Lemma taken_step p0 p1 p p' cp : taken p0 p1 p cp -> process_step p p' -> taken p0 p1 p' cp.
Proof.
  intros (H1 & H2 & H3 & H4 & H5 & d & q & H6 & H7) Hstep. split_and!; try done. exists d, q. split; [done|]. eapply grown_trans; [exact H7|].
  intros d' Hd'. apply step_grown; [done|apply H7|done].
Qed.

Lemma taken_from p0 p p' cp : life p0 p -> taken p p' p' cp -> taken p0 p' p' cp.
Proof. intros Hl (H1 & H2). split; [by etrans|done]. Qed.

(** A save leaves the old file or the complete image of its cache. *)
Lemma saved_file env fs path c cp r fs' st :
  cache_good c -> path <> se_temporary env -> rdb_save env fs path c cp = (r, fs', st) ->
  fs' !! path = fs !! path \/ exists t, se_clock env = Some t /\ fs' !! path = Some (snapshot_image t c cp).
Proof.
  intros Hc Hne E. pose proof (save_spec env fs path c cp (cg_objects _ Hc) Hne) as Hs. rewrite E in Hs. destruct Hs as [[_ Hs] _].
  destruct Hs as [(_ & (t & H1 & H2) & _)|(_ & _ & [H1|(t & H1 & H2)])]; [right; by exists t|by left|right; by exists t].
Qed.

(** What the process keeps: its snapshot, complete and with its place in the
    log, and what its child is saving. *)
Record snapshots (p0 : process) (recs : list command) (path : list Z) (p : process) : Prop := {
  sn_path : pm_path (pr_manager p) = path;
  sn_grown : grown (zlen (log_bytes recs)) p0 [(0, recs)] p;
  sn_file : forall image, pr_files p !! path = Some image -> exists p1 cp t,
    taken p0 p1 p cp /\ w_now (pr_world p1) <= t <= T /\ image = snapshot_image t (cache_of (pr_world p1)) (Some cp);
  sn_child : forall c, pr_child p = Some (inl c) -> exists p1, taken p0 p1 p (ch_checkpoint c) /\ ch_cache c = cache_of (pr_world p1)
}.

(** The invariant after a save. *)
Lemma save_snapshots p0 recs path p x c fs m s :
  snapshots p0 recs path p -> process_step p (after_save c fs m s p) -> save_possible x path (pr_world p) ->
  (forall a, sv_aof (w_service (pr_world p)) = Some a -> pm_path m = path /\ save_effect x path a (pr_files p) fs c (w_service (pr_world p)) s) ->
  snapshots p0 recs path (after_save c fs m s p).
Proof.
  intros [I1 I2 I3 I4] Hstep Hpos Heff. pose proof I2 as (Hlife & Hnow & d & rs & Hs & _). set (p' := after_save c fs m s p) in *.
  destruct (save_step (zlen (log_bytes recs)) d p p' x path fs c s Hs ltac:(lia) Hstep eq_refl Hpos) as [Hg Hcase]; [intros; by eapply Heff|].
  pose proof Hpos as ((Hne & Hclk) & a & Ha & _).
  assert (Hg' : grown (zlen (log_bytes recs)) p0 [(0, recs)] p') by (eapply grown_trans; [exact I2|]; intros d' Hd'; apply step_grown; [done|lia|done]).
  assert (Hold : forall image, pr_files p !! path = Some image -> exists p1 cp t,
    taken p0 p1 p' cp /\ w_now (pr_world p1) <= t <= T /\ image = snapshot_image t (cache_of (pr_world p1)) (Some cp)).
  { intros image Hi. destruct (I3 image Hi) as (p1 & cp & t & K1 & K2). exists p1, cp, t. split; [by eapply taken_step|done]. }
  assert (Hch : forall ch, pr_child p = Some (inl ch) -> exists p1, taken p0 p1 p' (ch_checkpoint ch) /\ ch_cache ch = cache_of (pr_world p1)).
  { intros ch Hi. destruct (I4 ch Hi) as (p1 & K1 & K2). exists p1. split; [by eapply taken_step|done]. }
  split; [by destruct (Heff a Ha)|done| |].
  - cbn [pr_files p' after_save]. intros image Hi. destruct Hcase as [[-> _]|(cp & Htk & Hcache & _ & [->|(r & st & Er)])]; [by apply Hold|by apply Hold|].
    pose proof Htk as (_ & _ & _ & _ & [Hgood _ _] & _). rewrite Hcache in Hgood.
    destruct (saved_file _ _ _ _ _ _ _ _ Hgood Hne Er) as [E|(t & Et & E)]; [by apply Hold; rewrite <- E|]. rewrite E in Hi. injection Hi as <-.
    exists p', cp, t. split; [by eapply taken_from|]. rewrite Hcache. split; [by apply Hclk|done].
  - cbn [pr_child p' after_save]. intros ch Hc. destruct c as [c0|].
    + injection Hc as ->. destruct Hcase as [[_ ?]|(cp & Htk & Hcache & [?|[= Hch2]] & _)]; [done|done|]. exists p'. rewrite Hch2. cbn. split; [by eapply taken_from|done].
    + destruct (0 <? _); [by apply Hch|done].
Qed.

Lemma step_snapshots p0 recs path p p' : snapshots p0 recs path p -> process_step p p' -> snapshots p0 recs path p'.
Proof.
  intros I Hstep. pose proof Hstep as Hstep0. pose proof I as [I1 I2 I3 I4].
  assert (Hg' : grown (zlen (log_bytes recs)) p0 [(0, recs)] p') by (eapply grown_trans; [exact I2|]; intros d' Hd'; apply step_grown; [done|apply I2|done]).
  assert (Hold : forall image, pr_files p !! path = Some image -> exists p1 cp t,
    taken p0 p1 p' cp /\ w_now (pr_world p1) <= t <= T /\ image = snapshot_image t (cache_of (pr_world p1)) (Some cp)).
  { intros image Hi. destruct (I3 image Hi) as (p1 & cp & t & K1 & K2). exists p1, cp, t. split; [by eapply taken_step|done]. }
  assert (Hchild : forall c env r (fs1 : files) st (fs : files), pr_child p = Some (inl c) -> save_sane (w_now (pr_world p)) (pm_path (pr_manager p)) env ->
    rdb_save env (pr_files p) (pm_path (pr_manager p)) (ch_cache c) (Some (ch_checkpoint c)) = (r, fs1, st) ->
    fs !! pm_path (pr_manager p) = pr_files p !! pm_path (pr_manager p) \/ fs !! pm_path (pr_manager p) = fs1 !! pm_path (pr_manager p) ->
    forall image, fs !! path = Some image -> exists p1 cp t,
      taken p0 p1 p' cp /\ w_now (pr_world p1) <= t <= T /\ image = snapshot_image t (cache_of (pr_world p1)) (Some cp)).
  { rewrite I1. intros c env r fs1 st fs Hc [Hne Hclk] Er Hfs image Hi. destruct (I4 c Hc) as (p1 & K1 & K2).
    pose proof (taken_step _ _ _ _ _ K1 Hstep0) as K1'. pose proof K1 as (_ & _ & _ & _ & [Hgood _ _] & d1 & q & _ & Hgr). pose proof Hgr as (_ & Hle & _). rewrite K2 in Er.
    destruct Hfs as [Hfs|Hfs]; rewrite Hfs in Hi; [by apply Hold|].
    destruct (saved_file _ _ _ _ _ _ _ _ Hgood Hne Er) as [E|(t & Et & E)]; [by apply Hold; rewrite <- E|]. rewrite E in Hi. injection Hi as <-.
    exists p1, (ch_checkpoint c), t. split; [done|]. split; [|done]. specialize (Hclk t Et). lia. }
  destruct Hstep as [w Hw|b x r c fs m s Hp Ha E|wt re cl x ok c fs m s Hp Ha E|c env code fs Hc Hsane E|c env r fs1 st fs Hc Hsane E Hfs].
  - split; [done|done|done|]. intros ch Hi. destruct (I4 ch Hi) as (p1 & K1 & K2). exists p1. split; [by eapply taken_step|done].
  - rewrite I1 in Hp. eapply save_snapshots; [done|done|exact Hp|]. intros a Ha'. rewrite <- I1. by apply (save_effect_spec b x (pr_files p) (pr_manager p) (w_service (pr_world p)) a r c fs m s).
  - rewrite I1 in Hp. eapply save_snapshots; [done|done|exact Hp|]. intros a Ha'. rewrite <- I1. by apply (maintain_effect_spec wt re cl x (pr_files p) (pr_manager p) (w_service (pr_world p)) a ok c fs m s).
  - split; [done|done| |done]. cbn [pr_files]. unfold child_main in E. destruct (rdb_save _ _ _ _ _) as [[r fs2] st] eqn:Er. injection E as _ <-. eapply (Hchild c env); [done|done|exact Er|by right].
  - split; [done|done| |done]. eapply (Hchild c env); [done|done|exact E|exact Hfs].
Qed.

(** ** Loading *)

Lemma rebuilt_view o ct : holds o ct -> portable ct -> view_object (rebuilt engine o) = view_object o.
Proof.
  intros Ho Hp. pose proof (rebuilt_holds o ct engine Ho Hp) as Hr. destruct ct as [l|M|e l]; cbn [with_engine holds] in *.
  - by rewrite (shows_view o (AString l)), (shows_view _ (AString l)).
  - by rewrite (shows_view o (AHash M)), (shows_view _ (AHash M)).
  - destruct Ho as [Ho _], Hr as [Hr _]. by rewrite (shows_view o (AZset l)), (shows_view _ (AZset l)).
Qed.

(** The snapshot that was taken at [t] shows the same keys when it is loaded. *)
Lemma loaded_visible L c c' t :
  cache_core L c -> map_Forall (fun k e => loadable engine (k, e)) (c_entries c) -> t <= T ->
  c_entries c' = load_all engine T (saved_list t c) ∅ -> visible T c' = visible T c.
Proof.
  intros Hc Hld Ht E. apply map_eq. intros k. rewrite !visible_lookup. unfold live_entry. rewrite E, (load_all_restored L) by done. unfold restored_lookup.
  destruct (c_entries c !! k) as [e|] eqn:Ek; [|done]. destruct (Hld k e Ek) as ((ct & Ho & Hp) & _). cbn [snd] in Ho.
  destruct (expired T e) eqn:Ex; [by rewrite andb_false_r|]. assert (saved t e = true) as ->.
  { unfold saved, expired in *. destruct (Z.eqb_spec (e_expire e) 0); [done|]. cbn in *. destruct (Z.geb_spec T (e_expire e)); [done|]. apply Z.gtb_lt. lia. }
  cbn [andb negb]. replace (expired T (restored_entry engine (k, e))) with (expired T e) by done. rewrite Ex. cbn. unfold view_entry, restored_entry. cbn.
  by rewrite (rebuilt_view _ ct).
Qed.

Lemma loaded_good L L' c c0 c' t :
  cache_core L c -> cache_good c -> cache_good c0 -> map_Forall (fun k e => loadable engine (k, e)) (c_entries c) ->
  c_entries c' = load_all engine T (saved_list t c) ∅ -> cache_ok L' c' -> calm c0 c' -> cache_good c'.
Proof.
  intros Hc [_ _ _ _ G5] [_ _ E4 E5 _] Hld E Hok (_ & K1 & K2).
  assert (Hfind : forall k e', c_entries c' !! k = Some e' -> exists e, c_entries c !! k = Some e /\ e' = restored_entry engine (k, e)).
  { intros k e'. rewrite E, (load_all_restored L) by done. unfold restored_lookup. destruct (c_entries c !! k) as [e|]; [|done].
    destruct (_ && _); [|done]. intros [= <-]. by exists e. }
  split; [by exists L'| |congruence|by rewrite K2|].
  - intros k e' Hk. destruct (Hfind k e' Hk) as (e & He & ->). destruct (Hld k e He) as ((ct & Ho & Hp) & _). eexists. by apply (rebuilt_holds _ ct).
  - intros k [e' Hk]. destruct (Hfind k e' Hk) as (e & He & _). apply G5. by eexists.
Qed.
Lemma load_run env fs path (v : world shared_log) c' x :
  replaying v -> (rdb_load (st_mem env) (st_opened env) (st_stated env) (st_mapped env) (st_clock env) (w_now v) fs path (cache_of v) (sv_engine (w_service v))).1.2 = c' ->
  (rdb_load (st_mem env) (st_opened env) (st_stated env) (st_mapped env) (st_clock env) (w_now v) fs path (cache_of v) (sv_engine (w_service v))).2 = x -> c_calls c' = [] ->
  load_into_service env fs path v = (x, mk_world (w_mem v) (w_now v) [] (put_cache c' (w_service v))).
Proof.
  intros R E1 E2 Hc. pose proof (g_ticks _ (rp_good _ R)) as Ht. destruct v as [m t ticks s]. cbn [w_mem w_now w_ticks w_service] in *. subst ticks.
  assert (Hw : with_calls [] c' = c') by (destruct c'; cbn in *; by subst).
  unfold load_into_service, on_cache, mbind, cmd_bind, ask, current_time, cache_run. cbn [w_mem w_now w_ticks w_service head tail default].
  destruct (rdb_load _ _ _ _ _ _ _ _ _ _) as [[r c1] x1]. cbn [fst snd] in E1, E2. subst. cbn. rewrite Hc. cbn. by rewrite Hw, Z.add_0_r.
Qed.

(** The answers of the system at a start without trouble. *)
Definition start_fine (env : start_env) : Prop :=
  st_access env = true /\ st_opened env = true /\ st_stated env = true /\ st_mapped env = true /\ st_mem env = [] /\
  Forall progress (st_reads env) /\ st_replay env = replay_ok.

(** A service that starts with an empty store at the time [T]. *)
Definition fresh (v : world shared_log) : Prop :=
  replaying v /\ c_entries (cache_of v) = ∅ /\ w_now v = T /\ sv_engine (w_service v) = engine.

(** A marker validates the checkpoint at its end. *)
Lemma marker_validates io pre rest cp :
  Forall progress io -> zlen (token cp) = 16 -> cp_valid cp = true -> aof_offset cp = zlen (log_bytes (pre ++ [marker (token cp)])) ->
  aof_validate_checkpoint io (log_bytes (pre ++ [marker (token cp)]) ++ rest) cp = 0.
Proof.
  intros Hio Ht Hv Ho. pose proof (zlen_marker _ Ht) as Hm. pose proof (zlen_nonneg (log_bytes pre)). pose proof (zlen_nonneg rest).
  assert (Hsplit : log_bytes (pre ++ [marker (token cp)]) = log_bytes pre ++ request_frame (marker (token cp))).
  { rewrite log_bytes_app, log_bytes_cons. change (log_bytes []) with (@nil Z). by rewrite app_nil_r. }
  rewrite Hsplit in *. rewrite zlen_app in Ho. apply checkpoint_valid_spec; try done; [rewrite !zlen_app; lia|]. split; [lia|].
  rewrite Ho, Hm. replace (zlen (log_bytes pre) + 53 - 53) with (zlen (log_bytes pre)) by lia.
  rewrite <- app_assoc, sub_bytes_app_r, take_app_le by (unfold zlen in *; lia). apply take_ge. unfold zlen in *. lia.
Qed.

Lemma snapshot_loads p0 p1 p cp t fs rest d q v m env :
  start_fine env -> fresh v -> taken p0 p1 p cp -> w_now (pr_world p1) <= t <= T -> pm_enabled m = true -> zlen (pm_path m) <> 0 ->
  fs !! pm_path m = Some (snapshot_image t (cache_of (pr_world p1)) (Some cp)) ->
  aof_offset cp = zlen (log_bytes (all_commands (marked_log d q (token cp)))) ->
  exists m' v', load_snapshot env fs (Some (log_bytes (all_commands (marked_log d q (token cp))) ++ rest)) m v = Some (aof_offset cp, m', v') /\
    replaying v' /\ w_now v' = T /\ visible T (cache_of v') = alive T (visible (w_now (pr_world p1)) (cache_of (pr_world p1))).
Proof.
  intros (E1 & E2 & E3 & E4 & E5 & E6 & _) (R & Hempty & Hnow & Heng) (_ & T1 & T2 & (T3 & T4 & T5 & T6) & [Tg _ Hu] & _) Ht Hen Hpath Hfs Hoff.
  set (c1 := cache_of (pr_world p1)) in *. destruct (cg_ok _ Tg) as [L HL]. destruct (cg_ok _ (g_cache _ (rp_good _ R))) as [L0 HL0]. pose proof (rp_free _ R) as [= F1 F2].
  pose proof (g_now _ (rp_good _ R)) as Huv. rewrite Hnow in Huv. assert (Hut : u64_ok t) by (unfold u64_ok in *; lia).
  destruct (load_image_spec L L0 c1 (cache_of v) engine t (Some cp) (st_clock env) T) as (st & c' & L' & Eload & Hok & Hcalm & Hent); try done.
  { by apply T6. }
  assert (Heff : effective_checkpoint (Some cp) = cp) by (unfold effective_checkpoint; by rewrite T1). rewrite Heff in Eload.
  pose proof (loaded_good L L' c1 (cache_of v) c' t (proj1 HL) Tg (g_cache _ (rp_good _ R)) T3 Hent Hok Hcalm) as Hgood.
  assert (Hl : rdb_load (st_mem env) (st_opened env) (st_stated env) (st_mapped env) (st_clock env) (w_now v) fs (pm_path m) (cache_of v) (sv_engine (w_service v)) = (0, c', Some (cp, st))).
  { unfold rdb_load. destruct (Z.eqb_spec (zlen (pm_path m)) 0); [done|]. rewrite Hfs, E2, E3, E4, E5, Hnow, Heng. cbn [negb orb]. by rewrite Eload. }
  eexists _, (mk_world (w_mem v) (w_now v) [] (put_cache c' (w_service v))). split.
  - unfold load_snapshot. rewrite Hen, E1. cbn [negb]. rewrite bool_decide_false by (by rewrite Hfs).
    rewrite (load_run env fs (pm_path m) v c' (Some (cp, st)) R); [|by rewrite Hl..|apply Hgood]. rewrite T1. cbn [negb orb].
    unfold marked_log in *. rewrite all_commands_app in *. cbn [all_commands fmap list_fmap snd concat app] in *.
    rewrite (marker_validates (st_reads env) (all_commands d) rest cp E6 T2 T1 Hoff). reflexivity.
  - rewrite <- Hnow. destruct R as [[R1 R2 R3] R4 R5 R6]. destruct Hcalm as ([U1 U2] & _). split; [split; [by split|done|done|unfold limits; cbn; by rewrite U1, U2]|]. split; [done|]. cbn.
    rewrite Hnow, (loaded_visible L c1 c' t (proj1 HL) T3 ltac:(lia) Hent). apply visible_later. lia.
Qed.
(** ** Restarts *)

(** The file keeps the transactions that the device holds. *)
Lemma crash_reaches n d q txn x w file :
  log_idle (H0 := holding_laws n) w (d ++ (q, txn) :: x) -> crash_file w file -> zlen (log_bytes (all_commands (d ++ [(q, txn)]))) <= n ->
  exists l tail, file = log_bytes (all_commands (d ++ [(q, txn)])) ++ log_bytes l ++ tail /\ torn tail /\ l `prefix_of` all_commands x.
Proof.
  unfold log_idle. intros Hd (s & k & Hs & -> & Hk) Hn. rewrite Hs in Hd. destruct Hd as [(policy & cmds & h & Hst & _ & Heq) [H1 H2]].
  destruct (state_inv _ _ _ _ _ Hst) as [base Hinv]. pose proof (li_numbers _ _ Hinv) as Hnum. pose proof (ni_log _ _ _ _ Hnum) as Hsort. cbn [s_history s_aof] in *. rewrite <- Heq in *.
  destruct (crash_cut base _ k Hinv) as (rec & tail & E & Htorn & _ & Hp & Hq); [cbn; destruct (ni_durable _ _ _ _ Hnum); cbn in *; lia|]. cbn [s_history s_aof] in *.
  rewrite <- Heq in *. specialize (Hq q). unfold log_end in Hq. rewrite upto_at in Hq by done. destruct Hq as [l ->]; [lia|].
  exists l, tail. rewrite log_bytes_app, <- app_assoc in E. split; [done|]. split; [done|]. change (d ++ (q, txn) :: x) with (d ++ [(q, txn)] ++ x) in Hp.
  rewrite app_assoc, (all_commands_app (d ++ [(q, txn)]) x) in Hp. by apply prefix_app_inv in Hp.
Qed.

(** The rest of the log stands for a state on the way. *)
Lemma crash_rest n p1 d q txn p file :
  grown n p1 (d ++ [(q, txn)]) p -> crash_file (pr_world p) file -> zlen (log_bytes (all_commands (d ++ [(q, txn)]))) <= n ->
  exists l tail p2, file = log_bytes (all_commands (d ++ [(q, txn)])) ++ log_bytes l ++ tail /\ torn tail /\ Forall record_good l /\
    life p1 p2 /\ life p2 p /\ recovers T l (alive T (visible (w_now (pr_world p1)) (cache_of (pr_world p1)))) (pr_world p2).
Proof.
  intros (_ & _ & d' & rs & J1 & (x & -> & J2) & J3 & _ & J5) Hcrash Hn. pose proof (se_log _ _ J1) as Hl. rewrite <- app_assoc in Hl.
  destruct (crash_reaches n d q txn x _ file Hl Hcrash Hn) as (l & tail & -> & Htorn & Hp). rewrite J2 in Hp. destruct (J5 l Hp) as (p2 & K1 & K2 & K3).
  exists l, tail, p2. split_and!; try done. destruct Hp as [k ->]. by apply Forall_app in J3 as [? _].
Qed.

(** The invariant holds from a start without a snapshot on. *)
Lemma snapshots_start p0 recs :
  started T recs (pr_world p0) -> w_now (pr_world p0) <= T -> pr_child p0 = None -> pr_files p0 !! pm_path (pr_manager p0) = None ->
  snapshots p0 recs (pm_path (pr_manager p0)) p0.
Proof.
  intros [[S1 S2 S3 S4] _] Ht Hc Hf. split; [done| |by rewrite Hf|by rewrite Hc]. apply grown_refl; [|done]. split; [done|done|done|]. unfold log_idle in *.
  destruct (sv_aof _) as [a|]; [|done]. pose proof S4 as (policy & cmds & h & Hs & _ & Hh). split; [done|]. destruct (state_inv _ _ _ _ _ Hs) as [base Hinv].
  destruct (li_numbers _ _ Hinv) as [_ N2 _ _ _ [N6 N6'] N7 _]. cbn [s_aof s_history] in *. rewrite <- Hh in *. split; [|lia].
  etrans; [|exact N6']. unfold log_end. pose proof (upto_mono [(0, recs)] 0 (sq_synced (a_seqs (sl_aof a))) N2 ltac:(lia)) as [k ->].
  replace (upto 0 [(0, recs)]) with recs by (symmetry; apply app_nil_r). rewrite log_bytes_app, zlen_app. pose proof (zlen_nonneg (log_bytes k)). lia.
Qed.

Lemma life_snapshots p0 recs path p : snapshots p0 recs path p0 -> life p0 p -> snapshots p0 recs path p.
Proof.
  intros H0 Hl. revert Hl. apply (rtc_ind_r (fun q => snapshots p0 recs path q) p0); [done|]. intros q q' _ Hs IH. by eapply step_snapshots.
Qed.
End Process.


(** *** A sample: SET, a save, HSET, a crash *)

Definition snap_log : shared_log :=
  mk_shared_log (aof_open [] AOF_FSYNC_ALWAYS) WTop
    [[]; []; []; []; []; []; []; [WRun; WRun; WWritten 35; WRun; WRun; WSynced (1, 0) (Some (1, 2000)); WRun; WRun]].

Definition snap_start : world shared_log := mk_world [] 1000 [] (kvstore_service_attach_aof (Some snap_log) new_service).

Definition snap_set : world shared_log := (kvstore_service_execute_with_barrier no_admin sample_set snap_start).2.

Definition snap_manager : persistence_manager := mk_manager sample_path true 60 1 0 0 0 (0, 0) (0, 0) 0 0 0 0 0 0 0 1.

Definition snap_calls : save_calls :=
  mk_save_calls [] None (Some (10, 0)) [] [RandomBytes (replicate 16 171)]
    [inl (PRun []); inl (PRun []); inl (PRun []); inr WRun; inr (WWritten 80); inr WRun; inr WRun; inr (WSynced (1, 0) (Some (1, 2000)));
     inr WRun; inr WRun; inl (PRun []); inl (PRun []); inl (PRun [])]
    sample_env (Some (11, 500)) (Some 3) [] 0.

Definition snap_result : save_status * option child * files * persistence_manager * service :=
  default (SaveError, None, ∅, snap_manager, w_service snap_set) (persistence_save false snap_calls ∅ snap_manager (w_service snap_set)).

Definition snap_saved : world shared_log := put_service snap_result.2 snap_set.

Definition snap_hset : world shared_log := (kvstore_service_execute_with_barrier no_admin sample_hset snap_saved).2.

Definition snap_end : world shared_log := (kvstore_service_flush (kvstore_service_flush snap_hset).2).2.

Definition snap_begin : process := mk_process snap_manager snap_start ∅ None.

Definition snap_process (w : world shared_log) : process := mk_process snap_result.1.2 w snap_result.1.1.2 None.

Definition snap_file : list Z := match sv_aof (w_service snap_end) with Some s => d_file (a_disk (sl_aof s)) | None => [] end.

Definition snap_env : start_env := mk_start_env true true true true [] (fun _ => 5000) [ReadUpTo 7; ReadInterrupted] replay_ok.

Lemma snap_started : started 5000 [] snap_start.
Proof.
  apply (init_started [] KV_ZSET_SKIPLIST new_service []); [reflexivity|split; vm_compute; discriminate|].
  apply (opened_contents AOF_FSYNC_ALWAYS []). constructor.
Qed.

Lemma snap_session : session no_admin 5000 snap_start snap_set.
Proof.
  apply (session_request no_admin 5000 snap_start snap_start sample_set REPLY_OK 1 snap_set (session_start _ _ _)).
  split; [split; [split|]; vm_compute; discriminate|reflexivity|discriminate| |not_trouble|vm_compute; discriminate].
  unfold snap_set. rewrite (surjective_pairing (kvstore_service_execute_with_barrier no_admin sample_set snap_start)) at 1. f_equal.
Qed.

Lemma snap_rest : session no_admin 5000 snap_saved snap_end.
Proof.
  apply session_flush, session_flush. apply (session_request no_admin 5000 snap_saved snap_saved sample_hset (REPLY_INTEGER 1) 3 snap_hset (session_start _ _ _)).
  split; [split; [split|]; vm_compute; discriminate|reflexivity| | |not_trouble|vm_compute; discriminate].
  - intros _ x Hx. vm_compute in Hx. discriminate.
  - unfold snap_hset. rewrite (surjective_pairing (kvstore_service_execute_with_barrier no_admin sample_hset snap_saved)) at 1. f_equal.
Qed.

Lemma snap_list : map_to_list (c_entries (cache_of snap_set)) = [([97], mk_entry (mk_object 42 (VString [49] 1)) 140 0 0)].
Proof. vm_compute. reflexivity. Qed.

Lemma snap_fits : snapshot_fits KV_ZSET_SKIPLIST (mk_checkpoint 80 (replicate 16 171) true) (cache_of snap_set).
Proof.
  split; [|split; [vm_compute; reflexivity|split; [split; vm_compute; discriminate|]]].
  - intros k e He. apply elem_of_map_to_list in He. rewrite snap_list in He. apply elem_of_cons in He as [[= -> ->]|He]; [|by apply not_elem_of_nil in He].
    apply sample_string_loadable; [lia|split; vm_compute; discriminate|reflexivity|reflexivity|vm_compute; discriminate].
  - intros t _. assert (Hb : forall n, bytes_ok (encode_u64 n)) by (intros n; rewrite encode_u64_big_endian; apply big_endian_bytes).
    assert (Hd : forall l, forallb (fun b => (0 <=? b) && (b <? 256)) l = true -> bytes_ok l).
    { intros l Hl. apply Forall_forall. intros b Hx. rewrite forallb_forall in Hl. apply list_elem_of_In in Hx. specialize (Hl b Hx). apply andb_true_iff in Hl as [H1 H2].
      zb. unfold byte_ok. lia. }
    assert (Hl : saved_list t (cache_of snap_set) = [([97], mk_entry (mk_object 42 (VString [49] 1)) 140 0 0)]) by (vm_compute; reflexivity).
    unfold body_image, header_image. rewrite Hl. cbn [cp_valid aof_offset token]. repeat (apply Forall_app; split); try apply Hb; apply Hd; vm_compute; reflexivity.
Qed.

Lemma snap_possible : save_possible KV_ZSET_SKIPLIST 5000 snap_calls sample_path snap_set.
Proof.
  split; [split; [discriminate|intros t [= <-]; vm_compute; split; discriminate]|].
  eexists. split; [vm_compute; reflexivity|]. split; [vm_compute; reflexivity|]. split; [vm_compute; reflexivity|].
  intros cp a' E. assert (cp = mk_checkpoint 80 (replicate 16 171) true) as ->; [|exact snap_fits]. vm_compute in E. by injection E as <- _.
Qed.

Lemma snap_after : after_save None snap_result.1.1.2 snap_result.1.2 snap_result.2 (with_world snap_set snap_begin) = snap_process snap_saved.
Proof. unfold after_save, snap_process, snap_saved. cbn [pr_child pr_world with_world snap_begin]. by destruct (0 <? pm_child_pid snap_result.1.2). Qed.

Lemma snap_save : process_step no_admin KV_ZSET_SKIPLIST 5000 (with_world snap_set snap_begin) (snap_process snap_saved).
Proof.
  rewrite <- snap_after. apply (process_save no_admin KV_ZSET_SKIPLIST 5000 (with_world snap_set snap_begin) false snap_calls snap_result.1.1.1.1 None);
    [exact snap_possible|done|vm_compute; reflexivity].
Qed.

Lemma snap_world w w' : with_world w' (snap_process w) = snap_process w'.
Proof. unfold with_world, snap_process. cbn [pr_manager pr_files pr_child]. reflexivity. Qed.

Lemma snap_life : rtc (process_step no_admin KV_ZSET_SKIPLIST 5000) snap_begin (snap_process snap_end).
Proof.
  eapply (rtc_l _ _ _ _ (process_work no_admin KV_ZSET_SKIPLIST 5000 snap_begin snap_set snap_session)). apply (rtc_l _ _ _ _ snap_save), rtc_once.
  rewrite <- (snap_world snap_saved snap_end). apply process_work. exact snap_rest.
Qed.

Lemma snap_crash : crash_file snap_end snap_file.
Proof. eexists _, 115. split; [vm_compute; reflexivity|]. split; [vm_compute; reflexivity|]. split; vm_compute; discriminate. Qed.

Lemma snap_files w : pr_files (snap_process w) = snap_result.1.1.2.
Proof. unfold snap_process. cbn [pr_files]. reflexivity. Qed.

Lemma snap_fresh : fresh KV_ZSET_SKIPLIST 5000 sample_restart.
Proof. split; [apply sample_replaying|]. split; [vm_compute; reflexivity|]. split; reflexivity. Qed.

Lemma snap_fine : start_fine snap_env.
Proof. split_and!; try done. repeat constructor. Qed.

(** What the restart makes of the snapshot and the log. *)
Abbreviation snap_restart fs := (start_store no_admin snap_env fs (Some snap_file) snap_manager sample_restart).

Lemma snap_restarts : exists f m v, snap_restart (pr_files (snap_process snap_end)) = Some (f, m, v) /\
  visible 5000 (cache_of v) = {[ [97] := (AString [49], 0); [104] := (AHash {[ [102] := [118] ]}, 0) ]}.
Proof.
  rewrite snap_files. destruct (snap_restart snap_result.1.1.2) as [[[f m] v]|] eqn:E; [|vm_compute in E; discriminate].
  exists f, m, v. split; [done|]. assert (Hv : visible 5000 (cache_of v) = default ∅ ((fun x => visible 5000 (cache_of x.2)) <$> snap_restart snap_result.1.1.2)) by (rewrite E; reflexivity).
  rewrite Hv. vm_compute. reflexivity.
Qed.

