(* ===== verification/Options.v ===== *)
(** The command line of [src/app/main.c]. *)

From S2P Require Import Prelude Resp ZOrder Object Aof CommandText CommandProps.

(** ** Texts *)

Definition lower_letter (c : Z) : Z := if (65 <=? c) && (c <=? 90) then c - 65 + 97 else c.

Fixpoint suffix_equals (value expected : list Z) : bool :=
  match value, expected with
  | x :: value, y :: expected => if negb (lower_letter x =? y) then false else suffix_equals value expected
  | [], [] => true
  | _, _ => false
  end.

(** The loop over the digits of [parse_size]: the value and the rest. *)
Fixpoint size_digits (text : list Z) (value : Z) : option (Z * list Z) :=
  match text with
  | c :: rest =>
      if (48 <=? c) && (c <=? 57) then
        let digit := c - 48 in
        if value >? (SIZE_MAX - digit) / 10 then None else size_digits rest (value * 10 + digit)
      else Some (value, text)
  | [] => Some (value, [])
  end.

Definition size_unit (allow_units : bool) (suffix : list Z) : option Z :=
  match suffix with
  | [] => Some 1
  | _ =>
      if negb allow_units then None else
      if suffix_equals suffix (lit "kib") then Some 1024 else
      if suffix_equals suffix (lit "mib") then Some (1024 * 1024) else
      if suffix_equals suffix (lit "gib") then Some (1024 * 1024 * 1024) else None
  end.

Definition parse_size (text : list Z) (allow_units : bool) : option Z :=
  match text with
  | [] => None
  | c :: _ =>
      if (c <? 48) || (c >? 57) then None else
      '(value, rest) ← size_digits text 0;
      multiplier ← size_unit allow_units rest;
      if value >? SIZE_MAX / multiplier then None else Some (value * multiplier)
  end.

(** ** Options *)

Record app_options : Type := mk_options {
  max_memory : Z; max_keys : Z; zset_engine : kv_zset_engine; appendonly : bool; appendfilename : list Z;
  appendfsync : aof_fsync_policy; rdb_enabled : bool; dbfilename : list Z; save_seconds : Z; save_changes : Z;
  mysql_enabled : bool; mysql_host : list Z; mysql_port : Z; mysql_user : list Z; mysql_database : list Z;
  mysql_read_workers : Z; mysql_connect_timeout : Z; mysql_io_timeout : Z; mysql_read_queue_limit : Z;
  mysql_write_queue_bytes : Z; mysql_load_max_bytes : Z; mysql_negative_ttl_ms : Z; mysql_negative_capacity : Z
}.

Definition default_options : app_options :=
  mk_options 0 0 KV_ZSET_SKIPLIST false (lit "appendonly.aof") AOF_FSYNC_EVERYSEC false (lit "dump.kvrdb") 0 0
    false (lit "127.0.0.1") 3306 (lit "kvstore") (lit "kvstore") 8 2 2 4096 (64 * 1024 * 1024) (64 * 1024 * 1024) 3000 10000.

(** What one option and its value set. *)
Inductive setting : Type :=
| MaxMemory (n : Z) | MaxKeys (n : Z) | AppendOnly (b : bool) | AppendFilename (l : list Z)
| AppendFsync (p : aof_fsync_policy) | ZsetEngine (e : kv_zset_engine) | RdbEnabled (b : bool) | DbFilename (l : list Z)
| SaveSeconds (n : Z) | SaveChanges (n : Z) | MysqlEnabled (b : bool) | MysqlHost (l : list Z) | MysqlUser (l : list Z)
| MysqlDatabase (l : list Z) | MysqlPort (n : Z) | MysqlReadWorkers (n : Z) | MysqlConnectTimeout (n : Z)
| MysqlIoTimeout (n : Z) | MysqlReadQueue (n : Z) | MysqlWriteQueue (n : Z) | MysqlLoadMax (n : Z)
| MysqlNegativeTtl (n : Z) | MysqlNegativeCapacity (n : Z).

Definition apply_setting (s : setting) (o : app_options) : app_options :=
  let 'mk_options mm mk ze ao af fs re db ss sc me mh mp mu md rw ct it rq wq lm nt nc := o in
  match s with
  | MaxMemory x => mk_options x mk ze ao af fs re db ss sc me mh mp mu md rw ct it rq wq lm nt nc
  | MaxKeys x => mk_options mm x ze ao af fs re db ss sc me mh mp mu md rw ct it rq wq lm nt nc
  | ZsetEngine x => mk_options mm mk x ao af fs re db ss sc me mh mp mu md rw ct it rq wq lm nt nc
  | AppendOnly x => mk_options mm mk ze x af fs re db ss sc me mh mp mu md rw ct it rq wq lm nt nc
  | AppendFilename x => mk_options mm mk ze ao x fs re db ss sc me mh mp mu md rw ct it rq wq lm nt nc
  | AppendFsync x => mk_options mm mk ze ao af x re db ss sc me mh mp mu md rw ct it rq wq lm nt nc
  | RdbEnabled x => mk_options mm mk ze ao af fs x db ss sc me mh mp mu md rw ct it rq wq lm nt nc
  | DbFilename x => mk_options mm mk ze ao af fs re x ss sc me mh mp mu md rw ct it rq wq lm nt nc
  | SaveSeconds x => mk_options mm mk ze ao af fs re db x sc me mh mp mu md rw ct it rq wq lm nt nc
  | SaveChanges x => mk_options mm mk ze ao af fs re db ss x me mh mp mu md rw ct it rq wq lm nt nc
  | MysqlEnabled x => mk_options mm mk ze ao af fs re db ss sc x mh mp mu md rw ct it rq wq lm nt nc
  | MysqlHost x => mk_options mm mk ze ao af fs re db ss sc me x mp mu md rw ct it rq wq lm nt nc
  | MysqlPort x => mk_options mm mk ze ao af fs re db ss sc me mh x mu md rw ct it rq wq lm nt nc
  | MysqlUser x => mk_options mm mk ze ao af fs re db ss sc me mh mp x md rw ct it rq wq lm nt nc
  | MysqlDatabase x => mk_options mm mk ze ao af fs re db ss sc me mh mp mu x rw ct it rq wq lm nt nc
  | MysqlReadWorkers x => mk_options mm mk ze ao af fs re db ss sc me mh mp mu md x ct it rq wq lm nt nc
  | MysqlConnectTimeout x => mk_options mm mk ze ao af fs re db ss sc me mh mp mu md rw x it rq wq lm nt nc
  | MysqlIoTimeout x => mk_options mm mk ze ao af fs re db ss sc me mh mp mu md rw ct x rq wq lm nt nc
  | MysqlReadQueue x => mk_options mm mk ze ao af fs re db ss sc me mh mp mu md rw ct it x wq lm nt nc
  | MysqlWriteQueue x => mk_options mm mk ze ao af fs re db ss sc me mh mp mu md rw ct it rq x lm nt nc
  | MysqlLoadMax x => mk_options mm mk ze ao af fs re db ss sc me mh mp mu md rw ct it rq wq x nt nc
  | MysqlNegativeTtl x => mk_options mm mk ze ao af fs re db ss sc me mh mp mu md rw ct it rq wq lm x nc
  | MysqlNegativeCapacity x => mk_options mm mk ze ao af fs re db ss sc me mh mp mu md rw ct it rq wq lm nt x
  end.

Definition yes_no (value : list Z) : option bool :=
  if suffix_equals value (lit "yes") then Some true else if suffix_equals value (lit "no") then Some false else None.

Definition fsync_policy (value : list Z) : option aof_fsync_policy :=
  if suffix_equals value (lit "always") then Some AOF_FSYNC_ALWAYS else
  if suffix_equals value (lit "everysec") then Some AOF_FSYNC_EVERYSEC else
  if suffix_equals value (lit "no") then Some AOF_FSYNC_NO else None.

Definition engine_name (value : list Z) : option kv_zset_engine :=
  if suffix_equals value (lit "skiplist") then Some KV_ZSET_SKIPLIST else
  if suffix_equals value (lit "rbtree") then Some KV_ZSET_RBTREE else None.

(** A number that is not 0 and at most [limit]. *)
Definition positive_size (value : list Z) (allow_units : bool) (limit : Z) : option Z :=
  n ← parse_size value allow_units;
  if (n =? 0) || (n >? limit) then None else Some n.

Definition UINT_MAX : Z := 2 ^ 32 - 1.

Definition filled_text (l : list Z) : bool := match l with [] => false | _ => true end.

Definition is_name (name : list Z) (s : string) : bool := bool_decide (name = lit s).

(** The chain of comparisons in the loop; [seen] has the names for which the
    flag [saw_...] is set. *)
Definition parse_option (name value : list Z) (seen : list (list Z)) : option setting :=
  let fresh := negb (bool_decide (name ∈ seen)) in
  if is_name name "--maxmemory" && fresh then MaxMemory <$> parse_size value true else
  if is_name name "--maxkeys" && fresh then MaxKeys <$> parse_size value false else
  if is_name name "--appendonly" && fresh then AppendOnly <$> yes_no value else
  if is_name name "--appendfilename" && fresh && filled_text value then Some (AppendFilename value) else
  if is_name name "--appendfsync" && fresh then AppendFsync <$> fsync_policy value else
  if is_name name "--zset-engine" && fresh then ZsetEngine <$> engine_name value else
  if is_name name "--rdb" && fresh then RdbEnabled <$> yes_no value else
  if is_name name "--dbfilename" && fresh && filled_text value then Some (DbFilename value) else
  if is_name name "--save-seconds" && fresh then SaveSeconds <$> parse_size value false else
  if is_name name "--save-changes" && fresh then SaveChanges <$> parse_size value false else
  if is_name name "--mysql" then MysqlEnabled <$> yes_no value else
  if is_name name "--mysql-host" && filled_text value then Some (MysqlHost value) else
  if is_name name "--mysql-user" && filled_text value then Some (MysqlUser value) else
  if is_name name "--mysql-database" && filled_text value then Some (MysqlDatabase value) else
  if is_name name "--mysql-port" then MysqlPort <$> positive_size value false 65535 else
  if is_name name "--mysql-read-workers" then MysqlReadWorkers <$> positive_size value false 64 else
  if is_name name "--mysql-connect-timeout" then MysqlConnectTimeout <$> positive_size value false UINT_MAX else
  if is_name name "--mysql-io-timeout" then MysqlIoTimeout <$> positive_size value false UINT_MAX else
  if is_name name "--mysql-read-queue" then MysqlReadQueue <$> positive_size value false SIZE_MAX else
  if is_name name "--mysql-write-queue" then MysqlWriteQueue <$> positive_size value true SIZE_MAX else
  if is_name name "--mysql-load-max" then MysqlLoadMax <$> positive_size value true SIZE_MAX else
  if is_name name "--mysql-negative-ttl-ms" then MysqlNegativeTtl <$> parse_size value false else
  if is_name name "--mysql-negative-capacity" then MysqlNegativeCapacity <$> parse_size value false else
  None.

Fixpoint parse_option_pairs (arguments : list (list Z)) (seen : list (list Z)) (o : app_options) : option app_options :=
  match arguments with
  | [] => Some o
  | [_] => None
  | name :: value :: arguments =>
      s ← parse_option name value seen; parse_option_pairs arguments (name :: seen) (apply_setting s o)
  end.

(** The check after the loop. *)
Definition options_conflict (o : app_options) : bool :=
  negb (Bool.eqb (save_seconds o =? 0) (save_changes o =? 0)) ||
  (negb (rdb_enabled o) && (negb (save_seconds o =? 0) || negb (save_changes o =? 0))) ||
  (mysql_enabled o && negb (appendonly o)).

Inductive options_result : Type := OptionsHelp | OptionsRefused | OptionsAccepted (o : app_options).

Definition parse_options (argv : list (list Z)) : options_result :=
  if bool_decide (tail argv = [lit "--help"]) then OptionsHelp else
  match parse_option_pairs (tail argv) [] default_options with
  | None => OptionsRefused
  | Some o => if options_conflict o then OptionsRefused else OptionsAccepted o
  end.

(** ** Sizes are read exactly *)

Lemma size_digits_spec text m v rest :
  0 <= m <= SIZE_MAX -> (size_digits text m = Some (v, rest) <->
  exists ds, text = ds ++ rest /\ Forall is_digit ds /\ v = dec_acc m ds /\ v <= SIZE_MAX /\ (forall c, head rest = Some c -> ~ is_digit c)).
Proof.
  revert m. induction text as [|c text IH]; intros m Hm; cbn [size_digits].
  { split; [intros [= <- <-]; exists []; split_and!; [done|apply Forall_nil_2|done|lia|done]|]. intros (ds & Happ & _ & Hv & _). symmetry in Happ. apply app_nil in Happ as [-> ->]. by rewrite Hv. }
  destruct ((48 <=? c) && (c <=? 57)) eqn:Ec.
  - assert (Hc : is_digit c) by (apply andb_true_iff in Ec as [? ?]; zb; unfold is_digit; lia). pose proof Hc as Hc'. unfold is_digit in Hc'.
    assert (Hhead : forall ds, c :: text = ds ++ rest -> (forall x, head rest = Some x -> ~ is_digit x) -> exists ds', ds = c :: ds' /\ text = ds' ++ rest).
    { intros [|d ds] E Hr; [cbn in E; subst rest; by destruct (Hr c eq_refl)|]. injection E as -> ->. by exists ds. }
    destruct (Z.gtb_spec m ((SIZE_MAX - (c - 48)) / 10)) as [Hg|Hg].
    + split; [done|]. intros (ds & E & Hd & -> & Hle & Hr). destruct (Hhead ds E Hr) as (ds' & -> & _). apply Forall_cons in Hd as [_ Hd]. exfalso.
      change (dec_acc m (c :: ds')) with (dec_acc (m * 10 + (c - 48)) ds') in Hle. pose proof (dec_acc_ge (m * 10 + (c - 48)) ds' ltac:(lia) Hd).
      pose proof (Z.div_mod (SIZE_MAX - (c - 48)) 10 ltac:(lia)). pose proof (Z.mod_pos_bound (SIZE_MAX - (c - 48)) 10 ltac:(lia)). lia.
    + assert (m * 10 + (c - 48) <= SIZE_MAX) by (pose proof (Z.mul_div_le (SIZE_MAX - (c - 48)) 10 ltac:(lia)); lia). rewrite IH by lia. split.
      * intros (ds & -> & Hd & -> & Hr). exists (c :: ds). split_and!; [done|by constructor|done|apply Hr|apply Hr].
      * intros (ds & E & Hd & -> & Hle & Hr). destruct (Hhead ds E Hr) as (ds' & -> & ->). exists ds'. apply Forall_cons in Hd as [_ Hd]. by split_and!.
  - assert (Hc : ~ is_digit c) by (unfold is_digit; apply andb_false_iff in Ec as [?|?]; zb; lia). split.
    + intros [= <- <-]. exists []. split_and!; [done|constructor|done|lia|]. by intros x [= <-].
    + intros (ds & E & Hd & -> & _). destruct ds as [|d ds]; [cbn in E; by subst rest|]. injection E as -> _. by apply Forall_cons in Hd as [? _].
Qed.

Lemma size_unit_positive units suffix m : size_unit units suffix = Some m -> 1 <= m <= 1024 * 1024 * 1024.
Proof. unfold size_unit. repeat case_match; intros [= <-] || intros ?; lia || done. Qed.

(** A word in small or capital letters. *)
Definition spelled (word suffix : list Z) : Prop := Forall2 (fun u c => c = u \/ c = u - 32) word suffix.

(** What a suffix multiplies a size by. *)
Inductive unit_value (units : bool) : list Z -> Z -> Prop :=
| unit_bytes : unit_value units [] 1
| unit_kib suffix : units = true -> spelled (lit "kib") suffix -> unit_value units suffix (2 ^ 10)
| unit_mib suffix : units = true -> spelled (lit "mib") suffix -> unit_value units suffix (2 ^ 20)
| unit_gib suffix : units = true -> spelled (lit "gib") suffix -> unit_value units suffix (2 ^ 30).

Lemma suffix_equals_spec word suffix : Forall (fun u => 97 <= u <= 122) word -> suffix_equals suffix word = true <-> spelled word suffix.
Proof.
  intros Hw. revert suffix. induction Hw as [|u word Hu _ IH]; intros [|c suffix]; cbn [suffix_equals]; [split; [constructor|done]|split; [done|intros H; inversion H]..|].
  assert (Hl : lower_letter c = u <-> c = u \/ c = u - 32) by (unfold lower_letter; destruct (Z.leb_spec 65 c), (Z.leb_spec c 90); cbn [andb]; lia).
  destruct (Z.eqb_spec (lower_letter c) u) as [E|E]; cbn [negb].
  - rewrite IH. split; intros H; [constructor; [by apply Hl|done]|by inversion H].
  - split; [done|]. intros H. inversion H; subst. by destruct E; apply Hl.
Qed.

Lemma suffix_equals_inj x u v : suffix_equals x u = true -> suffix_equals x v = true -> u = v.
Proof.
  revert u v. induction x as [|c x IH]; intros [|a u] [|b v]; cbn [suffix_equals]; try done.
  destruct (Z.eqb_spec (lower_letter c) a), (Z.eqb_spec (lower_letter c) b); try done. intros H1 H2. f_equal; [congruence|by apply IH].
Qed.

Lemma size_unit_spec units suffix m : size_unit units suffix = Some m <-> unit_value units suffix m.
Proof.
  assert (Hk := fun x => suffix_equals_spec (lit "kib") x ltac:(by repeat constructor)).
  assert (Hm := fun x => suffix_equals_spec (lit "mib") x ltac:(by repeat constructor)).
  assert (Hg := fun x => suffix_equals_spec (lit "gib") x ltac:(by repeat constructor)).
  unfold size_unit. destruct suffix as [|c suffix].
  { split; [intros [= <-]; constructor|]. intros H. inversion H as [|? _ Hs|? _ Hs|? _ Hs]; subst; [done|inversion Hs..]. }
  destruct units; cbn [negb]; [|split; [done|intros H; by inversion H]]. split.
  - repeat case_match; intros [= <-]; [apply unit_kib, Hk|apply unit_mib, Hm|apply unit_gib, Hg]; done.
  - intros H. inversion H as [|? _ Hs|? _ Hs|? _ Hs]; subst; [apply Hk in Hs|apply Hm in Hs|apply Hg in Hs]; rewrite Hs; [done| |];
      repeat case_match; try done; by exfalso; pose proof (suffix_equals_inj _ _ _ Hs ltac:(eassumption)).
Qed.

(** A size is some digits and perhaps a unit, and its value fits. *)
Lemma parse_size_spec text units v :
  parse_size text units = Some v <->
  exists ds suffix m, text = ds ++ suffix /\ ds <> [] /\ Forall is_digit ds /\ (forall c, head suffix = Some c -> ~ is_digit c) /\
    size_unit units suffix = Some m /\ v = dec_acc 0 ds * m /\ v <= SIZE_MAX.
Proof.
  assert (Hz : 0 <= 0 <= SIZE_MAX) by (split; [lia|vm_compute; discriminate]).
  assert (Hfit : forall ds m, Forall is_digit ds -> 1 <= m -> dec_acc 0 ds * m <= SIZE_MAX -> dec_acc 0 ds <= SIZE_MAX /\ dec_acc 0 ds <= SIZE_MAX / m).
  { intros ds m Hd Hm Hle. pose proof (dec_acc_ge 0 ds ltac:(lia) Hd). split; [nia|]. apply Z.div_le_lower_bound; lia. }
  unfold parse_size. destruct text as [|c text]; [split; [done|]; intros (ds & suffix & m & E & Hne & _); symmetry in E; by apply app_nil in E as [-> _]|].
  destruct ((c <? 48) || (c >? 57)) eqn:Ec.
  - split; [done|]. intros (ds & suffix & m & E & Hne & Hd & _). destruct ds as [|d ds]; [done|]. injection E as -> _. apply Forall_cons in Hd as [Hd _]. unfold is_digit in Hd.
    apply orb_true_iff in Ec as [?|?]; zb; lia.
  - apply orb_false_iff in Ec as [E1 E2]. zb. assert (Hc : is_digit c) by (unfold is_digit; lia). split.
    + destruct (size_digits (c :: text) 0) as [[n rest]|] eqn:Ed; [|done]. cbn [mbind option_bind]. apply (size_digits_spec _ _ _ _ Hz) in Ed as (ds & E & Hd & -> & Hle & Hr).
      destruct (size_unit units rest) as [m|] eqn:Eu; [|done]. cbn [mbind option_bind]. destruct (Z.gtb_spec (dec_acc 0 ds) (SIZE_MAX / m)) as [|Hm]; [done|]. intros [= <-].
      exists ds, rest, m. pose proof (size_unit_positive _ _ _ Eu). split_and!; try done.
      * intros ->. cbn in E. subst rest. by apply (Hr c eq_refl).
      * pose proof (Z.mul_div_le SIZE_MAX m ltac:(lia)). nia.
    + intros (ds & suffix & m & E & Hne & Hd & Hr & Eu & -> & Hle). pose proof (size_unit_positive _ _ _ Eu). destruct (Hfit ds m Hd ltac:(lia) Hle) as [H1 H2].
      assert (size_digits (c :: text) 0 = Some (dec_acc 0 ds, suffix)) as ->. { apply (size_digits_spec _ _ _ _ Hz). exists ds. by split_and!. }
      cbn [mbind option_bind]. rewrite Eu. cbn [mbind option_bind]. by destruct (Z.gtb_spec (dec_acc 0 ds) (SIZE_MAX / m)); [lia|].
Qed.

Lemma parse_size_range text units v : parse_size text units = Some v -> u64_ok v.
Proof.
  intros (ds & suffix & m & _ & _ & Hd & _ & Hu & -> & Hle)%parse_size_spec. apply size_unit_positive in Hu. pose proof (dec_acc_ge 0 ds ltac:(lia) Hd).
  split; [nia|exact Hle].
Qed.

Lemma parse_size_decimal n units : u64_ok n -> parse_size (decimal n) units = Some n.
Proof.
  intros Hn. destruct (decimal_spec n Hn) as (Hd & Hl & Ha). apply parse_size_spec. exists (decimal n), [], 1. rewrite app_nil_r. split_and!; try done.
  - intros E. rewrite E, zlen_nil in Hl. lia.
  - rewrite Ha. lia.
  - apply Hn.
Qed.

Lemma positive_size_range text units limit n : positive_size text units limit = Some n -> 1 <= n <= limit.
Proof.
  unfold positive_size. destruct (parse_size text units) as [v|] eqn:E; [|done]. cbn [mbind option_bind]. apply parse_size_range in E. unfold u64_ok in E.
  destruct (Z.eqb_spec v 0), (Z.gtb_spec v limit); cbn [orb]; intros [= <-]; lia.
Qed.

Lemma positive_size_decimal n units limit : 1 <= n <= limit -> limit <= UINT64_MAX -> positive_size (decimal n) units limit = Some n.
Proof.
  intros Hn Hl. unfold positive_size. rewrite parse_size_decimal by (unfold u64_ok; lia). cbn [mbind option_bind].
  destruct (Z.eqb_spec n 0), (Z.gtb_spec n limit); cbn [orb]; lia || done.
Qed.

(** ** The accepted options *)

Definition setting_ok (s : setting) : Prop :=
  match s with
  | MaxMemory n | MaxKeys n | SaveSeconds n | SaveChanges n | MysqlNegativeTtl n | MysqlNegativeCapacity n => u64_ok n
  | AppendFilename l | DbFilename l | MysqlHost l | MysqlUser l | MysqlDatabase l => l <> []
  | MysqlPort n => 1 <= n <= 65535
  | MysqlReadWorkers n => 1 <= n <= 64
  | MysqlConnectTimeout n | MysqlIoTimeout n => 1 <= n <= UINT_MAX
  | MysqlReadQueue n | MysqlWriteQueue n | MysqlLoadMax n => 1 <= n <= SIZE_MAX
  | _ => True
  end.

(** The settings that make the options. *)
Definition settings_of (o : app_options) : list setting :=
  [MaxMemory (max_memory o); MaxKeys (max_keys o); AppendOnly (appendonly o); AppendFilename (appendfilename o);
   AppendFsync (appendfsync o); ZsetEngine (zset_engine o); RdbEnabled (rdb_enabled o); DbFilename (dbfilename o);
   SaveSeconds (save_seconds o); SaveChanges (save_changes o); MysqlEnabled (mysql_enabled o); MysqlHost (mysql_host o);
   MysqlUser (mysql_user o); MysqlDatabase (mysql_database o); MysqlPort (mysql_port o); MysqlReadWorkers (mysql_read_workers o);
   MysqlConnectTimeout (mysql_connect_timeout o); MysqlIoTimeout (mysql_io_timeout o); MysqlReadQueue (mysql_read_queue_limit o);
   MysqlWriteQueue (mysql_write_queue_bytes o); MysqlLoadMax (mysql_load_max_bytes o); MysqlNegativeTtl (mysql_negative_ttl_ms o);
   MysqlNegativeCapacity (mysql_negative_capacity o)].

(** Every field is in its range and no two contradict each other: automatic
    saves have both limits and need snapshots, the database needs the log. *)
Definition options_ok (o : app_options) : Prop :=
  Forall setting_ok (settings_of o) /\ (save_seconds o = 0 <-> save_changes o = 0) /\
  (save_seconds o <> 0 -> rdb_enabled o = true) /\ (mysql_enabled o = true -> appendonly o = true).

Lemma conflict_spec o :
  options_conflict o = false <->
  (save_seconds o = 0 <-> save_changes o = 0) /\ (save_seconds o <> 0 -> rdb_enabled o = true) /\ (mysql_enabled o = true -> appendonly o = true).
Proof.
  unfold options_conflict. destruct (Z.eqb_spec (save_seconds o) 0), (Z.eqb_spec (save_changes o) 0), (rdb_enabled o), (mysql_enabled o), (appendonly o);
    cbn; split; intros; try done; try (split_and!; try done; lia); naive_solver.
Qed.

Lemma apply_ok s o : setting_ok s -> Forall setting_ok (settings_of o) -> Forall setting_ok (settings_of (apply_setting s o)).
Proof.
  intros Hs. destruct o. unfold settings_of. rewrite !Forall_cons. cbn. destruct s; cbn in *; tauto.
Qed.

Lemma parse_option_ok name value seen s : parse_option name value seen = Some s -> setting_ok s.
Proof.
  unfold parse_option. assert (Hfill : forall b l, b && filled_text l = true -> l <> []) by (intros [] [|]; done). intros H.
  repeat match type of H with (if ?b then _ else _) = Some _ => destruct b eqn:? end;
    try done; try (apply fmap_Some in H as (? & H & ->)); try (injection H as <-); cbn; try done;
    try (by eapply parse_size_range); try (by eapply positive_size_range); by eapply Hfill.
Qed.

Lemma parse_arguments_ok n arguments seen o o' :
  (length arguments <= n)%nat -> Forall setting_ok (settings_of o) -> parse_option_pairs arguments seen o = Some o' -> Forall setting_ok (settings_of o').
Proof.
  revert arguments seen o. induction n as [|n IH]; intros arguments seen o Hn Ho E; (destruct arguments as [|name [|value arguments]]; cbn [parse_option_pairs length] in *; [by injection E as <-|done|]); [lia|].
  destruct (parse_option name value seen) as [s|] eqn:Es; [|done]. cbn [mbind option_bind] in E. eapply (IH arguments); [lia| |exact E].
  apply apply_ok; [|done]. by eapply parse_option_ok.
Qed.

(** ** The command line of some options *)

Definition setting_name (s : setting) : list Z :=
  match s with
  | MaxMemory _ => lit "--maxmemory" | MaxKeys _ => lit "--maxkeys" | AppendOnly _ => lit "--appendonly"
  | AppendFilename _ => lit "--appendfilename" | AppendFsync _ => lit "--appendfsync" | ZsetEngine _ => lit "--zset-engine"
  | RdbEnabled _ => lit "--rdb" | DbFilename _ => lit "--dbfilename" | SaveSeconds _ => lit "--save-seconds"
  | SaveChanges _ => lit "--save-changes" | MysqlEnabled _ => lit "--mysql" | MysqlHost _ => lit "--mysql-host"
  | MysqlUser _ => lit "--mysql-user" | MysqlDatabase _ => lit "--mysql-database" | MysqlPort _ => lit "--mysql-port"
  | MysqlReadWorkers _ => lit "--mysql-read-workers" | MysqlConnectTimeout _ => lit "--mysql-connect-timeout"
  | MysqlIoTimeout _ => lit "--mysql-io-timeout" | MysqlReadQueue _ => lit "--mysql-read-queue"
  | MysqlWriteQueue _ => lit "--mysql-write-queue" | MysqlLoadMax _ => lit "--mysql-load-max"
  | MysqlNegativeTtl _ => lit "--mysql-negative-ttl-ms" | MysqlNegativeCapacity _ => lit "--mysql-negative-capacity"
  end.

Definition setting_text (s : setting) : list Z :=
  match s with
  | MaxMemory n | MaxKeys n | SaveSeconds n | SaveChanges n | MysqlPort n | MysqlReadWorkers n | MysqlConnectTimeout n
  | MysqlIoTimeout n | MysqlReadQueue n | MysqlWriteQueue n | MysqlLoadMax n | MysqlNegativeTtl n | MysqlNegativeCapacity n => decimal n
  | AppendOnly b | RdbEnabled b | MysqlEnabled b => if b then lit "Yes" else lit "no"
  | AppendFilename l | DbFilename l | MysqlHost l | MysqlUser l | MysqlDatabase l => l
  | AppendFsync AOF_FSYNC_ALWAYS => lit "always" | AppendFsync AOF_FSYNC_EVERYSEC => lit "everysec" | AppendFsync AOF_FSYNC_NO => lit "no"
  | ZsetEngine KV_ZSET_SKIPLIST => lit "skiplist" | ZsetEngine KV_ZSET_RBTREE => lit "rbtree"
  end.

Definition setting_arguments (s : setting) : list (list Z) := [setting_name s; setting_text s].

(** Comparisons of two names are computed. *)
Ltac names :=
  repeat match goal with
  | |- context [is_name (setting_name ?s) ?b] =>
      let v := eval vm_compute in (is_name (setting_name s) b) in change (is_name (setting_name s) b) with v; cbn [andb]
  end.

Lemma parse_option_rendered s seen :
  setting_ok s -> setting_name s ∉ seen -> parse_option (setting_name s) (setting_text s) seen = Some s.
Proof.
  intros Hs Hn. unfold parse_option. rewrite (bool_decide_false (setting_name s ∈ seen)) by done. cbn [negb]. rewrite !andb_true_r.
  assert (Hfill : forall l, l <> [] -> filled_text l = true) by (by intros []).
  destruct s; names; cbn [setting_ok setting_text] in *; rewrite ?Hfill by done; rewrite ?parse_size_decimal by done; try done.
  all: try (rewrite positive_size_decimal; [done|done|vm_compute; discriminate]).
  all: repeat case_match; reflexivity.
Qed.

Lemma parse_arguments_rendered l seen o :
  Forall setting_ok l -> NoDup (setting_name <$> l) -> (forall s, s ∈ l -> setting_name s ∉ seen) ->
  parse_option_pairs (l ≫= setting_arguments) seen o = Some (fold_left (fun o s => apply_setting s o) l o).
Proof.
  revert seen o. induction l as [|s l IH]; intros seen o Hok Hnd Hseen; [done|]. apply Forall_cons in Hok as [Hs Hok].
  cbn [fmap list_fmap] in Hnd. apply NoDup_cons in Hnd as [Hn Hnd]. rewrite bind_cons. unfold setting_arguments at 1. cbn [app parse_option_pairs].
  rewrite parse_option_rendered; [|done|by apply Hseen, elem_of_cons; left]. cbn [mbind option_bind fold_left]. apply IH; [done|done|].
  intros x Hx. apply not_elem_of_cons. split; [|by apply Hseen, elem_of_cons; right]. intros E. apply Hn. apply list_elem_of_fmap. by exists x.
Qed.

Lemma settings_names o : NoDup (setting_name <$> settings_of o).
Proof.
  apply (bool_decide_unpack _). destruct o. vm_compute. reflexivity.
Qed.

(** C39. The command line.  The options that are accepted are exactly the
    well-formed ones: every accepted field is in its range, automatic saves have
    both limits and need snapshots, the database needs the log; and every such
    combination is accepted from the command line that names its fields, and
    read back unchanged.  A size is accepted exactly when it is digits, followed
    where units are allowed by KiB, MiB or GiB in small or capital letters, and
    stands for a value within [SIZE_MAX]: the number of its digits times 1,
    2^10, 2^20 or 2^30. *)
Theorem parse_options_correct :
  (forall argv o, parse_options argv = OptionsAccepted o -> options_ok o) /\
  (forall program o, options_ok o -> parse_options (program :: (settings_of o ≫= setting_arguments)) = OptionsAccepted o) /\
  (forall text units v, parse_size text units = Some v <->
     exists ds suffix m, text = ds ++ suffix /\ ds <> [] /\ Forall is_digit ds /\ (forall c, head suffix = Some c -> ~ is_digit c) /\
       unit_value units suffix m /\ v = dec_acc 0 ds * m /\ v <= SIZE_MAX).
Proof.
  split; [|split; [|intros text units v; rewrite parse_size_spec; by setoid_rewrite size_unit_spec]].
  - intros argv o E. unfold parse_options in E. destruct (bool_decide _); [done|]. destruct (parse_option_pairs _ _ _) as [o'|] eqn:Ea; [|done].
    destruct (options_conflict o') eqn:Ec; [done|]. injection E as ->. split; [|by apply conflict_spec].
    eapply parse_arguments_ok; [reflexivity| |exact Ea]. unfold settings_of. rewrite !Forall_cons. cbn. unfold u64_ok, UINT64_MAX, UINT_MAX, SIZE_MAX.
    split_and!; try lia; try done; apply Forall_nil_2.
  - intros program o [Hf Hc]. unfold parse_options. cbn [tail]. rewrite bool_decide_false by done.
    rewrite parse_arguments_rendered; [|done|apply settings_names|by intros s _ ?%not_elem_of_nil].
    assert (fold_left (fun o s => apply_setting s o) (settings_of o) default_options = o) as -> by (by destruct o).
    by rewrite (proj2 (conflict_spec o) Hc).
Qed.

Definition sample_argv : list (list Z) :=
  [lit "kvstore"; lit "--appendonly"; lit "YES"; lit "--maxmemory"; lit "2GiB"; lit "--mysql"; lit "yes"; lit "--mysql-port"; lit "65535"].

Lemma parse_options_correct_witness :
  exists o, parse_options sample_argv = OptionsAccepted o /\ options_ok o /\ max_memory o = 2 * 2 ^ 30 /\
    parse_options (lit "kvstore" :: (settings_of o ≫= setting_arguments)) = OptionsAccepted o.
Proof.
  destruct parse_options_correct as (H1 & H2 & _). destruct (parse_options sample_argv) as [| |o] eqn:E; [vm_compute in E; discriminate..|].
  exists o. split; [reflexivity|]. pose proof (H1 sample_argv o E) as Ho. split; [exact Ho|]. split; [vm_compute in E; injection E as <-; reflexivity|exact (H2 (lit "kvstore") o Ho)].
Defined.
