(* ===== verification/Reactor.v ===== *)
(** The reactor of [src/net/reactor.c]: connections with their input and output
    buffers, the loop that hands complete requests to the handler, responses
    that arrive later ([reactor_complete_response]), and one round of the event
    loop.

    System calls are answers of the environment: the scripts of [recv],
    [send] and [accept4], the events of [epoll_wait], and, like allocations,
    the outcomes of [epoll_ctl].  The handler and the other callbacks are
    parameters; the handler works on a state [S] of its own. *)

From S2P Require Import Prelude NetBuffer.

Definition REACTOR_IO_CHUNK : Z := 4096.
Definition REACTOR_INITIAL_BUFFER : Z := 512.
Definition REACTOR_MAX_REQUEST : Z := 64 * 1024.
Definition REACTOR_MAX_RESPONSE : Z := 1024 * 1024.
Definition REACTOR_OUTPUT_HIGH_WATER : Z := 1024 * 1024.

Inductive handler_result : Type :=
| REACTOR_HANDLER_ERROR | REACTOR_HANDLER_INCOMPLETE | REACTOR_HANDLER_COMPLETE | REACTOR_HANDLER_DEFERRED.

(** What a handler leaves: its result, the response buffer, the bytes consumed,
    whether the connection is closed after the response, and the barrier. *)
Record dispatched : Type := mk_dispatched {
  ds_result : handler_result; ds_response : net_buffer; ds_consumed : Z; ds_close : bool; ds_barrier : Z
}.

(** The interest in [EPOLLIN] and [EPOLLOUT]; [EPOLLRDHUP] is always set. *)
Record reactor_connection : Type := mk_connection {
  cn_id : Z; cn_in : bool; cn_out : bool; cn_peer_eof : bool; cn_close : bool; cn_async : bool; cn_barrier : Z;
  cn_input : net_buffer; cn_output : net_buffer
}.

Definition set_events (i o : bool) (c : reactor_connection) : reactor_connection :=
  mk_connection (cn_id c) i o (cn_peer_eof c) (cn_close c) (cn_async c) (cn_barrier c) (cn_input c) (cn_output c).

Definition set_peer_eof (c : reactor_connection) : reactor_connection :=
  mk_connection (cn_id c) (cn_in c) (cn_out c) true (cn_close c) (cn_async c) (cn_barrier c) (cn_input c) (cn_output c).

Definition set_close (c : reactor_connection) : reactor_connection :=
  mk_connection (cn_id c) (cn_in c) (cn_out c) (cn_peer_eof c) true (cn_async c) (cn_barrier c) (cn_input c) (cn_output c).

Definition set_async (x : bool) (c : reactor_connection) : reactor_connection :=
  mk_connection (cn_id c) (cn_in c) (cn_out c) (cn_peer_eof c) (cn_close c) x (cn_barrier c) (cn_input c) (cn_output c).

Definition set_barrier (x : Z) (c : reactor_connection) : reactor_connection :=
  mk_connection (cn_id c) (cn_in c) (cn_out c) (cn_peer_eof c) (cn_close c) (cn_async c) x (cn_input c) (cn_output c).

Definition set_input (b : net_buffer) (c : reactor_connection) : reactor_connection :=
  mk_connection (cn_id c) (cn_in c) (cn_out c) (cn_peer_eof c) (cn_close c) (cn_async c) (cn_barrier c) b (cn_output c).

Definition set_output (b : net_buffer) (c : reactor_connection) : reactor_connection :=
  mk_connection (cn_id c) (cn_in c) (cn_out c) (cn_peer_eof c) (cn_close c) (cn_async c) (cn_barrier c) (cn_input c) b.

Definition raise_barrier (x : Z) (c : reactor_connection) : reactor_connection :=
  if x >? cn_barrier c then set_barrier x c else c.

(** [rx_sent]: the bytes given to the sockets, with the connection. *)
Record reactor (S : Type) : Type := mk_reactor {
  rx_clients : list reactor_connection; rx_next_id : Z; rx_stopping : bool; rx_sent : list (Z * list Z);
  rx_mem : mem; rx_state : S
}.

Arguments mk_reactor {S}.
Arguments rx_clients {S}.
Arguments rx_next_id {S}.
Arguments rx_stopping {S}.
Arguments rx_sent {S}.
Arguments rx_mem {S}.
Arguments rx_state {S}.

(** Answers of [recv] and [accept4]. *)
Inductive recv_result : Type := Received (bytes : list Z) | ReceivedEof | RecvEintr | RecvEagain | RecvError.

Inductive accept_result : Type := Accepted (nonblocking : bool) | AcceptEintr | AcceptEagain | AcceptError.

Section Connection.
Context {S : Type} (junk : Z) (handler : list Z -> bool -> net_buffer -> Z -> S -> dispatched * S) (barrier_ready : Z -> S -> bool).
Implicit Types (c : reactor_connection) (s : S) (m : mem).

(** [connection_set_events] *)
Definition connection_set_events c (i o : bool) m : Z * reactor_connection * mem :=
  if bool_decide (cn_in c = i) && bool_decide (cn_out c = o) then (0, c, m) else
  let '(ok, m) := malloc m in
  if negb ok then (-1, c, m) else (0, set_events i o c, m).

Definition refresh_client_events c m s : Z * reactor_connection * mem :=
  let readable := net_buffer_readable (cn_output c) in
  let out := (readable >? 0) && barrier_ready (cn_barrier c) s in
  let inp := negb (cn_peer_eof c) && negb (cn_close c) && negb (cn_async c) && (readable <? REACTOR_OUTPUT_HIGH_WATER) in
  connection_set_events c inp out m.

(** The condition of the loop of [process_input]. *)
Definition wants_input c : bool :=
  (net_buffer_readable (cn_input c) >? 0) && (net_buffer_readable (cn_output c) <? REACTOR_OUTPUT_HIGH_WATER) &&
  negb (cn_close c) && negb (cn_async c).

(** The loop of [process_input]; a request consumes a byte at least, so that
    the readable bytes bound the rounds. *)
Fixpoint process_loop (fuel : nat) c s : Z * reactor_connection * S :=
  match fuel with
  | O => (0, c, s)
  | Datatypes.S fuel =>
      if negb (wants_input c) then (0, c, s) else
      let available := net_buffer_readable (cn_input c) in
      let output_before := write_pos (cn_output c) in
      let '(d, s) := handler (NetBuffer.contents (cn_input c)) (cn_peer_eof c) (cn_output c) (cn_id c) s in
      let c := set_output (ds_response d) c in
      let written := write_pos (cn_output c) in
      let failed := (ds_consumed d =? 0) || (ds_consumed d >? available) || (written <? output_before) ||
                    (written - output_before >? REACTOR_MAX_RESPONSE) in
      match ds_result d with
      | REACTOR_HANDLER_INCOMPLETE => if available >? REACTOR_MAX_REQUEST then (-1, c, s) else (0, c, s)
      | REACTOR_HANDLER_ERROR => (-1, c, s)
      | REACTOR_HANDLER_DEFERRED =>
          if failed then (-1, c, s) else
          let c := set_input (net_buffer_consume (cn_input c) (ds_consumed d)) c in
          if negb (written =? output_before) || ds_close d || negb (ds_barrier d =? 0) then (-1, c, s)
          else (0, set_async true c, s)
      | REACTOR_HANDLER_COMPLETE =>
          if failed then (-1, c, s) else
          let c := set_input (net_buffer_consume (cn_input c) (ds_consumed d)) c in
          let c := raise_barrier (ds_barrier d) c in
          let c := if ds_close d then set_input (net_buffer_reset (cn_input c)) (set_close c) else c in
          process_loop fuel c s
      end
  end.

Definition process_input c s : Z * reactor_connection * S :=
  process_loop (Z.to_nat (net_buffer_readable (cn_input c)) + 1) c s.

(** The loop of [handle_read]: [Some 0] after a break, [Some (-1)] for a
    failure, [None] when the script ends. *)
Fixpoint read_loop (script : list recv_result) c m s : option Z * reactor_connection * mem * S :=
  if cn_close c || cn_async c || (net_buffer_readable (cn_output c) >=? REACTOR_OUTPUT_HIGH_WATER) then (Some 0, c, m, s) else
  let '(region, input, m) := net_buffer_write_pointer junk m (cn_input c) REACTOR_IO_CHUNK in
  let c := set_input input c in
  match region with
  | None => (Some (-1), c, m, s)
  | Some (_, capacity) =>
      let capacity := if capacity >? REACTOR_IO_CHUNK then REACTOR_IO_CHUNK else capacity in
      match script with
      | [] => (None, c, m, s)
      | Received bytes :: script =>
          let bytes := take (Z.to_nat capacity) bytes in
          let '(r, input) := net_buffer_commit (fill_region (cn_input c) bytes) (zlen bytes) in
          let c := set_input input c in
          if negb (r =? 0) then (Some (-1), c, m, s) else
          let '(r, c, s) := process_input c s in
          if negb (r =? 0) then (Some (-1), c, m, s) else read_loop script c m s
      | ReceivedEof :: _ => (Some 0, set_peer_eof c, m, s)
      | RecvEintr :: script => read_loop script c m s
      | RecvEagain :: _ => (Some 0, c, m, s)
      | RecvError :: _ => (Some (-1), c, m, s)
      end
  end.

Definition handle_read (script : list recv_result) c m s : option Z * reactor_connection * mem * S :=
  match read_loop script c m s with
  | (Some r, c, m, s) =>
      if negb (r =? 0) then (Some (-1), c, m, s) else
      let '(r, c, s) := process_input c s in
      if negb (r =? 0) then (Some (-1), c, m, s) else
      let '(r, c, m) := refresh_client_events c m s in (Some r, c, m, s)
  | (None, c, m, s) => (None, c, m, s)
  end.

(** With the bytes given to the socket. *)
Definition handle_write (script : list send_result) c m s : option Z * reactor_connection * mem * S * list Z :=
  let '(result, output, sent) := net_buffer_flush_fd script (cn_output c) in
  let c := set_output output c in
  match result with
  | None => (None, c, m, s, sent)
  | Some result =>
      if result <? 0 then (Some (-1), c, m, s, sent) else
      let c := if net_buffer_readable output =? 0 then set_barrier 0 c else c in
      if result =? 0 then let '(r, c, m) := refresh_client_events c m s in (Some r, c, m, s, sent) else
      if cn_close c then (Some (-1), c, m, s, sent) else
      let '(r, c, s) := process_input c s in
      if negb (r =? 0) then (Some (-1), c, m, s, sent) else
      if cn_peer_eof c && (net_buffer_readable (cn_output c) =? 0) then (Some (-1), c, m, s, sent) else
      let '(r, c, m) := refresh_client_events c m s in (Some r, c, m, s, sent)
  end.

(** *** The connections *)

Definition find_client (id : Z) (l : list reactor_connection) : option reactor_connection :=
  List.find (fun c => cn_id c =? id) l.

(** Writing a connection back. *)
Definition put_client c (l : list reactor_connection) : list reactor_connection :=
  map (fun x => if cn_id x =? cn_id c then c else x) l.

(** [connection_destroy] for a client *)
Definition drop_client (id : Z) (l : list reactor_connection) : list reactor_connection :=
  List.filter (fun c => negb (cn_id c =? id)) l.

Definition with_clients (l : list reactor_connection) (r : reactor S) : reactor S :=
  mk_reactor l (rx_next_id r) (rx_stopping r) (rx_sent r) (rx_mem r) (rx_state r).

Definition with_work (l : list reactor_connection) m s (r : reactor S) : reactor S :=
  mk_reactor l (rx_next_id r) (rx_stopping r) (rx_sent r) m s.

Definition note_sent (id : Z) (bytes : list Z) (r : reactor S) : reactor S :=
  mk_reactor (rx_clients r) (rx_next_id r) (rx_stopping r) (rx_sent r ++ [(id, bytes)]) (rx_mem r) (rx_state r).

(** [client_create]: [None] without memory. *)
Definition client_create (r : reactor S) : option reactor_connection * reactor S :=
  let '(ok, m) := malloc (rx_mem r) in
  if negb ok then (None, with_work (rx_clients r) m (rx_state r) r) else
  let id := wrap64 (rx_next_id r + 1) in
  let id := if id =? 0 then 1 else id in
  let '(r1, input, m) := net_buffer_init junk m REACTOR_INITIAL_BUFFER in
  let '(r2, output, m) := if negb (r1 =? 0) then (-1, input, m) else net_buffer_init junk m REACTOR_INITIAL_BUFFER in
  let r := mk_reactor (rx_clients r) id (rx_stopping r) (rx_sent r) m (rx_state r) in
  if negb (r1 =? 0) || negb (r2 =? 0) then (None, r)
  else (Some (mk_connection id true false false false false 0 input output), r).

(** [handle_accept]: [None] when the script ends. *)
Fixpoint handle_accept (script : list accept_result) (r : reactor S) : option Z * reactor S :=
  match script with
  | [] => (None, r)
  | AcceptEintr :: script => handle_accept script r
  | AcceptEagain :: _ => (Some 0, r)
  | AcceptError :: _ => (Some (-1), r)
  | Accepted nonblocking :: script =>
      if negb nonblocking then handle_accept script r else
      let '(c, r) := client_create r in
      match c with
      | None => handle_accept script r
      | Some c =>
          let '(added, m) := malloc (rx_mem r) in
          handle_accept script (with_work (if added then c :: rx_clients r else rx_clients r) m (rx_state r) r)
      end
  end.

(** *** Responses that come later *)

Definition reactor_complete_response (r : reactor S) (token : Z) (response : slice) (close_after_response : bool)
    (response_barrier : Z) : Z * reactor S :=
  match response with
  | None => (-1, r)
  | Some bytes =>
      if (token =? 0) || (zlen bytes >? REACTOR_MAX_RESPONSE) then (-1, r) else
      match find_client token (rx_clients r) with
      | None => (0, r)
      | Some c =>
          if negb (cn_async c) then (-1, r) else
          let '(appended, output, m) := net_buffer_append junk (rx_mem r) (cn_output c) (Some bytes) in
          if negb (appended =? 0) then (-1, with_work (drop_client token (rx_clients r)) m (rx_state r) r) else
          let c := raise_barrier response_barrier (set_async false (set_output output c)) in
          if close_after_response then
            (1, with_work (put_client (set_input (net_buffer_reset (cn_input c)) (set_close c)) (rx_clients r)) m (rx_state r) r)
          else
            let '(processed, c, s) := process_input c (rx_state r) in
            if negb (processed =? 0) then (-1, with_work (drop_client token (rx_clients r)) m s r)
            else (1, with_work (put_client c (rx_clients r)) m s r)
      end
  end.

(** The end of [drain_wake_fd]: the events of all clients. *)
Fixpoint refresh_all (l : list reactor_connection) m s : list reactor_connection * mem :=
  match l with
  | [] => ([], m)
  | c :: l =>
      let '(r, c, m) := refresh_client_events c m s in
      let '(l, m) := refresh_all l m s in
      (if negb (r =? 0) then l else c :: l, m)
  end.

(** *** One round of the event loop *)

(** The flags [EPOLLERR] or [EPOLLHUP], [EPOLLRDHUP], [EPOLLIN], [EPOLLOUT] of
    an event, and the answers of the system calls it leads to. *)
Record client_event : Type := mk_event {
  ev_hangup : bool; ev_rdhup : bool; ev_in : bool; ev_out : bool; ev_recv : list recv_result; ev_send : list send_result
}.

Inductive reactor_event : Type :=
| EventWake (hangup : bool)
| EventTimer (hangup : bool)
| EventListener (hangup readable : bool) (script : list accept_result)
| EventClient (id : Z) (ev : client_event).

(** How the treatment of an event ends: [reactor_run] goes on, it returns -1,
    the flush failed, the event is of a connection that is freed, or a script
    ended. *)
Inductive run_result : Type := RunOn | RunFailed | RunFlushFailed | RunDangling | RunBlocked.

Context (flush periodic : S -> Z * S) (async : reactor S -> Z * reactor S).

(** The end of the treatment of a client event. *)
Definition settle_client (c : reactor_connection) (result : Z) (r : reactor S) : reactor S :=
  if negb (result =? 0) || (cn_peer_eof c && (net_buffer_readable (cn_output c) =? 0))
  then with_clients (drop_client (cn_id c) (rx_clients r)) r
  else with_clients (put_client c (rx_clients r)) r.

Definition write_client (ev : client_event) (c : reactor_connection) (r : reactor S) : run_result * reactor S :=
  let '(flushed, s) := flush (rx_state r) in
  let r := with_work (rx_clients r) (rx_mem r) s r in
  if negb (flushed =? 0) then (RunFlushFailed, with_clients (put_client c (rx_clients r)) r) else
  let '(result, c, m, s, sent) := handle_write (ev_send ev) c (rx_mem r) s in
  let r := note_sent (cn_id c) sent (with_work (rx_clients r) m s r) in
  match result with
  | None => (RunBlocked, r)
  | Some result => (RunOn, settle_client c result r)
  end.

Definition run_client (id : Z) (ev : client_event) (r : reactor S) : run_result * reactor S :=
  match find_client id (rx_clients r) with
  | None => (RunDangling, r)
  | Some c =>
      if ev_hangup ev then (RunOn, with_clients (drop_client id (rx_clients r)) r) else
      let c := if ev_rdhup ev then set_peer_eof c else c in
      let '(result, c, m, s) := if ev_in ev then handle_read (ev_recv ev) c (rx_mem r) (rx_state r) else (Some 0, c, rx_mem r, rx_state r) in
      let r := with_work (rx_clients r) m s r in
      match result with
      | None => (RunBlocked, r)
      | Some result =>
          if (result =? 0) && ev_out ev then write_client ev c r else (RunOn, settle_client c result r)
      end
  end.

Definition run_event (ev : reactor_event) (r : reactor S) : run_result * reactor S :=
  match ev with
  | EventWake hangup =>
      if hangup then (RunFailed, r) else
      let '(result, r) := async r in
      if negb (result =? 0) then (RunFailed, r) else
      let '(l, m) := refresh_all (rx_clients r) (rx_mem r) (rx_state r) in
      (RunOn, with_work l m (rx_state r) r)
  | EventTimer hangup =>
      if hangup then (RunFailed, r) else
      let '(result, s) := periodic (rx_state r) in
      (if negb (result =? 0) then RunFailed else RunOn, with_work (rx_clients r) (rx_mem r) s r)
  | EventListener hangup readable script =>
      if hangup then (RunFailed, r) else
      if negb readable then (RunOn, r) else
      let '(result, r) := handle_accept script r in
      (match result with None => RunBlocked | Some result => if negb (result =? 0) then RunFailed else RunOn end, r)
  | EventClient id ev => run_client id ev r
  end.

(** The events of one [epoll_wait]. *)
Fixpoint run_events (l : list reactor_event) (r : reactor S) : run_result * reactor S :=
  match l with
  | [] => (RunOn, r)
  | ev :: l =>
      match run_event ev r with
      | (RunOn, r) => run_events l r
      | (result, r) => (result, r)
      end
  end.

(** One round of [reactor_run]. *)
Definition reactor_round (l : list reactor_event) (r : reactor S) : run_result * reactor S :=
  match run_events l r with
  | (RunOn, r) =>
      let '(flushed, s) := flush (rx_state r) in
      (RunOn, with_work (if negb (flushed =? 0) then [] else rx_clients r) (rx_mem r) s r)
  | (RunFlushFailed, r) => (RunOn, with_clients [] r)
  | (result, r) => (result, r)
  end.

(** [reactor_run], with the events of the successive calls of [epoll_wait]. *)
Fixpoint reactor_run (rounds : list (list reactor_event)) (r : reactor S) : run_result * reactor S :=
  match rounds with
  | [] => (RunOn, r)
  | l :: rounds =>
      if rx_stopping r then (RunOn, r) else
      match reactor_round l r with
      | (RunOn, r) => reactor_run rounds r
      | (result, r) => (result, r)
      end
  end.
End Connection.

Definition reactor_stop {S} (r : reactor S) : reactor S :=
  mk_reactor (rx_clients r) (rx_next_id r) true (rx_sent r) (rx_mem r) (rx_state r).
