(* ===== verification/App.v ===== *)
(** The request handler of [src/app/main.c]: replies are encoded into the
    buffer of a connection; with a database, a request for a key that is not in
    the cache waits for a load ([dispatch_request]), keys the database does not
    have are remembered for a while (the negative cache), and keys with
    mutations that are not applied yet are dirty.  The completions of loads,
    which call back into the reactor, are in [Server].

    The handler is a state monad over the state of the service and the tables
    of the application.  A pending request is a pointer to the table
    [ap_requests]; it is also the context of a waiter of the store.  The
    application and the service use the same store. *)

From S2P Require Import Prelude NetBuffer Reactor Resp HashTable ZOrder Object ExpireHeap LruList Cache.
From S2P Require Import Rdb Aof Double MysqlStore CommandText Service.

(** ** Replies *)

(** The bytes that [encode_reply] asks the buffer for. *)
Fixpoint array_required (required : Z) (elements : list (list Z)) : option Z :=
  match elements with
  | [] => Some required
  | e :: elements =>
      if (required >? SIZE_MAX - 64) || (zlen e >? SIZE_MAX - required - 64) then None
      else array_required (required + (zlen e + 64)) elements
  end.

Definition reply_required (reply : kvstore_reply) : option Z :=
  match reply with
  | REPLY_SIMPLE data | REPLY_ERROR data => if zlen data >? SIZE_MAX - 3 then None else Some (zlen data + 3)
  | REPLY_BULK data => if zlen data >? SIZE_MAX - 64 then None else Some (zlen data + 64)
  | REPLY_NULL_BULK => Some 5
  | REPLY_ARRAY elements => array_required 64 elements
  | REPLY_INTEGER _ => Some 32
  end.

(** The string a pointer to the bytes and a final NUL stands for. *)
Fixpoint c_string (data : list Z) : list Z :=
  match data with
  | [] => []
  | b :: data => if b =? 0 then [] else b :: c_string data
  end.

(** The bytes written to a region of the given capacity; the texts of simple
    strings and errors are passed as C strings. *)
Definition reply_encoding (capacity : Z) (reply : kvstore_reply) : option (list Z) :=
  match reply with
  | REPLY_SIMPLE data => resp_encode_simple_string capacity (c_string data)
  | REPLY_ERROR data => resp_encode_error capacity (c_string data)
  | REPLY_INTEGER n => resp_encode_integer capacity n
  | REPLY_BULK data => resp_encode_bulk_string capacity (Some data)
  | REPLY_NULL_BULK => resp_encode_null_bulk_string capacity
  | REPLY_ARRAY elements =>
      let header := [42] ++ decimal (zlen elements) ++ [CR; LF] in
      if zlen header >=? capacity then None
      else (app header) <$> encode_elements capacity (zlen header) (Some <$> elements)
  end.

Section Encode.
Variable junk : Z.

Definition encode_reply (m : mem) (reply : kvstore_reply) (response : net_buffer) : Z * net_buffer * mem :=
  match reply_required reply with
  | None => (-1, response, m)
  | Some required =>
      let '(region, response, m) := net_buffer_write_pointer junk m response required in
      match region with
      | None => (-1, response, m)
      | Some (_, capacity) =>
          match reply_encoding capacity reply with
          | None => (-1, response, m)
          | Some encoded =>
              let '(r, response) := net_buffer_commit (fill_region response encoded) (zlen encoded) in
              (r, response, m)
          end
      end
  end.
End Encode.

(** ** State *)

Record mysql_load_state : Type := mk_load_state { ls_generation : Z; ls_waiters : Z }.

Record mysql_pending_request : Type := mk_pending {
  pq_token : Z; pq_arguments : list (list Z); pq_generation : Z; pq_registered : bool
}.

(** The requests that wait for dirty keys are the chain from [dirty_wait_head];
    [ap_tail] is [dirty_wait_tail].  [ap_fresh] is the next pointer. *)
Record app_context (A : Type) : Type := mk_app {
  ap_world : world A;
  ap_negative : option (hashtable Z);
  ap_dirty : option (hashtable Z);
  ap_loads : option (hashtable mysql_load_state);
  ap_requests : gmap Z mysql_pending_request;
  ap_fresh : Z;
  ap_waiting : list Z;
  ap_tail : option Z;
  ap_ttl : Z;
  ap_capacity : Z
}.

Arguments mk_app {A}.
Arguments ap_world {A}.
Arguments ap_negative {A}.
Arguments ap_dirty {A}.
Arguments ap_loads {A}.
Arguments ap_requests {A}.
Arguments ap_fresh {A}.
Arguments ap_waiting {A}.
Arguments ap_tail {A}.
Arguments ap_ttl {A}.
Arguments ap_capacity {A}.

Definition app_cmd (A T : Type) : Type := app_context A -> T * app_context A.

#[export] Instance app_ret A : MRet (app_cmd A) := fun T x a => (x, a).

#[export] Instance app_bind A : MBind (app_cmd A) := fun T U k c a => let '(x, a) := c a in k x a.

Section App.
Context {A : Type} `{LogOps A} (admin : persistence_admin (A := A)) (junk : Z).

(** The part of [main] that creates the tables and attaches the store. *)
Definition open_app (w : world A) (store : mysql_store) (writer_uuid : list Z) (start_sequence ttl capacity : Z)
    : option (app_context A) :=
  match kv_hash_create (w_mem w) with
  | (None, _) => None
  | (Some negative, m) =>
      match kv_hash_create m with
      | (None, _) => None
      | (Some dirty, m) =>
          match kv_hash_create m with
          | (None, _) => None
          | (Some loads, m) =>
              let service := kvstore_service_attach_mysql (Some store) (Some writer_uuid) start_sequence (w_service w) in
              Some (mk_app (mk_world m (w_now w) (w_ticks w) service) (Some negative) (Some dirty) (Some loads)
                      ∅ 0 [] None ttl capacity)
          end
      end
  end.

Definition get_app : app_cmd A (app_context A) := fun a => (a, a).

Definition put_world (w : world A) (a : app_context A) : app_context A :=
  mk_app w (ap_negative a) (ap_dirty a) (ap_loads a) (ap_requests a) (ap_fresh a) (ap_waiting a) (ap_tail a) (ap_ttl a)
    (ap_capacity a).

Definition on_service {T} (c : cmd A T) : app_cmd A T := fun a =>
  let '(x, w) := c (ap_world a) in (x, put_world w a).

Definition set_negative (h : hashtable Z) : app_cmd A unit := fun a =>
  (tt, mk_app (ap_world a) (Some h) (ap_dirty a) (ap_loads a) (ap_requests a) (ap_fresh a) (ap_waiting a) (ap_tail a)
         (ap_ttl a) (ap_capacity a)).

Definition set_dirty (h : hashtable Z) : app_cmd A unit := fun a =>
  (tt, mk_app (ap_world a) (ap_negative a) (Some h) (ap_loads a) (ap_requests a) (ap_fresh a) (ap_waiting a) (ap_tail a)
         (ap_ttl a) (ap_capacity a)).

Definition set_loads (h : hashtable mysql_load_state) : app_cmd A unit := fun a =>
  (tt, mk_app (ap_world a) (ap_negative a) (ap_dirty a) (Some h) (ap_requests a) (ap_fresh a) (ap_waiting a) (ap_tail a)
         (ap_ttl a) (ap_capacity a)).

Definition set_requests (r : gmap Z mysql_pending_request) (fresh : Z) : app_cmd A unit := fun a =>
  (tt, mk_app (ap_world a) (ap_negative a) (ap_dirty a) (ap_loads a) r fresh (ap_waiting a) (ap_tail a) (ap_ttl a)
         (ap_capacity a)).

Definition set_waiting (l : list Z) : app_cmd A unit := fun a =>
  (tt, mk_app (ap_world a) (ap_negative a) (ap_dirty a) (ap_loads a) (ap_requests a) (ap_fresh a) l (ap_tail a) (ap_ttl a)
         (ap_capacity a)).

Definition set_tail (t : option Z) : app_cmd A unit := fun a =>
  (tt, mk_app (ap_world a) (ap_negative a) (ap_dirty a) (ap_loads a) (ap_requests a) (ap_fresh a) (ap_waiting a) t (ap_ttl a)
         (ap_capacity a)).

Definition alloc : app_cmd A bool := on_service (allocating malloc).

(** ** The negative cache *)

Definition negative_cache_invalidate (key : list Z) : app_cmd A unit :=
  a ← get_app;
  match ap_negative a with
  | None => mret tt
  | Some h =>
      let h := (kv_hash_rehash_step h 1).2 in
      set_negative (kv_hash_remove h (Some key)).2
  end.

Definition negative_cache_contains (key : list Z) : app_cmd A bool :=
  a ← get_app;
  match ap_negative a with
  | None => mret false
  | Some h =>
      let h := (kv_hash_rehash_step h 1).2 in
      set_negative h ;;
      match kv_hash_find h (Some key) with
      | None => mret false
      | Some node =>
          now ← on_service current_time;
          if npayload node >? now then mret true else
          set_negative (kv_hash_remove_node h (Some node)).2 ;; mret false
      end
  end.

Definition negative_deadline (now ttl : Z) : Z := if now >? UINT64_MAX - ttl then UINT64_MAX else now + ttl.

(** When the table is full, the first entry of an iteration makes room. *)
Definition negative_make_room (capacity : Z) (h : hashtable Z) : hashtable Z :=
  if kv_hash_count h >=? capacity then
    match kv_hash_iterator_next h kv_hash_iterator_begin with
    | (Some victim, _) => (kv_hash_remove_node h (Some victim)).2
    | (None, _) => h
    end
  else h.

Definition negative_cache_add (key : list Z) : app_cmd A Z :=
  a ← get_app;
  match ap_negative a with
  | None => mret 0
  | Some h =>
      if (ap_capacity a =? 0) || (ap_ttl a =? 0) then mret 0 else
      let h := (kv_hash_rehash_step h 1).2 in
      set_negative h ;;
      now ← on_service current_time;
      match kv_hash_find h (Some key) with
      | Some node =>
          set_negative (kv_hash_node_set_payload h (Some node) (negative_deadline now (ap_ttl a))) ;; mret 0
      | None =>
          let h := negative_make_room (ap_capacity a) h in
          set_negative h ;;
          ok ← alloc;
          if negb ok then mret (-1) else
          '(r, h) ← on_service (allocating (fun m =>
            let '(r, _, h, m) := kv_hash_insert m h (Some key) (negative_deadline now (ap_ttl a)) in (r, h, m)));
          set_negative h ;;
          mret (if negb (r =? 0) then -1 else 0)
      end
  end.

(** ** Loads in flight *)

Definition bump_inflight_load_generation (key : list Z) : app_cmd A unit :=
  a ← get_app;
  match ap_loads a with
  | None => mret tt
  | Some h =>
      match kv_hash_find h (Some key) with
      | None => mret tt
      | Some node =>
          let state := npayload node in
          set_loads (kv_hash_node_set_payload h (Some node) (mk_load_state (wrap64 (ls_generation state + 1)) (ls_waiters state)))
      end
  end.

Definition update_request (p : Z) (f : mysql_pending_request -> mysql_pending_request) : app_cmd A unit :=
  a ← get_app; set_requests (alter f p (ap_requests a)) (ap_fresh a).

Definition pending_key (p : Z) (a : app_context A) : list Z :=
  match ap_requests a !! p with Some q => arg (pq_arguments q) 1 | None => [] end.

Definition register_pending_load (p : Z) : app_cmd A Z :=
  a ← get_app;
  let key := pending_key p a in
  match ap_loads a with
  | None => _ ← alloc; mret (-1)
  | Some h =>
      let h := (kv_hash_rehash_step h 1).2 in
      set_loads h ;;
      found ← (match kv_hash_find h (Some key) with
               | Some node => mret (Some (node, h))
               | None =>
                   ok ← alloc;
                   if negb ok then mret None else
                   '(node, h) ← on_service (allocating (fun m =>
                     let '(r, node, h, m) := kv_hash_insert m h (Some key) (mk_load_state 0 0) in
                     (if negb (r =? 0) then None else node, h, m)));
                   set_loads h ;;
                   mret ((fun node => (node, h)) <$> node)
               end);
      match found with
      | None => mret (-1)
      | Some (node, h) =>
          let state := npayload node in
          if ls_waiters state =? SIZE_MAX then mret (-1) else
          update_request p (fun q => mk_pending (pq_token q) (pq_arguments q) (ls_generation state) true) ;;
          set_loads (kv_hash_node_set_payload h (Some node) (mk_load_state (ls_generation state) (ls_waiters state + 1))) ;;
          mret 0
      end
  end.

Definition pending_load_is_stale (p : Z) : app_cmd A bool :=
  a ← get_app;
  match ap_requests a !! p, ap_loads a with
  | Some q, Some h =>
      if negb (pq_registered q) then mret false else
      match kv_hash_find h (Some (arg (pq_arguments q) 1)) with
      | None => mret true
      | Some node => mret (negb (ls_generation (npayload node) =? pq_generation q))
      end
  | _, _ => mret false
  end.

Definition unregister_pending_load (p : Z) : app_cmd A unit :=
  a ← get_app;
  match ap_requests a !! p, ap_loads a with
  | Some q, Some h =>
      if negb (pq_registered q) then mret tt else
      update_request p (fun q => mk_pending (pq_token q) (pq_arguments q) (pq_generation q) false) ;;
      match kv_hash_find h (Some (arg (pq_arguments q) 1)) with
      | None => mret tt
      | Some node =>
          let state := npayload node in
          let waiters := if ls_waiters state >? 0 then ls_waiters state - 1 else ls_waiters state in
          if waiters =? 0 then set_loads (kv_hash_remove_node h (Some node)).2
          else set_loads (kv_hash_node_set_payload h (Some node) (mk_load_state (ls_generation state) waiters))
      end
  | _, _ => mret tt
  end.

(** The copy of a request, [None] without memory. *)
Definition pending_request_copy (token : Z) (arguments : list (list Z)) : app_cmd A (option Z) :=
  if zlen arguments >? RESP_MAX_ARGUMENTS then mret None else
  match payload_bytes arguments with
  | None => mret None
  | Some _ =>
      ok ← alloc;
      if negb ok then mret None else
      ok ← alloc;
      if negb ok then mret None else
      a ← get_app;
      set_requests (<[ap_fresh a := mk_pending token arguments 0 false]> (ap_requests a)) (ap_fresh a + 1) ;;
      mret (Some (ap_fresh a))
  end.

Definition free_request (p : Z) : app_cmd A unit :=
  a ← get_app; set_requests (delete p (ap_requests a)) (ap_fresh a).

Definition pending_request_destroy (p : Z) : app_cmd A unit := unregister_pending_load p ;; free_request p.

(** ** Dirty keys *)

Definition store_stats : app_cmd A mysql_store_stats :=
  a ← get_app;
  mret (match sv_mysql (w_service (ap_world a)) with Some s => mysql_store_get_stats s | None => no_mysql_stats end).

Definition dirty_key_sequence (key : list Z) : app_cmd A Z :=
  a ← get_app;
  match ap_dirty a with
  | None => mret 0
  | Some h =>
      let h := (kv_hash_rehash_step h 1).2 in
      set_dirty h ;;
      match kv_hash_find h (Some key) with
      | None => mret 0
      | Some node =>
          stats ← store_stats;
          if npayload node <=? ms_applied stats then set_dirty (kv_hash_remove_node h (Some node)).2 ;; mret 0
          else mret (npayload node)
      end
  end.

Definition mark_dirty_key (key : list Z) (sequence : Z) : app_cmd A Z :=
  a ← get_app;
  match ap_dirty a with
  | None => mret 0
  | Some h =>
      if sequence =? 0 then mret 0 else
      bump_inflight_load_generation key ;;
      let h := (kv_hash_rehash_step h 1).2 in
      set_dirty h ;;
      match kv_hash_find h (Some key) with
      | Some node =>
          if sequence >? npayload node then set_dirty (kv_hash_node_set_payload h (Some node) sequence) ;; mret 0
          else mret 0
      | None =>
          ok ← alloc;
          if negb ok then mret (-1) else
          '(r, h) ← on_service (allocating (fun m =>
            let '(r, _, h, m) := kv_hash_insert m h (Some key) sequence in (r, h, m)));
          set_dirty h ;;
          mret (if negb (r =? 0) then -1 else 0)
      end
  end.

(** The tail can be a request that is not in the chain any more, while the
    last one is being completed: what is linked to it is not reached from the
    head. *)
Definition queue_dirty_waiter (p : Z) : app_cmd A unit :=
  a ← get_app;
  match ap_tail a with
  | None => set_waiting [p]
  | Some t => if bool_decide (last (ap_waiting a) = Some t) then set_waiting (ap_waiting a ++ [p]) else mret tt
  end ;;
  set_tail (Some p).

(** The iteration of [purge_applied_dirty_keys]; the iterator stands on the
    node after the one that is removed. *)
Fixpoint purge_loop (budget : nat) (applied : Z) (h : hashtable Z) (it : kv_hash_iterator) : hashtable Z :=
  match budget with
  | O => h
  | S budget =>
      match kv_hash_iterator_next h it with
      | (None, _) => h
      | (Some node, it) =>
          purge_loop budget applied (if npayload node <=? applied then (kv_hash_remove_node h (Some node)).2 else h) it
      end
  end.

Definition purge_applied_dirty_keys (budget : Z) : app_cmd A unit :=
  a ← get_app;
  match sv_mysql (w_service (ap_world a)), ap_dirty a with
  | Some store, Some h =>
      let h := (kv_hash_rehash_step h (if budget =? 0 then 1 else budget)).2 in
      set_dirty (purge_loop (Z.to_nat budget) (ms_applied (mysql_store_get_stats store)) h kv_hash_iterator_begin)
  | _, _ => mret tt
  end.

(** ** Requests *)

Definition ERR_READ_QUEUE : kvstore_reply := REPLY_ERROR (lit "TRYAGAIN MySQL read queue is full").
Definition ERR_BACKEND : kvstore_reply := REPLY_ERROR (lit "ERR MySQL backend unavailable").
Definition ERR_LOAD_SIZE : kvstore_reply := REPLY_ERROR (lit "ERR MySQL object exceeds load limit").
Definition ERR_BACKEND_DATA : kvstore_reply := REPLY_ERROR (lit "ERR MySQL backend data error").
Definition ERR_PROTOCOL : list Z := lit "ERR Protocol error".

Definition named (arguments : list (list Z)) (names : list string) : bool :=
  existsb (fun name => argument_equals (arg arguments 0) (lit name)) names.

(** [pending_request_is_write] and [write_command]. *)
Definition names_write (arguments : list (list Z)) : bool :=
  (2 <=? zlen arguments) &&
  named arguments ["SET"; "DEL"; "EXPIRE"; "PEXPIRE"; "PERSIST"; "HSET"; "HDEL"; "ZADD"; "ZREM"].

(** [key_command] *)
Definition names_key (arguments : list (list Z)) : bool :=
  named arguments
    ["SET"; "GET"; "DEL"; "EXPIRE"; "PEXPIRE"; "TTL"; "PTTL"; "PERSIST"; "HSET"; "HGET"; "HDEL"; "HLEN"; "HGETALL";
     "ZADD"; "ZREM"; "ZSCORE"; "ZCARD"; "ZRANGE"].

(** [cache_get_object] without counting an access. *)
Definition cached (key : list Z) : app_cmd A bool :=
  '(_, o) ← on_service (get_object key false); mret (is_Some_bool o).

Definition submit_load (p : Z) : app_cmd A Z :=
  a ← get_app;
  on_service (fun w =>
    match sv_mysql (w_service w) with
    | None => (-1, w)
    | Some store =>
        let '(r, store, m) := mysql_store_submit_load (w_mem w) store (Some (pending_key p a)) p in
        (r, mk_world m (w_now w) (w_ticks w) (put_mysql (Some store) (w_service w)))
    end).

(** A load for the request; [false]: it was not accepted. *)
Definition start_load (p : Z) : app_cmd A bool :=
  r ← register_pending_load p;
  if negb (r =? 0) then mret false else
  r ← submit_load p; mret (negb (r <? 0)).

Definition encode_into (reply : kvstore_reply) (response : net_buffer) : app_cmd A (Z * net_buffer) :=
  on_service (allocating (fun m => let '(r, b, m) := encode_reply junk m reply response in (r, b, m))).

(** The end of a request that was executed: the reply, its barrier and whether
    the key is dirty now. *)
Definition execute_and_mark (arguments : list (list Z)) (write : bool) : app_cmd A (option (kvstore_reply * Z)) :=
  a ← get_app;
  let before := sv_next_sequence (w_service (ap_world a)) in
  '(reply, barrier) ← on_service (kvstore_service_execute_with_barrier admin arguments);
  match reply with
  | None => mret None
  | Some reply =>
      a ← get_app;
      let after := sv_next_sequence (w_service (ap_world a)) in
      if write && (after >? before) then
        r ← mark_dirty_key (arg arguments 1) after;
        mret (if negb (r =? 0) then None else Some (reply, barrier))
      else mret (Some (reply, barrier))
  end.

Definition protocol_error (response : net_buffer) (input_length consumed : Z) : app_cmd A dispatched :=
  '(region, response) ← on_service (allocating (fun m =>
    let '(region, b, m) := net_buffer_write_pointer junk m response 64 in (region, b, m)));
  let failed := mk_dispatched REACTOR_HANDLER_ERROR response consumed false 0 in
  match region with
  | None => mret failed
  | Some (_, capacity) =>
      match resp_encode_error capacity ERR_PROTOCOL with
      | None => mret failed
      | Some encoded =>
          let '(r, response) := net_buffer_commit (fill_region response encoded) (zlen encoded) in
          if negb (r =? 0) then mret (mk_dispatched REACTOR_HANDLER_ERROR response consumed false 0)
          else mret (mk_dispatched REACTOR_HANDLER_COMPLETE response input_length true 0)
      end
  end.

(** The request for a key that is not cached; [None]: it is executed now. *)
Definition defer_request (token : Z) (arguments : list (list Z)) (response : net_buffer) (consumed : Z)
  : app_cmd A dispatched :=
  p ← pending_request_copy token arguments;
  match p with
  | None => mret (mk_dispatched REACTOR_HANDLER_ERROR response consumed false 0)
  | Some p =>
      q ← dirty_key_sequence (arg arguments 1);
      if negb (q =? 0) then
        queue_dirty_waiter p ;; mret (mk_dispatched REACTOR_HANDLER_DEFERRED response consumed false 0) else
      started ← start_load p;
      if (started : bool) then mret (mk_dispatched REACTOR_HANDLER_DEFERRED response consumed false 0) else
      unregister_pending_load p ;;
      free_request p ;;
      '(r, response) ← encode_into ERR_READ_QUEUE response;
      mret (mk_dispatched (if negb (r =? 0) then REACTOR_HANDLER_ERROR else REACTOR_HANDLER_COMPLETE) response consumed false 0)
  end.

(** The decision to wait for the database. *)
Definition must_load (arguments : list (list Z)) : app_cmd A bool :=
  let key := arg arguments 1 in
  negative_hit ← (if names_key arguments then negative_cache_contains key else mret false);
  (if names_write arguments then negative_cache_invalidate key else mret tt) ;;
  (if (negative_hit : bool) then on_service (modify (fun s => put_mysql (mysql_store_note_negative_hit <$> sv_mysql s) s)) else mret tt) ;;
  if names_key arguments && negb (named arguments ["SET"]) && negb negative_hit then
    hit ← cached key; mret (negb hit)
  else mret false.

Definition dispatch_request (input : list Z) (end_of_stream : bool) (response : net_buffer) (token : Z)
  : app_cmd A dispatched :=
  let '(parsed, slices, consumed) := resp_parse_request (Some input) end_of_stream in
  match parsed with
  | RESP_PARSE_INCOMPLETE => mret (mk_dispatched REACTOR_HANDLER_INCOMPLETE response consumed false 0)
  | RESP_PARSE_ERROR => protocol_error response (zlen input) consumed
  | RESP_PARSE_COMPLETE =>
      let arguments := slice_bytes input <$> slices in
      a ← get_app;
      let database := is_Some_bool (sv_mysql (w_service (ap_world a))) && (2 <=? zlen arguments) in
      defer ← (if database then must_load arguments else mret false);
      if (defer : bool) then defer_request token arguments response consumed else
      result ← execute_and_mark arguments (database && names_write arguments);
      match result with
      | None => mret (mk_dispatched REACTOR_HANDLER_ERROR response consumed false 0)
      | Some (reply, barrier) =>
          '(r, response) ← encode_into reply response;
          mret (mk_dispatched (if negb (r =? 0) then REACTOR_HANDLER_ERROR else REACTOR_HANDLER_COMPLETE) response consumed false barrier)
      end
  end.

End App.
