(* ===== verification/AppFrames.v ===== *)
(** What the commands of the service leave alone: the loads of the database
    store.  A command can queue a mutation, but only the request handler submits
    loads and takes their results. *)

From S2P Require Import Prelude NetBuffer Resp HashTable ZOrder Object ExpireHeap LruList Cache.
From S2P Require Import Rdb Aof Double MysqlStore CommandText Service.

Create HintDb keeps.

Section Frames.
Context {A : Type} `{LogOps A}.

(** The jobs in flight and the results of the store, [None] without a store. *)
Definition loads_view (w : world A) : option (list mysql_load_job * list mysql_store_load_result) :=
  (fun s => (my_inflight s, my_completed s)) <$> sv_mysql (w_service w).

Definition keeps {T} (c : cmd A T) : Prop := forall w, loads_view (c w).2 = loads_view w.

Lemma keeps_ret {T} (x : T) : keeps (mret x : cmd A T).
Proof. done. Qed.

Lemma keeps_bind {T U} (c : cmd A T) (k : T -> cmd A U) : keeps c -> (forall x, keeps (k x)) -> keeps (c ≫= k).
Proof.
  intros Hc Hk w. unfold mbind, cmd_bind. specialize (Hc w). destruct (c w) as [x w1]. rewrite (Hk x w1). exact Hc.
Qed.

Lemma keeps_ask : keeps ask.
Proof. done. Qed.

Lemma keeps_modify f : (forall s, sv_mysql (f s) = sv_mysql s) -> keeps (modify (A := A) f).
Proof. intros Hf w. unfold loads_view. cbn. by rewrite Hf. Qed.

Lemma keeps_allocating {T} (f : mem -> T * mem) : keeps (allocating f).
Proof. intros w. unfold allocating. by destruct (f (w_mem w)). Qed.

Lemma keeps_current_time : keeps current_time.
Proof. done. Qed.

Lemma keeps_cache_run {T} (f : mem -> cache -> T * cache * mem) : keeps (cache_run f).
Proof. intros w. unfold cache_run. by destruct (f _ _) as [[x c] m]. Qed.

#[local] Hint Resolve keeps_ret keeps_ask keeps_allocating keeps_current_time keeps_cache_run : keeps.
#[local] Hint Extern 1 (keeps (modify _)) => (apply keeps_modify; intros; reflexivity) : keeps.

Ltac solve_keeps :=
  repeat first
    [ progress intros
    | solve [eauto with keeps]
    | match goal with
      | |- keeps (mbind _ _) => apply keeps_bind
      | |- keeps (if ?x then _ else _) => destruct x
      | |- keeps (match ?x with _ => _ end) => destruct x
      end ].

(** *** The log and the cache *)

Lemma keeps_capture arguments : keeps (capture_mysql_mutation arguments).
Proof. unfold capture_mysql_mutation. solve_keeps. Qed.
#[local] Hint Resolve keeps_capture : keeps.

Lemma keeps_append_to_log arguments : keeps (append_to_log arguments).
Proof. intros w. unfold append_to_log. destruct (sv_aof _); [|done]. by destruct (log_append _ _ _) as [[r a'] m]. Qed.
#[local] Hint Resolve keeps_append_to_log : keeps.

Lemma keeps_append_record arguments : keeps (append_aof_record arguments).
Proof. unfold append_aof_record. solve_keeps. Qed.
#[local] Hint Resolve keeps_append_record : keeps.

Lemma keeps_when_logging c : keeps c -> keeps (when_logging c).
Proof. intros Hc. unfold when_logging. solve_keeps. Qed.
#[local] Hint Resolve keeps_when_logging : keeps.

Lemma keeps_append_key command key : keeps (append_key_command command key).
Proof. unfold append_key_command. auto with keeps. Qed.

Lemma keeps_append_deadline command key deadline : keeps (append_deadline_command command key deadline).
Proof. unfold append_deadline_command. auto with keeps. Qed.

Lemma keeps_append_set arguments deadline : keeps (append_set_command arguments deadline).
Proof. unfold append_set_command. auto with keeps. Qed.

Lemma keeps_append_original arguments : keeps (append_original_command arguments).
Proof. unfold append_original_command. apply keeps_when_logging. solve_keeps. Qed.

Lemma keeps_append_marker sequence : keeps (append_mysql_marker sequence).
Proof. unfold append_mysql_marker. solve_keeps. Qed.
#[local] Hint Resolve keeps_append_key keeps_append_deadline keeps_append_set keeps_append_original keeps_append_marker : keeps.

Lemma keeps_record_evictions keys : keeps (record_evictions keys).
Proof. induction keys; cbn [record_evictions]; solve_keeps. Qed.
#[local] Hint Resolve keeps_record_evictions : keeps.

Lemma keeps_on_cache {T} (f : mem -> Z -> cache -> T * cache * mem) : keeps (on_cache f).
Proof. unfold on_cache. solve_keeps. Qed.
#[local] Hint Resolve keeps_on_cache : keeps.

Lemma keeps_on_cache_twice {T} (f : mem -> Z -> Z -> cache -> T * cache * mem) : keeps (on_cache_twice f).
Proof. unfold on_cache_twice. solve_keeps. Qed.
#[local] Hint Resolve keeps_on_cache_twice : keeps.

Lemma keeps_on_cache_pure {T} (f : Z -> cache -> T * cache) : keeps (on_cache_pure f).
Proof. apply keeps_on_cache. Qed.
#[local] Hint Resolve keeps_on_cache_pure : keeps.

Lemma keeps_write_object p o : keeps (write_object p o).
Proof. unfold write_object. auto with keeps. Qed.

Lemma keeps_read_object p : keeps (read_object p).
Proof. unfold read_object. solve_keeps. Qed.
#[local] Hint Resolve keeps_write_object keeps_read_object : keeps.

Lemma keeps_get_object key record : keeps (get_object key record).
Proof. unfold get_object. solve_keeps. Qed.

Lemma keeps_get_hash_object key record : keeps (get_hash_object key record).
Proof. unfold get_hash_object. solve_keeps. Qed.
#[local] Hint Resolve keeps_get_object keeps_get_hash_object : keeps.

(** *** Commands *)

Lemma keeps_reserve_elements count : keeps (reserve_reply_elements count).
Proof. unfold reserve_reply_elements. solve_keeps. Qed.

Lemma keeps_reserve_score bytes : keeps (reserve_score_buffer bytes).
Proof. unfold reserve_score_buffer. solve_keeps. Qed.
#[local] Hint Resolve keeps_reserve_elements keeps_reserve_score : keeps.

Lemma keeps_answer_count result append : keeps append -> keeps (answer_count result append).
Proof. intros Ha. unfold answer_count. solve_keeps. Qed.
#[local] Hint Resolve keeps_answer_count : keeps.

Lemma keeps_working create original count : keeps (working_object create original count).
Proof. unfold working_object. solve_keeps. Qed.

Lemma keeps_finish_update arguments p working in_place changed added : keeps (finish_update arguments p working in_place changed added).
Proof. unfold finish_update. solve_keeps. Qed.

Lemma keeps_commit p copied o : keeps (commit_in_place p copied o).
Proof. unfold commit_in_place. solve_keeps. Qed.

Lemma keeps_finish_removal arguments p length removed : keeps (finish_removal arguments p length removed).
Proof. unfold finish_removal. solve_keeps. Qed.

Lemma keeps_collect_range o start stop with_scores : keeps (collect_range o start stop with_scores).
Proof. unfold collect_range. solve_keeps. Qed.
#[local] Hint Resolve keeps_working keeps_finish_update keeps_commit keeps_finish_removal keeps_collect_range : keeps.

(** The callbacks of the persistence administration leave the loads alone. *)
Record admin_keeps (admin : persistence_admin) : Prop := {
  ak_save : forall f background, pa_save admin = Some f -> keeps (f background);
  ak_lastsave : forall f, pa_lastsave admin = Some f -> keeps f;
  ak_get_info : forall f x, pa_get_info admin = Some f -> keeps (f x)
}.

Context (admin : persistence_admin) (Hadmin : admin_keeps admin).

Lemma keeps_admin {T} (k : persistence_admin -> cmd A T) :
  keeps (k admin) -> keeps (k (mk_admin None None None)) -> keeps (current_admin admin ≫= k).
Proof. intros H1 H2 w. unfold current_admin, mbind, cmd_bind, ask, mret, cmd_ret. cbn. destruct (sv_admin _); [apply H1|apply H2]. Qed.

Lemma keeps_administration background :
  keeps (execute_persistence_info admin) /\ keeps (execute_save_command admin background) /\ keeps (execute_lastsave admin).
Proof.
  destruct Hadmin as [A1 A2 A3]. unfold execute_persistence_info, execute_save_command, execute_lastsave. split_and!.
  - apply keeps_bind; [apply keeps_ask|intros s]. apply keeps_admin; cbn [pa_get_info]; [|solve_keeps]. destruct (pa_get_info admin) eqn:E; solve_keeps.
  - apply keeps_admin; cbn [pa_save]; [|solve_keeps]. destruct (pa_save admin) eqn:E; solve_keeps.
  - apply keeps_admin; cbn [pa_lastsave]; [|solve_keeps]. destruct (pa_lastsave admin) eqn:E; solve_keeps.
Qed.

Lemma keeps_dispatch command arguments : keeps (dispatch admin command arguments).
Proof.
  destruct (keeps_administration true) as (A1 & A2 & A3). destruct (keeps_administration false) as (_ & A4 & _).
  destruct command; cbn [dispatch]; unfold execute_set, execute_get, execute_delete, execute_ping, execute_expire, execute_ttl, execute_persist,
    execute_info_command, execute_info, execute_mysql_info, execute_dbsize, execute_hset, execute_hget, execute_hdel, execute_hlen, execute_hgetall,
    execute_zadd, execute_zrem, execute_zscore, execute_zcard, execute_zrange; solve_keeps.
Qed.
#[local] Hint Resolve keeps_dispatch : keeps.

Lemma keeps_execute_command command arguments : keeps (execute_command admin command arguments).
Proof. unfold execute_command. solve_keeps. Qed.

(** *** Transactions *)

Lemma keeps_begin : keeps begin_transaction.
Proof. intros w. unfold begin_transaction. destruct (sv_aof _); [|done]. by destruct (log_begin _). Qed.

Lemma keeps_rollback : keeps rollback_transaction.
Proof. unfold rollback_transaction. solve_keeps. Qed.

Lemma keeps_commit_transaction : keeps commit_transaction.
Proof. intros w. unfold commit_transaction. destruct (sv_aof _); [|done]. by destruct (log_commit _ _) as [[[r q] a'] m]. Qed.

(** A mutation joins the writes of the store. *)
Lemma keeps_submit_mutation bytes : keeps (submit_mutation bytes).
Proof.
  intros w. unfold submit_mutation, loads_view. destruct (sv_mysql (w_service w)) as [s|] eqn:E; [|cbn; by rewrite E]. unfold mysql_store_submit_mutation.
  repeat (case_match; try (cbn; rewrite ?E; reflexivity)); simplify_eq; done.
Qed.
#[local] Hint Resolve keeps_execute_command keeps_begin keeps_rollback keeps_commit_transaction keeps_submit_mutation : keeps.

Lemma keeps_admit arguments : keeps (admit_mysql arguments).
Proof. unfold admit_mysql. solve_keeps. Qed.

Lemma keeps_finish_write mysql_write bytes reply : keeps (finish_write mysql_write bytes reply).
Proof. unfold finish_write. solve_keeps. Qed.
#[local] Hint Resolve keeps_admit keeps_finish_write : keeps.

Lemma keeps_maintain : keeps kvstore_service_maintain.
Proof. unfold kvstore_service_maintain. solve_keeps. Qed.

Lemma keeps_flush : keeps kvstore_service_flush.
Proof.
  unfold kvstore_service_flush. apply keeps_bind; [apply keeps_ask|intros s]. destruct (negb _); [apply keeps_ret|]. apply keeps_bind.
  - intros w. unfold flush_log. destruct (sv_aof _); [|done]. by destruct (log_flush _) as [[r a']|].
  - solve_keeps.
Qed.

Lemma keeps_execute arguments : keeps (kvstore_service_execute_with_barrier admin arguments).
Proof. unfold kvstore_service_execute_with_barrier. solve_keeps. Qed.
End Frames.

#[export] Hint Resolve keeps_ret keeps_ask keeps_allocating keeps_current_time keeps_on_cache keeps_on_cache_twice keeps_on_cache_pure keeps_get_object keeps_execute keeps_maintain keeps_flush : keeps.
