(* ===== verification/AppLoads.v ===== *)
(** Code of the request handler that is quiet: it leaves the pending requests and
    their queues alone, although it may use the tables and the service. *)

From S2P Require Import Prelude NetBuffer Reactor Resp HashTable ZOrder Object ExpireHeap LruList Cache.
From S2P Require Import Rdb Aof Double MysqlStore CommandText Service AppFrames MysqlThreads App.

(** ** Tables *)

(** The map a table denotes; a table that is not there has no invariant. *)
Definition table_good {V} (o : option (hashtable V)) : Prop := forall h, o = Some h -> hash_wf h.

Definition view {V} (o : option (hashtable V)) : gmap (list Z) V := match o with Some h => to_map h | None => ∅ end.

Section Tables.
Context {V : Type}.
Implicit Types (h : hashtable V).

Lemma stepped h : hash_wf h -> hash_wf (kv_hash_rehash_step h 1).2 /\ to_map (kv_hash_rehash_step h 1).2 = to_map h.
Proof. intros Hw. by destruct (rehash_step_map h 1 Hw ltac:(lia)) as (? & ? & _). Qed.

Lemma removed_node h n : hash_wf h -> nhash n = hash_bytes (nkey n) ->
  hash_wf (kv_hash_remove_node h (Some n)).2 /\ to_map (kv_hash_remove_node h (Some n)).2 = delete (nkey n) (to_map h).
Proof.
  intros Hw Hn. pose proof (remove_target_spec h n Hw Hn) as Hr. unfold kv_hash_remove_node. destruct (remove_target h (Some n)) as [p h']. by destruct Hr as (? & _ & ?).
Qed.

Lemma removed_found h k n : hash_wf h -> kv_hash_find h (Some k) = Some n ->
  hash_wf (kv_hash_remove_node h (Some n)).2 /\ to_map (kv_hash_remove_node h (Some n)).2 = delete k (to_map h).
Proof. intros Hw E. destruct (find_node_spec h k n Hw E) as (<- & Hh & _). by apply removed_node. Qed.

Lemma removed_key h k : hash_wf h -> hash_wf (kv_hash_remove h (Some k)).2 /\ to_map (kv_hash_remove h (Some k)).2 = delete k (to_map h).
Proof.
  intros Hw. unfold kv_hash_remove. destruct (kv_hash_find h (Some k)) as [n|] eqn:E; [by apply removed_found|].
  apply find_None_map in E; [|done]. cbn. by rewrite delete_id.
Qed.

Lemma set_found h k n v : hash_wf h -> kv_hash_find h (Some k) = Some n ->
  hash_wf (kv_hash_node_set_payload h (Some n) v) /\ to_map (kv_hash_node_set_payload h (Some n) v) = <[k := v]> (to_map h).
Proof.
  intros Hw E. destruct (find_node_spec h k n Hw E) as (<- & _ & Hm). destruct (set_payload_spec h n v Hw) as [H1 ->]. split; [done|].
  apply map_eq. intros i. rewrite lookup_alter, lookup_insert. case_decide; [subst; by rewrite Hm|done].
Qed.

(** What the iterator stands on was in the table. *)
Definition known h (n : kv_hash_node V) : Prop :=
  nhash n = hash_bytes (nkey n) /\ (to_map h !! nkey n = None \/ to_map h !! nkey n = Some (npayload n)).

Lemma node_known h n : hash_wf h -> n ∈ all_nodes h -> known h n /\ to_map h !! nkey n = Some (npayload n).
Proof.
  intros Hw Hn.
  assert (Hm : to_map h !! nkey n = Some (npayload n)).
  { unfold to_map. apply elem_of_list_to_map_1; [rewrite pairs_keys; apply Hw|]. unfold pairs. apply list_elem_of_fmap. by exists n. }
  split; [|done]. split; [|by right]. apply elem_of_app in Hn as [Hn|Hn]; [eapply node_hash; [apply Hw|done]|].
  destruct (rehashing_spec h Hw) as [(_ & _ & Ht)|(_ & _ & Ht & _)]; [rewrite Ht, zero_table_nodes in Hn; by apply not_elem_of_nil in Hn|by eapply node_hash].
Qed.

Definition iterator_ok h (it : kv_hash_iterator) : Prop :=
  0 <= it_bucket it /\ 0 <= it_table it <= 2 /\ Forall (known h) (it_next it).

Lemma elem_of_concat_drop {X} (x : X) n (l : list (list X)) : x ∈ concat (drop n l) -> x ∈ concat l.
Proof. intros Hx. rewrite <- (take_drop n l), concat_app. apply elem_of_app. by right. Qed.

Lemma remaining_nodes h it n : it_next it = [] -> n ∈ remaining h it -> n ∈ all_nodes h.
Proof.
  unfold remaining, all_nodes, nodes. intros ->. rewrite app_nil_l, !elem_of_app. destruct (it_table it =? 0).
  - intros [?%elem_of_concat_drop|?]%elem_of_app; auto.
  - destruct (it_table it =? 1); [intros ?%elem_of_concat_drop; auto|by intros ?%not_elem_of_nil].
Qed.

Lemma next_known h it n it' :
  hash_wf h -> iterator_ok h it -> kv_hash_iterator_next h it = (Some n, it') -> known h n /\ iterator_ok h it'.
Proof.
  intros Hw (I1 & I2 & I3) E. pose proof (iterator_next_spec h it Hw I1 I2) as Hs. rewrite E in Hs. destruct Hs as (Hr & S1 & S2).
  destruct (it_next it) as [|n0 rest] eqn:En.
  - assert (Hin : forall x, x ∈ n :: it_next it' -> x ∈ all_nodes h).
    { intros x Hx. apply (remaining_nodes h it x En). rewrite Hr. apply elem_of_cons in Hx as [->|Hx]; [by left|]. right. unfold remaining. apply elem_of_app. by left. }
    split; [apply node_known; [done|apply Hin; by left]|]. split_and!; try done; try lia. apply Forall_forall. intros x Hx. apply node_known; [done|]. apply Hin. by right.
  - unfold kv_hash_iterator_next in E. rewrite En in E. injection E as <- <-. apply Forall_cons in I3 as [K1 K2]. by split.
Qed.

Lemma known_delete h h' n k : to_map h' = delete k (to_map h) -> known h n -> known h' n.
Proof. intros E [K1 K2]. split; [done|]. rewrite E, lookup_delete. case_decide; [by left|done]. Qed.

End Tables.

(** [purge_applied_dirty_keys] only drops keys whose mutations were applied. *)
Lemma purge_loop_spec budget applied (h : hashtable Z) it :
  hash_wf h -> iterator_ok h it ->
  hash_wf (purge_loop budget applied h it) /\
  forall k v, (to_map (purge_loop budget applied h it) !! k = Some v -> to_map h !! k = Some v) /\
    (to_map h !! k = Some v -> applied < v -> to_map (purge_loop budget applied h it) !! k = Some v).
Proof.
  revert h it. induction budget as [|budget IH]; intros h it Hw Hi; [by split|]. cbn [purge_loop].
  destruct (kv_hash_iterator_next h it) as [[n|] it'] eqn:E; [|by split]. destruct (next_known h it n it' Hw Hi E) as [[K1 K2] Hi'].
  destruct (Z.leb_spec (npayload n) applied) as [Hle|_]; [|by apply IH]. destruct (removed_node h n Hw K1) as [R1 R2].
  destruct (IH _ it' R1) as [J1 J2].
  { destruct Hi' as (? & ? & Hf). split_and!; try done; try lia. eapply Forall_impl; [exact Hf|]. intros x. apply known_delete with (k := nkey n). exact R2. }
  split; [done|]. intros k v. destruct (J2 k v) as [J3 J4]. split.
  - intros ?%J3. rewrite R2 in H. by apply lookup_delete_Some in H as [_ ?].
  - intros Hk Hv. apply J4; [|done]. rewrite R2. apply lookup_delete_Some. split; [|done]. intros <-. destruct K2 as [K2|K2]; rewrite K2 in Hk; [done|injection Hk as <-; lia].
Qed.

Lemma begin_ok {V} (h : hashtable V) : iterator_ok h kv_hash_iterator_begin.
Proof. unfold iterator_ok, kv_hash_iterator_begin. cbn. split_and!; try lia. constructor. Qed.

(** Making room in the negative cache. *)
Lemma make_room_spec capacity (h : hashtable Z) :
  hash_wf h -> 0 < capacity -> Z.of_nat (size (to_map h)) <= capacity ->
  hash_wf (negative_make_room capacity h) /\ to_map (negative_make_room capacity h) ⊆ to_map h /\
  Z.of_nat (size (to_map (negative_make_room capacity h))) < capacity.
Proof.
  intros Hw Hc Hs. unfold negative_make_room, kv_hash_count. rewrite (count_size h Hw). destruct (Z.geb_spec (Z.of_nat (size (to_map h))) capacity) as [Hge|Hlt]; [|split_and!; [done|done|lia]].
  pose proof (begin_ok h) as Hb. pose proof (iterator_next_spec h kv_hash_iterator_begin Hw (proj1 Hb) (proj1 (proj2 Hb))) as Hn.
  assert (Hall : remaining h kv_hash_iterator_begin = all_nodes h) by done. rewrite Hall in Hn.
  destruct (kv_hash_iterator_next h kv_hash_iterator_begin) as [[n|] it].
  - destruct Hn as (Hn & _). destruct (node_known h n Hw) as [[K1 _] K2]; [rewrite Hn; by left|]. destruct (removed_node h n Hw K1) as [R1 R2]. rewrite R2.
    split_and!; [done|apply delete_subseteq|]. rewrite map_size_delete_Some by (by exists (npayload n)). assert (size (to_map h) <> 0%nat); [|lia].
    intros Hz. apply map_size_empty_inv in Hz. by rewrite Hz in K2.
  - exfalso. rewrite <- (count_size h Hw), (wf_count h Hw), Hn in Hge. unfold zlen in Hge. cbn in Hge. lia.
Qed.

(** ** Quiet code *)

Section Accounts.
Context {A : Type} `{LogOps A} (admin : persistence_admin (A := A)) (junk : Z).

(** The number of requests that wait for a load of each key. *)
Definition waiting_for (a : app_context A) : gmap (list Z) Z := ls_waiters <$> view (ap_loads a).

Record good (a : app_context A) : Prop := {
  go_loads : forall h, ap_loads a = Some h -> hash_wf h;
  go_dirty : forall h, ap_dirty a = Some h -> hash_wf h;
  go_negative : forall h, ap_negative a = Some h -> hash_wf h
}.

(** Neither the pending requests nor their queues change. *)
Record quiet (a a' : app_context A) : Prop := {
  qu_good : good a';
  qu_requests : ap_requests a' = ap_requests a;
  qu_fresh : ap_fresh a' = ap_fresh a;
  qu_waiting : ap_waiting a' = ap_waiting a;
  qu_view : loads_view (ap_world a') = loads_view (ap_world a);
  qu_tail : ap_tail a' = ap_tail a;
  qu_there : is_Some (ap_loads a) -> is_Some (ap_loads a');
  qu_loads : waiting_for a' = waiting_for a
}.

Lemma quiet_refl a : good a -> quiet a a.
Proof. by split. Qed.

Lemma quiet_trans a b c : quiet a b -> quiet b c -> quiet a c.
Proof.
  intros [Q1 Q2 Q3 Q4 Q5 Q6 Q7 Q8] [R1 R2 R3 R4 R5 R6 R7 R8]. split; try congruence; auto.
Qed.

Definition quietly {T} (c : app_cmd A T) : Prop := forall a, good a -> quiet a (c a).2.

Lemma quietly_ret {T} (x : T) : quietly (mret x : app_cmd A T).
Proof. intros a. apply quiet_refl. Qed.

Lemma quietly_bind {T U} (c : app_cmd A T) (k : T -> app_cmd A U) : quietly c -> (forall x, quietly (k x)) -> quietly (c ≫= k).
Proof.
  intros Hc Hk a G. unfold mbind, app_bind. specialize (Hc a G). destruct (c a) as [x b].
  apply (quiet_trans a b _ Hc), Hk, Hc.
Qed.

(** Code that looks at the state first. *)
Lemma quietly_get {T} (k : app_context A -> app_cmd A T) : (forall a, good a -> quietly (k a)) -> quietly (get_app ≫= k).
Proof. intros Hk a G. by apply Hk. Qed.

Lemma quietly_service {T} (c : cmd A T) : keeps c -> quietly (on_service c).
Proof.
  intros Hc a [G1 G2 G3]. unfold on_service. specialize (Hc (ap_world a)). destruct (c (ap_world a)) as [x w]. by split.
Qed.

Lemma quietly_negative h : hash_wf h -> quietly (set_negative h).
Proof. intros Hh a [G1 G2 G3]. split; try done; split; cbn; try done; congruence. Qed.

Lemma quietly_dirty h : hash_wf h -> quietly (set_dirty h).
Proof. intros Hh a [G1 G2 G3]. split; try done; split; cbn; try done; congruence. Qed.

Lemma quiet_loads h a :
  good a -> hash_wf h -> ls_waiters <$> to_map h = waiting_for a -> quiet a (set_loads h a).2.
Proof.
  intros [G1 G2 G3] Hh Hw. split; try done; split; cbn; try done; congruence.
Qed.

Lemma quietly_alloc : quietly alloc.
Proof. apply quietly_service, keeps_allocating. Qed.

Create HintDb quietly.
#[local] Hint Resolve quietly_ret quietly_service quietly_negative quietly_dirty quietly_alloc : quietly.

Ltac solve_quietly :=
  repeat first
    [ progress intros
    | solve [eauto 4 with quietly keeps]
    | match goal with
      | |- quietly (mbind _ get_app) => apply quietly_get
      | |- quietly (mbind _ _) => apply quietly_bind
      | |- quietly (if ?x then _ else _) => destruct x eqn:?
      | |- quietly (match ?x with _ => _ end) => destruct x eqn:?
      end ].

Lemma insert_wf (h : hashtable Z) k v m : hash_wf h ->
  hash_wf (let '(_, _, h', _) := kv_hash_insert m h (Some k) v in h').
Proof. intros Hw. pose proof (insert_spec m h k v Hw) as Hs. destruct (kv_hash_insert m h (Some k) v) as [[[r n] h'] m']. apply Hs. Qed.

(** An insertion into a table of numbers. *)
Lemma quietly_insert {T} (h : hashtable Z) key v (k : Z * hashtable Z -> app_cmd A T) :
  hash_wf h -> (forall r h', hash_wf h' -> quietly (k (r, h'))) ->
  quietly (on_service (allocating (fun m => let '(r, _, h, m) := kv_hash_insert m h (Some key) v in (r, h, m))) ≫= k).
Proof.
  intros Hw Hk a G. unfold mbind, app_bind, on_service, allocating. pose proof (insert_wf h key v (w_mem (ap_world a)) Hw) as Hi.
  destruct (kv_hash_insert (w_mem (ap_world a)) h (Some key) v) as [[[r n] h'] m'].
  set (w := mk_world _ _ _ _). assert (Q : quiet a (put_world w a)) by (destruct G; by split).
  apply (quiet_trans _ _ _ Q), Hk; [done|apply Q].
Qed.

Lemma quietly_invalidate key : quietly (negative_cache_invalidate key).
Proof.
  unfold negative_cache_invalidate. apply quietly_get. intros a G. destruct (ap_negative a) as [h|] eqn:E; [|apply quietly_ret].
  destruct (stepped h (go_negative a G h E)) as [S1 _]. apply quietly_negative. by apply removed_key.
Qed.

Lemma quietly_contains key : quietly (negative_cache_contains key).
Proof.
  unfold negative_cache_contains. apply quietly_get. intros a G. destruct (ap_negative a) as [h|] eqn:E; [|apply quietly_ret].
  destruct (stepped h (go_negative a G h E)) as [S1 _]. apply quietly_bind; [by apply quietly_negative|intros _]. destruct (kv_hash_find _ _) as [n|] eqn:F; [|apply quietly_ret].
  destruct (removed_found _ _ _ S1 F) as [R1 _]. solve_quietly.
Qed.

Lemma make_room_wf capacity (h : hashtable Z) : hash_wf h -> hash_wf (negative_make_room capacity h).
Proof.
  intros Hw. unfold negative_make_room. destruct (_ >=? _); [|done]. pose proof (begin_ok h) as Hb.
  destruct (kv_hash_iterator_next h kv_hash_iterator_begin) as [[n|] it] eqn:E; [|done].
  destruct (next_known h _ n it Hw Hb E) as [[K1 _] _]. by apply removed_node.
Qed.

Lemma quietly_add key : quietly (negative_cache_add key).
Proof.
  unfold negative_cache_add. apply quietly_get. intros a G. destruct (ap_negative a) as [h|] eqn:E; [|apply quietly_ret]. destruct (_ || _); [apply quietly_ret|].
  destruct (stepped h (go_negative a G h E)) as [S1 _]. apply quietly_bind; [by apply quietly_negative|intros _]. apply quietly_bind; [solve_quietly|intros now].
  destruct (kv_hash_find _ _) as [n|] eqn:F.
  - apply quietly_bind; [|solve_quietly]. apply quietly_negative. by apply (set_found _ _ _ _ S1 F).
  - pose proof (make_room_wf (ap_capacity a) _ S1). apply quietly_bind; [by apply quietly_negative|intros _].
    apply quietly_bind; [apply quietly_alloc|intros ok]. destruct (negb ok); [apply quietly_ret|]. apply quietly_insert; [done|]. solve_quietly.
Qed.

Lemma quietly_bump key : quietly (bump_inflight_load_generation key).
Proof.
  intros a G. unfold bump_inflight_load_generation, get_app, mbind, app_bind. destruct (ap_loads a) as [h|] eqn:E; [|by apply quiet_refl].
  pose proof (go_loads a G h E) as Hw. destruct (kv_hash_find h (Some key)) as [n|] eqn:F; [|by apply quiet_refl].
  destruct (set_found h key n (mk_load_state (wrap64 (ls_generation (npayload n) + 1)) (ls_waiters (npayload n))) Hw F) as [S1 S2]. apply quiet_loads; [done|done|].
  rewrite S2, fmap_insert. cbn [ls_waiters]. unfold waiting_for. rewrite E. cbn [view]. apply insert_id. rewrite lookup_fmap.
  by destruct (find_node_spec h key n Hw F) as (_ & _ & ->).
Qed.

Lemma quietly_dirty_sequence key : quietly (dirty_key_sequence key).
Proof.
  unfold dirty_key_sequence. apply quietly_get. intros a G. destruct (ap_dirty a) as [h|] eqn:E; [|apply quietly_ret].
  destruct (stepped h (go_dirty a G h E)) as [S1 _]. apply quietly_bind; [by apply quietly_dirty|intros _]. destruct (kv_hash_find _ _) as [n|] eqn:F; [|apply quietly_ret].
  destruct (removed_found _ _ _ S1 F) as [R1 _]. apply quietly_bind; [unfold store_stats; solve_quietly|]. solve_quietly.
Qed.

Lemma quietly_mark key sequence : quietly (mark_dirty_key key sequence).
Proof.
  unfold mark_dirty_key. apply quietly_get. intros a G. destruct (ap_dirty a) as [h|] eqn:E; [|apply quietly_ret]. destruct (_ =? _); [apply quietly_ret|].
  destruct (stepped h (go_dirty a G h E)) as [S1 _]. apply quietly_bind; [apply quietly_bump|intros _]. apply quietly_bind; [by apply quietly_dirty|intros _].
  destruct (kv_hash_find _ _) as [n|] eqn:F.
  - destruct (set_found _ _ _ sequence S1 F) as [R1 _]. solve_quietly.
  - apply quietly_bind; [apply quietly_alloc|intros ok]. destruct (negb ok); [apply quietly_ret|]. apply quietly_insert; [done|]. solve_quietly.
Qed.

Lemma quietly_purge budget : 0 <= budget -> quietly (purge_applied_dirty_keys budget).
Proof.
  intros Hb. unfold purge_applied_dirty_keys. apply quietly_get. intros a G. destruct (sv_mysql _) as [s|]; [|apply quietly_ret]. destruct (ap_dirty a) as [h|] eqn:E; [|apply quietly_ret].
  apply quietly_dirty, purge_loop_spec, begin_ok. apply rehash_step_map; [by apply (go_dirty a G)|]. destruct (_ =? _); lia.
Qed.

Lemma quietly_cached key : quietly (cached key).
Proof. unfold cached. solve_quietly. Qed.

Lemma quietly_encode reply response : quietly (encode_into junk reply response).
Proof. unfold encode_into. solve_quietly. Qed.

Context (Hadmin : admin_keeps admin).
#[local] Hint Resolve quietly_invalidate quietly_contains quietly_add quietly_dirty_sequence quietly_mark quietly_cached quietly_encode : quietly.

Lemma quietly_execute arguments write : quietly (execute_and_mark admin arguments write).
Proof. unfold execute_and_mark. solve_quietly. Qed.
#[local] Hint Resolve quietly_execute : quietly.

Lemma keeps_negative_hit : keeps (modify (A := A) (fun s => put_mysql (mysql_store_note_negative_hit <$> sv_mysql s) s)).
Proof. intros w. unfold loads_view, modify. cbn. by destruct (sv_mysql (w_service w)). Qed.
#[local] Hint Resolve keeps_negative_hit : keeps.

Lemma quietly_must_load arguments : quietly (must_load arguments).
Proof. unfold must_load. solve_quietly. Qed.

Lemma quietly_protocol_error response input_length consumed : quietly (protocol_error junk response input_length consumed).
Proof. unfold protocol_error. solve_quietly. Qed.
End Accounts.
