(* ===== verification/AppPending.v ===== *)
(** Every pending request is in one queue, and the registry of loads counts the
    requests of each key that wait for the database: the invariant of the
    request handler and what its operations do to it. *)

From S2P Require Import Prelude NetBuffer Reactor Resp HashTable ZOrder Object ExpireHeap LruList Cache.
From S2P Require Import Rdb Aof Double MysqlStore MysqlThreads CommandText Service AppFrames App AppLoads.

Section Pending.
Context {A : Type} `{LogOps A} (admin : persistence_admin (A := A)) (junk : Z).
Implicit Types (a : app_context A).

(** ** The invariant *)

(** The waiters of the store: of jobs and of results nobody took. *)
Definition store_waiters (a : app_context A) : list Z :=
  match loads_view (ap_world a) with
  | Some (inflight, completed) => (inflight ≫= lj_waiters) ++ (completed ≫= lr_waiters)
  | None => []
  end.

Definition waiters_of (a : app_context A) (k : list Z) (l : list Z) : Z := zlen (filter (fun p => pending_key p a = k) l).

(** [held] are waiters of results that were taken, [loose] requests in no queue. *)
Record pending_ok (held loose : list Z) (a : app_context A) : Prop := {
  po_good : good a;
  po_database : is_Some (loads_view (ap_world a));
  po_there : is_Some (ap_loads a);
  po_nodup : NoDup (ap_waiting a ++ store_waiters a ++ held ++ loose);
  po_live : forall p, is_Some (ap_requests a !! p) <-> p ∈ ap_waiting a ++ store_waiters a ++ held ++ loose;
  po_fresh : forall p, is_Some (ap_requests a !! p) -> p < ap_fresh a;
  po_registered : forall p q, ap_requests a !! p = Some q -> pq_registered q = bool_decide (p ∈ store_waiters a ++ held);
  po_loads : forall k, default 0 (waiting_for a !! k) = waiters_of a k (store_waiters a ++ held);
  po_positive : forall k n, waiting_for a !! k = Some n -> 0 < n;
  po_tail : ap_tail a = None -> ap_waiting a = []
}.

(** The same requests, whatever is registered. *)
Record alike (a a' : app_context A) : Prop := {
  al_tokens : pq_token <$> ap_requests a' = pq_token <$> ap_requests a;
  al_arguments : pq_arguments <$> ap_requests a' = pq_arguments <$> ap_requests a;
  al_waiting : ap_waiting a' = ap_waiting a;
  al_tail : ap_tail a' = ap_tail a
}.

#[export] Instance alike_preorder : PreOrder alike.
Proof. split; [by split|]. intros a b c [] []. split; congruence. Qed.

Lemma quiet_alike a a' : quiet a a' -> alike a a'.
Proof. intros [_ Q2 _ Q4 _ Q6 _ _]. split; [by rewrite Q2|by rewrite Q2|done|done]. Qed.

Lemma pending_key_alike a a' p : pq_arguments <$> ap_requests a' = pq_arguments <$> ap_requests a -> pending_key p a' = pending_key p a.
Proof.
  intros E. assert (Hp : (pq_arguments <$> ap_requests a') !! p = (pq_arguments <$> ap_requests a) !! p) by by rewrite E.
  rewrite !lookup_fmap in Hp. unfold pending_key. destruct (ap_requests a' !! p), (ap_requests a !! p); cbn in Hp; congruence.
Qed.

Lemma waiters_of_perm a k l l' : l ≡ₚ l' -> waiters_of a k l = waiters_of a k l'.
Proof. intros E. unfold waiters_of, zlen. by rewrite E. Qed.

Lemma waiters_of_cons a k p l : waiters_of a k (p :: l) = (if decide (pending_key p a = k) then 1 else 0) + waiters_of a k l.
Proof. unfold waiters_of. rewrite filter_cons. case_decide; [rewrite zlen_cons; lia|done]. Qed.

Lemma waiters_of_ext a a' k l : (forall p, p ∈ l -> pending_key p a' = pending_key p a) -> waiters_of a' k l = waiters_of a k l.
Proof.
  induction l as [|p l IH]; intros Hl; [done|]. rewrite !waiters_of_cons, IH, (Hl p); [done|by left|]. intros x Hx. apply Hl. by right.
Qed.

Lemma waiters_of_alike a a' k l : pq_arguments <$> ap_requests a' = pq_arguments <$> ap_requests a -> waiters_of a' k l = waiters_of a k l.
Proof. intros E. apply waiters_of_ext. intros p _. by apply pending_key_alike. Qed.

Lemma waiters_of_nonneg a k l : 0 <= waiters_of a k l.
Proof. apply zlen_nonneg. Qed.

(** The invariant depends on the requests, the queues and the registry. *)
Lemma pending_same held loose held' loose' a a' :
  pending_ok held loose a -> good a' -> is_Some (ap_loads a') -> ap_requests a' = ap_requests a -> ap_fresh a' = ap_fresh a -> is_Some (loads_view (ap_world a')) ->
  ap_waiting a' ++ store_waiters a' ++ held' ++ loose' ≡ₚ ap_waiting a ++ store_waiters a ++ held ++ loose ->
  store_waiters a' ++ held' ≡ₚ store_waiters a ++ held -> waiting_for a' = waiting_for a ->
  (ap_tail a' = None -> ap_waiting a' = []) -> pending_ok held' loose' a'.
Proof.
  intros [P1 P2 P3 P4 P5 P6 P7 P8 P9 P10] Hg Hl E1 E2 Ev Hq Hr Hw Ht. split; rewrite ?E1, ?E2, ?Hw; try done.
  - by rewrite Hq.
  - intros p. rewrite Hq. apply P5.
  - intros p q Hp. rewrite (P7 p q Hp). apply bool_decide_ext. by rewrite Hr.
  - intros k. rewrite P8, (waiters_of_alike a a') by by rewrite E1. apply waiters_of_perm. by rewrite Hr.
Qed.

Lemma pending_quiet held loose a a' : pending_ok held loose a -> quiet a a' -> pending_ok held loose a'.
Proof.
  intros P [Q1 Q2 Q3 Q4 Q5 Q6 Q7 Q8]. assert (Es : store_waiters a' = store_waiters a) by (unfold store_waiters; by rewrite Q5).
  apply (pending_same held loose held loose a); rewrite ?Q4, ?Es, ?Q5, ?Q6; try done; [by apply Q7, P|apply P|apply P].
Qed.

Lemma pending_perm held loose held' loose' a : held ≡ₚ held' -> loose ≡ₚ loose' -> pending_ok held loose a -> pending_ok held' loose' a.
Proof.
  intros E1 E2 P. apply (pending_same held loose held' loose' a a); try done; try apply P; by rewrite ?E1, ?E2.
Qed.

(** ** Requests *)

Lemma pending_lookup held loose p a : pending_ok held loose a -> p ∈ ap_waiting a ++ store_waiters a ++ held ++ loose -> exists q, ap_requests a !! p = Some q.
Proof. intros P Hp. by apply (po_live _ _ _ P) in Hp as [q ?]; exists q. Qed.

Lemma add_request held loose token arguments a :
  pending_ok held loose a -> let p := ap_fresh a in
  let a' := (set_requests (<[p := mk_pending token arguments 0 false]> (ap_requests a)) (p + 1) a).2 in
  pending_ok held (p :: loose) a' /\ ap_requests a !! p = None.
Proof.
  intros P. cbn zeta. set (p := ap_fresh a). set (a' := (_ : unit * app_context A).2). destruct P as [P1 P2 P3 P4 P5 P6 P7 P8 P9 P10].
  assert (Hp : ap_requests a !! p = None). { apply eq_None_not_Some. intros Hs%P6. unfold p in Hs. lia. }
  assert (Hq : p ∉ ap_waiting a ++ store_waiters a ++ held ++ loose). { rewrite <- P5, Hp. by intros [? ?]. }
  assert (Hold : forall x, x ∈ store_waiters a ++ held -> x <> p). { intros x Hx Hxp. apply Hq. rewrite <- Hxp. rewrite !elem_of_app. rewrite elem_of_app in Hx. tauto. }
  assert (Hperm : ap_waiting a' ++ store_waiters a' ++ held ++ p :: loose ≡ₚ p :: (ap_waiting a ++ store_waiters a ++ held ++ loose)).
  { change (ap_waiting a') with (ap_waiting a). change (store_waiters a') with (store_waiters a). solve_Permutation. }
  split; [|done]. split.
  - destruct P1. by split.
  - done.
  - done.
  - rewrite Hperm. by apply NoDup_cons.
  - intros x. rewrite Hperm, elem_of_cons. change (ap_requests a') with (<[p := mk_pending token arguments 0 false]> (ap_requests a)). rewrite lookup_insert_is_Some, P5.
    split; [intros [->|[_ ?]]; auto|]. destruct (decide (p = x)) as [->|Hne]; [auto|]. intros [->|?]; auto.
  - intros x. change (ap_requests a') with (<[p := mk_pending token arguments 0 false]> (ap_requests a)). change (ap_fresh a') with (p + 1). rewrite lookup_insert_is_Some.
    intros [<-|[_ ?%P6]]; unfold p in *; lia.
  - intros x q. change (ap_requests a') with (<[p := mk_pending token arguments 0 false]> (ap_requests a)). change (store_waiters a') with (store_waiters a). intros [[<- <-]|[Hne Hx]]%lookup_insert_Some.
    + symmetry. apply bool_decide_eq_false. by intros ?%Hold.
    + by apply P7.
  - intros k. change (waiting_for a') with (waiting_for a). change (store_waiters a') with (store_waiters a). rewrite P8. symmetry. apply waiters_of_ext. intros x Hx. unfold pending_key. change (ap_requests a') with (<[p := mk_pending token arguments 0 false]> (ap_requests a)). by rewrite lookup_insert_ne by (apply not_eq_sym; auto).
  - done.
  - done.
Qed.

Lemma copy_spec held loose token arguments a :
  pending_ok held loose a ->
  let '(r, a') := pending_request_copy token arguments a in
  match r with
  | None => quiet a a'
  | Some p => pending_ok held (p :: loose) a' /\ ap_requests a' = <[p := mk_pending token arguments 0 false]> (ap_requests a) /\ ap_requests a !! p = None /\
      ap_waiting a' = ap_waiting a /\ store_waiters a' = store_waiters a /\ ap_tail a' = ap_tail a
  end.
Proof.
  intros P. unfold pending_request_copy. destruct (_ >? _); [apply quiet_refl, P|]. destruct (payload_bytes arguments); [|apply quiet_refl, P].
  unfold mbind, app_bind. pose proof (quietly_alloc a (po_good _ _ _ P)) as Q1. destruct (alloc a) as [ok a1]. cbn [snd] in Q1. destruct ok; [|exact Q1]. cbn [negb].
  pose proof (quietly_alloc a1 (qu_good _ _ Q1)) as Q2. destruct (alloc a1) as [ok a2]. pose proof (quiet_trans _ _ _ Q1 Q2) as Q. cbn [app snd] in Q. destruct ok; [|exact Q].
  cbn [negb]. pose proof (pending_quiet _ _ _ _ P Q) as P2. destruct (add_request held loose token arguments a2 P2) as [P3 Hn]. destruct Q as [_ Q2' Q3 Q4 Q5 Q6 _ _].
  unfold get_app, mret, app_ret. cbn [fst snd]. destruct (set_requests _ _ a2) as [u a3] eqn:Es. unfold set_requests in Es. injection Es as _ <-. split; [exact P3|]. cbn [ap_requests ap_waiting].
  rewrite <- Q2'. split_and!; try done. unfold store_waiters. cbn [ap_world]. by rewrite Q5.
Qed.

Lemma change_registration held loose held' loose' p f a a' :
  pending_ok held loose a -> good a' -> is_Some (ap_loads a') -> ap_requests a' = alter f p (ap_requests a) -> ap_fresh a' = ap_fresh a ->
  ap_waiting a' = ap_waiting a -> loads_view (ap_world a') = loads_view (ap_world a) -> ap_tail a' = ap_tail a ->
  (forall q, pq_token (f q) = pq_token q /\ pq_arguments (f q) = pq_arguments q /\ pq_registered (f q) = bool_decide (p ∈ held')) ->
  held' ++ loose' ≡ₚ held ++ loose -> p ∈ held ++ loose -> (forall x, x <> p -> x ∈ held' <-> x ∈ held) ->
  (forall k, default 0 (waiting_for a' !! k) = waiters_of a k (store_waiters a ++ held')) ->
  (forall k n, waiting_for a' !! k = Some n -> 0 < n) ->
  pending_ok held' loose' a' /\ alike a a'.
Proof.
  intros [P1 P2 P3 P4 P5 P6 P7 P8 P9 P10] Hg Ht E1 E2 E3 E4 E5 Hf Hp Hin Hx Hl Hpos.
  assert (Es : store_waiters a' = store_waiters a) by (unfold store_waiters; by rewrite E4).
  assert (Hns : p ∉ store_waiters a).
  { intros Hs. apply NoDup_app in P4 as (_ & _ & P4). apply NoDup_app in P4 as (_ & P4 & _). by apply (P4 p). }
  assert (Hal : alike a a').
  { split; [| |done|done]; rewrite E1; apply map_eq; intros x; rewrite !lookup_fmap, lookup_alter; (destruct (decide (p = x)); [|done]); subst; destruct (ap_requests a !! _); cbn; f_equal; apply Hf. }
  split; [|done]. split; rewrite ?E2, ?E3, ?E4, ?Es; try done.
  - by rewrite Hp.
  - intros x. rewrite Hp, E1, <- P5, lookup_alter. destruct (decide (p = x)); [subst; by rewrite fmap_is_Some|done].
  - intros x. rewrite E1, lookup_alter. destruct (decide (p = x)); [subst; rewrite fmap_is_Some|]; apply P6.
  - intros x q. rewrite E1, lookup_alter. destruct (decide (p = x)) as [Hxp|Hxp].
    + subst x. intros (q0 & _ & ->)%fmap_Some. destruct (Hf q0) as (_ & _ & ->). apply bool_decide_ext. rewrite elem_of_app. tauto.
    + intros Hq. rewrite (P7 x q Hq). apply bool_decide_ext. rewrite !elem_of_app, Hx by (by apply not_eq_sym). done.
  - intros k. rewrite Hl. symmetry. apply waiters_of_alike, Hal.
  - by rewrite E5.
Qed.

(** Whatever the count of a key was, it is one more or one less. *)
Lemma count_changed (held l : list Z) a (w : gmap (list Z) Z) (key : list Z) (n : Z) :
  (forall k, default 0 (waiting_for a !! k) = waiters_of a k held) -> (forall k n, waiting_for a !! k = Some n -> 0 < n) ->
  waiters_of a key l = n -> (forall k, k <> key -> waiters_of a k l = waiters_of a k held) ->
  (w = <[key := n]> (waiting_for a) /\ 0 < n \/ w = delete key (waiting_for a) /\ n = 0) ->
  (forall k, default 0 (w !! k) = waiters_of a k l) /\ (forall k n, w !! k = Some n -> 0 < n).
Proof.
  intros Hc Hp Hn Ho Hw. split.
  - intros k. destruct (decide (k = key)) as [->|Hk]; [|rewrite Ho, <- Hc by done]; destruct Hw as [[-> ?]|[-> ?]].
    + rewrite lookup_insert_eq. cbn. lia.
    + rewrite lookup_delete_eq. cbn. lia.
    + by rewrite lookup_insert_ne.
    + by rewrite lookup_delete_ne.
  - intros k v. destruct Hw as [[-> ?]|[-> ?]].
    + intros [[<- <-]|[_ ?]]%lookup_insert_Some; eauto.
    + intros [_ ?]%lookup_delete_Some. eauto.
Qed.

(** *** The registry *)

Lemma find_waiters (h : hashtable mysql_load_state) a k node :
  ap_loads a = Some h -> hash_wf h -> kv_hash_find h (Some k) = Some node -> waiting_for a !! k = Some (ls_waiters (npayload node)).
Proof. intros E Hw F. unfold waiting_for. rewrite E. cbn [view]. rewrite lookup_fmap. by destruct (find_node_spec h k node Hw F) as (_ & _ & ->). Qed.

Lemma find_no_waiters (h : hashtable mysql_load_state) a k :
  ap_loads a = Some h -> hash_wf h -> kv_hash_find h (Some k) = None -> waiting_for a !! k = None.
Proof. intros E Hw F. unfold waiting_for. rewrite E. cbn [view]. rewrite lookup_fmap. apply find_None_map in F; [|done]. by rewrite F. Qed.

(** Finding or creating the state of a key: the rest of the registration. *)
Definition join_load (p : Z) (found : option (kv_hash_node mysql_load_state * hashtable mysql_load_state)) : app_cmd A Z :=
  match found with
  | None => mret (-1)
  | Some (node, h) =>
      let state := npayload node in
      if ls_waiters state =? SIZE_MAX then mret (-1) else
      update_request p (fun q => mk_pending (pq_token q) (pq_arguments q) (ls_generation state) true) ;;
      set_loads (kv_hash_node_set_payload h (Some node) (mk_load_state (ls_generation state) (ls_waiters state + 1))) ;;
      mret 0
  end.

(** The count of the key with one waiter more, and with one waiter less. *)
Lemma more_waiters held loose p a k :
  pending_ok held loose a -> pending_key p a = k ->
  waiters_of a k (store_waiters a ++ p :: held) = default 0 (waiting_for a !! k) + 1 /\
  forall k', k' <> k -> waiters_of a k' (store_waiters a ++ p :: held) = waiters_of a k' (store_waiters a ++ held).
Proof.
  intros P Hk. rewrite (po_loads _ _ _ P). split; [|intros k' Hk']; rewrite (waiters_of_perm a _ _ (p :: store_waiters a ++ held)) by solve_Permutation; rewrite waiters_of_cons.
  - rewrite decide_True by done. lia.
  - rewrite decide_False by congruence. lia.
Qed.

Lemma join_spec held loose p h node a :
  pending_ok held (p :: loose) a -> hash_wf h -> ap_loads a = Some h \/ ls_waiters <$> to_map h = <[pending_key p a := 0]> (waiting_for a) /\ waiting_for a !! pending_key p a = None ->
  kv_hash_find h (Some (pending_key p a)) = Some node ->
  let '(r, a') := join_load p (Some (node, h)) a in
  alike a a' /\ (r = 0 /\ pending_ok (p :: held) loose a' \/ r = -1 /\ a' = a).
Proof.
  intros P Hw Hh F. destruct (find_node_spec h _ node Hw F) as (_ & _ & Hm). cbn [join_load].
  assert (Hc : default 0 (waiting_for a !! pending_key p a) = ls_waiters (npayload node) /\
    forall v, <[pending_key p a := v]> (ls_waiters <$> to_map h) = <[pending_key p a := v]> (waiting_for a)).
  { destruct Hh as [E|[E1 E2]].
    - rewrite (find_waiters h a _ node E Hw F). split; [done|]. unfold waiting_for. by rewrite E.
    - rewrite E1, E2. split; [|intros v; by rewrite insert_insert_eq]. assert (Hx : (ls_waiters <$> to_map h) !! pending_key p a = Some 0) by by rewrite E1, lookup_insert_eq.
      rewrite lookup_fmap, Hm in Hx. cbn in *. congruence. }
  destruct Hc as [Hc Hi]. destruct (ls_waiters (npayload node) =? SIZE_MAX) eqn:Emax; [split; [reflexivity|by right]|].
  destruct (set_found h _ node (mk_load_state (ls_generation (npayload node)) (ls_waiters (npayload node) + 1)) Hw F) as [S1 S2].
  set (g := fun q => mk_pending (pq_token q) (pq_arguments q) (ls_generation (npayload node)) true).
  set (h' := kv_hash_node_set_payload _ _ _) in *. unfold update_request, set_requests, set_loads, get_app, mbind, app_bind, mret, app_ret. cbn [ap_requests ap_fresh].
  set (a' := mk_app _ _ _ _ _ _ _ _ _ _).
  assert (Hw' : waiting_for a' = <[pending_key p a := ls_waiters (npayload node) + 1]> (waiting_for a)).
  { unfold waiting_for at 1. cbn [ap_loads a' view]. rewrite S2, fmap_insert. cbn [ls_waiters]. apply Hi. }
  destruct (more_waiters held _ p a _ P eq_refl) as [M1 M2]. assert (Hpos : 0 <= ls_waiters (npayload node)).
  { rewrite <- Hc, (po_loads _ _ _ P). apply waiters_of_nonneg. }
  destruct (count_changed (store_waiters a ++ held) (store_waiters a ++ p :: held) a (waiting_for a') (pending_key p a) (ls_waiters (npayload node) + 1) (po_loads _ _ _ P) (po_positive _ _ _ P)) as [C1 C2];
    [by rewrite M1, Hc|exact M2|left; split; [exact Hw'|lia]|].
  destruct (change_registration held (p :: loose) (p :: held) loose p g a a' P) as [R1 R2]; try done.
  - destruct (po_good _ _ _ P) as [G1 G2 G3]. split; cbn; try done. by intros x [= <-].
  - intros q. split_and!; try done. symmetry. apply bool_decide_eq_true. by left.
  - solve_Permutation.
  - apply elem_of_app. right. by left.
  - intros x Hx. rewrite elem_of_cons. tauto.
  - split; [done|by left].
Qed.

Lemma insert_found m (h : hashtable mysql_load_state) k v :
  hash_wf h ->
  let '(r, n, h', m') := kv_hash_insert m h (Some k) v in
  hash_wf h' /\ (r = 0 /\ to_map h' = <[k := v]> (to_map h) /\ (exists node, n = Some node /\ npayload node = v /\ kv_hash_find h' (Some k) = Some node) \/
    r = -1 /\ to_map h' = to_map h).
Proof.
  intros Hw. pose proof (insert_spec m h k v Hw) as Hs. destruct (kv_hash_insert m h (Some k) v) as [[[r n] h'] m']. destruct Hs as (Hw' & [(-> & -> & _ & E)|(-> & _ & E)]); [|split; [done|by right]].
  split; [done|]. left. split; [done|]. split; [done|]. destruct (find_Some_map h' k v Hw') as ([nk nh nv] & F & E1 & E2 & E3); [by rewrite E, lookup_insert_eq|].
  cbn in E1, E2, E3. subst. eauto.
Qed.

Lemma set_loads_quiet h h1 a :
  good a -> ap_loads a = Some h -> hash_wf h1 -> to_map h1 = to_map h -> quiet a (set_loads h1 a).2.
Proof. intros G E H1 H2. apply quiet_loads; [done|done|]. unfold waiting_for. by rewrite E, H2. Qed.

(** The state of a key in the registry, a new one if there is none. *)
Definition find_load (key : list Z) (h : hashtable mysql_load_state)
  : app_cmd A (option (kv_hash_node mysql_load_state * hashtable mysql_load_state)) :=
  match kv_hash_find h (Some key) with
  | Some node => mret (Some (node, h))
  | None =>
      ok ← alloc;
      if negb ok then mret None else
      '(node, h) ← on_service (allocating (fun m =>
        let '(r, node, h, m) := kv_hash_insert m h (Some key) (mk_load_state 0 0) in
        (if negb (r =? 0) then None else node, h, m)));
      set_loads h ;;
      mret ((fun node => (node, h)) <$> node)
  end.

Lemma register_equation p a h :
  ap_loads a = Some h ->
  register_pending_load p a =
    let h1 := (kv_hash_rehash_step h 1).2 in
    let '(found, b) := find_load (pending_key p a) h1 (set_loads h1 a).2 in join_load p found b.
Proof. intros E. unfold register_pending_load, get_app. unfold mbind at 1. unfold app_bind at 1. rewrite E. reflexivity. Qed.

Lemma join_loads p node h b h2 : ls_waiters (npayload node) <> SIZE_MAX -> join_load p (Some (node, h)) (set_loads h2 b).2 = join_load p (Some (node, h)) b.
Proof. intros Hne. cbn [join_load]. by destruct (Z.eqb_spec (ls_waiters (npayload node)) SIZE_MAX). Qed.

(** [find_load] found a state, made one, or failed. *)
Lemma find_load_spec held loose p h a :
  pending_ok held (p :: loose) a -> ap_loads a = Some h ->
  let '(found, b) := find_load (pending_key p a) h a in
  (found = None /\ quiet a b) \/
  exists node h' c, found = Some (node, h') /\ quiet a c /\ join_load p found b = join_load p found c /\ hash_wf h' /\
    (ap_loads c = Some h' \/ ls_waiters <$> to_map h' = <[pending_key p c := 0]> (waiting_for c) /\ waiting_for c !! pending_key p c = None) /\
    kv_hash_find h' (Some (pending_key p c)) = Some node.
Proof.
  intros P E. pose proof (go_loads _ (po_good _ _ _ P) h E) as Hw. unfold find_load. destruct (kv_hash_find h (Some (pending_key p a))) as [node|] eqn:F.
  { right. exists node, h, a. split_and!; try done; [apply quiet_refl, P|by left]. }
  unfold mbind, app_bind, mret, app_ret. pose proof (quietly_alloc a (po_good _ _ _ P)) as Q2. destruct (alloc a) as [ok b] eqn:Ea. cbn [snd] in Q2.
  destruct ok; cbn [negb]; [|by left]. unfold on_service, allocating.
  assert (E2 : ap_loads b = Some h). { unfold alloc, on_service in Ea. destruct (allocating malloc (ap_world a)) as [x w]. injection Ea as _ <-. done. }
  pose proof (insert_found (w_mem (ap_world b)) h (pending_key p a) (mk_load_state 0 0) Hw) as Hi.
  destruct (kv_hash_insert (w_mem (ap_world b)) h (Some (pending_key p a)) (mk_load_state 0 0)) as [[[r n] h2] m']. destruct Hi as [W2 Hi]. set (w2 := mk_world _ _ _ _).
  assert (Q3 : quiet b (put_world w2 b)) by (destruct (qu_good _ _ Q2); split; try done; by rewrite app_nil_r).
  pose proof (quiet_trans _ _ _ Q2 Q3) as Q. destruct Hi as [(-> & Em & node & -> & Ev & F2)|(-> & Em)]; cbn [Z.eqb negb].
  - right. exists node, h2, (put_world w2 b). cbn [fmap option_fmap option_map]. assert (Hk : pending_key p (put_world w2 b) = pending_key p a) by (unfold pending_key; by rewrite (qu_requests _ _ Q)).
    split_and!; try done.
    + change (mk_app _ _ _ (Some h2) _ _ _ _ _ _) with (set_loads h2 (put_world w2 b)).2. apply join_loads. by rewrite Ev.
    + right. rewrite Hk. split; [|by rewrite (qu_loads _ _ Q), (find_no_waiters h a _ E Hw F)]. rewrite Em, fmap_insert, (qu_loads _ _ Q). cbn [ls_waiters]. unfold waiting_for. by rewrite E.
    + by rewrite Hk.
  - left. split; [done|]. apply (quiet_trans _ _ _ Q). apply (set_loads_quiet h); [apply Q|done|done|done].
Qed.

Lemma register_spec held loose p a :
  pending_ok held (p :: loose) a ->
  let '(r, a') := register_pending_load p a in
  alike a a' /\ (r = 0 /\ pending_ok (p :: held) loose a' \/ r = -1 /\ pending_ok held (p :: loose) a').
Proof.
  intros P. destruct (po_there _ _ _ P) as [h E]. rewrite (register_equation p a h E). cbn zeta. destruct (stepped h (go_loads _ (po_good _ _ _ P) h E)) as [S1 S2].
  set (h1 := (kv_hash_rehash_step h 1).2) in *. pose proof (set_loads_quiet h h1 a (po_good _ _ _ P) E S1 S2) as Q1. pose proof (pending_quiet _ _ _ _ P Q1) as P1.
  assert (Hk : pending_key p a = pending_key p (set_loads h1 a).2) by done. rewrite Hk. pose proof (find_load_spec held loose p h1 (set_loads h1 a).2 P1 eq_refl) as Hf.
  destruct (find_load _ h1 (set_loads h1 a).2) as [found b]. destruct Hf as [[-> Q2]|(node & h' & c & -> & Q2 & -> & W & Hh & F)]; pose proof (pending_quiet _ _ _ _ P1 Q2) as P2.
  - cbn [join_load]. unfold mret, app_ret. split; [etrans; by apply quiet_alike|by right].
  - pose proof (join_spec held loose p h' node c P2 W Hh F) as J. destruct (join_load p (Some (node, h')) c) as [r a']. destruct J as [J1 J2].
    split; [etrans; [by apply quiet_alike|]; etrans; [by apply quiet_alike|done]|]. destruct J2 as [[-> J2]|[-> ->]]; auto.
Qed.

Lemma unregistered p a q : ap_requests a !! p = Some q -> pq_registered q = false -> unregister_pending_load p a = (tt, a).
Proof. intros E1 E2. unfold unregister_pending_load, get_app, mbind, app_bind. rewrite E1, E2. by destruct (ap_loads a). Qed.

Lemma loose_unregistered held loose p a : pending_ok held (p :: loose) a -> unregister_pending_load p a = (tt, a).
Proof.
  intros P. destruct (pending_lookup held (p :: loose) p a P) as [q Hq]; [rewrite !elem_of_app, elem_of_cons; auto|]. apply (unregistered p a q Hq). rewrite (po_registered _ _ _ P p q Hq).
  apply bool_decide_eq_false. pose proof (po_nodup _ _ _ P) as Hn. apply NoDup_app in Hn as (_ & _ & Hn). rewrite app_assoc in Hn. apply NoDup_app in Hn as (_ & Hn & _).
  intros Hp. apply (Hn p Hp). by left.
Qed.

Lemma unregister_spec held loose p a :
  pending_ok (p :: held) loose a -> let a' := (unregister_pending_load p a).2 in pending_ok held (p :: loose) a' /\ alike a a'.
Proof.
  intros P. cbn zeta. destruct (pending_lookup (p :: held) loose p a P) as [q Hq]; [rewrite !elem_of_app, elem_of_cons; auto|].
  assert (Hr : pq_registered q = true) by (rewrite (po_registered _ _ _ P p q Hq); apply bool_decide_eq_true; rewrite elem_of_app, elem_of_cons; auto).
  destruct (po_there _ _ _ P) as [h E]. pose proof (go_loads _ (po_good _ _ _ P) h E) as Hw.
  assert (Hkey : pending_key p a = arg (pq_arguments q) 1) by (unfold pending_key; by rewrite Hq).
  pose proof (po_loads _ _ _ P) as Hl. pose proof (po_positive _ _ _ P) as Hpos.
  assert (Hc : forall k, waiters_of a k (store_waiters a ++ p :: held) = (if decide (pending_key p a = k) then 1 else 0) + waiters_of a k (store_waiters a ++ held)).
  { intros k. rewrite (waiters_of_perm a _ _ (p :: store_waiters a ++ held)) by solve_Permutation. apply waiters_of_cons. }
  pose proof (Hl (pending_key p a)) as Hn. rewrite Hc, decide_True in Hn by done. pose proof (waiters_of_nonneg a (pending_key p a) (store_waiters a ++ held)) as Hge.
  unfold unregister_pending_load, get_app, mbind, app_bind. rewrite Hq, E, Hr. cbn [negb]. rewrite <- Hkey.
  destruct (kv_hash_find h (Some (pending_key p a))) as [node|] eqn:F; [|rewrite (find_no_waiters h a _ E Hw F) in Hn; cbn in Hn; lia].
  rewrite (find_waiters h a _ node E Hw F) in Hn. cbn [default from_option id] in Hn. rewrite (proj2 (Z.gtb_lt _ _)) by lia.
  set (g := fun x => mk_pending (pq_token x) (pq_arguments x) (pq_generation x) false). unfold update_request, set_requests, get_app, mbind, app_bind.
  assert (Hother : forall k, k <> pending_key p a -> waiters_of a k (store_waiters a ++ held) = waiters_of a k (store_waiters a ++ p :: held)).
  { intros k Hk. rewrite Hc, decide_False by congruence. lia. }
  assert (Hdone : forall h' w, hash_wf h' -> ls_waiters <$> to_map h' = w ->
    (w = <[pending_key p a := ls_waiters (npayload node) - 1]> (waiting_for a) /\ 0 < ls_waiters (npayload node) - 1 \/ w = delete (pending_key p a) (waiting_for a) /\ ls_waiters (npayload node) - 1 = 0) ->
    let a' := mk_app (ap_world a) (ap_negative a) (ap_dirty a) (Some h') (alter g p (ap_requests a)) (ap_fresh a) (ap_waiting a) (ap_tail a) (ap_ttl a) (ap_capacity a) in
    pending_ok held (p :: loose) a' /\ alike a a').
  { intros h' w Hh' Ew Hcase. cbn zeta. set (a' := mk_app _ _ _ _ _ _ _ _ _ _).
    destruct (count_changed (store_waiters a ++ p :: held) (store_waiters a ++ held) a (waiting_for a') (pending_key p a) (ls_waiters (npayload node) - 1) Hl Hpos) as [C1 C2]; [lia|done| |].
    { unfold waiting_for at 1 3. cbn [ap_loads a' view]. rewrite Ew. exact Hcase. }
    apply (change_registration (p :: held) loose held (p :: loose) p g a a' P); try done.
    - destruct (po_good _ _ _ P) as [G1 G2 G3]. split; cbn; try done. by intros x [= <-].
    - intros x. split_and!; try done. symmetry. apply bool_decide_eq_false. intros Hp. pose proof (po_nodup _ _ _ P) as Hnd. apply NoDup_app in Hnd as (_ & _ & Hnd).
      apply NoDup_app in Hnd as (_ & _ & Hnd). cbn in Hnd. apply NoDup_cons in Hnd as [Hnd _]. apply Hnd, elem_of_app. by left.
    - solve_Permutation.
    - apply elem_of_app. left. by left.
    - intros x Hx. rewrite elem_of_cons. tauto. }
  destruct (Z.eqb_spec (ls_waiters (npayload node) - 1) 0) as [Hz|Hz]; unfold set_loads; cbn [snd ap_world ap_negative ap_dirty ap_requests ap_fresh ap_waiting ap_tail ap_ttl ap_capacity].
  - destruct (removed_found h _ node Hw F) as [R1 R2]. apply (Hdone _ _ R1 eq_refl). right. split; [|done]. rewrite R2, fmap_delete. unfold waiting_for. by rewrite E.
  - destruct (set_found h _ node (mk_load_state (ls_generation (npayload node)) (ls_waiters (npayload node) - 1)) Hw F) as [R1 R2]. apply (Hdone _ _ R1 eq_refl). left.
    split; [|lia]. rewrite R2, fmap_insert. unfold waiting_for. by rewrite E.
Qed.

(** *** Submitting and freeing *)

(** The store accepts the waiter, or nothing of its loads changes. *)
Lemma submit_store m s key waiter :
  let '(r, s', _) := mysql_store_submit_load m s (Some key) waiter in
  if r <? 0 then my_inflight s' = my_inflight s /\ my_completed s' = my_completed s
  else (my_inflight s' ≫= lj_waiters) ≡ₚ waiter :: (my_inflight s ≫= lj_waiters) /\ my_completed s' = my_completed s.
Proof.
  unfold mysql_store_submit_load. destruct (malloc m) as [[] m1]; [|done]. cbn [negb]. destruct (join_inflight key waiter (my_inflight s)) as [l|] eqn:Ej.
  - destruct (join_inflight_some _ _ _ _ Ej) as (_ & J2 & _). done.
  - destruct (_ || _); [done|]. destruct (malloc m1) as [job m2]. destruct (if job then malloc m2 else (false, m2)) as [copy m3]. by destruct (negb (job && copy)).
Qed.

Lemma submit_spec held loose p a :
  pending_ok (p :: held) loose a ->
  let '(r, a') := submit_load p a in alike a a' /\ if r <? 0 then pending_ok (p :: held) loose a' else pending_ok held loose a'.
Proof.
  intros P. unfold submit_load, get_app, mbind, app_bind, on_service. destruct (po_database _ _ _ P) as [x Ev]. unfold loads_view in Ev. destruct (sv_mysql (w_service (ap_world a))) as [store|] eqn:Es; [|done].
  pose proof (submit_store (w_mem (ap_world a)) store (pending_key p a) p) as Hs. destruct (mysql_store_submit_load _ store _ p) as [[r store'] m']. set (w' := mk_world _ _ _ _).
  split; [by split|].
  assert (Ea : store_waiters a = (my_inflight store ≫= lj_waiters) ++ (my_completed store ≫= lr_waiters)) by (unfold store_waiters, loads_view; by rewrite Es).
  assert (Ea' : store_waiters (put_world w' a) = (my_inflight store' ≫= lj_waiters) ++ (my_completed store' ≫= lr_waiters)) by done.
  assert (G : good (put_world w' a)) by (destruct (po_good _ _ _ P); by split). change (waiting_for (put_world w' a)) with (waiting_for a).
  destruct (r <? 0); destruct Hs as [H1 H2].
  - apply (pending_same (p :: held) loose (p :: held) loose a (put_world w' a)); rewrite ?Ea, ?Ea', ?H1, ?H2; try done; apply P.
  - apply (pending_same (p :: held) loose held loose a (put_world w' a)); rewrite ?Ea, ?Ea', ?H1, ?H2; try done; [apply P| | |apply P]; cbn [ap_waiting put_world]; solve_Permutation.
Qed.

Lemma start_spec held loose p a :
  pending_ok held (p :: loose) a ->
  let '(ok, a') := start_load p a in
  alike a a' /\ if (ok : bool) then pending_ok held loose a' else pending_ok (p :: held) loose a' \/ pending_ok held (p :: loose) a'.
Proof.
  intros P. unfold start_load, mbind, app_bind. pose proof (register_spec held loose p a P) as R. destruct (register_pending_load p a) as [r b]. destruct R as [R1 [[-> R2]|[-> R2]]]; cbn [Z.eqb negb].
  - pose proof (submit_spec held loose p b R2) as S. destruct (submit_load p b) as [r c]. destruct S as [S1 S2]. unfold mret, app_ret. split; [by etrans|]. destruct (r <? 0); cbn [negb]; auto.
  - unfold mret, app_ret. auto.
Qed.

Lemma free_spec held loose p a q :
  pending_ok held (p :: loose) a -> ap_requests a !! p = Some q ->
  let a' := (free_request p a).2 in pending_ok held loose a' /\ ap_requests a' = delete p (ap_requests a) /\ ap_waiting a' = ap_waiting a /\ ap_tail a' = ap_tail a.
Proof.
  intros [P1 P2 P3 P4 P5 P6 P7 P8 P9 P10] Hq. cbn zeta. unfold free_request, get_app, mbind, app_bind, set_requests. cbn [snd]. set (a' := mk_app _ _ _ _ _ _ _ _ _ _).
  assert (Hperm : ap_waiting a ++ store_waiters a ++ held ++ p :: loose ≡ₚ p :: (ap_waiting a ++ store_waiters a ++ held ++ loose)) by solve_Permutation.
  rewrite Hperm in P4. apply NoDup_cons in P4 as [Hp P4].
  assert (Hold : forall x, x ∈ store_waiters a ++ held -> x <> p). { intros x Hx Hxp. apply Hp. rewrite <- Hxp. rewrite !elem_of_app. rewrite elem_of_app in Hx. tauto. }
  split; [|done]. split; try done; change (ap_requests a') with (delete p (ap_requests a)); change (store_waiters a') with (store_waiters a).
  - destruct P1. by split.
  - intros x. change (ap_waiting a') with (ap_waiting a). rewrite lookup_delete_is_Some, P5, Hperm, elem_of_cons. split; [|intros Hx; split; [by intros <-|by right]].
    intros [Hne [->|Hx]]; done.
  - intros x. rewrite lookup_delete_is_Some. intros [_ Hx]. by apply P6.
  - intros x y. rewrite lookup_delete_Some. intros [_ Hx]. by apply P7.
  - intros k. change (waiting_for a') with (waiting_for a). rewrite P8. symmetry. apply waiters_of_ext. intros x Hx. unfold pending_key.
    change (ap_requests a') with (delete p (ap_requests a)). by rewrite lookup_delete_ne by (apply not_eq_sym; auto).
Qed.

(** Destroying a request, registered or not. *)
Lemma unregister_either held loose p a :
  pending_ok (p :: held) loose a \/ pending_ok held (p :: loose) a ->
  pending_ok held (p :: loose) (unregister_pending_load p a).2 /\ alike a (unregister_pending_load p a).2.
Proof. intros [P|P]; [by apply unregister_spec|]. by rewrite (loose_unregistered held loose p a P). Qed.

Lemma alike_lookup a a' p q : alike a a' -> ap_requests a !! p = Some q -> exists q', ap_requests a' !! p = Some q' /\ pq_token q' = pq_token q.
Proof.
  intros [E _ _ _] Hq. assert (Hp : (pq_token <$> ap_requests a') !! p = Some (pq_token q)) by by rewrite E, lookup_fmap, Hq.
  rewrite lookup_fmap in Hp. apply fmap_Some in Hp as (q' & ? & ?). by exists q'.
Qed.

(** ** Tokens *)

Definition token_of a (p : Z) : Z := default 0 (pq_token <$> ap_requests a !! p).

Lemma token_alike a a' p : pq_token <$> ap_requests a' = pq_token <$> ap_requests a -> token_of a' p = token_of a p.
Proof. intros E. unfold token_of. rewrite <- !lookup_fmap. by rewrite E. Qed.

Lemma tokens_alike a a' (l : list Z) : pq_token <$> ap_requests a' = pq_token <$> ap_requests a -> token_of a' <$> l = token_of a <$> l.
Proof. intros E. apply list_fmap_ext. intros i x _. by apply token_alike. Qed.

(** The other requests keep their tokens when one is added or removed. *)
Lemma tokens_insert a a' p q (l : list Z) : ap_requests a' = <[p := q]> (ap_requests a) -> p ∉ l -> token_of a' <$> l = token_of a <$> l.
Proof.
  intros E Hp. apply list_fmap_ext. intros i x Hx. unfold token_of. rewrite E, lookup_insert_ne; [done|]. intros ->. apply Hp. by apply list_elem_of_lookup_2 in Hx.
Qed.

Lemma tokens_delete a a' p (l : list Z) : pq_token <$> ap_requests a' = delete p (pq_token <$> ap_requests a) -> p ∉ l -> token_of a' <$> l = token_of a <$> l.
Proof.
  intros E Hp. apply list_fmap_ext. intros i x Hx. unfold token_of. rewrite <- !lookup_fmap, E, lookup_delete_ne; [done|]. intros ->. apply Hp. by apply list_elem_of_lookup_2 in Hx.
Qed.

Lemma destroy_spec held loose p a :
  pending_ok (p :: held) loose a \/ pending_ok held (p :: loose) a ->
  let a' := (pending_request_destroy p a).2 in
  pending_ok held loose a' /\ pq_token <$> ap_requests a' = delete p (pq_token <$> ap_requests a) /\ ap_waiting a' = ap_waiting a /\ ap_tail a' = ap_tail a.
Proof.
  intros P. cbn zeta. unfold pending_request_destroy, mbind, app_bind. destruct (unregister_either held loose p a P) as [P' Hal].
  destruct (unregister_pending_load p a) as [u b]. cbn [snd] in P', Hal. destruct (pending_lookup held (p :: loose) p b P') as [q Hq]; [rewrite !elem_of_app, elem_of_cons; auto|].
  destruct (free_spec held loose p b q P' Hq) as (F1 & F2 & F3 & F4). split; [done|]. rewrite F2, F3, F4, fmap_delete. by rewrite (al_tokens _ _ Hal), (al_waiting _ _ Hal), (al_tail _ _ Hal).
Qed.

(** ** The list of requests for dirty keys *)

Definition tail_ok a : Prop := ap_tail a = last (ap_waiting a).

(** A request joins the list, unless the tail is not in the list. *)
Lemma queue_spec held loose p a :
  pending_ok held (p :: loose) a ->
  let a' := (queue_dirty_waiter p a).2 in
  ap_requests a' = ap_requests a /\ store_waiters a' = store_waiters a /\
  (pending_ok held loose a' /\ ap_waiting a' = ap_waiting a ++ [p] /\ tail_ok a' \/ pending_ok held (p :: loose) a' /\ ap_waiting a' = ap_waiting a /\ ~ tail_ok a).
Proof.
  intros P. cbn zeta. unfold queue_dirty_waiter, get_app, mbind, app_bind, mret, app_ret.
  assert (Happ : pending_ok held loose (set_tail (Some p) (set_waiting (ap_waiting a ++ [p]) a).2).2).
  { apply (pending_same held (p :: loose) held loose a); try done; try apply P; [destruct (po_good _ _ _ P); by split|]. cbn [set_tail set_waiting snd ap_waiting]. change (store_waiters _) with (store_waiters a). solve_Permutation. }
  assert (Hstay : pending_ok held (p :: loose) (set_tail (Some p) a).2).
  { apply (pending_same held (p :: loose) held (p :: loose) a); try done; try apply P. destruct (po_good _ _ _ P); by split. }
  destruct (ap_tail a) as [t|] eqn:Et.
  - case_bool_decide as El; (split; [done|]; split; [done|]).
    + left. split; [exact Happ|]. split; [done|]. unfold tail_ok. cbn. by rewrite last_snoc.
    + right. split; [exact Hstay|]. split; [done|]. unfold tail_ok. by rewrite Et.
  - split; [done|]. split; [done|]. destruct (decide (ap_waiting a = [])) as [En|Hne].
    + left. rewrite En in Happ |- *. split; [exact Happ|]. by split.
    + by destruct (Hne (po_tail _ _ _ P Et)).
Qed.

(** ** Requests of the clients *)

Context (Hadmin : admin_keeps admin).

(** What [dispatch_request] does to the pending requests: nothing, or there is
    one more, which is in a queue unless the tail of the list is lost. *)
Definition admitted (held loose : list Z) (token : Z) a (x : dispatched * app_context A) : Prop :=
  ds_result x.1 <> REACTOR_HANDLER_DEFERRED /\ pending_ok held loose x.2 /\ alike a x.2 \/
  ds_result x.1 = REACTOR_HANDLER_DEFERRED /\ exists p strand, pending_ok held (strand ++ loose) x.2 /\ ap_requests a !! p = None /\
    pq_token <$> ap_requests x.2 = <[p := token]> (pq_token <$> ap_requests a) /\ (strand = [] \/ strand = [p] /\ ~ tail_ok a) /\
    (tail_ok a -> tail_ok x.2) /\ exists new, ap_waiting x.2 = ap_waiting a ++ new /\ (length strand + length new <= 1)%nat.

Lemma admitted_quiet held loose token a b d : pending_ok held loose a -> quiet a b -> ds_result d <> REACTOR_HANDLER_DEFERRED -> admitted held loose token a (d, b).
Proof. intros P Q Hd. left. split; [done|]. split; [by eapply pending_quiet|by apply quiet_alike]. Qed.

Lemma admitted_alike held loose token a b x : alike a b -> admitted held loose token b x -> admitted held loose token a x.
Proof.
  intros Hal [(H1 & H2 & H3)|(H1 & p & strand & H2 & H3 & H4 & H5 & H6 & H7)].
  - left. split; [done|]. split; [done|]. by etrans.
  - assert (Ht : tail_ok a <-> tail_ok b) by (unfold tail_ok; by rewrite (al_tail _ _ Hal), (al_waiting _ _ Hal)).
    right. split; [done|]. exists p, strand. rewrite Ht, <- (al_tokens _ _ Hal), <- (al_waiting _ _ Hal). split_and!; try done.
    rewrite <- fmap_None with (f := pq_token), <- lookup_fmap, <- (al_tokens _ _ Hal), lookup_fmap. by rewrite H3.
Qed.

Lemma encode_finish held loose token reply response consumed barrier a :
  pending_ok held loose a ->
  admitted held loose token a (('(r, response) ← encode_into junk reply response;
    mret (mk_dispatched (if negb (r =? 0) then REACTOR_HANDLER_ERROR else REACTOR_HANDLER_COMPLETE) response consumed false barrier)) a).
Proof.
  intros P. unfold mbind, app_bind. pose proof (quietly_encode junk reply response a (po_good _ _ _ P)) as Q. destruct (encode_into junk reply response a) as [[r b'] b]. cbn [snd] in Q.
  apply admitted_quiet; [done|done|]. cbn [ds_result]. by destruct (negb _).
Qed.

Lemma defer_spec held loose token arguments response consumed a :
  pending_ok held loose a -> admitted held loose token a (defer_request junk token arguments response consumed a).
Proof.
  intros P. unfold defer_request. unfold mbind at 1. unfold app_bind at 1. pose proof (copy_spec held loose token arguments a P) as C. destruct (pending_request_copy token arguments a) as [[p|] b].
  2:{ by apply admitted_quiet. }
  destruct C as (P1 & Er & Hn & Ew & Es & Et). set (q0 := mk_pending token arguments 0 false) in *.
  assert (Htok : pq_token <$> ap_requests b = <[p := token]> (pq_token <$> ap_requests a)) by by rewrite Er, fmap_insert.
  unfold mbind at 1. unfold app_bind at 1. pose proof (quietly_dirty_sequence (arg arguments 1) b (po_good _ _ _ P1)) as Q. destruct (dirty_key_sequence (arg arguments 1) b) as [q c]. cbn [snd] in Q.
  pose proof (pending_quiet _ _ _ _ P1 Q) as P2. pose proof (quiet_alike _ _ Q) as Hbc.
  assert (Hta : tail_ok a <-> tail_ok c) by (unfold tail_ok; by rewrite (al_tail _ _ Hbc), (al_waiting _ _ Hbc), Ew, Et). destruct (negb (q =? 0)).
  { unfold mbind, app_bind, mret, app_ret. destruct (queue_spec held loose p c P2) as (Q1 & Q2 & Q3). destruct (queue_dirty_waiter p c) as [u e]. cbn [snd] in *.
    right. split; [done|]. exists p. assert (Htoke : pq_token <$> ap_requests e = <[p := token]> (pq_token <$> ap_requests a)) by by rewrite Q1, (al_tokens _ _ Hbc).
    destruct Q3 as [(Q3 & Q4 & Q5)|(Q3 & Q4 & Q5)].
    - exists []. split_and!; try done; [by left|]. exists [p]. cbn [snd]. by rewrite Q4, (al_waiting _ _ Hbc), Ew.
    - exists [p]. split_and!; try done; [right; by rewrite Hta|by rewrite Hta|]. exists []. cbn [snd]. rewrite Q4, (al_waiting _ _ Hbc), Ew, app_nil_r. split; [done|cbn; lia]. }
  unfold mbind at 1. unfold app_bind at 1. pose proof (start_spec held loose p c P2) as S. destruct (start_load p c) as [ok e]. destruct S as [S1 S2]. destruct ok.
  { right. split; [done|]. exists p, []. unfold mret, app_ret. cbn [snd app]. split_and!; try done; [by rewrite (al_tokens _ _ S1), (al_tokens _ _ Hbc)|by left| |].
    - rewrite Hta. unfold tail_ok. by rewrite (al_tail _ _ S1), (al_waiting _ _ S1).
    - exists []. rewrite (al_waiting _ _ S1), (al_waiting _ _ Hbc), Ew, app_nil_r. split; [done|cbn; lia]. }
  unfold mbind at 1. unfold app_bind at 1. destruct (unregister_either held loose p e S2) as [U1 U2]. destruct (unregister_pending_load p e) as [u f]. cbn [snd] in U1, U2.
  assert (Hal : alike b f) by (etrans; [done|]; by etrans). destruct (pending_lookup held (p :: loose) p f U1) as [q' Hq']; [rewrite !elem_of_app, elem_of_cons; auto|].
  destruct (free_spec held loose p f q' U1 Hq') as (F1 & F2 & F3 & F4). unfold mbind at 1. unfold app_bind at 1. destruct (free_request p f) as [u' g]. cbn [snd] in F1, F2, F3, F4.
  assert (Hag : alike a g).
  { split; [| |by rewrite F3, (al_waiting _ _ Hal)|by rewrite F4, (al_tail _ _ Hal)]; rewrite F2, fmap_delete.
    - by rewrite (al_tokens _ _ Hal), Htok, delete_insert_id by by rewrite lookup_fmap, Hn.
    - by rewrite (al_arguments _ _ Hal), Er, fmap_insert, delete_insert_id by by rewrite lookup_fmap, Hn. }
  apply (admitted_alike _ _ _ a g _ Hag). by apply encode_finish.
Qed.

Lemma protocol_error_result response input_length consumed a :
  ds_result (protocol_error junk response input_length consumed a).1 <> REACTOR_HANDLER_DEFERRED.
Proof.
  unfold protocol_error, mbind, app_bind, mret, app_ret. destruct (on_service _ a) as [[[[off capacity]|] b'] b]; [|done]. destruct (resp_encode_error _ _); [|done].
  destruct (net_buffer_commit _ _) as [r c]. by destruct (negb _).
Qed.

Lemma request_spec held loose token input end_of_stream response a :
  pending_ok held loose a -> admitted held loose token a (dispatch_request admin junk input end_of_stream response token a).
Proof.
  intros P. unfold dispatch_request. destruct (resp_parse_request (Some input) end_of_stream) as [[parsed slices] consumed]. destruct parsed.
  - pose proof (quietly_protocol_error junk response (zlen input) consumed a (po_good _ _ _ P)) as Q. pose proof (protocol_error_result response (zlen input) consumed a) as Hr.
    destruct (protocol_error junk response (zlen input) consumed a) as [d b]. by apply admitted_quiet.
  - apply admitted_quiet; [done|apply quiet_refl, P|done].
  - cbn zeta. set (arguments := slice_bytes input <$> slices). unfold get_app. unfold mbind at 1. unfold app_bind at 1.
    set (database := is_Some_bool _ && _). unfold mbind at 1. unfold app_bind at 1.
    assert (Q : quiet a ((if database then must_load arguments else mret false) a).2) by (destruct database; [by apply quietly_must_load, P|apply quiet_refl, P]).
    destruct ((if database then must_load arguments else mret false) a) as [defer b]. cbn [snd] in Q. pose proof (pending_quiet _ _ _ _ P Q) as P1.
    apply (admitted_alike held loose token a b _ (quiet_alike _ _ Q)). destruct defer; [by apply defer_spec|].
    unfold mbind at 1. unfold app_bind at 1. pose proof (quietly_execute admin Hadmin arguments (database && names_write arguments) b (po_good _ _ _ P1)) as Q2.
    destruct (execute_and_mark admin arguments (database && names_write arguments) b) as [[[reply barrier]|] c]; cbn [snd] in Q2; pose proof (pending_quiet _ _ _ _ P1 Q2) as P2.
    + apply (admitted_alike held loose token b c _ (quiet_alike _ _ Q2)). by apply encode_finish.
    + by apply admitted_quiet.
Qed.

(** A deferred request leaves the response alone. *)
Lemma defer_shape token arguments response consumed a :
  let d := (defer_request junk token arguments response consumed a).1 in
  ds_result d = REACTOR_HANDLER_DEFERRED -> ds_response d = response /\ ds_close d = false /\ ds_barrier d = 0 /\ ds_consumed d = consumed.
Proof.
  cbn zeta. unfold defer_request, mbind, app_bind, mret, app_ret. destruct (pending_request_copy token arguments a) as [[p|] b]; [|done]. destruct (dirty_key_sequence _ b) as [q c].
  destruct (negb (q =? 0)); [by destruct (queue_dirty_waiter p c)|]. destruct (start_load p c) as [[] e]; [done|]. destruct (unregister_pending_load p e) as [u f]. destruct (free_request p f) as [u' g].
  destruct (encode_into junk ERR_READ_QUEUE response g) as [[r b'] h]. cbn [fst ds_result]. by destruct (negb _).
Qed.

Lemma request_shape token input end_of_stream response a :
  let d := (dispatch_request admin junk input end_of_stream response token a).1 in
  ds_result d = REACTOR_HANDLER_DEFERRED -> ds_response d = response /\ ds_close d = false /\ ds_barrier d = 0 /\ 0 < ds_consumed d <= zlen input.
Proof.
  cbn zeta. unfold dispatch_request. destruct (resp_parse_request (Some input) end_of_stream) as [[parsed slices] consumed] eqn:Ep. destruct parsed.
  - intros Hd. by destruct (protocol_error_result response (zlen input) consumed a).
  - done.
  - unfold resp_parse_request in Ep. destruct (resp_parse_bounds _ _ _ _ _ Ep) as (d & [= <-] & Hc & _). cbn zeta. set (arguments := slice_bytes input <$> slices).
    unfold get_app, mbind, app_bind, mret, app_ret. set (database := is_Some_bool _ && _).
    destruct ((if database then must_load arguments else fun a => (false, a)) a) as [defer b]. destruct defer.
    + intros Hd. destruct (defer_shape token arguments response consumed b Hd) as (-> & -> & -> & ->). done.
    + destruct (execute_and_mark admin arguments (database && names_write arguments) b) as [[[reply barrier]|] c]; [|done].
      destruct (encode_into junk reply response c) as [[r b'] e]. cbn [fst ds_result]. by destruct (negb _).
Qed.

(** What a complete request consumes. *)
Lemma request_consumed token input end_of_stream response a :
  let d := (dispatch_request admin junk input end_of_stream response token a).1 in
  ds_result d = REACTOR_HANDLER_COMPLETE -> 0 <= ds_consumed d <= zlen input.
Proof.
  cbn zeta. unfold dispatch_request. pose proof (zlen_nonneg input). destruct (resp_parse_request (Some input) end_of_stream) as [[parsed slices] consumed] eqn:Ep. destruct parsed; [|done|].
  - unfold protocol_error, mbind, app_bind, mret, app_ret. destruct (on_service _ a) as [[[[off capacity]|] b'] b]; [|done]. destruct (resp_encode_error _ _); [|done].
    destruct (net_buffer_commit _ _) as [r c]. destruct (negb _); [done|]. cbn. lia.
  - unfold resp_parse_request in Ep. destruct (resp_parse_bounds _ _ _ _ _ Ep) as (d & [= <-] & Hc & _). cbn zeta. set (arguments := slice_bytes input <$> slices).
    unfold get_app, mbind, app_bind, mret, app_ret. set (database := is_Some_bool _ && _).
    destruct ((if database then must_load arguments else fun a => (false, a)) a) as [defer b]. destruct defer.
    + unfold defer_request, mbind, app_bind, mret, app_ret. destruct (pending_request_copy token arguments b) as [[p|] c]; [|done]. destruct (dirty_key_sequence _ c) as [q e].
      destruct (negb (q =? 0)); [by destruct (queue_dirty_waiter p e)|]. destruct (start_load p e) as [[] f]; [done|]. destruct (unregister_pending_load p f) as [u g].
      destruct (free_request p g) as [u' h]. destruct (encode_into junk ERR_READ_QUEUE response h) as [[r b'] k]. cbn [fst ds_consumed]. lia.
    + destruct (execute_and_mark admin arguments (database && names_write arguments) b) as [[[reply barrier]|] c]; [|done].
      destruct (encode_into junk reply response c) as [[r b'] e]. cbn [fst ds_consumed]. lia.
Qed.
End Pending.
