(* ===== verification/AppProps.v ===== *)
(** Replies of the request handler are encoded whole; the handler starts without
    pending requests. *)

From S2P Require Import Prelude NetBuffer Reactor Resp HashTable ZOrder Object ExpireHeap LruList Cache.
From S2P Require Import Rdb Aof Double MysqlStore MysqlThreads MysqlProps CommandText Service App AppFrames AppLoads AppPending.

(** ** Replies *)

Definition signed_decimal (n : Z) : list Z := (if n <? 0 then [45] else []) ++ decimal (Z.abs n).

(** The bytes of a reply. *)
Definition reply_frame (reply : kvstore_reply) : list Z :=
  match reply with
  | REPLY_SIMPLE data => 43 :: data ++ [CR; LF]
  | REPLY_ERROR data => 45 :: data ++ [CR; LF]
  | REPLY_INTEGER n => 58 :: signed_decimal n ++ [CR; LF]
  | REPLY_BULK data => bulk_frame data
  | REPLY_NULL_BULK => [36; 45; 49; CR; LF]
  | REPLY_ARRAY elements => request_frame elements
  end.

(** Integers have 64 bits; the parts of an array fit the memory; texts have no
    NUL. *)
Definition reply_ok (reply : kvstore_reply) : Prop :=
  match reply with
  | REPLY_SIMPLE data | REPLY_ERROR data => Forall (fun b => b <> 0) data
  | REPLY_INTEGER n => - 2 ^ 63 <= n < 2 ^ 63
  | REPLY_ARRAY elements => zlen elements <= SIZE_MAX
  | _ => True
  end.

Lemma decimal_short v : 0 <= v <= UINT64_MAX -> 1 <= zlen (decimal v) <= 20.
Proof. intros Hv. by destruct (decimal_spec v Hv) as (_ & ? & _). Qed.

Lemma c_string_text data : Forall (fun b => b <> 0) data -> c_string data = data.
Proof. induction 1 as [|b data Hb _ IH]; cbn; [done|]. destruct (Z.eqb_spec b 0); [done|]. by rewrite IH. Qed.

Lemma array_required_spec required elements n :
  0 <= required -> array_required required elements = Some n ->
  Forall payload_ok elements /\ required + zlen (concat (map bulk_frame elements)) <= n.
Proof.
  revert required. induction elements as [|e elements IH]; intros required Hr; cbn [array_required map concat].
  - intros [= <-]. split; [constructor|]. rewrite zlen_nil. lia.
  - destruct (_ || _) eqn:Eb; [done|]. apply orb_false_iff in Eb as [E1 E2]. rewrite Z.gtb_ltb in E1, E2. apply Z.ltb_ge in E1. apply Z.ltb_ge in E2.
    pose proof (zlen_nonneg e). intros E. destruct (IH (required + (zlen e + 64)) ltac:(lia) E) as [I1 I2]. split; [constructor; [|done]; unfold payload_ok; lia|].
    rewrite zlen_app, zlen_bulk_frame. unfold SIZE_MAX, UINT64_MAX in *. pose proof (decimal_short (zlen e) ltac:(unfold UINT64_MAX; lia)). lia.
Qed.

(** What the handler asks for is enough for the whole reply. *)
Lemma encoding_fits reply n capacity :
  reply_ok reply -> reply_required reply = Some n -> n <= capacity ->
  0 <= n /\ reply_encoding capacity reply = Some (reply_frame reply) /\ zlen (reply_frame reply) <= capacity.
Proof.
  intros Hok E Hc. destruct reply as [data|data|v|data| |elements]; cbn [reply_required reply_encoding reply_frame reply_ok] in *.
  - rewrite (c_string_text data Hok). destruct (_ >? _); [done|]. injection E as <-. pose proof (zlen_nonneg data). split; [lia|]. unfold resp_encode_simple_string, encode_line.
    destruct (Z.gtb_spec (zlen data) capacity); [lia|]. destruct (Z.ltb_spec (capacity - zlen data) 3); [lia|]. split; [done|]. autorewrite with zlen. lia.
  - rewrite (c_string_text data Hok). destruct (_ >? _); [done|]. injection E as <-. pose proof (zlen_nonneg data). split; [lia|]. unfold resp_encode_error, encode_line.
    destruct (Z.gtb_spec (zlen data) capacity); [lia|]. destruct (Z.ltb_spec (capacity - zlen data) 3); [lia|]. split; [done|]. autorewrite with zlen. lia.
  - injection E as <-. split; [lia|]. pose proof (decimal_short (Z.abs v) ltac:(unfold UINT64_MAX; lia)) as Hd. unfold resp_encode_integer, signed_decimal.
    destruct (Z.eqb_spec capacity 0); [lia|]. replace (if v <? 0 then - (v + 1) + 1 else v) with (Z.abs v) by (destruct (Z.ltb_spec v 0); lia).
    destruct (Z.ltb_spec v 0), (Z.ltb_spec capacity 2); try lia; cbn [andb]; (match goal with |- context [capacity <? ?x] => destruct (Z.ltb_spec capacity x); [lia|] end); (split; [done|]); cbn [app]; autorewrite with zlen; lia.
  - destruct (Z.gtb_spec (zlen data) (SIZE_MAX - 64)); [done|]. injection E as <-. pose proof (zlen_nonneg data). split; [lia|].
    pose proof (decimal_short (zlen data) ltac:(unfold UINT64_MAX, SIZE_MAX in *; lia)). pose proof (zlen_bulk_frame data).
    rewrite encode_bulk_spec by (unfold payload_ok; lia). destruct (Z.ltb_spec capacity (zlen (bulk_frame data))); [lia|]. split; [done|lia].
  - injection E as <-. split; [lia|]. unfold resp_encode_null_bulk_string. destruct (Z.ltb_spec capacity (zlen [36; 45; 49; CR; LF])) as [Hx|Hx]; [unfold zlen in Hx; cbn [length] in Hx; lia|]. split; [done|]. unfold zlen. cbn [length]. lia.
  - destruct (array_required_spec 64 elements n ltac:(lia) E) as [Hp Hn]. pose proof (zlen_nonneg (concat (map bulk_frame elements))) as Hz. split; [lia|].
    pose proof (decimal_short (zlen elements)) as Hd. unfold UINT64_MAX, SIZE_MAX in *. pose proof (zlen_nonneg elements). specialize (Hd ltac:(lia)).
    set (header := [42] ++ decimal (zlen elements) ++ [CR; LF]).
    assert (Hh : zlen header = zlen (decimal (zlen elements)) + 3) by (unfold header; autorewrite with zlen; lia).
    destruct (Z.geb_spec (zlen header) capacity); [lia|]. change (Some <$> elements) with (map Some elements). rewrite encode_elements_spec by (done || lia).
    destruct (Z.ltb_spec (capacity - zlen header) (zlen (concat (map bulk_frame elements)))); [lia|].
    split; [cbn [fmap option_fmap option_map]; unfold header, request_frame; f_equal; app_eq|]. rewrite zlen_request_frame. lia.
Qed.

(** Replies are written whole.  [encode_reply] appends exactly the bytes of
    the reply to the readable bytes of the response, or fails and leaves them;
    the space it asks for is always enough, so that with memory it fails only
    for a reply of about the size of the address space. *)
Theorem encode_reply_correct junk m reply b :
  wf b -> reply_ok reply ->
  let '(r, b', _) := encode_reply junk m reply b in
  (r = 0 /\ wf b' /\ NetBuffer.contents b' = NetBuffer.contents b ++ reply_frame reply \/ r = -1 /\ wf b' /\ NetBuffer.contents b' = NetBuffer.contents b) /\
  (forall n, m = [] -> reply_required reply = Some n -> n <= SIZE_MAX - net_buffer_readable b -> r = 0).
Proof.
  intros Hwf Hok. unfold encode_reply. destruct (reply_required reply) as [n|] eqn:En; [|split; [by right|done]].
  assert (Hn0 : 0 <= n) by (destruct (encoding_fits reply n n Hok En ltac:(lia)); done).
  pose proof (write_commit_correct junk m b n (reply_frame reply) Hwf Hn0) as Hw.
  assert (Hmem : m = [] -> n <= SIZE_MAX - net_buffer_readable b -> (net_buffer_write_pointer junk m b n).1.1 <> None).
  { intros -> Hle. unfold net_buffer_write_pointer. destruct (reserve_succeeds junk b n Hwf ltac:(lia)) as (b1 & m1 & -> & _). done. }
  destruct (net_buffer_write_pointer junk m b n) as [[region b1] m1]. cbn [fst] in Hmem. destruct region as [[off room]|].
  - destruct (net_buffer_commit (fill_region b1 (reply_frame reply)) (zlen (reply_frame reply))) as [ret b2] eqn:Ec. destruct Hw as (Hroom & Hfit & _).
    destruct (encoding_fits reply n room Hok En Hroom) as (_ & -> & Hlen). rewrite Ec. destruct (Hfit Hlen) as (-> & Hwf2 & Hc). split; [by left|done].
  - split; [right; by destruct Hw|]. intros n' Hm [= <-] Hle. by destruct (Hmem Hm Hle).
Qed.

(** ** The start *)

Section Start.
Context {A : Type} `{LogOps A}.

Lemma create_good {V} m (h : hashtable V) m' : kv_hash_create m = (Some h, m') -> hash_wf h /\ to_map h = ∅.
Proof. intros E. pose proof (create_spec (V := V) m) as Hc. rewrite E in Hc. by destruct Hc as (? & ? & _). Qed.

Lemma opened_ok (w : world A) store uuid start ttl capacity (a : app_context A) :
  sv_initialized (w_service w) = true -> my_inflight store = [] -> my_completed store = [] ->
  open_app w store uuid start ttl capacity = Some a -> pending_ok [] [] a /\ ap_waiting a = [] /\ store_waiters a = [] /\ ap_tail a = None.
Proof.
  intros Hi E1 E2 E. unfold open_app in E.
  destruct (kv_hash_create (w_mem w)) as [[h1|] m1] eqn:C1; [|done]. destruct (kv_hash_create m1) as [[h2|] m2] eqn:C2; [|done]. destruct (kv_hash_create m2) as [[h3|] m3] eqn:C3; [|done].
  apply create_good in C1 as [W1 _]. apply create_good in C2 as [W2 _]. apply create_good in C3 as [W3 M3]. injection E as <-. unfold kvstore_service_attach_mysql. rewrite Hi. cbn [negb].
  set (a := mk_app _ _ _ _ _ _ _ _ _ _). assert (Ev : loads_view (ap_world a) = Some ([], [])) by (unfold loads_view; cbn; by rewrite E1, E2).
  assert (Es : store_waiters a = []) by (unfold store_waiters; by rewrite Ev). assert (Ew : waiting_for a = ∅) by (unfold waiting_for; cbn; by rewrite M3, fmap_empty).
  split; [|done]. split; rewrite ?Ev, ?Es, ?Ew; cbn [ap_requests ap_waiting a app]; try done.
  - split; cbn; congruence.
  - apply NoDup_nil_2.
  - intros p. rewrite lookup_empty. split; [by intros [? ?]|by intros ?%not_elem_of_nil].
  - intros p [? Hp]. by rewrite lookup_empty in Hp.
Qed.
End Start.

(** A handler without a persistence manager. *)
Definition idle_admin : persistence_admin (A := aof) := mk_admin None None None.

Lemma idle_admin_keeps : admin_keeps idle_admin.
Proof. by split. Qed.

Definition app_service : kvstore_service aof :=
  match kvstore_service_init [] 0 0 as x return match x.1 with Some _ => kvstore_service aof | None => unit end with
  | (Some s, _) => s
  | (None, _) => tt
  end.

Definition app_world : world aof := mk_world [] 1000 [] app_service.

Definition sample_app : app_context aof :=
  match open_app app_world sample_store (replicate 16 1) 0 3000 100 as x return match x with Some _ => app_context aof | None => unit end with
  | Some a => a
  | None => tt
  end.

Lemma sample_app_ok : pending_ok [] [] sample_app.
Proof. by destruct (opened_ok app_world sample_store (replicate 16 1) 0 3000 100 sample_app eq_refl eq_refl eq_refl eq_refl). Qed.

(** [GET a] from the connection [token]. *)
Definition ask_app (token : Z) (a : app_context aof) : dispatched * app_context aof :=
  dispatch_request idle_admin 0 (request_frame [lit "GET"; [97]]) false sample_buffer token a.
