(* ===== verification/AppFresh.v ===== *)
(** Values that are not fresh: a load that a write overtook is recognised, a key
    stays dirty until its mutation was applied, and a key that the database did
    not have is remembered for the configured time. *)

From S2P Require Import Prelude NetBuffer Reactor Resp HashTable ZOrder Object ExpireHeap LruList Cache.
From S2P Require Import Rdb Aof Double MysqlStore MysqlThreads MysqlProps CommandText Service App AppFrames AppLoads AppPending AppProps.

Section Stale.
Context {A : Type} `{LogOps A}.
Implicit Types (a b : app_context A).

(** ** Overtaken loads *)

Definition generation_of a (k : list Z) : option Z := ls_generation <$> view (ap_loads a) !! k.

(** The state of a request does not depend on the registration of others. *)
Lemma update_other x p f a : p <> x -> ap_requests (update_request x f a).2 !! p = ap_requests a !! p.
Proof. intros Hp. unfold update_request, get_app, mbind, app_bind, set_requests. cbn. by rewrite lookup_alter_ne. Qed.

Lemma join_fresh x node h a k p :
  hash_wf h -> kv_hash_find h (Some k) = Some node -> p <> x ->
  let a' := (join_load x (Some (node, h)) a).2 in
  ap_requests a' !! p = ap_requests a !! p /\ (a' = a \/ forall j, generation_of a' j = ls_generation <$> to_map h !! j).
Proof.
  intros Hw F Hp. cbn [join_load]. destruct (_ =? _); [auto|]. unfold update_request, get_app, mbind, app_bind, set_requests, set_loads, mret, app_ret. cbn [snd ap_requests].
  split; [by rewrite lookup_alter_ne|]. right. intros j. unfold generation_of. cbn [ap_loads view]. destruct (set_found h k node (mk_load_state (ls_generation (npayload node)) (ls_waiters (npayload node) + 1)) Hw F) as [_ ->].
  destruct (find_node_spec h k node Hw F) as (_ & _ & Hm). destruct (decide (k = j)) as [->|Hj]; [by rewrite lookup_insert_eq, Hm|by rewrite lookup_insert_ne].
Qed.

(** A registration leaves the generations of known keys and the other requests. *)
Lemma register_fresh held loose x p k g a :
  pending_ok held (x :: loose) a -> p <> x -> generation_of a k = Some g ->
  let a' := (register_pending_load x a).2 in ap_requests a' !! p = ap_requests a !! p /\ generation_of a' k = Some g.
Proof.
  intros P Hp Hg. cbn zeta. destruct (po_there _ _ _ P) as [h E]. rewrite (register_equation x a h E). cbn zeta. destruct (stepped h (go_loads _ (po_good _ _ _ P) h E)) as [S1 S2].
  set (h1 := (kv_hash_rehash_step h 1).2) in *. unfold generation_of in Hg. rewrite E in Hg. cbn [view] in Hg. rewrite <- S2 in Hg. set (b := (set_loads h1 a).2).
  assert (Hb : ap_requests b !! p = ap_requests a !! p /\ generation_of b k = Some g) by done. unfold find_load. destruct (kv_hash_find h1 (Some (pending_key x a))) as [node|] eqn:F.
  { unfold mret, app_ret. destruct (join_fresh x node h1 b _ p S1 F Hp) as [J1 [J2|J2]]; [by rewrite J2|]. by rewrite J1, J2. }
  unfold mbind, app_bind, mret, app_ret, alloc, on_service, allocating. destruct (malloc (w_mem (ap_world b))) as [ok m1]. destruct ok; [|done]. cbn [negb w_mem ap_world put_world].
  pose proof (insert_found m1 h1 (pending_key x a) (mk_load_state 0 0) S1) as Hi. destruct (kv_hash_insert m1 h1 (Some (pending_key x a)) (mk_load_state 0 0)) as [[[r n] h2] m'].
  destruct Hi as [W2 [(-> & Em & node & -> & Ev & F2)|(-> & Em)]]; cbn [Z.eqb negb fmap option_fmap option_map].
  - unfold set_loads. set (c := mk_app _ _ _ _ _ _ _ _ _ _).
    assert (Hk : ls_generation <$> to_map h2 !! k = Some g).
    { rewrite Em. apply find_None_map in F; [|done]. rewrite lookup_insert_ne; [done|]. intros <-. by rewrite F in Hg. }
    destruct (join_fresh x node h2 c _ p W2 F2 Hp) as [J1 [J2|J2]]; [by rewrite J2|]. by rewrite J1, J2.
  - cbn [join_load]. unfold mret, app_ret. split; [done|]. unfold generation_of. cbn. by rewrite Em.
Qed.

(** Leaving the registry keeps the state of a key others wait for. *)
Lemma unregister_fresh held loose x p k g a :
  pending_ok (x :: held) loose a -> p <> x -> generation_of a k = Some g -> p ∈ store_waiters a ++ x :: held -> pending_key p a = k ->
  let a' := (unregister_pending_load x a).2 in ap_requests a' !! p = ap_requests a !! p /\ generation_of a' k = Some g.
Proof.
  intros P Hp Hg Hin Hk. cbn zeta. destruct (po_there _ _ _ P) as [h E]. pose proof (go_loads _ (po_good _ _ _ P) h E) as Hw.
  assert (Hone : 1 <= waiters_of a k (store_waiters a ++ held)).
  { unfold waiters_of. assert (Hf : p ∈ filter (fun y => pending_key y a = k) (store_waiters a ++ held)). { apply list_elem_of_filter. split; [done|]. rewrite !elem_of_app, elem_of_cons in *. tauto. }
    apply list_elem_of_split in Hf as (l1 & l2 & ->). rewrite zlen_app, zlen_cons. pose proof (zlen_nonneg l1). pose proof (zlen_nonneg l2). lia. }
  pose proof (po_loads _ _ _ P (pending_key x a)) as Hc. rewrite (waiters_of_perm a _ _ (x :: store_waiters a ++ held)), waiters_of_cons, decide_True in Hc by (done || solve_Permutation).
  unfold unregister_pending_load, get_app, mbind, app_bind. destruct (ap_requests a !! x) as [q|] eqn:Hq; [|done]. rewrite E. destruct (negb (pq_registered q)); [done|].
  assert (Hkx : pending_key x a = arg (pq_arguments q) 1) by (unfold pending_key; by rewrite Hq). rewrite <- Hkx. unfold update_request, get_app, mbind, app_bind, set_requests.
  destruct (kv_hash_find h (Some (pending_key x a))) as [node|] eqn:F; [|cbn; split; [by rewrite lookup_alter_ne|]; unfold generation_of in *; cbn; by rewrite E in *].
  rewrite (find_waiters h a _ node E Hw F) in Hc. cbn [default from_option id] in Hc. unfold generation_of in Hg. rewrite E in Hg. cbn [view] in Hg.
  set (waiters := if ls_waiters (npayload node) >? 0 then _ else _). destruct (Z.eqb_spec waiters 0) as [Hz|Hz]; unfold set_loads; cbn [snd ap_requests]; (split; [by rewrite lookup_alter_ne|]); unfold generation_of; cbn [ap_loads view].
  - destruct (removed_found h _ node Hw F) as [_ ->]. rewrite lookup_delete_ne; [done|]. intros Hxk. rewrite Hxk in Hc. unfold waiters in Hz. destruct (Z.gtb_spec (ls_waiters (npayload node)) 0); lia.
  - destruct (set_found h _ node (mk_load_state (ls_generation (npayload node)) waiters) Hw F) as [_ ->]. destruct (find_node_spec h _ node Hw F) as (_ & _ & Hm).
    destruct (decide (pending_key x a = k)) as [Hxk|Hxk]; [|by rewrite lookup_insert_ne]. rewrite Hxk in Hm |- *. rewrite lookup_insert_eq. by rewrite Hm in Hg.
Qed.

(** Code that leaves the registry alone. *)
Definition apart {T} (c : app_cmd A T) : Prop := forall a, ap_loads (c a).2 = ap_loads a.

Lemma apart_bind {T U} (c : app_cmd A T) (k : T -> app_cmd A U) : apart c -> (forall x, apart (k x)) -> apart (c ≫= k).
Proof. intros Hc Hk a. unfold mbind, app_bind. specialize (Hc a). destruct (c a) as [x b]. by rewrite Hk. Qed.

Lemma apart_service {T} (c : cmd A T) : apart (on_service c).
Proof. intros a. unfold on_service. by destruct (c (ap_world a)). Qed.

Lemma apart_dirty h : apart (set_dirty h).
Proof. done. Qed.

Ltac solve_apart :=
  repeat first
    [ progress intros
    | apply apart_service
    | apply apart_dirty
    | match goal with
      | |- apart (mret _) => done
      | |- apart (mbind _ _) => apply apart_bind
      | |- apart (if ?x then _ else _) => destruct x
      | |- apart (match ?x with _ => _ end) => destruct x
      end ].

(** A mutation of a key moves its generation. *)
Lemma bump_fresh key k g a :
  good a -> generation_of a k = Some g ->
  generation_of (bump_inflight_load_generation key a).2 k = Some (if bool_decide (key = k) then wrap64 (g + 1) else g).
Proof.
  intros G Hg. unfold bump_inflight_load_generation, get_app, mbind, app_bind. destruct (ap_loads a) as [h|] eqn:E; [|unfold generation_of in Hg; by rewrite E in Hg].
  pose proof (go_loads _ G h E) as Hw. unfold generation_of in Hg. rewrite E in Hg. cbn [view] in Hg. destruct (kv_hash_find h (Some key)) as [node|] eqn:F.
  - unfold generation_of. cbn [set_loads snd ap_loads view]. destruct (set_found h key node (mk_load_state (wrap64 (ls_generation (npayload node) + 1)) (ls_waiters (npayload node))) Hw F) as [_ ->].
    destruct (find_node_spec h key node Hw F) as (_ & _ & Hm). case_bool_decide as Hk; [subst; rewrite lookup_insert_eq; rewrite Hm in Hg; injection Hg as <-; done|by rewrite lookup_insert_ne].
  - cbn [snd mret app_ret]. apply find_None_map in F; [|done]. rewrite bool_decide_false by (intros ->; by rewrite F in Hg). unfold generation_of. by rewrite E.
Qed.

Lemma mark_fresh key sequence k g a :
  good a -> is_Some (ap_dirty a) -> generation_of a k = Some g ->
  let a' := (mark_dirty_key key sequence a).2 in
  ap_requests a' = ap_requests a /\ generation_of a' k = Some (if bool_decide (key = k) && negb (sequence =? 0) then wrap64 (g + 1) else g).
Proof.
  intros G [d Ed] Hg. cbn zeta. split; [apply (quietly_mark key sequence a G)|]. unfold mark_dirty_key. unfold get_app at 1. unfold mbind at 1. unfold app_bind at 1. rewrite Ed.
  destruct (sequence =? 0); cbn [negb]; [by rewrite andb_false_r|]. rewrite andb_true_r. unfold mbind at 1. unfold app_bind at 1. pose proof (bump_fresh key k g a G Hg) as Hb.
  destruct (bump_inflight_load_generation key a) as [u b]. cbn [snd] in Hb. rewrite <- Hb. unfold generation_of. do 3 f_equal. match goal with |- ap_loads (?c b).2 = _ => enough (Hc : apart c) by apply Hc end.
  cbn zeta. solve_apart.
Qed.

(** What happens to the registry while the request [p] waits for its load;
    the number counts the mutations of [key]. *)
Inductive registry_run (p : Z) (key : list Z) : app_context A -> Z -> app_context A -> Prop :=
| run_start a : good a -> registry_run p key a 0 a
| run_register a n b x held loose :
    registry_run p key a n b -> pending_ok held (x :: loose) b -> x <> p -> registry_run p key a n (register_pending_load x b).2
| run_unregister a n b x held loose :
    registry_run p key a n b -> pending_ok (x :: held) loose b -> x <> p -> p ∈ store_waiters b ++ held -> registry_run p key a n (unregister_pending_load x b).2
| run_mark a n b k sequence :
    registry_run p key a n b -> good b -> is_Some (ap_dirty b) ->
    registry_run p key a (if bool_decide (k = key) && negb (sequence =? 0) then n + 1 else n) (mark_dirty_key k sequence b).2
| run_other a n b c :
    registry_run p key a n b -> ap_requests c !! p = ap_requests b !! p -> ap_loads c = ap_loads b -> good c -> registry_run p key a n c.

Lemma run_invariant p q key a n b :
  registry_run p key a n b -> ap_requests a !! p = Some q -> arg (pq_arguments q) 1 = key -> generation_of a key = Some (pq_generation q) -> 0 <= pq_generation q < 2 ^ 64 ->
  ap_requests b !! p = Some q /\ generation_of b key = Some (wrap64 (pq_generation q + n)) /\ 0 <= n.
Proof.
  intros R Hq Hk Hg Hr. induction R as [a G|a n b x held loose R IH P Hx|a n b x held loose R IH P Hx Hin|a n b k sequence R IH G Hd|a n b c R IH E1 E2 G].
  - rewrite Z.add_0_r. unfold wrap64. rewrite Z.mod_small by lia. split_and!; [done|done|lia].
  - destruct (IH Hq Hg) as (I1 & I2 & I3). destruct (register_fresh held loose x p key _ b P (not_eq_sym Hx) I2) as [F1 F2]. by rewrite F1, F2.
  - destruct (IH Hq Hg) as (I1 & I2 & I3). destruct (unregister_fresh held loose x p key _ b P (not_eq_sym Hx) I2) as [F1 F2].
    + rewrite elem_of_app in *. rewrite elem_of_cons. tauto.
    + unfold pending_key. by rewrite I1.
    + by rewrite F1, F2.
  - destruct (IH Hq Hg) as (I1 & I2 & I3). destruct (mark_fresh k sequence key _ b G Hd I2) as [F1 F2]. rewrite F1, F2. destruct (bool_decide (k = key) && negb (sequence =? 0)); [|done].
    split_and!; [done| |lia]. f_equal. unfold wrap64. rewrite Zplus_mod_idemp_l. f_equal. lia.
  - destruct (IH Hq Hg) as (I1 & I2 & I3). unfold generation_of in *. by rewrite E1, E2.
Qed.

Lemma run_good p key a n b : registry_run p key a n b -> good b.
Proof.
  destruct 1 as [a G|a n b x held loose R P Hx|a n b x held loose R P Hx Hin|a n b k sequence R G Hd|a n b c R E1 E2 G]; try done.
  - pose proof (register_spec held loose x b P) as S. destruct (register_pending_load x b) as [r c]. destruct S as [_ [[_ S]|[_ S]]]; apply S.
  - destruct (unregister_spec held loose x b P) as [S _]. apply S.
  - apply (quietly_mark k sequence b G).
Qed.

(** C13. Loads that a write overtook.  Whatever else is registered, withdrawn or
    written while a request waits for its load, the request is found stale
    exactly when mutations of its key were made since it was registered, up to
    a multiple of 2^64 of them: a value that was read before such a mutation
    does not reach the cache. *)
Theorem overtaken_load_noticed p q key a n b :
  registry_run p key a n b -> ap_requests a !! p = Some q -> pq_registered q = true -> arg (pq_arguments q) 1 = key ->
  generation_of a key = Some (pq_generation q) -> 0 <= pq_generation q < 2 ^ 64 ->
  (pending_load_is_stale p b).1 = negb (n mod 2 ^ 64 =? 0).
Proof.
  intros R Hq Hreg Hk Hg Hr. destruct (run_invariant p q key a n b R Hq Hk Hg Hr) as (I1 & I2 & I3). pose proof (run_good _ _ _ _ _ R) as G.
  unfold pending_load_is_stale, get_app, mbind, app_bind. rewrite I1. unfold generation_of in I2. destruct (ap_loads b) as [h|] eqn:E; [|done]. cbn [view] in I2. rewrite Hreg, Hk. cbn [negb].
  pose proof (go_loads _ G h E) as Hw. apply fmap_Some in I2 as (s & Hs & I2). destruct (find_Some_map h key s Hw Hs) as (node & -> & _ & _ & ->). unfold mret, app_ret. cbn [fst]. rewrite <- I2.
  f_equal. unfold wrap64. rewrite <- Zplus_mod_idemp_r. pose proof (Z.mod_pos_bound n (2 ^ 64) ltac:(lia)) as Hn. set (m := n mod 2 ^ 64) in *.
  assert (Hwrap : (pq_generation q + m) mod 2 ^ 64 = pq_generation q + m - (if pq_generation q + m <? 2 ^ 64 then 0 else 2 ^ 64)).
  { destruct (Z.ltb_spec (pq_generation q + m) (2 ^ 64)); [rewrite Z.mod_small; lia|]. symmetry. apply (Z.mod_unique_pos _ _ 1); lia. }
  rewrite Hwrap. destruct (Z.ltb_spec (pq_generation q + m) (2 ^ 64)), (Z.eqb_spec m 0); first [apply Z.eqb_eq; lia|apply Z.eqb_neq; lia].
Qed.
End Stale.

(** A write to the key while its load is in flight. *)
Definition waiting_app : app_context aof := (ask_app 7 sample_app).2.

Lemma waiting_app_good : good waiting_app.
Proof.
  destruct (request_spec idle_admin 0 idle_admin_keeps [] [] 7 (request_frame [lit "GET"; [97]]) false sample_buffer sample_app sample_app_ok)
    as [(_ & P & _)|(_ & p & strand & P & _)]; apply P.
Qed.

Lemma overtaken_load_noticed_witness :
  (pending_load_is_stale 0 (mark_dirty_key [97] 5 waiting_app).2).1 = true /\ (pending_load_is_stale 0 (mark_dirty_key [98] 6 waiting_app).2).1 = false.
Proof.
  assert (R : forall k sequence, registry_run 0 [97] waiting_app (if bool_decide (k = [97]) && negb (sequence =? 0) then 0 + 1 else 0) (mark_dirty_key k sequence waiting_app).2).
  { intros k sequence. apply run_mark; [apply run_start, waiting_app_good|apply waiting_app_good|]. eexists. vm_compute. reflexivity. }
  split.
  - apply (overtaken_load_noticed 0 (mk_pending 7 [lit "GET"; [97]] 0 true) [97] waiting_app 1 _ (R [97] 5)); [vm_compute; reflexivity..|cbn; lia].
  - apply (overtaken_load_noticed 0 (mk_pending 7 [lit "GET"; [97]] 0 true) [97] waiting_app 0 _ (R [98] 6)); [vm_compute; reflexivity..|cbn; lia].
Defined.

(** ** Dirty keys *)

Section Tables.
Context {A : Type} `{LogOps A}.
Implicit Types (a b : app_context A).

Definition applied_of a : Z := ms_applied (match sv_mysql (w_service (ap_world a)) with Some s => mysql_store_get_stats s | None => no_mysql_stats end).

Lemma insert_map m (h : hashtable Z) k v :
  hash_wf h ->
  let '(r, _, h', _) := kv_hash_insert m h (Some k) v in
  hash_wf h' /\ (r = 0 /\ to_map h' = <[k := v]> (to_map h) \/ r = -1 /\ to_map h' = to_map h).
Proof.
  intros Hw. pose proof (insert_spec m h k v Hw) as Hs. destruct (kv_hash_insert m h (Some k) v) as [[[r n] h'] m']. destruct Hs as (W & [(-> & _ & _ & E)|(-> & _ & E)]); auto.
Qed.

Lemma bump_dirty key a : ap_dirty (bump_inflight_load_generation key a).2 = ap_dirty a.
Proof. unfold bump_inflight_load_generation, get_app, mbind, app_bind. destruct (ap_loads a) as [h|]; [|done]. by destruct (kv_hash_find h (Some key)). Qed.

Lemma mark_map key sequence a d :
  good a -> ap_dirty a = Some d -> sequence <> 0 ->
  let '(r, a') := mark_dirty_key key sequence a in
  r = 0 /\ view (ap_dirty a') = <[key := Z.max sequence (default sequence (view (ap_dirty a) !! key))]> (view (ap_dirty a)) \/
  r = -1 /\ view (ap_dirty a') = view (ap_dirty a).
Proof.
  intros G Ed Hs. unfold mark_dirty_key. unfold get_app at 1. unfold mbind at 1. unfold app_bind at 1. rewrite Ed. destruct (Z.eqb_spec sequence 0) as [?|_]; [done|].
  unfold mbind at 1. unfold app_bind at 1. destruct (bump_inflight_load_generation key a) as [u b]. cbn zeta. destruct (stepped d (go_dirty a G d Ed)) as [S1 S2]. set (d1 := (kv_hash_rehash_step d 1).2) in *.
  cbn [view]. rewrite <- S2. unfold mbind, app_bind. set (c := (set_dirty d1 b).2). change (set_dirty d1 b) with (tt, c). cbv beta iota.
  destruct (kv_hash_find d1 (Some key)) as [node|] eqn:F.
  - destruct (find_node_spec d1 key node S1 F) as (_ & _ & Hm). rewrite Hm. cbn [default from_option id]. destruct (Z.gtb_spec sequence (npayload node)) as [Hgt|Hle]; unfold mret, app_ret, set_dirty; left; cbn [snd fst ap_dirty view c]; (split; [done|]).
    + destruct (set_found d1 key node sequence S1 F) as [_ ->]. by rewrite Z.max_l by lia.
    + rewrite Z.max_r by lia. by rewrite insert_id.
  - apply find_None_map in F; [|done]. rewrite F. cbn [default from_option id]. rewrite Z.max_id. unfold alloc, on_service, allocating. destruct (malloc (w_mem (ap_world c))) as [ok m1].
    destruct ok; cbn [negb]; [|by right]. pose proof (insert_map (w_mem (ap_world (put_world (mk_world m1 (w_now (ap_world c)) (w_ticks (ap_world c)) (w_service (ap_world c))) c))) d1 key sequence S1) as Hi.
    destruct (kv_hash_insert _ d1 (Some key) sequence) as [[[r n] h'] m']. destruct Hi as [_ [[-> Hi]|[-> Hi]]]; unfold mret, app_ret, set_dirty; cbn; rewrite Hi; auto.
Qed.

Lemma sequence_map key a d :
  good a -> ap_dirty a = Some d ->
  let '(r, a') := dirty_key_sequence key a in
  match view (ap_dirty a) !! key with
  | Some q => if q <=? applied_of a then r = 0 /\ view (ap_dirty a') = delete key (view (ap_dirty a)) else r = q /\ view (ap_dirty a') = view (ap_dirty a)
  | None => r = 0 /\ view (ap_dirty a') = view (ap_dirty a)
  end.
Proof.
  intros G Ed. unfold dirty_key_sequence, get_app, mbind, app_bind. rewrite Ed. cbn zeta. destruct (stepped d (go_dirty a G d Ed)) as [S1 S2]. set (d1 := (kv_hash_rehash_step d 1).2) in *.
  cbn [view]. rewrite <- S2. set (c := (set_dirty d1 a).2). change (set_dirty d1 a) with (tt, c). cbv beta iota. destruct (kv_hash_find d1 (Some key)) as [node|] eqn:F.
  - destruct (find_node_spec d1 key node S1 F) as (_ & _ & Hm). rewrite Hm. unfold store_stats, get_app, mbind, app_bind, mret, app_ret. change (ms_applied _) with (applied_of a).
    destruct (npayload node <=? applied_of a); [|done]. split; [done|]. cbn [set_dirty snd ap_dirty view]. by destruct (removed_found d1 key node S1 F) as [_ ->].
  - apply find_None_map in F; [|done]. by rewrite F.
Qed.

Lemma purge_map budget a d :
  good a -> ap_dirty a = Some d -> 0 <= budget ->
  let a' := (purge_applied_dirty_keys budget a).2 in
  forall k q, (view (ap_dirty a') !! k = Some q -> view (ap_dirty a) !! k = Some q) /\
    (view (ap_dirty a) !! k = Some q -> applied_of a < q -> view (ap_dirty a') !! k = Some q).
Proof.
  intros G Ed Hb. cbn zeta. intros k q. unfold purge_applied_dirty_keys, get_app, mbind, app_bind, applied_of, mret, app_ret. destruct (sv_mysql _) as [s|]; [|done]. rewrite Ed. cbn [set_dirty snd ap_dirty view].
  set (budget' := if budget =? 0 then 1 else budget). destruct (rehash_step_map d budget' (go_dirty a G d Ed)) as (W & M & _); [unfold budget'; destruct (_ =? _); lia|]. rewrite <- M.
  by destruct (purge_loop_spec (Z.to_nat budget) (ms_applied (mysql_store_get_stats s)) _ kv_hash_iterator_begin W (begin_ok _)) as [_ ?].
Qed.

(** C36. Dirty keys.  Marking makes its key dirty with the larger of its sequence
    number and the one it had, or fails and leaves the dirty keys as they are; the
    key is reported dirty, with that number, exactly as long as the writer has
    not applied it; and the bounded sweep drops only keys whose mutations were
    applied. *)
Theorem dirty_keys_correct key sequence budget a d :
  good a -> ap_dirty a = Some d -> sequence <> 0 -> 0 <= budget ->
  (let '(r, a') := mark_dirty_key key sequence a in
   r = 0 /\ view (ap_dirty a') = <[key := Z.max sequence (default sequence (view (ap_dirty a) !! key))]> (view (ap_dirty a)) \/
   r = -1 /\ view (ap_dirty a') = view (ap_dirty a)) /\
  (dirty_key_sequence key a).1 = match view (ap_dirty a) !! key with Some q => if q <=? applied_of a then 0 else q | None => 0 end /\
  forall k q, view (ap_dirty a) !! k = Some q -> applied_of a < q ->
    view (ap_dirty (purge_applied_dirty_keys budget a).2) !! k = Some q /\ view (ap_dirty (dirty_key_sequence key a).2) !! k = Some q.
Proof.
  intros G Ed Hs Hb. split; [by eapply mark_map|]. pose proof (sequence_map key a d G Ed) as Hq. destruct (dirty_key_sequence key a) as [r b]. cbn [fst snd]. split.
  - destruct (view (ap_dirty a) !! key) as [q|]; [|apply Hq]. destruct (q <=? applied_of a); apply Hq.
  - intros k q Hk Hlt. split; [by apply (proj2 (purge_map budget a d G Ed Hb k q))|]. destruct (view (ap_dirty a) !! key) as [q0|] eqn:E; [|destruct Hq as [_ Hq]; by rewrite Hq].
    destruct (Z.leb_spec q0 (applied_of a)); destruct Hq as [_ Hq]; rewrite Hq; [|done]. rewrite lookup_delete_ne; [done|]. intros <-. rewrite E in Hk. injection Hk as ->. lia.
Qed.
End Tables.

Lemma dirty_keys_correct_witness :
  (dirty_key_sequence [97] (mark_dirty_key [97] 5 waiting_app).2).1 = 5.
Proof.
  assert (G : good (mark_dirty_key [97] 5 waiting_app).2) by apply (quietly_mark [97] 5 waiting_app waiting_app_good).
  assert (Ed : exists d, ap_dirty (mark_dirty_key [97] 5 waiting_app).2 = Some d) by (eexists; vm_compute; reflexivity). destruct Ed as [d Ed].
  destruct (dirty_keys_correct [97] 5 16 _ d G Ed ltac:(lia) ltac:(lia)) as (_ & E & _). rewrite E. vm_compute. reflexivity.
Defined.

(** ** The negative cache *)

Section Negative.
Context {A : Type} `{LogOps A}.
Implicit Types (a b : app_context A).

Lemma contains_map key a h :
  good a -> ap_negative a = Some h ->
  let '(r, a') := negative_cache_contains key a in
  r = match view (ap_negative a) !! key with Some d => d >? w_now (ap_world a) | None => false end /\
  view (ap_negative a') = (if (r : bool) then view (ap_negative a) else delete key (view (ap_negative a))).
Proof.
  intros G E. unfold negative_cache_contains, get_app, mbind, app_bind. rewrite E. cbn zeta. destruct (stepped h (go_negative a G h E)) as [S1 S2]. set (h1 := (kv_hash_rehash_step h 1).2) in *.
  cbn [view]. rewrite <- S2. set (c := (set_negative h1 a).2). change (set_negative h1 a) with (tt, c). cbv beta iota. destruct (kv_hash_find h1 (Some key)) as [node|] eqn:F.
  - destruct (find_node_spec h1 key node S1 F) as (_ & _ & Hm). rewrite Hm. unfold on_service, current_time, mret, app_ret. change (w_now (ap_world c)) with (w_now (ap_world a)).
    destruct (npayload node >? w_now (ap_world a)); [done|]. split; [done|]. cbn [set_negative ap_negative view]. by destruct (removed_found h1 key node S1 F) as [_ ->].
  - apply find_None_map in F; [|done]. rewrite F. unfold mret, app_ret. split; [done|]. cbn [c set_negative snd ap_negative view]. by rewrite delete_id.
Qed.

Lemma add_map key a h :
  good a -> ap_negative a = Some h -> 0 < ap_capacity a -> 0 < ap_ttl a -> Z.of_nat (size (view (ap_negative a))) <= ap_capacity a ->
  let '(r, a') := negative_cache_add key a in
  Z.of_nat (size (view (ap_negative a'))) <= ap_capacity a /\
  (forall k d, k <> key -> view (ap_negative a') !! k = Some d -> view (ap_negative a) !! k = Some d) /\
  (r = 0 /\ view (ap_negative a') !! key = Some (negative_deadline (w_now (ap_world a)) (ap_ttl a)) \/ r = -1 /\ view (ap_negative a') !! key = None).
Proof.
  intros G E Hc Ht Hs. unfold negative_cache_add, get_app, mbind, app_bind. rewrite E. destruct (Z.eqb_spec (ap_capacity a) 0) as [?|_]; [lia|]. destruct (Z.eqb_spec (ap_ttl a) 0) as [?|_]; [lia|].
  cbn [orb]. destruct (stepped h (go_negative a G h E)) as [S1 S2]. set (h1 := (kv_hash_rehash_step h 1).2) in *. rewrite E in Hs. cbn [view] in Hs |- *. rewrite <- S2 in Hs |- *.
  set (c := (set_negative h1 a).2). change (set_negative h1 a) with (tt, c). cbv beta iota. unfold on_service at 1, current_time. change (w_now (ap_world c)) with (w_now (ap_world a)).
  set (deadline := negative_deadline (w_now (ap_world a)) (ap_ttl a)). destruct (kv_hash_find h1 (Some key)) as [node|] eqn:F.
  - destruct (find_node_spec h1 key node S1 F) as (_ & _ & Hm). unfold mret, app_ret, set_negative. cbn [ap_negative view]. destruct (set_found h1 key node deadline S1 F) as [_ ->].
    split; [rewrite map_size_insert_Some; [done|by exists (npayload node)]|]. split; [intros k d Hk; by rewrite lookup_insert_ne by done|]. left. by rewrite lookup_insert_eq.
  - apply find_None_map in F; [|done]. destruct (make_room_spec (ap_capacity a) h1 S1 Hc Hs) as (M1 & M2 & M3). set (h2 := negative_make_room (ap_capacity a) h1) in *.
    assert (M4 : to_map h2 !! key = None) by (eapply lookup_weaken_None; [exact F|done]). assert (M5 : forall k d, to_map h2 !! k = Some d -> to_map h1 !! k = Some d) by (intros k d Hk; by eapply lookup_weaken).
    unfold set_negative, alloc, on_service, allocating. cbn [ap_world put_world w_mem]. destruct (malloc _) as [ok m1]. destruct ok; cbn [negb].
    2:{ unfold mret, app_ret. cbn [ap_negative view put_world]. split; [lia|]. split; [intros k d _; apply M5|by right]. }
    cbn [ap_world put_world w_mem]. pose proof (insert_map m1 h2 key deadline M1) as Hi. destruct (kv_hash_insert m1 h2 (Some key) deadline) as [[[r n] h3] m']. unfold mret, app_ret.
    destruct Hi as [_ [[-> Hi]|[-> Hi]]]; cbn [Z.eqb negb ap_negative view]; rewrite Hi.
    + split; [rewrite map_size_insert_None by done; lia|]. split; [intros k d Hk; rewrite lookup_insert_ne by done; apply M5|]. left. by rewrite lookup_insert_eq.
    + split; [lia|]. split; [intros k d _; apply M5|by right].
Qed.

Lemma invalidate_map key a h :
  good a -> ap_negative a = Some h -> view (ap_negative (negative_cache_invalidate key a).2) = delete key (view (ap_negative a)).
Proof.
  intros G E. unfold negative_cache_invalidate, get_app, mbind, app_bind. rewrite E. cbn zeta. destruct (stepped h (go_negative a G h E)) as [S1 S2].
  cbn [set_negative snd ap_negative view]. destruct (removed_key _ key S1) as [_ ->]. by rewrite S2.
Qed.

(** The negative cache.  A key is known to be missing exactly until the
    deadline it was added with; adding a key sets its deadline [ttl]
    milliseconds ahead, saturating, and forgets at most other keys, never
    exceeding the capacity; a write to the key removes it. *)
Theorem negative_cache_correct key a h :
  good a -> ap_negative a = Some h -> 0 < ap_capacity a -> 0 < ap_ttl a -> Z.of_nat (size (view (ap_negative a))) <= ap_capacity a ->
  (negative_cache_contains key a).1 = match view (ap_negative a) !! key with Some d => d >? w_now (ap_world a) | None => false end /\
  view (ap_negative (negative_cache_invalidate key a).2) = delete key (view (ap_negative a)) /\
  (let '(r, a') := negative_cache_add key a in
   Z.of_nat (size (view (ap_negative a'))) <= ap_capacity a /\
   (forall k d, k <> key -> view (ap_negative a') !! k = Some d -> view (ap_negative a) !! k = Some d) /\
   (r = 0 /\ view (ap_negative a') !! key = Some (negative_deadline (w_now (ap_world a)) (ap_ttl a)) \/ r = -1 /\ view (ap_negative a') !! key = None)).
Proof.
  intros G E Hc Ht Hs. split; [|split; [by eapply invalidate_map|by eapply add_map]]. pose proof (contains_map key a h G E) as Hm. destruct (negative_cache_contains key a). apply Hm.
Qed.
End Negative.

(** The database did not have the key [a]. *)
Definition missing_app : app_context aof := (negative_cache_add [97] sample_app).2.
