(* ===== verification/Server.v ===== *)
(** The server: the reactor of [src/net/reactor.c] with the request handler and
    the other callbacks of [src/app/main.c].

    The completion of a load answers the requests that wait for it through
    [reactor_complete_response], and this goes on with the next requests of the
    connection, so that [dispatch_request] runs inside
    [drain_mysql_completions].  The code of this file works on the whole
    server. *)

From S2P Require Import Prelude NetBuffer Reactor Resp HashTable ZOrder Object ExpireHeap LruList Cache.
From S2P Require Import Rdb Aof Double MysqlStore CommandText Service App.

Definition server (A : Type) : Type := reactor (app_context A).

Definition srv_cmd (A T : Type) : Type := server A -> T * server A.

#[export] Instance srv_ret A : MRet (srv_cmd A) := fun T x r => (x, r).

#[export] Instance srv_bind A : MBind (srv_cmd A) := fun T U k c r => let '(x, r) := c r in k x r.

Section Server.
Context {A : Type} `{LogOps A} (admin : persistence_admin (A := A)) (junk : Z).

Definition put_state (a : app_context A) (r : server A) : server A :=
  mk_reactor (rx_clients r) (rx_next_id r) (rx_stopping r) (rx_sent r) (rx_mem r) a.

Definition on_app {T} (c : app_cmd A T) : srv_cmd A T := fun r =>
  let '(x, a) := c (rx_state r) in (x, put_state a r).

Definition the_app : srv_cmd A (app_context A) := fun r => (rx_state r, r).

Definition app_handler : list Z -> bool -> net_buffer -> Z -> app_context A -> dispatched * app_context A :=
  fun input end_of_stream response token a => dispatch_request admin junk input end_of_stream response token a.

Definition complete_response (token : Z) (bytes : list Z) (barrier : Z) : srv_cmd A Z := fun r =>
  reactor_complete_response junk app_handler r token (Some bytes) false barrier.

(** ** Answers *)

(** A buffer of its own for a response. *)
Definition response_buffer (initial : Z) : app_cmd A (Z * net_buffer) :=
  on_service (allocating (fun m => let '(r, b, m) := net_buffer_init junk m initial in (r, b, m))).

(** The encoded response goes to the reactor. *)
Definition send_reply (token : Z) (b : net_buffer) (reply : kvstore_reply) (barrier : Z) : srv_cmd A Z :=
  '(r, b) ← on_app (encode_into junk reply b);
  if negb (r =? 0) then mret (-1) else
  r ← complete_response token (NetBuffer.contents b) barrier;
  mret (if r <? 0 then -1 else 0).

Definition complete_pending_error (p : Z) (reply : kvstore_reply) : srv_cmd A Z :=
  a ← the_app;
  match ap_requests a !! p with
  | None => mret (-1)
  | Some q =>
      '(r, b) ← on_app (response_buffer 128);
      if negb (r =? 0) then mret (-1) else send_reply (pq_token q) b reply 0
  end.

Definition complete_pending_request (p : Z) : srv_cmd A Z :=
  a ← the_app;
  match ap_requests a !! p with
  | None => mret (-1)
  | Some q =>
      let arguments := pq_arguments q in
      on_app (if names_write arguments then negative_cache_invalidate (arg arguments 1) else mret tt) ;;
      '(r, b) ← on_app (response_buffer 256);
      if negb (r =? 0) then mret (-1) else
      result ← on_app (execute_and_mark admin arguments (2 <=? zlen arguments));
      match result with
      | None => mret (-1)
      | Some (reply, barrier) => send_reply (pq_token q) b reply barrier
      end
  end.

Definition complete_and_destroy (p : Z) : srv_cmd A Z :=
  r ← complete_pending_request p; on_app (pending_request_destroy p) ;; mret r.

Definition error_and_destroy (p : Z) (reply : kvstore_reply) : srv_cmd A Z :=
  r ← complete_pending_error p reply; on_app (pending_request_destroy p) ;; mret r.

(** A request whose key is not in the cache asks the database again. *)
Definition retry_load (p : Z) : srv_cmd A Z :=
  started ← on_app (start_load p);
  if (started : bool) then mret 0 else
  on_app (unregister_pending_load p) ;;
  error_and_destroy p ERR_READ_QUEUE.

(** ** Requests for dirty keys *)

(** The loop of [drain_dirty_waiters]: [cursor] is the link after [kept]
    requests that stay. *)
Fixpoint drain_loop (fuel : nat) (kept : nat) : srv_cmd A Z :=
  match fuel with
  | O => mret 0
  | S fuel =>
      a ← the_app;
      match ap_waiting a !! kept with
      | None =>
          on_app (set_tail (last (take kept (ap_waiting a)))) ;; mret 0
      | Some p =>
          let key := pending_key p a in
          q ← on_app (dirty_key_sequence key);
          if negb (q =? 0) then drain_loop fuel (kept + 1) else
          on_app (a ← get_app; set_waiting (take kept (ap_waiting a) ++ drop (kept + 1) (ap_waiting a))) ;;
          hit ← on_app (cached key);
          r ← (if (hit : bool) then complete_and_destroy p else retry_load p);
          if negb (r =? 0) then mret (-1) else drain_loop fuel kept
      end
  end.

(** Every round passes a request of the chain; requests that are added while
    the loop runs come from the input of the clients. *)
Definition drain_fuel (r : server A) : nat :=
  (length (ap_waiting (rx_state r)) + sum_list_with (fun c => Z.to_nat (net_buffer_readable (cn_input c))) (rx_clients r) + 1)%nat.

Definition drain_dirty_waiters : srv_cmd A Z := fun r => drain_loop (drain_fuel r) 0 r.

(** ** Results of loads *)

Fixpoint any_stale (waiters : list Z) : app_cmd A bool :=
  match waiters with
  | [] => mret false
  | p :: waiters => stale ← pending_load_is_stale p; if (stale : bool) then mret true else any_stale waiters
  end.

(** The waiters of a result that a write has overtaken. *)
Fixpoint redo_stale (waiters : list Z) : srv_cmd A Z :=
  match waiters with
  | [] => mret 0
  | p :: waiters =>
      a ← the_app;
      let key := pending_key p a in
      on_app (unregister_pending_load p) ;;
      hit ← on_app (cached key);
      r ← (if (hit : bool) then complete_and_destroy p else
           q ← on_app (dirty_key_sequence key);
           if negb (q =? 0) then on_app (queue_dirty_waiter p) ;; mret 0 else retry_load p);
      if negb (r =? 0) then mret (-1) else redo_stale waiters
  end.

(** What the result does to the cache and the negative cache. *)
Definition store_loaded (result : mysql_store_load_result) : app_cmd A cache_set_result :=
  a ← get_app;
  match lr_status result, lr_found result with
  | MYSQL_STORE_OK, Some (object, expire_at_ms) =>
      match lr_waiters result with
      | [] => mret CACHE_SET_ERROR
      | p :: _ => on_service (on_cache_twice (fun m clock later c => cache_store_object m clock later c (Some (pending_key p a)) object expire_at_ms false))
      end
  | MYSQL_STORE_OK, None =>
      match lr_waiters result with
      | [] => mret CACHE_SET_OK
      | p :: _ => _ ← negative_cache_add (pending_key p a); mret CACHE_SET_OK
      end
  | _, _ => mret CACHE_SET_OK
  end.

(** The reply to the waiters of a result that cannot be used. *)
Definition load_error (status : mysql_store_status) (stored : cache_set_result) : option kvstore_reply :=
  if bool_decide (status = MYSQL_STORE_TOO_LARGE) || bool_decide (stored = CACHE_SET_CAPACITY) then Some ERR_LOAD_SIZE else
  if bool_decide (status = MYSQL_STORE_UNAVAILABLE) then Some ERR_BACKEND else
  if negb (bool_decide (status = MYSQL_STORE_OK)) || negb (bool_decide (stored = CACHE_SET_OK)) then Some ERR_BACKEND_DATA else None.

Fixpoint answer_waiters (error : option kvstore_reply) (waiters : list Z) : srv_cmd A Z :=
  match waiters with
  | [] => mret 0
  | p :: waiters =>
      on_app (unregister_pending_load p) ;;
      r ← (match error with Some reply => error_and_destroy p reply | None => complete_and_destroy p end);
      if negb (r =? 0) then mret (-1) else answer_waiters error waiters
  end.

Fixpoint drain_results (results : list mysql_store_load_result) : srv_cmd A Z :=
  match results with
  | [] => mret 0
  | result :: results =>
      stale ← on_app (any_stale (lr_waiters result));
      r ← (if (stale : bool) then redo_stale (lr_waiters result) else
           stored ← on_app (store_loaded result);
           answer_waiters (load_error (lr_status result) stored) (lr_waiters result));
      if negb (r =? 0) then mret (-1) else drain_results results
  end.

Definition take_results : app_cmd A (list mysql_store_load_result) :=
  on_service (fun w =>
    match sv_mysql (w_service w) with
    | None => ([], w)
    | Some store =>
        let '(l, store) := mysql_store_take_load_results store in
        (l, mk_world (w_mem w) (w_now w) (w_ticks w) (put_mysql (Some store) (w_service w)))
    end).

Definition drain_mysql_completions : srv_cmd A Z :=
  r ← drain_dirty_waiters;
  if negb (r =? 0) then mret (-1) else
  on_app (purge_applied_dirty_keys 1024) ;;
  results ← on_app take_results;
  drain_results results.

(** ** The other callbacks *)

(** [maintain_cache]; [persistence_maintain] starts and collects background
    saves. *)
Definition maintain_cache (persistence_maintain : app_cmd A Z) : app_cmd A Z :=
  purge_applied_dirty_keys 1024 ;;
  r ← on_service kvstore_service_maintain;
  if negb (r =? 0) then mret (-1) else
  r ← persistence_maintain;
  mret (if negb (r =? 0) then -1 else 0).

(** [flush_service]; a flush that waits is not finished. *)
Definition flush_service : app_cmd A Z :=
  r ← on_service kvstore_service_flush; mret (default 0 r).

(** The server with its callbacks; [ready] is [aof_barrier_ready]. *)
Definition server_round (ready : Z -> app_context A -> bool) (persistence_maintain : app_cmd A Z) (l : list reactor_event)
  : srv_cmd A run_result :=
  reactor_round junk app_handler ready flush_service (maintain_cache persistence_maintain) drain_mysql_completions l.
End Server.

(** [aof_barrier_ready] *)
Definition aof_barrier_ready (sequence : Z) (a : app_context aof) : bool :=
  match sv_aof (w_service (ap_world a)) with None => true | Some log => aof_sequence_ready log sequence end.
