(* ===== verification/ServerLoads.v ===== *)
(** The invariant of the server with a database: a connection waits for a
    deferred response exactly when one pending request has its token. *)

From S2P Require Import Prelude NetBuffer Reactor Resp HashTable ZOrder Object ExpireHeap LruList Cache.
From S2P Require Import Rdb Aof Double MysqlStore MysqlThreads CommandText Service AppFrames App AppLoads AppPending Server.

Section Loads.
Context {A : Type} `{LogOps A} (admin : persistence_admin (A := A)) (junk : Z) (Hadmin : admin_keeps admin).
Implicit Types (a b : app_context A) (r : server A) (c : reactor_connection) (held extra released : list Z).

(** The requests that are owed a response; [released] requests were answered
    and are about to be freed. *)
Definition obliged held extra a : list Z := ap_waiting a ++ store_waiters a ++ held ++ extra.

Definition tokens held extra a : list Z := token_of a <$> obliged held extra a.

(** The lists of pending requests of two states with the same requests. *)
Lemma pending_all_perm held loose held' loose' a a' :
  pending_ok held loose a -> pending_ok held' loose' a' -> pq_token <$> ap_requests a' = pq_token <$> ap_requests a ->
  obliged held' loose' a' ≡ₚ obliged held loose a.
Proof.
  intros P P' E. apply NoDup_Permutation; [apply P'|apply P|]. intros p. unfold obliged. rewrite <- (po_live _ _ _ P'), <- (po_live _ _ _ P).
  assert (Hp : (pq_token <$> ap_requests a') !! p = (pq_token <$> ap_requests a) !! p) by by rewrite E. rewrite !lookup_fmap in Hp.
  by rewrite <- (fmap_is_Some pq_token (ap_requests a' !! p)), Hp, fmap_is_Some.
Qed.

Lemma obliged_released held extra released a : obliged held (extra ++ released) a ≡ₚ obliged held extra a ++ released.
Proof. unfold obliged. by rewrite <- !app_assoc. Qed.

(** Moves between the queues keep the tokens. *)
Lemma tokens_moved held extra released held' extra' a a' :
  pending_ok held (extra ++ released) a -> pending_ok held' (extra' ++ released) a' -> pq_token <$> ap_requests a' = pq_token <$> ap_requests a ->
  tokens held' extra' a' ≡ₚ tokens held extra a.
Proof.
  intros P P' E. unfold tokens. rewrite (tokens_alike a a' _ E). apply fmap_Permutation, (Permutation_app_inv_r released).
  rewrite <- !obliged_released. by apply pending_all_perm.
Qed.

(** *** Reading the input of a connection *)

Lemma contents_readable (b : net_buffer) : zlen (NetBuffer.contents b) <= net_buffer_readable b.
Proof.
  unfold NetBuffer.contents, sub_bytes, zlen. rewrite length_take. unfold net_buffer_readable. destruct (Z.ltb_spec (write_pos b) (read_pos b)); lia.
Qed.

Lemma consume_readable (b : net_buffer) n : 0 < n <= net_buffer_readable b -> net_buffer_readable (net_buffer_consume b n) = net_buffer_readable b - n.
Proof.
  intros Hn. unfold net_buffer_consume. destruct (Z.geb_spec n (net_buffer_readable b)).
  - unfold net_buffer_readable at 1, net_buffer_reset. cbn. lia.
  - unfold net_buffer_readable in *. cbn. destruct (Z.ltb_spec (write_pos b) (read_pos b)); [lia|]. destruct (Z.ltb_spec (write_pos b) (read_pos b + n)); lia.
Qed.

Lemma readable_nonneg (b : net_buffer) : 0 <= net_buffer_readable b.
Proof. unfold net_buffer_readable. destruct (Z.ltb_spec (write_pos b) (read_pos b)); lia. Qed.

(** What code on one connection does: [c] and [a] before, [c'] and [a'] after;
    [strand] are requests that got lost, [new] joined the list for dirty keys,
    and [slack] bytes of input came in. *)
Definition connection_step held extra released (slack : Z) c a c' a' : Prop :=
  cn_id c' = cn_id c /\ (cn_async c = true -> cn_async c' = true) /\
  exists strand new, pending_ok held (strand ++ extra ++ released) a' /\
    tokens held (strand ++ extra) a' ≡ₚ (if cn_async c' && negb (cn_async c) then [cn_id c] else []) ++ tokens held extra a /\
    (tail_ok a -> strand = [] /\ tail_ok a') /\
    ap_waiting a' = ap_waiting a ++ new /\ Z.of_nat (length strand + length new) + net_buffer_readable (cn_input c') <= net_buffer_readable (cn_input c) + slack.

Lemma connection_quiet held extra released slack c a c' a' :
  pending_ok held (extra ++ released) a -> quiet a a' -> cn_id c' = cn_id c -> cn_async c' = cn_async c -> net_buffer_readable (cn_input c') <= net_buffer_readable (cn_input c) + slack ->
  connection_step held extra released slack c a c' a'.
Proof.
  intros P Q E1 E2 E3. split; [done|]. split; [by rewrite E2|]. exists [], []. pose proof (pending_quiet _ _ _ _ P Q) as P'. pose proof (quiet_alike _ _ Q) as Hal. split_and!.
  - done.
  - rewrite E2, andb_negb_r. apply (tokens_moved held extra released); [done|done|apply Hal].
  - intros Ht. split; [done|]. unfold tail_ok in *. by rewrite (al_tail _ _ Hal), (al_waiting _ _ Hal).
  - by rewrite (al_waiting _ _ Hal), app_nil_r.
  - cbn. lia.
Qed.

Lemma connection_trans held extra released x y c a c1 a1 c2 a2 :
  connection_step held extra released x c a c1 a1 ->
  (forall strand, pending_ok held ((strand ++ extra) ++ released) a1 -> connection_step held (strand ++ extra) released y c1 a1 c2 a2) ->
  connection_step held extra released (x + y) c a c2 a2.
Proof.
  intros (E1 & M1 & s1 & n1 & P1 & T1 & L1 & W1 & R1) Hk. rewrite app_assoc in P1. destruct (Hk s1 P1) as (E2 & M2 & s2 & n2 & P2 & T2 & L2 & W2 & R2).
  split; [congruence|]. split; [auto|]. exists (s2 ++ s1), (n1 ++ n2). split_and!.
  - rewrite <- app_assoc. by rewrite <- app_assoc in P2.
  - rewrite <- app_assoc, T2, T1, E1. destruct (cn_async c) eqn:A0; [rewrite M1 by done; by rewrite !andb_false_r|].
    destruct (cn_async c1) eqn:A1; [rewrite M2 by done; done|]. by destruct (cn_async c2).
  - intros Ht. destruct (L1 Ht) as [-> Ht1]. destruct (L2 Ht1) as [-> Ht2]. done.
  - by rewrite W2, W1, app_assoc.
  - rewrite !length_app. lia.
Qed.

Lemma token_inserted a a' p token : pq_token <$> ap_requests a' = <[p := token]> (pq_token <$> ap_requests a) -> token_of a' p = token.
Proof. intros E. unfold token_of. by rewrite <- lookup_fmap, E, lookup_insert_eq. Qed.

Lemma tokens_inserted a a' p token (l : list Z) :
  pq_token <$> ap_requests a' = <[p := token]> (pq_token <$> ap_requests a) -> p ∉ l -> token_of a' <$> l = token_of a <$> l.
Proof.
  intros E Hp. apply list_fmap_ext. intros i x Hx. unfold token_of. rewrite <- !lookup_fmap, E, lookup_insert_ne; [done|]. intros ->. apply Hp. by apply list_elem_of_lookup_2 in Hx.
Qed.

(** One more pending request has one more token. *)
Lemma tokens_admitted held extra released strand p token a a' :
  pending_ok held (extra ++ released) a -> pending_ok held (strand ++ extra ++ released) a' -> ap_requests a !! p = None ->
  pq_token <$> ap_requests a' = <[p := token]> (pq_token <$> ap_requests a) ->
  tokens held (strand ++ extra) a' ≡ₚ token :: tokens held extra a.
Proof.
  intros P P' Hp E. assert (Hn : p ∉ obliged held (extra ++ released) a). { unfold obliged. rewrite <- (po_live _ _ _ P), Hp. by intros [? ?]. }
  assert (Hall : obliged held (strand ++ extra ++ released) a' ≡ₚ p :: obliged held (extra ++ released) a).
  { apply NoDup_Permutation; [apply P'|apply NoDup_cons; split; [done|apply P]|]. intros x. rewrite elem_of_cons. unfold obliged. rewrite <- (po_live _ _ _ P'), <- (po_live _ _ _ P).
    rewrite <- (fmap_is_Some pq_token (ap_requests a' !! x)), <- lookup_fmap, E, lookup_insert_is_Some, lookup_fmap, fmap_is_Some. destruct (decide (p = x)) as [->|Hx]; [tauto|].
    split; [intros [?|[_ ?]]; auto|intros [->|?]; auto]. }
  assert (Hx : obliged held (strand ++ extra) a' ≡ₚ p :: obliged held extra a).
  { apply (Permutation_app_inv_r released). rewrite <- obliged_released, <- app_assoc, Hall, obliged_released. done. }
  assert (Hnp : p ∉ obliged held extra a). { intros Hin. apply Hn. rewrite obliged_released. apply elem_of_app. by left. }
  unfold tokens. rewrite Hx. cbn. by rewrite (token_inserted a a' p token E), (tokens_inserted a a' p token _ E Hnp).
Qed.

Definition handler := app_handler admin junk.

Lemma raise_barrier_same x c :
  cn_id (raise_barrier x c) = cn_id c /\ cn_async (raise_barrier x c) = cn_async c /\ cn_input (raise_barrier x c) = cn_input c /\ cn_output (raise_barrier x c) = cn_output c.
Proof. unfold raise_barrier. by destruct (x >? cn_barrier c). Qed.

Lemma process_loop_step fuel held extra released c a :
  pending_ok held (extra ++ released) a ->
  let '(x, c', a') := process_loop handler fuel c a in connection_step held extra released 0 c a c' a'.
Proof.
  revert extra c a. induction fuel as [|fuel IH]; intros extra c a P; cbn [process_loop]; [apply connection_quiet; try done; [by apply quiet_refl, P|lia]|].
  destruct (negb (wants_input c)) eqn:Ew; [apply connection_quiet; try done; [by apply quiet_refl, P|lia]|]. apply negb_false_iff in Ew. unfold wants_input in Ew.
  apply andb_true_iff in Ew as [Ew Ea]. apply negb_true_iff in Ea.
  pose proof (request_spec admin junk Hadmin held (extra ++ released) (cn_id c) (NetBuffer.contents (cn_input c)) (cn_peer_eof c) (cn_output c) a P) as Hr.
  pose proof (request_shape admin junk (cn_id c) (NetBuffer.contents (cn_input c)) (cn_peer_eof c) (cn_output c) a) as Hs.
  pose proof (request_consumed admin junk (cn_id c) (NetBuffer.contents (cn_input c)) (cn_peer_eof c) (cn_output c) a) as Hc.
  unfold handler at 1, app_handler. destruct (dispatch_request admin junk (NetBuffer.contents (cn_input c)) (cn_peer_eof c) (cn_output c) (cn_id c) a) as [d b].
  cbn [fst snd] in Hr, Hs, Hc. destruct Hr as [(Hd & P1 & Hal)|(Hd & p & strand & P1 & Hp & Ht & Hst & Htail & new & Hw & Hnew)]; cbn [fst snd] in *.
  - assert (Hq : forall c', cn_id c' = cn_id c -> cn_async c' = cn_async c -> net_buffer_readable (cn_input c') <= net_buffer_readable (cn_input c) -> connection_step held extra released 0 c a c' b).
    { intros c' E1 E2 E3. split; [done|]. split; [by rewrite E2|]. exists [], []. split_and!; [done| | | |cbn; lia].
      - rewrite E2, andb_negb_r. apply (tokens_moved held extra released); [done|done|apply Hal].
      - intros Htl. split; [done|]. unfold tail_ok in *. by rewrite (al_tail _ _ Hal), (al_waiting _ _ Hal).
      - by rewrite (al_waiting _ _ Hal), app_nil_r. }
    destruct (ds_result d); [apply Hq; done| |clear Hd|done].
    { destruct (_ >? REACTOR_MAX_REQUEST); apply Hq; done. }
    match goal with |- context [if ?x then (-1, _, b) else _] => destruct x eqn:Ef end; [by apply Hq|].
    rewrite !orb_false_iff in Ef. destruct Ef as [[[E1 E2] _] _]. apply Z.eqb_neq in E1. rewrite Z.gtb_ltb in E2. apply Z.ltb_ge in E2.
    specialize (Hc eq_refl). set (c1 := if ds_close d then _ else _).
    assert (H1 : cn_id c1 = cn_id c /\ cn_async c1 = cn_async c /\ net_buffer_readable (cn_input c1) <= net_buffer_readable (cn_input c)).
    { pose proof (readable_nonneg (cn_input c)). unfold c1. destruct (ds_close d); cbn [set_input set_close cn_id cn_async cn_input].
      - destruct (raise_barrier_same (ds_barrier d) (set_input (net_buffer_consume (cn_input (set_output (ds_response d) c)) (ds_consumed d)) (set_output (ds_response d) c))) as (B1 & B2 & B3 & _).
        rewrite B1, B2. split_and!; try done.
      - destruct (raise_barrier_same (ds_barrier d) (set_input (net_buffer_consume (cn_input (set_output (ds_response d) c)) (ds_consumed d)) (set_output (ds_response d) c))) as (B1 & B2 & B3 & _).
        rewrite B1, B2, B3. split_and!; try done. cbn [set_input set_output cn_input] in *. rewrite consume_readable; lia. }
    destruct H1 as (C1 & C2 & C3). pose proof (connection_trans held extra released 0 0 c a c1 b) as Ht.
    destruct (process_loop handler fuel c1 b) as [[x c2] b2] eqn:Ep. apply (Ht c2 b2); [by apply Hq|]. intros st P2. specialize (IH (st ++ extra) c1 b P2). by rewrite Ep in IH.
  - rewrite Hd in *. destruct (Hs eq_refl) as (S1 & S2 & S3 & S4). rewrite S1, S2, S3. pose proof (contents_readable (cn_input c)) as Hl.
    cbn [set_output cn_output cn_input]. rewrite Z.ltb_irrefl, Z.sub_diag, Z.eqb_refl. cbn [negb orb Z.eqb].
    rewrite (proj2 (Z.eqb_neq _ _)) by lia. rewrite Z.gtb_ltb, (proj2 (Z.ltb_ge _ _)) by lia. cbn [orb]. change (0 >? REACTOR_MAX_RESPONSE) with false. cbv iota.
    split; [done|]. split; [done|]. exists strand, new. cbn [set_async set_input set_output cn_async cn_input cn_id]. rewrite Ea. split_and!; try done.
    + apply (tokens_admitted held extra released strand p); done.
    + intros Hta. split; [|by apply Htail]. by destruct Hst as [?|[_ ?]].
    + rewrite consume_readable; lia.
Qed.

Lemma process_input_step held extra released c a :
  pending_ok held (extra ++ released) a ->
  let '(x, c', a') := process_input handler c a in connection_step held extra released 0 c a c' a'.
Proof. apply process_loop_step. Qed.

(** ** The server *)

Definition input_left r : nat := sum_list_with (fun c => Z.to_nat (net_buffer_readable (cn_input c))) (rx_clients r).

(** [extra] are the requests nothing refers to but the current code. *)
Record server_ok held extra released r : Prop := {
  so_pending : pending_ok held (extra ++ released) (rx_state r);
  so_next : 0 <= rx_next_id r;
  so_ids : NoDup (cn_id <$> rx_clients r);
  so_range : Forall (fun c => 0 < cn_id c <= rx_next_id r) (rx_clients r);
  so_tokens : NoDup (tokens held extra (rx_state r));
  so_bounded : Forall (fun t => 0 < t <= rx_next_id r) (tokens held extra (rx_state r));
  so_async : Forall (fun c => cn_async c = true <-> cn_id c ∈ tokens held extra (rx_state r)) (rx_clients r)
}.

(** The invariant depends on the tokens only up to their order. *)
Lemma server_same held extra released held' extra' released' r a :
  server_ok held extra released r -> pending_ok held' (extra' ++ released') a -> tokens held' extra' a ≡ₚ tokens held extra (rx_state r) ->
  server_ok held' extra' released' (put_state a r).
Proof.
  intros [S1 S0 S2 S3 S4 S5 S6] P E. split; cbn; try done; [by rewrite E|by rewrite E|]. eapply Forall_impl; [exact S6|]. intros c. by rewrite E.
Qed.

Lemma server_quiet held extra released r a : server_ok held extra released r -> quiet (rx_state r) a -> server_ok held extra released (put_state a r).
Proof.
  intros S Q. pose proof (pending_quiet _ _ _ _ (so_pending _ _ _ _ S) Q) as P. apply (server_same held extra released held extra released r a S P).
  by apply (tokens_moved held extra released held extra _ _ (so_pending _ _ _ _ S) P), quiet_alike.
Qed.

(** *** Finding, writing back and dropping a client *)

Lemma find_client_some id l c : find_client id l = Some c -> c ∈ l /\ cn_id c = id.
Proof. intros E. apply find_some in E as [E1 E2]. split; [by apply list_elem_of_In|lia]. Qed.

Lemma find_client_none id l : find_client id l = None -> id ∉ cn_id <$> l.
Proof. intros E (c & -> & Hc)%list_elem_of_fmap. apply list_elem_of_In in Hc. pose proof (find_none _ _ E c Hc) as Hx. cbn in Hx. lia. Qed.

Lemma put_client_ids c l : cn_id <$> put_client c l = cn_id <$> l.
Proof. unfold put_client. induction l as [|x l IH]; [done|]. cbn. rewrite IH. destruct (Z.eqb_spec (cn_id x) (cn_id c)); congruence. Qed.

Lemma put_client_elem x c l : x ∈ put_client c l -> x = c /\ cn_id c ∈ cn_id <$> l \/ x ∈ l /\ cn_id x <> cn_id c.
Proof.
  unfold put_client. intros (y & E & Hy)%list_elem_of_fmap. destruct (Z.eqb_spec (cn_id y) (cn_id c)) as [Hi|Hi]; subst; [left|by right]. split; [done|].
  rewrite <- Hi. by apply list_elem_of_fmap_2.
Qed.

Lemma drop_client_elem x id l : x ∈ drop_client id l <-> x ∈ l /\ cn_id x <> id.
Proof. unfold drop_client. rewrite !list_elem_of_In, List.filter_In, negb_true_iff, Z.eqb_neq. done. Qed.

Lemma drop_client_sublist id l : drop_client id l `sublist_of` l.
Proof. induction l as [|c l IH]; cbn; [constructor|]. destruct (negb _); by constructor. Qed.

Lemma put_client_twice c c' l : cn_id c' = cn_id c -> put_client c' (put_client c l) = put_client c' l.
Proof. intros E. unfold put_client. rewrite map_map. apply map_ext. intros x. destruct (Z.eqb_spec (cn_id x) (cn_id c)); rewrite E; [by rewrite Z.eqb_refl, (proj2 (Z.eqb_eq _ _))|done]. Qed.

Lemma drop_client_put c id l : cn_id c = id -> drop_client id (put_client c l) = drop_client id l.
Proof.
  intros <-. unfold drop_client, put_client. induction l as [|x l IH]; [done|]. cbn. destruct (Z.eqb_spec (cn_id x) (cn_id c)); cbn; rewrite IH; [by rewrite Z.eqb_refl|].
  by rewrite (proj2 (Z.eqb_neq _ _)).
Qed.

(** A client that is written back, or dropped. *)
Definition replaced c (l l' : list reactor_connection) : Prop := l' = put_client c l \/ l' = drop_client (cn_id c) l.

Lemma replaced_input c c0 l l' : NoDup (cn_id <$> l) -> c0 ∈ l -> cn_id c = cn_id c0 -> replaced c l l' ->
  (sum_list_with (fun c => Z.to_nat (net_buffer_readable (cn_input c))) l' + Z.to_nat (net_buffer_readable (cn_input c0)) <=
   sum_list_with (fun c => Z.to_nat (net_buffer_readable (cn_input c))) l + Z.to_nat (net_buffer_readable (cn_input c)))%nat.
Proof.
  intros Hn Hc E Hl. set (f := fun c => Z.to_nat (net_buffer_readable (cn_input c))). fold (f c0) (f c). assert (Hout : forall k, cn_id c ∉ cn_id <$> k -> put_client c k = k /\ drop_client (cn_id c) k = k).
  { intros k. unfold put_client, drop_client. induction k as [|x k IH]; [done|]. cbn. rewrite not_elem_of_cons. intros [Hx Hk]. destruct (IH Hk) as [I1 I2]. rewrite I1, I2, (proj2 (Z.eqb_neq _ _)) by congruence. done. }
  assert (Hboth : (sum_list_with f (put_client c l) + f c0 <= sum_list_with f l + f c)%nat /\ (sum_list_with f (drop_client (cn_id c) l) + f c0 <= sum_list_with f l + f c)%nat); [|destruct Hl as [->| ->]; apply Hboth].
  clear Hl l'. unfold put_client, drop_client in *. induction l as [|x l IH]; [by apply not_elem_of_nil in Hc|]. cbn [fmap list_fmap] in Hn. apply NoDup_cons in Hn as [Hx Hn].
  apply elem_of_cons in Hc as [->|Hc].
  - destruct (Hout l) as [H1 H2]; [by rewrite E|]. cbn. rewrite H1, H2, E, Z.eqb_refl. cbn. lia.
  - destruct (IH Hn Hc) as [I1 I2]. assert (Hne : cn_id x <> cn_id c). { intros Hi. apply Hx. rewrite Hi, E. by apply list_elem_of_fmap_2. }
    cbn. rewrite (proj2 (Z.eqb_neq _ _)) by done. cbn. lia.
Qed.

Lemma replaced_ids c l l' : replaced c l l' -> cn_id <$> l' `sublist_of` cn_id <$> l.
Proof. intros [->| ->]; [by rewrite put_client_ids|]. apply fmap_sublist, drop_client_sublist. Qed.

Lemma replaced_elem x c l l' : replaced c l l' -> x ∈ l' -> x = c \/ x ∈ l /\ cn_id x <> cn_id c.
Proof. intros [->| ->]; [intros [[-> _]|?]%put_client_elem; auto|]. rewrite drop_client_elem. auto. Qed.

(** What one connection does is good for the server. *)
Lemma client_ok held extra released strand r c c' a' l m :
  server_ok held extra released r -> c ∈ rx_clients r -> cn_id c' = cn_id c -> (cn_async c = true -> cn_async c' = true) ->
  pending_ok held (strand ++ extra ++ released) a' ->
  tokens held (strand ++ extra) a' ≡ₚ (if cn_async c' && negb (cn_async c) then [cn_id c] else []) ++ tokens held extra (rx_state r) ->
  replaced c' (rx_clients r) l -> server_ok held (strand ++ extra) released (with_work l m a' r).
Proof.
  intros [S1 S0 S2 S3 S4 S5 S6] Hc Ei Ha P T Hl. rewrite Forall_forall in S3, S6. pose proof (S6 c Hc) as Hca. assert (Hx : forall x, x ∈ l -> x = c' \/ x ∈ rx_clients r /\ cn_id x <> cn_id c').
  { intros x. by apply (replaced_elem x c' (rx_clients r) l). }
  split; cbn [with_work rx_clients rx_state rx_next_id].
  - by rewrite <- app_assoc.
  - done.
  - eapply sublist_NoDup; [exact S2|by eapply replaced_ids].
  - apply Forall_forall. intros x [->|[Hxl _]]%Hx; [rewrite Ei|]; auto.
  - rewrite T. destruct (cn_async c' && negb (cn_async c)) eqn:En; [|done]. apply NoDup_cons. split; [|done]. rewrite <- Hca. apply andb_true_iff in En as [_ En]. by destruct (cn_async c).
  - rewrite T. destruct (cn_async c' && negb (cn_async c)); [|done]. constructor; auto.
  - apply Forall_forall. intros x Hxl. rewrite T, elem_of_app. apply Hx in Hxl as [->|[Hxl Hne]].
    + rewrite Ei, <- Hca. destruct (cn_async c) eqn:E1; [rewrite Ha by done; cbn; tauto|]. rewrite andb_true_r. destruct (cn_async c'); [rewrite list_elem_of_singleton; tauto|].
      split; [done|]. by intros [?%not_elem_of_nil|?].
    + rewrite (S6 x Hxl). split; [auto|]. destruct (cn_async c' && negb (cn_async c)); [rewrite list_elem_of_singleton|]; intros [Hi|?]; try done; [congruence|by apply not_elem_of_nil in Hi].
Qed.

(** What code on the whole server does. *)
Definition served held extra released r r' : Prop :=
  exists strand new, server_ok held (strand ++ extra) released r' /\ (tail_ok (rx_state r) -> strand = [] /\ tail_ok (rx_state r')) /\
    ap_waiting (rx_state r') = ap_waiting (rx_state r) ++ new /\ (length strand + length new + input_left r' <= input_left r)%nat /\ rx_next_id r' = rx_next_id r.

Lemma client_served held extra released r c c' a' l m :
  server_ok held extra released r -> c ∈ rx_clients r -> connection_step held extra released 0 c (rx_state r) c' a' -> replaced c' (rx_clients r) l ->
  served held extra released r (with_work l m a' r).
Proof.
  intros S Hc (E & Ha & strand & new & P & T & L & W & R) Hl. exists strand, new. split; [by eapply client_ok|]. split; [done|]. split; [done|]. split; [|done].
  pose proof (replaced_input c' c (rx_clients r) l (so_ids _ _ _ _ S) Hc E Hl) as Hi. unfold input_left. cbn [with_work rx_clients].
  pose proof (readable_nonneg (cn_input c)). pose proof (readable_nonneg (cn_input c')). lia.
Qed.

Lemma served_quiet held extra released r a : server_ok held extra released r -> quiet (rx_state r) a -> served held extra released r (put_state a r).
Proof.
  intros S Q. pose proof (quiet_alike _ _ Q) as Hal. exists [], []. split; [by apply server_quiet|]. split; [|split; [by rewrite app_nil_r, <- (al_waiting _ _ Hal)|done]].
  intros Ht. split; [done|]. unfold tail_ok in *. cbn. by rewrite (al_tail _ _ Hal), (al_waiting _ _ Hal).
Qed.

Lemma served_refl held extra released r : server_ok held extra released r -> served held extra released r r.
Proof. intros S. exists [], []. split_and!; try done. by rewrite app_nil_r. Qed.

Lemma served_trans held1 extra1 released1 held2 extra2 released2 r r1 r2 :
  served held1 extra1 released1 r r1 ->
  (forall strand, server_ok held1 (strand ++ extra1) released1 r1 -> served held2 (strand ++ extra2) released2 r1 r2) ->
  served held2 extra2 released2 r r2.
Proof.
  intros (s1 & n1 & S1 & T1 & W1 & L1 & I1) Hk. destruct (Hk s1 S1) as (s2 & n2 & S2 & T2 & W2 & L2 & I2). exists (s2 ++ s1), (n1 ++ n2).
  split; [by rewrite <- app_assoc|]. split; [|split; [by rewrite W2, W1, app_assoc|split; [rewrite !length_app; lia|congruence]]].
  intros Ht. destruct (T1 Ht) as [-> Ht1]. destruct (T2 Ht1) as [-> Ht2]. done.
Qed.

(** *** Responses that come later *)

Lemma tokens_cons held p extra a : tokens held (p :: extra) a ≡ₚ token_of a p :: tokens held extra a.
Proof. unfold tokens, obliged. rewrite <- fmap_cons. apply fmap_Permutation. solve_Permutation. Qed.

(** The request [p] is answered: its connection waits no more. *)
Lemma released_ok held p extra released r l m :
  server_ok held (p :: extra) released r -> cn_id <$> l `sublist_of` cn_id <$> rx_clients r ->
  (forall x, x ∈ l -> x ∈ rx_clients r /\ cn_id x <> token_of (rx_state r) p \/ cn_id x = token_of (rx_state r) p /\ cn_async x = false) ->
  server_ok held extra (p :: released) (with_work l m (rx_state r) r).
Proof.
  intros [S1 S0 S2 S3 S4 S5 S6] Hs Hx. rewrite tokens_cons in S4, S5. apply NoDup_cons in S4 as [S4 S4']. apply Forall_cons in S5 as [S5 S5']. rewrite Forall_forall in S3, S6.
  split; cbn [with_work rx_clients rx_state rx_next_id]; try done.
  - apply (pending_perm held ((p :: extra) ++ released)); [done|cbn; solve_Permutation|done].
  - eapply sublist_NoDup; [exact S2|exact Hs].
  - apply Forall_forall. intros x [[Hl _]|[-> _]]%Hx; auto.
  - apply Forall_forall. intros x [[Hl Hn]|[-> ->]]%Hx; [|split; done]. rewrite (S6 x Hl), tokens_cons, elem_of_cons. tauto.
Qed.

Lemma put_client_found c c' l : c ∈ l -> cn_id c' = cn_id c -> c' ∈ put_client c' l.
Proof. intros Hc E. unfold put_client. apply list_elem_of_fmap. exists c. by rewrite E, Z.eqb_refl. Qed.

Lemma with_same r : with_work (rx_clients r) (rx_mem r) (rx_state r) r = r.
Proof. by destruct r. Qed.

Lemma response_spec held p extra released r bytes barrier x r' :
  server_ok held (p :: extra) released r -> complete_response admin junk (token_of (rx_state r) p) bytes barrier r = (x, r') -> 0 <= x ->
  served held extra (p :: released) r r'.
Proof.
  intros S E Hx. unfold complete_response, reactor_complete_response in E. destruct (_ || _); [injection E as <- <-; lia|]. destruct (find_client _ _) as [c|] eqn:F.
  2:{ injection E as <- <-. exists [], []. split_and!; try done; [|by rewrite app_nil_r]. rewrite <- (with_same r) at 1. apply released_ok; [done|done|].
      intros x Hl. left. split; [done|]. intros Ei. apply (find_client_none _ _ F). rewrite <- Ei. by apply list_elem_of_fmap_2. }
  apply find_client_some in F as [Hc Ei]. pose proof (so_async _ _ _ _ S) as Ha. rewrite Forall_forall in Ha. destruct (negb (cn_async c)) eqn:En; [injection E as <- <-; lia|].
  destruct (net_buffer_append junk (rx_mem r) (cn_output c) (Some bytes)) as [[appended output] m]. destruct (negb (appended =? 0)); [injection E as <- <-; lia|].
  set (c1 := raise_barrier barrier (set_async false (set_output output c))) in E. destruct (raise_barrier_same barrier (set_async false (set_output output c))) as (B1 & B2 & B3 & _). fold c1 in B1, B2, B3. cbn [set_async set_output cn_id cn_async cn_input] in B1, B2, B3.
  set (r1 := with_work (put_client c1 (rx_clients r)) m (rx_state r) r).
  assert (S1 : server_ok held extra (p :: released) r1).
  { apply released_ok; [done|by rewrite put_client_ids|]. intros y [[-> _]|[Hy Hn]]%put_client_elem; [right; split; [congruence|done]|left; split; [done|congruence]]. }
  apply (served_trans held extra (p :: released) held extra (p :: released) r r1).
  { exists [], []. split_and!; try done; [by rewrite app_nil_r|]. unfold input_left. cbn [r1 with_work rx_clients length]. pose proof (replaced_input c1 c (rx_clients r) _ (so_ids _ _ _ _ S) Hc B1 (or_introl eq_refl)) as Hi.
    rewrite B3 in Hi. lia. }
  intros strand S2. pose proof (process_input_step held (strand ++ extra) (p :: released) c1 (rx_state r) (so_pending _ _ _ _ S2)) as Hp. fold handler in E.
  destruct (process_input handler c1 (rx_state r)) as [[y c2] s] eqn:Ep. destruct (negb (y =? 0)); [injection E as <- <-; lia|]. injection E as <- <-.
  pose proof (client_served held (strand ++ extra) (p :: released) r1 c1 c2 s (put_client c2 (rx_clients r1)) m S2 (put_client_found c c1 _ Hc B1) Hp (or_introl eq_refl)) as Hs.
  cbn [r1 with_work rx_clients] in Hs. rewrite put_client_twice in Hs; [exact Hs|apply Hp].
Qed.

(** *** Answers *)

Lemma served_on_app held extra released T (c : app_cmd A T) r :
  server_ok held extra released r -> quietly c -> served held extra released r (on_app c r).2.
Proof.
  intros S Q. pose proof (Q (rx_state r) (po_good _ _ _ (so_pending _ _ _ _ S))) as Hq. unfold on_app. destruct (c (rx_state r)) as [x a]. by apply served_quiet.
Qed.

(** Requests keep their tokens in quiet code. *)
Lemma quiet_requests T (c : app_cmd A T) r : good (rx_state r) -> quietly c -> ap_requests (rx_state (on_app c r).2) = ap_requests (rx_state r).
Proof. intros G Q. pose proof (Q (rx_state r) G) as Hq. unfold on_app. destruct (c (rx_state r)) as [x a]. apply Hq. Qed.

(** Code that leaves the queues, then other code. *)
Lemma served_first held extra released r a r' : alike (rx_state r) a -> served held extra released (put_state a r) r' -> served held extra released r r'.
Proof.
  intros Hal (strand & new & K1 & K2 & K3 & K4 & K5). exists strand, new. cbn [put_state rx_state rx_next_id] in *. split; [done|].
  split; [|split; [by rewrite K3, (al_waiting _ _ Hal)|done]]. intros Ht. apply K2. unfold tail_ok in *. by rewrite (al_tail _ _ Hal), (al_waiting _ _ Hal).
Qed.

Lemma served_after T (c : app_cmd A T) held extra released held' extra' released' r x r1 r2 :
  server_ok held extra released r -> quietly c -> on_app c r = (x, r1) ->
  (server_ok held extra released r1 -> ap_requests (rx_state r1) = ap_requests (rx_state r) -> served held' extra' released' r1 r2) ->
  served held' extra' released' r r2.
Proof.
  intros S Q E Hk. pose proof (Q (rx_state r) (po_good _ _ _ (so_pending _ _ _ _ S))) as Hq. unfold on_app in E. destruct (c (rx_state r)) as [y a]. injection E as <- <-. cbn [snd] in Hq.
  apply (served_first _ _ _ r a); [by apply quiet_alike|]. apply Hk; [by apply server_quiet|apply Hq].
Qed.

Lemma send_spec held p extra released (b : net_buffer) reply barrier r r' :
  server_ok held (p :: extra) released r -> send_reply admin junk (token_of (rx_state r) p) b reply barrier r = (0, r') ->
  served held extra (p :: released) r r'.
Proof.
  intros S E. unfold send_reply in E. unfold mbind at 1 in E. unfold srv_bind at 1 in E. destruct (on_app (encode_into junk reply b) r) as [[x b'] r1] eqn:E1.
  apply (served_after _ (encode_into junk reply b) held (p :: extra) released _ _ _ r (x, b') r1); [done|apply quietly_encode|done|]. intros S1 Er. destruct (negb (x =? 0)); [done|].
  unfold mbind, srv_bind, mret, srv_ret in E. assert (Ht : token_of (rx_state r) p = token_of (rx_state r1) p) by (unfold token_of; by rewrite Er). rewrite Ht in E.
  destruct (complete_response admin junk (token_of (rx_state r1) p) (NetBuffer.contents b') barrier r1) as [y r2] eqn:E2. injection E as Hy <-. destruct (Z.ltb_spec y 0); [done|].
  by apply (response_spec held p extra released r1 _ _ _ _ S1 E2).
Qed.

Lemma keeps_init initial : keeps (allocating (A := A) (fun m => let '(r, b, m) := net_buffer_init junk m initial in (r, b, m))).
Proof. apply keeps_allocating. Qed.

Lemma quietly_response_buffer initial : quietly (response_buffer (A := A) junk initial).
Proof. apply quietly_service, keeps_init. Qed.

Lemma token_lookup a p q : ap_requests a !! p = Some q -> pq_token q = token_of a p.
Proof. intros E. unfold token_of. by rewrite E. Qed.

Lemma pending_error_spec held p extra released reply r r' :
  server_ok held (p :: extra) released r -> complete_pending_error admin junk p reply r = (0, r') ->
  served held extra (p :: released) r r'.
Proof.
  intros S E. unfold complete_pending_error in E. unfold mbind at 1 in E. unfold srv_bind at 1, the_app in E. destruct (ap_requests (rx_state r) !! p) as [q|] eqn:Hq; [|done].
  unfold mbind at 1 in E. unfold srv_bind at 1 in E. destruct (on_app (response_buffer junk 128) r) as [[x b] r1] eqn:E1.
  eapply served_after; [done|apply quietly_response_buffer|exact E1|]. intros S1 Er. destruct (negb (x =? 0)); [done|].
  rewrite <- Er in Hq. rewrite (token_lookup _ _ _ Hq) in E. by apply (send_spec held p extra released _ _ _ _ _ S1 E).
Qed.

Lemma pending_request_spec held p extra released r r' :
  server_ok held (p :: extra) released r -> complete_pending_request admin junk p r = (0, r') ->
  served held extra (p :: released) r r'.
Proof.
  intros S E. unfold complete_pending_request in E. unfold mbind at 1 in E. unfold srv_bind at 1, the_app in E. destruct (ap_requests (rx_state r) !! p) as [q|] eqn:Hq; [|done].
  unfold mbind at 1 in E. unfold srv_bind at 1 in E. destruct (on_app (if names_write (pq_arguments q) then _ else _) r) as [u r0] eqn:E0.
  eapply served_after; [done| |exact E0|]; [destruct (names_write _); [apply quietly_invalidate|apply quietly_ret]|]. intros S0 Er0.
  unfold mbind at 1 in E. unfold srv_bind at 1 in E. destruct (on_app (response_buffer junk 256) r0) as [[x b] r1] eqn:E1.
  eapply served_after; [done|apply quietly_response_buffer|exact E1|]. intros S1 Er1. destruct (negb (x =? 0)); [done|].
  unfold mbind at 1 in E. unfold srv_bind at 1 in E. destruct (on_app (execute_and_mark admin (pq_arguments q) _) r1) as [result r2] eqn:E2.
  eapply served_after; [done|by apply (quietly_execute admin Hadmin)|exact E2|]. intros S2 Er2. destruct result as [[reply barrier]|]; [|done].
  rewrite <- Er0, <- Er1, <- Er2 in Hq. rewrite (token_lookup _ _ _ Hq) in E. by apply (send_spec held p extra released _ _ _ _ _ S2 E).
Qed.

(** A request that was answered is freed. *)
Lemma destroy_served held p extra released r :
  server_ok held extra (p :: released) r -> served held extra released r (on_app (pending_request_destroy p) r).2.
Proof.
  intros S. pose proof (so_pending _ _ _ _ S) as P. assert (P1 : pending_ok held (p :: extra ++ released) (rx_state r)) by (apply (pending_perm held (extra ++ p :: released)); [done|solve_Permutation|done]).
  destruct (destroy_spec held (extra ++ released) p (rx_state r) (or_intror P1)) as (D1 & D2 & D3 & D4). unfold on_app. destruct (pending_request_destroy p (rx_state r)) as [u a']. cbn [snd] in *.
  assert (Hall : obliged held (p :: extra ++ released) (rx_state r) ≡ₚ p :: obliged held (extra ++ released) (rx_state r)) by (unfold obliged; solve_Permutation).
  pose proof (po_nodup _ _ _ P1) as Hn. fold (obliged held (p :: extra ++ released) (rx_state r)) in Hn. rewrite Hall in Hn. apply NoDup_cons in Hn as [Hp Hn].
  assert (Hob : obliged held (extra ++ released) a' ≡ₚ obliged held (extra ++ released) (rx_state r)).
  { apply NoDup_Permutation; [apply D1|done|]. intros x. unfold obliged at 1. rewrite <- (po_live _ _ _ D1), <- (fmap_is_Some pq_token), <- lookup_fmap, D2, lookup_delete_is_Some, lookup_fmap, fmap_is_Some.
    rewrite (po_live _ _ _ P1). change (ap_waiting (rx_state r) ++ _) with (obliged held (p :: extra ++ released) (rx_state r)). rewrite Hall, elem_of_cons. split; [intros [? [?|?]]; congruence|]. intros Hx. split; [by intros <-|auto]. }
  rewrite !obliged_released in Hob. apply Permutation_app_inv_r in Hob.
  assert (T : tokens held extra a' ≡ₚ tokens held extra (rx_state r)).
  { unfold tokens. rewrite Hob. rewrite (tokens_delete (rx_state r) a' p _ D2); [done|]. intros Hx. apply Hp. rewrite obliged_released. apply elem_of_app. by left. }
  exists [], []. split; [by apply (server_same held extra (p :: released))|]. cbn [put_state rx_state]. split; [|split; [by rewrite app_nil_r|done]]. unfold tail_ok. rewrite D3, D4. done.
Qed.
End Loads.
