(* ===== verification/Pipeline.v ===== *)
(** Requests that a client pipelines are answered in order: the parser, the
    service, the encoder and the loop of [process_input] together. *)

From S2P Require Import Prelude NetBuffer Reactor Resp HashTable ZOrder Object ExpireHeap LruList Cache.
From S2P Require Import Rdb Aof AofCodec Double MysqlStore MysqlThreads MysqlProps CommandText Service AppFrames App AppLoads AppPending AppProps.
From S2P Require Import Server ServerLoads.

(** ** Buffers whose output was sent to the end *)

Lemma reserve_keeps_start junk b n :
  read_pos b = 0 -> read_pos (net_buffer_reserve junk [] b n).1.2 = 0 /\ (net_buffer_reserve junk [] b n).2 = [].
Proof.
  intros E. assert (Ec : net_buffer_compact b = b) by (unfold net_buffer_compact; by rewrite E). unfold net_buffer_reserve. rewrite Ec. destruct (_ >? _); [done|]. destruct (_ >=? _); [done|].
  cbn zeta. by destruct (grow_capacity _ _ _).
Qed.

Lemma encode_keeps_start junk reply b :
  read_pos b = 0 -> let '(r, b', m) := encode_reply junk [] reply b in read_pos b' = 0 /\ m = [].
Proof.
  intros E. unfold encode_reply, net_buffer_write_pointer. destruct (reply_required reply) as [n|]; [|done]. destruct (reserve_keeps_start junk b n E) as [R1 R2].
  destruct (net_buffer_reserve junk [] b n) as [[r b1] m1]. cbn [fst snd] in R1, R2. destruct (negb (r =? 0)); [done|]. destruct (reply_encoding _ reply); [|done].
  unfold net_buffer_commit, fill_region. cbn. by destruct (_ >? _).
Qed.

(** A reply of a size that the reactor accepts can be encoded. *)
Lemma array_required_some required elements :
  0 <= required -> required + 14 * zlen (concat (map bulk_frame elements)) <= SIZE_MAX - 128 ->
  exists n, array_required required elements = Some n /\ n <= required + 14 * zlen (concat (map bulk_frame elements)).
Proof.
  revert required. induction elements as [|e elements IH]; intros required H0 Hs; cbn [array_required map concat] in *; [exists required; split; [done|unfold zlen; cbn; lia]|].
  rewrite zlen_app in *. pose proof (zlen_nonneg (concat (map bulk_frame elements))). pose proof (zlen_nonneg e). pose proof (zlen_nonneg (decimal (zlen e))) as Hd.
  assert (Hb : zlen e + 64 <= 14 * zlen (bulk_frame e)) by (rewrite zlen_bulk_frame; lia).
  destruct (IH (required + (zlen e + 64))) as (n & E & Hn); [lia|lia|]. exists n. rewrite (proj2 (orb_false_iff _ _)); [split; [done|lia]|]. rewrite !Z.gtb_ltb, !Z.ltb_ge. lia.
Qed.

Lemma required_some reply :
  reply_ok reply -> zlen (reply_frame reply) <= 2 ^ 20 -> exists n, reply_required reply = Some n /\ n <= 2 ^ 32.
Proof.
  intros Hok Hs. destruct reply as [data|data|v|data| |elements]; cbn [reply_required reply_frame] in *.
  - autorewrite with zlen in Hs. exists (zlen data + 3). rewrite Z.gtb_ltb, (proj2 (Z.ltb_ge _ _)) by (unfold SIZE_MAX; lia). split; [done|lia].
  - autorewrite with zlen in Hs. exists (zlen data + 3). rewrite Z.gtb_ltb, (proj2 (Z.ltb_ge _ _)) by (unfold SIZE_MAX; lia). split; [done|lia].
  - exists 32. split; [done|lia].
  - rewrite zlen_bulk_frame in Hs. pose proof (zlen_nonneg (decimal (zlen data))). exists (zlen data + 64). rewrite Z.gtb_ltb, (proj2 (Z.ltb_ge _ _)) by (unfold SIZE_MAX; lia). split; [done|lia].
  - exists 5. split; [done|lia].
  - rewrite zlen_request_frame in Hs. pose proof (zlen_nonneg (decimal (zlen elements))). destruct (array_required_some 64 elements) as (n & E & Hn); [lia|unfold SIZE_MAX; lia|]. exists n. split; [done|lia].
Qed.

(** The encoder appends the reply to output that starts at the front of its
    buffer. *)
Lemma encode_at_start junk reply b :
  wf b -> read_pos b = 0 -> reply_ok reply -> zlen (NetBuffer.contents b) <= 2 ^ 21 -> zlen (reply_frame reply) <= 2 ^ 20 ->
  exists b', encode_reply junk [] reply b = (0, b', []) /\ wf b' /\ read_pos b' = 0 /\ NetBuffer.contents b' = NetBuffer.contents b ++ reply_frame reply.
Proof.
  intros Hw E Hok Hb Hs. pose proof (encode_reply_correct junk [] reply b Hw Hok) as Hr. pose proof (encode_keeps_start junk reply b E) as Hk. destruct (encode_reply junk [] reply b) as [[r b'] m].
  destruct Hk as [K1 ->]. destruct (required_some reply Hok Hs) as (n & En & Hn). destruct Hr as [Hr Hz].
  assert (Hr0 : r = 0). { apply (Hz n eq_refl En). rewrite wf_readable by done. rewrite contents_length in Hb by done. unfold SIZE_MAX. lia. }
  subst r. destruct Hr as [(_ & H1 & H2)|[? _]]; [by exists b'|done].
Qed.

(** ** Requests *)

Section Pipeline.
Context {A : Type} `{LogOps A} (admin : persistence_admin (A := A)) (junk : Z) (Hadmin : admin_keeps admin).
Implicit Types (a : app_context A) (w : world A) (c : reactor_connection).

(** The requests one after the other, with memory. *)
Inductive answered : world A -> list (list (list Z)) -> list (kvstore_reply * Z) -> world A -> Prop :=
| answered_nil w : answered w [] [] w
| answered_cons w arguments reply barrier w1 requests replies w2 :
    kvstore_service_execute_with_barrier admin arguments w = ((Some reply, barrier), w1) -> w_mem w1 = [] ->
    answered w1 requests replies w2 -> answered w (arguments :: requests) ((reply, barrier) :: replies) w2.

(** What the parser accepts. *)
Definition request_ok (arguments : list (list Z)) : Prop :=
  1 <= zlen arguments <= RESP_MAX_ARGUMENTS /\ zlen (request_frame arguments) <= RESP_MAX_FRAME_SIZE.

Definition output_of (replies : list (kvstore_reply * Z)) : list Z := replies ≫= (fun x => reply_frame x.1).

(** One request without a database. *)
Lemma dispatch_plain arguments more end_of_stream response token a reply barrier w1 :
  request_ok arguments -> sv_mysql (w_service (ap_world a)) = None ->
  kvstore_service_execute_with_barrier admin arguments (ap_world a) = ((Some reply, barrier), w1) -> w_mem w1 = [] ->
  wf response -> read_pos response = 0 -> reply_ok reply -> zlen (NetBuffer.contents response) <= 2 ^ 21 -> zlen (reply_frame reply) <= 2 ^ 20 ->
  exists b', dispatch_request admin junk (request_frame arguments ++ more) end_of_stream response token a =
      (mk_dispatched REACTOR_HANDLER_COMPLETE b' (zlen (request_frame arguments)) false barrier, put_world w1 a) /\
    wf b' /\ read_pos b' = 0 /\ NetBuffer.contents b' = NetBuffer.contents response ++ reply_frame reply.
Proof.
  intros [R1 R2] Hm He Hmem Hw Hr Hok Hc Hs. destruct (parse_frame arguments more end_of_stream RESP_MAX_FRAME_SIZE R1) as (slices & Ep & Es); [|done|].
  { apply Forall_forall. intros x Hx. apply list_elem_of_split in Hx as (l1 & l2 & ->). rewrite zlen_request_frame, map_app, concat_app in R2. pose proof (zlen_nonneg (decimal (zlen (l1 ++ x :: l2)))) as Hd. set (digits := zlen (decimal (zlen (l1 ++ x :: l2)))) in *. clearbody digits. cbn [map concat] in R2. rewrite !zlen_app, zlen_bulk_frame in R2.
    pose proof (zlen_nonneg (concat (map bulk_frame l1))). pose proof (zlen_nonneg (concat (map bulk_frame l2))). pose proof (zlen_nonneg (decimal (zlen x))).
    unfold RESP_MAX_FRAME_SIZE, UINT64_MAX in *. lia. }
  destruct (encode_at_start junk reply response Hw Hr Hok Hc Hs) as (b' & Eb & B1 & B2 & B3). exists b'. split; [|done].
  unfold dispatch_request, resp_parse_request. rewrite Ep. cbn zeta. change (slice_bytes (request_frame arguments ++ more) <$> slices) with (map (slice_bytes (request_frame arguments ++ more)) slices). rewrite Es.
  unfold get_app, mbind, app_bind, mret, app_ret. rewrite Hm. cbn [is_Some_bool andb]. unfold execute_and_mark, get_app, mbind, app_bind, mret, app_ret, on_service at 1. rewrite He. cbv beta iota zeta.
  cbn [andb]. unfold encode_into, on_service, allocating. cbn [ap_world put_world]. rewrite Hmem, Eb. cbn [Z.eqb negb]. f_equal. unfold put_world. cbn. by destruct w1; cbn in Hmem; subst.
Qed.

Lemma answered_mysql w requests replies w' : answered w requests replies w' -> sv_mysql (w_service w) = None -> sv_mysql (w_service w') = None.
Proof.
  induction 1 as [|w arguments reply barrier w1 requests replies w2 E _ _ IH]; intros Hm; [done|]. apply IH. pose proof (keeps_execute admin Hadmin arguments w) as Hk. rewrite E in Hk. cbn [snd] in Hk.
  unfold loads_view in Hk. rewrite Hm in Hk. by destruct (sv_mysql (w_service w1)).
Qed.

Lemma put_world_same a : put_world (ap_world a) a = a.
Proof. by destruct a. Qed.

Lemma readable_contents (b : net_buffer) : wf b -> net_buffer_readable b = zlen (NetBuffer.contents b).
Proof. intros Hw. by rewrite wf_readable, contents_length. Qed.

(** The bytes after the last complete request. *)
Definition rest_ok (rest : list Z) (end_of_stream : bool) : Prop :=
  rest = [] \/ zlen rest <= REACTOR_MAX_REQUEST /\ (resp_parse_request (Some rest) end_of_stream).1.1 = RESP_PARSE_INCOMPLETE.

(** A connection that can go on. *)
Definition ready_for (input output : list Z) c : Prop :=
  wf (cn_input c) /\ NetBuffer.contents (cn_input c) = input /\ wf (cn_output c) /\ read_pos (cn_output c) = 0 /\ NetBuffer.contents (cn_output c) = output /\
  cn_close c = false /\ cn_async c = false.

Lemma wants_ready input output c : ready_for input output c -> zlen output < REACTOR_OUTPUT_HIGH_WATER -> wants_input c = (0 <? zlen input).
Proof.
  intros (W1 & E1 & W2 & _ & E2 & E3 & E4) Ho. unfold wants_input. rewrite !readable_contents, E1, E2, E3, E4 by done. rewrite (proj2 (Z.ltb_lt _ _) Ho), Z.gtb_ltb. by rewrite !andb_true_r.
Qed.

(** One round of the loop. *)
Lemma loop_round fuel arguments more reply barrier c a w1 output :
  ready_for (request_frame arguments ++ more) output c -> request_ok arguments -> sv_mysql (w_service (ap_world a)) = None ->
  kvstore_service_execute_with_barrier admin arguments (ap_world a) = ((Some reply, barrier), w1) -> w_mem w1 = [] -> reply_ok reply ->
  zlen output + zlen (reply_frame reply) < REACTOR_OUTPUT_HIGH_WATER ->
  exists c1, process_loop (app_handler admin junk) (S fuel) c a = process_loop (app_handler admin junk) fuel c1 (put_world w1 a) /\
    ready_for more (output ++ reply_frame reply) c1 /\ cn_barrier c1 = Z.max (cn_barrier c) barrier /\ cn_peer_eof c1 = cn_peer_eof c.
Proof.
  intros Hc Hok Hm He Hmem Hrep Hs. pose proof (zlen_nonneg (reply_frame reply)). pose proof (zlen_nonneg output). pose proof (frame_positive arguments) as Hpos. pose proof (zlen_nonneg more).
  pose proof (wants_ready _ _ c Hc ltac:(lia)) as Hw. destruct Hc as (W1 & E1 & W2 & R2 & E2 & E3 & E4). unfold REACTOR_OUTPUT_HIGH_WATER in Hs.
  destruct (dispatch_plain arguments more (cn_peer_eof c) (cn_output c) (cn_id c) a reply barrier w1 Hok Hm He Hmem W2 R2 Hrep) as (b' & Ed & B1 & B2 & B3); [rewrite E2; lia|lia|].
  cbn [process_loop]. rewrite Hw, zlen_app, (proj2 (Z.ltb_lt _ _)) by lia. cbn [negb]. unfold app_handler at 1. rewrite E1, Ed. cbn [ds_result ds_response ds_consumed ds_close ds_barrier set_output cn_output cn_input].
  pose proof (contents_length _ B1) as L1. pose proof (contents_length _ W2) as L2. rewrite B3, zlen_app, B2 in L1. rewrite R2 in L2. rewrite (readable_contents _ W1), E1, zlen_app.
  rewrite (proj2 (Z.eqb_neq _ _)) by lia. rewrite Z.gtb_ltb, (proj2 (Z.ltb_ge _ _)) by lia. rewrite (proj2 (Z.ltb_ge _ _)) by lia. rewrite Z.gtb_ltb, (proj2 (Z.ltb_ge _ _)) by (unfold REACTOR_MAX_RESPONSE; lia).
  cbn [orb]. cbv iota. eexists. split; [reflexivity|]. destruct (consume_spec (cn_input c) (zlen (request_frame arguments)) W1 ltac:(lia)) as [C1 C2].
  rewrite E1, drop_app_length' in C2 by (unfold zlen; lia). unfold raise_barrier. cbn [set_input set_output cn_barrier]. destruct (Z.gtb_spec barrier (cn_barrier c)); cbn [set_barrier set_input set_output cn_barrier cn_peer_eof];
    (split; [|split; [lia|done]]); unfold ready_for; cbn [set_barrier set_input set_output cn_input cn_output cn_close cn_async]; rewrite B3, E2; done.
Qed.

Lemma loop_answers requests replies fuel c a w' rest output :
  answered (ap_world a) requests replies w' -> sv_mysql (w_service (ap_world a)) = None -> Forall request_ok requests -> Forall (fun x => reply_ok x.1) replies ->
  ready_for ((requests ≫= request_frame) ++ rest) output c -> rest_ok rest (cn_peer_eof c) -> zlen output + zlen (output_of replies) < REACTOR_OUTPUT_HIGH_WATER -> (length requests < fuel)%nat ->
  exists c', process_loop (app_handler admin junk) fuel c a = (0, c', put_world w' a) /\ ready_for rest (output ++ output_of replies) c' /\
    cn_barrier c' = foldl (fun b x => Z.max b x.2) (cn_barrier c) replies.
Proof.
  intros Ha. revert fuel c a output Ha. induction requests as [|arguments requests IH] in replies |- *; intros fuel c a output Ha Hm Hr Hp Hc Hrest Ho Hf.
  - inversion Ha; subst. cbn in Hc. change (output_of []) with (@nil Z) in Ho. rewrite (zlen_nil (A := Z)) in Ho. rewrite put_world_same. destruct fuel as [|fuel]; [cbn in Hf; lia|]. cbn [process_loop output_of mbind list_bind foldl]. pose proof (wants_ready _ _ c Hc ltac:(lia)) as Hw. rewrite Hw, app_nil_r.
    destruct Hrest as [->|[Hlen Hinc]]; [exists c; done|]. destruct (Z.ltb_spec 0 (zlen rest)); cbn [negb]; [|by exists c]. destruct Hc as (W1 & E1 & W2 & R2 & E2 & E3 & E4).
    unfold app_handler at 1, dispatch_request. rewrite E1. destruct (resp_parse_request (Some rest) (cn_peer_eof c)) as [[p slices] consumed]. cbn [fst] in Hinc. subst p. unfold mret, app_ret.
    cbn [ds_result ds_response]. rewrite (readable_contents _ W1), E1, Z.gtb_ltb, (proj2 (Z.ltb_ge _ _)) by lia. exists (set_output (cn_output c) c). done.
  - inversion Ha as [|? ? reply barrier w1 ? replies' ? E1 Em Ha']; subst. apply Forall_cons in Hr as [Hr Hrs]. apply Forall_cons in Hp as [Hp Hps]. destruct fuel as [|fuel]; [cbn in Hf; lia|].
    change ((arguments :: requests) ≫= request_frame) with (request_frame arguments ++ (requests ≫= request_frame)) in Hc. rewrite <- app_assoc in Hc.
    change (output_of ((reply, barrier) :: replies')) with (reply_frame reply ++ output_of replies') in *. rewrite zlen_app in Ho. pose proof (zlen_nonneg (output_of replies')).
    destruct (loop_round fuel arguments _ reply barrier c a w1 output Hc Hr Hm E1 Em Hp ltac:(lia)) as (c1 & -> & Hc1 & Hb & He).
    assert (Hm1 : sv_mysql (w_service w1) = None). { apply (answered_mysql (ap_world a) [arguments] [(reply, barrier)] w1); [|done]. by econstructor; [| |constructor]. }
    destruct (IH replies' fuel c1 (put_world w1 a) (output ++ reply_frame reply) Ha' Hm1 Hrs Hps Hc1) as (c' & -> & Hc' & Hb'); [by rewrite He|rewrite zlen_app; lia|cbn in Hf; lia|].
    exists c'. split; [done|]. rewrite <- app_assoc in Hc'. split; [done|]. by rewrite Hb', Hb.
Qed.

Lemma frames_long (requests : list (list (list Z))) : Z.of_nat (length requests) <= zlen (requests ≫= request_frame).
Proof.
  induction requests as [|x requests IH]; [done|]. change ((x :: requests) ≫= request_frame) with (request_frame x ++ (requests ≫= request_frame)). rewrite zlen_app. pose proof (frame_positive x). cbn [length]. lia.
Qed.

(** C12. Pipelined requests.  A connection without a database whose input holds
    complete requests and then an incomplete one (or nothing), and whose
    output, replies included, stays below the high-water mark: [process_input]
    executes the requests in order, appends the frames of their replies in
    that order, keeps the incomplete bytes, and leaves the largest barrier of
    the replies.  The output must begin at the front of its buffer, which it
    does unless a part of it was sent. *)
Theorem pipelined_requests_answered requests replies c a w' rest output :
  answered (ap_world a) requests replies w' -> sv_mysql (w_service (ap_world a)) = None -> Forall request_ok requests -> Forall (fun x => reply_ok x.1) replies ->
  ready_for ((requests ≫= request_frame) ++ rest) output c -> rest_ok rest (cn_peer_eof c) -> zlen output + zlen (output_of replies) < REACTOR_OUTPUT_HIGH_WATER ->
  exists c', process_input (app_handler admin junk) c a = (0, c', put_world w' a) /\
    NetBuffer.contents (cn_input c') = rest /\ NetBuffer.contents (cn_output c') = output ++ output_of replies /\
    cn_barrier c' = foldl (fun b x => Z.max b x.2) (cn_barrier c) replies.
Proof.
  intros Ha Hm Hr Hp Hc Hrest Ho. destruct (loop_answers requests replies (Z.to_nat (net_buffer_readable (cn_input c)) + 1) c a w' rest output Ha Hm Hr Hp Hc Hrest Ho) as (c' & E & Hc' & Hb).
  - pose proof Hc as (W1 & E1 & _). rewrite (readable_contents _ W1), E1, zlen_app. pose proof (frames_long requests). pose proof (zlen_nonneg rest). lia.
  - exists c'. split; [exact E|]. by destruct Hc' as (_ & ? & _ & _ & ? & _).
Qed.
End Pipeline.

(** [SET a 1], [GET a] and the first byte of a third request. *)
Definition piped : list (list (list Z)) := [[lit "SET"; [97]; [49]]; [lit "GET"; [97]]].

Definition plain_app : app_context aof := mk_app app_world None None None ∅ 0 [] None 0 0.

Definition piped_connection : reactor_connection :=
  let bytes := (piped ≫= request_frame) ++ [42] in
  mk_connection 1 true false false false false 0 (mk_net_buffer (bytes ++ replicate 8 0) (zlen bytes + 8) 0 (zlen bytes)) (mk_net_buffer (replicate 512 0) 512 0 0).

Definition piped_world : world aof := (kvstore_service_execute_with_barrier idle_admin [lit "SET"; [97]; [49]] app_world).2.

Definition piped_end : world aof := (kvstore_service_execute_with_barrier idle_admin [lit "GET"; [97]] piped_world).2.

Lemma executed_pair (arguments : list (list Z)) (w : world aof) reply barrier :
  (kvstore_service_execute_with_barrier idle_admin arguments w).1 = (Some reply, barrier) ->
  kvstore_service_execute_with_barrier idle_admin arguments w = ((Some reply, barrier), (kvstore_service_execute_with_barrier idle_admin arguments w).2).
Proof. destruct (kvstore_service_execute_with_barrier idle_admin arguments w) as [x w']. cbn. by intros ->. Qed.

Lemma pipelined_requests_answered_witness :
  exists c', process_input (app_handler idle_admin 0) piped_connection plain_app = (0, c', put_world piped_end plain_app) /\
    NetBuffer.contents (cn_input c') = [42] /\ NetBuffer.contents (cn_output c') = lit "+OK" ++ [CR; LF] ++ bulk_frame [49].
Proof.
  destruct (pipelined_requests_answered idle_admin 0 idle_admin_keeps piped [(REPLY_SIMPLE (lit "OK"), 0); (REPLY_BULK [49], 0)] piped_connection plain_app piped_end [42] [])
    as (c' & E & H1 & H2 & _).
  - apply (answered_cons idle_admin app_world _ _ _ piped_world); [apply executed_pair; vm_compute; reflexivity|vm_compute; reflexivity|].
    apply (answered_cons idle_admin piped_world _ _ _ piped_end); [apply executed_pair; vm_compute; reflexivity|vm_compute; reflexivity|]. apply answered_nil.
  - vm_compute. reflexivity.
  - repeat constructor; vm_compute; discriminate.
  - repeat constructor; vm_compute; discriminate.
  - unfold ready_for, wf. vm_compute. repeat split; discriminate.
  - right. vm_compute. split; [discriminate|reflexivity].
  - vm_compute. reflexivity.
  - exists c'. split; [exact E|]. split; [exact H1|exact H2].
Defined.
