(* ===== verification/ServerDrain.v ===== *)
(** The completions of loads keep the invariant of the server: requests for keys
    that are not dirty any more, and the results of the database. *)

From S2P Require Import Prelude NetBuffer Reactor Resp HashTable ZOrder Object ExpireHeap LruList Cache.
From S2P Require Import Rdb Aof Double MysqlStore MysqlThreads CommandText Service AppFrames App AppLoads AppPending Server ServerLoads.

Section Drain.
Context {A : Type} `{LogOps A} (admin : persistence_admin (A := A)) (junk : Z) (Hadmin : admin_keeps admin).
Implicit Types (a b : app_context A) (r : server A) (held extra released : list Z).

Lemma alike_served held extra released held' extra' r a :
  server_ok held extra released r -> pending_ok held' (extra' ++ released) a -> alike (rx_state r) a ->
  served held' extra' released r (put_state a r).
Proof.
  intros S P Hal. exists [], []. split; [apply (server_same held extra released); [done|done|]; apply (tokens_moved held extra released); [apply S|done|apply Hal]|].
  cbn [put_state rx_state]. split; [|split; [by rewrite app_nil_r, (al_waiting _ _ Hal)|done]]. intros Ht. split; [done|]. unfold tail_ok in *. by rewrite (al_tail _ _ Hal), (al_waiting _ _ Hal).
Qed.

(** A command that answers the request [p] and then frees it. *)
Lemma then_destroy held p extra released (c : srv_cmd A Z) r x r' :
  (forall r1, c r = (0, r1) -> served held extra (p :: released) r r1) ->
  (x ← c; on_app (pending_request_destroy p) ;; mret x) r = (x, r') -> x = 0 -> served held extra released r r'.
Proof.
  intros Hc E ->. unfold mbind, srv_bind, mret, srv_ret in E. destruct (c r) as [y r1] eqn:Ec. destruct (on_app (pending_request_destroy p) r1) as [u r2] eqn:Ed. injection E as -> <-.
  eapply served_trans; [by apply Hc|]. intros strand S. pose proof (destroy_served held p (strand ++ extra) released r1 S) as D. by rewrite Ed in D.
Qed.

Lemma complete_destroy_spec held p extra released r r' :
  server_ok held (p :: extra) released r -> complete_and_destroy admin junk p r = (0, r') -> served held extra released r r'.
Proof. intros S E. eapply then_destroy; [|exact E|done]. intros r1 E1. by eapply (pending_request_spec admin junk Hadmin). Qed.

Lemma error_destroy_spec held p extra released reply r r' :
  server_ok held (p :: extra) released r -> error_and_destroy admin junk p reply r = (0, r') -> served held extra released r r'.
Proof. intros S E. eapply then_destroy; [|exact E|done]. intros r1 E1. by eapply (pending_error_spec admin junk Hadmin). Qed.

Lemma retry_spec held p extra released r r' :
  server_ok held (p :: extra) released r -> retry_load admin junk p r = (0, r') -> served held extra released r r'.
Proof.
  intros S E. unfold retry_load in E. unfold mbind at 1 in E. unfold srv_bind at 1 in E. pose proof (start_spec held (extra ++ released) p (rx_state r) (so_pending _ _ _ _ S)) as St.
  unfold on_app at 1 in E. destruct (start_load p (rx_state r)) as [ok a]. destruct St as [Hal St]. destruct ok; [injection E as <-; by apply (alike_served held (p :: extra) released)|].
  unfold mbind at 1 in E. unfold srv_bind at 1, on_app at 1 in E. cbn [put_state rx_state] in E. destruct (unregister_either held (extra ++ released) p a St) as [U1 U2].
  destruct (unregister_pending_load p a) as [u b]. cbn [snd] in U1, U2. assert (Hab : alike (rx_state r) b) by by etrans.
  change (put_state b (put_state a r)) with (put_state b r) in E. apply (served_first _ _ _ r b _ Hab). apply (error_destroy_spec held p extra released ERR_READ_QUEUE); [|exact E].
  apply (server_same held (p :: extra) released); [done|done|]. apply (tokens_moved held (p :: extra) released); [apply S|done|apply Hab].
Qed.

(** ** Requests for dirty keys *)

(** A request is taken out of the list. *)
Lemma unlink_ok held extra released r kept p :
  server_ok held extra released r -> ap_waiting (rx_state r) !! kept = Some p ->
  server_ok held (p :: extra) released (put_state (set_waiting (take kept (ap_waiting (rx_state r)) ++ drop (kept + 1) (ap_waiting (rx_state r))) (rx_state r)).2 r).
Proof.
  intros S Hp. pose proof (so_pending _ _ _ _ S) as P. set (a := rx_state r) in *. set (b := (set_waiting _ a).2).
  assert (Hw : ap_waiting a ≡ₚ p :: ap_waiting b). { cbn [b set_waiting snd ap_waiting]. rewrite <- (take_drop_middle _ _ _ Hp) at 1. rewrite Nat.add_1_r. solve_Permutation. }
  assert (Pb : pending_ok held ((p :: extra) ++ released) b).
  { apply (pending_same held (extra ++ released) held ((p :: extra) ++ released) a); try done; try apply P; [destruct (po_good _ _ _ P); by split| |].
    - rewrite Hw. change (store_waiters b) with (store_waiters a). cbn [app]. solve_Permutation.
    - intros Ht. change (ap_tail b) with (ap_tail a) in Ht. by rewrite (po_tail _ _ _ P Ht) in Hp. }
  apply (server_same held extra released); [done|done|]. by apply (tokens_moved held extra released held (p :: extra) a b P).
Qed.

Lemma set_tail_ok held extra released r :
  server_ok held extra released r -> server_ok held extra released (put_state (set_tail (last (ap_waiting (rx_state r))) (rx_state r)).2 r).
Proof.
  intros S. pose proof (so_pending _ _ _ _ S) as P. set (a := rx_state r) in *. set (b := (set_tail _ a).2).
  assert (Pb : pending_ok held (extra ++ released) b).
  { apply (pending_same held (extra ++ released) held (extra ++ released) a); try done; try apply P; [destruct (po_good _ _ _ P); by split|]. cbn. apply last_None. }
  apply (server_same held extra released); [done|done|]. by apply (tokens_moved held extra released held extra a b P).
Qed.

(** The rounds that [drain_loop] still needs. *)
Definition rounds_left (kept : nat) r : nat := (length (ap_waiting (rx_state r)) - kept + input_left r)%nat.

Lemma drain_loop_spec fuel kept held extra r r' :
  server_ok held extra [] r -> (rounds_left kept r < fuel)%nat -> drain_loop admin junk fuel kept r = (0, r') ->
  exists strand, server_ok held (strand ++ extra) [] r' /\ tail_ok (rx_state r') /\ rx_next_id r' = rx_next_id r /\ (length strand <= input_left r)%nat.
Proof.
  revert kept extra r. induction fuel as [|fuel IH]; intros kept extra r S Hf E; [lia|]. cbn [drain_loop] in E. unfold mbind at 1 in E. unfold srv_bind at 1, the_app in E.
  destruct (ap_waiting (rx_state r) !! kept) as [p|] eqn:Hp.
  2:{ apply lookup_ge_None in Hp. rewrite take_ge in E by done. unfold mbind, srv_bind, mret, srv_ret, on_app in E. injection E as <-. exists []. split; [by apply set_tail_ok|]. split; [done|]. split; [by destruct r|cbn; lia]. }
  unfold mbind at 1 in E. unfold srv_bind at 1, on_app at 1 in E. set (key := pending_key p (rx_state r)) in E.
  pose proof (quietly_dirty_sequence key (rx_state r) (po_good _ _ _ (so_pending _ _ _ _ S))) as Q. destruct (dirty_key_sequence key (rx_state r)) as [q a]. cbn [snd] in Q.
  pose proof (server_quiet _ _ _ _ _ S Q) as S1. set (r1 := put_state a r) in *. assert (Hw1 : ap_waiting (rx_state r1) = ap_waiting (rx_state r)) by apply Q.
  assert (Hlen : (kept < length (ap_waiting (rx_state r)))%nat) by by apply lookup_lt_Some in Hp. unfold rounds_left in Hf.
  destruct (negb (q =? 0)).
  { destruct (IH (kept + 1)%nat extra r1 S1) as (strand & I1 & I2 & I3 & I4); [|done|by exists strand]. unfold rounds_left. rewrite Hw1. change (input_left r1) with (input_left r). lia. }
  unfold mbind at 1 in E. unfold srv_bind at 1 in E. rewrite <- Hw1 in Hp. pose proof (unlink_ok held extra [] r1 kept p S1 Hp) as S2.
  set (r2 := put_state _ r1) in S2. change (on_app _ r1) with (tt, r2) in E. cbv beta iota in E.
  unfold mbind at 1 in E. unfold srv_bind at 1 in E. destruct (on_app (cached key) r2) as [hit r3] eqn:E3. unfold mbind at 1 in E. unfold srv_bind at 1 in E.
  destruct ((if hit then complete_and_destroy admin junk p else retry_load admin junk p) r3) as [y r4] eqn:E4. destruct (Z.eqb_spec y 0) as [->|]; [|done]. cbn [negb] in E.
  assert (Hs : served held extra [] r2 r4).
  { eapply served_after; [exact S2|apply quietly_cached|exact E3|]. intros S3 _. destruct hit; [by apply (complete_destroy_spec held p extra [])|by apply (retry_spec held p extra [])]. }
  destruct Hs as (strand & new & S4 & _ & W4 & L4 & N4). destruct (IH kept (strand ++ extra) r4 S4) as (strand' & I1 & I2 & I3 & I4); [|done|].
  { unfold rounds_left. rewrite W4. cbn [r2 put_state rx_state set_waiting snd ap_waiting]. rewrite !length_app, length_take, length_drop, Hw1. change (input_left r2) with (input_left r) in L4. lia. }
  change (input_left r2) with (input_left r) in L4.   exists (strand' ++ strand). rewrite <- app_assoc. split; [done|]. split; [done|]. rewrite I3, N4. split; [done|]. rewrite length_app. lia.
Qed.

Lemma drain_dirty_spec held extra r r' :
  server_ok held extra [] r -> drain_dirty_waiters admin junk r = (0, r') ->
  exists strand, server_ok held (strand ++ extra) [] r' /\ tail_ok (rx_state r') /\ rx_next_id r' = rx_next_id r /\ (length strand <= input_left r)%nat.
Proof. intros S E. apply (drain_loop_spec (drain_fuel r) 0 held extra r r' S); [|exact E]. unfold rounds_left, drain_fuel, input_left. lia. Qed.

(** ** Results of loads *)

(** The state between two steps: the tail of the list is its last request. *)
Definition steady held extra r : Prop := server_ok held extra [] r /\ tail_ok (rx_state r).

Lemma steady_served held extra r r' : served held extra [] r r' -> tail_ok (rx_state r) -> steady held extra r' /\ rx_next_id r' = rx_next_id r.
Proof. intros (strand & new & S & T & _ & _ & N) Ht. destruct (T Ht) as [-> Ht']. done. Qed.

Lemma steady_after held extra T (c : app_cmd A T) r x r1 :
  steady held extra r -> quietly c -> on_app c r = (x, r1) -> steady held extra r1 /\ rx_next_id r1 = rx_next_id r.
Proof.
  intros [S Ht] Q E. apply (steady_served held extra r); [|done]. pose proof (served_on_app held extra [] T c r S Q) as Hs. by rewrite E in Hs.
Qed.

(** The waiter [p] of a result leaves the registry. *)
Lemma unregister_steady held p extra r :
  steady (p :: held) extra r -> let r' := (on_app (unregister_pending_load p) r).2 in
  steady held (p :: extra) r' /\ rx_next_id r' = rx_next_id r.
Proof.
  intros [S Ht]. cbn zeta. pose proof (so_pending _ _ _ _ S) as P. destruct (unregister_spec held (extra ++ []) p (rx_state r) P) as [U1 U2]. unfold on_app. destruct (unregister_pending_load p (rx_state r)) as [u b].
  apply (steady_served held (p :: extra) r); [|done]. by apply (alike_served (p :: held) extra []).
Qed.

(** The request waits until its key is clean. *)
Lemma queue_steady held p extra r :
  steady held (p :: extra) r -> let r' := (on_app (queue_dirty_waiter p) r).2 in steady held extra r' /\ rx_next_id r' = rx_next_id r.
Proof.
  intros [S Ht]. cbn zeta. pose proof (so_pending _ _ _ _ S) as P. destruct (queue_spec held (extra ++ []) p (rx_state r) P) as (Q1 & Q2 & Q3). unfold on_app.
  destruct (queue_dirty_waiter p (rx_state r)) as [u b]. cbn [snd] in *. destruct Q3 as [(Q3 & _ & Q4)|(_ & _ & Q4)]; [|done]. split; [|done]. split; [|done].
  apply (server_same held (p :: extra) []); [done|done|]. apply (tokens_moved held (p :: extra) [] held extra _ _ P Q3). by rewrite Q1.
Qed.

Lemma redo_spec waiters held extra r r' :
  steady (waiters ++ held) extra r -> redo_stale admin junk waiters r = (0, r') -> steady held extra r' /\ rx_next_id r' = rx_next_id r.
Proof.
  revert r. induction waiters as [|p waiters IH]; intros r S E; cbn [redo_stale] in E; [by injection E as <-|].
  unfold mbind at 1 in E. unfold srv_bind at 1, the_app in E. cbv beta iota in E. set (key := pending_key p (rx_state r)) in E. unfold mbind at 1 in E. unfold srv_bind at 1 in E.
  destruct (unregister_steady (waiters ++ held) p extra r S) as [S1 N1]. destruct (on_app (unregister_pending_load p) r) as [u r1]. cbn [snd] in S1, N1.
  unfold mbind at 1 in E. unfold srv_bind at 1 in E. destruct (on_app (cached key) r1) as [hit r2] eqn:E2. destruct (steady_after _ _ _ _ _ _ _ S1 (quietly_cached key) E2) as [S2 N2].
  unfold mbind at 1 in E. unfold srv_bind at 1 in E. destruct ((if hit then complete_and_destroy admin junk p else _) r2) as [y r3] eqn:E3. destruct (Z.eqb_spec y 0) as [->|]; [|done]. cbn [negb] in E.
  assert (Hs : steady (waiters ++ held) extra r3 /\ rx_next_id r3 = rx_next_id r2).
  { destruct S2 as [S2 T2]. destruct hit.
    - apply (steady_served _ _ r2); [|done]. by apply (complete_destroy_spec _ p extra []).
    - unfold mbind at 1 in E3. unfold srv_bind at 1 in E3. destruct (on_app (dirty_key_sequence key) r2) as [q r4] eqn:E4.
      destruct (steady_after _ _ _ _ _ _ _ (conj S2 T2) (quietly_dirty_sequence key) E4) as [S4 N4]. destruct (negb (q =? 0)).
      + unfold mbind, srv_bind, mret, srv_ret in E3. pose proof (queue_steady _ p extra r4 S4) as [Q1 Q2]. destruct (on_app (queue_dirty_waiter p) r4) as [v r5]. injection E3 as <-. cbn [snd] in *. split; [done|congruence].
      + rewrite <- N4. destruct S4 as [S4 T4]. apply (steady_served _ _ r4); [|done]. by apply (retry_spec _ p extra []). }
  destruct Hs as [S3 N3]. destruct (IH r3 S3 E) as [I1 I2]. split; [done|congruence].
Qed.

Lemma answer_spec error waiters held extra r r' :
  steady (waiters ++ held) extra r -> answer_waiters admin junk error waiters r = (0, r') -> steady held extra r' /\ rx_next_id r' = rx_next_id r.
Proof.
  revert r. induction waiters as [|p waiters IH]; intros r S E; cbn [answer_waiters] in E; [by injection E as <-|]. unfold mbind at 1 in E. unfold srv_bind at 1 in E.
  destruct (unregister_steady (waiters ++ held) p extra r S) as [S1 N1]. destruct (on_app (unregister_pending_load p) r) as [u r1]. cbn [snd] in S1, N1.
  unfold mbind at 1 in E. unfold srv_bind at 1 in E. destruct ((match error with Some reply => error_and_destroy admin junk p reply | None => _ end) r1) as [y r2] eqn:E2. destruct (Z.eqb_spec y 0) as [->|]; [|done]. cbn [negb] in E.
  assert (Hs : steady (waiters ++ held) extra r2 /\ rx_next_id r2 = rx_next_id r1).
  { destruct S1 as [S1 T1]. apply (steady_served _ _ r1); [|done]. destruct error; [by eapply (error_destroy_spec _ p extra [])|by apply (complete_destroy_spec _ p extra [])]. }
  destruct Hs as [S2 N2]. destruct (IH r2 S2 E) as [I1 I2]. split; [done|congruence].
Qed.

Lemma quietly_stale waiters : quietly (A := A) (any_stale waiters).
Proof.
  induction waiters as [|p waiters IH]; cbn [any_stale]; [apply quietly_ret|]. apply quietly_bind; [|intros []; [apply quietly_ret|done]].
  unfold pending_load_is_stale. apply quietly_get. intros a G. destruct (ap_requests a !! p) as [q|]; [|apply quietly_ret]. destruct (ap_loads a); [|apply quietly_ret].
  destruct (negb _); [apply quietly_ret|]. destruct (kv_hash_find _ _); apply quietly_ret.
Qed.

Lemma quietly_stored result : quietly (A := A) (store_loaded result).
Proof.
  unfold store_loaded. apply quietly_get. intros a G. destruct (lr_status result), (lr_found result) as [[o e]|]; try apply quietly_ret; destruct (lr_waiters result); try apply quietly_ret.
  - apply quietly_service, keeps_on_cache_twice.
  - apply quietly_bind; [apply quietly_add|intros ?; apply quietly_ret].
Qed.

Lemma results_spec results extra r r' :
  steady (results ≫= lr_waiters) extra r -> drain_results admin junk results r = (0, r') -> steady [] extra r' /\ rx_next_id r' = rx_next_id r.
Proof.
  revert r. induction results as [|result results IH]; intros r S E; cbn [drain_results] in E; [by injection E as <-|]. change ((result :: results) ≫= lr_waiters) with (lr_waiters result ++ (results ≫= lr_waiters)) in S.
  set (rest := results ≫= lr_waiters) in *. unfold mbind at 1 in E. unfold srv_bind at 1 in E. destruct (on_app (any_stale (lr_waiters result)) r) as [stale r1] eqn:E1.
  destruct (steady_after _ _ _ _ _ _ _ S (quietly_stale _) E1) as [S1 N1]. unfold mbind at 1 in E. unfold srv_bind at 1 in E. destruct ((if stale then redo_stale admin junk (lr_waiters result) else _) r1) as [y r2] eqn:E2.
  destruct (Z.eqb_spec y 0) as [->|]; [|done]. cbn [negb] in E.
  assert (Hs : steady rest extra r2 /\ rx_next_id r2 = rx_next_id r1).
  { destruct stale; [by eapply redo_spec|]. unfold mbind at 1 in E2. unfold srv_bind at 1 in E2. destruct (on_app (store_loaded result) r1) as [stored r3] eqn:E3.
    destruct (steady_after _ _ _ _ _ _ _ S1 (quietly_stored _) E3) as [S3 N3]. rewrite <- N3. by eapply answer_spec. }
  destruct Hs as [S2 N2]. destruct (IH r2 S2 E) as [I1 I2]. split; [done|congruence].
Qed.

(** The results are taken from the store. *)
Lemma take_steady extra r : 
  steady [] extra r -> let '(results, r') := on_app take_results r in steady (results ≫= lr_waiters) extra r' /\ rx_next_id r' = rx_next_id r.
Proof.
  intros [S Ht]. pose proof (so_pending _ _ _ _ S) as P. unfold on_app, take_results, on_service. set (a := rx_state r) in *. destruct (po_database _ _ _ P) as [x Ev]. unfold loads_view in Ev.
  destruct (sv_mysql (w_service (ap_world a))) as [store|] eqn:Es; [|done]. cbn [mysql_store_take_load_results]. set (w' := mk_world _ _ _ _).
  assert (P2 : pending_ok (my_completed store ≫= lr_waiters) (extra ++ []) (put_world w' a)).
  { assert (Eb : store_waiters a = (my_inflight store ≫= lj_waiters) ++ (my_completed store ≫= lr_waiters)) by (unfold store_waiters, loads_view; by rewrite Es).
    assert (Ew : store_waiters (put_world w' a) = (my_inflight store ≫= lj_waiters) ++ []) by done.
    apply (pending_same [] (extra ++ []) _ (extra ++ []) a); try done; try apply P; [destruct (po_good _ _ _ P); by split| |]; rewrite Eb, Ew, ?app_nil_r; cbn [ap_waiting put_world]; solve_Permutation. }
  apply (steady_served _ _ r); [|done]. apply (alike_served [] extra []); [done|done|by split].
Qed.

Lemma completions_spec extra r r' :
  server_ok [] extra [] r -> drain_mysql_completions admin junk r = (0, r') -> exists strand, steady [] (strand ++ extra) r' /\ rx_next_id r' = rx_next_id r /\ (length strand <= input_left r)%nat.
Proof.
  intros S E. unfold drain_mysql_completions in E. unfold mbind at 1 in E. unfold srv_bind at 1 in E. destruct (drain_dirty_waiters admin junk r) as [y r1] eqn:E1. destruct (Z.eqb_spec y 0) as [->|]; [|done].
  cbn [negb] in E. destruct (drain_dirty_spec [] extra r r1 S E1) as (strand & S1 & T1 & N1 & B1). exists strand.
  unfold mbind at 1 in E. unfold srv_bind at 1 in E. destruct (on_app (purge_applied_dirty_keys 1024) r1) as [u r2] eqn:E2.
  destruct (steady_after _ _ _ _ _ _ _ (conj S1 T1) (quietly_purge 1024 ltac:(lia)) E2) as [S2 N2]. unfold mbind, srv_bind in E.
  pose proof (take_steady _ _ S2) as Ht. destruct (on_app take_results r2) as [results r3]. destruct Ht as [S3 N3]. destruct (results_spec _ _ _ _ S3 E) as [S4 N4]. split; [done|]. split; [congruence|done].
Qed.
End Drain.
