(* ===== verification/ServerRounds.v ===== *)
(** Every round of the event loop keeps the invariant of the server. *)

From S2P Require Import Prelude NetBuffer Reactor Resp HashTable ZOrder Object ExpireHeap LruList Cache.
From S2P Require Import Rdb Aof Double MysqlStore MysqlThreads CommandText Service AppFrames App AppLoads AppPending Server ServerLoads ServerDrain.

Section Rounds.
Context {A : Type} `{LogOps A} (admin : persistence_admin (A := A)) (junk : Z) (Hadmin : admin_keeps admin).
Context (ready : Z -> app_context A -> bool) (persistence_maintain : app_cmd A Z) (Hmaintain : quietly persistence_maintain).
Implicit Types (a b : app_context A) (r : server A) (c : reactor_connection) (held extra : list Z) (m : mem).

Let handler := app_handler admin junk.

(** ** One connection *)

Definition connection_work held extra c a c' a' : Prop := exists slack, connection_step held extra [] slack c a c' a'.

Lemma work_quiet held extra c a c' a' :
  pending_ok held (extra ++ []) a -> quiet a a' -> cn_id c' = cn_id c -> cn_async c' = cn_async c -> connection_work held extra c a c' a'.
Proof. intros P Q E1 E2. exists (net_buffer_readable (cn_input c') - net_buffer_readable (cn_input c)). apply connection_quiet; [done|done|done|done|lia]. Qed.

Lemma work_same held extra c a c' : pending_ok held (extra ++ []) a -> cn_id c' = cn_id c -> cn_async c' = cn_async c -> connection_work held extra c a c' a.
Proof. intros P. apply work_quiet; [done|]. apply quiet_refl, P. Qed.

Lemma work_trans held extra c a c1 a1 c2 a2 :
  connection_work held extra c a c1 a1 -> (forall strand, pending_ok held ((strand ++ extra) ++ []) a1 -> connection_work held (strand ++ extra) c1 a1 c2 a2) ->
  connection_work held extra c a c2 a2.
Proof.
  intros [x Hx] Hk. pose proof Hx as (_ & _ & strand & new & P & _). rewrite app_assoc in P.
  (* The slack of the second part can depend on the stranded requests. *)
  assert (Hd : exists y, forall strand, pending_ok held ((strand ++ extra) ++ []) a1 -> connection_step held (strand ++ extra) [] y c1 a1 c2 a2); [|].
  - destruct (Hk strand P) as [y (E1 & M1 & s1 & n1 & P1 & T1 & L1 & W1 & R1)]. exists y. intros st Pst. destruct (Hk st Pst) as [y' (E2 & M2 & s2 & n2 & P2 & T2 & L2 & W2 & R2)].
    split; [done|]. split; [done|]. exists s2, n2. split; [done|]. split; [done|]. split; [done|]. split; [done|]. rewrite W1 in W2. apply app_inv_head in W2. subst n2.
    apply Permutation_length in T1. apply Permutation_length in T2. unfold tokens, obliged in T1, T2. rewrite !length_app, !length_fmap, !length_app in T1. rewrite !length_app, !length_fmap, !length_app in T2. lia.
  - destruct Hd as [y Hy]. exists (x + y). by eapply connection_trans.
Qed.

Lemma work_process held extra c a : pending_ok held (extra ++ []) a -> let '(x, c', a') := process_input handler c a in connection_work held extra c a c' a'.
Proof.
  intros P. pose proof (process_input_step admin junk Hadmin held extra [] c a P) as Hp. unfold ServerLoads.handler in Hp. fold handler in Hp. destruct (process_input handler c a) as [[x c'] a']. by exists 0.
Qed.

Lemma refresh_same c m a : let '(x, c', m') := refresh_client_events ready c m a in cn_id c' = cn_id c /\ cn_async c' = cn_async c.
Proof.
  unfold refresh_client_events, connection_set_events. destruct (_ && _); [done|]. destruct (malloc m) as [[] m']; done.
Qed.

Lemma work_read_loop held extra script c m a :
  pending_ok held (extra ++ []) a -> let '(x, c', m', a') := read_loop junk handler script c m a in connection_work held extra c a c' a'.
Proof.
  revert extra c m a. induction script as [|ev script IH]; intros extra c m a P; cbn [read_loop].
  - destruct (_ || _); [by apply work_same|]. destruct (net_buffer_write_pointer junk m (cn_input c) REACTOR_IO_CHUNK) as [[[[off capacity]|] input] m1]; by apply work_same.
  - destruct (_ || _); [by apply work_same|]. destruct (net_buffer_write_pointer junk m (cn_input c) REACTOR_IO_CHUNK) as [[[[off capacity]|] input] m1]; [|by apply work_same].
    set (c0 := set_input input c). destruct ev as [bytes| | | |]; try by apply work_same.
    + destruct (net_buffer_commit _ _) as [y input'] eqn:Ec. set (c1 := set_input input' c0). destruct (negb (y =? 0)); [by apply work_same|].
      destruct (process_input handler c1 a) as [[z c2] a2] eqn:Ep.
      assert (H2 : connection_work held extra c a c2 a2). { apply (work_trans held extra c a c1 a); [by apply work_same|]. intros strand Ps. pose proof (work_process held (strand ++ extra) c1 a Ps) as Hp. by rewrite Ep in Hp. }
      destruct (negb (z =? 0)); [done|]. destruct (read_loop junk handler script c2 m1 a2) as [[[x c'] m'] a'] eqn:Er.
      apply (work_trans held extra c a c2 a2 _ _ H2). intros strand Ps. specialize (IH (strand ++ extra) c2 m1 a2 Ps). by rewrite Er in IH.
    + destruct (read_loop junk handler script c0 m1 a) as [[[x c'] m'] a'] eqn:Er.
      apply (work_trans held extra c a c0 a); [by apply work_same|]. intros strand Ps. specialize (IH (strand ++ extra) c0 m1 a Ps). by rewrite Er in IH.
Qed.

(** Work on a connection that is followed by [process_input]. *)
Lemma work_then_process held extra c a c1 a1 :
  connection_work held extra c a c1 a1 -> let '(x, c2, a2) := process_input handler c1 a1 in connection_work held extra c a c2 a2.
Proof.
  intros Hw. destruct (process_input handler c1 a1) as [[x c2] a2] eqn:Ep. apply (work_trans held extra c a c1 a1 _ _ Hw). intros strand Ps. pose proof (work_process held (strand ++ extra) c1 a1 Ps) as Hp. by rewrite Ep in Hp.
Qed.

Lemma work_then_same held extra c a c1 a1 c2 : connection_work held extra c a c1 a1 -> cn_id c2 = cn_id c1 -> cn_async c2 = cn_async c1 -> connection_work held extra c a c2 a1.
Proof. intros Hw E1 E2. apply (work_trans held extra c a c1 a1 _ _ Hw). intros strand Ps. by apply work_same. Qed.

Lemma work_then_refresh held extra c a c1 a1 m :
  connection_work held extra c a c1 a1 -> let '(x, c2, m2) := refresh_client_events ready c1 m a1 in connection_work held extra c a c2 a1.
Proof.
  intros Hw. pose proof (refresh_same c1 m a1) as Hr. cbn beta in Hr. destruct (refresh_client_events ready c1 m a1) as [[x c2] m2]. destruct Hr as [R1 R2]. by apply (work_then_same held extra c a c1 a1).
Qed.

Lemma work_read held extra script c m a :
  pending_ok held (extra ++ []) a -> let '(x, c', m', a') := handle_read junk handler ready script c m a in connection_work held extra c a c' a'.
Proof.
  intros P. unfold handle_read. pose proof (work_read_loop held extra script c m a P) as Hl. destruct (read_loop junk handler script c m a) as [[[[x|] c1] m1] a1]; [|done].
  destruct (negb (x =? 0)); [done|]. pose proof (work_then_process held extra c a c1 a1 Hl) as Hp. destruct (process_input handler c1 a1) as [[y c2] a2]. destruct (negb (y =? 0)); [done|].
  pose proof (work_then_refresh held extra c a c2 a2 m1 Hp) as Hr. by destruct (refresh_client_events ready c2 m1 a2) as [[z c3] m3].
Qed.

Lemma work_write held extra script c m a c0 a0 :
  connection_work held extra c0 a0 c a ->
  let '(x, c', m', a', sent) := handle_write handler ready script c m a in connection_work held extra c0 a0 c' a'.
Proof.
  intros P. unfold handle_write. destruct (net_buffer_flush_fd script (cn_output c)) as [[[result|] output] sent]; [|by apply (work_then_same held extra c0 a0 c a)].
  destruct (result <? 0); [by apply (work_then_same held extra c0 a0 c a)|]. set (c1 := if net_buffer_readable output =? 0 then _ else _).
  assert (H1 : connection_work held extra c0 a0 c1 a). { apply (work_then_same held extra c0 a0 c a); [done|..]; unfold c1; by destruct (_ =? _). }
  destruct (result =? 0).
  { pose proof (work_then_refresh held extra c0 a0 c1 a m H1) as Hr. by destruct (refresh_client_events ready c1 m a) as [[z c3] m3]. }
  destruct (cn_close c1); [done|]. pose proof (work_then_process held extra c0 a0 c1 a H1) as Hp. destruct (process_input handler c1 a) as [[y c2] a2]. destruct (negb (y =? 0)); [done|].
  destruct (_ && _); [done|]. pose proof (work_then_refresh held extra c0 a0 c2 a2 m Hp) as Hr. by destruct (refresh_client_events ready c2 m a2) as [[z c3] m3].
Qed.

(** ** One event *)

Lemma client_steady held extra r c c' a' l m :
  steady held extra r -> c ∈ rx_clients r -> connection_work held extra c (rx_state r) c' a' -> replaced c' (rx_clients r) l -> steady held extra (with_work l m a' r).
Proof.
  intros [S Ht] Hc [slack (E & Ha & strand & new & P & T & L & W & R)] Hl. destruct (L Ht) as [-> Ht']. split; [|done]. by apply (client_ok held extra [] [] r c c').
Qed.

(** Clients that are dropped, or whose events change. *)
Lemma clients_steady held extra r l m :
  steady held extra r -> cn_id <$> l `sublist_of` cn_id <$> rx_clients r -> (forall x, x ∈ l -> exists c, c ∈ rx_clients r /\ cn_id x = cn_id c /\ cn_async x = cn_async c) ->
  steady held extra (with_work l m (rx_state r) r).
Proof.
  intros [[S1 S0 S2 S3 S4 S5 S6] Ht] Hs Hl. split; [|done]. rewrite Forall_forall in S3, S6. split; cbn [with_work rx_clients rx_state rx_next_id]; try done.
  - eapply sublist_NoDup; [exact S2|exact Hs].
  - apply Forall_forall. intros x (c & Hc & -> & _)%Hl. auto.
  - apply Forall_forall. intros x (c & Hc & -> & ->)%Hl. auto.
Qed.

Lemma no_clients_steady held extra r m : steady held extra r -> steady held extra (with_work [] m (rx_state r) r).
Proof. intros S. apply clients_steady; [done|apply sublist_nil_l|]. by intros x ?%not_elem_of_nil. Qed.

Lemma drop_steady held extra r id m : steady held extra r -> steady held extra (with_work (drop_client id (rx_clients r)) m (rx_state r) r).
Proof.
  intros S. apply clients_steady; [done|apply fmap_sublist, drop_client_sublist|]. intros x [Hx _]%drop_client_elem. by exists x.
Qed.

Lemma refresh_all_same l m a :
  let '(l', m') := refresh_all ready l m a in
  cn_id <$> l' `sublist_of` cn_id <$> l /\ forall x, x ∈ l' -> exists c, c ∈ l /\ cn_id x = cn_id c /\ cn_async x = cn_async c.
Proof.
  revert m. induction l as [|c l IH]; intros m; cbn [refresh_all]; [split; [done|by intros x ?%not_elem_of_nil]|]. pose proof (refresh_same c m a) as Hr.
  destruct (refresh_client_events ready c m a) as [[y c'] m1]. specialize (IH m1). destruct (refresh_all ready l m1 a) as [l' m2]. destruct IH as [I1 I2], Hr as [R1 R2]. destruct (negb (y =? 0)).
  - split; [by apply sublist_cons|]. intros x (z & Hz & ?)%I2. exists z. split; [by right|done].
  - split; [cbn; rewrite R1; by apply sublist_skip|]. intros x [->|Hx]%elem_of_cons; [exists c; split; [by left|done]|]. apply I2 in Hx as (z & Hz & ?). exists z. split; [by right|done].
Qed.

(** What was sent does not matter. *)
Lemma steady_unsent held extra r r' :
  steady held extra r -> rx_clients r' = rx_clients r -> rx_next_id r' = rx_next_id r -> rx_state r' = rx_state r -> steady held extra r'.
Proof. intros [[S1 S0 S2 S3 S4 S5 S6] Ht] E1 E2 E3. split; [|by rewrite E3]. split; by rewrite ?E1, ?E2, ?E3. Qed.

Lemma quietly_flush : quietly (A := A) flush_service.
Proof. unfold flush_service. apply quietly_bind; [apply quietly_service, keeps_flush|intros ?; apply quietly_ret]. Qed.

Lemma run_client_steady extra r id ev result r' :
  steady [] extra r -> run_client junk handler ready flush_service id ev r = (result, r') -> result = RunOn \/ result = RunFlushFailed ->
  steady [] extra r' /\ rx_next_id r' = rx_next_id r.
Proof.
  intros S E Hres. unfold run_client in E. destruct (find_client id (rx_clients r)) as [c|] eqn:F; [|injection E as <- _; by destruct Hres]. apply find_client_some in F as [Hc Hid].
  destruct (ev_hangup ev); [injection E as <- <-; split; [|done]; exact (drop_steady [] extra r id (rx_mem r) S)|].
  pose proof (so_pending _ _ _ _ (proj1 S)) as P. set (c0 := if ev_rdhup ev then _ else _) in E.
  assert (H0 : connection_work [] extra c (rx_state r) c0 (rx_state r)) by (apply work_same; [done|..]; unfold c0; by destruct (ev_rdhup ev)).
  assert (H1 : let '(x, c1, m1, a1) := if ev_in ev then handle_read junk handler ready (ev_recv ev) c0 (rx_mem r) (rx_state r) else (Some 0, c0, rx_mem r, rx_state r) in connection_work [] extra c (rx_state r) c1 a1).
  { destruct (ev_in ev); [|done]. destruct (handle_read junk handler ready (ev_recv ev) c0 (rx_mem r) (rx_state r)) as [[[x c1] m1] a1] eqn:Er. apply (work_trans [] extra c (rx_state r) c0 (rx_state r) _ _ H0).
    intros strand Ps. pose proof (work_read [] (strand ++ extra) (ev_recv ev) c0 (rx_mem r) (rx_state r) Ps) as Hr. by rewrite Er in Hr. }
  destruct (if ev_in ev then _ else _) as [[[result1 c1] m1] a1]. destruct result1 as [result1|]; [|injection E as <- _; by destruct Hres].
  assert (Hsettle : forall c2 a2 m2 sent y, connection_work [] extra c (rx_state r) c2 a2 ->
    steady [] extra (settle_client c2 y (mk_reactor (rx_clients r) (rx_next_id r) (rx_stopping r) sent m2 a2))).
  { intros c2 a2 m2 sent y Hw. assert (Hx : forall l, replaced c2 (rx_clients r) l -> steady [] extra (with_work l m2 a2 r)) by (intros l Hl; by apply (client_steady [] extra r c c2)).
    unfold settle_client. destruct (_ || _); [by apply (steady_unsent _ _ _ _ (Hx _ (or_intror eq_refl)))|by apply (steady_unsent _ _ _ _ (Hx _ (or_introl eq_refl)))]. }
  assert (Hnext : forall c2 y r1, rx_next_id (settle_client c2 y r1) = rx_next_id (S := app_context A) r1) by (intros c2 y r1; unfold settle_client; by destruct (_ || _)).
  destruct ((result1 =? 0) && ev_out ev); [|injection E as <- <-; split; [exact (Hsettle c1 a1 m1 (rx_sent r) result1 H1)|by rewrite Hnext]].
  unfold write_client in E. cbn [with_work rx_state rx_clients rx_mem rx_next_id rx_stopping rx_sent] in E.
  assert (G1 : good a1). { destruct H1 as [slack (_ & _ & strand & new & P1 & _)]. apply P1. }

  pose proof (quietly_flush a1 G1) as Q2. destruct (flush_service a1) as [flushed a2]. cbn [snd] in Q2.
  assert (H2 : connection_work [] extra c (rx_state r) c1 a2). { apply (work_trans [] extra c (rx_state r) c1 a1 _ _ H1). intros strand Ps. by apply work_quiet. }
  destruct (negb (flushed =? 0)).
  { injection E as <- <-. split; [|done]. exact (client_steady [] extra r c c1 a2 (put_client c1 (rx_clients r)) m1 S Hc H2 (or_introl eq_refl)). }
  pose proof (work_write [] extra (ev_send ev) c1 m1 a2 c (rx_state r) H2) as H3. destruct (handle_write handler ready (ev_send ev) c1 m1 a2) as [[[[result3 c3] m3] a3] sent].
  destruct result3 as [result3|]; injection E as <- <-; [|by destruct Hres]. split; [apply Hsettle, H3|by rewrite Hnext].
Qed.

(** A new connection has an identifier that no request has as its token. *)
Lemma create_steady extra r added m :
  steady [] extra r -> rx_next_id r + 1 < 2 ^ 64 -> let '(c, r1) := client_create junk r in
  steady [] extra (match c with Some c => with_work (if (added : bool) then c :: rx_clients r1 else rx_clients r1) m (rx_state r1) r1 | None => r1 end) /\
  rx_next_id r <= rx_next_id r1 <= rx_next_id r + 1.
Proof.
  intros [S Ht] Hb. destruct S as [S1 S0 S2 S3 S4 S5 S6]. unfold client_create. destruct (malloc (rx_mem r)) as [[] m1]; [|split; [|cbn; lia]; split; [|done]; by split]. cbn [negb].
  unfold wrap64. rewrite Z.mod_small by lia. destruct (Z.eqb_spec (rx_next_id r + 1) 0); [lia|].
  destruct (net_buffer_init junk m1 REACTOR_INITIAL_BUFFER) as [[r1 input] m2]. destruct (if negb (r1 =? 0) then _ else _) as [[r2 output] m3].
  assert (Hw : forall x, 0 < x <= rx_next_id r -> 0 < x <= rx_next_id r + 1) by lia.
  destruct (_ || _); (split; [|cbn; lia]); (split; [|done]).
  - split; cbn; try done; [lia|by eapply Forall_impl; [exact S3|intros c; apply Hw]|by eapply Forall_impl; [exact S5|exact Hw]].
  - split; cbn [with_work rx_clients rx_next_id rx_state]; try done; [lia| | |by eapply Forall_impl; [exact S5|exact Hw]|].
    + destruct added; [|done]. cbn. apply NoDup_cons. split; [|done]. intros (c & E & Hc)%list_elem_of_fmap. rewrite Forall_forall in S3. specialize (S3 c Hc). lia.
    + destruct added; [constructor; [cbn; lia|]|]; (eapply Forall_impl; [exact S3|intros c; apply Hw]).
    + destruct added; [constructor; [|done]|done]. cbn. split; [done|]. intros Hin. rewrite Forall_forall in S5. specialize (S5 _ Hin). lia.
Qed.

Lemma accept_steady extra script r result r' :
  steady [] extra r -> rx_next_id r + zlen script < 2 ^ 64 -> handle_accept junk script r = (result, r') ->
  steady [] extra r' /\ rx_next_id r' <= rx_next_id r + zlen script.
Proof.
  revert r. induction script as [|ev script IH]; intros r S Hb E; cbn [handle_accept] in E; [injection E as <- <-; rewrite zlen_nil; split; [done|lia]|]. rewrite zlen_cons in *. pose proof (zlen_nonneg script).
  destruct ev as [nonblocking| | |]; try (injection E as <- <-; split; [done|lia]).
  - destruct nonblocking; cbn [negb] in E; [|destruct (IH r S ltac:(lia) E); split; [done|lia]].
    pose proof (create_steady extra r) as Hc. destruct (client_create junk r) as [[c|] r1].
    + destruct (malloc (rx_mem r1)) as [added m]. destruct (Hc added m S ltac:(lia)) as [C1 C2].
      destruct (IH _ C1 ltac:(cbn; lia) E) as [I1 I2]. split; [done|]. cbn in I2. lia.
    + destruct (Hc true [] S ltac:(lia)) as [C1 C2]. destruct (IH _ C1 ltac:(lia) E) as [I1 I2]. split; [done|lia].
  - destruct (IH r S ltac:(lia) E). split; [done|lia].
Qed.

(** The connections that the events of a round accept at most. *)
Definition accepts (l : list reactor_event) : Z := zlen (l ≫= (fun ev => match ev with EventListener _ _ script => script | _ => [] end)).

Definition round_handler := run_event junk handler ready flush_service (maintain_cache persistence_maintain) (drain_mysql_completions admin junk).

(** The input that waits in the buffers of the clients when completions run. *)
Definition drained (ev : reactor_event) r : nat := match ev with EventWake _ => input_left r | _ => 0%nat end.

Lemma run_event_steady extra ev r result r' :
  steady [] extra r -> rx_next_id r + accepts [ev] < 2 ^ 64 -> round_handler ev r = (result, r') -> result = RunOn \/ result = RunFlushFailed ->
  exists strand, steady [] (strand ++ extra) r' /\ rx_next_id r' <= rx_next_id r + accepts [ev] /\ (length strand <= drained ev r)%nat.
Proof.
  intros S Hb E Hres. pose proof (so_next _ _ _ _ (proj1 S)). unfold round_handler, run_event in E. destruct ev as [hangup|hangup|hangup readable script|id ev].
  - destruct hangup; [injection E as <- _; by destruct Hres|]. destruct (drain_mysql_completions admin junk r) as [y r1] eqn:E1. destruct (Z.eqb_spec y 0) as [->|]; [|injection E as <- _; by destruct Hres].
    destruct (completions_spec admin junk Hadmin extra r r1 (proj1 S) E1) as (strand & S1 & N1 & B1). cbn [negb] in E. pose proof (refresh_all_same (rx_clients r1) (rx_mem r1) (rx_state r1)) as Hr.
    destruct (refresh_all ready (rx_clients r1) (rx_mem r1) (rx_state r1)) as [l m]. destruct Hr as [R1 R2]. injection E as <- <-. exists strand. split; [by apply clients_steady|]. cbn [with_work rx_next_id]. rewrite N1. unfold accepts, zlen. cbn. split; [lia|done].
  - destruct hangup; [injection E as <- _; by destruct Hres|]. exists [].
    assert (Q : quietly (maintain_cache persistence_maintain)).
    { unfold maintain_cache. apply quietly_bind; [apply quietly_purge; lia|intros _]. apply quietly_bind; [apply quietly_service, keeps_maintain|intros y]. destruct (negb (y =? 0)); [apply quietly_ret|].
      apply quietly_bind; [done|intros z; apply quietly_ret]. }
    destruct S as [S Ht]. pose proof (served_on_app [] extra [] _ (maintain_cache persistence_maintain) r S Q) as Hs. unfold on_app in Hs. destruct (maintain_cache persistence_maintain (rx_state r)) as [y a].
    injection E as _ <-. destruct (steady_served _ _ _ _ Hs Ht) as [S1 _]. split; [exact S1|]. cbn [with_work rx_next_id]. unfold accepts, zlen. cbn. lia.
  - destruct hangup; [injection E as <- _; by destruct Hres|]. exists []. destruct readable; cbn [negb] in E; [|injection E as _ <-; split; [done|]; pose proof (zlen_nonneg script); unfold accepts; cbn; rewrite app_nil_r; lia].
    unfold accepts in *. cbn in Hb |- *. rewrite app_nil_r in Hb |- *. destruct (handle_accept junk script r) as [y r1] eqn:E1. injection E as _ <-. destruct (accept_steady extra script r y r1) as [S1 N1]; [done|done|done|]. split; [done|]. split; [done|lia].
  - destruct (run_client_steady extra r id ev result r' S E Hres) as [S1 N1]. exists []. split; [done|]. rewrite N1. unfold accepts, zlen. cbn. lia.
Qed.
End Rounds.
