(* ===== verification/ServerProps.v ===== *)
(** Runs of the server: who waits for a deferred response, and what the event
    loop gets wrong. *)

From S2P Require Import Prelude NetBuffer Reactor Resp HashTable ZOrder Object ExpireHeap LruList Cache.
From S2P Require Import Rdb Aof Double MysqlStore MysqlThreads MysqlProps CommandText Service AppFrames App AppLoads AppPending AppProps.
From S2P Require Import Server ServerLoads Pipeline ServerDrain ServerRounds.

Section Runs.
Context {A : Type} `{LogOps A} (admin : persistence_admin (A := A)) (junk : Z) (Hadmin : admin_keeps admin).
Context (ready : Z -> app_context A -> bool) (persistence_maintain : app_cmd A Z) (Hmaintain : quietly persistence_maintain).
Implicit Types (a b : app_context A) (r : server A).

(** Work of the threads of the store that neither adds nor drops waiters, and
    other changes of the service, the clock for instance.  A reader drops waiters
    in two cases, which these runs leave out: it destroys those of a job when it
    has no memory for the result, and it loses one that joins the job while the
    result is being published ([MysqlProps.late_join_loses_waiter]); their
    requests then stay pending without a place. *)
Definition store_work (w w' : world A) : Prop :=
  exists inflight completed inflight' completed',
    loads_view w = Some (inflight, completed) /\ loads_view w' = Some (inflight', completed') /\
    (inflight' ≫= lj_waiters) ++ (completed' ≫= lr_waiters) ≡ₚ (inflight ≫= lj_waiters) ++ (completed ≫= lr_waiters).

(** A reader that does not destroy waiters does such work. *)
Lemma reader_work w store rd others ev rd' store' h :
  sv_mysql (w_service w) = Some store -> loads_ok store (rd :: others) -> waiters_ok store (rd :: others) h ->
  reader_step ev rd store = Some (rd', store') -> my_destroyed store' = my_destroyed store ->
  store_work w (mk_world (w_mem w) (w_now w) (w_ticks w) (put_mysql (Some store') (w_service w))).
Proof.
  intros Es L W E Hd. exists (my_inflight store), (my_completed store), (my_inflight store'), (my_completed store'). split; [unfold loads_view; by rewrite Es|]. split; [done|].
  pose proof (reader_step_waiters _ _ _ _ _ _ _ L W E) as [W' _]. destruct W as [W _]. rewrite W, Hd in W'. rewrite !(app_assoc (_ ≫= lj_waiters)) in W'. by apply Permutation_app_inv_r in W'.
Qed.

Definition put_service (w : world A) r : server A := put_state (put_world w (rx_state r)) r.

Definition handle_event := round_handler admin junk ready persistence_maintain.

(** The runs of the server: events, the flush at the end of a round, and work of
    the threads in between.  The number counts the bytes of input that waited
    in the buffers of the clients when completions ran. *)
Inductive server_reach (r0 : server A) : nat -> server A -> Prop :=
| reach_start : server_reach r0 0 r0
| reach_event n r ev r' :
    server_reach r0 n r -> rx_next_id r + accepts [ev] < 2 ^ 64 -> handle_event ev r = (RunOn, r') -> server_reach r0 (n + drained ev r) r'
| reach_broken n r ev r' :
    server_reach r0 n r -> rx_next_id r + accepts [ev] < 2 ^ 64 -> handle_event ev r = (RunFlushFailed, r') ->
    server_reach r0 (n + drained ev r) (with_clients [] r')
| reach_flush n r flushed a :
    server_reach r0 n r -> flush_service (rx_state r) = (flushed, a) ->
    server_reach r0 n (with_work (if negb (flushed =? 0) then [] else rx_clients r) (rx_mem r) a r)
| reach_work n r w : server_reach r0 n r -> store_work (ap_world (rx_state r)) w -> server_reach r0 n (put_service w r).

Lemma work_steady extra w r : steady [] extra r -> store_work (ap_world (rx_state r)) w -> steady [] extra (put_service w r).
Proof.
  intros [S Ht] (i & c & i' & c' & E1 & E2 & Hp). set (a := rx_state r) in *. pose proof (so_pending _ _ _ _ S) as P. fold a in P.
  assert (S1 : store_waiters a = (i ≫= lj_waiters) ++ (c ≫= lr_waiters)) by (unfold store_waiters; by rewrite E1).
  assert (S2 : store_waiters (put_world w a) = (i' ≫= lj_waiters) ++ (c' ≫= lr_waiters)) by (unfold store_waiters; cbn [ap_world put_world]; by rewrite E2).
  assert (P' : pending_ok [] (extra ++ []) (put_world w a)).
  { apply (pending_same [] (extra ++ []) [] (extra ++ []) a); try done; try apply P; [destruct (po_good _ _ _ P); by split| |]; rewrite S1, S2; cbn [ap_waiting put_world]; by rewrite Hp. }
  split; [|done]. apply (server_same [] extra []); [done|done|]. by apply (tokens_moved [] extra [] [] extra a (put_world w a) P P').
Qed.

Lemma reach_steady r0 n r :
  steady [] [] r0 -> server_reach r0 n r -> exists stranded, steady [] stranded r /\ (length stranded <= n)%nat.
Proof.
  intros S0. induction 1 as [|n r ev r' _ (st & S & L) Hb E|n r ev r' _ (st & S & L) Hb E|n r flushed a _ (st & S & L) E|n r w _ (st & S & L) Hw].
  - by exists [].
  - destruct (run_event_steady admin junk Hadmin ready persistence_maintain Hmaintain st ev r RunOn r' S Hb E (or_introl eq_refl)) as (strand & S' & _ & L').
    exists (strand ++ st). rewrite length_app. split; [done|lia].
  - destruct (run_event_steady admin junk Hadmin ready persistence_maintain Hmaintain st ev r RunFlushFailed r' S Hb E (or_intror eq_refl)) as (strand & S' & _ & L').
    exists (strand ++ st). rewrite length_app. split; [exact (no_clients_steady [] (strand ++ st) r' (rx_mem r') S')|lia].
  - exists st. split; [|done].
    destruct S as [S Ht]. pose proof (served_on_app [] st [] _ flush_service r S quietly_flush) as Hs. unfold on_app in Hs. rewrite E in Hs. destruct (steady_served _ _ _ _ Hs Ht) as [S1 _]. cbn [snd] in S1.
    destruct (negb (flushed =? 0)); [exact (no_clients_steady [] st _ (rx_mem r) S1)|exact S1].
  - exists st. split; [by apply work_steady|done].
Qed.

(** A round of [reactor_run] is such a run. *)
Lemma events_reach r0 n r l result r' :
  steady [] [] r0 -> server_reach r0 n r -> rx_next_id r + accepts l < 2 ^ 64 ->
  run_events junk (app_handler admin junk) ready flush_service (maintain_cache persistence_maintain) (drain_mysql_completions admin junk) l r = (result, r') ->
  result = RunOn -> exists n', server_reach r0 n' r'.
Proof.
  intros S0 R. revert n r R. induction l as [|ev l IH]; intros n r R Hb E Hres; cbn [run_events] in E; [injection E as _ <-; by exists n|].
  assert (Ha : accepts (ev :: l) = accepts [ev] + accepts l) by (unfold accepts; cbn; by rewrite app_nil_r, zlen_app). pose proof (zlen_nonneg (l ≫= (fun ev => match ev with EventListener _ _ script => script | _ => [] end))) as Hl. fold (accepts l) in Hl.
  destruct (reach_steady r0 n r S0 R) as (st & S & _). destruct (run_event _ _ _ _ _ _ ev r) as [x r1] eqn:E1. destruct x; try (injection E as <- _; done).
  destruct (run_event_steady admin junk Hadmin ready persistence_maintain Hmaintain st ev r RunOn r1 S ltac:(lia) E1 (or_introl eq_refl)) as (strand & _ & N & _).
  apply (IH (n + drained ev r)%nat r1); [|lia|exact E|done]. by apply (reach_event r0 n r ev r1 R); [lia|].
Qed.

Theorem round_reach r0 n r l r' :
  steady [] [] r0 -> server_reach r0 n r -> rx_next_id r + accepts l < 2 ^ 64 ->
  reactor_round junk (app_handler admin junk) ready flush_service (maintain_cache persistence_maintain) (drain_mysql_completions admin junk) l r = (RunOn, r') ->
  (forall r1, run_events junk (app_handler admin junk) ready flush_service (maintain_cache persistence_maintain) (drain_mysql_completions admin junk) l r <> (RunFlushFailed, r1)) ->
  exists n', server_reach r0 n' r'.
Proof.
  intros S0 R Hb E Hf. unfold reactor_round in E. destruct (run_events _ _ _ _ _ _ l r) as [x r1] eqn:E1. destruct x; try done; [|by destruct (Hf r1)].
  destruct (events_reach r0 n r l RunOn r1 S0 R Hb E1 eq_refl) as [n' R1]. destruct (flush_service (rx_state r1)) as [flushed a] eqn:Ef. injection E as <-. exists n'. by apply (reach_flush r0 n' r1 flushed a).
Qed.

(** C11. Requests that wait for the database.  In every run of the event loop
    with a database in which the readers drop no waiter ([store_work]), each
    pending request is in exactly one place: in the list of requests for dirty
    keys, among the waiters of the store, or stranded; no more requests are
    stranded than bytes of input waited in the buffers when completions ran, so
    that none is when clients do not pipeline.  The registry counts, for each
    key, the requests that wait for its load.  A connection waits for a deferred
    response exactly when a pending request has its token, and then it is one
    request.  In these runs no event names a client that was freed before, fewer
    than 2^64 clients connect, and saving and its maintenance leave the database
    alone. *)
Theorem deferred_requests_accounted (w : world A) store uuid start ttl capacity a0 m n r :
  sv_initialized (w_service w) = true -> my_inflight store = [] -> my_completed store = [] -> open_app w store uuid start ttl capacity = Some a0 ->
  server_reach (mk_reactor [] 0 false [] m a0) n r ->
  let a := rx_state r in
  exists stranded, (length stranded <= n)%nat /\
    NoDup (ap_waiting a ++ store_waiters a ++ stranded) /\ (forall p, is_Some (ap_requests a !! p) <-> p ∈ ap_waiting a ++ store_waiters a ++ stranded) /\
    (forall p q, ap_requests a !! p = Some q -> pq_registered q = bool_decide (p ∈ store_waiters a)) /\
    (forall k, default 0 (waiting_for a !! k) = waiters_of a k (store_waiters a)) /\
    (forall c, c ∈ rx_clients r -> cn_async c = true <-> exists p q, ap_requests a !! p = Some q /\ pq_token q = cn_id c) /\
    (forall p p' q q', ap_requests a !! p = Some q -> ap_requests a !! p' = Some q' -> pq_token q = pq_token q' -> p = p').
Proof.
  intros Hi E1 E2 E R. cbn zeta. destruct (opened_ok w store uuid start ttl capacity a0 Hi E1 E2 E) as (P0 & W0 & S0 & T0).
  assert (St : steady [] [] (mk_reactor [] 0 false [] m a0)).
  { assert (Ht : tokens [] [] a0 = []) by (unfold tokens, obliged; by rewrite W0, S0). split; [|unfold tail_ok; cbn; by rewrite W0, T0]. split; cbn; rewrite ?Ht; try done; [apply NoDup_nil_2|apply NoDup_nil_2]. }
  destruct (reach_steady _ n r St R) as (stranded & [[P _ _ _ N _ F] _] & L). exists stranded. rewrite app_nil_r in P. set (a := rx_state r) in *. destruct P as [_ _ _ P4 P5 _ P7 P8 _ _]. cbn [app] in P4, P5.
  rewrite app_nil_r in P7, P8. split; [done|]. split; [done|]. split; [done|]. split; [done|]. split; [done|]. unfold tokens, obliged in N, F. cbn [app] in N, F. split.
  - intros c Hc. rewrite Forall_forall in F. rewrite (F c Hc). rewrite list_elem_of_fmap. split.
    + intros (p & Et & Hp). apply P5 in Hp as [q Hq]. exists p, q. split; [done|]. unfold token_of in Et. by rewrite Hq in Et.
    + intros (p & q & Hq & Et). exists p. unfold token_of. rewrite Hq. split; [done|]. apply P5. by exists q.
  - intros p p' q q' Hp Hp' Et. assert (Hin : p ∈ ap_waiting a ++ store_waiters a ++ stranded) by (apply P5; by exists q). assert (Hin' : p' ∈ ap_waiting a ++ store_waiters a ++ stranded) by (apply P5; by exists q').
    apply list_elem_of_lookup in Hin as [i Hx]. apply list_elem_of_lookup in Hin' as [j Hy]. assert (Hij : i = j).
    { apply (NoDup_lookup _ i j (pq_token q) N); rewrite list_lookup_fmap; [rewrite Hx|rewrite Hy]; cbn; unfold token_of; [by rewrite Hp|by rewrite Hp', Et]. }
    congruence.
Qed.
End Runs.

(** ** Concrete runs *)

Definition idle_maintain : app_cmd aof Z := mret 0.

(** [reactor_run] on the server without a persistence manager. *)
Definition serve (rounds : list (list reactor_event)) (r : server aof) : run_result * server aof :=
  reactor_run 0 (app_handler idle_admin 0) aof_barrier_ready flush_service (maintain_cache idle_maintain) (drain_mysql_completions idle_admin 0) rounds r.

(** A server with a log and a database, and one without either. *)
Definition logged_world : world aof := mk_world [] 1000 [] (kvstore_service_attach_aof (Some (aof_open [] AOF_FSYNC_ALWAYS)) app_service).

Definition logged_app : app_context aof :=
  match open_app logged_world sample_store (replicate 16 1) 0 3000 100 as x return match x with Some _ => app_context aof | None => unit end with
  | Some a => a
  | None => tt
  end.

Definition logged_server : server aof := mk_reactor [] 0 false [] [] logged_app.

Definition plain_server : server aof := mk_reactor [] 0 false [] [] plain_app.

Definition accept (n : nat) : reactor_event := EventListener false true (replicate n (Accepted true) ++ [AcceptEagain]).

(** The client [id] sends the requests. *)
Definition asks (id : Z) (requests : list (list (list Z))) : reactor_event :=
  EventClient id (mk_event false false true false [Received (requests ≫= request_frame); RecvEagain] []).

(** The writer of the store applied the mutations up to [n]. *)
Definition apply_writes (n : Z) (w : world aof) : world aof :=
  match sv_mysql (w_service w) with
  | None => w
  | Some s => mk_world (w_mem w) (w_now w) (w_ticks w) (put_mysql (Some (with_mysql_stats (count_applied n (my_stats s)) (with_writes [] 0 s))) (w_service w))
  end.

Lemma apply_writes_work n w : is_Some (loads_view w) -> store_work w (apply_writes n w).
Proof.
  intros [[inflight completed] E]. exists inflight, completed, inflight, completed. split; [done|]. split; [|done]. unfold loads_view, apply_writes in *. by destruct (sv_mysql (w_service w)) as [s|].
Qed.

(** One event, if the loop goes on. *)
Definition step_event (ev : reactor_event) (r : server aof) : option (server aof) :=
  if bool_decide (rx_next_id r + accepts [ev] < 2 ^ 64) then
    match handle_event idle_admin 0 aof_barrier_ready idle_maintain ev r with (RunOn, r) => Some r | _ => None end
  else None.

Fixpoint step_events (l : list reactor_event) (r : server aof) : option (server aof) :=
  match l with [] => Some r | ev :: l => step_event ev r ≫= step_events l end.

Definition sample_reach := server_reach idle_admin 0 aof_barrier_ready idle_maintain logged_server.

Lemma step_events_reach l n r r' : sample_reach n r -> step_events l r = Some r' -> exists n', sample_reach n' r'.
Proof.
  revert n r. induction l as [|ev l IH]; intros n r R E; cbn [step_events] in E; [injection E as <-; by exists n|]. unfold step_event in E. case_bool_decide as Hb; [|done].
  destruct (handle_event _ _ _ _ ev r) as [[] r1] eqn:E1; try done. cbn [mbind option_bind] in E. apply (IH (n + drained ev r)%nat r1); [|done]. by apply reach_event.
Qed.

(** Two clients; one deletes [a], asks for it, and goes on with [b]. *)
Definition two_clients : list reactor_event :=
  [accept 2;
   asks 1 [[lit "SET"; [97]; [49]]; [lit "DEL"; [97]]; [lit "GET"; [97]]; [lit "SET"; [98]; [49]]; [lit "DEL"; [98]]; [lit "GET"; [98]]];
   asks 2 [[lit "SET"; [97]; [50]]; [lit "GET"; [99]]]].

Definition before_wake : server aof := default logged_server (step_events two_clients logged_server).

Definition applied_server : server aof := put_service (apply_writes 3 (ap_world (rx_state before_wake))) before_wake.

Definition after_wake : server aof := default logged_server (step_events [EventWake false] applied_server).

Lemma before_wake_reach : exists n, sample_reach n before_wake.
Proof. apply (step_events_reach two_clients 0 logged_server); [apply reach_start|]. vm_compute. reflexivity. Qed.

Lemma after_wake_reach : exists n, sample_reach n after_wake.
Proof.
  destruct before_wake_reach as [n R]. apply (step_events_reach [EventWake false] n applied_server); [|vm_compute; reflexivity].
  apply reach_work; [exact R|]. apply apply_writes_work. eexists. vm_compute. reflexivity.
Qed.

Lemma deferred_requests_accounted_witness :
  (cn_id <$> List.filter cn_async (rx_clients before_wake)) = [2; 1] /\ exists n stranded,
    (length stranded <= n)%nat /\ (forall p, is_Some (ap_requests (rx_state before_wake) !! p) <-> p ∈ [0] ++ [1] ++ stranded).
Proof.
  split; [vm_compute; reflexivity|]. destruct before_wake_reach as [n R]. exists n.
  destruct (deferred_requests_accounted idle_admin 0 idle_admin_keeps aof_barrier_ready idle_maintain (quietly_ret 0) logged_world sample_store (replicate 16 1) 0 3000 100
    logged_app [] n before_wake eq_refl eq_refl eq_refl eq_refl R) as (stranded & L & _ & Hx & _). exists stranded. split; [exact L|].
  intros p. rewrite Hx. assert (E1 : ap_waiting (rx_state before_wake) = [0]) by (vm_compute; reflexivity). assert (E2 : store_waiters (rx_state before_wake) = [1]) by (vm_compute; reflexivity).
  rewrite E1, E2. reflexivity.
Defined.

(** A stranded request.  When the server answers [GET a] it goes on with the
    input of the client, while the tail of the list is the request that is
    being answered.  Nothing refers to the new request [GET b], and its client
    waits forever. *)
Example request_stranded :
  (exists n, sample_reach n after_wake) /\ ap_waiting (rx_state after_wake) = [] /\ store_waiters (rx_state after_wake) = [1] /\
  ap_requests (rx_state after_wake) !! 2 = Some (mk_pending 1 [lit "GET"; [98]] 0 false) /\ (cn_id <$> List.filter cn_async (rx_clients after_wake)) = [2; 1].
Proof. split; [exact after_wake_reach|]. vm_compute. done. Qed.

(** A client that closes its side after a request for a key that is not cached
    gets no answer: the connection is destroyed while the load is in flight. *)
Example half_closed_dropped :
  let '(result, r) := serve [[accept 1]; [EventClient 1 (mk_event false true true false [Received (request_frame [lit "GET"; [97]]); ReceivedEof] [])]] logged_server in
  result = RunOn /\ rx_clients r = [] /\ rx_sent r = [] /\ store_waiters (rx_state r) = [0].
Proof. vm_compute. done. Qed.

(** A reply before its record.  With an event that is both readable and
    writable, the reply to a write is sent although its record is not in the
    log file. *)
Example reply_before_record :
  let '(result, r) := serve [[accept 1]; [asks 1 [[lit "PING"]]];
    [EventClient 1 (mk_event false false true true [Received (request_frame [lit "SET"; [97]; [49]]); RecvEagain] [Sent 12])]] logged_server in
  result = RunOn /\ rx_sent r = [(1, lit "+PONG" ++ [CR; LF] ++ lit "+OK" ++ [CR; LF])] /\ aof_barrier_ready 1 (rx_state r) = false /\
  match sv_aof (w_service (ap_world (rx_state r))) with Some log => d_file (a_disk log) = [] | None => False end.
Proof. vm_compute. done. Qed.

(** A reply that moves the unsent output to the front of its buffer: the
    connection is dropped as if the handler had misbehaved.  Had all output
    been sent before, it would go on. *)
Definition partly_sent (l : list send_result) : run_result * server aof :=
  serve [[accept 1]; [asks 1 [[lit "SET"; [97]; replicate 440 120]; [lit "GET"; [97]]]]; [EventClient 1 (mk_event false false false true [] l)];
    [asks 1 [[lit "SET"; [98]; [49]]; [lit "GET"; [98]]]]] plain_server.

Example compacted_output_dropped :
  rx_clients (partly_sent [Sent 440; SendEagain]).2 = [] /\
  (fun c => NetBuffer.contents (cn_output c)) <$> rx_clients (partly_sent [Sent 453]).2 = [lit "+OK" ++ [CR; LF] ++ bulk_frame [49]].
Proof. vm_compute. done. Qed.
