(* ===== verification/MysqlTables.v ===== *)
(** The database of the MySQL backend: the tables of
    [config/mysql-v0.7.0.sql], the SQL statements that
    [src/storage/mysql_store.c] sends, as functions on the tables, and a
    connection with its transaction.

    A statement either changes the tables or is refused with the number of the
    MySQL error.  Rows are found by [UNHEX(SHA2(x,256))], the parameter [sha].
    The columns [updated_at] and [committed_at] are never read and are left
    out; a value that exceeds a [MEDIUMBLOB] cannot come from a request, whose
    frame has at most 1 MiB. *)

From S2P Require Import Prelude ZOrder.

(** ** Tables *)

Record key_row : Type := mk_key_row {
  kr_data : list Z; kr_type : Z; kr_expire : option Z; kr_version : Z
}.

Record change_row : Type := mk_change_row {
  cr_uuid : list Z; cr_sequence : Z; cr_hash : list Z; cr_key : list Z; cr_operation : Z
}.

Inductive bootstrap_state : Type := BOOTSTRAP_EMPTY | BOOTSTRAP_IN_PROGRESS | BOOTSTRAP_READY.

#[export] Instance bootstrap_state_eq_dec : EqDecision bootstrap_state.
Proof. solve_decision. Defined.

(** The primary keys are the keys of the maps; a child table has the data of
    the member and its value or score.  [kv_change_log] is in the order of
    [change_id]. *)
Record tables : Type := mk_tables {
  kv_keys : gmap (list Z) key_row;
  kv_strings : gmap (list Z) (list Z);
  kv_hash_fields : gmap (list Z * list Z) (list Z * list Z);
  kv_zset_members : gmap (list Z * list Z) (list Z * Z);
  kv_writer_state : gmap (list Z) Z;
  kv_change_log : list change_row;
  kv_bootstrap_state : bootstrap_state;
  kv_active_writer : option (list Z)
}.

(** The tables that the schema creates. *)
Definition empty_tables : tables := mk_tables ∅ ∅ ∅ ∅ ∅ [] BOOTSTRAP_EMPTY None.

Definition with_keys (x : gmap (list Z) key_row) (d : tables) : tables :=
  mk_tables x (kv_strings d) (kv_hash_fields d) (kv_zset_members d) (kv_writer_state d) (kv_change_log d)
    (kv_bootstrap_state d) (kv_active_writer d).

Definition with_strings (x : gmap (list Z) (list Z)) (d : tables) : tables :=
  mk_tables (kv_keys d) x (kv_hash_fields d) (kv_zset_members d) (kv_writer_state d) (kv_change_log d)
    (kv_bootstrap_state d) (kv_active_writer d).

Definition with_fields (x : gmap (list Z * list Z) (list Z * list Z)) (d : tables) : tables :=
  mk_tables (kv_keys d) (kv_strings d) x (kv_zset_members d) (kv_writer_state d) (kv_change_log d)
    (kv_bootstrap_state d) (kv_active_writer d).

Definition with_members (x : gmap (list Z * list Z) (list Z * Z)) (d : tables) : tables :=
  mk_tables (kv_keys d) (kv_strings d) (kv_hash_fields d) x (kv_writer_state d) (kv_change_log d)
    (kv_bootstrap_state d) (kv_active_writer d).

Definition with_log (state : gmap (list Z) Z) (log : list change_row) (d : tables) : tables :=
  mk_tables (kv_keys d) (kv_strings d) (kv_hash_fields d) (kv_zset_members d) state log
    (kv_bootstrap_state d) (kv_active_writer d).

Definition with_meta (state : bootstrap_state) (uuid : option (list Z)) (d : tables) : tables :=
  mk_tables (kv_keys d) (kv_strings d) (kv_hash_fields d) (kv_zset_members d) (kv_writer_state d)
    (kv_change_log d) state uuid.

(** ** Statements *)

Definition ER_DUP_ENTRY : Z := 1062.

Definition ER_NO_REFERENCED_ROW : Z := 1452.

(** A value that the column cannot hold, in the strict mode of the server. *)
Definition ER_WARN_DATA_OUT_OF_RANGE : Z := 1264.

(** A statement that writes: an error number or the tables afterwards. *)
Abbreviation statement := (tables -> Z + tables).

(** A row of [kv_keys] goes with its rows in the child tables
    ([ON DELETE CASCADE]). *)
Definition remove_row (h : list Z) (d : tables) : tables :=
  mk_tables (delete h (kv_keys d)) (delete h (kv_strings d))
    (filter (fun x => x.1.1 <> h) (kv_hash_fields d)) (filter (fun x => x.1.1 <> h) (kv_zset_members d))
    (kv_writer_state d) (kv_change_log d) (kv_bootstrap_state d) (kv_active_writer d).

(** [INSERT ... ON DUPLICATE KEY UPDATE value=IF(data=VALUES(data),VALUES(value),value)]
    on a child table. *)
Definition upsert_child {X} (at_ : list Z * list Z) (data : list Z) (value : X)
    (m : gmap (list Z * list Z) (list Z * X)) : gmap (list Z * list Z) (list Z * X) :=
  match m !! at_ with
  | Some (data', _) => if bool_decide (data' = data) then <[at_ := (data, value)]> m else m
  | None => <[at_ := (data, value)]> m
  end.

(** [DELETE FROM child WHERE key_hash=? AND member_hash=? AND member_data=?] *)
Definition delete_child {X} (at_ : list Z * list Z) (data : list Z)
    (m : gmap (list Z * list Z) (list Z * X)) : gmap (list Z * list Z) (list Z * X) :=
  match m !! at_ with
  | Some (data', _) => if bool_decide (data' = data) then delete at_ m else m
  | None => m
  end.

(** The rows of a child table with one [key_hash], in some order. *)
Definition child_rows {X} (h : list Z) (m : gmap (list Z * list Z) (list Z * X)) : list (list Z * X) :=
  (map_to_list (filter (fun x => x.1.1 = h) m)).*2.

Section Statements.
Context (sha : list Z -> list Z).

(** The row [WHERE key_hash=UNHEX(SHA2(key,256)) AND key_data=key]. *)
Definition row_of (key : list Z) (d : tables) : option key_row :=
  match kv_keys d !! sha key with
  | Some r => if bool_decide (kr_data r = key) then Some r else None
  | None => None
  end.

(** The [sql] of [delete_key]. *)
Definition sql_delete_key (key : list Z) : statement := fun d =>
  inr (if is_Some_bool (row_of key d) then remove_row (sha key) d else d).

(** The [key_sql] of [apply_set]. *)
Definition sql_insert_string_key (key : list Z) (deadline : option Z) : statement := fun d =>
  match kv_keys d !! sha key with
  | Some _ => inl ER_DUP_ENTRY
  | None => inr (with_keys (<[sha key := mk_key_row key 0 deadline 1]> (kv_keys d)) d)
  end.

(** The [value_sql] of [apply_set]. *)
Definition sql_insert_string (key value : list Z) : statement := fun d =>
  match kv_strings d !! sha key, kv_keys d !! sha key with
  | Some _, _ => inl ER_DUP_ENTRY
  | None, None => inl ER_NO_REFERENCED_ROW
  | None, Some _ => inr (with_strings (<[sha key := value]> (kv_strings d)) d)
  end.

(** The [sql] of [insert_typed_key]. *)
Definition sql_upsert_key (key : list Z) (type : Z) : statement := fun d =>
  inr match kv_keys d !! sha key with
      | None => with_keys (<[sha key := mk_key_row key type None 1]> (kv_keys d)) d
      | Some r =>
          if bool_decide (kr_data r = key) && (kr_type r =? type)
          then with_keys (<[sha key := mk_key_row (kr_data r) (kr_type r) (kr_expire r) (kr_version r + 1)]> (kv_keys d)) d
          else d
      end.

(** The [sql] of [verify_typed_key]. *)
Definition sql_count_key (key : list Z) (type : Z) (d : tables) : Z :=
  match row_of key d with Some r => if kr_type r =? type then 1 else 0 | None => 0 end.

(** The [sql] of [apply_hset] and [apply_zadd]: a row is selected only for a key
    of the type of the table. *)
Definition sql_upsert_field (key field value : list Z) : statement := fun d =>
  inr (if sql_count_key key 1 d =? 1
       then with_fields (upsert_child (sha key, sha field) field value (kv_hash_fields d)) d else d).

(** The column of the scores is a DOUBLE, which has no infinities. *)
Definition sql_upsert_member (key member : list Z) (score : Z) : statement := fun d =>
  if sql_count_key key 2 d =? 1
  then if isinf score then inl ER_WARN_DATA_OUT_OF_RANGE
       else inr (with_members (upsert_child (sha key, sha member) member score (kv_zset_members d)) d)
  else inr d.

(** The [sql] of [verify_member_identity]. *)
Definition sql_count_member {X} (table : tables -> gmap (list Z * list Z) (list Z * X))
    (key member : list Z) (d : tables) : Z :=
  match row_of key d, table d !! (sha key, sha member) with
  | Some _, Some (data, _) => if bool_decide (data = member) then 1 else 0
  | _, _ => 0
  end.

(** The [delete_sql] of [apply_hdel] and [apply_zrem]. *)
Definition sql_delete_field (key field : list Z) : statement := fun d =>
  inr (with_fields (delete_child (sha key, sha field) field (kv_hash_fields d)) d).

Definition sql_delete_member (key member : list Z) : statement := fun d =>
  inr (with_members (delete_child (sha key, sha member) member (kv_zset_members d)) d).

(** The [empty_sql] of [apply_hdel] and [apply_zrem]. *)
Definition sql_delete_empty {X} (table : tables -> gmap (list Z * list Z) (list Z * X)) (type : Z)
    (key : list Z) : statement := fun d =>
  inr match row_of key d with
      | Some r => if (kr_type r =? type) && bool_decide (child_rows (sha key) (table d) = [])
                  then remove_row (sha key) d else d
      | None => d
      end.

(** The [persist_sql] and the [expire_sql] of [apply_expire]. *)
Definition sql_expire (key : list Z) (deadline : option Z) : statement := fun d =>
  inr match row_of key d with
      | Some r => with_keys (<[sha key := mk_key_row (kr_data r) (kr_type r) deadline (kr_version r + 1)]> (kv_keys d)) d
      | None => d
      end.

(** The [change_sql] of [append_change_record]; [uq_kv_change_mutation] admits a
    sequence number of a writer once. *)
Definition sql_insert_change (uuid : list Z) (sequence : Z) (key : list Z) (operation : Z) : statement := fun d =>
  if bool_decide (Exists (fun r => cr_uuid r = uuid /\ cr_sequence r = sequence) (kv_change_log d))
  then inl ER_DUP_ENTRY
  else inr (with_log (kv_writer_state d)
              (kv_change_log d ++ [mk_change_row uuid sequence (sha key) key operation]) d).
End Statements.

(** The [state_sql] of [append_change_record] and of
    [mysql_store_bootstrap_finish]. *)
Definition sql_advance_state (uuid : list Z) (sequence : Z) : statement := fun d =>
  inr (with_log (<[uuid := Z.max (default 0 (kv_writer_state d !! uuid)) sequence]> (kv_writer_state d))
         (kv_change_log d) d).

Definition sql_replace_state (uuid : list Z) (sequence : Z) : statement := fun d =>
  inr (with_log (<[uuid := sequence]> (kv_writer_state d)) (kv_change_log d) d).

(** [DELETE FROM kv_change_log], [kv_writer_state] and [kv_keys] *)
Definition sql_clear_changes : statement := fun d => inr (with_log (kv_writer_state d) [] d).

Definition sql_clear_state : statement := fun d => inr (with_log ∅ (kv_change_log d) d).

Definition sql_clear_keys : statement := fun d =>
  inr (mk_tables ∅ ∅ ∅ ∅ (kv_writer_state d) (kv_change_log d) (kv_bootstrap_state d) (kv_active_writer d)).

(** [UPDATE kv_schema_meta SET bootstrap_state=...,active_writer_uuid=?] *)
Definition sql_update_meta (state : bootstrap_state) (uuid : list Z) : statement := fun d =>
  inr (with_meta state (Some uuid) d).

(** ** A connection *)

(** How a call of the client library ends: it is done, the server refuses it,
    or the connection is lost before or after the server did it. *)
Inductive call : Type := Done | Refused (number : Z) | Lost (number : Z) | LostAfter (number : Z).

(** The tables as committed and as the transaction of the connection sees them,
    the autocommit mode, whether the connection is alive, [mysql_errno], how
    the next calls end (done, after the last of the list), and the outcomes of
    allocations. *)
Record session : Type := mk_session {
  ss_db : tables; ss_work : tables; ss_auto : bool; ss_open : bool; ss_errno : Z;
  ss_calls : list call; ss_mem : mem
}.

Definition connected (d : tables) (calls : list call) (m : mem) : session :=
  mk_session d d true true 0 calls m.

Definition sql (T : Type) : Type := session -> T * session.

#[export] Instance sql_ret : MRet sql := fun T x s => (x, s).

#[export] Instance sql_bind : MBind sql := fun T U k c s => let '(x, s1) := c s in k x s1.

(** [c1 == 0 && c2 == 0] *)
Definition both (c1 c2 : sql bool) : sql bool := c1 ≫= fun ok : bool => if ok then c2 else mret false.

Fixpoint each {X} (f : X -> sql bool) (l : list X) : sql bool :=
  match l with
  | [] => mret true
  | x :: l => both (f x) (each f l)
  end.

Definition allocate {T} (f : mem -> T * mem) : sql T := fun s =>
  let '(x, m) := f (ss_mem s) in
  (x, mk_session (ss_db s) (ss_work s) (ss_auto s) (ss_open s) (ss_errno s) (ss_calls s) m).

Definition get_errno : sql Z := fun s => (ss_errno s, s).

(** The server rolls back the transaction of a connection that is gone. *)
Definition drop_connection (number : Z) (s : session) : session :=
  mk_session (ss_db s) (ss_db s) (ss_auto s) false number (ss_calls s) (ss_mem s).

Definition set_errno (number : Z) (s : session) : session :=
  mk_session (ss_db s) (ss_work s) (ss_auto s) (ss_open s) number (ss_calls s) (ss_mem s).

Definition put_work (d : tables) (s : session) : session :=
  mk_session (if ss_auto s then d else ss_db s) d (ss_auto s) (ss_open s) 0 (ss_calls s) (ss_mem s).

Definition put_both (d : tables) (auto : bool) (s : session) : session :=
  mk_session d d auto (ss_open s) 0 (ss_calls s) (ss_mem s).

(** A call: whether it succeeded. [work] is what the server does. *)
Definition perform {T} (failed : T) (work : session -> T * session) : sql T := fun s =>
  let c := default Done (head (ss_calls s)) in
  let s := mk_session (ss_db s) (ss_work s) (ss_auto s) (ss_open s) (ss_errno s) (tail (ss_calls s)) (ss_mem s) in
  if negb (ss_open s) then (failed, set_errno 2006 s) else
  match c with
  | Done => work s
  | Refused number => (failed, set_errno number s)
  | Lost number => (failed, drop_connection number s)
  | LostAfter number => (failed, drop_connection number (work s).2)
  end.

(** The calls of [execute_bound] for one statement. *)
Definition execute_bound (f : statement) : sql bool :=
  perform false (fun s =>
    match f (ss_work s) with
    | inl number => (false, set_errno number s)
    | inr d => (true, put_work d s)
    end).

(** The calls that run a query and store its result. *)
Definition run_query {T} (f : tables -> T) : sql (option T) :=
  perform None (fun s => (Some (f (ss_work s)), set_errno 0 s)).

(** [mysql_autocommit]; switching it on commits the transaction. *)
Definition mysql_autocommit (on : bool) : sql bool :=
  perform false (fun s =>
    (true, if on then put_both (ss_work s) true s
           else mk_session (ss_db s) (ss_work s) false (ss_open s) 0 (ss_calls s) (ss_mem s))).

Definition mysql_commit : sql bool := perform false (fun s => (true, put_both (ss_work s) (ss_auto s) s)).

(** A rollback fails only with the connection, and then the server does it. *)
Definition mysql_rollback : sql unit := fun s =>
  let c := default Done (head (ss_calls s)) in
  let s := mk_session (ss_db s) (ss_db s) (ss_auto s) (ss_open s) (ss_errno s) (tail (ss_calls s)) (ss_mem s) in
  (tt, match c with
       | Done => set_errno 0 s
       | Refused number | Lost number | LostAfter number => drop_connection number s
       end).
