(* ===== verification/MysqlSql.v ===== *)
(** The functions of [src/storage/mysql_store.c] that talk to the database:
    the loads of the readers, the mutations of the writer, and the calls of the
    start-up.  They run on the connection of [MysqlTables]; the result 0 is
    [true]. *)

From stdpp Require Import sorting.
From S2P Require Import Prelude Resp HashTable ZOrder Object Double CommandText MysqlStore Service MysqlTables.

(** ** Numbers *)

Fixpoint read_digits (l : list Z) (value : Z) : Z * list Z :=
  match l with
  | c :: l' => if (48 <=? c) && (c <=? 57) then read_digits l' (value * 10 + (c - 48)) else (value, l)
  | [] => (value, [])
  end.

(** [strtoull] in base 10: the value, whether [errno] becomes [ERANGE], and the
    text after the number. *)
Definition strtoull (text : list Z) : Z * bool * list Z :=
  let '(negative, l) := match skip_space text with
                        | 45 :: l => (true, l)
                        | 43 :: l => (false, l)
                        | l => (false, l)
                        end in
  let '(value, rest) := read_digits l 0 in
  if zlen rest =? zlen l then (0, false, text) else
  if value >? UINT64_MAX then (UINT64_MAX, true, rest)
  else (if negative then wrap64 (- value) else value, false, rest).

(** The deadline of [apply_set] and [apply_expire]; [number] has 32 bytes. *)
Definition parse_deadline (text : list Z) : option Z :=
  if (zlen text =? 0) || (zlen text >=? 32) then None else
  let '(deadline, erange, rest) := strtoull text in
  if erange || negb (zlen rest =? 0) || (deadline =? 0) then None else Some deadline.

Definition parse_score (argument : list Z) : sql (option Z) :=
  ok ← (if zlen argument >=? 128 then allocate malloc else mret true);
  if negb ok then mret None else
  let text := until_nul argument in
  mret match strtod text with
       | Some (score, erange, rest) =>
           if erange || negb (zlen text - zlen rest =? zlen argument) then None else Some score
       | None => if zlen argument =? 0 then Some 0 else None
       end.

Section Queries.
Context (sha : list Z -> list Z).

(** The order in which the server returns rows. *)
Context (field_order : list (list Z * list Z) -> list (list Z * list Z)) (member_order : list (list Z * Z) -> list (list Z * Z)).

(** ** Loads *)

(** The result of the load functions below: 0, -1 or -2. *)
Inductive load_outcome : Type := Loaded (o : kv_object) | LoadFailed | LoadTooLarge.

Definition fetch_column_blob : sql bool := allocate malloc.

Definition load_string (key : list Z) (limit : Z) : sql load_outcome :=
  value ← run_query (fun d => kv_strings d !! sha key);
  match value with
  | None | Some None => mret LoadFailed
  | Some (Some value) =>
      if zlen value >? limit then mret LoadTooLarge else
      ok ← fetch_column_blob;
      if negb ok then mret LoadFailed else
      o ← allocate (fun m => kv_object_create_string m (Some value));
      mret match o with Some o => Loaded o | None => LoadFailed end
  end.

(** The loops over the rows; the rows were stored by [mysql_stmt_store_result]
    and fetching one does not fail. *)
Fixpoint load_hash_rows (limit : Z) (rows : list (list Z * list Z)) (loaded : Z) (o : kv_object) : sql load_outcome :=
  match rows with
  | [] => mret (Loaded o)
  | (field, value) :: rows =>
      let size := zlen field + zlen value in
      if (zlen field >? SIZE_MAX - zlen value) || (size >? limit) || (loaded >? limit - size)
      then mret LoadTooLarge else
      ok1 ← fetch_column_blob;
      ok2 ← fetch_column_blob;
      if negb ok1 || negb ok2 then mret LoadFailed else
      '(w, o) ← allocate (fun m => kv_object_hash_set m o (Some field) (Some value));
      if negb (w_status w =? 0) then mret LoadFailed else
      load_hash_rows limit rows (loaded + size) o
  end.

Definition load_hash (key : list Z) (limit : Z) : sql load_outcome :=
  created ← allocate kv_object_create_hash;
  match created with
  | None => mret LoadFailed
  | Some o =>
      rows ← run_query (fun d => field_order (child_rows (sha key) (kv_hash_fields d)));
      match rows with
      | None => mret LoadFailed
      | Some rows => load_hash_rows limit rows 0 o
      end
  end.

Fixpoint load_zset_rows (limit : Z) (rows : list (list Z * Z)) (loaded : Z) (o : kv_object) : sql load_outcome :=
  match rows with
  | [] => mret (Loaded o)
  | (member, score) :: rows =>
      if (zlen member >? limit) || (loaded >? limit - zlen member) then mret LoadTooLarge else
      ok ← fetch_column_blob;
      if negb ok then mret LoadFailed else
      '(w, o) ← allocate (fun m => kv_object_zset_add m o score (Some member));
      if negb (w_status w =? 0) then mret LoadFailed else
      load_zset_rows limit rows (loaded + zlen member) o
  end.

Definition load_zset (key : list Z) (limit : Z) (engine : kv_zset_engine) : sql load_outcome :=
  created ← allocate (fun m => kv_object_create_zset m engine);
  match created with
  | None => mret LoadFailed
  | Some o =>
      rows ← run_query (fun d => member_order (child_rows (sha key) (kv_zset_members d)));
      match rows with
      | None => mret LoadFailed
      | Some rows => load_zset_rows limit rows 0 o
      end
  end.

(** The status, the object with its deadline when one was found, and
    [*mysql_error]; [now] is what [realtime_ms] returns. *)
Definition load_object (key : list Z) (limit : Z) (engine : kv_zset_engine) (now : Z)
  : sql (mysql_store_status * option (kv_object * Z) * Z) :=
  row ← run_query (fun d => kv_keys d !! sha key);
  match row with
  | None => number ← get_errno; mret (MYSQL_STORE_UNAVAILABLE, None, number)
  | Some None => mret (MYSQL_STORE_OK, None, 0)
  | Some (Some r) =>
      ok ← fetch_column_blob;
      if negb ok then mret (MYSQL_STORE_INTERNAL, None, 0) else
      if negb (bool_decide (kr_data r = key)) then mret (MYSQL_STORE_COLLISION, None, 0) else
      if match kr_expire r with Some deadline => deadline <=? now | None => false end
      then mret (MYSQL_STORE_OK, None, 0) else
      if negb ((kr_type r =? 0) || (kr_type r =? 1) || (kr_type r =? 2)) then mret (MYSQL_STORE_INTERNAL, None, 0) else
      result ← (if kr_type r =? 0 then load_string key limit else
                if kr_type r =? 1 then load_hash key limit else load_zset key limit engine);
      match result with
      | LoadTooLarge => mret (MYSQL_STORE_TOO_LARGE, None, 0)
      | LoadFailed =>
          number ← get_errno;
          mret (if number =? 0 then MYSQL_STORE_INTERNAL else MYSQL_STORE_UNAVAILABLE, None, number)
      | Loaded o => mret (MYSQL_STORE_OK, Some (o, default 0 (kr_expire r)), 0)
      end
  end.

(** ** Mutations *)

Definition verify_typed_key (key : list Z) (type : Z) : sql bool :=
  count ← run_query (sql_count_key sha key type);
  mret match count with Some count => count =? 1 | None => false end.

Definition verify_member_identity {X} (table : tables -> gmap (list Z * list Z) (list Z * X)) (key member : list Z)
  : sql bool :=
  count ← run_query (sql_count_member sha table key member);
  mret match count with Some count => count =? 1 | None => false end.

Definition delete_key (key : list Z) : sql bool := execute_bound (sql_delete_key sha key).

Definition insert_typed_key (key : list Z) (type : Z) : sql bool :=
  if type >? 2 then mret false else
  both (execute_bound (sql_upsert_key sha key type)) (verify_typed_key key type).

Definition apply_set (arguments : list (list Z)) : sql bool :=
  let deadline :=
    if zlen arguments =? 5 then
      if negb (argument_equals (arg arguments 3) (lit "PXAT")) then None
      else Some <$> parse_deadline (arg arguments 4)
    else if zlen arguments =? 3 then Some None else None in
  match deadline with
  | None => mret false
  | Some deadline =>
      both (delete_key (arg arguments 1))
        (both (execute_bound (sql_insert_string_key sha (arg arguments 1) deadline))
           (execute_bound (sql_insert_string sha (arg arguments 1) (arg arguments 2))))
  end.

Definition apply_hset (arguments : list (list Z)) : sql bool :=
  let key := arg arguments 1 in
  both (insert_typed_key key 1)
    (each (fun x => both (execute_bound (sql_upsert_field sha key x.1 x.2)) (verify_member_identity kv_hash_fields key x.1))
       (argument_pairs (drop 2 arguments))).

Definition apply_hdel (arguments : list (list Z)) : sql bool :=
  let key := arg arguments 1 in
  both (each (fun field => execute_bound (sql_delete_field sha key field)) (drop 2 arguments))
    (execute_bound (sql_delete_empty sha kv_hash_fields 1 key)).

Definition apply_zadd (arguments : list (list Z)) : sql bool :=
  let key := arg arguments 1 in
  both (insert_typed_key key 2)
    (each (fun x =>
       score ← parse_score x.1;
       match score with
       | None => mret false
       | Some score => both (execute_bound (sql_upsert_member sha key x.2 score)) (verify_member_identity kv_zset_members key x.2)
       end) (argument_pairs (drop 2 arguments))).

Definition apply_zrem (arguments : list (list Z)) : sql bool :=
  let key := arg arguments 1 in
  both (each (fun member => execute_bound (sql_delete_member sha key member)) (drop 2 arguments))
    (execute_bound (sql_delete_empty sha kv_zset_members 2 key)).

Definition apply_expire (arguments : list (list Z)) (persist : bool) : sql bool :=
  if persist then execute_bound (sql_expire sha (arg arguments 1) None) else
  match parse_deadline (arg arguments 2) with
  | None => mret false
  | Some deadline => execute_bound (sql_expire sha (arg arguments 1) (Some deadline))
  end.

Definition append_change_record (uuid : list Z) (sequence : Z) (arguments : list (list Z)) : sql bool :=
  both (execute_bound (sql_insert_change sha uuid sequence (arg arguments 1) (default 0 (head (arg arguments 0)))))
    (execute_bound (sql_advance_state uuid sequence)).

(** The choice of [apply_mutation] by the name of the command. *)
Definition apply_command (arguments : list (list Z)) : sql bool :=
  let named name := argument_equals (arg arguments 0) (lit name) in
  let count := zlen arguments in
  if named "SET" then apply_set arguments else
  if named "DEL" && (count =? 2) then delete_key (arg arguments 1) else
  if named "HSET" then apply_hset arguments else
  if named "HDEL" then apply_hdel arguments else
  if named "ZADD" then apply_zadd arguments else
  if named "ZREM" then apply_zrem arguments else
  if named "PEXPIREAT" && (count =? 3) then apply_expire arguments false else
  if named "PERSIST" && (count =? 2) then apply_expire arguments true else
  mret false.

(** The end of a transaction: the commit, or the rollback of what failed. *)
Definition end_transaction (result : bool) : sql bool :=
  result ← (if result then mysql_commit else mret false);
  (if negb result then mysql_rollback else mret tt) ;;
  mysql_autocommit true ;;
  mret result.

Definition apply_mutation (uuid : list Z) (sequence : Z) (arguments : list (list Z)) : sql bool :=
  if zlen arguments <? 2 then mret false else
  begun ← mysql_autocommit false;
  if negb begun then mret false else
  result ← both (apply_command arguments) (append_change_record uuid sequence arguments);
  end_transaction result.

(** 1, 0 or -1. *)
Definition mutation_is_applied (uuid : list Z) (sequence : Z) : sql Z :=
  applied ← run_query (fun d => kv_writer_state d !! uuid);
  mret match applied with
       | None => -1
       | Some None => 0
       | Some (Some applied) => if applied >=? sequence then 1 else 0
       end.

(** The loop of [writer_main] on one job: a connection, the question whether the
    job was applied, and the job.  A failed attempt closes the connection; the
    list has how the calls of each attempt end. *)
Definition write_attempt (uuid : list Z) (sequence : Z) (arguments : list (list Z)) : sql bool :=
  state ← mutation_is_applied uuid sequence;
  if state =? 1 then mret true else apply_mutation uuid sequence arguments.

Fixpoint write_attempts (uuid : list Z) (sequence : Z) (arguments : list (list Z)) (attempts : list (list call * mem))
    (d : tables) : bool * tables :=
  match attempts with
  | [] => (false, d)
  | (calls, m) :: attempts =>
      let '(applied, s) := write_attempt uuid sequence arguments (connected d calls m) in
      if applied then (true, ss_db s) else write_attempts uuid sequence arguments attempts (ss_db s)
  end.

(** The jobs of the queue in their order; the writer stops at one that it gives
    up. *)
Fixpoint write_jobs (uuid : list Z) (jobs : list (Z * list (list Z) * list (list call * mem))) (d : tables) : bool * tables :=
  match jobs with
  | [] => (true, d)
  | (sequence, arguments, attempts) :: jobs =>
      let '(applied, d) := write_attempts uuid sequence arguments attempts d in
      if applied then write_jobs uuid jobs d else (false, d)
  end.

(** ** Start-up *)

(** The result 0 with the sequence number. *)
Definition read_applied_sequence (uuid : list Z) : sql (option Z) :=
  applied ← run_query (fun d => kv_writer_state d !! uuid);
  mret (default 0 <$> applied).

(** [HEX(x)] *)
Definition sql_hex (x : list Z) : list Z :=
  x ≫= fun b => [byte_at (lit "0123456789ABCDEF") (Z.shiftr b 4); byte_at (lit "0123456789ABCDEF") (Z.land b 15)].

(** The value of a digit, 16 for another character. *)
Definition uuid_digit (c : Z) : Z :=
  if (48 <=? c) && (c <=? 57) then c - 48 else
  if (65 <=? c) && (c <=? 70) then c - 65 + 10 else
  if (97 <=? c) && (c <=? 102) then c - 97 + 10 else 16.

Fixpoint decode_uuid_loop (text : list Z) : option (list Z) :=
  match text with
  | a :: b :: text =>
      let high := uuid_digit a in
      let low := uuid_digit b in
      if (high >? 15) || (low >? 15) then None
      else cons (Z.lor (Z.shiftl high 4) low) <$> decode_uuid_loop text
  | _ => Some []
  end.

Definition decode_uuid_hex (text : list Z) : option (list Z) :=
  if negb (zlen text =? 32) then None else decode_uuid_loop text.

(** The state, the active writer and its sequence number. *)
Definition mysql_store_get_startup_state : sql (option (bootstrap_state * option (list Z) * Z)) :=
  row ← run_query (fun d => (kv_bootstrap_state d, sql_hex <$> kv_active_writer d));
  match row with
  | None => mret None
  | Some (state, None) | Some (state, Some []) => mret (Some (state, None, 0))
  | Some (state, Some text) =>
      match decode_uuid_hex text with
      | None => mret None
      | Some uuid =>
          sequence ← read_applied_sequence uuid;
          mret ((fun sequence => (state, Some uuid, sequence)) <$> sequence)
      end
  end.

(** [mysql_store_recover_mutation] without the statistics; the connection is the
    one that the start-up keeps. *)
Definition mysql_store_recover_mutation (uuid : list Z) (sequence : Z) (arguments : list (list Z)) : sql bool :=
  if (sequence =? 0) || (zlen arguments <? 2) then mret false else
  state ← mutation_is_applied uuid sequence;
  if state <? 0 then mret false else
  if state =? 0 then apply_mutation uuid sequence arguments else mret true.

(** [ORDER BY mutation_sequence] *)
Definition by_sequence (a b : change_row) : Prop := cr_sequence a <= cr_sequence b.

#[local] Instance by_sequence_dec a b : Decision (by_sequence a b) := Z_le_dec _ _.

(** The [sql] of [mysql_store_visit_changes_after]. *)
Definition sql_changes_after (uuid : list Z) (sequence : Z) (d : tables) : list (list Z) :=
  cr_key <$> merge_sort by_sequence
    (filter (fun r => cr_uuid r = uuid /\ sequence < cr_sequence r) (kv_change_log d)).

Fixpoint visit_rows {C} (visitor : C -> list Z -> Z * C) (rows : list (list Z)) (context : C) : sql (bool * C) :=
  match rows with
  | [] => mret (true, context)
  | key :: rows =>
      ok ← fetch_column_blob;
      if negb ok then mret (false, context) else
      let '(r, context) := visitor context key in
      if negb (r =? 0) then mret (false, context) else visit_rows visitor rows context
  end.

Definition mysql_store_visit_changes_after {C} (uuid : list Z) (sequence : Z) (visitor : C -> list Z -> Z * C) (context : C)
  : sql (bool * C) :=
  rows ← run_query (sql_changes_after uuid sequence);
  match rows with
  | None => mret (false, context)
  | Some rows => visit_rows visitor rows context
  end.

Definition mysql_store_bootstrap_begin (uuid : list Z) : sql bool :=
  state ← run_query kv_bootstrap_state;
  match state with
  | None | Some BOOTSTRAP_READY => mret false
  | Some state =>
      count ← run_query (fun d => Z.of_nat (size (kv_keys d)) + Z.of_nat (size (kv_writer_state d)) + zlen (kv_change_log d));
      match count with
      | None => mret false
      | Some count =>
          if bool_decide (state = BOOTSTRAP_EMPTY) && negb (count =? 0) then mret false else
          result ← both (mysql_autocommit false)
            (both (execute_bound sql_clear_changes)
               (both (execute_bound sql_clear_state)
                  (both (execute_bound sql_clear_keys) (execute_bound (sql_update_meta BOOTSTRAP_IN_PROGRESS uuid)))));
          end_transaction result
      end
  end.

(** The visitors of the members of a hash or a sorted set. *)
Definition bootstrap_hash_member (key : list Z) (x : list Z * list Z) : sql bool :=
  apply_hset [lit "HSET"; key; x.1; x.2].

Definition bootstrap_zset_member (key : list Z) (x : zelem) : sql bool :=
  let score_text := format_g17 x.1 in
  if zlen score_text >=? 64 then mret false else
  apply_zadd [lit "ZADD"; key; score_text; x.2].

(** A visitor, with the connection in its context. *)
Definition member_callback {X} (f : X -> sql bool) (s : session) (x : X) : Z * session :=
  let '(ok, s) := f x s in (if ok then 0 else -1, s).

Definition bootstrap_members (key : list Z) (o : kv_object) : sql bool := fun s =>
  match kv_object_get_type o with
  | KV_OBJECT_HASH =>
      let '(result, s) := kv_object_hash_visit o (member_callback (bootstrap_hash_member key)) s in (result =? 0, s)
  | _ =>
      let '(result, s, _) := kv_object_zset_range o 0 (-1) (member_callback (bootstrap_zset_member key)) s in (result =? 0, s)
  end.

Definition type_code (type : kv_object_type) : Z :=
  match type with KV_OBJECT_STRING => 0 | KV_OBJECT_HASH => 1 | KV_OBJECT_ZSET => 2 end.

Definition mysql_store_bootstrap_object (key : list Z) (o : kv_object) (expire_at_ms : Z) : sql bool :=
  begun ← mysql_autocommit false;
  if negb begun then mret false else
  result ← match kv_object_string_value o with
           | Some value =>
               apply_set ([lit "SET"; key; value] ++ if expire_at_ms =? 0 then [] else [lit "PXAT"; decimal expire_at_ms])
           | None =>
               both (insert_typed_key key (type_code (kv_object_get_type o)))
                 (both (bootstrap_members key o)
                    (if expire_at_ms =? 0 then mret true
                     else apply_expire [lit "PEXPIREAT"; key; decimal expire_at_ms] false))
           end;
  end_transaction result.

Definition mysql_store_bootstrap_finish (uuid : list Z) (applied_sequence : Z) : sql bool :=
  begun ← mysql_autocommit false;
  if negb begun then mret false else
  result ← both (execute_bound (sql_replace_state uuid applied_sequence))
             (execute_bound (sql_update_meta BOOTSTRAP_READY uuid));
  end_transaction result.
End Queries.
