(* ===== verification/MysqlTransactions.v ===== *)
(** Mutations as transactions: what the functions of [MysqlSql] do to the
    tables when nothing fails, that a mutation is applied as a whole or not at
    all whatever fails, and that the writer applies it once. *)

From S2P Require Import Prelude Resp HashTable ZOrder Object Cache CacheSpec CacheProps CacheEvents Aof AofCodec AofLog Double CommandText CommandProps MysqlStore.
From S2P Require Import Service ServiceStore ServiceSpec ServiceReplay MysqlTables MysqlSql.

(** ** Denotations *)

(** What a program does to the tables; [None]: it fails. *)
Abbreviation transform := (tables -> option tables).

Definition doing (f : statement) : transform := fun d => match f d with inr d' => Some d' | inl _ => None end.

Definition checking (q : tables -> Z) : transform := fun d => if q d =? 1 then Some d else None.

Definition andthen (f g : transform) : transform := fun d => f d ≫= g.

Fixpoint all_of {X} (f : X -> transform) (l : list X) : transform :=
  match l with
  | [] => Some
  | x :: l => andthen (f x) (all_of f l)
  end.

(** Nothing will fail. *)
Definition quiet (s : session) : Prop := ss_open s = true /\ ss_calls s = [] /\ ss_mem s = [].

(** Inside a transaction, [p] does [f] to the tables or fails, and fails only
    with [f] when nothing else does; the committed tables stay. *)
Definition denotes (p : sql bool) (f : transform) : Prop := forall s,
  ss_auto s = false ->
  let '(ok, s') := p s in
  ss_auto s' = false /\ ss_db s' = ss_db s /\
  (ok = true -> f (ss_work s) = Some (ss_work s')) /\
  (quiet s -> quiet s' /\ (ok = false -> f (ss_work s) = None)).

(** The cases of [perform]. *)
Lemma perform_cases {T} (failed : T) work s (P : T * session -> Prop) :
  (forall s', ss_db s' = ss_db s -> ss_auto s' = ss_auto s -> (ss_work s' = ss_work s \/ ss_work s' = ss_db s) -> ~ quiet s -> P (failed, s')) ->
  (forall s1, ss_db s1 = ss_db s -> ss_work s1 = ss_work s -> ss_auto s1 = ss_auto s -> ss_open s1 = true ->
     (quiet s -> quiet s1) -> P (work s1) /\ (~ quiet s -> forall n, P (failed, drop_connection n (work s1).2))) ->
  P (perform failed work s).
Proof.
  intros Hf Hw. unfold perform. destruct (ss_open s) eqn:Eo; cbn [negb ss_open]; rewrite ?Eo; cbn [negb].
  - destruct (ss_calls s) as [|c calls] eqn:Ec; cbn [head default from_option tail].
    + apply Hw; try done. intros (? & ? & ?). by split_and!.
    + assert (Hq : ~ quiet s) by (intros (_ & E & _); by rewrite Ec in E).
      destruct c as [|n|n|n]; cbn [default from_option].
      * apply Hw; by try done.
      * apply Hf; by try (by left).
      * apply Hf; try done. by right.
      * edestruct Hw as [_ H]; [..|apply (H Hq)]; by try done.
  - apply Hf; try done; [by left|]. intros (? & _). congruence.
Qed.

Lemma denotes_execute f : denotes (execute_bound f) (doing f).
Proof.
  intros s Ha. unfold execute_bound. apply perform_cases.
  - intros s' Hd Ha' _ Hq. split_and!; [congruence|done|done|done].
  - intros s1 Hd Hw Ha1 Ho Hq1. unfold doing. rewrite Hw. destruct (f (ss_work s)) as [n|d] eqn:E.
    + cbn. split; [split_and!; [congruence|done|done|]|intros Hq n'; by split_and!; [congruence|done|done|]].
      intros Hq. by split; [apply Hq1|].
    + unfold put_work. cbn. rewrite Ha1, Ha. split; [split_and!; [done|done|done|]|intros Hq n'; by split_and!].
      intros Hq. by split; [apply Hq1|].
Qed.

Lemma denotes_check (q : tables -> Z) :
  denotes (count ← run_query q; mret match count with Some count => count =? 1 | None => false end) (checking q).
Proof.
  intros s Ha. unfold mbind, sql_bind, run_query. apply perform_cases.
  - intros s' Hd Ha' _ Hq. split_and!; [congruence|done|done|done].
  - intros s1 Hd Hw Ha1 Ho Hq1. unfold checking. cbn. rewrite Hw. split.
    + split_and!; [congruence|done|by intros ->|]. intros Hq. split; [by apply Hq1|by intros ->].
    + intros Hq n. split_and!; [congruence|done|done|done].
Qed.

Lemma denotes_false : denotes (mret false) (fun _ => None).
Proof. by intros s Ha. Qed.

Lemma denotes_true : denotes (mret true) Some.
Proof. by intros s Ha. Qed.

Lemma denotes_both p1 p2 f1 f2 : denotes p1 f1 -> denotes p2 f2 -> denotes (both p1 p2) (andthen f1 f2).
Proof.
  intros H1 H2 s Ha. unfold both, mbind, sql_bind, andthen. specialize (H1 s Ha). destruct (p1 s) as [[] s1].
  - destruct H1 as (Ha1 & Hd1 & Hf & Hq). rewrite (Hf eq_refl). cbn. specialize (H2 s1 Ha1). destruct (p2 s1) as [ok s2].
    destruct H2 as (Ha2 & Hd2 & Hf2 & Hq2). split_and!; [done|congruence|done|]. intros Hs. by apply Hq2, Hq.
  - destruct H1 as (Ha1 & Hd1 & Hf & Hq). split_and!; [done|done|done|]. intros Hs. destruct (Hq Hs) as [? ->]; by try done.
Qed.

Lemma denotes_each {X} (p : X -> sql bool) f l : (forall x, x ∈ l -> denotes (p x) (f x)) -> denotes (each p l) (all_of f l).
Proof.
  induction l as [|x l IH]; intros H; [apply denotes_true|]. cbn [each all_of]. apply denotes_both; [apply H; set_solver|].
  apply IH. intros y Hy. apply H. set_solver.
Qed.

Lemma denotes_ext p f g : (forall d, f d = g d) -> denotes p f -> denotes p g.
Proof. intros E H s Ha. specialize (H s Ha). destruct (p s) as [ok s']. by rewrite <- E. Qed.

(** ** The end of a transaction *)

(** The connection has no transaction in progress. *)
Definition settled (s : session) : Prop := ss_work s = ss_db s.

Lemma autocommit_settled on s : settled s ->
  let '(_, s') := mysql_autocommit on s in ss_db s' = ss_db s /\ settled s' /\ (quiet s -> quiet s').
Proof.
  intros Hs. unfold mysql_autocommit. apply perform_cases.
  - intros s' Hd Ha' Hw Hq. unfold settled in *. split_and!; [done|destruct Hw; congruence|done].
  - intros s1 Hd Hw Ha1 Ho Hq1. unfold settled in *. destruct on; cbn; (split; [split_and!; [congruence|congruence|done]|intros Hq n; split_and!; [congruence|congruence|done]]).
Qed.

Lemma rollback_settled s : let '(_, s') := mysql_rollback s in ss_db s' = ss_db s /\ settled s' /\ (quiet s -> quiet s').
Proof.
  unfold mysql_rollback. destruct (ss_calls s) as [|[] calls] eqn:E; cbn; (split_and!; [done|done|]);
    intros (Ho & Ec & Hm); try congruence. by split_and!.
Qed.

(** A transaction is applied as a whole or not at all; the result [false] does
    not tell which when the connection was lost in the commit. *)
Definition atomic (p : sql bool) (f : transform) : Prop := forall s,
  settled s ->
  let '(ok, s') := p s in
  settled s' /\
  (ok = true -> f (ss_db s) = Some (ss_db s')) /\
  (ok = false -> ss_db s' = ss_db s \/ f (ss_db s) = Some (ss_db s')) /\
  (quiet s -> quiet s' /\ (ok = false -> f (ss_db s) = None /\ ss_db s' = ss_db s)).

Lemma end_transaction_spec s d (f : transform) ok (Q : Prop) :
  ss_db s = d -> (ok = true -> f d = Some (ss_work s)) -> (Q -> quiet s /\ (ok = false -> f d = None)) ->
  let '(r, s') := end_transaction ok s in
  settled s' /\ (r = true -> f d = Some (ss_db s')) /\ (r = false -> ss_db s' = d \/ f d = Some (ss_db s')) /\
  (Q -> quiet s' /\ (r = false -> f d = None /\ ss_db s' = d)).
Proof.
  intros Hd Hok Hq. unfold end_transaction, mbind, sql_bind.
  assert (Hfail : forall s1, (ss_db s1 = d \/ f d = Some (ss_db s1)) -> (Q -> quiet s1 /\ f d = None /\ ss_db s1 = d) ->
    let '(r, s') := (let '(_, s2) := mysql_rollback s1 in let '(_, s3) := mysql_autocommit true s2 in (false, s3)) in
    settled s' /\ (r = true -> f d = Some (ss_db s')) /\ (r = false -> ss_db s' = d \/ f d = Some (ss_db s')) /\
    (Q -> quiet s' /\ (r = false -> f d = None /\ ss_db s' = d))).
  { intros s1 H1 Hq1. pose proof (rollback_settled s1) as H2. destruct (mysql_rollback s1) as [[] s2]. destruct H2 as (Hd2 & Hs2 & Hq2).
    pose proof (autocommit_settled true s2 Hs2) as H3. destruct (mysql_autocommit true s2) as [? s3]. destruct H3 as (Hd3 & Hs3 & Hq3).
    rewrite Hd3, Hd2. split_and!; [done|done|done|]. intros HQ. destruct (Hq1 HQ) as (Hs1 & ? & ?). by split; [apply Hq3, Hq2|]. }
  destruct ok.
  - unfold mysql_commit. apply perform_cases.
    + intros s' Hd' Ha' Hw Hnq. cbn [negb]. apply (Hfail s'); [left; congruence|]. intros HQ. by destruct (Hq HQ).
    + intros s1 Hd1 Hw1 Ha1 Ho Hq1. cbn. split.
      * set (s2 := put_both _ _ _). pose proof (autocommit_settled true s2 eq_refl) as H3. destruct (mysql_autocommit true s2) as [? s3].
        destruct H3 as (Hd3 & Hs3 & Hq3). cbn in Hd3. cbn. rewrite Hd3, Hw1. split_and!; [done|auto|done|]. intros HQ. split; [|done].
        apply Hq3, Hq1, Hq, HQ.
      * intros Hnq n. apply (Hfail (drop_connection n (put_both (ss_work s1) (ss_auto s1) s1))); [right; cbn; rewrite Hw1; auto|].
        intros HQ. by destruct (Hq HQ).
  - cbn [negb]. apply (Hfail s); [by left|]. intros HQ. destruct (Hq HQ); auto.
Qed.

(** [autocommit 0], the work, and the end. *)
Lemma transaction_atomic (p : sql bool) f :
  denotes p f ->
  atomic (begun ← mysql_autocommit false; if negb begun then mret false else result ← p; end_transaction result) f.
Proof.
  intros H s Hs. unfold mbind, sql_bind. unfold mysql_autocommit. apply perform_cases.
  - intros s' Hd Ha' Hw Hnq. cbn. unfold settled in *. split_and!; [destruct Hw as [-> | ->]; congruence|done|by left|done].
  - intros s1 Hd Hw Ha1 Ho Hq1. cbn [negb]. split.
    + set (s2 := mk_session _ _ _ _ _ _ _). specialize (H s2 eq_refl). destruct (p s2) as [ok s3]. destruct H as (_ & Hd3 & Hf3 & Hq3).
      assert (Ew : ss_work s2 = ss_db s) by (unfold settled in Hs; cbn; congruence). rewrite Ew in *.
      apply (end_transaction_spec s3 (ss_db s) f ok (quiet s)); [cbn in Hd3; congruence|done|].
      intros Hq. apply Hq3. by apply Hq1.
    + intros Hnq n. cbn. split_and!; [done|done|by left|done].
Qed.

(** ** Numbers in records *)

Lemma read_digits_all l v : Forall is_digit l -> read_digits l v = (dec_acc v l, []).
Proof.
  revert v. induction l as [|c l IH]; intros v Hl; [done|]. apply Forall_cons in Hl as [Hc Hl]. cbn [read_digits]. unfold is_digit in Hc.
  destruct (Z.leb_spec 48 c), (Z.leb_spec c 57); try lia. cbn [andb]. by rewrite IH.
Qed.

(** On the deadline of a record, [strtoull] and the parser of the service
    agree. *)
Lemma parse_deadline_record text x : zlen text < 32 -> record_deadline text = Some x -> parse_deadline text = Some x.
Proof.
  intros Hl. unfold record_deadline, parse_uint64_bytes. destruct text as [|c text]; [done|].
  destruct (magnitude_loop _ _ _) as [v|] eqn:E; [|done]. apply magnitude_loop_spec in E as (Hd & Ev & [?|Hv]); [done| |done|lia].
  destruct (Z.eqb_spec v 0) as [|Hz]; [done|]. intros [= <-]. unfold parse_deadline.
  destruct (Z.eqb_spec (zlen (c :: text)) 0) as [H0|_]; [rewrite zlen_cons in H0; pose proof (zlen_nonneg text); lia|].
  destruct (Z.geb_spec (zlen (c :: text)) 32) as [|_]; [lia|]. cbn [orb]. unfold strtoull.
  assert (Hc : is_digit c) by (by apply Forall_cons in Hd as [? _]).
  assert (Hs : skip_space (c :: text) = c :: text).
  { cbn [skip_space]. destruct (isspace c) eqn:Es; [|done]. exfalso. revert Es. unfold isspace, is_digit in *. intros Es. zb. lia. }
  rewrite Hs. assert (Hm : match c :: text with 45 :: l => (true, l) | 43 :: l => (false, l) | l => (false, l) end = (false, c :: text)).
  { unfold is_digit in Hc. destruct c as [|p|p]; try lia. do 6 (destruct p as [p|p|]; try done; try lia). }
  rewrite Hm, read_digits_all by done. rewrite <- Ev, zlen_nil. pose proof (zlen_nonneg text). rewrite zlen_cons.
  destruct (Z.eqb_spec 0 (1 + zlen text)); [lia|]. destruct (Z.gtb_spec v UINT64_MAX); [lia|]. cbn. by destruct (Z.eqb_spec v 0).
Qed.

Lemma parse_scores_cons m x pairs status scores m' :
  parse_scores m (x :: pairs) = (status, scores, m') -> status = 0 ->
  exists s m1 scores', parse_double_argument m x.1 = (0, s, m1) /\ parse_scores m1 pairs = (0, scores', m') /\ scores = s :: scores'.
Proof.
  destruct x as [text member]. cbn [parse_scores fst]. destruct (parse_double_argument m text) as [[r s] m1].
  destruct (Z.eqb_spec r 0) as [->|]; cbn [negb]; [|by intros [= <- <- <-] ?]. destruct (parse_scores m1 pairs) as [[r2 l] m2] eqn:E2.
  intros [= <- <- <-] ->. eexists _, _, _. split_and!; [done|exact E2|done].
Qed.

Section Effects.
Context (sha : list Z -> list Z).

(** ** Mutations *)

Definition deadline_column (deadline : Z) : option Z := if deadline =? 0 then None else Some deadline.

Definition typed_key (key : list Z) (type : Z) : transform :=
  andthen (doing (sql_upsert_key sha key type)) (checking (sql_count_key sha key type)).

Definition put_field (key : list Z) (x : list Z * list Z) : transform :=
  andthen (doing (sql_upsert_field sha key x.1 x.2)) (checking (sql_count_member sha kv_hash_fields key x.1)).

Definition put_member (key : list Z) (x : zelem) : transform :=
  andthen (doing (sql_upsert_member sha key x.2 x.1)) (checking (sql_count_member sha kv_zset_members key x.2)).

(** What a mutation does to the tables. *)
Definition db_effect (e : effect) : transform :=
  match e with
  | ESet key value deadline =>
      andthen (doing (sql_delete_key sha key))
        (andthen (doing (sql_insert_string_key sha key (deadline_column deadline))) (doing (sql_insert_string sha key value)))
  | EDel key => doing (sql_delete_key sha key)
  | EPersist key => doing (sql_expire sha key None)
  | EExpire key deadline => doing (sql_expire sha key (Some deadline))
  | EHset key pairs => andthen (typed_key key 1) (all_of (put_field key) pairs)
  | EHdel key fields =>
      andthen (all_of (fun f => doing (sql_delete_field sha key f)) fields) (doing (sql_delete_empty sha kv_hash_fields 1 key))
  | EZadd key members => andthen (typed_key key 2) (all_of (put_member key) members)
  | EZrem key names =>
      andthen (all_of (fun k => doing (sql_delete_member sha key k)) names) (doing (sql_delete_empty sha kv_zset_members 2 key))
  | ENone => fun _ => None
  end.

Lemma denotes_typed_key key type : type <= 2 -> denotes (insert_typed_key sha key type) (typed_key key type).
Proof.
  intros Ht. unfold insert_typed_key. destruct (Z.gtb_spec type 2); [lia|]. apply denotes_both; [apply denotes_execute|apply denotes_check].
Qed.

(** A score that the service accepted. *)
Lemma denotes_score text score (p : Z -> sql bool) f :
  (exists m m', parse_double_argument m text = (0, score, m')) -> denotes (p score) f ->
  denotes (x ← parse_score text; match x with None => mret false | Some x => p x end) f.
Proof.
  intros (m & m' & E) Hp s Ha.
  unfold parse_double_argument in E. destruct (_ || _) eqn:Ez; [done|]. destruct (if zlen text + 1 >? 128 then malloc m else (true, m)) as [ok m1].
  destruct ok; cbn [negb] in E; [|done]. destruct (strtod (until_nul text)) as [[[value erange] rest]|] eqn:Es; [|done].
  destruct (negb _) eqn:En; [done|]. destruct erange; cbn [orb] in E; [done|]. destruct (isnan value); [done|]. injection E as -> _.
  unfold mbind, sql_bind, parse_score, mbind, sql_bind. 
  assert (Hgo : forall s1, ss_auto s1 = ss_auto s -> ss_db s1 = ss_db s -> ss_work s1 = ss_work s -> (quiet s -> quiet s1) ->
    let '(ok, s') := p score s1 in ss_auto s' = false /\ ss_db s' = ss_db s /\ (ok = true -> f (ss_work s) = Some (ss_work s')) /\
     (quiet s -> quiet s' /\ (ok = false -> f (ss_work s) = None))).
  { intros s1 E1 E2 E3 Hq. specialize (Hp s1 ltac:(congruence)). destruct (p score s1) as [r s2]. rewrite E3, E2 in Hp.
    destruct Hp as (? & ? & ? & Hq'). split_and!; try done. auto. }
  destruct (zlen text >=? 128).
  - unfold allocate. destruct (malloc (ss_mem s)) as [ok m2] eqn:Em. cbn. destruct ok; cbn [negb].
    + cbn. rewrite Es, En. apply Hgo; try done. intros (Ho & Hc & Hm). rewrite Hm in Em. cbn in Em. injection Em as <-. by split_and!.
    + cbn. split_and!; try done. intros (Ho & Hc & Hm). by rewrite Hm in Em.
  - cbn. rewrite Es, En. by apply Hgo.
Qed.

(** The deadline of a record fits the buffers of the backend; the log writes at
    most 20 digits. *)
Definition short_deadline (args : AofLog.command) : Prop :=
  (argument_equals (arg args 0) (lit "SET") = true -> zlen (arg args 4) < 32) /\
  (argument_equals (arg args 0) (lit "PEXPIREAT") = true -> zlen (arg args 2) < 32).

Lemma other_name text n1 n2 : argument_equals text n1 = true -> n1 <> n2 -> argument_equals text n2 = false.
Proof. intros H1 Hn. apply not_true_is_false. intros H2. apply argument_equals_spec in H1, H2. congruence. Qed.

Lemma denotes_members key pairs scores m m' :
  parse_scores m pairs = (0, scores, m') ->
  denotes (each (fun x : list Z * list Z =>
       score ← parse_score x.1;
       match score with
       | None => mret false
       | Some score => both (execute_bound (sql_upsert_member sha key x.2 score)) (verify_member_identity sha kv_zset_members key x.2)
       end) pairs) (all_of (put_member key) (zip scores pairs.*2)).
Proof.
  revert scores m. induction pairs as [|x pairs IH]; intros scores m E; [injection E as <- _; apply denotes_true|].
  apply parse_scores_cons in E as (s & m1 & scores' & Ed & Ep & ->); [|done]. cbn [each fmap list_fmap zip_with all_of].
  apply denotes_both; [|by apply (IH scores' m1)].
  apply (denotes_score x.1 s (fun y => both (execute_bound (sql_upsert_member sha key x.2 y)) (verify_member_identity sha kv_zset_members key x.2))); [by eauto|].
  apply (denotes_both _ _ (doing (sql_upsert_member sha key x.2 s)) (checking (sql_count_member sha kv_zset_members key x.2))); [apply denotes_execute|apply denotes_check].
Qed.

(** The record of a mutation is carried out as the effect that it means. *)
Lemma apply_command_denotes args e :
  record_effect args = Some e -> e <> ENone -> short_deadline args -> denotes (apply_command sha args) (db_effect e).
Proof.
  intros He Hne [Hs1 Hs2]. unfold record_effect in He. unfold apply_command. cbv beta zeta in *.
  set (name := arg args 0) in *. set (key := arg args 1) in *.
  destruct (argument_equals name (lit "PING") && _); [by injection He as <-|].
  destruct (argument_equals name (lit "SET")) eqn:E1.
  { unfold apply_set. assert (Hset : forall deadline, denotes (both (delete_key sha key)
      (both (execute_bound (sql_insert_string_key sha key (deadline_column deadline))) (execute_bound (sql_insert_string sha key (arg args 2)))))
      (db_effect (ESet key (arg args 2) deadline))).
    { intros x. repeat apply denotes_both; apply denotes_execute. }
    destruct (Z.eqb_spec (zlen args) 3) as [H3|H3].
    - injection He as <-. rewrite H3. exact (Hset 0).
    - destruct (Z.eqb_spec (zlen args) 5) as [H5|H5]; cbn [andb] in He; [|done]. destruct (argument_equals (arg args 3) _); [|done]. cbn [negb].
      destruct (record_deadline (arg args 4)) as [x|] eqn:Ex; [|done]. injection He as <-.
      rewrite (parse_deadline_record _ x) by auto. cbn [fmap option_fmap option_map]. specialize (Hset x).
      unfold deadline_column in Hset at 1. destruct (Z.eqb_spec x 0) as [->|]; [|done]. exfalso.
      unfold record_deadline in Ex. destruct (parse_uint64_bytes _); [|done]. destruct (Z.eqb_spec z 0); [done|congruence]. }
  destruct (argument_equals name (lit "DEL") && (zlen args =? 2)) eqn:E2; [injection He as <-; apply denotes_execute|].
  destruct (argument_equals name (lit "PERSIST") && (zlen args =? 2)) eqn:E3.
  { injection He as <-. apply andb_true_iff in E3 as [E3 _]. rewrite !(other_name name (lit "PERSIST")) by done. cbn [andb].
    apply denotes_execute. }
  destruct (argument_equals name (lit "PEXPIREAT") && (zlen args =? 3)) eqn:E4.
  { destruct (record_deadline (arg args 2)) as [x|] eqn:Ex; [|done]. injection He as <-. apply andb_true_iff in E4 as [E4 _].
    rewrite !(other_name name (lit "PEXPIREAT")) by done. cbn [andb]. unfold apply_expire.
    rewrite (parse_deadline_record _ x) by auto. apply denotes_execute. }
  destruct (argument_equals name (lit "HSET")) eqn:E5.
  { cbn [andb] in He. destruct (command_arity_valid _ _); [|rewrite !(other_name name (lit "HSET")) in He by done; done]. injection He as <-.
    apply denotes_both; [by apply denotes_typed_key|]. apply denotes_each. intros x _. apply denotes_both; [apply denotes_execute|apply denotes_check]. }
  destruct (argument_equals name (lit "HDEL")) eqn:E6.
  { cbn [andb] in He. destruct (command_arity_valid _ _); [|rewrite !(other_name name (lit "HDEL")) in He by done; done]. injection He as <-.
    apply denotes_both; [|apply denotes_execute]. apply denotes_each. intros x _. apply denotes_execute. }
  destruct (argument_equals name (lit "ZADD")) eqn:E7.
  { cbn [andb] in He. destruct (command_arity_valid _ _); [|rewrite !(other_name name (lit "ZADD")) in He by done; done].
    unfold record_members, zadd_scores in He. destruct (parse_scores [] _) as [[r scores] m'] eqn:Ep.
    destruct (Z.eqb_spec r 0) as [->|]; [|done]. injection He as <-.
    apply denotes_both; [by apply denotes_typed_key|]. by eapply denotes_members. }
  destruct (argument_equals name (lit "ZREM")) eqn:E8; [|done].
  cbn [andb] in He. destruct (command_arity_valid _ _); [|done]. injection He as <-.
  apply denotes_both; [|apply denotes_execute]. apply denotes_each. intros x _. apply denotes_execute.
Qed.

(** The whole transaction. *)
Definition db_mutation (uuid : list Z) (sequence : Z) (args : AofLog.command) (e : effect) : transform :=
  andthen (db_effect e)
    (andthen (doing (sql_insert_change sha uuid sequence (arg args 1) (default 0 (head (arg args 0))))) (doing (sql_advance_state uuid sequence))).

Lemma effect_arguments args e : record_effect args = Some e -> e <> ENone -> 2 <= zlen args.
Proof.
  unfold record_effect. intros He Hne. destruct (Z.le_gt_cases 2 (zlen args)) as [|Hl]; [done|]. exfalso.
  destruct (_ && _) in He; [by injection He as <-|].
  assert (Hn : forall k, 2 <= k -> (zlen args =? k) = false) by (intros k Hk; destruct (Z.eqb_spec (zlen args) k); [lia|done]).
  rewrite !Hn, !andb_false_r in He by lia. cbn [andb] in He. unfold command_arity_valid in He.
  destruct (Z.geb_spec (zlen args) 4), (Z.geb_spec (zlen args) 3); try lia. cbn [andb] in He. rewrite !andb_false_r in He. by destruct (argument_equals _ _).
Qed.

Lemma apply_mutation_atomic uuid sequence args e :
  record_effect args = Some e -> e <> ENone -> short_deadline args ->
  atomic (apply_mutation sha uuid sequence args) (db_mutation uuid sequence args e).
Proof.
  intros He Hne Hs. unfold apply_mutation. pose proof (effect_arguments args e He Hne). destruct (Z.ltb_spec (zlen args) 2); [lia|].
  apply transaction_atomic. apply denotes_both; [by apply apply_command_denotes|]. apply denotes_both; apply denotes_execute.
Qed.

(** ** The writer *)

(** The change log and the state of the writers are written at the end only. *)
Definition keeps_log (f : transform) : Prop := forall d d',
  f d = Some d' -> kv_change_log d' = kv_change_log d /\ kv_writer_state d' = kv_writer_state d.

Lemma keeps_doing (f : statement) :
  (forall d d', f d = inr d' -> kv_change_log d' = kv_change_log d /\ kv_writer_state d' = kv_writer_state d) -> keeps_log (doing f).
Proof. intros H d d' E. unfold doing in E. destruct (f d) eqn:Ef; [done|]. injection E as <-. by apply H. Qed.

Lemma keeps_checking q : keeps_log (checking q).
Proof. intros d d' E. unfold checking in E. destruct (_ =? 1); [|done]. by injection E as <-. Qed.

Lemma keeps_andthen f g : keeps_log f -> keeps_log g -> keeps_log (andthen f g).
Proof.
  intros Hf Hg d d' E. unfold andthen in E. destruct (f d) as [d1|] eqn:E1; [|done]. apply Hf in E1 as [<- <-]. by apply Hg.
Qed.

Lemma keeps_all {X} (f : X -> transform) l : (forall x, keeps_log (f x)) -> keeps_log (all_of f l).
Proof. intros H. induction l as [|x l IH]; [by intros d d' [= <-]|]. by apply keeps_andthen. Qed.

Lemma effect_keeps_log e : keeps_log (db_effect e).
Proof.
  assert (Hs : forall f : statement, (forall d d', f d = inr d' -> kv_change_log d' = kv_change_log d /\ kv_writer_state d' = kv_writer_state d) -> keeps_log (doing f))
    by (intros; by apply keeps_doing).
  assert (Hdel : forall key, keeps_log (doing (sql_delete_key sha key))).
  { intros key. apply Hs. unfold sql_delete_key. intros d d' [= <-]. by destruct (is_Some_bool _). }
  assert (Hexp : forall key x, keeps_log (doing (sql_expire sha key x))).
  { intros key x. apply Hs. unfold sql_expire. intros d d' [= <-]. by destruct (row_of sha key d). }
  assert (Hty : forall key type, keeps_log (typed_key key type)).
  { intros key type. apply keeps_andthen; [|apply keeps_checking]. apply Hs. unfold sql_upsert_key. intros d d' [= <-].
    destruct (kv_keys d !! sha key); [by destruct (_ && _)|done]. }
  assert (Hem : forall X (table : tables -> gmap (list Z * list Z) (list Z * X)) type key, keeps_log (doing (sql_delete_empty sha table type key))).
  { intros X table type key. apply Hs. unfold sql_delete_empty. intros d d' [= <-]. destruct (row_of sha key d); [by destruct (_ && _)|done]. }
  destruct e; cbn [db_effect]; try done.
  - apply keeps_andthen; [done|]. apply keeps_andthen; apply Hs.
    + unfold sql_insert_string_key. intros d d'. destruct (kv_keys d !! sha key); [done|]. by intros [= <-].
    + unfold sql_insert_string. intros d d'. destruct (kv_strings d !! sha key); [done|]. destruct (kv_keys d !! sha key); [|done]. by intros [= <-].
  - apply keeps_andthen; [done|]. apply keeps_all. intros x. apply keeps_andthen; [|apply keeps_checking]. apply Hs.
    unfold sql_upsert_field. intros d d' [= <-]. by destruct (_ =? 1).
  - apply keeps_andthen; [|done]. apply keeps_all. intros x. apply Hs. unfold sql_delete_field. by intros d d' [= <-].
  - apply keeps_andthen; [done|]. apply keeps_all. intros x. apply keeps_andthen; [|apply keeps_checking]. apply Hs.
    unfold sql_upsert_member. intros d d'. destruct (_ =? 1); [destruct (isinf _); [done|]|]; by intros [= <-].
  - apply keeps_andthen; [|done]. apply keeps_all. intros x. apply Hs. unfold sql_delete_member. by intros d d' [= <-].
Qed.

Definition applied_through (d : tables) (uuid : list Z) : Z := default 0 (kv_writer_state d !! uuid).

Definition logged_change (d : tables) (uuid : list Z) (sequence : Z) : Prop :=
  Exists (fun r => cr_uuid r = uuid /\ cr_sequence r = sequence) (kv_change_log d).

(** What a mutation leaves in the log and the state. *)
Lemma mutation_logged uuid sequence args e d d' :
  db_mutation uuid sequence args e d = Some d' ->
  ~ logged_change d uuid sequence /\
  kv_change_log d' = kv_change_log d ++ [mk_change_row uuid sequence (sha (arg args 1)) (arg args 1) (default 0 (head (arg args 0)))] /\
  kv_writer_state d' = <[uuid := Z.max (applied_through d uuid) sequence]> (kv_writer_state d).
Proof.
  unfold db_mutation, andthen. destruct (db_effect e d) as [d1|] eqn:E; [|done]. apply effect_keeps_log in E as [El Es].
  cbn. unfold doing, sql_insert_change, logged_change. rewrite El. destruct (bool_decide _) eqn:Ed; [done|].
  apply bool_decide_eq_false in Ed. cbn. intros [= <-]. cbn. unfold applied_through. by rewrite Es.
Qed.

Lemma mutation_once uuid sequence args e d : logged_change d uuid sequence -> db_mutation uuid sequence args e d = None.
Proof. intros H. destruct (db_mutation uuid sequence args e d) eqn:E; [|done]. by apply mutation_logged in E as [? _]. Qed.

Lemma is_applied_spec uuid sequence s :
  settled s ->
  let '(state, s') := mutation_is_applied uuid sequence s in
  settled s' /\ ss_db s' = ss_db s /\ (quiet s -> quiet s') /\
  (state = -1 /\ ~ quiet s \/
   state = match kv_writer_state (ss_db s) !! uuid with Some applied => if applied >=? sequence then 1 else 0 | None => 0 end).
Proof.
  intros Hs. unfold mutation_is_applied, mbind, sql_bind, run_query. apply perform_cases.
  - intros s' Hd Ha' Hw Hq. cbn. unfold settled in *. split_and!; [destruct Hw as [-> | ->]; congruence|done|done|by left].
  - intros s1 Hd Hw Ha1 Ho Hq1. cbn. unfold settled in *. split.
    + split_and!; [cbn; congruence|done|done|]. right. rewrite Hw, Hs. by destruct (kv_writer_state (ss_db s) !! uuid).
    + intros Hq n. cbn. split_and!; [done|done|done|by left].
Qed.

Lemma write_attempt_spec uuid sequence args e s :
  record_effect args = Some e -> e <> ENone -> short_deadline args -> settled s -> 0 < sequence ->
  let '(ok, s') := write_attempt sha uuid sequence args s in
  (applied_through (ss_db s) uuid >= sequence -> logged_change (ss_db s) uuid sequence -> ss_db s' = ss_db s) /\
  (applied_through (ss_db s) uuid < sequence ->
    (ok = true -> db_mutation uuid sequence args e (ss_db s) = Some (ss_db s')) /\
    (ok = false -> ss_db s' = ss_db s \/ db_mutation uuid sequence args e (ss_db s) = Some (ss_db s'))) /\
  (quiet s -> is_Some (db_mutation uuid sequence args e (ss_db s)) \/ applied_through (ss_db s) uuid >= sequence -> ok = true).
Proof.
  intros He Hne Hsd Hs Hpos. unfold write_attempt, mbind, sql_bind. pose proof (is_applied_spec uuid sequence s Hs) as Hi.
  destruct (mutation_is_applied uuid sequence s) as [state s1]. destruct Hi as (Hs1 & Hd1 & Hq1 & Hstate).
  pose proof (apply_mutation_atomic uuid sequence args e He Hne Hsd s1 Hs1) as Ha. rewrite Hd1 in Ha.
  assert (Hst : state = 1 -> applied_through (ss_db s) uuid >= sequence).
  { intros ->. destruct Hstate as [[? _]|E]; [done|]. unfold applied_through. destruct (kv_writer_state (ss_db s) !! uuid) as [x|]; [|done].
    destruct (Z.geb_spec x sequence); [cbn; lia|done]. }
  destruct (Z.eqb_spec state 1) as [->|Hn1].
  - specialize (Hst eq_refl). cbn. split_and!; [done|lia|done].
  - destruct (apply_mutation sha uuid sequence args s1) as [ok s2]. destruct Ha as (_ & Ht & Hf & Hq). split_and!.
    + intros _ Hl. destruct ok; [|destruct (Hf eq_refl) as [?|E]; [done|]]; [specialize (Ht eq_refl) as E|]; by rewrite mutation_once in E.
    + done.
    + intros Hquiet Hcan. destruct ok; [done|]. exfalso. destruct (Hq (Hq1 Hquiet)) as [_ Hno]. destruct (Hno eq_refl) as [Hno' _].
      rewrite Hno' in Hcan. destruct Hcan as [[? ?]|Hge]; [done|]. destruct Hstate as [[_ ?]|E]; [done|].
      unfold applied_through in Hge. destruct (kv_writer_state (ss_db s) !! uuid) as [x|]; cbn in Hge; [|lia].
      destruct (Z.geb_spec x sequence); [done|lia].
Qed.

Lemma mutation_applied uuid sequence args e d d' :
  db_mutation uuid sequence args e d = Some d' -> applied_through d' uuid >= sequence /\ logged_change d' uuid sequence.
Proof.
  intros E. apply mutation_logged in E as (_ & El & Es). unfold applied_through at 1, logged_change. rewrite Es, El, lookup_insert_eq. cbn. split; [lia|].
  apply Exists_app. right. by constructor.
Qed.

Lemma writer_once uuid sequence args e d attempts :
  record_effect args = Some e -> e <> ENone -> short_deadline args -> 0 < sequence -> applied_through d uuid < sequence ->
  let '(applied, d') := write_attempts sha uuid sequence args attempts d in
  (if applied then db_mutation uuid sequence args e d = Some d' else d' = d \/ db_mutation uuid sequence args e d = Some d') /\
  (is_Some (db_mutation uuid sequence args e d) -> ([], []) ∈ attempts -> applied = true).
Proof.
  intros He Hne Hs Hpos Hlt.
  assert (Hgo : forall d1, d1 = d \/ db_mutation uuid sequence args e d = Some d1 ->
    let '(applied, d') := write_attempts sha uuid sequence args attempts d1 in
    (if applied then db_mutation uuid sequence args e d = Some d' else d' = d \/ db_mutation uuid sequence args e d = Some d') /\
    (is_Some (db_mutation uuid sequence args e d) -> ([], []) ∈ attempts -> applied = true)); [|by apply Hgo; left].
  induction attempts as [|[calls m] attempts IH]; intros d1 Hd1; cbn [write_attempts].
  { split; [done|]. intros _ Hin. by apply elem_of_nil in Hin. }
  pose proof (write_attempt_spec uuid sequence args e (connected d1 calls m) He Hne Hs eq_refl Hpos) as Ha.
  destruct (write_attempt sha uuid sequence args (connected d1 calls m)) as [ok s]. cbn [ss_db connected] in Ha.
  destruct Ha as (Hold & Hnew & Hlive).
  assert (Hcase : (if ok then db_mutation uuid sequence args e d = Some (ss_db s) else ss_db s = d \/ db_mutation uuid sequence args e d = Some (ss_db s))).
  { destruct Hd1 as [->|E]; [destruct (Hnew Hlt), ok; auto|]. destruct (mutation_applied _ _ _ _ _ _ E) as [Hge Hl].
    rewrite (Hold Hge Hl). destruct ok; [done|by right]. }
  destruct ok; [done|]. specialize (IH (ss_db s) Hcase). destruct (write_attempts _ _ _ _ _ _) as [applied d']. destruct IH as [IH1 IH2].
  split; [done|]. intros Hcan Hin. apply elem_of_cons in Hin as [[= <- <-]|Hin]; [|by apply IH2].
  assert (false = true) as ?; [|done]. apply Hlive; [by split_and!|]. destruct Hd1 as [->|E]; [by left|right; by eapply mutation_applied].
Qed.

(** C6. The writer applies a mutation exactly once: it asks the database whether
    the mutation was applied, and applies it in one transaction with its entry of
    the change log and the new sequence number.  Whatever fails in whichever
    attempt (a refused call, a connection that is lost before a call or after it,
    also in the commit), the tables are afterwards as before or as one
    application leaves them, and the latter when the writer is done; and when the
    tables admit the mutation, the writer is done as soon as nothing fails in an
    attempt. *)
Theorem writer_applies_once uuid sequence args e d attempts :
  record_effect args = Some e -> e <> ENone -> short_deadline args -> 0 < sequence -> applied_through d uuid < sequence ->
  let '(applied, d') := write_attempts sha uuid sequence args attempts d in
  (if applied then db_mutation uuid sequence args e d = Some d' else d' = d \/ db_mutation uuid sequence args e d = Some d') /\
  (is_Some (db_mutation uuid sequence args e d) -> ([], []) ∈ attempts -> applied = true).
Proof. apply writer_once. Qed.
End Effects.
