(* ===== verification/MysqlRefine.v ===== *)
(** The tables as a store: the rows are found by the hash of their names, which
    is transparent as long as the names in use do not collide; and the tables
    then hold a finite map from keys to values and deadlines, on which a
    mutation acts as it does on the store of the service. *)

From S2P Require Import Prelude Resp HashTable ZOrder Object Cache CacheSpec CacheProps CacheEvents Aof AofCodec AofLog Double CommandText CommandProps MysqlStore.
From S2P Require Import Service ServiceStore ServiceSpec ServiceReplay MysqlTables MysqlSql MysqlTransactions.

(** ** Maps under a hash *)

Section Hashed.
Context {K I X : Type} `{Countable K, Countable I} (f : K -> I) (P : K -> Prop).
Context (f_inj : forall x y, P x -> P y -> f x = f y -> x = y).

(** [m] holds the entries of [a] under the hashes of their keys. *)
Definition hashed (m : gmap I X) (a : gmap K X) : Prop :=
  (forall k x, a !! k = Some x -> P k /\ m !! f k = Some x) /\
  (forall h x, m !! h = Some x -> exists k, P k /\ h = f k /\ a !! k = Some x).

Lemma hashed_lookup m a k : hashed m a -> P k -> m !! f k = a !! k.
Proof.
  intros [Ha Hb] Hk. destruct (m !! f k) as [x|] eqn:E.
  - destruct (Hb _ _ E) as (k' & Hk' & Ef & Ea). apply f_inj in Ef as ->; by rewrite ?Ea.
  - destruct (a !! k) as [x|] eqn:Ea; [|done]. destruct (Ha _ _ Ea) as [_ ?]. congruence.
Qed.

Lemma hashed_insert m a k x : hashed m a -> P k -> hashed (<[f k := x]> m) (<[k := x]> a).
Proof.
  intros [Ha Hb] Hk. split.
  - intros k' x' E. destruct (decide (k' = k)) as [->|Hne].
    + rewrite lookup_insert_eq in E. by rewrite lookup_insert_eq.
    + rewrite lookup_insert_ne in E by done. destruct (Ha _ _ E) as [Hk' Em]. split; [done|].
      rewrite lookup_insert_ne; [done|]. intros Ef. apply Hne. symmetry. by apply f_inj.
  - intros h x' E. destruct (decide (h = f k)) as [->|Hne].
    + rewrite lookup_insert_eq in E. exists k. by rewrite lookup_insert_eq.
    + rewrite lookup_insert_ne in E by done. destruct (Hb _ _ E) as (k' & Hk' & -> & Ea). exists k'. split_and!; [done|done|].
      rewrite lookup_insert_ne; [done|]. by intros ->.
Qed.

(** A filter that depends on the keys in the same way. *)
Lemma hashed_filter m a (Q : I * X -> Prop) (R : K * X -> Prop) `{forall x, Decision (Q x)} `{forall x, Decision (R x)} :
  hashed m a -> (forall k x, P k -> Q (f k, x) <-> R (k, x)) -> hashed (filter Q m) (filter R a).
Proof.
  intros [Ha Hb] Hqr. split.
  - intros k x E. apply map_lookup_filter_Some in E as [E Hr]. destruct (Ha _ _ E) as [Hk Em]. split; [done|].
    apply map_lookup_filter_Some. split; [done|]. by apply Hqr.
  - intros h x E. apply map_lookup_filter_Some in E as [E Hq]. destruct (Hb _ _ E) as (k & Hk & -> & Ea). exists k. split_and!; [done|done|].
    apply map_lookup_filter_Some. split; [done|]. by apply Hqr.
Qed.

Lemma hashed_delete m a k : hashed m a -> P k -> hashed (delete (f k) m) (delete k a).
Proof.
  intros [Ha Hb] Hk. split.
  - intros k' x' E. apply lookup_delete_Some in E as [Hne E]. destruct (Ha _ _ E) as [Hk' Em]. split; [done|].
    apply lookup_delete_Some. split; [|done]. intros Ef. apply Hne. by apply f_inj.
  - intros h x' E. apply lookup_delete_Some in E as [Hne E]. destruct (Hb _ _ E) as (k' & Hk' & -> & Ea). exists k'. split_and!; [done|done|].
    apply lookup_delete_Some. split; [|done]. by intros ->.
Qed.

Lemma hashed_empty : hashed ∅ ∅.
Proof. split; intros ? ? E; by rewrite lookup_empty in E. Qed.
End Hashed.

(** ** The rows of a child table *)

Section Rows.
Context {X : Type}.
Implicit Types m : gmap (list Z * list Z) (list Z * X).

Lemma elem_of_child_rows h m x : x ∈ child_rows h m <-> exists n, m !! (h, n) = Some x.
Proof.
  unfold child_rows. rewrite list_elem_of_fmap. split.
  - intros ([[h' n] y] & -> & Hy). apply elem_of_map_to_list, map_lookup_filter_Some in Hy as [Hy Hh]. cbn in *. subst. by exists n.
  - intros (n & E). exists ((h, n), x). split; [done|]. apply elem_of_map_to_list, map_lookup_filter_Some. done.
Qed.

Lemma child_rows_nil h m : child_rows h m = [] <-> forall n, m !! (h, n) = None.
Proof.
  split.
  - intros E n. destruct (m !! (h, n)) as [x|] eqn:Em; [|done]. assert (Hx : x ∈ child_rows h m) by (apply elem_of_child_rows; eauto).
    rewrite E in Hx. by apply elem_of_nil in Hx.
  - intros Hn. destruct (child_rows h m) as [|x l] eqn:E; [done|]. assert (Hx : x ∈ child_rows h m) by (rewrite E; set_solver).
    apply elem_of_child_rows in Hx as [n Hx]. by rewrite Hn in Hx.
Qed.
End Rows.

Section Refine.
Context (sha : list Z -> list Z) (U : list Z -> Prop).

(** No two names in use have the same SHA-256 hash. *)
Hypothesis collision_free : forall x y, U x -> U y -> sha x = sha y -> x = y.

Definition sha2 (x : list Z * list Z) : list Z * list Z := (sha x.1, sha x.2).

Definition U2 (x : list Z * list Z) : Prop := U x.1 /\ U x.2.

Lemma collision_free2 x y : U2 x -> U2 y -> sha2 x = sha2 y -> x = y.
Proof. destruct x, y. intros [? ?] [? ?] [= ? ?]. f_equal; by apply collision_free. Qed.

(** The tables [l] are the tables [d] with names instead of hashes. *)
Record sim (d l : tables) : Prop := {
  sim_keys : hashed sha U (kv_keys d) (kv_keys l);
  sim_strings : hashed sha U (kv_strings d) (kv_strings l);
  sim_fields : hashed sha2 U2 (kv_hash_fields d) (kv_hash_fields l);
  sim_members : hashed sha2 U2 (kv_zset_members d) (kv_zset_members l)
}.

Abbreviation plainly := (fun x : list Z => x).

Definition simulates (f g : transform) : Prop := forall d l,
  sim d l -> match g l with Some l' => exists d', f d = Some d' /\ sim d' l' | None => f d = None end.

Lemma simulates_andthen f f' g g' : simulates f f' -> simulates g g' -> simulates (andthen f g) (andthen f' g').
Proof.
  intros Hf Hg d l Hs. specialize (Hf d l Hs). unfold andthen. destruct (f' l) as [l1|]; [|by rewrite Hf].
  destruct Hf as (d1 & -> & Hs1). exact (Hg d1 l1 Hs1).
Qed.

Lemma simulates_all {X} (f g : X -> transform) l : (forall x, x ∈ l -> simulates (f x) (g x)) -> simulates (all_of f l) (all_of g l).
Proof.
  induction l as [|x l IH]; intros Hx; [intros d l1 Hs; by exists d|]. apply simulates_andthen; [apply Hx; set_solver|].
  apply IH. intros y Hy. apply Hx. set_solver.
Qed.

Lemma simulates_doing (f g : statement) :
  (forall d l, sim d l -> match g l with inr l' => exists d', f d = inr d' /\ sim d' l' | inl _ => exists n, f d = inl n end) ->
  simulates (doing f) (doing g).
Proof.
  intros Hfg d l Hs. specialize (Hfg d l Hs). unfold doing. destruct (g l) as [n|l']; [destruct Hfg as [n' ->]; done|].
  destruct Hfg as (d' & -> & Hs'). by exists d'.
Qed.

Lemma simulates_checking (f g : tables -> Z) : (forall d l, sim d l -> f d = g l) -> simulates (checking f) (checking g).
Proof. intros Hfg d l Hs. unfold checking. rewrite (Hfg d l Hs). destruct (_ =? 1); [by exists d|done]. Qed.

Lemma key_sim d l key : sim d l -> U key -> kv_keys d !! sha key = kv_keys l !! key.
Proof. intros Hs Hu. by apply (hashed_lookup sha U collision_free); [apply Hs|]. Qed.

Lemma row_sim d l key : sim d l -> U key -> row_of sha key d = row_of plainly key l.
Proof. intros Hs Hu. unfold row_of. by rewrite (key_sim d l). Qed.

Lemma remove_sim d l key : sim d l -> U key -> sim (remove_row (sha key) d) (remove_row key l).
Proof.
  intros [S1 S2 S3 S4] Hu. assert (Hq : forall X (k : list Z * list Z) (x : X), U2 k -> (sha2 k, x).1.1 <> sha key <-> (k, x).1.1 <> key).
  { intros X k x [Hk _]. cbn. split; intros Hne ?; apply Hne; [congruence|by apply collision_free]. }
  split; cbn; [by apply hashed_delete|by apply hashed_delete| |]; apply (hashed_filter sha2 U2); auto.
Qed.

Lemma child_sim {X} (m : gmap (list Z * list Z) (list Z * X)) a key name : hashed sha2 U2 m a -> U key -> U name -> m !! (sha key, sha name) = a !! (key, name).
Proof. intros Hm Hk Hn. apply (hashed_lookup sha2 U2 collision_free2 m a (key, name) Hm). done. Qed.

Lemma upsert_sim {X} (m : gmap (list Z * list Z) (list Z * X)) a key name data value :
  hashed sha2 U2 m a -> U key -> U name ->
  hashed sha2 U2 (upsert_child (sha key, sha name) data value m) (upsert_child (key, name) data value a).
Proof.
  intros Hm Hk Hn. unfold upsert_child. rewrite (child_sim m a) by done.
  assert (Hi : hashed sha2 U2 (<[(sha key, sha name) := (data, value)]> m) (<[(key, name) := (data, value)]> a)).
  { by apply (hashed_insert sha2 U2 collision_free2 m a (key, name)). }
  destruct (a !! (key, name)) as [[data' ?]|]; [|done]. by destruct (bool_decide _).
Qed.

Lemma delete_child_sim {X} (m : gmap (list Z * list Z) (list Z * X)) a key name data :
  hashed sha2 U2 m a -> U key -> U name ->
  hashed sha2 U2 (delete_child (sha key, sha name) data m) (delete_child (key, name) data a).
Proof.
  intros Hm Hk Hn. unfold delete_child. rewrite (child_sim m a) by done.
  destruct (a !! (key, name)) as [[data' ?]|]; [|done]. destruct (bool_decide _); [|done].
  by apply (hashed_delete sha2 U2 collision_free2 m a (key, name)).
Qed.

Lemma count_key_sim d l key type : sim d l -> U key -> sql_count_key sha key type d = sql_count_key plainly key type l.
Proof. intros Hs Hu. unfold sql_count_key. by rewrite (row_sim d l). Qed.

Lemma children_sim {X} (m : gmap (list Z * list Z) (list Z * X)) a key :
  hashed sha2 U2 m a -> U key -> child_rows (sha key) m = [] <-> child_rows key a = [].
Proof.
  intros [H1 H2] Hk. rewrite !child_rows_nil. split; intros Hn n.
  - destruct (a !! (key, n)) as [x|] eqn:E; [|done]. destruct (H1 _ _ E) as [_ Em]. unfold sha2 in Em. cbn in Em. by rewrite Hn in Em.
  - destruct (m !! (sha key, n)) as [x|] eqn:E; [|done]. destruct (H2 _ _ E) as ([k' n'] & [Hk' Hn'] & Ef & Ea). injection Ef as Ef ->.
    apply collision_free in Ef as <-; [|done|done]. by rewrite Hn in Ea.
Qed.

(** The names that a mutation looks up. *)
Definition effect_names (e : effect) : list (list Z) :=
  match e with
  | ESet key _ _ | EDel key | EPersist key | EExpire key _ => [key]
  | EHset key pairs => key :: pairs.*1
  | EHdel key names | EZrem key names => key :: names
  | EZadd key members => key :: members.*2
  | ENone => []
  end.

Lemma typed_key_sim key type : U key -> simulates (typed_key sha key type) (typed_key plainly key type).
Proof.
  intros Hu. apply simulates_andthen; [|apply simulates_checking; intros; by apply count_key_sim].
  apply simulates_doing. intros d l Hs. unfold sql_upsert_key. eexists. split; [done|]. rewrite (key_sim d l) by done.
  assert (Hi : forall r, sim (with_keys (<[sha key := r]> (kv_keys d)) d) (with_keys (<[key := r]> (kv_keys l)) l)).
  { intros r. destruct Hs as [S1 S2 S3 S4]. split; cbn; [|done|done|done]. by apply hashed_insert. }
  destruct (kv_keys l !! key) as [r|]; [|done]. by destruct (_ && _).
Qed.

Lemma count_member_sim {X} (table : tables -> gmap (list Z * list Z) (list Z * X)) d l key name :
  sim d l -> hashed sha2 U2 (table d) (table l) -> U key -> U name ->
  sql_count_member sha table key name d = sql_count_member plainly table key name l.
Proof. intros Hs Ht Hk Hn. unfold sql_count_member. by rewrite (row_sim d l), (child_sim (table d) (table l)). Qed.

Lemma delete_empty_sim {X} (table : tables -> gmap (list Z * list Z) (list Z * X)) type key :
  (forall d l, sim d l -> hashed sha2 U2 (table d) (table l)) -> U key ->
  simulates (doing (sql_delete_empty sha table type key)) (doing (sql_delete_empty plainly table type key)).
Proof.
  intros Ht Hk. apply simulates_doing. intros d l Hs. unfold sql_delete_empty. eexists. split; [done|]. rewrite (row_sim d l) by done.
  destruct (row_of plainly key l) as [r|]; [|done]. rewrite (bool_decide_ext _ _ (children_sim (table d) (table l) key (Ht d l Hs) Hk)).
  destruct (_ && _); [by apply remove_sim|done].
Qed.

Lemma effect_sim e : Forall U (effect_names e) -> simulates (db_effect sha e) (db_effect plainly e).
Proof.
  assert (Hdel : forall key, U key -> simulates (doing (sql_delete_key sha key)) (doing (sql_delete_key plainly key))).
  { intros key Hu. apply simulates_doing. intros d l Hs. unfold sql_delete_key. eexists. split; [done|]. rewrite (row_sim d l) by done.
    destruct (is_Some_bool _); [by apply remove_sim|done]. }
  assert (Hexp : forall key x, U key -> simulates (doing (sql_expire sha key x)) (doing (sql_expire plainly key x))).
  { intros key x Hu. apply simulates_doing. intros d l Hs. unfold sql_expire. eexists. split; [done|]. rewrite (row_sim d l) by done.
    destruct (row_of plainly key l) as [r|]; [|done]. destruct Hs as [S1 S2 S3 S4]. split; cbn; [|done|done|done]. by apply hashed_insert. }
  assert (Hrow : forall d l key, sim d l -> U key -> (sql_count_key sha key 1 d =? 1) = (sql_count_key plainly key 1 l =? 1) /\ (sql_count_key sha key 2 d =? 1) = (sql_count_key plainly key 2 l =? 1)).
  { intros d l key Hs Hu. by rewrite !(count_key_sim d l). }
  destruct e; cbn [effect_names db_effect]; intros Hn; try apply Forall_cons in Hn as [Hk Hn]; try (by intros d l Hs); auto.
  - apply simulates_andthen; [auto|]. apply simulates_andthen; apply simulates_doing; intros d l Hs.
    + unfold sql_insert_string_key. rewrite (key_sim d l) by done. destruct (kv_keys l !! key); [by eexists|]. eexists. split; [done|].
      destruct Hs as [S1 S2 S3 S4]. split; cbn; [|done|done|done]. by apply hashed_insert.
    + unfold sql_insert_string. rewrite (key_sim d l), (hashed_lookup sha U collision_free _ _ key (sim_strings d l Hs)) by done.
      destruct (kv_strings l !! key); [by eexists|]. destruct (kv_keys l !! key); [|by eexists]. eexists. split; [done|].
      destruct Hs as [S1 S2 S3 S4]. split; cbn; [done| |done|done]. by apply hashed_insert.
  - apply simulates_andthen; [by apply typed_key_sim|]. apply simulates_all. intros x Hx.
    assert (Hu : U x.1) by (eapply Forall_forall; [exact Hn|]; by apply list_elem_of_fmap_2).
    apply simulates_andthen; [|apply simulates_checking; intros; apply count_member_sim; auto using sim_fields].
    apply simulates_doing. intros d l Hs. unfold sql_upsert_field. eexists. split; [done|]. destruct (Hrow d l key Hs Hk) as [-> _].
    destruct (_ =? 1); [|done]. destruct Hs as [S1 S2 S3 S4]. split; cbn; [done|done| |done]. by apply upsert_sim.
  - apply simulates_andthen; [|apply delete_empty_sim; auto using sim_fields]. apply simulates_all. intros x Hx.
    assert (Hu : U x) by (eapply Forall_forall; [exact Hn|done]). apply simulates_doing. intros d l Hs. eexists. split; [done|].
    destruct Hs as [S1 S2 S3 S4]. split; cbn; [done|done| |done]. by apply delete_child_sim.
  - apply simulates_andthen; [by apply typed_key_sim|]. apply simulates_all. intros x Hx.
    assert (Hu : U x.2) by (eapply Forall_forall; [exact Hn|]; by apply list_elem_of_fmap_2).
    apply simulates_andthen; [|apply simulates_checking; intros; apply count_member_sim; auto using sim_members].
    apply simulates_doing. intros d l Hs. unfold sql_upsert_member. destruct (Hrow d l key Hs Hk) as [_ ->].
    destruct (_ =? 1); [destruct (isinf x.1); [by eexists|]|by eexists]. eexists. split; [done|]. destruct Hs as [S1 S2 S3 S4]. split; cbn; [done|done|done|]. by apply upsert_sim.
  - apply simulates_andthen; [|apply delete_empty_sim; auto using sim_members]. apply simulates_all. intros x Hx.
    assert (Hu : U x) by (eapply Forall_forall; [exact Hn|done]). apply simulates_doing. intros d l Hs. eexists. split; [done|].
    destruct Hs as [S1 S2 S3 S4]. split; cbn; [done|done|done|]. by apply delete_child_sim.
Qed.
End Refine.
