(* ===== verification/MysqlEffects.v ===== *)
(** A mutation on the tables acts as the record of the log acts on the store of
    the service: the tables hold the store that the mutations in the order of
    their sequence numbers build. *)

From S2P Require Import Prelude Resp HashTable ZOrder Object Cache CacheSpec CacheProps CacheEvents Aof AofCodec AofLog Double CommandText CommandProps MysqlStore.
From S2P Require Import Service ServiceStore ServiceSpec ServiceCommands ServiceReplay MysqlTables MysqlSql MysqlTransactions MysqlRefine.

Abbreviation plainly := (fun x : list Z => x).

(** ** What the tables hold for a key *)

Definition acode (v : avalue) : Z := match v with AString _ => 0 | AHash _ => 1 | AZset _ => 2 end.

Definition string_part (x : option (avalue * Z)) : option (list Z) :=
  match x with Some (AString v, _) => Some v | _ => None end.

Definition hash_part (x : option (avalue * Z)) : gmap (list Z) (list Z) :=
  match x with Some (AHash M, _) => M | _ => ∅ end.

Definition zset_part (x : option (avalue * Z)) : list zelem :=
  match x with Some (AZset l, _) => l | _ => [] end.

(** A score and the row of its member; the store keeps the old one of two scores
    that compare equal (0 and -0). *)
Definition same_score (name : list Z) (s : option Z) (row : option (list Z * Z)) : Prop :=
  match s, row with
  | Some s, Some (name', s') => name' = name /\ score_eq s s' = true
  | None, None => True
  | _, _ => False
  end.

Definition row_view (r : key_row) : list Z * Z * option Z := (kr_data r, kr_type r, kr_expire r).

(** The tables hold [x] under the name [k]. *)
Record holds_row (k : list Z) (x : option (avalue * Z)) (l : tables) : Prop := {
  hr_key : row_view <$> kv_keys l !! k = (fun x => (k, acode x.1, deadline_column x.2)) <$> x;
  hr_string : kv_strings l !! k = string_part x;
  hr_fields : forall f, kv_hash_fields l !! (k, f) = (fun v => (f, v)) <$> hash_part x !! f;
  hr_members : forall n, same_score n (score_of n (zset_part x)) (kv_zset_members l !! (k, n))
}.

(** Tables that differ only elsewhere. *)
Record same_at (k : list Z) (l l' : tables) : Prop := {
  sa_key : kv_keys l' !! k = kv_keys l !! k;
  sa_string : kv_strings l' !! k = kv_strings l !! k;
  sa_fields : forall f, kv_hash_fields l' !! (k, f) = kv_hash_fields l !! (k, f);
  sa_members : forall n, kv_zset_members l' !! (k, n) = kv_zset_members l !! (k, n)
}.

Lemma same_at_refl k l : same_at k l l.
Proof. by split. Qed.

Lemma same_at_trans k l1 l2 l3 : same_at k l1 l2 -> same_at k l2 l3 -> same_at k l1 l3.
Proof. intros [] []. split; congruence. Qed.

Lemma holds_same k x l l' : same_at k l l' -> holds_row k x l -> holds_row k x l'.
Proof. intros [E1 E2 E3 E4] [H1 H2 H3 H4]. split; [congruence|congruence|intros; by rewrite E3|intros; by rewrite E4]. Qed.

(** A transform that touches one key. *)
Definition local_to (key : list Z) (f : transform) : Prop := forall l l' k, f l = Some l' -> k <> key -> same_at k l l'.

Lemma local_doing key (f : statement) : (forall l l' k, f l = inr l' -> k <> key -> same_at k l l') -> local_to key (doing f).
Proof. intros Hf l l' k E Hk. unfold doing in E. destruct (f l) eqn:Ef; [done|]. injection E as <-. by apply Hf. Qed.

Lemma local_checking key q : local_to key (checking q).
Proof. intros l l' k E Hk. unfold checking in E. destruct (_ =? 1); [|done]. injection E as <-. apply same_at_refl. Qed.

Lemma local_andthen key f g : local_to key f -> local_to key g -> local_to key (andthen f g).
Proof.
  intros Hf Hg l l' k E Hk. unfold andthen in E. destruct (f l) as [l1|] eqn:E1; [|done].
  eapply same_at_trans; [by apply Hf|by apply Hg].
Qed.

Lemma local_all {X} key (f : X -> transform) l : (forall x, local_to key (f x)) -> local_to key (all_of f l).
Proof. intros Hf. induction l as [|x l IH]; [intros l1 l2 k [= <-] _; apply same_at_refl|by apply local_andthen]. Qed.

Lemma keys_same_at (k key : list Z) r l : k <> key -> same_at k l (with_keys (<[key := r]> (kv_keys l)) l).
Proof. intros Hk. split; cbn; by rewrite ?lookup_insert_ne by done. Qed.

Lemma remove_same_at (k key : list Z) l : k <> key -> same_at k l (remove_row key l).
Proof.
  intros Hk. assert (Hf : forall X (m : gmap (list Z * list Z) (list Z * X)) n, filter (fun x => x.1.1 <> key) m !! (k, n) = m !! (k, n)).
  { intros X m n. destruct (m !! (k, n)) as [y|] eqn:E; [by apply map_lookup_filter_Some|]. apply map_lookup_filter_None. by left. }
  split; cbn; intros; by rewrite ?lookup_delete_ne, ?Hf by done.
Qed.

Lemma upsert_other {X} (m : gmap (list Z * list Z) (list Z * X)) i j data value : i <> j -> upsert_child i data value m !! j = m !! j.
Proof. intros Hne. unfold upsert_child. repeat case_match; by rewrite ?lookup_insert_ne by done. Qed.

Lemma delete_child_other {X} (m : gmap (list Z * list Z) (list Z * X)) i j data : i <> j -> delete_child i data m !! j = m !! j.
Proof. intros Hne. unfold delete_child. repeat case_match; by rewrite ?lookup_delete_ne by done. Qed.

Lemma effect_local e key : effect_key e = Some key -> local_to key (db_effect plainly e).
Proof.
  assert (Hdel : local_to key (doing (sql_delete_key plainly key))).
  { apply local_doing. unfold sql_delete_key. intros l l' k [= <-] Hk. destruct (is_Some_bool _); [by apply remove_same_at|apply same_at_refl]. }
  assert (Hexp : forall x, local_to key (doing (sql_expire plainly key x))).
  { intros x. apply local_doing. unfold sql_expire. intros l l' k [= <-] Hk. destruct (row_of _ key l); [by apply keys_same_at|apply same_at_refl]. }
  assert (Hty : forall type, local_to key (typed_key plainly key type)).
  { intros type. apply local_andthen; [|apply local_checking]. apply local_doing. unfold sql_upsert_key. intros l l' k [= <-] Hk.
    destruct (kv_keys l !! key); [destruct (_ && _)|]; try (by apply keys_same_at); apply same_at_refl. }
  assert (Hem : forall X (table : tables -> gmap (list Z * list Z) (list Z * X)) type, local_to key (doing (sql_delete_empty plainly table type key))).
  { intros X table type. apply local_doing. unfold sql_delete_empty. intros l l' k [= <-] Hk.
    destruct (row_of _ key l); [destruct (_ && _)|]; try (by apply remove_same_at); apply same_at_refl. }
  destruct e; cbn [effect_key db_effect]; intros [= ->]; auto.
  - apply local_andthen; [done|]. apply local_andthen; apply local_doing.
    + unfold sql_insert_string_key. intros l l' k. destruct (kv_keys l !! key); [done|]. intros [= <-] Hk. by apply keys_same_at.
    + unfold sql_insert_string. intros l l' k. destruct (kv_strings l !! key); [done|]. destruct (kv_keys l !! key); [|done]. intros [= <-] Hk.
      split; cbn; by rewrite ?lookup_insert_ne by done.
  - apply local_andthen; [done|]. apply local_all. intros x. apply local_andthen; [|apply local_checking]. apply local_doing.
    unfold sql_upsert_field. intros l l' k [= <-] Hk. destruct (_ =? 1); [|apply same_at_refl]. split; cbn; try done. intros f. apply upsert_other. congruence.
  - apply local_andthen; [|done]. apply local_all. intros x. apply local_doing. unfold sql_delete_field. intros l l' k [= <-] Hk.
    split; cbn; try done. intros f. apply delete_child_other. congruence.
  - apply local_andthen; [done|]. apply local_all. intros x. apply local_andthen; [|apply local_checking]. apply local_doing.
    unfold sql_upsert_member. intros l l' k. destruct (_ =? 1); [destruct (isinf _); [done|]|intros [= <-] _; apply same_at_refl]. intros [= <-] Hk. split; cbn; try done. intros f. apply upsert_other. congruence.
  - apply local_andthen; [|done]. apply local_all. intros x. apply local_doing. unfold sql_delete_member. intros l l' k [= <-] Hk.
    split; cbn; try done. intros f. apply delete_child_other. congruence.
Qed.

(** ** The key of the mutation *)

Lemma plain_row key x l :
  holds_row key x l ->
  match x with
  | Some (v, t) => exists version, kv_keys l !! key = Some (mk_key_row key (acode v) (deadline_column t) version) /\
                                   row_of plainly key l = Some (mk_key_row key (acode v) (deadline_column t) version)
  | None => kv_keys l !! key = None /\ row_of plainly key l = None
  end.
Proof.
  intros H. pose proof (hr_key _ _ _ H) as E. unfold row_of. destruct (kv_keys l !! key) as [[data type expire version]|], x as [[v t]|]; try done.
  injection E as -> -> ->. exists version. cbn. by rewrite bool_decide_true.
Qed.

Lemma remove_holds key l : holds_row key None (remove_row key l).
Proof.
  split; cbn; [by rewrite lookup_delete_eq|by rewrite lookup_delete_eq| |]; intros n.
  - rewrite lookup_empty. apply map_lookup_filter_None. right. intros y _ Hy. by apply Hy.
  - destruct (filter _ _ !! (key, n)) as [y|] eqn:E; [|done]. apply map_lookup_filter_Some in E as [_ E]. by destruct E.
Qed.

Lemma delete_key_holds key x l : holds_row key x l -> exists l', doing (sql_delete_key plainly key) l = Some l' /\ holds_row key None l'.
Proof.
  intros H. pose proof (plain_row key x l H) as Hr. unfold doing, sql_delete_key. eexists. split; [done|].
  destruct x as [[v t]|]; [destruct Hr as (ver & _ & ->)|destruct Hr as [_ ->]; done]. apply remove_holds.
Qed.

Lemma set_holds key x value t l :
  holds_row key x l -> exists l', db_effect plainly (ESet key value t) l = Some l' /\ holds_row key (Some (AString value, t)) l'.
Proof.
  intros H. cbn [db_effect]. unfold andthen. destruct (delete_key_holds key x l H) as (l1 & -> & H1). cbn [mbind option_bind].
  unfold doing, sql_insert_string_key, sql_insert_string. destruct (plain_row key None l1 H1) as [-> _]. cbn.
  rewrite (hr_string _ _ _ H1), lookup_insert_eq. cbn. eexists. split; [done|]. destruct H1 as [_ _ H3 H4].
  split; cbn; [by rewrite lookup_insert_eq|by rewrite lookup_insert_eq|done|done].
Qed.

Lemma expire_holds key x t l :
  holds_row key x l ->
  exists l', doing (sql_expire plainly key (deadline_column t)) l = Some l' /\ holds_row key ((fun y => (y.1, t)) <$> x) l'.
Proof.
  intros H. pose proof (plain_row key x l H) as Hr. unfold doing, sql_expire. eexists. split; [done|].
  destruct x as [[v t']|]; [destruct Hr as (ver & _ & ->)|destruct Hr as [_ ->]; done].
  destruct H as [H1 H2 H3 H4]. split; cbn in *; [by rewrite lookup_insert_eq|by destruct v|by destruct v|by destruct v].
Qed.

(** The row of a hash or a sorted set, made or already there. *)
Lemma typed_key_holds key x l v :
  v = AHash ∅ \/ v = AZset [] -> holds_row key x l -> match x with Some y => acode y.1 = acode v | None => True end ->
  exists l', typed_key plainly key (acode v) l = Some l' /\ holds_row key (Some (default (v, 0) x)) l'.
Proof.
  intros Hv H Ht. pose proof (plain_row key x l H) as Hr. unfold typed_key, andthen, doing, checking, sql_upsert_key, sql_count_key, row_of. cbn [mbind option_bind].
  destruct x as [[v' t]|].
  - destruct Hr as (ver & -> & _). cbn in Ht. cbn. rewrite (bool_decide_true (key = key)), Ht, Z.eqb_refl by done. cbn.
    rewrite lookup_insert_eq. cbn. rewrite (bool_decide_true (key = key)), Z.eqb_refl by done. cbn. eexists. split; [done|].
    destruct H as [H1 H2 H3 H4]. split; cbn in *; [by rewrite lookup_insert_eq, <- Ht|done|done|done].
  - destruct Hr as [-> _]. cbn. rewrite lookup_insert_eq. cbn. rewrite (bool_decide_true (key = key)), Z.eqb_refl by done. cbn. eexists. split; [done|].
    destruct H as [H1 H2 H3 H4]. split; cbn in *; [by rewrite lookup_insert_eq|by destruct Hv as [-> | ->]|by destruct Hv as [-> | ->]|by destruct Hv as [-> | ->]].
Qed.

Lemma put_field_holds key M t l f v :
  holds_row key (Some (AHash M, t)) l -> exists l', put_field plainly key (f, v) l = Some l' /\ holds_row key (Some (AHash (<[f := v]> M), t)) l'.
Proof.
  intros H. destruct (plain_row key _ l H) as (ver & E & Er). unfold put_field, andthen, doing, checking, sql_upsert_field, sql_count_key. cbn [mbind option_bind fst snd].
  rewrite Er. cbn [kr_type acode]. rewrite Z.eqb_refl. cbn [Z.eqb Pos.eqb mbind option_bind].
  assert (Hup : upsert_child (key, f) f v (kv_hash_fields l) = <[(key, f) := (f, v)]> (kv_hash_fields l)).
  { unfold upsert_child. rewrite (hr_fields _ _ _ H). cbn. destruct (M !! f); [|done]. cbn. by rewrite bool_decide_true. }
  rewrite Hup. unfold sql_count_member, row_of. cbn. rewrite E, lookup_insert_eq. cbn. rewrite !bool_decide_true by done. cbn.
  eexists. split; [done|]. destruct H as [H1 H2 H3 H4]. split; cbn in *; [done|done| |done].
  intros g. destruct (decide (f = g)) as [<-|Hne]; [by rewrite !lookup_insert_eq|]. by rewrite !lookup_insert_ne by congruence.
Qed.

Lemma put_fields_holds key pairs M t l :
  holds_row key (Some (AHash M, t)) l -> exists l', all_of (put_field plainly key) pairs l = Some l' /\ holds_row key (Some (AHash (hset_all M pairs), t)) l'.
Proof.
  revert M l. induction pairs as [|[f v] pairs IH]; intros M l H; [by exists l|]. cbn [all_of]. unfold andthen.
  destruct (put_field_holds key M t l f v H) as (l1 & -> & H1). cbn [mbind option_bind]. destruct (IH _ _ H1) as (l2 & -> & H2). by exists l2.
Qed.

(** *** Scores *)

Lemma score_of_insert x l n : score_of x.2 l = None -> score_of n (elem_insert x l) = if decide (n = x.2) then Some x.1 else score_of n l.
Proof.
  induction l as [|y l IH]; cbn [score_of elem_insert]; intros Hn.
  - destruct (decide (n = x.2)) as [->|Hne]; [by rewrite bool_decide_true|]. rewrite bool_decide_false by congruence. done.
  - destruct (bool_decide (y.2 = x.2)) eqn:Ey; [done|]. apply bool_decide_eq_false in Ey. destruct (decide (elem_lt y x)).
    + cbn [score_of]. rewrite IH by done. destruct (decide (n = x.2)) as [->|]; [|done]. by rewrite bool_decide_false.
    + cbn [score_of]. destruct (decide (n = x.2)) as [->|Hne]; [by rewrite bool_decide_true|]. by rewrite bool_decide_false by congruence.
Qed.

Lemma score_of_remove k l n : score_of n (elem_remove k l) = if decide (n = k) then None else score_of n l.
Proof.
  induction l as [|y l IH]; cbn [score_of]; [by destruct (decide _)|].
  assert (elem_remove k (y :: l) = if decide (y.2 <> k) then y :: elem_remove k l else elem_remove k l) as -> by (unfold elem_remove; rewrite filter_cons; by destruct (decide (y.2 = k))).
  destruct (decide (y.2 <> k)) as [Hy|Hy].
  - cbn [score_of]. rewrite IH. destruct (decide (n = k)) as [->|]; [by rewrite bool_decide_false|done].
  - rewrite IH. destruct (decide (n = k)) as [|Hne]; [done|]. rewrite bool_decide_false; [done|]. intros E. apply Hy. congruence.
Qed.

Lemma score_of_add x l n :
  exists s, score_eq s x.1 = true /\ score_of n (zadd_one l x) = if decide (n = x.2) then Some s else score_of n l.
Proof.
  unfold zadd_one. destruct (score_of x.2 l) as [old|] eqn:E.
  - destruct (score_eq old x.1) eqn:Eq.
    + exists old. split; [done|]. destruct (decide (n = x.2)) as [->|]; done.
    + exists x.1. split; [apply Z.eqb_refl|]. rewrite score_of_insert, score_of_remove; [by destruct (decide (n = x.2))|]. rewrite score_of_remove. by destruct (decide _).
  - exists x.1. split; [apply Z.eqb_refl|]. by rewrite score_of_insert.
Qed.

Lemma put_member_holds key z t l x :
  isinf x.1 = false -> holds_row key (Some (AZset z, t)) l -> exists l', put_member plainly key x l = Some l' /\ holds_row key (Some (AZset (zadd_one z x), t)) l'.
Proof.
  intros Hfin H. destruct (plain_row key _ l H) as (ver & E & Er). unfold put_member, andthen, doing, checking, sql_upsert_member, sql_count_key. cbn [mbind option_bind fst snd].
  rewrite Er, Hfin. cbn [kr_type acode]. rewrite Z.eqb_refl. cbn [Z.eqb Pos.eqb mbind option_bind].
  assert (Hup : upsert_child (key, x.2) x.2 x.1 (kv_zset_members l) = <[(key, x.2) := (x.2, x.1)]> (kv_zset_members l)).
  { unfold upsert_child. pose proof (hr_members _ _ _ H x.2) as Hs. cbn in Hs. destruct (kv_zset_members l !! (key, x.2)) as [[n s]|]; [|done].
    destruct (score_of x.2 z); [|done]. destruct Hs as [-> _]. by rewrite bool_decide_true. }
  rewrite Hup. unfold sql_count_member, row_of. cbn. rewrite E, lookup_insert_eq. cbn. rewrite !bool_decide_true by done. cbn.
  eexists. split; [done|]. destruct H as [H1 H2 H3 H4]. split; cbn in *; [done|done|done|].
  intros n. destruct (score_of_add x z n) as (s & Hs & ->). destruct (decide (n = x.2)) as [->|Hne].
  - rewrite lookup_insert_eq. cbn. done.
  - rewrite lookup_insert_ne by congruence. apply H4.
Qed.

Lemma put_members_holds key members z t l :
  Forall (fun x => isinf x.1 = false) members -> holds_row key (Some (AZset z, t)) l -> exists l', all_of (put_member plainly key) members l = Some l' /\ holds_row key (Some (AZset (zadd_all z members), t)) l'.
Proof.
  intros Hfin. revert z l. induction Hfin as [|x members Hx _ IH]; intros z l H; [by exists l|]. cbn [all_of]. unfold andthen.
  destruct (put_member_holds key z t l x Hx H) as (l1 & -> & H1). cbn [mbind option_bind]. destruct (IH _ _ H1) as (l2 & -> & H2). by exists l2.
Qed.

(** *** Removals *)

Definition without_fields (names : list (list Z)) (x : option (avalue * Z)) : option (avalue * Z) :=
  match x with Some (AHash M, t) => Some (AHash (hdel_all M names), t) | _ => x end.

Definition without_members (names : list (list Z)) (x : option (avalue * Z)) : option (avalue * Z) :=
  match x with Some (AZset z, t) => Some (AZset (zrem_all z names), t) | _ => x end.

Lemma delete_fields_holds key names x l :
  holds_row key x l -> exists l', all_of (fun f => doing (sql_delete_field plainly key f)) names l = Some l' /\ holds_row key (without_fields names x) l'.
Proof.
  revert x l. induction names as [|f names IH]; intros x l H; [exists l; split; [done|]; by destruct x as [[[]]|]|]. cbn [all_of]. unfold andthen.
  change (doing (sql_delete_field plainly key f) l) with (Some (with_fields (delete_child (key, f) f (kv_hash_fields l)) l)). cbn [mbind option_bind].
  assert (H1 : holds_row key (without_fields [f] x) (with_fields (delete_child (key, f) f (kv_hash_fields l)) l)).
  { assert (Hd : forall g, delete_child (key, f) f (kv_hash_fields l) !! (key, g) = if decide (g = f) then None else kv_hash_fields l !! (key, g)).
    { intros g. destruct (decide (g = f)) as [->|Hne]; [|apply delete_child_other; congruence]. unfold delete_child. rewrite (hr_fields _ _ _ H).
      destruct (hash_part x !! f) as [v|] eqn:E; cbn; [by rewrite bool_decide_true, lookup_delete_eq|]. rewrite (hr_fields _ _ _ H), E. done. }
    destruct H as [H1 H2 H3 H4]. split; cbn; [by destruct x as [[[]]|]|by destruct x as [[[]]|]| |by destruct x as [[[]]|]].
    intros g. rewrite Hd, H3. destruct x as [[[s|M|z] t]|]; cbn; rewrite ?lookup_empty; try by destruct (decide _).
    destruct (decide (g = f)) as [->|]; [by rewrite lookup_delete_eq|by rewrite lookup_delete_ne]. }
  destruct (IH _ _ H1) as (l2 & -> & H2). exists l2. split; [done|]. by destruct x as [[[]]|].
Qed.

Lemma delete_members_holds key names x l :
  holds_row key x l -> exists l', all_of (fun n => doing (sql_delete_member plainly key n)) names l = Some l' /\ holds_row key (without_members names x) l'.
Proof.
  revert x l. induction names as [|f names IH]; intros x l H; [exists l; split; [done|]; by destruct x as [[[]]|]|]. cbn [all_of]. unfold andthen.
  change (doing (sql_delete_member plainly key f) l) with (Some (with_members (delete_child (key, f) f (kv_zset_members l)) l)). cbn [mbind option_bind].
  assert (H1 : holds_row key (without_members [f] x) (with_members (delete_child (key, f) f (kv_zset_members l)) l)).
  { assert (Hd : forall g, delete_child (key, f) f (kv_zset_members l) !! (key, g) = if decide (g = f) then None else kv_zset_members l !! (key, g)).
    { intros g. destruct (decide (g = f)) as [->|Hne]; [|apply delete_child_other; congruence]. unfold delete_child.
      pose proof (hr_members _ _ _ H f) as Hs. destruct (kv_zset_members l !! (key, f)) as [[n s]|] eqn:E; [|done].
      destruct (score_of f (zset_part x)); [|done]. destruct Hs as [-> _]. by rewrite bool_decide_true, lookup_delete_eq. }
    destruct H as [H1 H2 H3 H4]. split; cbn; [by destruct x as [[[]]|]|by destruct x as [[[]]|]|by destruct x as [[[]]|]|].
    intros g. rewrite Hd. specialize (H4 g). destruct x as [[[s|M|z] t]|]; cbn in *; try by destruct (decide _).
    rewrite score_of_remove. by destruct (decide (g = f)). }
  destruct (IH _ _ H1) as (l2 & -> & H2). exists l2. split; [done|]. by destruct x as [[[]]|].
Qed.

Definition occupied (v : avalue) : Prop :=
  match v with AString _ => True | AHash M => M <> ∅ | AZset z => z <> [] end.

Lemma score_of_nil z : (forall n, score_of n z = None) <-> z = [].
Proof.
  split; [|by intros ->]. destruct z as [|x z]; [done|]. intros Hn. specialize (Hn x.2). cbn in Hn. by rewrite bool_decide_true in Hn.
Qed.

(** An empty hash or sorted set does not keep its row. *)
Lemma delete_empty_holds {X} (table : tables -> gmap (list Z * list Z) (list Z * X)) code key x l :
  holds_row key x l ->
  (forall v t, x = Some (v, t) -> acode v = code -> child_rows key (table l) = [] <-> ~ occupied v) ->
  exists l', doing (sql_delete_empty plainly table code key) l = Some l' /\
    (match x with Some (v, _) => acode v = code /\ ~ occupied v | None => False end /\ holds_row key None l' \/
     match x with Some (v, _) => acode v = code -> ~ ~ occupied v | None => True end /\ holds_row key x l').
Proof.
  intros H Hc. pose proof (plain_row key x l H) as Hr. unfold doing, sql_delete_empty. eexists. split; [done|].
  destruct x as [[v t]|]; [destruct Hr as (ver & _ & ->)|destruct Hr as [_ ->]; by right]. cbn [kr_type].
  destruct (Z.eqb_spec (acode v) code) as [Ec|Ec]; cbn [andb]; [|by right]. specialize (Hc v t eq_refl Ec).
  destruct (bool_decide (child_rows key (table l) = [])) eqn:Eb.
  - apply bool_decide_eq_true in Eb. left. split; [|apply remove_holds]. split; [done|]. by apply Hc.
  - apply bool_decide_eq_false in Eb. right. split; [|done]. intros _ Hn. by apply Eb, Hc.
Qed.

Lemma fields_empty key x l v t : holds_row key x l -> x = Some (v, t) -> acode v = 1 -> child_rows key (kv_hash_fields l) = [] <-> ~ occupied v.
Proof.
  intros H -> Hv. destruct v as [s|M|z]; try done. rewrite child_rows_nil. cbn [occupied]. split.
  - intros Hn. assert (M = ∅) as ->; [|by intros []]. apply map_eq. intros f. specialize (Hn f). rewrite (hr_fields _ _ _ H) in Hn.
    cbn in Hn. rewrite lookup_empty. by destruct (M !! f).
  - intros Hn f. rewrite (hr_fields _ _ _ H). cbn. destruct (decide (M = ∅)) as [->|]; [by rewrite lookup_empty|done].
Qed.

Lemma members_empty key x l v t : holds_row key x l -> x = Some (v, t) -> acode v = 2 -> child_rows key (kv_zset_members l) = [] <-> ~ occupied v.
Proof.
  intros H -> Hv. destruct v as [s|M|z]; try done. rewrite child_rows_nil. cbn [occupied].
  assert (Hz : (forall n, kv_zset_members l !! (key, n) = None) <-> z = []).
  { rewrite <- score_of_nil. split; intros Hn n; pose proof (hr_members _ _ _ H n) as Hs; cbn in Hs.
    - rewrite Hn in Hs. by destruct (score_of n z).
    - rewrite Hn in Hs. by destruct (kv_zset_members l !! (key, n)). }
  rewrite Hz. destruct z; split; try done; [by intros _ []|intros Hn; exfalso; by apply Hn].
Qed.

(** ** Effects *)

(** The mutation is for the type that the key has, and its deadline is one. *)
Definition fits (x : option (avalue * Z)) (e : effect) : Prop :=
  match e with
  | EHset _ _ => match x with None | Some (AHash _, _) => True | _ => False end
  | EZadd _ _ => match x with None | Some (AZset _, _) => True | _ => False end
  | ESet _ _ t => 0 <= t
  | EExpire _ t => 0 < t
  | ENone => False
  | _ => True
  end.

(** The scores of the mutation are numbers that the database can hold. *)
Definition storable (e : effect) : Prop :=
  match e with EZadd _ members => Forall (fun x => isinf x.1 = false) members | _ => True end.

#[export] Instance storable_dec e : Decision (storable e).
Proof. destruct e; apply _. Defined.

Lemma effect_holds e key A l :
  effect_key e = Some key -> holds_row key (A !! key) l -> fits (A !! key) e -> storable e ->
  match A !! key with Some (v, _) => occupied v | None => True end ->
  exists l', db_effect plainly e l = Some l' /\ holds_row key (apply_effect 0 A e !! key) l'.
Proof.
  intros Hk H Hf Hfin Ho. destruct e; cbn [effect_key] in Hk; try (injection Hk as ->); try done; cbn [apply_effect fits storable] in *.
  - destruct (set_holds key _ value deadline l H) as (l' & E & H'). exists l'. split; [done|].
    destruct (Z.eqb_spec deadline 0), (Z.leb_spec deadline 0); try lia; cbn [negb andb]; by rewrite lookup_insert_eq.
  - destruct (delete_key_holds key _ l H) as (l' & E & H'). exists l'. by rewrite lookup_delete_eq.
  - destruct (expire_holds key _ 0 l H) as (l' & E & H'). exists l'. by rewrite lookup_alter_eq.
  - destruct (expire_holds key _ deadline l H) as (l' & E & H'). exists l'. destruct (Z.leb_spec deadline 0); [lia|]. rewrite lookup_alter_eq.
    split; [|done]. unfold deadline_column in E. by destruct (Z.eqb_spec deadline 0); [lia|].
  - cbn [db_effect]. unfold andthen. destruct (typed_key_holds key _ l (AHash ∅) (or_introl eq_refl) H) as (l1 & E & H1);
      [by destruct (A !! key) as [[[]]|]|]. cbn [acode] in E. rewrite E. cbn [mbind option_bind].
    destruct (A !! key) as [[[s|M|z] t]|]; cbn [default from_option] in H1; try done;
      destruct (put_fields_holds key pairs _ _ _ H1) as (l2 & -> & H2); exists l2; by rewrite lookup_insert_eq.
  - cbn [db_effect]. unfold andthen. destruct (delete_fields_holds key fields _ l H) as (l1 & -> & H1). cbn [mbind option_bind].
    destruct (delete_empty_holds kv_hash_fields 1 key _ l1 H1) as (l2 & -> & Hc); [intros v t; by apply fields_empty|]. exists l2. split; [done|].
    destruct (A !! key) as [[[s|M|z] t]|] eqn:EA; cbn [without_fields] in Hc; rewrite ?EA; try (destruct Hc as [[Hbad _]|[_ ?]]; [by destruct Hbad|done]).
    cbn [acode occupied] in Hc. destruct (Z.eqb_spec (hdel_removed M fields) 0) as [E0|E0].
    + rewrite hdel_unchanged in Hc by lia. rewrite EA. destruct Hc as [[[_ Hn] _]|[_ ?]]; done.
    + unfold put_hash. destruct (decide (hdel_all M fields = ∅)) as [Ee|Ee].
      * rewrite lookup_delete_eq. destruct Hc as [[_ ?]|[Hn _]]; [done|]. exfalso. apply (Hn eq_refl). intros Hx. by apply Hx.
      * rewrite lookup_insert_eq. destruct Hc as [[[_ Hn] _]|[_ ?]]; [|done]. exfalso. by apply Hn.
  - cbn [db_effect]. unfold andthen. destruct (typed_key_holds key _ l (AZset []) (or_intror eq_refl) H) as (l1 & E & H1);
      [by destruct (A !! key) as [[[]]|]|]. cbn [acode] in E. rewrite E. cbn [mbind option_bind].
    destruct (A !! key) as [[[s|M|z] t]|]; cbn [default from_option] in H1; try done;
      destruct (put_members_holds key members _ _ _ Hfin H1) as (l2 & -> & H2); exists l2; by rewrite lookup_insert_eq.
  - cbn [db_effect]. unfold andthen. destruct (delete_members_holds key names _ l H) as (l1 & -> & H1). cbn [mbind option_bind].
    destruct (delete_empty_holds kv_zset_members 2 key _ l1 H1) as (l2 & -> & Hc); [intros v t; by apply members_empty|]. exists l2. split; [done|].
    destruct (A !! key) as [[[s|M|z] t]|] eqn:EA; cbn [without_members] in Hc; rewrite ?EA; try (destruct Hc as [[Hbad _]|[_ ?]]; [by destruct Hbad|done]).
    cbn [acode occupied] in Hc. destruct (Z.eqb_spec (zrem_removed z names) 0) as [E0|E0].
    + rewrite zrem_unchanged in Hc by lia. rewrite EA. destruct Hc as [[[_ Hn] _]|[_ ?]]; done.
    + unfold put_zset. destruct (decide (zrem_all z names = [])) as [Ee|Ee].
      * rewrite lookup_delete_eq. destruct Hc as [[_ ?]|[Hn _]]; [done|]. exfalso. apply (Hn eq_refl). intros Hx. by apply Hx.
      * rewrite lookup_insert_eq. destruct Hc as [[[_ Hn] _]|[_ ?]]; [|done]. exfalso. by apply Hn.
Qed.
