(* ===== verification/MysqlBackend.v ===== *)
(** The database as the last layer of the data: the tables hold a store, the
    mutations of the writer act on it as their records do, and what a load
    finds. *)

From S2P Require Import Prelude Resp HashTable ZOrder Object Cache CacheSpec CacheProps CacheEvents Aof AofCodec AofLog Double CommandText CommandProps MysqlStore.
From S2P Require Import Service ServiceStore ServiceSpec ServiceCommands ServiceReplay MysqlTables MysqlSql MysqlTransactions MysqlRefine MysqlEffects.

(** ** The store that the tables hold *)

Definition holds_plain (A : astore) (l : tables) : Prop := forall k, holds_row k (A !! k) l.

(** No value of the store is an empty hash or sorted set. *)
Definition store_ok (A : astore) : Prop := map_Forall (fun _ x => occupied x.1) A.

(** What every mutation with a record satisfies. *)
Definition sound (e : effect) : Prop :=
  match e with
  | ESet _ _ t => 0 <= t
  | EExpire _ t => 0 < t
  | EHset _ pairs => pairs <> []
  | EZadd _ members => members <> []
  | _ => True
  end.

Lemma record_deadline_positive text t : record_deadline text = Some t -> 0 < t.
Proof.
  unfold record_deadline. destruct (parse_uint64_bytes text) as [x|] eqn:E; [|done]. apply parse_uint64_range in E. unfold u64_ok in E.
  destruct (Z.eqb_spec x 0); [done|]. intros [= <-]. lia.
Qed.

Lemma record_sound args e : record_effect args = Some e -> sound e.
Proof.
  unfold record_effect. cbv zeta. set (name := arg args 0). intros He. destruct (_ && _) in He; [by injection He as <-|].
  destruct (argument_equals name (lit "SET")).
  { destruct (_ =? 3); [injection He as <-; done|]. destruct (_ && _); [|done]. destruct (record_deadline _) as [t|] eqn:E; [|done]. injection He as <-.
    apply record_deadline_positive in E. cbn. lia. }
  destruct (_ && _) in He; [by injection He as <-|]. destruct (_ && _) in He; [by injection He as <-|].
  destruct (_ && _) in He.
  { destruct (record_deadline _) as [t|] eqn:E; [|done]. injection He as <-. by apply record_deadline_positive in E. }
  destruct (_ && command_arity_valid SERVICE_COMMAND_HSET _) eqn:Eh in He.
  { injection He as <-. apply andb_true_iff in Eh as [_ Eh]. apply pairs_nonempty. cbn in Eh. zb. lia. }
  destruct (_ && _) in He; [by injection He as <-|].
  destruct (_ && command_arity_valid SERVICE_COMMAND_ZADD _) eqn:Ez in He.
  { apply andb_true_iff in Ez as [_ Ez]. unfold record_members, zadd_scores in He. pose proof (parse_scores_spec (argument_pairs (drop 2 args)) []) as Hp.
    destruct (parse_scores [] _) as [[r scores] m]. destruct Hp as (_ & Hp & _). destruct (Z.eqb_spec r 0) as [->|]; [|done]. injection He as <-.
    destruct (Hp eq_refl) as [Hl _]. assert (Hn : argument_pairs (drop 2 args) <> []) by (apply pairs_nonempty; cbn in Ez; zb; lia).
    cbn. destruct (argument_pairs (drop 2 args)); [done|]. by destruct scores. }
  destruct (_ && _) in He; [by injection He as <-|done].
Qed.

Section Hold.
Context (sha : list Z -> list Z) (U : list Z -> Prop).
Hypothesis collision_free : forall x y, U x -> U y -> sha x = sha y -> x = y.

(** The tables hold the store [A], whose names are in [U]. *)
Definition tables_hold (A : astore) (d : tables) : Prop := exists l, sim sha U d l /\ holds_plain A l.

Lemma hold_effect A d e :
  tables_hold A d -> store_ok A -> Forall U (effect_names e) -> (forall key, effect_key e = Some key -> fits (A !! key) e) -> e <> ENone -> storable e ->
  exists d', db_effect sha e d = Some d' /\ tables_hold (apply_effect 0 A e) d'.
Proof.
  intros (l & Hs & Hl) Ho Hu Hf Hne Hfin. destruct (effect_key e) as [key|] eqn:Ek; [|by destruct e].
  specialize (Hf key eq_refl). destruct (effect_holds e key A l Ek (Hl key) Hf Hfin) as (l' & El & Hkey).
  { destruct (A !! key) as [[v t]|] eqn:E; [|done]. exact (Ho key _ E). }
  pose proof (effect_sim sha U collision_free e Hu d l Hs) as Hsim. rewrite El in Hsim. destruct Hsim as (d' & Ed & Hs').
  exists d'. split; [done|]. exists l'. split; [done|]. intros k. destruct (decide (k = key)) as [->|Hk]; [done|].
  rewrite effect_other by congruence. eapply holds_same; [by eapply effect_local|apply Hl].
Qed.

(** A mutation for another type than the key has in the database. *)
Lemma hold_refused A d e key :
  tables_hold A d -> Forall U (effect_names e) -> effect_key e = Some key -> is_Some (A !! key) ->
  (exists pairs, e = EHset key pairs) \/ (exists members, e = EZadd key members) -> ~ fits (A !! key) e ->
  db_effect sha e d = None.
Proof.
  intros (l & Hs & Hl) Hu Hk [[v t] EA] He Hf. pose proof (effect_sim sha U collision_free e Hu d l Hs) as Hsim.
  assert (Hbad : forall code, acode v <> code -> typed_key plainly key code l = None).
  { intros code Hc. pose proof (Hl key) as H. rewrite EA in H. destruct (plain_row key _ l H) as (ver & E & _).
    unfold typed_key, andthen, doing, checking, sql_upsert_key, sql_count_key, row_of. rewrite E. cbn [kr_data kr_type].
    rewrite bool_decide_true by done. destruct (Z.eqb_spec (acode v) code); [done|]. cbn. rewrite E. cbn. rewrite bool_decide_true by done.
    cbn. by destruct (Z.eqb_spec (acode v) code). }
  rewrite EA in Hf. destruct He as [[pairs ->]|[members ->]]; cbn [db_effect] in Hsim |- *; unfold andthen in Hsim;
    (rewrite Hbad in Hsim; [done|]); destruct v; try done; by contradict Hf.
Qed.

(** A score that the database cannot hold is refused, whatever the tables hold. *)
Lemma infinite_refused e d : ~ storable e -> db_effect sha e d = None.
Proof.
  destruct e as [| | | | | |key members| |]; try (by intros []). cbn [storable db_effect]. intros Hinf. unfold andthen at 1.
  destruct (typed_key sha key 2 d) as [d1|] eqn:Et; [|done]. cbn [mbind option_bind].
  assert (Hc : sql_count_key sha key 2 d1 = 1).
  { unfold typed_key, andthen, doing, checking in Et. destruct (sql_upsert_key _ _ _ _) as [|d2]; [done|]. cbn [mbind option_bind] in Et.
    destruct (Z.eqb_spec (sql_count_key sha key 2 d2) 1); [|done]. by injection Et as <-. }
  clear Et. revert d1 Hc. induction members as [|x members IH]; intros d1 Hc; [destruct Hinf; constructor|]. cbn [all_of]. unfold andthen at 1.
  destruct (put_member sha key x d1) as [d2|] eqn:Ep; [|done]. cbn [mbind option_bind].
  unfold put_member, andthen, doing, checking, sql_upsert_member in Ep. rewrite Hc in Ep. cbn [Z.eqb Pos.eqb] in Ep.
  destruct (isinf x.1) eqn:Ex; [done|]. cbn [mbind option_bind] in Ep. destruct (_ =? 1); [|done]. injection Ep as <-. apply IH; [|done].
  intros Hall. apply Hinf. by constructor.
Qed.

Lemma store_ok_effect A e : sound e -> store_ok A -> store_ok (apply_effect 0 A e).
Proof.
  intros He Ho. assert (Hins : forall k v (t : Z), occupied v -> store_ok (<[k := (v, t)]> A)) by (intros; by apply map_Forall_insert_2).
  assert (Hdel : forall k, store_ok (delete k A)) by (intros; by apply map_Forall_delete).
  assert (Halt : forall k (t : Z), store_ok (alter (fun x => (x.1, t)) k A)).
  { intros k t k' x E. destruct (decide (k' = k)) as [->|]; [rewrite lookup_alter_eq in E|rewrite lookup_alter_ne in E by done; by eapply Ho].
    destruct (A !! k) as [y|] eqn:Ey; [|done]. injection E as <-. exact (Ho k y Ey). }
  assert (Hh : forall M pairs, pairs <> [] -> hset_all M pairs <> ∅).
  { intros M pairs Hp. destruct pairs as [|x pairs _] using rev_ind; [done|]. unfold hset_all. rewrite fold_left_app. cbn. apply insert_non_empty. }
  assert (Hz : forall z members, members <> [] -> zadd_all z members <> []).
  { intros z members Hp. destruct members as [|x members _] using rev_ind; [done|]. unfold zadd_all. rewrite fold_left_app. cbn.
    intros E. destruct (score_of_add x (fold_left zadd_one members z) x.2) as (s & _ & Es). rewrite E, decide_True in Es by done. done. }
  destruct e; cbn [apply_effect]; auto.
  - destruct (_ && _); [done|by apply Hins].
  - destruct (_ <=? 0); done.
  - destruct (A !! key) as [[[s|M|z] t]|]; auto; apply Hins; by apply Hh.
  - destruct (A !! key) as [[[s|M|z] t]|]; auto. destruct (_ =? 0); [done|]. unfold put_hash. destruct (decide _); [done|]. by apply Hins.
  - destruct (A !! key) as [[[s|M|z] t]|]; auto; apply Hins; by apply Hz.
  - destruct (A !! key) as [[[s|M|z] t]|]; auto. destruct (_ =? 0); [done|]. unfold put_zset. destruct (decide _); [done|]. by apply Hins.
Qed.

Lemma hold_log A d state log : tables_hold A d -> tables_hold A (with_log state log d).
Proof. intros (l & [S1 S2 S3 S4] & Hl). exists l. by split. Qed.

(** The changes of a writer are numbered up to its state. *)
Definition log_bounded (d : tables) (uuid : list Z) : Prop :=
  Forall (fun r => cr_uuid r = uuid -> cr_sequence r <= applied_through d uuid) (kv_change_log d).

Lemma hold_mutation A d uuid sequence args e :
  tables_hold A d -> store_ok A -> Forall U (effect_names e) -> (forall key, effect_key e = Some key -> fits (A !! key) e) -> e <> ENone ->
  (forall d', db_mutation sha uuid sequence args e d = Some d' -> tables_hold (apply_effect 0 A e) d') /\
  (storable e -> log_bounded d uuid -> applied_through d uuid < sequence ->
     exists d', db_mutation sha uuid sequence args e d = Some d' /\ log_bounded d' uuid /\ applied_through d' uuid = sequence).
Proof.
  intros Hd Ho Hu Hf Hne. destruct (decide (storable e)) as [Hfin|Hfin]; cycle 1.
  { unfold db_mutation, andthen. by rewrite infinite_refused. }
  destruct (hold_effect A d e Hd Ho Hu Hf Hne Hfin) as (d1 & E & H1).
  pose proof (effect_keeps_log sha e d d1 E) as [El Es]. unfold db_mutation, andthen. rewrite E. cbn [mbind option_bind].
  unfold doing, sql_insert_change, sql_advance_state. rewrite El, Es. split.
  - intros d'. destruct (bool_decide _); [done|]. cbn. intros [= <-]. by apply hold_log, hold_log.
  - intros _ Hb Hlt. rewrite bool_decide_false; cycle 1.
    { rewrite Exists_exists. intros (r & Hr & Eu & Eq). unfold log_bounded in Hb. rewrite Forall_forall in Hb. specialize (Hb r Hr Eu). lia. }
    cbn. eexists. split; [done|]. unfold log_bounded, applied_through in *. cbn. rewrite lookup_insert_eq. cbn. split; [|lia].
    apply Forall_app. split; [|constructor; [cbn; lia|constructor]]. eapply Forall_impl; [exact Hb|]. intros r Hr Eu. specialize (Hr Eu). lia.
Qed.

(** ** The writer *)

(** Mutations that fit the store they meet and the columns of the database. *)
Fixpoint admissible (A : astore) (es : list effect) : Prop :=
  match es with
  | [] => True
  | e :: es =>
      e <> ENone /\ Forall U (effect_names e) /\ (forall key, effect_key e = Some key -> fits (A !! key) e) /\ storable e /\
      admissible (apply_effect 0 A e) es
  end.

(** Jobs with the effects of their records, in increasing order of sequence
    numbers above [q]. *)
Inductive jobs_for (q : Z) : list (Z * AofLog.command * list (list call * mem)) -> list effect -> Prop :=
| jobs_nil : jobs_for q [] []
| jobs_cons sequence args attempts jobs e es :
    q < sequence -> record_effect args = Some e -> short_deadline args -> jobs_for sequence jobs es ->
    jobs_for q ((sequence, args, attempts) :: jobs) (e :: es).

(** The sequence number of the [n]-th job. *)
Definition reached (q : Z) (jobs : list (Z * AofLog.command * list (list call * mem))) (n : nat) : Z :=
  default q (last (take n jobs).*1.*1).

Lemma reached_cons q j jobs n : reached q (j :: jobs) (S n) = reached j.1.1 jobs n.
Proof. unfold reached. cbn [take fmap list_fmap]. rewrite last_cons. by destruct (last _). Qed.

(** C5. The database holds the store that the mutations build: when the tables
    hold a store, the jobs have records of mutations that fit it, and the names in
    use have different hashes, then after the writer worked on the jobs, whatever
    failed meanwhile, the tables hold the store after the first [n] mutations, as
    the log replays them, where [n] is told by the sequence number that the
    database keeps; these are all mutations when the writer is done, and it is
    done when each job has an attempt in which nothing fails. *)
Theorem writer_builds_store uuid q jobs es A d :
  tables_hold A d -> store_ok A -> jobs_for q jobs es -> admissible A es -> 0 <= q -> applied_through d uuid = q -> log_bounded d uuid ->
  let '(complete, d') := write_jobs sha uuid jobs d in
  exists n, tables_hold (apply_effects 0 (take n es) A) d' /\ applied_through d' uuid = reached q jobs n /\
    (complete = true -> n = length es) /\
    (Forall (fun job => ([], []) ∈ job.2) jobs -> complete = true).
Proof.
  intros Hd Ho Hj. revert A d Hd Ho. induction Hj as [q|q sequence args attempts jobs e es Hq He Hs Hj IH]; intros A d Hd Ho Ha Hpos Hat Hb.
  { exists 0%nat. by split_and!. }
  cbn [admissible write_jobs] in *. destruct Ha as (Hne & Hu & Hf & Hfin & Ha).
  pose proof (writer_once sha uuid sequence args e d attempts He Hne Hs ltac:(lia) ltac:(lia)) as Hw.
  destruct (hold_mutation A d uuid sequence args e Hd Ho Hu Hf Hne) as [Hhold Hcan].
  destruct (Hcan Hfin Hb ltac:(lia)) as (d1 & Ed1 & Hb1 & Hat1). specialize (Hhold d1 Ed1).
  destruct (write_attempts sha uuid sequence args attempts d) as [applied d2]. destruct Hw as [Hw Hlive]. rewrite Ed1 in Hw, Hlive.
  destruct applied.
  - injection Hw as <-. specialize (IH _ d1 Hhold (store_ok_effect A e (record_sound args e He) Ho) Ha ltac:(lia) Hat1 Hb1).
    destruct (write_jobs sha uuid jobs d1) as [complete d']. destruct IH as (n & H1 & H2 & H3 & H4). exists (S n). split_and!.
    + done.
    + by rewrite reached_cons.
    + intros Hc. cbn. by rewrite (H3 Hc).
    + intros Hall. apply Forall_cons in Hall as [_ Hall]. auto.
  - assert (Hno : ~ Forall (fun job => ([], []) ∈ job.2) ((sequence, args, attempts) :: jobs)).
    { intros Hall. apply Forall_cons in Hall as [Hin _]. by specialize (Hlive ltac:(by eexists) Hin). }
    destruct Hw as [->|[= <-]].
    + exists 0%nat. by split_and!.
    + exists 1%nat. split_and!; [done|done|done|done].
Qed.
End Hold.
