(* ===== verification/MysqlLoads.v ===== *)
(** What a load finds in the database: the value that the tables hold, unless its
    deadline has passed or it exceeds the limit. *)

From S2P Require Import Prelude Resp HashTable ZOrder Object Cache CacheSpec CacheProps CacheEvents Rdb RdbImage RdbProps Aof AofCodec AofLog Double CommandText CommandProps MysqlStore.
From S2P Require Import Service ServiceStore ServiceSpec ServiceCommands ServiceReplay MysqlTables MysqlSql MysqlTransactions MysqlRefine MysqlEffects MysqlBackend.

(** ** Rows *)

Lemma child_rows_names {X} (h : list Z) (m : gmap (list Z * list Z) (list Z * X)) (name : list Z -> list Z) :
  (forall n x, m !! (h, n) = Some x -> n = name x.1) -> NoDup (child_rows h m).*1.
Proof.
  intros Hn. unfold child_rows. rewrite <- list_fmap_compose. apply NoDup_fmap_2_strong; [|apply NoDup_map_to_list].
  intros [[h1 n1] x1] [[h2 n2] x2] H1 H2 E. cbn in E. apply elem_of_map_to_list in H1, H2.
  pose proof H1 as [M1 F1]%map_lookup_filter_Some. pose proof H2 as [M2 F2]%map_lookup_filter_Some. cbn in F1, F2. subst h1 h2.
  assert (n1 = n2) as -> by (rewrite (Hn _ _ M1), (Hn _ _ M2); by f_equal). congruence.
Qed.

Definition rows_size (rows : list (list Z * list Z)) : Z := foldr (fun x n => zlen x.1 + zlen x.2 + n) 0 rows.

Definition names_size (names : list (list Z)) : Z := foldr (fun k n => zlen k + n) 0 names.

Lemma rows_size_nonneg rows : 0 <= rows_size rows.
Proof. induction rows as [|x rows IH]; cbn; [lia|]. pose proof (zlen_nonneg x.1). pose proof (zlen_nonneg x.2). unfold rows_size in IH. lia. Qed.

Lemma names_size_nonneg names : 0 <= names_size names.
Proof. induction names as [|x names IH]; cbn; [lia|]. pose proof (zlen_nonneg x). unfold names_size in IH. lia. Qed.

Lemma rows_size_perm rows rows' : rows ≡ₚ rows' -> rows_size rows = rows_size rows'.
Proof. unfold rows_size. induction 1; cbn [foldr]; lia. Qed.

Lemma names_size_perm names names' : names ≡ₚ names' -> names_size names = names_size names'.
Proof. unfold names_size. induction 1; cbn [foldr]; lia. Qed.

(** With memory, the rows of a hash build the hash unless they are too many
    bytes. *)
Lemma load_hash_rows_spec rows limit loaded o M s :
  is_hash o M -> ss_mem s = [] -> 0 <= loaded -> NoDup rows.*1 -> (forall f, f ∈ rows.*1 -> M !! f = None) ->
  Z.of_nat (size M) + zlen rows < 2 ^ 59 -> Forall (fun x => zlen x.1 < 2 ^ 62 /\ zlen x.2 < 2 ^ 62) rows ->
  exists s', ss_errno s' = ss_errno s /\ ss_db s' = ss_db s /\
    if loaded + rows_size rows <=? limit
    then exists o', load_hash_rows limit rows loaded o s = (Loaded o', s') /\ is_hash o' (list_to_map rows ∪ M)
    else rows <> [] -> load_hash_rows limit rows loaded o s = (LoadTooLarge, s').
Proof.
  revert loaded o M s. induction rows as [|[f v] rows IH]; intros loaded o M s Ho Hm Hl Hn Hd Hs Hsz.
  { exists s. split_and!; [done|done|]. destruct (_ <=? _); [|done]. exists o. split; [done|]. by rewrite list_to_map_nil, (left_id_L ∅ (∪)). }
  apply Forall_cons in Hsz as [[Hf Hv] Hsz]. cbn [fmap list_fmap fst] in Hn, Hd. apply NoDup_cons in Hn as [Hnf Hn]. rewrite zlen_cons in Hs.
  pose proof (zlen_nonneg rows). pose proof (zlen_nonneg f). pose proof (zlen_nonneg v). pose proof (rows_size_nonneg rows).
  change (rows_size ((f, v) :: rows)) with (zlen f + zlen v + rows_size rows). cbn [load_hash_rows fst snd] in *.
  destruct (Z.gtb_spec (zlen f) (SIZE_MAX - zlen v)); [unfold SIZE_MAX, UINT64_MAX in *; lia|]. cbn [orb].
  destruct (Z.gtb_spec (zlen f + zlen v) limit), (Z.gtb_spec loaded (limit - (zlen f + zlen v))); cbn [orb];
    try (exists s; split_and!; [done|done|]; destruct (Z.leb_spec (loaded + (zlen f + zlen v + rows_size rows)) limit); [lia|done]).
  unfold fetch_column_blob, allocate, mbind, sql_bind. rewrite Hm. cbn -[kv_object_hash_set load_hash_rows rows_size Z.leb zlen list_to_map].
  destruct (hash_set_step o M f v Ho) as (o1 & E & Ho1); [apply Hd, elem_of_cons; by left|lia|done|done|]. rewrite E.
  cbn [w_status write_added Z.eqb negb]. set (s1 := mk_session _ _ _ _ _ _ _).
  destruct (IH (loaded + (zlen f + zlen v)) o1 (<[f := v]> M) s1 Ho1 eq_refl ltac:(lia) Hn) as (s' & E1 & E2 & Hres); [| |done|].
  - intros g Hg. rewrite lookup_insert_ne by congruence. apply Hd, elem_of_cons. by right.
  - rewrite map_size_insert_None by (apply Hd, elem_of_cons; by left). lia.
  - exists s'. split_and!; [done|done|]. rewrite <- Z.add_assoc in Hres. 
    assert (Hu : list_to_map ((f, v) :: rows) ∪ M = list_to_map rows ∪ <[f := v]> M).
    { rewrite list_to_map_cons, <- insert_union_l, <- insert_union_r; [done|]. by apply not_elem_of_list_to_map_1. }
    rewrite Hu. destruct (_ <=? limit) eqn:El; [exact Hres|]. intros _.
    destruct rows as [|r rows]; [|by apply Hres]. exfalso. cbn in El. apply Z.leb_gt in El. lia.
Qed.

Lemma zlen_elem_insert x z : zlen (elem_insert x z) = 1 + zlen z.
Proof. induction z as [|y z IH]; [done|]. cbn [elem_insert]. destruct (decide _); rewrite !zlen_cons; [lia|done]. Qed.

Lemma load_zset_rows_spec rows limit loaded o z s :
  is_zset o z -> ss_mem s = [] -> 0 <= loaded -> NoDup rows.*1 -> (forall k, k ∈ rows.*1 -> k ∉ z.*2) ->
  zlen z + zlen rows < 2 ^ 59 -> Forall (fun x => zlen x.1 < 2 ^ 62 /\ isnan x.2 = false) rows ->
  exists s', ss_errno s' = ss_errno s /\ ss_db s' = ss_db s /\
    if loaded + names_size rows.*1 <=? limit
    then exists o' z', load_zset_rows limit rows loaded o s = (Loaded o', s') /\ is_zset o' z' /\
           (forall x, x ∈ z' <-> x ∈ z \/ (x.2, x.1) ∈ rows)
    else rows <> [] -> load_zset_rows limit rows loaded o s = (LoadTooLarge, s').
Proof.
  revert loaded o z s. induction rows as [|[k score] rows IH]; intros loaded o z s Ho Hm Hl Hn Hd Hs Hsz.
  { exists s. split_and!; [done|done|]. destruct (_ <=? _); [|done]. exists o, z. split_and!; [done|done|]. intros x. rewrite elem_of_nil. tauto. }
  apply Forall_cons in Hsz as [[Hk Hnan] Hsz]. cbn [fmap list_fmap fst snd] in Hn, Hd, Hk, Hnan. apply NoDup_cons in Hn as [Hnk Hn]. rewrite zlen_cons in Hs.
  pose proof (zlen_nonneg rows). pose proof (zlen_nonneg k). pose proof (zlen_nonneg z). pose proof (names_size_nonneg rows.*1).
  cbn [fmap list_fmap fst]. change (names_size (k :: rows.*1)) with (zlen k + names_size rows.*1). cbn [load_zset_rows].
  destruct (Z.gtb_spec (zlen k) limit), (Z.gtb_spec loaded (limit - zlen k)); cbn [orb];
    try (exists s; split_and!; [done|done|]; destruct (Z.leb_spec (loaded + (zlen k + names_size rows.*1)) limit); [lia|done]).
  unfold fetch_column_blob, allocate, mbind, sql_bind. rewrite Hm. cbn -[kv_object_zset_add load_zset_rows names_size Z.leb zlen].
  destruct (zset_add_step o z score k Ho Hnan) as (o1 & E & Ho1); [apply Hd, elem_of_cons; by left|lia|done|]. rewrite E.
  cbn [w_status write_added Z.eqb negb]. set (s1 := mk_session _ _ _ _ _ _ _).
  destruct (IH (loaded + zlen k) o1 (elem_insert (score, k) z) s1 Ho1 eq_refl ltac:(lia) Hn) as (s' & E1 & E2 & Hres); [| |done|].
  - intros g Hg Hin. apply list_elem_of_fmap in Hin as (y & -> & Hy). apply elem_of_insert in Hy as [->|Hy]; [by apply Hnk|].
    apply (Hd y.2); [apply elem_of_cons; by right|]. by apply list_elem_of_fmap_2.
  - rewrite zlen_elem_insert. lia.
  - exists s'. split_and!; [done|done|]. rewrite <- Z.add_assoc in Hres. destruct (_ <=? limit) eqn:El.
    + destruct Hres as (o' & z' & Hr & Hz & Hin). exists o', z'. split_and!; [done|done|]. intros [sc n]. rewrite Hin, elem_of_insert, elem_of_cons. cbn.
      split; [intros [[[= -> ->]|?]|?]; auto|intros [?|[[= -> ->]|?]]; auto].
    + intros _. destruct rows as [|r rows]; [|by apply Hres]. exfalso. cbn in El. apply Z.leb_gt in El. lia.
Qed.

(** ** The load of an object *)

(** A value of a size that memory can have. *)
Definition modest (v : avalue) : Prop :=
  match v with
  | AString l => zlen l < 2 ^ 62
  | AHash M => Z.of_nat (size M) < 2 ^ 59 /\ map_Forall (fun f x => zlen f < 2 ^ 62 /\ zlen x < 2 ^ 62) M
  | AZset z => zlen z < 2 ^ 59 /\ NoDup z.*2 /\ Forall (fun x => zlen x.2 < 2 ^ 62) z
  end.

Definition value_size (v : avalue) : Z :=
  match v with
  | AString l => zlen l
  | AHash M => rows_size (map_to_list M)
  | AZset z => names_size z.*2
  end.

(** The value up to scores that compare equal. *)
Definition same_value (v w : avalue) : Prop :=
  match v, w with
  | AString l, AString l' => l = l'
  | AHash M, AHash M' => M = M'
  | AZset z, AZset z' => forall n, match score_of n z, score_of n z' with
                                   | Some s, Some s' => score_eq s s' = true
                                   | None, None => True
                                   | _, _ => False
                                   end
  | _, _ => False
  end.

Section Loads.
Context (sha : list Z -> list Z) (U : list Z -> Prop).
Hypothesis collision_free : forall x y, U x -> U y -> sha x = sha y -> x = y.
Context (field_order : list (list Z * list Z) -> list (list Z * list Z)) (member_order : list (list Z * Z) -> list (list Z * Z)).
Hypothesis field_order_perm : forall l, field_order l ≡ₚ l.
Hypothesis member_order_perm : forall l, member_order l ≡ₚ l.

(** The rows of the key in a child table are the rows under its name. *)
Lemma rows_sim {X} (m : gmap (list Z * list Z) (list Z * X)) a key :
  hashed (sha2 sha) (U2 U) m a -> U key -> (forall n x, a !! (key, n) = Some x -> x.1 = n) ->
  NoDup (child_rows (sha key) m).*1 /\ (forall x, x ∈ child_rows (sha key) m <-> a !! (key, x.1) = Some x).
Proof.
  intros [Ha Hb] Hk Hn.
  assert (Hm : forall n x, m !! (sha key, n) = Some x -> n = sha x.1 /\ a !! (key, x.1) = Some x).
  { intros n x E. destruct (Hb _ _ E) as ([k' n'] & [Hk' Hn'] & Ef & Ea). injection Ef as Ef ->. cbn in *.
    apply collision_free in Ef as <-; [|done|done]. by rewrite (Hn _ _ Ea) in *. }
  split.
  - apply (child_rows_names _ _ sha). intros n x E. by apply Hm.
  - intros x. rewrite elem_of_child_rows. split; [intros (n & E); by apply Hm in E as [_ ?]|].
    intros E. exists (sha x.1). by destruct (Ha _ _ E).
Qed.

Definition quiet_at (d : tables) (s : session) : Prop := ss_db s = d /\ settled s /\ quiet s.

Lemma query_quiet {T} (f : tables -> T) d s : quiet_at d s -> exists s', run_query f s = (Some (f d), s') /\ quiet_at d s'.
Proof.
  intros (Hd & Hs & Ho & Hc & Hm). unfold run_query, perform. rewrite Hc. cbn. rewrite Ho. cbn. eexists. unfold settled in *.
  rewrite Hs, Hd. split; [done|]. by split_and!.
Qed.

Lemma create_string_nil l : zlen l < 2 ^ 62 -> exists o, kv_object_create_string [] (Some l) = (Some o, []) /\ shows o (AString l).
Proof.
  intros Hl. unfold kv_object_create_string. destruct (Z.eqb_spec (zlen l) SIZE_MAX); [unfold SIZE_MAX, UINT64_MAX in *; lia|].
  destruct (Z.gtb_spec SIZEOF_KV_OBJECT (SIZE_MAX - zlen l - 1)); [unfold SIZE_MAX, UINT64_MAX, SIZEOF_KV_OBJECT in *; lia|]. by eexists.
Qed.

(** What the three loads return. *)
Definition load_returns (limit : Z) (v : avalue) (r : load_outcome) : Prop :=
  if value_size v <=? limit then exists o w, r = Loaded o /\ shows o w /\ same_value v w else r = LoadTooLarge.

Lemma load_string_finds key limit l d s :
  quiet_at d s -> kv_strings d !! sha key = Some l -> modest (AString l) ->
  load_returns limit (AString l) (load_string sha key limit s).1.
Proof.
  intros Hq E Hm. unfold load_string, mbind, sql_bind. destruct (query_quiet (fun d => kv_strings d !! sha key) d s Hq) as (s1 & -> & Hs & _ & _ & _ & Em).
  rewrite E. unfold load_returns. cbn [value_size]. destruct (Z.gtb_spec (zlen l) limit), (Z.leb_spec (zlen l) limit); try lia; [done|].
  unfold fetch_column_blob, allocate. rewrite Em. cbn [malloc negb ss_mem]. cbn in Hm.
  destruct (create_string_nil l) as (o & E2 & Ho); [done|]. cbn -[kv_object_create_string zlen]. rewrite E2. cbn. by exists o, (AString l).
Qed.

Lemma load_hash_finds key limit M d s :
  quiet_at d s -> NoDup (child_rows (sha key) (kv_hash_fields d)).*1 ->
  (forall x, x ∈ child_rows (sha key) (kv_hash_fields d) <-> M !! x.1 = Some x.2) -> modest (AHash M) -> 0 <= limit ->
  load_returns limit (AHash M) (load_hash sha field_order key limit s).1.
Proof.
  intros Hq Hn Hx [Hsz Hm] Hl. unfold load_hash, mbind, sql_bind. destruct create_hash_nil as (h & Eh).
  pose proof (create_hash_spec []) as Hh. rewrite Eh in Hh.
  unfold allocate at 1. destruct Hq as (Hd & Hs & Ho & Hc & Em). rewrite Em, Eh. set (s0 := mk_session _ _ _ _ _ _ _).
  assert (Hq0 : quiet_at d s0) by (by split_and!). set (rows := field_order (child_rows (sha key) (kv_hash_fields d))).
  destruct (query_quiet (fun d => field_order (child_rows (sha key) (kv_hash_fields d))) d s0 Hq0) as (s1 & -> & _ & _ & _ & _ & Em1). fold rows.
  assert (Hperm : rows ≡ₚ map_to_list M).
  { unfold rows. rewrite field_order_perm. apply NoDup_Permutation; [by eapply NoDup_fmap_1|apply NoDup_map_to_list|].
    intros [f v]. rewrite Hx, elem_of_map_to_list. done. }
  destruct (load_hash_rows_spec rows limit 0 h ∅ s1) as (s' & _ & _ & Hres); try done.
  - rewrite Hperm. apply NoDup_fst_map_to_list.
  - rewrite map_size_empty. unfold zlen. rewrite Hperm. rewrite length_map_to_list. lia.
  - apply Forall_forall. intros [f v] Hin. rewrite Hperm, elem_of_map_to_list in Hin. exact (Hm f v Hin).
  - unfold load_returns. cbn [value_size]. rewrite <- (rows_size_perm _ _ Hperm). rewrite Z.add_0_l in Hres. destruct (_ <=? limit) eqn:El.
    + destruct Hres as (o & -> & Hh'). exists o, (AHash M). split_and!; [done| |done]. cbn. rewrite (right_id_L ∅ (∪)) in Hh'.
      rewrite (list_to_map_proper rows (map_to_list M)), list_to_map_to_list in Hh'; [done| |done]. rewrite Hperm. apply NoDup_fst_map_to_list.
    + rewrite Hres; [done|]. intros E. rewrite E in El. cbn in El. apply Z.leb_gt in El. lia.
Qed.

Lemma load_zset_finds key limit engine z d s :
  let rows := child_rows (sha key) (kv_zset_members d) in
  quiet_at d s -> NoDup rows.*1 ->
  (forall n, match score_of n z with Some sc => exists sc', (n, sc') ∈ rows /\ score_eq sc sc' = true | None => n ∉ rows.*1 end) ->
  Forall (fun x => isnan x.2 = false) rows -> modest (AZset z) -> 0 <= limit ->
  load_returns limit (AZset z) (load_zset sha member_order key limit engine s).1.
Proof.
  cbn zeta. intros Hq Hn Hx Hnan (Hsz & Hnd & Hm) Hl. unfold load_zset, mbind, sql_bind. destruct (create_zset_nil engine) as (h & Eh).
  pose proof (create_zset_spec [] engine) as Hh. rewrite Eh in Hh. destruct Hh as [Hh _].
  unfold allocate at 1. destruct Hq as (Hd & Hs & Ho & Hc & Em). rewrite Em, Eh. set (s0 := mk_session _ _ _ _ _ _ _).
  assert (Hq0 : quiet_at d s0) by (by split_and!). set (rows := member_order (child_rows (sha key) (kv_zset_members d))).
  destruct (query_quiet (fun d => member_order (child_rows (sha key) (kv_zset_members d))) d s0 Hq0) as (s1 & -> & _ & _ & _ & _ & Em1). fold rows.
  assert (Hp : rows ≡ₚ child_rows (sha key) (kv_zset_members d)) by apply member_order_perm.
  assert (Hx' : forall n, match score_of n z with Some sc => exists sc', (n, sc') ∈ rows /\ score_eq sc sc' = true | None => n ∉ rows.*1 end).
  { intros n. specialize (Hx n). destruct (score_of n z); [destruct Hx as (sc' & Hin & ?); exists sc'; by rewrite Hp|by rewrite Hp]. }
  assert (Hnan' : Forall (fun x => isnan x.2 = false) rows) by (rewrite Forall_forall in Hnan |- *; intros x Hin; rewrite Hp in Hin; by apply Hnan).
  rewrite <- Hp in Hn. clear Hx Hnan. rename Hx' into Hx, Hnan' into Hnan. clearbody rows. clear Hp.
  assert (Hperm : rows.*1 ≡ₚ z.*2).
  { apply NoDup_Permutation; [done|done|]. intros n. specialize (Hx n). destruct (score_of n z) as [sc|] eqn:E.
    - destruct Hx as (sc' & Hin & _). split; intros _; [|by apply (list_elem_of_fmap_2 fst _ (n, sc'))].
      destruct (decide (n ∈ z.*2)) as [|Hno]; [done|]. apply score_of_none in Hno. congruence.
    - apply score_of_none in E. done. }
  destruct (load_zset_rows_spec rows limit 0 h [] s1) as (s' & _ & _ & Hres); try done.
  - intros n _. cbn. apply not_elem_of_nil.
  - assert (zlen rows = zlen z) as -> by (unfold zlen; f_equal; by rewrite <- (length_fmap fst rows), Hperm, length_fmap). change (zlen (A := zelem) []) with 0. lia.
  - apply Forall_forall. intros [n sc] Hin. rewrite Forall_forall in Hnan. split; [|by apply (Hnan _ Hin)]. rewrite Forall_forall in Hm.
    apply (list_elem_of_fmap_2 fst) in Hin. rewrite Hperm in Hin. apply list_elem_of_fmap in Hin as (y & -> & Hy). exact (Hm y Hy).
  - unfold load_returns. cbn [value_size]. rewrite <- (names_size_perm _ _ Hperm). rewrite Z.add_0_l in Hres. destruct (_ <=? limit) eqn:El.
    + destruct Hres as (o & z' & -> & Hz & Hin). exists o, (AZset z'). split_and!; [done|done|]. cbn. intros n. specialize (Hx n).
      assert (Hnd' : NoDup z'.*2) by apply (zset_sorted _ _ Hz). destruct (score_of n z) as [sc|].
      * destruct Hx as (sc' & Hin' & Heq). rewrite (score_of_some n z' sc'); [done|done|]. apply Hin. by right.
      * destruct (score_of n z') as [sc|] eqn:E; [|done]. apply Hx. assert (Hin' : n ∈ z'.*2).
        { destruct (decide (n ∈ z'.*2)) as [|Hno]; [done|]. apply score_of_none in Hno. congruence. }
        apply list_elem_of_fmap in Hin' as (y & -> & Hy). apply Hin in Hy as [Hy|Hy]; [by apply elem_of_nil in Hy|]. by apply (list_elem_of_fmap_2 fst) in Hy.
    + rewrite Hres; [done|]. intros E. rewrite E in El. cbn in El. apply Z.leb_gt in El. lia.
Qed.

(** The loads of a key that the tables hold. *)
Lemma load_value_finds A d key v t limit engine s :
  tables_hold sha U A d -> U key -> A !! key = Some (v, t) -> quiet_at d s -> modest v -> 0 <= limit ->
  map_Forall (fun _ x => isnan x.2 = false) (kv_zset_members d) ->
  load_returns limit v ((if acode v =? 0 then load_string sha key limit else
    if acode v =? 1 then load_hash sha field_order key limit else load_zset sha member_order key limit engine) s).1.
Proof.
  intros (l & Hs & Hl) Hu EA Hq Hm Hlim Hnan. specialize (Hl key). rewrite EA in Hl. destruct v as [x|M|z]; cbn [acode Z.eqb Pos.eqb].
  - apply load_string_finds with d; [done| |done]. rewrite (hashed_lookup sha U collision_free _ _ key (sim_strings _ _ _ _ Hs) Hu).
    exact (hr_string _ _ _ Hl).
  - destruct (rows_sim (kv_hash_fields d) (kv_hash_fields l) key (sim_fields _ _ _ _ Hs) Hu) as [Hn Hx].
    { intros n [f x] E. rewrite (hr_fields _ _ _ Hl) in E. cbn in E. destruct (M !! n); [|done]. by injection E as <- _. }
    apply load_hash_finds with d; [done|done| |done|done]. intros [f x]. rewrite Hx, (hr_fields _ _ _ Hl). cbn.
    destruct (M !! f); cbn; split; intros E; by simplify_eq.
  - destruct (rows_sim (kv_zset_members d) (kv_zset_members l) key (sim_members _ _ _ _ Hs) Hu) as [Hn Hx].
    { intros n [f x] E. pose proof (hr_members _ _ _ Hl n) as Hsc. rewrite E in Hsc. cbn in Hsc. destruct (score_of n z); [|done]. by destruct Hsc. }
    apply load_zset_finds with d; [done|done| | |done|done].
    + intros n. pose proof (hr_members _ _ _ Hl n) as Hsc. cbn in Hsc. destruct (score_of n z) as [sc|].
      * destruct (kv_zset_members l !! (key, n)) as [[n' sc']|] eqn:E; [|done]. destruct Hsc as [-> Heq]. exists sc'. split; [|done]. by apply Hx.
      * intros Hin. apply list_elem_of_fmap in Hin as (y & -> & Hy). apply Hx in Hy. by rewrite Hy in Hsc.
    + apply Forall_forall. intros x Hin. apply elem_of_child_rows in Hin as [n E]. exact (Hnan _ _ E).
Qed.

Lemma load_spec A d key limit engine now s :
  tables_hold sha U A d -> U key -> quiet_at d s -> 0 <= limit ->
  (forall v t, A !! key = Some (v, t) -> modest v) -> map_Forall (fun _ x => isnan x.2 = false) (kv_zset_members d) ->
  let '(status, found, _) := (load_object sha field_order member_order key limit engine now s).1 in
  match alive now A !! key with
  | None => status = MYSQL_STORE_OK /\ found = None
  | Some (v, t) =>
      if value_size v <=? limit
      then status = MYSQL_STORE_OK /\ exists o w, found = Some (o, t) /\ shows o w /\ same_value v w
      else status = MYSQL_STORE_TOO_LARGE /\ found = None
  end.
Proof.
  intros Hh Hu Hq Hlim Hm Hnan. pose proof Hh as (l & Hs & Hl). pose proof (plain_row key _ l (Hl key)) as Hr. rewrite alive_lookup.
  unfold load_object. unfold mbind at 1. unfold sql_bind at 1. destruct (query_quiet (fun d => kv_keys d !! sha key) d s Hq) as (s1 & -> & Hq1).
  rewrite (key_sim sha U collision_free d l key Hs Hu). destruct (A !! key) as [[v t]|] eqn:EA; [|by destruct Hr as [-> _]].
  destruct Hr as (ver & -> & _). specialize (Hm v t eq_refl). unfold mbind at 1. unfold sql_bind at 1. unfold fetch_column_blob, allocate.
  destruct Hq1 as (Hd1 & Hs1 & Ho1 & Hc1 & Em1). rewrite Em1. cbn [malloc negb kr_data kr_type kr_expire]. rewrite bool_decide_true by done. cbn [negb].
  set (s2 := mk_session _ _ _ _ _ _ _). assert (Hq2 : quiet_at d s2) by (by split_and!).
  cbn [mbind option_bind]. unfold deadline_column. 
  assert (Hdl : match (if t =? 0 then None else Some t) with Some deadline => deadline <=? now | None => false end = negb (outlives now (v, t))).
  { unfold outlives. cbn. destruct (Z.eqb_spec t 0); cbn; [done|]. destruct (Z.leb_spec t now), (Z.ltb_spec now t); done || lia. }
  rewrite Hdl. destruct (outlives now (v, t)); cbn [negb]; [|done].
  assert (Htype : negb ((acode v =? 0) || (acode v =? 1) || (acode v =? 2)) = false) by (by destruct v). rewrite Htype.
  pose proof (load_value_finds A d key v t limit engine s2 Hh Hu EA Hq2 Hm Hlim Hnan) as Hload.
  unfold mbind at 1. unfold sql_bind at 1.
  destruct ((if acode v =? 0 then load_string sha key limit else
    if acode v =? 1 then load_hash sha field_order key limit else load_zset sha member_order key limit engine) s2) as [r s3].
  unfold load_returns in Hload. cbn [fst] in Hload. destruct (value_size v <=? limit).
  - destruct Hload as (o & w & -> & Ho & Hw). cbn. split; [done|]. exists o, w. split_and!; [|done|done]. by destruct (Z.eqb_spec t 0) as [->|].
  - by subst r.
Qed.

(** C8. A load gives back what the database holds: the value under the key with
    its deadline when the deadline has not passed and the value is within the
    limit, nothing when the key is absent or its deadline has passed, and an error
    when the value exceeds the limit; whatever the order in which the server
    returns the rows. *)
Theorem load_finds_value A d key limit engine now s :
  tables_hold sha U A d -> U key -> quiet_at d s -> 0 <= limit ->
  (forall v t, A !! key = Some (v, t) -> modest v) -> map_Forall (fun _ x => isnan x.2 = false) (kv_zset_members d) ->
  let '(status, found, _) := (load_object sha field_order member_order key limit engine now s).1 in
  match alive now A !! key with
  | None => status = MYSQL_STORE_OK /\ found = None
  | Some (v, t) =>
      if value_size v <=? limit
      then status = MYSQL_STORE_OK /\ exists o w, found = Some (o, t) /\ shows o w /\ same_value v w
      else status = MYSQL_STORE_TOO_LARGE /\ found = None
  end.
Proof. apply load_spec. Qed.
End Loads.
