(* ===== verification/Recovery.v ===== *)
(** The start-up of the MySQL backend in [src/app/main.c]: the scan of the log
    for the markers of mutations, the mutations that the database lacks, the
    first filling of an empty database, and the keys of the snapshot that the
    database knows better. *)

From S2P Require Import Prelude Resp HashTable ZOrder Object Cache CacheSpec CacheProps CacheEvents Aof AofCodec AofLog AofProps Double CommandText CommandProps MysqlStore.
From S2P Require Import Service ServiceStore ServiceSpec ServiceCommands ServiceProps ServiceReplay MysqlTables MysqlSql MysqlTransactions MysqlRefine MysqlEffects MysqlBackend.

(** ** Markers *)

Definition decode_hex_digit (value : Z) : Z :=
  if (48 <=? value) && (value <=? 57) then value - 48 else
  if (97 <=? value) && (value <=? 102) then value - 97 + 10 else
  if (65 <=? value) && (value <=? 70) then value - 65 + 10 else -1.

(** The first loop of [parse_mysql_marker], over [n] bytes of the UUID. *)
Fixpoint decode_uuid (n : nat) (text : list Z) : option (list Z) :=
  match n with
  | O => Some []
  | S n =>
      let high := decode_hex_digit (byte_at text 0) in
      let low := decode_hex_digit (byte_at text 1) in
      if (high <? 0) || (low <? 0) then None
      else cons (Z.lor (Z.shiftl high 4) low) <$> decode_uuid n (drop 2 text)
  end.

Inductive marker_result : Type := NotMarker | BadMarker | Marker (uuid : list Z) (sequence : Z).

Definition parse_mysql_marker (arguments : list (list Z)) : marker_result :=
  if negb (zlen arguments =? 2) || negb (argument_equals (arg arguments 0) (lit "PING")) then NotMarker else
  let text := arg arguments 1 in
  if (zlen text <? 43) || negb (bool_decide (take 9 text = lit "KVMYSQL1:")) || negb (byte_at text 41 =? 58)
  then NotMarker else
  match decode_uuid 16 (drop 9 text), magnitude_loop UINT64_MAX (drop 42 text) 0 with
  | Some uuid, Some value => if value =? 0 then BadMarker else Marker uuid value
  | _, _ => BadMarker
  end.

Definition mysql_aof_mutation (arguments : list (list Z)) : bool :=
  if zlen arguments <? 2 then false else
  existsb (fun name => argument_equals (arg arguments 0) name)
    [lit "SET"; lit "DEL"; lit "HSET"; lit "HDEL"; lit "ZADD"; lit "ZREM"; lit "PEXPIREAT"; lit "PERSIST"].

(** ** The scan *)

(** [previous] with [previous_count]: a mutation has at least two arguments. *)
Record mysql_aof_scan : Type := mk_scan {
  sc_previous : list (list Z); sc_uuid : option (list Z); sc_maximum : Z; sc_database : Z;
  sc_recovered : Z; sc_recover : bool
}.

Definition new_scan : mysql_aof_scan := mk_scan [] None 0 0 0 false.

Definition forget_previous (s : mysql_aof_scan) : mysql_aof_scan :=
  mk_scan [] (sc_uuid s) (sc_maximum s) (sc_database s) (sc_recovered s) (sc_recover s).

Section Scan.
Context (sha : list Z -> list Z).

(** The callback of [aof_replay]; [writer] is the UUID of the store, whose
    connection is the session. *)
Definition scan_mysql_aof (writer : list Z) (context : mysql_aof_scan * session) (arguments : list (list Z))
  : Z * (mysql_aof_scan * session) :=
  let '(scan, s) := context in
  match parse_mysql_marker arguments with
  | BadMarker => (-1, (scan, s))
  | Marker uuid sequence =>
      if bool_decide (sc_previous scan = []) ||
         match sc_uuid scan with Some known => negb (bool_decide (known = uuid)) | None => false end ||
         (sequence <=? sc_maximum scan) then (-1, (scan, s)) else
      let scan1 := mk_scan (sc_previous scan) (Some uuid) sequence (sc_database scan) (sc_recovered scan) (sc_recover scan) in
      if sc_recover scan1 && (sequence >? sc_database scan1) then
        let '(ok, s) := mysql_store_recover_mutation sha writer sequence (sc_previous scan1) s in
        if negb ok then (-1, (scan1, s)) else
        (0, (mk_scan [] (Some uuid) sequence sequence (wrap64 (sc_recovered scan1 + 1)) (sc_recover scan1), s))
      else (0, (forget_previous scan1, s))
  | NotMarker =>
      let scan := forget_previous scan in
      if mysql_aof_mutation arguments then
        if zlen arguments >? RESP_MAX_ARGUMENTS then (-1, (scan, s)) else
        (0, (mk_scan arguments (sc_uuid scan) (sc_maximum scan) (sc_database scan) (sc_recovered scan) (sc_recover scan), s))
      else (0, (scan, s))
  end.

(** ** The first filling and the keys that the database changed *)

Definition bootstrap_mysql_object (context : session) (x : list Z * cache_entry) : Z * session :=
  let '(ok, s) := mysql_store_bootstrap_object sha x.1 (e_object x.2) (e_expire x.2) context in
  (if ok then 0 else -1, s).

Definition invalidate_snapshot_key (clock : Z) (c : cache) (key : list Z) : Z * cache :=
  let '(r, c) := cache_delete clock c (Some key) in (if r <? 0 then -1 else 0, c).

(** ** The start *)

(** The part of [main] between the replay of the log and the attachment of the
    store: the UUID of the writer, the sequence number to start with and the
    cache.  [random] is what [fill_random_bytes] gives; the store was opened and
    its schema and permissions were checked. *)
Definition start_mysql (env : replay_env) (file : list Z) (random : option (list Z)) (clock : Z) (c : cache)
  : sql (option (list Z * Z * cache)) := fun s =>
  let '(scanned, file, (scan, s), _) := aof_replay env file (scan_mysql_aof []) (new_scan, s) in
  if negb (scanned =? 0) then (None, s) else
  match (match sc_uuid scan with Some uuid => Some uuid | None => random end) with
  | None => (None, s)
  | Some chosen =>
      let '(started, s) := mysql_store_get_startup_state s in
      match started with
      | None => (None, s)
      | Some (state, active, sequence) =>
          if match active, sc_uuid scan with Some a, Some u => negb (bool_decide (a = u)) | _, _ => false end then (None, s) else
          let writer := match active, sc_uuid scan with Some a, None => a | _, _ => chosen end in
          let known := match active with Some a => Some (default a (sc_uuid scan)) | None => sc_uuid scan end in
          let start (database : Z) := Z.max database (sc_maximum scan) in
          match state with
          | BOOTSTRAP_READY =>
              if negb (is_Some_bool active) then (None, s) else
              if sequence <? sc_maximum scan then
                let again := mk_scan [] known 0 sequence (sc_recovered scan) true in
                let '(recovered, _, (scan2, s), _) := aof_replay env file (scan_mysql_aof writer) (again, s) in
                if negb (recovered =? 0) then (None, s) else
                (Some (writer, Z.max (sc_database scan2) (sc_maximum scan2), c), s)
              else if sequence >? sc_maximum scan then
                let '((ok, c), s) := mysql_store_visit_changes_after writer (sc_maximum scan) (invalidate_snapshot_key clock) c s in
                if negb ok then (None, s) else (Some (writer, start sequence, c), s)
              else (Some (writer, start sequence, c), s)
          | _ =>
              let '(begun, s) := mysql_store_bootstrap_begin writer s in
              if negb begun then (None, s) else
              let '(visited, s) := cache_visit c bootstrap_mysql_object s in
              if negb (visited =? 0) then (None, s) else
              let '(finished, s) := mysql_store_bootstrap_finish writer (sc_maximum scan) s in
              if negb finished then (None, s) else (Some (writer, start (sc_maximum scan), c), s)
          end
      end
  end.
End Scan.

(** ** The marker of a mutation *)

Lemma hex_pair b : byte_ok b ->
  decode_hex_digit (hex_digit (Z.shiftr b 4)) = Z.shiftr b 4 /\ decode_hex_digit (hex_digit (Z.land b 15)) = Z.land b 15 /\
  Z.lor (Z.shiftl (Z.shiftr b 4) 4) (Z.land b 15) = b /\ 0 <= Z.shiftr b 4 /\ 0 <= Z.land b 15.
Proof.
  intros Hb. assert (Hall : forallb (fun n => let b := Z.of_nat n in
    (decode_hex_digit (hex_digit (Z.shiftr b 4)) =? Z.shiftr b 4) && (decode_hex_digit (hex_digit (Z.land b 15)) =? Z.land b 15) &&
    (Z.lor (Z.shiftl (Z.shiftr b 4) 4) (Z.land b 15) =? b) && (0 <=? Z.shiftr b 4) && (0 <=? Z.land b 15)) (seq 0 256) = true) by (vm_compute; reflexivity).
  rewrite forallb_forall in Hall. unfold byte_ok in Hb. specialize (Hall (Z.to_nat b)). cbv zeta in Hall. rewrite Z2Nat.id in Hall by lia.
  assert (Hin : In (Z.to_nat b) (seq 0 256)) by (apply in_seq; lia). apply Hall in Hin. clear Hall. zb. done.
Qed.

Lemma decode_uuid_text uuid rest : Forall byte_ok uuid -> decode_uuid (length uuid) (checkpoint_token_text uuid ++ rest) = Some uuid.
Proof.
  induction uuid as [|b uuid IH]; intros Hb; [done|]. apply Forall_cons in Hb as [Hb Hu]. destruct (hex_pair b Hb) as (E1 & E2 & E3 & H1 & H2).
  unfold checkpoint_token_text. rewrite bind_cons. cbn [length decode_uuid app]. change 0x0f with 15.
  change (byte_at (hex_digit (Z.shiftr b 4) :: hex_digit (Z.land b 15) :: (uuid ≫= fun b => [hex_digit (Z.shiftr b 4); hex_digit (Z.land b 15)]) ++ rest) 0) with (hex_digit (Z.shiftr b 4)).
  change (byte_at (hex_digit (Z.shiftr b 4) :: hex_digit (Z.land b 15) :: (uuid ≫= fun b => [hex_digit (Z.shiftr b 4); hex_digit (Z.land b 15)]) ++ rest) 1) with (hex_digit (Z.land b 15)).
  rewrite E1, E2. destruct (Z.ltb_spec (Z.shiftr b 4) 0), (Z.ltb_spec (Z.land b 15) 0); try lia. cbn [orb drop]. rewrite drop_0. unfold checkpoint_token_text in IH.
  change 0x0f with 15 in IH. rewrite (IH Hu). cbn. by rewrite E3.
Qed.

Lemma parse_marker uuid q : zlen uuid = 16 -> Forall byte_ok uuid -> 0 < q <= UINT64_MAX -> parse_mysql_marker (mysql_marker uuid q) = Marker uuid q.
Proof.
  intros Hl Hb Hq. unfold parse_mysql_marker, mysql_marker.
  set (text := lit "KVMYSQL1:" ++ checkpoint_token_text uuid ++ lit ":" ++ decimal q).
  change (zlen [lit "PING"; text] =? 2) with true. change (arg [lit "PING"; text] 0) with (lit "PING"). change (arg [lit "PING"; text] 1) with text.
  change (argument_equals (lit "PING") (lit "PING")) with true. cbn [negb orb].
  assert (Hu : u64_ok q) by (unfold u64_ok, UINT64_MAX in *; lia). destruct (decimal_spec q Hu) as (Hd & Hlen & Ha).
  pose proof (zlen_token_text uuid) as Ht.
  assert (Hz : zlen text = 42 + zlen (decimal q)).
  { unfold text. rewrite !zlen_app, Ht, Hl. change (zlen (lit "KVMYSQL1:")) with 9. change (zlen (lit ":")) with 1. lia. }
  destruct (Z.ltb_spec (zlen text) 43); [lia|]. cbn [orb].
  assert (H9 : take 9 text = lit "KVMYSQL1:") by done. assert (D9 : drop 9 text = checkpoint_token_text uuid ++ lit ":" ++ decimal q) by done.
  assert (Hlu : length uuid = 16%nat) by (unfold zlen in Hl; lia). assert (Hlt : length (checkpoint_token_text uuid) = 32%nat) by (unfold zlen in *; lia).
  assert (D41 : drop 41 text = lit ":" ++ decimal q).
  { change 41%nat with (9 + 32)%nat. rewrite <- drop_drop, D9. rewrite <- Hlt. apply drop_app_length. }
  assert (D42 : drop 42 text = decimal q) by (change 42%nat with (41 + 1)%nat; by rewrite <- drop_drop, D41).
  rewrite H9, bool_decide_true by done. cbn [negb orb].
  assert (B41 : byte_at text 41 = 58).
  { unfold byte_at. rewrite <- (take_drop 41 text), D41. rewrite app_nth2; rewrite length_take; unfold zlen in *; [|lia].
    replace (Z.to_nat 41 - Nat.min 41 (length text))%nat with 0%nat by lia. done. }
  rewrite B41. cbn [Z.eqb Pos.eqb negb]. rewrite D9, D42. rewrite <- Hlu, decode_uuid_text by done.
  assert (magnitude_loop UINT64_MAX (decimal q) 0 = Some q) as ->.
  { apply magnitude_loop_spec; [done|lia|]. split_and!; [done|done|right; lia]. }
  by destruct (Z.eqb_spec q 0); [lia|].
Qed.

(** ** Logs with marked mutations *)

(** The record of a mutation stands immediately before its marker; the sequence
    numbers grow from [maximum] on.  The other records (of evictions, of
    expirations, of a time without the database, of checkpoints) have no marker. *)
Inductive outbox_log (uuid : list Z) : Z -> list AofLog.command -> list (Z * AofLog.command) -> Prop :=
| outbox_nil maximum : outbox_log uuid maximum [] []
| outbox_other maximum c cmds jobs :
    parse_mysql_marker c = NotMarker -> zlen c <= RESP_MAX_ARGUMENTS -> outbox_log uuid maximum cmds jobs ->
    outbox_log uuid maximum (c :: cmds) jobs
| outbox_mutation maximum r q cmds jobs :
    mysql_aof_mutation r = true -> zlen r <= RESP_MAX_ARGUMENTS -> maximum < q <= UINT64_MAX -> outbox_log uuid q cmds jobs ->
    outbox_log uuid maximum (r :: mysql_marker uuid q :: cmds) ((q, r) :: jobs).

Definition last_sequence (maximum : Z) (jobs : list (Z * AofLog.command)) : Z := default maximum (last jobs.*1).

Lemma last_sequence_cons maximum q r jobs : last_sequence maximum ((q, r) :: jobs) = last_sequence q jobs.
Proof. unfold last_sequence. cbn [fmap list_fmap fst]. rewrite last_cons. by destruct (last _). Qed.

(** A mutation is not a marker. *)
Lemma mutation_not_marker r : mysql_aof_mutation r = true -> parse_mysql_marker r = NotMarker /\ 2 <= zlen r.
Proof.
  unfold mysql_aof_mutation. destruct (Z.ltb_spec (zlen r) 2); [done|]. rewrite existsb_exists. intros (name & Hin & Hn). split; [|done].
  unfold parse_mysql_marker. rewrite (other_name _ name (lit "PING") Hn); [by rewrite orb_true_r|]. apply list_elem_of_In in Hin. intros ->. by vm_compute in Hin; set_solver.
Qed.

Lemma last_sequence_ge uuid maximum cmds jobs : outbox_log uuid maximum cmds jobs -> maximum <= last_sequence maximum jobs.
Proof. induction 1; [unfold last_sequence; cbn; lia|done|]. rewrite last_sequence_cons. lia. Qed.

Lemma sequences_below uuid maximum cmds jobs job : outbox_log uuid maximum cmds jobs -> job ∈ jobs -> maximum < job.1 <= last_sequence maximum jobs.
Proof.
  induction 1 as [|maximum c cmds jobs Hc Hn H IH|maximum r q cmds jobs Hm Hn Hq H IH]; intros Hj; [by apply elem_of_nil in Hj|by apply IH|].
  rewrite last_sequence_cons. apply last_sequence_ge in H. apply elem_of_cons in Hj as [->|Hj]; [cbn; lia|]. specialize (IH Hj). lia.
Qed.

Section Recover.
Context (sha : list Z -> list Z).

(** The first pass only reads. *)
Lemma scan_reads uuid writer maximum cmds jobs p u db rc s :
  zlen uuid = 16 -> Forall byte_ok uuid -> outbox_log uuid maximum cmds jobs -> 0 <= maximum -> (u = None \/ u = Some uuid) ->
  exists p', run_commands (scan_mysql_aof sha writer) (mk_scan p u maximum db rc false, s) cmds
    = Some (mk_scan p' (if decide (jobs = []) then u else Some uuid) (last_sequence maximum jobs) db rc false, s).
Proof.
  intros Hl Hb H. revert p u. induction H as [maximum|maximum c cmds jobs Hc Hn H IH|maximum r q cmds jobs Hm Hn Hq H IH]; intros p u Hpos Hu.
  - exists p. rewrite decide_True by done. done.
  - cbn [run_commands]. unfold scan_mysql_aof at 1. rewrite Hc. cbn [forget_previous sc_uuid sc_maximum sc_database sc_recovered sc_recover].
    destruct (mysql_aof_mutation c); [|by apply IH]. destruct (Z.gtb_spec (zlen c) RESP_MAX_ARGUMENTS); [lia|]. by apply IH.
  - cbn [run_commands]. destruct (mutation_not_marker r Hm) as [Hnm H2]. unfold scan_mysql_aof at 1. rewrite Hnm, Hm.
    destruct (Z.gtb_spec (zlen r) RESP_MAX_ARGUMENTS); [lia|]. cbn [Z.eqb forget_previous sc_uuid sc_maximum sc_database sc_recovered sc_recover].
    unfold scan_mysql_aof at 1. rewrite parse_marker by (done || lia). cbn [sc_previous sc_uuid sc_maximum sc_recover].
    rewrite bool_decide_false by (intros ->; rewrite zlen_nil in H2; lia). cbn [orb].
    assert (match u with Some known => negb (bool_decide (known = uuid)) | None => false end = false) as -> by (destruct Hu as [-> | ->]; [done|by rewrite bool_decide_true]).
    destruct (Z.leb_spec q maximum); [lia|]. cbn [orb andb Z.eqb].
    destruct (IH [] (Some uuid) ltac:(lia) ltac:(by right)) as (p' & E). exists p'. unfold forget_previous. cbn [sc_uuid sc_maximum sc_database sc_recovered sc_recover].
    rewrite E, (decide_False (P := _ :: _ = [])) by done. rewrite last_sequence_cons. by destruct (decide (jobs = [])).
Qed.

Context (U : list Z -> Prop).
Hypothesis collision_free : forall x y, U x -> U y -> sha x = sha y -> x = y.

(** A mutation of the log that the database can be asked for. *)
Definition proper (job : Z * AofLog.command) : Prop :=
  short_deadline job.2 /\ exists e, record_effect job.2 = Some e /\ e <> ENone.

(** The effects of the mutations after [w]. *)
Definition effects_after (w : Z) (jobs : list (Z * AofLog.command)) : list effect :=
  omap (fun job => if job.1 >? w then record_effect job.2 else None) jobs.

Lemma effects_after_nil w jobs : Forall proper jobs -> effects_after w jobs = [] <-> Forall (fun job => job.1 <= w) jobs.
Proof.
  unfold effects_after. induction 1 as [|[q r] jobs [_ (e & He & _)] Hp IH]; [done|]. cbn [omap list_omap fst snd] in *. rewrite Forall_cons, <- IH. cbn.
  destruct (Z.gtb_spec q w); [rewrite He; split; [done|lia]|]. split; [intros ->; split; [lia|done]|tauto].
Qed.

(** The state of the connection between two mutations. *)
Record in_step (uuid : list Z) (w : Z) (A : astore) (s : session) : Prop := {
  is_settled : settled s;
  is_quiet : quiet s;
  is_holding : tables_hold sha U A (ss_db s);
  is_store : store_ok A;
  is_applied : applied_through (ss_db s) uuid = w;
  is_bounded : log_bounded (ss_db s) uuid
}.

Lemma recover_step uuid w A s q args e :
  in_step uuid w A s -> 0 <= w < q -> record_effect args = Some e -> e <> ENone -> short_deadline args ->
  Forall U (effect_names e) -> (forall key, effect_key e = Some key -> fits (A !! key) e) -> storable e ->
  exists s', mysql_store_recover_mutation sha uuid q args s = (true, s') /\ in_step uuid q (apply_effect 0 A e) s'.
Proof.
  intros [Hs Hq Hh Ho Ha Hb] Hw He Hne Hsd Hu Hf Hfin. unfold mysql_store_recover_mutation.
  pose proof (effect_arguments args e He Hne). destruct (Z.eqb_spec q 0); [lia|]. destruct (Z.ltb_spec (zlen args) 2); [lia|]. cbn [orb].
  unfold mbind, sql_bind. pose proof (is_applied_spec uuid q s Hs) as Hi. destruct (mutation_is_applied uuid q s) as [state s1].
  destruct Hi as (Hs1 & Hd1 & Hq1 & [[_ ?]|Hst]); [done|]. assert (state = 0) as ->.
  { rewrite Hst. unfold applied_through in Ha. destruct (kv_writer_state (ss_db s) !! uuid) as [x|]; [|done]. cbn in Ha. destruct (Z.geb_spec x q); [lia|done]. }
  cbn [Z.ltb Z.eqb]. change (0 <? 0) with false. cbn iota.
  pose proof (apply_mutation_atomic sha uuid q args e He Hne Hsd s1 Hs1) as Hat. rewrite Hd1 in Hat.
  destruct (hold_mutation sha U collision_free A (ss_db s) uuid q args e Hh Ho Hu Hf Hne) as [Hhold Hcan].
  destruct (Hcan Hfin Hb ltac:(lia)) as (d' & Ed & Hb' & Ha'). destruct (apply_mutation sha uuid q args s1) as [ok s2].
  destruct Hat as (Hs2 & Ht & _ & Hq2). destruct (Hq2 (Hq1 Hq)) as [Hq2' Hno]. destruct ok; [|by destruct (Hno eq_refl); congruence].
  specialize (Ht eq_refl). rewrite Ed in Ht. injection Ht as ->. exists s2. split; [done|].
  split; [done|done|by apply Hhold| |done|done]. by apply store_ok_effect; [eapply record_sound|].
Qed.

(** The second pass applies what the database lacks. *)
Lemma scan_recovers uuid w w' maximum cmds jobs p u rc A s :
  zlen uuid = 16 -> Forall byte_ok uuid -> outbox_log uuid maximum cmds jobs -> 0 <= maximum -> (u = None \/ u = Some uuid) ->
  0 <= w -> (w' = w \/ w < w' <= maximum) -> Forall proper jobs -> admissible U A (effects_after w jobs) -> in_step uuid w' A s ->
  exists p' u' rc' s', run_commands (scan_mysql_aof sha uuid) (mk_scan p u maximum w' rc true, s) cmds
    = Some (mk_scan p' u' (last_sequence maximum jobs) (Z.max w' (if decide (effects_after w jobs = []) then w' else last_sequence maximum jobs)) rc' true, s') /\
    in_step uuid (Z.max w' (if decide (effects_after w jobs = []) then w' else last_sequence maximum jobs)) (apply_effects 0 (effects_after w jobs) A) s'.
Proof.
  intros Hl Hb H. revert p u rc w' A s. induction H as [maximum|maximum c cmds jobs Hc Hn H IH|maximum r q cmds jobs Hm Hn Hq H IH];
    intros p u rc w' A s Hpos Hu Hw Hw' Hp Had Hin.
  - exists p, u, rc, s. cbn [effects_after omap list_omap]. rewrite decide_True, Z.max_id by done. done.
  - cbn [run_commands]. unfold scan_mysql_aof at 1. rewrite Hc. unfold forget_previous. cbn [sc_uuid sc_maximum sc_database sc_recovered sc_recover].
    destruct (mysql_aof_mutation c); [|by apply IH]. destruct (Z.gtb_spec (zlen c) RESP_MAX_ARGUMENTS); [lia|]. by apply IH.
  - cbn [run_commands]. destruct (mutation_not_marker r Hm) as [Hnm H2]. unfold scan_mysql_aof at 1. rewrite Hnm, Hm.
    destruct (Z.gtb_spec (zlen r) RESP_MAX_ARGUMENTS); [lia|]. unfold forget_previous. cbn [Z.eqb sc_uuid sc_maximum sc_database sc_recovered sc_recover].
    unfold scan_mysql_aof at 1. rewrite parse_marker by (done || lia). cbn [sc_previous sc_uuid sc_maximum sc_recover sc_database sc_recovered].
    rewrite bool_decide_false by (intros ->; rewrite zlen_nil in H2; lia). cbn [orb].
    assert (match u with Some known => negb (bool_decide (known = uuid)) | None => false end = false) as -> by (destruct Hu as [-> | ->]; [done|by rewrite bool_decide_true]).
    destruct (Z.leb_spec q maximum); [lia|]. cbn [orb andb]. apply Forall_cons in Hp as [[Hsd (e & He & Hne)] Hp]. rewrite last_sequence_cons. cbn [fst snd] in *.
    pose proof (last_sequence_ge _ _ _ _ H) as Hlast.
    destruct (Z.gtb_spec q w') as [Hgt|Hle].
    + assert (Hqw : q > w) by lia. unfold effects_after in Had |- *. cbn [omap list_omap fst snd] in Had |- *.
      destruct (Z.gtb_spec q w); [|lia]. rewrite He in Had |- *. destruct Had as (_ & Hun & Hf & Hfin & Had).
      assert (Hw0 : 0 <= w' < q) by lia.
      destruct (recover_step uuid w' A s q r e Hin Hw0 He Hne Hsd Hun Hf Hfin) as (s1 & -> & Hin1). cbn [negb Z.eqb].
      destruct (IH [] (Some uuid) (wrap64 (rc + 1)) q (apply_effect 0 A e) s1 ltac:(lia) ltac:(by right) Hw ltac:(right; lia) Hp Had Hin1) as (p' & u' & rc' & s' & E & Hin').
      exists p', u', rc', s'. fold (effects_after w jobs) in *. rewrite E. rewrite (decide_False (P := _ :: _ = [])) by done.
      assert (Hmax : Z.max q (if decide (effects_after w jobs = []) then q else last_sequence q jobs) = Z.max w' (last_sequence q jobs)).
      { destruct (decide (effects_after w jobs = [])) as [E0|]; [|lia]. assert (last_sequence q jobs = q); [|lia].
        apply effects_after_nil in E0; [|done]. destruct jobs as [|j jobs]; [done|]. apply Forall_cons in E0 as [E0 _].
        pose proof (sequences_below _ _ _ _ j H ltac:(set_solver)). lia. }
      rewrite Hmax in *. done.
    + assert (w' = w) as -> by lia. assert (Hskip : effects_after w ((q, r) :: jobs) = effects_after w jobs).
      { unfold effects_after. cbn [omap list_omap fst snd]. by destruct (Z.gtb_spec q w); [lia|]. }
      rewrite Hskip in *. cbn [Z.eqb]. unfold forget_previous. cbn [sc_uuid sc_maximum sc_database sc_recovered sc_recover].
      apply (IH [] (Some uuid) rc w A s); try done; [lia|by right|by left].
Qed.
End Recover.

Lemma upper_hex_pair b : byte_ok b ->
  uuid_digit (byte_at (lit "0123456789ABCDEF") (Z.shiftr b 4)) = Z.shiftr b 4 /\ uuid_digit (byte_at (lit "0123456789ABCDEF") (Z.land b 15)) = Z.land b 15 /\
  Z.lor (Z.shiftl (Z.shiftr b 4) 4) (Z.land b 15) = b /\ Z.shiftr b 4 <= 15 /\ Z.land b 15 <= 15.
Proof.
  intros Hb. assert (Hall : forallb (fun n => let b := Z.of_nat n in
    (uuid_digit (byte_at (lit "0123456789ABCDEF") (Z.shiftr b 4)) =? Z.shiftr b 4) && (uuid_digit (byte_at (lit "0123456789ABCDEF") (Z.land b 15)) =? Z.land b 15) &&
    (Z.lor (Z.shiftl (Z.shiftr b 4) 4) (Z.land b 15) =? b) && (Z.shiftr b 4 <=? 15) && (Z.land b 15 <=? 15)) (seq 0 256) = true) by (vm_compute; reflexivity).
  rewrite forallb_forall in Hall. unfold byte_ok in Hb. specialize (Hall (Z.to_nat b)). cbv zeta in Hall. rewrite Z2Nat.id in Hall by lia.
  assert (Hin : In (Z.to_nat b) (seq 0 256)) by (apply in_seq; lia). apply Hall in Hin. clear Hall. zb. done.
Qed.

Lemma decode_hex_text uuid : zlen uuid = 16 -> Forall byte_ok uuid -> decode_uuid_hex (sql_hex uuid) = Some uuid.
Proof.
  intros Hl Hb. unfold decode_uuid_hex. assert (zlen (sql_hex uuid) = 2 * zlen uuid) as ->.
  { unfold sql_hex. clear. induction uuid as [|b uuid IH]; [done|]. rewrite bind_cons, zlen_app, IH, !zlen_cons, zlen_nil. lia. }
  rewrite Hl. change (2 * 16 =? 32) with true. cbn [negb]. clear Hl. induction Hb as [|b uuid Hb _ IH]; [done|].
  destruct (upper_hex_pair b Hb) as (E1 & E2 & E3 & H1 & H2). unfold sql_hex in *. rewrite bind_cons. cbn [app decode_uuid_loop].
  rewrite E1, E2, IH. destruct (Z.gtb_spec (Z.shiftr b 4) 15), (Z.gtb_spec (Z.land b 15) 15); try lia. cbn. by rewrite E3.
Qed.

Section Start.
Context (sha : list Z -> list Z) (U : list Z -> Prop).
Hypothesis collision_free : forall x y, U x -> U y -> sha x = sha y -> x = y.

Lemma startup_state_spec s state uuid :
  quiet s -> settled s -> zlen uuid = 16 -> Forall byte_ok uuid -> kv_bootstrap_state (ss_db s) = state -> kv_active_writer (ss_db s) = Some uuid ->
  exists s', mysql_store_get_startup_state s = (Some (state, Some uuid, applied_through (ss_db s) uuid), s') /\
    quiet s' /\ settled s' /\ ss_db s' = ss_db s.
Proof.
  intros Hq Hs Hl Hb Est Eac. unfold mysql_store_get_startup_state, read_applied_sequence.
  assert (Hquery : forall {T} (f : tables -> T) s1, quiet s1 -> settled s1 -> exists s2, run_query f s1 = (Some (f (ss_db s1)), s2) /\ quiet s2 /\ settled s2 /\ ss_db s2 = ss_db s1).
  { intros T f s1 (Ho & Hc & Hm) Hs1. unfold run_query, perform. rewrite Hc. cbn. rewrite Ho. cbn. unfold settled in *. rewrite Hs1.
    eexists. by split_and!. }
  unfold mbind, sql_bind. destruct (Hquery _ (fun d => (kv_bootstrap_state d, sql_hex <$> kv_active_writer d)) s Hq Hs) as (s1 & -> & Hq1 & Hs1 & Hd1).
  rewrite Est, Eac. cbn [fmap option_fmap option_map].
  destruct (sql_hex uuid) as [|x t] eqn:Ex.
  { pose proof (decode_hex_text uuid Hl Hb) as Hdec. rewrite Ex in Hdec. done. }
  rewrite <- Ex, decode_hex_text by done. unfold read_applied_sequence, mbind, sql_bind.
  destruct (Hquery _ (fun d => kv_writer_state d !! uuid) s1 Hq1 Hs1) as (s2 & -> & Hq2 & Hs2 & Hd2).
  exists s2. rewrite Hd2, Hd1. split_and!; done.
Qed.

End Start.
