(* ===== verification/MysqlClaims.v ===== *)
(** Examples for the theorems on the MySQL backend, and what the writer does with
    a key whose row in the database has expired. *)

From S2P Require Import Prelude Resp HashTable ZOrder Object Cache CacheSpec CacheProps CacheEvents Rdb RdbImage RdbProps Aof AofCodec AofLog AofProps Double CommandText CommandProps MysqlStore.
From S2P Require Import Service ServiceStore ServiceSpec ServiceCommands ServiceProps ServiceReplay MysqlTables MysqlSql MysqlTransactions MysqlRefine MysqlEffects MysqlBackend MysqlLoads Recovery.

(** ** Expired rows *)

Section Expired.
Context (sha : list Z -> list Z) (U : list Z -> Prop).
Hypothesis collision_free : forall x y, U x -> U y -> sha x = sha y -> x = y.
Context (field_order : list (list Z * list Z) -> list (list Z * list Z)) (member_order : list (list Z * Z) -> list (list Z * Z)).
Hypothesis field_order_perm : forall l, field_order l ≡ₚ l.
Hypothesis member_order_perm : forall l, member_order l ≡ₚ l.

(** C37. A key that expired in the database blocks the writer: nothing removes its
    row, a load finds nothing under it, so a command for another type is accepted;
    but the mutation of that command is refused by the database in every attempt,
    and the writer, which works on the mutations in their order, never gets past
    it. *)
Theorem expired_row_blocks_writer A d key v t now args e uuid sequence limit engine s attempts :
  tables_hold sha U A d -> U key -> A !! key = Some (v, t) -> modest v -> t <> 0 -> t <= now ->
  record_effect args = Some e -> short_deadline args -> Forall U (effect_names e) ->
  (exists pairs, e = EHset key pairs) \/ (exists members, e = EZadd key members) -> ~ fits (Some (v, t)) e ->
  0 < sequence -> applied_through d uuid < sequence -> quiet_at d s -> 0 <= limit ->
  map_Forall (fun _ x => isnan x.2 = false) (kv_zset_members d) ->
  (load_object sha field_order member_order key limit engine now s).1.1 = (MYSQL_STORE_OK, None) /\
  write_attempts sha uuid sequence args attempts d = (false, d).
Proof.
  intros Hd Hu EA Hm Ht Hn He Hs Hnames Hkind Hf Hq Hlt Hquiet Hlim Hnan. split.
  - pose proof (load_spec sha U collision_free field_order member_order field_order_perm member_order_perm A d key limit engine now s Hd Hu Hquiet Hlim) as Hl.
    assert (Hdead : alive now A !! key = None).
    { rewrite alive_lookup, EA. cbn. unfold outlives. cbn. by destruct (Z.eqb_spec t 0), (Z.ltb_spec now t); try lia. }
    rewrite Hdead in Hl. destruct (load_object _ _ _ _ _ _ _ _) as [[[status found] number] s']. cbn in *.
    destruct Hl as [-> ->]; [|done|done]. intros v' t' E'. rewrite EA in E'. by injection E' as <- _.
  - assert (Hne : e <> ENone) by (destruct Hkind as [[? ->]|[? ->]]; done).
    pose proof (writer_once sha uuid sequence args e d attempts He Hne Hs Hq Hlt) as Hw.
    assert (Hkey : effect_key e = Some key) by (destruct Hkind as [[? ->]|[? ->]]; done).
    assert (Hno : db_mutation sha uuid sequence args e d = None).
    { unfold db_mutation, andthen. rewrite (hold_refused sha U collision_free A d e key Hd Hnames Hkey); [done|by rewrite EA|done|by rewrite EA]. }
    rewrite Hno in Hw. destruct (write_attempts _ _ _ _ _ _) as [[] d']; destruct Hw as [Hw _]; [done|]. by destruct Hw as [->|].
Qed.

(** The value after HSET or ZADD on a value of its type. *)
Definition written (v : avalue) (e : effect) : avalue :=
  match v, e with
  | AHash M, EHset _ pairs => AHash (hset_all M pairs)
  | AZset l, EZadd _ members => AZset (zadd_all l members)
  | _, _ => v
  end.

(** C38. A key that expired in the database hides what is written to it: HSET or
    ZADD on a hash or sorted set whose row has expired adds its fields or members
    to the old ones and keeps the old deadline, so that the mutation is applied
    and a load still finds nothing. *)
Theorem expired_row_hides_write A d key v t now args e uuid sequence limit engine s d' :
  tables_hold sha U A d -> store_ok A -> A !! key = Some (v, t) -> t <> 0 -> t <= now ->
  record_effect args = Some e -> Forall U (effect_names e) ->
  (exists pairs, e = EHset key pairs) \/ (exists members, e = EZadd key members) -> fits (Some (v, t)) e -> modest (written v e) ->
  db_mutation sha uuid sequence args e d = Some d' -> quiet_at d' s -> 0 <= limit ->
  map_Forall (fun _ x => isnan x.2 = false) (kv_zset_members d') ->
  tables_hold sha U (<[key := (written v e, t)]> A) d' /\
  (load_object sha field_order member_order key limit engine now s).1.1 = (MYSQL_STORE_OK, None).
Proof.
  intros Hd Ho EA Ht Hn He Hnames Hkind Hfit Hm Hmut Hquiet Hlim Hnan.
  assert (Hkey : effect_key e = Some key /\ e <> ENone) by (destruct Hkind as [[? ->]|[? ->]]; done). destruct Hkey as [Hkey Hne].
  destruct (hold_mutation sha U collision_free A d uuid sequence args e Hd Ho Hnames) as [Hhold _]; [intros k Hk; rewrite Hkey in Hk; injection Hk as <-; by rewrite EA|done|].
  specialize (Hhold d' Hmut). assert (Hw : apply_effect 0 A e = <[key := (written v e, t)]> A).
  { destruct Hkind as [[pairs ->]|[members ->]]; cbn [apply_effect]; rewrite EA; by destruct v. }
  rewrite Hw in Hhold. split; [done|].
  assert (Hu : U key) by (destruct Hkind as [[pairs ->]|[members ->]]; by apply Forall_cons in Hnames as [? _]).
  pose proof (load_spec sha U collision_free field_order member_order field_order_perm member_order_perm _ d' key limit engine now s Hhold Hu Hquiet Hlim) as Hl.
  assert (Hdead : alive now (<[key := (written v e, t)]> A) !! key = None).
  { rewrite alive_lookup, lookup_insert_eq. cbn. unfold outlives. cbn. by destruct (Z.eqb_spec t 0), (Z.ltb_spec now t); try lia. }
  rewrite Hdead in Hl. destruct (load_object _ _ _ _ _ _ _ _) as [[[status found] number] s']. cbn in *.
  destruct Hl as [-> ->]; [|done|done]. intros v' t' E'. rewrite lookup_insert_eq in E'. by injection E' as <- _.
Qed.

End Expired.

(** ** Infinite scores *)

(** C40. An infinite score blocks the writer.  The service takes a score that is
    not a NaN; its mutation with an infinite one is refused by the database in
    every attempt, whatever the tables hold and whatever else happens, and the
    writer, which works on the mutations in their order, never gets past it. *)
Theorem infinite_score_blocks_writer sha d args key members uuid sequence attempts jobs :
  record_effect args = Some (EZadd key members) -> Exists (fun x => isinf x.1 = true) members -> short_deadline args ->
  0 < sequence -> applied_through d uuid < sequence ->
  write_attempts sha uuid sequence args attempts d = (false, d) /\
  write_jobs sha uuid ((sequence, args, attempts) :: jobs) d = (false, d).
Proof.
  intros He Hinf Hs Hq Hlt. pose proof (writer_once sha uuid sequence args _ d attempts He ltac:(done) Hs Hq Hlt) as Hw.
  assert (Hno : db_mutation sha uuid sequence args (EZadd key members) d = None).
  { unfold db_mutation, andthen. rewrite infinite_refused; [done|]. cbn [storable]. intros Hall. apply Exists_exists in Hinf as (x & Hx & Ex).
    rewrite Forall_forall in Hall. rewrite (Hall x Hx) in Ex. done. }
  assert (Hat : write_attempts sha uuid sequence args attempts d = (false, d)).
  { rewrite Hno in Hw. destruct (write_attempts _ _ _ _ _ _) as [[] d']; destruct Hw as [Hw _]; [done|]. by destruct Hw as [->|]. }
  split; [done|]. cbn [write_jobs]. by rewrite Hat.
Qed.

(** ** Examples *)

Lemma hold_empty sha U : tables_hold sha U ∅ empty_tables.
Proof.
  exists empty_tables. split; [split; apply hashed_empty|]. intros k. rewrite lookup_empty.
  split; cbn; [by rewrite lookup_empty|by rewrite lookup_empty|intros f; by rewrite !lookup_empty|intros n; by rewrite lookup_empty].
Qed.

Definition any_name (_ : list Z) : Prop := True.

Lemma plainly_free : forall x y : list Z, any_name x -> any_name y -> plainly x = plainly y -> x = y.
Proof. by intros x y _ _ E. Qed.

Definition sample_uuid : list Z := Z.of_nat <$> seq 1 16.

Definition set_args : AofLog.command := [lit "SET"; lit "k"; lit "v"; lit "PXAT"; lit "1000"].

Definition hset_args : AofLog.command := [lit "HSET"; lit "h"; lit "f"; lit "v"].

(** The connection is lost after the server has committed the transaction. *)
Definition lost_commit : list call := [Done; Done; Done; Done; Done; Done; Done; LostAfter 2013].

Definition sample_attempts : list (list call * mem) := [([Refused 1205], []); (lost_commit, []); ([], [])].

Definition set_effect : effect := ESet (lit "k") (lit "v") 1000.

Definition hset_effect : effect := EHset (lit "h") [(lit "f", lit "v")].

Lemma set_args_effect : record_effect set_args = Some set_effect.
Proof. by vm_compute. Qed.

Lemma hset_args_effect : record_effect hset_args = Some hset_effect.
Proof. by vm_compute. Qed.

Lemma set_args_short : short_deadline set_args.
Proof. by split; vm_compute. Qed.

Lemma hset_args_short : short_deadline hset_args.
Proof. by split; vm_compute. Qed.

Lemma writer_applies_once_witness :
  let '(applied, d') := write_attempts plainly sample_uuid 1 set_args sample_attempts empty_tables in
  (if applied then db_mutation plainly sample_uuid 1 set_args set_effect empty_tables = Some d'
   else d' = empty_tables \/ db_mutation plainly sample_uuid 1 set_args set_effect empty_tables = Some d') /\
  (is_Some (db_mutation plainly sample_uuid 1 set_args set_effect empty_tables) -> ([], []) ∈ sample_attempts -> applied = true).
Proof.
  apply (writer_applies_once plainly sample_uuid 1 set_args set_effect empty_tables sample_attempts);
    [apply set_args_effect|done|apply set_args_short|lia|by vm_compute].
Defined.

Definition sample_jobs : list (Z * AofLog.command * list (list call * mem)) := [(1, set_args, sample_attempts); (2, hset_args, [([], [])])].

Lemma sample_admissible : admissible any_name ∅ [set_effect; hset_effect].
Proof. cbn [admissible]. split_and!; try done; try (intros key [= <-]; by vm_compute); by apply Forall_true. Qed.

Lemma sample_jobs_for : jobs_for 0 sample_jobs [set_effect; hset_effect].
Proof.
  apply jobs_cons; [lia|apply set_args_effect|apply set_args_short|].
  apply jobs_cons; [lia|apply hset_args_effect|apply hset_args_short|constructor].
Qed.

Lemma writer_builds_store_witness :
  let '(complete, d') := write_jobs plainly sample_uuid sample_jobs empty_tables in
  exists n, tables_hold plainly any_name (apply_effects 0 (take n [set_effect; hset_effect]) ∅) d' /\
    applied_through d' sample_uuid = reached 0 sample_jobs n /\
    (complete = true -> n = length [set_effect; hset_effect]) /\
    (Forall (fun job => ([], []) ∈ job.2) sample_jobs -> complete = true).
Proof.
  apply (writer_builds_store plainly any_name plainly_free sample_uuid 0 sample_jobs [set_effect; hset_effect] ∅ empty_tables);
    [apply hold_empty|done|apply sample_jobs_for|apply sample_admissible|lia|done|constructor].
Defined.

(** The database after the two mutations. *)
Definition sample_db : tables := (write_jobs plainly sample_uuid sample_jobs empty_tables).2.

Definition sample_store : astore := apply_effects 0 [set_effect; hset_effect] ∅.

Definition first_db : tables := (write_jobs plainly sample_uuid (take 1 sample_jobs) empty_tables).2.

Lemma first_mutation : db_mutation plainly sample_uuid 1 set_args set_effect empty_tables = Some first_db.
Proof. vm_compute. reflexivity. Qed.

Lemma second_mutation : db_mutation plainly sample_uuid 2 hset_args hset_effect first_db = Some sample_db.
Proof. vm_compute. reflexivity. Qed.

Lemma sample_store_ok : store_ok sample_store.
Proof.
  unfold sample_store. cbn [apply_effects fold_left]. apply store_ok_effect; [done|]. apply store_ok_effect; [by vm_compute|done].
Qed.

Lemma sample_hold : tables_hold plainly any_name sample_store sample_db.
Proof.
  destruct sample_admissible as (_ & U1 & F1 & _ & _ & U2 & F2 & _).
  destruct (hold_mutation plainly any_name plainly_free ∅ empty_tables sample_uuid 1 set_args set_effect (hold_empty _ _)) as [H1 _]; try done.
  destruct (hold_mutation plainly any_name plainly_free (apply_effect 0 ∅ set_effect) first_db sample_uuid 2 hset_args hset_effect (H1 first_db first_mutation)) as [H2 _]; try done.
  - apply store_ok_effect; [by vm_compute|done].
  - exact (H2 sample_db second_mutation).
Qed.

Lemma sample_quiet : quiet_at sample_db (connected sample_db [] []).
Proof. by split_and!. Qed.

Lemma sample_set : sample_store !! lit "k" = Some (AString (lit "v"), 1000).
Proof. by vm_compute. Qed.

Lemma sample_hash : sample_store !! lit "h" = Some (AHash {[lit "f" := lit "v"]}, 0).
Proof. by vm_compute. Qed.

Lemma sample_numbers : map_Forall (fun _ x => isnan x.2 = false) (kv_zset_members sample_db).
Proof. intros k x E. exfalso. revert E. assert (kv_zset_members sample_db = ∅) as -> by (by vm_compute). by rewrite lookup_empty. Qed.

Lemma load_finds_value_witness :
  let '(status, found, _) := (load_object plainly (fun l => l) (fun l => l) (lit "h") 1024 KV_ZSET_SKIPLIST 2000 (connected sample_db [] [])).1 in
  match alive 2000 sample_store !! lit "h" with
  | None => status = MYSQL_STORE_OK /\ found = None
  | Some (v, t) =>
      if value_size v <=? 1024
      then status = MYSQL_STORE_OK /\ exists o w, found = Some (o, t) /\ shows o w /\ same_value v w
      else status = MYSQL_STORE_TOO_LARGE /\ found = None
  end.
Proof.
  apply (load_finds_value plainly any_name plainly_free (fun l => l) (fun l => l) (fun l => reflexivity l) (fun l => reflexivity l)
    sample_store sample_db (lit "h") 1024 KV_ZSET_SKIPLIST 2000 (connected sample_db [] [])); [apply sample_hold|done|apply sample_quiet|lia| |apply sample_numbers].
  intros v t E. rewrite sample_hash in E. injection E as <- <-. split; [by vm_compute|]. intros f x Ex. apply lookup_singleton_Some in Ex as [<- <-]. by split; vm_compute.
Defined.

(** HSET on the key whose string has expired. *)
Definition stale_args : AofLog.command := [lit "HSET"; lit "k"; lit "f"; lit "v"].

Definition stale_effect : effect := EHset (lit "k") [(lit "f", lit "v")].

Lemma expired_row_blocks_writer_witness :
  (load_object plainly (fun l => l) (fun l => l) (lit "k") 1024 KV_ZSET_SKIPLIST 2000 (connected sample_db [] [])).1.1 = (MYSQL_STORE_OK, None) /\
  write_attempts plainly sample_uuid 3 stale_args [([], []); ([Lost 2013], []); ([], [])] sample_db = (false, sample_db).
Proof.
  apply (expired_row_blocks_writer plainly any_name plainly_free (fun l => l) (fun l => l) (fun l => reflexivity l) (fun l => reflexivity l)
    sample_store sample_db (lit "k") (AString (lit "v")) 1000 2000 stale_args stale_effect sample_uuid 3 1024 KV_ZSET_SKIPLIST);
    [apply sample_hold|done|apply sample_set|by vm_compute|done|done|by vm_compute|by split; vm_compute|by apply Forall_true|left; by eexists|
     by vm_compute|done|by vm_compute|apply sample_quiet|done|apply sample_numbers].
Defined.

(** A hash with a deadline in the database. *)
Definition deadline_effect : effect := EExpire (lit "h") 1000.

Definition deadline_args : AofLog.command := [lit "PEXPIREAT"; lit "h"; lit "1000"].

Definition expired_db : tables := default empty_tables (db_mutation plainly sample_uuid 3 deadline_args deadline_effect sample_db).

Definition hidden_db : tables := default empty_tables (db_mutation plainly sample_uuid 4 hset_args hset_effect expired_db).

Lemma third_mutation : db_mutation plainly sample_uuid 3 deadline_args deadline_effect sample_db = Some expired_db.
Proof. vm_compute. reflexivity. Qed.

Lemma fourth_mutation : db_mutation plainly sample_uuid 4 hset_args hset_effect expired_db = Some hidden_db.
Proof. vm_compute. reflexivity. Qed.

Lemma expired_hold : tables_hold plainly any_name (apply_effect 0 sample_store deadline_effect) expired_db.
Proof.
  assert (Hf : forall key, effect_key deadline_effect = Some key -> fits (sample_store !! key) deadline_effect) by (intros key [= <-]; by vm_compute).
  assert (Hu : Forall any_name (effect_names deadline_effect)) by (by apply Forall_true).
  destruct (hold_mutation plainly any_name plainly_free sample_store sample_db sample_uuid 3 deadline_args deadline_effect sample_hold sample_store_ok Hu Hf) as [H _]; [done|].
  exact (H expired_db third_mutation).
Qed.

Lemma expired_row_hides_write_witness :
  tables_hold plainly any_name (<[lit "h" := (AHash (hset_all {[lit "f" := lit "v"]} [(lit "f", lit "v")]), 1000)]> (apply_effect 0 sample_store deadline_effect)) hidden_db /\
  (load_object plainly (fun l => l) (fun l => l) (lit "h") 1024 KV_ZSET_SKIPLIST 2000 (connected hidden_db [] [])).1.1 = (MYSQL_STORE_OK, None).
Proof.
  apply (expired_row_hides_write plainly any_name plainly_free (fun l => l) (fun l => l) (fun l => reflexivity l) (fun l => reflexivity l)
    (apply_effect 0 sample_store deadline_effect) expired_db (lit "h") (AHash {[lit "f" := lit "v"]}) 1000 2000 hset_args hset_effect sample_uuid 4 1024 KV_ZSET_SKIPLIST);
    [apply expired_hold|apply store_ok_effect; [by vm_compute|apply sample_store_ok]|by vm_compute|done|done|apply hset_args_effect|by apply Forall_true|
     left; by eexists|done| |apply fourth_mutation|by split_and!|done|].
  - split; [by vm_compute|]. intros f x Ex. assert (hset_all {[lit "f" := lit "v"]} [(lit "f", lit "v")] = {[lit "f" := lit "v"]}) as E by (by vm_compute).
    rewrite E in Ex. apply lookup_singleton_Some in Ex as [<- <-]. by split; vm_compute.
  - intros k x E. exfalso. revert E. assert (kv_zset_members hidden_db = ∅) as -> by (by vm_compute). by rewrite lookup_empty.
Defined.

(** The service stores the score, the database does not. *)
Definition infinite_args : AofLog.command := [lit "ZADD"; lit "z"; lit "inf"; lit "m"].

Lemma infinite_score_blocks_writer_witness :
  (zadd_answer ∅ infinite_args).1 = REPLY_INTEGER 1 /\
  write_attempts plainly sample_uuid 3 infinite_args [([], []); ([], [])] sample_db = (false, sample_db) /\
  write_jobs plainly sample_uuid [(3, infinite_args, [([], []); ([], [])]); (4, hset_args, [([], [])])] sample_db = (false, sample_db).
Proof.
  split; [vm_compute; reflexivity|].
  apply (infinite_score_blocks_writer plainly sample_db infinite_args (lit "z") [(INFINITY_BITS, lit "m")]);
    [vm_compute; reflexivity|apply Exists_cons; left; vm_compute; reflexivity|split; vm_compute; reflexivity|lia|vm_compute; reflexivity].
Defined.

(** ** Recovery *)

(** A log with an unmarked record, whose second mutation the database lacks. *)
Definition sample_log : list AofLog.command :=
  [set_args; mysql_marker sample_uuid 1; [lit "DEL"; lit "k"]; hset_args; mysql_marker sample_uuid 2].

Definition sample_outbox : list (Z * AofLog.command) := [(1, set_args); (2, hset_args)].

Lemma sample_outbox_log : outbox_log sample_uuid 0 sample_log sample_outbox.
Proof.
  apply outbox_mutation; [by vm_compute|by vm_compute|by vm_compute|]. apply outbox_other; [by vm_compute|by vm_compute|].
  apply outbox_mutation; [by vm_compute|by vm_compute|by vm_compute|]. constructor.
Qed.

Definition ready_db : tables := with_meta BOOTSTRAP_READY (Some sample_uuid) first_db.

Lemma ready_in_step : in_step plainly any_name sample_uuid 1 (apply_effect 0 ∅ set_effect) (connected ready_db [] []).
Proof.
  destruct sample_admissible as (_ & U1 & F1 & _).
  destruct (hold_mutation plainly any_name plainly_free ∅ empty_tables sample_uuid 1 set_args set_effect (hold_empty _ _)) as [H1 _]; try done.
  destruct (H1 first_db first_mutation) as (l & [S1 S2 S3 S4] & Hl). split; [done|by split_and!|by exists l|apply store_ok_effect; [by vm_compute|done]|by vm_compute|].
  unfold log_bounded. assert (kv_change_log (ss_db (connected ready_db [] [])) = [mk_change_row sample_uuid 1 (lit "k") (lit "k") 83]) as -> by (by vm_compute).
  constructor; [by vm_compute|constructor].
Qed.

