(* ===== verification/LegacyTree.v ===== *)
(** The red-black tree engine of the text protocol ([src/kvstore_rbtree.c]).

    As in [ZRbTree], [T->nil] is the empty tree, and a pointer to a node is its
    location: the subtree at the node with the frames of its ancestors, nearest
    first.  The tree of the sorted sets keeps sizes and moves nodes; this one
    keeps values, finds nodes by their keys, and moves the key and the value of
    the successor into the node that is deleted. *)

From S2P Require Import Prelude HashTable ZOrder.

(** ** Nodes and trees *)

Inductive node_color : Type := RED | BLACK.

#[export] Instance node_color_eq_dec : EqDecision node_color.
Proof. solve_decision. Defined.

(** [key] with [key_length]; [value] with its NUL and [value_length]. *)
Record rbtree_node : Type := mk_tnode { t_color : node_color; t_key : list Z; t_value : legacy_value }.

Inductive ltree : Type := Nil | Bin (left_ : ltree) (n : rbtree_node) (right_ : ltree).

Definition tcolor (t : ltree) : node_color := match t with Nil => BLACK | Bin _ n _ => t_color n end.

Definition recolor (c : node_color) (n : rbtree_node) : rbtree_node := mk_tnode c (t_key n) (t_value n).

Definition dye (c : node_color) (t : ltree) : ltree :=
  match t with Nil => Nil | Bin l n r => Bin l (recolor c n) r end.

Inductive branch : Type := OnLeft | OnRight.

Record tframe : Type := mk_tframe { tf_branch : branch; tf_node : rbtree_node; tf_other : ltree }.

Definition fill (t : ltree) (f : tframe) : ltree :=
  match tf_branch f with
  | OnLeft => Bin t (tf_node f) (tf_other f)
  | OnRight => Bin (tf_other f) (tf_node f) t
  end.

Fixpoint whole (t : ltree) (p : list tframe) : ltree :=
  match p with [] => t | f :: p => whole (fill t f) p end.

Definition dye_frame (c : node_color) (f : tframe) : tframe :=
  mk_tframe (tf_branch f) (recolor c (tf_node f)) (tf_other f).

(** A signed [int] of 32 bits.  Its overflow is not defined in C; the model wraps
    it, and the theorems keep the count below [INT_MAX]. *)
Definition to_int (z : Z) : Z := (z + 2 ^ 31) mod 2 ^ 32 - 2 ^ 31.

(** [nil] is null after [kvstore_rbtree_destory]. *)
Record rbtree : Type := mk_rbtree { rbt_root : ltree; rbt_nil : bool; rbt_count : Z }.

(** ** Rotations and descents *)

Definition rbtree_left_rotate (t : ltree) : ltree :=
  match t with Bin a x (Bin b y c) => Bin (Bin a x b) y c | _ => t end.

Definition rbtree_right_rotate (t : ltree) : ltree :=
  match t with Bin (Bin a x b) y c => Bin a x (Bin b y c) | _ => t end.

Arguments rbtree_left_rotate : simpl never.
Arguments rbtree_right_rotate : simpl never.
Arguments dye : simpl never.

Fixpoint rbtree_mini (t : ltree) (p : list tframe) : ltree * list tframe :=
  match t with
  | Bin (Bin _ _ _ as l) n r => rbtree_mini l (mk_tframe OnLeft n r :: p)
  | _ => (t, p)
  end.

Fixpoint rbtree_search_bytes (key : list Z) (t : ltree) (p : list tframe) : option (ltree * list tframe) :=
  match t with
  | Nil => None
  | Bin l n r =>
      if compare_bytes key (t_key n) <? 0 then rbtree_search_bytes key l (mk_tframe OnLeft n r :: p) else
      if compare_bytes key (t_key n) >? 0 then rbtree_search_bytes key r (mk_tframe OnRight n l :: p) else
      Some (t, p)
  end.

(** ** Insertion *)

(** The loop of [rbtree_insert]: the place of the new node, [None] for an
    existing key. *)
Fixpoint insert_place (key : list Z) (t : ltree) (p : list tframe) : option (list tframe) :=
  match t with
  | Nil => Some p
  | Bin l n r =>
      if compare_bytes key (t_key n) <? 0 then insert_place key l (mk_tframe OnLeft n r :: p) else
      if compare_bytes key (t_key n) >? 0 then insert_place key r (mk_tframe OnRight n l :: p) else
      None
  end.

(** With a red parent the grandparent exists, because the root is black. *)
Fixpoint rbtree_insert_fixup (t : ltree) (p : list tframe) : ltree :=
  match p with
  | parent :: grand :: rest =>
      if decide (t_color (tf_node parent) = RED) then
        let y := tf_other grand in
        match tf_branch grand with
        | OnLeft =>
            if decide (tcolor y = RED) then
              rbtree_insert_fixup
                (fill (fill t (dye_frame BLACK parent)) (mk_tframe OnLeft (recolor RED (tf_node grand)) (dye BLACK y))) rest
            else
              let z := match tf_branch parent with
                       | OnRight => rbtree_left_rotate (fill t parent)
                       | OnLeft => fill t parent
                       end in
              dye BLACK (whole (rbtree_right_rotate (fill (dye BLACK z) (dye_frame RED grand))) rest)
        | OnRight =>
            if decide (tcolor y = RED) then
              rbtree_insert_fixup
                (fill (fill t (dye_frame BLACK parent)) (mk_tframe OnRight (recolor RED (tf_node grand)) (dye BLACK y))) rest
            else
              let z := match tf_branch parent with
                       | OnLeft => rbtree_right_rotate (fill t parent)
                       | OnRight => fill t parent
                       end in
              dye BLACK (whole (rbtree_left_rotate (fill (dye BLACK z) (dye_frame RED grand))) rest)
        end
      else dye BLACK (whole t p)
  | _ => dye BLACK (whole t p)
  end.

Definition rbtree_insert (T : rbtree) (key : list Z) (value : legacy_value) : Z * rbtree :=
  match insert_place key (rbt_root T) [] with
  | None => (1, T)
  | Some p => (0, mk_rbtree (rbtree_insert_fixup (Bin Nil (mk_tnode RED key value) Nil) p) (rbt_nil T) (rbt_count T))
  end.

(** ** Deletion *)

Definition tleft (t : ltree) : ltree := match t with Bin l _ _ => l | Nil => Nil end.

Definition tright (t : ltree) : ltree := match t with Bin _ _ r => r | Nil => Nil end.

(** One iteration of [rbtree_delete_fixup]: the loop has ended with the whole
    tree, or it goes on at a location. *)
Inductive fixup_next : Type := Ended (t : ltree) | Continue (t : ltree) (p : list tframe).

(** The iteration below a black sibling [w]: [x] is the left child of [parent]. *)
Definition fix_left (x : ltree) (parent : rbtree_node) (w : ltree) (rest : list tframe) : fixup_next :=
  if decide (tcolor (tleft w) = BLACK /\ tcolor (tright w) = BLACK) then Continue (Bin x parent (dye RED w)) rest else
  let w :=
    if decide (tcolor (tright w) = BLACK) then
      match w with
      | Bin l n r => rbtree_right_rotate (Bin (dye BLACK l) (recolor RED n) r)
      | Nil => Nil
      end
    else w in
  let w := match w with Bin l n r => Bin l (recolor (t_color parent) n) (dye BLACK r) | Nil => Nil end in
  Ended (dye BLACK (whole (rbtree_left_rotate (Bin x (recolor BLACK parent) w)) rest)).

Definition fix_right (x : ltree) (parent : rbtree_node) (w : ltree) (rest : list tframe) : fixup_next :=
  if decide (tcolor (tleft w) = BLACK /\ tcolor (tright w) = BLACK) then Continue (Bin (dye RED w) parent x) rest else
  let w :=
    if decide (tcolor (tleft w) = BLACK) then
      match w with
      | Bin l n r => rbtree_left_rotate (Bin l (recolor RED n) (dye BLACK r))
      | Nil => Nil
      end
    else w in
  let w := match w with Bin l n r => Bin (dye BLACK l) (recolor (t_color parent) n) r | Nil => Nil end in
  Ended (dye BLACK (whole (rbtree_right_rotate (Bin w (recolor BLACK parent) x)) rest)).

Definition fix_step (x : ltree) (f : tframe) (rest : list tframe) : fixup_next :=
  match tf_branch f, tf_other f with
  | OnLeft, Bin l n r =>
      if decide (t_color n = RED) then
        match rbtree_left_rotate (Bin x (recolor RED (tf_node f)) (Bin l (recolor BLACK n) r)) with
        | Bin (Bin x parent w) above other => fix_left x parent w (mk_tframe OnLeft above other :: rest)
        | t => Ended (whole t rest)
        end
      else fix_left x (tf_node f) (tf_other f) rest
  | OnLeft, Nil => fix_left x (tf_node f) Nil rest
  | OnRight, Bin l n r =>
      if decide (t_color n = RED) then
        match rbtree_right_rotate (Bin (Bin l (recolor BLACK n) r) (recolor RED (tf_node f)) x) with
        | Bin other above (Bin w parent x) => fix_right x parent w (mk_tframe OnRight above other :: rest)
        | t => Ended (whole t rest)
        end
      else fix_right x (tf_node f) (tf_other f) rest
  | OnRight, Nil => fix_right x (tf_node f) Nil rest
  end.

Fixpoint rbtree_delete_fixup (fuel : nat) (x : ltree) (p : list tframe) : ltree :=
  match fuel, p with
  | S fuel, f :: rest =>
      if decide (tcolor x = BLACK) then
        match fix_step x f rest with
        | Ended t => t
        | Continue x p => rbtree_delete_fixup fuel x p
        end
      else whole (dye BLACK x) p
  | _, _ => whole (dye BLACK x) p
  end.

(** The end of [rbtree_delete]: [x] takes the place of [y], whose color was [c]. *)
Definition splice_out (c : node_color) (x : ltree) (p : list tframe) : ltree :=
  if decide (c = BLACK) then rbtree_delete_fixup (S (length p)) x p else whole x p.

(** The child of [y] that takes its place. *)
Definition only_child (y : ltree) : ltree :=
  match tleft y with Nil => tright y | l => l end.

(** At the location of [z]: the tree afterwards and the node [y] that is freed,
    with the key and the value of [z]. *)
Definition rbtree_delete (z : rbtree_node) (l r : ltree) (p : list tframe) : option rbtree_node * ltree :=
  match l, r with
  | Bin _ _ _, Bin _ _ _ =>
      match rbtree_mini r [] with
      | (Bin _ y _ as at_, mp) =>
          (Some (mk_tnode (t_color y) (t_key z) (t_value z)),
           splice_out (t_color y) (only_child at_)
             (mp ++ mk_tframe OnRight (mk_tnode (t_color z) (t_key y) (t_value y)) l :: p))
      | (Nil, _) => (None, whole (Bin l z r) p)
      end
  | _, _ => (Some z, splice_out (t_color z) (only_child (Bin l z r)) p)
  end.

(** ** The interface *)

Definition kvstore_rbtree_create (m : mem) : Z * option rbtree * mem :=
  let '(ok, m) := malloc m in
  if negb ok then (-1, None, m) else
  let '(ok, m) := malloc m in
  if negb ok then (-1, None, m) else (0, Some (mk_rbtree Nil true 0), m).

(** The loop of [kvstore_rbtree_destory] deletes the minimum until the tree is
    empty; the nodes that were freed. *)
Fixpoint destroy_nodes (fuel : nat) (t : ltree) : list rbtree_node * ltree :=
  match fuel, t with
  | S fuel, Bin _ _ _ =>
      match rbtree_mini t [] with
      | (Bin l n r, p) =>
          let '(freed, t) := rbtree_delete n l r p in
          let '(nodes, t) := destroy_nodes fuel t in (option_list freed ++ nodes, t)
      | (Nil, _) => ([], t)
      end
  | _, _ => ([], t)
  end.

Fixpoint tsize (t : ltree) : nat := match t with Nil => 0 | Bin l _ r => tsize l + S (tsize r) end.

Definition kvstore_rbtree_destory (T : rbtree) : list rbtree_node * rbtree :=
  if negb (rbt_nil T) then ([], T) else
  let '(nodes, _) := destroy_nodes (tsize (rbt_root T)) (rbt_root T) in (nodes, mk_rbtree Nil false 0).

(** [copy_bytes] with the length. *)
Definition copy_value (m : mem) (value : list Z) : option legacy_value * mem :=
  let '(copy, m) := copy_bytes m (Some value) in ((fun d => mk_legacy d (zlen value)) <$> copy, m).

Definition count_node (T : rbtree) : rbtree := mk_rbtree (rbt_root T) (rbt_nil T) (to_int (rbt_count T + 1)).

Definition kvs_rbtree_set (m : mem) (T : rbtree) (key value : option (list Z)) : Z * rbtree * mem :=
  match rbt_nil T, key, value with
  | true, Some key, Some value =>
      let '(ok, m) := malloc m in
      if negb ok then (-1, T, m) else
      let '(k, m) := copy_bytes m (Some key) in
      if negb (is_Some_bool k) then (-1, T, m) else
      match copy_value m value with
      | (None, m) => (-1, T, m)
      | (Some v, m) =>
          let '(insert_result, T) := rbtree_insert T key v in
          if negb (insert_result =? 0) then (insert_result, T, m) else (0, count_node T, m)
      end
  | _, _, _ => (-1, T, m)
  end.

Definition kvs_rbtree_get (T : rbtree) (key : option (list Z)) : option (list Z) :=
  match rbt_nil T, key with
  | true, Some key =>
      match rbtree_search_bytes key (rbt_root T) [] with
      | Some (Bin _ n _, _) => Some (lv_data (t_value n))
      | _ => None
      end
  | _, _ => None
  end.

(** The deletion of a node that was found, with the count. *)
Definition delete_found (T : rbtree) (z : rbtree_node) (l r : ltree) (p : list tframe) : rbtree :=
  mk_rbtree (rbtree_delete z l r p).2 (rbt_nil T) (to_int (rbt_count T - 1)).

Definition kvs_rbtree_delete (T : rbtree) (key : option (list Z)) : Z * rbtree :=
  match rbt_nil T, key with
  | true, Some key =>
      match rbtree_search_bytes key (rbt_root T) [] with
      | Some (Bin l z r, p) => (0, delete_found T z l r p)
      | _ => (-1, T)
      end
  | _, _ => (-1, T)
  end.

Definition replace_value (T : rbtree) (n : rbtree_node) (l r : ltree) (p : list tframe) (v : legacy_value) : rbtree :=
  mk_rbtree (whole (Bin l (mk_tnode (t_color n) (t_key n) v) r) p) (rbt_nil T) (rbt_count T).

Definition kvs_rbtree_modify (m : mem) (T : rbtree) (key value : option (list Z)) : Z * rbtree * mem :=
  match rbt_nil T, key, value with
  | true, Some key, Some value =>
      match rbtree_search_bytes key (rbt_root T) [] with
      | Some (Bin l n r, p) =>
          let '(ok, m) := malloc m in
          if negb ok then (-1, T, m) else (0, replace_value T n l r p (stored value), m)
      | _ => (-1, T, m)
      end
  | _, _, _ => (-1, T, m)
  end.

Definition kvs_rbtree_count (T : rbtree) : Z := rbt_count T.

Definition kvs_rbtree_upsert_bytes (m : mem) (T : rbtree) (key value : slice) : Z * rbtree * mem :=
  match rbt_nil T, key, value with
  | true, Some key, Some value =>
      match rbtree_search_bytes key (rbt_root T) [] with
      | Some (Bin l n r, p) =>
          match copy_value m value with
          | (None, m) => (-1, T, m)
          | (Some v, m) => (0, replace_value T n l r p v, m)
          end
      | _ =>
          let '(ok, m) := malloc m in
          if negb ok then (-1, T, m) else
          let '(k, m) := copy_bytes m (Some key) in
          if negb (is_Some_bool k) then (-1, T, m) else
          match copy_value m value with
          | (None, m) => (-1, T, m)
          | (Some v, m) =>
              let '(insert_result, T) := rbtree_insert T key v in
              if negb (insert_result =? 0) then (-1, T, m) else (0, count_node T, m)
          end
      end
  | _, _, _ => (-1, T, m)
  end.

(** The value and what is written to [value_length], nothing for bad arguments. *)
Definition kvs_rbtree_get_bytes (T : rbtree) (key : slice) : option (list Z) * option Z :=
  match rbt_nil T, key with
  | true, Some key =>
      match rbtree_search_bytes key (rbt_root T) [] with
      | Some (Bin _ n _, _) => (Some (lv_data (t_value n)), Some (lv_length (t_value n)))
      | _ => (None, Some 0)
      end
  | _, _ => (None, None)
  end.

Definition kvs_rbtree_delete_bytes (T : rbtree) (key : slice) : Z * rbtree :=
  match rbt_nil T, key with
  | true, Some key =>
      match rbtree_search_bytes key (rbt_root T) [] with
      | Some (Bin l z r, p) => (1, delete_found T z l r p)
      | _ => (0, T)
      end
  | _, _ => (-1, T)
  end.
