(* ===== verification/LegacyTreeProps.v ===== *)
(** The red-black tree engine of the text protocol is a finite map.

    The tree is the tree of the sorted sets without sizes and with values: with
    the scores all equal, forgetting the sizes of a [ZRbTree.tree] and reading
    the values from a map commutes with every operation.  Order and balance are
    inherited along this correspondence. *)

From S2P Require Import Prelude HashTable ZOrder ZRbTree LegacyTree.

(** ** Forgetting sizes *)

Definition plain_color (c : rb_color) : node_color := match c with RB_RED => RED | RB_BLACK => BLACK end.

Section Plain.
Context (M : gmap (list Z) legacy_value).

Definition value_in (k : list Z) : legacy_value := default (mk_legacy [] 0) (M !! k).

Definition plain_node (n : rb_node) : rbtree_node :=
  mk_tnode (plain_color (rb_color_of n)) (rb_member n) (value_in (rb_member n)).

Fixpoint plain (t : tree) : ltree :=
  match t with Leaf => Nil | Node l n r => Bin (plain l) (plain_node n) (plain r) end.

Definition plain_frame (f : frame) : tframe :=
  mk_tframe (match f_side f with InLeft => OnLeft | InRight => OnRight end) (plain_node (f_node f)) (plain (f_other f)).

Definition plain_path (p : path) : list tframe := plain_frame <$> p.

Lemma plain_red c : plain_color c = RED <-> c = RB_RED.
Proof. by destruct c. Qed.

Lemma plain_black c : plain_color c = BLACK <-> c = RB_BLACK.
Proof. by destruct c. Qed.

Lemma tcolor_plain t : tcolor (plain t) = plain_color (color t).
Proof. by destruct t. Qed.

Lemma plain_paint c t : plain (paint c t) = dye (plain_color c) (plain t).
Proof. by destruct t. Qed.

Lemma plain_plug t f : plain (plug t f) = fill (plain t) (plain_frame f).
Proof. by destruct f as [[] n o]. Qed.

Lemma plain_zip t p : plain (zip t p) = whole (plain t) (plain_path p).
Proof. revert t. induction p as [|f p IH]; intros t; [done|]. cbn [zip]. by rewrite IH, plain_plug. Qed.

Lemma plain_recalculate t : plain (rb_recalculate t) = plain t.
Proof. by destruct t. Qed.

Lemma plain_left_rotate t : plain (rb_left_rotate t) = rbtree_left_rotate (plain t).
Proof. by destruct t as [|a n [|b r c]]. Qed.

Lemma plain_right_rotate t : plain (rb_right_rotate t) = rbtree_right_rotate (plain t).
Proof. by destruct t as [|[|a l b] n c]. Qed.

Lemma plain_recalculate_up t p : plain_path (rb_recalculate_up t p) = plain_path p.
Proof. revert t. induction p as [|f p IH]; intros t; [done|]. cbn. f_equal. apply IH. Qed.

Lemma plain_recalculate_from m t : plain (recalculate_from m t) = plain t.
Proof.
  destruct m as [m|]; [|done]. cbn. destruct (locate m t []) as [[t' p]|] eqn:E; [|done].
  apply locate_sound in E as (Hz & _). cbn in Hz. by rewrite plain_zip, plain_recalculate_up, plain_recalculate, <- plain_zip, Hz.
Qed.

Lemma plain_other_left s : plain (other_left s) = tleft (plain s).
Proof. by destruct s. Qed.

Lemma plain_other_right s : plain (other_right s) = tright (plain s).
Proof. by destruct s. Qed.
(** ** The loops commute *)

Lemma plain_insert_fixup t p :
  plain (ZRbTree.rbtree_insert_fixup t p) = rbtree_insert_fixup (plain t) (plain_path p).
Proof.
  remember (length p) as k eqn:Hk. revert t p Hk.
  induction k as [k IH] using (well_founded_induction Nat.lt_wf_0). intros t p ->.
  destruct p as [|f [|g rest]]; [cbn; by rewrite plain_paint|cbn; by rewrite plain_paint, plain_plug|].
  change (plain_path (f :: g :: rest)) with (plain_frame f :: plain_frame g :: plain_path rest).
  cbn [ZRbTree.rbtree_insert_fixup rbtree_insert_fixup]. cbn [plain_frame tf_node].
  change (t_color (plain_node (f_node f))) with (plain_color (rb_color_of (f_node f))).
  destruct (decide (rb_color_of (f_node f) = RB_RED)) as [Ef|Ef];
    [rewrite (decide_True (P := plain_color _ = RED)) by (by apply plain_red)
    |rewrite (decide_False (P := plain_color _ = RED)) by (by intros ?%plain_red); rewrite plain_paint; f_equal; apply (plain_zip t (f :: g :: rest))].
  destruct g as [gs gn go].
  assert (Hg : tcolor (plain go) = RED <-> color go = RB_RED) by (rewrite tcolor_plain; apply plain_red).
  destruct gs; cbn [plain_frame f_side f_node f_other tf_branch tf_other tf_node]; destruct (decide (color go = RB_RED));
    destruct (decide (tcolor (plain go) = RED)); try (exfalso; tauto).
  1,3: rewrite (IH (length rest)) by (cbn; lia || done); rewrite !plain_plug; unfold plain_frame at 2; cbn [f_other]; rewrite plain_paint; done.
  all: destruct f as [[] fn fo]; cbn [plain_frame f_side f_node f_other tf_branch tf_other tf_node];
      rewrite plain_paint, plain_zip, ?plain_left_rotate, ?plain_right_rotate, plain_plug, plain_paint, ?plain_left_rotate, ?plain_right_rotate, plain_plug; done.
Qed.

Definition plain_next (r : fixup_result) : fixup_next :=
  match r with FixDone t => Ended (plain t) | FixMore t p => Continue (plain t) (plain_path p) end.

Lemma plain_left_black node parent sibling rest :
  plain_next (delete_left_black node parent sibling rest) = fix_left (plain node) (plain_node parent) (plain sibling) (plain_path rest).
Proof.
  unfold delete_left_black, fix_left. rewrite <- plain_other_left, <- plain_other_right, !tcolor_plain.
  destruct (decide (color (other_left sibling) = RB_BLACK /\ color (other_right sibling) = RB_BLACK)) as [E|E].
  { rewrite (decide_True (P := plain_color _ = BLACK /\ _)) by (by rewrite !plain_black). cbn. by rewrite plain_paint. }
  rewrite (decide_False (P := plain_color _ = BLACK /\ _)) by (by rewrite !plain_black). cbn [plain_next]. f_equal. rewrite plain_paint, plain_zip, plain_left_rotate.
  do 2 f_equal. cbn [plain]. f_equal. f_equal.
  destruct (decide (color (other_right sibling) = RB_BLACK)) as [E'|E'];
    [rewrite (decide_True (P := plain_color _ = BLACK)) by (by rewrite plain_black)|rewrite (decide_False (P := plain_color _ = BLACK)) by (by rewrite plain_black)].
  - destruct sibling as [|l n r]; [done|]. cbn [plain other_right] in *.
    change (Bin (dye BLACK (plain l)) (recolor RED (plain_node n)) (plain r)) with (Bin (dye (plain_color RB_BLACK) (plain l)) (plain_node (set_color RB_RED n)) (plain r)).
    rewrite <- plain_paint. change (Bin (plain (paint RB_BLACK l)) (plain_node (set_color RB_RED n)) (plain r)) with (plain (Node (paint RB_BLACK l) (set_color RB_RED n) r)).
    rewrite <- plain_right_rotate. destruct (rb_right_rotate _) as [|l' n' r']; [done|]. cbn. by rewrite plain_paint.
  - destruct sibling as [|l n r]; [done|]. cbn. by rewrite plain_paint.
Qed.

Lemma plain_right_black node parent sibling rest :
  plain_next (delete_right_black node parent sibling rest) = fix_right (plain node) (plain_node parent) (plain sibling) (plain_path rest).
Proof.
  unfold delete_right_black, fix_right. rewrite <- plain_other_left, <- plain_other_right, !tcolor_plain.
  destruct (decide (color (other_right sibling) = RB_BLACK /\ color (other_left sibling) = RB_BLACK)) as [E|E].
  { rewrite (decide_True (P := plain_color _ = BLACK /\ _)) by (rewrite !plain_black; tauto). cbn. by rewrite plain_paint. }
  rewrite (decide_False (P := plain_color _ = BLACK /\ _)) by (rewrite !plain_black; tauto). cbn [plain_next]. f_equal. rewrite plain_paint, plain_zip, plain_right_rotate.
  do 2 f_equal. cbn [plain]. f_equal. f_equal.
  destruct (decide (color (other_left sibling) = RB_BLACK)) as [E'|E'];
    [rewrite (decide_True (P := plain_color _ = BLACK)) by (by rewrite plain_black)|rewrite (decide_False (P := plain_color _ = BLACK)) by (by rewrite plain_black)].
  - destruct sibling as [|l n r]; [done|]. cbn [plain other_left] in *.
    change (Bin (plain l) (recolor RED (plain_node n)) (dye BLACK (plain r))) with (Bin (plain l) (plain_node (set_color RB_RED n)) (dye (plain_color RB_BLACK) (plain r))).
    rewrite <- plain_paint. change (Bin (plain l) (plain_node (set_color RB_RED n)) (plain (paint RB_BLACK r))) with (plain (Node l (set_color RB_RED n) (paint RB_BLACK r))).
    rewrite <- plain_left_rotate. destruct (rb_left_rotate _) as [|l' n' r']; [done|]. cbn. by rewrite plain_paint.
  - destruct sibling as [|l n r]; [done|]. cbn. by rewrite plain_paint.
Qed.

Lemma plain_step node f rest :
  plain_next (delete_step node f rest) = fix_step (plain node) (plain_frame f) (plain_path rest).
Proof.
  destruct f as [[] fn fo]; unfold delete_step, fix_step; cbn [f_side f_node f_other plain_frame tf_branch tf_node tf_other].
  - destruct fo as [|l n r]; cbn [plain]; [apply (plain_left_black node fn Leaf)|].
    change (t_color (plain_node n)) with (plain_color (rb_color_of n)).
    destruct (decide (rb_color_of n = RB_RED)) as [E|E];
      [rewrite decide_True by (by rewrite plain_red)|rewrite decide_False by (by rewrite plain_red); apply (plain_left_black node fn (Node l n r))].
    apply (plain_left_black node (set_size _ (set_color RB_RED fn)) l (mk_frame InLeft (set_size _ (set_color RB_BLACK n)) r :: rest)).
  - destruct fo as [|l n r]; cbn [plain]; [apply (plain_right_black node fn Leaf)|].
    change (t_color (plain_node n)) with (plain_color (rb_color_of n)).
    destruct (decide (rb_color_of n = RB_RED)) as [E|E];
      [rewrite decide_True by (by rewrite plain_red)|rewrite decide_False by (by rewrite plain_red); apply (plain_right_black node fn (Node l n r))].
    apply (plain_right_black node (set_size _ (set_color RB_RED fn)) r (mk_frame InRight (set_size _ (set_color RB_BLACK n)) l :: rest)).
Qed.

Lemma plain_delete_fixup fuel t p :
  plain (ZRbTree.rbtree_delete_fixup fuel t p) = rbtree_delete_fixup fuel (plain t) (plain_path p).
Proof.
  revert t p. induction fuel as [|fuel IH]; intros t p; [cbn; by rewrite plain_zip, plain_paint|].
  destruct p as [|f rest]; [cbn; by rewrite plain_paint|].
  change (plain_path (f :: rest)) with (plain_frame f :: plain_path rest). cbn [ZRbTree.rbtree_delete_fixup rbtree_delete_fixup].
  rewrite tcolor_plain. destruct (decide (color t = RB_BLACK)) as [E|E];
    [rewrite decide_True by (by rewrite plain_black)|rewrite decide_False by (by rewrite plain_black); rewrite (plain_zip (paint RB_BLACK t) (f :: rest)); by rewrite plain_paint].
  rewrite <- plain_step. destruct (delete_step t f rest); [done|]. apply IH.
Qed.

Lemma plain_detach_finish c t p : plain (detach_finish c t p) = splice_out (plain_color c) (plain t) (plain_path p).
Proof.
  unfold detach_finish, splice_out. rewrite plain_recalculate_from.
  destruct (decide (c = RB_BLACK)) as [E|E]; [rewrite decide_True by (by rewrite plain_black)|rewrite decide_False by (by rewrite plain_black)].
  - rewrite plain_delete_fixup, plain_recalculate_up, length_recalculate_up. unfold plain_path. by rewrite length_fmap.
  - by rewrite plain_zip, plain_recalculate_up.
Qed.
End Plain.

(** ** The map of a tree *)

Fixpoint tpairs (t : ltree) : list (list Z * legacy_value) :=
  match t with Nil => [] | Bin l n r => tpairs l ++ (t_key n, t_value n) :: tpairs r end.

(** No red node has a red child, and every path has [n] black nodes. *)
Inductive balanced : node_color -> nat -> ltree -> Prop :=
| balanced_nil : balanced BLACK 0 Nil
| balanced_red n l x r : t_color x = RED -> balanced BLACK n l -> balanced BLACK n r -> balanced RED n (Bin l x r)
| balanced_black n cl cr l x r : t_color x = BLACK -> balanced cl n l -> balanced cr n r -> balanced BLACK (S n) (Bin l x r).

Definition bytes_lt (a b : list Z) : Prop := compare_bytes a b < 0.

(** ** The count as an [int] *)

Lemma to_int_shift z d : to_int (to_int z + d) = to_int (z + d).
Proof.
  unfold to_int. f_equal. replace ((z + 2 ^ 31) mod 2 ^ 32 - 2 ^ 31 + d + 2 ^ 31) with ((z + 2 ^ 31) mod 2 ^ 32 + d) by lia.
  rewrite Zplus_mod_idemp_l. f_equal. lia.
Qed.

Lemma to_int_small z : 0 <= z <= INT_MAX -> to_int z = z.
Proof. unfold to_int, INT_MAX. intros H. rewrite Z.mod_small by lia. lia. Qed.

Record tree_holds (T : rbtree) (M : gmap (list Z) legacy_value) : Prop := {
  th_nil : rbt_nil T = true;
  th_sorted : StronglySorted bytes_lt (tpairs (rbt_root T)).*1;
  th_map : M = list_to_map (tpairs (rbt_root T));
  th_balanced : exists n, balanced BLACK n (rbt_root T);
  th_count : rbt_count T = to_int (Z.of_nat (size M))
}.

(** ** The tree with sizes *)

Definition full_color (c : node_color) : rb_color := match c with RED => RB_RED | BLACK => RB_BLACK end.

Fixpoint full (t : ltree) : tree :=
  match t with
  | Nil => Leaf
  | Bin l n r => Node (full l) (mk_rb (full_color (t_color n)) 0 (t_key n) (Z.of_nat (tsize l) + Z.of_nat (tsize r) + 1)) (full r)
  end.

Definition keyed (k : list Z) : zelem := (0, k).

Lemma elems_full t : elems (full t) = keyed <$> (tpairs t).*1.
Proof. induction t as [|l IHl n r IHr]; [done|]. cbn. by rewrite IHl, IHr, !fmap_app. Qed.

Lemma full_sized t : sized (full t) /\ size_of (full t) = Z.of_nat (tsize t).
Proof. induction t as [|l [Hl1 Hl2] n r [Hr1 Hr2]]; [done|]. cbn. rewrite Hl2, Hr2. split_and!; try done; lia. Qed.

Lemma full_balanced c n t : balanced c n t -> rbt (full_color c) n (full t).
Proof. induction 1 as [|n l x r Hx ? IHl ? IHr|n cl cr l x r Hx ? IHl ? IHr]; cbn; [constructor|rewrite Hx; by constructor|rewrite Hx; by econstructor]. Qed.

Lemma plain_balanced M c n t : rbt c n t -> balanced (plain_color c) n (plain M t).
Proof. induction 1 as [|n l x r Hx ? IHl ? IHr|n cl cr l x r Hx ? IHl ? IHr]; cbn; [constructor|constructor; cbn; by rewrite ?Hx|econstructor; cbn; [by rewrite Hx|done..]]. Qed.

Lemma plain_full M t : Forall (fun x => M !! x.1 = Some x.2) (tpairs t) -> plain M (full t) = t.
Proof.
  induction t as [|l IHl n r IHr]; [done|]. cbn. rewrite Forall_app, Forall_cons. intros (Hl & Hn & Hr).
  rewrite IHl, IHr by done. f_equal. unfold plain_node, value_in. cbn in *. rewrite Hn. destruct n as [[] k v]; done.
Qed.

Lemma tpairs_plain M t : tpairs (plain M t) = (fun x => (x.2, value_in M x.2)) <$> elems t.
Proof. induction t as [|l IHl n r IHr]; [done|]. cbn. by rewrite IHl, IHr, fmap_app. Qed.

Lemma plain_ext M M' t : (forall k, k ∈ (elems t).*2 -> M !! k = M' !! k) -> plain M t = plain M' t.
Proof.
  induction t as [|l IHl n r IHr]; intros H; [done|]. cbn in *. rewrite fmap_app, fmap_cons in H.
  rewrite IHl, IHr by (intros; apply H; set_solver). f_equal. unfold plain_node, value_in. rewrite H by set_solver. done.
Qed.

Lemma compare_keyed a b : elem_lt (keyed a) (keyed b) <-> bytes_lt a b.
Proof. done. Qed.

Lemma sorted_keyed l : StronglySorted elem_lt (keyed <$> l) <-> StronglySorted bytes_lt l.
Proof.
  induction l as [|a l IH]; [split; constructor|]. cbn. split; intros [Hs Hf]%StronglySorted_inv; constructor; try (by apply IH);
    by rewrite ?Forall_fmap in *.
Qed.

Lemma keyed_members l : (keyed <$> l).*2 = l.
Proof. rewrite <- list_fmap_compose. apply list_fmap_id. Qed.

(** A tree of the engine with a tree of sorted sets that it forgets the sizes of. *)
Record mirrors (tr : rb_tree) (T : rbtree) (M : gmap (list Z) legacy_value) : Prop := {
  mi_wf : rb_wf tr;
  mi_keyed : elems (rb_root tr) = keyed <$> (elems (rb_root tr)).*2;
  mi_dom : forall k, is_Some (M !! k) <-> k ∈ (elems (rb_root tr)).*2;
  mi_root : rbt_root T = plain M (rb_root tr);
  mi_count : rbt_count T = to_int (rb_length tr);
  mi_nil : rbt_nil T = true
}.

Lemma sorted_distinct l : StronglySorted bytes_lt l -> NoDup l.
Proof.
  induction 1 as [|a l Hs IH Hf]; constructor; [|done]. intros Hin. rewrite Forall_forall in Hf. specialize (Hf a Hin).
  unfold bytes_lt in Hf. by rewrite (proj2 (compare_bytes_eq a a) eq_refl) in Hf.
Qed.

Lemma holds_mirrors T M : tree_holds T M -> exists tr, mirrors tr T M.
Proof.
  intros [Hn Hs HM [n Hb] Hc]. pose proof (sorted_distinct _ Hs) as Hnd.
  exists (mk_rb_tree (full (rbt_root T)) (Z.of_nat (size M))). split; cbn [rb_root rb_length]; rewrite ?elems_full, ?keyed_members; try done.
  - split; cbn [rb_root rb_length]; rewrite ?elems_full.
    + split; [by apply sorted_keyed|by rewrite keyed_members].
    + apply full_sized.
    + exists n. by apply (full_balanced BLACK).
    + rewrite HM. unfold zlen. rewrite length_fmap, map_size_list_to_map by done. by rewrite length_fmap.
  - intros k. rewrite HM, <- not_eq_None_Some, <- not_elem_of_list_to_map. destruct (decide (k ∈ (tpairs (rbt_root T)).*1)); tauto.
  - symmetry. apply plain_full. apply Forall_forall. intros [k v] Hin. rewrite HM. by apply elem_of_list_to_map_1.
Qed.

Lemma mirrors_holds tr T M : mirrors tr T M -> tree_holds T M.
Proof.
  intros [[[Hso Hnd] Hsz [n Hb] Hl] Hk Hd Hr Hc Hn].
  assert (Hkeys : (tpairs (rbt_root T)).*1 = (elems (rb_root tr)).*2) by (by rewrite Hr, tpairs_plain, <- list_fmap_compose).
  assert (HM : M = list_to_map (tpairs (rbt_root T))).
  { apply map_eq. intros k. destruct (M !! k) as [v|] eqn:E.
    - symmetry. apply elem_of_list_to_map_1; [by rewrite Hkeys|]. rewrite Hr, tpairs_plain.
      assert (Hin : k ∈ (elems (rb_root tr)).*2) by (apply Hd; by rewrite E). apply list_elem_of_fmap in Hin as (x & -> & Hx).
      apply list_elem_of_fmap. exists x. split; [|done]. unfold value_in. by rewrite E.
    - symmetry. apply not_elem_of_list_to_map_1. rewrite Hkeys, <- Hd, E. by intros []. }
  split; [done| |done| |].
  - rewrite Hkeys, <- sorted_keyed, <- Hk. done.
  - exists n. rewrite Hr. by apply (plain_balanced M RB_BLACK).
  - rewrite Hc, Hl, HM, map_size_list_to_map by (by rewrite Hkeys). unfold zlen. do 2 f_equal.
    rewrite <- (length_fmap fst (tpairs _)), Hkeys. by rewrite length_fmap.
Qed.

(** ** Finding and placing *)

Lemma keyed_split l n r : elems (Node l n r) = keyed <$> (elems (Node l n r)).*2 ->
  elems l = keyed <$> (elems l).*2 /\ rb_score n = 0 /\ elems r = keyed <$> (elems r).*2.
Proof.
  cbn. rewrite !fmap_app, !fmap_cons. intros H. apply app_inj_1 in H as [Hl H]; [|by rewrite !length_fmap].
  injection H as Hn Hr. done.
Qed.

Lemma insert_place_plain M t p k :
  elems t = keyed <$> (elems t).*2 -> k ∉ (elems t).*2 ->
  insert_place k (plain M t) (plain_path M p) = Some (plain_path M (insert_descend (mk_rb RB_RED 0 k 1) t p)).
Proof.
  revert p. induction t as [|l IHl n r IHr]; intros p Hk Hin; [done|]. apply keyed_split in Hk as (Hkl & Hz & Hkr).
  cbn [elems] in Hin. rewrite fmap_app, fmap_cons in Hin. cbn [plain insert_place insert_descend rb_score rb_member].
  rewrite Hz. change (compare_order 0 k 0 (rb_member n)) with (compare_bytes k (rb_member n)). change (t_key (plain_node M n)) with (rb_member n).
  destruct (Z.ltb_spec (compare_bytes k (rb_member n)) 0); [apply (IHl (mk_frame InLeft (set_size (subtree_size n + 1) n) r :: p)); set_solver|].
  assert (compare_bytes k (rb_member n) <> 0) by (intros ->%compare_bytes_eq; set_solver).
  destruct (Z.gtb_spec (compare_bytes k (rb_member n)) 0); [|lia]. apply (IHr (mk_frame InRight (set_size (subtree_size n + 1) n) l :: p)); set_solver.
Qed.

Lemma locate_absent k t p : k ∉ (elems t).*2 -> locate k t p = None.
Proof.
  revert p. induction t as [|l IHl n r IHr]; intros p Hk; [done|]. cbn [elems] in Hk. rewrite fmap_app, fmap_cons in Hk. cbn [locate].
  rewrite decide_False by set_solver. rewrite IHl by set_solver. apply IHr. set_solver.
Qed.

Lemma member_compare t x k :
  elems t = keyed <$> (elems t).*2 -> (forall y, y ∈ elems t -> elem_lt (keyed x) y) -> k ∈ (elems t).*2 -> compare_bytes x k < 0.
Proof. intros Hk H Hin. apply (H (keyed k)). rewrite Hk. by apply list_elem_of_fmap_2. Qed.

Lemma search_plain M t p k :
  elems t = keyed <$> (elems t).*2 -> StronglySorted elem_lt (elems t) ->
  rbtree_search_bytes k (plain M t) (plain_path M p) = (fun x => (plain M x.1, plain_path M x.2)) <$> locate k t p.
Proof.
  revert p. induction t as [|l IHl n r IHr]; intros p Hk Hs; [done|]. apply keyed_split in Hk as (Hkl & Hz & Hkr).
  cbn [elems] in Hs. apply StronglySorted_app_iff in Hs as (Hsl & Hsr & Hlr). apply StronglySorted_inv in Hsr as [Hsr Hnr].
  rewrite Forall_forall in Hnr. cbn [plain rbtree_search_bytes locate]. change (t_key (plain_node M n)) with (rb_member n).
  assert (Hn : elem_of_rb n = keyed (rb_member n)) by (unfold elem_of_rb; by rewrite Hz). rewrite Hn in *.
  destruct (Z.ltb_spec (compare_bytes k (rb_member n)) 0) as [Hlt|Hge].
  - rewrite decide_False by (intros <-; by rewrite (proj2 (compare_bytes_eq _ _) eq_refl) in Hlt). etrans; [by apply (IHl (mk_frame InLeft n r :: p))|].
    destruct (locate k l _) as [x|]; [done|]. rewrite locate_absent; [done|]. intros Hin.
    pose proof (member_compare r (rb_member n) k Hkr Hnr Hin) as H. rewrite (compare_bytes_anti k) in H. lia.
  - destruct (Z.gtb_spec (compare_bytes k (rb_member n)) 0) as [Hgt|Hle].
    + rewrite decide_False by (intros <-; by rewrite (proj2 (compare_bytes_eq _ _) eq_refl) in Hgt).
      rewrite (locate_absent k l); [by apply (IHr (mk_frame InRight n l :: p))|]. intros Hin.
      assert (compare_bytes k (rb_member n) < 0); [|lia]. apply (Hlr (keyed k) (keyed (rb_member n))).
      * rewrite Hkl. by apply list_elem_of_fmap_2.
      * apply elem_of_cons. by left.
    + rewrite decide_True; [done|]. symmetry. apply compare_bytes_eq. lia.
Qed.

(** ** The operations *)

Lemma mirrors_search tr T M k :
  mirrors tr T M ->
  match M !! k with
  | None => rbtree_search_bytes k (rbt_root T) [] = None
  | Some v => exists l n r p, locate k (rb_root tr) [] = Some (Node l n r, p) /\ rb_member n = k /\
      rbtree_search_bytes k (rbt_root T) [] = Some (Bin (plain M l) (plain_node M n) (plain M r), plain_path M p) /\ t_value (plain_node M n) = v
  end.
Proof.
  intros [[[Hso _] _ _ _] Hk Hd Hr _ _]. rewrite Hr. pose proof (search_plain M (rb_root tr) [] k Hk Hso) as Hs. cbn [plain_path fmap list_fmap] in Hs.
  rewrite Hs. destruct (M !! k) as [v|] eqn:E.
  - destruct (locate_complete k (rb_root tr) []) as [[t p] Hl]; [apply Hd; by rewrite E|].
    destruct (locate_sound _ _ _ _ _ Hl) as (_ & l & n & r & -> & Hm). exists l, n, r, p. rewrite Hl. split_and!; try done.
    cbn. unfold value_in. by rewrite Hm, E.
  - rewrite locate_absent; [done|]. rewrite <- Hd, E. by intros [].
Qed.

Lemma mirrors_insert tr T M k v :
  mirrors tr T M -> M !! k = None ->
  exists T', rbtree_insert T k v = (0, T') /\ mirrors (rbtree_insert_node tr (mk_rb RB_RED 0 k 1)) (count_node T') (<[k := v]> M).
Proof.
  intros [Hw Hk Hd Hr Hc Hn] E. set (n := mk_rb RB_RED 0 k 1). set (M' := <[k := v]> M).
  assert (Hin : k ∉ (elems (rb_root tr)).*2) by (rewrite <- Hd, E; by intros []).
  assert (Hr' : rbt_root T = plain M' (rb_root tr)).
  { rewrite Hr. apply plain_ext. intros j Hj. unfold M'. rewrite lookup_insert_ne by (intros <-; done). done. }
  pose proof (insert_place_plain M' (rb_root tr) [] k Hk Hin) as Hp. cbn [plain_path fmap list_fmap] in Hp.
  destruct (rb_insert_ok tr _ n (conj Hw eq_refl)) as [Hw' He]; [done|done|].
  unfold rbtree_insert. rewrite Hr', Hp. eexists. split; [done|]. pose proof (elem_insert_perm (elem_of_rb n) (elems (rb_root tr))) as Hperm.
  split; [done| | | |cbn; by rewrite Hc, to_int_shift|done].
  - rewrite <- He. destruct (elem_insert_split (elem_of_rb n) _ (rbw_sorted _ Hw) Hin) as (a & b & Ea & -> & _ & _).
    rewrite Ea in Hk. rewrite !fmap_app in Hk. apply app_inj_1 in Hk as [Ha Hb]; [|by rewrite !length_fmap].
    rewrite !fmap_app, !fmap_cons, <- Ha, <- Hb. done.
  - intros j. rewrite <- He, Hperm. unfold M'. rewrite lookup_insert_is_Some', Hd. cbn. rewrite elem_of_cons. split; intros [H|H]; auto.
  - cbn. rewrite plain_insert_fixup. f_equal. cbn. unfold plain_node, value_in. cbn. unfold M'. by rewrite lookup_insert_eq.
Qed.

Lemma mirrors_exists tr T M k v w : mirrors tr T M -> M !! k = Some v -> rbtree_insert T k w = (1, T).
Proof.
  intros Hm E. pose proof (mirrors_search tr T M k Hm) as Hs. rewrite E in Hs. destruct Hs as (l & n & r & p & _ & _ & Hs & _).
  unfold rbtree_insert. enough (insert_place k (rbt_root T) [] = None) as -> by done.
  clear -Hs. revert Hs. generalize (@nil tframe) at 1 2. induction (rbt_root T) as [|tl IHl x tr IHr]; intros q; [done|]. cbn.
  destruct (_ <? _); [apply IHl|]. destruct (_ >? _); [apply IHr|done].
Qed.

Lemma plain_minimum M t p : rbtree_mini (plain M t) (plain_path M p) = (plain M (rb_minimum t p).1, plain_path M (rb_minimum t p).2).
Proof.
  revert p. induction t as [|l IHl n r _]; intros p; [done|]. destruct l as [|ll ln lr]; [done|]. apply (IHl (mk_frame InLeft n r :: p)).
Qed.

Lemma plain_delete M tr k l n r p :
  locate k (rb_root tr) [] = Some (Node l n r, p) ->
  rbtree_delete (plain_node M n) (plain M l) (plain M r) (plain_path M p)
  = (Some (mk_tnode (t_color (default (plain_node M n) (rbtree_delete (plain_node M n) (plain M l) (plain M r) (plain_path M p)).1))
       (rb_member n) (value_in M (rb_member n))), plain M (rb_root (rbtree_detach_node tr k).2)).
Proof.
  intros El. unfold rbtree_detach_node. rewrite El. cbn [snd rb_root]. destruct l as [|ll ln lr].
  { cbn. by rewrite plain_detach_finish. }
  destruct r as [|rl rn rr]; [cbn; by rewrite plain_detach_finish|].
  destruct (minimum_spec (Node rl rn rr) []) as (moved & mr & mp & Hm & _ & _); [done|]. rewrite app_nil_r in Hm.
  pose proof (plain_minimum M (Node rl rn rr) []) as Hp. rewrite Hm in *. cbn [fst snd plain_path fmap list_fmap plain] in Hp.
  cbn [rbtree_delete plain]. rewrite Hp. cbn [fst default t_color only_child tleft tright]. rewrite plain_detach_finish. do 2 f_equal.
  unfold plain_path. by rewrite fmap_app.
Qed.

Lemma mirrors_delete tr T M k v l n r p :
  mirrors tr T M -> M !! k = Some v -> locate k (rb_root tr) [] = Some (Node l n r, p) ->
  mirrors (rbtree_detach_node tr k).2 (delete_found T (plain_node M n) (plain M l) (plain M r) (plain_path M p)) (delete k M).
Proof.
  intros [Hw Hk Hd Hr Hc Hn] E El. assert (Hin : keyed k ∈ elems (rb_root tr)) by (rewrite Hk; apply list_elem_of_fmap_2, Hd; by rewrite E).
  destruct (rb_detach_ok tr _ 0 k (conj Hw eq_refl) Hin) as (n' & _ & _ & Hw' & He).
  assert (Hkeys : (elems (rb_root (rbtree_detach_node tr k).2)).*2 = filter (fun j => j <> k) (elems (rb_root tr)).*2).
  { rewrite <- He. unfold elem_remove. clear. induction (elems (rb_root tr)) as [|x t IH]; [done|]. rewrite filter_cons, fmap_cons, filter_cons.
    destruct (decide (x.2 <> k)); [rewrite fmap_cons; f_equal; apply IH|apply IH]. }
  split; [done| | | |cbn; unfold rbtree_detach_node; by rewrite El, Hc, <- !Z.add_opp_r, to_int_shift|done].
  - rewrite <- He. unfold elem_remove. rewrite Hk at 1 2. clear. induction (elems (rb_root tr)).*2 as [|x t IH]; [done|].
    rewrite fmap_cons, !filter_cons. cbn [snd keyed]. destruct (decide (x <> k)); [|apply IH]. rewrite !fmap_cons. f_equal. apply IH.
  - intros j. rewrite Hkeys, list_elem_of_filter, lookup_delete_is_Some, Hd. split; intros [? ?]; auto.
  - unfold delete_found. cbn [rbt_root]. rewrite (plain_delete M tr k l n r p El). cbn [snd]. apply plain_ext. intros j Hj.
    rewrite Hkeys, list_elem_of_filter in Hj. by rewrite lookup_delete_ne by (intros <-; naive_solver).
Qed.

Lemma plain_path_ext M M' p : (forall k, k ∈ (before p ++ after p).*2 -> M !! k = M' !! k) -> plain_path M p = plain_path M' p.
Proof.
  induction p as [|[s n o] p IH]; intros H; [done|].
  change (plain_frame M (mk_frame s n o) :: plain_path M p = plain_frame M' (mk_frame s n o) :: plain_path M' p).
  rewrite IH by (intros k Hk; apply H; destruct s; cbn; set_solver). f_equal.
  unfold plain_frame. cbn [f_side f_node f_other]. rewrite (plain_ext M M' o) by (intros k Hk; apply H; destruct s; cbn; set_solver). f_equal.
  unfold plain_node, value_in. rewrite H; [done|]. destruct s; cbn; set_solver.
Qed.

Lemma mirrors_replace tr T M k v l n r p :
  mirrors tr T M -> locate k (rb_root tr) [] = Some (Node l n r, p) ->
  mirrors tr (replace_value T (plain_node M n) (plain M l) (plain M r) (plain_path M p) v) (<[k := v]> M).
Proof.
  intros [Hw Hk Hd Hr Hc Hn] El. destruct (locate_sound _ _ _ _ _ El) as (Hz & l0 & n0 & r0 & [= <- <- <-] & Hm). cbn in Hz.
  assert (Hold : elems (rb_root tr) = (before p ++ elems l) ++ elem_of_rb n :: (elems r ++ after p)) by (rewrite <- Hz, elems_zip; elems_eq).
  pose proof (proj2 (rbw_sorted _ Hw)) as Hnd. rewrite Hold, fmap_app, fmap_cons in Hnd. cbn in Hnd. rewrite Hm in Hnd.
  apply NoDup_app in Hnd as (_ & Hdis & [Hafter _]%NoDup_cons).
  assert (Hbefore : k ∉ (before p ++ elems l).*2) by (intros Hx; apply (Hdis k Hx), elem_of_cons; by left).
  rewrite !fmap_app in *. assert (Hother : forall j, j <> k -> M !! j = <[k := v]> M !! j) by (intros; by rewrite lookup_insert_ne).
  split; [done|done| | |done|done].
  - intros j. rewrite lookup_insert_is_Some', Hd. split; [|by right]. intros [<-|]; [|done].
    rewrite Hold, fmap_app, fmap_cons. cbn. rewrite Hm. set_solver.
  - unfold replace_value. cbn [rbt_root]. rewrite <- Hz, plain_zip, (plain_path_ext M (<[k := v]> M) p) by (intros j Hj; apply Hother; set_solver).
    f_equal. cbn [plain]. rewrite (plain_ext M (<[k := v]> M) l), (plain_ext M (<[k := v]> M) r) by (intros j Hj; apply Hother; set_solver).
    f_equal. unfold plain_node, value_in. cbn. by rewrite Hm, lookup_insert_eq.
Qed.

(** What the allocations of [copy_value] can refuse. *)
Lemma copy_value_spec m v :
  match copy_value m v with
  | (Some x, _) => x = stored v
  | (None, _) => m <> [] \/ zlen v = SIZE_MAX
  end.
Proof.
  unfold copy_value, copy_bytes. destruct (Z.eqb_spec (zlen v) SIZE_MAX); [by right|].
  destruct m as [|[] m]; cbn; auto.
Qed.

(** The tree after an insertion that was admitted, and the refusals. *)
Lemma set_tree_spec m T M k v :
  tree_holds T M ->
  let '(r, T', _) := kvs_rbtree_set m T (Some k) (Some v) in
  r = 0 /\ M !! k = None /\ tree_holds T' (<[k := stored v]> M) \/
  r = 1 /\ is_Some (M !! k) /\ T' = T \/
  r = -1 /\ T' = T /\ (m <> [] \/ zlen k = SIZE_MAX \/ zlen v = SIZE_MAX).
Proof.
  intros Hh. destruct (holds_mirrors T M Hh) as [tr Hm]. unfold kvs_rbtree_set. rewrite (mi_nil _ _ _ Hm).
  destruct (malloc m) as [ok m1] eqn:E1. destruct ok; cbn [negb]; [|right; right; split_and!; try done; left; by intros ->].
  assert (Em1 : m = [] -> m1 = []) by (intros ->; by injection E1).
  destruct (copy_bytes m1 (Some k)) as [kc m2] eqn:E2.
  assert (Ekc : match kc with Some _ => m1 = [] -> m2 = [] | None => m1 <> [] \/ zlen k = SIZE_MAX end).
  { unfold copy_bytes in E2. destruct (Z.eqb_spec (zlen k) SIZE_MAX); [injection E2 as <- <-; by right|].
    destruct m1 as [|[] ?]; cbn in E2; injection E2 as <- <-; try done; by left. }
  destruct kc as [kc|]; cbn [is_Some_bool negb]; [|right; right; split_and!; try done; naive_solver].
  pose proof (copy_value_spec m2 v) as Hv. destruct (copy_value m2 v) as [[x|] m3]; [|right; right; split_and!; try done; naive_solver]. subst x.
  destruct (M !! k) as [w|] eqn:EM.
  - rewrite (mirrors_exists tr T M k w _ Hm EM). cbn. right. left. eauto.
  - destruct (mirrors_insert tr T M k (stored v) Hm EM) as (T' & -> & Hm'). cbn. left. split_and!; try done. by eapply mirrors_holds.
Qed.

Lemma get_tree_spec T M k : tree_holds T M -> kvs_rbtree_get T (Some k) = lv_data <$> M !! k.
Proof.
  intros Hh. destruct (holds_mirrors T M Hh) as [tr Hm]. pose proof (mirrors_search tr T M k Hm) as Hs. unfold kvs_rbtree_get. rewrite (mi_nil _ _ _ Hm).
  destruct (M !! k) as [v|]; [|by rewrite Hs]. destruct Hs as (l & n & r & p & _ & _ & -> & <-). done.
Qed.

Lemma delete_tree_spec T M k :
  tree_holds T M ->
  let '(r, T') := kvs_rbtree_delete T (Some k) in
  tree_holds T' (delete k M) /\ r = match M !! k with Some _ => 0 | None => -1 end.
Proof.
  intros Hh. destruct (holds_mirrors T M Hh) as [tr Hm]. pose proof (mirrors_search tr T M k Hm) as Hs. unfold kvs_rbtree_delete. rewrite (mi_nil _ _ _ Hm).
  destruct (M !! k) as [v|] eqn:E; [|rewrite Hs; split; [by rewrite delete_id|done]].
  destruct Hs as (l & n & r & p & El & _ & -> & _). split; [|done]. by eapply mirrors_holds, mirrors_delete.
Qed.

Lemma modify_tree_spec m T M k v :
  tree_holds T M ->
  let '(r, T', _) := kvs_rbtree_modify m T (Some k) (Some v) in
  r = 0 /\ is_Some (M !! k) /\ tree_holds T' (<[k := stored v]> M) \/ r = -1 /\ T' = T /\ (M !! k = None \/ m <> []).
Proof.
  intros Hh. destruct (holds_mirrors T M Hh) as [tr Hm]. pose proof (mirrors_search tr T M k Hm) as Hs. unfold kvs_rbtree_modify. rewrite (mi_nil _ _ _ Hm).
  destruct (M !! k) as [w|] eqn:E; [|rewrite Hs; auto]. destruct Hs as (l & n & r & p & El & _ & -> & _).
  destruct (malloc m) as [ok m1] eqn:E1. destruct ok; cbn [negb]; [|right; split_and!; try done; right; by intros ->].
  left. split_and!; [done|eauto|]. by eapply mirrors_holds, mirrors_replace.
Qed.

Lemma map_size_insert_count (M : gmap (list Z) legacy_value) k v :
  Z.of_nat (size (<[k := v]> M)) = Z.of_nat (size M) + (match M !! k with Some _ => 0 | None => 1 end).
Proof. destruct (M !! k) eqn:E; [rewrite map_size_insert_Some by eauto|rewrite map_size_insert_None by done]; lia. Qed.

Lemma map_size_delete_count (M : gmap (list Z) legacy_value) k :
  Z.of_nat (size (delete k M)) = Z.of_nat (size M) - (match M !! k with Some _ => 1 | None => 0 end).
Proof.
  destruct (M !! k) eqn:E; [|by rewrite delete_id by done; lia]. rewrite <- (insert_delete_id M k _ E) at 2.
  rewrite map_size_insert_None by apply lookup_delete_eq. lia.
Qed.

Lemma tree_count_spec T M : tree_holds T M -> Z.of_nat (size M) <= INT_MAX -> kvs_rbtree_count T = Z.of_nat (size M).
Proof. intros [_ _ _ _ Hc] Hs. unfold kvs_rbtree_count. rewrite Hc. apply to_int_small. lia. Qed.

Lemma create_tree_holds m T m' : kvstore_rbtree_create m = (0, Some T, m') -> tree_holds T ∅.
Proof.
  unfold kvstore_rbtree_create. destruct (malloc m) as [[] m1]; [|done]. cbn. destruct (malloc m1) as [[] m2]; [|done]. cbn.
  intros [= <- _]. split; cbn; try done; [constructor|exists 0%nat; constructor].
Qed.

Lemma upsert_tree_spec m T M k v :
  tree_holds T M ->
  let '(r, T', _) := kvs_rbtree_upsert_bytes m T (Some k) (Some v) in
  r = 0 /\ tree_holds T' (<[k := stored v]> M) \/ r = -1 /\ T' = T /\ (m <> [] \/ zlen k = SIZE_MAX \/ zlen v = SIZE_MAX).
Proof.
  intros Hh. destruct (holds_mirrors T M Hh) as [tr Hm]. pose proof (mirrors_search tr T M k Hm) as Hs. unfold kvs_rbtree_upsert_bytes.
  rewrite (mi_nil _ _ _ Hm). destruct (M !! k) as [w|] eqn:EM.
  - destruct Hs as (l & n & r & p & El & _ & -> & _). pose proof (copy_value_spec m v) as Hv.
    destruct (copy_value m v) as [[x|] m1]; [|right; naive_solver]. subst x. left. split; [done|]. by eapply mirrors_holds, mirrors_replace.
  - rewrite Hs. pose proof (set_tree_spec m T M k v Hh) as Hset. unfold kvs_rbtree_set in Hset. rewrite (mi_nil _ _ _ Hm), EM in Hset.
    destruct (malloc m) as [[] m1]; cbn [negb] in *; [|naive_solver].
    destruct (copy_bytes m1 (Some k)) as [[kc|] m2]; cbn [is_Some_bool negb] in *; [|naive_solver].
    destruct (copy_value m2 v) as [[x|] m3]; [|naive_solver].
    destruct (rbtree_insert T k x) as [q T']. destruct (Z.eqb_spec q 0) as [->|]; cbn [negb] in *; [|naive_solver].
    destruct Hset as [(_ & _ & ?)|[(? & _)|(? & _)]]; [by left|lia..].
Qed.

Lemma get_bytes_tree_spec T M k :
  tree_holds T M -> kvs_rbtree_get_bytes T (Some k) = (lv_data <$> M !! k, Some (default 0 (lv_length <$> M !! k))).
Proof.
  intros Hh. destruct (holds_mirrors T M Hh) as [tr Hm]. pose proof (mirrors_search tr T M k Hm) as Hs. unfold kvs_rbtree_get_bytes.
  rewrite (mi_nil _ _ _ Hm). destruct (M !! k) as [v|]; [|by rewrite Hs]. destruct Hs as (l & n & r & p & _ & _ & -> & <-). done.
Qed.

Lemma delete_bytes_tree_spec T M k :
  tree_holds T M ->
  let '(r, T') := kvs_rbtree_delete_bytes T (Some k) in
  tree_holds T' (delete k M) /\ r = match M !! k with Some _ => 1 | None => 0 end.
Proof.
  intros Hh. pose proof (delete_tree_spec T M k Hh) as Hd. unfold kvs_rbtree_delete in Hd. unfold kvs_rbtree_delete_bytes.
  rewrite (th_nil _ _ Hh) in *. destruct (rbtree_search_bytes k (rbt_root T) []) as [[[|l z r] p]|]; destruct (M !! k); naive_solver.
Qed.

(** ** Destruction *)

Lemma search_mini k t p :
  StronglySorted bytes_lt (tpairs t).*1 -> head (tpairs t).*1 = Some k -> rbtree_search_bytes k t p = Some (rbtree_mini t p).
Proof.
  revert p. induction t as [|l IHl n r _]; intros p Hs Hh; [done|]. cbn in Hs, Hh. rewrite fmap_app in Hs, Hh.
  apply StronglySorted_app_iff in Hs as (Hsl & _ & Hlr). destruct l as [|ll ln lr].
  - cbn in Hh. injection Hh as <-. cbn. by rewrite (proj2 (compare_bytes_eq _ _) eq_refl).
  - assert (Hk : k ∈ (tpairs (Bin ll ln lr)).*1 /\ head (tpairs (Bin ll ln lr)).*1 = Some k).
    { destruct (tpairs (Bin ll ln lr)).*1 as [|x rest] eqn:E; [|cbn in Hh; injection Hh as ->; set_solver].
      exfalso. cbn in E. rewrite fmap_app in E. by apply app_eq_nil in E as [_ [=]]. }
    destruct Hk as [Hk Hhead]. specialize (Hlr k (t_key n) Hk ltac:(set_solver)). unfold bytes_lt in Hlr.
    cbn [rbtree_search_bytes]. destruct (Z.ltb_spec (compare_bytes k (t_key n)) 0); [|lia]. apply (IHl (mk_tframe OnLeft n r :: p)); done.
Qed.

Lemma tsize_holds T M : tree_holds T M -> tsize (rbt_root T) = size M.
Proof.
  intros [_ Hs -> _ _]. apply sorted_distinct in Hs. rewrite map_size_list_to_map by done. clear Hs.
  induction (rbt_root T) as [|l IHl n r IHr]; [done|]. cbn. rewrite length_app. cbn. lia.
Qed.

Definition pair_of (n : rbtree_node) : list Z * legacy_value := (t_key n, t_value n).

Lemma destroy_frees fuel T M :
  tree_holds T M -> (size M <= fuel)%nat ->
  let '(nodes, t) := destroy_nodes fuel (rbt_root T) in (pair_of <$> nodes) ≡ₚ map_to_list M /\ t = Nil.
Proof.
  revert T M. induction fuel as [|fuel IH]; intros T M Hh Hf.
  1: pose proof (tsize_holds T M Hh) as Hz; destruct (rbt_root T) as [|l n r] eqn:E; [|cbn in Hz; lia].
  2: destruct (rbt_root T) as [|l n r] eqn:E.
  1,2: destruct Hh as [_ _ HM _ _]; rewrite E in HM; cbn in HM; subst; cbn; by rewrite map_to_list_empty.
  destruct (holds_mirrors T M Hh) as [tr Hm]. cbn [destroy_nodes].
  assert (Hk : exists k v rest, tpairs (Bin l n r) = (k, v) :: rest).
  { destruct (tpairs (Bin l n r)) as [|[k v] rest] eqn:Ep; [|eauto]. cbn in Ep. by apply app_eq_nil in Ep as [_ [=]]. }
  destruct Hk as (k & v & rest & Ep). pose proof (search_mini k (Bin l n r) []) as Hsm. rewrite Ep in Hsm.
  assert (HMk : is_Some (M !! k)).
  { rewrite (mi_dom _ _ _ Hm). rewrite <- keyed_members, <- (mi_keyed _ _ _ Hm). pose proof (mi_root _ _ _ Hm) as Hr. rewrite E in Hr.
    rewrite Hr, tpairs_plain in Ep. destruct (elems (rb_root tr)) as [|x xs]; [done|]. injection Ep as <- _ _. cbn. set_solver. }
  destruct HMk as [w HMk]. pose proof (mirrors_search tr T M k Hm) as Hs. rewrite HMk, E in Hs.
  destruct Hs as (l0 & n0 & r0 & p0 & El & Hn0 & Hsearch & Hval). rewrite Hsearch in Hsm.
  specialize (Hsm ltac:(pose proof (th_sorted _ _ Hh) as Hso; rewrite E, Ep in Hso; exact Hso) eq_refl).
  apply (inj Some) in Hsm. rewrite <- Hsm.
  pose proof (plain_delete M tr k l0 n0 r0 p0 El) as Hdel. pose proof (mirrors_delete tr T M k w l0 n0 r0 p0 Hm HMk El) as Hm'.
  unfold delete_found in Hm'. destruct (rbtree_delete _ _ _ _) as [freed t'] eqn:Ed. cbn [snd] in Hm'. injection Hdel as -> _.
  apply mirrors_holds in Hm'. specialize (IH _ _ Hm'). cbn [rbt_root] in IH.
  assert (Hsz : size (delete k M) = Nat.pred (size M)) by (by apply map_size_delete_Some).
  specialize (IH ltac:(lia)). destruct (destroy_nodes fuel t') as [nodes t'']. destruct IH as [IH ->]. split; [|done].
  match goal with |- context [option_list (Some ?x) ++ ?l] => change (option_list (Some x) ++ l) with (x :: l) end. rewrite fmap_cons, IH. unfold pair_of. cbn [t_key t_value]. rewrite Hn0. unfold value_in. rewrite HMk. cbn [default].
  rewrite <- (insert_delete_id M k w) at 2 by done. by rewrite map_to_list_insert by (by rewrite lookup_delete_eq).
Qed.

(** ** Properties *)

(** C10. The red-black tree engine is a finite map while it has fewer than
    [INT_MAX] keys: it stays sorted and balanced, its [int] count is the number of
    its keys before and after every operation, an upsert binds the key and fails
    without an effect only when an allocation fails, a lookup returns the bound
    bytes with their length, a deletion unbinds the key and tells whether it was
    bound, and destroying the tree frees every node exactly once. *)
Theorem rbtree_engine_correct m T M k v :
  tree_holds T M -> Z.of_nat (size M) < INT_MAX ->
  kvs_rbtree_count T = Z.of_nat (size M) /\
  (let '(r, T', _) := kvs_rbtree_upsert_bytes m T (Some k) (Some v) in
   r = 0 /\ tree_holds T' (<[k := stored v]> M) /\
     kvs_rbtree_count T' = Z.of_nat (size M) + (match M !! k with Some _ => 0 | None => 1 end) \/
   r = -1 /\ T' = T /\ (m <> [] \/ zlen k = SIZE_MAX \/ zlen v = SIZE_MAX)) /\
  kvs_rbtree_get_bytes T (Some k) = (lv_data <$> M !! k, Some (default 0 (lv_length <$> M !! k))) /\
  (let '(r, T') := kvs_rbtree_delete_bytes T (Some k) in
   tree_holds T' (delete k M) /\ r = (match M !! k with Some _ => 1 | None => 0 end) /\
   kvs_rbtree_count T' = Z.of_nat (size M) - r) /\
  (let '(nodes, T') := kvstore_rbtree_destory T in
   (pair_of <$> nodes) ≡ₚ map_to_list M /\ T' = mk_rbtree Nil false 0).
Proof.
  intros Hh Hs. split_and!; [apply tree_count_spec; [done|lia]| |by apply get_bytes_tree_spec| |].
  - pose proof (upsert_tree_spec m T M k v Hh) as Hu. destruct (kvs_rbtree_upsert_bytes _ _ _ _) as [[r T'] m'].
    destruct Hu as [[-> Hh']|Hu]; [left|by right]. split_and!; [done..|].
    pose proof (map_size_insert_count M k (stored v)). rewrite (tree_count_spec _ _ Hh'); destruct (M !! k); lia.
  - pose proof (delete_bytes_tree_spec T M k Hh) as Hd. destruct (kvs_rbtree_delete_bytes _ _) as [r T']. destruct Hd as [Hh' ->].
    split_and!; [done..|]. pose proof (map_size_delete_count M k). rewrite (tree_count_spec _ _ Hh'); destruct (M !! k); lia.
  - unfold kvstore_rbtree_destory. rewrite (th_nil _ _ Hh). cbn [negb]. pose proof (destroy_frees _ T M Hh (Nat.le_refl _)) as Hd.
    rewrite (tsize_holds T M Hh). destruct (destroy_nodes _ _) as [nodes t]. by destruct Hd.
Qed.

(** A tree of five keys. *)
Definition build_engine (keys : list Z) : rbtree :=
  foldr (fun k T => (kvs_rbtree_upsert_bytes [] T (Some [k]) (Some [k; k])).1.2) (mk_rbtree Nil true 0) keys.

Definition build_map (keys : list Z) : gmap (list Z) legacy_value := foldr (fun k M => <[[k] := stored [k; k]]> M) ∅ keys.

Lemma build_holds keys : tree_holds (build_engine keys) (build_map keys).
Proof.
  induction keys as [|k keys IH]; [by apply (create_tree_holds [] _ [])|]. cbn [build_engine build_map foldr].
  pose proof (upsert_tree_spec [] (build_engine keys) (build_map keys) [k] [k; k] IH) as H. unfold build_engine in *.
  destruct (kvs_rbtree_upsert_bytes _ _ _ _) as [[r T'] m]. destruct H as [[_ ?]|(_ & _ & [?|[?|?]])]; done.
Qed.

Lemma rbtree_engine_correct_witness :
  kvs_rbtree_get_bytes (build_engine [5; 1; 4; 2; 3]) (Some [4]) = (Some [4; 4; 0], Some 2) /\
  let '(r, T') := kvs_rbtree_delete_bytes (build_engine [5; 1; 4; 2; 3]) (Some [4]) in
  tree_holds T' (delete [4] (build_map [5; 1; 4; 2; 3])) /\ r = 1 /\ kvs_rbtree_count T' = 4.
Proof.
  assert (Hs : Z.of_nat (size (build_map [5; 1; 4; 2; 3])) < INT_MAX) by (vm_compute; done).
  destruct (rbtree_engine_correct [] _ _ [4] [9] (build_holds [5; 1; 4; 2; 3]) Hs) as (_ & _ & H1 & H2 & _).
  split; [exact H1|exact H2].
Defined.
