(* ===== verification/LegacyEngines.v ===== *)
(** The array engine of the text protocol ([src/kvstore_array.c]), and the
    interface that the three engines of the protocol share: the operations of
    [include/kvstore.h] with the laws of a finite map from strings to strings. *)

From S2P Require Import Prelude HashTable ZOrder ZRbTree LegacyTree LegacyTreeProps.

(** ** The array *)

Definition KVS_ARRAY_SIZE : Z := 1024.

(** A slot: the copies of a key (without its NUL) and of a value (with it). *)
Definition kvs_array_item : Type := option (list Z * list Z).

Record array_t : Type := mk_array { array_table : list kvs_array_item; array_idx : Z }.

Definition kvstore_array_create (m : mem) (arr : array_t) : Z * array_t * mem :=
  let '(ok, m) := malloc m in
  if negb ok then (-1, mk_array [] (array_idx arr), m) else
  (0, mk_array (replicate (Z.to_nat KVS_ARRAY_SIZE) None) 0, m).

Definition kvstore_array_destory (arr : array_t) : array_t := mk_array [] 0.

(** The loops over the slots in use: the index of the key. *)
Fixpoint find_slot (key : list Z) (l : list kvs_array_item) (i : nat) : option nat :=
  match l with
  | [] => None
  | x :: l =>
      if match x with Some (k, _) => bool_decide (k = key) | None => false end then Some i else find_slot key l (S i)
  end.

Definition find_key (arr : array_t) (key : list Z) : option nat :=
  find_slot key (take (Z.to_nat (array_idx arr)) (array_table arr)) 0.

Definition kvs_array_set (m : mem) (arr : array_t) (key value : option (list Z)) : Z * array_t * mem :=
  match key, value with
  | Some key, Some value =>
      if array_idx arr =? KVS_ARRAY_SIZE then (-1, arr, m) else
      if is_Some_bool (find_key arr key) then (1, arr, m) else
      let '(ok, m) := malloc m in
      if negb ok then (-1, arr, m) else
      let '(ok, m) := malloc m in
      if negb ok then (-1, arr, m) else
      (0, mk_array (<[Z.to_nat (array_idx arr) := Some (key, value ++ [0])]> (array_table arr)) (array_idx arr + 1), m)
  | _, _ => (-1, arr, m)
  end.

Definition kvs_array_get (arr : array_t) (key : option (list Z)) : option (list Z) :=
  key ≫= fun key => find_key arr key ≫= fun i => snd <$> mjoin (array_table arr !! i).

Definition kvs_array_del (arr : array_t) (key : option (list Z)) : Z * array_t :=
  match key with
  | None => (-1, arr)
  | Some key =>
      match find_key arr key with
      | None => (1, arr)
      | Some i =>
          let last := Z.to_nat (array_idx arr - 1) in
          let table := <[i := None]> (array_table arr) in
          let table := if decide (i <> last) then <[i := mjoin (table !! last)]> table else table in
          (0, mk_array (<[last := None]> table) (array_idx arr - 1))
      end
  end.

Definition kvs_array_mod (m : mem) (arr : array_t) (key value : option (list Z)) : Z * array_t * mem :=
  match key, value with
  | Some key, Some value =>
      match find_key arr key with
      | None => (1, arr, m)
      | Some i =>
          let '(ok, m) := malloc m in
          if negb ok then (-1, arr, m) else
          (0, mk_array (<[i := Some (key, value ++ [0])]> (array_table arr)) (array_idx arr), m)
      end
  | _, _ => (-1, arr, m)
  end.

Definition kvs_array_count (arr : array_t) : Z := array_idx arr.

(** ** The array holds a map *)

Definition slot (x : list Z * list Z) : kvs_array_item := Some (x.1, x.2 ++ [0]).

Definition slots_of (items : list (list Z * list Z)) : list kvs_array_item :=
  (slot <$> items) ++ replicate (Z.to_nat KVS_ARRAY_SIZE - length items) None.

Record array_shows (arr : array_t) (items : list (list Z * list Z)) (M : gmap (list Z) (list Z)) : Prop := {
  as_table : array_table arr = slots_of items;
  as_idx : array_idx arr = zlen items;
  as_room : zlen items <= KVS_ARRAY_SIZE;
  as_distinct : NoDup items.*1;
  as_map : M = list_to_map items
}.

Definition array_holds (arr : array_t) (M : gmap (list Z) (list Z)) : Prop := exists items, array_shows arr items M.

Lemma find_slot_spec key items i :
  match find_slot key (slot <$> items) i with
  | Some j => exists a v b, items = a ++ (key, v) :: b /\ j = (i + length a)%nat
  | None => key ∉ items.*1
  end.
Proof.
  revert i. induction items as [|[k v] items IH]; intros i; cbn; [by intros ?%elem_of_nil|]. destruct (bool_decide_reflect (k = key)) as [->|Hne].
  - exists [], v, items. cbn. split; [done|lia].
  - specialize (IH (S i)). destruct (find_slot key _ _) as [j|].
    + destruct IH as (a & w & b & -> & ->). exists ((k, v) :: a), w, b. cbn. split; [done|lia].
    + by rewrite not_elem_of_cons.
Qed.

Lemma shows_find arr items M key :
  array_shows arr items M ->
  match find_key arr key with
  | Some j => exists a v b, items = a ++ (key, v) :: b /\ j = length a /\ M !! key = Some v
  | None => M !! key = None /\ key ∉ items.*1
  end.
Proof.
  intros [Ht Hi _ Hnd ->]. unfold find_key. rewrite Ht, Hi. unfold slots_of, zlen. rewrite Nat2Z.id, take_app_length' by (by rewrite length_fmap).
  pose proof (find_slot_spec key items 0) as H. destruct (find_slot _ _ _) as [j|].
  - destruct H as (a & v & b & -> & ->). exists a, v, b. split_and!; try done. apply elem_of_list_to_map_1; [done|]. set_solver.
  - split; [by apply not_elem_of_list_to_map_1|done].
Qed.

Lemma slots_append items x :
  zlen items < KVS_ARRAY_SIZE -> <[length items := slot x]> (slots_of items) = slots_of (items ++ [x]).
Proof.
  intros Hl. unfold slots_of. rewrite insert_app_r_alt by (by rewrite length_fmap). rewrite length_fmap, Nat.sub_diag, fmap_app, length_app. cbn [length fmap list_fmap].
  unfold zlen in Hl. replace (Z.to_nat KVS_ARRAY_SIZE - length items)%nat with (S (Z.to_nat KVS_ARRAY_SIZE - (length items + 1))) by lia.
  cbn. by rewrite <- app_assoc.
Qed.

Lemma slots_write a x y b : <[length a := slot y]> (slots_of (a ++ x :: b)) = slots_of (a ++ y :: b).
Proof.
  unfold slots_of. rewrite !fmap_app, !fmap_cons, <- !app_assoc. rewrite insert_app_r_alt by (by rewrite length_fmap).
  rewrite length_fmap, Nat.sub_diag, !length_app. done.
Qed.

Lemma slots_drop_last items x : zlen (items ++ [x]) <= KVS_ARRAY_SIZE -> <[length items := None]> (slots_of (items ++ [x])) = slots_of items.
Proof.
  intros Hl. unfold slots_of, zlen in *. rewrite fmap_app, length_app, <- app_assoc in *. rewrite insert_app_r_alt by (by rewrite length_fmap).
  rewrite length_fmap, Nat.sub_diag. cbn [length] in *. cbn.
  replace (Z.to_nat KVS_ARRAY_SIZE - length items)%nat with (S (Z.to_nat KVS_ARRAY_SIZE - (length items + 1))) by lia. done.
Qed.

Lemma slots_lookup a x b : slots_of (a ++ x :: b) !! length a = Some (slot x).
Proof.
  unfold slots_of. rewrite fmap_app, fmap_cons, <- app_assoc, lookup_app_r by (by rewrite length_fmap). by rewrite length_fmap, Nat.sub_diag.
Qed.

Lemma array_set_spec m arr M k v :
  array_holds arr M ->
  let '(r, arr', _) := kvs_array_set m arr (Some k) (Some v) in
  r = 0 /\ M !! k = None /\ array_holds arr' (<[k := v]> M) \/
  r = 1 /\ is_Some (M !! k) /\ arr' = arr \/
  r = -1 /\ arr' = arr /\ (m <> [] \/ Z.of_nat (size M) = KVS_ARRAY_SIZE).
Proof.
  intros [items Hs]. pose proof (shows_find arr items M k Hs) as Hf. pose proof Hs as [Ht Hi Hr Hnd HM]. cbn [kvs_array_set].
  destruct (Z.eqb_spec (array_idx arr) KVS_ARRAY_SIZE) as [Hfull|Hroom].
  { right. right. split_and!; try done. right. rewrite HM, map_size_list_to_map by done. unfold zlen in *. lia. }
  destruct (find_key arr k) as [j|]; cbn [is_Some_bool].
  { destruct Hf as (a & w & b & _ & _ & ->). right. left. eauto. }
  destruct (malloc m) as [ok m1] eqn:E1. destruct ok; cbn [negb]; [|right; right; split_and!; try done; left; by intros ->].
  destruct (malloc m1) as [ok m2] eqn:E2. destruct ok; cbn [negb].
  2: { right. right. split_and!; try done. left. intros ->. cbn in E1. injection E1 as <-. by cbn in E2. }
  left. destruct Hf as [HMk Hk]. split_and!; [done|done|]. exists (items ++ [(k, v)]). split; cbn [array_table array_idx].
  - rewrite Ht, Hi. unfold zlen. rewrite Nat2Z.id. apply (slots_append items (k, v)). lia.
  - rewrite Hi. unfold zlen. rewrite length_app. cbn. lia.
  - unfold zlen in *. rewrite length_app. cbn. lia.
  - rewrite fmap_app. apply NoDup_app. split_and!; [done|set_solver|apply NoDup_singleton].
  - rewrite HM. apply map_eq. intros j. rewrite list_to_map_app, lookup_union. cbn. destruct (decide (j = k)) as [->|Hne].
    + rewrite !lookup_insert_eq. by rewrite <- HM, HMk.
    + rewrite !lookup_insert_ne by done. rewrite lookup_empty. by destruct (list_to_map items !! j).
Qed.

Lemma array_get_spec arr M k : array_holds arr M -> kvs_array_get arr (Some k) = (fun v => v ++ [0]) <$> M !! k.
Proof.
  intros [items Hs]. pose proof (shows_find arr items M k Hs) as Hf. unfold kvs_array_get. cbn. destruct (find_key arr k) as [j|]; cbn.
  - destruct Hf as (a & v & b & -> & -> & ->). by rewrite (as_table _ _ _ Hs), slots_lookup.
  - by destruct Hf as [-> _].
Qed.

Lemma array_mod_spec m arr M k v :
  array_holds arr M ->
  let '(r, arr', _) := kvs_array_mod m arr (Some k) (Some v) in
  r = 0 /\ is_Some (M !! k) /\ array_holds arr' (<[k := v]> M) \/ r = 1 /\ M !! k = None /\ arr' = arr \/
  r = -1 /\ is_Some (M !! k) /\ arr' = arr /\ m <> [].
Proof.
  intros [items Hs]. pose proof (shows_find arr items M k Hs) as Hf. cbn [kvs_array_mod]. destruct (find_key arr k) as [j|]; [|naive_solver].
  destruct Hf as (a & w & b & -> & -> & HMk). destruct Hs as [Ht Hi Hr Hnd HM].
  destruct (malloc m) as [ok m1] eqn:E1. destruct ok; cbn [negb]; [|right; right; split_and!; eauto; by intros ->].
  left. split_and!; [done|eauto|]. exists (a ++ (k, v) :: b). split; cbn [array_table array_idx].
  - rewrite Ht. apply (slots_write a (k, w) (k, v)).
  - rewrite Hi. unfold zlen. by rewrite !length_app.
  - unfold zlen in *. by rewrite length_app in *.
  - by rewrite fmap_app, fmap_cons in *.
  - rewrite HM. apply map_eq. intros j. rewrite fmap_app, fmap_cons in Hnd. cbn in Hnd. rewrite !list_to_map_app, !list_to_map_cons. destruct (decide (j = k)) as [->|Hne].
    + rewrite lookup_insert_eq, lookup_union, lookup_insert_eq. rewrite (not_elem_of_list_to_map_1 a k); [done|].
      apply NoDup_app in Hnd as (_ & Hd & _). intros Hx. apply (Hd k Hx). set_solver.
    + rewrite lookup_insert_ne by done. by rewrite !lookup_union, !lookup_insert_ne by done.
Qed.

Lemma array_del_spec arr M k :
  array_holds arr M ->
  let '(r, arr') := kvs_array_del arr (Some k) in
  array_holds arr' (delete k M) /\ r = match M !! k with Some _ => 0 | None => 1 end.
Proof.
  intros [items Hs]. pose proof (shows_find arr items M k Hs) as Hf. cbn [kvs_array_del]. destruct (find_key arr k) as [j|].
  2: { destruct Hf as [HMk _]. rewrite HMk. split; [|done]. rewrite delete_id by done. by exists items. }
  destruct Hf as (a & w & b & -> & -> & HMk). rewrite HMk. split; [|done]. destruct Hs as [Ht Hi Hr Hnd HM].
  assert (Hrest : forall rest, rest ≡ₚ a ++ b -> array_holds (mk_array (slots_of rest) (array_idx arr - 1)) (delete k M)).
  { intros rest Hp. assert (Hperm : a ++ (k, w) :: b ≡ₚ (k, w) :: rest) by (rewrite Hp; by rewrite Permutation_middle).
    assert (Hnd' : NoDup ((k, w) :: rest).*1) by (by rewrite <- Hperm). exists rest. split; cbn [array_table array_idx].
    - done.
    - rewrite Hi. unfold zlen. rewrite Hperm. cbn. lia.
    - unfold zlen in *. rewrite Hperm in Hr. cbn in Hr. lia.
    - cbn in Hnd'. by apply NoDup_cons in Hnd' as [_ ?].
    - rewrite HM, (list_to_map_proper _ _ Hnd Hperm). cbn. cbn in Hnd'. apply NoDup_cons in Hnd' as [Hk _].
      by rewrite delete_insert_id by (by apply not_elem_of_list_to_map_1). }
  assert (Hlast : Z.to_nat (array_idx arr - 1) = (length a + length b)%nat) by (rewrite Hi; unfold zlen; rewrite length_app; cbn; lia).
  rewrite Hlast, Ht. destruct b as [|y b _] using rev_ind.
  - rewrite decide_False by (cbn; lia). cbn [length]. rewrite Nat.add_0_r, list_insert_insert_eq.
    rewrite slots_drop_last by done. apply Hrest. by rewrite app_nil_r.
  - rewrite length_app. cbn [length]. rewrite decide_True by lia.
    replace (length a + (length b + 1))%nat with (length (a ++ (k, w) :: b)) by (rewrite length_app; cbn; lia).
    rewrite list_lookup_insert_ne by (rewrite length_app; cbn; lia).
    replace (a ++ (k, w) :: b ++ [y]) with ((a ++ (k, w) :: b) ++ [y]) in * by (by rewrite <- app_assoc).
    rewrite slots_lookup. cbn [mjoin option_join]. rewrite list_insert_insert_eq.
    replace ((a ++ (k, w) :: b) ++ [y]) with (a ++ (k, w) :: b ++ [y]) by (by rewrite <- app_assoc). rewrite slots_write.
    replace (a ++ y :: b ++ [y]) with ((a ++ y :: b) ++ [y]) by (by rewrite <- app_assoc).
    replace (length (a ++ (k, w) :: b)) with (length (a ++ y :: b)) by (by rewrite !length_app).
    rewrite slots_drop_last by (unfold zlen in *; rewrite !length_app in *; cbn in *; lia). apply Hrest. rewrite Permutation_app_comm with (l := b). done.
Qed.

(** ** The interface of an engine *)

(** The operations that the text protocol calls, with the result that stands for
    a missing key and the number of keys that always fit. *)
Class KvEngine (E : Type) : Type := {
  eng_set : mem -> E -> option (list Z) -> option (list Z) -> Z * E * mem;
  eng_get : E -> option (list Z) -> option (list Z);
  eng_del : E -> option (list Z) -> Z * E;
  eng_mod : mem -> E -> option (list Z) -> option (list Z) -> Z * E * mem;
  eng_count : E -> Z;
  eng_missing : Z;
  eng_capacity : Z;
  eng_holds : E -> gmap (list Z) (list Z) -> Prop;
  eng_missing_ok : eng_missing = 1 \/ eng_missing = -1;
  eng_set_ok m e M k v : eng_holds e M -> zlen k < 2 ^ 62 -> zlen v < 2 ^ 62 ->
    let '(r, e', _) := eng_set m e (Some k) (Some v) in
    r = 0 /\ M !! k = None /\ eng_holds e' (<[k := v]> M) \/
    r <> 0 /\ eng_holds e' M /\ (m = [] -> Z.of_nat (size M) < eng_capacity -> is_Some (M !! k));
  eng_get_ok e M k : eng_holds e M -> eng_get e (Some k) = (fun v => v ++ [0]) <$> M !! k;
  eng_del_ok e M k : eng_holds e M ->
    let '(r, e') := eng_del e (Some k) in
    eng_holds e' (delete k M) /\ r = match M !! k with Some _ => 0 | None => eng_missing end;
  eng_mod_ok m e M k v : eng_holds e M -> zlen v < 2 ^ 62 ->
    let '(r, e', _) := eng_mod m e (Some k) (Some v) in
    r = 0 /\ is_Some (M !! k) /\ eng_holds e' (<[k := v]> M) \/
    r = eng_missing /\ M !! k = None /\ eng_holds e' M \/
    r = -1 /\ is_Some (M !! k) /\ eng_holds e' M /\ m <> [];
  eng_count_ok e M : eng_holds e M -> Z.of_nat (size M) <= INT_MAX -> eng_count e = Z.of_nat (size M)
}.

(** ** The three engines *)

Lemma array_set_law m arr M k v : array_holds arr M -> zlen k < 2 ^ 62 -> zlen v < 2 ^ 62 ->
  let '(r, arr', _) := kvs_array_set m arr (Some k) (Some v) in
  r = 0 /\ M !! k = None /\ array_holds arr' (<[k := v]> M) \/
  r <> 0 /\ array_holds arr' M /\ (m = [] -> Z.of_nat (size M) < KVS_ARRAY_SIZE -> is_Some (M !! k)).
Proof.
  intros Hh _ _. pose proof (array_set_spec m arr M k v Hh) as H. destruct (kvs_array_set _ _ _ _) as [[r arr'] m'].
  destruct H as [H|[(-> & ? & ->)|(-> & -> & Hm)]]; [by left|right; split_and!; done|right]. split_and!; [done|done|]. intros. destruct Hm; [done|lia].
Qed.

Lemma array_mod_law m arr M k v : array_holds arr M -> zlen v < 2 ^ 62 ->
  let '(r, arr', _) := kvs_array_mod m arr (Some k) (Some v) in
  r = 0 /\ is_Some (M !! k) /\ array_holds arr' (<[k := v]> M) \/
  r = 1 /\ M !! k = None /\ array_holds arr' M \/ r = -1 /\ is_Some (M !! k) /\ array_holds arr' M /\ m <> [].
Proof.
  intros Hh _. pose proof (array_mod_spec m arr M k v Hh) as H. destruct (kvs_array_mod _ _ _ _) as [[r arr'] m'].
  destruct H as [H|[(-> & ? & ->)|(-> & ? & -> & ?)]]; [by left|right; by left|right; right; by split_and!].
Qed.

Lemma array_count_law arr M : array_holds arr M -> Z.of_nat (size M) <= INT_MAX -> kvs_array_count arr = Z.of_nat (size M).
Proof. intros [items [_ Hi _ Hnd ->]] _. unfold kvs_array_count. rewrite Hi, map_size_list_to_map by done. done. Qed.

#[export] Instance array_engine : KvEngine array_t := {|
  eng_set := kvs_array_set; eng_get := kvs_array_get; eng_del := kvs_array_del; eng_mod := kvs_array_mod; eng_count := kvs_array_count;
  eng_missing := 1; eng_capacity := KVS_ARRAY_SIZE; eng_holds := array_holds;
  eng_missing_ok := or_introl eq_refl;
  eng_set_ok := array_set_law; eng_get_ok := array_get_spec; eng_del_ok := array_del_spec; eng_mod_ok := array_mod_law;
  eng_count_ok := array_count_law
|}.

(** The tree and the hash table keep values with their length. *)
Definition tree_keeps (T : rbtree) (M : gmap (list Z) (list Z)) : Prop := tree_holds T (stored <$> M).

Definition hash_keeps (h : hashtable legacy_value) (M : gmap (list Z) (list Z)) : Prop := hash_wf h /\ to_map h = stored <$> M.

Lemma stored_data (M : gmap (list Z) (list Z)) k : lv_data <$> (stored <$> M) !! k = (fun v => v ++ [0]) <$> M !! k.
Proof. rewrite lookup_fmap. by destruct (M !! k). Qed.

Lemma size_stored (M : gmap (list Z) (list Z)) : size (stored <$> M) = size M.
Proof. apply map_size_fmap. Qed.

Lemma stored_bound (M : gmap (list Z) (list Z)) k : is_Some ((stored <$> M) !! k) <-> is_Some (M !! k).
Proof. by rewrite lookup_fmap, fmap_is_Some. Qed.

Lemma stored_absent (M : gmap (list Z) (list Z)) k : (stored <$> M) !! k = None <-> M !! k = None.
Proof. by rewrite lookup_fmap, fmap_None. Qed.

Lemma tree_set_law m T M k v : tree_keeps T M -> zlen k < 2 ^ 62 -> zlen v < 2 ^ 62 ->
  let '(r, T', _) := kvs_rbtree_set m T (Some k) (Some v) in
  r = 0 /\ M !! k = None /\ tree_keeps T' (<[k := v]> M) \/
  r <> 0 /\ tree_keeps T' M /\ (m = [] -> Z.of_nat (size M) < INT_MAX -> is_Some (M !! k)).
Proof.
  intros Hh Hk Hv. pose proof (set_tree_spec m T _ k v Hh) as H. destruct (kvs_rbtree_set _ _ _ _) as [[r T'] m'].
  rewrite stored_bound, stored_absent, <- fmap_insert in H. destruct H as [H|[(-> & ? & ->)|(-> & -> & Hm)]]; [by left|by right|right].
  split_and!; [done|done|]. unfold SIZE_MAX in Hm. intros -> _. destruct Hm as [?|[?|?]]; [done|lia..].
Qed.

Lemma tree_get_law T M k : tree_keeps T M -> kvs_rbtree_get T (Some k) = (fun v => v ++ [0]) <$> M !! k.
Proof. intros Hh. rewrite (get_tree_spec T _ k Hh). apply stored_data. Qed.

Lemma tree_del_law T M k : tree_keeps T M ->
  let '(r, T') := kvs_rbtree_delete T (Some k) in
  tree_keeps T' (delete k M) /\ r = match M !! k with Some _ => 0 | None => -1 end.
Proof.
  intros Hh. pose proof (delete_tree_spec T _ k Hh) as H. destruct (kvs_rbtree_delete _ _) as [r T']. rewrite <- fmap_delete, lookup_fmap in H.
  destruct H as [? ->]. split; [done|]. by destruct (M !! k).
Qed.

Lemma tree_mod_law m T M k v : tree_keeps T M -> zlen v < 2 ^ 62 ->
  let '(r, T', _) := kvs_rbtree_modify m T (Some k) (Some v) in
  r = 0 /\ is_Some (M !! k) /\ tree_keeps T' (<[k := v]> M) \/
  r = -1 /\ M !! k = None /\ tree_keeps T' M \/ r = -1 /\ is_Some (M !! k) /\ tree_keeps T' M /\ m <> [].
Proof.
  intros Hh _. pose proof (modify_tree_spec m T _ k v Hh) as H. destruct (kvs_rbtree_modify _ _ _ _) as [[r T'] m'].
  rewrite stored_bound, stored_absent, <- fmap_insert in H. destruct H as [H|(-> & -> & Hm)]; [by left|right].
  destruct (M !! k) eqn:E; [|by left]. right. destruct Hm as [?|?]; [done|]. split_and!; eauto.
Qed.

Lemma tree_count_law T M : tree_keeps T M -> Z.of_nat (size M) <= INT_MAX -> kvs_rbtree_count T = Z.of_nat (size M).
Proof. intros Hh Hs. rewrite (tree_count_spec T _ Hh); by rewrite size_stored. Qed.

#[export] Instance tree_engine : KvEngine rbtree := {|
  eng_set := kvs_rbtree_set; eng_get := kvs_rbtree_get; eng_del := kvs_rbtree_delete; eng_mod := kvs_rbtree_modify; eng_count := kvs_rbtree_count;
  eng_missing := -1; eng_capacity := INT_MAX; eng_holds := tree_keeps;
  eng_missing_ok := or_intror eq_refl;
  eng_set_ok := tree_set_law; eng_get_ok := tree_get_law; eng_del_ok := tree_del_law; eng_mod_ok := tree_mod_law;
  eng_count_ok := tree_count_law
|}.

Lemma hash_set_law m h M k v : hash_keeps h M -> zlen k < 2 ^ 62 -> zlen v < 2 ^ 62 ->
  let '(r, h', _) := kvs_hash_set m h (Some k) (Some v) in
  r = 0 /\ M !! k = None /\ hash_keeps h' (<[k := v]> M) \/
  r <> 0 /\ hash_keeps h' M /\ (m = [] -> Z.of_nat (size M) < INT_MAX -> is_Some (M !! k)).
Proof.
  intros [Hw Hm] Hk Hv. change (kvs_hash_set m h (Some k) (Some v)) with (set_bytes m h (Some k) (Some v) false).
  pose proof (set_bytes_correct m h k v false Hw) as H.
  assert (Hgood : m = [] -> Z.of_nat (size M) < INT_MAX -> M !! k = None -> (set_bytes m h (Some k) (Some v) false).1.1 <> -1).
  { intros -> Hs HMk. unfold set_bytes. cbn [is_Some_bool negb orb]. destruct (rehash_step_map h 1 Hw ltac:(lia)) as (Hw1 & Hm1 & Hc1).
    set (h1 := (kv_hash_rehash_step h 1).2) in *. assert (Hnone : to_map h1 !! k = None) by (rewrite Hm1, Hm; by apply stored_absent).
    pose proof (proj2 (find_None_map h1 k Hw1) Hnone) as ->. cbn [is_Some_bool andb]. unfold legacy_value_create, copy_bytes. cbn [malloc negb slice_len].
    destruct (Z.eqb_spec (zlen v) SIZE_MAX) as [Hz|_]; [unfold SIZE_MAX in Hz; lia|]. cbn [malloc].
    pose proof (insert_succeeds h1 k (mk_legacy (v ++ [0]) (zlen v)) Hw1 Hnone) as Hi.
    destruct (kv_hash_insert _ _ _ _) as [[[r n] h2] m2]. cbn in Hi. rewrite (count_size h1 Hw1), Hm1, Hm, size_stored in Hi.
    destruct Hi as [-> _]; [unfold INT_MAX in Hs; lia|lia|]. done. }
  destruct (set_bytes m h (Some k) (Some v) false) as [[r h'] m']. cbn [fst] in Hgood. rewrite Hm, stored_absent, stored_bound, <- fmap_insert in H.
  destruct H as (Hw' & [(-> & ? & [?|?])|[(-> & ? & ? & _)|(-> & ?)]]); [left; by split_and!|done|right; by split_and!|right; split_and!; [done|done|]].
  intros Em Hs. destruct (M !! k) eqn:E; [eauto|]. by specialize (Hgood Em Hs eq_refl).
Qed.

Lemma hash_get_law h M k : hash_keeps h M -> kvs_hash_get h (Some k) = (fun v => v ++ [0]) <$> M !! k.
Proof.
  intros [Hw Hm]. cbn [kvs_hash_get]. rewrite <- stored_data, <- Hm. destruct (kv_hash_find h (Some k)) as [n|] eqn:E.
  - by destruct (find_node_spec h k n Hw E) as (_ & _ & ->).
  - apply find_None_map in E; [|done]. by rewrite E.
Qed.

Lemma hash_del_law h M k : hash_keeps h M ->
  let '(r, h') := kvs_hash_delete h (Some k) in
  hash_keeps h' (delete k M) /\ r = match M !! k with Some _ => 0 | None => -1 end.
Proof.
  intros [Hw Hm]. cbn [kvs_hash_delete]. pose proof (kv_hash_remove_correct h k Hw) as H. destruct (kv_hash_remove h (Some k)) as [p h'].
  rewrite Hm, <- fmap_delete, lookup_fmap in H. destruct H as (Hw' & -> & Hm'). destruct (M !! k); cbn; by split_and!.
Qed.

Lemma hash_mod_law m h M k v : hash_keeps h M -> zlen v < 2 ^ 62 ->
  let '(r, h', _) := kvs_hash_modify m h (Some k) (Some v) in
  r = 0 /\ is_Some (M !! k) /\ hash_keeps h' (<[k := v]> M) \/
  r = -1 /\ M !! k = None /\ hash_keeps h' M \/ r = -1 /\ is_Some (M !! k) /\ hash_keeps h' M /\ m <> [].
Proof.
  intros [Hw Hm] Hv. cbn [kvs_hash_modify]. destruct (kv_hash_find h (Some k)) as [n|] eqn:E.
  2: { apply find_None_map in E; [|done]. rewrite Hm in E. apply stored_absent in E. right. left. by split_and!. }
  destruct (find_node_spec h k n Hw E) as (Hk & _ & Hl). pose proof Hl as Hl'. rewrite Hm in Hl'. assert (Hs : is_Some (M !! k)) by (apply stored_bound; by rewrite Hl').
  pose proof (legacy_value_create_spec m v) as Hc. destruct (legacy_value_create m (Some v) (zlen v)) as [[x|] m'].
  - subst x. destruct (set_payload_spec h n (stored v) Hw) as [Hw' Hm']. left. split_and!; [done|done|]. split; [done|]. rewrite Hm', Hk, fmap_insert, Hm.
    apply map_eq. intros j. rewrite lookup_alter, lookup_insert. case_decide; [subst; by rewrite Hl'|done].
  - right. right. split_and!; [done|done|done|]. destruct Hc as [?|Hz]; [done|]. unfold SIZE_MAX in Hz. lia.
Qed.

Lemma hash_count_law h M : hash_keeps h M -> Z.of_nat (size M) <= INT_MAX -> kvs_hash_count h = Z.of_nat (size M).
Proof.
  intros [Hw Hm] Hs. unfold kvs_hash_count, kv_hash_count. rewrite (count_size h Hw), Hm, size_stored. destruct (Z.gtb_spec (Z.of_nat (size M)) INT_MAX); lia.
Qed.

#[export] Instance hash_engine : KvEngine (hashtable legacy_value) := {|
  eng_set := kvs_hash_set; eng_get := kvs_hash_get; eng_del := kvs_hash_delete; eng_mod := kvs_hash_modify; eng_count := kvs_hash_count;
  eng_missing := -1; eng_capacity := INT_MAX; eng_holds := hash_keeps;
  eng_missing_ok := or_intror eq_refl;
  eng_set_ok := hash_set_law; eng_get_ok := hash_get_law; eng_del_ok := hash_del_law; eng_mod_ok := hash_mod_law;
  eng_count_ok := hash_count_law
|}.
