(* ===== verification/LegacyServer.v ===== *)
(** The text protocol of the older server ([src/kvstore.c]): tokens, commands and
    their answers on the three engines. *)

From S2P Require Import Prelude Resp HashTable LegacyTree LegacyTreeProps LegacyEngines.

Definition KVSTORE_MAX_TOKENS : Z := 128.

Definition BUFFER_LENGTH : Z := 512.

Inductive kvstore_command : Type :=
| KVS_CMD_SET | KVS_CMD_GET | KVS_CMD_DEL | KVS_CMD_MOD | KVS_CMD_COUNT
| KVS_CMD_RSET | KVS_CMD_RGET | KVS_CMD_RDEL | KVS_CMD_RMOD | KVS_CMD_RCOUNT
| KVS_CMD_HSET | KVS_CMD_HGET | KVS_CMD_HDEL | KVS_CMD_HMOD | KVS_CMD_HCOUNT
| KVS_CMD_SIZE.

(** [commands] with their numbers, in the order of the array. *)
Definition commands : list (list Z * kvstore_command) :=
  [(lit "SET", KVS_CMD_SET); (lit "GET", KVS_CMD_GET); (lit "DEL", KVS_CMD_DEL); (lit "MOD", KVS_CMD_MOD); (lit "COUNT", KVS_CMD_COUNT);
   (lit "RSET", KVS_CMD_RSET); (lit "RGET", KVS_CMD_RGET); (lit "RDEL", KVS_CMD_RDEL); (lit "RMOD", KVS_CMD_RMOD); (lit "RCOUNT", KVS_CMD_RCOUNT);
   (lit "HSET", KVS_CMD_HSET); (lit "HGET", KVS_CMD_HGET); (lit "HDEL", KVS_CMD_HDEL); (lit "HMOD", KVS_CMD_HMOD); (lit "HCOUNT", KVS_CMD_HCOUNT)].

(** The engines with the flags of [kvstore_engine_init]. *)
Record engines : Type := mk_engines {
  Array : array_t; Tree : rbtree; Hash : hashtable legacy_value;
  array_initialized : bool; rbtree_initialized : bool; hash_initialized : bool
}.

Definition with_array (a : array_t) (g : engines) : engines :=
  mk_engines a (Tree g) (Hash g) (array_initialized g) (rbtree_initialized g) (hash_initialized g).

Definition with_tree (t : rbtree) (g : engines) : engines :=
  mk_engines (Array g) t (Hash g) (array_initialized g) (rbtree_initialized g) (hash_initialized g).

Definition with_hash (h : hashtable legacy_value) (g : engines) : engines :=
  mk_engines (Array g) (Tree g) h (array_initialized g) (rbtree_initialized g) (hash_initialized g).

(** ** Strings *)

(** The bytes before the first NUL. *)
Fixpoint until_nul (l : list Z) : list Z :=
  match l with
  | [] => []
  | c :: l => if c =? 0 then [] else c :: until_nul l
  end.

(** [written] or -1, with the string in the response buffer. *)
Definition write_response (capacity : Z) (text : list Z) : Z * list Z :=
  if zlen text >=? capacity then (-1, take (Z.to_nat (capacity - 1)) text) else (zlen text, text).

(** [" \t\r\n"] *)
Definition is_separator (c : Z) : bool := (c =? 32) || (c =? 9) || (c =? 13) || (c =? 10).

(** The calls of [strtok_r] on the rest of the message; [current] is the token
    that has begun. *)
Fixpoint tokens_from (current : list Z) (message : list Z) : list (list Z) :=
  match message with
  | [] => match current with [] => [] | _ => [current] end
  | c :: message =>
      if is_separator c
      then match current with [] => tokens_from [] message | _ => current :: tokens_from [] message end
      else tokens_from (current ++ [c]) message
  end.

Definition split_tokens (message : list Z) (capacity : Z) : list (list Z) :=
  take (Z.to_nat capacity) (tokens_from [] message).

(** ** Commands *)

Fixpoint find_in_commands (name : list Z) (l : list (list Z * kvstore_command)) : kvstore_command :=
  match l with
  | [] => KVS_CMD_SIZE
  | (text, command) :: l => if bool_decide (text = name) then command else find_in_commands name l
  end.

Definition find_command (name : list Z) : kvstore_command := find_in_commands name commands.

Definition command_arity (command : kvstore_command) : Z :=
  match command with
  | KVS_CMD_COUNT | KVS_CMD_RCOUNT | KVS_CMD_HCOUNT => 1
  | KVS_CMD_GET | KVS_CMD_DEL | KVS_CMD_RGET | KVS_CMD_RDEL | KVS_CMD_HGET | KVS_CMD_HDEL => 2
  | _ => 3
  end.

Definition format_mutation_result (capacity result : Z) : Z * list Z :=
  if result <? 0 then write_response capacity (lit "ERROR") else
  if result =? 0 then write_response capacity (lit "SUCCESS") else write_response capacity (lit "NO EXIST").

Definition format_set_result (capacity result : Z) : Z * list Z :=
  write_response capacity (if result =? 0 then lit "SUCCESS" else lit "FAILED").

(** ["%s"] prints the value up to its NUL. *)
Definition format_value (capacity : Z) (value : option (list Z)) : Z * list Z :=
  match value with
  | Some value => write_response capacity (until_nul value)
  | None => write_response capacity (lit "NO EXIST")
  end.

Definition format_count (capacity result : Z) : Z * list Z :=
  if result <? 0 then write_response capacity (lit "ERROR") else write_response capacity (decimal result).

Definition execute_command (m : mem) (g : engines) (command : kvstore_command) (tokens : list (list Z)) (capacity : Z)
  : Z * list Z * engines * mem :=
  let key := tokens !! 1%nat in
  let value := tokens !! 2%nat in
  match command with
  | KVS_CMD_SET => let '(result, a, m) := kvs_array_set m (Array g) key value in (format_set_result capacity result, with_array a g, m)
  | KVS_CMD_GET => (format_value capacity (kvs_array_get (Array g) key), g, m)
  | KVS_CMD_DEL => let '(result, a) := kvs_array_del (Array g) key in (format_mutation_result capacity result, with_array a g, m)
  | KVS_CMD_MOD => let '(result, a, m) := kvs_array_mod m (Array g) key value in (format_mutation_result capacity result, with_array a g, m)
  | KVS_CMD_COUNT => (format_count capacity (kvs_array_count (Array g)), g, m)
  | KVS_CMD_RSET => let '(result, t, m) := kvs_rbtree_set m (Tree g) key value in (format_set_result capacity result, with_tree t g, m)
  | KVS_CMD_RGET => (format_value capacity (kvs_rbtree_get (Tree g) key), g, m)
  | KVS_CMD_RDEL => let '(result, t) := kvs_rbtree_delete (Tree g) key in (format_mutation_result capacity result, with_tree t g, m)
  | KVS_CMD_RMOD => let '(result, t, m) := kvs_rbtree_modify m (Tree g) key value in (format_mutation_result capacity result, with_tree t g, m)
  | KVS_CMD_RCOUNT => (format_count capacity (kvs_rbtree_count (Tree g)), g, m)
  | KVS_CMD_HSET => let '(result, h, m) := kvs_hash_set m (Hash g) key value in (format_set_result capacity result, with_hash h g, m)
  | KVS_CMD_HGET => (format_value capacity (kvs_hash_get (Hash g) key), g, m)
  | KVS_CMD_HDEL => let '(result, h) := kvs_hash_delete (Hash g) key in (format_mutation_result capacity result, with_hash h g, m)
  | KVS_CMD_HMOD => let '(result, h, m) := kvs_hash_modify m (Hash g) key value in (format_mutation_result capacity result, with_hash h g, m)
  | KVS_CMD_HCOUNT => (format_count capacity (kvs_hash_count (Hash g)), g, m)
  | KVS_CMD_SIZE => (write_response capacity (lit "ERROR unknown command"), g, m)
  end.

(** ** Requests *)

(** An answer to a request that is refused: the result -1 with the text and its
    length, 0 when it does not fit. *)
Definition refuse (capacity : Z) (text : list Z) : Z * list Z * Z :=
  let '(written, response) := write_response capacity text in (-1, response, if written >=? 0 then written else 0).

(** The result, the string in the response buffer and [response_length].  The
    pointers are not null and the capacity is positive. *)
Definition kvstore_execute_request (m : mem) (g : engines) (request : list Z) (capacity : Z) : Z * list Z * Z * engines * mem :=
  if (zlen request =? 0) || (zlen request >=? BUFFER_LENGTH) then
    (refuse capacity (if zlen request =? 0 then lit "ERROR empty request" else lit "ERROR request too large"), g, m) else
  let tokens := split_tokens (until_nul request) KVSTORE_MAX_TOKENS in
  match tokens with
  | [] => (refuse capacity (lit "ERROR empty request"), g, m)
  | name :: _ =>
      let command := find_command name in
      match command with
      | KVS_CMD_SIZE => (refuse capacity (lit "ERROR unknown command"), g, m)
      | _ =>
          if negb (zlen tokens =? command_arity command) then (refuse capacity (lit "ERROR wrong number of arguments"), g, m) else
          let '(written, response, g, m) := execute_command m g command tokens capacity in
          if written <? 0 then (-1, response, 0, g, m) else (0, response, written, g, m)
      end
  end.

(** [wbuffer] up to its NUL. *)
Record conn_item : Type := mk_conn_item { rbuffer : list Z; rlen : Z; wbuffer : list Z; wlen : Z }.

Definition kvstore_request (m : mem) (g : engines) (item : conn_item) : Z * conn_item * engines * mem :=
  let request_length := if rlen item >? 0 then rlen item else zlen (until_nul (take (Z.to_nat BUFFER_LENGTH) (rbuffer item))) in
  let request := take (Z.to_nat request_length) (rbuffer item) in
  let '(result, response, response_length, g, m) := kvstore_execute_request m g request BUFFER_LENGTH in
  (result, mk_conn_item (rbuffer item) (rlen item) response response_length, g, m).

(** ** Set-up *)

Definition kvstore_engine_destroy (g : engines) : engines :=
  let h := if hash_initialized g then kvstore_hash_destory (Hash g) else Hash g in
  let t := if rbtree_initialized g then (kvstore_rbtree_destory (Tree g)).2 else Tree g in
  let a := if array_initialized g then kvstore_array_destory (Array g) else Array g in
  mk_engines a t h false false false.

(** A create that fails leaves its engine without memory. *)
Definition kvstore_engine_init (m : mem) (g : engines) : Z * engines * mem :=
  let fail (g : engines) (m : mem) := (-1, kvstore_engine_destroy g, m) in
  let '(result, a, m) := kvstore_array_create m (Array g) in
  let g := with_array a g in
  if negb (result =? 0) then fail g m else
  let g := mk_engines a (Tree g) (Hash g) true (rbtree_initialized g) (hash_initialized g) in
  let '(result, t, m) := kvstore_rbtree_create m in
  match t with
  | None => fail (with_tree (mk_rbtree Nil false 0) g) m
  | Some t =>
      let g := mk_engines (Array g) t (Hash g) true true (hash_initialized g) in
      match kvstore_hash_create m with
      | (None, m) => fail g m
      | (Some h, m) => (0, mk_engines (Array g) t h true true true, m)
      end
  end.
