(* ===== verification/LegacyProps.v ===== *)
(** The text protocol serves the words of a request on three finite maps. *)

From S2P Require Import Prelude Resp HashTable ZOrder ZRbTree LegacyTree LegacyTreeProps LegacyEngines LegacyServer.

(** ** Words *)

Definition word_byte (c : Z) : Prop := is_separator c = false /\ c <> 0.

(** A text made of words with separators before, between and after them. *)
Inductive spaced : list (list Z) -> list Z -> Prop :=
| spaced_end sep : Forall (fun c => is_separator c = true) sep -> spaced [] sep
| spaced_word sep w ws rest :
    Forall (fun c => is_separator c = true) sep -> w <> [] -> Forall word_byte w ->
    spaced ws rest -> (forall c, head rest = Some c -> is_separator c = true) -> spaced (w :: ws) (sep ++ w ++ rest).

Lemma tokens_skip sep text : Forall (fun c => is_separator c = true) sep -> tokens_from [] (sep ++ text) = tokens_from [] text.
Proof. induction 1 as [|c sep Hc _ IH]; [done|]. cbn. by rewrite Hc. Qed.

Lemma tokens_read current w rest :
  Forall word_byte w -> (forall c, head rest = Some c -> is_separator c = true) -> current ++ w <> [] ->
  tokens_from current (w ++ rest) = (current ++ w) :: tokens_from [] rest.
Proof.
  intros Hw Hr. revert current. induction Hw as [|c w [Hc _] _ IH]; intros current Hne.
  - rewrite app_nil_r in *. cbn. destruct rest as [|c rest]; cbn; [by destruct current|]. rewrite (Hr c eq_refl). by destruct current.
  - cbn. rewrite Hc, IH; [|by destruct current]. by rewrite <- app_assoc.
Qed.

Lemma tokens_spaced ws text : spaced ws text -> tokens_from [] text = ws.
Proof.
  induction 1 as [sep Hs|sep w ws rest Hs Hne Hw _ IH Hr].
  - rewrite <- (app_nil_r sep), tokens_skip by done. done.
  - rewrite tokens_skip by done. rewrite tokens_read by done. by rewrite IH.
Qed.

Lemma spaced_string ws text rest : spaced ws text -> until_nul (text ++ 0 :: rest) = text /\ until_nul text = text.
Proof.
  assert (Hsep : forall c, is_separator c = true -> c <> 0) by (intros c H ->; done).
  intros H. assert (Hnz : Forall (fun c => c <> 0) text).
  { induction H as [sep Hs|sep w ws rest' Hs _ Hw _ IH _]; [by eapply Forall_impl|]. rewrite !Forall_app. split_and!; [by eapply Forall_impl| |done].
    eapply Forall_impl; [exact Hw|]. by intros c []. }
  clear H. induction Hnz as [|c text Hc _ [IH1 IH2]]; [done|]. cbn. destruct (Z.eqb_spec c 0); [done|]. by rewrite IH1, IH2.
Qed.

(** ** What a request asks for *)

Inductive which : Type := InArray | InTree | InHash.

Inductive verb : Type := VSet | VGet | VDel | VMod | VCount.

Definition vocabulary : list (list Z * (which * verb)) :=
  [(lit "SET", (InArray, VSet)); (lit "GET", (InArray, VGet)); (lit "DEL", (InArray, VDel)); (lit "MOD", (InArray, VMod)); (lit "COUNT", (InArray, VCount));
   (lit "RSET", (InTree, VSet)); (lit "RGET", (InTree, VGet)); (lit "RDEL", (InTree, VDel)); (lit "RMOD", (InTree, VMod)); (lit "RCOUNT", (InTree, VCount));
   (lit "HSET", (InHash, VSet)); (lit "HGET", (InHash, VGet)); (lit "HDEL", (InHash, VDel)); (lit "HMOD", (InHash, VMod)); (lit "HCOUNT", (InHash, VCount))].

Definition operands (vb : verb) (args : list (list Z)) : option (list Z * list Z) :=
  match vb, args with
  | VSet, [k; v] | VMod, [k; v] => Some (k, v)
  | VGet, [k] | VDel, [k] => Some (k, [])
  | VCount, [] => Some ([], [])
  | _, _ => None
  end.

Inductive outcome : Type := Refuse (text : list Z) | Serve (w : which) (vb : verb) (k v : list Z).

Definition classify (ws : list (list Z)) : outcome :=
  match ws with
  | [] => Refuse (lit "ERROR empty request")
  | name :: args =>
      match (list_to_map vocabulary : gmap (list Z) (which * verb)) !! name with
      | None => Refuse (lit "ERROR unknown command")
      | Some (w, vb) =>
          match operands vb args with
          | Some (k, v) => Serve w vb k v
          | None => Refuse (lit "ERROR wrong number of arguments")
          end
      end
  end.

(** The answers of a map to a command; [missing] is how its engine reports an
    absent key, [m] and [capacity] what can refuse a new key or value. *)
Inductive answers (missing capacity : Z) (m : mem) (M : gmap (list Z) (list Z))
  : verb -> list Z -> list Z -> list Z -> gmap (list Z) (list Z) -> Prop :=
| ans_set k v : M !! k = None -> answers missing capacity m M VSet k v (lit "SUCCESS") (<[k := v]> M)
| ans_set_failed k v : is_Some (M !! k) \/ m <> [] \/ capacity <= Z.of_nat (size M) -> answers missing capacity m M VSet k v (lit "FAILED") M
| ans_get k v x : M !! k = Some x -> answers missing capacity m M VGet k v x M
| ans_get_none k v : M !! k = None -> answers missing capacity m M VGet k v (lit "NO EXIST") M
| ans_del k v : is_Some (M !! k) -> answers missing capacity m M VDel k v (lit "SUCCESS") (delete k M)
| ans_mod k v : is_Some (M !! k) -> answers missing capacity m M VMod k v (lit "SUCCESS") (<[k := v]> M)
| ans_mod_failed k v : is_Some (M !! k) -> m <> [] -> answers missing capacity m M VMod k v (lit "ERROR") M
| ans_absent vb k v : vb = VDel \/ vb = VMod -> M !! k = None ->
    answers missing capacity m M vb k v (if missing =? 1 then lit "NO EXIST" else lit "ERROR") M
| ans_count k v : answers missing capacity m M VCount k v (decimal (Z.of_nat (size M))) M.

(** Values that came as words of a request. *)
Definition worded (M : gmap (list Z) (list Z)) : Prop := map_Forall (fun _ v => Forall word_byte v /\ zlen v < BUFFER_LENGTH) M.

(** ** Commands on one engine *)

Definition eng_execute `{KvEngine E} (m : mem) (e : E) (vb : verb) (k v : option (list Z)) (capacity : Z) : Z * list Z * E * mem :=
  match vb with
  | VSet => let '(result, e, m) := eng_set m e k v in (format_set_result capacity result, e, m)
  | VGet => (format_value capacity (eng_get e k), e, m)
  | VDel => let '(result, e) := eng_del e k in (format_mutation_result capacity result, e, m)
  | VMod => let '(result, e, m) := eng_mod m e k v in (format_mutation_result capacity result, e, m)
  | VCount => (format_count capacity (eng_count e), e, m)
  end.

Lemma word_string v : Forall word_byte v -> until_nul (v ++ [0]) = v.
Proof. induction 1 as [|c v [_ Hc] _ IH]; [done|]. cbn. destruct (Z.eqb_spec c 0); [done|]. by rewrite IH. Qed.

Lemma write_fits text : zlen text < BUFFER_LENGTH -> write_response BUFFER_LENGTH text = (zlen text, text).
Proof. intros H. unfold write_response. destruct (Z.geb_spec (zlen text) BUFFER_LENGTH); [lia|done]. Qed.

Lemma eng_execute_ok `{KvEngine E} m (e : E) M vb k v :
  eng_holds e M -> worded M -> Z.of_nat (size M) <= INT_MAX -> zlen k < BUFFER_LENGTH -> zlen v < BUFFER_LENGTH -> Forall word_byte v ->
  let '(written, text, e', _) := eng_execute m e vb (Some k) (Some v) BUFFER_LENGTH in
  written = zlen text /\
  exists M', eng_holds e' M' /\ worded M' /\ answers eng_missing eng_capacity m M vb k v text M'.
Proof.
  intros He HM Hsz Hk Hv Hw. assert (Hbig : BUFFER_LENGTH < 2 ^ 62) by done.
  assert (Hins : worded (<[k := v]> M)) by (by apply map_Forall_insert_2).
  destruct vb; cbn [eng_execute].
  - pose proof (eng_set_ok m e M k v He ltac:(lia) ltac:(lia)) as Hs. destruct (eng_set m e (Some k) (Some v)) as [[r e'] m'].
    unfold format_set_result. destruct Hs as [(-> & HMk & He')|(Hr & He' & Hwhy)].
    + cbn [Z.eqb]. rewrite write_fits by done. split; [done|]. eexists. split_and!; [exact He'|done|by constructor].
    + destruct (Z.eqb_spec r 0); [done|]. rewrite write_fits by done. split; [done|]. exists M. split_and!; [done|done|]. constructor.
      destruct (decide (m = [])) as [Em|]; [|by auto]. destruct (decide (Z.of_nat (size M) < eng_capacity)); [left; by apply Hwhy|right; right; lia].
  - rewrite (eng_get_ok e M k He). unfold format_value. destruct (M !! k) as [x|] eqn:E'; cbn.
    + destruct (map_Forall_lookup_1 _ _ _ _ HM E') as [Hx Hl]. rewrite word_string, write_fits by done. split; [done|]. exists M. split_and!; [done|done|by constructor].
    + rewrite write_fits by done. split; [done|]. exists M. split_and!; [done|done|by constructor].
  - pose proof (eng_del_ok e M k He) as Hd. destruct (eng_del e (Some k)) as [r e']. destruct Hd as [He' ->].
    assert (Hdel : worded (delete k M)) by (by apply map_Forall_delete). unfold format_mutation_result. destruct (M !! k) as [x|] eqn:E'.
    + cbn [Z.ltb Z.eqb]. change (0 <? 0) with false. cbn. rewrite write_fits by done. split; [done|]. eexists. split_and!; [exact He'|done|]. constructor. by rewrite E'.
    + rewrite delete_id in He' by done. assert (Ht : answers eng_missing eng_capacity m M VDel k v (if eng_missing =? 1 then lit "NO EXIST" else lit "ERROR") M) by (constructor; auto).
      destruct eng_missing_ok as [Em|Em]; rewrite Em in *; cbn in *; rewrite write_fits by done; (split; [done|]); exists M; split_and!; done.
  - pose proof (eng_mod_ok m e M k v He ltac:(lia)) as Hs. destruct (eng_mod m e (Some k) (Some v)) as [[r e'] m']. unfold format_mutation_result.
    destruct Hs as [(-> & HMk & He')|[(-> & HMk & He')|(-> & HMk & He' & Hm)]].
    + cbn. rewrite write_fits by done. split; [done|]. eexists. split_and!; [exact He'|done|by constructor].
    + assert (Ht : answers eng_missing eng_capacity m M VMod k v (if eng_missing =? 1 then lit "NO EXIST" else lit "ERROR") M) by (constructor; auto).
      destruct eng_missing_ok as [Em|Em]; rewrite Em in *; cbn in *; rewrite write_fits by done; (split; [done|]); exists M; split_and!; done.
    + cbn. rewrite write_fits by done. split; [done|]. exists M. split_and!; [done|done|by constructor].
  - rewrite (eng_count_ok e M He Hsz). unfold format_count. destruct (Z.ltb_spec (Z.of_nat (size M)) 0); [lia|].
    assert (Hu : 0 <= Z.of_nat (size M) <= UINT64_MAX) by (unfold INT_MAX, UINT64_MAX in *; lia). destruct (decimal_spec _ Hu) as (_ & Hl & _).
    rewrite write_fits by (unfold BUFFER_LENGTH; lia). split; [done|]. exists M. split_and!; [done|done|constructor].
Qed.

(** ** Requests *)

Definition engines_hold (g : engines) (D : which -> gmap (list Z) (list Z)) : Prop :=
  eng_holds (Array g) (D InArray) /\ eng_holds (Tree g) (D InTree) /\ eng_holds (Hash g) (D InHash).

#[export] Instance which_eq_dec : EqDecision which.
Proof. solve_decision. Defined.

Definition put_map (D : which -> gmap (list Z) (list Z)) (w : which) (M : gmap (list Z) (list Z)) (w' : which) : gmap (list Z) (list Z) :=
  if decide (w' = w) then M else D w'.

Definition missing_of (w : which) : Z := match w with InArray => 1 | InTree | InHash => -1 end.

Definition capacity_of (w : which) : Z := match w with InArray => KVS_ARRAY_SIZE | InTree | InHash => INT_MAX end.

Definition command_of (w : which) (vb : verb) : kvstore_command :=
  match w, vb with
  | InArray, VSet => KVS_CMD_SET | InArray, VGet => KVS_CMD_GET | InArray, VDel => KVS_CMD_DEL | InArray, VMod => KVS_CMD_MOD | InArray, VCount => KVS_CMD_COUNT
  | InTree, VSet => KVS_CMD_RSET | InTree, VGet => KVS_CMD_RGET | InTree, VDel => KVS_CMD_RDEL | InTree, VMod => KVS_CMD_RMOD | InTree, VCount => KVS_CMD_RCOUNT
  | InHash, VSet => KVS_CMD_HSET | InHash, VGet => KVS_CMD_HGET | InHash, VDel => KVS_CMD_HDEL | InHash, VMod => KVS_CMD_HMOD | InHash, VCount => KVS_CMD_HCOUNT
  end.

Lemma find_command_spec name :
  find_command name = match (list_to_map vocabulary : gmap (list Z) (which * verb)) !! name with
                      | Some (w, vb) => command_of w vb
                      | None => KVS_CMD_SIZE
                      end.
Proof.
  unfold find_command, commands, vocabulary, list_to_map. cbn [find_in_commands foldr].
  repeat (case_bool_decide; [subst; by rewrite lookup_insert_eq|rewrite lookup_insert_ne by done]). done.
Qed.

Lemma arity_spec name args w vb :
  (zlen (take 128 (name :: args)) =? command_arity (command_of w vb)) = is_Some_bool (operands vb args).
Proof.
  destruct args as [|a [|b [|c args]]]; [by destruct w, vb..|].
  change (take 128 (name :: a :: b :: c :: args)) with (name :: a :: b :: c :: take 124 args). rewrite !zlen_cons.
  pose proof (zlen_nonneg (take 124 args)). destruct (Z.eqb_spec (1 + (1 + (1 + (1 + zlen (take 124 args))))) (command_arity (command_of w vb))) as [E|_].
  - exfalso. destruct w, vb; cbn in E; lia.
  - by destruct vb.
Qed.

Lemma execute_command_eq m g w vb tokens capacity :
  execute_command m g (command_of w vb) tokens capacity =
  match w with
  | InArray => let '(out, e, m) := eng_execute m (Array g) vb (tokens !! 1%nat) (tokens !! 2%nat) capacity in (out, with_array e g, m)
  | InTree => let '(out, e, m) := eng_execute m (Tree g) vb (tokens !! 1%nat) (tokens !! 2%nat) capacity in (out, with_tree e g, m)
  | InHash => let '(out, e, m) := eng_execute m (Hash g) vb (tokens !! 1%nat) (tokens !! 2%nat) capacity in (out, with_hash e g, m)
  end.
Proof.
  destruct g, w, vb; cbn; try done.
  all: match goal with |- context [let '(_, _) := ?x in _] => by destruct x as [[? ?] ?] || by destruct x end.
Qed.

Lemma eng_execute_operands `{KvEngine E} m (e : E) vb args k v capacity :
  operands vb args = Some (k, v) -> eng_execute m e vb (args !! 0%nat) (args !! 1%nat) capacity = eng_execute m e vb (Some k) (Some v) capacity.
Proof. intros Hop. destruct vb, args as [|x [|y [|? ?]]]; try done; by injection Hop as <- <-. Qed.

Lemma execute_command_ok m g D w vb name k v args :
  engines_hold g D -> (forall w, worded (D w) /\ Z.of_nat (size (D w)) <= INT_MAX) -> operands vb args = Some (k, v) ->
  Forall (fun x => Forall word_byte x /\ zlen x < BUFFER_LENGTH) args ->
  let '(written, text, g', _) := execute_command m g (command_of w vb) (name :: args) BUFFER_LENGTH in
  written = zlen text /\
  exists M', engines_hold g' (put_map D w M') /\ worded M' /\ answers (missing_of w) (capacity_of w) m (D w) vb k v text M'.
Proof.
  intros (Ha & Ht & Hh) HD Hop Hargs.
  assert (Hkv : zlen k < BUFFER_LENGTH /\ zlen v < BUFFER_LENGTH /\ Forall word_byte v).
  { destruct vb, args as [|x [|y [|? ?]]]; try done; injection Hop as <- <-; rewrite ?Forall_cons in Hargs; naive_solver. }
  destruct Hkv as (Hk & Hv & Hw), (HD w) as [Hwd Hsz]. rewrite execute_command_eq. cbn [lookup list_lookup]. fold (args !! 0%nat) (args !! 1%nat).
  destruct w; rewrite (eng_execute_operands m _ vb args k v _ Hop).
  - pose proof (eng_execute_ok m (Array g) (D InArray) vb k v Ha Hwd Hsz Hk Hv Hw) as He.
    destruct (eng_execute m (Array g) vb _ _ _) as [[[written text] e] m']. destruct He as (-> & M' & ? & ? & ?). split; [done|]. exists M'. by split_and!.
  - pose proof (eng_execute_ok m (Tree g) (D InTree) vb k v Ht Hwd Hsz Hk Hv Hw) as He.
    destruct (eng_execute m (Tree g) vb _ _ _) as [[[written text] e] m']. destruct He as (-> & M' & ? & ? & ?). split; [done|]. exists M'. by split_and!.
  - pose proof (eng_execute_ok m (Hash g) (D InHash) vb k v Hh Hwd Hsz Hk Hv Hw) as He.
    destruct (eng_execute m (Hash g) vb _ _ _) as [[[written text] e] m']. destruct He as (-> & M' & ? & ? & ?). split; [done|]. exists M'. by split_and!.
Qed.

(** The bytes of an item that are the request. *)
Definition received (item : conn_item) (request : list Z) : Prop :=
  zlen (rbuffer item) = BUFFER_LENGTH /\
  (0 < rlen item <= BUFFER_LENGTH /\ request = take (Z.to_nat (rlen item)) (rbuffer item) \/ rlen item = 0 /\ request = until_nul (rbuffer item)).

Lemma spaced_words ws text : spaced ws text -> Forall (fun x => Forall word_byte x /\ zlen x <= zlen text) ws.
Proof.
  induction 1 as [sep Hs|sep w ws rest Hs Hne Hw _ IH Hr]; [constructor|]. constructor.
  - split; [done|]. rewrite !zlen_app. pose proof (zlen_nonneg sep). pose proof (zlen_nonneg rest). lia.
  - eapply Forall_impl; [exact IH|]. intros x [? ?]. split; [done|]. rewrite !zlen_app. pose proof (zlen_nonneg sep). pose proof (zlen_nonneg w). lia.
Qed.

Lemma until_nul_prefix l : exists rest, l = until_nul l ++ rest.
Proof. induction l as [|c l [rest IH]]; [by exists []|]. cbn. destruct (c =? 0); [by exists (c :: l)|]. exists rest. cbn. by rewrite <- IH. Qed.

Lemma until_nul_short l : zlen (until_nul l) <= zlen l.
Proof. destruct (until_nul_prefix l) as [rest E]. rewrite E at 2. rewrite zlen_app. pose proof (zlen_nonneg rest). lia. Qed.

Lemma until_nul_idem l : until_nul (until_nul l) = until_nul l.
Proof. induction l as [|c l IH]; [done|]. cbn. destruct (c =? 0) eqn:E; [done|]. cbn. by rewrite E, IH. Qed.

Lemma request_of_item item request :
  received item request ->
  take (Z.to_nat (if rlen item >? 0 then rlen item else zlen (until_nul (take (Z.to_nat BUFFER_LENGTH) (rbuffer item))))) (rbuffer item) = request.
Proof.
  intros [Hl [[Hr ->]|[Hr ->]]].
  - by destruct (Z.gtb_spec (rlen item) 0); [|lia].
  - rewrite Hr. cbn [Z.gtb Z.compare]. rewrite (take_ge (rbuffer item) (Z.to_nat BUFFER_LENGTH)) by (unfold zlen in Hl; lia). destruct (until_nul_prefix (rbuffer item)) as [rest E].
    rewrite E at 2. unfold zlen. rewrite Nat2Z.id. by rewrite take_app_length.
Qed.

(** C9. The text protocol serves every request on three finite maps of fewer
    than [INT_MAX] keys each: the request is cut into its words, whatever
    separates them; a request that is too long, empty, unknown or has a wrong
    number of words is refused with its message and changes nothing, and every
    other request is answered from the map of its engine and updates only that
    map, where a SET that fails or an ERROR of a MOD needs an existing key, a
    full array or a failed allocation.  The answer always fits the buffer. *)
Theorem legacy_request_correct m g D item request ws :
  engines_hold g D -> (forall w, worded (D w) /\ Z.of_nat (size (D w)) < INT_MAX) ->
  received item request -> spaced ws (until_nul request) ->
  let '(result, item', g', _) := kvstore_request m g item in
  wlen item' = zlen (wbuffer item') /\ rbuffer item' = rbuffer item /\
  match (if zlen request >=? BUFFER_LENGTH then Refuse (lit "ERROR request too large") else classify ws) with
  | Refuse text => result = -1 /\ wbuffer item' = text /\ g' = g
  | Serve w vb k v =>
      result = 0 /\
      exists M', engines_hold g' (put_map D w M') /\ worded M' /\ answers (missing_of w) (capacity_of w) m (D w) vb k v (wbuffer item') M'
  end.
Proof.
  intros Hg HD Hrec Hsp. unfold kvstore_request. rewrite (request_of_item item request Hrec). unfold kvstore_execute_request.
  assert (Hrefuse : forall text, zlen text < BUFFER_LENGTH -> refuse BUFFER_LENGTH text = (-1, text, zlen text)).
  { intros text Hl. unfold refuse. rewrite write_fits by done. pose proof (zlen_nonneg text). destruct (Z.geb_spec (zlen text) 0); [done|lia]. }
  destruct (Z.geb_spec (zlen request) BUFFER_LENGTH) as [Hlong|Hshort].
  { rewrite orb_true_r. destruct (Z.eqb_spec (zlen request) 0) as [E|_]; [unfold BUFFER_LENGTH in Hlong; lia|]. rewrite Hrefuse by done. done. }
  rewrite orb_false_r. pose proof (tokens_spaced _ _ Hsp) as Htok. pose proof (spaced_words _ _ Hsp) as Hws.
  destruct (Z.eqb_spec (zlen request) 0) as [E|Hne].
  { assert (request = []) as -> by (destruct request; [done|rewrite zlen_cons in E; pose proof (zlen_nonneg request); lia]). cbn in Htok. subst ws. rewrite Hrefuse by done. done. }
  unfold split_tokens. rewrite Htok. change (Z.to_nat KVSTORE_MAX_TOKENS) with 128%nat.
  destruct ws as [|name args]; [cbn [take classify]; by rewrite Hrefuse by done|].
  cbn [classify]. pose proof (find_command_spec name) as Hfind.
  pose proof (arity_spec name args) as Har. cbn [take] in Har |- *. rewrite Hfind.
  destruct ((list_to_map vocabulary : gmap (list Z) (which * verb)) !! name) as [[w vb]|]; [|by rewrite Hrefuse by done].
  assert (Hskip : forall T (a b : T), match command_of w vb with KVS_CMD_SIZE => a | _ => b end = b) by (by destruct w, vb).
  rewrite Hskip, Har. destruct (operands vb args) as [[k v]|] eqn:Hop; cbn [is_Some_bool negb]; [|by rewrite Hrefuse by done].
  assert (Hfew : take 127 args = args) by (apply take_ge; destruct vb, args as [|x [|y [|? ?]]]; cbn in *; done || lia). rewrite Hfew.
  assert (Hargs : Forall (fun x => Forall word_byte x /\ zlen x < BUFFER_LENGTH) args).
  { apply Forall_cons in Hws as [_ Hws]. eapply Forall_impl; [exact Hws|]. intros x [? ?]. split; [done|]. pose proof (until_nul_short request). lia. }
  pose proof (execute_command_ok m g D w vb name k v args Hg (fun i => conj (proj1 (HD i)) (Z.lt_le_incl _ _ (proj2 (HD i)))) Hop Hargs) as He.
  destruct (execute_command _ _ _ _ _) as [[[written text] g'] m']. destruct He as (-> & M' & ? & ? & ?). pose proof (zlen_nonneg text).
  destruct (Z.ltb_spec (zlen text) 0); [lia|]. cbn. split_and!; [done|done|done|]. exists M'. done.
Qed.

(** A start with all allocations done gives three empty maps. *)
Lemma init_holds m g g' m' : kvstore_engine_init m g = (0, g', m') -> engines_hold g' (fun _ => ∅).
Proof.
  unfold kvstore_engine_init, kvstore_array_create. destruct (malloc m) as [[] m1]; cbn [negb Z.eqb]; [|done]. cbn [with_array].
  destruct (kvstore_rbtree_create m1) as [[r t] m2] eqn:Et. destruct t as [t|]; [|done].
  destruct (kvstore_hash_create m2) as [h m3] eqn:Eh. destruct h as [h|]; [|done]. intros [= <- _]. split_and!; cbn [Array Tree Hash eng_holds array_engine tree_engine hash_engine].
  - exists []. split; try done. constructor.
  - unfold tree_keeps. rewrite fmap_empty. assert (r = 0) as ->; [|by eapply create_tree_holds]. unfold kvstore_rbtree_create in Et.
    destruct (malloc m1) as [[] ?]; cbn in Et; [|done]. destruct (malloc _) as [[] ?]; cbn in Et; by injection Et.
  - unfold hash_keeps. rewrite fmap_empty. unfold kvstore_hash_create in Eh. pose proof (create_spec (V := legacy_value) (true :: m2)) as Hc.
    unfold kv_hash_create in Hc. cbn [malloc negb] in Hc. rewrite Eh in Hc. by destruct Hc as (? & ? & _).
Qed.

Definition no_engines : engines :=
  mk_engines (mk_array [] 0) (mk_rbtree Nil false 0) (mk_hashtable zero_table zero_table 0 HASH_REHASH_NONE) false false false.

Definition fresh_engines : engines := (kvstore_engine_init [] no_engines).1.2.

Lemma fresh_engines_hold : engines_hold fresh_engines (fun _ => ∅).
Proof. apply (init_holds [] no_engines fresh_engines []). vm_compute. reflexivity. Qed.

Definition item_of (text : list Z) : conn_item :=
  mk_conn_item (text ++ replicate (Z.to_nat BUFFER_LENGTH - length text) 0) 0 [] 0.

Lemma legacy_request_correct_witness :
  let '(result, item', g', _) := kvstore_request [] fresh_engines (item_of (lit "RSET  key value")) in
  wlen item' = zlen (wbuffer item') /\ rbuffer item' = rbuffer (item_of (lit "RSET  key value")) /\ result = 0 /\
  exists M', engines_hold g' (put_map (fun _ => ∅) InTree M') /\ worded M' /\
    answers (-1) INT_MAX [] ∅ VSet (lit "key") (lit "value") (wbuffer item') M'.
Proof.
  apply (legacy_request_correct [] fresh_engines (fun _ => ∅) (item_of (lit "RSET  key value")) (lit "RSET  key value") [lit "RSET"; lit "key"; lit "value"]).
  - exact fresh_engines_hold.
  - intros w. split; [apply map_Forall_empty|vm_compute; reflexivity].
  - split; [vm_compute; reflexivity|]. right. split; vm_compute; reflexivity.
  - assert (Hw : forall w, forallb (fun c => negb (is_separator c) && negb (c =? 0)) w = true -> Forall word_byte w).
    { intros w H. rewrite forallb_forall in H. apply Forall_forall. intros c Hc. apply list_elem_of_In in Hc. apply H in Hc. unfold word_byte. zb. done. }
    apply (spaced_word [] (lit "RSET") _ (lit "  key value")); [constructor|done|by apply Hw| |by intros c [= <-]].
    apply (spaced_word (lit "  ") (lit "key") _ (lit " value")); [by repeat constructor|done|by apply Hw| |by intros c [= <-]].
    apply (spaced_word (lit " ") (lit "value") _ []); [by repeat constructor|done|by apply Hw| |done]. by apply spaced_end.
Defined.
